(* ===== verification/_CoqProject ===== *)
-Q . S2P
Prelude.v
Endian.v
Intset.v
Rand.v
Util.v
Dict.v
DictScan.v
DictIter.v
Table.v
Crc64.v
Lzf.v
Sds.v
SdsText.v
Object.v
Number.v
Client.v
Reply.v
ReplySpec.v
ReplyOps.v
ReplyText.v
ReplySend.v
ReplyDeferred.v
ReplyThms.v
Server.v
Commands.v
DbSpec.v
DbOps.v
DbKeys.v
DbReply.v
DbObject.v
CommandSpec.v
StringOps.v
KeyOps.v
CommandThms.v
Observe.v
Effects.v
Passed.v
CommandProps.v
Input.v
InputSpec.v
InputOps.v
InputStream.v
InputThms.v
InputErrors.v
RequestThms.v
Aof.v
Call.v
AofOps.v
Replay.v
ReplayThms.v
Load.v
LoadThms.v
AofThms.v
Adlist.v
AdlistThms.v
Multi.v
MultiSpec.v
MultiOps.v
MultiStrings.v
MultiThms.v
Value.v
SetType.v
SetSpec.v
SetIter.v
SetThms.v
Rio.v
Rdb.v
RdbSpec.v
RdbThms.v
RdbLoad.v
Skiplist.v
SkiplistSpec.v
SkiplistOps.v
SkiplistThms.v
Ziplist.v
ZiplistSpec.v
ZiplistOps.v
ZiplistDelete.v
ZiplistNav.v
ZiplistThms.v
