(* ===== verification/Prelude.v ===== *)
(** * A verification development for the Redis server bundled with phonograph

    The repository is a small web application ([app.py], [static/],
    [templates/]) with the sources of the key-value server it stores its data
    in ([redis-stable/], version 2.8).  The program verified here is that
    server, in C, under [redis-stable/src]; file names below are relative to
    that directory.

    ** The program

    A client's bytes are parsed into requests and its replies are buffered and
    sent as the socket takes them ([networking.c]).  A request is looked up in
    the table of commands, refused, queued in a transaction or run ([redis.c],
    [multi.c]).  Handlers ([t_string.c], [db.c], [t_set.c]) work on a key space
    of two tables, from keys to values and from keys to the times they expire
    at, with lazy expiry; what they change is signalled to clients that watch
    it, counted, and appended to a file that is read back at the next start
    ([aof.c]), or saved whole as a dump ([rdb.c], [rio.c]).  Underneath are
    reference-counted string objects ([object.c]), dynamic strings ([sds.c]),
    hash tables rehashed incrementally ([dict.c]), integer sets ([intset.c]),
    linked lists ([adlist.c]), compact lists ([ziplist.c]), the skip list of
    sorted sets ([t_zset.c]), conversions ([util.c], [endianconv.c]),
    compression ([lzf_c.c], [lzf_d.c]), a checksum ([crc64.c]) and a generator
    ([rand.c]).

    ** Files

    Each component has a file of definitions, named after its part of the code;
    files whose names end in [Spec], [Ops], [Thms] and the like state its
    contract, prove it operation by operation, and hold the theorems.

    - [Prelude]: machine integers ([uwrap], [swrap]), buffers of bytes whose
      accesses fail out of bounds ([mread], [mwrite], [mget], [mset],
      [memmove], [memcpy], [zrealloc]), tactics, and lemmas on lists.
    - Numbers and bytes: [Endian] (class [Host]: either byte order), [Util],
      [Number] ([strtoll] and what a string object is as a number), [Rand],
      [Crc64], [Lzf].
    - Strings and objects: [Sds] with the contract [rep], [SdsText]; [Object],
      the heap of reference-counted objects; [Value], string objects by value.
    - Hash tables: [Dict] (contract [DictLaws] of a [dictType]), [DictScan]
      (cursors), [DictIter] (iterators and random entries); [Table], the
      interface [KeyTable] the key space uses, which [Dict] implements.
    - Collections: [Intset]; [SetType], [SetSpec], [SetIter], [SetThms] (both
      representations of a set, its iterator and the loops of SINTER, SUNION
      and SDIFF); [Adlist], [AdlistThms]; [Ziplist], [ZiplistSpec],
      [ZiplistOps], [ZiplistDelete], [ZiplistNav], [ZiplistThms]; [Skiplist],
      [SkiplistSpec], [SkiplistOps], [SkiplistThms].
    - Clients: [Client] (the fields of a client); [Reply], [ReplySpec],
      [ReplyOps], [ReplyText], [ReplySend], [ReplyDeferred], [ReplyThms] (the
      output); [Input], [InputSpec], [InputOps], [InputStream], [InputThms],
      [InputErrors], [RequestThms] (the input).
    - Commands: [Server] (the functions of [db.c] on a state with the heap, the
      client and the database) and [Commands] (the handlers); [DbSpec] (the
      relation [R] to the key space as maps), [DbOps], [DbKeys], [DbReply],
      [DbObject]; [CommandSpec] (what each command does, on texts),
      [StringOps], [KeyOps], [CommandThms] (the handlers do it); [Observe],
      [Effects], [Passed] (what can be seen, is reported, is passed on),
      [CommandProps] (the theorems).
    - The append-only file: [Aof] (what is appended), [Call] ([call],
      [propagate] and the deletions of [propagateExpire]), [AofOps], [Replay]
      and [ReplayThms] (what a log means), [Load] and [LoadThms] (the loader),
      [AofThms].
    - Dispatch and transactions: [Multi], [MultiSpec], [MultiOps],
      [MultiStrings] (the commands of [CommandThms] as its commands),
      [MultiThms].
    - Dump files: [Rio], [Rdb], [RdbSpec], [RdbThms], [RdbLoad].

    ** How the code is modelled

    A C integer of [w] bits is a [Z] in its range; every place where the code
    may wrap has [uwrap] or [swrap].  Memory blocks are lists of bytes, nodes
    and objects live in heaps of addresses; an access out of bounds or to what
    was freed, a failed assertion and an exhausted loop are [None], so a theorem
    that a function returns [Some] says that it stays in bounds and ends.
    Uninitialised memory is a parameter ([junk]), and so are the addresses the
    allocator returns where they matter; the allocator does not fail, as running
    out of memory ends the process.  Loops that are not structural run on fuel
    that is a bound the code itself has (the size of the table, of the heap, of
    the block, of the file); the theorems prove that it is enough.  Functions
    of the C library that read strings are defined as the standard has them in
    the C locale; functions that draw random numbers take the numbers as an
    argument; the clock is an argument, the same throughout a command.

    What handlers tell other parts of the server is recorded in order as events
    ([Server]); a deletion that [propagateExpire] passes on in the middle of a
    command is appended to the file by [Call.call], in order and before the
    command itself, which is the same since no handler reads the buffer.

    ** What is proved

    - The handlers of 26 commands on strings and keys implement a
      specification on texts, on every path, with exact reference counts
      ([commands_refine]); keys past their time cannot be seen
      ([expired_keys_invisible]); every change is signalled
      ([changes_are_told]) and counted ([changes_are_counted]).
    - Requests: however the bytes are split, exactly the commands they encode
      run ([requests_served]); malformed ones are refused
      ([malformed_refused]); no bytes make the parsers leave their buffers
      ([input_total]).  Replies extend the client's stream
      ([replies_extend_stream]) and reach the socket
      ([replies_reach_socket]).
    - The append-only file: what a call appends ([call_appends]); any run of
      the handlers is restored from it ([aof_restored]); a file cut anywhere
      loads up to its last whole command ([aof_cut_loads]).
    - Transactions: watched keys ([watched_keys_are_kept],
      [watching_is_consistent]), the results of [EXEC] ([exec_result]), what
      is passed on ([transaction_logged_whole]), errors while queueing
      ([queue_error_aborts]).
    - Dumps: what is saved is restored ([dump_restored]) or reported as failed
      ([dump_saved_or_failed]); loading ends on every file ([load_ends]) and
      takes exactly the well-formed files with a right checksum
      ([load_checks_sum]).
    - Data structures refine abstract ones: integer sets ([intsetAdd_refines])
      and sets of either representation ([set_ops_refine], [sdiff_correct],
      [sinter_correct], [sunion_correct]) are finite sets; dictionaries are
      finite maps through expansion and rehashing ([dictAdd_refines],
      [dictGenericDelete_refines], [dictRehash_preserves_and_ends]), with
      cursors ([dictScan_complete]) and iterators ([iterate_entries]); linked
      lists are lists ([list_changes], [list_reads]); ziplists are lists of
      texts ([ziplistInsert_refines], [ziplistDelete_refines],
      [ziplist_reads]); skip lists are sorted lists ([zslInsert_refines],
      [zslDelete_refines], [zslDeleteRange_spec], [zslRange_spec],
      [zslRank_spec]); dynamic strings are lists of bytes
      ([sds_edits_refine]).
    - Round trips: compression ([lzf_roundtrip]), quoting and splitting of
      arguments ([sdssplitargs_roundtrip]), integers and their text, byte
      orders.
    - Defects, each shown by an example or a theorem that runs the model:
      among them [dictScan_misses_when_shrinking], [ziplistInsert_overrun],
      [sdstrim_strips_nul], [persist_revives_expired_key],
      [set_ex_is_logged_as_is], [setex_may_be_cut],
      [transaction_may_be_cut], [persist_marks_nobody],
      [refused_write_does_not_abort], [empty_compressed_overreads] and
      [times_keep_host_order].

    ** Bounds and simplifications

    - Sizes fit their C types where a theorem says so ([fits]).
      The query buffer may hold 2^30 + 2^22 bytes, more than the default limit
      of 2^30; the relation [R] allows 2^29 keys and strings of 512 MB, and the
      count of changes is not wrapped.
    - Arguments of requests are objects by value in [Input], keys and arguments
      are texts in [Multi], members are objects by value in [SetType] and [Rdb];
      reference counts are those of [Object], [Server], [Commands] and [Reply].
    - There is one database in [Commands], [Call] and [AofThms]; there are no
      slaves, scripts, monitors, slow log or statistics.
    - The commands of [Input], [Multi] and [Load] are parameters; [Multi] and
      [Load] are instantiated with those of [CommandThms].  [SET] with [EX] or
      [PX] is left out of what is restored, since the code appends its relative
      time.
    - The loader of dumps stops at the first value that is not a string; both
      ends of a dump have the same byte order ([Host]).

    ** What is not modelled

    System calls, the event loop, child processes and threads; replication,
    publish/subscribe, scripting and Sentinel; the handlers of lists, hashes and
    sorted sets and those around the loops of sets; values that are not strings
    in dumps; floating-point parsing and printing (Skiplist's scores are any
    type with the order of doubles other than NaN); bit operations and
    HyperLogLog; configuration, statistics and the command-line tools. *)

From stdpp Require Export base tactics numbers list list_numbers option sorting strings.
From stdpp Require Import gmap.
From Stdlib Require Export ZArith Lia.
From Stdlib Require Import Ascii.

#[export] Set Default Goal Selector "!".

(** ** Tactics and hint databases

    [bsimpl] runs the option monad over what is known; [len_lia] is [lia]
    modulo the lengths of lists, which the rewrite database [len] computes. *)

Tactic Notation "bsimpl" := cbn [mbind option_bind].
Tactic Notation "bsimpl" "in" hyp(H) := cbn [mbind option_bind] in H.
Tactic Notation "bsimpl" "in" "*" := cbn [mbind option_bind] in *.

Create Rewrite HintDb len.
#[export] Hint Rewrite @length_app @length_fmap @length_take @length_drop @length_insert @length_replicate
  @length_seq @length_imap @length_cons @length_nil : len.
Ltac len_simpl := autorewrite with len in *.
Ltac len_lia := len_simpl; lia.

(** ** Scopes and notations *)

Declare Scope cmem_scope.
Delimit Scope cmem_scope with cmem.

(** [len l] is the length of a buffer as a C size. *)
Abbreviation len l := (Z.of_nat (length l)).

Open Scope cmem_scope.
Open Scope Z_scope.

(** ** Machine integers

    A [w]-bit unsigned C integer is a [Z] in [0, 2^w); a signed one is a [Z]
    in [-2^(w-1), 2^(w-1)).  [uwrap] and [swrap] are the conversions the
    language applies when a value is stored at a type of [w] bits (two's
    complement, as every supported compiler does). *)

Definition uwrap (w z : Z) : Z := z mod 2 ^ w.
Definition swrap (w z : Z) : Z := (z + 2 ^ (w - 1)) mod 2 ^ w - 2 ^ (w - 1).

Abbreviation u8 := (uwrap 8).
Abbreviation u16 := (uwrap 16).
Abbreviation u32 := (uwrap 32).
Abbreviation u64 := (uwrap 64).
Abbreviation s16 := (swrap 16).
Abbreviation s32 := (swrap 32).
Abbreviation s64 := (swrap 64).

Section machine_integers.
Implicit Types w z : Z.

Lemma uwrap_bound w z : 0 ≤ w → 0 ≤ uwrap w z < 2 ^ w.
Proof. intros. apply Z.mod_pos_bound. lia. Qed.

Lemma uwrap_small w z : 0 ≤ z < 2 ^ w → uwrap w z = z.
Proof. apply Z.mod_small. Qed.

Lemma uwrap_uwrap w z : uwrap w (uwrap w z) = uwrap w z.
Proof. apply Zmod_mod. Qed.

Lemma pow2_split w : 0 < w → 2 ^ w = 2 * 2 ^ (w - 1).
Proof. intros. rewrite <- Z.pow_succ_r by lia. f_equal. lia. Qed.

Lemma swrap_bound w z : 0 < w → - 2 ^ (w - 1) ≤ swrap w z < 2 ^ (w - 1).
Proof.
  intros Hw. unfold swrap. pose proof (pow2_split w Hw).
  pose proof (Z.mod_pos_bound (z + 2 ^ (w - 1)) (2 ^ w)) as Hm.
  specialize (Hm ltac:(lia)). lia.
Qed.

Lemma swrap_small w z : 0 < w → - 2 ^ (w - 1) ≤ z < 2 ^ (w - 1) → swrap w z = z.
Proof.
  intros Hw Hz. unfold swrap. pose proof (pow2_split w Hw).
  rewrite Z.mod_small; lia.
Qed.

Lemma swrap_uwrap w z : 0 < w → swrap w (uwrap w z) = swrap w z.
Proof. intros. unfold swrap, uwrap. by rewrite Zplus_mod_idemp_l. Qed.

(** Narrowing a wider unsigned value. *)
Lemma swrap_uwrap_wide w w' z : 0 < w ≤ w' → swrap w (uwrap w' z) = swrap w z.
Proof.
  intros Hw. unfold swrap, uwrap. f_equal. rewrite <- Zplus_mod_idemp_l, Z.mod_mod_divide.
  - by rewrite Zplus_mod_idemp_l.
  - exists (2 ^ (w' - w)). rewrite <- Z.pow_add_r by lia. f_equal. lia.
Qed.

(** A signed value survives being stored as [w] unsigned bits and read back. *)
Lemma swrap_of_uwrap w z :
  0 < w → - 2 ^ (w - 1) ≤ z < 2 ^ (w - 1) → swrap w (uwrap w z) = z.
Proof. intros. rewrite swrap_uwrap by done. by apply swrap_small. Qed.

(** A number put together from its high part and its low [k] bits. *)
Lemma lor_low k j v0 : 0 ≤ k → 0 ≤ v0 < 2 ^ k → Z.lor (j * 2 ^ k) v0 = j * 2 ^ k + v0.
Proof.
  intros Hk Hv. symmetry. apply Z.add_nocarry_lor. apply Z.bits_inj'. intros i Hi.
  rewrite Z.land_spec, Z.bits_0, <- (Z.mod_small v0 (2 ^ k)) by done. destruct (decide (i < k)).
  - by rewrite Z.mul_pow2_bits_low by lia.
  - rewrite Z.mod_pow2_bits_high by lia. apply andb_false_r.
Qed.

Lemma land_mask z k : 0 ≤ k → Z.land z (2 ^ k - 1) = z mod 2 ^ k.
Proof. intros. rewrite Z.sub_1_r, <- Z.ones_equiv. by apply Z.land_ones. Qed.

Lemma testbit_mask k i : 0 ≤ k → 0 ≤ i → Z.testbit (2 ^ k - 1) i = (i <? k).
Proof. intros. rewrite Z.sub_1_r, <- Z.ones_equiv. by apply Z.testbit_ones_nonneg. Qed.

End machine_integers.

(** ** Buffers

    A C buffer is the list of its bytes (or cells).  Every access goes
    through the functions below, which return [None] when the access is out
    of the buffer's bounds: a theorem that an operation returns [Some] is
    also a theorem that the operation never reads or writes outside of the
    memory it owns. *)

Section buffers.
Context {A : Type}.
Implicit Types m bs : list A.

Definition mread m (off n : Z) : option (list A) :=
  if bool_decide (0 ≤ off ∧ 0 ≤ n ∧ off + n ≤ len m)
  then Some (take (Z.to_nat n) (drop (Z.to_nat off) m)) else None.

Definition mwrite m (off : Z) bs : option (list A) :=
  if bool_decide (0 ≤ off ∧ off + len bs ≤ len m)
  then Some (take (Z.to_nat off) m ++ bs ++ drop (Z.to_nat off + length bs) m)
  else None.

Definition mget m (i : Z) : option A :=
  if bool_decide (0 ≤ i) then m !! Z.to_nat i else None.

Definition mset m (i : Z) (x : A) : option (list A) :=
  if bool_decide (0 ≤ i < len m) then Some (<[Z.to_nat i := x]> m) else None.

(** [memmove(m+dst, m+src, n)]: the source bytes are read before any is
    written, so the two ranges may overlap. *)
Definition memmove m (dst src n : Z) : option (list A) :=
  bs ← mread m src n; mwrite m dst bs.

(** [memcpy(to+dst, from+src, n)] between two buffers. *)
Definition memcpy (to from : list A) (dst src n : Z) : option (list A) :=
  bs ← mread from src n; mwrite to dst bs.

(** [zrealloc(m, n)]: a prefix of the old contents followed, when the block
    grows, by indeterminate cells [junk]. *)
Definition zrealloc (junk : nat → A) m (n : Z) : list A :=
  take (Z.to_nat n) m ++ (junk <$> seq (length m) (Z.to_nat n - length m)).

Lemma mread_app m1 m2 m3 off n :
  off = len m1 → n = len m2 → mread (m1 ++ m2 ++ m3) off n = Some m2.
Proof.
  intros -> ->. unfold mread. rewrite bool_decide_eq_true_2.
  - by rewrite !Nat2Z.id, drop_app_length, take_app_length.
  - rewrite !length_app. lia.
Qed.

Lemma mwrite_app m1 m2 m3 bs off :
  off = len m1 → length bs = length m2 →
  mwrite (m1 ++ m2 ++ m3) off bs = Some (m1 ++ bs ++ m3).
Proof.
  intros -> Hlen. unfold mwrite. rewrite bool_decide_eq_true_2.
  - rewrite Nat2Z.id, take_app_length, Hlen.
    rewrite <- drop_drop, drop_app_length, drop_app_length. done.
  - rewrite !length_app, Hlen. lia.
Qed.

(** A write that ends where a suffix [m3] starts. *)
Lemma mwrite_end m m3 off bs :
  0 ≤ off → off + len bs = len m →
  mwrite (m ++ m3) off bs = Some (take (Z.to_nat off) m ++ bs ++ m3).
Proof.
  intros Ho Hl. rewrite <- (take_drop (Z.to_nat off) m) at 1. rewrite <- app_assoc.
  apply mwrite_app; rewrite ?length_take, ?length_drop; lia.
Qed.

Lemma mread_Some m off n bs :
  mread m off n = Some bs ↔
  0 ≤ off ∧ 0 ≤ n ∧ off + n ≤ len m ∧ bs = take (Z.to_nat n) (drop (Z.to_nat off) m).
Proof.
  unfold mread. case_bool_decide as Hb.
  - destruct Hb as (?&?&?). split; [by intros [= <-] | by intros (_&_&_&->)].
  - split; [done | intros (?&?&?&_); destruct Hb; lia].
Qed.

Lemma mread_length m off n bs : mread m off n = Some bs → len bs = n.
Proof.
  intros (?&?&?&->)%mread_Some. rewrite length_take, length_drop. lia.
Qed.

Lemma mwrite_length m off bs m' : mwrite m off bs = Some m' → length m' = length m.
Proof.
  unfold mwrite. case_bool_decide; [|done]. intros [= <-].
  rewrite !length_app, length_take, length_drop. lia.
Qed.

(** Splitting a buffer at the bounds of an access. *)
Lemma buffer_split m off n :
  0 ≤ off → 0 ≤ n → off + n ≤ len m →
  ∃ m1 m2 m3, m = m1 ++ m2 ++ m3 ∧ len m1 = off ∧ len m2 = n.
Proof.
  intros. exists (take (Z.to_nat off) m), (take (Z.to_nat n) (drop (Z.to_nat off) m)),
    (drop (Z.to_nat n) (drop (Z.to_nat off) m)).
  rewrite take_drop, take_drop, !length_take, length_drop. split_and!; [done|lia..].
Qed.

(** What was read, in its place. *)
Lemma mread_split m off n bs :
  mread m off n = Some bs → ∃ m1 m3, m = m1 ++ bs ++ m3 ∧ len m1 = off ∧ len bs = n.
Proof.
  intros H. pose proof (mread_length _ _ _ _ H) as Hl. apply mread_Some in H as (Ho & Hn & Hb & ->).
  exists (take (Z.to_nat off) m), (drop (Z.to_nat n) (drop (Z.to_nat off) m)).
  rewrite take_drop, take_drop, length_take. split; [done|]. split; [lia|done].
Qed.

(** Opening a gap of [w] cells before [m2], and closing one. *)
Lemma memmove_right m1 m2 m3 dst src n w :
  src = len m1 → n = len m2 → w = len m3 → dst = src + w →
  ∃ gap, memmove (m1 ++ m2 ++ m3) dst src n = Some (m1 ++ gap ++ m2) ∧ len gap = w.
Proof.
  intros -> -> -> ->. unfold memmove. rewrite mread_app by done. bsimpl.
  destruct (buffer_split (m2 ++ m3) 0 (len m3)) as (m0 & gap & rest & E & H0 & Hg);
    [lia..|rewrite length_app; lia|].
  destruct m0; [|simpl in H0; lia]. simpl in E. exists gap. split; [|done]. rewrite E.
  replace (m1 ++ gap ++ rest) with ((m1 ++ gap) ++ rest ++ []) by (by rewrite app_nil_r, app_assoc).
  assert (length rest = length m2) as Hr.
  { apply (f_equal length) in E. rewrite !length_app in E. lia. }
  rewrite mwrite_app; [by rewrite app_nil_r, app_assoc|rewrite length_app; lia|done].
Qed.

Lemma memmove_left m1 m2 m3 dst src n :
  dst = len m1 → src = len m1 + len m2 → n = len m3 →
  ∃ rest, memmove (m1 ++ m2 ++ m3) dst src n = Some (m1 ++ m3 ++ rest) ∧
          length rest = length m2.
Proof.
  intros -> -> ->. unfold memmove.
  assert (mread (m1 ++ m2 ++ m3) (len m1 + len m2) (len m3) = Some m3) as ->.
  { rewrite <- (app_nil_r m3), app_assoc at 1. apply mread_app; rewrite ?length_app; lia. }
  bsimpl.
  destruct (buffer_split (m2 ++ m3) 0 (len m3)) as (m0 & gap & rest & E & H0 & Hg);
    [lia..|rewrite length_app; lia|].
  destruct m0; [|simpl in H0; lia]. simpl in E. rewrite E. exists rest.
  rewrite mwrite_app by lia. split; [done|].
  apply (f_equal length) in E. rewrite !length_app in E. lia.
Qed.

(** The same where [m4] after the moved bytes stays behind. *)
Lemma memmove_left_keep m1 m2 m3 m4 dst src n :
  dst = len m1 → src = len m1 + len m2 → n = len m3 →
  ∃ rest, memmove (m1 ++ m2 ++ m3 ++ m4) dst src n = Some (m1 ++ m3 ++ rest) ∧
          length rest = (length m2 + length m4)%nat.
Proof.
  intros -> -> ->. unfold memmove. rewrite (app_assoc m1), mread_app by (rewrite ?length_app; lia). bsimpl.
  rewrite <- app_assoc. destruct (buffer_split (m2 ++ m3 ++ m4) 0 (len m3)) as (m0 & gap & rest & E & H0 & Hg);
    [lia..|rewrite !length_app; lia|].
  destruct m0; [|simpl in H0; lia]. simpl in E. rewrite E. exists rest.
  rewrite mwrite_app by lia. split; [done|].
  apply (f_equal length) in E. rewrite !length_app in E. lia.
Qed.

Lemma mget_app m1 m2 x i : i = len m1 → mget (m1 ++ x :: m2) i = Some x.
Proof.
  intros ->. unfold mget. rewrite bool_decide_eq_true_2 by lia.
  by rewrite Nat2Z.id, list_lookup_middle.
Qed.

Lemma mset_app m1 m2 x y i : i = len m1 → mset (m1 ++ x :: m2) i y = Some (m1 ++ y :: m2).
Proof.
  intros ->. unfold mset. rewrite bool_decide_eq_true_2 by (rewrite length_app; simpl; lia).
  rewrite Nat2Z.id. f_equal.
  replace (length m1) with (length m1 + 0)%nat by lia. by rewrite insert_app_r.
Qed.

Lemma mset_head m x y : mset (x :: m) 0 y = Some (y :: m).
Proof. by apply (mset_app [] m). Qed.

Lemma mget_Some m i x : mget m i = Some x ↔ 0 ≤ i ∧ m !! Z.to_nat i = Some x.
Proof. unfold mget. case_bool_decide; naive_solver. Qed.

Lemma mget_is_Some m i : is_Some (mget m i) ↔ 0 ≤ i < len m.
Proof.
  unfold mget. case_bool_decide.
  - rewrite lookup_lt_is_Some. lia.
  - split; [by intros [? ?] | lia].
Qed.

Lemma mget_at (pre l post : list A) (i : nat) j x :
  l !! i = Some x → j = len pre + Z.of_nat i → mget (pre ++ l ++ post) j = Some x.
Proof.
  intros Hx ->. apply mget_Some. split; [lia|].
  replace (Z.to_nat (len pre + Z.of_nat i)) with (length pre + i)%nat by lia.
  rewrite lookup_app_r by lia. replace (_ - _)%nat with i by lia. by apply lookup_app_l_Some.
Qed.

Lemma zrealloc_length junk m n : 0 ≤ n → len (zrealloc junk m n) = n.
Proof.
  intros. unfold zrealloc. rewrite length_app, length_take, length_fmap, length_seq. lia.
Qed.

Lemma zrealloc_grow junk m n :
  len m ≤ n → ∃ m', zrealloc junk m n = m ++ m' ∧ len m' = n - len m.
Proof.
  intros. unfold zrealloc. rewrite take_ge by lia. eexists. split; [done|].
  rewrite length_fmap, length_seq. lia.
Qed.

Lemma zrealloc_shrink junk m1 m2 n : n = len m1 → zrealloc junk (m1 ++ m2) n = m1.
Proof.
  intros ->. unfold zrealloc. rewrite Nat2Z.id, take_app_length, length_app.
  replace (length m1 - _)%nat with 0%nat by lia. by rewrite app_nil_r.
Qed.

End buffers.

#[global] Arguments mread : simpl never.
#[global] Arguments mwrite : simpl never.
#[global] Arguments mget : simpl never.
#[global] Arguments mset : simpl never.
#[global] Arguments memmove : simpl never.
#[global] Arguments memcpy : simpl never.
#[global] Arguments zrealloc : simpl never.
#[global] Arguments uwrap : simpl never.
#[global] Arguments swrap : simpl never.

(** ** Character strings

    A C string is the list of its bytes, without the terminating NUL unless
    said otherwise. *)

Definition str (s : string) : list Z :=
  map (λ a, Z.of_N (N_of_ascii a)) (String.list_ascii_of_string s).

Definition byte (b : Z) : Prop := 0 ≤ b < 256.

(** [isdigit] and [tolower] in the C locale. *)
Definition isdigit (ch : Z) : bool := (48 <=? ch) && (ch <=? 57).
Definition tolower (ch : Z) : Z := if (65 <=? ch) && (ch <=? 90) then ch + 32 else ch.

(** ** Sorted lists *)

Lemma sorted_lookup {A} (R : relation A) (l : list A) i j x y :
  StronglySorted R l → (i < j)%nat → l !! i = Some x → l !! j = Some y → R x y.
Proof.
  intros Hs Hij Hx Hy. rewrite <- (take_drop j l) in Hs.
  eapply (StronglySorted_app_1_elem_of R); [exact Hs|..]; apply list_elem_of_lookup.
  - exists i. rewrite lookup_take_lt by lia. done.
  - exists 0%nat. rewrite lookup_drop. by rewrite Nat.add_0_r.
Qed.

Lemma sorted_insert {A} (R : relation A) (l1 l2 : list A) x :
  StronglySorted R (l1 ++ l2) → Forall (λ y, R y x) l1 → Forall (R x) l2 →
  StronglySorted R (l1 ++ x :: l2).
Proof.
  rewrite !StronglySorted_app, StronglySorted_cons, !Forall_forall.
  intros (Hm & H1 & H2) Hl Hr. split_and!; try done.
  intros a b Ha [-> | Hb]%elem_of_cons; eauto.
Qed.

Lemma sorted_delete {A} (R : relation A) (l1 l2 : list A) x :
  StronglySorted R (l1 ++ x :: l2) → StronglySorted R (l1 ++ l2).
Proof.
  rewrite !StronglySorted_app, StronglySorted_cons. intros (Hm & H1 & _ & H2).
  split_and!; try done. intros a b Ha Hb. apply Hm; [done|]. by apply elem_of_cons; right.
Qed.

(** ** Filtering *)

Lemma list_filter_all {A} (P : A → Prop) `{∀ x, Decision (P x)} (l : list A) :
  (∀ x, x ∈ l → P x) → filter P l = l.
Proof.
  induction l as [|x l IH]; intros Hl; [done|]. rewrite filter_cons_True by (apply Hl; by left).
  f_equal. apply IH. intros y Hy. apply Hl. by right.
Qed.

Lemma list_filter_none {A} (P : A → Prop) `{∀ x, Decision (P x)} (l : list A) :
  (∀ x, x ∈ l → ¬ P x) → filter P l = [].
Proof.
  induction l as [|x l IH]; intros Hl; [done|]. rewrite filter_cons_False by (apply Hl; by left).
  apply IH. intros y Hy. apply Hl. by right.
Qed.
