(* ===== verification/Endian.v ===== *)
(** * Byte order: [endianconv.c] and [endianconv.h]

    Integers in memory are byte lists.  [host_bytes n v] are the [n] bytes a
    C object of [8*n] bits holding [v] occupies on the host, whose byte order
    is the field of the class [Host]; [host_val] reads them back.  The
    toggling functions [memrev16/32/64] and [intrev16/32/64] and their
    conditional [ifbe] variants are translated swap by swap, and shown to
    reverse the bytes, so that what they store is little endian on every
    host. *)

From S2P Require Import Prelude.

#[global] Arguments Z_to_little_endian : simpl never.

Class Host := { big_endian : bool }.

Definition little_host : Host := {| big_endian := false |}.
Definition big_host : Host := {| big_endian := true |}.

(** The [n] little-endian bytes of [v], and the unsigned value of a list of
    little-endian bytes. *)
Definition le_bytes (n v : Z) : list Z := Z_to_little_endian n 8 v.
Definition le_val (bs : list Z) : Z := little_endian_to_Z 8 bs.

(** ** The conversion functions *)

Definition swap_at (x : list Z) (i j : Z) : option (list Z) :=
  t ← mget x i; u ← mget x j; x ← mset x i u; mset x j t.

Definition memrev16 (x : list Z) : option (list Z) := swap_at x 0 1.

Definition memrev32 (x : list Z) : option (list Z) :=
  x ← swap_at x 0 3; swap_at x 1 2.

Definition memrev64 (x : list Z) : option (list Z) :=
  x ← swap_at x 0 7; x ← swap_at x 1 6; x ← swap_at x 2 5; swap_at x 3 4.

Section host.
Context `{Host}.

Definition host_bytes (n v : Z) : list Z :=
  if big_endian then reverse (le_bytes n v) else le_bytes n v.
Definition host_val (bs : list Z) : Z :=
  le_val (if big_endian then reverse bs else bs).

Definition intrev16 (v : Z) : Z := from_option host_val 0 (memrev16 (host_bytes 2 v)).
Definition intrev32 (v : Z) : Z := from_option host_val 0 (memrev32 (host_bytes 4 v)).
Definition intrev64 (v : Z) : Z := from_option host_val 0 (memrev64 (host_bytes 8 v)).

Definition memrev16ifbe (x : list Z) := if big_endian then memrev16 x else Some x.
Definition memrev32ifbe (x : list Z) := if big_endian then memrev32 x else Some x.
Definition memrev64ifbe (x : list Z) := if big_endian then memrev64 x else Some x.
Definition intrev16ifbe (v : Z) : Z := if big_endian then intrev16 v else v.
Definition intrev32ifbe (v : Z) : Z := if big_endian then intrev32 v else v.
Definition intrev64ifbe (v : Z) : Z := if big_endian then intrev64 v else v.
End host.

#[global] Arguments le_bytes : simpl never.
#[global] Arguments le_val : simpl never.
#[global] Arguments host_bytes : simpl never.
#[global] Arguments host_val : simpl never.

(** ** Byte lists *)

Lemma le_bytes_length n v : 0 ≤ n → len (le_bytes n v) = n.
Proof. apply length_Z_to_little_endian. Qed.

Lemma le_bytes_range n v : 0 ≤ n → Forall (λ b, 0 ≤ b < 256) (le_bytes n v).
Proof. intros. by apply (Z_to_little_endian_bound n 8 v). Qed.

Lemma le_val_bytes n v : 0 ≤ n → le_val (le_bytes n v) = uwrap (8 * n) v.
Proof.
  intros. unfold le_val, le_bytes, uwrap.
  rewrite little_endian_to_Z_to_little_endian by lia. do 2 f_equal. lia.
Qed.

Lemma le_bytes_val bs :
  Forall (λ b, 0 ≤ b < 256) bs → le_bytes (len bs) (le_val bs) = bs.
Proof. intros. by apply Z_to_little_endian_to_Z. Qed.

Lemma le_val_bound bs :
  Forall (λ b, 0 ≤ b < 256) bs → 0 ≤ le_val bs < 2 ^ (8 * len bs).
Proof.
  intros. rewrite (Z.mul_comm 8). by apply little_endian_to_Z_bound.
Qed.

(** The toggling functions reverse exactly the bytes of the object. *)
Lemma memrev16_reverse bs : len bs = 2 → memrev16 bs = Some (reverse bs).
Proof. intros Hl. destruct bs as [|a [|b [|]]]; first [reflexivity | simpl in Hl; lia]. Qed.

Lemma memrev32_reverse bs : len bs = 4 → memrev32 bs = Some (reverse bs).
Proof. intros Hl. destruct bs as [|a [|b [|c [|d [|]]]]]; first [reflexivity | simpl in Hl; lia]. Qed.

Lemma memrev64_reverse bs : len bs = 8 → memrev64 bs = Some (reverse bs).
Proof. intros Hl. destruct bs as [|a [|b [|c [|d [|e [|f [|g [|h [|]]]]]]]]]; first [reflexivity | simpl in Hl; lia]. Qed.

Section host_lemmas.
Context `{Host}.

Lemma host_bytes_length n v : 0 ≤ n → len (host_bytes n v) = n.
Proof.
  intros. unfold host_bytes. destruct big_endian; rewrite ?length_reverse; by apply le_bytes_length.
Qed.

Lemma host_val_bytes n v : 0 ≤ n → host_val (host_bytes n v) = uwrap (8 * n) v.
Proof.
  intros. unfold host_val, host_bytes.
  destruct big_endian; rewrite ?reverse_involutive; by apply le_val_bytes.
Qed.

(** Storing at the host's order and toggling on big-endian hosts leaves the
    little-endian bytes of the value; toggling and loading reads them. *)
Lemma memrev16ifbe_host v : memrev16ifbe (host_bytes 2 v) = Some (le_bytes 2 v).
Proof.
  unfold memrev16ifbe. pose proof (host_bytes_length 2 v) as Hl. unfold host_bytes in *.
  destruct big_endian; [|done]. rewrite memrev16_reverse by lia. by rewrite reverse_involutive.
Qed.

Lemma memrev32ifbe_host v : memrev32ifbe (host_bytes 4 v) = Some (le_bytes 4 v).
Proof.
  unfold memrev32ifbe. pose proof (host_bytes_length 4 v) as Hl. unfold host_bytes in *.
  destruct big_endian; [|done]. rewrite memrev32_reverse by lia. by rewrite reverse_involutive.
Qed.

Lemma memrev64ifbe_host v : memrev64ifbe (host_bytes 8 v) = Some (le_bytes 8 v).
Proof.
  unfold memrev64ifbe. pose proof (host_bytes_length 8 v) as Hl. unfold host_bytes in *.
  destruct big_endian; [|done]. rewrite memrev64_reverse by lia. by rewrite reverse_involutive.
Qed.

Lemma memrev16ifbe_le v : memrev16ifbe (le_bytes 2 v) = Some (host_bytes 2 v).
Proof.
  unfold memrev16ifbe, host_bytes. pose proof (le_bytes_length 2 v).
  destruct big_endian; [|done]. by rewrite memrev16_reverse by lia.
Qed.

Lemma memrev32ifbe_le v : memrev32ifbe (le_bytes 4 v) = Some (host_bytes 4 v).
Proof.
  unfold memrev32ifbe, host_bytes. pose proof (le_bytes_length 4 v).
  destruct big_endian; [|done]. by rewrite memrev32_reverse by lia.
Qed.

Lemma memrev64ifbe_le v : memrev64ifbe (le_bytes 8 v) = Some (host_bytes 8 v).
Proof.
  unfold memrev64ifbe, host_bytes. pose proof (le_bytes_length 8 v).
  destruct big_endian; [|done]. by rewrite memrev64_reverse by lia.
Qed.

(** [intrev32] swaps the two byte orders, hence undoes itself. *)
Lemma intrev32_rev v : intrev32 v = le_val (reverse (le_bytes 4 v)).
Proof.
  unfold intrev32. rewrite memrev32_reverse by (rewrite host_bytes_length; lia). simpl.
  unfold host_val, host_bytes. by destruct big_endian; rewrite ?reverse_involutive.
Qed.

Lemma intrev32_involutive v : 0 ≤ v < 2 ^ 32 → intrev32 (intrev32 v) = v.
Proof.
  intros. rewrite !intrev32_rev.
  pose proof (le_bytes_length 4 v) as Hl.
  replace 4 with (len (reverse (le_bytes 4 v))) at 1 by (rewrite length_reverse; lia).
  rewrite le_bytes_val, reverse_involutive.
  - rewrite le_val_bytes by lia. by apply uwrap_small.
  - apply Forall_reverse. by apply le_bytes_range.
Qed.

Lemma intrev32_bound v : 0 ≤ intrev32 v < 2 ^ 32.
Proof.
  rewrite intrev32_rev. pose proof (le_bytes_length 4 v) as Hl.
  pose proof (le_val_bound (reverse (le_bytes 4 v))) as Hb.
  rewrite length_reverse, Hl in Hb by lia. apply Hb, Forall_reverse. by apply le_bytes_range.
Qed.

Lemma intrev32ifbe_bound v : 0 ≤ v < 2 ^ 32 → 0 ≤ intrev32ifbe v < 2 ^ 32.
Proof. intros. unfold intrev32ifbe. destruct big_endian; [apply intrev32_bound|done]. Qed.

Lemma intrev32ifbe_involutive v : 0 ≤ v < 2 ^ 32 → intrev32ifbe (intrev32ifbe v) = v.
Proof.
  unfold intrev32ifbe. destruct big_endian; [apply intrev32_involutive | done].
Qed.
End host_lemmas.
