(* ===== verification/Intset.v ===== *)
(** * Integer sets: [intset.c] and [intset.h]

    An intset is a header of two 32-bit fields, kept little endian whatever
    the host, and a packed array of 16, 32 or 64-bit little-endian integers.
    The operations below work on that byte array exactly as the code does,
    with the widths of its C variables.  [intset_rep] relates a blob to the
    strictly increasing list it stores and [intset_denotes] to the
    mathematical set. *)

From S2P Require Import Prelude Endian.
From stdpp Require Import gmap.

Local Open Scope Z_scope.

Record intset := mkIntset {
  encoding : Z;      (* uint32_t, as stored *)
  length_ : Z;       (* uint32_t, as stored *)
  contents : list Z  (* int8_t contents[] *)
}.

Definition INTSET_ENC_INT16 : Z := 2.
Definition INTSET_ENC_INT32 : Z := 4.
Definition INTSET_ENC_INT64 : Z := 8.
Definition INT16_MIN : Z := - 2 ^ 15.
Definition INT16_MAX : Z := 2 ^ 15 - 1.
Definition INT32_MIN : Z := - 2 ^ 31.
Definition INT32_MAX : Z := 2 ^ 31 - 1.

Definition _intsetValueEncoding (v : Z) : Z :=
  if bool_decide (v < INT32_MIN ∨ v > INT32_MAX) then INTSET_ENC_INT64
  else if bool_decide (v < INT16_MIN ∨ v > INT16_MAX) then INTSET_ENC_INT32
  else INTSET_ENC_INT16.

Section intset_ops.
Context `{Host} (junk : nat → Z).
Implicit Types s : intset.

Definition _intsetGetEncoded s (pos enc : Z) : option Z :=
  if enc =? INTSET_ENC_INT64 then
    v64 ← mread (contents s) (pos * 8) 8;
    v64 ← memrev64ifbe v64;
    Some (s64 (host_val v64))
  else if enc =? INTSET_ENC_INT32 then
    v32 ← mread (contents s) (pos * 4) 4;
    v32 ← memrev32ifbe v32;
    Some (s32 (host_val v32))
  else
    v16 ← mread (contents s) (pos * 2) 2;
    v16 ← memrev16ifbe v16;
    Some (s16 (host_val v16)).

(** [enc] is a [uint8_t] parameter and [pos] an [int]. *)
Definition _intsetGet s (pos : Z) : option Z :=
  _intsetGetEncoded s (s32 pos) (u8 (intrev32ifbe (encoding s))).

(** [((T* )is->contents)[pos] = value; memrevNifbe(((T* )is->contents)+pos)] for
    a type [T] of [n] bytes. *)
Definition store_and_rev (n : Z) (memrevifbe : list Z → option (list Z))
    (m : list Z) (pos value : Z) : option (list Z) :=
  m ← mwrite m (pos * n) (host_bytes n value);
  cell ← mread m (pos * n) n;
  cell ← memrevifbe cell;
  mwrite m (pos * n) cell.

Definition _intsetSet s (pos value : Z) : option intset :=
  let pos := s32 pos in
  let enc := intrev32ifbe (encoding s) in
  c ← (if enc =? INTSET_ENC_INT64 then store_and_rev 8 memrev64ifbe (contents s) pos value
       else if enc =? INTSET_ENC_INT32 then store_and_rev 4 memrev32ifbe (contents s) pos value
       else store_and_rev 2 memrev16ifbe (contents s) pos value);
  Some (mkIntset (encoding s) (length_ s) c).

Definition intsetNew : intset := mkIntset (intrev32ifbe INTSET_ENC_INT16) 0 [].

Definition intsetResize s (n : Z) : intset :=
  let size := u32 (u32 n * intrev32ifbe (encoding s)) in
  mkIntset (encoding s) (length_ s) (zrealloc junk (contents s) size).

(** The binary search loop; [fuel] bounds the number of iterations. *)
Fixpoint search_loop (fuel : nat) s (value min max mid cur : Z) : option (Z * Z * Z) :=
  if max >=? min then
    match fuel with
    | O => None
    | S fuel =>
        let mid := s32 (Z.shiftr (u32 (u32 min + u32 max)) 1) in
        cur ← _intsetGet s mid;
        if value >? cur then search_loop fuel s value (s32 (mid + 1)) max mid cur
        else if value <? cur then search_loop fuel s value min (s32 (mid - 1)) mid cur
        else Some (min, mid, cur)
    end
  else Some (min, mid, cur).

(** Returns the result and the value stored in [*pos]. *)
Definition intsetSearch s (value : Z) : option (bool * Z) :=
  let n := intrev32ifbe (length_ s) in
  let max := s32 (u32 (n - 1)) in
  let search :=
    '(min, mid, cur) ← search_loop (S (Z.to_nat n)) s value 0 max (-1) (-1);
    if value =? cur then Some (true, u32 mid) else Some (false, u32 min) in
  if n =? 0 then Some (false, 0)
  else
    last ← _intsetGet s (u32 (n - 1));
    if value >? last then Some (false, n)
    else
      first ← _intsetGet s 0;
      if value <? first then Some (false, 0) else search.

(** [while(length--) _intsetSet(is,length+prepend,_intsetGetEncoded(is,length,curenc))] *)
Fixpoint upgrade_loop (length : nat) s (prepend curenc : Z) : option intset :=
  match length with
  | O => Some s
  | S length =>
      v ← _intsetGetEncoded s (Z.of_nat length) curenc;
      s ← _intsetSet s (Z.of_nat length + prepend) v;
      upgrade_loop length s prepend curenc
  end.

Definition set_length s (n : Z) : intset :=
  mkIntset (encoding s) (intrev32ifbe (u32 n)) (contents s).

(** A negative [int length] would count down from the wrong end; such a blob
    is outside of every buffer. *)
Definition intsetUpgradeAndAdd s (value : Z) : option intset :=
  let curenc := u8 (intrev32ifbe (encoding s)) in
  let newenc := _intsetValueEncoding value in
  let length := s32 (intrev32ifbe (length_ s)) in
  let prepend := if value <? 0 then 1 else 0 in
  let s := mkIntset (intrev32ifbe newenc) (length_ s) (contents s) in
  let s := intsetResize s (intrev32ifbe (length_ s) + 1) in
  if length <? 0 then None
  else
    s ← upgrade_loop (Z.to_nat length) s prepend curenc;
    s ← (if prepend =? 1 then _intsetSet s 0 value
          else _intsetSet s (intrev32ifbe (length_ s)) value);
    Some (set_length s (intrev32ifbe (length_ s) + 1)).

Definition intsetMoveTail s (from to : Z) : option intset :=
  let n := u32 (intrev32ifbe (length_ s) - from) in
  let enc := intrev32ifbe (encoding s) in
  let w := if enc =? INTSET_ENC_INT64 then 8
           else if enc =? INTSET_ENC_INT32 then 4 else 2 in
  c ← memmove (contents s) (to * w) (from * w) (u32 (n * w));
  Some (mkIntset (encoding s) (length_ s) c).

(** Returns the new blob and [*success]. *)
Definition intsetAdd s (value : Z) : option (intset * bool) :=
  let valenc := _intsetValueEncoding value in
  if valenc >? intrev32ifbe (encoding s) then
    s ← intsetUpgradeAndAdd s value; Some (s, true)
  else
    '(found, pos) ← intsetSearch s value;
    if (found : bool) then Some (s, false)
    else
      let s := intsetResize s (intrev32ifbe (length_ s) + 1) in
      s ← (if pos <? intrev32ifbe (length_ s)
            then intsetMoveTail s pos (u32 (pos + 1)) else Some s);
      s ← _intsetSet s pos value;
      Some (set_length s (intrev32ifbe (length_ s) + 1), true).

Definition intsetRemove s (value : Z) : option (intset * bool) :=
  let valenc := _intsetValueEncoding value in
  if valenc <=? intrev32ifbe (encoding s) then
    '(found, pos) ← intsetSearch s value;
    if (found : bool) then
      let n := intrev32ifbe (length_ s) in
      s ← (if pos <? u32 (n - 1) then intsetMoveTail s (u32 (pos + 1)) pos else Some s);
      let s := intsetResize s (n - 1) in
      Some (set_length s (n - 1), true)
    else Some (s, false)
  else Some (s, false).

Definition intsetFind s (value : Z) : option bool :=
  let valenc := _intsetValueEncoding value in
  if valenc <=? intrev32ifbe (encoding s) then
    '(found, _) ← intsetSearch s value; Some (found : bool)
  else Some false.

(** The C library's [rand()] is not modelled; its result is an argument.  The remainder by a zero length traps. *)
Definition intsetRandom (rand : Z) s : option Z :=
  if intrev32ifbe (length_ s) =? 0 then None
  else _intsetGet s (u32 rand mod intrev32ifbe (length_ s)).

(** [None] when the position is out of range; the inner option is the
    memory access. *)
Definition intsetGet s (pos : Z) : option (option Z) :=
  if pos <? intrev32ifbe (length_ s) then
    v ← _intsetGet s pos; Some (Some v)
  else Some None.

Definition intsetLen s : Z := intrev32ifbe (length_ s).

Definition intsetBlobLen s : Z :=
  8 + u32 (intrev32ifbe (length_ s) * intrev32ifbe (encoding s)).
End intset_ops.

(** ** Representation *)

(** The array of the values [vs], [w] bytes each. *)
Definition packed (w : Z) (vs : list Z) : list Z := concat (map (le_bytes w) vs).

Definition width (w : Z) : Prop :=
  w = INTSET_ENC_INT16 ∨ w = INTSET_ENC_INT32 ∨ w = INTSET_ENC_INT64.

Definition fits (w v : Z) : Prop := - 2 ^ (8 * w - 1) ≤ v < 2 ^ (8 * w - 1).

Section representation.
Context `{Host}.

Record intset_rep (s : intset) (vs : list Z) : Prop := {
  rep_encoding : 0 ≤ encoding s < 2 ^ 32;
  rep_width : width (intrev32ifbe (encoding s));
  rep_length : intrev32ifbe (length_ s) = len vs;
  rep_contents : contents s = packed (intrev32ifbe (encoding s)) vs;
  rep_fits : Forall (fits (intrev32ifbe (encoding s))) vs;
  rep_sorted : StronglySorted Z.lt vs
}.

(** The set a well-formed blob stores. *)
Definition intset_denotes (s : intset) (X : gset Z) : Prop :=
  ∃ vs, intset_rep s vs ∧ X = list_to_set vs.
End representation.

(** Case analysis on the three encodings, with the code's tests evaluated. *)
Ltac by_width Hw :=
  unfold width, INTSET_ENC_INT16, INTSET_ENC_INT32, INTSET_ENC_INT64 in *;
  destruct Hw as [-> | [-> | ->]]; cbn [Z.eqb Pos.eqb] in *.

Lemma packed_length w vs : 0 ≤ w → len (packed w vs) = w * len vs.
Proof.
  intros Hw. unfold packed. induction vs as [|v vs IH]; simpl; [lia|].
  pose proof (le_bytes_length w v Hw). rewrite length_app. lia.
Qed.

Lemma packed_app w vs1 vs2 : packed w (vs1 ++ vs2) = packed w vs1 ++ packed w vs2.
Proof. unfold packed. by rewrite map_app, concat_app. Qed.

Lemma packed_cons w v vs : packed w (v :: vs) = le_bytes w v ++ packed w vs.
Proof. done. Qed.

Lemma width_pos w : width w → 0 < w ≤ 8.
Proof. unfold width, INTSET_ENC_INT16, INTSET_ENC_INT32, INTSET_ENC_INT64. lia. Qed.

Lemma fits_range64 w v : width w → fits w v → - 2 ^ 63 ≤ v < 2 ^ 63.
Proof.
  unfold fits, width, INTSET_ENC_INT16, INTSET_ENC_INT32, INTSET_ENC_INT64.
  intros [-> | [-> | ->]]; cbn in *; lia.
Qed.

Lemma fits_mono w w' v : w ≤ w' → 0 < w → fits w v → fits w' v.
Proof.
  unfold fits. intros Hle Hw Hf.
  assert (2 ^ (8 * w - 1) ≤ 2 ^ (8 * w' - 1)) by (apply Z.pow_le_mono_r; lia). lia.
Qed.

(** The encoding chosen for a value holds it, and no smaller one does. *)
Lemma value_encoding_width v : width (_intsetValueEncoding v).
Proof. unfold _intsetValueEncoding, width. repeat case_bool_decide; tauto. Qed.

Lemma value_encoding_fits w v :
  - 2 ^ 63 ≤ v < 2 ^ 63 → width w → _intsetValueEncoding v ≤ w ↔ fits w v.
Proof.
  unfold _intsetValueEncoding, fits, width, INTSET_ENC_INT16, INTSET_ENC_INT32,
    INTSET_ENC_INT64, INT16_MIN, INT16_MAX, INT32_MIN, INT32_MAX.
  intros Hv [-> | [-> | ->]]; cbn in *; repeat case_bool_decide; lia.
Qed.

Section intset_lemmas.
Context `{Host} (junk : nat → Z).
Implicit Types s : intset.

Lemma get_encoded s pos w v c1 c2 :
  width w → fits w v → contents s = c1 ++ le_bytes w v ++ c2 → len c1 = pos * w →
  _intsetGetEncoded s pos w = Some v.
Proof.
  intros Hw Hf Hc Hl. unfold _intsetGetEncoded. rewrite Hc. pose proof (width_pos w Hw).
  assert (mread (c1 ++ le_bytes w v ++ c2) (pos * w) w = Some (le_bytes w v)) as Hr.
  { apply mread_app; rewrite ?le_bytes_length; lia. }
  by_width Hw; rewrite Hr; bsimpl;
    rewrite ?memrev16ifbe_le, ?memrev32ifbe_le, ?memrev64ifbe_le; bsimpl;
    rewrite host_val_bytes by lia; f_equal; by apply swrap_of_uwrap.
Qed.

Lemma set_encoded s pos w v c1 cell c2 :
  intrev32ifbe (encoding s) = w → width w → contents s = c1 ++ cell ++ c2 →
  len c1 = pos * w → len cell = w → 0 ≤ pos < 2 ^ 31 →
  _intsetSet s pos v = Some (mkIntset (encoding s) (length_ s) (c1 ++ le_bytes w v ++ c2)).
Proof.
  intros He Hw Hc Hl Hcell Hpos. unfold _intsetSet. rewrite He, Hc, swrap_small by lia.
  assert (∀ f, (∀ u, f (host_bytes w u) = Some (le_bytes w u)) →
    store_and_rev w f (c1 ++ cell ++ c2) pos v = Some (c1 ++ le_bytes w v ++ c2)) as Hst.
  { intros f Hf. unfold store_and_rev. pose proof (width_pos w Hw).
    pose proof (host_bytes_length w v). pose proof (le_bytes_length w v).
    rewrite mwrite_app by lia. simpl. rewrite mread_app by lia. simpl.
    rewrite Hf. simpl. rewrite mwrite_app by lia. done. }
  by_width Hw; rewrite Hst; first [done | intros].
  - apply memrev16ifbe_host.
  - apply memrev32ifbe_host.
  - apply memrev64ifbe_host.
Qed.

(** The bound under which the code's 32-bit byte counts do not overflow. *)
Definition max_entries : Z := 2 ^ 29 - 1.

Lemma u8_width w : width w → u8 w = w.
Proof. intros ?%width_pos. apply uwrap_small. lia. Qed.

Lemma get_rep s vs i v :
  intset_rep s vs → len vs ≤ max_entries → 0 ≤ i → vs !! Z.to_nat i = Some v →
  _intsetGet s i = Some v.
Proof.
  intros [? Hw Hl Hc Hf _] Hmax Hi Hv. unfold _intsetGet.
  rewrite u8_width by done.
  pose proof (lookup_lt_Some _ _ _ Hv). pose proof (width_pos _ Hw).
  unfold max_entries in Hmax. rewrite swrap_small by lia.
  rewrite <- (take_drop_middle vs (Z.to_nat i) v Hv) in Hc.
  rewrite packed_app, packed_cons in Hc.
  eapply get_encoded; [done| |done|].
  - rewrite Forall_forall in Hf. apply Hf. by eapply list_elem_of_lookup_2.
  - rewrite packed_length, length_take by lia. lia.
Qed.

(** What a search result means for the list stored. *)
Definition search_spec (vs : list Z) (value : Z) (found : bool) (pos : Z) : Prop :=
  ∃ vs1 vs2, vs = vs1 ++ vs2 ∧ pos = len vs1 ∧ Forall (λ y, y < value) vs1 ∧
    if found then ∃ vs3, vs2 = value :: vs3 else Forall (λ y, value < y) vs2.

Lemma search_spec_not_found vs value pos :
  0 ≤ pos ≤ len vs →
  (∀ i y, i < pos → 0 ≤ i → vs !! Z.to_nat i = Some y → y < value) →
  (∀ i y, pos ≤ i → vs !! Z.to_nat i = Some y → value < y) →
  search_spec vs value false pos.
Proof.
  intros Hp Hlo Hhi. exists (take (Z.to_nat pos) vs), (drop (Z.to_nat pos) vs).
  rewrite take_drop, length_take. split_and!; [done | lia | |]; apply Forall_lookup; intros i y Hy.
  - apply lookup_take_Some in Hy as [Hy ?]. apply (Hlo (Z.of_nat i)); [lia..|]. by rewrite Nat2Z.id.
  - rewrite lookup_drop in Hy. apply (Hhi (pos + Z.of_nat i)); [lia|].
    rewrite <- Hy. f_equal. lia.
Qed.

Lemma search_spec_found vs value pos :
  StronglySorted Z.lt vs → 0 ≤ pos → vs !! Z.to_nat pos = Some value →
  search_spec vs value true pos.
Proof.
  intros Hs Hp Hv. exists (take (Z.to_nat pos) vs), (drop (Z.to_nat pos) vs).
  pose proof (lookup_lt_Some _ _ _ Hv).
  rewrite take_drop, length_take. split_and!; [done | lia | |].
  - apply Forall_lookup. intros i y [Hy ?]%lookup_take_Some.
    by eapply (sorted_lookup Z.lt vs i (Z.to_nat pos)); [..|exact Hv].
  - eexists. by apply drop_S.
Qed.

(** The midpoint, computed in [unsigned int], lies between the bounds. *)
Lemma midpoint min max :
  0 ≤ min → min ≤ max → max < 2 ^ 30 →
  ∃ m, s32 (Z.shiftr (u32 (u32 min + u32 max)) 1) = m ∧ min ≤ m ≤ max.
Proof.
  intros. rewrite !(uwrap_small 32) by (rewrite ?uwrap_small; lia).
  rewrite Z.shiftr_div_pow2, Z.pow_1_r by lia. exists ((min + max) / 2).
  assert (min ≤ (min + max) / 2 ≤ max).
  { split; [apply Z.div_le_lower_bound|apply Z.div_le_upper_bound]; lia. }
  split; [apply swrap_small|]; lia.
Qed.

(** The loop's invariant: what is left of [min] is smaller than the value,
    what is right of [max] is greater. *)
Definition search_inv (vs : list Z) (value min max : Z) : Prop :=
  0 ≤ min ∧ max < len vs ∧ min ≤ max + 1 ∧
  (∀ i y, i < min → 0 ≤ i → vs !! Z.to_nat i = Some y → y < value) ∧
  (∀ i y, max < i → vs !! Z.to_nat i = Some y → value < y).

Lemma search_inv_exhausted vs value min max :
  search_inv vs value min max → max < min → search_spec vs value false min.
Proof.
  intros (?&?&?&Hlo&Hhi) ?. apply search_spec_not_found; [lia|done|].
  intros i y ?. apply Hhi. lia.
Qed.

Lemma search_inv_right vs value min max m c :
  StronglySorted Z.lt vs → search_inv vs value min max → min ≤ m ≤ max →
  vs !! Z.to_nat m = Some c → c < value → search_inv vs value (m + 1) max.
Proof.
  intros Hs (?&?&?&Hlo&Hhi) Hm Hc Hlt. split_and!; [lia..| |done].
  intros i y ? ? Hy. destruct (decide (i = m)) as [->|]; [congruence|].
  assert (y < c); [|lia].
  by eapply (sorted_lookup Z.lt vs (Z.to_nat i) (Z.to_nat m)); [done|lia|..].
Qed.

Lemma search_inv_left vs value min max m c :
  StronglySorted Z.lt vs → search_inv vs value min max → min ≤ m ≤ max →
  vs !! Z.to_nat m = Some c → value < c → search_inv vs value min (m - 1).
Proof.
  intros Hs (?&?&?&Hlo&Hhi) Hm Hc Hlt. split_and!; [lia..|done|].
  intros i y ? Hy. destruct (decide (i = m)) as [->|]; [congruence|].
  assert (c < y); [|lia].
  by eapply (sorted_lookup Z.lt vs (Z.to_nat m) (Z.to_nat i)); [done|lia|..].
Qed.

Lemma search_loop_spec s vs value fuel min max mid cur :
  intset_rep s vs → len vs ≤ max_entries → search_inv vs value min max →
  max + 1 - min ≤ Z.of_nat fuel → (value = cur → min ≤ max) →
  ∃ min' mid' cur', search_loop fuel s value min max mid cur = Some (min', mid', cur') ∧
    search_spec vs value (value =? cur') (if value =? cur' then mid' else min').
Proof.
  intros Hrep Hmax. revert min max mid cur.
  induction fuel as [|fuel IH]; intros min max mid cur Hinv Hfuel Hcur; cbn [search_loop];
    rewrite Z.geb_leb; destruct (Z.leb_spec min max) as [Hmm|Hmm]; try lia.
  1, 3: eexists _, _, _; split; [done|]; rewrite (proj2 (Z.eqb_neq value cur)) by lia;
    by eapply search_inv_exhausted.
  assert (len vs ≤ 2 ^ 29 - 1) by done. pose proof Hinv as (?&?&_).
  pose proof (rep_sorted _ _ Hrep) as Hs.
  destruct (midpoint min max) as (m & -> & Hm); [lia..|].
  destruct (lookup_lt_is_Some_2 vs (Z.to_nat m)) as [c Hc]; [lia|].
  rewrite (get_rep s vs m c) by first [done|lia]. bsimpl.
  rewrite Z.gtb_ltb. destruct (Z.ltb_spec c value); [|destruct (Z.ltb_spec value c)].
  - rewrite swrap_small by lia. apply IH; [by eapply search_inv_right|lia..].
  - rewrite swrap_small by lia. apply IH; [by eapply search_inv_left|lia..].
  - assert (c = value) as -> by lia. eexists _, _, _. split; [done|].
    rewrite Z.eqb_refl. apply search_spec_found; [done|lia|done].
Qed.

Lemma search_above_last vs value l :
  StronglySorted Z.lt vs → vs !! Z.to_nat (len vs - 1) = Some l → l < value →
  search_spec vs value false (len vs).
Proof.
  intros Hs Hl Hv. pose proof (lookup_lt_Some _ _ _ Hl).
  apply search_spec_not_found; [lia| |intros i y ? Hy%lookup_lt_Some; lia].
  intros i y ?? Hy. destruct (decide (i = len vs - 1)) as [->|]; [congruence|].
  assert (y < l); [|lia].
  by eapply (sorted_lookup Z.lt vs (Z.to_nat i) (Z.to_nat (len vs - 1))); [done|lia|..].
Qed.

Lemma search_below_first vs value f :
  StronglySorted Z.lt vs → vs !! 0%nat = Some f → value < f → search_spec vs value false 0.
Proof.
  intros Hs Hf Hv. apply search_spec_not_found; [lia..|].
  intros i y ? Hy. destruct (decide (i = 0)) as [->|]; [change (Z.to_nat 0) with 0%nat in Hy; congruence|].
  assert (f < y); [|lia]. by eapply (sorted_lookup Z.lt vs 0 (Z.to_nat i)); [done|lia|..].
Qed.

Lemma search_correct s vs value :
  intset_rep s vs → len vs ≤ max_entries →
  ∃ found pos, intsetSearch s value = Some (found, pos) ∧ search_spec vs value found pos.
Proof.
  intros Hrep Hmax. pose proof (rep_sorted _ _ Hrep) as Hs.
  unfold intsetSearch. rewrite (rep_length _ _ Hrep).
  assert (len vs ≤ 2 ^ 29 - 1) by done.
  destruct (Z.eqb_spec (len vs) 0) as [Hz|Hz].
  { eexists _, _. split; [done|]. destruct vs; [|done].
    by apply search_spec_not_found; [simpl; lia|..]. }
  rewrite uwrap_small, swrap_small by lia.
  destruct (lookup_lt_is_Some_2 vs (Z.to_nat (len vs - 1))) as [l Hl]; [lia|].
  destruct (lookup_lt_is_Some_2 vs 0) as [f Hf]; [lia|].
  rewrite (get_rep s vs (len vs - 1) l), (get_rep s vs 0 f) by (try done; lia).
  bsimpl. rewrite Z.gtb_ltb.
  destruct (Z.ltb_spec l value) as [Hv|Hv].
  { eexists _, _. split; [done|]. by eapply search_above_last. }
  destruct (Z.ltb_spec value f) as [Hv'|Hv'].
  { eexists _, _. split; [done|]. by eapply search_below_first. }
  destruct (search_loop_spec s vs value (S (Z.to_nat (len vs))) 0 (len vs - 1) (-1) (-1))
    as (min & mid & cur & -> & Hspec); [done..| |lia|lia|].
  { split_and!; try lia. intros i y ? Hy%lookup_lt_Some. lia. }
  bsimpl.
  destruct (value =? cur); eexists _, _; (split; [done|]);
    destruct Hspec as (v1 & v2 & -> & -> & ?); rewrite length_app in *;
    rewrite uwrap_small by lia; by exists v1, v2.
Qed.

Lemma resize_grow s n w :
  intrev32ifbe (encoding s) = w → width w → 0 ≤ n ≤ max_entries → len (contents s) ≤ n * w →
  ∃ tail, intsetResize junk s n = mkIntset (encoding s) (length_ s) (contents s ++ tail) ∧
          len tail = n * w - len (contents s).
Proof.
  intros He Hw Hn Hc. unfold intsetResize, max_entries in *. rewrite He.
  pose proof (width_pos _ Hw). rewrite (uwrap_small 32 n), uwrap_small by nia.
  destruct (zrealloc_grow junk (contents s) (n * w)) as (t & -> & Ht); [lia|]. by exists t.
Qed.

Lemma move_tail s from to w :
  intrev32ifbe (encoding s) = w → width w → 0 ≤ from ≤ intrev32ifbe (length_ s) →
  intrev32ifbe (length_ s) ≤ max_entries →
  intsetMoveTail s from to =
    c ← memmove (contents s) (to * w) (from * w) ((intrev32ifbe (length_ s) - from) * w);
    Some (mkIntset (encoding s) (length_ s) c).
Proof.
  intros He Hw Hf Hn. unfold intsetMoveTail, max_entries in *. rewrite He.
  rewrite (uwrap_small 32 (_ - from)) by lia.
  replace (if w =? _ then _ else _) with w.
  - pose proof (width_pos _ Hw). by rewrite uwrap_small by nia.
  - by by_width Hw.
Qed.

Lemma set_length_rep s vs w :
  0 ≤ encoding s < 2 ^ 32 → intrev32ifbe (encoding s) = w → width w →
  contents s = packed w vs → Forall (fits w) vs → StronglySorted Z.lt vs →
  len vs ≤ max_entries → intset_rep (set_length s (len vs)) vs.
Proof.
  intros He Hw ? ? ? ? Hmax. unfold max_entries in Hmax. split; simpl; rewrite ?Hw; try done.
  rewrite uwrap_small, intrev32ifbe_involutive by lia. done.
Qed.

(** Insertion at the position found, without a change of encoding. *)
Lemma insert_at s vs1 vs2 v :
  intset_rep s (vs1 ++ vs2) → fits (intrev32ifbe (encoding s)) v →
  Forall (λ y, y < v) vs1 → Forall (λ y, v < y) vs2 →
  len (vs1 ++ vs2) < max_entries →
  ∃ s', intset_rep s' (vs1 ++ v :: vs2) ∧
    (let s := intsetResize junk s (intrev32ifbe (length_ s) + 1) in
     s ← (if len vs1 <? intrev32ifbe (length_ s)
          then intsetMoveTail s (len vs1) (u32 (len vs1 + 1)) else Some s);
     s ← _intsetSet s (len vs1) v;
     Some (set_length s (intrev32ifbe (length_ s) + 1))) = Some s'.
Proof.
  intros Hrep Hf H1 H2 Hmax. pose proof Hrep as [Henc Hw Hl Hc Hfs Hs].
  remember (intrev32ifbe (encoding s)) as w eqn:Ew. symmetry in Ew.
  pose proof (width_pos w Hw). rewrite packed_app in Hc.
  pose proof (packed_length w vs1). pose proof (packed_length w vs2).
  assert (len (vs1 ++ vs2) < 2 ^ 29 - 1) by done. rewrite length_app in *. cbn zeta.
  destruct (resize_grow s (intrev32ifbe (length_ s) + 1) w) as (tail & -> & Ht);
    [done..|unfold max_entries; lia|rewrite Hc, length_app; lia|].
  rewrite Hc, length_app in Ht. rewrite Hc, <- app_assoc. cbn [length_ encoding].
  assert (∃ gap, (if len vs1 <? intrev32ifbe (length_ s)
     then intsetMoveTail (mkIntset (encoding s) (length_ s) (packed w vs1 ++ packed w vs2 ++ tail))
            (len vs1) (u32 (len vs1 + 1))
     else Some (mkIntset (encoding s) (length_ s) (packed w vs1 ++ packed w vs2 ++ tail)))
    = Some (mkIntset (encoding s) (length_ s) (packed w vs1 ++ gap ++ packed w vs2)) ∧ len gap = w)
    as (gap & -> & Hgap).
  { destruct (Z.ltb_spec (len vs1) (intrev32ifbe (length_ s))).
    - rewrite (move_tail _ _ _ w) by (unfold max_entries; simpl; first [done|lia]).
      rewrite uwrap_small by lia. cbn [contents length_ encoding].
      destruct (memmove_right (packed w vs1) (packed w vs2) tail ((len vs1 + 1) * w) (len vs1 * w)
        ((intrev32ifbe (length_ s) - len vs1) * w) w) as (gap & -> & ?); [lia..|]. by exists gap.
    - destruct vs2; [|simpl in *; lia]. exists tail. by rewrite app_nil_r; split; [|simpl in *; lia]. }
  bsimpl.
  rewrite (set_encoded _ _ w v (packed w vs1) gap (packed w vs2)) by (simpl; first [done|lia]).
  cbn [mbind option_bind length_]. eexists. split; [|done].
  replace (intrev32ifbe (length_ s) + 1) with (len (vs1 ++ v :: vs2))
    by (rewrite length_app; simpl; lia).
  eapply set_length_rep; [done|done|done|..].
  - by rewrite packed_app, packed_cons.
  - apply Forall_app in Hfs as [? ?]. by apply Forall_app; split; [|constructor].
  - by apply sorted_insert.
  - rewrite length_app. unfold max_entries. simpl. lia.
Qed.

Lemma delete_at s vs1 v vs2 :
  intset_rep s (vs1 ++ v :: vs2) → len (vs1 ++ v :: vs2) ≤ max_entries →
  ∃ s', intset_rep s' (vs1 ++ vs2) ∧
    (let n := intrev32ifbe (length_ s) in
     s ← (if len vs1 <? u32 (n - 1) then intsetMoveTail s (u32 (len vs1 + 1)) (len vs1) else Some s);
     let s := intsetResize junk s (n - 1) in
     Some (set_length s (n - 1))) = Some s'.
Proof.
  intros Hrep Hmax. pose proof Hrep as [Henc Hw Hl Hc Hfs Hs].
  remember (intrev32ifbe (encoding s)) as w eqn:Ew. symmetry in Ew.
  pose proof (width_pos w Hw). rewrite packed_app, packed_cons in Hc.
  pose proof (packed_length w vs1). pose proof (packed_length w vs2).
  pose proof (le_bytes_length w v). rewrite length_app in *. cbn [length] in *.
  assert (len vs1 + (1 + len vs2) ≤ 2 ^ 29 - 1) by (unfold max_entries in *; lia).
  cbn zeta. rewrite (uwrap_small 32 (_ - 1)), (uwrap_small 32 (len vs1 + 1)) by lia.
  assert (∃ rest, (if len vs1 <? intrev32ifbe (length_ s) - 1
     then intsetMoveTail s (len vs1 + 1) (len vs1) else Some s)
    = Some (mkIntset (encoding s) (length_ s) ((packed w vs1 ++ packed w vs2) ++ rest)))
    as (rest & ->).
  { destruct (Z.ltb_spec (len vs1) (intrev32ifbe (length_ s) - 1)).
    - rewrite (move_tail _ _ _ w) by (unfold max_entries in *; first [done|lia]). rewrite Hc.
      destruct (memmove_left (packed w vs1) (le_bytes w v) (packed w vs2) (len vs1 * w)
        ((len vs1 + 1) * w) ((intrev32ifbe (length_ s) - (len vs1 + 1)) * w))
        as (rest & -> & ?); [lia..|]. exists rest. by rewrite <- app_assoc.
    - destruct vs2; [|simpl in *; lia]. exists (le_bytes w v). destruct s; simpl in *.
      by rewrite Hc, !app_nil_r. }
  bsimpl. eexists. split; [|done].
  unfold intsetResize. cbn [encoding contents length_].
  replace (intrev32ifbe (length_ s) - 1) with (len (vs1 ++ vs2)) by (rewrite length_app; lia).
  eapply (set_length_rep _ _ w); cbn [encoding contents length_]; [done..| | | |].
  - rewrite packed_app. apply zrealloc_shrink. rewrite Ew, !length_app.
    rewrite (uwrap_small 32 (Z.of_nat _)), uwrap_small by nia. nia.
  - rewrite Forall_app, Forall_cons in Hfs. rewrite Forall_app. tauto.
  - by eapply sorted_delete.
  - rewrite length_app. unfold max_entries. lia.
Qed.

(** Widening the values from the last to the first never overwrites one that
    is still to be read: [mid] is the slack between the two areas. *)
Lemma upgrade_loop_spec cur new p vs1 : ∀ s mid vs2 pad,
  width cur → width new → cur ≤ new → 0 ≤ p ≤ 1 → Forall (fits cur) vs1 →
  len vs1 ≤ max_entries → intrev32ifbe (encoding s) = new →
  contents s = packed cur vs1 ++ mid ++ packed new vs2 ++ pad →
  len vs1 * cur + len mid = (len vs1 + p) * new →
  ∃ gap, len gap = p * new ∧ upgrade_loop (length vs1) s p cur =
    Some (mkIntset (encoding s) (length_ s) (gap ++ packed new (vs1 ++ vs2) ++ pad)).
Proof.
  induction vs1 as [|v vs1 IH] using rev_ind;
    intros s mid vs2 pad Hwc Hwn Hle Hp Hf Hmax He Hc Hlen.
  { exists mid. destruct s; simpl in *. split; [lia|]. by rewrite Hc. }
  rewrite length_app in *. cbn [length] in *. rewrite Nat.add_1_r. cbn [upgrade_loop].
  assert (len vs1 + 1 ≤ 2 ^ 29 - 1) by (unfold max_entries in *; lia).
  pose proof (width_pos _ Hwc). pose proof (width_pos _ Hwn).
  apply Forall_app in Hf as [Hf1 [Hfv _]%Forall_cons].
  rewrite packed_app, packed_cons, app_nil_r, <- !app_assoc in Hc.
  pose proof (packed_length cur vs1). pose proof (le_bytes_length cur v).
  rewrite (get_encoded s (len vs1) cur v _ _ Hwc Hfv Hc) by lia. bsimpl.
  destruct (buffer_split (le_bytes cur v ++ mid) ((len vs1 + p) * new - len vs1 * cur) new)
    as (mid' & cell & [|? ?] & E & Hm' & Hcell); [nia|lia|rewrite length_app; nia| |].
  2: { apply (f_equal length) in E. rewrite !length_app in E. simpl in E. nia. }
  rewrite app_nil_r in E.
  assert (contents s = (packed cur vs1 ++ mid') ++ cell ++ packed new vs2 ++ pad) as Hc'.
  { rewrite Hc, <- app_assoc. f_equal. by rewrite app_assoc, E, <- app_assoc. }
  rewrite (set_encoded s (len vs1 + p) new v _ _ _ He Hwn Hc') by (rewrite ?length_app; nia).
  bsimpl.
  edestruct (IH (mkIntset (encoding s) (length_ s)
    ((packed cur vs1 ++ mid') ++ le_bytes new v ++ packed new vs2 ++ pad)) mid' (v :: vs2) pad)
    as (gap & Hg & ->); try done.
  - unfold max_entries. lia.
  - cbn [contents]. by rewrite packed_cons, <- !app_assoc.
  - lia.
  - exists gap. split; [done|]. cbn [encoding length_]. by rewrite <- app_assoc.
Qed.

(** A value of a wider encoding than the set's lies beyond one of its ends. *)
Lemma not_fits_outside w v vs :
  Forall (fits w) vs → ¬ fits w v →
  (v < 0 → Forall (λ y, v < y) vs) ∧ (0 ≤ v → Forall (λ y, y < v) vs).
Proof.
  rewrite !Forall_forall. unfold fits.
  intros Hf Hv. split; intros Hs y Hy; specialize (Hf y Hy); simpl in *; lia.
Qed.

(** After the resize and the widening loop only the room for the new value,
    at the front or at the back, is left to fill. *)
Lemma upgrade_widen s vs w nw p :
  intset_rep s vs → intrev32ifbe (encoding s) = w → width nw → w ≤ nw → 0 ≤ p ≤ 1 →
  len vs < max_entries →
  ∃ gap pad, len gap = p * nw ∧ len pad = (1 - p) * nw ∧
    upgrade_loop (length vs)
      (intsetResize junk (mkIntset (intrev32ifbe nw) (length_ s) (contents s)) (len vs + 1)) p w =
    Some (mkIntset (intrev32ifbe nw) (length_ s) (gap ++ packed nw vs ++ pad)).
Proof.
  intros [Henc Hw Hl Hc Hfs Hs] Ew Hn Hle Hp Hmax. rewrite Ew in *.
  assert (len vs < 2 ^ 29 - 1) by done.
  pose proof (width_pos _ Hw). pose proof (width_pos _ Hn). pose proof (packed_length w vs).
  destruct (resize_grow (mkIntset (intrev32ifbe nw) (length_ s) (contents s)) (len vs + 1) nw)
    as (tail & -> & Ht); [simpl; apply intrev32ifbe_involutive; lia|done
    |unfold max_entries; lia|simpl; rewrite Hc; nia|].
  cbn [contents encoding length_] in *. rewrite Hc in *.
  destruct (buffer_split tail ((len vs + p) * nw - len vs * w) ((1 - p) * nw))
    as (mid & pad & [|? ?] & -> & Hmid & Hpad); [nia|nia|nia| |].
  2: { rewrite !length_app in Ht. simpl in Ht. nia. }
  rewrite app_nil_r.
  destruct (upgrade_loop_spec w nw p vs (mkIntset (intrev32ifbe nw) (length_ s)
    (packed w vs ++ mid ++ pad)) mid [] pad) as (gap & Hgap & ->);
    [done|done|lia|done|done|unfold max_entries; lia
    |simpl; apply intrev32ifbe_involutive; lia|done|lia|].
  exists gap, pad. by rewrite app_nil_r.
Qed.

Lemma upgrade_and_add s vs v :
  intset_rep s vs → - 2 ^ 63 ≤ v < 2 ^ 63 → len vs < max_entries →
  intrev32ifbe (encoding s) < _intsetValueEncoding v →
  ∃ s', intsetUpgradeAndAdd junk s v = Some s' ∧
        intset_rep s' (if v <? 0 then v :: vs else vs ++ [v]).
Proof.
  intros Hrep Hv Hmax Hlt. pose proof Hrep as [Henc Hw Hl Hc Hfs Hs].
  pose proof (value_encoding_width v) as Hn. pose proof (width_pos _ Hn).
  assert (fits (_intsetValueEncoding v) v) as Hfv by (apply value_encoding_fits; [done..|lia]).
  destruct (not_fits_outside _ v vs Hfs) as [Hneg Hpos];
    [by rewrite <- value_encoding_fits by done; lia|].
  unfold intsetUpgradeAndAdd. remember (_intsetValueEncoding v) as nw eqn:Enw. clear Enw.
  assert (len vs < 2 ^ 29 - 1) by done. pose proof (packed_length nw vs).
  cbn [length_]. rewrite u8_width, Hl, swrap_small by (done || lia).
  rewrite (proj2 (Z.ltb_ge (len vs) 0)) by lia. rewrite Nat2Z.id.
  destruct (upgrade_widen s vs _ nw (if v <? 0 then 1 else 0) Hrep eq_refl Hn)
    as (gap & pad & Hgap & Hpad & ->); [lia|case_match; lia|done|].
  cbn [mbind option_bind length_]. rewrite Hl.
  assert (intrev32ifbe (intrev32ifbe nw) = nw) by (apply intrev32ifbe_involutive; lia).
  assert (Forall (fits nw) vs).
  { eapply Forall_impl; [exact Hfs|]. intros y. apply fits_mono; [lia|by apply width_pos]. }
  assert (0 ≤ intrev32ifbe nw < 2 ^ 32) by (apply intrev32ifbe_bound; lia).
  destruct (Z.ltb_spec v 0); cbn [Z.eqb Pos.eqb].
  - destruct pad; [|simpl in Hpad; lia].
    rewrite (set_encoded _ _ nw v [] gap (packed nw vs)) by (simpl; rewrite ?app_nil_r; first [done|lia]).
    cbn [mbind option_bind length_]. rewrite Hl. eexists. split; [done|].
    replace (len vs + 1) with (len (v :: vs)) by (simpl; lia).
    eapply set_length_rep; try done; [by constructor| |unfold max_entries; simpl; lia].
    constructor; [done|]. by apply Hneg.
  - destruct gap; [|simpl in Hgap; lia].
    rewrite (set_encoded _ _ nw v (packed nw vs) pad []) by (simpl; rewrite ?app_nil_r; first [done|lia]).
    cbn [mbind option_bind length_]. rewrite Hl. eexists. split; [done|].
    replace (len vs + 1) with (len (vs ++ [v])) by (rewrite length_app; simpl; lia).
    eapply set_length_rep; try done; [by rewrite packed_app|by apply Forall_app; split; [|constructor]
      | |rewrite length_app; unfold max_entries; simpl; lia].
    apply sorted_insert; [by rewrite app_nil_r|by apply Hpos|done].
Qed.

Lemma rep_size s vs : intset_rep s vs → size (list_to_set vs : gset Z) = length vs.
Proof.
  intros Hrep. apply size_list_to_set. pose proof (rep_sorted _ _ Hrep) as Hs. clear Hrep.
  induction Hs as [|x l Hs IH Hall]; constructor; [|done].
  rewrite Forall_forall in Hall. intros Hx%Hall. lia.
Qed.

(** A search decides membership. *)
Lemma search_spec_member vs value found pos :
  search_spec vs value found pos → found = bool_decide (value ∈ vs).
Proof.
  intros (vs1 & vs2 & -> & _ & Hlt & Hf). destruct found.
  - destruct Hf as [vs3 ->]. symmetry. apply bool_decide_eq_true. set_solver.
  - symmetry. apply bool_decide_eq_false. rewrite elem_of_app.
    rewrite !Forall_forall in *. intros [Hx%Hlt | Hx%Hf]; simpl in *; lia.
Qed.

(** Every member has an encoding no wider than the set's. *)
Lemma member_encoding s vs v :
  intset_rep s vs → v ∈ vs → _intsetValueEncoding v ≤ intrev32ifbe (encoding s).
Proof.
  intros Hrep Hv. pose proof (rep_width _ _ Hrep) as Hw.
  pose proof (rep_fits _ _ Hrep) as Hf. rewrite Forall_forall in Hf. specialize (Hf v Hv).
  apply value_encoding_fits; [by eapply fits_range64|done..].
Qed.

Lemma new_flag (vs : list Z) value :
  bool_decide (value ∉ (list_to_set vs : gset Z)) = negb (bool_decide (value ∈ vs)).
Proof.
  rewrite <- bool_decide_not. apply bool_decide_ext. by rewrite elem_of_list_to_set.
Qed.

Lemma new_rep : intset_rep intsetNew [].
Proof.
  assert (intrev32ifbe (intrev32ifbe 2) = 2) as E by (apply intrev32ifbe_involutive; lia).
  unfold intsetNew, INTSET_ENC_INT16. split; simpl; rewrite ?E; try done; [|by left| |constructor].
  - apply intrev32ifbe_bound; lia.
  - unfold intrev32ifbe. destruct big_endian; [by rewrite intrev32_rev|done].
Qed.
End intset_lemmas.

(** ** Theorems *)

Section intset_theorems.
Context `{Host} (junk : nat → Z).
Implicit Types (s : intset) (X : gset Z).

(** C23. [intsetAdd] on a blob that stores the set [X] returns a well-formed
    blob that stores [X] with the value added and reports success exactly
    when the value was new, on hosts of either byte order, through the
    in-place insertion and the encoding upgrade alike, and without touching
    memory outside of the (re)allocated block. *)
Theorem intsetAdd_refines s X value :
  intset_denotes s X → Z.of_nat (size X) < max_entries → - 2 ^ 63 ≤ value < 2 ^ 63 →
  ∃ s', intsetAdd junk s value = Some (s', bool_decide (value ∉ X)) ∧
        intset_denotes s' ({[value]} ∪ X).
Proof.
  intros (vs & Hrep & ->) Hsz Hv. rewrite (rep_size _ _ Hrep) in Hsz. rewrite new_flag.
  pose proof (rep_width _ _ Hrep) as Hw. unfold intsetAdd. rewrite Z.gtb_ltb.
  destruct (Z.ltb_spec (intrev32ifbe (encoding s)) (_intsetValueEncoding value)) as [Hlt|Hge].
  - destruct (upgrade_and_add junk s vs value Hrep Hv Hsz Hlt) as (s' & -> & Hrep').
    exists s'. bsimpl. rewrite bool_decide_eq_false_2.
    { split; [done|]. eexists. split; [exact Hrep'|]. case_match; set_solver. }
    intros Hin%(member_encoding s vs); [lia|done].
  - destruct (search_correct s vs value Hrep) as (found & pos & -> & Hs); [lia|].
    bsimpl. rewrite <- (search_spec_member _ _ _ _ Hs).
    destruct Hs as (vs1 & vs2 & -> & -> & Hlt & Hs). destruct found.
    + destruct Hs as [vs3 ->]. exists s. split; [done|].
      eexists. split; [exact Hrep|set_solver].
    + destruct (insert_at junk s vs1 vs2 value) as (s' & Hrep' & E); [done| |done..|].
      { by apply value_encoding_fits. }
      cbn zeta in E |- *. apply bind_Some in E as (s1 & -> & (s2 & E2 & [= <-])%bind_Some).
      bsimpl. rewrite E2. eexists. split; [done|].
      eexists. split; [exact Hrep'|set_solver].
Qed.

(** [intsetRemove] removes exactly the value from the set stored and
    reports whether it was there. *)
Theorem intsetRemove_refines s X value :
  intset_denotes s X → Z.of_nat (size X) ≤ max_entries → - 2 ^ 63 ≤ value < 2 ^ 63 →
  ∃ s', intsetRemove junk s value = Some (s', bool_decide (value ∈ X)) ∧
        intset_denotes s' (X ∖ {[value]}).
Proof.
  intros (vs & Hrep & ->) Hsz Hv. rewrite (rep_size _ _ Hrep) in Hsz.
  pose proof (rep_width _ _ Hrep) as Hw. unfold intsetRemove.
  rewrite (bool_decide_ext _ (value ∈ vs)) by (by rewrite elem_of_list_to_set).
  destruct (Z.leb_spec (_intsetValueEncoding value) (intrev32ifbe (encoding s))) as [Hle|Hgt].
  - destruct (search_correct s vs value Hrep Hsz) as (found & pos & -> & Hs).
    bsimpl. rewrite <- (search_spec_member _ _ _ _ Hs).
    destruct Hs as (vs1 & vs2 & -> & -> & Hlt & Hs). destruct found.
    + destruct Hs as [vs3 ->].
      pose proof (rep_sorted _ _ Hrep) as (_ & _ & [Hgt _]%StronglySorted_cons)%StronglySorted_app.
      destruct (delete_at junk s vs1 value vs3 Hrep Hsz) as (s' & Hrep' & E).
      cbn zeta in E |- *. apply bind_Some in E as (s1 & -> & [= <-]).
      eexists. split; [done|]. eexists. split; [exact Hrep'|].
      rewrite !Forall_forall in *. apply set_eq. intros y.
      assert (y ∈ vs1 ++ vs3 → y ≠ value); [|set_solver].
      intros [Hy%Hlt | Hy%Hgt]%elem_of_app; simpl in *; lia.
    + exists s. split; [done|]. eexists. split; [exact Hrep|].
      rewrite !Forall_forall in *. apply set_eq. intros y.
      assert (y ∈ vs1 ++ vs2 → y ≠ value); [|set_solver].
      intros [Hy%Hlt | Hy%Hs]%elem_of_app; simpl in *; lia.
  - assert (value ∉ vs) as Hn.
    { intros Hin%(member_encoding s vs); [lia|done]. }
    exists s. rewrite bool_decide_eq_false_2 by done. split; [done|].
    eexists. split; [exact Hrep|set_solver].
Qed.

(** [intsetFind] decides membership in the set stored. *)
Theorem intsetFind_correct s X value :
  intset_denotes s X → Z.of_nat (size X) ≤ max_entries → - 2 ^ 63 ≤ value < 2 ^ 63 →
  intsetFind s value = Some (bool_decide (value ∈ X)).
Proof.
  intros (vs & Hrep & ->) Hsz Hv. rewrite (rep_size _ _ Hrep) in Hsz.
  pose proof (rep_width _ _ Hrep) as Hw. unfold intsetFind.
  rewrite (bool_decide_ext _ (value ∈ vs)) by (by rewrite elem_of_list_to_set).
  destruct (Z.leb_spec (_intsetValueEncoding value) (intrev32ifbe (encoding s))) as [Hle|Hgt].
  - destruct (search_correct s vs value Hrep Hsz) as (found & pos & -> & Hs).
    bsimpl. by rewrite <- (search_spec_member _ _ _ _ Hs).
  - rewrite bool_decide_eq_false_2; [done|]. intros Hin%(member_encoding s vs); [lia|done].
Qed.

(** The positions of an intset enumerate the members in increasing
    order, each once: [intsetGet] returns the [pos]-th smallest member below
    [intsetLen], which is the cardinality, and fails from there on. *)
Theorem intsetGet_enumerates s X :
  intset_denotes s X → Z.of_nat (size X) ≤ max_entries →
  ∃ vs, StronglySorted Z.lt vs ∧ X = list_to_set vs ∧ intsetLen s = len vs ∧
    (∀ pos, 0 ≤ pos → intsetGet s pos = Some (vs !! Z.to_nat pos)).
Proof.
  intros (vs & Hrep & ->) Hsz. rewrite (rep_size _ _ Hrep) in Hsz.
  exists vs. unfold intsetLen, intsetGet. rewrite (rep_length _ _ Hrep).
  split_and!; [by eapply rep_sorted|done..|]. intros pos Hpos.
  destruct (Z.ltb_spec pos (len vs)).
  - destruct (lookup_lt_is_Some_2 vs (Z.to_nat pos)) as [v Hv]; [lia|].
    by rewrite (get_rep s vs pos v), Hv by done.
  - by rewrite lookup_ge_None_2 by lia.
Qed.
End intset_theorems.

(** ** Witnesses *)

(** [{3, 5}] as a big-endian host holds it: the fields are byte-reversed. *)
Definition intset_3_5 : intset := mkIntset 33554432 33554432 [3; 0; 5; 0].

Definition set_3_5 : gset Z := {[3; 5]}.

Lemma intset_3_5_denotes : intset_denotes (H:=big_host) intset_3_5 set_3_5.
Proof.
  exists [3; 5]. split; [|set_solver]. split; try (vm_compute; done).
  - by left.
  - repeat constructor; done.
  - repeat constructor; done.
Qed.

Lemma intsetAdd_refines_witness :
  ∃ s', intsetAdd (H:=big_host) (λ _, 165) intset_3_5 (-70000) = Some (s', bool_decide (-70000 ∉ set_3_5)) ∧
        intset_denotes (H:=big_host) s' ({[-70000]} ∪ set_3_5).
Proof.
  apply (intsetAdd_refines (H:=big_host) (λ _, 165) intset_3_5 set_3_5 (-70000)).
  - apply intset_3_5_denotes.
  - vm_compute. reflexivity.
  - vm_compute. split; [discriminate | reflexivity].
Defined.

Lemma intsetRemove_refines_witness :
  ∃ s', intsetRemove (H:=big_host) (λ _, 165) intset_3_5 3 = Some (s', bool_decide (3 ∈ set_3_5)) ∧
        intset_denotes (H:=big_host) s' (set_3_5 ∖ {[3]}).
Proof.
  apply (intsetRemove_refines (H:=big_host) (λ _, 165) intset_3_5 set_3_5 3).
  - apply intset_3_5_denotes.
  - vm_compute. discriminate.
  - vm_compute. split; [discriminate | reflexivity].
Defined.

Lemma intsetFind_correct_witness :
  intsetFind (H:=big_host) intset_3_5 5 = Some (bool_decide (5 ∈ set_3_5)).
Proof.
  apply (intsetFind_correct (H:=big_host) intset_3_5 set_3_5 5).
  - apply intset_3_5_denotes.
  - vm_compute. discriminate.
  - vm_compute. split; [discriminate | reflexivity].
Defined.

Lemma intsetGet_enumerates_witness :
  ∃ vs, StronglySorted Z.lt vs ∧ set_3_5 = list_to_set vs ∧
    intsetLen (H:=big_host) intset_3_5 = len vs ∧
    (∀ pos, 0 ≤ pos → intsetGet (H:=big_host) intset_3_5 pos = Some (vs !! Z.to_nat pos)).
Proof.
  apply (intsetGet_enumerates (H:=big_host) intset_3_5 set_3_5).
  - apply intset_3_5_denotes.
  - vm_compute. discriminate.
Defined.
