(* ===== verification/Rand.v ===== *)
(** * The portable random generator: [rand.c]

    [redisLrand48] must give every Lua script the same sequence on every
    machine, so the server carries its own [drand48] in 16-bit limbs.  The
    macros of the file are definitions here, at the widths of their C
    expressions; the theorems say that one [next] is a step of the 48-bit
    linear congruential generator. *)

From S2P Require Import Prelude.
Local Open Scope Z_scope.

Definition N_bits : Z := 16.
Definition MASK : Z := 2 ^ (N_bits - 1) + 2 ^ (N_bits - 1) - 1.
Definition LOW (x : Z) : Z := Z.land (u32 x) MASK.
Definition HIGH (x : Z) : Z := LOW (Z.shiftr x N_bits).
(** [MUL(x,y,z)]: the pair is [(z)[0], (z)[1]]. *)
Definition MUL (x y : Z) : Z * Z := let l := s32 (x * y) in (LOW l, HIGH l).
Definition CARRY (x y : Z) : Z := if s32 x + y >? MASK then 1 else 0.
(** [ADDEQU(x,y,z)]: the new [x] and [z]. *)
Definition ADDEQU (x y : Z) : Z * Z := (LOW (u32 (x + y)), CARRY x y).
Definition X0 : Z := 0x330E.
Definition X1 : Z := 0xABCD.
Definition X2 : Z := 0x1234.
Definition A0 : Z := 0xE66D.
Definition A1 : Z := 0xDEEC.
Definition A2 : Z := 0x5.
Definition C : Z := 0xB.

(** The file's static variables. *)
Record rand_state := mkRand { x0 : Z; x1 : Z; x2 : Z; a0 : Z; a1 : Z; a2 : Z; c : Z }.

Definition rand_init : rand_state := mkRand X0 X1 X2 A0 A1 A2 C.

Definition next (st : rand_state) : rand_state :=
  let '(p0, p1) := MUL (a0 st) (x0 st) in
  let '(p0, carry0) := ADDEQU p0 (c st) in
  let '(p1, carry1) := ADDEQU p1 carry0 in
  let '(q0, q1) := MUL (a0 st) (x1 st) in
  let '(p1, carry0) := ADDEQU p1 q0 in
  let '(r0, r1) := MUL (a1 st) (x0 st) in
  let x2' := LOW (u32 (carry0 + carry1 + CARRY p1 r0 + q1 + r1 +
                       a0 st * x2 st + a1 st * x1 st + a2 st * x0 st)) in
  let x1' := LOW (u32 (p1 + r0)) in
  let x0' := LOW p0 in
  mkRand x0' x1' x2' (a0 st) (a1 st) (a2 st) (c st).

(** The result and the new state. *)
Definition redisLrand48 (st : rand_state) : Z * rand_state :=
  let st := next st in
  (s32 (u32 (u32 (Z.shiftl (s32 (x2 st)) (N_bits - 1)) + Z.shiftr (x1 st) 1)), st).

Definition redisSrand48 (seedval : Z) (st : rand_state) : rand_state :=
  mkRand X0 (LOW seedval) (HIGH seedval) A0 A1 A2 C.

(** ** The 48-bit generator *)

Definition lcg_value (st : rand_state) : Z := x0 st + 2 ^ 16 * x1 st + 2 ^ 32 * x2 st.

Definition lcg_step (X : Z) : Z := (0x5DEECE66D * X + 0xB) mod 2 ^ 48.

Definition limb (z : Z) : Prop := 0 ≤ z < 2 ^ 16.

Record rand_inv (st : rand_state) : Prop := {
  inv_x0 : limb (x0 st); inv_x1 : limb (x1 st); inv_x2 : limb (x2 st);
  inv_a0 : a0 st = A0; inv_a1 : a1 st = A1; inv_a2 : a2 st = A2; inv_c : c st = C
}.

Lemma LOW_mod z : LOW z = z mod 2 ^ 16.
Proof.
  unfold LOW, MASK, N_bits, uwrap. replace (2 ^ (16 - 1) + 2 ^ (16 - 1) - 1) with (Z.ones 16) by done.
  rewrite Z.land_ones by lia. apply Z.mod_mod_divide. by exists (2 ^ 16).
Qed.

Lemma LOW_limb z : limb (LOW z).
Proof. rewrite LOW_mod. apply Z.mod_pos_bound. lia. Qed.

Lemma LOW_u32 z : LOW (u32 z) = LOW z.
Proof. unfold LOW. by rewrite uwrap_uwrap. Qed.

(** [MUL] splits the 32-bit product of two limbs, whatever the sign its
    [int32_t] temporary takes. *)
Lemma MUL_spec x y :
  limb x → limb y → ∃ lo hi, MUL x y = (lo, hi) ∧ limb lo ∧ limb hi ∧ lo + 2 ^ 16 * hi = x * y.
Proof.
  unfold limb. intros Hx Hy. assert (0 ≤ x * y < 2 ^ 32) by nia.
  unfold MUL, HIGH, N_bits. rewrite Z.shiftr_div_pow2 by lia. rewrite !LOW_mod.
  eexists _, _. split; [done|]. unfold swrap. generalize dependent (x * y). intros z Hz. unfold limb.
  Z.to_euclidean_division_equations; lia.
Qed.

Lemma ADDEQU_spec x y :
  limb x → limb y →
  ∃ lo k, ADDEQU x y = (lo, k) ∧ CARRY x y = k ∧ limb lo ∧ 0 ≤ k ≤ 1 ∧ lo + 2 ^ 16 * k = x + y.
Proof.
  unfold limb. intros Hx Hy. unfold ADDEQU, CARRY. rewrite LOW_u32, LOW_mod.
  rewrite swrap_small by lia. eexists _, _. split; [done|]. split; [done|]. split; [|split]; unfold limb.
  - Z.to_euclidean_division_equations; lia.
  - case_match; lia.
  - rewrite Z.gtb_ltb. change MASK with 65535. destruct (Z.ltb_spec 65535 (x + y));
      Z.to_euclidean_division_equations; lia.
Qed.

Lemma limb_carry k : 0 ≤ k ≤ 1 → limb k.
Proof. unfold limb. lia. Qed.

Lemma next_inv st : rand_inv st → rand_inv (next st).
Proof.
  intros []. unfold next. repeat case_match. split; simpl; first [done | apply LOW_limb].
Qed.

Lemma next_lcg st : rand_inv st → lcg_value (next st) = lcg_step (lcg_value st).
Proof.
  intros [H0 H1 H2 Ha0 Ha1 Ha2 Hc]. unfold next. rewrite Ha0, Ha1, Ha2, Hc.
  destruct (MUL_spec A0 (x0 st)) as (p0 & p1 & -> & Hp0 & Hp1 & Hp); [done..|].
  destruct (MUL_spec A0 (x1 st)) as (q0 & q1 & -> & Hq0 & Hq1 & Hq); [done..|].
  destruct (MUL_spec A1 (x0 st)) as (r0 & r1 & -> & Hr0 & Hr1 & Hr); [done..|].
  destruct (ADDEQU_spec p0 C) as (P0 & k0 & -> & _ & HP0 & Hk0 & E0); [done..|].
  destruct (ADDEQU_spec p1 k0) as (P1 & k1 & -> & _ & HP1 & Hk1 & E1); [done|by apply limb_carry|].
  destruct (ADDEQU_spec P1 q0) as (P2 & k2 & -> & _ & HP2 & Hk2 & E2); [done..|].
  destruct (ADDEQU_spec P2 r0) as (P3 & k3 & E3' & -> & HP3 & Hk3 & E3); [done..|].
  unfold ADDEQU in E3'. injection E3' as -> _.
  rewrite LOW_u32. unfold lcg_value, lcg_step. cbn [x0 x1 x2]. rewrite !LOW_mod.
  unfold limb, A0, A1, A2, C in *. rewrite (Z.mod_small P0) by lia.
  set (T := k2 + k1 + k3 + q1 + r1 + _ + _ + _).
  pose proof (Z.div_mod T (2 ^ 16)). pose proof (Z.mod_pos_bound T (2 ^ 16)).
  apply Z.mod_unique_pos with (q := T / 2 ^ 16 + 0x5 * x1 st + 0xDEEC * x2 st + 2 ^ 16 * 0x5 * x2 st); subst T; lia.
Qed.

Lemma srand_inv seed st : rand_inv (redisSrand48 seed st).
Proof. split; simpl; first [done | apply LOW_limb]. Qed.

(** ** Theorems *)

(** One call of [redisLrand48] is one step of the 48-bit linear
    congruential generator of [drand48], its result the 31 high bits of the
    new state, always a non-negative [int32_t]; the invariant on the limbs is
    kept. *)
Theorem redisLrand48_lcg st :
  rand_inv st →
  let '(r, st') := redisLrand48 st in
  rand_inv st' ∧ lcg_value st' = lcg_step (lcg_value st) ∧
  r = lcg_value st' / 2 ^ 17 ∧ 0 ≤ r < 2 ^ 31.
Proof.
  intros Hst. unfold redisLrand48. pose proof (next_inv st Hst) as Hn.
  split; [done|]. split; [by apply next_lcg|]. destruct Hn as [H0 H1 H2 _ _ _ _].
  unfold lcg_value, limb, N_bits in *. rewrite Z.shiftl_mul_pow2, Z.shiftr_div_pow2 by lia.
  rewrite (swrap_small 32 (x2 _)) by lia.
  generalize dependent (x2 (next st)). generalize dependent (x1 (next st)).
  generalize dependent (x0 (next st)). intros y0 H0 y1 H1 y2 H2.
  assert (0 ≤ y1 / 2 ^ 1 < 2 ^ 15) by (Z.to_euclidean_division_equations; lia).
  rewrite !(uwrap_small 32), swrap_small by (rewrite ?uwrap_small; lia).
  split; [Z.to_euclidean_division_equations; lia|lia].
Qed.

(** [redisSrand48] puts the generator in the state that depends on the
    32-bit seed alone, so that equal seeds replay equal sequences. *)
Theorem redisSrand48_state seed st :
  rand_inv (redisSrand48 seed st) ∧
  lcg_value (redisSrand48 seed st) = 2 ^ 16 * u32 seed + X0.
Proof.
  split; [apply srand_inv|]. unfold lcg_value, redisSrand48, HIGH, N_bits, uwrap. simpl.
  rewrite Z.shiftr_div_pow2 by lia. rewrite !LOW_mod. Z.to_euclidean_division_equations; lia.
Qed.

Lemma redisLrand48_lcg_witness :
  let '(r, st') := redisLrand48 rand_init in
  rand_inv st' ∧ lcg_value st' = lcg_step (lcg_value rand_init) ∧
  r = lcg_value st' / 2 ^ 17 ∧ 0 ≤ r < 2 ^ 31.
Proof.
  apply (redisLrand48_lcg rand_init). split; vm_compute; try split; first [reflexivity | discriminate].
Defined.
