(* ===== verification/Util.v ===== *)
(** * Numbers and strings: [util.c]

    [ll2string] prints two digits at a time into the caller's buffer,
    [string2ll] parses with explicit overflow tests.  Both are related to
    [decimal_repr], the canonical decimal representation, from which the two
    round trips follow: the server relies on them when it stores strings as
    integers and gives them back as the same strings. *)

From S2P Require Import Prelude.
Local Open Scope Z_scope.

Definition ULLONG_MAX : Z := 2 ^ 64 - 1.
Definition LLONG_MAX : Z := 2 ^ 63 - 1.
Definition LLONG_MIN : Z := - 2 ^ 63.

(** ** [digits10] and [ll2string] *)

(** The recursive call divides by [10^12], so two levels reach the end of the
    64-bit range; [fuel] counts them. *)
Fixpoint digits10 (fuel : nat) (v : Z) : Z :=
  if v <? 10 then 1
  else if v <? 100 then 2
  else if v <? 1000 then 3
  else if v <? 1000000000000 then
    if v <? 100000000 then
      if v <? 1000000 then
        if v <? 10000 then 4
        else 5 + (if v >=? 100000 then 1 else 0)
      else 7 + (if v >=? 10000000 then 1 else 0)
    else if v <? 10000000000 then 9 + (if v >=? 1000000000 then 1 else 0)
    else 11 + (if v >=? 100000000000 then 1 else 0)
  else
    match fuel with
    | O => 0
    | S fuel => u32 (12 + digits10 fuel (v / 1000000000000))
    end.

(** [static const char digits[201]], with its terminating NUL. *)
Definition digits : list Z := str
  "00010203040506070809101112131415161718192021222324252627282930313233343536373839404142434445464748495051525354555657585960616263646566676869707172737475767778798081828384858687888990919293949596979899"
  ++ [0].

(** [while (value >= 100)]: the remaining value, [next] and the buffer. *)
Fixpoint ll2string_loop (fuel : nat) (dst : list Z) (value next : Z) : option (list Z * Z * Z) :=
  if value >=? 100 then
    match fuel with
    | O => None
    | S fuel =>
        let i := value mod 100 * 2 in
        let value := value / 100 in
        d1 ← mget digits (i + 1);
        dst ← mset dst next d1;
        d0 ← mget digits i;
        dst ← mset dst (u32 (next - 1)) d0;
        ll2string_loop fuel dst value (u32 (next - 2))
    end
  else Some (dst, value, next).

(** The buffer after the call and the length returned. *)
Definition ll2string (dst : list Z) (dstlen svalue : Z) : option (list Z * Z) :=
  let '(value, negative) :=
    if svalue <? 0 then
      (if negb (svalue =? LLONG_MIN) then u64 (- svalue) else u64 (LLONG_MAX + 1), 1)
    else (svalue, 0) in
  let length := u32 (digits10 2 value + negative) in
  if length >=? dstlen then Some (dst, 0)
  else
    dst ← mset dst length 0;
    let next := u32 (length - 1) in
    '(dst, value, next) ← ll2string_loop 10 dst value next;
    dst ← (if value <? 10 then mset dst next (48 + value)
           else
             let i := value * 2 in
             d1 ← mget digits (i + 1);
             dst ← mset dst next d1;
             d0 ← mget digits i;
             mset dst (u32 (next - 1)) d0);
    dst ← (if negative =? 1 then mset dst 0 45 else Some dst);
    Some (dst, length).

(** ** [string2ll] and [string2l]

    The string is the list of its [slen] bytes; [p] is the part not yet
    consumed, so [plen == slen] is [p = []].  The inner [None] is the return
    value 0. *)

Fixpoint string2ll_loop (p : list Z) (v : Z) : option (list Z * Z) :=
  match p with
  | ch :: p' =>
      if (ch >=? 48) && (ch <=? 57) then
        if v >? ULLONG_MAX / 10 then None
        else
          let v := u64 (v * 10) in
          if v >? ULLONG_MAX - (ch - 48) then None
          else string2ll_loop p' (u64 (v + (ch - 48)))
      else Some (p, v)
  | [] => Some ([], v)
  end.

(** The part after the optional sign. *)
Definition string2ll_tail (slen : Z) (p : list Z) (negative : bool) : option Z :=
  match p with
  | [] => None
  | ch :: p' =>
      if (ch >=? 49) && (ch <=? 57) then
        '(rest, v) ← string2ll_loop p' (ch - 48);
        match rest with
        | _ :: _ => None
        | [] =>
            if negative then
              if v >? 2 ^ 63 then None else Some (s64 (u64 (- v)))
            else if v >? LLONG_MAX then None else Some v
        end
      else if (ch =? 48) && (slen =? 1) then Some 0
      else None
  end.

Definition string2ll (s : list Z) : option Z :=
  match s with
  | [] => None
  | [48] => Some 0
  | ch :: p' => if ch =? 45 then string2ll_tail (len s) p' true else string2ll_tail (len s) s false
  end.

(** [long] has 64 bits. *)
Definition LONG_MAX : Z := 2 ^ 63 - 1.
Definition LONG_MIN : Z := - 2 ^ 63.

Definition string2l (s : list Z) : option Z :=
  llval ← string2ll s;
  if (llval <? LONG_MIN) || (llval >? LONG_MAX) then None else Some llval.

(** ** Canonical decimal representation *)

Definition digit (d : Z) : Prop := 48 ≤ d ≤ 57.

(** The value of a digit string read after a prefix of value [acc]. *)
Definition dec_acc (acc : Z) (ds : list Z) : Z := foldl (λ v d, v * 10 + (d - 48)) acc ds.
Definition dec_val (ds : list Z) : Z := dec_acc 0 ds.

(** [s] is the decimal representation of [v]: a minus sign exactly when [v]
    is negative, and no leading zero. *)
Definition decimal_repr (v : Z) (s : list Z) : Prop :=
  ∃ ds, Forall digit ds ∧ ds ≠ [] ∧ (head ds = Some 48 → ds = [48]) ∧
    dec_val ds = Z.abs v ∧ s = (if v <? 0 then [45] else []) ++ ds.

Lemma dec_acc_snoc acc ds d : dec_acc acc (ds ++ [d]) = dec_acc acc ds * 10 + (d - 48).
Proof. unfold dec_acc. by rewrite foldl_app. Qed.

Lemma dec_acc_app acc ds1 ds2 : dec_acc acc (ds1 ++ ds2) = dec_acc (dec_acc acc ds1) ds2.
Proof. unfold dec_acc. by rewrite foldl_app. Qed.

Lemma dec_acc_shift acc ds : dec_acc acc ds = acc * 10 ^ len ds + dec_val ds.
Proof.
  unfold dec_val. induction ds as [|d ds IH] using rev_ind; [simpl; lia|].
  rewrite !dec_acc_snoc, IH, length_app. simpl length.
  rewrite Nat2Z.inj_add, Z.pow_add_r by lia. lia.
Qed.

Lemma dec_acc_mono acc ds : 0 ≤ acc → Forall digit ds → acc ≤ dec_acc acc ds.
Proof.
  intros Hacc Hds. revert acc Hacc. induction Hds as [|d ds Hd _ IH]; intros acc Hacc; simpl; [lia|].
  unfold digit in Hd. specialize (IH (acc * 10 + (d - 48))). unfold dec_acc in *. simpl. lia.
Qed.

Lemma dec_val_bound ds : Forall digit ds → 0 ≤ dec_val ds < 10 ^ len ds.
Proof.
  unfold dec_val. induction ds as [|d ds IH] using rev_ind; [done|].
  intros [Hds [Hd _]%Forall_cons]%Forall_app. specialize (IH Hds). unfold digit in Hd.
  rewrite dec_acc_snoc, length_app. simpl length.
  rewrite Nat2Z.inj_add, Z.pow_add_r by lia. lia.
Qed.

Lemma head_snoc {A} (l : list A) x y : head l = Some y → head (l ++ [x]) = Some y.
Proof. by destruct l. Qed.

Lemma dec_val_zero ds :
  Forall digit ds → head ds ≠ Some 48 → dec_val ds = 0 → ds = [].
Proof.
  unfold dec_val. induction ds as [|d ds IH] using rev_ind; [done|].
  intros [Hds [Hd _]%Forall_cons]%Forall_app Hh. rewrite dec_acc_snoc. intros Hv.
  pose proof (dec_acc_mono 0 ds ltac:(lia) Hds). unfold digit in Hd.
  assert (ds = []) as ->.
  { apply IH; [done| |lia]. intros Hh'. apply Hh. by apply head_snoc. }
  destruct Hh. simpl. f_equal. lia.
Qed.

(** Two digit strings without leading zeros and of equal value are equal. *)
Lemma dec_val_inj ds1 ds2 :
  Forall digit ds1 → Forall digit ds2 → head ds1 ≠ Some 48 → head ds2 ≠ Some 48 →
  dec_val ds1 = dec_val ds2 → ds1 = ds2.
Proof.
  revert ds2. induction ds1 as [|d1 ds1 IH] using rev_ind; intros ds2 H1 H2 Hh1 Hh2 Hv.
  { symmetry. by apply dec_val_zero. }
  destruct ds2 as [|d2 ds2 _] using rev_ind.
  { by apply dec_val_zero. }
  apply Forall_app in H1 as [H1 [Hd1 _]%Forall_cons].
  apply Forall_app in H2 as [H2 [Hd2 _]%Forall_cons].
  unfold dec_val in Hv. rewrite !dec_acc_snoc in Hv. unfold digit in *.
  rewrite (IH ds2); [f_equal; f_equal; lia|done..| | |unfold dec_val; lia].
  - intros Hh. apply Hh1. by apply head_snoc.
  - intros Hh. apply Hh2. by apply head_snoc.
Qed.

Lemma decimal_repr_unique v s1 s2 : decimal_repr v s1 → decimal_repr v s2 → s1 = s2.
Proof.
  intros (ds1 & H1 & Hn1 & Hz1 & Hv1 & ->) (ds2 & H2 & Hn2 & Hz2 & Hv2 & ->). f_equal.
  destruct (decide (head ds1 = Some 48)) as [Hh1|Hh1];
    destruct (decide (head ds2 = Some 48)) as [Hh2|Hh2].
  - by rewrite Hz1, Hz2.
  - rewrite Hz1 in Hv1 by done. destruct Hn2. apply dec_val_zero; [done..|]. rewrite Hv2. by rewrite <- Hv1.
  - rewrite Hz2 in Hv2 by done. destruct Hn1. apply dec_val_zero; [done..|]. rewrite Hv1. by rewrite <- Hv2.
  - apply dec_val_inj; [done..|]. by rewrite Hv1, Hv2.
Qed.

(** ** [string2ll] *)

Lemma string2ll_loop_spec p v v' :
  0 ≤ v ≤ ULLONG_MAX →
  string2ll_loop p v = Some ([], v') ↔ Forall digit p ∧ v' = dec_acc v p ∧ v' ≤ ULLONG_MAX.
Proof.
  revert v. induction p as [|d p IH]; intros v Hv; cbn [string2ll_loop].
  { split; [intros [= <-]; split_and!; [constructor|done|lia] | by intros (_ & -> & _)]. }
  rewrite !Z.geb_leb, !Z.gtb_ltb. rewrite Forall_cons. unfold digit at 1.
  destruct (Z.leb_spec 48 d), (Z.leb_spec d 57); cbn [andb];
    try (split; [intros ?; simplify_eq | intros [? _]; lia]).
  unfold ULLONG_MAX in *. change ((2 ^ 64 - 1) / 10) with 1844674407370955161.
  change (dec_acc v (d :: p)) with (dec_acc (v * 10 + (d - 48)) p).
  assert (Forall digit p → v * 10 + (d - 48) ≤ dec_acc (v * 10 + (d - 48)) p) as Hm.
  { intros Hp. apply dec_acc_mono; [lia|done]. }
  destruct (Z.ltb_spec 1844674407370955161 v).
  { split; [done|]. intros ([_ Hp] & -> & ?). specialize (Hm Hp). lia. }
  rewrite (uwrap_small 64 (v * 10)) by lia.
  destruct (Z.ltb_spec (2 ^ 64 - 1 - (d - 48)) (v * 10)).
  { split; [done|]. intros ([_ Hp] & -> & ?). specialize (Hm Hp). lia. }
  rewrite uwrap_small by lia. rewrite IH by lia. naive_solver.
Qed.

(** The digits after the sign, as the code accepts them. *)
Lemma string2ll_tail_spec slen p neg v :
  (head p = Some 48 → slen ≠ 1) →
  string2ll_tail slen p neg = Some v ↔
    p ≠ [] ∧ head p ≠ Some 48 ∧ Forall digit p ∧
    v = (if neg then - dec_val p else dec_val p) ∧ LLONG_MIN ≤ v ≤ LLONG_MAX.
Proof.
  intros Hz. destruct p as [|d p]; [naive_solver|]. cbn [string2ll_tail head] in *.
  rewrite !Z.geb_leb.
  destruct (Z.leb_spec 49 d), (Z.leb_spec d 57); cbn [andb].
  2-4: split; [|intros (_ & ? & [? _]%Forall_cons & _); unfold digit in *; assert (d ≠ 48) by congruence; lia];
       destruct (Z.eqb_spec d 48) as [->|], (Z.eqb_spec slen 1); naive_solver.
  rewrite bind_Some. rewrite Forall_cons. unfold digit at 1.
  change (dec_val (d :: p)) with (dec_acc (0 * 10 + (d - 48)) p). rewrite Z.mul_0_l, Z.add_0_l.
  pose proof (λ v', string2ll_loop_spec p (d - 48) v' ltac:(unfold ULLONG_MAX; lia)) as HL.
  pose proof (dec_acc_mono (d - 48) p ltac:(lia)) as Hmono. unfold LLONG_MIN, LLONG_MAX, ULLONG_MAX in *.
  split.
  - intros ([rest u] & Hl & Hr). destruct rest; [|done]. apply HL in Hl as (Hp & -> & Hu).
    specialize (Hmono Hp). split_and!; [done|intros [= ->]; lia|lia|lia|done|..];
    destruct neg; rewrite Z.gtb_ltb in Hr; case_match; simplify_eq; try lia;
      rewrite swrap_uwrap, swrap_small by lia; lia.
  - intros (_ & ? & [? Hp] & -> & Hv). specialize (Hmono Hp). exists ([], dec_acc (d - 48) p).
    split; [apply HL; split_and!; [done..|destruct neg; lia]|].
    destruct neg; rewrite Z.gtb_ltb; rewrite (proj2 (Z.ltb_ge _ _)) by lia; [|done].
    by rewrite swrap_uwrap, swrap_small by lia.
Qed.

Lemma decimal_repr_neg v p :
  decimal_repr v (45 :: p) ↔ p ≠ [] ∧ head p ≠ Some 48 ∧ Forall digit p ∧ v = - dec_val p.
Proof.
  split.
  - intros (ds & Hd & Hn & Hz & Hv & E). destruct (Z.ltb_spec v 0); simplify_eq/=.
    + split_and!; [done| |done|lia]. intros Hh. rewrite Hz in Hv by done. cbn in Hv. lia.
    + apply Forall_cons in Hd as [Hd _]. unfold digit in Hd. lia.
  - intros (Hn & Hh & Hd & ->). pose proof (dec_val_bound p Hd).
    assert (dec_val p ≠ 0) by (intros Hv; by apply Hn, dec_val_zero).
    exists p. rewrite (proj2 (Z.ltb_lt _ _)) by lia. split_and!; [done..|lia|done].
Qed.

Lemma decimal_repr_pos v ch p :
  ch ≠ 45 →
  decimal_repr v (ch :: p) ↔ Forall digit (ch :: p) ∧ (ch = 48 → p = []) ∧ v = dec_val (ch :: p).
Proof.
  intros Hc. split.
  - intros (ds & Hd & Hn & Hz & Hv & E). destruct (Z.ltb_spec v 0); simplify_eq/=.
    split_and!; [done| |lia]. intros ->. by injection Hz.
  - intros (Hd & Hz & ->). pose proof (dec_val_bound _ Hd). exists (ch :: p).
    rewrite (proj2 (Z.ltb_ge _ _)) by lia. split_and!; [done..| |lia|done].
    intros [= ->]. by rewrite Hz.
Qed.

Lemma string2ll_repr s v :
  string2ll s = Some v ↔ decimal_repr v s ∧ LLONG_MIN ≤ v ≤ LLONG_MAX.
Proof.
  destruct s as [|ch p]; [split; [done|intros [(ds & _ & ? & _ & _ & E) _]]|].
  { destruct (v <? 0); [done|]. by simplify_eq/=. }
  destruct (decide (ch = 48 ∧ p = [])) as [[-> ->]|Hn0].
  { rewrite decimal_repr_pos by done. unfold LLONG_MIN, LLONG_MAX. simpl.
    split; [intros [= <-]|intros ((_ & _ & ->) & _); done].
    split_and!; [|done..]. by apply Forall_singleton. }
  assert (string2ll (ch :: p) =
    if ch =? 45 then string2ll_tail (len (ch :: p)) p true
    else string2ll_tail (len (ch :: p)) (ch :: p) false) as ->.
  { unfold string2ll. repeat case_match; naive_solver. }
  destruct (Z.eqb_spec ch 45) as [->|Hc].
  - rewrite decimal_repr_neg, string2ll_tail_spec; [tauto|]. destruct p; [done|]. simpl. lia.
  - rewrite decimal_repr_pos, string2ll_tail_spec; [|simpl; intros [= ->] Hl|done].
    + simpl. assert (ch = 48 → p ≠ []) by naive_solver. naive_solver.
    + apply Hn0. split; [done|]. destruct p; [done|]. simpl in Hl. lia.
Qed.

(** ** [ll2string] *)

(** [n] is the number of decimal digits of [v]. *)
Definition ndigits (v n : Z) : Prop :=
  1 ≤ n ∧ 0 ≤ v < 10 ^ n ∧ (n = 1 ∨ 10 ^ (n - 1) ≤ v).

Lemma digits_table r :
  0 ≤ r < 100 →
  mget digits (r * 2) = Some (48 + r / 10) ∧ mget digits (r * 2 + 1) = Some (48 + r mod 10).
Proof.
  intros Hr.
  assert (forallb (λ r, bool_decide (mget digits (r * 2) = Some (48 + r / 10)) &&
    bool_decide (mget digits (r * 2 + 1) = Some (48 + r mod 10))) (seqZ 0 100) = true) as Hall
    by (vm_compute; reflexivity).
  rewrite forallb_forall in Hall. specialize (Hall r).
  rewrite <- list_elem_of_In, elem_of_seqZ, andb_true_iff, !bool_decide_eq_true in Hall.
  apply Hall. lia.
Qed.

Lemma digits10_small fuel v : 0 ≤ v < 10 ^ 12 → ndigits v (digits10 fuel v).
Proof.
  intros Hv. unfold ndigits. destruct fuel; cbn [digits10];
    repeat (rewrite ?Z.geb_leb; case_match); cbn; lia.
Qed.

Lemma digits10_large fuel v :
  10 ^ 12 ≤ v → digits10 (S fuel) v = u32 (12 + digits10 fuel (v / 1000000000000)).
Proof. intros Hv. cbn [digits10]. by rewrite !(proj2 (Z.ltb_ge _ _)) by lia. Qed.

Lemma digits10_spec v : 0 ≤ v < 2 ^ 64 → ndigits v (digits10 2 v) ∧ digits10 2 v ≤ 20.
Proof.
  intros Hv. destruct (decide (v < 10 ^ 12)) as [Hs|Hs].
  { pose proof (digits10_small 2 v ltac:(lia)) as Hn. split; [done|].
    destruct Hn as (? & _ & [? | Hp]); [lia|].
    assert (digits10 2 v - 1 < 12); [|lia]. apply (Z.pow_lt_mono_r_iff 10); lia. }
  rewrite digits10_large by lia. pose proof (Z.div_mod v 1000000000000 ltac:(lia)) as Hq.
  pose proof (Z.mod_pos_bound v 1000000000000 ltac:(lia)).
  remember (v / 1000000000000) as q eqn:E. clear E.
  assert (1 ≤ q < 10 ^ 8) by lia.
  destruct (digits10_small 1 q ltac:(lia)) as (? & Hlt & Hp). set (n := digits10 1 q) in *.
  assert (10 ^ (n - 1) ≤ q) as Hle by (destruct Hp as [-> |]; simpl; lia).
  assert (n - 1 < 8) by (apply (Z.pow_lt_mono_r_iff 10); lia).
  rewrite uwrap_small by lia. split; [|lia]. unfold ndigits.
  replace (12 + n - 1) with (12 + (n - 1)) by lia. rewrite !Z.pow_add_r by lia. lia.
Qed.

Lemma mset_app_snd {A} (l1 l2 : list A) a b y i :
  i = len l1 + 1 → mset (l1 ++ a :: b :: l2) i y = Some (l1 ++ a :: y :: l2).
Proof.
  intros ->. change (a :: b :: l2) with ([a] ++ b :: l2). rewrite app_assoc.
  rewrite mset_app by (rewrite length_app; simpl; lia). by rewrite <- app_assoc.
Qed.

Lemma ndigits_div100 v n : 3 ≤ n → ndigits v n → ndigits (v / 100) (n - 2).
Proof.
  intros Hn (_ & Hv & [->|Hp]); [lia|]. unfold ndigits.
  replace n with (2 + (n - 2)) in Hv by lia. replace (n - 1) with (2 + (n - 2 - 1)) in Hp by lia.
  rewrite Z.pow_add_r in Hv, Hp by lia. split; [lia|]. split; [|right].
  - split; [apply Z.div_pos|apply Z.div_lt_upper_bound]; lia.
  - apply Z.div_le_lower_bound; lia.
Qed.

Lemma split_last2 {A} (l : list A) : 2 ≤ len l → ∃ l' a b, l = l' ++ [a; b].
Proof.
  intros Hl. destruct l as [|b l _] using rev_ind; [simpl in Hl; lia|].
  destruct l as [|a l _] using rev_ind; [simpl in Hl; lia|].
  exists l, a, b. by rewrite <- app_assoc.
Qed.

(** Each iteration writes the two low digits of the value just left of those
    already written; the room left is always that of the digits to come. *)
Lemma ll2string_loop_spec neg fuel : ∀ value n d1 tail,
  0 ≤ neg → ndigits value n → n + neg < 2 ^ 32 → len d1 = neg + n →
  value < 100 * 100 ^ Z.of_nat fuel →
  ∃ d1' ds value' n',
    ll2string_loop fuel (d1 ++ tail) value (neg + n - 1) =
      Some (d1' ++ ds ++ tail, value', neg + n' - 1) ∧
    len d1' = neg + n' ∧ ndigits value' n' ∧ value' < 100 ∧ Forall digit ds ∧
    value = dec_acc value' ds ∧ len d1' + len ds = len d1 ∧ n' ≤ n.
Proof.
  intros value n d1 tail Hneg. revert value n d1 tail.
  induction fuel as [|fuel IH]; intros value n d1 tail Hn Hb Hl Hf; cbn [ll2string_loop];
    rewrite Z.geb_leb; destruct (Z.leb_spec 100 value) as [Hge|Hlt]; try (simpl in Hf; lia).
  1, 3: exists d1, [], value, n; split_and!; try done; simpl; lia.
  destruct Hn as (H1 & Hv & Hp).
  assert (3 ≤ n) by (destruct (decide (n ≤ 2)); [|lia]; assert (10 ^ n ≤ 10 ^ 2) by (apply Z.pow_le_mono_r; lia); lia).
  destruct Hp as [->|Hp]; [lia|].
  destruct (digits_table (value mod 100)) as [T0 T1]; [apply Z.mod_pos_bound; lia|].
  destruct (split_last2 d1) as (d1a & a & b & ->); [lia|].
  rewrite length_app in Hl. simpl in Hl. cbn zeta. rewrite T1, T0. bsimpl.
  rewrite <- app_assoc. simpl.
  rewrite mset_app_snd by lia. bsimpl.
  rewrite (uwrap_small 32 (neg + n - 1 - 1)), mset_app by lia. bsimpl.
  rewrite uwrap_small by lia. replace (neg + n - 1 - 2) with (neg + (n - 2) - 1) by lia.
  assert (ndigits value n) as Hnd by (unfold ndigits; lia).
  destruct (IH (value / 100) (n - 2) d1a
    ((48 + value mod 100 / 10) :: (48 + (value mod 100) mod 10) :: tail))
    as (d1' & ds & value' & n' & -> & Hl' & Hn' & Hlt & Hds & Hval & Hlen & Hle);
    [by apply ndigits_div100|lia..| |].
  { apply Z.div_lt_upper_bound; [lia|]. rewrite Nat2Z.inj_succ, Z.pow_succ_r in Hf by lia. lia. }
  exists d1', (ds ++ [48 + value mod 100 / 10; 48 + (value mod 100) mod 10]), value', n'.
  rewrite !length_app. simpl length. split_and!; try done; try lia.
  - by rewrite <- app_assoc.
  - apply Forall_app; split; [done|]. unfold digit.
    repeat constructor; Z.to_euclidean_division_equations; lia.
  - change [?x; ?y] with ([x] ++ [y]). rewrite app_assoc, !dec_acc_snoc, <- Hval.
    Z.to_euclidean_division_equations; lia.
Qed.

(** Dividing the magnitude and the sign as the code does. *)
Lemma magnitude v :
  LLONG_MIN ≤ v ≤ LLONG_MAX →
  (if v <? 0 then (if negb (v =? LLONG_MIN) then u64 (- v) else u64 (LLONG_MAX + 1), 1) else (v, 0))
  = (Z.abs v, if v <? 0 then 1 else 0).
Proof.
  unfold LLONG_MIN, LLONG_MAX. intros Hv. destruct (Z.ltb_spec v 0).
  - destruct (Z.eqb_spec v (- 2 ^ 63)) as [->|]; [done|]. cbn [negb]. by rewrite uwrap_small; [f_equal; lia|lia].
  - f_equal. lia.
Qed.

(** The last one or two digits. *)
Lemma ll2string_last neg value n pre tail :
  0 ≤ neg → ndigits value n → value < 100 → len pre = neg + n → n + neg < 2 ^ 32 →
  ∃ p ds, len p = neg ∧ len ds = n ∧ Forall digit ds ∧ dec_val ds = value ∧
    (head ds = Some 48 → ds = [48]) ∧
    (if value <? 10 then mset (pre ++ tail) (neg + n - 1) (48 + value)
     else
       let i := value * 2 in
       d1 ← mget digits (i + 1);
       dst ← mset (pre ++ tail) (neg + n - 1) d1;
       d0 ← mget digits i;
       mset dst (u32 (neg + n - 1 - 1)) d0) = Some (p ++ ds ++ tail).
Proof.
  intros Hneg (Hn & Hv & Hp) Hlt Hl Hb. destruct (Z.ltb_spec value 10).
  - assert (n = 1) as ->.
    { destruct Hp as [|Hp]; [done|]. assert (n - 1 < 1); [|lia]. apply (Z.pow_lt_mono_r_iff 10); lia. }
    destruct pre as [|a pre _] using rev_ind; [simpl in Hl; lia|]. rewrite length_app in Hl. simpl in Hl.
    exists pre, [48 + value]. rewrite <- app_assoc. simpl. rewrite mset_app by lia.
    split_and!; [lia|done|constructor; [unfold digit; lia|done]|cbn; lia| |done].
    intros [= E]. f_equal. lia.
  - assert (n = 2) as ->.
    { destruct Hp as [->|Hp]; [lia|]. assert (n - 1 < 2) by (apply (Z.pow_lt_mono_r_iff 10); lia).
      assert (¬ n ≤ 1); [|lia]. intros ?. assert (n = 1) as -> by lia. lia. }
    destruct (digits_table value) as [T0 T1]; [lia|]. cbn zeta. rewrite T1, T0. bsimpl.
    destruct (split_last2 pre) as (p & a & b & ->); [lia|]. rewrite length_app in Hl. simpl in Hl.
    rewrite <- app_assoc. simpl. rewrite mset_app_snd by lia. bsimpl.
    rewrite uwrap_small, mset_app by lia.
    exists p, [48 + value / 10; 48 + value mod 10].
    split_and!; [lia|done| | | |done].
    + unfold digit. repeat constructor; Z.to_euclidean_division_equations; lia.
    + cbn. Z.to_euclidean_division_equations; lia.
    + intros [= E]. exfalso. Z.to_euclidean_division_equations; lia.
Qed.

(** Everything after the length check, on a buffer with enough room. *)
Definition ll2string_body (dst : list Z) (length value negative : Z) : option (list Z * Z) :=
  dst ← mset dst length 0;
  let next := u32 (length - 1) in
  '(dst, value, next) ← ll2string_loop 10 dst value next;
  dst ← (if value <? 10 then mset dst next (48 + value)
         else
           let i := value * 2 in
           d1 ← mget digits (i + 1);
           dst ← mset dst next d1;
           d0 ← mget digits i;
           mset dst (u32 (next - 1)) d0);
  dst ← (if negative =? 1 then mset dst 0 45 else Some dst);
  Some (dst, length).

Lemma ll2string_body_spec dst n v :
  let neg := if v <? 0 then 1 else 0 in
  ndigits (Z.abs v) n → n ≤ 20 → neg + n < len dst →
  ∃ s, decimal_repr v s ∧ len s = neg + n ∧
    ll2string_body dst (neg + n) (Z.abs v) neg = Some (s ++ 0 :: drop (S (length s)) dst, neg + n).
Proof.
  intros neg Hn H20 Hl. assert (0 ≤ neg ≤ 1) by (subst neg; case_match; lia). pose proof (proj1 Hn).
  destruct (buffer_split dst (neg + n) 1) as (d1 & [|a [|? ?]] & tail & -> & Hd1 & Ha);
    [lia..|done| |simpl in Ha; lia]. simpl.
  unfold ll2string_body. rewrite mset_app by lia. bsimpl.
  rewrite (uwrap_small 32 (neg + n - 1)) by lia.
  destruct (ll2string_loop_spec neg 10 (Z.abs v) n d1 (0 :: tail))
    as (d1' & ds & value' & n' & -> & Hl' & Hn' & Hlt & Hds & Hval & Hlen & Hle);
    [lia|done|lia|lia|destruct Hn as (_ & ? & _); assert (10 ^ n ≤ 10 ^ 20) by (apply Z.pow_le_mono_r; lia); lia|].
  bsimpl.
  destruct (ll2string_last neg value' n' d1' (ds ++ 0 :: tail))
    as (p & ds' & Hp & Hds'l & Hds' & Hval' & Hz & E); [lia|done..|lia|].
  cbn zeta in E. rewrite E. clear E. bsimpl. pose proof (proj1 Hn').
  assert (decimal_repr v ((if v <? 0 then [45] else []) ++ ds' ++ ds)) as Hrepr.
  { exists (ds' ++ ds). split_and!; [by apply Forall_app| | | |done].
    - destruct ds'; [simpl in *; lia|done].
    - destruct ds' as [|d ds']; [simpl in *; lia|]. intros [= ->]. injection (Hz eq_refl) as ->.
      change (dec_val [48]) with 0 in Hval'. subst value'. simpl in Hds'l.
      pose proof (dec_val_bound ds Hds). destruct Hn as (_ & _ & [->|Hpow]).
      + destruct ds; [done|]. simpl in Hlen. lia.
      + replace (n - 1) with (len ds) in Hpow by lia. unfold dec_val in *. lia.
    - unfold dec_val. rewrite dec_acc_app. by fold (dec_val ds'); rewrite Hval'. }
  eexists. split; [exact Hrepr|]. subst neg.
  destruct (v <? 0); cbn [Z.eqb Pos.eqb].
  - destruct p as [|z [|]]; [done| |simpl in Hp; lia].
    change ([z] ++ ds' ++ ds ++ 0 :: tail) with ([] ++ z :: ds' ++ ds ++ 0 :: tail).
    rewrite mset_app by done. simpl. rewrite length_app.
    split; [lia|]. do 3 f_equal. rewrite <- app_assoc. do 3 f_equal. symmetry.
    change (a :: tail) with ([a] ++ tail). rewrite app_assoc. apply drop_app_length'.
    rewrite length_app. simpl. lia.
  - destruct p; [|simpl in Hp; lia]. simpl. rewrite length_app.
    split; [lia|]. do 2 f_equal. rewrite <- app_assoc. do 3 f_equal. symmetry.
    change (a :: tail) with ([a] ++ tail). rewrite app_assoc. apply drop_app_length'.
    rewrite length_app. simpl. lia.
Qed.

Lemma ll2string_repr dst dstlen v :
  LLONG_MIN ≤ v ≤ LLONG_MAX → dstlen ≤ len dst →
  ∃ s, decimal_repr v s ∧
    ll2string dst dstlen v =
      if len s >=? dstlen then Some (dst, 0)
      else Some (s ++ 0 :: drop (S (length s)) dst, len s).
Proof.
  intros Hv Hdst. unfold ll2string. rewrite magnitude by done. cbn zeta.
  destruct (digits10_spec (Z.abs v)) as [Hn H20]; [unfold LLONG_MIN, LLONG_MAX in *; lia|].
  set (n := digits10 2 (Z.abs v)) in *. pose proof (proj1 Hn).
  set (neg := if v <? 0 then 1 else 0). assert (0 ≤ neg ≤ 1) by (subst neg; case_match; lia).
  rewrite (uwrap_small 32 (n + neg)) by lia. rewrite (Z.add_comm n neg).
  destruct (ll2string_body_spec (replicate 22 0) n v Hn H20) as (s0 & Hr0 & Hl0 & _); [simpl; lia|].
  fold neg in Hl0. rewrite Z.geb_leb. destruct (Z.leb_spec dstlen (neg + n)) as [Hs|Hs].
  - exists s0. split; [done|]. by rewrite Hl0, Z.geb_leb, (proj2 (Z.leb_le _ _)).
  - destruct (ll2string_body_spec dst n v Hn H20) as (s & Hr & Hl & Hbody); [fold neg; lia|].
    fold neg in Hl, Hbody. exists s. split; [done|].
    rewrite Hl, Z.geb_leb, (proj2 (Z.leb_gt _ _)) by done. exact Hbody.
Qed.

Lemma decimal_repr_len v s : decimal_repr v s → LLONG_MIN ≤ v ≤ LLONG_MAX → 1 ≤ len s ≤ 20.
Proof.
  intros (ds & Hds & Hn & Hz & Hv & ->) Hr.
  assert (1 ≤ len ds ≤ 19); [|rewrite length_app; case_match; simpl length; lia].
  destruct ds as [|d r]; [done|]. destruct (decide (d = 48)) as [->|Hd].
  { injection Hz as ->; [|done]. simpl. lia. }
  apply Forall_cons in Hds as [Hd' Hr']. unfold digit in Hd'. simpl length.
  assert (dec_val (d :: r) = (d - 48) * 10 ^ len r + dec_val r) as E.
  { change (dec_val (d :: r)) with (dec_acc (0 * 10 + (d - 48)) r). rewrite dec_acc_shift. f_equal. }
  pose proof (dec_val_bound r Hr'). unfold LLONG_MIN, LLONG_MAX in Hr.
  assert (10 ^ len r < 10 ^ 19) as Hp by nia. apply Z.pow_lt_mono_r_iff in Hp; lia.
Qed.

(** ** Theorems *)

(** [ll2string] writes the canonical decimal representation of every
    [long long], [LLONG_MIN] included, followed by a NUL, and returns its
    length; when the buffer is too small it returns 0 and leaves the buffer
    as it was.  It never writes outside of the buffer and its loop ends. *)
Theorem ll2string_spec dst dstlen v :
  LLONG_MIN ≤ v ≤ LLONG_MAX → dstlen ≤ len dst →
  ∃ s, decimal_repr v s ∧
    ll2string dst dstlen v =
      if len s >=? dstlen then Some (dst, 0)
      else Some (s ++ 0 :: drop (S (length s)) dst, len s).
Proof. apply ll2string_repr. Qed.

(** [string2ll] accepts exactly the canonical representations of the
    [long long] range: no sign but a minus, no leading zero, no other byte,
    and every overflow is detected. *)
Theorem string2ll_spec s v :
  string2ll s = Some v ↔ decimal_repr v s ∧ LLONG_MIN ≤ v ≤ LLONG_MAX.
Proof. apply string2ll_repr. Qed.

(** Number to string and back: what [ll2string] printed is parsed to the
    same number. *)
Theorem ll2string_string2ll dst dstlen v :
  LLONG_MIN ≤ v ≤ LLONG_MAX → 21 ≤ dstlen ≤ len dst →
  ∃ dst' n, ll2string dst dstlen v = Some (dst', n) ∧ string2ll (take (Z.to_nat n) dst') = Some v.
Proof.
  intros Hv Hd. destruct (ll2string_repr dst dstlen v) as (s & Hs & ->); [done|lia|].
  pose proof (decimal_repr_len v s Hs Hv). rewrite Z.geb_leb, (proj2 (Z.leb_gt _ _)) by lia.
  eexists _, _. split; [done|]. rewrite Nat2Z.id, take_app_length. by apply string2ll_repr.
Qed.

(** String to number and back: a string stored as the integer it was
    parsed to is printed as the same bytes. *)
Theorem string2ll_ll2string dst dstlen s v :
  string2ll s = Some v → 21 ≤ dstlen ≤ len dst →
  ∃ dst', ll2string dst dstlen v = Some (dst', len s) ∧ take (length s) dst' = s.
Proof.
  intros [Hs Hv]%string2ll_repr Hd.
  destruct (ll2string_repr dst dstlen v) as (s' & Hs' & ->); [done|lia|].
  pose proof (decimal_repr_len v s Hs Hv). rewrite (decimal_repr_unique v s' s) by done.
  rewrite Z.geb_leb, (proj2 (Z.leb_gt _ _)) by lia. eexists. split; [done|]. apply take_app_length.
Qed.

(** ** Witnesses *)

Lemma ll2string_spec_witness :
  ∃ s, decimal_repr LLONG_MIN s ∧
    ll2string (replicate 32 7) 32 LLONG_MIN =
      if len s >=? 32 then Some (replicate 32 7, 0)
      else Some (s ++ 0 :: drop (S (length s)) (replicate 32 7), len s).
Proof. apply (ll2string_spec (replicate 32 7) 32 LLONG_MIN); vm_compute; [split|]; discriminate. Defined.

Lemma ll2string_string2ll_witness :
  ∃ dst' n, ll2string (replicate 32 7) 32 (-1234567) = Some (dst', n) ∧
    string2ll (take (Z.to_nat n) dst') = Some (-1234567).
Proof.
  apply (ll2string_string2ll (replicate 32 7) 32 (-1234567)); vm_compute; split; discriminate.
Defined.

Lemma string2ll_ll2string_witness :
  ∃ dst', ll2string (replicate 32 7) 32 (-90) = Some (dst', len (str "-90")) ∧
    take (length (str "-90")) dst' = str "-90".
Proof.
  apply (string2ll_ll2string (replicate 32 7) 32 (str "-90") (-90)).
  - vm_compute. reflexivity.
  - vm_compute. split; discriminate.
Defined.
