(* ===== verification/Dict.v ===== *)
(** * Hash tables: [dict.c] and [dict.h]

    A dictionary holds two tables and moves from the first to the second one
    bucket at a time ([dictRehash]).  A table is a list of buckets and a
    bucket the list of the entries chained in it; [None] stands for a NULL
    table.  A pointer to an entry is its place [(table, bucket, position)].
    Every operation returns [None] when the code would dereference NULL, index
    a table out of its bounds or fail its [assert].

    The operations of the user's [dictType] (hash, comparison, duplication,
    destruction) are the fields of [dictType]; calls of the destructors and of
    the progress callback are recorded as [event]s. *)

From S2P Require Import Prelude.
From stdpp Require Import gmap.
Local Open Scope Z_scope.

Definition DICT_OK : Z := 0.
Definition DICT_ERR : Z := 1.
Definition DICT_HT_INITIAL_SIZE : Z := 4.
Definition DICT_LONG_MAX : Z := 2 ^ 63 - 1.

(** ** Hash functions *)

(** [~x] on 32 bits. *)
Definition not32 (x : Z) : Z := u32 (Z.lnot x).

Definition dictIntHashFunction (key : Z) : Z :=
  let key := u32 (key + not32 (u32 (Z.shiftl key 15))) in
  let key := Z.lxor key (Z.shiftr key 10) in
  let key := u32 (key + u32 (Z.shiftl key 3)) in
  let key := Z.lxor key (Z.shiftr key 6) in
  let key := u32 (key + not32 (u32 (Z.shiftl key 11))) in
  let key := Z.lxor key (Z.shiftr key 16) in
  key.

(** The body of MurmurHash2's loop on one 32-bit word [k]. *)
Definition murmur_m : Z := 0x5bd1e995.
Definition murmur_mix (h k : Z) : Z :=
  let k := u32 (k * murmur_m) in
  let k := Z.lxor k (Z.shiftr k 24) in
  let k := u32 (k * murmur_m) in
  let h := u32 (h * murmur_m) in
  Z.lxor h k.

(** [dictGenHashFunction] on a little-endian host, with the seed as an argument. *)
Fixpoint murmur_loop (data : list Z) (h : Z) : Z :=
  match data with
  | b0 :: b1 :: b2 :: b3 :: data =>
      murmur_loop data (murmur_mix h (b0 + 2 ^ 8 * b1 + 2 ^ 16 * b2 + 2 ^ 24 * b3))
  | [b0; b1; b2] =>
      let h := Z.lxor h (Z.shiftl b2 16) in
      let h := Z.lxor h (Z.shiftl b1 8) in
      u32 (Z.lxor h b0 * murmur_m)
  | [b0; b1] => let h := Z.lxor h (Z.shiftl b1 8) in u32 (Z.lxor h b0 * murmur_m)
  | [b0] => u32 (Z.lxor h b0 * murmur_m)
  | [] => h
  end.

Definition dictGenHashFunction (seed : Z) (data : list Z) : Z :=
  let h := murmur_loop data (Z.lxor seed (u32 (len data))) in
  let h := Z.lxor h (Z.shiftr h 13) in
  let h := u32 (h * murmur_m) in
  Z.lxor h (Z.shiftr h 15).

Definition dictGenCaseHashFunction (seed : Z) (buf : list Z) : Z :=
  foldl (λ hash ch, u32 (u32 (u32 (Z.shiftl hash 5) + hash) + tolower ch)) seed buf.

(** ** Data *)

Record dictType (K V : Type) := mkType {
  hashFunction : K → Z;
  keyDup : option (K → K);
  valDup : option (V → V);
  keyCompare : option (K → K → bool);
  keyDestructor : bool;   (* whether the type has one *)
  valDestructor : bool
}.
Arguments mkType {_ _}.
Arguments hashFunction {_ _}.
Arguments keyDup {_ _}.
Arguments valDup {_ _}.
Arguments keyCompare {_ _}.
Arguments keyDestructor {_ _}.
Arguments valDestructor {_ _}.

Record dictEntry (K V : Type) := mkEntry { key : K; val : V }.
Arguments mkEntry {_ _}.
Arguments key {_ _}.
Arguments val {_ _}.

Record dictht (K V : Type) := mkHt {
  table : option (list (list (dictEntry K V)));
  size_ : Z;
  sizemask : Z;
  used : Z
}.
Arguments mkHt {_ _}.
Arguments table {_ _}.
Arguments size_ {_ _}.
Arguments sizemask {_ _}.
Arguments used {_ _}.

Record dict (K V : Type) := mkDict {
  ht0 : dictht K V;
  ht1 : dictht K V;
  rehashidx : Z;
  iterators : Z
}.
Arguments mkDict {_ _}.
Arguments ht0 {_ _}.
Arguments ht1 {_ _}.
Arguments rehashidx {_ _}.
Arguments iterators {_ _}.

Inductive event (K V : Type) :=
  | FreeKey (k : K)
  | FreeVal (v : V)
  | Callback.
Arguments FreeKey {_ _}.
Arguments FreeVal {_ _}.
Arguments Callback {_ _}.

(** A pointer to an entry: second table or first, bucket, position in it. *)
Record place := mkPlace { in_ht1 : bool; bucket : Z; position : nat }.

Section dict_ops.
Context {K V : Type} `{EqDecision K} (type : dictType K V).
(** The value field of an entry that has just been allocated. *)
Context (uninit : V).
(** [dict_can_resize] and [dict_force_resize_ratio]. *)
Context (dict_can_resize : bool).
Definition dict_force_resize_ratio : Z := 5.

Abbreviation entry := (dictEntry K V).
Implicit Types (d : dict K V) (h : dictht K V) (k : K) (v : V).

Definition dictHashKey k : Z := u32 (hashFunction type k).
Definition dictCompareKeys k1 k2 : bool :=
  match keyCompare type with Some f => f k1 k2 | None => bool_decide (k1 = k2) end.
Definition dictSetKey k : K := match keyDup type with Some f => f k | None => k end.
Definition dup_val v : V := match valDup type with Some f => f v | None => v end.
Definition dictFreeKey (e : entry) : list (event K V) :=
  if keyDestructor type then [FreeKey (key e)] else [].
Definition dictFreeVal (e : entry) : list (event K V) :=
  if valDestructor type then [FreeVal (val e)] else [].
Definition dictIsRehashing d : bool := negb (rehashidx d =? -1).
Definition dictSize d : Z := u64 (used (ht0 d) + used (ht1 d)).

Definition get_ht d (second : bool) : dictht K V := if second then ht1 d else ht0 d.
Definition set_ht d (second : bool) h : dict K V :=
  if second then mkDict (ht0 d) h (rehashidx d) (iterators d)
  else mkDict h (ht1 d) (rehashidx d) (iterators d).

(** [ht->table[idx]] and [ht->table[idx] = chain]. *)
Definition get_bucket h (idx : Z) : option (list entry) := t ← table h; mget t idx.
Definition set_bucket h (idx : Z) (chain : list entry) : option (dictht K V) :=
  t ← table h; t ← mset t idx chain; Some (mkHt (Some t) (size_ h) (sizemask h) (used h)).
Definition set_used h (n : Z) : dictht K V := mkHt (table h) (size_ h) (sizemask h) (u64 n).

(** ** API *)

Definition _dictReset : dictht K V := mkHt None 0 0 0.
Definition _dictInit : dict K V := mkDict _dictReset _dictReset (-1) 0.
Definition dictCreate : dict K V := _dictInit.

Fixpoint next_power_loop (fuel : nat) (i size : Z) : option Z :=
  if i >=? size then Some i
  else match fuel with O => None | S fuel => next_power_loop fuel (u64 (i * 2)) size end.

Definition _dictNextPower (size : Z) : option Z :=
  if size >=? DICT_LONG_MAX then Some DICT_LONG_MAX
  else next_power_loop 64 DICT_HT_INITIAL_SIZE size.

Definition dictExpand d (size : Z) : option (dict K V * Z) :=
  realsize ← _dictNextPower size;
  if dictIsRehashing d || (used (ht0 d) >? size) then Some (d, DICT_ERR)
  else
    let n := mkHt (Some (replicate (Z.to_nat realsize) [])) realsize (u64 (realsize - 1)) 0 in
    match table (ht0 d) with
    | None => Some (mkDict n (ht1 d) (rehashidx d) (iterators d), DICT_OK)
    | Some _ => Some (mkDict (ht0 d) n 0 (iterators d), DICT_OK)
    end.

Definition dictResize d : option (dict K V * Z) :=
  if negb dict_can_resize || dictIsRehashing d then Some (d, DICT_ERR)
  else
    let minimal := s32 (used (ht0 d)) in
    let minimal := if minimal <? DICT_HT_INITIAL_SIZE then DICT_HT_INITIAL_SIZE else minimal in
    dictExpand d (u64 minimal).

(** [while(d->ht[0].table[d->rehashidx] == NULL) d->rehashidx++] *)
Fixpoint skip_empty (fuel : nat) h (idx : Z) : option Z :=
  chain ← get_bucket h idx;
  match chain with
  | [] => match fuel with O => None | S fuel => skip_empty fuel h (idx + 1) end
  | _ :: _ => Some idx
  end.

(** Moving the chain of one bucket to the front of the chains of [ht[1]]. *)
Fixpoint move_chain (de : list entry) (h0 h1 : dictht K V) : option (dictht K V * dictht K V) :=
  match de with
  | [] => Some (h0, h1)
  | e :: nextde =>
      let h := Z.land (dictHashKey (key e)) (sizemask h1) in
      chain ← get_bucket h1 h;
      h1 ← set_bucket h1 h (e :: chain);
      move_chain nextde (set_used h0 (used h0 - 1)) (set_used h1 (used h1 + 1))
  end.

(** The body of the loop of [dictRehash]: [true] when it goes on. *)
Definition rehash_step d : option (dict K V * bool) :=
  if used (ht0 d) =? 0 then
    Some (mkDict (ht1 d) _dictReset (-1) (iterators d), false)
  else if size_ (ht0 d) >? u64 (rehashidx d) then
    idx ← skip_empty (Z.to_nat (size_ (ht0 d))) (ht0 d) (rehashidx d);
    de ← get_bucket (ht0 d) idx;
    '(h0, h1) ← move_chain de (ht0 d) (ht1 d);
    h0 ← set_bucket h0 idx [];
    Some (mkDict h0 h1 (idx + 1) (iterators d), true)
  else None.

Fixpoint rehash_loop (n : nat) d : option (dict K V * Z) :=
  match n with
  | O => Some (d, 1)
  | S n =>
      '(d, continue) ← rehash_step d;
      if (continue : bool) then rehash_loop n d else Some (d, 0)
  end.

Definition dictRehash d (n : nat) : option (dict K V * Z) :=
  if negb (dictIsRehashing d) then Some (d, 0) else rehash_loop n d.

Definition _dictRehashStep d : option (dict K V) :=
  if iterators d =? 0 then '(d, _) ← dictRehash d 1; Some d else Some d.

(** [if (dictIsRehashing(d)) _dictRehashStep(d);] *)
Definition step_if_rehashing d : option (dict K V) :=
  if dictIsRehashing d then _dictRehashStep d else Some d.

Definition _dictExpandIfNeeded d : option (dict K V * Z) :=
  if dictIsRehashing d then Some (d, DICT_OK)
  else if size_ (ht0 d) =? 0 then dictExpand d DICT_HT_INITIAL_SIZE
  else if (used (ht0 d) >=? size_ (ht0 d)) &&
          (dict_can_resize || (used (ht0 d) / size_ (ht0 d) >? dict_force_resize_ratio))
  then dictExpand d (u64 (used (ht0 d) * 2))
  else Some (d, DICT_OK).

(** The position of the first entry of the chain with the key. *)
Fixpoint find_in_chain (he : list entry) k (pos : nat) : option nat :=
  match he with
  | [] => None
  | e :: he => if dictCompareKeys k (key e) then Some pos else find_in_chain he k (S pos)
  end.

(** The [for (table = 0; table <= 1; table++)] search shared by lookups: the
    place of the key, or the index of its bucket in the last table searched. *)
Definition search_tables d k : option (place + Z) :=
  let h := dictHashKey k in
  let idx := Z.land h (sizemask (ht0 d)) in
  chain ← get_bucket (ht0 d) idx;
  match find_in_chain chain k 0 with
  | Some pos => Some (inl (mkPlace false idx pos))
  | None =>
      if negb (dictIsRehashing d) then Some (inr idx)
      else
        let idx := Z.land h (sizemask (ht1 d)) in
        chain ← get_bucket (ht1 d) idx;
        match find_in_chain chain k 0 with
        | Some pos => Some (inl (mkPlace true idx pos))
        | None => Some (inr idx)
        end
  end.

(** -1 when the key exists or the table could not be expanded. *)
Definition _dictKeyIndex d k : option (dict K V * Z) :=
  '(d, r) ← _dictExpandIfNeeded d;
  if r =? DICT_ERR then Some (d, -1)
  else
    found ← search_tables d k;
    match found with
    | inl _ => Some (d, -1)
    | inr idx => Some (d, s32 idx)
    end.

Definition dictAddRaw d k : option (dict K V * option place) :=
  d ← step_if_rehashing d;
  '(d, index) ← _dictKeyIndex d k;
  if index =? -1 then Some (d, None)
  else
    let second := dictIsRehashing d in
    let h := get_ht d second in
    chain ← get_bucket h index;
    h ← set_bucket h index (mkEntry (dictSetKey k) uninit :: chain);
    Some (set_ht d second (set_used h (used h + 1)), Some (mkPlace second index 0)).

(** The entry a place points to, and storing a value in it. *)
Definition get_entry d (p : place) : option entry :=
  chain ← get_bucket (get_ht d (in_ht1 p)) (bucket p); chain !! position p.

Definition dictSetVal d (p : place) v : option (dict K V) :=
  chain ← get_bucket (get_ht d (in_ht1 p)) (bucket p);
  e ← chain !! position p;
  h ← set_bucket (get_ht d (in_ht1 p)) (bucket p)
        (<[position p := mkEntry (key e) (dup_val v)]> chain);
  Some (set_ht d (in_ht1 p) h).

Definition dictAdd d k v : option (dict K V * Z) :=
  '(d, p) ← dictAddRaw d k;
  match p with
  | None => Some (d, DICT_ERR)
  | Some p => d ← dictSetVal d p v; Some (d, DICT_OK)
  end.

Definition dictFind d k : option (dict K V * option place) :=
  if size_ (ht0 d) =? 0 then Some (d, None)
  else
    d ← step_if_rehashing d;
    found ← search_tables d k;
    match found with
    | inl p => Some (d, Some p)
    | inr _ => Some (d, None)
    end.

Definition dictFetchValue d k : option (dict K V * option V) :=
  '(d, p) ← dictFind d k;
  match p with
  | None => Some (d, None)
  | Some p => e ← get_entry d p; Some (d, Some (val e))
  end.

Definition dictReplace d k v : option (dict K V * Z * list (event K V)) :=
  '(d, r) ← dictAdd d k v;
  if r =? DICT_OK then Some (d, 1, [])
  else
    '(d, p) ← dictFind d k;
    p ← p;
    auxentry ← get_entry d p;
    d ← dictSetVal d p v;
    Some (d, 0, dictFreeVal auxentry).

Definition dictReplaceRaw d k : option (dict K V * option place) :=
  '(d, p) ← dictFind d k;
  match p with
  | Some p => Some (d, Some p)
  | None => dictAddRaw d k
  end.

(** Unlinking the entry found and destroying it. *)
Definition delete_place d (p : place) (nofree : bool) : option (dict K V * list (event K V)) :=
  let h := get_ht d (in_ht1 p) in
  chain ← get_bucket h (bucket p);
  he ← chain !! position p;
  h ← set_bucket h (bucket p) (delete (position p) chain);
  Some (set_ht d (in_ht1 p) (set_used h (used h - 1)),
        if nofree then [] else dictFreeKey he ++ dictFreeVal he).

Definition dictGenericDelete d k (nofree : bool) : option (dict K V * Z * list (event K V)) :=
  if size_ (ht0 d) =? 0 then Some (d, DICT_ERR, [])
  else
    d ← step_if_rehashing d;
    found ← search_tables d k;
    match found with
    | inl p => '(d, evs) ← delete_place d p nofree; Some (d, DICT_OK, evs)
    | inr _ => Some (d, DICT_ERR, [])
    end.

Definition dictDelete d k := dictGenericDelete d k false.
Definition dictDeleteNoFree d k := dictGenericDelete d k true.

(** Freeing the chains of a table: [for (i = 0; i < ht->size && ht->used > 0; i++)]. *)
Fixpoint clear_loop (buckets : list (list entry)) (i used : Z) (callback : bool) : list (event K V) :=
  match buckets with
  | [] => []
  | chain :: buckets =>
      if used >? 0 then
        (if callback && (Z.land i 65535 =? 0) then [Callback] else []) ++
        mjoin ((λ e, dictFreeKey e ++ dictFreeVal e) <$> chain) ++
        clear_loop buckets (i + 1) (used - len chain) callback
      else []
  end.

Definition _dictClear h (callback : bool) : dictht K V * list (event K V) :=
  (_dictReset, clear_loop (default [] (table h)) 0 (used h) callback).

Definition dictEmpty d (callback : bool) : dict K V * list (event K V) :=
  let '(h0, ev0) := _dictClear (ht0 d) callback in
  let '(h1, ev1) := _dictClear (ht1 d) callback in
  (mkDict h0 h1 (-1) 0, ev0 ++ ev1).

Definition dictRelease d : list (event K V) :=
  snd (_dictClear (ht0 d) false) ++ snd (_dictClear (ht1 d) false).
End dict_ops.

(** ** The interface of a dictionary type

    [kabs] sends a key to what it stands for: two keys are the same key of the
    dictionary when they stand for the same thing.  A [dictType] must compare
    keys accordingly, hash equal keys equally and duplicate a key into an
    equal one; nothing else is assumed of it. *)
Class DictLaws {K V A : Type} `{EqDecision K} `{Countable A}
    (type : dictType K V) (kabs : K → A) : Prop := {
  compare_abs k1 k2 : dictCompareKeys type k1 k2 = bool_decide (kabs k1 = kabs k2);
  hash_abs k1 k2 : kabs k1 = kabs k2 → dictHashKey type k1 = dictHashKey type k2;
  dup_abs k : kabs (dictSetKey type k) = kabs k
}.

Section invariant.
Context {K V A : Type} `{EqDecision K} `{Countable A} (type : dictType K V) (kabs : K → A).
Implicit Types (d : dict K V) (h : dictht K V).

Definition ht_entries h : list (dictEntry K V) := mjoin (default [] (table h)).
Definition dict_entries d : list (dictEntry K V) := ht_entries (ht0 d) ++ ht_entries (ht1 d).
Definition entry_binding (e : dictEntry K V) : A * V := (kabs (key e), val e).

(** The finite map a dictionary stands for. *)
Definition dict_map d : gmap A V := list_to_map (entry_binding <$> dict_entries d).

(** A table in use: a power of two of buckets, each entry in the bucket its
    hash selects, and [used] entries in all.  [int] indices limit the size to
    [2^31]. *)
Record ht_ok h (t : list (list (dictEntry K V))) : Prop := {
  ok_table : table h = Some t;
  ok_size : size_ h = len t;
  ok_pow : ∃ k, 2 ≤ k ≤ 31 ∧ len t = 2 ^ k;
  ok_mask : sizemask h = len t - 1;
  ok_used : used h = len (mjoin t);
  ok_place : ∀ i c e, t !! i = Some c → e ∈ c →
    Z.land (dictHashKey type (key e)) (sizemask h) = Z.of_nat i
}.

(** Either at rest, with the second table unused, or rehashing, with the
    buckets below [rehashidx] already moved. *)
Definition at_rest d : Prop :=
  rehashidx d = -1 ∧ ht1 d = _dictReset ∧ (ht0 d = _dictReset ∨ ∃ t, ht_ok (ht0 d) t).
Definition rehashing d (t0 t1 : list (list (dictEntry K V))) : Prop :=
  ht_ok (ht0 d) t0 ∧ ht_ok (ht1 d) t1 ∧ 0 ≤ rehashidx d ≤ len t0 ∧
  ∀ i c, Z.of_nat i < rehashidx d → t0 !! i = Some c → c = [].

Record dict_wf d : Prop := {
  wf_tables : at_rest d ∨ ∃ t0 t1, rehashing d t0 t1;
  wf_nodup : NoDup (kabs ∘ key <$> dict_entries d);
  wf_count : len (dict_entries d) < 2 ^ 63
}.
End invariant.

Section table_lemmas.
Context {K V A : Type} `{EqDecision K} `{Countable A} (type : dictType K V) (kabs : K → A).
Context (uninit : V) (dict_can_resize : bool).
Context `{!DictLaws type kabs}.
Implicit Types (d : dict K V) (h : dictht K V).
Abbreviation ht_ok := (ht_ok type).

Lemma mask_index x t k : 0 ≤ k → len t = 2 ^ k →
  ∃ i c, Z.land x (len t - 1) = Z.of_nat i ∧ (t : list (list (dictEntry K V))) !! i = Some c.
Proof.
  intros Hk Ht. rewrite Ht.
  replace (2 ^ k - 1) with (Z.ones k) by (rewrite Z.ones_equiv; lia).
  rewrite Z.land_ones by lia. pose proof (Z.mod_pos_bound x (2 ^ k) ltac:(lia)).
  destruct (lookup_lt_is_Some_2 t (Z.to_nat (x mod 2 ^ k))) as [c Hc]; [lia|].
  exists (Z.to_nat (x mod 2 ^ k)), c. split; [lia|done].
Qed.

(** The bucket a hash selects exists. *)
Lemma hash_bucket h t x :
  ht_ok h t → ∃ i c, Z.land x (sizemask h) = Z.of_nat i ∧ t !! i = Some c ∧
    get_bucket h (Z.land x (sizemask h)) = Some c.
Proof.
  intros [Ht _ (k & Hk & Hl) Hm _ _]. destruct (mask_index x t k) as (i & c & E & Hc); [lia|done|].
  exists i, c. rewrite Hm, E. split_and!; [done..|]. unfold get_bucket. rewrite Ht.
  bsimpl. apply mget_Some. rewrite Nat2Z.id. split; [lia|done].
Qed.

Lemma get_bucket_ok h t i : ht_ok h t → get_bucket h (Z.of_nat i) = t !! i.
Proof.
  intros [Ht _ _ _ _ _]. unfold get_bucket. rewrite Ht. bsimpl.
  unfold mget. rewrite bool_decide_eq_true_2 by lia. by rewrite Nat2Z.id.
Qed.

(** Storing a chain replaces its entries among those of the table; [n] is the
    new count of entries. *)
Lemma set_bucket_ok h t i c c' n :
  ht_ok h t → t !! i = Some c →
  (∀ e, e ∈ c' → Z.land (dictHashKey type (key e)) (sizemask h) = Z.of_nat i) →
  n = used h - len c + len c' → n < 2 ^ 64 →
  ∃ h' t' pre post, set_bucket h (Z.of_nat i) c' = Some h' ∧ t' = <[i := c']> t ∧
    used h' = used h ∧ sizemask h' = sizemask h ∧ size_ h' = size_ h ∧
    ht_entries h = pre ++ c ++ post ∧ ht_entries h' = pre ++ c' ++ post ∧
    ht_ok (set_used h' n) t'.
Proof.
  intros [Ht Hs Hp Hm Hu Hpl] Hc Hc' -> Hn. pose proof (lookup_lt_Some _ _ _ Hc) as Hi.
  assert (mjoin t = mjoin (take i t) ++ c ++ mjoin (drop (S i) t)) as E1.
  { rewrite <- (take_drop_middle t i c) at 1 by done. by rewrite join_app. }
  assert (mjoin (<[i := c']> t) = mjoin (take i t) ++ c' ++ mjoin (drop (S i) t)) as E2.
  { rewrite insert_take_drop by done. by rewrite join_app. }
  exists (mkHt (Some (<[i := c']> t)) (size_ h) (sizemask h) (used h)), (<[i := c']> t),
    (mjoin (take i t)), (mjoin (drop (S i) t)). unfold ht_entries. rewrite Ht.
  split_and!; try done.
  - unfold set_bucket. rewrite Ht. bsimpl. unfold mset.
    rewrite bool_decide_eq_true_2 by lia. by rewrite Nat2Z.id.
  - rewrite Hu, E1, !length_app in Hn |- *.
    split; simpl; rewrite ?length_insert; try done.
    + rewrite uwrap_small, E2, !length_app by lia. lia.
    + intros j cj e Hj He. destruct (decide (j = i)) as [->|Hne].
      * rewrite list_lookup_insert_eq in Hj by done. simplify_eq. by apply Hc'.
      * rewrite list_lookup_insert_ne in Hj by done. by eapply Hpl.
Qed.

Lemma ht_ok_entries h t : ht_ok h t → ht_entries h = mjoin t.
Proof. intros [Ht _ _ _ _ _]. unfold ht_entries. by rewrite Ht. Qed.

Lemma set_used_entries h n : ht_entries (set_used h n) = ht_entries h.
Proof. done. Qed.

Lemma ht_ok_used h t : ht_ok h t → used h = len (ht_entries h).
Proof. intros Hok. rewrite (ht_ok_entries h t Hok). apply (ok_used _ _ _ Hok). Qed.

(** Moving a chain: its entries join those of the second table, whose shape
    does not change. *)
Lemma move_chain_ok de : ∀ h0 h1 t1,
  ht_ok h1 t1 → len de ≤ used h0 < 2 ^ 63 → used h1 + len de < 2 ^ 63 →
  ∃ h1' t1', move_chain type de h0 h1 = Some (set_used h0 (used h0 - len de), h1') ∧
    ht_ok h1' t1' ∧ len t1' = len t1 ∧ ht_entries h1' ≡ₚ de ++ ht_entries h1.
Proof.
  induction de as [|e de IH]; intros h0 h1 t1 Hok Hu Hb; cbn [move_chain].
  { exists h1, t1. split_and!; try done. rewrite Z.sub_0_r. unfold set_used.
    rewrite uwrap_small by (simpl in *; lia). by destruct h0. }
  cbn [length] in *. cbn zeta.
  destruct (hash_bucket h1 t1 (dictHashKey type (key e)) Hok) as (i & c & Ei & Hc & ->).
  rewrite Ei. bsimpl.
  destruct (set_bucket_ok h1 t1 i c (e :: c) (used h1 + 1) Hok Hc)
    as (h1' & t1' & pre & post & -> & -> & Hu' & _ & _ & E & E' & Hok').
  { intros e' [-> | He']%elem_of_cons; [done|]. by eapply (ok_place _ _ _ Hok). }
  { simpl. lia. } { lia. }
  bsimpl. rewrite Hu'.
  assert (used (set_used h1' (used h1 + 1)) = used h1 + 1) as Hu1.
  { simpl. apply uwrap_small. pose proof (ok_used _ _ _ Hok). lia. }
  destruct (IH (set_used h0 (used h0 - 1)) _ _ Hok') as (h2 & t2 & -> & Hok2 & Hl2 & Hp2).
  { simpl. rewrite uwrap_small by lia. lia. } { rewrite Hu1. lia. }
  exists h2, t2. split_and!; [|done|by rewrite Hl2, length_insert|].
  - do 2 f_equal. unfold set_used. simpl. f_equal. rewrite (uwrap_small 64 (used h0 - 1)) by lia.
    f_equal. lia.
  - rewrite Hp2, set_used_entries, E, E'. simpl. by rewrite <- !Permutation_middle.
Qed.

(** The first non-empty bucket from [idx] on. *)
Lemma skip_empty_ok h t fuel : ∀ idx,
  ht_ok h t → (∃ i c, (idx ≤ i)%nat ∧ t !! i = Some c ∧ c ≠ []) → (length t - idx ≤ fuel)%nat →
  ∃ i c, skip_empty fuel h (Z.of_nat idx) = Some (Z.of_nat i) ∧ (idx ≤ i)%nat ∧
    t !! i = Some c ∧ c ≠ [] ∧ ∀ j cj, (idx ≤ j < i)%nat → t !! j = Some cj → cj = [].
Proof.
  induction fuel as [|fuel IH]; intros idx Hok (i & c & Hi & Hc & Hne) Hf;
    pose proof (lookup_lt_Some _ _ _ Hc); [lia|]. cbn [skip_empty].
  rewrite (get_bucket_ok h t idx Hok).
  destruct (lookup_lt_is_Some_2 t idx) as [c0 Hc0]; [lia|]. rewrite Hc0. bsimpl.
  destruct c0 as [|e c0].
  - replace (Z.of_nat idx + 1) with (Z.of_nat (S idx)) by lia.
    destruct (IH (S idx) Hok) as (i' & c' & -> & Hle & Hc' & Hne' & Hall); [|lia|].
    { exists i, c. split_and!; [|done..]. destruct (decide (i = idx)) as [->|]; [congruence|lia]. }
    exists i', c'. split_and!; [done|lia|done..|]. intros j cj Hj Hcj.
    destruct (decide (j = idx)) as [->|]; [congruence|]. apply (Hall j); [lia|done].
  - exists idx, (e :: c0). split_and!; [done|lia|done..|]. lia.
Qed.

Lemma nonempty_join {B} (t : list (list B)) : mjoin t ≠ [] → ∃ i c, t !! i = Some c ∧ c ≠ [].
Proof.
  induction t as [|c t IH]; [done|]. intros Hne. destruct c as [|x c].
  - destruct IH as (i & c & Hc & Hn); [done|]. by exists (S i), c.
  - by exists 0%nat, (x :: c).
Qed.

Lemma set_bucket_set_used h n i c :
  set_bucket (set_used h n) i c = (λ h', set_used h' n) <$> set_bucket h i c.
Proof.
  unfold set_bucket, set_used. simpl. destruct (table h) as [t|]; [|done]. simpl.
  by destruct (mset t i c).
Qed.

(** Emptying bucket [i] of the first table into the second one. *)
Lemma move_bucket_ok d t0 t1 i c :
  ht_ok (ht0 d) t0 → ht_ok (ht1 d) t1 → t0 !! i = Some c →
  len (dict_entries d) < 2 ^ 63 →
  ∃ h0 h1 t1',
    ('(h0, h1) ← move_chain type c (ht0 d) (ht1 d);
     h0 ← set_bucket h0 (Z.of_nat i) [];
     Some (mkDict h0 h1 (Z.of_nat i + 1) (iterators d), true)) =
    Some (mkDict h0 h1 (Z.of_nat i + 1) (iterators d), true) ∧
    ht_ok h0 (<[i := []]> t0) ∧ ht_ok h1 t1' ∧ len t1' = len t1 ∧
    ht_entries h0 ++ ht_entries h1 ≡ₚ dict_entries d.
Proof.
  intros Hok0 Hok1 Hc Hcount. unfold dict_entries in *. rewrite length_app in Hcount.
  pose proof (ht_ok_used _ _ Hok0). pose proof (ht_ok_used _ _ Hok1).
  destruct (set_bucket_ok (ht0 d) t0 i c [] (used (ht0 d) - len c) Hok0 Hc)
    as (h0 & t0' & pre & post & Hset & -> & _ & _ & _ & E & E' & Hok0');
    [by intros e ?%elem_of_nil|simpl; lia|lia|].
  rewrite E, !length_app in *.
  destruct (move_chain_ok c (ht0 d) (ht1 d) t1 Hok1) as (h1 & t1' & -> & Hok1' & Hl1 & Hp1); [lia..|].
  bsimpl. rewrite set_bucket_set_used, Hset. cbn [fmap option_fmap option_map mbind option_bind].
  eexists _, h1, t1'. split_and!; [done|done|done|done|].
  rewrite set_used_entries, E', Hp1. rewrite app_nil_l, <- !app_assoc.
  by rewrite (app_assoc post), (Permutation_app_comm post c), <- app_assoc.
Qed.

(** While entries remain in the first table there is a bucket to move. *)
Lemma next_bucket_ok d t0 t1 :
  rehashing type d t0 t1 → used (ht0 d) ≠ 0 →
  (size_ (ht0 d) >? u64 (rehashidx d)) = true ∧
  ∃ i c, skip_empty (Z.to_nat (size_ (ht0 d))) (ht0 d) (rehashidx d) = Some (Z.of_nat i) ∧
    rehashidx d ≤ Z.of_nat i ∧ t0 !! i = Some c ∧
    ∀ j cj, (j < i)%nat → t0 !! j = Some cj → cj = [].
Proof.
  intros (Hok0 & Hok1 & Hidx & Hempty) Hz. pose proof (ok_used _ _ _ Hok0) as Hu0.
  destruct (ok_pow _ _ _ Hok0) as (k0 & Hk0 & Hl0).
  assert (2 ^ k0 ≤ 2 ^ 31) by (apply Z.pow_le_mono_r; lia).
  destruct (nonempty_join t0) as (i0 & c0 & Hc0 & Hne0); [by intros E; rewrite E in Hu0|].
  assert (rehashidx d ≤ Z.of_nat i0).
  { destruct (decide (Z.of_nat i0 < rehashidx d)); [|lia]. by destruct Hne0; apply (Hempty i0). }
  pose proof (lookup_lt_Some _ _ _ Hc0). rewrite (ok_size _ _ _ Hok0).
  split; [rewrite uwrap_small, Z.gtb_ltb by lia; apply Z.ltb_lt; lia|].
  destruct (skip_empty_ok (ht0 d) t0 (length t0) (Z.to_nat (rehashidx d)) Hok0)
    as (i & c & Hskip & Hi & Hc & Hne & Hbefore); [by exists i0, c0; split; [lia|]|lia|].
  rewrite Z2Nat.id in Hskip by lia. exists i, c. rewrite Nat2Z.id. split_and!; [done|lia|done|].
  intros j cj Hj Hcj. destruct (decide (Z.of_nat j < rehashidx d)); [by apply (Hempty j)|].
  apply (Hbefore j); [lia|done].
Qed.

(** One step of rehashing: it succeeds, keeps the entries, and either moves
    at least one bucket or ends the rehashing. *)
Lemma rehash_step_ok d t0 t1 :
  rehashing type d t0 t1 → len (dict_entries d) < 2 ^ 63 →
  ∃ d' b, rehash_step type d = Some (d', b) ∧ iterators d' = iterators d ∧
    dict_entries d' ≡ₚ dict_entries d ∧
    if (b : bool) then ∃ t0' t1', rehashing type d' t0' t1' ∧ len t0' = len t0 ∧ len t1' = len t1 ∧
      rehashidx d < rehashidx d'
    else at_rest type d' ∧ ht0 d' = ht1 d.
Proof.
  intros Hre Hcount. pose proof Hre as (Hok0 & Hok1 & Hidx & Hempty). unfold rehash_step.
  pose proof (ht_ok_used _ _ Hok0) as Hu0.
  destruct (Z.eqb_spec (used (ht0 d)) 0) as [Hz|Hz].
  { exists (mkDict (ht1 d) _dictReset (-1) (iterators d)), false.
    split; [done|]. split; [done|]. split; [|split; [|done]].
    - unfold dict_entries. simpl.
      replace (ht_entries (ht0 d)) with (@nil (dictEntry K V)) by (symmetry; apply length_zero_iff_nil; lia).
      by rewrite app_nil_r.
    - split; [done|]. split; [done|]. by right; exists t1. }
  destruct (next_bucket_ok d t0 t1 Hre Hz) as (-> & i & c & -> & Hi & Hc & Hbefore).
  bsimpl. rewrite (get_bucket_ok _ _ _ Hok0), Hc. bsimpl.
  destruct (move_bucket_ok d t0 t1 i c) as (h0 & h1 & t1' & E & Hok0' & Hok1' & Hl1 & Hp); [done..|].
  bsimpl in E. rewrite E.
  eexists _, true. split; [done|]. split; [done|]. split; [done|].
  exists (<[i := []]> t0), t1'. rewrite length_insert. pose proof (lookup_lt_Some _ _ _ Hc).
  split; [|split_and!; simpl; [done..|lia]].
  split; [done|]. split; [done|]. simpl. rewrite length_insert. split; [lia|].
  intros j cj Hj Hcj. destruct (decide (j = i)) as [->|].
  - rewrite list_lookup_insert_eq in Hcj by done. congruence.
  - rewrite list_lookup_insert_ne in Hcj by done. apply (Hbefore j); [lia|done].
Qed.

Abbreviation dict_wf := (dict_wf type kabs).
Abbreviation dict_map := (dict_map kabs).

Lemma not_rehashing_at_rest d : at_rest type d → dictIsRehashing d = false.
Proof. intros (E & _). unfold dictIsRehashing. by rewrite E. Qed.

Lemma rehashing_is d t0 t1 : rehashing type d t0 t1 → dictIsRehashing d = true.
Proof.
  intros (_ & _ & ? & _). unfold dictIsRehashing. by destruct (Z.eqb_spec (rehashidx d) (-1)); [lia|].
Qed.

Lemma wf_is_rehashing d : dict_wf d → dictIsRehashing d = true → ∃ t0 t1, rehashing type d t0 t1.
Proof. intros [[Hr|?] _ _] E; [|done]. by rewrite (not_rehashing_at_rest d Hr) in E. Qed.

Lemma wf_not_rehashing d : dict_wf d → dictIsRehashing d = false → at_rest type d.
Proof. intros [[?|(t0 & t1 & Hr)] _ _] E; [done|]. by rewrite (rehashing_is _ _ _ Hr) in E. Qed.

(** What matters of the entries is which they are, not where. *)
Lemma dict_map_perm d d' :
  NoDup (kabs ∘ key <$> dict_entries d) → dict_entries d' ≡ₚ dict_entries d → dict_map d' = dict_map d.
Proof.
  intros Hnd Hp. unfold Dict.dict_map. symmetry. apply list_to_map_proper.
  - by rewrite <- list_fmap_compose.
  - by rewrite Hp.
Qed.

Lemma wf_perm d d' :
  dict_wf d → dict_entries d' ≡ₚ dict_entries d →
  (at_rest type d' ∨ ∃ t0 t1, rehashing type d' t0 t1) → dict_wf d'.
Proof.
  intros [_ Hnd Hc] Hp Ht. split; [done|by rewrite Hp|by rewrite Hp].
Qed.

Lemma rehash_loop_ok n : ∀ d t0 t1,
  dict_wf d → rehashing type d t0 t1 →
  ∃ d' r, rehash_loop type n d = Some (d', r) ∧ dict_wf d' ∧ iterators d' = iterators d ∧
    dict_entries d' ≡ₚ dict_entries d ∧
    ((r = 0 ∧ at_rest type d') ∨
     (r = 1 ∧ ∃ t0' t1', rehashing type d' t0' t1' ∧ len t0' = len t0 ∧
        rehashidx d + Z.of_nat n ≤ rehashidx d')).
Proof.
  induction n as [|n IH]; intros d t0 t1 Hwf Hre; cbn [rehash_loop].
  { exists d, 1. split_and!; try done. right. split; [done|]. exists t0, t1. split_and!; [done..|lia]. }
  destruct (rehash_step_ok d t0 t1 Hre (wf_count _ _ _ Hwf)) as (d' & b & -> & Hit & Hp & Hb).
  bsimpl. destruct b.
  - destruct Hb as (t0' & t1' & Hre' & Hl0 & Hl1 & Hlt).
    assert (dict_wf d') as Hwf' by (eapply wf_perm; [done..|]; eauto).
    destruct (IH d' t0' t1' Hwf' Hre') as (d2 & r & -> & Hwf2 & Hit2 & Hp2 & Hr).
    exists d2, r. split_and!; [done..|by rewrite Hit2|by rewrite Hp2|].
    destruct Hr as [?|(? & t0'' & t1'' & ? & ? & ?)]; [by left|]. right.
    split; [done|]. exists t0'', t1''. split_and!; [done|by etrans|lia].
  - destruct Hb as [Hr _]. exists d', 0. split_and!; try done; [|by left].
    by eapply wf_perm; eauto.
Qed.

Lemma dictRehash_ok d n :
  dict_wf d →
  ∃ d' r, dictRehash type d n = Some (d', r) ∧ dict_wf d' ∧ iterators d' = iterators d ∧
    dict_entries d' ≡ₚ dict_entries d.
Proof.
  intros Hwf. unfold dictRehash. destruct (dictIsRehashing d) eqn:E; cbn [negb].
  - destruct (wf_is_rehashing d Hwf E) as (t0 & t1 & Hre).
    destruct (rehash_loop_ok n d t0 t1 Hwf Hre) as (d' & r & ? & ? & ? & ? & _). eauto 10.
  - exists d, 0. by split_and!.
Qed.

Lemma step_if_rehashing_ok d :
  dict_wf d →
  ∃ d', step_if_rehashing type d = Some d' ∧ dict_wf d' ∧ iterators d' = iterators d ∧
    dict_entries d' ≡ₚ dict_entries d.
Proof.
  intros Hwf. unfold step_if_rehashing, _dictRehashStep.
  destruct (dictIsRehashing d); [|by eauto 10]. destruct (_ =? 0); [|by eauto 10].
  destruct (dictRehash_ok d 1 Hwf) as (d' & r & -> & ?). bsimpl. by eauto 10.
Qed.

(** ** Expansion *)

Lemma next_power_loop_ok fuel : ∀ k size,
  2 ≤ k ≤ 31 → 31 - k ≤ Z.of_nat fuel → size ≤ 2 ^ 31 →
  ∃ k', next_power_loop fuel (2 ^ k) size = Some (2 ^ k') ∧ k ≤ k' ≤ 31 ∧ size ≤ 2 ^ k'.
Proof.
  induction fuel as [|fuel IH]; intros k size Hk Hf Hs; cbn [next_power_loop];
    rewrite Z.geb_leb; destruct (Z.leb_spec size (2 ^ k)).
  1, 3: exists k; split_and!; [done|lia..].
  - assert (k = 31) as -> by lia. lia.
  - assert (2 ^ k * 2 = 2 ^ (k + 1)) as E by (rewrite Z.pow_add_r by lia; lia).
    assert (k < 31) by (destruct (decide (k = 31)) as [->|]; lia).
    assert (2 ^ (k + 1) ≤ 2 ^ 31) by (apply Z.pow_le_mono_r; lia).
    rewrite E, uwrap_small by lia. destruct (IH (k + 1) size) as (k' & -> & ? & ?); [lia..|].
    exists k'. split_and!; [done|lia..].
Qed.

Lemma _dictNextPower_ok size :
  size ≤ 2 ^ 31 → ∃ k, _dictNextPower size = Some (2 ^ k) ∧ 2 ≤ k ≤ 31 ∧ size ≤ 2 ^ k.
Proof.
  intros Hs. unfold _dictNextPower, DICT_LONG_MAX. rewrite Z.geb_leb, (proj2 (Z.leb_gt _ _)) by lia.
  apply (next_power_loop_ok 64 2 size); lia.
Qed.

Lemma empty_table_ok k :
  2 ≤ k ≤ 31 →
  ht_ok (mkHt (Some (replicate (Z.to_nat (2 ^ k)) [])) (2 ^ k) (u64 (2 ^ k - 1)) 0)
    (replicate (Z.to_nat (2 ^ k)) []).
Proof.
  intros Hk. assert (2 ^ k ≤ 2 ^ 31) by (apply Z.pow_le_mono_r; lia).
  assert (len (replicate (Z.to_nat (2 ^ k)) (@nil (dictEntry K V))) = 2 ^ k) as El by (rewrite length_replicate; lia).
  assert (mjoin (replicate (Z.to_nat (2 ^ k)) []) = @nil (dictEntry K V)) as Ej.
  { generalize (Z.to_nat (2 ^ k)). induction n; done. }
  split; simpl; rewrite ?El, ?Ej; try done; [by exists k|by apply uwrap_small; lia|].
  intros i c e [-> _]%lookup_replicate_1. by intros ?%elem_of_nil.
Qed.

(** A successful expansion keeps the entries and leaves a table to use. *)
Lemma dictExpand_ok d size :
  dict_wf d → at_rest type d → used (ht0 d) ≤ size ≤ 2 ^ 31 →
  ∃ d', dictExpand d size = Some (d', DICT_OK) ∧ dict_wf d' ∧ dict_entries d' = dict_entries d ∧
    iterators d' = iterators d ∧ (∃ t, ht_ok (ht0 d') t).
Proof.
  intros Hwf Hr [Hu Hs]. unfold dictExpand.
  destruct (_dictNextPower_ok size Hs) as (k & -> & Hk & Hle). bsimpl.
  rewrite (not_rehashing_at_rest d Hr), Z.gtb_ltb, (proj2 (Z.ltb_ge _ _)) by lia. cbn [orb].
  pose proof (empty_table_ok k Hk) as Hnew.
  set (n := mkHt _ _ _ _) in *. assert (ht_entries n = []) as En by (by rewrite (ht_ok_entries _ _ Hnew); apply length_zero_iff_nil; pose proof (ok_used _ _ _ Hnew); simpl in *; lia).
  destruct Hr as (Hidx & H1 & [H0|(t & H0)]).
  - rewrite H0. simpl. eexists. split; [done|].
    assert (dict_entries (mkDict n (ht1 d) (rehashidx d) (iterators d)) = dict_entries d) as Ee.
    { unfold dict_entries. simpl. by rewrite En, H0. }
    split_and!; [|done..|by eexists]. eapply wf_perm; [done|by rewrite Ee|].
    left. split_and!; [done..|]. right. by eexists.
  - rewrite (ok_table _ _ _ H0). eexists. split; [done|].
    assert (dict_entries (mkDict (ht0 d) n 0 (iterators d)) = dict_entries d) as Ee.
    { unfold dict_entries. simpl. by rewrite En, H1. }
    split_and!; [|done..|by eexists]. eapply wf_perm; [done|by rewrite Ee|].
    right. eexists t, _. split; [done|]. split; [exact Hnew|]. simpl. split; [lia|]. lia.
Qed.

Lemma _dictExpandIfNeeded_ok d :
  dict_wf d → len (dict_entries d) ≤ 2 ^ 30 →
  ∃ d', _dictExpandIfNeeded dict_can_resize d = Some (d', DICT_OK) ∧ dict_wf d' ∧
    dict_entries d' = dict_entries d ∧ iterators d' = iterators d ∧ ∃ t, ht_ok (ht0 d') t.
Proof.
  intros Hwf Hc. unfold _dictExpandIfNeeded.
  destruct (dictIsRehashing d) eqn:E.
  { destruct (wf_is_rehashing d Hwf E) as (t0 & t1 & Hok0 & _). by eauto 10. }
  pose proof (wf_not_rehashing d Hwf E) as Hr. pose proof Hr as (_ & _ & [H0|(t & H0)]).
  - rewrite H0. simpl. apply dictExpand_ok; [done..|]. by rewrite H0.
  - destruct (ok_pow _ _ _ H0) as (k & Hk & Hl). pose proof (ok_size _ _ _ H0) as Hs.
    assert (2 ^ 2 ≤ 2 ^ k) by (apply Z.pow_le_mono_r; lia).
    rewrite (proj2 (Z.eqb_neq _ _)) by lia.
    destruct (_ && _) eqn:Eb; [|by eauto 10].
    pose proof (ht_ok_used _ _ H0) as Hu. unfold dict_entries in Hc. rewrite length_app in Hc.
    rewrite uwrap_small by lia. apply dictExpand_ok; [done..|lia].
Qed.

(** ** Search *)

Lemma find_in_chain_ok chain k : ∀ pos0,
  match find_in_chain type chain k pos0 with
  | Some pos => (pos0 ≤ pos)%nat ∧ ∃ e, chain !! (pos - pos0)%nat = Some e ∧ kabs (key e) = kabs k
  | None => ∀ e, e ∈ chain → kabs (key e) ≠ kabs k
  end.
Proof.
  induction chain as [|e chain IH]; intros pos0; cbn [find_in_chain]; [by intros e ?%elem_of_nil|].
  rewrite compare_abs. case_bool_decide as Hk.
  - split; [lia|]. exists e. by rewrite Nat.sub_diag.
  - specialize (IH (S pos0)). destruct (find_in_chain type chain k (S pos0)) as [pos|].
    + destruct IH as (Hle & e' & He' & Hk'). split; [lia|]. exists e'.
      by replace (pos - pos0)%nat with (S (pos - S pos0)) by lia.
    + intros e' [-> | He']%elem_of_cons; [congruence|by apply IH].
Qed.

(** An entry with the key is in the bucket its hash selects. *)
Lemma entry_in_bucket h t c i k e :
  ht_ok h t → Z.land (dictHashKey type k) (sizemask h) = Z.of_nat i → t !! i = Some c →
  e ∈ ht_entries h → kabs (key e) = kabs k → e ∈ c.
Proof.
  intros Hok Hi Hc He Hk. rewrite (ht_ok_entries _ _ Hok) in He.
  apply list_elem_of_join in He as (c' & He & Hc'). apply list_elem_of_lookup in Hc' as (j & Hj).
  pose proof (ok_place _ _ _ Hok j c' e Hj He) as Hp.
  rewrite (hash_abs _ _ Hk), Hi in Hp. assert (j = i) as -> by lia. congruence.
Qed.

(** One table searched for a key. *)
Lemma search_table_ok h t k :
  ht_ok h t → ∃ i c, Z.land (dictHashKey type k) (sizemask h) = Z.of_nat i ∧ t !! i = Some c ∧
    get_bucket h (Z.land (dictHashKey type k) (sizemask h)) = Some c ∧
    match find_in_chain type c k 0 with
    | Some pos => ∃ e, c !! pos = Some e ∧ kabs (key e) = kabs k
    | None => ∀ e, e ∈ ht_entries h → kabs (key e) ≠ kabs k
    end.
Proof.
  intros Hok. destruct (hash_bucket h t (dictHashKey type k) Hok) as (i & c & Hi & Hc & Hb).
  exists i, c. split_and!; [done..|]. pose proof (find_in_chain_ok c k 0) as Hf.
  destruct (find_in_chain type c k 0) as [pos|].
  - destruct Hf as (_ & e & He & Hk). rewrite Nat.sub_0_r in He. by exists e.
  - intros e He Hk. eapply (Hf e); [|done]. by eapply entry_in_bucket.
Qed.

(** The place is that of an entry with the key; otherwise the key is absent
    and the index is that of the bucket where it belongs. *)
Definition search_result d k (r : place + Z) : Prop :=
  match r with
  | inl p => ∃ i c t e, bucket p = Z.of_nat i ∧ ht_ok (get_ht d (in_ht1 p)) t ∧ t !! i = Some c ∧
      c !! position p = Some e ∧ kabs (key e) = kabs k
  | inr idx => (∀ e, e ∈ dict_entries d → kabs (key e) ≠ kabs k) ∧
      idx = Z.land (dictHashKey type k) (sizemask (get_ht d (dictIsRehashing d)))
  end.

Lemma search_tables_ok d k t :
  dict_wf d → ht_ok (ht0 d) t → ∃ r, search_tables type d k = Some r ∧ search_result d k r.
Proof.
  intros Hwf Hok. unfold search_tables.
  destruct (search_table_ok (ht0 d) t k Hok) as (i & c & Hi & Hc & -> & Hf). bsimpl.
  destruct (find_in_chain type c k 0) as [pos|].
  { destruct Hf as (e & He & Hk). eexists. split; [done|]. rewrite Hi. by exists i, c, t, e. }
  destruct (dictIsRehashing d) eqn:E; cbn [negb].
  - destruct (wf_is_rehashing d Hwf E) as (t0 & t1 & _ & Hok1 & _).
    destruct (search_table_ok (ht1 d) t1 k Hok1) as (i1 & c1 & Hi1 & Hc1 & -> & Hf1).
    bsimpl. destruct (find_in_chain type c1 k 0) as [pos|].
    + destruct Hf1 as (e & He & Hk). eexists. split; [done|]. rewrite Hi1. by exists i1, c1, t1, e.
    + eexists. split; [done|]. split; [|by rewrite E].
      intros e [He|He]%elem_of_app; [by apply Hf|by apply Hf1].
  - pose proof (wf_not_rehashing d Hwf E) as (_ & H1 & _). eexists. split; [done|].
    split; [|by rewrite E]. unfold dict_entries. rewrite H1, app_nil_r. done.
Qed.

(** ** Places *)

Lemma get_entry_ok d p i c t e :
  bucket p = Z.of_nat i → ht_ok (get_ht d (in_ht1 p)) t → t !! i = Some c →
  c !! position p = Some e → get_entry d p = Some e.
Proof.
  intros Hp Hok Hc He. unfold get_entry. rewrite Hp, (get_bucket_ok _ _ _ Hok), Hc. done.
Qed.

Lemma dict_map_lookup d e :
  dict_wf d → e ∈ dict_entries d → dict_map d !! kabs (key e) = Some (val e).
Proof.
  intros Hwf He. unfold Dict.dict_map. apply elem_of_list_to_map_1.
  - rewrite <- list_fmap_compose. apply (wf_nodup _ _ _ Hwf).
  - apply list_elem_of_fmap. by exists e.
Qed.

Lemma dict_map_lookup_None d k :
  (∀ e, e ∈ dict_entries d → kabs (key e) ≠ k) → dict_map d !! k = None.
Proof.
  intros Hn. unfold Dict.dict_map. apply not_elem_of_list_to_map_1. rewrite <- list_fmap_compose.
  intros (e & -> & He)%list_elem_of_fmap. by apply (Hn e).
Qed.

Lemma place_entry_elem d p i c t e :
  dict_wf d → ht_ok (get_ht d (in_ht1 p)) t → t !! i = Some c → c !! position p = Some e →
  e ∈ dict_entries d.
Proof.
  intros Hwf Hok Hc He. apply elem_of_app.
  assert (e ∈ ht_entries (get_ht d (in_ht1 p))) as Hin.
  { rewrite (ht_ok_entries _ _ Hok). apply list_elem_of_join. exists c.
    split; by eapply list_elem_of_lookup_2. }
  unfold get_ht in Hin. destruct (in_ht1 p); auto.
Qed.

(** ** Updating one bucket *)

Lemma second_table_rehashing d t :
  dict_wf d → ht_ok (ht1 d) t → ∃ t0 t1, rehashing type d t0 t1.
Proof.
  intros [[(_ & H1 & _)|?] _ _] Hok; [|done]. pose proof (ok_table _ _ _ Hok) as E. by rewrite H1 in E.
Qed.

(** Buckets that have been moved stay empty: an update touches a bucket that
    holds an entry, or is an insertion in the table that takes them. *)
Lemma update_tables d b t i c c' h' :
  dict_wf d → ht_ok (get_ht d b) t → t !! i = Some c →
  (c ≠ [] ∨ b = dictIsRehashing d) → ht_ok h' (<[i := c']> t) →
  at_rest type (set_ht d b h') ∨ ∃ t0 t1, rehashing type (set_ht d b h') t0 t1.
Proof.
  intros Hwf Hok Hc Hb Hok'. destruct b; simpl in *.
  - right. destruct (second_table_rehashing d t Hwf Hok) as (t0 & t1 & Hok0 & _ & Hidx & He).
    by exists t0, (<[i := c']> t).
  - destruct (dictIsRehashing d) eqn:E.
    + right. destruct (wf_is_rehashing d Hwf E) as (t0 & t1 & Hok0 & Hok1 & Hidx & He).
      assert (t0 = t) as -> by (pose proof (ok_table _ _ _ Hok0); pose proof (ok_table _ _ _ Hok); congruence).
      destruct Hb as [Hne|]; [|done]. exists (<[i := c']> t), t1.
      split; [done|]. split; [done|]. simpl. rewrite length_insert. split; [done|].
      intros j cj Hj Hcj. destruct (decide (j = i)) as [->|].
      * by destruct Hne; apply (He i).
      * rewrite list_lookup_insert_ne in Hcj by done. by apply (He j).
    + left. destruct (wf_not_rehashing d Hwf E) as (? & ? & _). split; [done|]. split; [done|].
      right. by exists (<[i := c']> t).
Qed.

Lemma update_bucket d b t i c c' n :
  dict_wf d → ht_ok (get_ht d b) t → t !! i = Some c → (c ≠ [] ∨ b = dictIsRehashing d) →
  (∀ e, e ∈ c' → Z.land (dictHashKey type (key e)) (sizemask (get_ht d b)) = Z.of_nat i) →
  n = used (get_ht d b) - len c + len c' → len c' ≤ len c + 1 →
  ∃ h' pre post, set_bucket (get_ht d b) (Z.of_nat i) c' = Some h' ∧ used h' = used (get_ht d b) ∧
    dict_entries d = pre ++ c ++ post ∧
    dict_entries (set_ht d b (set_used h' n)) = pre ++ c' ++ post ∧
    ht_ok (set_used h' n) (<[i := c']> t) ∧
    (at_rest type (set_ht d b (set_used h' n)) ∨ ∃ t0 t1, rehashing type (set_ht d b (set_used h' n)) t0 t1).
Proof.
  intros Hwf Hok Hc Hb Hpl Hn Hlen. pose proof (wf_count _ _ _ Hwf) as Hcount.
  pose proof (ht_ok_used _ _ Hok) as Hu.
  assert (len (ht_entries (get_ht d b)) ≤ len (dict_entries d)).
  { unfold dict_entries. rewrite length_app. destruct b; simpl; lia. }
  destruct (set_bucket_ok (get_ht d b) t i c c' n Hok Hc Hpl Hn)
    as (h' & t' & pre & post & Hset & -> & Hu' & _ & _ & E & E' & Hok'); [lia|].
  destruct b; simpl in *.
  - exists h', (ht_entries (ht0 d) ++ pre), post. unfold dict_entries. simpl.
    rewrite set_used_entries, E, E', !app_assoc. split_and!; try done.
    by eapply (update_tables d true).
  - exists h', pre, (post ++ ht_entries (ht1 d)). unfold dict_entries. simpl.
    rewrite set_used_entries, E, E', <- !app_assoc. split_and!; try done.
    by eapply (update_tables d false).
Qed.

Lemma NoDup_keys_perm_cons d e rest :
  dict_wf d → dict_entries d ≡ₚ e :: rest → kabs (key e) ∉ (kabs ∘ key <$> rest).
Proof.
  intros Hwf Hp. pose proof (wf_nodup _ _ _ Hwf) as Hn. rewrite Hp in Hn.
  by apply NoDup_cons in Hn as [? _].
Qed.

(** The map of a dictionary one entry of which is known. *)
Lemma dict_map_cons d e rest :
  NoDup (kabs ∘ key <$> dict_entries d) → dict_entries d ≡ₚ e :: rest →
  dict_map d = <[kabs (key e) := val e]> (list_to_map (entry_binding kabs <$> rest)).
Proof.
  intros Hn Hp. unfold Dict.dict_map.
  rewrite (list_to_map_proper (entry_binding kabs <$> dict_entries d) (entry_binding kabs <$> (e :: rest))).
  - done.
  - by rewrite <- list_fmap_compose.
  - by rewrite Hp.
Qed.

Lemma wf_perm_cons d e e' rest d' :
  dict_wf d → dict_entries d ≡ₚ e :: rest → dict_entries d' ≡ₚ e' :: rest →
  kabs (key e') = kabs (key e) →
  (at_rest type d' ∨ ∃ t0 t1, rehashing type d' t0 t1) →
  dict_wf d' ∧ dict_map d' = <[kabs (key e) := val e']> (dict_map d).
Proof.
  intros Hwf Hp Hp' Hk Ht.
  assert (NoDup (kabs ∘ key <$> dict_entries d')) as Hn'.
  { pose proof (wf_nodup _ _ _ Hwf) as Hn. rewrite Hp in Hn. rewrite Hp'. csimpl in *. by rewrite Hk. }
  split.
  - split; [done|done|]. pose proof (wf_count _ _ _ Hwf) as Hc. rewrite Hp in Hc. by rewrite Hp'.
  - rewrite (dict_map_cons d' e' rest), (dict_map_cons d e rest) by (done || apply (wf_nodup _ _ _ Hwf)).
    by rewrite Hk, insert_insert_eq.
Qed.

(** An entry with a new key. *)
Lemma wf_add d e d' :
  dict_wf d → dict_entries d' ≡ₚ e :: dict_entries d →
  (∀ e', e' ∈ dict_entries d → kabs (key e') ≠ kabs (key e)) → len (dict_entries d) < 2 ^ 62 →
  (at_rest type d' ∨ ∃ t0 t1, rehashing type d' t0 t1) →
  dict_wf d' ∧ dict_map d' = <[kabs (key e) := val e]> (dict_map d).
Proof.
  intros Hwf Hp Hnew Hc Ht.
  assert (NoDup (kabs ∘ key <$> dict_entries d')) as Hn'.
  { rewrite Hp. csimpl. apply NoDup_cons. split; [|apply (wf_nodup _ _ _ Hwf)].
    intros (e' & E & He')%list_elem_of_fmap. by apply (Hnew e'). }
  split; [split; [done|done|rewrite Hp; simpl; lia]|]. by apply dict_map_cons.
Qed.

(** An entry less. *)
Lemma wf_del d e d' :
  dict_wf d → dict_entries d ≡ₚ e :: dict_entries d' →
  (at_rest type d' ∨ ∃ t0 t1, rehashing type d' t0 t1) →
  dict_wf d' ∧ dict_map d' = delete (kabs (key e)) (dict_map d).
Proof.
  intros Hwf Hp Ht. pose proof (wf_nodup _ _ _ Hwf) as Hn. pose proof (wf_count _ _ _ Hwf) as Hc.
  rewrite (dict_map_cons d e (dict_entries d')) by done.
  rewrite Hp in Hn, Hc. csimpl in Hn. apply NoDup_cons in Hn as [Hni Hn].
  split; [split; [done|done|simpl in Hc; lia]|].
  rewrite delete_insert_id; [done|]. apply not_elem_of_list_to_map_1. by rewrite <- list_fmap_compose.
Qed.

(** ** The operations on the map *)

Abbreviation small d := (len (dict_entries d) < 2 ^ 30).

(** A lookup that ends without the key: the index fits the [int] it is
    returned in. *)
Lemma key_index_ok d k :
  dict_wf d → small d →
  ∃ d' idx, _dictKeyIndex type dict_can_resize d k = Some (d', idx) ∧ dict_wf d' ∧
    dict_entries d' = dict_entries d ∧ iterators d' = iterators d ∧
    if bool_decide (is_Some (dict_map d !! kabs k)) then idx = -1
    else ∃ i c t, idx = Z.of_nat i ∧ ht_ok (get_ht d' (dictIsRehashing d')) t ∧ t !! i = Some c ∧
      Z.land (dictHashKey type k) (sizemask (get_ht d' (dictIsRehashing d'))) = Z.of_nat i.
Proof.
  intros Hwf Hc. unfold _dictKeyIndex.
  destruct (_dictExpandIfNeeded_ok d Hwf) as (d' & -> & Hwf' & He & Hit & t & Hok); [lia|].
  bsimpl. change (DICT_OK =? DICT_ERR) with false. cbn iota.
  destruct (search_tables_ok d' k t Hwf' Hok) as (r & -> & Hr). bsimpl.
  assert (dict_map d' = dict_map d) as Em by (unfold Dict.dict_map; by rewrite He).
  destruct r as [p|idx]; simpl in Hr.
  - destruct Hr as (i & c & t' & e & _ & Hok' & Hc' & He' & Hk). eexists _, _.
    split_and!; [done..|]. rewrite bool_decide_eq_true_2; [done|].
    rewrite <- Em, <- Hk, (dict_map_lookup d' e Hwf'); [by eexists|]. by eapply place_entry_elem.
  - destruct Hr as [Hn ->]. rewrite bool_decide_eq_false_2.
    2: { rewrite <- Em, dict_map_lookup_None by done. by intros [? ?]. }
    assert (∃ t', ht_ok (get_ht d' (dictIsRehashing d')) t') as [t' Hok'].
    { destruct (dictIsRehashing d') eqn:E; [|by eexists].
      destruct (wf_is_rehashing d' Hwf' E) as (? & t1 & _ & ? & _). by eexists. }
    destruct (hash_bucket _ t' (dictHashKey type k) Hok') as (i & c & Hi & Hci & _).
    eexists _, _. split_and!; [done..|]. exists i, c, t'. split_and!; try done.
    rewrite Hi. apply swrap_small; [lia|]. pose proof (lookup_lt_Some _ _ _ Hci).
    destruct (ok_pow _ _ _ Hok') as (kk & Hkk & Hl).
    assert (2 ^ kk ≤ 2 ^ 31) by (apply Z.pow_le_mono_r; lia). lia.
Qed.

(** [dictAddRaw] links an entry without value, or finds the key present. *)
Lemma dictAddRaw_ok d k :
  dict_wf d → small d →
  ∃ d', dict_wf d' ∧ iterators d' = iterators d ∧
  if bool_decide (is_Some (dict_map d !! kabs k)) then
    dictAddRaw type uninit dict_can_resize d k = Some (d', None) ∧ dict_entries d' ≡ₚ dict_entries d
  else ∃ p i c t, dictAddRaw type uninit dict_can_resize d k = Some (d', Some p) ∧
    bucket p = Z.of_nat i ∧ position p = 0%nat ∧ ht_ok (get_ht d' (in_ht1 p)) t ∧
    t !! i = Some (mkEntry (dictSetKey type k) uninit :: c) ∧
    dict_entries d' ≡ₚ mkEntry (dictSetKey type k) uninit :: dict_entries d ∧
    dict_map d' = <[kabs k := uninit]> (dict_map d).
Proof.
  intros Hwf Hc. unfold dictAddRaw.
  destruct (step_if_rehashing_ok d Hwf) as (d1 & -> & Hwf1 & Hit1 & Hp1). bsimpl.
  pose proof (dict_map_perm d d1 (wf_nodup _ _ _ Hwf) Hp1) as Em1. rewrite <- Hp1 in Hc.
  destruct (key_index_ok d1 k Hwf1 Hc) as (d2 & idx & -> & Hwf2 & He2 & Hit2 & Hidx).
  rewrite Em1 in Hidx. bsimpl. case_bool_decide as Hin.
  { subst idx. exists d2. split_and!; [done|by rewrite Hit2|done|]. by rewrite He2. }
  destruct Hidx as (i & c & t & -> & Hok & Hci & Hland).
  rewrite (proj2 (Z.eqb_neq _ _)) by lia. set (b := dictIsRehashing d2) in *.
  rewrite (get_bucket_ok _ _ _ Hok), Hci. bsimpl.
  set (e := mkEntry (dictSetKey type k) uninit).
  assert (kabs (key e) = kabs k) as Hke by apply dup_abs.
  destruct (update_bucket d2 b t i c (e :: c) (used (get_ht d2 b) + 1) Hwf2 Hok Hci)
    as (h' & pre & post & -> & Hu' & E & E' & Hok' & Ht'); [by right| |simpl; lia|simpl; lia|].
  { intros e' [-> | He']%elem_of_cons; [|by eapply (ok_place _ _ _ Hok)].
    by rewrite (hash_abs _ _ Hke). }
  bsimpl. rewrite Hu'. set (d3 := set_ht d2 b _) in *.
  assert (dict_entries d3 ≡ₚ e :: dict_entries d2) as Hp3.
  { rewrite E, E'. simpl. by rewrite <- Permutation_middle. }
  destruct (wf_add d2 e d3 Hwf2 Hp3) as [Hwf3 Hm3]; [|rewrite He2; lia|done|].
  { intros e' He' Hk'. apply Hin. rewrite <- Em1, <- (dict_map_perm d1 d2) by (apply (wf_nodup _ _ _ Hwf1) || by rewrite He2).
    rewrite <- Hke, <- Hk', (dict_map_lookup d2 e' Hwf2 He'). by eexists. }
  exists d3. split; [done|]. split; [subst d3; destruct b; simpl; by rewrite Hit2|].
  exists (mkPlace b (Z.of_nat i) 0), i, c, (<[i := e :: c]> t). split_and!; try done.
  - subst d3. by destruct b.
  - apply list_lookup_insert_eq. by eapply lookup_lt_Some.
  - by rewrite Hp3, He2, Hp1.
  - rewrite Hm3, Hke. f_equal. rewrite <- Em1. apply dict_map_perm; [apply (wf_nodup _ _ _ Hwf1)|by rewrite He2].
Qed.

(** Storing a value in the entry a place points to. *)
Lemma dictSetVal_ok d p i c t e v :
  dict_wf d → bucket p = Z.of_nat i → ht_ok (get_ht d (in_ht1 p)) t → t !! i = Some c →
  c !! position p = Some e →
  ∃ d', dictSetVal type d p v = Some d' ∧ dict_wf d' ∧ iterators d' = iterators d ∧
    dict_map d' = <[kabs (key e) := dup_val type v]> (dict_map d).
Proof.
  intros Hwf Hp Hok Hc He. unfold dictSetVal. rewrite Hp, (get_bucket_ok _ _ _ Hok), Hc.
  bsimpl. rewrite He. bsimpl.
  set (e' := mkEntry (key e) (dup_val type v)).
  pose proof (lookup_lt_Some _ _ _ He) as Hpos.
  destruct (update_bucket d (in_ht1 p) t i c (<[position p := e']> c) (used (get_ht d (in_ht1 p))) Hwf Hok Hc)
    as (h' & pre & post & -> & Hu' & E & E' & Hok' & Ht').
  { left. by destruct c. }
  { intros x (j & [(_ & <- & _)|(_ & Hx%list_elem_of_lookup_2)]%list_lookup_insert_Some)%list_elem_of_lookup;
      [|by eapply (ok_place _ _ _ Hok)].
    eapply (ok_place _ _ _ Hok i c e Hc). by eapply list_elem_of_lookup_2. }
  { rewrite length_insert. lia. } { rewrite length_insert. lia. }
  bsimpl. eexists. split; [done|].
  assert (set_used h' (used (get_ht d (in_ht1 p))) = h') as Eu.
  { unfold set_used. rewrite uwrap_small, <- Hu'; [by destruct h'|].
    pose proof (ht_ok_used _ _ Hok). pose proof (wf_count _ _ _ Hwf) as Hcnt.
    unfold dict_entries in Hcnt. rewrite length_app in Hcnt. destruct (in_ht1 p); simpl in *; lia. }
  rewrite Eu in *. rewrite <- (take_drop_middle c (position p) e He) in E.
  rewrite insert_take_drop in E' by done.
  destruct (wf_perm_cons d e e' (pre ++ take (position p) c ++ drop (S (position p)) c ++ post)
    (set_ht d (in_ht1 p) h') Hwf) as [Hwf' Hm']; [| |done|done|].
  - rewrite E, <- !app_assoc. simpl. by rewrite <- !Permutation_middle.
  - rewrite E', <- !app_assoc. simpl. by rewrite <- !Permutation_middle.
  - split_and!; [done| |done]. by destruct (in_ht1 p).
Qed.

(** A dictionary that never allocated a table is empty. *)
Lemma no_table_empty d : dict_wf d → size_ (ht0 d) = 0 → dict_entries d = [].
Proof.
  intros Hwf Hs. destruct (wf_tables _ _ _ Hwf) as [(_ & H1 & [H0|(t & Hok)])|(t0 & t1 & Hok & _)].
  - unfold dict_entries. by rewrite H0, H1.
  - pose proof (ok_size _ _ _ Hok). destruct (ok_pow _ _ _ Hok) as (k & ? & Hl). lia.
  - pose proof (ok_size _ _ _ Hok). destruct (ok_pow _ _ _ Hok) as (k & ? & Hl). lia.
Qed.

Lemma has_table d : dict_wf d → size_ (ht0 d) ≠ 0 → ∃ t, ht_ok (ht0 d) t.
Proof.
  intros Hwf Hs. destruct (wf_tables _ _ _ Hwf) as [(_ & H1 & [H0|?])|(t0 & t1 & ? & _)]; eauto.
  by rewrite H0 in Hs.
Qed.

(** A table does not disappear while entries are moved. *)
Lemma step_keeps_table d d' :
  dict_wf d → size_ (ht0 d) ≠ 0 → step_if_rehashing type d = Some d' → ∃ t, ht_ok (ht0 d') t.
Proof.
  intros Hwf Hs. unfold step_if_rehashing, _dictRehashStep, dictRehash.
  destruct (dictIsRehashing d) eqn:E; [|intros [= <-]; by apply has_table]. cbn [negb].
  destruct (_ =? 0); [|intros [= <-]; by apply has_table].
  destruct (wf_is_rehashing d Hwf E) as (t0 & t1 & Hre). cbn [rehash_loop].
  destruct (rehash_step_ok d t0 t1 Hre (wf_count _ _ _ Hwf)) as (d2 & b & -> & _ & _ & Hb).
  bsimpl. destruct b; bsimpl; intros [= <-].
  - destruct Hb as (t0' & t1' & (? & _) & _). by eexists.
  - destruct Hb as [_ ->]. destruct Hre as (_ & ? & _). by eexists.
Qed.

(** The search after the rehashing step, common to lookups and deletions. *)
Lemma step_and_search d k :
  dict_wf d → size_ (ht0 d) ≠ 0 →
  ∃ d' r, step_if_rehashing type d = Some d' ∧ search_tables type d' k = Some r ∧
    dict_wf d' ∧ iterators d' = iterators d ∧ dict_map d' = dict_map d ∧ search_result d' k r.
Proof.
  intros Hwf Hs. destruct (step_if_rehashing_ok d Hwf) as (d' & Hst & Hwf' & Hit & Hp).
  destruct (step_keeps_table d d' Hwf Hs Hst) as [t Hok].
  destruct (search_tables_ok d' k t Hwf' Hok) as (r & Hr & Hres).
  exists d', r. split_and!; try done. by apply dict_map_perm; [apply (wf_nodup _ _ _ Hwf)|].
Qed.

Lemma search_result_map d k r :
  dict_wf d → search_result d k r →
  match r with
  | inl p => ∃ e, get_entry d p = Some e ∧ kabs (key e) = kabs k ∧ dict_map d !! kabs k = Some (val e)
  | inr _ => dict_map d !! kabs k = None
  end.
Proof.
  intros Hwf Hr. destruct r as [p|idx]; simpl in Hr.
  - destruct Hr as (i & c & t & e & Hp & Hok & Hc & He & Hk). exists e.
    split_and!; [by eapply get_entry_ok|done|].
    rewrite <- Hk. apply dict_map_lookup; [done|]. by eapply place_entry_elem.
  - apply dict_map_lookup_None. tauto.
Qed.

Lemma dictFind_ok d k :
  dict_wf d →
  ∃ d' o, dictFind type d k = Some (d', o) ∧ dict_wf d' ∧ iterators d' = iterators d ∧
    dict_map d' = dict_map d ∧
    match o with
    | Some p => search_result d' k (inl p)
    | None => dict_map d !! kabs k = None
    end.
Proof.
  intros Hwf. unfold dictFind. destruct (Z.eqb_spec (size_ (ht0 d)) 0) as [Hs|Hs].
  { exists d, None. split_and!; try done. unfold Dict.dict_map. by rewrite no_table_empty. }
  destruct (step_and_search d k Hwf Hs) as (d' & r & -> & Hr & Hwf' & Hit & Hm & Hres).
  bsimpl. rewrite Hr. bsimpl.
  pose proof (search_result_map d' k r Hwf' Hres) as Hmap.
  destruct r as [p|idx]; [exists d', (Some p)|exists d', None]; split_and!; try done. by rewrite <- Hm.
Qed.

Lemma dictAdd_ok d k v :
  dict_wf d → small d →
  ∃ d', dict_wf d' ∧ iterators d' = iterators d ∧
    if bool_decide (is_Some (dict_map d !! kabs k)) then
      dictAdd type uninit dict_can_resize d k v = Some (d', DICT_ERR) ∧ dict_map d' = dict_map d
    else
      dictAdd type uninit dict_can_resize d k v = Some (d', DICT_OK) ∧
      dict_map d' = <[kabs k := dup_val type v]> (dict_map d).
Proof.
  intros Hwf Hc. unfold dictAdd. destruct (dictAddRaw_ok d k Hwf Hc) as (d1 & Hwf1 & Hit1 & Hr).
  case_bool_decide as Hin.
  - destruct Hr as [-> Hp]. exists d1. split_and!; try done.
    by apply dict_map_perm; [apply (wf_nodup _ _ _ Hwf)|].
  - destruct Hr as (p & i & c & t & -> & Hp & Hpos & Hok & Hci & _ & Hm). bsimpl.
    destruct (dictSetVal_ok d1 p i _ t (mkEntry (dictSetKey type k) uninit) v Hwf1 Hp Hok Hci)
      as (d2 & -> & Hwf2 & Hit2 & Hm2); [by rewrite Hpos|].
    exists d2. split_and!; [done|by rewrite Hit2|done|].
    rewrite Hm2, Hm. simpl. by rewrite dup_abs, insert_insert_eq.
Qed.

(** Unlinking the entry of a place. *)
Lemma delete_place_ok d p i c t e nofree :
  dict_wf d → bucket p = Z.of_nat i → ht_ok (get_ht d (in_ht1 p)) t → t !! i = Some c →
  c !! position p = Some e →
  ∃ d', delete_place type d p nofree =
      Some (d', if nofree then [] else dictFreeKey type e ++ dictFreeVal type e) ∧
    dict_wf d' ∧ iterators d' = iterators d ∧ dict_map d' = delete (kabs (key e)) (dict_map d).
Proof.
  intros Hwf Hp Hok Hc He. unfold delete_place. rewrite Hp, (get_bucket_ok _ _ _ Hok), Hc.
  bsimpl. rewrite He. bsimpl.
  pose proof (lookup_lt_Some _ _ _ He) as Hpos.
  pose proof (take_drop_middle c (position p) e He) as Ec.
  destruct (update_bucket d (in_ht1 p) t i c (delete (position p) c) (used (get_ht d (in_ht1 p)) - 1) Hwf Hok Hc)
    as (h' & pre & post & -> & Hu' & E & E' & Hok' & Ht').
  { left. by destruct c. }
  { intros x Hx. eapply (ok_place _ _ _ Hok i c x Hc). rewrite delete_take_drop in Hx.
    rewrite <- Ec. set_solver. }
  { rewrite length_delete by done. lia. } { rewrite length_delete by done. lia. }
  bsimpl. rewrite Hu'. eexists. split; [done|].
  rewrite delete_take_drop in E'. rewrite <- Ec in E.
  destruct (wf_del d e (set_ht d (in_ht1 p) (set_used h' (used (get_ht d (in_ht1 p)) - 1))) Hwf)
    as [Hwf' Hm']; [|done|].
  - rewrite E, E', <- !app_assoc. simpl. by rewrite <- !Permutation_middle.
  - split_and!; [done| |done]. by destruct (in_ht1 p).
Qed.

(** Clearing a table destroys its entries, first bucket first. *)
Definition destroyed (l : list (dictEntry K V)) : list (event K V) :=
  mjoin ((λ e, dictFreeKey type e ++ dictFreeVal type e) <$> l).

Lemma clear_loop_ok t : ∀ i, clear_loop type t i (len (mjoin t)) false = destroyed (mjoin t).
Proof.
  unfold destroyed. induction t as [|c t IH]; intros i; [done|]. cbn [clear_loop].
  rewrite Z.gtb_ltb. simpl. rewrite length_app.
  destruct (Z.ltb_spec 0 (Z.of_nat (length c + length (mjoin t)))).
  - replace (_ - _) with (len (mjoin t)) by lia. by rewrite IH, fmap_app, join_app.
  - destruct c; [|simpl in *; lia]. destruct (mjoin t) eqn:E; [done|simpl in *; lia].
Qed.

Lemma clear_ok d b :
  dict_wf d → snd (_dictClear type (get_ht d b) false) = destroyed (ht_entries (get_ht d b)).
Proof.
  intros Hwf. assert (used (get_ht d b) = len (ht_entries (get_ht d b))) as Hu.
  { destruct (wf_tables _ _ _ Hwf) as [(_ & H1 & H0)|(t0 & t1 & Hok0 & Hok1 & _)].
    - destruct b; simpl; [by rewrite H1|]. destruct H0 as [->|(t & Hok)]; [done|]. by eapply ht_ok_used.
    - destruct b; simpl; by eapply ht_ok_used. }
  unfold _dictClear, ht_entries in *. simpl. rewrite Hu. apply clear_loop_ok.
Qed.
End table_lemmas.

(** ** Theorems *)

Section dict_theorems.
Context {K V A : Type} `{EqDecision K} `{Countable A} (type : dictType K V) (kabs : K → A).
Context (uninit : V) (dict_can_resize : bool).
Context `{!DictLaws type kabs}.
Implicit Types (d : dict K V) (k : K) (v : V).

(** C30. [dictAdd] on a dictionary that stands for the map [m]: with the key
    bound it reports an error and the map does not change, otherwise it
    reports success and the map gains the binding.  In both cases the
    invariant holds afterwards, whether or not the call expanded the table or
    moved a bucket on the way. *)
Theorem dictAdd_refines d k v :
  dict_wf type kabs d → len (dict_entries d) < 2 ^ 30 →
  ∃ d' r, dictAdd type uninit dict_can_resize d k v = Some (d', r) ∧ dict_wf type kabs d' ∧
    match dict_map kabs d !! kabs k with
    | Some _ => r = DICT_ERR ∧ dict_map kabs d' = dict_map kabs d
    | None => r = DICT_OK ∧ dict_map kabs d' = <[kabs k := dup_val type v]> (dict_map kabs d)
    end.
Proof.
  intros Hwf Hc.
  destruct (dictAdd_ok type kabs uninit dict_can_resize d k v Hwf Hc) as (d' & Hwf' & _ & Hr).
  destruct (dict_map kabs d !! kabs k) eqn:E; simpl in Hr.
  - destruct Hr as [-> Hm]. by eexists _, _.
  - destruct Hr as [-> Hm]. by eexists _, _.
Qed.

(** [dictFetchValue] is the lookup of the map, and leaves the map as it
    is even when it moves a bucket. *)
Theorem dictFetchValue_refines d k :
  dict_wf type kabs d →
  ∃ d', dictFetchValue type d k = Some (d', dict_map kabs d !! kabs k) ∧
    dict_wf type kabs d' ∧ dict_map kabs d' = dict_map kabs d.
Proof.
  intros Hwf. unfold dictFetchValue.
  destruct (dictFind_ok type kabs d k Hwf) as (d' & o & -> & Hwf' & _ & Hm & Ho).
  bsimpl. destruct o as [p|]; [|by rewrite Ho; eauto].
  destruct (search_result_map type kabs d' k (inl p) Hwf' Ho) as (e & -> & _ & He).
  bsimpl. rewrite <- Hm, He. by eauto.
Qed.

(** [dictReplace] binds the key to the value whether or not it was
    bound, returns 1 exactly when it was not, and destroys the old value. *)
Theorem dictReplace_refines d k v :
  dict_wf type kabs d → len (dict_entries d) < 2 ^ 30 →
  ∃ d', dict_wf type kabs d' ∧
    dict_map kabs d' = <[kabs k := dup_val type v]> (dict_map kabs d) ∧
    match dict_map kabs d !! kabs k with
    | Some old => dictReplace type uninit dict_can_resize d k v =
        Some (d', 0, if valDestructor type then [FreeVal old] else [])
    | None => dictReplace type uninit dict_can_resize d k v = Some (d', 1, [])
    end.
Proof.
  intros Hwf Hc. unfold dictReplace.
  destruct (dictAdd_ok type kabs uninit dict_can_resize d k v Hwf Hc) as (d1 & Hwf1 & _ & Hr).
  destruct (dict_map kabs d !! kabs k) as [old|] eqn:E; simpl in Hr.
  - destruct Hr as [-> Hm].
    bsimpl. change (DICT_ERR =? DICT_OK) with false. cbn iota.
    destruct (dictFind_ok type kabs d1 k Hwf1) as (d2 & o & -> & Hwf2 & _ & Hm2 & Ho).
    bsimpl. destruct o as [p|]; [|by rewrite Hm, E in Ho].
    bsimpl. pose proof Ho as (i & c & t & e & Hp & Hok & Hci & He & Hk).
    destruct (search_result_map type kabs d2 k (inl p) Hwf2 Ho) as (e' & Hge & _ & Hv).
    assert (e' = e) as -> by (pose proof (get_entry_ok type d2 p i c t e Hp Hok Hci He); congruence).
    rewrite Hge. bsimpl.
    destruct (dictSetVal_ok type kabs d2 p i c t e v Hwf2 Hp Hok Hci He) as (d3 & -> & Hwf3 & _ & Hm3).
    bsimpl. exists d3. split; [done|]. split; [by rewrite Hm3, Hk, Hm2, Hm|].
    unfold dictFreeVal. rewrite Hm2, Hm, E in Hv. by injection Hv as ->.
  - destruct Hr as [-> Hm].
    bsimpl. change (DICT_OK =? DICT_OK) with true. cbn iota. by eauto.
Qed.

(** Removal. *)
Lemma dictGenericDelete_ok d k nofree :
  dict_wf type kabs d →
  ∃ d' r evs, dictGenericDelete type d k nofree = Some (d', r, evs) ∧ dict_wf type kabs d' ∧
    dict_map kabs d' = delete (kabs k) (dict_map kabs d) ∧
    match dict_map kabs d !! kabs k with
    | Some old => r = DICT_OK ∧ ∃ k', kabs k' = kabs k ∧
        evs = if nofree then [] else dictFreeKey type (mkEntry k' old) ++ dictFreeVal type (mkEntry k' old)
    | None => r = DICT_ERR ∧ evs = []
    end.
Proof.
  intros Hwf. unfold dictGenericDelete. destruct (Z.eqb_spec (size_ (ht0 d)) 0) as [Hs|Hs].
  { assert (dict_map kabs d = ∅) as Em by (unfold dict_map; by rewrite (no_table_empty type kabs d)).
    exists d, DICT_ERR, []. rewrite Em, lookup_empty, delete_empty. by split_and!. }
  destruct (step_and_search type kabs d k Hwf Hs) as (d1 & r & -> & Hr & Hwf1 & _ & Hm1 & Hres).
  bsimpl. rewrite Hr. bsimpl. rewrite <- Hm1.
  pose proof (search_result_map type kabs d1 k r Hwf1 Hres) as Hmap. destruct r as [p|idx].
  - destruct Hmap as (e & Hge & Hk & Hv). destruct Hres as (i & c & t & e' & Hp & Hok & Hci & He & Hk').
    assert (e' = e) as -> by (pose proof (get_entry_ok type d1 p i c t e' Hp Hok Hci He); congruence).
    destruct (delete_place_ok type kabs d1 p i c t e nofree Hwf1 Hp Hok Hci He) as (d2 & -> & Hwf2 & _ & Hm2).
    bsimpl. eexists d2, _, _. split; [done|]. split; [done|]. split; [by rewrite Hm2, Hk|].
    rewrite Hv. split; [done|]. exists (key e). split; [done|]. by destruct e.
  - eexists d1, _, _. split; [done|]. split; [done|]. rewrite Hmap.
    split; [by rewrite delete_id|done].
Qed.

(** C31. [dictGenericDelete] removes the binding of the key, hands its key
    and value to the destructors unless asked not to, and reports an error,
    changing nothing, when the key is not bound. *)
Theorem dictGenericDelete_refines d k nofree :
  dict_wf type kabs d →
  ∃ d' r evs, dictGenericDelete type d k nofree = Some (d', r, evs) ∧ dict_wf type kabs d' ∧
    dict_map kabs d' = delete (kabs k) (dict_map kabs d) ∧
    match dict_map kabs d !! kabs k with
    | Some old => r = DICT_OK ∧ ∃ k', kabs k' = kabs k ∧
        evs = if nofree then [] else dictFreeKey type (mkEntry k' old) ++ dictFreeVal type (mkEntry k' old)
    | None => r = DICT_ERR ∧ evs = []
    end.
Proof. apply dictGenericDelete_ok. Qed.

(** C22. Incremental rehashing never loses, duplicates or changes a binding,
    whatever the number of steps, and ends: as many steps as the old table
    has buckets, and one, leave the dictionary at rest. *)
Theorem dictRehash_preserves_and_ends d n :
  dict_wf type kabs d →
  ∃ d' r, dictRehash type d n = Some (d', r) ∧ dict_wf type kabs d' ∧
    dict_map kabs d' = dict_map kabs d ∧ dict_entries d' ≡ₚ dict_entries d ∧
    (size_ (ht0 d) < Z.of_nat n → r = 0 ∧ dictIsRehashing d' = false).
Proof.
  intros Hwf. unfold dictRehash. destruct (dictIsRehashing d) eqn:E; cbn [negb].
  2: { exists d, 0. by split_and!. }
  destruct (wf_is_rehashing type kabs d Hwf E) as (t0 & t1 & Hre).
  destruct (rehash_loop_ok type kabs n d t0 t1 Hwf Hre) as (d' & r & -> & Hwf' & _ & Hp & Hr).
  exists d', r. split_and!; try done.
  - apply (dict_map_perm kabs); [apply (wf_nodup _ _ _ Hwf)|done].
  - intros Hn. destruct Hr as [[-> Hr]|(_ & t0' & t1' & (_ & _ & Hi' & _) & Hl & Hge)].
    + split; [done|]. by apply (not_rehashing_at_rest type).
    + destruct Hre as (Hok & _ & Hi & _). rewrite (ok_size _ _ _ Hok) in Hn. lia.
Qed.

(** An empty dictionary stands for the empty map, and [dictEmpty] makes
    one of any dictionary, destroying every entry exactly once. *)
Theorem dictEmpty_refines d :
  dict_wf type kabs d →
  let '(d', evs) := dictEmpty type d false in
  d' = dictCreate ∧ dict_wf type kabs d' ∧ dict_map kabs d' = ∅ ∧
  evs = mjoin ((λ e, dictFreeKey type e ++ dictFreeVal type e) <$> dict_entries d).
Proof.
  intros Hwf. unfold dictEmpty, _dictClear. split; [done|].
  assert (dict_wf type kabs dictCreate).
  { split; [by left; split_and!; [..|left]|constructor|done]. }
  split; [done|]. split; [done|].
  unfold dict_entries. rewrite fmap_app, join_app. f_equal.
  - apply (clear_ok type kabs d false Hwf).
  - apply (clear_ok type kabs d true Hwf).
Qed.
End dict_theorems.

(** ** Witnesses

    A dictionary of integers in the middle of a rehashing from 4 to 8
    buckets, the first of which has been moved. *)

Definition int_type : dictType Z Z := mkType dictIntHashFunction None None (Some Z.eqb) true true.

#[export] Instance int_type_laws : DictLaws int_type (id : Z → Z).
Proof.
  split; [|by intros ? ? [= ->]|done]. intros k1 k2. unfold dictCompareKeys. simpl.
  destruct (Z.eqb_spec k1 k2); by case_bool_decide.
Qed.

Definition d_rehashing : dict Z Z :=
  mkDict (mkHt (Some [[]; [mkEntry 10 100]; [mkEntry 6 60]; [mkEntry 3 30; mkEntry 4 40]]) 4 3 4)
         (mkHt (Some [[mkEntry 5 50; mkEntry 1 11]; []; []; []; [mkEntry 7 70]; []; []; []]) 8 7 3) 1 0.

Lemma d_rehashing_wf : dict_wf int_type id d_rehashing.
Proof.
  split.
  - right. eexists _, _. split; [split; try reflexivity|split; [split; try reflexivity|]].
    + by exists 2.
    + intros i c e Hi He. do 5 (destruct i as [|i]; simplify_eq/=; try set_solver).
      all: repeat (apply elem_of_cons in He as [->|He]; [vm_compute; reflexivity|]); set_solver.
    + by exists 3.
    + intros i c e Hi He. do 9 (destruct i as [|i]; simplify_eq/=; try set_solver).
      all: repeat (apply elem_of_cons in He as [->|He]; [vm_compute; reflexivity|]); set_solver.
    + simpl. split; [lia|]. intros i c Hi Hc. destruct i; [by simplify_eq/=|lia].
  - apply (bool_decide_unpack _). vm_compute. reflexivity.
  - vm_compute. reflexivity.
Qed.

Lemma dictAdd_refines_witness :
  ∃ d' r, dictAdd int_type 0 true d_rehashing 8 80 = Some (d', r) ∧ dict_wf int_type id d' ∧
    match dict_map id d_rehashing !! id 8 with
    | Some _ => r = DICT_ERR ∧ dict_map id d' = dict_map id d_rehashing
    | None => r = DICT_OK ∧ dict_map id d' = <[id 8 := dup_val int_type 80]> (dict_map id d_rehashing)
    end.
Proof.
  apply (dictAdd_refines int_type id 0 true d_rehashing 8 80).
  - apply d_rehashing_wf.
  - vm_compute. reflexivity.
Defined.

Lemma dictFetchValue_refines_witness :
  ∃ d', dictFetchValue int_type d_rehashing 4 = Some (d', dict_map id d_rehashing !! id 4) ∧
    dict_wf int_type id d' ∧ dict_map id d' = dict_map id d_rehashing.
Proof. apply (dictFetchValue_refines int_type id d_rehashing 4). apply d_rehashing_wf. Defined.

Lemma dictReplace_refines_witness :
  ∃ d', dict_wf int_type id d' ∧
    dict_map id d' = <[id 7 := dup_val int_type 77]> (dict_map id d_rehashing) ∧
    match dict_map id d_rehashing !! id 7 with
    | Some old => dictReplace int_type 0 true d_rehashing 7 77 =
        Some (d', 0, if valDestructor int_type then [FreeVal old] else [])
    | None => dictReplace int_type 0 true d_rehashing 7 77 = Some (d', 1, [])
    end.
Proof.
  apply (dictReplace_refines int_type id 0 true d_rehashing 7 77).
  - apply d_rehashing_wf.
  - vm_compute. reflexivity.
Defined.

Lemma dictGenericDelete_refines_witness :
  ∃ d' r evs, dictGenericDelete int_type d_rehashing 3 false = Some (d', r, evs) ∧
    dict_wf int_type id d' ∧ dict_map id d' = delete (id 3) (dict_map id d_rehashing) ∧
    match dict_map id d_rehashing !! id 3 with
    | Some old => r = DICT_OK ∧ ∃ k', id k' = id 3 ∧
        evs = if false then [] else dictFreeKey int_type (mkEntry k' old) ++ dictFreeVal int_type (mkEntry k' old)
    | None => r = DICT_ERR ∧ evs = []
    end.
Proof. apply (dictGenericDelete_refines int_type id d_rehashing 3 false). apply d_rehashing_wf. Defined.

Lemma dictRehash_preserves_and_ends_witness :
  ∃ d' r, dictRehash int_type d_rehashing 5 = Some (d', r) ∧ dict_wf int_type id d' ∧
    dict_map id d' = dict_map id d_rehashing ∧ dict_entries d' ≡ₚ dict_entries d_rehashing ∧
    (size_ (ht0 d_rehashing) < Z.of_nat 5 → r = 0 ∧ dictIsRehashing d' = false).
Proof. apply (dictRehash_preserves_and_ends int_type id d_rehashing 5). apply d_rehashing_wf. Defined.

Lemma dictEmpty_refines_witness :
  let '(d', evs) := dictEmpty int_type d_rehashing false in
  d' = dictCreate ∧ dict_wf int_type id d' ∧ dict_map id d' = (∅ : gmap Z Z) ∧
  evs = mjoin ((λ e, dictFreeKey int_type e ++ dictFreeVal int_type e) <$> dict_entries d_rehashing).
Proof. apply (dictEmpty_refines int_type id d_rehashing). apply d_rehashing_wf. Defined.
