(* ===== verification/DictScan.v ===== *)
(** * Cursor iteration over hash tables: [dictScan] of [dict.c]

    The cursor counts with its bits reversed, so that it keeps its meaning
    when the table is resized between two calls.  The model emits the list of
    the entries given to the callback and returns the new cursor.

    What is shown: a scan of calls in which the (smaller) table does not
    shrink returns every key that was there all along, and on a table left
    alone it ends after as many calls as there are buckets.  The documentation
    of the function promises the former without the condition; a shrinking
    table is a counterexample. *)

From S2P Require Import Prelude Dict.
From stdpp Require Import gmap.
Local Open Scope Z_scope.

(** [~x] on an [unsigned long]. *)
Definition not64 (x : Z) : Z := u64 (Z.lnot x).

(** [while ((s >>= 1) > 0)]; [fuel] counts the halvings of [s]. *)
Fixpoint rev_loop (fuel : nat) (s mask v : Z) : Z :=
  match fuel with
  | O => v
  | S fuel =>
      let s := Z.shiftr s 1 in
      if s >? 0 then
        let mask := Z.lxor mask (u64 (Z.shiftl mask s)) in
        let v := Z.lor (Z.land (Z.shiftr v s) mask) (Z.land (u64 (Z.shiftl v s)) (not64 mask)) in
        rev_loop fuel s mask v
      else v
  end.

Definition rev (v : Z) : Z := rev_loop 8 64 (not64 0) v.

Section scan.
Context {K V : Type}.
Implicit Types (d : dict K V) (t : dictht K V).

(** The [do ... while] over the expansions of the cursor in the larger table:
    what is emitted and the last [v]. *)
Fixpoint expansion_loop (fuel : nat) (t1 : dictht K V) (m0 m1 v : Z)
    : option (list (dictEntry K V) * Z) :=
  match fuel with
  | O => None
  | S fuel =>
      de ← get_bucket t1 (Z.land v m1);
      let v := Z.lor (Z.land (u64 (Z.lor v m0 + 1)) (not64 m0)) (Z.land v m0) in
      if negb (Z.land v (Z.lxor m0 m1) =? 0) then
        '(out, v) ← expansion_loop fuel t1 m0 m1 v; Some (de ++ out, v)
      else Some (de, v)
  end.

(** [v |= ~m0; v = rev(v); v++; v = rev(v);] *)
Definition next_cursor (v m0 : Z) : Z := rev (u64 (rev (Z.lor v (not64 m0)) + 1)).

Definition dictScan d (v : Z) : option (list (dictEntry K V) * Z) :=
  if dictSize d =? 0 then Some ([], 0)
  else if negb (dictIsRehashing d) then
    let t0 := ht0 d in
    let m0 := sizemask t0 in
    de ← get_bucket t0 (Z.land v m0);
    Some (de, next_cursor v m0)
  else
    let '(t0, t1) := if size_ (ht0 d) >? size_ (ht1 d) then (ht1 d, ht0 d) else (ht0 d, ht1 d) in
    let m0 := sizemask t0 in
    let m1 := sizemask t1 in
    de ← get_bucket t0 (Z.land v m0);
    '(out, v) ← expansion_loop (Z.to_nat (size_ t1)) t1 m0 m1 v;
    Some (de ++ out, next_cursor v m0).

(** A scan: one call per dictionary of the list (the state of the dictionary
    at each call), each with the cursor the previous one returned. *)
Fixpoint scan_all (ds : list (dict K V)) (v : Z) : option (list (dictEntry K V) * Z) :=
  match ds with
  | [] => Some ([], v)
  | d :: ds =>
      '(out, v) ← dictScan d v;
      '(outs, v) ← scan_all ds v;
      Some (out ++ outs, v)
  end.

(** The mask of the smaller table in use. *)
Definition scan_mask d : Z :=
  if dictIsRehashing d then Z.min (sizemask (ht0 d)) (sizemask (ht1 d)) else sizemask (ht0 d).
End scan.

#[global] Arguments rev : simpl never.
#[global] Arguments next_cursor : simpl never.


(** ** Bit reversal *)

(** One round of [rev] and the bit it takes to position [i]. *)
Definition rev_round (p : Z * Z) (v : Z) : Z :=
  Z.lor (Z.land (Z.shiftr v p.1) p.2) (Z.land (u64 (Z.shiftl v p.1)) (not64 p.2)).
Definition rev_from (p : Z * Z) (i : Z) : Z := if Z.testbit p.2 i then i + p.1 else i - p.1.

Definition rev_rounds : list (Z * Z) :=
  [(1, 0x5555555555555555); (2, 0x3333333333333333); (4, 0x0f0f0f0f0f0f0f0f);
   (8, 0x00ff00ff00ff00ff); (16, 0x0000ffff0000ffff); (32, 0x00000000ffffffff)].

Fixpoint rounds (fuel : nat) (s mask : Z) (acc : list (Z * Z)) : list (Z * Z) :=
  match fuel with
  | O => acc
  | S fuel =>
      let s := Z.shiftr s 1 in
      if s >? 0 then
        let mask := Z.lxor mask (u64 (Z.shiftl mask s)) in rounds fuel s mask ((s, mask) :: acc)
      else acc
  end.

Lemma rev_loop_rounds v fuel : ∀ s mask acc,
  rev_loop fuel s mask (foldr rev_round v acc) = foldr rev_round v (rounds fuel s mask acc).
Proof.
  induction fuel as [|fuel IH]; intros s mask acc; cbn [rev_loop rounds]; [done|].
  destruct (_ >? 0); [|done]. by rewrite <- IH.
Qed.

Lemma rev_unfold v : rev v = foldr rev_round v rev_rounds.
Proof. unfold rev. rewrite (rev_loop_rounds v 8 64 _ []). f_equal. Qed.

Lemma testbit_u64 x i : 0 ≤ i → Z.testbit (u64 x) i = (i <? 64) && Z.testbit x i.
Proof.
  intros. unfold uwrap. destruct (Z.ltb_spec i 64).
  - rewrite Z.mod_pow2_bits_low; [done|lia].
  - rewrite Z.mod_pow2_bits_high; [done|lia].
Qed.

Lemma testbit_not64 x i : 0 ≤ i → Z.testbit (not64 x) i = (i <? 64) && negb (Z.testbit x i).
Proof. intros. unfold not64. rewrite testbit_u64 by done. by rewrite Z.lnot_spec. Qed.

Lemma rev_round_testbit p v i :
  0 ≤ i < 64 → 0 ≤ p.1 → 0 ≤ rev_from p i →
  Z.testbit (rev_round p v) i = Z.testbit v (rev_from p i).
Proof.
  intros Hi Hp. unfold rev_round, rev_from.
  rewrite Z.lor_spec, !Z.land_spec, Z.shiftr_spec, testbit_u64, testbit_not64, Z.shiftl_spec by lia.
  rewrite (proj2 (Z.ltb_lt i 64)) by lia.
  destruct (Z.testbit p.2 i); intros; cbn [negb andb]; by rewrite ?andb_false_r, ?andb_true_r, ?orb_false_r.
Qed.

Fixpoint rev_ok (l : list (Z * Z)) (i j : Z) : bool :=
  match l with
  | [] => i =? j
  | p :: l => (0 <=? p.1) && (0 <=? rev_from p i) && (rev_from p i <? 64) && rev_ok l (rev_from p i) j
  end.

Lemma rev_ok_testbit l v : ∀ i j,
  0 ≤ i < 64 → rev_ok l i j = true → Z.testbit (foldr rev_round v l) i = Z.testbit v j.
Proof.
  induction l as [|p l IH]; intros i j Hi; cbn [rev_ok foldr].
  - by intros ->%Z.eqb_eq.
  - rewrite !andb_true_iff, !Z.leb_le, Z.ltb_lt. intros [[[? ?] ?] ?].
    rewrite rev_round_testbit by done. apply IH; [lia|done].
Qed.

Lemma rev_testbit v i : 0 ≤ i < 64 → Z.testbit (rev v) i = Z.testbit v (63 - i).
Proof.
  intros Hi. rewrite rev_unfold. apply rev_ok_testbit; [done|].
  assert (forallb (λ n, rev_ok rev_rounds (Z.of_nat n) (63 - Z.of_nat n)) (seq 0 64) = true) as Hall
    by (vm_compute; reflexivity).
  rewrite forallb_forall in Hall. specialize (Hall (Z.to_nat i)).
  rewrite Z2Nat.id in Hall by lia. apply Hall, in_seq. lia.
Qed.

Lemma u64_testbit_high v i : 0 ≤ v < 2 ^ 64 → 64 ≤ i → Z.testbit v i = false.
Proof. intros Hv Hi. rewrite <- (uwrap_small 64 v Hv), testbit_u64 by lia. by destruct (Z.ltb_spec i 64); [lia|]. Qed.

(** Two [unsigned long]s with the same 64 bits. *)
Lemma u64_bits a b :
  0 ≤ a < 2 ^ 64 → 0 ≤ b < 2 ^ 64 → (∀ i, 0 ≤ i < 64 → Z.testbit a i = Z.testbit b i) → a = b.
Proof.
  intros Ha Hb Hab. apply Z.bits_inj'. intros i Hi. destruct (decide (i < 64)); [apply Hab; lia|].
  by rewrite !u64_testbit_high by lia.
Qed.

Lemma bound_of_bits a : (∀ i, 64 ≤ i → Z.testbit a i = false) → 0 ≤ a < 2 ^ 64.
Proof.
  intros Ha. replace a with (u64 a); [apply uwrap_bound; lia|].
  apply Z.bits_inj'. intros i Hi. rewrite testbit_u64 by done.
  destruct (Z.ltb_spec i 64); [done|]. symmetry. by apply Ha.
Qed.

Lemma rev_bound v : 0 ≤ rev v < 2 ^ 64.
Proof.
  apply bound_of_bits. intros i Hi. rewrite rev_unfold. unfold rev_rounds. cbn [foldr].
  unfold rev_round at 1. cbn [fst snd].
  rewrite Z.lor_spec, !Z.land_spec, testbit_u64, (u64_testbit_high 0x5555555555555555) by lia.
  rewrite (proj2 (Z.ltb_ge i 64)) by lia. by rewrite andb_false_r.
Qed.

Lemma rev_involutive v : 0 ≤ v < 2 ^ 64 → rev (rev v) = v.
Proof.
  intros Hv. apply u64_bits; [apply rev_bound|done|]. intros i Hi.
  rewrite !rev_testbit by lia. f_equal. lia.
Qed.

Lemma rev_0 : rev 0 = 0.
Proof. vm_compute. reflexivity. Qed.

(** The low [k] bits of [v] are the high [k] bits of [rev v]. *)
Lemma rev_high_testbit v k i :
  0 ≤ k ≤ 64 → 0 ≤ i → Z.testbit (rev v / 2 ^ (64 - k)) i = (i <? k) && Z.testbit v (k - 1 - i).
Proof.
  intros Hk Hi. rewrite <- Z.shiftr_div_pow2, Z.shiftr_spec by lia.
  destruct (Z.ltb_spec i k).
  - rewrite rev_testbit by lia. cbn [andb]. f_equal. lia.
  - apply u64_testbit_high; [apply rev_bound|lia].
Qed.

Lemma rev_div_of_mod v w k :
  0 ≤ k ≤ 64 → v mod 2 ^ k = w mod 2 ^ k → rev v / 2 ^ (64 - k) = rev w / 2 ^ (64 - k).
Proof.
  intros Hk E. apply Z.bits_inj'. intros i Hi. rewrite !rev_high_testbit by done.
  destruct (Z.ltb_spec i k); cbn [andb]; [|done].
  rewrite <- (Z.mod_pow2_bits_low v k), E, Z.mod_pow2_bits_low by lia. done.
Qed.

Lemma rev_mod_of_div v w k :
  0 ≤ k ≤ 64 → rev v / 2 ^ (64 - k) = rev w / 2 ^ (64 - k) → v mod 2 ^ k = w mod 2 ^ k.
Proof.
  intros Hk E. apply Z.bits_inj'. intros i Hi. destruct (decide (i < k)).
  - rewrite !Z.mod_pow2_bits_low by lia. pose proof (f_equal (λ x, Z.testbit x (k - 1 - i)) E) as Eb.
    cbn beta in Eb. rewrite !rev_high_testbit in Eb by lia.
    rewrite (proj2 (Z.ltb_lt _ _)) in Eb by lia. cbn [andb] in Eb.
    by replace (k - 1 - (k - 1 - i)) with i in Eb by lia.
  - by rewrite !Z.mod_pow2_bits_high by lia.
Qed.

(** A cursor whose reversal is a multiple of [2^(64-k)] is an index of a
    table of [2^k] buckets. *)
Lemma rev_aligned_bound v k :
  0 ≤ k ≤ 64 → 0 ≤ v < 2 ^ 64 → rev v mod 2 ^ (64 - k) = 0 → 0 ≤ v < 2 ^ k.
Proof.
  intros Hk Hv Hm. replace v with (v mod 2 ^ k); [apply Z.mod_pos_bound; lia|].
  apply Z.bits_inj'. intros i Hi. destruct (decide (i < k)).
  - by rewrite Z.mod_pow2_bits_low by lia.
  - rewrite Z.mod_pow2_bits_high by lia. symmetry. destruct (decide (i < 64)).
    + rewrite <- (rev_involutive v Hv), rev_testbit by lia.
      rewrite <- (Z.mod_pow2_bits_low (rev v) (64 - k)) by lia. rewrite Hm. apply Z.testbit_0_l.
    + by apply u64_testbit_high; [|lia].
Qed.

(** [v | ~m0]: the low [k] bits are those of [v], the others are set. *)
Lemma set_unmasked_testbit v k i :
  0 ≤ k → 0 ≤ i < 64 →
  Z.testbit (Z.lor v (not64 (2 ^ k - 1))) i = Z.testbit v i || (k <=? i).
Proof.
  intros Hk Hi. rewrite Z.lor_spec, testbit_not64, Z.sub_1_r, <- Z.ones_equiv by lia.
  rewrite (proj2 (Z.ltb_lt i 64)) by lia. cbn [andb]. f_equal. destruct (Z.leb_spec k i).
  - by rewrite Z.ones_spec_high by lia.
  - by rewrite Z.ones_spec_low by lia.
Qed.

(** The next cursor, reversed: the next multiple of [2^(64-k)]. *)
Lemma next_cursor_rev v k :
  0 ≤ k ≤ 64 → rev (next_cursor v (2 ^ k - 1)) = u64 ((rev v / 2 ^ (64 - k) + 1) * 2 ^ (64 - k)).
Proof.
  intros Hk. unfold next_cursor. rewrite rev_involutive by (apply uwrap_bound; lia). f_equal.
  set (x := Z.lor v _).
  assert (rev x / 2 ^ (64 - k) = rev v / 2 ^ (64 - k)) as Hd.
  { apply rev_div_of_mod; [done|]. apply Z.bits_inj'. intros i Hi. destruct (decide (i < k)).
    - rewrite !Z.mod_pow2_bits_low by lia. unfold x. rewrite set_unmasked_testbit by lia.
      rewrite (proj2 (Z.leb_gt _ _)) by lia. apply orb_false_r.
    - by rewrite !Z.mod_pow2_bits_high by lia. }
  assert (rev x mod 2 ^ (64 - k) = Z.ones (64 - k)) as Hm.
  { apply Z.bits_inj'. intros i Hi. destruct (decide (i < 64 - k)).
    - rewrite Z.mod_pow2_bits_low, Z.ones_spec_low, rev_testbit by lia. unfold x.
      rewrite set_unmasked_testbit by lia. rewrite (proj2 (Z.leb_le _ _)) by lia. apply orb_true_r.
    - by rewrite Z.mod_pow2_bits_high, Z.ones_spec_high by lia. }
  pose proof (Z.div_mod (rev x) (2 ^ (64 - k)) ltac:(lia)) as E.
  rewrite Hd, Hm, Z.ones_equiv in E. lia.
Qed.

Lemma next_cursor_bound v m : 0 ≤ next_cursor v m < 2 ^ 64.
Proof. apply rev_bound. Qed.

Lemma next_cursor_mod v w k :
  0 ≤ k ≤ 64 → v mod 2 ^ k = w mod 2 ^ k → next_cursor v (2 ^ k - 1) = next_cursor w (2 ^ k - 1).
Proof.
  intros Hk E. rewrite <- (rev_involutive (next_cursor v _)) by apply next_cursor_bound.
  rewrite <- (rev_involutive (next_cursor w _)) by apply next_cursor_bound.
  rewrite !next_cursor_rev by done. by rewrite (rev_div_of_mod v w k).
Qed.

(** ** The expansions of a cursor *)

Section expansion.
Context (k0 k1 : Z) (Hk0 : 0 ≤ k0) (Hk : k0 ≤ k1) (Hk1 : k1 ≤ 31).

Lemma mask_diff : Z.lxor (2 ^ k0 - 1) (2 ^ k1 - 1) = Z.shiftl (Z.ones (k1 - k0)) k0.
Proof.
  apply Z.bits_inj'. intros i Hi. rewrite Z.lxor_spec, Z.shiftl_spec, !testbit_mask by lia.
  destruct (Z.ltb_spec i k0).
  - rewrite (proj2 (Z.ltb_lt i k1)), Z.testbit_neg_r by lia. done.
  - rewrite Z.testbit_ones_nonneg by lia. cbn [xorb].
    destruct (Z.ltb_spec i k1), (Z.ltb_spec (i - k0) (k1 - k0)); done || lia.
Qed.

Lemma land_mask_diff v :
  Z.land v (Z.lxor (2 ^ k0 - 1) (2 ^ k1 - 1)) = (v / 2 ^ k0) mod 2 ^ (k1 - k0) * 2 ^ k0.
Proof.
  rewrite mask_diff, <- Z.land_ones, <- Z.shiftr_div_pow2, <- Z.shiftl_mul_pow2 by lia.
  apply Z.bits_inj'. intros i Hi. rewrite Z.land_spec, !Z.shiftl_spec, Z.land_spec by lia.
  destruct (decide (i < k0)).
  - rewrite !(Z.testbit_neg_r _ (i - k0)) by lia. by rewrite !andb_false_r.
  - rewrite Z.shiftr_spec by lia. by replace (i - k0 + k0) with i by lia.
Qed.

Lemma land_not_mask x : 0 ≤ x * 2 ^ k0 < 2 ^ 64 → Z.land (x * 2 ^ k0) (not64 (2 ^ k0 - 1)) = x * 2 ^ k0.
Proof.
  intros Hx. apply Z.bits_inj'. intros i Hi.
  rewrite Z.land_spec, testbit_not64, testbit_mask by lia. destruct (Z.ltb_spec i 64).
  - destruct (Z.ltb_spec i k0); cbn [andb negb]; [by rewrite Z.mul_pow2_bits_low by lia|apply andb_true_r].
  - by rewrite u64_testbit_high by lia.
Qed.

(** [v = (((v | m0) + 1) & ~m0) | (v & m0)] adds one above the small mask. *)
Lemma expansion_next j v0 :
  0 ≤ v0 < 2 ^ k0 → 0 ≤ j < 2 ^ (k1 - k0) →
  let v := v0 + j * 2 ^ k0 in
  Z.lor (Z.land (u64 (Z.lor v (2 ^ k0 - 1) + 1)) (not64 (2 ^ k0 - 1))) (Z.land v (2 ^ k0 - 1)) =
  v0 + (j + 1) * 2 ^ k0.
Proof.
  intros Hv Hj v.
  assert (2 ^ k1 = 2 ^ (k1 - k0) * 2 ^ k0) as Ek by (rewrite <- Z.pow_add_r by lia; f_equal; lia).
  assert (2 ^ k1 ≤ 2 ^ 31) by (apply Z.pow_le_mono_r; lia).
  assert (v = Z.lor (j * 2 ^ k0) v0) as Ev by (rewrite lor_low by lia; lia).
  assert (Z.lor v0 (2 ^ k0 - 1) = 2 ^ k0 - 1) as E0.
  { apply Z.bits_inj'. intros i Hi. rewrite Z.lor_spec, testbit_mask by lia.
    destruct (Z.ltb_spec i k0); [apply orb_true_r|].
    rewrite <- (Z.mod_small v0 (2 ^ k0)), Z.mod_pow2_bits_high by lia. done. }
  assert (Z.lor v (2 ^ k0 - 1) + 1 = (j + 1) * 2 ^ k0) as ->.
  { rewrite Ev, <- Z.lor_assoc, E0, lor_low by lia. lia. }
  rewrite land_mask by lia. unfold v at 1. rewrite Z.mod_add, (Z.mod_small v0) by lia.
  rewrite uwrap_small, land_not_mask, lor_low; nia.
Qed.
End expansion.

(** ** One call *)

Section scan_lemmas.
Context {K V A : Type} `{EqDecision K} `{Countable A} (type : dictType K V) (kabs : K → A).
Context `{!DictLaws type kabs}.
Implicit Types (d : dict K V) (e : dictEntry K V).

Lemma expansion_loop_ok t1 b k0 k1 v0 fuel : ∀ j,
  ht_ok type t1 b → len b = 2 ^ k1 → 0 ≤ k0 ≤ k1 → k1 ≤ 31 → 0 ≤ v0 < 2 ^ k0 →
  0 ≤ j < 2 ^ (k1 - k0) → 2 ^ (k1 - k0) - j ≤ Z.of_nat fuel →
  ∃ out v', expansion_loop fuel t1 (2 ^ k0 - 1) (2 ^ k1 - 1) (v0 + j * 2 ^ k0) = Some (out, v') ∧
    v' mod 2 ^ k0 = v0 ∧ out ⊆ ht_entries t1 ∧
    (∀ i c, Z.of_nat i mod 2 ^ k0 = v0 → j ≤ Z.of_nat i / 2 ^ k0 → b !! i = Some c → c ⊆ out).
Proof.
  induction fuel as [|fuel IH]; intros j Hok Hb Hk0 Hk1 Hv0 Hj Hf; [lia|]. cbn [expansion_loop].
  assert (2 ^ k1 = 2 ^ (k1 - k0) * 2 ^ k0) as Ek by (rewrite <- Z.pow_add_r by lia; f_equal; lia).
  rewrite (expansion_next k0 k1), land_mask_diff, land_mask by lia.
  set (v := v0 + j * 2 ^ k0). assert (0 ≤ v < 2 ^ k1) as Hv by (unfold v; nia).
  rewrite (Z.mod_small v) by done.
  destruct (lookup_lt_is_Some_2 b (Z.to_nat v)) as [c Hc]; [lia|].
  assert (get_bucket t1 v = Some c) as ->.
  { rewrite <- Hc, <- (get_bucket_ok _ _ _ _ Hok). f_equal. lia. }
  bsimpl.
  assert (c ⊆ ht_entries t1) as Hct.
  { rewrite (ht_ok_entries _ _ _ Hok). intros e He. apply list_elem_of_join. exists c.
    split; [done|]. by eapply list_elem_of_lookup_2. }
  rewrite Z.div_add, (Z.div_small v0), Z.add_0_l by lia.
  assert (∀ i c', Z.of_nat i mod 2 ^ k0 = v0 → j ≤ Z.of_nat i / 2 ^ k0 → b !! i = Some c' →
    c' = c ∨ (j + 1 ≤ Z.of_nat i / 2 ^ k0 ∧ j + 1 < 2 ^ (k1 - k0))) as Hcase.
  { intros i c' Hi Hji Hl. pose proof (Z.div_mod (Z.of_nat i) (2 ^ k0) ltac:(lia)) as Hdm.
    destruct (decide (Z.of_nat i / 2 ^ k0 = j)) as [Hq|Hq].
    - left. assert (i = Z.to_nat v) as -> by (unfold v; lia). congruence.
    - right. split; [lia|]. apply lookup_lt_Some in Hl.
      assert (Z.of_nat i / 2 ^ k0 < 2 ^ (k1 - k0)) by (apply Z.div_lt_upper_bound; lia). lia. }
  destruct (decide (j + 1 < 2 ^ (k1 - k0))) as [Hlt|Hge].
  - rewrite Z.mod_small by lia. rewrite (proj2 (Z.eqb_neq _ 0)) by nia. cbn [negb].
    destruct (IH (j + 1)) as (out & v' & -> & Hv' & Hs & Hcov); [done..|lia|lia|].
    bsimpl. exists (c ++ out), v'. split; [done|]. split; [done|].
    split; [by apply list_subseteq_app_iff_l|].
    intros i c' Hi Hji Hl. destruct (Hcase i c' Hi Hji Hl) as [-> | [Hj1 _]].
    + by apply list_subseteq_app_l.
    + apply list_subseteq_app_r. by apply (Hcov i).
  - replace (j + 1) with (1 * 2 ^ (k1 - k0)) by lia. rewrite Z.mod_mul, Z.mul_0_l by lia.
    cbn [negb Z.eqb]. exists c, (v0 + 1 * 2 ^ (k1 - k0) * 2 ^ k0). split; [done|].
    rewrite Z.mod_add, Z.mod_small by lia. split; [done|]. split; [done|].
    intros i c' Hi Hji Hl. destruct (Hcase i c' Hi Hji Hl) as [-> | [_ ?]]; [done|lia].
Qed.

Lemma entry_bucket h b e k :
  ht_ok type h b → len b = 2 ^ k → 0 ≤ k → e ∈ ht_entries h →
  ∃ i c, b !! i = Some c ∧ e ∈ c ∧ Z.of_nat i = dictHashKey type (key e) mod 2 ^ k.
Proof.
  intros Hok Hb Hk He. rewrite (ht_ok_entries _ _ _ Hok) in He.
  apply list_elem_of_join in He as (c & He & Hc). apply list_elem_of_lookup in Hc as (i & Hi).
  exists i, c. split; [done|]. split; [done|].
  rewrite <- (ok_place _ _ _ Hok i c e Hi He), (ok_mask _ _ _ Hok), Hb. by rewrite land_mask.
Qed.

Lemma bucket_at h b v k :
  ht_ok type h b → len b = 2 ^ k → 0 ≤ k →
  ∃ c, get_bucket h (Z.land v (sizemask h)) = Some c ∧ b !! Z.to_nat (v mod 2 ^ k) = Some c ∧
    c ⊆ ht_entries h.
Proof.
  intros Hok Hb Hk. destruct (hash_bucket type h b v Hok) as (i & c & Hi & Hc & Hg).
  exists c. split; [done|]. rewrite (ok_mask _ _ _ Hok), Hb, land_mask in Hi by done.
  rewrite Hi, Nat2Z.id. split; [done|]. rewrite (ht_ok_entries _ _ _ Hok).
  intros e He. apply list_elem_of_join. exists c. split; [done|]. by eapply list_elem_of_lookup_2.
Qed.

(** What a call emits from the two tables, the smaller first. *)
Lemma scan_tables_ok h0 h1 b0 b1 k0 k1 v :
  ht_ok type h0 b0 → ht_ok type h1 b1 → len b0 = 2 ^ k0 → len b1 = 2 ^ k1 →
  0 ≤ k0 ≤ k1 → k1 ≤ 31 → 0 ≤ v < 2 ^ k0 →
  ∃ out, (de ← get_bucket h0 (Z.land v (sizemask h0));
          '(out, v) ← expansion_loop (Z.to_nat (size_ h1)) h1 (sizemask h0) (sizemask h1) v;
          Some (de ++ out, next_cursor v (sizemask h0))) = Some (out, next_cursor v (2 ^ k0 - 1)) ∧
    out ⊆ ht_entries h0 ++ ht_entries h1 ∧
    ∀ e, e ∈ ht_entries h0 ++ ht_entries h1 → dictHashKey type (key e) mod 2 ^ k0 = v → e ∈ out.
Proof.
  intros Hok0 Hok1 Hb0 Hb1 Hk Hk1 Hv.
  assert (2 ^ k1 = 2 ^ (k1 - k0) * 2 ^ k0) as Ek by (rewrite <- Z.pow_add_r by lia; f_equal; lia).
  destruct (bucket_at h0 b0 v k0 Hok0 Hb0) as (c & Hg & Hc & Hsub); [lia|].
  destruct (expansion_loop_ok h1 b1 k0 k1 v (Z.to_nat (size_ h1)) 0) as (out & v' & E & Hv' & Hs & Hcov);
    [done..|lia|rewrite (ok_size _ _ _ Hok1), Hb1; nia|].
  rewrite Z.mul_0_l, Z.add_0_r in E. exists (c ++ out).
  rewrite Hg. bsimpl. rewrite (ok_mask _ _ _ Hok0), (ok_mask _ _ _ Hok1), Hb0, Hb1, E.
  bsimpl. rewrite (next_cursor_mod v' v k0) by (rewrite ?Hv', ?Z.mod_small; lia).
  split; [done|]. split; [set_solver|].
  intros e [He|He]%elem_of_app Hh; apply elem_of_app.
  - left. destruct (entry_bucket h0 b0 e k0 Hok0 Hb0) as (i & c' & Hi & He' & Ei); [lia|done|].
    rewrite Z.mod_small, <- Hh, <- Ei, Nat2Z.id in Hc by lia. by simplify_eq.
  - right. destruct (entry_bucket h1 b1 e k1 Hok1 Hb1) as (i & c' & Hi & He' & Ei); [lia|done|].
    apply (Hcov i c'); [|apply Z.div_pos; lia|done|done].
    rewrite Ei, Z.mod_mod_divide; [done|]. exists (2 ^ (k1 - k0)). lia.
Qed.

Lemma size_nonzero d e : dict_wf type kabs d → e ∈ dict_entries d → dictSize d ≠ 0.
Proof.
  intros Hwf He Hz. pose proof (wf_count _ _ _ Hwf) as Hc. unfold dict_entries in *.
  rewrite length_app in Hc. unfold dictSize in Hz.
  assert (∀ h, h = _dictReset ∨ (∃ b, ht_ok type h b) → used h = len (ht_entries h)) as Hu.
  { intros h [-> | [t Ht]]; [done|]. by eapply ht_ok_used. }
  rewrite !Hu in Hz by (destruct (wf_tables _ _ _ Hwf) as [(_ & ? & [? | ?])|(t0 & t1 & ? & ? & _)]; eauto).
  rewrite uwrap_small in Hz by lia.
  destruct (ht_entries (ht0 d)), (ht_entries (ht1 d)); simpl in *; [by apply elem_of_nil in He|lia..].
Qed.

Lemma size_zero_at_rest d : ht0 d = _dictReset → ht1 d = _dictReset → dictSize d = 0.
Proof. intros E0 E1. unfold dictSize. by rewrite E0, E1. Qed.

(** One call on a non-empty dictionary: every entry whose hash agrees with the
    cursor on the bits of the mask is emitted, from whichever table. *)
Lemma dictScan_ok d v :
  dict_wf type kabs d → dictSize d ≠ 0 →
  ∃ k, 2 ≤ k ≤ 31 ∧ scan_mask d = 2 ^ k - 1 ∧
    (0 ≤ v < 2 ^ k →
     ∃ out, dictScan d v = Some (out, next_cursor v (2 ^ k - 1)) ∧ out ⊆ dict_entries d ∧
       ∀ e, e ∈ dict_entries d → dictHashKey type (key e) mod 2 ^ k = v → e ∈ out).
Proof.
  intros Hwf Hsz. unfold dictScan, scan_mask. rewrite (proj2 (Z.eqb_neq _ 0) Hsz).
  destruct (dictIsRehashing d) eqn:Er; cbn [negb].
  - destruct (wf_is_rehashing type kabs d Hwf Er) as (t0 & t1 & Hok0 & Hok1 & _).
    destruct (ok_pow _ _ _ Hok0) as (k0 & Hk0 & Hl0), (ok_pow _ _ _ Hok1) as (k1 & Hk1 & Hl1).
    rewrite Z.gtb_ltb, (ok_size _ _ _ Hok0), (ok_size _ _ _ Hok1), (ok_mask _ _ _ Hok0), (ok_mask _ _ _ Hok1).
    rewrite Hl0, Hl1. destruct (Z.ltb_spec (2 ^ k1) (2 ^ k0)) as [Hlt|Hge].
    + pose proof Hlt as Hlk. apply Z.pow_lt_mono_r_iff in Hlk; [|lia..]. exists k1.
      split; [done|]. split; [lia|]. intros Hv.
      destruct (scan_tables_ok (ht1 d) (ht0 d) t1 t0 k1 k0 v) as (out & E & Hs & Hcov); [done..|lia|lia|done|].
      rewrite (ok_size _ _ _ Hok0), (ok_mask _ _ _ Hok0), (ok_mask _ _ _ Hok1), Hl0, Hl1 in E.
      cbn beta iota. rewrite (ok_size _ _ _ Hok0), (ok_mask _ _ _ Hok0), (ok_mask _ _ _ Hok1), Hl0, Hl1.
      exists out. split; [done|]. unfold dict_entries. split; [set_solver|]. intros e He. apply Hcov. set_solver.
    + pose proof Hge as Hgk. apply Z.pow_le_mono_r_iff in Hgk; [|lia..]. exists k0.
      split; [done|]. split; [lia|]. intros Hv.
      destruct (scan_tables_ok (ht0 d) (ht1 d) t0 t1 k0 k1 v) as (out & E & Hs & Hcov); [done..|lia|lia|done|].
      rewrite (ok_size _ _ _ Hok1), (ok_mask _ _ _ Hok0), (ok_mask _ _ _ Hok1), Hl0, Hl1 in E.
      cbn beta iota. rewrite (ok_size _ _ _ Hok1), (ok_mask _ _ _ Hok0), (ok_mask _ _ _ Hok1), Hl0, Hl1.
      by exists out.
  - destruct (wf_not_rehashing type kabs d Hwf Er) as (_ & E1 & [E0|[t Hok]]).
    { by destruct Hsz; apply size_zero_at_rest. }
    destruct (ok_pow _ _ _ Hok) as (k & Hk & Hl). exists k.
    rewrite (ok_mask _ _ _ Hok), Hl. split; [done|]. split; [done|]. intros Hv.
    destruct (bucket_at (ht0 d) t v k Hok Hl) as (c & Hg & Hc & Hs); [lia|].
    rewrite (ok_mask _ _ _ Hok), Hl in Hg. rewrite Hg. bsimpl.
    exists c. split; [done|]. unfold dict_entries. rewrite E1.
    split; [set_solver|]. intros e [He|He]%elem_of_app Hh; [|by apply elem_of_nil in He].
    destruct (entry_bucket (ht0 d) t e k Hok Hl) as (i & c' & Hi & He' & Ei); [lia|done|].
    rewrite Z.mod_small, <- Hh, <- Ei, Nat2Z.id in Hc by lia. by simplify_eq.
Qed.

(** ** Many calls *)

(** The cursor is where the buckets of every table to come begin. *)
Definition aligned (v : Z) d : Prop :=
  ∀ k, 2 ≤ k ≤ 31 → scan_mask d = 2 ^ k - 1 → rev v mod 2 ^ (64 - k) = 0.

Lemma pow64_split k : 0 ≤ k ≤ 64 → 2 ^ 64 = 2 ^ k * 2 ^ (64 - k).
Proof. intros. rewrite <- Z.pow_add_r by lia. f_equal. lia. Qed.

Lemma aligned_next v k d :
  0 ≤ k ≤ 64 → 2 ^ k - 1 ≤ scan_mask d → aligned (next_cursor v (2 ^ k - 1)) d.
Proof.
  intros Hk Hle k' Hk' E. rewrite E in Hle. assert (2 ^ k ≤ 2 ^ k') as Hp by lia.
  apply Z.pow_le_mono_r_iff in Hp; [|lia..]. rewrite next_cursor_rev by done.
  unfold uwrap. rewrite Z.mod_mod_divide by (exists (2 ^ k'); apply pow64_split; lia).
  replace (2 ^ (64 - k)) with (2 ^ (k' - k) * 2 ^ (64 - k')) by (rewrite <- Z.pow_add_r by lia; f_equal; lia).
  rewrite Z.mul_assoc. apply Z.mod_mul. lia.
Qed.

Lemma aligned_0 d : aligned 0 d.
Proof. intros k Hk _. rewrite rev_0. apply Z.mod_0_l. lia. Qed.

(** A hash at or after the cursor is in the bucket at the cursor, or else the
    cursor moves on without wrapping around, and stays at or before it. *)
Lemma cursor_progress v h k :
  2 ≤ k ≤ 31 → 0 ≤ v < 2 ^ k → rev v mod 2 ^ (64 - k) = 0 → rev v ≤ rev h →
  h mod 2 ^ k = v ∨
  (rev (next_cursor v (2 ^ k - 1)) ≤ rev h ∧ next_cursor v (2 ^ k - 1) ≠ 0).
Proof.
  intros Hk Hv Ha Hle. pose proof (rev_bound h) as Hh. pose proof (rev_bound v) as Hrv.
  pose proof (Z.div_mod (rev v) (2 ^ (64 - k)) ltac:(lia)) as Ev. rewrite Ha in Ev.
  destruct (decide (rev h / 2 ^ (64 - k) = rev v / 2 ^ (64 - k))) as [E|Hne].
  - left. apply rev_mod_of_div in E; [|lia]. by rewrite (Z.mod_small v) in E.
  - right. assert (rev v / 2 ^ (64 - k) + 1 ≤ rev h / 2 ^ (64 - k)) as Hq.
    { pose proof (Z.div_le_mono _ _ (2 ^ (64 - k)) ltac:(lia) Hle). lia. }
    assert ((rev v / 2 ^ (64 - k) + 1) * 2 ^ (64 - k) ≤ rev h) as Hn.
    { pose proof (Z.mul_div_le (rev h) (2 ^ (64 - k)) ltac:(lia)). nia. }
    pose proof (Z.div_pos (rev v) (2 ^ (64 - k)) ltac:(lia) ltac:(lia)).
    pose proof (next_cursor_rev v k ltac:(lia)) as Er. rewrite uwrap_small in Er by nia.
    rewrite Er. split; [done|]. intros E0. rewrite E0, rev_0 in Er. nia.
Qed.

Definition has_key (a : A) d : Prop := is_Some (dict_map kabs d !! a).

Lemma has_key_entry a d : has_key a d → ∃ e, e ∈ dict_entries d ∧ kabs (key e) = a.
Proof.
  intros [x Hx]. unfold dict_map in Hx. apply elem_of_list_to_map_2, list_elem_of_fmap in Hx.
  destruct Hx as (e & [= -> ->] & He). by exists e.
Qed.

(** What a scan from cursor [v] promises of a key [a]. *)
Definition promised (ds : list (dict K V)) (v v' : Z) (out : list (dictEntry K V)) : Prop :=
  ds ≠ [] → v' = 0 → ∀ a k0, kabs k0 = a → rev v ≤ rev (dictHashKey type k0) →
  Forall (has_key a) ds → ∃ e, e ∈ out ∧ kabs (key e) = a.

Lemma scan_all_ok ds : ∀ v,
  Forall (dict_wf type kabs) ds → StronglySorted Z.le (scan_mask <$> ds) →
  0 ≤ v < 2 ^ 64 → Forall (aligned v) ds →
  ∃ out v', scan_all ds v = Some (out, v') ∧
    (∀ e, e ∈ out → ∃ d, d ∈ ds ∧ e ∈ dict_entries d) ∧ promised ds v v' out.
Proof.
  induction ds as [|d ds IH]; intros v Hwf Hs Hv Ha; cbn [scan_all].
  { exists [], v. split; [done|]. split; [by intros ? ?%elem_of_nil|]. by intros ?. }
  apply Forall_cons in Hwf as [Hwf Hwfs], Ha as [Ha Has]. rewrite fmap_cons in Hs.
  apply StronglySorted_cons in Hs as [Hmin Hs]. rewrite Forall_fmap in Hmin.
  destruct (decide (dictSize d = 0)) as [Hz|Hnz].
  - assert (dictScan d v = Some ([], 0)) as -> by (unfold dictScan; by rewrite Hz).
    destruct (IH 0) as (out & v' & E & Hin & _); [done|done|lia|apply Forall_true, aligned_0|].
    bsimpl. rewrite E. exists out, v'. split; [done|].
    split; [set_solver|]. intros _ _ a k0 _ _ [Hk _]%Forall_cons.
    apply has_key_entry in Hk as (e & He & _). by destruct (size_nonzero d e Hwf He).
  - destruct (dictScan_ok d v Hwf Hnz) as (k & Hk & Hm & Hstep).
    assert (0 ≤ v < 2 ^ k) as Hvk by (apply rev_aligned_bound; [lia|done|by apply Ha]).
    destruct (Hstep Hvk) as (out & -> & Hsub & Hcov).
    destruct (IH (next_cursor v (2 ^ k - 1))) as (outs & v' & E & Hin & Hpr);
      [done|done|apply next_cursor_bound| |].
    { eapply Forall_impl; [exact Hmin|]. intros d' Hd'. cbn in Hd'. apply aligned_next; [lia|]. by rewrite <- Hm. }
    bsimpl. rewrite E. exists (out ++ outs), v'. split; [done|]. split.
    { intros e [He|He]%elem_of_app; [|set_solver]. exists d. set_solver. }
    intros _ Hv' a k0 Hk0 Hle [Hd Hds]%Forall_cons.
    destruct (has_key_entry a d Hd) as (e & He & Hea).
    destruct (cursor_progress v (dictHashKey type k0) k) as [Hhit|[Hnext Hn0]]; [done..|by apply Ha|done| |].
    + exists e. split; [|done]. apply elem_of_app. left. apply Hcov; [done|].
      rewrite <- Hhit. f_equal. apply hash_abs. congruence.
    + destruct (Hpr) with (a := a) (k0 := k0) as (e' & He' & Hea'); [|done..|].
      * intros ->. cbn [scan_all] in E. apply Hn0. congruence.
      * exists e'. split; [|done]. apply elem_of_app. by right.
Qed.

(** Calls on tables of one size: the cursor counts the buckets. *)
Lemma scan_all_cursor k ds : ∀ n v,
  2 ≤ k ≤ 31 → Forall (λ d, dict_wf type kabs d ∧ dictSize d ≠ 0 ∧ scan_mask d = 2 ^ k - 1) ds →
  0 ≤ v < 2 ^ 64 → rev v = n * 2 ^ (64 - k) → 0 ≤ n → n + len ds ≤ 2 ^ k →
  ∃ out v', scan_all ds v = Some (out, v') ∧ 0 ≤ v' < 2 ^ 64 ∧ rev v' = u64 ((n + len ds) * 2 ^ (64 - k)).
Proof.
  intros n v Hk. revert n v. induction ds as [|d ds IH]; intros n v Hds Hv Hr Hn Hl; cbn [scan_all].
  { exists [], v. split; [done|]. split; [done|]. rewrite Z.add_0_r, <- Hr.
    rewrite uwrap_small; [done|]. apply rev_bound. }
  apply Forall_cons in Hds as [(Hwf & Hnz & Hm) Hds].
  destruct (dictScan_ok d v Hwf Hnz) as (k' & Hk' & Hm' & Hstep).
  assert (k' = k) as -> by (rewrite Hm in Hm'; apply (Z.pow_inj_r 2); lia).
  assert (rev v mod 2 ^ (64 - k) = 0) as Ha by (rewrite Hr; apply Z.mod_mul; lia).
  destruct Hstep as (out & -> & _); [by apply rev_aligned_bound; [lia|..]|].
  pose proof (next_cursor_rev v k ltac:(lia)) as E. rewrite Hr, Z.div_mul in E by lia.
  cbn [length] in Hl. bsimpl. destruct ds as [|d' ds'].
  - cbn [scan_all mbind option_bind]. eexists _, _. split; [done|]. split; [apply next_cursor_bound|].
    by rewrite E.
  - pose proof (pow64_split k ltac:(lia)). rewrite uwrap_small in E by (cbn [length] in Hl; nia).
    destruct (IH (n + 1) _ Hds (next_cursor_bound _ _) E) as (outs & v' & -> & Hv' & Er); [lia..|].
    bsimpl. eexists _, v'. split; [done|]. split; [done|]. rewrite Er. f_equal. cbn [length]. lia.
Qed.
End scan_lemmas.

(** ** The guarantees of a scan *)

Section scan_theorems.
Context {K V A : Type} `{EqDecision K} `{Countable A} (type : dictType K V) (kabs : K → A).
Context `{!DictLaws type kabs}.

(** C29. A scan started at cursor 0 never fails and emits only entries of the
    dictionary; if the dictionary changes arbitrarily between the calls (keys
    added and deleted, a resize started, progressing or ended) but its smaller
    table never shrinks, then when the cursor comes back as 0 every key that
    was there at every call has been emitted. *)
Theorem dictScan_complete ds :
  Forall (dict_wf type kabs) ds → StronglySorted Z.le (scan_mask <$> ds) →
  ∃ out v', scan_all ds 0 = Some (out, v') ∧
    (∀ e, e ∈ out → ∃ d, d ∈ ds ∧ e ∈ dict_entries d) ∧
    (ds ≠ [] → v' = 0 → ∀ k, Forall (λ d, is_Some (dict_map kabs d !! kabs k)) ds →
       ∃ e, e ∈ out ∧ kabs (key e) = kabs k).
Proof.
  intros Hwf Hs.
  destruct (scan_all_ok type kabs ds 0 Hwf Hs) as (out & v' & E & Hin & Hp);
    [lia|apply Forall_true, aligned_0|].
  exists out, v'. split; [done|]. split; [done|]. intros Hne Hv k Hall.
  apply (Hp Hne Hv (kabs k) k); [done| |done]. rewrite rev_0. apply rev_bound.
Qed.

(** Calls on a non-empty dictionary whose smaller table keeps its size of
    2^k buckets: the cursor comes back as 0 after exactly 2^k calls. *)
Theorem dictScan_ends k ds :
  2 ≤ k ≤ 31 → ds ≠ [] → len ds ≤ 2 ^ k →
  Forall (λ d, dict_wf type kabs d ∧ dictSize d ≠ 0 ∧ scan_mask d = 2 ^ k - 1) ds →
  ∃ out v', scan_all ds 0 = Some (out, v') ∧ (v' = 0 ↔ len ds = 2 ^ k).
Proof.
  intros Hk Hne Hl Hds.
  destruct (scan_all_cursor type kabs k ds 0 0) as (out & v' & E & Hv' & Er);
    [done..|lia|by rewrite rev_0|lia|lia|].
  exists out, v'. split; [done|]. rewrite Z.add_0_l in Er.
  assert (0 < len ds) by (destruct ds; [done|cbn [length]; lia]).
  pose proof (pow64_split k ltac:(lia)) as E64. split.
  - intros ->. rewrite rev_0 in Er. destruct (decide (len ds = 2 ^ k)); [done|].
    rewrite uwrap_small in Er by nia. nia.
  - intros El. rewrite El, <- E64 in Er. rewrite <- (rev_involutive v' Hv'), Er.
    unfold uwrap. by rewrite Z.mod_same by lia.
Qed.
End scan_theorems.

(** ** Concrete scans *)

Definition id_type : dictType Z Z := mkType (λ k, k) None None (Some Z.eqb) false false.

#[export] Instance id_type_laws : DictLaws id_type (id : Z → Z).
Proof.
  split; [|by intros ? ? [= ->]|done]. intros k1 k2. unfold dictCompareKeys. simpl.
  destruct (Z.eqb_spec k1 k2); by case_bool_decide.
Qed.

(** Key 5 alone in a table of 16 buckets, and the same dictionary when
    [dictResize] has started to move it to one of 4. *)
Definition d16 : dict Z Z :=
  mkDict (mkHt (Some [[]; []; []; []; []; [mkEntry 5 50]; []; []; []; []; []; []; []; []; []; []]) 16 15 1)
    _dictReset (-1) 0.
Definition d16_4 : dict Z Z := from_option fst d16 (dictResize true d16).

Lemma d16_ht_ok : ht_ok id_type (ht0 d16) (default [] (table (ht0 d16))).
Proof.
  split; [done..|by exists 4|done|done|].
  intros i c e Hi He. cbn in Hi.
  do 16 (destruct i as [|i];
    [cbn in Hi; injection Hi as <-;
     by first [by apply elem_of_nil in He | by apply list_elem_of_singleton in He as ->]|]).
  done.
Qed.

Lemma d16_wf : dict_wf id_type id d16.
Proof. split; [left; split; [done|split; [done|right; eexists; apply d16_ht_ok]]|apply NoDup_singleton|done]. Qed.

Lemma dictScan_complete_witness :
  ∃ out v', scan_all (replicate 16 d16) 0 = Some (out, v') ∧
    (∀ e, e ∈ out → ∃ d, d ∈ replicate 16 d16 ∧ e ∈ dict_entries d) ∧
    (replicate 16 d16 ≠ [] → v' = 0 → ∀ k, Forall (λ d, is_Some (dict_map id d !! id k)) (replicate 16 d16) →
       ∃ e, e ∈ out ∧ id (key e) = id k).
Proof.
  apply (dictScan_complete id_type id).
  - apply Forall_replicate, d16_wf.
  - repeat constructor; vm_compute; discriminate.
Defined.

Lemma dictScan_ends_witness :
  ∃ out v', scan_all (replicate 16 d16) 0 = Some (out, v') ∧ (v' = 0 ↔ len (replicate 16 d16) = 2 ^ 4).
Proof.
  apply (dictScan_ends id_type id 4); [lia|done|cbn; lia|].
  apply Forall_replicate. split; [apply d16_wf|done].
Defined.

(** The guarantee the comment of [dictScan] gives does not survive a
    table that shrinks during the scan: after nine calls on a table of 16
    buckets holding the key 5, a resize to 4 buckets starts ([dictResize] on
    that very dictionary), two more calls return cursor 0, and the key, there
    from start to end, was never emitted. *)
Theorem dictScan_misses_when_shrinking :
  dictResize true d16 = Some (d16_4, DICT_OK) ∧
  Forall (λ d, is_Some (dict_map id d !! 5)) (replicate 9 d16 ++ replicate 2 d16_4) ∧
  scan_all (replicate 9 d16 ++ replicate 2 d16_4) 0 = Some ([], 0).
Proof.
  split; [vm_compute; reflexivity|]. split; [|vm_compute; reflexivity].
  apply Forall_app. split; apply Forall_replicate; by eexists.
Qed.
