(* ===== verification/DictIter.v ===== *)
(** * Iterators of dictionaries: [dict.c]

    An iterator goes through the buckets of the first table and, while the
    dictionary is being rehashed, of the second.  It holds the chain after
    the entry it returned, as the code saves [nextEntry].  A safe iterator
    stops rehashing while it is open; an unsafe one checks when it is closed
    that the dictionary did not change.  [dictGetRandomKey] is here, too. *)

From S2P Require Import Prelude Dict DictScan.
From stdpp Require Import gmap.
Local Open Scope Z_scope.

(** [it_chain] is [None] while [iter->entry] is [NULL]. *)
Record dictIterator (K V : Type) := mkIter {
  it_table : bool;
  it_index : Z;
  it_safe : bool;
  it_chain : option (list (dictEntry K V));
  fingerprint : Z
}.
Arguments mkIter {_ _}.
Arguments it_table {_ _}.
Arguments it_index {_ _}.
Arguments it_safe {_ _}.
Arguments it_chain {_ _}.
Arguments fingerprint {_ _}.

Section iterators.
Context {K V : Type}.
(** The address of the block of a table. *)
Context (table_address : dictht K V → Z).
Implicit Types (d : dict K V) (it : dictIterator K V).

Definition hash_step (hash n : Z) : Z :=
  let hash := s64 (hash + n) in
  let hash := s64 (Z.lnot hash + s64 (Z.shiftl hash 21)) in
  let hash := Z.lxor hash (Z.shiftr hash 24) in
  let hash := s64 (s64 (hash + s64 (Z.shiftl hash 3)) + s64 (Z.shiftl hash 8)) in
  let hash := Z.lxor hash (Z.shiftr hash 14) in
  let hash := s64 (s64 (hash + s64 (Z.shiftl hash 2)) + s64 (Z.shiftl hash 4)) in
  let hash := Z.lxor hash (Z.shiftr hash 28) in
  s64 (hash + s64 (Z.shiftl hash 31)).

Definition dictFingerprint d : Z :=
  foldl hash_step 0 [table_address (ht0 d); s64 (size_ (ht0 d)); s64 (used (ht0 d)); table_address (ht1 d); s64 (size_ (ht1 d)); s64 (used (ht1 d))].

Definition dictGetIterator : dictIterator K V := mkIter false (-1) false None 0.
Definition dictGetSafeIterator : dictIterator K V := mkIter false (-1) true None 0.

Definition add_iterators d (n : Z) : dict K V := mkDict (ht0 d) (ht1 d) (rehashidx d) (iterators d + n).

Definition fresh_iter it : bool := (it_index it =? -1) && negb (it_table it).

(** The part of the loop before an entry is looked at: the chain to look at,
    or [None] when the tables are at their end. *)
Definition next_chain it d : option (dictIterator K V * dict K V * option (list (dictEntry K V))) :=
  match it_chain it with
  | Some chain => Some (it, d, Some chain)
  | None =>
      let '(d, fp) := if fresh_iter it then if it_safe it then (add_iterators d 1, fingerprint it) else (d, dictFingerprint d) else (d, fingerprint it) in
      let index := it_index it + 1 in
      let at_ second index := mkIter second index (it_safe it) None fp in
      if size_ (get_ht d (it_table it)) <=? index then
        if dictIsRehashing d && negb (it_table it) then
          chain ← get_bucket (ht1 d) 0; Some (at_ true 0, d, Some chain)
        else Some (at_ (it_table it) index, d, None)
      else
        chain ← get_bucket (get_ht d (it_table it)) index; Some (at_ (it_table it) index, d, Some chain)
  end.

(** [NULL] is [None]. *)
Fixpoint next_loop (fuel : nat) it d : option (dictIterator K V * dict K V * option (dictEntry K V)) :=
  match fuel with
  | O => None
  | S fuel =>
      '(it, d, chain) ← next_chain it d;
      match chain with
      | None => Some (it, d, None)
      | Some [] => next_loop fuel (mkIter (it_table it) (it_index it) (it_safe it) None (fingerprint it)) d
      | Some (e :: rest) => Some (mkIter (it_table it) (it_index it) (it_safe it) (Some rest) (fingerprint it), d, Some e)
      end
  end.

(** A round moves to another bucket. *)
Definition dictNext it d : option (dictIterator K V * dict K V * option (dictEntry K V)) :=
  next_loop (Z.to_nat (size_ (ht0 d) + size_ (ht1 d)) + 3) it d.

(** The assertion is that the dictionary did not change. *)
Definition dictReleaseIterator it d : option (dict K V) :=
  if fresh_iter it then Some d
  else if it_safe it then Some (add_iterators d (-1))
  else if fingerprint it =? dictFingerprint d then Some d else None.

(** [while((de = dictNext(di)) != NULL)] *)
Fixpoint iterate (fuel : nat) it d : option (dictIterator K V * dict K V * list (dictEntry K V)) :=
  match fuel with
  | O => None
  | S fuel =>
      '(it, d, e) ← dictNext it d;
      match e with
      | None => Some (it, d, [])
      | Some e => '(it, d, es) ← iterate fuel it d; Some (it, d, e :: es)
      end
  end.
End iterators.

(** ** A random entry *)

Section random.
Context {K V : Type} (type : dictType K V).
Implicit Types (d : dict K V).

(** Numbers are drawn until one is that of a bucket with entries; [None] if
    all of them were used up. *)
Fixpoint random_bucket (d : dict K V) (random : list Z) : option (list (dictEntry K V) * list Z) :=
  match random with
  | [] => None
  | x :: random =>
      chain ← (if dictIsRehashing d then
                 let h := u32 (x mod (size_ (ht0 d) + size_ (ht1 d))) in
                 if h >=? size_ (ht0 d) then get_bucket (ht1 d) (h - size_ (ht0 d)) else get_bucket (ht0 d) h
               else get_bucket (ht0 d) (u32 (Z.land x (sizemask (ht0 d)))));
      match chain with [] => random_bucket d random | _ => Some (chain, random) end
  end.

Definition dictGetRandomKey d (random : list Z) : option (dict K V * option (dictEntry K V) * list Z) :=
  if dictSize d =? 0 then Some (d, None, random)
  else
    d ← step_if_rehashing type d;
    '(chain, random) ← random_bucket d random;
    x ← head random;
    e ← mget chain (x mod len chain);
    Some (d, Some e, tail random).
End random.

#[local] Opaque dictFingerprint.

(** ** What is left *)

Section iterator_lemmas.
Context {K V A : Type} `{EqDecision K} `{Countable A} (type : dictType K V) (kabs : K → A) (table_address : dictht K V → Z).
Implicit Types (d : dict K V) (it : dictIterator K V).

(** The entries that are still to come. *)
Definition remaining it d : list (dictEntry K V) :=
  default [] (it_chain it) ++ mjoin (drop (Z.to_nat (it_index it + 1)) (default [] (table (get_ht d (it_table it))))) ++
  (if it_table it then [] else ht_entries (ht1 d)).

Record iter_ok it d : Prop := {
  io_index : -1 ≤ it_index it;
  io_table : it_table it = true → dictIsRehashing d = true ∧ 0 ≤ it_index it;
  io_fresh : it_index it = -1 → it_chain it = None
}.

(** Both tables, their sizes and their blocks. *)
Definition tables_ok d : Prop :=
  ∀ b, len (default [] (table (get_ht d b))) = size_ (get_ht d b) ∧ (table (get_ht d b) = None → size_ (get_ht d b) = 0).

Definition second_ok d : Prop :=
  (dictIsRehashing d = false → ht_entries (ht1 d) = []) ∧ (dictIsRehashing d = true → 0 < size_ (ht1 d)).

Lemma wf_tables_ok d : dict_wf type kabs d → tables_ok d ∧ second_ok d.
Proof.
  intros Hwf. unfold second_ok. destruct (wf_tables _ _ _ Hwf) as [Hr|(t0 & t1 & Hr)].
  - rewrite (not_rehashing_at_rest _ _ Hr). destruct Hr as (_ & E1 & E0). split; [|split; [by rewrite E1|done]].
    intros []; cbn; [by rewrite E1|]. destruct E0 as [-> |[t Ht]]; [done|]. rewrite (ok_table _ _ _ Ht), (ok_size _ _ _ Ht). done.
  - rewrite (rehashing_is _ _ _ _ Hr). destruct Hr as (H0 & H1 & _). split; [|split; [done|]].
    + intros []; cbn; [rewrite (ok_table _ _ _ H1), (ok_size _ _ _ H1)|rewrite (ok_table _ _ _ H0), (ok_size _ _ _ H0)]; done.
    + intros _. rewrite (ok_size _ _ _ H1). destruct (ok_pow _ _ _ H1) as (k & Hk & ->). lia.
Qed.

Lemma next_bucket d b i : tables_ok d → 0 ≤ i < size_ (get_ht d b) →
  ∃ chain, get_bucket (get_ht d b) i = Some chain ∧
    mjoin (drop (Z.to_nat i) (default [] (table (get_ht d b)))) = chain ++ mjoin (drop (Z.to_nat (i + 1)) (default [] (table (get_ht d b)))).
Proof.
  intros Ht Hi. destruct (Ht b) as [Hl Hn]. unfold get_bucket. destruct (table (get_ht d b)) as [t|] eqn:E; [|rewrite (Hn eq_refl) in Hi; lia].
  cbn [default from_option id] in Hl |- *. bsimpl. destruct (lookup_lt_is_Some_2 t (Z.to_nat i)) as [c Hc]; [lia|]. exists c. unfold mget.
  rewrite bool_decide_eq_true_2 by lia. split; [done|]. rewrite (drop_S _ _ _ Hc). cbn. do 3 f_equal. lia.
Qed.

(** Rounds until the next entry or the end. *)
Definition rounds it d : nat :=
  (match it_chain it with Some _ => 1 | None => 0 end) + Z.to_nat (size_ (get_ht d (it_table it)) - (it_index it + 1)) + (if it_table it then 0 else Z.to_nat (size_ (ht1 d))) + 1.

Definition opened it d : dict K V := if fresh_iter it && it_safe it then add_iterators d 1 else d.
Definition printed it d : Z := if fresh_iter it && negb (it_safe it) then dictFingerprint table_address d else fingerprint it.

Lemma past_end d b i : tables_ok d → size_ (get_ht d b) ≤ i → mjoin (drop (Z.to_nat i) (default [] (table (get_ht d b)))) = [].
Proof. intros Ht Hi. destruct (Ht b) as [Hl _]. by rewrite drop_ge by lia. Qed.

Lemma next_chain_ok it d : tables_ok d → second_ok d → iter_ok it d → ∃ it' chain,
  next_chain table_address it d = Some (it', opened it d, chain) ∧ it_safe it' = it_safe it ∧ fingerprint it' = printed it d ∧ iter_ok it' d ∧ fresh_iter it' = false ∧
  (it_chain it = None → it_chain it' = None) ∧
  match chain with
  | None => remaining it d = [] ∧ it_chain it' = None ∧ remaining it' d = []
  | Some c => it_chain it = Some c ∧ it' = it ∨ it_chain it = None ∧ remaining it d = c ++ remaining it' d ∧ (rounds it' d < rounds it d)%nat
  end.
Proof.
  intros Ht [Hs0 Hs1] [Hi Htb Hf]. unfold next_chain. destruct it as [b i safe c fp]. cbn [it_table it_index it_safe it_chain fingerprint] in *. destruct c as [c|].
  { assert (i ≠ -1) as Hi1 by (intros ->; by specialize (Hf eq_refl)). assert (fresh_iter (mkIter b i safe (Some c) fp) = false) as Efr by (unfold fresh_iter; cbn; lia).
    exists (mkIter b i safe (Some c) fp), (Some c). unfold opened, printed. rewrite Efr. cbn. split; [done|]. split; [done|]. split; [done|]. split; [by split|]. split; [done|]. split; [done|]. by left. }
  set (it := mkIter b i safe None fp).
  assert ((if fresh_iter it then if safe then (add_iterators d 1, fp) else (d, dictFingerprint table_address d) else (d, fp)) = (opened it d, printed it d)) as ->.
  { unfold opened, printed. change (it_safe it) with safe. change (fingerprint it) with fp. destruct (fresh_iter it); [destruct safe|]; cbn [andb negb]; reflexivity. }
  assert (∀ b, get_ht (opened it d) b = get_ht d b) as Eg by (intros []; unfold opened; destruct (_ && _); done).
  assert (ht1 (opened it d) = ht1 d) as E1 by (apply (Eg true)). assert (dictIsRehashing (opened it d) = dictIsRehashing d) as Er by (unfold opened; by destruct (_ && _)).
  rewrite Eg, Er, E1. assert (∀ b' i', 0 ≤ i' → fresh_iter (mkIter (V := V) (K := K) b' i' safe None (printed it d)) = false) as Hnf by (intros; unfold fresh_iter; cbn; lia).
  destruct (Z.leb_spec (size_ (get_ht d b)) (i + 1)) as [Hend|Hin].
  - destruct (dictIsRehashing d && negb b) eqn:Erb.
    + apply andb_true_iff in Erb as [Hreh Hb%negb_true_iff]. subst b. destruct (next_bucket d true 0 Ht) as (c & Ec & Em); [cbn; split; [lia|by apply Hs1]|]. cbn [get_ht] in Ec. rewrite Ec. bsimpl.
      eexists _, (Some c). split; [reflexivity|]. cbn. split; [done|]. split; [done|]. split; [by split|]. split; [done|]. split; [done|]. right. split; [done|]. split.
      * unfold remaining. cbn -[mjoin]. pose proof (past_end d false (i + 1) Ht Hend) as E0. cbn [get_ht] in Em, E0. rewrite E0. unfold ht_entries. cbn [app]. rewrite app_nil_r. exact Em.
      * unfold rounds. cbn [it_chain it_table it_index get_ht]. specialize (Hs1 Hreh). lia.
    + eexists _, None. split; [reflexivity|]. cbn. split; [done|]. split; [done|]. split; [split; cbn; [lia|intros ->; split; [|lia]; by apply Htb|done]|]. split; [first [done|unfold fresh_iter; cbn; lia]|]. split; [done|].
      assert ((if b then [] else ht_entries (ht1 d)) = []) as E2.
      { destruct b; [done|]. apply Hs0. by rewrite andb_true_r in Erb. }
      unfold remaining. cbn -[mjoin]. rewrite E2. rewrite (past_end d b (i + 1) Ht Hend), (past_end d b (i + 1 + 1) Ht ltac:(lia)). done.
  - destruct (next_bucket d b (i + 1) Ht) as (c & Ec & Em); [lia|]. rewrite Ec. bsimpl. eexists _, (Some c). split; [reflexivity|]. cbn.
    split; [done|]. split; [done|]. split; [split; cbn; [lia|intros ->; split; [|lia]; by apply Htb|done]|]. split; [first [done|unfold fresh_iter; cbn; lia]|]. split; [done|]. right. split; [done|]. split.
    + unfold remaining. cbn -[mjoin]. rewrite Em, <- app_assoc. done.
    + unfold rounds. cbn [it_chain it_table it_index]. lia.
Qed.

Lemma opened_get it d b : get_ht (opened it d) b = get_ht d b.
Proof. unfold opened. by destruct (_ && _), b. Qed.

Lemma opened_remaining it it' d : remaining it' (opened it d) = remaining it' d.
Proof. unfold remaining. rewrite opened_get. unfold ht_entries. by rewrite (opened_get it d true : ht1 _ = _). Qed.

Lemma opened_invariants it d : tables_ok d → second_ok d → tables_ok (opened it d) ∧ second_ok (opened it d) ∧ ∀ it', iter_ok it' d → iter_ok it' (opened it d).
Proof.
  intros Ht Hs. assert (dictIsRehashing (opened it d) = dictIsRehashing d) as Er by (unfold opened; by destruct (_ && _)). split; [|split].
  - intros b. rewrite opened_get. apply Ht.
  - unfold second_ok. rewrite Er, (opened_get it d true : ht1 _ = _). exact Hs.
  - intros it' [H1 H2 H3]. split; [done| |done]. by rewrite Er.
Qed.

Lemma opened_rounds it it' d : rounds it' (opened it d) = rounds it' d.
Proof. unfold rounds. by rewrite opened_get, (opened_get it d true : ht1 _ = _). Qed.

Lemma not_fresh it d : fresh_iter it = false → opened it d = d ∧ printed it d = fingerprint it.
Proof. intros E. unfold opened, printed. by rewrite E. Qed.

Definition stepped it d (r : option (dictIterator K V * dict K V * option (dictEntry K V))) : Prop :=
  ∃ it', r = Some (it', opened it d, head (remaining it d)) ∧ iter_ok it' d ∧ fresh_iter it' = false ∧
    remaining it' d = tail (remaining it d) ∧ it_safe it' = it_safe it ∧ fingerprint it' = printed it d.

Lemma next_loop_ok fuel : ∀ it d, tables_ok d → second_ok d → iter_ok it d → (rounds it d < fuel)%nat → stepped it d (next_loop table_address fuel it d).
Proof.
  induction fuel as [|fuel IH]; intros it d Ht Hs Hi Hf; [lia|]. cbn [next_loop].
  destruct (next_chain_ok it d Ht Hs Hi) as (it1 & chain & -> & S1 & F1 & I1 & N1 & K1 & Hc). bsimpl. destruct chain as [[|e rest]|].
  - destruct (opened_invariants it d Ht Hs) as (Ht' & Hs' & Hi'). set (it2 := mkIter (it_table it1) (it_index it1) (it_safe it1) None (fingerprint it1)).
    assert (fresh_iter it2 = false) as N2 by exact N1. assert (iter_ok it2 d) as I2 by (destruct I1; by split).
    assert (remaining it d = remaining it2 d ∧ (rounds it2 d < rounds it d)%nat) as [Er Hm].
    { destruct Hc as [[Ec ->]|(Ec & Er & Hm)].
      - split; [unfold remaining; by rewrite Ec|unfold rounds; rewrite Ec; cbn; lia].
      - assert (it2 = it1) as -> by (unfold it2; specialize (K1 Ec); destruct it1; cbn in *; by subst). by split. }
    destruct (IH it2 (opened it d) Ht' Hs' (Hi' _ I2)) as (it3 & -> & I3 & N3 & R3 & S3 & F3); [rewrite opened_rounds; lia|].
    destruct (not_fresh it2 (opened it d) N2) as [Eo Ep]. rewrite Eo. rewrite !opened_remaining in *. exists it3. rewrite Er. split; [done|].
    split; [destruct I3 as [J1 J2 J3]; split; [done| |done]|]; [intros Hb; specialize (J2 Hb); unfold opened in J2; by destruct (_ && _)|].
    split; [done|]. split; [done|]. split; [by rewrite S3|by rewrite F3, Ep].
  - set (it2 := mkIter _ _ _ (Some rest) _). assert (remaining it d = e :: remaining it2 d) as Er.
    { destruct Hc as [[Ec ->]|(Ec & Er & _)]; [unfold remaining; by rewrite Ec|]. rewrite Er. unfold remaining. specialize (K1 Ec). rewrite K1. done. }
    exists it2. rewrite Er. split; [done|]. split; [|done]. destruct I1 as [J1 J2 J3]. split; [done|done|]. cbn. intros E. unfold fresh_iter in N1. rewrite E in N1. cbn in N1.
    apply negb_false_iff in N1. destruct (J2 N1). lia.
  - destruct Hc as (Er & _ & Er1). exists it1. rewrite Er. done.
Qed.

Lemma dictNext_ok it d : tables_ok d → second_ok d → iter_ok it d → stepped it d (dictNext table_address it d).
Proof.
  intros Ht Hs Hi. apply next_loop_ok; [done..|]. unfold rounds. destruct (Ht true) as [L1 _], (Ht false) as [L0 _]. cbn in L0, L1. destruct Hi as [H1 _ _].
  destruct (it_table it), (it_chain it); cbn [get_ht]; lia.
Qed.

Lemma iterate_ok n : ∀ it d, tables_ok d → second_ok d → iter_ok it d → (length (remaining it d) < n)%nat →
  ∃ it', iterate table_address n it d = Some (it', opened it d, remaining it d) ∧ fresh_iter it' = false ∧ it_safe it' = it_safe it ∧ fingerprint it' = printed it d.
Proof.
  induction n as [|n IH]; intros it d Ht Hs Hi Hn; [lia|]. cbn [iterate]. destruct (dictNext_ok it d Ht Hs Hi) as (it1 & -> & I1 & N1 & R1 & S1 & F1). bsimpl.
  destruct (remaining it d) as [|e rest] eqn:E; cbn [head]; [by exists it1|]. cbn [tail] in R1. destruct (opened_invariants it d Ht Hs) as (Ht' & Hs' & Hi').
  destruct (IH it1 (opened it d) Ht' Hs' (Hi' _ I1)) as (it2 & -> & N2 & S2 & F2); [rewrite opened_remaining, R1; cbn in Hn; lia|]. bsimpl.
  destruct (not_fresh it1 (opened it d) N1) as [-> Ep]. exists it2. rewrite opened_remaining, R1. split; [done|]. split; [done|]. rewrite S2, F2, Ep. done.
Qed.

(** Going through a dictionary with either kind of iterator returns each of
    its entries once, ends, and leaves it as it was. *)
Theorem iterate_entries (safe : bool) d : dict_wf type kabs d → ∃ it' d',
  iterate table_address (S (length (dict_entries d))) (if safe then dictGetSafeIterator else dictGetIterator) d = Some (it', d', dict_entries d) ∧
  ht0 d' = ht0 d ∧ ht1 d' = ht1 d ∧ rehashidx d' = rehashidx d ∧ iterators d' = iterators d + (if safe then 1 else 0) ∧
  dictReleaseIterator table_address it' d' = Some d.
Proof.
  intros Hwf. destruct (wf_tables_ok d Hwf) as [Ht Hs]. set (it := if safe then _ else _). assert (it = mkIter false (-1) safe None 0) as Eit by (by destruct safe). rewrite Eit. clear it Eit.
  set (it := mkIter false (-1) safe None 0). assert (iter_ok it d) as Hi by (by split).
  destruct (iterate_ok (S (length (dict_entries d))) it d Ht Hs Hi) as (it' & -> & N & Sf & F); [change (remaining it d) with (dict_entries d); lia|].
  exists it', (opened it d). split; [done|]. unfold dictReleaseIterator. rewrite N, Sf. change (it_safe it) with safe. rewrite F. unfold opened, printed.
  change (fresh_iter it) with true. change (it_safe it) with safe. destruct safe; cbn [andb negb add_iterators ht0 ht1 rehashidx iterators].
  - unfold add_iterators. cbn. replace (iterators d + 1 + -1) with (iterators d) by lia. repeat (split; [done|]). by destruct d.
  - repeat (split; [done || lia|]). by rewrite Z.eqb_refl.
Qed.
End iterator_lemmas.

(** ** Random entries *)

Section random_lemmas.
Context {K V A : Type} `{EqDecision K} `{Countable A} (type : dictType K V) (kabs : K → A) `{!DictLaws type kabs}.
Implicit Types (d : dict K V).

(** The bucket that a number stands for. *)
Definition drawn d (x : Z) : option (list (dictEntry K V)) :=
  if dictIsRehashing d then
    let h := u32 (x mod (size_ (ht0 d) + size_ (ht1 d))) in
    if h >=? size_ (ht0 d) then get_bucket (ht1 d) (h - size_ (ht0 d)) else get_bucket (ht0 d) h
  else get_bucket (ht0 d) (u32 (Z.land x (sizemask (ht0 d)))).

Lemma bucket_of h (t : list (list (dictEntry K V))) i : ht_ok type h t → 0 ≤ i < len t → ∃ c, get_bucket h i = Some c ∧ t !! Z.to_nat i = Some c.
Proof.
  intros Ht Hi. unfold get_bucket. rewrite (ok_table _ _ _ Ht). bsimpl. destruct (lookup_lt_is_Some_2 t (Z.to_nat i)) as [c Hc]; [lia|]. exists c.
  unfold mget. by rewrite bool_decide_eq_true_2 by lia.
Qed.

Lemma entries_bucket h t i c : ht_ok type h t → t !! i = Some c → ∀ e, e ∈ c → e ∈ ht_entries h.
Proof. intros Ht Hc e He. unfold ht_entries. rewrite (ok_table _ _ _ Ht). cbn. apply list_elem_of_join. exists c. split; [done|]. by eapply list_elem_of_lookup_2. Qed.

(** Every number stands for a bucket, and some for one with entries. *)
Lemma drawn_ok d x : dict_wf type kabs d → dict_entries d ≠ [] → 0 ≤ x → ∃ c, drawn d x = Some c ∧ ∀ e, e ∈ c → e ∈ dict_entries d.
Proof.
  intros Hw Hne Hx. unfold drawn, dict_entries in *. destruct (wf_tables _ _ _ Hw) as [Hr|(t0 & t1 & Hr)].
  - rewrite (not_rehashing_at_rest _ _ Hr). destruct Hr as (_ & E1 & [E0|(t & Ht)]); [rewrite E0, E1 in Hne; by cbn in Hne|].
    rewrite (ok_mask _ _ _ Ht). destruct (ok_pow _ _ _ Ht) as (k & Hk & El). assert (Z.land x (len t - 1) = x mod 2 ^ k) as Em by (rewrite El; apply land_mask; lia).
    pose proof (Z.mod_pos_bound x (2 ^ k) ltac:(lia)) as Hb. assert (2 ^ k ≤ 2 ^ 31) by (apply Z.pow_le_mono_r; lia). rewrite Em, uwrap_small by lia.
    destruct (bucket_of _ t (x mod 2 ^ k) Ht) as (c & -> & Hc); [lia|]. exists c. split; [done|]. intros e He. apply elem_of_app. left. by eapply entries_bucket.
  - rewrite (rehashing_is _ _ _ _ Hr). destruct Hr as (H0 & H1 & _). rewrite (ok_size _ _ _ H0), (ok_size _ _ _ H1).
    destruct (ok_pow _ _ _ H0) as (k & Hk & E0), (ok_pow _ _ _ H1) as (k1 & Hk1 & E1). assert (2 ^ k ≤ 2 ^ 31) by (apply Z.pow_le_mono_r; lia). assert (2 ^ k1 ≤ 2 ^ 31) by (apply Z.pow_le_mono_r; lia).
    pose proof (Z.mod_pos_bound x (len t0 + len t1) ltac:(lia)) as Hb. rewrite uwrap_small by lia. cbv zeta. rewrite Z.geb_leb. destruct (Z.leb_spec (len t0) (x mod (len t0 + len t1))).
    + destruct (bucket_of _ t1 (x mod (len t0 + len t1) - len t0) H1) as (c & -> & Hc); [lia|]. exists c. split; [done|]. intros e He. apply elem_of_app. right. by eapply entries_bucket.
    + destruct (bucket_of _ t0 (x mod (len t0 + len t1)) H0) as (c & -> & Hc); [lia|]. exists c. split; [done|]. intros e He. apply elem_of_app. left. by eapply entries_bucket.
Qed.

Lemma some_bucket h t : ht_ok type h t → ht_entries h ≠ [] → ∃ i c, 0 ≤ i < len t ∧ get_bucket h i = Some c ∧ c ≠ [].
Proof.
  intros Ht Hne. unfold ht_entries in Hne. rewrite (ok_table _ _ _ Ht) in Hne. cbn in Hne. destruct (mjoin t) as [|e es] eqn:E; [done|].
  assert (e ∈ mjoin t) as (c & He & Hc)%list_elem_of_join by (rewrite E; by left). apply list_elem_of_lookup_1 in Hc as [i Hi]. pose proof (lookup_lt_Some _ _ _ Hi) as Hl.
  destruct (bucket_of h t (Z.of_nat i) Ht) as (c' & Eb & Hc'); [lia|]. rewrite Nat2Z.id, Hi in Hc'. injection Hc' as <-. exists (Z.of_nat i), c. split; [lia|]. split; [done|]. intros ->. by apply elem_of_nil in He.
Qed.

Lemma drawn_hit d : dict_wf type kabs d → dict_entries d ≠ [] → ∃ x c, 0 ≤ x ∧ drawn d x = Some c ∧ c ≠ [].
Proof.
  intros Hw Hne. unfold drawn, dict_entries in *. destruct (wf_tables _ _ _ Hw) as [Hr|(t0 & t1 & Hr)].
  - rewrite (not_rehashing_at_rest _ _ Hr). destruct Hr as (_ & E1 & [E0|(t & Ht)]); [rewrite E0, E1 in Hne; by cbn in Hne|].
    rewrite E1 in Hne. cbn in Hne. rewrite app_nil_r in Hne. destruct (some_bucket _ t Ht Hne) as (i & c & Hi & Eb & Hc). exists i, c.
    rewrite (ok_mask _ _ _ Ht). destruct (ok_pow _ _ _ Ht) as (k & Hk & El). assert (2 ^ k ≤ 2 ^ 31) by (apply Z.pow_le_mono_r; lia).
    assert (Z.land i (len t - 1) = i) as -> by (rewrite El, land_mask by lia; apply Z.mod_small; lia). rewrite uwrap_small by lia. by repeat split; try lia.
  - rewrite (rehashing_is _ _ _ _ Hr). destruct Hr as (H0 & H1 & _). rewrite (ok_size _ _ _ H0), (ok_size _ _ _ H1).
    destruct (ok_pow _ _ _ H0) as (k & Hk & E0), (ok_pow _ _ _ H1) as (k1 & Hk1 & E1). assert (2 ^ k ≤ 2 ^ 31) by (apply Z.pow_le_mono_r; lia). assert (2 ^ k1 ≤ 2 ^ 31) by (apply Z.pow_le_mono_r; lia).
    destruct (ht_entries (ht0 d)) as [|e es] eqn:Ee.
    + destruct (some_bucket _ t1 H1 Hne) as (i & c & Hi & Eb & Hc). exists (len t0 + i), c. rewrite Z.mod_small, uwrap_small by lia. cbv zeta. rewrite Z.geb_leb, (proj2 (Z.leb_le _ _)) by lia.
      replace (len t0 + i - len t0) with i by lia. by repeat split; try lia.
    + destruct (some_bucket _ t0 H0) as (i & c & Hi & Eb & Hc); [by rewrite Ee|]. exists i, c. rewrite Z.mod_small, uwrap_small by lia. cbv zeta. rewrite Z.geb_leb, (proj2 (Z.leb_gt _ _)) by lia. by repeat split; try lia.
Qed.

Lemma random_bucket_ok d x c rest : dict_wf type kabs d → dict_entries d ≠ [] → drawn d x = Some c → c ≠ [] → Forall (Z.le 0) (x :: rest) → rest ≠ [] →
  ∀ pre, Forall (Z.le 0) pre → ∃ c' r, random_bucket d (pre ++ x :: rest) = Some (c', r) ∧ c' ≠ [] ∧ (∀ e, e ∈ c' → e ∈ dict_entries d) ∧ Forall (Z.le 0) r ∧ r ≠ [].
Proof.
  intros Hw Hne Hx Hc [Hx0 Hrest]%Forall_cons Hr. assert (∀ y l, random_bucket d (y :: l) = chain ← drawn d y; match chain with [] => random_bucket d l | _ => Some (chain, l) end) as Heq by done.
  induction pre as [|y pre IH]; intros Hpre; cbn [app]; rewrite Heq.
  - destruct (drawn_ok d x Hw Hne Hx0) as (c2 & E & Hin). rewrite Hx in E. injection E as <-. rewrite Hx. bsimpl. destruct c as [|e es]; [done|]. by exists (e :: es), rest.
  - apply Forall_cons in Hpre as [Hy Hpre]. destruct (drawn_ok d y Hw Hne Hy) as (c2 & -> & Hin). bsimpl. destruct c2 as [|e es]; [by apply IH|].
    exists (e :: es), (pre ++ x :: rest). split; [done|]. split; [done|]. split; [done|]. split; [apply Forall_app; split; [done|by constructor]|by destruct pre].
Qed.

Lemma dict_total d : dict_wf type kabs d → used (ht0 d) + used (ht1 d) = len (dict_entries d).
Proof.
  intros Hwf. unfold dict_entries. rewrite length_app. destruct (wf_tables _ _ _ Hwf) as [(_ & E1 & E0)|(t0 & t1 & H0 & H1 & _)].
  - rewrite E1. destruct E0 as [-> |(t & Ht)]; [done|]. unfold ht_entries. rewrite (ok_table _ _ _ Ht), (ok_used _ _ _ Ht). cbn. lia.
  - unfold ht_entries. rewrite (ok_table _ _ _ H0), (ok_used _ _ _ H0), (ok_table _ _ _ H1), (ok_used _ _ _ H1). cbn. lia.
Qed.

(** Drawing a random entry ends as soon as the generator returns some
    number [x], whatever it returned before: the entry is one of the
    dictionary, which keeps its meaning; with no entries the result is
    [NULL]. *)
Theorem dictGetRandomKey_ends d : dict_wf type kabs d →
  (dict_entries d = [] → ∀ random, dictGetRandomKey type d random = Some (d, None, random)) ∧
  (dict_entries d ≠ [] → ∃ x, 0 ≤ x ∧ ∀ pre y, Forall (Z.le 0) pre → 0 ≤ y → ∃ d' e r,
    dictGetRandomKey type d (pre ++ [x; y]) = Some (d', Some e, r) ∧ e ∈ dict_entries d ∧ dict_wf type kabs d' ∧ dict_entries d' ≡ₚ dict_entries d).
Proof.
  intros Hw. unfold dictGetRandomKey, dictSize. rewrite (dict_total d Hw). pose proof (wf_count _ _ _ Hw). rewrite uwrap_small by lia.
  split; [by intros -> random|]. intros Hne. destruct (Z.eqb_spec (len (dict_entries d)) 0) as [E|_]; [destruct (dict_entries d); [done|cbn in E; lia]|].
  destruct (step_if_rehashing_ok type kabs d Hw) as (d1 & E1 & Hw1 & _ & Hp). assert (dict_entries d1 ≠ []) as Hne1 by (intros E; rewrite E in Hp; by apply Permutation_nil_l in Hp).
  destruct (drawn_hit d1 Hw1 Hne1) as (x & c & Hx & Ec & Hc). exists x. split; [done|]. intros pre y Hpre Hy. rewrite E1. bsimpl.
  destruct (random_bucket_ok d1 x c [y] Hw1 Hne1 Ec Hc) with (pre := pre) as (c' & r & -> & Hc' & Hin & Hr & Hrn); [by repeat constructor|done|done|]. bsimpl.
  destruct r as [|z r]; [done|]. apply Forall_cons in Hr as [Hz _]. cbn [head tail]. bsimpl. assert (0 < len c') as Hl by (destruct c'; [done|cbn; lia]).
  pose proof (Z.mod_pos_bound z (len c') Hl) as Hb. destruct (lookup_lt_is_Some_2 c' (Z.to_nat (z mod len c'))) as [e He]; [lia|].
  unfold mget. rewrite bool_decide_eq_true_2 by lia. rewrite He. bsimpl. exists d1, e, r. split; [done|]. split; [|done]. rewrite <- Hp. apply Hin. by eapply list_elem_of_lookup_2.
Qed.
End random_lemmas.

(** ** Examples *)

(** Five's bucket is still to be moved to a table of 4 buckets. *)
Lemma d16_4_wf : dict_wf id_type id d16_4.
Proof.
  destruct (dictExpand_ok id_type id d16 4 d16_wf) as (d & E & Hw & _); [split; [done|split; [done|right; eexists; apply d16_ht_ok]]|done|].
  assert (d = d16_4) as <-; [|exact Hw]. vm_compute in E. injection E as <-. vm_compute. reflexivity.
Qed.

Lemma iterate_entries_witness : ∃ it' d',
  iterate (λ _, 0) (S (length (dict_entries d16_4))) dictGetSafeIterator d16_4 = Some (it', d', dict_entries d16_4) ∧
  ht0 d' = ht0 d16_4 ∧ ht1 d' = ht1 d16_4 ∧ rehashidx d' = rehashidx d16_4 ∧ iterators d' = iterators d16_4 + 1 ∧
  dictReleaseIterator (λ _, 0) it' d' = Some d16_4.
Proof. apply (iterate_entries id_type id (λ _, 0) true). exact d16_4_wf. Defined.

Lemma dictGetRandomKey_ends_witness : ∃ x, 0 ≤ x ∧ ∀ pre y, Forall (Z.le 0) pre → 0 ≤ y → ∃ d' e r,
  dictGetRandomKey id_type d16_4 (pre ++ [x; y]) = Some (d', Some e, r) ∧ e ∈ dict_entries d16_4 ∧ dict_wf id_type id d' ∧ dict_entries d' ≡ₚ dict_entries d16_4.
Proof. apply (dictGetRandomKey_ends id_type id d16_4 d16_4_wf). discriminate. Defined.
