(* ===== verification/Table.v ===== *)
(** * Tables from keys to values

    What the key space asks of a table, as an interface: operations, each of
    which may move the table on (incremental rehashing), and their laws in
    terms of the finite map the table stands for.  [Dict] implements it: the
    dictionaries of type [dbDictType] and [keyptrDictType] ([redis.c]), whose
    keys are dynamic strings, compared by their bytes. *)

From S2P Require Import Prelude Dict DictIter.
From stdpp Require Import gmap.
Local Open Scope Z_scope.

(** A value that leaves the table, replaced or removed, is returned: the caller
    hands it to the destructor of the type. *)
Class KeyTable (T V : Type) := {
  tbl_ok : T → Prop;
  tbl_map : T → gmap (list Z) V;
  tbl_size : T → Z;
  tbl_find : T → list Z → option (T * option V);
  tbl_add : T → list Z → V → option (T * bool);
  tbl_replace : T → list Z → V → option (T * option V);
  tbl_delete : T → list Z → option (T * option V)
}.

(** The largest number of keys the laws cover. *)
Definition MAX_KEYS : Z := 2 ^ 29.

Class KeyTableLaws (T V : Type) `{!KeyTable T V} : Prop := {
  tbl_size_ok t : tbl_ok t → Z.of_nat (size (tbl_map t)) < MAX_KEYS → tbl_size t = Z.of_nat (size (tbl_map t));
  tbl_find_ok t k : tbl_ok t → ∃ t', tbl_find t k = Some (t', tbl_map t !! k) ∧ tbl_ok t' ∧ tbl_map t' = tbl_map t;
  tbl_add_ok t k v : tbl_ok t → Z.of_nat (size (tbl_map t)) < MAX_KEYS →
    ∃ t', tbl_add t k v = Some (t', bool_decide (tbl_map t !! k = None)) ∧ tbl_ok t' ∧
      tbl_map t' = match tbl_map t !! k with Some _ => tbl_map t | None => <[k := v]> (tbl_map t) end;
  tbl_replace_ok t k v : tbl_ok t → Z.of_nat (size (tbl_map t)) < MAX_KEYS →
    ∃ t', tbl_replace t k v = Some (t', tbl_map t !! k) ∧ tbl_ok t' ∧ tbl_map t' = <[k := v]> (tbl_map t);
  tbl_delete_ok t k : tbl_ok t →
    ∃ t', tbl_delete t k = Some (t', tbl_map t !! k) ∧ tbl_ok t' ∧ tbl_map t' = delete k (tbl_map t)
}.

(** ** The dictionaries of the key space *)

Section dict_table.
Context {V : Type} (seed : Z) (uninit : V) (dict_can_resize : bool).

(** [dictSdsKeyCompare] *)
Definition dictSdsKeyCompare (k1 k2 : list Z) : bool :=
  if negb (len k1 =? len k2) then false else bool_decide (k1 = k2).

(** [dbDictType]: [dictSdsHash], keys that belong to the dictionary. *)
Definition db_type : dictType (list Z) V := mkType (dictGenHashFunction seed) None None (Some dictSdsKeyCompare) true true.

#[export] Instance db_type_laws : DictLaws db_type (id : list Z → list Z).
Proof.
  split; [|by intros ? ? [= ->]|done]. intros k1 k2. unfold dictCompareKeys. cbn [keyCompare db_type id]. unfold dictSdsKeyCompare.
  destruct (Z.eqb_spec (len k1) (len k2)) as [|Hne]; cbn [negb]; [done|]. symmetry. apply bool_decide_eq_false_2. by intros ->.
Qed.

(** The value among what an operation destroys. *)
Definition freed (evs : list (event (list Z) V)) : option V :=
  head (omap (λ e, match e with FreeVal v => Some v | _ => None end) evs).

#[export] Instance dict_table : KeyTable (dict (list Z) V) V := {
  tbl_ok := dict_wf db_type id;
  tbl_map := dict_map id;
  tbl_size := dictSize;
  tbl_find d k := dictFetchValue db_type d k;
  tbl_add d k v := '(d, r) ← dictAdd db_type uninit dict_can_resize d k v; Some (d, r =? DICT_OK);
  tbl_replace d k v := '(d, _, evs) ← dictReplace db_type uninit dict_can_resize d k v; Some (d, freed evs);
  tbl_delete d k := '(d, _, evs) ← dictDelete db_type d k; Some (d, freed evs)
}.

Lemma dict_entries_size (d : dict (list Z) V) : dict_wf db_type id d → Z.of_nat (size (dict_map id d)) = len (dict_entries d).
Proof.
  intros Hwf. assert (NoDup (entry_binding id <$> dict_entries d).*1) as Hn by (rewrite <- list_fmap_compose; apply (wf_nodup _ _ _ Hwf)).
  unfold dict_map. by rewrite map_size_list_to_map, length_fmap.
Qed.

#[export] Instance dict_table_laws : KeyTableLaws (dict (list Z) V) V.
Proof.
  split; cbn [tbl_ok tbl_map tbl_size tbl_find tbl_add tbl_replace tbl_delete dict_table].
  - intros d Hwf Hs. rewrite dict_entries_size in * by done. unfold dictSize. rewrite (dict_total db_type id) by done. unfold MAX_KEYS in Hs. apply uwrap_small. lia.
  - intros d k Hwf. destruct (dictFetchValue_refines db_type id d k Hwf) as (d' & -> & ? & ?). by exists d'.
  - intros d k v Hwf Hs. rewrite dict_entries_size in Hs by done. unfold MAX_KEYS in Hs.
    destruct (dictAdd_ok db_type id uninit dict_can_resize d k v Hwf ltac:(lia)) as (d' & Hwf' & _ & Hr). cbn [id] in *.
    destruct (dict_map id d !! k) eqn:E; simpl in Hr; destruct Hr as [-> Hm]; bsimpl; exists d'; [by rewrite bool_decide_eq_false_2 by done|by rewrite bool_decide_eq_true_2].
  - intros d k v Hwf Hs. rewrite dict_entries_size in Hs by done. unfold MAX_KEYS in Hs.
    destruct (dictReplace_refines db_type id uninit dict_can_resize d k v Hwf ltac:(lia)) as (d' & Hwf' & Hm & Hr). cbn [id] in *.
    destruct (dict_map id d !! k) eqn:E; rewrite Hr; bsimpl; by exists d'.
  - intros d k Hwf. unfold dictDelete.
    destruct (dictGenericDelete_ok db_type id d k false Hwf) as (d' & r & evs & -> & Hwf' & Hm & Hr). cbn [id] in *. bsimpl. exists d'.
    destruct (dict_map id d !! k) eqn:E; [destruct Hr as (_ & k' & _ & ->)|destruct Hr as [_ ->]]; done.
Qed.
End dict_table.
