(* ===== verification/Crc64.v ===== *)
(** * The checksum of dump files: [crc64.c]

    The table-driven CRC-64 the server computes over dump and migration
    payloads.  What is shown: the table is the right one (a byte step is eight
    steps of the bit-serial division by the reflected Jones polynomial), a
    checksum can be computed in pieces, and two messages that differ in a
    window of at most eight bytes have different checksums. *)

From S2P Require Import Prelude Endian.
Local Open Scope Z_scope.

(** [static const uint64_t crc64_tab[256]] *)
Definition crc64_tab : list Z :=
  [
   0x0000000000000000; 0x7ad870c830358979; 0xf5b0e190606b12f2; 0x8f689158505e9b8b;
   0xc038e5739841b68f; 0xbae095bba8743ff6; 0x358804e3f82aa47d; 0x4f50742bc81f2d04;
   0xab28ecb46814fe75; 0xd1f09c7c5821770c; 0x5e980d24087fec87; 0x24407dec384a65fe;
   0x6b1009c7f05548fa; 0x11c8790fc060c183; 0x9ea0e857903e5a08; 0xe478989fa00bd371;
   0x7d08ff3b88be6f81; 0x07d08ff3b88be6f8; 0x88b81eabe8d57d73; 0xf2606e63d8e0f40a;
   0xbd301a4810ffd90e; 0xc7e86a8020ca5077; 0x4880fbd87094cbfc; 0x32588b1040a14285;
   0xd620138fe0aa91f4; 0xacf86347d09f188d; 0x2390f21f80c18306; 0x594882d7b0f40a7f;
   0x1618f6fc78eb277b; 0x6cc0863448deae02; 0xe3a8176c18803589; 0x997067a428b5bcf0;
   0xfa11fe77117cdf02; 0x80c98ebf2149567b; 0x0fa11fe77117cdf0; 0x75796f2f41224489;
   0x3a291b04893d698d; 0x40f16bccb908e0f4; 0xcf99fa94e9567b7f; 0xb5418a5cd963f206;
   0x513912c379682177; 0x2be1620b495da80e; 0xa489f35319033385; 0xde51839b2936bafc;
   0x9101f7b0e12997f8; 0xebd98778d11c1e81; 0x64b116208142850a; 0x1e6966e8b1770c73;
   0x8719014c99c2b083; 0xfdc17184a9f739fa; 0x72a9e0dcf9a9a271; 0x08719014c99c2b08;
   0x4721e43f0183060c; 0x3df994f731b68f75; 0xb29105af61e814fe; 0xc849756751dd9d87;
   0x2c31edf8f1d64ef6; 0x56e99d30c1e3c78f; 0xd9810c6891bd5c04; 0xa3597ca0a188d57d;
   0xec09088b6997f879; 0x96d1784359a27100; 0x19b9e91b09fcea8b; 0x636199d339c963f2;
   0xdf7adabd7a6e2d6f; 0xa5a2aa754a5ba416; 0x2aca3b2d1a053f9d; 0x50124be52a30b6e4;
   0x1f423fcee22f9be0; 0x659a4f06d21a1299; 0xeaf2de5e82448912; 0x902aae96b271006b;
   0x74523609127ad31a; 0x0e8a46c1224f5a63; 0x81e2d7997211c1e8; 0xfb3aa75142244891;
   0xb46ad37a8a3b6595; 0xceb2a3b2ba0eecec; 0x41da32eaea507767; 0x3b024222da65fe1e;
   0xa2722586f2d042ee; 0xd8aa554ec2e5cb97; 0x57c2c41692bb501c; 0x2d1ab4dea28ed965;
   0x624ac0f56a91f461; 0x1892b03d5aa47d18; 0x97fa21650afae693; 0xed2251ad3acf6fea;
   0x095ac9329ac4bc9b; 0x7382b9faaaf135e2; 0xfcea28a2faafae69; 0x8632586aca9a2710;
   0xc9622c4102850a14; 0xb3ba5c8932b0836d; 0x3cd2cdd162ee18e6; 0x460abd1952db919f;
   0x256b24ca6b12f26d; 0x5fb354025b277b14; 0xd0dbc55a0b79e09f; 0xaa03b5923b4c69e6;
   0xe553c1b9f35344e2; 0x9f8bb171c366cd9b; 0x10e3202993385610; 0x6a3b50e1a30ddf69;
   0x8e43c87e03060c18; 0xf49bb8b633338561; 0x7bf329ee636d1eea; 0x012b592653589793;
   0x4e7b2d0d9b47ba97; 0x34a35dc5ab7233ee; 0xbbcbcc9dfb2ca865; 0xc113bc55cb19211c;
   0x5863dbf1e3ac9dec; 0x22bbab39d3991495; 0xadd33a6183c78f1e; 0xd70b4aa9b3f20667;
   0x985b3e827bed2b63; 0xe2834e4a4bd8a21a; 0x6debdf121b863991; 0x1733afda2bb3b0e8;
   0xf34b37458bb86399; 0x8993478dbb8deae0; 0x06fbd6d5ebd3716b; 0x7c23a61ddbe6f812;
   0x3373d23613f9d516; 0x49aba2fe23cc5c6f; 0xc6c333a67392c7e4; 0xbc1b436e43a74e9d;
   0x95ac9329ac4bc9b5; 0xef74e3e19c7e40cc; 0x601c72b9cc20db47; 0x1ac40271fc15523e;
   0x5594765a340a7f3a; 0x2f4c0692043ff643; 0xa02497ca54616dc8; 0xdafce7026454e4b1;
   0x3e847f9dc45f37c0; 0x445c0f55f46abeb9; 0xcb349e0da4342532; 0xb1eceec59401ac4b;
   0xfebc9aee5c1e814f; 0x8464ea266c2b0836; 0x0b0c7b7e3c7593bd; 0x71d40bb60c401ac4;
   0xe8a46c1224f5a634; 0x927c1cda14c02f4d; 0x1d148d82449eb4c6; 0x67ccfd4a74ab3dbf;
   0x289c8961bcb410bb; 0x5244f9a98c8199c2; 0xdd2c68f1dcdf0249; 0xa7f41839ecea8b30;
   0x438c80a64ce15841; 0x3954f06e7cd4d138; 0xb63c61362c8a4ab3; 0xcce411fe1cbfc3ca;
   0x83b465d5d4a0eece; 0xf96c151de49567b7; 0x76048445b4cbfc3c; 0x0cdcf48d84fe7545;
   0x6fbd6d5ebd3716b7; 0x15651d968d029fce; 0x9a0d8ccedd5c0445; 0xe0d5fc06ed698d3c;
   0xaf85882d2576a038; 0xd55df8e515432941; 0x5a3569bd451db2ca; 0x20ed197575283bb3;
   0xc49581ead523e8c2; 0xbe4df122e51661bb; 0x3125607ab548fa30; 0x4bfd10b2857d7349;
   0x04ad64994d625e4d; 0x7e7514517d57d734; 0xf11d85092d094cbf; 0x8bc5f5c11d3cc5c6;
   0x12b5926535897936; 0x686de2ad05bcf04f; 0xe70573f555e26bc4; 0x9ddd033d65d7e2bd;
   0xd28d7716adc8cfb9; 0xa85507de9dfd46c0; 0x273d9686cda3dd4b; 0x5de5e64efd965432;
   0xb99d7ed15d9d8743; 0xc3450e196da80e3a; 0x4c2d9f413df695b1; 0x36f5ef890dc31cc8;
   0x79a59ba2c5dc31cc; 0x037deb6af5e9b8b5; 0x8c157a32a5b7233e; 0xf6cd0afa9582aa47;
   0x4ad64994d625e4da; 0x300e395ce6106da3; 0xbf66a804b64ef628; 0xc5bed8cc867b7f51;
   0x8aeeace74e645255; 0xf036dc2f7e51db2c; 0x7f5e4d772e0f40a7; 0x05863dbf1e3ac9de;
   0xe1fea520be311aaf; 0x9b26d5e88e0493d6; 0x144e44b0de5a085d; 0x6e963478ee6f8124;
   0x21c640532670ac20; 0x5b1e309b16452559; 0xd476a1c3461bbed2; 0xaeaed10b762e37ab;
   0x37deb6af5e9b8b5b; 0x4d06c6676eae0222; 0xc26e573f3ef099a9; 0xb8b627f70ec510d0;
   0xf7e653dcc6da3dd4; 0x8d3e2314f6efb4ad; 0x0256b24ca6b12f26; 0x788ec2849684a65f;
   0x9cf65a1b368f752e; 0xe62e2ad306bafc57; 0x6946bb8b56e467dc; 0x139ecb4366d1eea5;
   0x5ccebf68aecec3a1; 0x2616cfa09efb4ad8; 0xa97e5ef8cea5d153; 0xd3a62e30fe90582a;
   0xb0c7b7e3c7593bd8; 0xca1fc72bf76cb2a1; 0x45775673a732292a; 0x3faf26bb9707a053;
   0x70ff52905f188d57; 0x0a2722586f2d042e; 0x854fb3003f739fa5; 0xff97c3c80f4616dc;
   0x1bef5b57af4dc5ad; 0x61372b9f9f784cd4; 0xee5fbac7cf26d75f; 0x9487ca0fff135e26;
   0xdbd7be24370c7322; 0xa10fceec0739fa5b; 0x2e675fb4576761d0; 0x54bf2f7c6752e8a9;
   0xcdcf48d84fe75459; 0xb71738107fd2dd20; 0x387fa9482f8c46ab; 0x42a7d9801fb9cfd2;
   0x0df7adabd7a6e2d6; 0x772fdd63e7936baf; 0xf8474c3bb7cdf024; 0x829f3cf387f8795d;
   0x66e7a46c27f3aa2c; 0x1c3fd4a417c62355; 0x935745fc4798b8de; 0xe98f353477ad31a7;
   0xa6df411fbfb21ca3; 0xdc0731d78f8795da; 0x536fa08fdfd90e51; 0x29b7d047efec8728].

(** The loop of [crc64] over the bytes of [s]; [None] stands for a read
    outside of the table. *)
Fixpoint crc64 (crc : Z) (s : list Z) : option Z :=
  match s with
  | [] => Some crc
  | byte :: s =>
      x ← mget crc64_tab (Z.lxor (u8 crc) byte);
      crc64 (Z.lxor x (Z.shiftr crc 8)) s
  end.

(** ** The bit-serial reference

    One step of the reflected shift register: divide by [x], and add the
    reflected polynomial when the bit shifted out was set. *)

Definition rpoly : Z := 0x95ac9329ac4bc9b5.
Definition bitstep (x : Z) : Z := Z.lxor (Z.shiftr x 1) (if Z.testbit x 0 then rpoly else 0).
Definition crc_bits (crc : Z) (s : list Z) : Z :=
  foldl (λ c b, Nat.iter 8 bitstep (Z.lxor c b)) crc s.

Lemma bitstep_lxor x y : bitstep (Z.lxor x y) = Z.lxor (bitstep x) (bitstep y).
Proof.
  unfold bitstep. rewrite Z.shiftr_lxor, Z.lxor_spec. apply Z.bits_inj'. intros i Hi.
  rewrite !Z.lxor_spec. destruct (Z.testbit x 0), (Z.testbit y 0); cbn [xorb]; rewrite ?Z.bits_0;
    destruct (Z.testbit (Z.shiftr x 1) i), (Z.testbit (Z.shiftr y 1) i), (Z.testbit rpoly i); done.
Qed.

Lemma bitsteps_lxor n x y :
  Nat.iter n bitstep (Z.lxor x y) = Z.lxor (Nat.iter n bitstep x) (Nat.iter n bitstep y).
Proof. induction n as [|n IH]; [done|]. rewrite !Nat.iter_succ, IH. apply bitstep_lxor. Qed.

Lemma bitstep_double x : bitstep (2 * x) = x.
Proof.
  unfold bitstep. rewrite Z.testbit_even_0, Z.lxor_0_r, Z.shiftr_div_pow2 by lia.
  rewrite Z.mul_comm. by apply Z.div_mul.
Qed.

Lemma bitsteps_shift n x : Nat.iter n bitstep (x * 2 ^ Z.of_nat n) = x.
Proof.
  revert x. induction n as [|n IH]; intros x; [by rewrite Z.mul_1_r|].
  rewrite Nat.iter_succ_r, Nat2Z.inj_succ, Z.pow_succ_r by lia.
  replace (x * (2 * 2 ^ Z.of_nat n)) with (2 * (x * 2 ^ Z.of_nat n)) by lia.
  by rewrite bitstep_double.
Qed.

Lemma split_low x k : 0 ≤ k → Z.lxor (x mod 2 ^ k) (x / 2 ^ k * 2 ^ k) = x.
Proof.
  intros. rewrite Z.lxor_comm, <- Z.add_nocarry_lxor.
  - rewrite (Z.mul_comm (x / _)). symmetry. apply Z.div_mod. lia.
  - apply Z.bits_inj'. intros i Hi. rewrite Z.land_spec, Z.bits_0. destruct (decide (i < k)).
    + by rewrite Z.mul_pow2_bits_low.
    + rewrite Z.mod_pow2_bits_high by lia. apply andb_false_r.
Qed.

(** The table is the eight-step remainder of each byte. *)
Lemma crc64_tab_correct b : byte b → mget crc64_tab b = Some (Nat.iter 8 bitstep b).
Proof.
  intros Hb.
  assert (forallb (λ n, bool_decide (mget crc64_tab (Z.of_nat n) = Some (Nat.iter 8 bitstep (Z.of_nat n))))
    (seq 0 256) = true) as Hall by (vm_compute; reflexivity).
  rewrite forallb_forall in Hall. specialize (Hall (Z.to_nat b)). unfold byte in Hb.
  rewrite Z2Nat.id in Hall by lia. apply (bool_decide_eq_true_1 _), Hall, in_seq. lia.
Qed.

Lemma byte_step x : Nat.iter 8 bitstep x = Z.lxor (Nat.iter 8 bitstep (u8 x)) (Z.shiftr x 8).
Proof.
  rewrite <- (split_low x 8) at 1 by lia. rewrite bitsteps_lxor. f_equal.
  rewrite (bitsteps_shift 8). by rewrite Z.shiftr_div_pow2.
Qed.

Lemma u8_lxor x b : byte b → u8 (Z.lxor x b) = Z.lxor (u8 x) b.
Proof.
  intros Hb. unfold uwrap. apply Z.bits_inj'. intros i Hi. destruct (decide (i < 8)).
  - rewrite Z.mod_pow2_bits_low, !Z.lxor_spec, Z.mod_pow2_bits_low by lia. done.
  - rewrite <- (Z.mod_small b (2 ^ 8)) by done.
    by rewrite Z.lxor_spec, !Z.mod_pow2_bits_high by lia.
Qed.

Lemma crc64_crc_bits crc s : Forall byte s → crc64 crc s = Some (crc_bits crc s).
Proof.
  intros Hs. revert crc. induction Hs as [|b s Hb Hs IH]; intros crc; cbn [crc64]; [done|].
  assert (byte (Z.lxor (u8 crc) b)) as Hx.
  { rewrite <- u8_lxor by done. apply uwrap_bound. lia. }
  rewrite crc64_tab_correct by done. bsimpl. rewrite IH. f_equal.
  unfold crc_bits at 2. cbn [foldl]. fold (crc_bits (Nat.iter 8 bitstep (Z.lxor crc b)) s). f_equal.
  rewrite (byte_step (Z.lxor crc b)), u8_lxor, Z.shiftr_lxor by done. f_equal.
  rewrite (Z.shiftr_eq_0 b 8), Z.lxor_0_r; [done|unfold byte in Hb; lia|].
  unfold byte in Hb. destruct (decide (b = 0)) as [-> |]; [done|]. apply Z.log2_lt_pow2; lia.
Qed.

Lemma le_val_cons b s : byte b → le_val (b :: s) = Z.lxor b (le_val s * 2 ^ 8).
Proof.
  intros Hb. unfold byte in Hb. unfold le_val. cbn [little_endian_to_Z].
  rewrite Z.shiftl_mul_pow2, Z.lor_comm, lor_low, Z.lxor_comm by lia. rewrite <- (split_low (_ + b) 8) by lia.
  rewrite Z.lxor_comm, Z.div_add_l, Z.div_small, Z.add_0_r by lia. f_equal.
  rewrite Z.add_comm, Z.mod_add, Z.mod_small by lia. done.
Qed.

(** The whole message at once: its bits, lowest first, are fed to the register. *)
Lemma crc_bits_block crc s :
  Forall byte s → crc_bits crc s = Nat.iter (8 * length s) bitstep (Z.lxor crc (le_val s)).
Proof.
  intros Hs. revert crc. induction Hs as [|b s Hb Hs IH]; intros crc; [by rewrite Z.lxor_0_r|].
  unfold crc_bits. cbn [foldl]. fold (crc_bits (Nat.iter 8 bitstep (Z.lxor crc b)) s).
  rewrite IH, le_val_cons by done. cbn [length].
  replace (8 * S (length s))%nat with (8 * length s + 8)%nat by lia.
  rewrite Nat.iter_add. f_equal.
  rewrite <- Z.lxor_assoc, (bitsteps_lxor 8 (Z.lxor crc b)). by rewrite (bitsteps_shift 8).
Qed.

(** ** No two states go to the same one *)

Lemma lxor_bound w x y : 0 ≤ w → 0 ≤ x < 2 ^ w → 0 ≤ y < 2 ^ w → 0 ≤ Z.lxor x y < 2 ^ w.
Proof.
  intros Hw Hx Hy. replace (Z.lxor x y) with (uwrap w (Z.lxor x y)); [by apply uwrap_bound|].
  unfold uwrap. apply Z.bits_inj'. intros i Hi. destruct (decide (i < w)).
  - by rewrite Z.mod_pow2_bits_low by lia.
  - rewrite Z.mod_pow2_bits_high, Z.lxor_spec by lia.
    rewrite <- (Z.mod_small x (2 ^ w)), <- (Z.mod_small y (2 ^ w)) by done.
    by rewrite !Z.mod_pow2_bits_high by lia.
Qed.

Lemma bitstep_bound x : 0 ≤ x < 2 ^ 64 → 0 ≤ bitstep x < 2 ^ 64.
Proof.
  intros Hx. apply lxor_bound; [lia| |].
  - rewrite Z.shiftr_div_pow2 by lia. change (2 ^ 1) with 2. Z.to_euclidean_division_equations; lia.
  - unfold rpoly. destruct (Z.testbit x 0); lia.
Qed.

Lemma bitsteps_bound n x : 0 ≤ x < 2 ^ 64 → 0 ≤ Nat.iter n bitstep x < 2 ^ 64.
Proof. induction n; intros; [done|]. rewrite Nat.iter_succ. auto using bitstep_bound. Qed.

Lemma bitstep_0 x : 0 ≤ x < 2 ^ 64 → bitstep x = 0 → x = 0.
Proof.
  intros Hx. unfold bitstep. rewrite Z.shiftr_div_pow2 by lia. change (2 ^ 1) with 2.
  rewrite Z.bit0_odd. pose proof (Z.div2_odd x) as Hd. rewrite Z.div2_div in Hd. destruct (Z.odd x).
  - intros H0%Z.lxor_eq. unfold rpoly in H0. Z.to_euclidean_division_equations; lia.
  - rewrite Z.lxor_0_r. cbn [Z.b2z] in Hd. lia.
Qed.

Lemma bitsteps_0 n x : 0 ≤ x < 2 ^ 64 → Nat.iter n bitstep x = 0 → x = 0.
Proof.
  revert x. induction n as [|n IH]; intros x Hx; [done|]. rewrite Nat.iter_succ_r. intros H0.
  apply bitstep_0; [done|]. apply IH; [by apply bitstep_bound|done].
Qed.

Lemma lxor_cancel_r a b l : Z.lxor a l = Z.lxor b l → a = b.
Proof.
  intros E. rewrite <- (Z.lxor_0_r a), <- (Z.lxor_0_r b), <- (Z.lxor_nilpotent l).
  by rewrite <- !Z.lxor_assoc, E.
Qed.

Lemma lxor_cancel_l a b l : Z.lxor l a = Z.lxor l b → a = b.
Proof. rewrite !(Z.lxor_comm l). apply lxor_cancel_r. Qed.

Lemma bitsteps_inj n x y :
  0 ≤ x < 2 ^ 64 → 0 ≤ y < 2 ^ 64 → Nat.iter n bitstep x = Nat.iter n bitstep y → x = y.
Proof.
  intros Hx Hy E. apply Z.lxor_eq, (bitsteps_0 n); [by apply lxor_bound; [lia|..]|].
  by rewrite bitsteps_lxor, E, Z.lxor_nilpotent.
Qed.

(** Different states stay different under the same bytes. *)
Lemma crc_bits_inj c1 c2 s :
  Forall byte s → 0 ≤ c1 < 2 ^ 64 → 0 ≤ c2 < 2 ^ 64 → crc_bits c1 s = crc_bits c2 s → c1 = c2.
Proof.
  intros Hs H1 H2. rewrite !crc_bits_block, !bitsteps_lxor by done. intros E%lxor_cancel_r.
  by apply bitsteps_inj in E.
Qed.

Lemma crc_bits_bound crc s :
  Forall byte s → 0 ≤ crc < 2 ^ 64 → 0 ≤ crc_bits crc s < 2 ^ 64.
Proof.
  intros Hs. revert crc. induction Hs as [|b s Hb Hs IH]; intros crc Hc; [done|].
  apply IH, bitsteps_bound, lxor_bound; [lia|done|]. unfold byte in Hb. lia.
Qed.

Lemma crc_bits_app crc s1 s2 : crc_bits crc (s1 ++ s2) = crc_bits (crc_bits crc s1) s2.
Proof. apply foldl_app. Qed.

Lemma le_val_small s : Forall byte s → (length s ≤ 8)%nat → 0 ≤ le_val s < 2 ^ 64.
Proof.
  intros Hs Hl. destruct (le_val_bound s Hs) as [? Hb]. split; [done|]. eapply Z.lt_le_trans; [done|].
  apply Z.pow_le_mono_r; lia.
Qed.

(** The checksum is the remainder the bit-serial shift register of the
    reflected Jones polynomial leaves on the whole message, bytes lowest bit
    first, started from the given value; the table is never read out of its
    bounds. *)
Theorem crc64_remainder crc s :
  Forall byte s → crc64 crc s = Some (Nat.iter (8 * length s) bitstep (Z.lxor crc (le_val s))).
Proof. intros Hs. by rewrite crc64_crc_bits, crc_bits_block by done. Qed.

Lemma crc64_remainder_witness :
  Forall byte (str "123456789") ∧ crc64 0 (str "123456789") = Some 0xe9c6d914c4b8d9ca.
Proof.
  assert (Forall byte (str "123456789")) as Hs by (repeat constructor; unfold byte; lia).
  split; [done|]. rewrite (crc64_remainder 0 (str "123456789") Hs). vm_compute. reflexivity.
Defined.

(** Two messages that differ in one window of at most eight bytes have
    different checksums, whatever the start value: a dump file with such a
    corruption is never accepted. *)
Theorem crc64_detects_burst crc p w1 w2 q :
  0 ≤ crc < 2 ^ 64 → Forall byte (p ++ w1 ++ q) → Forall byte w2 →
  length w1 = length w2 → (length w1 ≤ 8)%nat → w1 ≠ w2 →
  crc64 crc (p ++ w1 ++ q) ≠ crc64 crc (p ++ w2 ++ q).
Proof.
  rewrite !Forall_app. intros Hc (Hp & H1 & Hq) H2 Hl H8 Hne.
  rewrite !crc64_crc_bits by (rewrite !Forall_app; done). intros [= E]. apply Hne.
  rewrite !crc_bits_app in E. pose proof (crc_bits_bound crc p Hp Hc) as Hp'.
  apply crc_bits_inj in E; [|done|by apply crc_bits_bound..].
  pose proof (le_val_small w1 H1 H8). pose proof (le_val_small w2 H2 ltac:(lia)).
  rewrite (crc_bits_block _ w1), (crc_bits_block _ w2), Hl in E by done.
  apply bitsteps_inj, lxor_cancel_l in E; [|by apply lxor_bound; [lia|..]..].
  by rewrite <- (le_bytes_val w1 H1), <- (le_bytes_val w2 H2), Hl, E.
Qed.

Lemma crc64_detects_burst_witness :
  crc64 0 (str "12" ++ str "3456" ++ str "789") ≠ crc64 0 (str "12" ++ str "6543" ++ str "789").
Proof.
  apply crc64_detects_burst; [lia|repeat constructor; unfold byte; lia|repeat constructor; unfold byte; lia|done|cbn; lia|done].
Defined.
