(* ===== verification/Lzf.v ===== *)
(** * Compression of strings in dump files: [lzf_c.c] and [lzf_d.c]

    The compressor and the decompressor, reading and writing bytes of buffers
    through pointers (here indices).  The compressor's table of positions is
    not initialised by the code ([INIT_HTAB] is 0): it is an arbitrary
    argument of the model, and the theorems hold whatever it contains.

    What is shown: the decompressor never leaves its buffers, on any input;
    the compressor never leaves its buffers and always ends; and decompressing
    what was compressed gives the original bytes.  The last one goes through
    the language of the compressed format (literal runs and back references):
    the compressor writes a sequence of tokens that stands for its input, and
    the decompressor evaluates it. *)

From S2P Require Import Prelude.
Local Open Scope Z_scope.

(** ** Configuration ([lzfP.h]) and constants *)

Definition HLOG : Z := 16.
Definition HSIZE : Z := Z.shiftl 1 HLOG.
Definition MAX_LIT : Z := Z.shiftl 1 5.
Definition MAX_OFF : Z := Z.shiftl 1 13.
Definition MAX_REF : Z := Z.shiftl 1 8 + Z.shiftl 1 3.

Inductive errno := NOERR | E2BIG | EINVAL.

(** ** Decompression *)

(** [do *op++ = *ip++; while (--ctrl);] for [n] bytes. *)
Fixpoint copy_in (n : nat) (inp out : list Z) (ip op : Z) : option (list Z) :=
  match n with
  | O => Some out
  | S n => b ← mget inp ip; out ← mset out op b; copy_in n inp out (ip + 1) (op + 1)
  end.

(** [*op++ = *ref++] for [n] bytes: source and destination may overlap. *)
Fixpoint copy_ref (n : nat) (out : list Z) (ref op : Z) : option (list Z) :=
  match n with
  | O => Some out
  | S n => b ← mget out ref; out ← mset out op b; copy_ref n out (ref + 1) (op + 1)
  end.

(** One round of the loop: the new [ip], [op] and output, or the error. *)
Definition decompress_step (inp out : list Z) (ip op : Z) : option (errno + Z * Z * list Z) :=
  let in_end := len inp in
  let out_end := len out in
  ctrl ← mget inp ip;
  let ip := ip + 1 in
  if ctrl <? Z.shiftl 1 5 then
    let ctrl := ctrl + 1 in
    if op + ctrl >? out_end then Some (inl E2BIG)
    else if ip + ctrl >? in_end then Some (inl EINVAL)
    else
      out ← copy_in (Z.to_nat ctrl) inp out ip op;
      Some (inr (ip + ctrl, op + ctrl, out))
  else
    let len := Z.shiftr ctrl 5 in
    let ref := op - Z.shiftl (Z.land ctrl 0x1f) 8 - 1 in
    if ip >=? in_end then Some (inl EINVAL)
    else
      r ← (if len =? 7 then
             b ← mget inp ip;
             let ip := ip + 1 in
             if ip >=? in_end then Some None else Some (Some (len + b, ip))
           else Some (Some (len, ip)));
      match r with
      | None => Some (inl EINVAL)
      | Some (len, ip) =>
          b ← mget inp ip;
          let ref := ref - b in
          let ip := ip + 1 in
          if op + len + 2 >? out_end then Some (inl E2BIG)
          else if ref <? 0 then Some (inl EINVAL)
          else
            out ← copy_ref (Z.to_nat (len + 2)) out ref op;
            Some (inr (ip, op + len + 2, out))
      end.

(** [do ... while (ip < in_end)] *)
Fixpoint decompress_loop (fuel : nat) (inp out : list Z) (ip op : Z) : option (Z * errno * list Z) :=
  match fuel with
  | O => None
  | S fuel =>
      r ← decompress_step inp out ip op;
      match r with
      | inl e => Some (0, e, out)
      | inr (ip, op, out) =>
          if ip <? len inp then decompress_loop fuel inp out ip op else Some (op, NOERR, out)
      end
  end.

(** The number of bytes written, 0 on errors ([errno] says which), and the
    output buffer.  A round consumes at least one byte of the input. *)
Definition lzf_decompress (inp out : list Z) : option (Z * errno * list Z) :=
  decompress_loop (length inp + 1) inp out 0 0.

(** ** Compression *)

Definition FRST (p : list Z) (i : Z) : option Z :=
  a ← mget p i; b ← mget p (i + 1); Some (Z.lor (Z.shiftl a 8) b).
Definition NEXT (v : Z) (p : list Z) (i : Z) : option Z :=
  c ← mget p (i + 2); Some (Z.lor (u32 (Z.shiftl v 8)) c).
Definition IDX (h : Z) : Z := Z.land (u32 (Z.shiftr h (3 * 8 - HLOG) - u32 (h * 5))) (HSIZE - 1).

(** The positions last seen for each hash, as offsets from the start of the
    input; [IDX] is below [HSIZE], so no access is out of the table. *)
Definition LZF_STATE : Type := Z → Z.
Definition set_slot (htab : LZF_STATE) (i ip : Z) : LZF_STATE := λ j, if j =? i then ip else htab j.

Record lzf_state := mkLzf {
  htab : LZF_STATE;
  ip : Z;
  op : Z;
  lit : Z;
  hval : Z;
  out : list Z
}.

(** [len++; if (ref[len] != ip[len]) break;] repeated [n] times: the length
    and whether the loop was left. *)
Fixpoint match_unrolled (n : nat) (inp : list Z) (ref ip len : Z) : option (Z * bool) :=
  match n with
  | O => Some (len, false)
  | S n =>
      let len := len + 1 in
      a ← mget inp (ref + len); b ← mget inp (ip + len);
      if a =? b then match_unrolled n inp ref ip len else Some (len, true)
  end.

(** [do len++; while (len < maxlen && ref[len] == ip[len]);] *)
Fixpoint match_tail (fuel : nat) (inp : list Z) (ref ip len maxlen : Z) : option Z :=
  match fuel with
  | O => None
  | S fuel =>
      let len := len + 1 in
      if len <? maxlen then
        a ← mget inp (ref + len); b ← mget inp (ip + len);
        if a =? b then match_tail fuel inp ref ip len maxlen else Some len
      else Some len
  end.

(** The [for (;;)] that measures the match: its length in bytes. *)
Definition match_length (inp : list Z) (ref ip maxlen : Z) : option Z :=
  r ← (if maxlen >? 16 then match_unrolled 16 inp ref ip 2 else Some (2, false));
  let '(len, broke) := r in
  if (broke : bool) then Some len else match_tail (Z.to_nat MAX_REF) inp ref ip len maxlen.

(** [op[-lit-1] = lit-1; op -= !lit;] *)
Definition stop_run (out : list Z) (op lit : Z) : option (list Z * Z) :=
  out ← mset out (op - lit - 1) (u8 (lit - 1));
  Some (out, if lit =? 0 then op - 1 else op).

(** Is there a usable match at [ref]?  [off] is [unsigned long]. *)
Definition is_match (inp : list Z) (ref ip : Z) : option bool :=
  let in_end := len inp in
  let off := u64 (ip - ref - 1) in
  if (off <? MAX_OFF) && (ip + 4 <? in_end) && (ref >? 0) then
    r0 ← mget inp ref; p0 ← mget inp ip;
    r1 ← mget inp (ref + 1); p1 ← mget inp (ip + 1);
    if (r0 =? p0) && (r1 =? p1) then
      r2 ← mget inp (ref + 2); p2 ← mget inp (ip + 2);
      Some (r2 =? p2)
    else Some false
  else Some false.

(** The bytes of a back reference; [len] is the match length less 2. *)
Definition emit_ref (out : list Z) (op off len : Z) : option (list Z * Z) :=
  r ← (if len <? 7 then
         out ← mset out op (u8 (Z.shiftr off 8 + Z.shiftl len 5)); Some (out, op + 1)
       else
         out ← mset out op (u8 (Z.shiftr off 8 + Z.shiftl 7 5));
         out ← mset out (op + 1) (u8 (len - 7)); Some (out, op + 2));
  let '(out, op) := r in
  out ← mset out op (u8 off); Some (out, op + 1).

(** [lit++; *op++ = *ip++;] and, at [MAX_LIT], the end of the run. *)
Definition literal (inp : list Z) (s : lzf_state) : option lzf_state :=
  b ← mget inp (ip s);
  out ← mset (out s) (op s) b;
  let lit := lit s + 1 in
  let op := op s + 1 in
  let ip := ip s + 1 in
  if lit =? MAX_LIT then
    out ← mset out (op - lit - 1) (u8 (lit - 1));
    Some (mkLzf (htab s) ip (op + 1) 0 (hval s) out)
  else Some (mkLzf (htab s) ip op lit (hval s) out).

(** What a round of the main loop does. *)
Inductive round := Full (o : list Z) | Break (s : lzf_state) | Continue (s : lzf_state).

(** The match branch; [off] and [ref] are those of the match. *)
Definition compress_match (out_len : Z) (inp : list Z) (s : lzf_state) (ref : Z) : option round :=
  let in_end := len inp in
  let off := u64 (ip s - ref - 1) in
  let maxlen := u32 (in_end - ip s - 2) in
  let maxlen := if maxlen >? MAX_REF then MAX_REF else maxlen in
  '(out1, op1) ← stop_run (out s) (op s) (lit s);
  if op1 + 3 + 1 >=? out_len then Some (Full out1)
  else
    mlen ← match_length inp ref (ip s) maxlen;
    let mlen := mlen - 2 in
    '(out2, op2) ← emit_ref out1 op1 off mlen;
    let op2 := op2 + 1 in
    let ip1 := ip s + 1 + mlen + 1 in
    if ip1 >=? in_end - 2 then Some (Break (mkLzf (htab s) ip1 op2 0 (hval s) out2))
    else
      h ← FRST inp (ip1 - 2);
      h ← NEXT h inp (ip1 - 2);
      let tab := set_slot (htab s) (IDX h) (ip1 - 2) in
      h ← NEXT h inp (ip1 - 1);
      let tab := set_slot tab (IDX h) (ip1 - 1) in
      Some (Continue (mkLzf tab ip1 op2 0 h out2)).

Definition compress_round (out_len : Z) (inp : list Z) (s : lzf_state) : option round :=
  h ← NEXT (hval s) inp (ip s);
  let ref := htab s (IDX h) in
  let s := mkLzf (set_slot (htab s) (IDX h) (ip s)) (ip s) (op s) (lit s) h (out s) in
  hit ← is_match inp ref (ip s);
  if (hit : bool) then compress_match out_len inp s ref
  else if op s >=? out_len then Some (Full (out s))
  else s ← literal inp s; Some (Continue s).

(** [while (ip < in_end - 2)]; [inl] is "return 0". *)
Fixpoint compress_loop (fuel : nat) (out_len : Z) (inp : list Z) (s : lzf_state)
    : option (list Z + lzf_state) :=
  if ip s <? len inp - 2 then
    match fuel with
    | O => None
    | S fuel =>
        r ← compress_round out_len inp s;
        match r with
        | Full o => Some (inl o)
        | Break s => Some (inr s)
        | Continue s => compress_loop fuel out_len inp s
        end
    end
  else Some (inr s).

(** [while (ip < in_end)], the last literals. *)
Fixpoint flush_loop (fuel : nat) (inp : list Z) (s : lzf_state) : option lzf_state :=
  if ip s <? len inp then
    match fuel with
    | O => None
    | S fuel => s ← literal inp s; flush_loop fuel inp s
    end
  else Some s.

(** The compressed length, or 0, and the output buffer.  [tab] is what the
    stack holds where [htab] is; [obuf] is the memory at [out_data], of which
    the caller lets the function use [out_len] bytes. *)
Definition lzf_compress (tab : LZF_STATE) (inp obuf : list Z) (out_len : Z) : option (Z * list Z) :=
  if (len inp =? 0) || (out_len =? 0) then Some (0, obuf)
  else
    h ← FRST inp 0;
    r ← compress_loop (length inp) out_len inp (mkLzf tab 0 1 0 h obuf);
    match r with
    | inl o => Some (0, o)
    | inr s =>
        if op s + 3 >? out_len then Some (0, out s)
        else
          s ← flush_loop (length inp) inp s;
          '(o, op) ← stop_run (out s) (op s) (lit s);
          Some (op, o)
    end.

(** ** The compressed format

    [000LLLLL] and L+1 bytes: a literal run; [LLLooooo oooooooo] or
    [111ooooo LLLLLLLL oooooooo]: a copy of L+2 (or L+7+2) bytes from
    [offset + 1] bytes back. *)

Inductive token := Lit (l : list Z) | Ref (off n : Z).

Definition enc (t : token) : list Z :=
  match t with
  | Lit l => (len l - 1) :: l
  | Ref off n =>
      if n <? 7 then [off / 256 + n * 32; off mod 256] else [off / 256 + 224; n - 7; off mod 256]
  end.

Fixpoint back_copy (n : nat) (off : Z) (o : list Z) : list Z :=
  match n with
  | O => o
  | S n => match mget o (len o - off - 1) with Some b => back_copy n off (o ++ [b]) | None => o end
  end.

Definition run (o : list Z) (t : token) : list Z :=
  match t with Lit l => o ++ l | Ref off n => back_copy (Z.to_nat (n + 2)) off o end.

Definition token_ok (o : list Z) (t : token) : Prop :=
  match t with
  | Lit l => 1 ≤ len l ≤ 32
  | Ref off n => 0 ≤ off < 8192 ∧ off < len o ∧ 1 ≤ n ≤ 262
  end.

Fixpoint tokens_ok (o : list Z) (ts : list token) : Prop :=
  match ts with [] => True | t :: ts => token_ok o t ∧ tokens_ok (run o t) ts end.

Definition encode (ts : list token) : list Z := mjoin (enc <$> ts).
Definition evaluate (ts : list token) : list Z := foldl run [] ts.

(** ** The decompressor evaluates the format *)

Lemma copy_in_ok l : ∀ pre post o f,
  (length l ≤ length f)%nat →
  copy_in (length l) (pre ++ l ++ post) (o ++ f) (len pre) (len o) =
  Some (o ++ l ++ drop (length l) f).
Proof.
  induction l as [|b l IH]; intros pre post o f Hf; cbn [copy_in length]; [done|].
  destruct f as [|x f]; [cbn in Hf; lia|]. cbn [length] in Hf.
  rewrite <- app_comm_cons, mget_app by done. bsimpl.
  rewrite mset_app by done. bsimpl.
  specialize (IH (pre ++ [b]) post (o ++ [b]) f ltac:(lia)).
  rewrite !length_app in IH. cbn [length] in IH. rewrite <- !app_assoc in IH. cbn [app] in IH.
  replace (len pre + 1) with (Z.of_nat (length pre + 1)) by lia.
  replace (len o + 1) with (Z.of_nat (length o + 1)) by lia. rewrite IH. done.
Qed.

Lemma copy_ref_ok n : ∀ o f ref,
  0 ≤ ref < len o → (n ≤ length f)%nat →
  copy_ref n (o ++ f) ref (len o) = Some (back_copy n (len o - ref - 1) o ++ drop n f).
Proof.
  induction n as [|n IH]; intros o f ref Hr Hf; cbn [copy_ref back_copy]; [done|].
  destruct f as [|x f]; [cbn in Hf; lia|]. cbn [length] in Hf.
  destruct (proj2 (mget_is_Some o ref)) as [b Hb]; [lia|].
  assert (mget (o ++ x :: f) ref = Some b) as ->.
  { apply mget_Some in Hb as [? Hb]. apply mget_Some. split; [done|]. by apply lookup_app_l_Some. }
  bsimpl. rewrite mset_app by done. bsimpl.
  replace (len o - (len o - ref - 1) - 1) with ref by lia. rewrite Hb.
  specialize (IH (o ++ [b]) f (ref + 1)). rewrite length_app in IH. cbn [length] in IH.
  rewrite <- app_assoc in IH. cbn [app] in IH.
  replace (len o + 1) with (Z.of_nat (length o + 1)) by lia. rewrite IH by lia. cbn [drop].
  by replace (Z.of_nat (length o + 1) - (ref + 1) - 1) with (len o - ref - 1) by lia.
Qed.

Lemma back_copy_length n : ∀ off o,
  0 ≤ off < len o → length (back_copy n off o) = (length o + n)%nat.
Proof.
  induction n as [|n IH]; intros off o Ho; cbn [back_copy]; [lia|].
  destruct (proj2 (mget_is_Some o (len o - off - 1))) as [b Hb]; [lia|].
  rewrite Hb.
  rewrite IH; rewrite length_app; cbn [length]; lia.
Qed.

(** The control byte of a back reference. *)
Lemma ctrl_fields a n : 0 ≤ a < 32 → 0 ≤ n →
  Z.shiftr (a + n * 32) 5 = n ∧ Z.land (a + n * 32) 0x1f = a.
Proof.
  intros Ha Hn. rewrite Z.shiftr_div_pow2 by lia. change 0x1f with (2 ^ 5 - 1).
  rewrite land_mask by lia. change (2 ^ 5) with 32. Z.to_euclidean_division_equations; lia.
Qed.

Lemma enc_length t o : token_ok o t → 1 ≤ len (enc t).
Proof. destruct t as [l|off n]; cbn; [lia|]. destruct (_ <? _); cbn; lia. Qed.

Lemma decompress_step_ok t pre post o f :
  token_ok o t → len (run o t) ≤ len o + len f →
  ∃ f', decompress_step (pre ++ enc t ++ post) (o ++ f) (len pre) (len o) =
    Some (inr (len (pre ++ enc t), len (run o t), run o t ++ f')) ∧
    len (run o t) + len f' = len o + len f.
Proof.
  intros Hok Hlen. unfold decompress_step. rewrite !length_app.
  destruct t as [l|off n]; cbn [enc token_ok run] in *.
  - rewrite length_app in *.
    rewrite <- app_comm_cons, (mget_app pre (l ++ post) (len l - 1) (len pre)) by done. bsimpl.
    change (Z.shiftl 1 5) with 32. rewrite (proj2 (Z.ltb_lt _ _)) by lia.
    rewrite !Z.gtb_ltb. rewrite !(proj2 (Z.ltb_ge _ _)) by (cbn [length]; lia).
    replace (Z.to_nat (len l - 1 + 1)) with (length l) by lia.
    pose proof (copy_in_ok l (pre ++ [len l - 1]) post o f ltac:(lia)) as E.
    rewrite length_app, <- app_assoc in E. cbn [length app] in E.
    replace (len pre + 1) with (Z.of_nat (length pre + 1)) by lia. rewrite E. bsimpl.
    exists (drop (length l) f). split; [|rewrite length_drop; lia].
    rewrite <- app_assoc. repeat f_equal; cbn [length]; lia.
  - destruct Hok as (Hoff & Ho & Hn).
    rewrite back_copy_length in * by lia.
    assert (0 ≤ off / 256 < 32) as Hdiv by (Z.to_euclidean_division_equations; lia).
    pose proof (Z.div_mod off 256 ltac:(lia)) as Hdm.
    pose proof (Z.mod_pos_bound off 256 ltac:(lia)).
    assert (∀ ref, ref = len o - off - 1 →
      copy_ref (Z.to_nat (n + 2)) (o ++ f) ref (len o) =
      Some (back_copy (Z.to_nat (n + 2)) off o ++ drop (Z.to_nat (n + 2)) f)) as Hcopy.
    { intros ref ->. rewrite copy_ref_ok by lia. by replace (len o - (len o - off - 1) - 1) with off by lia. }
    exists (drop (Z.to_nat (n + 2)) f). split; [|rewrite length_drop; lia].
    change (Z.shiftl 1 5) with 32.
    destruct (Z.ltb_spec n 7) as [Hn7|Hn7].
    + destruct (ctrl_fields (off / 256) n) as [E1 E2]; [done|lia|].
      rewrite (mget_at pre [off / 256 + n * 32; off mod 256] post 0 (len pre) _ eq_refl) by lia. bsimpl.
      rewrite (proj2 (Z.ltb_ge _ _)), E1, E2 by lia.
      rewrite Z.geb_leb, (proj2 (Z.leb_gt _ _)) by (cbn [length]; lia).
      rewrite (proj2 (Z.eqb_neq _ _)) by lia. bsimpl.
      rewrite (mget_at pre [off / 256 + n * 32; off mod 256] post 1 (len pre + 1) _ eq_refl) by lia. bsimpl.
      rewrite Z.gtb_ltb, !(proj2 (Z.ltb_ge _ _)), Hcopy by (rewrite ?Z.shiftl_mul_pow2; lia).
      cbn [mbind option_bind length]. repeat f_equal; lia.
    + destruct (ctrl_fields (off / 256) 7) as [E1 E2]; [done|lia|]. change (7 * 32) with 224 in *.
      rewrite (mget_at pre [off / 256 + 224; n - 7; off mod 256] post 0 (len pre) _ eq_refl) by lia. bsimpl.
      rewrite (proj2 (Z.ltb_ge _ _)), E1, E2 by lia.
      rewrite Z.geb_leb, (proj2 (Z.leb_gt _ _)) by (cbn [length]; lia). change (7 =? 7) with true. cbn iota.
      rewrite (mget_at pre [off / 256 + 224; n - 7; off mod 256] post 1 (len pre + 1) _ eq_refl) by lia. bsimpl.
      rewrite Z.geb_leb, (proj2 (Z.leb_gt _ _)) by (cbn [length]; lia). bsimpl.
      rewrite (mget_at pre [off / 256 + 224; n - 7; off mod 256] post 2 (len pre + 1 + 1) _ eq_refl) by lia. bsimpl.
      replace (7 + (n - 7)) with n by lia.
      rewrite Z.gtb_ltb, !(proj2 (Z.ltb_ge _ _)), Hcopy by (rewrite ?Z.shiftl_mul_pow2; lia).
      cbn [mbind option_bind length]. repeat f_equal; lia.
Qed.

Lemma run_grows o t : token_ok o t → len o ≤ len (run o t).
Proof.
  destruct t as [l|off n]; cbn [run token_ok]; intros Hok; [rewrite length_app; lia|].
  rewrite back_copy_length; lia.
Qed.

Lemma evaluate_grows ts : ∀ o, tokens_ok o ts → len o ≤ len (foldl run o ts).
Proof.
  induction ts as [|t ts IH]; intros o Hok; cbn [foldl]; [done|]. destruct Hok as [Ht Hts].
  specialize (IH _ Hts). pose proof (run_grows o t Ht). lia.
Qed.

Lemma encode_cons t ts : encode (t :: ts) = enc t ++ encode ts.
Proof. done. Qed.

Lemma decompress_loop_ok ts : ∀ fuel pre o f,
  ts ≠ [] → tokens_ok o ts → len (foldl run o ts) ≤ len o + len f → (length ts ≤ fuel)%nat →
  ∃ f', decompress_loop fuel (pre ++ encode ts) (o ++ f) (len pre) (len o) =
    Some (len (foldl run o ts), NOERR, foldl run o ts ++ f').
Proof.
  induction ts as [|t ts IH]; intros fuel pre o f Hne Hok Hlen Hf; [done|].
  destruct Hok as [Ht Hts].
  destruct fuel as [|fuel]; [cbn in Hf; lia|]. cbn [decompress_loop foldl length] in *.
  rewrite encode_cons.
  pose proof (evaluate_grows ts _ Hts) as Hg.
  destruct (decompress_step_ok t pre (encode ts) o f Ht) as (f' & E & Hf'); [lia|].
  rewrite E. bsimpl. destruct ts as [|t' ts'].
  - cbn [encode mjoin list_join fmap list_fmap]. rewrite app_nil_r, Z.ltb_irrefl. eauto.
  - assert (1 ≤ len (encode (t' :: ts'))) as Hpos.
    { rewrite encode_cons, length_app.
      destruct Hts as [Ht' _]. pose proof (enc_length t' _ Ht'). lia. }
    rewrite (proj2 (Z.ltb_lt _ _)) by (rewrite !length_app; lia).
    rewrite (app_assoc pre). apply IH; [done|done|lia|lia].
Qed.

Lemma tokens_encode_length ts : ∀ o, tokens_ok o ts → (length ts ≤ length (encode ts))%nat.
Proof.
  induction ts as [|t ts IH]; intros o Hok; [done|]. destruct Hok as [Ht Hts].
  rewrite encode_cons, length_app. cbn [length].
  pose proof (enc_length t o Ht). specialize (IH _ Hts). lia.
Qed.

Lemma lzf_decompress_ok ts obuf :
  ts ≠ [] → tokens_ok [] ts → len (evaluate ts) ≤ len obuf →
  ∃ f, lzf_decompress (encode ts) obuf = Some (len (evaluate ts), NOERR, evaluate ts ++ f).
Proof.
  intros Hne Hok Hl. unfold lzf_decompress.
  pose proof (tokens_encode_length ts [] Hok).
  apply (decompress_loop_ok ts _ [] [] obuf); [done|done|done|lia].
Qed.

(** ** The decompressor stays in its buffers *)

Lemma mset_is_Some (m : list Z) i x : 0 ≤ i < len m → ∃ m', mset m i x = Some m' ∧ length m' = length m.
Proof.
  intros Hi. unfold mset. rewrite bool_decide_eq_true_2 by done. eexists. split; [done|].
  apply length_insert.
Qed.

Lemma copy_in_safe n : ∀ inp out ip op,
  0 ≤ ip → ip + Z.of_nat n ≤ len inp → 0 ≤ op → op + Z.of_nat n ≤ len out →
  ∃ out', copy_in n inp out ip op = Some out' ∧ length out' = length out.
Proof.
  induction n as [|n IH]; intros inp out ip op H1 H2 H3 H4; cbn [copy_in]; [eauto|].
  destruct (proj2 (mget_is_Some inp ip)) as [b ->]; [lia|]. bsimpl.
  destruct (mset_is_Some out op b) as (out1 & -> & Hl); [lia|]. bsimpl.
  destruct (IH inp out1 (ip + 1) (op + 1)) as (out2 & -> & Hl2); [lia..|]. eexists. split; [done|lia].
Qed.

Lemma copy_ref_safe n : ∀ out ref op,
  0 ≤ ref < op → op + Z.of_nat n ≤ len out →
  ∃ out', copy_ref n out ref op = Some out' ∧ length out' = length out.
Proof.
  induction n as [|n IH]; intros out ref op H1 H2; cbn [copy_ref]; [eauto|].
  destruct (proj2 (mget_is_Some out ref)) as [b ->]; [lia|]. bsimpl.
  destruct (mset_is_Some out op b) as (out1 & -> & Hl); [lia|]. bsimpl.
  destruct (IH out1 (ref + 1) (op + 1)) as (out2 & -> & Hl2); [lia..|]. eexists. split; [done|lia].
Qed.

Lemma mget_byte (m : list Z) i : Forall byte m → 0 ≤ i < len m → ∃ b, mget m i = Some b ∧ byte b.
Proof.
  intros Hm Hi. destruct (proj2 (mget_is_Some m i) Hi) as [b Hb]. exists b. split; [done|].
  apply mget_Some in Hb as [_ Hb]. by eapply Forall_lookup_1.
Qed.

Lemma decompress_step_safe inp out ip op :
  Forall byte inp → 0 ≤ ip < len inp → 0 ≤ op ≤ len out →
  ∃ r, decompress_step inp out ip op = Some r ∧
    match r with
    | inl e => e ≠ NOERR
    | inr (ip', op', out') => ip < ip' ≤ len inp ∧ op < op' ≤ len out ∧ length out' = length out
    end.
Proof.
  intros Hb Hip Hop. unfold decompress_step.
  destruct (mget_byte inp ip Hb Hip) as (c & -> & Hc). bsimpl. unfold byte in Hc.
  change (Z.shiftl 1 5) with 32. destruct (Z.ltb_spec c 32).
  - rewrite !Z.gtb_ltb. destruct (Z.ltb_spec (len out) (op + (c + 1))); [by eexists|].
    destruct (Z.ltb_spec (len inp) (ip + 1 + (c + 1))); [by eexists|].
    destruct (copy_in_safe (Z.to_nat (c + 1)) inp out (ip + 1) op) as (out' & -> & Hl); [lia..|].
    eexists. split; [done|]. cbn iota. lia.
  - rewrite Z.geb_leb. destruct (Z.leb_spec (len inp) (ip + 1)); [by eexists|].
    rewrite Z.shiftr_div_pow2, Z.shiftl_mul_pow2 by lia. change 0x1f with (2 ^ 5 - 1). rewrite land_mask by lia.
    assert (1 ≤ c / 2 ^ 5 ≤ 7) as Hl7 by (change (2 ^ 5) with 32; Z.to_euclidean_division_equations; lia).
    pose proof (Z.mod_pos_bound c (2 ^ 5) ltac:(lia)).
    assert (∀ n j, 1 ≤ n → ip < j < len inp →
      ∃ r, (b ← mget inp j;
            if op + n + 2 >? len out then Some (inl E2BIG)
            else if op - c mod 2 ^ 5 * 2 ^ 8 - 1 - b <? 0 then Some (inl EINVAL)
            else out ← copy_ref (Z.to_nat (n + 2)) out (op - c mod 2 ^ 5 * 2 ^ 8 - 1 - b) op;
                 Some (inr (j + 1, op + n + 2, out))) = Some r ∧
        match r with
        | inl e => e ≠ NOERR
        | inr (ip', op', out') => ip < ip' ≤ len inp ∧ op < op' ≤ len out ∧ length out' = length out
        end) as Hcopy.
    { intros n j Hn Hj. destruct (mget_byte inp j Hb) as (b & -> & Hbb); [lia|]. unfold byte in Hbb.
      bsimpl. rewrite Z.gtb_ltb. destruct (Z.ltb_spec (len out) (op + n + 2)); [by eexists|].
      destruct (Z.ltb_spec (op - c mod 2 ^ 5 * 2 ^ 8 - 1 - b) 0); [by eexists|].
      destruct (copy_ref_safe (Z.to_nat (n + 2)) out (op - c mod 2 ^ 5 * 2 ^ 8 - 1 - b) op) as (o & -> & Hl); [lia..|].
      eexists. split; [done|]. cbn iota. lia. }
    destruct (_ =? 7) eqn:E7; bsimpl; [|apply Hcopy; lia].
    destruct (mget_byte inp (ip + 1) Hb) as (b & -> & Hbb); [lia|]. unfold byte in Hbb. bsimpl.
    rewrite Z.geb_leb. destruct (Z.leb_spec (len inp) (ip + 1 + 1)); bsimpl; [by eexists|].
    apply Hcopy; lia.
Qed.

Lemma decompress_loop_safe fuel : ∀ inp out ip op,
  Forall byte inp → 0 ≤ ip < len inp → 0 ≤ op ≤ len out → len inp - ip ≤ Z.of_nat fuel →
  ∃ n e out', decompress_loop fuel inp out ip op = Some (n, e, out') ∧
    length out' = length out ∧ 0 ≤ n ≤ len out ∧ (e ≠ NOERR ↔ n = 0).
Proof.
  induction fuel as [|fuel IH]; intros inp out ip op Hb Hip Hop Hf; [lia|]. cbn [decompress_loop].
  destruct (decompress_step_safe inp out ip op Hb Hip Hop) as (r & -> & Hr). bsimpl.
  destruct r as [e|[[ip' op'] out']].
  - exists 0, e, out. split; [done|]. split; [done|]. split; [lia|done].
  - destruct Hr as (? & ? & Hl). destruct (Z.ltb_spec ip' (len inp)).
    + destruct (IH inp out' ip' op') as (n & e & out2 & E & ? & ? & ?); [done|lia..|].
      exists n, e, out2. split; [done|]. split; [lia|]. split; [lia|done].
    + exists op', NOERR, out'. split; [done|]. split; [lia|]. split; [lia|]. split; [done|lia].
Qed.

(** ** Matches *)

Section matches.
Context (inp : list Z).

(** The [n] bytes at [ref] and at [ip] are the same. *)
Definition same (ref ip n : Z) : Prop := ∀ j, 0 ≤ j < n → mget inp (ref + j) = mget inp (ip + j).

Lemma same_succ ref ip n :
  same ref ip n → mget inp (ref + n) = mget inp (ip + n) → same ref ip (n + 1).
Proof. intros Hs E j Hj. destruct (decide (j = n)) as [-> |]; [done|]. apply Hs. lia. Qed.

Lemma compare_at {B} ref ip n (f g : option B) :
  0 ≤ ref < ip → 0 ≤ n → ip + n < len inp →
  ∃ a b, mget inp (ref + n) = Some a ∧ mget inp (ip + n) = Some b ∧
    (x ← mget inp (ref + n); y ← mget inp (ip + n); if x =? y then f else g) = (if a =? b then f else g).
Proof.
  intros. destruct (proj2 (mget_is_Some inp (ref + n))) as [a Ha]; [lia|].
  destruct (proj2 (mget_is_Some inp (ip + n))) as [b Hb]; [lia|]. exists a, b. rewrite Ha, Hb. done.
Qed.

Lemma match_unrolled_ok n ref ip : ∀ len0,
  0 ≤ ref < ip → 0 ≤ len0 → ip + len0 + Z.of_nat n < len inp → same ref ip (len0 + 1) →
  ∃ l b, match_unrolled n inp ref ip len0 = Some (l, b) ∧ len0 ≤ l ≤ len0 + Z.of_nat n ∧
    if b : bool then len0 < l ∧ same ref ip l else l = len0 + Z.of_nat n ∧ same ref ip (l + 1).
Proof.
  induction n as [|n IH]; intros len0 Hr H0 Hl Hs; cbn [match_unrolled].
  { exists len0, false. split; [done|]. split; [lia|]. split; [lia|done]. }
  destruct (compare_at ref ip (len0 + 1) (match_unrolled n inp ref ip (len0 + 1)) (Some (len0 + 1, true)))
    as (a & b & Ha & Hb & ->); [done|lia|lia|].
  destruct (Z.eqb_spec a b) as [-> |].
  - destruct (IH (len0 + 1)) as (l & b' & -> & ? & Hb'); [done|lia|lia|by apply same_succ; [|congruence]|].
    exists l, b'. split; [done|]. split; [lia|]. destruct b', Hb'; split; try done; lia.
  - exists (len0 + 1), true. split; [done|]. split; [lia|]. split; [lia|done].
Qed.

Lemma match_tail_ok fuel ref ip maxlen : ∀ len0,
  0 ≤ ref < ip → 0 ≤ len0 → ip + maxlen ≤ len inp → same ref ip (len0 + 1) →
  (0 < fuel)%nat → maxlen - len0 ≤ Z.of_nat fuel →
  ∃ l, match_tail fuel inp ref ip len0 maxlen = Some l ∧ len0 < l ∧ (l ≤ maxlen ∨ l = len0 + 1) ∧ same ref ip l.
Proof.
  induction fuel as [|fuel IH]; intros len0 Hr H0 Hl Hs Hf Hf2; [lia|]. cbn [match_tail].
  destruct (Z.ltb_spec (len0 + 1) maxlen); [|exists (len0 + 1); split; [done|]; split; [lia|]; split; [lia|done]].
  destruct (compare_at ref ip (len0 + 1) (match_tail fuel inp ref ip (len0 + 1) maxlen) (Some (len0 + 1)))
    as (a & b & Ha & Hb & ->); [done|lia|lia|].
  destruct (Z.eqb_spec a b) as [-> |].
  - destruct (IH (len0 + 1)) as (l & -> & ? & ? & ?); [done|lia|done|by apply same_succ; [|congruence]|lia|lia|].
    exists l. split; [done|]. split; [lia|]. split; [lia|done].
  - exists (len0 + 1). split; [done|]. split; [lia|]. split; [lia|done].
Qed.

Lemma match_length_ok ref ip maxlen :
  0 ≤ ref < ip → ip + 4 < len inp → maxlen = Z.min 264 (len inp - ip - 2) → same ref ip 3 →
  ∃ n, match_length inp ref ip maxlen = Some n ∧ 3 ≤ n ≤ 264 ∧ ip + n ≤ len inp ∧ same ref ip n.
Proof.
  intros Hr Hip Hm Hs. unfold match_length. rewrite Z.gtb_ltb. change (Z.to_nat MAX_REF) with 264%nat.
  destruct (Z.ltb_spec 16 maxlen).
  - destruct (match_unrolled_ok 16 ref ip 2) as (l & b & -> & Hl & Hb); [done|lia|lia|done|].
    bsimpl. destruct b.
    + destruct Hb. exists l. split; [done|]. split; [lia|]. split; [lia|done].
    + destruct Hb as [-> Hb].
      destruct (match_tail_ok 264 ref ip maxlen (2 + Z.of_nat 16)) as (l & -> & ? & ? & ?);
        [done|lia|lia|done|lia|lia|].
      exists l. split; [done|]. split; [lia|]. split; [lia|done].
  - bsimpl.
    destruct (match_tail_ok 264 ref ip maxlen 2) as (l & -> & ? & ? & ?); [done|lia|lia|done|lia|lia|].
    exists l. split; [done|]. split; [lia|]. split; [lia|done].
Qed.

Lemma take_succ_mget (i : Z) b :
  mget inp i = Some b → take (Z.to_nat i) inp ++ [b] = take (Z.to_nat (i + 1)) inp.
Proof.
  intros [Hi Hb]%mget_Some. replace (Z.to_nat (i + 1)) with (S (Z.to_nat i)) by lia.
  symmetry. by apply take_S_r.
Qed.

(** A copy of [n] bytes from a match is what follows in the input. *)
Lemma back_copy_take n : ∀ ref ip,
  0 ≤ ref < ip → ip + Z.of_nat n ≤ len inp → same ref ip (Z.of_nat n) →
  back_copy n (ip - ref - 1) (take (Z.to_nat ip) inp) = take (Z.to_nat (ip + Z.of_nat n)) inp.
Proof.
  induction n as [|n IH]; intros ref ip Hr Hl Hs; cbn [back_copy]; [by rewrite Z.add_0_r|].
  rewrite length_take, Nat.min_l by lia.
  replace (Z.of_nat (Z.to_nat ip) - (ip - ref - 1) - 1) with ref by lia.
  destruct (proj2 (mget_is_Some inp ref)) as [b Hb]; [lia|].
  assert (mget (take (Z.to_nat ip) inp) ref = Some b) as ->.
  { apply mget_Some in Hb as [? Hb]. apply mget_Some. split; [done|]. rewrite lookup_take_lt by lia. done. }
  pose proof (Hs 0 ltac:(lia)) as E. rewrite !Z.add_0_r, Hb in E. rewrite take_succ_mget by done.
  replace (ip - ref - 1) with (ip + 1 - (ref + 1) - 1) by lia. rewrite IH; [f_equal; lia|lia|lia|].
  intros j Hj. specialize (Hs (j + 1) ltac:(lia)). by rewrite <- !Z.add_assoc, !(Z.add_comm 1).
Qed.
End matches.

(** A stray pointer of the uninitialised table: any address, for an input that
    is not in the lowest 8 kB nor in the upper half of the address space. *)
Definition pointer (ref : Z) : Prop := - 2 ^ 63 ≤ ref < 2 ^ 64 - MAX_OFF.

Lemma is_match_ok inp ref ip :
  0 ≤ ip → len inp < 2 ^ 32 → pointer ref →
  ∃ b, is_match inp ref ip = Some b ∧
    (b = true → 0 ≤ ref < ip ∧ u64 (ip - ref - 1) = ip - ref - 1 ∧ ip - ref - 1 < 8192 ∧
       ip + 4 < len inp ∧ same inp ref ip 3).
Proof.
  intros Hip Hlen Hp. unfold is_match, pointer in *. change MAX_OFF with 8192 in *.
  destruct (Z.ltb_spec (u64 (ip - ref - 1)) 8192) as [Hoff|]; cbn [andb]; [|by exists false].
  destruct (Z.ltb_spec (ip + 4) (len inp)) as [Hi4|]; cbn [andb]; [|by exists false].
  rewrite Z.gtb_ltb. destruct (Z.ltb_spec 0 ref) as [Hr|]; [|by exists false].
  assert (ref < ip) as Hlt.
  { unfold uwrap in Hoff. destruct (decide (ref < ip)); [done|]. exfalso.
    rewrite <- (Z.mod_add _ 1), Z.mod_small in Hoff by lia. lia. }
  destruct (proj2 (mget_is_Some inp ref)) as [r0 E0]; [lia|].
  destruct (proj2 (mget_is_Some inp ip)) as [p0 F0]; [lia|].
  destruct (proj2 (mget_is_Some inp (ref + 1))) as [r1 E1]; [lia|].
  destruct (proj2 (mget_is_Some inp (ip + 1))) as [p1 F1]; [lia|].
  destruct (proj2 (mget_is_Some inp (ref + 2))) as [r2 E2]; [lia|].
  destruct (proj2 (mget_is_Some inp (ip + 2))) as [p2 F2]; [lia|].
  rewrite E0, F0, E1, F1. bsimpl.
  destruct (Z.eqb_spec r0 p0) as [-> |]; cbn [andb]; [|by exists false].
  destruct (Z.eqb_spec r1 p1) as [-> |]; cbn [andb]; [|by exists false].
  rewrite E2, F2. bsimpl. eexists. split; [done|]. intros ->%Z.eqb_eq.
  split; [lia|]. split; [apply uwrap_small; lia|].
  rewrite uwrap_small in Hoff by lia. split; [lia|]. split; [done|].
  intros j Hj. assert (j = 0 ∨ j = 1 ∨ j = 2) as [-> | [-> | ->]] by lia; rewrite ?Z.add_0_r; congruence.
Qed.

(** ** The state of the compressor *)

Lemma tokens_ok_app ts t : ∀ o,
  tokens_ok o (ts ++ [t]) ↔ tokens_ok o ts ∧ token_ok (foldl run o ts) t.
Proof. induction ts as [|t' ts IH]; intros o; cbn; [tauto|]. rewrite IH. tauto. Qed.

Lemma encode_app ts t : encode (ts ++ [t]) = encode ts ++ enc t.
Proof. unfold encode. rewrite fmap_app, join_app. cbn. by rewrite app_nil_r. Qed.

Lemma evaluate_app ts t : evaluate (ts ++ [t]) = run (evaluate ts) t.
Proof. unfold evaluate. by rewrite foldl_app. Qed.

(** What is in the output: complete tokens [ts], the control byte of the open
    run, its [lit] literals; they stand for the input read so far. *)
Record compressed (inp : list Z) (L : Z) (s : lzf_state) (ts : list token) (x : Z) (l r : list Z) : Prop := {
  c_ok : tokens_ok [] ts;
  c_out : out s = encode ts ++ x :: l ++ r;
  c_len : len (out s) = L;
  c_lit : lit s = len l;
  c_max : len l < 32;
  c_op : op s = len (encode ts) + 1 + len l;
  c_ip : 0 ≤ ip s ≤ len inp;
  c_val : evaluate ts ++ l = take (Z.to_nat (ip s)) inp
}.

(** Ending the open run leaves complete tokens, up to [op]. *)
Lemma stop_run_ok inp L s ts x l r :
  compressed inp L s ts x l r →
  ∃ o op' ts' r', stop_run (out s) (op s) (lit s) = Some (o, op') ∧
    o = encode ts' ++ r' ∧ op' = len (encode ts') ∧ len o = L ∧ tokens_ok [] ts' ∧
    evaluate ts' = take (Z.to_nat (ip s)) inp ∧ op' = (if lit s =? 0 then op s - 1 else op s).
Proof.
  intros [Hok Hout Hlen Hlit Hmax Hop Hip Hval]. unfold stop_run. rewrite Hlit, Hop, Hout.
  rewrite mset_app by lia. bsimpl.
  rewrite Hout, length_app in Hlen. cbn [length] in Hlen. rewrite length_app in Hlen.
  destruct (Z.eqb_spec (len l) 0) as [H0|H0].
  - destruct l; [|cbn in H0; lia]. rewrite app_nil_r in Hval. cbn [length app] in *.
    eexists _, _, ts, _. split; [done|]. split; [done|]. split; [lia|]. split; [|done].
    rewrite length_app. cbn [length]. lia.
  - assert (u8 (len l - 1) = len l - 1) as -> by (apply uwrap_small; lia).
    eexists _, _, (ts ++ [Lit l]), r. split; [done|].
    rewrite encode_app, evaluate_app, tokens_ok_app. cbn [enc run token_ok].
    split; [by rewrite <- app_assoc|]. rewrite !length_app. cbn [length]. rewrite length_app.
    split; [lia|]. split; [lia|]. split; [split; [done|lia]|]. done.
Qed.

(** One more literal, with room for it. *)
Lemma literal_ok inp L s ts x l r :
  compressed inp L s ts x l r → ip s < len inp → op s < L - 1 ∨ (op s < L ∧ lit s < 31) →
  ∃ s' ts' x' l' r', literal inp s = Some s' ∧ compressed inp L s' ts' x' l' r' ∧
    htab s' = htab s ∧ ip s' = ip s + 1 ∧
    if lit s =? 31 then lit s' = 0 ∧ op s' = op s + 2 else lit s' = lit s + 1 ∧ op s' = op s + 1.
Proof.
  intros [Hok Hout Hlen Hlit Hmax Hop Hip Hval] Hlt Hroom. unfold literal.
  destruct (proj2 (mget_is_Some inp (ip s))) as [b Hb]; [lia|]. rewrite Hb. bsimpl.
  rewrite Hout, length_app in Hlen. cbn [length] in Hlen. rewrite length_app in Hlen.
  destruct r as [|y r]; [cbn [length] in Hlen; lia|]. cbn [length] in Hlen.
  assert (mset (out s) (op s) b = Some (encode ts ++ x :: (l ++ [b]) ++ r)) as ->.
  { rewrite Hout. replace (encode ts ++ x :: l ++ y :: r) with ((encode ts ++ x :: l) ++ y :: r)
      by (by rewrite <- app_assoc).
    rewrite mset_app by (rewrite length_app; cbn [length]; lia). by rewrite <- !app_assoc. }
  bsimpl. change MAX_LIT with 32.
  assert (evaluate ts ++ l ++ [b] = take (Z.to_nat (ip s + 1)) inp) as Hval'.
  { by rewrite app_assoc, Hval, take_succ_mget. }
  destruct (Z.eqb_spec (lit s) 31) as [H31|H31].
  - rewrite (proj2 (Z.eqb_eq (lit s + 1) 32)) by lia. rewrite mset_app by lia. bsimpl.
    destruct r as [|z r]; [cbn [length] in Hlen; lia|]. cbn [length] in Hlen.
    eexists _, (ts ++ [Lit (l ++ [b])]), z, [], r. split; [done|].
    split; [|split; [done|split; [done|split; cbn; lia]]].
    assert (u8 (lit s + 1 - 1) = len (l ++ [b]) - 1) as Hc
      by (rewrite length_app, uwrap_small; cbn [length]; lia).
    split; cbn [out lit op ip]; rewrite ?encode_app, ?evaluate_app, ?tokens_ok_app; cbn [run enc token_ok].
    + split; [done|]. rewrite length_app. cbn [length]. lia.
    + rewrite Hc, <- !app_assoc. cbn [app]. by rewrite <- app_assoc.
    + rewrite !length_app. cbn [length]. rewrite !length_app. cbn [length]. lia.
    + done.
    + cbn; lia.
    + rewrite length_app. cbn [length]. rewrite length_app. cbn [length]. lia.
    + lia.
    + by rewrite app_nil_r.
  - rewrite (proj2 (Z.eqb_neq (lit s + 1) 32)) by lia.
    eexists _, ts, x, (l ++ [b]), r. split; [done|]. split; [|done].
    split; cbn [out lit op ip]; rewrite ?length_app; cbn [length]; rewrite ?length_app; cbn [length]; try done; lia.
Qed.

Lemma emit_ref_ok E r off n :
  3 ≤ len r → 0 ≤ off < 8192 → 1 ≤ n ≤ 262 →
  ∃ r', emit_ref (E ++ r) (len E) off n = Some (E ++ enc (Ref off n) ++ r', len (E ++ enc (Ref off n))) ∧
    len (enc (Ref off n)) + len r' = len r ∧ len (enc (Ref off n)) ≤ 3.
Proof.
  intros Hr Hoff Hn. unfold emit_ref. cbn [enc].
  rewrite Z.shiftr_div_pow2, !Z.shiftl_mul_pow2 by lia.
  change (2 ^ 8) with 256. change (2 ^ 5) with 32. change (7 * 32) with 224.
  assert (0 ≤ off / 256 < 32) by (Z.to_euclidean_division_equations; lia).
  assert (u8 off = off mod 256) as -> by done.
  destruct r as [|a [|b [|c r]]]; cbn [length] in Hr; try lia.
  destruct (Z.ltb_spec n 7).
  - rewrite mset_app by done. bsimpl. rewrite uwrap_small by lia.
    replace (E ++ off / 256 + n * 32 :: b :: c :: r) with ((E ++ [off / 256 + n * 32]) ++ b :: c :: r)
      by (by rewrite <- app_assoc).
    rewrite mset_app by (rewrite length_app; cbn [length]; lia). bsimpl.
    exists (c :: r). rewrite <- !app_assoc, length_app. cbn [length app]. split; [|lia].
    do 2 f_equal. lia.
  - rewrite mset_app by done. bsimpl. rewrite !uwrap_small by lia.
    replace (E ++ off / 256 + 224 :: b :: c :: r) with ((E ++ [off / 256 + 224]) ++ b :: c :: r)
      by (by rewrite <- app_assoc).
    rewrite mset_app by (rewrite length_app; cbn [length]; lia). bsimpl.
    replace ((E ++ [off / 256 + 224]) ++ n - 7 :: c :: r) with ((E ++ [off / 256 + 224; n - 7]) ++ c :: r)
      by (by rewrite <- !app_assoc).
    rewrite mset_app by (rewrite length_app; cbn [length]; lia). bsimpl.
    exists r. rewrite <- !app_assoc, length_app. cbn [length app]. split; [|lia].
    do 2 f_equal. lia.
Qed.

Lemma FRST_ok inp i : 0 ≤ i → i + 1 < len inp → is_Some (FRST inp i).
Proof.
  intros. unfold FRST. destruct (proj2 (mget_is_Some inp i)) as [a ->]; [lia|]. bsimpl.
  destruct (proj2 (mget_is_Some inp (i + 1))) as [b ->]; [lia|]. by eexists.
Qed.

Lemma NEXT_ok v inp i : 0 ≤ i → i + 2 < len inp → is_Some (NEXT v inp i).
Proof.
  intros. unfold NEXT. destruct (proj2 (mget_is_Some inp (i + 2))) as [a ->]; [lia|]. by eexists.
Qed.

(** The state between two rounds: the tokens, the table and the room left. *)
Definition compress_inv (out_len : Z) (inp : list Z) (L : Z) (s : lzf_state) : Prop :=
  (∃ ts x l r, compressed inp L s ts x l r) ∧ (∀ i, pointer (htab s i)) ∧ op s ≤ out_len + 1.

Definition round_ok (out_len : Z) (inp : list Z) (L : Z) (s : lzf_state) (r : round) : Prop :=
  match r with
  | Full o => len o = L
  | Break s' => compress_inv out_len inp L s' ∧ len inp - 2 ≤ ip s'
  | Continue s' => compress_inv out_len inp L s' ∧ ip s < ip s'
  end.

Lemma pointer_small i : 0 ≤ i < 2 ^ 32 → pointer i.
Proof. unfold pointer. change MAX_OFF with 8192. lia. Qed.

Lemma set_slot_pointer tab i ip :
  (∀ j, pointer (tab j)) → 0 ≤ ip < 2 ^ 32 → ∀ j, pointer (set_slot tab i ip j).
Proof. intros Ht Hip j. unfold set_slot. destruct (_ =? _); [by apply pointer_small|done]. Qed.

Lemma compress_match_ok out_len inp L s ref :
  len inp < 2 ^ 32 → out_len < L → compress_inv out_len inp L s →
  0 ≤ ref < ip s → u64 (ip s - ref - 1) = ip s - ref - 1 → ip s - ref - 1 < 8192 →
  ip s + 4 < len inp → same inp ref (ip s) 3 →
  ∃ r, compress_match out_len inp s ref = Some r ∧ round_ok out_len inp L s r.
Proof.
  intros Hin HL [(ts & x & l & r & Hc) [Htab Hop]] Hr Eoff Hoff Hi4 Hs. unfold compress_match. rewrite Eoff.
  destruct (stop_run_ok _ _ _ _ _ _ _ Hc) as (o & op1 & ts1 & r1 & -> & Ho & Hop1 & Hlo & Hok1 & Hev1 & _).
  bsimpl. rewrite Z.geb_leb. destruct (Z.leb_spec out_len (op1 + 3 + 1)); [by eexists|].
  assert (len r1 = L - op1) as Hr1 by (rewrite Ho, length_app in Hlo; lia).
  rewrite uwrap_small by lia. change MAX_REF with 264. rewrite Z.gtb_ltb.
  destruct (match_length_ok inp ref (ip s) (if 264 <? len inp - ip s - 2 then 264 else len inp - ip s - 2))
    as (n & -> & Hn & Hipn & Hsn); [lia|done|destruct (Z.ltb_spec 264 (len inp - ip s - 2)); lia|done|].
  bsimpl. rewrite Ho, Hop1.
  destruct (emit_ref_ok (encode ts1) r1 (ip s - ref - 1) (n - 2)) as (r2 & -> & Hr2 & Hl3); [lia..|].
  bsimpl. rewrite app_assoc, <- encode_app.
  set (ts2 := ts1 ++ [Ref (ip s - ref - 1) (n - 2)]).
  assert (len (encode ts2) = len (encode ts1) + len (enc (Ref (ip s - ref - 1) (n - 2)))) as Hl2
    by (unfold ts2; rewrite encode_app, length_app; lia).
  destruct r2 as [|y r2]; [cbn [length] in Hr2; lia|]. cbn [length] in Hr2.
  assert (∀ tab h, compressed inp L (mkLzf tab (ip s + 1 + (n - 2) + 1) (len (encode ts2) + 1) 0 h
    (encode ts2 ++ y :: r2)) ts2 y [] r2) as Hc2.
  { intros tab h. split; cbn [out lit op ip length app].
    - unfold ts2. rewrite tokens_ok_app. fold (evaluate ts1). split; [done|]. cbn [token_ok].
      rewrite Hev1, length_take. lia.
    - done.
    - rewrite length_app. cbn [length]. lia.
    - done.
    - lia.
    - lia.
    - lia.
    - unfold ts2. rewrite app_nil_r, evaluate_app, Hev1. cbn [run].
      replace (n - 2 + 2) with n by lia. pose proof (back_copy_take inp (Z.to_nat n) ref (ip s)) as E.
      rewrite Z2Nat.id in E by lia. rewrite E by (done || lia). f_equal. lia. }
  rewrite Z.geb_leb. destruct (Z.leb_spec (len inp - 2) (ip s + 1 + (n - 2) + 1)).
  - eexists. split; [done|]. split; [|done]. split; [by eauto|]. split; [done|]. cbn [op]. lia.
  - destruct (FRST_ok inp (ip s + 1 + (n - 2) + 1 - 2)) as [h1 ->]; [lia..|]. bsimpl.
    destruct (NEXT_ok h1 inp (ip s + 1 + (n - 2) + 1 - 2)) as [h2 ->]; [lia..|]. bsimpl.
    destruct (NEXT_ok h2 inp (ip s + 1 + (n - 2) + 1 - 1)) as [h3 ->]; [lia..|]. bsimpl.
    eexists. split; [done|]. split; [|cbn [ip]; lia]. split; [by eauto|]. split; [|cbn [op]; lia].
    cbn [htab]. apply set_slot_pointer; [apply set_slot_pointer; [done|]|]; lia.
Qed.

Lemma compress_round_ok out_len inp L s :
  len inp < 2 ^ 32 → out_len < L → compress_inv out_len inp L s → ip s < len inp - 2 →
  ∃ r, compress_round out_len inp s = Some r ∧ round_ok out_len inp L s r.
Proof.
  intros Hin HL [(ts & x & l & r & Hc) [Htab Hop]] Hip. unfold compress_round.
  pose proof (c_ip _ _ _ _ _ _ _ Hc) as Hip0.
  destruct (NEXT_ok (hval s) inp (ip s)) as [h ->]; [lia..|]. cbn [mbind option_bind ip].
  set (s1 := mkLzf _ _ _ _ _ _).
  assert (compressed inp L s1 ts x l r) as Hc1 by (by destruct Hc; split).
  assert (∀ i, pointer (htab s1 i)) as Htab1 by (apply set_slot_pointer; [done|lia]).
  destruct (is_match_ok inp (htab s (IDX h)) (ip s)) as (b & -> & Hm); [lia|done|done|]. bsimpl.
  destruct b.
  - destruct (Hm eq_refl) as (? & ? & ? & ? & ?).
    apply (compress_match_ok out_len inp L s1); try done. split; [by eauto|done].
  - rewrite Z.geb_leb. destruct (Z.leb_spec out_len (op s1)).
    { eexists. split; [done|]. cbn [round_ok]. by destruct Hc1. }
    destruct (literal_ok inp L s1 ts x l r) as (s2 & ts2 & x2 & l2 & r2 & -> & Hc2 & Ht2 & Hip2 & Hop2);
      [done|cbn; lia|left; lia|].
    bsimpl. eexists. split; [done|]. split; [|rewrite Hip2; cbn; lia].
    split; [by eauto|]. rewrite Ht2. split; [done|]. destruct (_ =? 31); lia.
Qed.

Lemma compress_loop_ok fuel out_len inp L : ∀ s,
  len inp < 2 ^ 32 → out_len < L → compress_inv out_len inp L s → len inp - ip s ≤ Z.of_nat fuel →
  ∃ r, compress_loop fuel out_len inp s = Some r ∧
    match r with
    | inl o => len o = L
    | inr s' => compress_inv out_len inp L s' ∧ len inp - 2 ≤ ip s'
    end.
Proof.
  induction fuel as [|fuel IH]; intros s Hin HL Hinv Hf; cbn [compress_loop];
    destruct (Z.ltb_spec (ip s) (len inp - 2)) as [Hlt|Hge]; [lia| | |].
  1,3: eexists; split; [done|]; split; [done|lia].
  destruct (compress_round_ok out_len inp L s Hin HL Hinv Hlt) as (r & -> & Hr). bsimpl.
  destruct r as [o|s'|s']; cbn [round_ok] in Hr; [by eexists|by eexists|].
  apply IH; [done..|tauto|lia].
Qed.

(** The last literals: at most two, and a run may end with them. *)
Lemma flush_loop_ok fuel inp L out_len : ∀ s ts x l r,
  compressed inp L s ts x l r → out_len < L → len inp - 2 ≤ ip s → len inp - ip s ≤ Z.of_nat fuel →
  op s + (len inp - ip s) + (if 32 <=? lit s + (len inp - ip s) then 1 else 0) ≤ out_len →
  ∃ s' ts' x' l' r', flush_loop fuel inp s = Some s' ∧ compressed inp L s' ts' x' l' r' ∧
    ip s' = len inp ∧ op s' ≤ out_len.
Proof.
  induction fuel as [|fuel IH]; intros s ts x l r Hc HL Hip Hf Hroom; cbn [flush_loop];
    destruct (Z.ltb_spec (ip s) (len inp)) as [Hlt|Hge]; [lia| | |].
  1,3: destruct (32 <=? _); eexists s, ts, x, l, r; (split; [done|]); (split; [done|]);
    destruct Hc; split; lia.
  destruct (literal_ok inp L s ts x l r Hc Hlt) as (s2 & ts2 & x2 & l2 & r2 & -> & Hc2 & _ & Hip2 & Hop2).
  { destruct (32 <=? _); lia. }
  bsimpl. apply (IH s2 ts2 x2 l2 r2); [done|done|lia|lia|].
  pose proof (c_lit _ _ _ _ _ _ _ Hc). pose proof (c_max _ _ _ _ _ _ _ Hc).
  revert Hroom Hop2. destruct (Z.eqb_spec (lit s) 31);
    destruct (Z.leb_spec 32 (lit s + (len inp - ip s))), (Z.leb_spec 32 (lit s2 + (len inp - ip s2))); lia.
Qed.

Lemma lzf_compress_ok tab inp obuf out_len :
  2 ≤ len inp < 2 ^ 32 → 0 ≤ out_len < len obuf → (∀ i, pointer (tab i)) →
  ∃ n o, lzf_compress tab inp obuf out_len = Some (n, o) ∧ len o = len obuf ∧ 0 ≤ n ≤ out_len ∧
    (n = 0 ∨ ∃ ts, ts ≠ [] ∧ tokens_ok [] ts ∧ take (Z.to_nat n) o = encode ts ∧ evaluate ts = inp).
Proof.
  intros Hin Hout Htab. unfold lzf_compress. rewrite (proj2 (Z.eqb_neq (len inp) 0)) by lia. cbn [orb].
  destruct (Z.eqb_spec out_len 0); [exists 0, obuf; split; [done|]; split; [done|]; split; [lia|by left]|].
  destruct (FRST_ok inp 0) as [h ->]; [lia..|]. bsimpl.
  destruct (compress_loop_ok (length inp) out_len inp (len obuf) (mkLzf tab 0 1 0 h obuf))
    as (r & -> & Hr); [lia|lia| |cbn [ip]; lia|].
  { split; [|split; [done|cbn [op]; lia]]. destruct obuf as [|y obuf']; [cbn [length] in Hout; lia|].
    exists [], y, [], obuf'. split; cbn; done || lia. }
  bsimpl. destruct r as [o|s].
  { exists 0, o. split; [done|]. split; [done|]. split; [lia|by left]. }
  destruct Hr as [[(ts & x & l & r & Hc) [_ _]] Hip]. rewrite Z.gtb_ltb.
  destruct (Z.ltb_spec out_len (op s + 3)).
  { exists 0, (out s). split; [done|]. split; [by destruct Hc|]. split; [lia|by left]. }
  destruct (flush_loop_ok (length inp) inp (len obuf) out_len s ts x l r)
    as (s' & ts' & x' & l' & r' & -> & Hc' & Hip' & Hop'); [done|lia|done|destruct Hc; lia| |].
  { destruct (32 <=? _); lia. }
  bsimpl.
  destruct (stop_run_ok _ _ _ _ _ _ _ Hc') as (o & op1 & ts1 & r1 & -> & Ho & Hop1 & Hlo & Hok1 & Hev1 & Hop2).
  bsimpl. exists op1, o. split; [done|]. split; [done|].
  split; [destruct (_ =? 0); lia|]. right. exists ts1.
  assert (evaluate ts1 = inp) as Hev by (rewrite Hev1, Hip'; apply take_ge; lia).
  split; [intros ->; cbn in Hev; subst inp; cbn in Hin; lia|]. split; [done|]. split; [|done].
  rewrite Ho, Hop1, Nat2Z.id. by rewrite take_app_length.
Qed.

(** ** Theorems *)

(** C24. Whatever the uninitialised table holds, compression of two bytes or
    more ends without touching memory outside of the input and of
    [out_len + 1] bytes of output, and either gives up (0) or returns a length
    of at most [out_len] such that decompressing that many bytes gives the
    input back. *)
Theorem lzf_roundtrip tab inp obuf out_len dbuf :
  2 ≤ len inp < 2 ^ 32 → 0 ≤ out_len < len obuf → (∀ i, pointer (tab i)) → len inp ≤ len dbuf →
  ∃ n o, lzf_compress tab inp obuf out_len = Some (n, o) ∧ len o = len obuf ∧ 0 ≤ n ≤ out_len ∧
    (n ≠ 0 → ∃ f, lzf_decompress (take (Z.to_nat n) o) dbuf = Some (len inp, NOERR, inp ++ f)).
Proof.
  intros Hin Hout Htab Hd.
  destruct (lzf_compress_ok tab inp obuf out_len Hin Hout Htab) as (n & o & E & Hl & Hn & Hr).
  exists n, o. split; [done|]. split; [done|]. split; [done|]. intros Hn0.
  destruct Hr as [? | (ts & Hne & Hok & -> & <-)]; [done|]. by apply lzf_decompress_ok.
Qed.

Definition sample : list Z := str "aaaaaaaaaaaaaaaaaaaaaaaaaaaaaaaaaaaaaaaaabcabcabcabcabc".

Lemma lzf_roundtrip_witness :
  (∃ n o, lzf_compress (λ _, 7) sample (replicate 60 0) 50 = Some (n, o) ∧ len o = len (replicate 60 0) ∧
    0 ≤ n ≤ 50 ∧
    (n ≠ 0 → ∃ f, lzf_decompress (take (Z.to_nat n) o) (replicate 56 0) = Some (len sample, NOERR, sample ++ f))) ∧
  fst <$> lzf_compress (λ _, 7) sample (replicate 60 0) 50 = Some 15.
Proof.
  split; [|vm_compute; reflexivity].
  apply lzf_roundtrip; [cbn; lia|cbn; lia| |cbn; lia].
  intros _. unfold pointer. vm_compute. split; congruence.
Defined.

(** Decompression of any non-empty input, corrupted or not, ends, reads
    nothing outside of the input and writes nothing outside of the output
    buffer; it reports an error exactly when it returns 0. *)
Theorem lzf_decompress_safe inp obuf :
  Forall byte inp → inp ≠ [] →
  ∃ n e o, lzf_decompress inp obuf = Some (n, e, o) ∧ length o = length obuf ∧
    0 ≤ n ≤ len obuf ∧ (e ≠ NOERR ↔ n = 0).
Proof.
  intros Hb Hne. unfold lzf_decompress.
  assert (0 < len inp) by (destruct inp; [done|cbn [length]; lia]).
  apply decompress_loop_safe; [done|lia..].
Qed.

Lemma lzf_decompress_safe_witness :
  ∃ n e o, lzf_decompress [255; 3; 9] (replicate 10 0) = Some (n, e, o) ∧ length o = length (replicate 10 0) ∧
    0 ≤ n ≤ len (replicate 10 0) ∧ (e ≠ NOERR ↔ n = 0).
Proof. apply lzf_decompress_safe; [repeat constructor; unfold byte; lia|done]. Defined.

(** 33 literals fill an output of 33 bytes; then a match starts. *)
Definition overrun_input : list Z := seqZ 0 32 ++ [1; 2; 3; 4; 5; 6].

(** With an output buffer of exactly [out_len] bytes the compressor can
    write one byte past its end: the control byte of an empty run is stored
    before the room is checked.  The same input with one spare byte, as
    [rdbSaveLzfStringObject] allocates it, makes it return 0. *)
Theorem lzf_compress_overrun :
  lzf_compress (λ _, 0) overrun_input (replicate 33 0) 33 = None ∧
  fst <$> lzf_compress (λ _, 0) overrun_input (replicate 34 0) 33 = Some 0.
Proof. split; vm_compute; reflexivity. Qed.
