(* ===== verification/Sds.v ===== *)
(** * Dynamic strings: [sds.c] and [sds.h]

    A string is a header (length and free space) and a buffer of
    [len + free + 1] bytes, the last of the contents being followed by a NUL.
    The operations are modelled on the header and the bytes, with every read
    and write in bounds or [None]; what [zmalloc] and [zrealloc] leave in new
    bytes is the parameter [junk].  Running out of memory ends the process in
    [zmalloc], so the [NULL] results of the allocator are not modelled.

    The contract is the relation [rep s c]: the string [s] holds the bytes
    [c].  Every operation is shown to refine the corresponding operation on
    lists of bytes; on top of that come the round trip between the quoting of
    [sdscatrepr] and the parser [sdssplitargs], and splitting and joining. *)

From S2P Require Import Prelude Util.
Local Open Scope Z_scope.

Record sdshdr := mkSds { slen : Z; sfree : Z; buf : list Z }.

Definition sdslen (s : sdshdr) : Z := slen s.
Definition sdsavail (s : sdshdr) : Z := sfree s.

Definition SDS_MAX_PREALLOC : Z := 1024 * 1024.

(** What is used of the C library: [strlen], [strchr] on the characters of a
    C string (the terminator counts as one), [memcmp], [toupper] and the
    character classes in the C locale. *)
Fixpoint strlen (m : list Z) : option Z :=
  match m with
  | [] => None
  | c :: m => if c =? 0 then Some 0 else n ← strlen m; Some (n + 1)
  end.
Definition strchr (cset : list Z) (c : Z) : bool := (c =? 0) || existsb (Z.eqb c) cset.
Fixpoint memcmp (a b : list Z) (n : nat) {struct n} : option Z :=
  match n, a, b with
  | O, _, _ => Some 0
  | S n, x :: a, y :: b => if x =? y then memcmp a b n else Some (x - y)
  | _, _, _ => None
  end.
Definition toupper (ch : Z) : Z := if (97 <=? ch) && (ch <=? 122) then ch - 32 else ch.
Definition isspace (ch : Z) : bool := ((9 <=? ch) && (ch <=? 13)) || (ch =? 32).
Definition isprint (ch : Z) : bool := (32 <=? ch) && (ch <=? 126).

Section sds_ops.
Context (junk : nat → Z).
Implicit Types s t : sdshdr.

Definition zmalloc (n : Z) : list Z := junk <$> seq 0 (Z.to_nat n).
Definition zcalloc (n : Z) : list Z := replicate (Z.to_nat n) 0.

(** ** Creation *)

Definition sdsnewlen (init : option (list Z)) (initlen : Z) : option sdshdr :=
  let b := match init with Some _ => zmalloc (initlen + 1) | None => zcalloc (initlen + 1) end in
  b ← match init with
      | Some m => if initlen =? 0 then Some b else memcpy b m 0 0 initlen
      | None => Some b
      end;
  b ← mset b initlen 0;
  Some (mkSds (u32 initlen) 0 b).

Definition sdsempty : option sdshdr := sdsnewlen (Some [0]) 0.

Definition sdsnew (init : option (list Z)) : option sdshdr :=
  initlen ← match init with None => Some 0 | Some m => strlen m end;
  sdsnewlen init initlen.

Definition sdsdup s : option sdshdr := sdsnewlen (Some (buf s)) (sdslen s).

(** ** Lengths and room *)

Definition sdsupdatelen s : option sdshdr :=
  reallen ← strlen (buf s);
  Some (mkSds (u32 reallen) (u32 (sfree s + (slen s - reallen))) (buf s)).

Definition sdsclear s : option sdshdr :=
  b ← mset (buf s) 0 0; Some (mkSds 0 (u32 (sfree s + slen s)) b).

Definition sdsMakeRoomFor s (addlen : Z) : sdshdr :=
  if sdsavail s >=? addlen then s
  else
    let len := sdslen s in
    let newlen := len + addlen in
    let newlen := if newlen <? SDS_MAX_PREALLOC then newlen * 2 else newlen + SDS_MAX_PREALLOC in
    mkSds (slen s) (u32 (newlen - len)) (zrealloc junk (buf s) (newlen + 1)).

Definition sdsRemoveFreeSpace s : sdshdr :=
  mkSds (slen s) 0 (zrealloc junk (buf s) (slen s + 1)).

(** [sizeof(struct sdshdr)] is 8. *)
Definition sdsAllocSize s : Z := 8 + slen s + sfree s + 1.

(** A failed [assert] is [None]. *)
Definition sdsIncrLen s (incr : Z) : option sdshdr :=
  if (if incr >=? 0 then sfree s >=? u32 incr else slen s >=? u32 (- incr)) then
    let l := u32 (slen s + incr) in
    b ← mset (buf s) l 0; Some (mkSds l (u32 (sfree s - incr)) b)
  else None.

Definition sdsgrowzero s (len : Z) : option sdshdr :=
  let curlen := slen s in
  if len <=? curlen then Some s
  else
    let s := sdsMakeRoomFor s (len - curlen) in
    b ← mwrite (buf s) curlen (replicate (Z.to_nat (len - curlen + 1)) 0);
    let totlen := u32 (slen s + sfree s) in
    Some (mkSds (u32 len) (u32 (totlen - u32 len)) b).

(** ** Concatenation and copy *)

Definition sdscatlen s (t : list Z) (len : Z) : option sdshdr :=
  let curlen := sdslen s in
  let s := sdsMakeRoomFor s len in
  b ← memcpy (buf s) t curlen 0 len;
  b ← mset b (curlen + len) 0;
  Some (mkSds (u32 (curlen + len)) (u32 (sfree s - len)) b).

Definition sdscat s (t : list Z) : option sdshdr := n ← strlen t; sdscatlen s t n.
Definition sdscatsds s t : option sdshdr := sdscatlen s (buf t) (sdslen t).

Definition sdscpylen s (t : list Z) (len : Z) : option sdshdr :=
  let totlen := u32 (sfree s + slen s) in
  let '(s, totlen) :=
    if totlen <? len then
      let s := sdsMakeRoomFor s (len - slen s) in (s, u32 (sfree s + slen s))
    else (s, totlen) in
  b ← memcpy (buf s) t 0 0 len;
  b ← mset b len 0;
  Some (mkSds (u32 len) (u32 (totlen - len)) b).

Definition sdscpy s (t : list Z) : option sdshdr := n ← strlen t; sdscpylen s t n.

(** ** Numbers *)

Definition SDS_LLSTR_SIZE : Z := 21.

(** [do { *p++ = '0'+(v%10); v /= 10; } while(v);] *)
Fixpoint digits_loop (fuel : nat) (b : list Z) (p v : Z) : option (list Z * Z) :=
  match fuel with
  | O => None
  | S fuel =>
      b ← mset b p (48 + v mod 10);
      let v := v / 10 in
      if v =? 0 then Some (b, p + 1) else digits_loop fuel b (p + 1) v
  end.

(** [while(s < p) { aux = *s; *s = *p; *p = aux; s++; p--; }] *)
Fixpoint reverse_loop (fuel : nat) (b : list Z) (i p : Z) : option (list Z) :=
  if i <? p then
    match fuel with
    | O => None
    | S fuel =>
        x ← mget b i; y ← mget b p;
        b ← mset b i y; b ← mset b p x;
        reverse_loop fuel b (i + 1) (p - 1)
    end
  else Some b.

(** The common part: digits, sign, NUL, reversal; the buffer and the length. *)
Definition print_digits (b : list Z) (v : Z) (negative : bool) : option (list Z * Z) :=
  '(b, p) ← digits_loop 20 b 0 v;
  '(b, p) ← (if negative then b ← mset b p 45; Some (b, p + 1) else Some (b, p));
  b ← mset b p 0;
  b ← reverse_loop 20 b 0 (p - 1);
  Some (b, p).

Definition sdsll2str (b : list Z) (value : Z) : option (list Z * Z) :=
  print_digits b (u64 (if value <? 0 then - value else value)) (value <? 0).

Definition sdsull2str (b : list Z) (v : Z) : option (list Z * Z) := print_digits b v false.

Definition sdsfromlonglong (value : Z) : option sdshdr :=
  '(b, len) ← sdsll2str (zmalloc SDS_LLSTR_SIZE) value;
  sdsnewlen (Some b) len.

(** ** Formats

    [sdscatvprintf]: what [vsnprintf] would print in full is the argument
    [formatted]; it stores at most [buflen - 1] bytes of it and a NUL. *)
Definition vsnprintf (b : list Z) (buflen : Z) (formatted : list Z) : option (list Z) :=
  mwrite b 0 (take (Z.to_nat (buflen - 1)) formatted ++ [0]).

Fixpoint vprintf_loop (fuel : nat) (buflen : Z) (formatted : list Z) : option (list Z) :=
  match fuel with
  | O => None
  | S fuel =>
      b ← mset (zmalloc buflen) (buflen - 2) 0;
      b ← vsnprintf b buflen formatted;
      c ← mget b (buflen - 2);
      if negb (c =? 0) then vprintf_loop fuel (buflen * 2) formatted else Some b
  end.

Definition sdscatvprintf s (fmtlen : Z) (formatted : list Z) : option sdshdr :=
  let buflen := fmtlen * 2 in
  let buflen := if buflen >? 1024 then buflen else 1024 in
  b ← vprintf_loop (S (length formatted)) buflen formatted;
  sdscat s b.

Definition sdscatprintf := sdscatvprintf.

(** The variable arguments of [sdscatfmt], by the type they are read at. *)
Inductive fmtarg :=
  | ArgStr (m : list Z)
  | ArgSds (t : sdshdr)
  | ArgInt (z : Z)
  | ArgLL (z : Z)
  | ArgUInt (z : Z)
  | ArgULL (z : Z).

(** [if (sh->free < l) s = sdsMakeRoomFor(s,l); memcpy(s+i,str,l); ...] *)
Definition fmt_bytes s (i : Z) (m : list Z) (l : Z) : option (sdshdr * Z) :=
  let s := if sfree s <? l then sdsMakeRoomFor s l else s in
  b ← memcpy (buf s) m i 0 l;
  Some (mkSds (u32 (slen s + l)) (u32 (sfree s - l)) b, i + l).

Definition fmt_char s (i c : Z) : option (sdshdr * Z) :=
  b ← mset (buf s) i c; Some (mkSds (u32 (slen s + 1)) (u32 (sfree s - 1)) b, i + 1).

(** One conversion, [next] being the character after the percent sign; the
    arguments left. *)
Definition fmt_conversion s (i next : Z) (args : list fmtarg) : option (sdshdr * Z * list fmtarg) :=
  if next =? 115 (* 's' *) then
    match args with
    | ArgStr m :: args => l ← strlen m; '(s, i) ← fmt_bytes s i m (u32 l); Some (s, i, args)
    | _ => None
    end
  else if next =? 83 (* 'S' *) then
    match args with
    | ArgSds t :: args => '(s, i) ← fmt_bytes s i (buf t) (u32 (sdslen t)); Some (s, i, args)
    | _ => None
    end
  else if (next =? 105) || (next =? 73) (* 'i', 'I' *) then
    '(num, args) ← match args with
                   | ArgInt z :: args => if next =? 105 then Some (z, args) else None
                   | ArgLL z :: args => if next =? 73 then Some (z, args) else None
                   | _ => None
                   end;
    '(b, l) ← sdsll2str (zmalloc SDS_LLSTR_SIZE) num;
    '(s, i) ← fmt_bytes s i b l; Some (s, i, args)
  else if (next =? 117) || (next =? 85) (* 'u', 'U' *) then
    '(unum, args) ← match args with
                    | ArgUInt z :: args => if next =? 117 then Some (z, args) else None
                    | ArgULL z :: args => if next =? 85 then Some (z, args) else None
                    | _ => None
                    end;
    '(b, l) ← sdsull2str (zmalloc SDS_LLSTR_SIZE) unum;
    '(s, i) ← fmt_bytes s i b l; Some (s, i, args)
  else '(s, i) ← fmt_char s i next; Some (s, i, args).

Fixpoint fmt_loop (fuel : nat) s (fmt : list Z) (f i : Z) (args : list fmtarg) : option (sdshdr * Z) :=
  c ← mget fmt f;
  if c =? 0 then Some (s, i)
  else
    match fuel with
    | O => None
    | S fuel =>
        let s := if sfree s =? 0 then sdsMakeRoomFor s 1 else s in
        if c =? 37 (* '%' *) then
          next ← mget fmt (f + 1);
          '(s, i, args) ← fmt_conversion s i next args;
          fmt_loop fuel s fmt (f + 1 + 1) i args
        else
          '(s, i) ← fmt_char s i c;
          fmt_loop fuel s fmt (f + 1) i args
    end.

Definition sdscatfmt s (fmt : list Z) (args : list fmtarg) : option sdshdr :=
  '(s, i) ← fmt_loop (length fmt) s fmt 0 (sdslen s) args;
  b ← mset (buf s) i 0; Some (mkSds (slen s) (sfree s) b).

(** ** Editing in place *)

(** [while(sp <= end && strchr(cset, *sp)) sp++;] *)
Fixpoint trim_left (fuel : nat) (b cset : list Z) (sp end_ : Z) : option Z :=
  if sp <=? end_ then
    match fuel with
    | O => None
    | S fuel => c ← mget b sp; if strchr cset c then trim_left fuel b cset (sp + 1) end_ else Some sp
    end
  else Some sp.

(** [while(ep > start && strchr(cset, *ep)) ep--;] with [start] at 0. *)
Fixpoint trim_right (fuel : nat) (b cset : list Z) (ep : Z) : option Z :=
  if ep >? 0 then
    match fuel with
    | O => None
    | S fuel => c ← mget b ep; if strchr cset c then trim_right fuel b cset (ep - 1) else Some ep
    end
  else Some ep.

(** [cset] is the C string without its terminator. *)
Definition sdstrim s (cset : list Z) : option sdshdr :=
  let end_ := sdslen s - 1 in
  sp ← trim_left (length (buf s)) (buf s) cset 0 end_;
  ep ← trim_right (length (buf s)) (buf s) cset end_;
  let len := if sp >? ep then 0 else ep - sp + 1 in
  b ← (if negb (sp =? 0) then memmove (buf s) 0 sp len else Some (buf s));
  b ← mset b len 0;
  Some (mkSds (u32 len) (u32 (sfree s + (slen s - len))) b).

(** [int] and [size_t] arithmetic as in the code: [len+start] is computed in
    [size_t] and converted to [int]. *)
Definition sdsrange s (start end_ : Z) : option sdshdr :=
  let len := sdslen s in
  if len =? 0 then Some s
  else
    let start := if start <? 0 then let x := s32 (u64 (len + start)) in if x <? 0 then 0 else x else start in
    let end_ := if end_ <? 0 then let x := s32 (u64 (len + end_)) in if x <? 0 then 0 else x else end_ in
    let newlen := if start >? end_ then 0 else u64 (s32 (end_ - start + 1)) in
    let '(start, newlen) :=
      if negb (newlen =? 0) then
        if start >=? s32 len then (start, 0)
        else if end_ >=? s32 len then
          let end_ := s32 (len - 1) in (start, if start >? end_ then 0 else end_ - start + 1)
        else (start, newlen)
      else (0, newlen) in
    b ← (if negb (start =? 0) && negb (newlen =? 0) then memmove (buf s) 0 start newlen else Some (buf s));
    b ← mset b newlen 0;
    Some (mkSds (u32 newlen) (u32 (sfree s + (slen s - newlen))) b).

(** [for (j = 0; j < len; j++) s[j] = f(s[j]);] for [n] more characters. *)
Fixpoint map_loop (n : nat) (f : Z → Z) (b : list Z) (j : Z) : option (list Z) :=
  match n with
  | O => Some b
  | S n => c ← mget b j; b ← mset b j (f c); map_loop n f b (j + 1)
  end.

Definition set_buf s (b : list Z) : sdshdr := mkSds (slen s) (sfree s) b.

Definition sdstolower s : option sdshdr :=
  b ← map_loop (Z.to_nat (sdslen s)) tolower (buf s) 0; Some (set_buf s b).
Definition sdstoupper s : option sdshdr :=
  b ← map_loop (Z.to_nat (sdslen s)) toupper (buf s) 0; Some (set_buf s b).

(** The inner loop of [sdsmapchars]: the first match in [from]. *)
Fixpoint map_char (setlen : nat) (from to : list Z) (i c : Z) : option Z :=
  match setlen with
  | O => Some c
  | S n => x ← mget from i; if c =? x then mget to i else map_char n from to (i + 1) c
  end.

Fixpoint mapchars_loop (n : nat) (from to : list Z) (setlen : nat) (b : list Z) (j : Z) : option (list Z) :=
  match n with
  | O => Some b
  | S n =>
      c ← mget b j; c ← map_char setlen from to 0 c; b ← mset b j c;
      mapchars_loop n from to setlen b (j + 1)
  end.

Definition sdsmapchars s (from to : list Z) (setlen : nat) : option sdshdr :=
  b ← mapchars_loop (Z.to_nat (sdslen s)) from to setlen (buf s) 0; Some (set_buf s b).

(** ** Comparison, splitting and joining *)

Definition sdscmp s1 s2 : option Z :=
  let l1 := sdslen s1 in
  let l2 := sdslen s2 in
  let minlen := if l1 <? l2 then l1 else l2 in
  cmp ← memcmp (buf s1) (buf s2) (Z.to_nat minlen);
  Some (if cmp =? 0 then s32 (l1 - l2) else cmp).

(** [tokens[elements] = x], in an array of [slots] elements. *)
Definition push_token (tokens : list sdshdr) (slots : Z) (x : sdshdr) : option (list sdshdr) :=
  if len tokens <? slots then Some (tokens ++ [x]) else None.

Fixpoint split_loop (fuel : nat) (m : list Z) (mlen : Z) (sep : list Z) (seplen : Z)
    (tokens : list sdshdr) (slots start j : Z) : option (list sdshdr * Z * Z) :=
  if j <? mlen - (seplen - 1) then
    match fuel with
    | O => None
    | S fuel =>
        let slots := if slots <? len tokens + 2 then slots * 2 else slots in
        c ← mget m j;
        c0 ← mget sep 0;
        hit ← (if (seplen =? 1) && (c =? c0) then Some true
               else w ← mread m j seplen; r ← memcmp w sep (Z.to_nat seplen); Some (r =? 0));
        if (hit : bool) then
          piece ← mread m start (j - start);
          x ← sdsnewlen (Some piece) (j - start);
          tokens ← push_token tokens slots x;
          split_loop fuel m mlen sep seplen tokens slots (j + seplen) (j + seplen - 1 + 1)
        else split_loop fuel m mlen sep seplen tokens slots start (j + 1)
    end
  else Some (tokens, slots, start).

(** [None] inside is the [NULL] result. *)
Definition sdssplitlen (m : list Z) (mlen : Z) (sep : list Z) (seplen : Z) : option (option (list sdshdr)) :=
  if (seplen <? 1) || (mlen <? 0) then Some None
  else if mlen =? 0 then Some (Some [])
  else
    '(tokens, slots, start) ← split_loop (length m) m mlen sep seplen [] 5 0 0;
    piece ← mread m start (mlen - start);
    x ← sdsnewlen (Some piece) (mlen - start);
    tokens ← push_token tokens slots x;
    Some (Some tokens).

Fixpoint join_loop (join : sdshdr) (argv : list (list Z)) (sep : list Z) : option sdshdr :=
  match argv with
  | [] => Some join
  | a :: argv =>
      join ← sdscat join a;
      join ← (match argv with [] => Some join | _ => sdscat join sep end);
      join_loop join argv sep
  end.

Definition sdsjoin (argv : list (list Z)) (sep : list Z) : option sdshdr :=
  join ← sdsempty; join_loop join argv sep.

(** ** Quoting *)

Definition hex_digit (n : Z) : Z := if n <? 10 then 48 + n else 87 + n.

(** The character [p] points to, appended in quoted form.  The formats are
    [\\%c], [%c] and [\\x%02x]. *)
Definition cat_char s (p : Z) : option sdshdr :=
  if (p =? 92) || (p =? 34) then sdscatprintf s 3 [92; p]
  else if p =? 10 then sdscatlen s [92; 110] 2
  else if p =? 13 then sdscatlen s [92; 114] 2
  else if p =? 9 then sdscatlen s [92; 116] 2
  else if p =? 7 then sdscatlen s [92; 97] 2
  else if p =? 8 then sdscatlen s [92; 98] 2
  else if isprint p then sdscatprintf s 2 [p]
  else sdscatprintf s 6 [92; 120; hex_digit (p / 16); hex_digit (p mod 16)].

Fixpoint repr_loop s (p : list Z) : option sdshdr :=
  match p with [] => Some s | c :: p => s ← cat_char s c; repr_loop s p end.

Definition sdscatrepr s (p : list Z) : option sdshdr :=
  s ← sdscatlen s [34] 1; s ← repr_loop s p; sdscatlen s [34] 1.

Definition is_hex_digit (c : Z) : bool :=
  ((48 <=? c) && (c <=? 57)) || ((97 <=? c) && (c <=? 102)) || ((65 <=? c) && (c <=? 70)).

Definition hex_digit_to_int (c : Z) : Z :=
  if c =? 48 then 0 else if c =? 49 then 1 else if c =? 50 then 2 else if c =? 51 then 3
  else if c =? 52 then 4 else if c =? 53 then 5 else if c =? 54 then 6 else if c =? 55 then 7
  else if c =? 56 then 8 else if c =? 57 then 9
  else if (c =? 97) || (c =? 65) then 10 else if (c =? 98) || (c =? 66) then 11
  else if (c =? 99) || (c =? 67) then 12 else if (c =? 100) || (c =? 68) then 13
  else if (c =? 101) || (c =? 69) then 14 else if (c =? 102) || (c =? 70) then 15
  else 0.

(** ** Parsing a line of arguments *)

Inductive quoting := Unquoted | InQ | InSq.

(** What one turn of the inner loop decides, before the pointer moves on. *)
Inductive action := Goto_err | Done (p : Z) | Next (q : quoting) (p : Z) (current : sdshdr).

Definition append (q : quoting) (p : Z) (current : sdshdr) (c : Z) : option action :=
  cur ← sdscatlen current [c] 1; Some (Next q p cur).

(** The characters after the backslash are read one by one, as [&&] does. *)
Definition hex_escape (line : list Z) (p c : Z) : option bool :=
  if c =? 92 then
    c1 ← mget line (p + 1);
    if c1 =? 120 then
      c2 ← mget line (p + 2);
      if is_hex_digit c2 then c3 ← mget line (p + 3); Some (is_hex_digit c3) else Some false
    else Some false
  else Some false.

(** A closing quote must be followed by a space or nothing at all. *)
Definition close_quote (line : list Z) (p : Z) : option action :=
  c1 ← mget line (p + 1);
  if negb (c1 =? 0) && negb (isspace c1) then Some Goto_err else Some (Done p).

Definition unescape (c : Z) : Z :=
  if c =? 110 then 10 else if c =? 114 then 13 else if c =? 116 then 9
  else if c =? 98 then 8 else if c =? 97 then 7 else c.

Definition in_quotes (line : list Z) (p c : Z) (current : sdshdr) : option action :=
  hex ← hex_escape line p c;
  if (hex : bool) then
    c2 ← mget line (p + 2); c3 ← mget line (p + 3);
    append InQ (p + 3) current (u8 (hex_digit_to_int c2 * 16 + hex_digit_to_int c3))
  else
    esc ← (if c =? 92 then c1 ← mget line (p + 1); Some (negb (c1 =? 0)) else Some false);
    if (esc : bool) then
      c1 ← mget line (p + 1); append InQ (p + 1) current (unescape c1)
    else if c =? 34 then close_quote line p
    else if c =? 0 then Some Goto_err
    else append InQ p current c.

Definition in_single_quotes (line : list Z) (p c : Z) (current : sdshdr) : option action :=
  esc ← (if c =? 92 then c1 ← mget line (p + 1); Some (c1 =? 39) else Some false);
  if (esc : bool) then append InSq (p + 1) current 39
  else if c =? 39 then close_quote line p
  else if c =? 0 then Some Goto_err
  else append InSq p current c.

Definition unquoted (line : list Z) (p c : Z) (current : sdshdr) : option action :=
  if (c =? 32) || (c =? 10) || (c =? 13) || (c =? 9) || (c =? 0) then Some (Done p)
  else if c =? 34 then Some (Next InQ p current)
  else if c =? 39 then Some (Next InSq p current)
  else append Unquoted p current c.

(** The pointer moves on unless it is at the terminator. *)
Definition advance (line : list Z) (p : Z) : option Z :=
  c ← mget line p; Some (if c =? 0 then p else p + 1).

(** [while(!done)]: [None] inside is [goto err]. *)
Fixpoint token_loop (fuel : nat) (line : list Z) (q : quoting) (p : Z) (current : sdshdr)
    : option (option (Z * sdshdr)) :=
  match fuel with
  | O => None
  | S fuel =>
      c ← mget line p;
      a ← match q with
          | InQ => in_quotes line p c current
          | InSq => in_single_quotes line p c current
          | Unquoted => unquoted line p c current
          end;
      match a with
      | Goto_err => Some None
      | Done p => p ← advance line p; Some (Some (p, current))
      | Next q p current => p ← advance line p; token_loop fuel line q p current
      end
  end.

(** The loop that skips blanks. *)
Fixpoint skip_blanks (fuel : nat) (line : list Z) (p : Z) : option Z :=
  c ← mget line p;
  if negb (c =? 0) && isspace c then
    match fuel with O => None | S fuel => skip_blanks fuel line (p + 1) end
  else Some p.

(** [while(1)]: the vector of tokens, [None] inside being the error. *)
Fixpoint args_loop (fuel : nat) (line : list Z) (p : Z) (vector : list sdshdr) : option (option (list sdshdr)) :=
  match fuel with
  | O => None
  | S fuel =>
      p ← skip_blanks (length line) line p;
      c ← mget line p;
      if c =? 0 then Some (Some vector)
      else
        current ← sdsempty;
        r ← token_loop (length line) line Unquoted p current;
        match r with
        | None => Some None
        | Some (p, current) => args_loop fuel line p (vector ++ [current])
        end
  end.

Definition sdssplitargs (line : list Z) : option (option (list sdshdr)) :=
  args_loop (S (length line)) line 0 [].
End sds_ops.

(** ** The contract *)

(** The string holds the bytes [c], and [free] more would fit.  The sizes stay
    below [2^31], as the code assumes of the [unsigned int] fields. *)
Definition rep (s : sdshdr) (c : list Z) : Prop :=
  ∃ r, s = mkSds (len c) (len r) (c ++ 0 :: r) ∧ len c + len r < 2 ^ 31.

(** The length up to which operations are specified. *)
Definition fits (n : Z) : Prop := n < 2 ^ 30 + 2 ^ 22.

Section sds_lemmas.
Context (junk : nat → Z).
Implicit Types s : sdshdr.

Lemma u32_len (c : list Z) : len c < 2 ^ 31 → u32 (len c) = len c.
Proof. intros. apply uwrap_small. lia. Qed.

Lemma zmalloc_length n : 0 ≤ n → len (zmalloc junk n) = n.
Proof. intros. unfold zmalloc. rewrite length_fmap, length_seq. lia. Qed.

Lemma memcpy_app (m1 m2 m3 : list Z) bs rest dst n :
  dst = len m1 → n = len bs → length m2 = length bs →
  memcpy (m1 ++ m2 ++ m3) (bs ++ rest) dst 0 n = Some (m1 ++ bs ++ m3).
Proof.
  intros -> -> Hl. unfold memcpy.
  assert (mread (bs ++ rest) 0 (len bs) = Some bs) as -> by (by apply (mread_app [] bs rest)).
  bsimpl. by apply mwrite_app.
Qed.

(** Storing [bs] and a NUL in a buffer that has room for them. *)
Lemma store_nul (m1 w bs rest : list Z) n :
  n = len bs → (length bs < length w)%nat →
  ∃ r, (b ← memcpy (m1 ++ w) (bs ++ rest) (len m1) 0 n; mset b (len m1 + n) 0) =
       Some (m1 ++ bs ++ 0 :: r) ∧ (length bs + S (length r) = length w)%nat.
Proof.
  intros -> Hl. rewrite <- (take_drop (length bs) w).
  assert (length (take (length bs) w) = length bs) as Ht by (rewrite length_take; lia).
  rewrite memcpy_app by done. bsimpl.
  destruct (drop (length bs) w) as [|x r] eqn:Ed.
  { apply (f_equal length) in Ed. rewrite length_drop in Ed. cbn in Ed. lia. }
  exists r. rewrite app_assoc, mset_app by (rewrite length_app; lia). split; [by rewrite <- app_assoc|].
  rewrite length_app, Ht. cbn [length]. lia.
Qed.

Lemma sdsnewlen_ok (m rest : list Z) n :
  n = len m → fits n → ∃ s, sdsnewlen junk (Some (m ++ rest)) n = Some s ∧ rep s m.
Proof.
  intros -> Hf. unfold fits in Hf. unfold sdsnewlen.
  pose proof (zmalloc_length (len m + 1) ltac:(lia)) as Hz.
  destruct (store_nul [] (zmalloc junk (len m + 1)) m rest (len m)) as (r & E & Hr); [done|lia|].
  assert (r = []) as -> by (destruct r; [done|cbn in Hr; lia]). cbn [app length] in E.
  change (Z.of_nat 0 + len m) with (0 + len m) in E. rewrite Z.add_0_l in E.
  destruct (Z.eqb_spec (len m) 0) as [H0|H0].
  - destruct m; [|cbn in H0; lia]. bsimpl.
    destruct (zmalloc junk (len [] + 1)) as [|x [|]]; [cbn in Hz; lia| |cbn in Hz; lia].
    cbn. eexists. split; [done|]. exists []. split; [done|]. cbn. lia.
  - destruct (memcpy _ _ _ _ _) as [b|]; [|done]. bsimpl in *. rewrite E. bsimpl.
    eexists. split; [done|]. exists []. rewrite u32_len by lia. split; [done|]. cbn [length]. lia.
Qed.

Lemma sdsempty_ok : ∃ s, sdsempty junk = Some s ∧ rep s [].
Proof. apply (sdsnewlen_ok [] [0] 0); done. Qed.

(** Making room does not touch the contents, nor what follows them. *)
Lemma sdsMakeRoomFor_raw c x r n :
  len c + len r < 2 ^ 31 → 0 ≤ n → fits (len c + n) →
  ∃ r', sdsMakeRoomFor junk (mkSds (len c) (len r) (c ++ x :: r)) n = mkSds (len c) (len r') (c ++ x :: r') ∧
    n ≤ len r' ∧ len c + len r' < 2 ^ 31.
Proof.
  intros Hr Hn Hf. unfold fits in Hf. unfold sdsMakeRoomFor, sdsavail, sdslen. cbn [slen sfree buf].
  rewrite Z.geb_leb. destruct (Z.leb_spec n (len r)); [by eauto|].
  change SDS_MAX_PREALLOC with (2 ^ 20).
  set (newlen := if len c + n <? 2 ^ 20 then (len c + n) * 2 else len c + n + 2 ^ 20).
  assert (len c + n ≤ newlen < 2 ^ 31) as Hb by (unfold newlen; destruct (Z.ltb_spec (len c + n) (2 ^ 20)); lia).
  destruct (zrealloc_grow junk (c ++ x :: r) (newlen + 1)) as (ext & -> & He).
  { rewrite length_app. cbn [length]. lia. }
  rewrite length_app in He. cbn [length] in He. rewrite <- app_assoc. cbn [app].
  exists (r ++ ext). rewrite length_app. rewrite uwrap_small by lia. split; [f_equal; lia|lia].
Qed.

Lemma sdsMakeRoomFor_ok s c n :
  rep s c → 0 ≤ n → fits (len c + n) →
  ∃ r, sdsMakeRoomFor junk s n = mkSds (len c) (len r) (c ++ 0 :: r) ∧ n ≤ len r ∧ len c + len r < 2 ^ 31.
Proof. intros (r & -> & Hr) Hn Hf. by apply sdsMakeRoomFor_raw. Qed.

Lemma sdscatlen_ok s c t rest n :
  rep s c → n = len t → fits (len c + n) →
  ∃ s', sdscatlen junk s (t ++ rest) n = Some s' ∧ rep s' (c ++ t).
Proof.
  intros Hs Hn Hf. pose proof Hs as (r0 & E0 & _).
  destruct (sdsMakeRoomFor_ok s c n Hs) as (r & E & Hr & Hb); [lia|done|].
  unfold sdscatlen. rewrite E. replace (sdslen s) with (len c) by (by rewrite E0). cbn [buf sfree].
  destruct (store_nul c (0 :: r) t rest n) as (r' & Ew & Hr'); [done|cbn [length]; lia|].
  destruct (memcpy _ _ _ _ _) as [b|]; [|done]. bsimpl in *. rewrite Ew. bsimpl.
  cbn [length] in Hr'. eexists. split; [done|]. exists r'. rewrite length_app, app_assoc.
  split; [|lia]. rewrite !uwrap_small by lia. f_equal; lia.
Qed.

Lemma strlen_ok (m rest : list Z) : Forall (λ c, c ≠ 0) m → strlen (m ++ 0 :: rest) = Some (len m).
Proof.
  induction 1 as [|c m Hc Hm IH]; [done|]. cbn [app strlen]. rewrite (proj2 (Z.eqb_neq c 0)) by done.
  rewrite IH. cbn [mbind option_bind length]. f_equal. lia.
Qed.

Lemma sdscat_ok s c t rest :
  rep s c → Forall (λ x, x ≠ 0) t → fits (len c + len t) →
  ∃ s', sdscat junk s (t ++ 0 :: rest) = Some s' ∧ rep s' (c ++ t).
Proof.
  intros Hs Ht Hf. unfold sdscat. rewrite strlen_ok by done. bsimpl.
  by apply sdscatlen_ok.
Qed.

Lemma sdsdup_ok s c : rep s c → fits (len c) → ∃ s', sdsdup junk s = Some s' ∧ rep s' c.
Proof. intros (r & -> & _) Hf. by apply sdsnewlen_ok. Qed.

Lemma sdsclear_ok s c : rep s c → ∃ s', sdsclear s = Some s' ∧ rep s' [].
Proof.
  intros (r & -> & Hb). unfold sdsclear. cbn [buf slen sfree].
  assert (∃ x m, c ++ 0 :: r = x :: m ∧ len m = len c + len r) as (x & m & -> & Hm).
  { destruct c as [|x c]; [by eauto|]. exists x, (c ++ 0 :: r). rewrite length_app. cbn [length]. split; [done|lia]. }
  rewrite mset_head. bsimpl. eexists. split; [done|].
  exists m. rewrite uwrap_small by lia. split; [f_equal; cbn; lia|cbn; lia].
Qed.

Lemma sdsRemoveFreeSpace_ok s c : rep s c → rep (sdsRemoveFreeSpace junk s) c ∧ sfree (sdsRemoveFreeSpace junk s) = 0.
Proof.
  intros (r & -> & Hb). unfold sdsRemoveFreeSpace. cbn [buf slen sfree]. split; [|done]. exists [].
  replace (c ++ 0 :: r) with ((c ++ [0]) ++ r) by (by rewrite <- app_assoc).
  rewrite zrealloc_shrink by (rewrite length_app; cbn [length]; lia). split; [done|]. cbn [length]. lia.
Qed.

Lemma replicate_S_end {B} n (x : B) : replicate (S n) x = replicate n x ++ [x].
Proof. induction n as [|n IH]; [done|]. cbn. by rewrite <- IH. Qed.

Lemma sdsgrowzero_ok s c n :
  rep s c → fits n →
  ∃ s', sdsgrowzero junk s n = Some s' ∧ rep s' (c ++ replicate (Z.to_nat (n - len c)) 0).
Proof.
  intros Hs Hf. pose proof Hs as (r0 & E0 & _). unfold sdsgrowzero.
  replace (slen s) with (len c) by (by rewrite E0). destruct (Z.leb_spec n (len c)).
  { exists s. split; [done|]. replace (Z.to_nat (n - len c)) with 0%nat by lia. by rewrite app_nil_r. }
  destruct (sdsMakeRoomFor_ok s c (n - len c) Hs) as (r & -> & Hr & Hb); [lia|unfold fits in *; lia|].
  cbn [buf slen sfree]. set (k := Z.to_nat (n - len c)).
  replace (Z.to_nat (n - len c + 1)) with (S k) by lia.
  destruct (buffer_split (0 :: r) 0 (Z.of_nat (S k))) as (m1 & m2 & m3 & E & H1 & H2); [lia..|cbn [length]; lia|].
  destruct m1; [|cbn in H1; lia]. cbn [app] in E. rewrite E.
  rewrite (mwrite_app c m2 m3) by (done || (rewrite length_replicate; lia)). bsimpl.
  eexists. split; [done|]. exists m3. rewrite replicate_S_end, length_app, length_replicate.
  apply (f_equal length) in E. rewrite length_app in E. cbn [length] in E. unfold fits in Hf.
  split; [|lia]. rewrite !uwrap_small by (rewrite ?uwrap_small; lia).
  f_equal; [lia|lia|]. by rewrite <- !app_assoc.
Qed.

Lemma sdscpylen_ok s c t rest n :
  rep s c → n = len t → fits n → ∃ s', sdscpylen junk s (t ++ rest) n = Some s' ∧ rep s' t.
Proof.
  intros Hs Hn Hf. pose proof Hs as (r0 & E0 & Hb0). unfold fits in Hf. unfold sdscpylen. cbv zeta.
  assert (∃ c' r', (if u32 (sfree s + slen s) <? n
      then (sdsMakeRoomFor junk s (n - slen s),
        u32 (sfree (sdsMakeRoomFor junk s (n - slen s)) + slen (sdsMakeRoomFor junk s (n - slen s))))
      else (s, u32 (sfree s + slen s))) = (mkSds (len c') (len r') (c' ++ 0 :: r'), len c' + len r') ∧
      n ≤ len c' + len r' ∧ len c' + len r' < 2 ^ 31) as (c' & r' & -> & Hn' & Hb).
  { rewrite E0. cbn [slen sfree]. rewrite !uwrap_small by lia. destruct (Z.ltb_spec (len r0 + len c) n).
    - rewrite <- E0. destruct (sdsMakeRoomFor_ok s c (n - len c) Hs) as (r & -> & Hr & Hb); [lia|unfold fits; lia|].
      cbn [slen sfree]. exists c, r. rewrite uwrap_small by lia. split; [f_equal; lia|lia].
    - exists c, r0. split; [f_equal; lia|lia]. }
  cbn [buf]. destruct (store_nul [] (c' ++ 0 :: r') t rest n) as (r & E & Hr).
  { done. } { rewrite length_app. cbn [length]. lia. }
  cbn [app length] in E. change (Z.of_nat 0 + n) with n in E. change (Z.of_nat 0) with 0 in E.
  destruct (memcpy _ _ _ _ _) as [b|]; [|done]. bsimpl in *. rewrite E. bsimpl.
  rewrite length_app in Hr. cbn [length] in Hr. eexists. split; [done|]. exists r.
  split; [|lia]. rewrite !uwrap_small by lia. f_equal; lia.
Qed.

Lemma sdsIncrLen_trim_ok s c n :
  rep s c → 0 < n ≤ len c → ∃ s', sdsIncrLen s (- n) = Some s' ∧ rep s' (take (Z.to_nat (len c - n)) c).
Proof.
  intros (r & -> & Hb) Hn. unfold sdsIncrLen. cbn [buf slen sfree].
  rewrite Z.geb_leb, (proj2 (Z.leb_gt _ _)), Z.opp_involutive by lia.
  rewrite uwrap_small, Z.geb_leb, (proj2 (Z.leb_le _ _)) by lia.
  rewrite !uwrap_small by lia.
  destruct (buffer_split c (len c - n) n) as (c1 & c2 & c3 & E & H1 & H2); [lia..|].
  assert (c3 = []) as -> by (apply (f_equal length) in E; rewrite !length_app in E; destruct c3; [done|cbn in E; lia]).
  rewrite app_nil_r in E. destruct c2 as [|x c2]; [cbn in H2; lia|]. cbn [length] in H2. subst c.
  rewrite <- app_assoc. cbn [app]. rewrite mset_app by lia. bsimpl.
  eexists. split; [done|]. exists (c2 ++ 0 :: r). rewrite length_app in *. cbn [length] in *.
  replace (Z.to_nat (Z.of_nat (length c1 + S (length c2)) - n)) with (length c1) by lia.
  rewrite take_app_length, length_app. cbn [length]. split; [f_equal; lia|lia].
Qed.
End sds_lemmas.

(** ** Cutting *)

(** Characters stripped at the left and at the right. *)
Fixpoint lstrip (f : Z → bool) (l : list Z) : list Z :=
  match l with [] => [] | x :: l' => if f x then lstrip f l' else l end.
Fixpoint rstrip (f : Z → bool) (l : list Z) : list Z :=
  match l with
  | [] => []
  | x :: l => match rstrip f l with [] => if f x then [] else [x] | l' => x :: l' end
  end.

(** The inclusive range [start, end_] of a string, negative positions counting
    from its end (and those before the beginning being the beginning). *)
Definition range (c : list Z) (start end_ : Z) : list Z :=
  let pos i := if i <? 0 then Z.max 0 (len c + i) else i in
  take (Z.to_nat (Z.min (pos end_) (len c - 1) - pos start + 1)) (drop (Z.to_nat (pos start)) c).

Section sds_cut.
Implicit Types s : sdshdr.

(** The bytes from [off], [n] of them, moved to the front and terminated. *)
Lemma cut_front (M : list Z) off n mv :
  0 ≤ off → 0 ≤ n → off + n < len M → (mv = false → off = 0 ∨ n = 0) →
  ∃ r, (b ← (if mv : bool then memmove M 0 off n else Some M); mset b n 0) =
       Some (take (Z.to_nat n) (drop (Z.to_nat off) M) ++ 0 :: r) ∧ n + 1 + len r = len M.
Proof.
  intros Ho Hn Hl Hmv. set (w := take (Z.to_nat n) (drop (Z.to_nat off) M)).
  assert (len w = n) as Hw by (unfold w; rewrite length_take, length_drop; lia).
  destruct mv.
  - destruct (store_nul [] M w [] n) as (r & E & Hr); [done|lia|]. exists r. split; [|lia].
    cbn [app length] in E. change (Z.of_nat 0 + n) with n in E. change (Z.of_nat 0) with 0 in E. rewrite <- E.
    unfold memmove, memcpy. rewrite (proj2 (mread_Some M off n w)) by (split_and!; done || lia).
    rewrite app_nil_r. rewrite (proj2 (mread_Some w 0 n w)); [done|].
    split_and!; [lia..|]. rewrite drop_0, take_ge by lia. done.
  - bsimpl. assert (take (Z.to_nat n) M = w) as Hw'.
    { unfold w. destruct (Hmv eq_refl) as [-> | ->]; [by rewrite drop_0|done]. }
    destruct (drop (Z.to_nat n) M) as [|x r] eqn:Ed.
    { apply (f_equal length) in Ed. rewrite length_drop in Ed. cbn in Ed. lia. }
    exists r. clearbody w. assert (M = w ++ x :: r) as -> by (by rewrite <- Hw', <- Ed, take_drop).
    rewrite mset_app by done. split; [done|]. rewrite length_app. cbn [length]. lia.
Qed.

Lemma cut_rep c r off n mv :
  0 ≤ off → 0 ≤ n → off + n ≤ len c → len c + len r < 2 ^ 31 → (mv = false → off = 0 ∨ n = 0) →
  ∃ s', (b ← (if mv : bool then memmove (c ++ 0 :: r) 0 off n else Some (c ++ 0 :: r));
         b ← mset b n 0; Some (mkSds (u32 n) (u32 (len r + (len c - n))) b)) = Some s' ∧
        rep s' (take (Z.to_nat n) (drop (Z.to_nat off) c)).
Proof.
  intros Ho Hn Hl Hb Hmv.
  destruct (cut_front (c ++ 0 :: r) off n mv) as (r' & E & Hr'); [done..|rewrite length_app; cbn; lia|done|].
  destruct (if mv then _ else _) as [b|]; [|done]. bsimpl in *. rewrite E. bsimpl.
  rewrite length_app in Hr'. cbn [length] in Hr'. eexists. split; [done|]. exists r'.
  assert (take (Z.to_nat n) (drop (Z.to_nat off) (c ++ 0 :: r)) = take (Z.to_nat n) (drop (Z.to_nat off) c)) as ->.
  { rewrite drop_app_le, take_app_le by (rewrite ?length_drop; lia). done. }
  rewrite length_take, length_drop, !uwrap_small by lia. split; [f_equal; lia|lia].
Qed.

Lemma range_pos n i : 0 ≤ n < 2 ^ 31 → - 2 ^ 31 ≤ i < 0 → s32 (u64 (n + i)) = n + i.
Proof.
  intros. rewrite swrap_uwrap_wide by lia. apply swrap_small; lia.
Qed.

Lemma sdsrange_ok s c start end_ :
  rep s c → - 2 ^ 31 ≤ start < 2 ^ 31 → - 2 ^ 31 ≤ end_ < 2 ^ 31 →
  ∃ s', sdsrange s start end_ = Some s' ∧ rep s' (range c start end_).
Proof.
  intros Hs Hst He. pose proof Hs as (r & -> & Hb). unfold sdsrange, sdslen. cbn [slen sfree buf].
  destruct (Z.eqb_spec (len c) 0) as [H0|H0].
  { eexists. split; [done|]. destruct c; [|cbn in H0; lia]. unfold range. by rewrite drop_nil, take_nil. }
  unfold range. cbv zeta.
  set (a := if start <? 0 then if s32 (u64 (len c + start)) <? 0 then 0 else s32 (u64 (len c + start)) else start).
  set (e := if end_ <? 0 then if s32 (u64 (len c + end_)) <? 0 then 0 else s32 (u64 (len c + end_)) else end_).
  assert (∀ i, - 2 ^ 31 ≤ i < 2 ^ 31 →
    (if i <? 0 then if s32 (u64 (len c + i)) <? 0 then 0 else s32 (u64 (len c + i)) else i) =
    (if i <? 0 then Z.max 0 (len c + i) else i)) as Hpos.
  { intros i Hi. destruct (Z.ltb_spec i 0); [|done]. rewrite range_pos by lia.
    destruct (Z.ltb_spec (len c + i) 0); lia. }
  assert (a = if start <? 0 then Z.max 0 (len c + start) else start) as <- by (by apply Hpos).
  assert (e = if end_ <? 0 then Z.max 0 (len c + end_) else end_) as <- by (by apply Hpos).
  assert (0 ≤ a < 2 ^ 31 ∧ 0 ≤ e < 2 ^ 31) as [Ha He'].
  { unfold a, e. rewrite !Hpos by done. destruct (Z.ltb_spec start 0), (Z.ltb_spec end_ 0); lia. }
  clearbody a e. rewrite !Z.gtb_ltb, !Z.geb_leb.
  rewrite (swrap_small 32 (len c)), (swrap_small 32 (len c - 1)) by lia.
  destruct (Z.ltb_spec e a) as [Hea|Hea]; cbn [negb Z.eqb].
  - destruct (cut_rep c r 0 0 false) as (s' & E & Hs'); [lia..|by left|].
    exists s'. split; [done|]. by replace (Z.to_nat (Z.min e (len c - 1) - a + 1)) with 0%nat by lia.
  - assert (u64 (s32 (e - a + 1)) ≠ 0) as Hne.
    { destruct (decide (e - a + 1 = 2 ^ 31)) as [-> |]; [done|]. rewrite swrap_small, uwrap_small; lia. }
    rewrite (proj2 (Z.eqb_neq _ 0) Hne). cbn [negb].
    destruct (Z.leb_spec (len c) a).
    + destruct (cut_rep c r 0 0 false) as (s' & E & Hs'); [lia..|by left|].
      exists s'. rewrite andb_false_r. split; [done|]. rewrite drop_ge, take_nil by lia. done.
    + destruct (Z.leb_spec (len c) e).
      * rewrite (proj2 (Z.ltb_ge _ a)) by lia. rewrite Z.min_r by lia.
        apply cut_rep; [lia..|]. destruct (Z.eqb_spec a 0); [by left|].
        rewrite (proj2 (Z.eqb_neq _ 0)) by lia. done.
      * rewrite Z.min_l by lia. rewrite (swrap_small 32 (e - a + 1)), (uwrap_small 64 (e - a + 1)) by lia.
        apply cut_rep; [lia..|]. destruct (Z.eqb_spec a 0); [by left|].
        rewrite (proj2 (Z.eqb_neq _ 0)) by lia. done.
Qed.

Lemma lstrip_suffix f l : ∃ a, l = a ++ lstrip f l ∧ Forall (λ x, f x = true) a.
Proof.
  induction l as [|x l (a & E & Ha)]; [by exists []|]. cbn [lstrip]. destruct (f x) eqn:Ef; [|by exists []].
  exists (x :: a). split; [cbn; by f_equal|by constructor].
Qed.

Lemma rstrip_prefix f l : ∃ b, l = rstrip f l ++ b ∧ Forall (λ x, f x = true) b.
Proof.
  induction l as [|x l (b & E & Hb)]; [by exists []|]. cbn [rstrip].
  destruct (rstrip f l) as [|y l'] eqn:Er.
  - destruct (f x) eqn:Ef; [exists (x :: l)|exists l]; cbn in E; subst b; split; try done. by constructor.
  - exists b. split; [cbn; by f_equal|done].
Qed.

Lemma rstrip_app f a l : rstrip f l ≠ [] → rstrip f (a ++ l) = a ++ rstrip f l.
Proof.
  intros Hne. induction a as [|x a IH]; [done|]. cbn [app rstrip]. rewrite IH.
  by destruct (a ++ rstrip f l) eqn:E; [destruct a|].
Qed.

Lemma rstrip_snoc f l x : rstrip f (l ++ [x]) = if f x then rstrip f l else l ++ [x].
Proof.
  induction l as [|y l IH]; cbn [app rstrip]; [done|]. rewrite IH. destruct (f x); [done|].
  by destruct (l ++ [x]) eqn:E; [destruct l|].
Qed.

Lemma lstrip_head f l x l' : lstrip f l = x :: l' → f x = false.
Proof. induction l as [|y l IH]; cbn [lstrip]; [done|]. destruct (f y) eqn:E; [done|]. by intros [= -> ->]. Qed.

Lemma rstrip_cons_ne f x l : f x = false → rstrip f (x :: l) ≠ [].
Proof. intros E. cbn [rstrip]. rewrite E. by destruct (rstrip f l). Qed.

Lemma trim_left_ok cset fuel : ∀ a l rest e,
  (length l ≤ fuel)%nat → e = len a + len l - 1 →
  trim_left fuel (a ++ l ++ rest) cset (len a) e = Some (len a + len l - len (lstrip (strchr cset) l)).
Proof.
  induction fuel as [|fuel IH]; intros a l rest e Hf ->; destruct l as [|x l]; cbn [length] in Hf; try lia;
    cbn [trim_left].
  1,2: rewrite (proj2 (Z.leb_gt _ _)) by (cbn; lia); f_equal; cbn; lia.
  rewrite (proj2 (Z.leb_le _ _)) by (cbn [length]; lia). cbn [app lstrip].
  rewrite mget_app by done. bsimpl. destruct (strchr cset x).
  - specialize (IH (a ++ [x]) l rest (len a + len (x :: l) - 1) ltac:(lia)).
    rewrite length_app, <- !app_assoc in IH. cbn [app length] in *.
    replace (len a + 1) with (Z.of_nat (length a + 1)) by lia. rewrite IH by lia. f_equal. lia.
  - f_equal. lia.
Qed.

Lemma trim_right_ok cset fuel : ∀ l rest,
  (length l ≤ fuel)%nat →
  trim_right fuel (l ++ rest) cset (len l - 1) =
  Some (if decide (l = []) then -1 else Z.max 0 (len (rstrip (strchr cset) l) - 1)).
Proof.
  induction fuel as [|fuel IH]; intros l rest Hf; destruct l as [|x l _] using rev_ind;
    try (rewrite length_app in Hf; cbn in Hf; lia); [done..|].
  rewrite length_app in *. cbn [length] in *. cbn [trim_right].
  destruct (decide (l ++ [x] = [])) as [E|_]; [by destruct l|]. rewrite Z.gtb_ltb, rstrip_snoc.
  destruct (Z.ltb_spec 0 (Z.of_nat (length l + 1) - 1)) as [Hl|Hl].
  - rewrite <- app_assoc. cbn [app]. rewrite mget_app by lia. bsimpl.
    destruct (strchr cset x).
    + replace (Z.of_nat (length l + 1) - 1 - 1) with (len l - 1) by lia.
      rewrite (IH l (x :: rest)) by lia. destruct (decide (l = [])); [subst; cbn in Hl; lia|done].
    + rewrite length_app. cbn [length]. f_equal. lia.
  - destruct l; [|cbn in Hl; lia]. destruct (strchr cset x); done.
Qed.

Lemma sdstrim_ok s c cset :
  rep s c →
  ∃ s', sdstrim s cset = Some s' ∧ rep s' (rstrip (strchr cset) (lstrip (strchr cset) c)).
Proof.
  intros (r & -> & Hb). unfold sdstrim, sdslen. cbn [slen sfree buf].
  pose proof (trim_left_ok cset (length (c ++ 0 :: r)) [] c (0 :: r) (len c - 1)) as El.
  cbn [app length] in El. change (Z.of_nat 0) with 0 in El. rewrite Z.add_0_l in El.
  rewrite El by (rewrite ?length_app; lia). clear El.
  bsimpl. rewrite trim_right_ok by (rewrite length_app; lia). bsimpl.
  destruct (lstrip_suffix (strchr cset) c) as (a & Ec & _).
  set (f := strchr cset) in *. set (l := lstrip f c) in *.
  assert (len c = len a + len l) as Hlc by (rewrite Ec at 1; rewrite length_app; lia).
  replace (len c - len l) with (len a) by lia.
  set (ep := if decide (c = []) then -1 else Z.max 0 (len (rstrip f c) - 1)).
  assert (∃ n, (if len a >? ep then 0 else ep - len a + 1) = n ∧ 0 ≤ n ∧ len a + n ≤ len c ∧
    take (Z.to_nat n) (drop (Z.to_nat (len a)) c) = rstrip f l) as (n & -> & Hn & Han & <-).
  { rewrite Nat2Z.id. assert (drop (length a) c = l) as -> by (rewrite Ec at 1; apply drop_app_length).
    rewrite Z.gtb_ltb. destruct l as [|x l'] eqn:Hl.
    - exists 0. assert (ep < len a) by (unfold ep; destruct (decide (c = [])) as [-> |];
        [lia|destruct (rstrip_prefix f c) as (b & Eb & _); apply (f_equal length) in Eb;
         rewrite length_app in Eb; destruct c; [done|]; cbn [length] in *; lia]).
      rewrite (proj2 (Z.ltb_lt _ _)) by lia. cbn [length] in Hlc. split; [done|]. split; [lia|]. split; [lia|done].
    - assert (rstrip f (x :: l') ≠ []) as Hne by (eapply rstrip_cons_ne, lstrip_head, Hl).
      assert (rstrip f c = a ++ rstrip f (x :: l')) as Er by (rewrite Ec; by apply rstrip_app).
      assert (0 < len (rstrip f (x :: l'))) as Hpos by (destruct (rstrip f (x :: l')); [done|cbn [length]; lia]).
      assert (ep = len a + len (rstrip f (x :: l')) - 1) as ->.
      { unfold ep. rewrite Er, length_app. destruct (decide (c = [])) as [-> |]; [by destruct a|lia]. }
      rewrite (proj2 (Z.ltb_ge _ _)) by lia. eexists. split; [done|].
      destruct (rstrip_prefix f (x :: l')) as (b & Eb & _).
      assert (len (x :: l') = len (rstrip f (x :: l')) + len b) as Hlb by (rewrite Eb at 1; rewrite length_app; lia).
      split; [lia|]. split; [lia|].
      replace (Z.to_nat _) with (length (rstrip f (x :: l'))) by lia. rewrite Eb at 2. apply take_app_length. }
  clearbody ep. apply cut_rep; [lia..|]. destruct (Z.eqb_spec (len a) 0); [by left|done].
Qed.
End sds_cut.

(** ** Mapping and comparing *)

Section sds_map.
Implicit Types s : sdshdr.

Lemma map_loop_ok f l : ∀ a rest,
  map_loop (length l) f (a ++ l ++ rest) (len a) = Some (a ++ (f <$> l) ++ rest).
Proof.
  induction l as [|x l IH]; intros a rest; [done|]. cbn [length map_loop fmap list_fmap app].
  rewrite mget_app by done. bsimpl. rewrite mset_app by done. bsimpl.
  specialize (IH (a ++ [f x]) rest). rewrite length_app, <- !app_assoc in IH. cbn [app length] in IH.
  by replace (len a + 1) with (Z.of_nat (length a + 1)) by lia.
Qed.

Lemma map_rep f s c b :
  rep s c → map_loop (Z.to_nat (sdslen s)) f (buf s) 0 = Some b → rep (set_buf s b) (f <$> c).
Proof.
  intros (r & -> & Hb). unfold sdslen. cbn [slen buf]. rewrite Nat2Z.id.
  pose proof (map_loop_ok f c [] (0 :: r)) as E. cbn [app length] in E. change (Z.of_nat 0) with 0 in E.
  rewrite E. intros [= <-]. exists r. rewrite length_fmap. done.
Qed.

Lemma map_loop_Some f s c : rep s c → is_Some (map_loop (Z.to_nat (sdslen s)) f (buf s) 0).
Proof.
  intros (r & -> & Hb). unfold sdslen. cbn [slen buf]. rewrite Nat2Z.id.
  pose proof (map_loop_ok f c [] (0 :: r)) as E. cbn [app length] in E. change (Z.of_nat 0) with 0 in E.
  by rewrite E.
Qed.

Lemma sdstolower_ok s c : rep s c → ∃ s', sdstolower s = Some s' ∧ rep s' (tolower <$> c).
Proof.
  intros Hs. unfold sdstolower. destruct (map_loop_Some tolower s c Hs) as [b E]. rewrite E.
  eexists. split; [done|]. by eapply map_rep.
Qed.

Lemma sdstoupper_ok s c : rep s c → ∃ s', sdstoupper s = Some s' ∧ rep s' (toupper <$> c).
Proof.
  intros Hs. unfold sdstoupper. destruct (map_loop_Some toupper s c Hs) as [b E]. rewrite E.
  eexists. split; [done|]. by eapply map_rep.
Qed.

(** The first of the pairs whose source is the character. *)
Fixpoint translate (pairs : list (Z * Z)) (c : Z) : Z :=
  match pairs with [] => c | (x, y) :: pairs => if c =? x then y else translate pairs c end.

Lemma map_char_ok pairs c : ∀ f0 t0,
  length f0 = length t0 →
  map_char (length pairs) (f0 ++ pairs.*1) (t0 ++ pairs.*2) (len f0) c = Some (translate pairs c).
Proof.
  induction pairs as [|[x y] pairs IH]; intros f0 t0 Hl; [done|]. cbn [length map_char fmap list_fmap fst snd translate].
  rewrite (mget_app f0) by done. bsimpl. destruct (c =? x); [by apply mget_app; lia|].
  specialize (IH (f0 ++ [x]) (t0 ++ [y])). rewrite !length_app, <- !app_assoc in IH. cbn [app length] in IH.
  replace (len f0 + 1) with (Z.of_nat (length f0 + 1)) by lia. apply IH. lia.
Qed.

Lemma mapchars_loop_ok pairs n : ∀ b j,
  mapchars_loop n (pairs.*1) (pairs.*2) (length pairs) b j = map_loop n (translate pairs) b j.
Proof.
  induction n as [|n IH]; intros b j; [done|]. cbn [mapchars_loop map_loop].
  destruct (mget b j) as [c|]; [|done]. bsimpl.
  pose proof (map_char_ok pairs c [] [] eq_refl) as E. cbn [app length] in E. change (Z.of_nat 0) with 0 in E.
  rewrite E. bsimpl.
  destruct (mset b j _); [|done]. apply IH.
Qed.

Lemma sdsmapchars_ok s c pairs :
  rep s c →
  ∃ s', sdsmapchars s (pairs.*1) (pairs.*2) (length pairs) = Some s' ∧ rep s' (translate pairs <$> c).
Proof.
  intros Hs. unfold sdsmapchars. rewrite mapchars_loop_ok.
  destruct (map_loop_Some (translate pairs) s c Hs) as [b E]. rewrite E.
  eexists. split; [done|]. by eapply map_rep.
Qed.

(** Lexicographic order on bytes, a proper prefix being smaller. *)
Fixpoint lex_lt (a b : list Z) : Prop :=
  match a, b with
  | [], [] => False
  | [], _ => True
  | _, [] => False
  | x :: a, y :: b => x < y ∨ (x = y ∧ lex_lt a b)
  end.

Lemma memcmp_ok a : ∀ b ra rb,
  ∃ r, memcmp (a ++ ra) (b ++ rb) (min (length a) (length b)) = Some r ∧
    ((r = 0 ∧ (a = b ∧ length a = length b ∨ lex_lt a b ∧ (length a < length b)%nat ∨
               lex_lt b a ∧ (length b < length a)%nat)) ∨
     (r < 0 ∧ lex_lt a b ∧ a ≠ b) ∨ (0 < r ∧ lex_lt b a ∧ a ≠ b)).
Proof.
  induction a as [|x a IH]; intros b ra rb; destruct b as [|y b]; cbn [length Nat.min memcmp app lex_lt].
  - exists 0. split; [done|]. left. split; [done|]. by left.
  - exists 0. split; [done|]. left. split; [done|]. right. left. split; [done|lia].
  - exists 0. split; [done|]. left. split; [done|]. right. right. split; [done|lia].
  - destruct (Z.eqb_spec x y) as [-> |Hne].
    + destruct (IH b ra rb) as (r & -> & Hr). exists r. split; [done|].
      destruct Hr as [(-> & [[-> ?]|[[? ?]|[? ?]]])|[(? & ? & ?)|(? & ? & ?)]].
      * left. split; [done|]. by left.
      * left. split; [done|]. right. left. split; [by right|lia].
      * left. split; [done|]. right. right. split; [by right|lia].
      * right. left. split; [done|]. split; [by right|congruence].
      * right. right. split; [done|]. split; [by right|congruence].
    + exists (x - y). split; [done|]. right. destruct (decide (x < y)); [left|right];
        (split; [lia|]); (split; [left; lia|congruence]).
Qed.

Lemma lex_lt_irrefl a : ¬ lex_lt a a.
Proof. induction a as [|x a IH]; cbn; [tauto|]. intros [?|[_ ?]]; [lia|done]. Qed.

Lemma lex_lt_asym a : ∀ b, lex_lt a b → ¬ lex_lt b a.
Proof. induction a as [|x a IH]; intros [|y b]; cbn; try tauto. intros [?|[-> ?]] [?|[? ?]]; try lia. by eapply IH. Qed.

Lemma sdscmp_ok s1 s2 c1 c2 :
  rep s1 c1 → rep s2 c2 →
  ∃ r, sdscmp s1 s2 = Some r ∧ (r = 0 ↔ c1 = c2) ∧ (r < 0 ↔ lex_lt c1 c2).
Proof.
  intros (r1 & -> & Hb1) (r2 & -> & Hb2). unfold sdscmp, sdslen. cbn [slen buf].
  replace (Z.to_nat (if len c1 <? len c2 then len c1 else len c2)) with (min (length c1) (length c2))
    by (destruct (Z.ltb_spec (len c1) (len c2)); lia).
  destruct (memcmp_ok c1 c2 (0 :: r1) (0 :: r2)) as (r & -> & Hr). bsimpl.
  eexists. split; [done|]. pose proof (lex_lt_irrefl c1). pose proof (lex_lt_asym c1 c2).
  destruct (Z.eqb_spec r 0) as [-> |Hne].
  - rewrite swrap_small by lia.
    destruct Hr as [(_ & [[-> ?]|[[? ?]|[? ?]]])|[(? & ? & ?)|(? & ? & ?)]]; [|split|split|lia|lia].
    + split; [split; [done|lia]|]. split; [lia|done].
    + split; [lia|intros ->; done].
    + split; [done|lia].
    + split; [lia|intros ->; done].
    + split; [lia|tauto].
  - destruct Hr as [(? & _)|[(? & ? & ?)|(? & ? & ?)]]; [done| |]; split.
    + split; [done|done].
    + split; [done|done].
    + split; [done|done].
    + split; [lia|tauto].
Qed.
End sds_map.

(** ** Numbers *)

Section sds_numbers.

(** The digits come out last first; [k] bounds how many there are. *)
Lemma digits_loop_ok k : ∀ fuel a w v,
  (0 < k)%nat → (k ≤ fuel)%nat → (k ≤ length w)%nat → 0 ≤ v < 10 ^ Z.of_nat k →
  ∃ ds w', digits_loop fuel (a ++ w) (len a) v = Some (a ++ reverse ds ++ w', len a + len ds) ∧
    Forall digit ds ∧ ds ≠ [] ∧ (head ds = Some 48 → ds = [48]) ∧ dec_val ds = v ∧
    (length ds ≤ k)%nat ∧ (length ds + length w' = length w)%nat.
Proof.
  induction k as [|k IH]; intros fuel a w v Hk Hf Hw Hv; [lia|].
  destruct fuel as [|fuel]; [lia|]. destruct w as [|x w]; [cbn in Hw; lia|]. cbn [length] in Hw.
  cbn [digits_loop]. rewrite mset_app by done. bsimpl.
  pose proof (Z.mod_pos_bound v 10 ltac:(lia)). pose proof (Z.div_mod v 10 ltac:(lia)) as Hdm.
  assert (digit (48 + v mod 10)) as Hd by (unfold digit; lia).
  destruct (Z.eqb_spec (v / 10) 0) as [H0|H0].
  - exists [48 + v mod 10], w. split; [done|]. split; [by apply Forall_singleton|]. split; [done|].
    split; [by intros [= ->]|]. split; [unfold dec_val, dec_acc; cbn [foldl]; lia|]. cbn [length]. lia.
  - rewrite Nat2Z.inj_succ, Z.pow_succ_r in Hv by lia.
    assert (0 < k)%nat as Hk' by (destruct k; [cbn in Hv; exfalso; apply H0, Z.div_small; lia|lia]).
    destruct (IH fuel (a ++ [48 + v mod 10]) w (v / 10)) as (ds & w' & E & Hds & Hne & Hh & Hval & Hl & Hlw);
      [done|lia|lia|split; [apply Z.div_pos; lia|apply Z.div_lt_upper_bound; lia]|].
    rewrite length_app, <- !app_assoc in E. cbn [app length] in E.
    replace (len a + 1) with (Z.of_nat (length a + 1)) by lia. rewrite E.
    exists (ds ++ [48 + v mod 10]), w'. rewrite reverse_snoc, length_app. cbn [length app].
    split; [f_equal; f_equal; lia|]. split; [apply Forall_app; split; [done|by apply Forall_singleton]|].
    split; [by destruct ds|]. split.
    { destruct ds as [|d ds]; [done|]. cbn [app head]. intros Hh'. specialize (Hh Hh'). injection Hh as -> ->.
      unfold dec_val, dec_acc in Hval. cbn in Hval. lia. }
    split; [|lia]. unfold dec_val in *. rewrite dec_acc_snoc. lia.
Qed.

Lemma reverse_loop_ok n : ∀ fuel a l rest,
  (length l ≤ n)%nat → (n ≤ fuel)%nat →
  reverse_loop fuel (a ++ l ++ rest) (len a) (len a + len l - 1) = Some (a ++ reverse l ++ rest).
Proof.
  induction n as [n IH] using lt_wf_ind. intros fuel a l rest Hl Hf.
  destruct l as [|x l]; [|destruct l as [|y l _] using rev_ind].
  - destruct fuel; cbn [reverse_loop length]; rewrite (proj2 (Z.ltb_ge _ _)) by (cbn; lia); done.
  - destruct fuel; cbn [reverse_loop length]; rewrite (proj2 (Z.ltb_ge _ _)) by (cbn; lia); done.
  - cbn [length] in Hl. rewrite length_app in Hl. cbn [length] in Hl.
    destruct fuel as [|fuel]; [lia|]. cbn [reverse_loop length]. rewrite length_app. cbn [length].
    rewrite (proj2 (Z.ltb_lt _ _)) by lia. cbn [app].
    rewrite (mget_app a ((l ++ [y]) ++ rest) x (len a)) by done. bsimpl.
    assert (mget (a ++ x :: (l ++ [y]) ++ rest) (len a + Z.of_nat (S (length l + 1)) - 1) = Some y) as ->.
    { rewrite <- app_assoc. change (a ++ x :: l ++ [y] ++ rest) with (a ++ (x :: l) ++ y :: rest).
      rewrite app_assoc. apply mget_app. rewrite length_app. cbn [length]. lia. }
    bsimpl. rewrite mset_app by done. bsimpl.
    assert (mset (a ++ y :: (l ++ [y]) ++ rest) (len a + Z.of_nat (S (length l + 1)) - 1) x =
      Some ((a ++ [y]) ++ l ++ x :: rest)) as ->.
    { rewrite <- app_assoc. change (a ++ y :: l ++ [y] ++ rest) with (a ++ (y :: l) ++ y :: rest).
      rewrite app_assoc, mset_app by (rewrite length_app; cbn [length]; lia). by rewrite <- !app_assoc. }
    bsimpl.
    pose proof (IH (length l) ltac:(lia) fuel (a ++ [y]) l (x :: rest) ltac:(lia) ltac:(lia)) as E.
    rewrite length_app in E. cbn [length] in E.
    replace (len a + 1) with (Z.of_nat (length a + 1)) by lia.
    replace (len a + Z.of_nat (S (length l + 1)) - 1 - 1) with (Z.of_nat (length a + 1) + len l - 1) by lia.
    rewrite E, reverse_cons, reverse_snoc. rewrite <- !app_assoc. done.
Qed.

Lemma print_digits_ok b v (negative : bool) :
  len b = SDS_LLSTR_SIZE → 0 ≤ v < 2 ^ 64 → (negative = true → 0 < v ≤ 2 ^ 63) →
  ∃ s r, print_digits b v negative = Some (s ++ 0 :: r, len s) ∧
    decimal_repr (if negative then - v else v) s ∧ len s ≤ 20.
Proof.
  intros Hb Hv Hneg. unfold SDS_LLSTR_SIZE in Hb. unfold print_digits.
  set (k := if negative then 19%nat else 20%nat).
  assert (v < 10 ^ Z.of_nat k) as Hvk by (unfold k; destruct negative; [specialize (Hneg eq_refl)|]; lia).
  destruct (digits_loop_ok k 20 [] b v) as (ds & w & E & Hds & Hne & Hh & Hval & Hl & Hlw);
    [unfold k; destruct negative; lia..|].
  cbn [app length] in E. change (Z.of_nat 0) with 0 in E. rewrite Z.add_0_l in E. rewrite E.
  bsimpl.
  assert (∃ s r, (if negative then b ← mset (reverse ds ++ w) (len ds) 45; Some (b, len ds + 1)
      else Some (reverse ds ++ w, len ds)) = Some (reverse s ++ r, len s) ∧
      decimal_repr (if negative then - v else v) s ∧ len s ≤ 20 ∧ len s + len r = 21) as (s & r & -> & Hs & Hls & Hlr).
  { destruct negative.
    - specialize (Hneg eq_refl). unfold k in Hl. destruct w as [|x w]; [cbn in Hlw; lia|]. cbn [length] in Hlw.
      rewrite mset_app by (rewrite length_reverse; lia). bsimpl.
      exists (45 :: ds), w. rewrite reverse_cons, <- app_assoc. cbn [length app]. split; [f_equal; f_equal; lia|].
      split; [|lia]. exists ds. rewrite (proj2 (Z.ltb_lt _ _)) by lia. split_and!; try done. lia.
    - exists ds, w. split; [done|]. split; [|unfold k in Hl; lia]. exists ds.
      rewrite (proj2 (Z.ltb_ge _ _)) by lia. split_and!; try done. lia. }
  bsimpl. destruct r as [|x r]; [cbn in Hlr; lia|].
  rewrite mset_app by (rewrite length_reverse; lia). bsimpl.
  pose proof (reverse_loop_ok 20 20 [] (reverse s) (0 :: r)) as Er.
  rewrite length_reverse, reverse_involutive in Er. cbn [app length] in Er. change (Z.of_nat 0) with 0 in Er.
  rewrite Z.add_0_l in Er. rewrite Er by lia. bsimpl. eauto.
Qed.

Lemma sdsll2str_ok b v :
  len b = SDS_LLSTR_SIZE → LLONG_MIN ≤ v ≤ LLONG_MAX →
  ∃ s r, sdsll2str b v = Some (s ++ 0 :: r, len s) ∧ decimal_repr v s ∧ len s ≤ 20.
Proof.
  intros Hb Hv. unfold LLONG_MIN, LLONG_MAX in Hv. unfold sdsll2str. destruct (Z.ltb_spec v 0).
  - destruct (print_digits_ok b (- v) true) as (s & r & E & Hs & Hl); [done|lia|lia|].
    rewrite uwrap_small by lia. rewrite Z.opp_involutive in Hs. eauto.
  - destruct (print_digits_ok b v false) as (s & r & E & Hs & Hl); [done|lia|done|].
    rewrite uwrap_small by lia. eauto.
Qed.

Lemma sdsull2str_ok b v :
  len b = SDS_LLSTR_SIZE → 0 ≤ v < 2 ^ 64 →
  ∃ s r, sdsull2str b v = Some (s ++ 0 :: r, len s) ∧ decimal_repr v s ∧ len s ≤ 20.
Proof. intros Hb Hv. by apply (print_digits_ok b v false). Qed.

Lemma sdsfromlonglong_ok junk v :
  LLONG_MIN ≤ v ≤ LLONG_MAX → ∃ s c, sdsfromlonglong junk v = Some s ∧ rep s c ∧ decimal_repr v c.
Proof.
  intros Hv. unfold sdsfromlonglong.
  destruct (sdsll2str_ok (zmalloc junk SDS_LLSTR_SIZE) v) as (c & r & -> & Hc & Hl); [by apply zmalloc_length|done|].
  bsimpl. destruct (sdsnewlen_ok junk c (0 :: r) (len c)) as (s & E & Hs); [done|unfold fits; lia|].
  eauto.
Qed.
End sds_numbers.
