(* ===== verification/SdsText.v ===== *)
(** * Text with dynamic strings

    The contract of the functions of [sds.c] that build and take apart text:
    formatted output, quoting ([sdscatrepr]) and the parser that undoes it
    ([sdssplitargs]), splitting and joining.  The definitions are in [Sds]. *)

From S2P Require Import Prelude Util Sds.
Local Open Scope Z_scope.

(** ** Formatted output *)

Section sds_printf.
Context (junk : nat → Z).
Implicit Types s : sdshdr.

Lemma vsnprintf_ok b buflen l :
  len b = buflen → 2 ≤ buflen → mget b (buflen - 2) = Some 0 →
  ∃ r, let w := take (Z.to_nat (buflen - 1)) l in
    vsnprintf b buflen l = Some (w ++ 0 :: r) ∧
    (len l < buflen - 1 → mget (w ++ 0 :: r) (buflen - 2) = Some 0).
Proof.
  intros Hb H2 H0. unfold vsnprintf. set (w := take _ l).
  assert (len w ≤ buflen - 1) as Hw by (unfold w; rewrite length_take; lia).
  exists (drop (length w + 1) b). cbv zeta. split.
  - unfold mwrite. rewrite bool_decide_eq_true_2 by (rewrite length_app; cbn [length]; lia).
    cbn [Z.to_nat take app Nat.add]. rewrite length_app, <- app_assoc. done.
  - intros Hl. assert (len w ≤ buflen - 2) as Hw2 by (unfold w; rewrite length_take; lia).
    apply mget_Some in H0 as [_ H0]. apply mget_Some. split; [lia|].
    rewrite lookup_app_r by lia. destruct (decide (len w = buflen - 2)).
    + by replace (Z.to_nat (buflen - 2) - length w)%nat with 0%nat by lia.
    + replace (Z.to_nat (buflen - 2) - length w)%nat with (S (Z.to_nat (buflen - 2) - length w - 1)) by lia.
      cbn [lookup list_lookup]. rewrite <- H0. setoid_rewrite lookup_drop. f_equal. lia.
Qed.

Lemma vprintf_loop_ok fuel : ∀ buflen l,
  Forall (λ x, x ≠ 0) l → 2 ≤ buflen → (0 < fuel)%nat → len l + 2 - buflen < Z.of_nat fuel →
  ∃ r, vprintf_loop junk fuel buflen l = Some (l ++ 0 :: r).
Proof.
  induction fuel as [|fuel IH]; intros buflen l Hl Hb Hf0 Hf; [lia|]. cbn [vprintf_loop].
  pose proof (zmalloc_length junk buflen ltac:(lia)) as Hz.
  unfold mset at 1. rewrite bool_decide_eq_true_2 by lia. bsimpl.
  destruct (vsnprintf_ok (<[Z.to_nat (buflen - 2) := 0]> (zmalloc junk buflen)) buflen l) as (r & -> & H0);
    [by rewrite length_insert|done|apply mget_Some; split; [lia|apply list_lookup_insert_eq; lia]|].
  bsimpl. destruct (decide (len l < buflen - 1)) as [Hs|Hs].
  - rewrite (H0 Hs). cbn [mbind option_bind negb Z.eqb]. rewrite take_ge by lia. by exists r.
  - assert (∃ c, mget (take (Z.to_nat (buflen - 1)) l ++ 0 :: r) (buflen - 2) = Some c ∧ c ≠ 0) as (c & -> & Hc).
    { destruct (lookup_lt_is_Some_2 l (Z.to_nat (buflen - 2))) as [c Hc]; [lia|]. exists c.
      split; [|by eapply (Forall_lookup_1 (λ x, x ≠ 0))]. apply mget_Some. split; [lia|].
      apply lookup_app_l_Some. rewrite lookup_take_lt by lia. done. }
    bsimpl. rewrite (proj2 (Z.eqb_neq _ _)) by done. cbn [negb]. apply IH; [done|lia..].
Qed.

Lemma sdscatprintf_ok s c fmtlen l :
  rep s c → Forall (λ x, x ≠ 0) l → fits (len c + len l) →
  ∃ s', sdscatprintf junk s fmtlen l = Some s' ∧ rep s' (c ++ l).
Proof.
  intros Hs Hl Hf. unfold sdscatprintf, sdscatvprintf. rewrite Z.gtb_ltb.
  destruct (vprintf_loop_ok (S (length l)) (if 1024 <? fmtlen * 2 then fmtlen * 2 else 1024) l) as (r & ->);
    [done|destruct (Z.ltb_spec 1024 (fmtlen * 2)); lia|lia|destruct (Z.ltb_spec 1024 (fmtlen * 2)); lia|].
  bsimpl. by apply sdscat_ok.
Qed.

(** ** Quoting *)

Definition quote (p : Z) : list Z :=
  if (p =? 92) || (p =? 34) then [92; p]
  else if p =? 10 then [92; 110]
  else if p =? 13 then [92; 114]
  else if p =? 9 then [92; 116]
  else if p =? 7 then [92; 97]
  else if p =? 8 then [92; 98]
  else if isprint p then [p]
  else [92; 120; hex_digit (p / 16); hex_digit (p mod 16)].

Fixpoint quotes (p : list Z) : list Z :=
  match p with [] => [] | c :: p => quote c ++ quotes p end.

Definition repr (p : list Z) : list Z := 34 :: quotes p ++ [34].

Lemma hex_digit_nonzero n : 0 ≤ n → hex_digit n ≠ 0.
Proof. unfold hex_digit. destruct (Z.ltb_spec n 10); lia. Qed.

Lemma quote_length p : 1 ≤ len (quote p) ≤ 4.
Proof.
  unfold quote. repeat match goal with |- context [if ?b then _ else _] => destruct b end; cbn; lia.
Qed.

Lemma cat_char_ok s c p :
  rep s c → byte p → fits (len c + len (quote p)) →
  ∃ s', cat_char junk s p = Some s' ∧ rep s' (c ++ quote p).
Proof.
  intros Hs Hp. unfold cat_char, quote, byte in *.
  destruct ((p =? 92) || (p =? 34)) eqn:E1.
  { intros Hf. apply sdscatprintf_ok; [done| |done]. apply orb_true_iff in E1 as [->%Z.eqb_eq | ->%Z.eqb_eq];
      by repeat constructor. }
  destruct (p =? 10); [intros; by apply (sdscatlen_ok junk s c [92; 110] [])|].
  destruct (p =? 13); [intros; by apply (sdscatlen_ok junk s c [92; 114] [])|].
  destruct (p =? 9); [intros; by apply (sdscatlen_ok junk s c [92; 116] [])|].
  destruct (p =? 7); [intros; by apply (sdscatlen_ok junk s c [92; 97] [])|].
  destruct (p =? 8); [intros; by apply (sdscatlen_ok junk s c [92; 98] [])|].
  destruct (isprint p) eqn:Ep; intros; apply sdscatprintf_ok; try done.
  - unfold isprint in Ep. apply andb_true_iff in Ep as [?%Z.leb_le _]. apply Forall_singleton. lia.
  - pose proof (Z.mod_pos_bound p 16 ltac:(lia)). pose proof (Z.div_pos p 16 ltac:(lia) ltac:(lia)).
    repeat apply Forall_cons_2; try done; [by apply hex_digit_nonzero|apply hex_digit_nonzero; lia].
Qed.

Lemma repr_loop_ok p : ∀ s c,
  rep s c → Forall byte p → fits (len c + len (quotes p)) →
  ∃ s', repr_loop junk s p = Some s' ∧ rep s' (c ++ quotes p).
Proof.
  induction p as [|x p IH]; intros s c Hs Hp Hf; cbn [repr_loop].
  { exists s. split; [done|]. cbn. by rewrite app_nil_r. }
  apply Forall_cons in Hp as [Hx Hp]. cbn [quotes] in *. rewrite length_app in Hf. unfold fits in *.
  destruct (cat_char_ok s c x) as (s1 & -> & Hs1); [done|done|unfold fits; lia|]. bsimpl.
  rewrite app_assoc. apply IH; [done|done|]. unfold fits. rewrite length_app. lia.
Qed.

Lemma sdscatrepr_ok s c p :
  rep s c → Forall byte p → fits (len c + len (repr p)) →
  ∃ s', sdscatrepr junk s p = Some s' ∧ rep s' (c ++ repr p).
Proof.
  intros Hs Hp Hf. unfold sdscatrepr, repr, fits in *. cbn [length] in Hf. rewrite length_app in Hf. cbn [length] in Hf.
  destruct (sdscatlen_ok junk s c [34] [] 1) as (s1 & E1 & Hs1); [done|done|unfold fits; lia|]. cbn [app] in E1.
  rewrite E1. bsimpl.
  destruct (repr_loop_ok p s1 (c ++ [34])) as (s2 & -> & Hs2); [done|done| |].
  { unfold fits. rewrite length_app. cbn [length]. lia. }
  bsimpl. destruct (sdscatlen_ok junk s2 _ [34] [] 1 Hs2) as (s3 & E3 & Hs3); [done| |].
  { unfold fits. rewrite !length_app. cbn [length]. lia. }
  cbn [app] in E3. rewrite E3. eexists. split; [done|]. by rewrite <- !app_assoc in Hs3.
Qed.
End sds_printf.

(** ** Parsing quoted arguments *)

Section sds_parse.
Context (junk : nat → Z).
Implicit Types s cur : sdshdr.

Lemma append_ok q p cur c x :
  rep cur c → fits (len c + 1) →
  ∃ cur', append junk q p cur x = Some (Next q p cur') ∧ rep cur' (c ++ [x]).
Proof.
  intros Hs Hf. unfold append. destruct (sdscatlen_ok junk cur c [x] [] 1) as (s' & E & Hs'); [done..|].
  cbn [app] in E. rewrite E. bsimpl. eauto.
Qed.

Lemma hex_digit_ok n : 0 ≤ n < 16 → is_hex_digit (hex_digit n) = true ∧ hex_digit_to_int (hex_digit n) = n.
Proof.
  intros Hn. assert (n ∈ seqZ 0 16) as Hin by (apply elem_of_seqZ; lia).
  repeat (apply elem_of_cons in Hin as [-> |Hin]; [by vm_compute|]). by apply elem_of_nil in Hin.
Qed.

(** An escape [\e] other than the hexadecimal one. *)
Lemma in_quotes_escape pre post e cur c :
  e ≠ 0 → e ≠ 120 → rep cur c → fits (len c + 1) →
  ∃ cur', in_quotes junk (pre ++ [92; e] ++ post) (len pre) 92 cur = Some (Next InQ (len pre + 1) cur') ∧
    rep cur' (c ++ [unescape e]).
Proof.
  intros He Hx Hs Hf. unfold in_quotes, hex_escape.
  pose proof (mget_at pre [92; e] post 1 (len pre + 1) e eq_refl eq_refl) as E1.
  change (92 =? 92) with true. cbn iota. rewrite E1. bsimpl.
  rewrite (proj2 (Z.eqb_neq e 120)), (proj2 (Z.eqb_neq e 0)) by done. cbn [negb mbind option_bind].
  by apply append_ok.
Qed.

Lemma in_quotes_hex pre post b cur c :
  byte b → rep cur c → fits (len c + 1) →
  ∃ cur', in_quotes junk (pre ++ [92; 120; hex_digit (b / 16); hex_digit (b mod 16)] ++ post) (len pre) 92 cur =
      Some (Next InQ (len pre + 3) cur') ∧ rep cur' (c ++ [b]).
Proof.
  intros Hb Hs Hf. unfold in_quotes, hex_escape, byte in *.
  set (q := [92; 120; hex_digit (b / 16); hex_digit (b mod 16)]).
  pose proof (mget_at pre q post 1 (len pre + 1) _ eq_refl eq_refl) as E1.
  pose proof (mget_at pre q post 2 (len pre + 2) _ eq_refl eq_refl) as E2.
  pose proof (mget_at pre q post 3 (len pre + 3) _ eq_refl eq_refl) as E3.
  destruct (hex_digit_ok (b / 16)) as [H1 V1]; [Z.to_euclidean_division_equations; lia|].
  destruct (hex_digit_ok (b mod 16)) as [H2 V2]; [Z.to_euclidean_division_equations; lia|].
  change (92 =? 92) with true. cbn iota. rewrite E1. bsimpl. change (120 =? 120) with true. cbn iota.
  rewrite E2. bsimpl. rewrite H1, E3. bsimpl. rewrite H2, V1, V2.
  assert (u8 (b / 16 * 16 + b mod 16) = b) as ->.
  { rewrite uwrap_small; Z.to_euclidean_division_equations; lia. }
  by apply append_ok.
Qed.

Lemma in_quotes_plain line p x cur c :
  x ≠ 92 → x ≠ 34 → x ≠ 0 → rep cur c → fits (len c + 1) →
  ∃ cur', in_quotes junk line p x cur = Some (Next InQ p cur') ∧ rep cur' (c ++ [x]).
Proof.
  intros H1 H2 H3 Hs Hf. unfold in_quotes, hex_escape.
  rewrite (proj2 (Z.eqb_neq x 92)) by done. bsimpl.
  rewrite (proj2 (Z.eqb_neq x 34)), (proj2 (Z.eqb_neq x 0)) by done. by apply append_ok.
Qed.

Lemma in_quotes_close line p cur : in_quotes junk line p 34 cur = close_quote line p.
Proof. reflexivity. Qed.

Lemma unquoted_open line p cur : unquoted junk line p 34 cur = Some (Next InQ p cur).
Proof. reflexivity. Qed.

(** One quoted character, whatever its form, adds the character. *)
Lemma quoted_char_ok pre post x cur c :
  byte x → rep cur c → fits (len c + 1) →
  ∃ h p' cur' y, mget (pre ++ quote x ++ post) (len pre) = Some h ∧
    in_quotes junk (pre ++ quote x ++ post) (len pre) h cur = Some (Next InQ p' cur') ∧
    p' = len pre + len (quote x) - 1 ∧ mget (pre ++ quote x ++ post) p' = Some y ∧ y ≠ 0 ∧ rep cur' (c ++ [x]).
Proof.
  intros Hx Hs Hf.
  assert (∀ e, e ≠ 0 → e ≠ 120 → unescape e = x → quote x = [92; e] →
    ∃ h p' cur' y, mget (pre ++ quote x ++ post) (len pre) = Some h ∧
    in_quotes junk (pre ++ quote x ++ post) (len pre) h cur = Some (Next InQ p' cur') ∧
    p' = len pre + len (quote x) - 1 ∧ mget (pre ++ quote x ++ post) p' = Some y ∧ y ≠ 0 ∧ rep cur' (c ++ [x])) as Hesc.
  { intros e H0 H120 Hu Hq. rewrite Hq.
    destruct (in_quotes_escape pre post e cur c H0 H120 Hs Hf) as (cur' & E & Hs'). rewrite Hu in Hs'.
    exists 92, (len pre + 1), cur', e. split; [by apply (mget_at _ _ _ 0); [|lia]|]. split; [done|].
    split; [cbn; lia|]. split; [by apply (mget_at _ _ _ 1)|]. done. }
  unfold quote in *. destruct (Z.eqb_spec x 92) as [-> |N92]; cbn [orb] in *; [by apply (Hesc 92)|].
  destruct (Z.eqb_spec x 34) as [-> |N34]; [by apply (Hesc 34)|].
  destruct (Z.eqb_spec x 10) as [-> |]; [by apply (Hesc 110)|].
  destruct (Z.eqb_spec x 13) as [-> |]; [by apply (Hesc 114)|].
  destruct (Z.eqb_spec x 9) as [-> |]; [by apply (Hesc 116)|].
  destruct (Z.eqb_spec x 7) as [-> |]; [by apply (Hesc 97)|].
  destruct (Z.eqb_spec x 8) as [-> |]; [by apply (Hesc 98)|]. clear Hesc.
  destruct (isprint x) eqn:Ep.
  - unfold isprint in Ep. apply andb_true_iff in Ep as [?%Z.leb_le _].
    destruct (in_quotes_plain (pre ++ [x] ++ post) (len pre) x cur c) as (cur' & E & Hs'); [lia..|done|done|].
    exists x, (len pre), cur', x. split; [by apply (mget_at _ _ _ 0); [|lia]|]. split; [done|].
    split; [cbn; lia|]. split; [by apply (mget_at _ _ _ 0); [|lia]|]. split; [lia|done].
  - destruct (in_quotes_hex pre post x cur c) as (cur' & E & Hs'); [done..|].
    exists 92, (len pre + 3), cur', (hex_digit (x mod 16)). split; [by apply (mget_at _ _ _ 0); [|lia]|].
    split; [done|]. split; [cbn; lia|]. split; [by apply (mget_at _ _ _ 3)|]. split; [|done].
    apply hex_digit_nonzero. apply Z.mod_pos_bound. lia.
Qed.

(** What may follow a closing quote. *)
Definition ends_token (post : list Z) : Prop := ∃ x post', post = x :: post' ∧ (x = 0 ∨ x = 32).

Lemma token_loop_quoted arg : ∀ fuel pre post cur c,
  Forall byte arg → rep cur c → fits (len c + len arg) → ends_token post → (length arg < fuel)%nat →
  ∃ cur', token_loop junk fuel (pre ++ quotes arg ++ 34 :: post) InQ (len pre) cur =
    Some (Some (len (pre ++ quotes arg ++ [34]), cur')) ∧ rep cur' (c ++ arg).
Proof.
  induction arg as [|x arg IH]; intros fuel pre post cur c Hb Hs Hf Hend Hfuel;
    (destruct fuel as [|fuel]; [lia|]); cbn [token_loop quotes app].
  - rewrite mget_app by done. bsimpl. rewrite in_quotes_close. unfold close_quote.
    destruct Hend as (y & post' & -> & Hy).
    assert (mget (pre ++ 34 :: y :: post') (len pre + 1) = Some y) as ->.
    { by apply (mget_at pre [34; y] post' 1). }
    bsimpl. assert (negb (y =? 0) && negb (isspace y) = false) as -> by (by destruct Hy as [-> | ->]).
    bsimpl. unfold advance. rewrite mget_app by done. bsimpl.
    change (34 =? 0) with false. cbn iota. exists cur. rewrite length_app. cbn [length]. rewrite app_nil_r.
    split; [|done]. do 4 f_equal. lia.
  - apply Forall_cons in Hb as [Hx Hb]. cbn [length] in *. unfold fits in Hf.
    rewrite <- app_assoc.
    destruct (quoted_char_ok pre (quotes arg ++ 34 :: post) x cur c) as (h & p' & cur' & y & -> & E & Hp' & Hy & Hy0 & Hs');
      [done|done|unfold fits; lia|].
    bsimpl. rewrite E. bsimpl. unfold advance. rewrite Hy. bsimpl.
    rewrite (proj2 (Z.eqb_neq y 0)) by done. rewrite app_assoc.
    replace (p' + 1) with (len (pre ++ quote x)) by (rewrite length_app; lia).
    destruct (IH fuel (pre ++ quote x) post cur' (c ++ [x])) as (cur2 & -> & Hs2);
      [done|done|unfold fits; rewrite length_app; cbn [length]; lia|done|lia|].
    exists cur2. rewrite <- !app_assoc in *. done.
Qed.

Lemma quotes_length arg : (length arg ≤ length (quotes arg))%nat.
Proof. induction arg as [|x arg IH]; cbn; [lia|]. rewrite length_app. pose proof (quote_length x). lia. Qed.

Lemma token_loop_repr pre post arg cur fuel :
  Forall byte arg → rep cur [] → fits (len arg) → ends_token post → (S (length arg) < fuel)%nat →
  ∃ cur', token_loop junk fuel (pre ++ repr arg ++ post) Unquoted (len pre) cur =
    Some (Some (len (pre ++ repr arg), cur')) ∧ rep cur' arg.
Proof.
  intros Hb Hs Hf Hend Hfuel. destruct fuel as [|fuel]; [lia|]. cbn [token_loop]. unfold repr. cbn [app].
  rewrite mget_app by done. bsimpl. rewrite unquoted_open.
  bsimpl. unfold advance. rewrite mget_app by done.
  bsimpl. change (34 =? 0) with false. cbn iota.
  destruct (token_loop_quoted arg fuel (pre ++ [34]) post cur []) as (cur' & E & Hs'); [done|done|done|done|lia|].
  exists cur'. rewrite length_app in E. cbn [length] in E. rewrite <- !app_assoc in E. cbn [app] in E.
  replace (len pre + 1) with (Z.of_nat (length pre + 1)) by lia. rewrite <- !app_assoc. cbn [app].
  rewrite E. split; [|done]. done.
Qed.

(** Quoted arguments separated by spaces. *)
Fixpoint quoted_line (args : list (list Z)) : list Z :=
  match args with
  | [] => []
  | [a] => repr a
  | a :: args => repr a ++ 32 :: quoted_line args
  end.

Lemma quoted_line_cons a args :
  quoted_line (a :: args) = repr a ++ (match args with [] => [] | _ => 32 :: quoted_line args end).
Proof. destruct args; cbn [quoted_line]; [by rewrite app_nil_r|done]. Qed.

(** At most one blank before the next token or the end. *)
Lemma skip_blanks_ok fuel pre sp x rest :
  sp = [] ∨ sp = [32] → (0 < fuel)%nat → x = 0 ∨ isspace x = false →
  skip_blanks fuel (pre ++ sp ++ x :: rest) (len pre) = Some (len (pre ++ sp)).
Proof.
  intros Hsp Hf Hx. destruct fuel as [|fuel]; [lia|].
  assert (∀ fuel pre, skip_blanks fuel (pre ++ x :: rest) (len pre) = Some (len pre)) as Hstop.
  { intros f pre'. assert (negb (x =? 0) && isspace x = false) as Hb
      by (destruct Hx as [-> | ->]; [done|apply andb_false_r]).
    destruct f; cbn [skip_blanks]; rewrite mget_app by done; bsimpl; by rewrite Hb. }
  destruct Hsp as [-> | ->]; cbn [app]; [rewrite app_nil_r; apply Hstop|].
  cbn [skip_blanks]. rewrite mget_app by done. bsimpl.
  change (negb (32 =? 0) && isspace 32) with true. cbn iota.
  specialize (Hstop fuel (pre ++ [32])). rewrite length_app in *. cbn [length] in *. rewrite <- app_assoc in Hstop.
  cbn [app] in Hstop. by replace (len pre + 1) with (Z.of_nat (length pre + 1)) by lia.
Qed.

Lemma args_loop_ok args : ∀ fuel pre sp rest vec,
  sp = [] ∨ sp = [32] → Forall (Forall byte) args → (length args < fuel)%nat →
  fits (len (pre ++ sp ++ quoted_line args ++ 0 :: rest)) →
  ∃ toks, args_loop junk fuel (pre ++ sp ++ quoted_line args ++ 0 :: rest) (len pre) vec = Some (Some (vec ++ toks)) ∧
    Forall2 rep toks args.
Proof.
  induction args as [|a args IH]; intros fuel pre sp rest vec Hsp Hb Hf Hfit; (destruct fuel as [|fuel]; [lia|]);
    cbn [args_loop].
  - cbn [quoted_line app] in *.
    rewrite skip_blanks_ok by (done || (by left) || (rewrite !length_app; cbn [length]; lia)). bsimpl.
    rewrite (app_assoc pre), mget_app by done. bsimpl. exists []. by rewrite app_nil_r.
  - apply Forall_cons in Hb as [Ha Hb]. rewrite quoted_line_cons in *.
    set (tl := (match args with [] => [] | _ => 32 :: quoted_line args end) ++ 0 :: rest).
    assert ((repr a ++ (match args with [] => [] | _ => 32 :: quoted_line args end)) ++ 0 :: rest = repr a ++ tl) as Etl
      by (by rewrite <- app_assoc).
    rewrite Etl in *. clear Etl.
    assert (repr a ++ tl = 34 :: (quotes a ++ [34]) ++ tl) as Er by done.
    pose proof (skip_blanks_ok (length (pre ++ sp ++ repr a ++ tl)) pre sp 34 ((quotes a ++ [34]) ++ tl)) as Esk.
    rewrite <- Er in Esk. rewrite Esk by (done || (by right) || (rewrite Er, !length_app; cbn [length]; lia)). clear Esk.
    bsimpl. rewrite (app_assoc pre).
    assert (mget ((pre ++ sp) ++ repr a ++ tl) (len (pre ++ sp)) = Some 34) as -> by (rewrite Er; by apply mget_app).
    bsimpl.
    change (34 =? 0) with false. cbn iota. destruct (sdsempty_ok junk) as (s0 & -> & Hs0). bsimpl.
    pose proof (quotes_length a) as Hq.
    assert (S (length a) < length ((pre ++ sp) ++ repr a ++ tl))%nat as Hfu.
    { unfold repr. rewrite !length_app. cbn [length]. rewrite length_app. cbn [length]. lia. }
    destruct (token_loop_repr (pre ++ sp) tl a s0 (length ((pre ++ sp) ++ repr a ++ tl))) as (cur & -> & Hcur); [done|done| | |done|].
    { unfold fits in *. rewrite !length_app in *. lia. }
    { unfold tl. destruct args; [by exists 0, rest; split; [|left]|]. eexists 32, _. split; [done|by right]. }
    bsimpl. rewrite (app_assoc (pre ++ sp)). cbn [length] in Hf.
    destruct args as [|b args].
    + destruct (IH fuel ((pre ++ sp) ++ repr a) [] rest (vec ++ [cur])) as (toks & E & Ht);
        [by left|done|lia|cbn [quoted_line app]; unfold tl in Hfit; rewrite <- !app_assoc in *; done|].
      exists (cur :: toks). unfold tl. cbn [quoted_line app] in *. rewrite E, <- app_assoc. split; [done|by constructor].
    + destruct (IH fuel ((pre ++ sp) ++ repr a) [32] rest (vec ++ [cur])) as (toks & E & Ht);
        [by right|done|lia|unfold tl in Hfit; rewrite <- !app_assoc in *; done|].
      exists (cur :: toks). unfold tl. cbn [app] in *. rewrite E, <- app_assoc. split; [done|by constructor].
Qed.

Lemma quoted_line_length args : (length args ≤ length (quoted_line args))%nat.
Proof.
  induction args as [|a args IH]; [done|]. rewrite quoted_line_cons, length_app. unfold repr. cbn [length].
  rewrite length_app. destruct args; cbn [length] in *; lia.
Qed.

Lemma sdssplitargs_quoted_ok args rest :
  Forall (Forall byte) args → fits (len (quoted_line args ++ 0 :: rest)) →
  ∃ toks, sdssplitargs junk (quoted_line args ++ 0 :: rest) = Some (Some toks) ∧ Forall2 rep toks args.
Proof.
  intros Hb Hf. unfold sdssplitargs. pose proof (quoted_line_length args).
  destruct (args_loop_ok args (S (length (quoted_line args ++ 0 :: rest))) [] [] rest []) as (toks & E & Ht);
    [by left|done|rewrite length_app; lia|done|]. by exists toks.
Qed.
End sds_parse.

(** ** Parsing any line *)

Section sds_total.
Context (junk : nat → Z) (line : list Z).
Hypothesis line_end : mget line (len line - 1) = Some 0.
Hypothesis line_fits : fits (len line).
Implicit Types s cur : sdshdr.

(** A character that is not the terminator has a next one. *)
Lemma next_char p c : mget line p = Some c → c ≠ 0 → ∃ c', mget line (p + 1) = Some c' ∧ p + 1 < len line.
Proof using line_end.
  intros Hc H0. assert (0 ≤ p < len line) as Hp by (apply mget_is_Some; by exists c).
  destruct (decide (p = len line - 1)) as [-> |]; [congruence|].
  destruct (proj2 (mget_is_Some line (p + 1))) as [c' Hc']; [lia|]. exists c'. split; [done|lia].
Qed.

(** What a turn may decide at [p], with [n] bytes collected. *)
Definition action_ok (p n : Z) (a : action) : Prop :=
  match a with
  | Goto_err => True
  | Done p' => p' = p
  | Next _ p' cur' =>
      p ≤ p' ∧ (∃ y, mget line p' = Some y ∧ y ≠ 0) ∧ ∃ c', rep cur' c' ∧ len c' ≤ n + 1
  end.

Lemma append_total q p p' cur c x y :
  rep cur c → len c < len line → p ≤ p' → mget line p' = Some y → y ≠ 0 →
  ∃ a, append junk q p' cur x = Some a ∧ action_ok p (len c) a.
Proof using line_fits.
  intros Hs Hl Hp Hy H0. unfold fits in line_fits.
  destruct (append_ok junk q p' cur c x) as (cur' & -> & Hs'); [done|unfold fits; lia|].
  eexists. split; [done|]. split; [done|]. split; [by eauto|]. eexists. split; [done|].
  rewrite length_app. cbn [length]. lia.
Qed.

Lemma close_quote_total p c n : mget line p = Some c → c ≠ 0 → ∃ a, close_quote line p = Some a ∧ action_ok p n a.
Proof using line_end.
  intros Hc H0. destruct (next_char p c Hc H0) as (c1 & E & _). unfold close_quote. rewrite E.
  bsimpl. destruct (_ && _); by eexists.
Qed.

Lemma is_hex_nonzero c : is_hex_digit c = true → c ≠ 0.
Proof. intros H ->. done. Qed.

Lemma hex_escape_total p c :
  mget line p = Some c →
  ∃ b, hex_escape line p c = Some b ∧
    (b = true → ∃ c2 c3, mget line (p + 2) = Some c2 ∧ mget line (p + 3) = Some c3 ∧ c3 ≠ 0).
Proof using line_end.
  intros Hc. unfold hex_escape. destruct (Z.eqb_spec c 92) as [-> |]; [|by exists false].
  destruct (next_char p 92 Hc ltac:(done)) as (c1 & E1 & _). rewrite E1. bsimpl.
  destruct (Z.eqb_spec c1 120) as [-> |]; [|by exists false].
  destruct (next_char (p + 1) 120 E1 ltac:(done)) as (c2 & E2 & _). replace (p + 1 + 1) with (p + 2) in E2 by lia.
  rewrite E2. bsimpl. destruct (is_hex_digit c2) eqn:H2; [|by exists false].
  destruct (next_char (p + 2) c2 E2 (is_hex_nonzero c2 H2)) as (c3 & E3 & _). replace (p + 2 + 1) with (p + 3) in E3 by lia.
  rewrite E3. bsimpl. eexists. split; [done|]. intros H3. exists c2, c3.
  split; [done|]. split; [done|]. by apply is_hex_nonzero.
Qed.

Lemma turn_total q p c cur cc :
  mget line p = Some c → rep cur cc → len cc < len line →
  ∃ a, match q with
       | InQ => in_quotes junk line p c cur
       | InSq => in_single_quotes junk line p c cur
       | Unquoted => unquoted junk line p c cur
       end = Some a ∧ action_ok p (len cc) a ∧
    (q = Unquoted → c ≠ 0 → isspace c = false → match a with Next _ _ _ => True | _ => False end).
Proof using line_end line_fits.
  intros Hc Hs Hl. destruct q.
  - unfold unquoted. destruct ((c =? 32) || (c =? 10) || (c =? 13) || (c =? 9) || (c =? 0)) eqn:Eb.
    { eexists. split; [done|]. split; [done|]. intros _ H0 Hsp. exfalso. unfold isspace in Hsp.
      repeat (apply orb_true_iff in Eb as [Eb|Eb%Z.eqb_eq]); [apply Z.eqb_eq in Eb|..]; subst c; done. }
    assert (c ≠ 0) as H0 by (intros ->; by rewrite orb_true_r in Eb).
    destruct (c =? 34); [|destruct (c =? 39)].
    1,2: eexists; split; [done|]; split; [|done]; split; [done|]; split; [by eauto|]; exists cc; split; [done|lia].
    destruct (append_total Unquoted p p cur cc c c) as (a & E & Ha); [done..|]. exists a. split; [done|].
    split; [done|]. intros _ _ _. unfold append in E. by destruct (sdscatlen _ _ _ _); [injection E as <-|].
  - unfold in_quotes. destruct (hex_escape_total p c Hc) as (b & -> & Hb). bsimpl. destruct b.
    { destruct (Hb eq_refl) as (c2 & c3 & -> & E3 & H3). rewrite E3. bsimpl.
      destruct (append_total InQ p (p + 3) cur cc (u8 (hex_digit_to_int c2 * 16 + hex_digit_to_int c3)) c3)
        as (a & -> & Ha); [done|done|lia|done|done|]. by exists a. }
    assert (∃ b, (if c =? 92 then c1 ← mget line (p + 1); Some (negb (c1 =? 0)) else Some false) = Some b ∧
      (b = true → ∃ c1, mget line (p + 1) = Some c1 ∧ c1 ≠ 0)) as (b & -> & Hb').
    { destruct (Z.eqb_spec c 92) as [-> |]; [|by exists false].
      destruct (next_char p 92 Hc ltac:(done)) as (c1 & -> & _). bsimpl. eexists. split; [done|].
      intros E%negb_true_iff%Z.eqb_neq. eauto. }
    bsimpl. destruct b.
    { destruct (Hb' eq_refl) as (c1 & E1 & H1). rewrite E1. bsimpl.
      destruct (append_total InQ p (p + 1) cur cc (unescape c1) c1) as (a & -> & Ha); [done|done|lia|done|done|]. by exists a. }
    destruct (Z.eqb_spec c 34) as [-> |].
    { destruct (close_quote_total p 34 (len cc) Hc) as (a & -> & Ha); [done|]. by exists a. }
    destruct (Z.eqb_spec c 0) as [-> |]; [by exists Goto_err|].
    destruct (append_total InQ p p cur cc c c) as (a & -> & Ha); [done..|]. by exists a.
  - unfold in_single_quotes.
    assert (∃ b, (if c =? 92 then c1 ← mget line (p + 1); Some (c1 =? 39) else Some false) = Some b ∧
      (b = true → mget line (p + 1) = Some 39)) as (b & -> & Hb').
    { destruct (Z.eqb_spec c 92) as [-> |]; [|by exists false].
      destruct (next_char p 92 Hc ltac:(done)) as (c1 & -> & _). bsimpl. eexists. split; [done|].
      by intros ->%Z.eqb_eq. }
    bsimpl. destruct b.
    { destruct (append_total InSq p (p + 1) cur cc 39 39) as (a & -> & Ha); [done|done|lia|by apply Hb'|done|]. by exists a. }
    destruct (Z.eqb_spec c 39) as [-> |].
    { destruct (close_quote_total p 39 (len cc) Hc) as (a & -> & Ha); [done|]. by exists a. }
    destruct (Z.eqb_spec c 0) as [-> |]; [by exists Goto_err|].
    destruct (append_total InSq p p cur cc c c) as (a & -> & Ha); [done..|]. by exists a.
Qed.

Lemma advance_total p c : mget line p = Some c → ∃ p', advance line p = Some p' ∧ p ≤ p' < len line ∧ (c ≠ 0 → p' = p + 1).
Proof using line_end.
  intros Hc. assert (0 ≤ p < len line) as Hp by (apply mget_is_Some; by exists c). unfold advance. rewrite Hc.
  bsimpl. destruct (Z.eqb_spec c 0); [exists p; split; [done|split; [lia|done]]|].
  destruct (next_char p c Hc ltac:(done)) as (_ & _ & ?). exists (p + 1). split; [done|]. split; [lia|done].
Qed.

Lemma token_loop_total fuel : ∀ q p cur cc c,
  mget line p = Some c → rep cur cc → len cc ≤ p → len line - p ≤ Z.of_nat fuel →
  ∃ r, token_loop junk fuel line q p cur = Some r ∧
    match r with
    | None => True
    | Some (p', cur') =>
        p ≤ p' < len line ∧ (q = Unquoted → c ≠ 0 → isspace c = false → p < p')
    end.
Proof using line_end line_fits.
  induction fuel as [|fuel IH]; intros q p cur cc c Hc Hs Hl Hf;
    (assert (0 ≤ p < len line) as Hp by (apply mget_is_Some; by exists c)); [lia|].
  cbn [token_loop]. rewrite Hc. bsimpl.
  destruct (turn_total q p c cur cc Hc Hs) as (a & -> & Ha & Hfirst); [lia|]. bsimpl.
  destruct a as [|p'|q' p' cur']; cbn [action_ok] in Ha; [by exists None|subst p'|].
  - destruct (advance_total p c Hc) as (p' & -> & Hp' & _). bsimpl.
    eexists. split; [done|]. cbn iota. split; [lia|]. intros -> H0 Hsp. by destruct (Hfirst eq_refl H0 Hsp).
  - destruct Ha as (Hpp & (y & Hy & H0) & cc' & Hs' & Hl'). destruct (advance_total p' y Hy) as (p2 & -> & Hp2 & Hp2').
    bsimpl. specialize (Hp2' H0). subst p2.
    destruct (proj2 (mget_is_Some line (p' + 1))) as [c2 Hc2]; [lia|].
    destruct (IH q' (p' + 1) cur' cc' c2 Hc2 Hs') as (r & -> & Hr); [lia|lia|]. exists r. split; [done|].
    destruct r as [[p3 cur3]|]; [|done]. split; [lia|]. intros. lia.
Qed.

Lemma skip_blanks_total fuel : ∀ p c,
  mget line p = Some c → len line - p ≤ Z.of_nat fuel →
  ∃ p' c', skip_blanks fuel line p = Some p' ∧ p ≤ p' ∧ mget line p' = Some c' ∧ (c' = 0 ∨ isspace c' = false).
Proof using line_end.
  induction fuel as [|fuel IH]; intros p c Hc Hf;
    (assert (0 ≤ p < len line) as Hp by (apply mget_is_Some; by exists c)); [lia|].
  cbn [skip_blanks]. rewrite Hc. bsimpl. destruct (Z.eqb_spec c 0) as [-> |H0]; cbn [negb andb].
  { exists p, 0. split; [done|]. split; [lia|]. split; [done|by left]. }
  destruct (isspace c) eqn:Hsp.
  - destruct (next_char p c Hc H0) as (c' & Hc' & ?). destruct (IH (p + 1) c' Hc') as (p2 & c2 & -> & ? & ? & ?); [lia|].
    exists p2, c2. split; [done|]. split; [lia|done].
  - exists p, c. split; [done|]. split; [lia|]. split; [done|by right].
Qed.

Lemma args_loop_total fuel : ∀ p c vec,
  mget line p = Some c → len line - p < Z.of_nat fuel → ∃ r, args_loop junk fuel line p vec = Some r.
Proof using line_end line_fits.
  induction fuel as [|fuel IH]; intros p c vec Hc Hf;
    (assert (0 ≤ p < len line) as Hp by (apply mget_is_Some; by exists c)); [lia|].
  cbn [args_loop]. destruct (skip_blanks_total (length line) p c Hc) as (p1 & c1 & -> & Hp1 & Hc1 & Hb); [lia|].
  bsimpl. rewrite Hc1. bsimpl. destruct (Z.eqb_spec c1 0) as [|H0]; [by eexists|].
  destruct Hb as [|Hb]; [done|]. destruct (sdsempty_ok junk) as (s0 & -> & Hs0). bsimpl.
  destruct (token_loop_total (length line) Unquoted p1 s0 [] c1) as (r & -> & Hr); [done|done|cbn; lia|lia|].
  bsimpl. destruct r as [[p2 cur]|]; [|by eexists]. destruct Hr as [Hp2 Hlt].
  specialize (Hlt eq_refl H0 Hb). destruct (proj2 (mget_is_Some line p2)) as [c2 Hc2]; [lia|].
  apply (IH p2 c2); [done|lia].
Qed.
End sds_total.

(** ** Splitting and joining *)

Section sds_split.
Context (junk : nat → Z).
Implicit Types s : sdshdr.

(** The pieces with the separator between them. *)
Fixpoint intercalate (sep : list Z) (ps : list (list Z)) : list Z :=
  match ps with
  | [] => []
  | [p] => p
  | p :: ps => p ++ sep ++ intercalate sep ps
  end.

(** The pieces, each with the separator after it. *)
Fixpoint terminated (sep : list Z) (ps : list (list Z)) : list Z :=
  match ps with [] => [] | p :: ps => p ++ sep ++ terminated sep ps end.

Lemma intercalate_snoc sep ps p : intercalate sep (ps ++ [p]) = terminated sep ps ++ p.
Proof.
  induction ps as [|q ps IH]; [done|]. cbn [app terminated]. rewrite <- !app_assoc, <- IH.
  cbn [intercalate]. by destruct ps.
Qed.

Lemma terminated_snoc sep ps p : terminated sep (ps ++ [p]) = terminated sep ps ++ p ++ sep.
Proof.
  induction ps as [|q ps IH]; cbn [app terminated]; [by rewrite app_nil_r|]. by rewrite IH, <- !app_assoc.
Qed.

(** [sep] occurs in [l] at [i]. *)
Definition occurs (l sep : list Z) (i : Z) : Prop := 0 ≤ i ∧ mread l i (len sep) = Some sep.
Definition free_of (sep p : list Z) : Prop := ∀ i, ¬ occurs p sep i.

Lemma memcmp_zero (w sep : list Z) :
  length w = length sep → ∃ r, memcmp w sep (length sep) = Some r ∧ (r = 0 ↔ w = sep).
Proof.
  revert sep. induction w as [|x w IH]; intros [|y sep] Hl; try done; [by exists 0|].
  cbn [length memcmp] in *. destruct (Z.eqb_spec x y) as [-> |].
  - destruct (IH sep ltac:(lia)) as (r & -> & Hr). exists r. split; [done|]. rewrite Hr. naive_solver.
  - exists (x - y). split; [done|]. split; [lia|congruence].
Qed.

Lemma mread_sub (m p : list Z) start n i k w :
  mread m start n = Some p → mread p i k = Some w → mread m (start + i) k = Some w.
Proof.
  intros (m1 & m3 & -> & <- & _)%mread_split (p1 & p3 & -> & <- & <-)%mread_split.
  rewrite <- !app_assoc, (app_assoc m1). apply mread_app; [rewrite length_app; lia|done].
Qed.

Lemma hit_ok m sep j c c0 :
  0 < len sep → 0 ≤ j → j + len sep ≤ len m → mget m j = Some c → mget sep 0 = Some c0 →
  ∃ b, (if (len sep =? 1) && (c =? c0) then Some true
        else w ← mread m j (len sep); r ← memcmp w sep (Z.to_nat (len sep)); Some (r =? 0)) = Some b ∧
    (b = true ↔ occurs m sep j).
Proof.
  intros Hs Hj Hl Hc Hc0.
  destruct (mread m j (len sep)) as [w|] eqn:Ew.
  2: { unfold mread in Ew. by rewrite bool_decide_eq_true_2 in Ew by lia. }
  pose proof (mread_length _ _ _ _ Ew) as Hw. bsimpl. rewrite Nat2Z.id.
  destruct (memcmp_zero w sep ltac:(lia)) as (r & -> & Hr). bsimpl.
  assert (occurs m sep j ↔ w = sep) as Hocc by (unfold occurs; rewrite Ew; naive_solver).
  destruct (Z.eqb_spec (len sep) 1) as [H1|]; cbn [andb].
  - destruct (Z.eqb_spec c c0) as [-> |].
    + exists true. split; [done|]. rewrite Hocc. split; [intros _|done].
      destruct sep as [|y [|]]; cbn [length] in H1; try lia. destruct w as [|x [|]]; cbn [length] in Hw; try lia.
      apply mget_Some in Hc0 as [_ Hc0], Hc as [_ Hc]. apply mread_Some in Ew as (_ & _ & _ & Ew).
      cbn in Hc0. injection Hc0 as ->. f_equal.
      pose proof (f_equal (λ l, l !! 0%nat) Ew) as E0. cbn beta in E0.
      rewrite lookup_take_lt, lookup_drop, Nat.add_0_r, Hc in E0 by (cbn; lia). by injection E0 as ->.
    + eexists. split; [done|]. by rewrite Z.eqb_eq, Hr, Hocc.
  - eexists. split; [done|]. by rewrite Z.eqb_eq, Hr, Hocc.
Qed.

Lemma split_loop_ok m sep fuel : ∀ tokens ps slots start j,
  0 < len sep → fits (len m) → Forall2 rep tokens ps → Forall (free_of sep) ps →
  0 ≤ start ≤ j → j ≤ len m → terminated sep ps = take (Z.to_nat start) m →
  (∀ i, start ≤ i < j → ¬ occurs m sep i) → len tokens + 1 ≤ slots → len m - j ≤ Z.of_nat fuel →
  ∃ tokens' ps' slots' start',
    split_loop junk fuel m (len m) sep (len sep) tokens slots start j = Some (tokens', slots', start') ∧
    Forall2 rep tokens' ps' ∧ Forall (free_of sep) ps' ∧ 0 ≤ start' ≤ len m ∧
    terminated sep ps' = take (Z.to_nat start') m ∧ (∀ i, start' ≤ i → ¬ occurs m sep i) ∧
    len tokens' + 1 ≤ slots'.
Proof.
  induction fuel as [|fuel IH]; intros tokens ps slots start j Hs Hfit Hrep Hfree Hst Hj Hpre Hno Hsl Hf;
    cbn [split_loop]; destruct (Z.ltb_spec j (len m - (len sep - 1))) as [Hlt|Hge]; try lia.
  1,3: exists tokens, ps, slots, start; split; [done|]; split; [done|]; split; [done|]; split; [lia|];
    split; [done|]; split; [|done]; intros i Hi Hocc; destruct (decide (i < j)); [by apply (Hno i)|];
    destruct Hocc as [_ (_ & _ & ? & _)%mread_Some]; lia.
  destruct (proj2 (mget_is_Some m j)) as [c Hc]; [lia|]. destruct (proj2 (mget_is_Some sep 0)) as [c0 Hc0]; [lia|].
  rewrite Hc, Hc0. bsimpl.
  destruct (hit_ok m sep j c c0) as (b & -> & Hb); [done|lia|lia|done|done|]. bsimpl.
  set (slots1 := if slots <? len tokens + 2 then slots * 2 else slots).
  assert (len tokens + 2 ≤ slots1) as Hsl1 by (unfold slots1; destruct (Z.ltb_spec slots (len tokens + 2)); lia).
  destruct b.
  - destruct (mread m start (j - start)) as [piece|] eqn:Ep.
    2: { unfold mread in Ep. by rewrite bool_decide_eq_true_2 in Ep by lia. }
    pose proof (mread_length _ _ _ _ Ep) as Hlp. bsimpl.
    destruct (sdsnewlen_ok junk piece [] (j - start)) as (x & E & Hx); [done|unfold fits in *; lia|].
    rewrite app_nil_r in E. rewrite E. bsimpl. unfold push_token.
    rewrite (proj2 (Z.ltb_lt _ _)) by lia. bsimpl.
    replace (j + len sep - 1 + 1) with (j + len sep) by lia.
    destruct (proj1 Hb eq_refl) as [_ Hocc].
    apply (IH _ (ps ++ [piece])); try done.
    + apply Forall2_app; [done|by constructor].
    + apply Forall_app. split; [done|]. apply Forall_singleton. intros i [Hi Hoc].
      pose proof (mread_sub _ _ _ _ _ _ _ Ep Hoc) as Hm. apply mread_Some in Hoc as (_ & _ & ? & _).
      apply (Hno (start + i)); [lia|]. split; [lia|done].
    + lia.
    + lia.
    + rewrite terminated_snoc, Hpre. apply mread_split in Ep as (m1 & m3 & Em & Hm1 & _).
      apply mread_split in Hocc as (n1 & n3 & En & Hn1 & _).
      assert (n1 = m1 ++ piece) as ->.
      { transitivity (take (length n1) m); [by rewrite En, take_app_length|].
        rewrite Em, (app_assoc m1), take_app_le, take_ge; rewrite ?length_app; lia || done. }
      rewrite En. replace (Z.to_nat (j + len sep)) with (length ((m1 ++ piece) ++ sep)) by (rewrite length_app; lia).
      rewrite (app_assoc _ sep), take_app_length, <- !app_assoc. f_equal.
      rewrite <- app_assoc in En. rewrite <- Hm1, Nat2Z.id. by rewrite take_app_length.
    + intros i Hi. lia.
    + rewrite length_app. cbn [length]. lia.
    + lia.
  - apply (IH tokens ps); try done; try lia. intros i Hi. destruct (decide (i = j)) as [-> |]; [|apply Hno; lia].
    intros Hocc. by apply Hb in Hocc.
Qed.

Lemma sdssplitlen_ok m sep :
  0 < len sep → 0 < len m → fits (len m) →
  ∃ tokens ps, sdssplitlen junk m (len m) sep (len sep) = Some (Some tokens) ∧
    Forall2 rep tokens ps ∧ intercalate sep ps = m ∧ Forall (free_of sep) ps.
Proof.
  intros Hs Hm Hfit. unfold sdssplitlen. rewrite (proj2 (Z.ltb_ge _ 1)), (proj2 (Z.ltb_ge _ 0)) by lia.
  cbn [orb]. rewrite (proj2 (Z.eqb_neq _ 0)) by lia.
  destruct (split_loop_ok m sep (length m) [] [] 5 0 0) as (tokens & ps & slots & start & -> & Hrep & Hfree & Hst & Hpre & Hno & Hsl);
    [done|done|constructor|constructor|lia|lia|done|lia|cbn; lia|lia|].
  bsimpl. destruct (mread m start (len m - start)) as [piece|] eqn:Ep.
  2: { unfold mread in Ep. by rewrite bool_decide_eq_true_2 in Ep by lia. }
  pose proof (mread_length _ _ _ _ Ep) as Hlp. bsimpl.
  destruct (sdsnewlen_ok junk piece [] (len m - start)) as (x & E & Hx); [done|unfold fits in *; lia|].
  rewrite app_nil_r in E. rewrite E. bsimpl. unfold push_token.
  rewrite (proj2 (Z.ltb_lt _ _)) by lia. bsimpl.
  exists (tokens ++ [x]), (ps ++ [piece]). split; [done|]. split; [by apply Forall2_app; [|constructor]|]. split.
  - rewrite intercalate_snoc, Hpre. apply mread_Some in Ep as (_ & _ & _ & ->).
    rewrite (take_ge (drop _ _)) by (rewrite length_drop; lia). apply take_drop.
  - apply Forall_app. split; [done|]. apply Forall_singleton. intros i [Hi Hoc].
    apply (Hno (start + i)); [lia|]. split; [lia|]. by eapply mread_sub.
Qed.

(** C strings: bytes that are not NUL, then one. *)
Definition c_string (m l : list Z) : Prop := Forall (λ x, x ≠ 0) l ∧ ∃ rest, m = l ++ 0 :: rest.

Lemma join_loop_ok sepm sep argv ls : ∀ s c,
  c_string sepm sep → Forall2 c_string argv ls → rep s c → fits (len c + len (intercalate sep ls)) →
  ∃ s', join_loop junk s argv sepm = Some s' ∧ rep s' (c ++ intercalate sep ls).
Proof.
  intros s c [Hsep [rs ->]] Hargv. revert s c.
  induction Hargv as [|m l argv ls [Hl [rm ->]] Hargv IH]; intros s c Hs Hf; cbn [join_loop].
  { exists s. split; [done|]. cbn. by rewrite app_nil_r. }
  assert (len (intercalate sep (l :: ls)) =
    len l + (match ls with [] => 0 | _ => len sep + len (intercalate sep ls) end)) as El.
  { cbn [intercalate]. destruct ls; [lia|]. rewrite !length_app. lia. }
  unfold fits in Hf. rewrite El in Hf.
  destruct (sdscat_ok junk s c l rm) as (s1 & -> & Hs1); [done|done|unfold fits; destruct ls; lia|].
  bsimpl. destruct Hargv as [|m2 l2 argv ls Hm2 Hargv].
  - cbn [mbind option_bind join_loop]. by exists s1.
  - destruct (sdscat_ok junk s1 (c ++ l) sep rs) as (s2 & -> & Hs2); [done|done| |].
    { unfold fits. rewrite length_app. lia. }
    bsimpl. destruct (IH s2 ((c ++ l) ++ sep)) as (s3 & -> & Hs3); [done| |].
    { unfold fits. rewrite !length_app. lia. }
    exists s3. split; [done|]. rewrite <- !app_assoc in Hs3. done.
Qed.
End sds_split.

(** ** The fast formatter *)

(** What a format prints, by its conversions. *)
Inductive formats : list Z → list fmtarg → list Z → Prop :=
  | formats_nil args : formats [] args []
  | formats_char c f args o : c ≠ 0 → c ≠ 37 → formats f args o → formats (c :: f) args (c :: o)
  | formats_s m l f args o : c_string m l → formats f args o → formats (37 :: 115 :: f) (ArgStr m :: args) (l ++ o)
  | formats_S t l f args o : rep t l → formats f args o → formats (37 :: 83 :: f) (ArgSds t :: args) (l ++ o)
  | formats_i z l f args o :
      - 2 ^ 31 ≤ z < 2 ^ 31 → decimal_repr z l → formats f args o →
      formats (37 :: 105 :: f) (ArgInt z :: args) (l ++ o)
  | formats_I z l f args o :
      LLONG_MIN ≤ z ≤ LLONG_MAX → decimal_repr z l → formats f args o →
      formats (37 :: 73 :: f) (ArgLL z :: args) (l ++ o)
  | formats_u z l f args o :
      0 ≤ z < 2 ^ 32 → decimal_repr z l → formats f args o →
      formats (37 :: 117 :: f) (ArgUInt z :: args) (l ++ o)
  | formats_U z l f args o :
      0 ≤ z < 2 ^ 64 → decimal_repr z l → formats f args o →
      formats (37 :: 85 :: f) (ArgULL z :: args) (l ++ o)
  | formats_other next f args o :
      next ≠ 0 → next ∉ [115; 83; 105; 73; 117; 85] → formats f args o →
      formats (37 :: next :: f) args (next :: o).

(** Comparisons of literal characters. *)
Ltac eqb_consts := cbv beta iota delta [Z.eqb Pos.eqb orb].

Section sds_fmt.
Context (junk : nat → Z).
Implicit Types s : sdshdr.

(** The contents while the terminator is not yet in place. *)
Definition raw s (c : list Z) : Prop :=
  ∃ x r, s = mkSds (len c) (len r) (c ++ x :: r) ∧ len c + len r < 2 ^ 31.

Lemma fmt_bytes_ok s (c l rest : list Z) n :
  raw s c → n = len l → fits (len c + n) →
  ∃ s', fmt_bytes junk s (len c) (l ++ rest) n = Some (s', len (c ++ l)) ∧ raw s' (c ++ l).
Proof.
  intros (x & r & -> & Hr) -> Hf. unfold fmt_bytes. cbn [sfree].
  assert (∃ r', (if len r <? len l then sdsMakeRoomFor junk (mkSds (len c) (len r) (c ++ x :: r)) (len l)
      else mkSds (len c) (len r) (c ++ x :: r)) = mkSds (len c) (len r') (c ++ x :: r') ∧
      len l ≤ len r' ∧ len c + len r' < 2 ^ 31) as (r' & -> & Hr' & Hb).
  { destruct (Z.ltb_spec (len r) (len l)); [apply sdsMakeRoomFor_raw; lia || done|]. exists r. split; [done|lia]. }
  cbn [buf slen sfree]. destruct (store_nul c (x :: r') l rest (len l)) as (r2 & E & Hr2);
    [done|cbn [length]; lia|]. cbn [length] in Hr2.
  unfold fits in Hf. rewrite <- (take_drop (length l) (x :: r')).
  rewrite memcpy_app by (rewrite ?length_take; cbn [length]; lia || done). bsimpl.
  destruct (drop (length l) (x :: r')) as [|y r3] eqn:Ed.
  { apply (f_equal length) in Ed. rewrite length_drop in Ed. cbn [length] in Ed. lia. }
  apply (f_equal length) in Ed. rewrite length_drop in Ed. cbn [length] in Ed.
  eexists. split; [rewrite length_app; do 2 f_equal; lia|]. exists y, r3. rewrite !uwrap_small by lia.
  rewrite length_app, <- app_assoc. split; [f_equal; lia|lia].
Qed.

Lemma fmt_char_ok s (c : list Z) x : raw s c → 0 < sfree s → ∃ s', fmt_char s (len c) x = Some (s', len (c ++ [x])) ∧ raw s' (c ++ [x]).
Proof.
  intros (y & r & -> & Hr) Hf. cbn [sfree] in Hf. unfold fmt_char. cbn [buf slen sfree]. rewrite mset_app by done.
  bsimpl. destruct r as [|z r]; [cbn in Hf; lia|]. cbn [length] in *.
  eexists. split; [rewrite length_app; cbn [length]; do 2 f_equal; lia|]. exists z, r. rewrite !uwrap_small by lia.
  rewrite length_app, <- app_assoc. cbn [length app]. split; [f_equal; lia|lia].
Qed.

(** At least one byte of room. *)
Lemma room_for_one s c :
  raw s c → fits (len c + 1) →
  let s1 := if sfree s =? 0 then sdsMakeRoomFor junk s 1 else s in raw s1 c ∧ 0 < sfree s1.
Proof.
  intros (x & r & -> & Hr) Hf. cbn [sfree]. destruct (Z.eqb_spec (len r) 0).
  - destruct (sdsMakeRoomFor_raw junk c x r 1) as (r' & -> & Hr' & Hb); [done|lia|done|].
    split; [by exists x, r'|cbn [sfree]; lia].
  - split; [by exists x, r|cbn [sfree]; lia].
Qed.

Definition conversion_ok s (c : list Z) (next : Z) (args args' : list fmtarg) (l : list Z) : Prop :=
  ∃ s', fmt_conversion junk s (len c) next args = Some (s', len (c ++ l), args') ∧ raw s' (c ++ l).

Lemma conversion_signed s c z l args (next : Z) :
  raw s c → LLONG_MIN ≤ z ≤ LLONG_MAX → decimal_repr z l → fits (len c + len l) →
  next = 105 ∨ next = 73 → conversion_ok s c next ((if next =? 105 then ArgInt z else ArgLL z) :: args) args l.
Proof.
  intros Hs Hz Hl Hf Hn.
  destruct (sdsll2str_ok (zmalloc junk SDS_LLSTR_SIZE) z) as (l' & r & E & Hl' & Hlen); [by apply zmalloc_length|done|].
  rewrite (decimal_repr_unique z l' l Hl' Hl) in *.
  destruct (fmt_bytes_ok s c l (0 :: r) (len l)) as (s' & Es & Hs'); [done..|].
  exists s'. split; [|done]. unfold fmt_conversion.
  destruct Hn as [-> | ->]; eqb_consts; bsimpl; rewrite E; bsimpl; by rewrite Es.
Qed.

Lemma conversion_unsigned s c z l args (next : Z) :
  raw s c → 0 ≤ z < 2 ^ 64 → decimal_repr z l → fits (len c + len l) →
  next = 117 ∨ next = 85 → conversion_ok s c next ((if next =? 117 then ArgUInt z else ArgULL z) :: args) args l.
Proof.
  intros Hs Hz Hl Hf Hn.
  destruct (sdsull2str_ok (zmalloc junk SDS_LLSTR_SIZE) z) as (l' & r & E & Hl' & Hlen); [by apply zmalloc_length|done|].
  rewrite (decimal_repr_unique z l' l Hl' Hl) in *.
  destruct (fmt_bytes_ok s c l (0 :: r) (len l)) as (s' & Es & Hs'); [done..|].
  exists s'. split; [|done]. unfold fmt_conversion.
  destruct Hn as [-> | ->]; eqb_consts; bsimpl; rewrite E; bsimpl; by rewrite Es.
Qed.

Lemma conversion_str s c m l args :
  raw s c → c_string m l → fits (len c + len l) → conversion_ok s c 115 (ArgStr m :: args) args l.
Proof.
  intros Hs [Hl [rest ->]] Hf. destruct (fmt_bytes_ok s c l (0 :: rest) (len l)) as (s' & E & Hs'); [done..|].
  exists s'. split; [|done]. unfold fmt_conversion. eqb_consts. rewrite strlen_ok by done. bsimpl.
  unfold fits in Hf. rewrite u32_len by lia. by rewrite E.
Qed.

Lemma conversion_sds s c t l args :
  raw s c → rep t l → fits (len c + len l) → conversion_ok s c 83 (ArgSds t :: args) args l.
Proof.
  intros Hs (r & -> & Hr) Hf. destruct (fmt_bytes_ok s c l (0 :: r) (len l)) as (s' & E & Hs'); [done..|].
  exists s'. split; [|done]. unfold fmt_conversion, sdslen. eqb_consts. cbn [slen buf]. unfold fits in Hf. rewrite u32_len by lia. by rewrite E.
Qed.

Lemma conversion_other s c next args :
  raw s c → 0 < sfree s → next ∉ [115; 83; 105; 73; 117; 85] → conversion_ok s c next args args [next].
Proof.
  intros Hs Hf Hn. destruct (fmt_char_ok s c next Hs Hf) as (s' & E & Hs'). exists s'. split; [|done].
  unfold fmt_conversion. rewrite !not_elem_of_cons in Hn. destruct Hn as (? & ? & ? & ? & ? & ? & _).
  rewrite (proj2 (Z.eqb_neq next 115)), (proj2 (Z.eqb_neq next 83)), (proj2 (Z.eqb_neq next 105)),
    (proj2 (Z.eqb_neq next 73)), (proj2 (Z.eqb_neq next 117)), (proj2 (Z.eqb_neq next 85)) by done.
  cbn [orb]. by rewrite E.
Qed.

(** The rest of the format, after a conversion. *)
Lemma fmt_loop_conversion fuel pre next f rest s c args args' l o :
  raw s c → fits (len c + 1) →
  (∀ s1, raw s1 c → 0 < sfree s1 → conversion_ok s1 c next args args' l) →
  (∀ s1 pre, raw s1 (c ++ l) →
    ∃ s' i, fmt_loop junk fuel s1 (pre ++ f ++ 0 :: rest) (len pre) (len (c ++ l)) args' = Some (s', i) ∧
      raw s' ((c ++ l) ++ o) ∧ i = len ((c ++ l) ++ o)) →
  ∃ s' i, fmt_loop junk (S fuel) s (pre ++ (37 :: next :: f) ++ 0 :: rest) (len pre) (len c) args = Some (s', i) ∧
    raw s' (c ++ l ++ o) ∧ i = len (c ++ l ++ o).
Proof.
  intros Hs Hf Hconv Hrest. cbn [fmt_loop app]. rewrite (mget_app pre _ _ (len pre)) by done. bsimpl.
  change (37 =? 0) with false. change (37 =? 37) with true. cbn iota. cbv zeta.
  assert (mget (pre ++ 37 :: next :: f ++ 0 :: rest) (len pre + 1) = Some next) as ->
    by (by apply (mget_at pre [37; next] (f ++ 0 :: rest) 1)).
  bsimpl. destruct (room_for_one s c Hs Hf) as [Hs1 Hf1].
  destruct (Hconv _ Hs1 Hf1) as (s2 & -> & Hs2). bsimpl.
  destruct (Hrest s2 (pre ++ [37; next]) Hs2) as (s' & i & E & Hs' & Hi).
  rewrite length_app, <- app_assoc in E. cbn [length app] in E.
  replace (len pre + 1 + 1) with (Z.of_nat (length pre + 2)) by lia. exists s', i. rewrite E.
  rewrite <- app_assoc in Hs', Hi. done.
Qed.

Lemma fmt_loop_ok f args o :
  formats f args o → ∀ fuel pre rest s c,
  (length f ≤ fuel)%nat → raw s c → fits (len c + len o + 1) →
  ∃ s' i, fmt_loop junk fuel s (pre ++ f ++ 0 :: rest) (len pre) (len c) args = Some (s', i) ∧
    raw s' (c ++ o) ∧ i = len (c ++ o).
Proof.
  induction 1 as [args|x f args o Hx0 Hx37 _ IH|m l f args o Hm _ IH|t l f args o Ht _ IH|z l f args o Hz Hl _ IH
    |z l f args o Hz Hl _ IH|z l f args o Hz Hl _ IH|z l f args o Hz Hl _ IH|next f args o Hn0 Hn _ IH];
    intros fuel pre rest s c Hfu Hs Hfit; unfold fits in Hfit; rewrite ?length_app in Hfit; cbn [length] in Hfu.
  1: { exists s, (len c). rewrite app_nil_r. split; [|done].
       destruct fuel; cbn [fmt_loop app]; rewrite (mget_app pre _ _ (len pre)) by done; done. }
  all: destruct fuel as [|fuel]; [lia|].
  1: { cbn [fmt_loop app]. rewrite (mget_app pre _ _ (len pre)) by done. cbn [mbind option_bind length] in *.
       rewrite (proj2 (Z.eqb_neq x 0)), (proj2 (Z.eqb_neq x 37)) by done. cbv zeta.
       destruct (room_for_one s c Hs) as [Hs1 Hf1]; [unfold fits; lia|].
       destruct (fmt_char_ok _ c x Hs1 Hf1) as (s2 & -> & Hs2). bsimpl.
       destruct (IH fuel (pre ++ [x]) rest s2 (c ++ [x])) as (s' & i & E & Hs' & Hi);
         [lia|done|unfold fits; rewrite length_app; cbn [length]; lia|].
       rewrite length_app, <- app_assoc in E. cbn [length app] in E.
       replace (len pre + 1) with (Z.of_nat (length pre + 1)) by lia. exists s', i. rewrite E.
       rewrite <- app_assoc in Hs', Hi. done. }
  7: { change (next :: o) with ([next] ++ o). cbn [length] in Hfit.
       apply (fmt_loop_conversion fuel pre next f rest s c args args [next] o); [done|unfold fits; lia| |].
       - intros. by apply conversion_other.
       - intros s1 pre' Hs1. apply IH; [lia|done|]. unfold fits. rewrite length_app. cbn [length]. lia. }
  all: eapply fmt_loop_conversion; [done|unfold fits; lia| |intros s1 pre' Hs1; apply IH; [lia|done|];
    unfold fits; rewrite length_app; lia]; intros s1 Hs1 Hf1.
  - apply conversion_str; [done..|unfold fits; lia].
  - apply conversion_sds; [done..|unfold fits; lia].
  - apply (conversion_signed s1 c z l args 105); [done|unfold LLONG_MIN, LLONG_MAX; lia|done|unfold fits; lia|by left].
  - apply (conversion_signed s1 c z l args 73); [done..|unfold fits; lia|by right].
  - apply (conversion_unsigned s1 c z l args 117); [done|lia|done|unfold fits; lia|by left].
  - apply (conversion_unsigned s1 c z l args 85); [done..|unfold fits; lia|by right].
Qed.

Lemma sdscatfmt_ok s c fmt rest args o :
  rep s c → formats fmt args o → fits (len c + len o + 1) →
  ∃ s', sdscatfmt junk s (fmt ++ 0 :: rest) args = Some s' ∧ rep s' (c ++ o).
Proof.
  intros Hs Hfmt Hf. unfold sdscatfmt. replace (sdslen s) with (len c) by (by destruct Hs as (? & -> & _)).
  destruct (fmt_loop_ok fmt args o Hfmt (length (fmt ++ 0 :: rest)) [] rest s c) as (s' & i & E & (x & r & -> & Hr) & ->);
    [rewrite length_app; lia|by destruct Hs as (r & -> & Hr); exists 0, r|done|].
  cbn [app length] in E. change (Z.of_nat 0) with 0 in E. rewrite E. cbn [mbind option_bind buf slen sfree].
  rewrite mset_app by done. bsimpl. eexists. split; [done|]. by exists r.
Qed.
End sds_fmt.

(** ** Theorems *)

(** The edits a string can undergo, on the string and on its bytes. *)
Inductive edit :=
  | Cat (t : list Z)
  | Copy (t : list Z)
  | Clear
  | Grow (n : Z)
  | Range (start end_ : Z)
  | Trim (cset : list Z)
  | Lower
  | Upper
  | Map (pairs : list (Z * Z))
  | Compact
  | Dup.

Definition exec (junk : nat → Z) (s : sdshdr) (e : edit) : option sdshdr :=
  match e with
  | Cat t => sdscatlen junk s t (len t)
  | Copy t => sdscpylen junk s t (len t)
  | Clear => sdsclear s
  | Grow n => sdsgrowzero junk s n
  | Range start end_ => sdsrange s start end_
  | Trim cset => sdstrim s cset
  | Lower => sdstolower s
  | Upper => sdstoupper s
  | Map pairs => sdsmapchars s (pairs.*1) (pairs.*2) (length pairs)
  | Compact => Some (sdsRemoveFreeSpace junk s)
  | Dup => sdsdup junk s
  end.

Definition edited (c : list Z) (e : edit) : list Z :=
  match e with
  | Cat t => c ++ t
  | Copy t => t
  | Clear => []
  | Grow n => c ++ replicate (Z.to_nat (n - len c)) 0
  | Range start end_ => range c start end_
  | Trim cset => rstrip (strchr cset) (lstrip (strchr cset) c)
  | Lower => tolower <$> c
  | Upper => toupper <$> c
  | Map pairs => translate pairs <$> c
  | Compact | Dup => c
  end.

(** The sizes and positions involved are those of C [int]s. *)
Definition edit_ok (c : list Z) (e : edit) : Prop :=
  match e with
  | Cat t => fits (len c + len t)
  | Copy t => fits (len t)
  | Grow n => fits n
  | Range start end_ => - 2 ^ 31 ≤ start < 2 ^ 31 ∧ - 2 ^ 31 ≤ end_ < 2 ^ 31
  | Dup => fits (len c)
  | _ => True
  end.

Fixpoint edits_ok (c : list Z) (es : list edit) : Prop :=
  match es with [] => True | e :: es => edit_ok c e ∧ edits_ok (edited c e) es end.

Fixpoint exec_all (junk : nat → Z) (s : sdshdr) (es : list edit) : option sdshdr :=
  match es with [] => Some s | e :: es => s ← exec junk s e; exec_all junk s es end.

Lemma exec_ok junk s c e :
  rep s c → edit_ok c e → ∃ s', exec junk s e = Some s' ∧ rep s' (edited c e).
Proof.
  intros Hs He. destruct e; cbn [exec edited edit_ok] in *.
  - destruct (sdscatlen_ok junk s c t [] (len t)) as (s' & E & ?); [done..|]. rewrite app_nil_r in E. eauto.
  - destruct (sdscpylen_ok junk s c t [] (len t)) as (s' & E & ?); [done..|]. rewrite app_nil_r in E. eauto.
  - by eapply sdsclear_ok.
  - by apply sdsgrowzero_ok.
  - destruct He. by apply sdsrange_ok.
  - by apply sdstrim_ok.
  - by apply sdstolower_ok.
  - by apply sdstoupper_ok.
  - by apply sdsmapchars_ok.
  - eexists. split; [done|]. by apply sdsRemoveFreeSpace_ok.
  - by apply sdsdup_ok.
Qed.

(** Any sequence of edits of a string (append, copy, clear, grow, cut a
    range, trim, change case, map characters, drop the free space, duplicate)
    ends without an access outside of the buffers, and the string holds what
    the same edits make of the list of its bytes, NUL-terminated, with the
    header's length and free space exact.  The characters trimmed are those of
    the set and NUL, which [strchr] always finds: [sdstrim_strips_nul]. *)
Theorem sds_edits_refine junk s c es :
  rep s c → edits_ok c es → ∃ s', exec_all junk s es = Some s' ∧ rep s' (foldl edited c es).
Proof.
  revert s c. induction es as [|e es IH]; intros s c Hs Hok; cbn [exec_all foldl]; [by eauto|].
  destruct Hok as [He Hok]. destruct (exec_ok junk s c e Hs He) as (s1 & -> & Hs1). bsimpl.
  by apply IH.
Qed.

Lemma sds_edits_refine_witness :
  ∃ s', exec_all (λ _, 170) (mkSds 0 0 [0]) [Cat (str "xxHello Worldxx"); Trim (str "x"); Lower; Range 1 (-2)] = Some s' ∧
    rep s' (str "ello worl").
Proof.
  apply (sds_edits_refine (λ _, 170) (mkSds 0 0 [0]) []
    [Cat (str "xxHello Worldxx"); Trim (str "x"); Lower; Range 1 (-2)]).
  - exists []. split; [done|cbn; lia].
  - cbn [edits_ok edit_ok]. unfold fits. cbn [length app]. split_and!; done || (cbn; lia).
Defined.

(** Arguments quoted with [sdscatrepr], with spaces between them. *)
Fixpoint quote_args (junk : nat → Z) (s : sdshdr) (args : list (list Z)) : option sdshdr :=
  match args with
  | [] => Some s
  | a :: rest =>
      s ← sdscatrepr junk s a;
      match rest with
      | [] => Some s
      | _ => s ← sdscatlen junk s [32] 1; quote_args junk s rest
      end
  end.

Lemma quote_args_ok junk args : ∀ s c,
  rep s c → Forall (Forall byte) args → fits (len c + len (quoted_line args)) →
  ∃ s', quote_args junk s args = Some s' ∧ rep s' (c ++ quoted_line args).
Proof.
  induction args as [|a args IH]; intros s c Hs Hb Hf; cbn [quote_args].
  { exists s. by rewrite app_nil_r. }
  apply Forall_cons in Hb as [Ha Hb]. rewrite quoted_line_cons in *. unfold fits in Hf. rewrite length_app in Hf.
  destruct (sdscatrepr_ok junk s c a) as (s1 & -> & Hs1); [done|done|unfold fits; lia|]. bsimpl.
  destruct args as [|b args]; [exists s1; by rewrite app_nil_r|]. cbn [length] in Hf.
  destruct (sdscatlen_ok junk s1 (c ++ repr a) [32] [] 1) as (s2 & E2 & Hs2); [done|done| |].
  { unfold fits. rewrite length_app. lia. }
  cbn [app] in E2. rewrite E2. bsimpl.
  destruct (IH s2 ((c ++ repr a) ++ [32])) as (s3 & -> & Hs3); [done|done| |].
  { unfold fits. rewrite !length_app. cbn [length]. lia. }
  exists s3. split; [done|]. rewrite <- !app_assoc in Hs3. done.
Qed.

(** C25. What [sdscatrepr] quotes, [sdssplitargs] parses back: a line of
    quoted arguments, whatever bytes they hold, is split into exactly those
    arguments. *)
Theorem sdssplitargs_roundtrip junk args :
  Forall (Forall byte) args → len (quoted_line args) < 2 ^ 28 →
  ∃ s0 s toks, sdsempty junk = Some s0 ∧ quote_args junk s0 args = Some s ∧
    sdssplitargs junk (buf (sdsRemoveFreeSpace junk s)) = Some (Some toks) ∧ Forall2 rep toks args.
Proof.
  intros Hb Hl. destruct (sdsempty_ok junk) as (s0 & -> & Hs0).
  destruct (quote_args_ok junk args s0 [] Hs0 Hb) as (s & E & Hs); [unfold fits; cbn; lia|].
  destruct (sdsRemoveFreeSpace_ok junk s _ Hs) as [(r & E2 & Hr) H0]. cbn [app] in E2.
  rewrite E2 in H0. cbn [sfree] in H0. destruct r; [|cbn in H0; lia].
  destruct (sdssplitargs_quoted_ok junk args [] Hb) as (toks & Et & Ht).
  { unfold fits. rewrite length_app. cbn [length]. lia. }
  exists s0, s, toks. split; [done|]. split; [done|]. by rewrite E2.
Qed.

Lemma sdssplitargs_roundtrip_witness :
  ∃ s0 s toks, sdsempty (λ _, 1) = Some s0 ∧ quote_args (λ _, 1) s0 [[0; 34; 65; 255]; []; str "a b"] = Some s ∧
    sdssplitargs (λ _, 1) (buf (sdsRemoveFreeSpace (λ _, 1) s)) = Some (Some toks) ∧
    Forall2 rep toks [[0; 34; 65; 255]; []; str "a b"].
Proof.
  apply sdssplitargs_roundtrip; [|vm_compute; reflexivity].
  repeat constructor; unfold byte; lia.
Defined.

(** Parsing any NUL-terminated line ends, with the arguments or the
    error, and never reads past the terminator. *)
Theorem sdssplitargs_total junk l :
  fits (len l + 1) → ∃ r, sdssplitargs junk (l ++ [0]) = Some r.
Proof.
  intros Hl. unfold sdssplitargs, fits in *.
  assert (len (l ++ [0]) = len l + 1) as El by (rewrite length_app; cbn [length]; lia).
  destruct (proj2 (mget_is_Some (l ++ [0]) 0)) as [c Hc]; [lia|].
  apply (args_loop_total junk (l ++ [0]) ltac:(apply mget_app; lia) ltac:(unfold fits; lia) _ 0 c []); [done|lia].
Qed.

Lemma sdssplitargs_total_witness : ∃ r, sdssplitargs (λ _, 1) ([34; 92; 120; 52] ++ [0]) = Some r.
Proof. by apply sdssplitargs_total. Defined.

(** Splitting is the inverse of joining: the pieces joined with the
    separator are the string, and no piece contains the separator. *)
Theorem sdssplitlen_spec junk m sep :
  0 < len sep → 0 < len m → fits (len m) →
  ∃ tokens ps, sdssplitlen junk m (len m) sep (len sep) = Some (Some tokens) ∧
    Forall2 rep tokens ps ∧ intercalate sep ps = m ∧ Forall (free_of sep) ps.
Proof. apply sdssplitlen_ok. Qed.

Lemma sdssplitlen_spec_witness :
  ∃ tokens ps, sdssplitlen (λ _, 1) (str "a--b---c") 8 (str "--") 2 = Some (Some tokens) ∧
    Forall2 rep tokens ps ∧ intercalate (str "--") ps = str "a--b---c" ∧ Forall (free_of (str "--")) ps.
Proof. apply (sdssplitlen_spec (λ _, 1) (str "a--b---c") (str "--")); unfold fits; cbn; lia. Defined.

(** [sdscatfmt] appends exactly what the format and its arguments
    denote: literal characters, C strings, dynamic strings and the decimal
    representations of integers. *)
Theorem sdscatfmt_spec junk s c fmt rest args o :
  rep s c → formats fmt args o → fits (len c + len o + 1) →
  ∃ s', sdscatfmt junk s (fmt ++ 0 :: rest) args = Some s' ∧ rep s' (c ++ o).
Proof. apply sdscatfmt_ok. Qed.

Lemma sdscatfmt_spec_witness :
  ∃ s', sdscatfmt (λ _, 1) (mkSds 0 0 [0]) (str "k=%s%%" ++ [0]) [ArgStr (str "v" ++ [0])] = Some s' ∧
    rep s' (str "k=v%").
Proof.
  apply (sdscatfmt_spec (λ _, 1) (mkSds 0 0 [0]) [] (str "k=%s%%") [] [ArgStr (str "v" ++ [0])] (str "k=v%")).
  - exists []. split; [done|cbn; lia].
  - apply formats_char; [done|done|]. apply formats_char; [done|done|].
    apply (formats_s (str "v" ++ [0]) (str "v") (str "%%") [] (str "%")).
    + split; [apply Forall_singleton; done|by exists []].
    + apply (formats_other 37 []); [done|by apply (bool_decide_unpack _)|apply formats_nil].
  - unfold fits. cbn. lia.
Defined.

(** [sdscmp] is the lexicographic order on bytes. *)
Theorem sdscmp_order s1 s2 c1 c2 :
  rep s1 c1 → rep s2 c2 →
  ∃ r, sdscmp s1 s2 = Some r ∧ (r = 0 ↔ c1 = c2) ∧ (r < 0 ↔ lex_lt c1 c2).
Proof. apply sdscmp_ok. Qed.

Lemma sdscmp_order_witness :
  ∃ r, sdscmp (mkSds 2 0 [97; 98; 0]) (mkSds 1 1 [97; 0; 7]) = Some r ∧ (r = 0 ↔ [97; 98] = [97]) ∧
    (r < 0 ↔ lex_lt [97; 98] [97]).
Proof.
  apply sdscmp_order; [exists []|exists [7]]; (split; [done|cbn; lia]).
Defined.

(** A NUL byte is trimmed whatever the set: [strchr] finds the terminator. *)
Theorem sdstrim_strips_nul :
  sdstrim (mkSds 3 0 [0; 97; 98; 0]) (str "x") = Some (mkSds 2 1 [97; 98; 0; 0]).
Proof. vm_compute. reflexivity. Qed.
