(* ===== verification/Object.v ===== *)
(** * String objects: [object.c]

    Values are reference-counted objects in a heap, found by their address.
    A string object holds a dynamic string, or an integer in the place of the
    pointer.  What an object says, its text, is what the commands see: the
    encodings and the sharing of objects do not change it.

    The clock field [lru] is not modelled.  Objects of the other types hold
    [PtrOther]: their contents belong to other parts of the server, and
    releasing them is the removal of the object from the heap. *)

From S2P Require Import Prelude Util Sds.
From stdpp Require Import gmap sets.
Local Open Scope Z_scope.

Definition REDIS_STRING : Z := 0.
Definition REDIS_ENCODING_RAW : Z := 0.
Definition REDIS_ENCODING_INT : Z := 1.
Definition REDIS_SHARED_INTEGERS : Z := 10000.
Definition REDIS_MAXMEMORY_VOLATILE_LRU : Z := 0.
Definition REDIS_MAXMEMORY_ALLKEYS_LRU : Z := 3.

Inductive optr := PtrSds (s : sdshdr) | PtrLong (v : Z) | PtrNull | PtrOther.

Record robj := mkObj { otype : Z; oencoding : Z; refcount : Z; ptr : optr }.

(** Addresses are positive numbers. *)
Abbreviation addr := positive.
Abbreviation oheap := (gmap addr robj).

(** [o->ptr] used as a dynamic string. *)
Definition osds (o : robj) : option sdshdr := match ptr o with PtrSds s => Some s | _ => None end.
Definition olong (o : robj) : option Z := match ptr o with PtrLong v => Some v | _ => None end.

Definition set_ptr (o : robj) (p : optr) : robj := mkObj (otype o) (oencoding o) (refcount o) p.
Definition set_refcount (o : robj) (n : Z) : robj := mkObj (otype o) (oencoding o) n (ptr o).

Section object_ops.
Context (junk : nat → Z) (shared_integers : Z → addr).
(** [server.maxmemory] and [server.maxmemory_policy] *)
Context (maxmemory maxmemory_policy : Z).
Implicit Types (h : oheap) (o : addr).

(** ** Creation and reference counts *)

Definition createObject h (type : Z) (p : optr) : oheap * addr :=
  let o := fresh (dom h) in (<[o := mkObj type REDIS_ENCODING_RAW 1 p]> h, o).

Definition createStringObject h (m : list Z) (len : Z) : option (oheap * addr) :=
  s ← sdsnewlen junk (Some m) len; Some (createObject h REDIS_STRING (PtrSds s)).

Definition incrRefCount h o : option oheap :=
  ob ← h !! o; Some (<[o := set_refcount ob (s32 (refcount ob + 1))]> h).

(** [None] is [redisPanic]. *)
Definition decrRefCount h o : option oheap :=
  ob ← h !! o;
  if refcount ob <=? 0 then None
  else if refcount ob =? 1 then
    if (0 <=? otype ob) && (otype ob <=? 4) then Some (delete o h) else None
  else Some (<[o := set_refcount ob (refcount ob - 1)]> h).

Definition resetRefCount h o : option oheap := ob ← h !! o; Some (<[o := set_refcount ob 0]> h).

Definition createStringObjectFromLongLong h (value : Z) : option (oheap * addr) :=
  if (value >=? 0) && (value <? REDIS_SHARED_INTEGERS) then
    h ← incrRefCount h (shared_integers value); Some (h, shared_integers value)
  else if (value >=? LONG_MIN) && (value <=? LONG_MAX) then
    let '(h, o) := createObject h REDIS_STRING PtrNull in
    Some (<[o := mkObj REDIS_STRING REDIS_ENCODING_INT 1 (PtrLong value)]> h, o)
  else
    s ← sdsfromlonglong junk value; Some (createObject h REDIS_STRING (PtrSds s)).

Definition dupStringObject h o : option (oheap * addr) :=
  ob ← h !! o;
  if oencoding ob =? REDIS_ENCODING_RAW then s ← osds ob; createStringObject h (buf s) (sdslen s) else None.

(** ** Encodings *)

Definition isObjectRepresentableAsLongLong h o : option (option Z) :=
  ob ← h !! o;
  if negb (otype ob =? REDIS_STRING) then None
  else if oencoding ob =? REDIS_ENCODING_INT then v ← olong ob; Some (Some v)
  else s ← osds ob; m ← mread (buf s) 0 (sdslen s); Some (string2ll m).

Definition tryObjectEncoding h o : option (oheap * addr) :=
  ob ← h !! o;
  if negb (oencoding ob =? REDIS_ENCODING_RAW) then Some (h, o)
  else if refcount ob >? 1 then Some (h, o)
  else if negb (otype ob =? REDIS_STRING) then None
  else
    s ← osds ob;
    let len := sdslen s in
    value ← (if len >? 21 then Some None else m ← mread (buf s) 0 len; Some (string2l m));
    match value with
    | None =>
        if (len >? 32) && (oencoding ob =? REDIS_ENCODING_RAW) && (sdsavail s >? len / 10)
        then Some (<[o := set_ptr ob (PtrSds (sdsRemoveFreeSpace junk s))]> h, o)
        else Some (h, o)
    | Some value =>
        if ((maxmemory =? 0) ||
            (negb (maxmemory_policy =? REDIS_MAXMEMORY_VOLATILE_LRU) &&
             negb (maxmemory_policy =? REDIS_MAXMEMORY_ALLKEYS_LRU))) &&
           (value >=? 0) && (value <? REDIS_SHARED_INTEGERS)
        then
          h ← decrRefCount h o;
          h ← incrRefCount h (shared_integers value);
          Some (h, shared_integers value)
        else Some (<[o := mkObj (otype ob) REDIS_ENCODING_INT (refcount ob) (PtrLong value)]> h, o)
    end.

(** A number printed into a local buffer of [n] bytes. *)
Definition print_long (n v : Z) : option (list Z * Z) := ll2string (zmalloc junk n) n v.

Definition getDecodedObject h o : option (oheap * addr) :=
  ob ← h !! o;
  if oencoding ob =? REDIS_ENCODING_RAW then h ← incrRefCount h o; Some (h, o)
  else if (otype ob =? REDIS_STRING) && (oencoding ob =? REDIS_ENCODING_INT) then
    v ← olong ob;
    '(b, _) ← print_long 32 v;
    n ← strlen b;
    createStringObject h b n
  else None.

(** ** Comparison *)

(** The characters compared and their number. *)
Definition compared (ob : robj) : option (list Z * Z) :=
  if negb (oencoding ob =? REDIS_ENCODING_RAW) then v ← olong ob; print_long 128 v
  else s ← osds ob; Some (buf s, sdslen s).

(** With [REDIS_COMPARE_BINARY]; the collating comparison is the locale's. *)
Definition compareStringObjects h (a b : addr) : option Z :=
  oa ← h !! a; ob ← h !! b;
  if negb ((otype oa =? REDIS_STRING) && (otype ob =? REDIS_STRING)) then None
  else if decide (a = b) then Some 0
  else
    '(astr, alen) ← compared oa;
    '(bstr, blen) ← compared ob;
    let minlen := if alen <? blen then alen else blen in
    cmp ← memcmp astr bstr (Z.to_nat minlen);
    Some (if cmp =? 0 then s32 (u64 (alen - blen)) else cmp).

Definition equalStringObjects h (a b : addr) : option bool :=
  oa ← h !! a; ob ← h !! b;
  if negb (oencoding oa =? REDIS_ENCODING_RAW) && negb (oencoding ob =? REDIS_ENCODING_RAW) then
    va ← olong oa; vb ← olong ob; Some (va =? vb)
  else r ← compareStringObjects h a b; Some (r =? 0).

Definition stringObjectLen h o : option Z :=
  ob ← h !! o;
  if negb (otype ob =? REDIS_STRING) then None
  else if oencoding ob =? REDIS_ENCODING_RAW then s ← osds ob; Some (sdslen s)
  else v ← olong ob; '(_, n) ← print_long 32 v; Some n.
End object_ops.

(** ** What an object says *)

(** A string object in one of its two encodings, saying [t]. *)
Definition obj_says (ob : robj) (t : list Z) : Prop :=
  otype ob = REDIS_STRING ∧ 1 ≤ refcount ob ∧
  match ptr ob with
  | PtrSds s => oencoding ob = REDIS_ENCODING_RAW ∧ rep s t
  | PtrLong v => oencoding ob = REDIS_ENCODING_INT ∧ LONG_MIN ≤ v ≤ LONG_MAX ∧ decimal_repr v t
  | _ => False
  end.

Definition says (h : oheap) (o : addr) (t : list Z) : Prop := ∃ ob, h !! o = Some ob ∧ obj_says ob t.

(** [createSharedObjects] made one object for each small number. *)
Definition shared_ok (shared_integers : Z → addr) (h : oheap) : Prop :=
  ∀ v, 0 ≤ v < REDIS_SHARED_INTEGERS →
    ∃ ob, h !! shared_integers v = Some ob ∧ otype ob = REDIS_STRING ∧ oencoding ob = REDIS_ENCODING_INT ∧
      1 ≤ refcount ob < 2 ^ 31 - 1 ∧ ptr ob = PtrLong v.

Lemma long_ll v : LONG_MIN ≤ v ≤ LONG_MAX ↔ LLONG_MIN ≤ v ≤ LLONG_MAX.
Proof. done. Qed.

Lemma rep_unique s t1 t2 : rep s t1 → rep s t2 → t1 = t2.
Proof.
  intros (r1 & -> & Hb) (r2 & E & _). injection E as El _ Ec. apply Nat2Z.inj in El.
  by apply app_inj_1 in Ec as [-> _].
Qed.

Lemma obj_says_unique ob t1 t2 : obj_says ob t1 → obj_says ob t2 → t1 = t2.
Proof.
  unfold obj_says. intros (_ & _ & H1) (_ & _ & H2). destruct (ptr ob); try done.
  - destruct H1 as [_ H1], H2 as [_ H2]. by eapply rep_unique.
  - destruct H1 as (_ & _ & H1), H2 as (_ & _ & H2). by eapply decimal_repr_unique.
Qed.

Lemma decimal_repr_inj v1 v2 s :
  decimal_repr v1 s → decimal_repr v2 s → LLONG_MIN ≤ v1 ≤ LLONG_MAX → LLONG_MIN ≤ v2 ≤ LLONG_MAX → v1 = v2.
Proof.
  intros H1 H2 Hv1 Hv2. assert (Some v1 = Some v2) as E by (rewrite <- (proj2 (string2ll_repr s v1)) by done; by apply string2ll_repr).
  by injection E.
Qed.

Lemma rep_read s t : rep s t → mread (buf s) 0 (sdslen s) = Some t ∧ sdslen s = len t.
Proof. intros (r & -> & _). split; [|done]. cbn [buf sdslen slen]. by apply (mread_app [] t (0 :: r)). Qed.

Lemma string2l_repr s v : string2l s = Some v ↔ decimal_repr v s ∧ LONG_MIN ≤ v ≤ LONG_MAX.
Proof.
  unfold string2l. rewrite <- string2ll_repr. destruct (string2ll s) as [w|] eqn:E; bsimpl; [|naive_solver].
  pose proof (proj1 (string2ll_repr s w) E) as [_ Hw]. apply (proj2 (long_ll w)) in Hw.
  by rewrite (proj2 (Z.ltb_ge _ _)), Z.gtb_ltb, (proj2 (Z.ltb_ge _ _)) by lia.
Qed.

Section object_lemmas.
Context (junk : nat → Z) (shared_integers : Z → addr) (maxmemory maxmemory_policy : Z).
Implicit Types (h : oheap) (o : addr).

(** A new object, at an address that was free. *)
Lemma createStringObject_ok h m rest n :
  n = len m → fits n →
  ∃ o s, createStringObject junk h (m ++ rest) n = Some (<[o := mkObj REDIS_STRING REDIS_ENCODING_RAW 1 (PtrSds s)]> h, o) ∧
    h !! o = None ∧ rep s m.
Proof.
  intros Hn Hf. unfold createStringObject. destruct (sdsnewlen_ok junk m rest n Hn Hf) as (s & -> & Hs). bsimpl.
  exists (fresh (dom h)), s. split; [done|]. split; [|done]. apply not_elem_of_dom, is_fresh.
Qed.

Lemma raw_says s t : rep s t → obj_says (mkObj REDIS_STRING REDIS_ENCODING_RAW 1 (PtrSds s)) t.
Proof. by split. Qed.

Lemma says_insert h o ob t : obj_says ob t → says (<[o := ob]> h) o t.
Proof. exists ob. by rewrite lookup_insert_eq. Qed.

Lemma says_other h o o' ob t : o ≠ o' → says h o' t → says (<[o := ob]> h) o' t.
Proof. intros Hne (ob' & Ho & Hs). exists ob'. by rewrite lookup_insert_ne. Qed.

Lemma says_fresh h o o' ob t : h !! o = None → says h o' t → says (<[o := ob]> h) o' t.
Proof. intros Hn Hs. apply says_other; [|done]. destruct Hs as (ob' & Ho & _). congruence. Qed.

Lemma dupStringObject_ok h o t :
  says h o t → fits (len t) → (∃ s ob, h !! o = Some ob ∧ ptr ob = PtrSds s) →
  ∃ o' s, dupStringObject junk h o = Some (<[o' := mkObj REDIS_STRING REDIS_ENCODING_RAW 1 (PtrSds s)]> h, o') ∧
    h !! o' = None ∧ rep s t.
Proof.
  intros (ob & Ho & Ht & _ & Hp) Hf (s & ob' & Ho' & Hs). rewrite Ho in Ho'. injection Ho' as <-. rewrite Hs in Hp. destruct Hp as [He Hr].
  unfold dupStringObject, osds. rewrite Ho. bsimpl. rewrite He, Hs. change (REDIS_ENCODING_RAW =? REDIS_ENCODING_RAW) with true. cbv iota. bsimpl.
  destruct Hr as (r & -> & _). by apply createStringObject_ok.
Qed.

Lemma decimal_repr_nonzero v s : decimal_repr v s → Forall (λ c, c ≠ 0) s.
Proof.
  intros (ds & Hd & _ & _ & _ & ->). apply Forall_app. split; [destruct (v <? 0); [by constructor|constructor]|].
  eapply Forall_impl; [exact Hd|]. unfold digit. intros. lia.
Qed.

(** Printing an integer with room to spare. *)
Lemma print_long_ok n v :
  21 ≤ n → LONG_MIN ≤ v ≤ LONG_MAX → ∃ t r, print_long junk n v = Some (t ++ 0 :: r, len t) ∧ decimal_repr v t ∧ 1 ≤ len t ≤ 20.
Proof.
  intros Hn Hv%long_ll. unfold print_long. destruct (ll2string_repr (zmalloc junk n) n v Hv) as (t & Ht & ->);
    [rewrite zmalloc_length; lia|]. pose proof (decimal_repr_len v t Ht Hv). rewrite Z.geb_leb, (proj2 (Z.leb_gt _ _)) by lia. by eauto.
Qed.

Lemma says_long ob v t : obj_says ob t → ptr ob = PtrLong v → LONG_MIN ≤ v ≤ LONG_MAX ∧ decimal_repr v t ∧ oencoding ob = REDIS_ENCODING_INT.
Proof. intros (_ & _ & H) Hp. rewrite Hp in H. tauto. Qed.

Lemma getDecodedObject_ok h o t ob :
  h !! o = Some ob → obj_says ob t → refcount ob < 2 ^ 31 - 1 →
  ∃ h' o' s n, getDecodedObject junk h o = Some (h', o') ∧ rep s t ∧
    h' = <[o' := mkObj REDIS_STRING REDIS_ENCODING_RAW n (PtrSds s)]> h ∧
    ((o' = o ∧ n = refcount ob + 1 ∧ ptr ob = PtrSds s) ∨ (h !! o' = None ∧ n = 1)).
Proof.
  intros Ho Hs Hb. pose proof Hs as (Ht & Hr & Hp). unfold getDecodedObject. rewrite Ho. bsimpl. destruct (ptr ob) as [s|v| |] eqn:Ep; [| |done..].
  - destruct Hp as [He Hrep]. rewrite He. change (REDIS_ENCODING_RAW =? REDIS_ENCODING_RAW) with true. cbv iota. unfold incrRefCount. rewrite Ho. bsimpl.
    eexists _, o, s, _. split; [done|]. split; [done|]. unfold set_refcount. rewrite Ht, He, Ep, swrap_small by lia. split; [done|]. by left.
  - destruct Hp as (He & Hv & Hd). rewrite He, Ht. change (REDIS_ENCODING_INT =? REDIS_ENCODING_RAW) with false. cbv iota.
    change ((REDIS_STRING =? REDIS_STRING) && (REDIS_ENCODING_INT =? REDIS_ENCODING_INT)) with true. cbv iota. unfold olong. rewrite Ep. bsimpl.
    destruct (print_long_ok 32 v ltac:(lia) Hv) as (t' & r & -> & Hd' & Hl). bsimpl.
    rewrite (decimal_repr_unique v t' t) by done. rewrite strlen_ok by (by eapply decimal_repr_nonzero). bsimpl.
    rewrite (decimal_repr_unique v t' t) in Hl by done.
    destruct (createStringObject_ok h t (0 :: r) (len t)) as (o' & s & -> & Hn & Hrep); [done|unfold fits; lia|].
    eexists _, o', s, 1. split; [done|]. split; [done|]. split; [done|]. by right.
Qed.

(** ** Comparing *)

Lemma compared_ok ob t :
  obj_says ob t → ∃ r, compared junk ob = Some (t ++ r, len t) ∧ len t < 2 ^ 31.
Proof.
  intros (Ht & _ & Hp). unfold compared, osds, olong. destruct (ptr ob) as [s|v| |]; [| |done..].
  - destruct Hp as [-> Hr]. change (negb (REDIS_ENCODING_RAW =? REDIS_ENCODING_RAW)) with false. cbv iota. bsimpl.
    destruct Hr as (r & -> & Hb). exists (0 :: r). split; [done|lia].
  - destruct Hp as (-> & Hv & Hd). change (negb (REDIS_ENCODING_INT =? REDIS_ENCODING_RAW)) with true. cbv iota. bsimpl.
    destruct (print_long_ok 128 v ltac:(lia) Hv) as (t' & r & -> & Hd' & Hl). exists (0 :: r).
    rewrite (decimal_repr_unique v t' t) in * by done. split; [done|lia].
Qed.

Lemma compareStringObjects_ok h a b ta tb :
  says h a ta → says h b tb →
  ∃ r, compareStringObjects junk h a b = Some r ∧ (r = 0 ↔ ta = tb) ∧ (r < 0 ↔ lex_lt ta tb).
Proof.
  intros (oa & Ha & Hsa) (ob & Hb & Hsb). unfold compareStringObjects. rewrite Ha, Hb. bsimpl.
  rewrite (proj1 Hsa), (proj1 Hsb). change (negb _) with false. cbv iota. case_decide as Heq.
  - subst b. rewrite Ha in Hb. injection Hb as <-. rewrite (obj_says_unique _ _ _ Hsa Hsb). exists 0.
    split; [done|]. split; [done|]. split; [done|]. intros Hlt. by apply lex_lt_irrefl in Hlt.
  - destruct (compared_ok oa ta Hsa) as (ra & -> & Hla), (compared_ok ob tb Hsb) as (rb & -> & Hlb). bsimpl.
    replace (Z.to_nat (if len ta <? len tb then len ta else len tb)) with (min (length ta) (length tb))
      by (destruct (Z.ltb_spec (len ta) (len tb)); lia).
    destruct (memcmp_ok ta tb ra rb) as (r & -> & Hr). bsimpl. destruct (Z.eqb_spec r 0) as [-> |Hne].
    + eexists. split; [done|].
      assert (s32 (u64 (len ta - len tb)) = len ta - len tb) as ->.
      { rewrite swrap_uwrap_wide by lia. apply swrap_small; lia. }
      destruct Hr as [(_ & Hr)|[(? & _)|(? & _)]]; [|lia..]. destruct Hr as [[-> Hl]|[[Hlt Hl]|[Hlt Hl]]].
      * split; [split; [done|intros _; lia]|]. split; [lia|]. intros Hlt. by apply lex_lt_irrefl in Hlt.
      * split; [split; [lia|intros ->; lia]|]. split; [done|lia].
      * split; [split; [lia|intros ->; lia]|]. split; [lia|]. intros Hlt'. by apply lex_lt_asym in Hlt.
    + exists r. split; [done|]. destruct Hr as [(? & _)|[(Hr & Hlt & Hn)|(Hr & Hlt & Hn)]]; [done| |].
      * split; [split; [lia|done]|]. split; [done|lia].
      * split; [split; [lia|done]|]. split; [lia|]. intros Hlt'. by apply lex_lt_asym in Hlt.
Qed.

Lemma int_enc_ne_raw : REDIS_ENCODING_INT ≠ REDIS_ENCODING_RAW.
Proof. done. Qed.

(** Comparing the encodings, or their integers, is comparing the texts. *)
Lemma equalStringObjects_ok h a b ta tb :
  says h a ta → says h b tb → equalStringObjects junk h a b = Some (bool_decide (ta = tb)).
Proof using Type.
  intros Ha Hb. destruct (compareStringObjects_ok _ _ _ _ _ Ha Hb) as (r & Hc & He & _).
  unfold equalStringObjects. rewrite Hc. destruct Ha as (oa & Ha & Hsa), Hb as (ob & Hb & Hsb). rewrite Ha, Hb. bsimpl.
  destruct (_ && _) eqn:E.
  - rewrite andb_true_iff, !negb_true_iff, !Z.eqb_neq in E. destruct E as [Ea Eb].
    destruct Hsa as (_ & _ & Hpa), Hsb as (_ & _ & Hpb). unfold olong.
    destruct (ptr oa) as [?|va| |], (ptr ob) as [?|vb| |]; try done; try (by destruct Hpa); try (by destruct Hpb). bsimpl.
    destruct Hpa as (_ & Hva & Hda), Hpb as (_ & Hvb & Hdb). f_equal. apply eq_bool_prop_intro. rewrite Is_true_true, Z.eqb_eq, bool_decide_spec. split.
    + intros ->. by eapply decimal_repr_unique.
    + intros ->. by eapply decimal_repr_inj.
  - f_equal. apply eq_bool_prop_intro. by rewrite Is_true_true, Z.eqb_eq, bool_decide_spec.
Qed.

Lemma stringObjectLen_ok h o t : says h o t → stringObjectLen junk h o = Some (len t).
Proof.
  intros (ob & Ho & Ht & _ & Hp). unfold stringObjectLen, osds, olong. rewrite Ho. bsimpl. rewrite Ht. change (negb _) with false. cbv iota.
  destruct (ptr ob) as [s|v| |]; [| |done..].
  - destruct Hp as [-> Hr]. apply rep_read in Hr as [_ <-]. done.
  - destruct Hp as (-> & Hv & Hd). change (REDIS_ENCODING_INT =? REDIS_ENCODING_RAW) with false. cbv iota. bsimpl.
    destruct (print_long_ok 32 v ltac:(lia) Hv) as (t' & r & -> & Hd' & _). bsimpl. by rewrite (decimal_repr_unique v t' t).
Qed.

(** ** Encoding *)

#[local] Abbreviation encode := (tryObjectEncoding junk shared_integers maxmemory maxmemory_policy).

Lemma set_ptr_says ob s s' t : obj_says ob t → ptr ob = PtrSds s → rep s' t → obj_says (set_ptr ob (PtrSds s')) t.
Proof. intros (Ht & Hr & Hp) Es Hs'. rewrite Es in Hp. destruct Hp as [He _]. done. Qed.

(** What the attempt to parse the text finds. *)
Lemma parse_ok s t :
  rep s t →
  (if sdslen s >? 21 then Some None else m ← mread (buf s) 0 (sdslen s); Some (string2l m)) = Some (string2l t).
Proof.
  intros Hr. apply rep_read in Hr as [Hm Hl]. rewrite Hm, Hl. bsimpl. destruct (Z.gtb_spec (len t) 21) as [Hg|]; [|done].
  destruct (string2l t) as [v|] eqn:E; [|done]. apply string2l_repr in E as [Hd Hv]. pose proof (decimal_repr_len v t Hd Hv). lia.
Qed.

(** The heap after an object was replaced by a shared one. *)
Lemma share_ok h o ob v ob2 :
  h !! o = Some ob → refcount ob = 1 → otype ob = REDIS_STRING → o ≠ shared_integers v →
  h !! shared_integers v = Some ob2 → refcount ob2 < 2 ^ 31 - 1 → 1 ≤ refcount ob2 →
  (h ← decrRefCount h o; h ← incrRefCount h (shared_integers v); Some (h, shared_integers v)) =
  Some (<[shared_integers v := set_refcount ob2 (refcount ob2 + 1)]> (delete o h), shared_integers v).
Proof.
  intros Ho Hr Ht Hne Ho2 Hr2 Hr2'. unfold decrRefCount. rewrite Ho. bsimpl. rewrite Hr, Ht. cbn. unfold incrRefCount.
  rewrite lookup_delete_ne by done. rewrite Ho2. bsimpl. by rewrite swrap_small by lia.
Qed.

Lemma set_refcount_says ob n t : obj_says ob t → 1 ≤ n → obj_says (set_refcount ob n) t.
Proof. by intros (Ht & Hr & Hp) Hn. Qed.

Lemma tryObjectEncoding_ok h o ob t :
  shared_ok shared_integers h → h !! o = Some ob → obj_says ob t →
  ∃ h' o' ob', encode h o = Some (h', o') ∧ h' !! o' = Some ob' ∧ obj_says ob' t ∧
    (refcount ob' ≤ refcount ob ∨ ∃ ob2, h !! o' = Some ob2 ∧ refcount ob' = refcount ob2 + 1) ∧
    (oencoding ob' = REDIS_ENCODING_INT ↔
       oencoding ob = REDIS_ENCODING_INT ∨ (refcount ob = 1 ∧ ∃ v, decimal_repr v t ∧ LONG_MIN ≤ v ≤ LONG_MAX)) ∧
    (∀ o2, o2 ≠ o → o2 ≠ o' → h' !! o2 = h !! o2) ∧
    (o' ≠ o → h' !! o = None ∧ oencoding ob = REDIS_ENCODING_RAW ∧ ∃ v ob2, 0 ≤ v < REDIS_SHARED_INTEGERS ∧ o' = shared_integers v ∧ h !! o' = Some ob2 ∧
       ob' = set_refcount ob2 (refcount ob2 + 1)).
Proof.
  intros Hsh Ho Hs. unfold tryObjectEncoding. rewrite Ho. bsimpl. pose proof Hs as (Ht & Hr & Hp).
  assert (∀ ob', oencoding ob' = REDIS_ENCODING_RAW → ¬ (oencoding ob = REDIS_ENCODING_INT ∨ (refcount ob = 1 ∧ ∃ v, decimal_repr v t ∧ LONG_MIN ≤ v ≤ LONG_MAX)) →
    (oencoding ob' = REDIS_ENCODING_INT ↔ oencoding ob = REDIS_ENCODING_INT ∨ (refcount ob = 1 ∧ ∃ v, decimal_repr v t ∧ LONG_MIN ≤ v ≤ LONG_MAX))) as Hiff.
  { intros ob' -> Hno. split; [done|tauto]. }
  destruct (ptr ob) as [s|v| |] eqn:Ep; [| |done..].
  2:{ destruct Hp as (He & _). rewrite He. change (negb (REDIS_ENCODING_INT =? REDIS_ENCODING_RAW)) with true. cbv iota. exists h, o, ob. split_and!; try done; [by left|naive_solver]. }
  destruct Hp as [He Hrep]. rewrite (proj2 (Z.eqb_eq _ _) He). cbn [negb].
  destruct (Z.gtb_spec (refcount ob) 1) as [Hr1|Hr1].
  { exists h, o, ob. split_and!; try done; [by left|]. apply Hiff; [done|]. intros [E|[? _]]; [by rewrite He in E|lia]. }
  rewrite Ht. change (negb (REDIS_STRING =? REDIS_STRING)) with false. cbv iota. unfold osds. rewrite Ep. bsimpl. cbv zeta. rewrite (parse_ok s t Hrep). bsimpl.
  destruct (string2l t) as [v|] eqn:Ev.
  - apply string2l_repr in Ev as [Hd Hv]. assert (refcount ob = 1) as Hr2 by lia.
    assert (oencoding ob = REDIS_ENCODING_INT ∨ refcount ob = 1 ∧ ∃ v, decimal_repr v t ∧ LONG_MIN ≤ v ≤ LONG_MAX) as Hyes by (right; eauto).
    destruct (_ && (v <? REDIS_SHARED_INTEGERS)) eqn:Ec.
    + rewrite !andb_true_iff, Z.geb_le, Z.ltb_lt in Ec. destruct Ec as [[_ Hv0] Hv1].
      destruct (Hsh v ltac:(lia)) as (ob2 & Ho2 & Ht2 & He2 & Hr3 & Hp2).
      assert (o ≠ shared_integers v) as Hne by (intros E; rewrite <- E, Ho in Ho2; injection Ho2 as ->; by rewrite He2 in He).
      rewrite (share_ok h o ob v ob2) by (done || lia). eexists _, _, _. split; [done|]. rewrite lookup_insert_eq. split; [done|].
      split; [by split_and!; [|cbn; lia|cbn; rewrite Hp2]|]. split; [right; by exists ob2|]. split; [by split|]. split.
      * intros o2 Hn1 Hn2. by rewrite lookup_insert_ne, lookup_delete_ne.
      * intros _. rewrite lookup_insert_ne by done. rewrite lookup_delete_eq. split; [done|]. split; [done|]. by exists v, ob2.
    + eexists _, o, _. split; [done|]. rewrite lookup_insert_eq. split; [done|]. split; [done|]. split; [left; cbn; lia|]. split; [by split|].
      split; [|done]. intros o2 Hn _. by rewrite lookup_insert_ne.
  - assert (¬ (oencoding ob = REDIS_ENCODING_INT ∨ refcount ob = 1 ∧ ∃ v, decimal_repr v t ∧ LONG_MIN ≤ v ≤ LONG_MAX)) as Hno.
    { intros [E|(_ & v & Hd & Hv)]; [by rewrite He in E|]. by rewrite (proj2 (string2l_repr t v)) in Ev. }
    destruct (_ && _).
    + eexists _, o, _. split; [done|]. rewrite lookup_insert_eq. split; [done|].
      split; [eapply set_ptr_says; [done|done|by apply sdsRemoveFreeSpace_ok]|]. split; [left; cbn; lia|]. split; [by apply Hiff|].
      split; [|done]. intros o2 Hn _. by rewrite lookup_insert_ne.
    + exists h, o, ob. split_and!; try done; [by left|]. by apply Hiff.
Qed.
End object_lemmas.

(** ** The objects stay well typed *)

Section object_types.
Context (junk : nat → Z) (shared_integers : Z → addr) (maxmemory maxmemory_policy : Z).
Implicit Types (h : oheap) (o : addr).

(** Every object is a string object that says something, with at most [n]
    references. *)
Definition typed (n : Z) (h : oheap) : Prop :=
  ∀ o ob, h !! o = Some ob → refcount ob ≤ n ∧ ∃ t, obj_says ob t ∧ fits (len t).

Definition shared_objs (h : oheap) : Prop :=
  ∀ v, 0 ≤ v < REDIS_SHARED_INTEGERS →
    ∃ ob, h !! shared_integers v = Some ob ∧ oencoding ob = REDIS_ENCODING_INT ∧ ptr ob = PtrLong v.

Inductive obj_op :=
  | OCreate (m : list Z)
  | OFromLL (v : Z)
  | ODup (o : addr)
  | OIncr (o : addr)
  | ODecr (o : addr)
  | OEncode (o : addr)
  | ODecode (o : addr).

Definition run_op h (op : obj_op) : option oheap :=
  match op with
  | OCreate m => '(h, _) ← createStringObject junk h m (len m); Some h
  | OFromLL v => '(h, _) ← createStringObjectFromLongLong junk shared_integers h v; Some h
  | ODup o => '(h, _) ← dupStringObject junk h o; Some h
  | OIncr o => incrRefCount h o
  | ODecr o => decrRefCount h o
  | OEncode o => '(h, _) ← tryObjectEncoding junk shared_integers maxmemory maxmemory_policy h o; Some h
  | ODecode o => '(h, _) ← getDecodedObject junk h o; Some h
  end.

(** What the callers owe: live objects, a raw one to duplicate, and never the
    last reference to a shared integer. *)
Definition op_ok h (op : obj_op) : Prop :=
  match op with
  | OCreate m => fits (len m)
  | OFromLL v => LONG_MIN ≤ v ≤ LONG_MAX
  | ODup o => ∃ ob, h !! o = Some ob ∧ oencoding ob = REDIS_ENCODING_RAW
  | OIncr o | OEncode o | ODecode o => is_Some (h !! o)
  | ODecr o => ∃ ob, h !! o = Some ob ∧ (refcount ob = 1 → ∀ v, 0 ≤ v < REDIS_SHARED_INTEGERS → o ≠ shared_integers v)
  end.

(** The object an operation may release. *)
Definition may_release (op : obj_op) (o : addr) : Prop := op = ODecr o ∨ op = OEncode o.

Lemma typed_insert n h o ob t :
  typed n h → obj_says ob t → fits (len t) → refcount ob ≤ n + 1 → typed (n + 1) (<[o := ob]> h).
Proof.
  intros Hty Hs Hf Hr o' ob' [[<- <-]|[Hne Ho']]%lookup_insert_Some; [by eauto|].
  destruct (Hty _ _ Ho') as (Hr' & Ht'). split; [lia|done].
Qed.

Lemma typed_weaken n h : typed n h → typed (n + 1) h.
Proof. intros Hty o ob Ho. destruct (Hty _ _ Ho) as (Hr & Ht). split; [lia|done]. Qed.

Lemma typed_delete n h o : typed n h → typed n (delete o h).
Proof. intros Hty o' ob' [Hne Ho']%lookup_delete_Some. by eapply Hty. Qed.

Lemma shared_insert h o ob :
  shared_objs h → (∀ ob', h !! o = Some ob' → oencoding ob' = REDIS_ENCODING_INT → oencoding ob = REDIS_ENCODING_INT ∧ ptr ob = ptr ob') →
  shared_objs (<[o := ob]> h).
Proof.
  intros Hsh Hob v Hv. destruct (Hsh v Hv) as (ob' & Ho & He & Hp). destruct (decide (o = shared_integers v)) as [-> |Hne].
  - exists ob. rewrite lookup_insert_eq. destruct (Hob ob' Ho He) as [He' Hp']. split_and!; [done..|congruence].
  - exists ob'. by rewrite lookup_insert_ne.
Qed.

Lemma shared_fresh h o ob : shared_objs h → h !! o = None → shared_objs (<[o := ob]> h).
Proof. intros Hsh Hn. apply shared_insert; [done|]. by rewrite Hn. Qed.

(** A new object leaves the others as they are. *)
Lemma new_typed n h o ob t :
  typed n h → shared_objs h → h !! o = None → obj_says ob t → fits (len t) → refcount ob ≤ n + 1 →
  typed (n + 1) (<[o := ob]> h) ∧ shared_objs (<[o := ob]> h) ∧ ∀ o' t', says h o' t' → says (<[o := ob]> h) o' t'.
Proof.
  intros Hty Hsh Hn Hs Hf Hr. split; [by eapply typed_insert|]. split; [by apply shared_fresh|]. intros o' t'. by apply says_fresh.
Qed.

(** One more reference leaves what the objects say. *)
Lemma incr_typed n h o ob :
  typed n h → shared_objs h → h !! o = Some ob → n < 2 ^ 31 - 1 →
  incrRefCount h o = Some (<[o := set_refcount ob (refcount ob + 1)]> h) ∧
  typed (n + 1) (<[o := set_refcount ob (refcount ob + 1)]> h) ∧ shared_objs (<[o := set_refcount ob (refcount ob + 1)]> h) ∧
  ∀ o' t', says h o' t' → says (<[o := set_refcount ob (refcount ob + 1)]> h) o' t'.
Proof.
  intros Hty Hsh Ho Hn. destruct (Hty _ _ Ho) as (Hr & t & Hs & Hf). pose proof Hs as (_ & Hr1 & _).
  split; [unfold incrRefCount; rewrite Ho; bsimpl; by rewrite swrap_small by lia|].
  assert (obj_says (set_refcount ob (refcount ob + 1)) t) as Hs' by (apply set_refcount_says; [done|lia]).
  split; [eapply typed_insert; [done|done|done|cbn; lia]|]. split; [apply shared_insert; [done|]; intros ob'; rewrite Ho; by intros [= <-]|].
  intros o' t' Hs2. destruct (decide (o' = o)) as [-> |Hne]; [|by apply says_other].
  destruct Hs2 as (ob2 & Ho2 & Hs2). rewrite Ho in Ho2. injection Ho2 as <-. apply says_insert, set_refcount_says; [done|lia].
Qed.

Lemma shared_of_objs n h : typed n h → shared_objs h → n < 2 ^ 31 - 1 → shared_ok shared_integers h.
Proof.
  intros Hty Hsh Hn v Hv. destruct (Hsh v Hv) as (ob & Ho & He & Hp). destruct (Hty _ _ Ho) as (Hr & t & (Ht & Hr1 & _) & _).
  exists ob. split_and!; try done; lia.
Qed.

Lemma repr_exists v : LONG_MIN ≤ v ≤ LONG_MAX → ∃ t, decimal_repr v t ∧ fits (len t).
Proof.
  intros Hv. destruct (print_long_ok junk 32 v ltac:(lia) Hv) as (t & _ & _ & Hd & Hl). exists t. split; [done|unfold fits; lia].
Qed.

Lemma fromll_typed n h v :
  typed n h → shared_objs h → 1 ≤ n → n < 2 ^ 31 - 1 → LONG_MIN ≤ v ≤ LONG_MAX →
  ∃ h' o, createStringObjectFromLongLong junk shared_integers h v = Some (h', o) ∧ typed (n + 1) h' ∧ shared_objs h' ∧
    ∀ o' t, says h o' t → says h' o' t.
Proof.
  intros Hty Hsh Hn0 Hn Hv. unfold createStringObjectFromLongLong. destruct (_ && (v <? _)) eqn:E.
  - apply andb_true_iff in E as [Hv0%Z.geb_le Hv1%Z.ltb_lt]. destruct (Hsh v ltac:(lia)) as (ob & Ho & _ & _).
    destruct (incr_typed n h _ ob Hty Hsh Ho Hn) as (-> & H1 & H2 & H3). bsimpl. eauto 10.
  - rewrite Z.geb_leb, (proj2 (Z.leb_le _ _)), (proj2 (Z.leb_le _ _)) by lia. cbn [andb createObject]. rewrite insert_insert_eq.
    destruct (repr_exists v Hv) as (t & Hd & Hf). eexists _, _. split; [done|].
    eapply (new_typed n h _ _ t); [done|done|apply not_elem_of_dom, is_fresh|by split_and!|done|cbn; lia].
Qed.

Lemma encode_typed n h o :
  typed n h → shared_objs h → n < 2 ^ 31 - 1 → is_Some (h !! o) →
  ∃ h' o', tryObjectEncoding junk shared_integers maxmemory maxmemory_policy h o = Some (h', o') ∧ typed (n + 1) h' ∧ shared_objs h' ∧
    ∀ o2 t, says h o2 t → says h' o2 t ∨ (h' !! o2 = None ∧ o2 = o).
Proof.
  intros Hty Hsh Hn (ob & Ho). destruct (Hty _ _ Ho) as (Hr & t & Hs & Hf).
  destruct (tryObjectEncoding_ok junk shared_integers maxmemory maxmemory_policy h o ob t) as (h' & o' & ob' & Hrun & Ho' & Hs' & Hcnt & Henc & Hkeep & Hrel);
    [by eapply shared_of_objs|done|done|]. exists h', o'. split; [done|].
  assert (refcount ob' ≤ n + 1) as Hr'.
  { destruct Hcnt as [|(ob2 & Ho2 & ->)]; [lia|]. destruct (Hty _ _ Ho2). lia. }
  assert (∀ o2 ob2, h' !! o2 = Some ob2 → o2 = o' ∧ ob2 = ob' ∨ o2 ≠ o' ∧ h !! o2 = Some ob2) as Hback.
  { intros o2 ob2 Ho2. destruct (decide (o2 = o')) as [-> |Hne]; [left; split; [done|congruence]|]. right. split; [done|].
    destruct (decide (o2 = o)) as [-> |Hne2]; [|by rewrite <- Hkeep]. destruct (Hrel ltac:(congruence)) as (Hnone & _). congruence. }
  split; [|split].
  - intros o2 ob2 [[-> ->]|[_ Ho2]]%Hback; [by eauto|]. destruct (Hty _ _ Ho2) as (? & Ht2). split; [lia|done].
  - intros v Hv. destruct (Hsh v Hv) as (ob2 & Ho2 & He2 & Hp2). destruct (decide (shared_integers v = o')) as [E|Hne].
    + rewrite E in *. destruct (decide (o' = o)) as [-> |Hne].
      * rewrite Ho in Ho2. injection Ho2 as ->. exists ob'. split; [done|]. rewrite Henc. split; [by left|].
        destruct Hs' as (_ & _ & Hp'), Hs as (_ & _ & Hp). rewrite Hp2 in Hp. destruct (ptr ob') as [s|v'| |]; [|f_equal|done..].
        -- destruct Hp' as [Hraw _]. by rewrite (proj2 Henc (or_introl He2)) in Hraw.
        -- destruct Hp as (_ & Hv1 & Hd1), Hp' as (_ & Hv2 & Hd2). by eapply decimal_repr_inj.
      * destruct (Hrel Hne) as (_ & _ & v' & ob3 & _ & _ & Ho3 & ->). rewrite Ho2 in Ho3. injection Ho3 as <-. by eexists.
    + exists ob2. split; [|done]. rewrite Hkeep; [done| |done]. intros E. rewrite <- E in *.
      destruct (decide (o' = shared_integers v)) as [|Hne']; [congruence|]. rewrite Ho2 in Ho. injection Ho as <-.
      destruct (Hrel Hne') as (_ & Hraw & _). by rewrite He2 in Hraw.
  - intros o2 t2 (ob2 & Ho2 & Hs2). destruct (decide (o2 = o')) as [-> |Hne].
    + left. exists ob'. split; [done|]. destruct (decide (o' = o)) as [-> |Hne].
      * rewrite Ho in Ho2. injection Ho2 as <-. by rewrite (obj_says_unique _ _ _ Hs2 Hs).
      * destruct (Hrel Hne) as (_ & _ & v' & ob3 & _ & _ & Ho3 & ->). rewrite Ho2 in Ho3. injection Ho3 as <-.
        apply set_refcount_says; [done|]. destruct Hs2 as (_ & ? & _). lia.
    + destruct (decide (o2 = o)) as [-> |Hne2]; [right; split; [by apply Hrel; congruence|done]|].
      left. exists ob2. by rewrite Hkeep.
Qed.

Lemma decr_typed n h o ob :
  typed n h → shared_objs h → h !! o = Some ob →
  (refcount ob = 1 → ∀ v, 0 ≤ v < REDIS_SHARED_INTEGERS → o ≠ shared_integers v) →
  ∃ h', decrRefCount h o = Some h' ∧ typed (n + 1) h' ∧ shared_objs h' ∧
    ∀ o' t, says h o' t → says h' o' t ∨ (h' !! o' = None ∧ o' = o).
Proof.
  intros Hty Hsh Ho Hlast. destruct (Hty _ _ Ho) as (Hr & t & Hs & Hf). pose proof Hs as (Ht & Hr1 & _).
  unfold decrRefCount. rewrite Ho. bsimpl. rewrite (proj2 (Z.leb_gt _ _)) by lia. rewrite Ht. cbn [Z.leb Z.compare andb REDIS_STRING].
  destruct (Z.eqb_spec (refcount ob) 1) as [E1|E1].
  - eexists. split; [done|]. split; [by apply typed_weaken, typed_delete|]. split.
    + intros v Hv. destruct (Hsh v Hv) as (ob' & Ho' & Hob'). exists ob'. rewrite lookup_delete_ne; [done|]. by apply Hlast.
    + intros o' t' (ob' & Ho' & Hs'). destruct (decide (o' = o)) as [-> |Hne]; [right; by rewrite lookup_delete_eq|].
      left. exists ob'. by rewrite lookup_delete_ne.
  - eexists. split; [done|]. assert (obj_says (set_refcount ob (refcount ob - 1)) t) as Hs' by (apply set_refcount_says; [done|lia]).
    split; [eapply typed_insert; [done|done|done|cbn; lia]|]. split; [apply shared_insert; [done|]; intros ob'; rewrite Ho; by intros [= <-]|].
    intros o' t' Hs2. left. destruct (decide (o' = o)) as [-> |Hne]; [|by apply says_other].
    destruct Hs2 as (ob2 & Ho2 & Hs2). rewrite Ho in Ho2. injection Ho2 as <-. rewrite (obj_says_unique _ _ _ Hs2 Hs). by apply says_insert.
Qed.

Lemma dup_typed n h o ob :
  typed n h → shared_objs h → 1 ≤ n → h !! o = Some ob → oencoding ob = REDIS_ENCODING_RAW →
  ∃ h' o', dupStringObject junk h o = Some (h', o') ∧ typed (n + 1) h' ∧ shared_objs h' ∧ ∀ o2 t, says h o2 t → says h' o2 t.
Proof.
  intros Hty Hsh Hn Ho He. destruct (Hty _ _ Ho) as (Hr & t & Hs & Hf).
  destruct (dupStringObject_ok junk h o t) as (o' & s & -> & Hnone & Hrep); [by exists ob|done| |].
  { pose proof Hs as (_ & _ & Hp). destruct (ptr ob) as [s|v| |] eqn:Ep; [by exists s, ob| |done..]. rewrite He in Hp. by destruct Hp. }
  eexists _, _. split; [done|]. apply (new_typed n h o' _ t Hty Hsh Hnone (raw_says s t Hrep) Hf). cbn; lia.
Qed.

Lemma decode_typed n h o ob :
  typed n h → shared_objs h → 1 ≤ n < 2 ^ 31 - 1 → h !! o = Some ob →
  ∃ h' o', getDecodedObject junk h o = Some (h', o') ∧ typed (n + 1) h' ∧ shared_objs h' ∧ ∀ o2 t, says h o2 t → says h' o2 t.
Proof.
  intros Hty Hsh Hn Ho. destruct (Hty _ _ Ho) as (Hr & t & Hs & Hf). pose proof Hs as (_ & Hr1 & _).
  destruct (getDecodedObject_ok junk h o t ob Ho Hs ltac:(lia)) as (h' & o' & s & m & -> & Hrep & -> & Hcase).
  eexists _, _. split; [done|]. destruct Hcase as [(-> & -> & Ep)|(Hnone & ->)].
  - assert (mkObj REDIS_STRING REDIS_ENCODING_RAW (refcount ob + 1) (PtrSds s) = set_refcount ob (refcount ob + 1)) as ->.
    { destruct Hs as (Ht & _ & Hp). rewrite Ep in Hp. destruct Hp as [He _]. unfold set_refcount. by rewrite Ht, He, Ep. }
    apply (incr_typed n h o ob Hty Hsh Ho). lia.
  - apply (new_typed n h o' _ t Hty Hsh Hnone (raw_says s t Hrep) Hf). cbn; lia.
Qed.

(** Every operation on string objects that is given live objects (a raw one to
    copy, and not the last reference to a shared integer to release) runs, keeps
    every object of the heap well typed and the shared integers in place, and
    leaves what every object says as it was, unless it released the object. *)
Theorem object_ops_typed n h op :
  typed n h → shared_objs h → 1 ≤ n < 2 ^ 31 - 1 → op_ok h op →
  ∃ h', run_op h op = Some h' ∧ typed (n + 1) h' ∧ shared_objs h' ∧
    ∀ o t, says h o t → says h' o t ∨ (h' !! o = None ∧ may_release op o).
Proof.
  intros Hty Hsh Hn Hop. destruct op as [m|v|o|o|o|o|o]; cbn [run_op op_ok] in *.
  - destruct (createStringObject_ok junk h m [] (len m)) as (o & s & E & Hnone & Hs); [done|done|]. rewrite app_nil_r in E. rewrite E. bsimpl.
    destruct (new_typed n h o _ m Hty Hsh Hnone (raw_says s m Hs) Hop) as (H1 & H2 & H3); [cbn; lia|]. eauto 10.
  - destruct (fromll_typed n h v Hty Hsh ltac:(lia) ltac:(lia) Hop) as (h' & o & -> & H1 & H2 & H3). bsimpl. eauto 10.
  - destruct Hop as (ob & Ho & He). destruct (dup_typed n h o ob Hty Hsh ltac:(lia) Ho He) as (h' & o' & -> & H1 & H2 & H3). bsimpl. eauto 10.
  - destruct Hop as (ob & Ho). destruct (incr_typed n h o ob Hty Hsh Ho ltac:(lia)) as (-> & H1 & H2 & H3). eauto 10.
  - destruct Hop as (ob & Ho & Hlast). destruct (decr_typed n h o ob Hty Hsh Ho Hlast) as (h' & -> & H1 & H2 & H3). exists h'.
    split_and!; try done. intros o2 t2 Hs2. destruct (H3 o2 t2 Hs2) as [|[? ->]]; [by left|right; split; [done|by left]].
  - destruct (encode_typed n h o Hty Hsh ltac:(lia) Hop) as (h' & o' & -> & H1 & H2 & H3). bsimpl. exists h'. split_and!; try done.
    intros o2 t2 Hs2. destruct (H3 o2 t2 Hs2) as [|[? ->]]; [by left|right; split; [done|by right]].
  - destruct Hop as (ob & Ho). destruct (decode_typed n h o ob Hty Hsh Hn Ho) as (h' & o' & -> & H1 & H2 & H3). bsimpl. eauto 10.
Qed.

(** Encoding a string object keeps what it says; the result is an integer
    exactly when it was one, or the object had one reference and its text is
    the canonical text of a [long]; no other text changes. *)
Theorem tryObjectEncoding_keeps_text h o ob t :
  shared_ok shared_integers h → h !! o = Some ob → obj_says ob t →
  ∃ h' o' ob', tryObjectEncoding junk shared_integers maxmemory maxmemory_policy h o = Some (h', o') ∧
    h' !! o' = Some ob' ∧ obj_says ob' t ∧
    (oencoding ob' = REDIS_ENCODING_INT ↔
       oencoding ob = REDIS_ENCODING_INT ∨ (refcount ob = 1 ∧ ∃ v, decimal_repr v t ∧ LONG_MIN ≤ v ≤ LONG_MAX)) ∧
    (∀ o2, o2 ≠ o → o2 ≠ o' → h' !! o2 = h !! o2).
Proof.
  intros Hsh Ho Hs.
  destruct (tryObjectEncoding_ok junk shared_integers maxmemory maxmemory_policy h o ob t Hsh Ho Hs)
    as (h' & o' & ob' & Hrun & Ho' & Hs' & _ & Henc & Hkeep & _). exists h', o', ob'. by split_and!.
Qed.

(** Comparison orders objects as their texts, equality is equality of the
    texts, whatever the encodings, and the length is that of the text. *)
Theorem objects_compare_texts h a b ta tb :
  says h a ta → says h b tb →
  (∃ r, compareStringObjects junk h a b = Some r ∧ (r = 0 ↔ ta = tb) ∧ (r < 0 ↔ lex_lt ta tb)) ∧
  equalStringObjects junk h a b = Some (bool_decide (ta = tb)) ∧
  stringObjectLen junk h a = Some (len ta).
Proof using Type.
  intros Ha Hb. split; [by apply compareStringObjects_ok|]. split; [by apply equalStringObjects_ok|by apply stringObjectLen_ok].
Qed.
End object_types.

(** ** Witnesses *)

(** The shared integers, at the addresses after 1. *)
Definition demo_addr (v : Z) : addr := Z.to_pos (v + 2).
Definition demo_ints : oheap :=
  list_to_map ((λ v, (demo_addr v, mkObj REDIS_STRING REDIS_ENCODING_INT 1 (PtrLong v))) <$> seqZ 0 REDIS_SHARED_INTEGERS).
Definition demo_obj : robj := mkObj REDIS_STRING REDIS_ENCODING_RAW 1 (PtrSds (mkSds 2 0 (str "42" ++ [0]))).
Definition demo_heap : oheap := <[1%positive := demo_obj]> demo_ints.

Lemma demo_addr_ne v : 0 ≤ v → demo_addr v ≠ 1%positive.
Proof. unfold demo_addr. lia. Qed.

Lemma demo_ints_lookup o ob :
  demo_ints !! o = Some ob ↔ ∃ v, 0 ≤ v < REDIS_SHARED_INTEGERS ∧ o = demo_addr v ∧ ob = mkObj REDIS_STRING REDIS_ENCODING_INT 1 (PtrLong v).
Proof.
  unfold demo_ints. rewrite <- elem_of_list_to_map.
  - rewrite list_elem_of_fmap. split.
    + intros (v & [= -> ->] & Hv%elem_of_seqZ). exists v. by split_and!; [lia..| |].
    + intros (v & Hv & -> & ->). exists v. split; [done|]. apply elem_of_seqZ. lia.
  - rewrite <- list_fmap_compose. cbn. apply NoDup_fmap_2_strong; [|apply NoDup_seqZ].
    intros v1 v2 Hv1%elem_of_seqZ Hv2%elem_of_seqZ. unfold demo_addr. cbn. lia.
Qed.

Lemma demo_obj_says : obj_says demo_obj (str "42").
Proof. split_and!; [done..|]. split; [done|]. exists []. by vm_compute. Qed.

Lemma typed_demo (m : oheap) :
  (∀ o ob, m !! o = Some ob → ∃ v, 0 ≤ v < REDIS_SHARED_INTEGERS ∧ o = demo_addr v ∧ ob = mkObj REDIS_STRING REDIS_ENCODING_INT 1 (PtrLong v)) →
  typed 1 (<[1%positive := demo_obj]> m).
Proof.
  intros Hm o ob [[<- <-]|[Hne Ho]]%lookup_insert_Some.
  { split; [done|]. exists (str "42"). split; [apply demo_obj_says|done]. }
  apply Hm in Ho as (v & Hv & -> & ->). split; [done|].
  assert (LONG_MIN ≤ v ≤ LONG_MAX) as Hl by (unfold LONG_MIN, LONG_MAX, REDIS_SHARED_INTEGERS in *; lia).
  destruct (repr_exists (λ _, 0) v Hl) as (t & Hd & Hf). exists t. split; [|done]. by split_and!.
Qed.

Lemma demo_typed : typed 1 demo_heap.
Proof. apply typed_demo. intros o ob. apply demo_ints_lookup. Qed.

Lemma demo_shared : shared_objs demo_addr demo_heap.
Proof.
  intros v Hv. exists (mkObj REDIS_STRING REDIS_ENCODING_INT 1 (PtrLong v)). split; [|by split].
  unfold demo_heap. rewrite lookup_insert_ne by (intros E; by apply (demo_addr_ne v); [lia|]). apply demo_ints_lookup. by exists v.
Qed.

Lemma demo_lookup : demo_heap !! 1%positive = Some demo_obj.
Proof. apply lookup_insert_eq. Qed.

Lemma object_ops_typed_witness :
  ∃ h', run_op (λ _, 0) demo_addr 0 0 demo_heap (OEncode 1) = Some h' ∧ typed (1 + 1) h' ∧ shared_objs demo_addr h' ∧
    ∀ o t, says demo_heap o t → says h' o t ∨ (h' !! o = None ∧ may_release (OEncode 1) o).
Proof.
  apply object_ops_typed; [apply demo_typed|apply demo_shared|lia|]. exists demo_obj. apply demo_lookup.
Defined.

Lemma tryObjectEncoding_keeps_text_witness :
  ∃ h' o' ob', tryObjectEncoding (λ _, 0) demo_addr 0 0 demo_heap 1 = Some (h', o') ∧
    h' !! o' = Some ob' ∧ obj_says ob' (str "42") ∧
    (oencoding ob' = REDIS_ENCODING_INT ↔
       oencoding demo_obj = REDIS_ENCODING_INT ∨ (refcount demo_obj = 1 ∧ ∃ v, decimal_repr v (str "42") ∧ LONG_MIN ≤ v ≤ LONG_MAX)) ∧
    (∀ o2, o2 ≠ 1%positive → o2 ≠ o' → h' !! o2 = demo_heap !! o2).
Proof.
  apply tryObjectEncoding_keeps_text; [|apply demo_lookup|apply demo_obj_says].
  apply (shared_of_objs _ 1); [apply demo_typed|apply demo_shared|lia].
Defined.

Lemma objects_compare_texts_witness :
  (∃ r, compareStringObjects (λ _, 0) demo_heap 1 1 = Some r ∧ (r = 0 ↔ str "42" = str "42") ∧ (r < 0 ↔ lex_lt (str "42") (str "42"))) ∧
  equalStringObjects (λ _, 0) demo_heap 1 1 = Some (bool_decide (str "42" = str "42")) ∧
  stringObjectLen (λ _, 0) demo_heap 1 = Some (len (str "42")).
Proof. apply (objects_compare_texts (λ _, 0) demo_heap 1%positive 1%positive (str "42") (str "42")); exists demo_obj; (split; [apply demo_lookup|apply demo_obj_says]). Defined.
