(* ===== verification/Number.v ===== *)
(** * Numbers given as strings: [getLongLongFromObject] of [object.c]

    Arguments and values are taken as integers with [strtoll].  The standard's
    function is defined here on the bytes of memory, in the C locale; what it
    makes of a string object, in either encoding, depends on its text alone:
    [text_number]. *)

From S2P Require Import Prelude Util Sds Object.
From stdpp Require Import gmap.
Local Open Scope Z_scope.

(** ** [strtoll(m, &end, 10)] *)

(** The white space in front, and what follows. *)
Fixpoint strtoll_spaces (m : list Z) (n : nat) : option (list Z * nat) :=
  match m with
  | [] => None
  | x :: m' => if isspace x then strtoll_spaces m' (S n) else Some (m, n)
  end.

(** The value of the digits read on from [v], and the number of characters. *)
Fixpoint strtoll_digits (m : list Z) (v : Z) (n : nat) : option (Z * nat) :=
  match m with
  | [] => None
  | x :: m' => if (48 <=? x) && (x <=? 57) then strtoll_digits m' (v * 10 + (x - 48)) (S n) else Some (v, n)
  end.

(** The result, the index of [*end], and whether [errno] is set to [ERANGE].
    [None] is a read past the end of the memory. *)
Definition strtoll (m : list Z) : option (Z * nat * bool) :=
  '(m, n) ← strtoll_spaces m 0;
  x ← head m;
  let negative := x =? 45 in
  let '(m, n1) := if negative || (x =? 43) then (tail m, S n) else (m, n) in
  '(v, n2) ← strtoll_digits m 0 n1;
  Some (if (n2 =? n1)%nat then (0, 0%nat, false)
        else
          let v := if negative then - v else v in
          if v >? LLONG_MAX then (LLONG_MAX, n2, true)
          else if v <? LLONG_MIN then (LLONG_MIN, n2, true)
          else (v, n2, false)).

(** [None] inside is [REDIS_ERR]. *)
Definition getLongLongFromObject (h : oheap) (o : option addr) : option (option Z) :=
  match o with
  | None => Some (Some 0)
  | Some o =>
      ob ← h !! o;
      if negb (otype ob =? REDIS_STRING) then None
      else if oencoding ob =? REDIS_ENCODING_RAW then
        s ← osds ob;
        '(value, eptr, erange) ← strtoll (buf s);
        x ← mget (buf s) 0;
        e ← buf s !! eptr;
        Some (if isspace x || negb (e =? 0) || erange then None else Some value)
      else if oencoding ob =? REDIS_ENCODING_INT then v ← olong ob; Some (Some v)
      else None
  end.

(** ** What is taken as a number *)

Definition is_digit (x : Z) : bool := (48 <=? x) && (x <=? 57).

Fixpoint until_nul (t : list Z) : list Z :=
  match t with [] => [] | x :: t => if x =? 0 then [] else x :: until_nul t end.

(** An optional sign and at least one digit, up to the first NUL if there is
    one; nothing at all is zero. *)
Definition text_number (t : list Z) : option Z :=
  match until_nul t with
  | [] => Some 0
  | x :: t' =>
      let ds := if (x =? 45) || (x =? 43) then t' else x :: t' in
      if bool_decide (ds ≠ []) && forallb is_digit ds then
        let v := if x =? 45 then - dec_val ds else dec_val ds in
        if (LLONG_MIN <=? v) && (v <=? LLONG_MAX) then Some v else None
      else None
  end.

Lemma strtoll_spaces_ok x m : isspace x = false → strtoll_spaces (x :: m) 0 = Some (x :: m, 0%nat).
Proof. intros E. cbn. by rewrite E. Qed.

Lemma strtoll_digits_ok ds x m : is_digit x = false → Forall (λ d, is_digit d = true) ds → ∀ v n,
  strtoll_digits (ds ++ x :: m) v n = Some (dec_acc v ds, (n + length ds)%nat).
Proof.
  intros Hx. induction 1 as [|d ds Hd Hds IH]; intros v n; cbn [app strtoll_digits].
  - unfold is_digit in Hx. rewrite Hx. cbn. do 2 f_equal. lia.
  - unfold is_digit in Hd. rewrite Hd, IH. cbn [length]. do 2 f_equal. lia.
Qed.

(** The longest run of digits. *)
Lemma digits_split t : ∃ ds r, t = ds ++ r ∧ Forall (λ d, is_digit d = true) ds ∧ (r = [] ∨ ∃ x r', r = x :: r' ∧ is_digit x = false).
Proof.
  induction t as [|x t (ds & r & -> & Hds & Hr)]; [by exists [], []; repeat split; [constructor|left]|].
  destruct (is_digit x) eqn:E; [exists (x :: ds), r; by repeat split; [constructor|]|].
  exists [], (x :: ds ++ r). repeat split; [constructor|right; by eexists _, _].
Qed.

Lemma until_nul_spec t m : ∃ r, t ++ 0 :: m = until_nul t ++ 0 :: r ∧ Forall (λ x, x ≠ 0) (until_nul t).
Proof.
  induction t as [|x t (r & E & Hn)]; [by exists m; split; [|constructor]|]. cbn [until_nul app].
  destruct (Z.eqb_spec x 0) as [-> |Hx]; [by eexists; split; [|constructor]|]. exists r. split; [by rewrite E|by constructor].
Qed.

Lemma forallb_digits ds : forallb is_digit ds = true ↔ Forall (λ d, is_digit d = true) ds.
Proof. by rewrite forallb_True, <- Forall_forall || (rewrite <- Is_true_true, forallb_True; apply Forall_iff; intros d; apply Is_true_true). Qed.

(** Where the digits end in a text without NUL: at the NUL behind it exactly
    when they are the whole text. *)
Lemma digits_part ds r n : Forall (λ x, x ≠ 0) ds →
  ∃ v k, strtoll_digits (ds ++ 0 :: r) 0 n = Some (v, (n + k)%nat) ∧
    if bool_decide (ds ≠ []) && forallb is_digit ds then v = dec_val ds ∧ k = length ds ∧ (0 < k)%nat
    else k = 0%nat ∨ ∃ y, (ds ++ 0 :: r) !! k = Some y ∧ y ≠ 0.
Proof.
  intros Hnz. destruct (digits_split ds) as (d1 & r1 & Eds & Hd1 & Hr1).
  assert (∃ y m, r1 ++ 0 :: r = y :: m ∧ is_digit y = false ∧ (r1 ≠ [] → y ≠ 0)) as (y & m & Em & Hy & Hy0).
  { destruct Hr1 as [-> |(y & r' & -> & Hy)]; [by eexists _, _|]. eexists y, _. split; [done|]. split; [done|]. intros _.
    rewrite Eds in Hnz. apply Forall_app in Hnz as [_ Hnz]. by apply Forall_cons in Hnz as [? _]. }
  exists (dec_val d1), (length d1). rewrite Eds, <- app_assoc, Em, strtoll_digits_ok by done. split; [done|]. destruct (_ && _) eqn:E.
  - apply andb_true_iff in E as [Hne%bool_decide_eq_true Hall%forallb_digits]. apply Forall_app in Hall as [_ Hall].
    assert (r1 = []) as -> by (destruct Hr1 as [|(z & r' & -> & Hz)]; [done|]; apply Forall_cons in Hall as [? _]; congruence).
    rewrite app_nil_r in *. split; [done|]. split; [done|]. destruct d1; [done|cbn; lia].
  - destruct d1 as [|d d1]; [by left|right]. exists y. split; [by rewrite lookup_app_r, Nat.sub_diag by lia|]. apply Hy0. intros ->.
    rewrite andb_false_iff in E. destruct E as [E|E]; [apply bool_decide_eq_false in E; by destruct E|]. rewrite app_nil_r in E.
    by rewrite (proj2 (forallb_digits _) Hd1) in E.
Qed.

(** A text that does not start with a space. *)
Lemma strtoll_plain x t r : isspace x = false → x ≠ 0 → Forall (λ x, x ≠ 0) t →
  let ds := if (x =? 45) || (x =? 43) then t else x :: t in let w := if x =? 45 then - dec_val ds else dec_val ds in
  ∃ v n e y, strtoll ((x :: t) ++ 0 :: r) = Some (v, n, e) ∧ ((x :: t) ++ 0 :: r) !! n = Some y ∧
    if bool_decide (ds ≠ []) && forallb is_digit ds then y = 0 ∧ e = negb ((LLONG_MIN <=? w) && (w <=? LLONG_MAX)) ∧ (e = false → v = w) else y ≠ 0.
Proof.
  intros Hx Hx0 Ht ds w. unfold strtoll. cbn [app]. rewrite strtoll_spaces_ok by done. bsimpl. cbn [head tail]. bsimpl.
  assert (Forall (λ x, x ≠ 0) ds) as Hnz by (unfold ds; destruct (_ || _); [done|by constructor]).
  set (n1 := if (x =? 45) || (x =? 43) then 1%nat else 0%nat).
  assert ((if (x =? 45) || (x =? 43) then (t ++ 0 :: r, 1%nat) else (x :: t ++ 0 :: r, 0%nat)) = (ds ++ 0 :: r, n1)) as -> by (unfold ds, n1; by destruct (_ || _)).
  destruct (digits_part ds r n1 Hnz) as (v & k & -> & Hcase). bsimpl.
  assert (∀ k, (x :: t ++ 0 :: r) !! (n1 + k)%nat = (ds ++ 0 :: r) !! k) as Hlook by (intros j; unfold ds, n1; by destruct (_ || _)).
  destruct (Nat.eqb_spec (n1 + k) n1) as [E|E].
  - eexists _, _, _, x. split; [done|]. split; [done|]. destruct (_ && _); [lia|done].
  - assert (∀ z e, (if bool_decide (ds ≠ []) && forallb is_digit ds then e = negb ((LLONG_MIN <=? w) && (w <=? LLONG_MAX)) ∧ (e = false → z = w) else True) →
      ∃ v0 n e0 y, Some (z, (n1 + k)%nat, e) = Some (v0, n, e0) ∧ (x :: t ++ 0 :: r) !! n = Some y ∧
        if bool_decide (ds ≠ []) && forallb is_digit ds then y = 0 ∧ e0 = negb ((LLONG_MIN <=? w) && (w <=? LLONG_MAX)) ∧ (e0 = false → v0 = w) else y ≠ 0) as Hfin.
    { intros z e Hz. destruct (_ && _).
      - exists z, (n1 + k)%nat, e, 0. destruct Hcase as (_ & -> & _). split; [done|]. rewrite Hlook, lookup_app_r, Nat.sub_diag by lia. done.
      - destruct Hcase as [->|(y & Hy & Hy0)]; [lia|]. exists z, (n1 + k)%nat, e, y. by rewrite Hlook. }
    destruct (_ && _) eqn:Eb; [|by repeat case_match; apply Hfin]. destruct Hcase as (-> & _ & _). fold w.
    rewrite Z.gtb_ltb. destruct (Z.ltb_spec LLONG_MAX w), (Z.ltb_spec w LLONG_MIN), (Z.leb_spec LLONG_MIN w), (Z.leb_spec w LLONG_MAX); try lia; by apply Hfin.
Qed.

Lemma spaces_total m r : ∀ n, ∃ m1 m2, strtoll_spaces (m ++ 0 :: r) n = Some (m2 ++ 0 :: r, (n + length m1)%nat) ∧ m = m1 ++ m2.
Proof.
  induction m as [|x m IH]; intros n; cbn [app strtoll_spaces].
  - exists [], []. by rewrite Nat.add_0_r.
  - destruct (isspace x); [|exists [], (x :: m); by rewrite Nat.add_0_r]. destruct (IH (S n)) as (m1 & m2 & -> & ->).
    exists (x :: m1), m2. split; [|done]. cbn [length]. do 2 f_equal. lia.
Qed.

Lemma digits_total m r : ∀ v n, ∃ v' k, strtoll_digits (m ++ 0 :: r) v n = Some (v', (n + k)%nat) ∧ (k ≤ length m)%nat.
Proof.
  induction m as [|x m IH]; intros v n; cbn [app strtoll_digits].
  - exists v, 0%nat. by rewrite Nat.add_0_r.
  - destruct (_ && _); [|exists v, 0%nat; split; [by rewrite Nat.add_0_r|cbn; lia]]. destruct (IH (v * 10 + (x - 48)) (S n)) as (v' & k & -> & Hk).
    exists v', (S k). split; [do 2 f_equal; lia|cbn; lia].
Qed.

(** On any NUL-terminated memory it ends inside. *)
Lemma strtoll_total m r : ∃ v n e y, strtoll (m ++ 0 :: r) = Some (v, n, e) ∧ (m ++ 0 :: r) !! n = Some y.
Proof.
  unfold strtoll. destruct (spaces_total m r 0) as (m1 & m2 & -> & Em). bsimpl. cbn [Nat.add].
  assert (∃ x, head (m2 ++ 0 :: r) = Some x) as (x & Ex) by (destruct m2; by eexists). rewrite Ex. bsimpl.
  assert (∃ m3 n1, (if (x =? 45) || (x =? 43) then (tail (m2 ++ 0 :: r), S (length m1)) else (m2 ++ 0 :: r, length m1)) = (m3 ++ 0 :: r, n1) ∧ (n1 + length m3 ≤ length m)%nat) as (m3 & n1 & -> & Hl).
  { destruct (_ || _) eqn:Es; [|exists m2, (length m1); split; [done|]; rewrite Em, length_app; lia].
    destruct m2 as [|x2 m2]; [cbn in Ex; injection Ex as <-; done|]. exists m2, (S (length m1)). split; [done|]. rewrite Em, length_app. cbn. lia. }
  destruct (digits_total m3 r 0 n1) as (v & k & -> & Hk). bsimpl.
  assert (∀ n, (n ≤ length m)%nat → ∃ y, (m ++ 0 :: r) !! n = Some y) as Hin.
  { intros n Hn. apply lookup_lt_is_Some_2. rewrite length_app. cbn. lia. }
  repeat case_match; destruct (Hin 0%nat ltac:(lia)) as (y0 & Hy0); destruct (Hin (n1 + k)%nat ltac:(lia)) as (y1 & Hy1); by eauto 10.
Qed.

Lemma decimal_text v t : decimal_repr v t → LLONG_MIN ≤ v ≤ LLONG_MAX → text_number t = Some v.
Proof.
  intros (ds & Hds & Hne & _ & Hv & ->) Hb. assert (Forall (λ d, is_digit d = true) ds) as Hall.
  { eapply Forall_impl; [exact Hds|]. intros d Hd. unfold digit, is_digit in *. lia. }
  assert (∀ p, Forall (λ x, x ≠ 0) p → until_nul p = p) as Hun.
  { induction 1 as [|x p Hx Hp IH]; [done|]. cbn. by rewrite (proj2 (Z.eqb_neq x 0)), IH. }
  assert (Forall (λ x, x ≠ 0) ds) as Hnz by (eapply Forall_impl; [exact Hds|]; unfold digit; intros; lia).
  unfold text_number. destruct (Z.ltb_spec v 0) as [Hn|Hn]; cbn [app].
  - rewrite Hun by (by constructor). change ((45 =? 45) || (45 =? 43)) with true. change (45 =? 45) with true. cbv iota zeta.
    rewrite bool_decide_eq_true_2, (proj2 (forallb_digits ds)) by done. cbn [andb]. rewrite Hv. replace (- Z.abs v) with v by lia.
    by rewrite (proj2 (Z.leb_le _ _)), (proj2 (Z.leb_le _ _)) by lia.
  - rewrite Hun by done. destruct ds as [|d ds]; [done|]. pose proof (Forall_inv Hds) as Hd. cbn in Hd. unfold digit in Hd.
    rewrite (proj2 (Z.eqb_neq d 45)), (proj2 (Z.eqb_neq d 43)) by lia. cbn [orb].
    rewrite bool_decide_eq_true_2, (proj2 (forallb_digits (d :: ds))) by done. cbn [andb]. rewrite Hv. replace (Z.abs v) with v by lia.
    by rewrite (proj2 (Z.leb_le _ _)), (proj2 (Z.leb_le _ _)) by lia.
Qed.

Lemma mget_head x (m : list Z) : mget (x :: m) 0 = Some x.
Proof. by apply (mget_app []). Qed.

Lemma getLongLongFromObject_ok h o t : says h o t → getLongLongFromObject h (Some o) = Some (text_number t).
Proof.
  intros (ob & Ho & Ht & _ & Hp). unfold getLongLongFromObject. rewrite Ho. bsimpl. rewrite Ht. change (negb (REDIS_STRING =? REDIS_STRING)) with false. cbv iota. unfold osds, olong.
  destruct (ptr ob) as [s|v| |]; [| |done..].
  - destruct Hp as [-> (r & -> & _)]. change (REDIS_ENCODING_RAW =? REDIS_ENCODING_RAW) with true. cbv iota. bsimpl. cbn [buf].
    destruct (until_nul_spec t r) as (r' & -> & Hnz). unfold text_number. destruct (until_nul t) as [|x t'] eqn:Eu; [done|].
    apply Forall_cons in Hnz as [Hx Hnz]. destruct (isspace x) eqn:Es.
    + destruct (strtoll_total (x :: t') r') as (v & n & e & y & -> & Hy). bsimpl. cbn [app]. rewrite mget_head. bsimpl. cbn [app] in Hy. rewrite Hy. bsimpl. rewrite Es. cbn [orb].
      assert ((x =? 45) || (x =? 43) = false ∧ is_digit x = false) as [-> E] by (unfold isspace, is_digit in *; split; lia).
      cbn [forallb]. by rewrite E, andb_false_r.
    + destruct (strtoll_plain x t' r' Es Hx Hnz) as (v & n & e & y & -> & Hy & Hcase). bsimpl. cbn [app] in *. rewrite mget_head. bsimpl. rewrite Hy. bsimpl. rewrite Es. cbn [orb].
      destruct (_ && forallb _ _).
      * destruct Hcase as (-> & -> & Hv). change (negb (0 =? 0)) with false. cbn [orb]. destruct (_ && _); cbn [negb] in *; [by rewrite Hv|done].
      * by rewrite (proj2 (Z.eqb_neq y 0)).
  - destruct Hp as (-> & Hv & Hd). change (REDIS_ENCODING_INT =? REDIS_ENCODING_RAW) with false. change (REDIS_ENCODING_INT =? REDIS_ENCODING_INT) with true. cbv iota. bsimpl.
    by rewrite (decimal_text v t Hd Hv).
Qed.
