(* ===== verification/Client.v ===== *)
(** * The state of a client: [redis.h]

    The fields of [redisClient] that reading requests and writing replies use,
    in two parts: what comes in and what goes out.  The server's settings and
    clock, the allocator's block sizes and whether the event loop accepts a
    handler are arguments of the definitions that use them. *)

From S2P Require Import Prelude Sds Object.
From stdpp Require Import gmap.
Local Open Scope Z_scope.

Definition REDIS_OK : Z := 0.
Definition REDIS_ERR : Z := -1.

Definition REDIS_SLAVE : Z := Z.shiftl 1 0.
Definition REDIS_MASTER : Z := Z.shiftl 1 1.
Definition REDIS_MONITOR : Z := Z.shiftl 1 2.
Definition REDIS_MULTI : Z := Z.shiftl 1 3.
Definition REDIS_BLOCKED : Z := Z.shiftl 1 4.
Definition REDIS_CLOSE_AFTER_REPLY : Z := Z.shiftl 1 6.
Definition REDIS_LUA_CLIENT : Z := Z.shiftl 1 8.
Definition REDIS_ASKING : Z := Z.shiftl 1 9.
Definition REDIS_CLOSE_ASAP : Z := Z.shiftl 1 10.
Definition REDIS_MASTER_FORCE_REPLY : Z := Z.shiftl 1 13.
Definition REDIS_PUBSUB : Z := Z.shiftl 1 18.

Definition REDIS_REPL_NONE : Z := 0.
Definition REDIS_REPL_ONLINE : Z := 9.

(** What comes in: the query buffer and the request being read.  The
    arguments are objects only the client holds, [argv_room] the size of the
    array they are in. *)
Record client_in := mkIn {
  querybuf : sdshdr;
  querybuf_peak : Z;
  argv : list robj;
  argv_room : Z;
  reqtype : Z;
  multibulklen : Z;
  bulklen : Z
}.

(** What goes out: the static buffer, then the objects of the reply list.
    [writable] tells whether the write handler is installed. *)
Record client_out := mkOut {
  cbuf : list Z;
  bufpos : Z;
  reply : list addr;
  reply_bytes : Z;
  sentlen : Z;
  writable : bool
}.

Record redisClient := mkClient {
  cfd : Z;
  cflags : Z;
  replstate : Z;
  lastinteraction : Z;
  obuf_soft_limit_reached_time : Z;
  reploff : Z;
  repl_ack_time : Z;
  cin : client_in;
  cout : client_out
}.

(** [c->flags & mask] *)
Definition has_flag (c : redisClient) (mask : Z) : bool := negb (Z.land (cflags c) mask =? 0).

Definition set_flags (c : redisClient) (v : Z) : redisClient :=
  mkClient (cfd c) v (replstate c) (lastinteraction c) (obuf_soft_limit_reached_time c) (reploff c) (repl_ack_time c) (cin c) (cout c).
Definition set_lastinteraction (c : redisClient) (v : Z) : redisClient :=
  mkClient (cfd c) (cflags c) (replstate c) v (obuf_soft_limit_reached_time c) (reploff c) (repl_ack_time c) (cin c) (cout c).
Definition set_obuf_time (c : redisClient) (v : Z) : redisClient :=
  mkClient (cfd c) (cflags c) (replstate c) (lastinteraction c) v (reploff c) (repl_ack_time c) (cin c) (cout c).
Definition set_reploff (c : redisClient) (v : Z) : redisClient :=
  mkClient (cfd c) (cflags c) (replstate c) (lastinteraction c) (obuf_soft_limit_reached_time c) v (repl_ack_time c) (cin c) (cout c).
Definition set_repl_ack_time (c : redisClient) (v : Z) : redisClient :=
  mkClient (cfd c) (cflags c) (replstate c) (lastinteraction c) (obuf_soft_limit_reached_time c) (reploff c) v (cin c) (cout c).
Definition set_in (c : redisClient) (v : client_in) : redisClient :=
  mkClient (cfd c) (cflags c) (replstate c) (lastinteraction c) (obuf_soft_limit_reached_time c) (reploff c) (repl_ack_time c) v (cout c).
Definition set_out (c : redisClient) (v : client_out) : redisClient :=
  mkClient (cfd c) (cflags c) (replstate c) (lastinteraction c) (obuf_soft_limit_reached_time c) (reploff c) (repl_ack_time c) (cin c) v.

Definition set_querybuf (c : redisClient) (q : sdshdr) : redisClient :=
  let i := cin c in set_in c (mkIn q (querybuf_peak i) (argv i) (argv_room i) (reqtype i) (multibulklen i) (bulklen i)).
Definition set_querybuf_peak (c : redisClient) (n : Z) : redisClient :=
  let i := cin c in set_in c (mkIn (querybuf i) n (argv i) (argv_room i) (reqtype i) (multibulklen i) (bulklen i)).
Definition set_argv (c : redisClient) (a : list robj) (room : Z) : redisClient :=
  let i := cin c in set_in c (mkIn (querybuf i) (querybuf_peak i) a room (reqtype i) (multibulklen i) (bulklen i)).
Definition set_reqtype (c : redisClient) (t : Z) : redisClient :=
  let i := cin c in set_in c (mkIn (querybuf i) (querybuf_peak i) (argv i) (argv_room i) t (multibulklen i) (bulklen i)).
Definition set_lens (c : redisClient) (mbl bl : Z) : redisClient :=
  let i := cin c in set_in c (mkIn (querybuf i) (querybuf_peak i) (argv i) (argv_room i) (reqtype i) mbl bl).

Definition set_static (c : redisClient) (b : list Z) (pos : Z) : redisClient :=
  let o := cout c in set_out c (mkOut b pos (reply o) (reply_bytes o) (sentlen o) (writable o)).
Definition set_reply (c : redisClient) (l : list addr) : redisClient :=
  let o := cout c in set_out c (mkOut (cbuf o) (bufpos o) l (reply_bytes o) (sentlen o) (writable o)).
Definition set_reply_bytes (c : redisClient) (n : Z) : redisClient :=
  let o := cout c in set_out c (mkOut (cbuf o) (bufpos o) (reply o) n (sentlen o) (writable o)).
Definition set_sentlen (c : redisClient) (n : Z) : redisClient :=
  let o := cout c in set_out c (mkOut (cbuf o) (bufpos o) (reply o) (reply_bytes o) n (writable o)).
Definition set_writable (c : redisClient) (b : bool) : redisClient :=
  let o := cout c in set_out c (mkOut (cbuf o) (bufpos o) (reply o) (reply_bytes o) (sentlen o) b).
