(* ===== verification/Reply.v ===== *)
(** * Replies: the output side of [networking.c]

    A reply is appended to the client's static buffer, or to a list of string
    objects when the buffer is full, gluing small pieces together; the write
    handler sends the buffer and then the objects.  Objects in the list may be
    shared with the rest of the server: they are addresses in a heap, and the
    last one is copied before it is extended if somebody else holds it. *)

From S2P Require Import Prelude Util Sds Object Client.
From stdpp Require Import gmap.
Local Open Scope Z_scope.

Definition REDIS_REPLY_CHUNK_BYTES : Z := 16 * 1024.
Definition REDIS_SHARED_BULKHDR_LEN : Z := 32.
Definition REDIS_MAX_WRITE_PER_EVENT : Z := 1024 * 64.
Definition REDIS_CLIENT_TYPE_NORMAL : Z := 0.
Definition REDIS_CLIENT_TYPE_SLAVE : Z := 1.
Definition REDIS_CLIENT_TYPE_PUBSUB : Z := 2.
Definition ULONG_MAX : Z := 2 ^ 64 - 1.

Record obuf_limit := mkLimit { hard_limit_bytes : Z; soft_limit_bytes : Z; soft_limit_seconds : Z }.

(** The shared objects the replies use. *)
Record shared_objects := mkShared {
  sh_crlf : addr; sh_czero : addr; sh_cone : addr; sh_nullbulk : addr;
  sh_mbulkhdr : list addr; sh_bulkhdr : list addr
}.

Section reply_ops.
Context (junk : nat → Z).
(** [zmalloc_size_sds]: the size of the block of a string *)
Context (malloc_size : sdshdr → Z).
(** [server.client_obuf_limits], [server.unixtime], and whether
    [aeCreateFileEvent] succeeds *)
Context (limits : Z → obuf_limit) (unixtime : Z) (ae_create : bool).
Context (shared : shared_objects).
Implicit Types (h : oheap) (c : redisClient) (m : list Z).

(** ** Limits *)

(** [sizeof(listNode)+sizeof(robj)] *)
Definition list_item_size : Z := 24 + 16.

Definition getClientOutputBufferMemoryUsage c : Z :=
  u64 (reply_bytes (cout c) + list_item_size * len (reply (cout c))).

Definition getClientType c : Z :=
  if has_flag c REDIS_SLAVE && negb (has_flag c REDIS_MONITOR) then REDIS_CLIENT_TYPE_SLAVE
  else if has_flag c REDIS_PUBSUB then REDIS_CLIENT_TYPE_PUBSUB
  else REDIS_CLIENT_TYPE_NORMAL.

Definition checkClientOutputBufferLimits c : redisClient * bool :=
  let used_mem := getClientOutputBufferMemoryUsage c in
  let l := limits (getClientType c) in
  let hard := negb (hard_limit_bytes l =? 0) && (used_mem >=? hard_limit_bytes l) in
  let soft := negb (soft_limit_bytes l =? 0) && (used_mem >=? soft_limit_bytes l) in
  if soft then
    if obuf_soft_limit_reached_time c =? 0 then (set_obuf_time c unixtime, hard)
    else
      let elapsed := unixtime - obuf_soft_limit_reached_time c in
      (c, negb (elapsed <=? soft_limit_seconds l) || hard)
  else (set_obuf_time c 0, hard).

(** The queue [server.clients_to_close] holds the clients with the flag. *)
Definition freeClientAsync c : redisClient :=
  if has_flag c REDIS_CLOSE_ASAP then c else set_flags c (Z.lor (cflags c) REDIS_CLOSE_ASAP).

(** [None] is the failed assertion. *)
Definition asyncCloseClientOnOutputBufferLimitReached c : option redisClient :=
  if negb (reply_bytes (cout c) <? ULONG_MAX - 1024 * 64) then None
  else if (reply_bytes (cout c) =? 0) || has_flag c REDIS_CLOSE_ASAP then Some c
  else let '(c, reached) := checkClientOutputBufferLimits c in Some (if reached then freeClientAsync c else c).

(** ** Appending *)

Definition prepareClientToWrite c : redisClient * Z :=
  if has_flag c REDIS_LUA_CLIENT then (c, REDIS_OK)
  else if has_flag c REDIS_MASTER && negb (has_flag c REDIS_MASTER_FORCE_REPLY) then (c, REDIS_ERR)
  else if cfd c <=? 0 then (c, REDIS_ERR)
  else if (bufpos (cout c) =? 0) && (len (reply (cout c)) =? 0) &&
          ((replstate c =? REDIS_REPL_NONE) || (replstate c =? REDIS_REPL_ONLINE))
  then if ae_create then (set_writable c true, REDIS_OK) else (c, REDIS_ERR)
  else (c, REDIS_OK).

(** The list with its last node's value replaced. *)
Definition replace_last (l : list addr) (o : addr) : list addr := take (length l - 1) l ++ [o].

Definition dupLastObjectIfNeeded h (l : list addr) : option (oheap * list addr * addr) :=
  cur ← last l;
  ob ← h !! cur;
  if refcount ob >? 1 then
    '(h, new) ← dupStringObject junk h cur;
    h ← decrRefCount h cur;
    Some (h, replace_last l new, new)
  else Some (h, l, cur).

Definition _addReplyToBuffer c m (n : Z) : option (redisClient * Z) :=
  let available := u64 (REDIS_REPLY_CHUNK_BYTES - bufpos (cout c)) in
  if has_flag c REDIS_CLOSE_AFTER_REPLY then Some (c, REDIS_OK)
  else if len (reply (cout c)) >? 0 then Some (c, REDIS_ERR)
  else if n >? available then Some (c, REDIS_ERR)
  else
    b ← memcpy (cbuf (cout c)) m (bufpos (cout c)) 0 n;
    Some (set_static c b (s32 (bufpos (cout c) + n)), REDIS_OK).

(** The part the three functions below share: append to the last object when
    it is a string and stays small enough, or tell that it cannot be done. *)
Definition append_tail h c m (n : Z) : option (option (oheap * redisClient)) :=
  tail ← last (reply (cout c));
  tob ← h !! tail;
  match ptr tob with
  | PtrSds s =>
      if sdslen s + n <=? REDIS_REPLY_CHUNK_BYTES then
        let bytes := u64 (reply_bytes (cout c) - malloc_size s) in
        '(h, l, tail) ← dupLastObjectIfNeeded h (reply (cout c));
        tob ← h !! tail;
        s ← osds tob;
        s ← sdscatlen junk s m n;
        Some (Some (<[tail := set_ptr tob (PtrSds s)]> h,
                    set_reply_bytes (set_reply c l) (u64 (bytes + malloc_size s))))
      else Some None
  | PtrNull => Some None
  | _ => None
  end.

(** A node with the object [o], of the string [s], at the tail. *)
Definition add_node c (o : addr) (s : sdshdr) : redisClient :=
  set_reply_bytes (set_reply c (reply (cout c) ++ [o])) (u64 (reply_bytes (cout c) + malloc_size s)).

Definition _addReplyObjectToList h c (o : addr) : option (oheap * redisClient) :=
  if has_flag c REDIS_CLOSE_AFTER_REPLY then Some (h, c)
  else
    ob ← h !! o; s ← osds ob;
    r ← (if len (reply (cout c)) =? 0 then Some None else append_tail h c (buf s) (sdslen s));
    '(h, c) ← match r with
              | Some r => Some r
              | None => h ← incrRefCount h o; Some (h, add_node c o s)
              end;
    c ← asyncCloseClientOnOutputBufferLimitReached c;
    Some (h, c).

Definition _addReplySdsToList h c (s : sdshdr) : option (oheap * redisClient) :=
  if has_flag c REDIS_CLOSE_AFTER_REPLY then Some (h, c)
  else
    r ← (if len (reply (cout c)) =? 0 then Some None else append_tail h c (buf s) (sdslen s));
    let '(h, c) := match r with
                   | Some r => r
                   | None => let '(h, o) := createObject h REDIS_STRING (PtrSds s) in (h, add_node c o s)
                   end in
    c ← asyncCloseClientOnOutputBufferLimitReached c;
    Some (h, c).

Definition _addReplyStringToList h c m (n : Z) : option (oheap * redisClient) :=
  if has_flag c REDIS_CLOSE_AFTER_REPLY then Some (h, c)
  else
    r ← (if len (reply (cout c)) =? 0 then Some None else append_tail h c m n);
    '(h, c) ← match r with
              | Some r => Some r
              | None =>
                  '(h, o) ← createStringObject junk h m n;
                  ob ← h !! o; s ← osds ob;
                  Some (h, add_node c o s)
              end;
    c ← asyncCloseClientOnOutputBufferLimitReached c;
    Some (h, c).

(** ** What the commands call *)

(** An integer object goes out as the text of its decoded version. *)
Definition addReply_decoded h c (o : addr) : option (oheap * redisClient) :=
  '(h, o) ← getDecodedObject junk h o;
  ob ← h !! o; s ← osds ob;
  '(c, r) ← _addReplyToBuffer c (buf s) (sdslen s);
  '(h, c) ← (if negb (r =? REDIS_OK) then _addReplyObjectToList h c o else Some (h, c));
  h ← decrRefCount h o;
  Some (h, c).

Definition addReply h c (o : addr) : option (oheap * redisClient) :=
  let '(c, ok) := prepareClientToWrite c in
  if negb (ok =? REDIS_OK) then Some (h, c)
  else
    ob ← h !! o;
    if oencoding ob =? REDIS_ENCODING_RAW then
      s ← osds ob;
      '(c, r) ← _addReplyToBuffer c (buf s) (sdslen s);
      if negb (r =? REDIS_OK) then _addReplyObjectToList h c o else Some (h, c)
    else if oencoding ob =? REDIS_ENCODING_INT then
      '(c, sent) ← (if (len (reply (cout c)) =? 0) && (u64 (REDIS_REPLY_CHUNK_BYTES - bufpos (cout c)) >=? 32) then
          v ← olong ob;
          '(b, n) ← print_long junk 32 v;
          '(c, r) ← _addReplyToBuffer c b n;
          Some (c, r =? REDIS_OK)
        else Some (c, false));
      if (sent : bool) then Some (h, c)
      else addReply_decoded h c o
    else None.

Definition addReplySds h c (s : sdshdr) : option (oheap * redisClient) :=
  let '(c, ok) := prepareClientToWrite c in
  if negb (ok =? REDIS_OK) then Some (h, c)
  else
    '(c, r) ← _addReplyToBuffer c (buf s) (sdslen s);
    if r =? REDIS_OK then Some (h, c) else _addReplySdsToList h c s.

Definition addReplyString h c m (n : Z) : option (oheap * redisClient) :=
  let '(c, ok) := prepareClientToWrite c in
  if negb (ok =? REDIS_OK) then Some (h, c)
  else
    '(c, r) ← _addReplyToBuffer c m n;
    if negb (r =? REDIS_OK) then _addReplyStringToList h c m n else Some (h, c).

Definition addReplyErrorLength h c m (n : Z) : option (oheap * redisClient) :=
  '(h, c) ← addReplyString h c (str "-ERR ") 5;
  '(h, c) ← addReplyString h c m n;
  addReplyString h c [13; 10] 2.

Definition addReplyError h c (err : list Z) : option (oheap * redisClient) :=
  n ← strlen err; addReplyErrorLength h c err n.

(** [for (j = 0; j < l; j++) if (s[j] == '\r' || s[j] == '\n') s[j] = ' ';] *)
Definition no_newline (ch : Z) : Z := if (ch =? 13) || (ch =? 10) then 32 else ch.

(** [formatted] is what the format and its arguments print. *)
Definition addReplyErrorFormat h c (fmtlen : Z) (formatted : list Z) : option (oheap * redisClient) :=
  s ← sdsempty junk;
  s ← sdscatvprintf junk s fmtlen formatted;
  b ← map_loop (Z.to_nat (sdslen s)) no_newline (buf s) 0;
  addReplyErrorLength h c b (sdslen s).

Definition addReplyStatusLength h c m (n : Z) : option (oheap * redisClient) :=
  '(h, c) ← addReplyString h c (str "+") 1;
  '(h, c) ← addReplyString h c m n;
  addReplyString h c [13; 10] 2.

Definition addReplyStatus h c (status : list Z) : option (oheap * redisClient) :=
  n ← strlen status; addReplyStatusLength h c status n.

Definition addReplyStatusFormat h c (fmtlen : Z) (formatted : list Z) : option (oheap * redisClient) :=
  s ← sdsempty junk;
  s ← sdscatvprintf junk s fmtlen formatted;
  addReplyStatusLength h c (buf s) (sdslen s).

(** ** Lengths known later *)

(** The node is known by the object it holds, which nothing else holds. *)
Definition addDeferredMultiBulkLength h c : oheap * redisClient * option addr :=
  let '(c, ok) := prepareClientToWrite c in
  if negb (ok =? REDIS_OK) then (h, c, None)
  else
    let '(h, o) := createObject h REDIS_STRING PtrNull in
    (h, set_reply c (reply (cout c) ++ [o]), Some o).

(** What the C library prints for [%ld]. *)
Definition printf_ld (v : Z) : list Z :=
  default [] ('(b, n) ← ll2string (replicate 32 0) 32 v; Some (take (Z.to_nat n) b)).

(** [ln->next], and the list once that node is deleted. *)
Fixpoint node_after (l : list addr) (o : addr) : option addr :=
  match l with
  | a :: l => if decide (a = o) then head l else node_after l o
  | [] => None
  end.
Fixpoint del_after (l : list addr) (o : addr) : list addr :=
  match l with
  | a :: l => if decide (a = o) then a :: tail l else a :: del_after l o
  | [] => []
  end.

Definition setDeferredMultiBulkLength h c (node : option addr) (length : Z) : option (oheap * redisClient) :=
  match node with
  | None => Some (h, c)
  | Some ln =>
      lob ← h !! ln;
      s ← sdsempty junk;
      s ← sdscatprintf junk s 6 (str "*" ++ printf_ld length ++ [13; 10]);
      let h := <[ln := set_ptr lob (PtrSds s)]> h in
      let c := set_reply_bytes c (u64 (reply_bytes (cout c) + malloc_size s)) in
      '(h, c) ← match node_after (reply (cout c)) ln with
                | None => Some (h, c)
                | Some nx =>
                    nob ← h !! nx;
                    match ptr nob with
                    | PtrSds t =>
                        let bytes := u64 (reply_bytes (cout c) - malloc_size s) in
                        let bytes := u64 (bytes - malloc_size t) in
                        s ← sdscatlen junk s (buf t) (sdslen t);
                        let h := <[ln := set_ptr lob (PtrSds s)]> h in
                        h ← decrRefCount h nx;
                        Some (h, set_reply_bytes (set_reply c (del_after (reply (cout c)) ln)) (u64 (bytes + malloc_size s)))
                    | PtrNull => Some (h, c)
                    | _ => None
                    end
                end;
      c ← asyncCloseClientOnOutputBufferLimitReached c;
      Some (h, c)
  end.

(** ** Numbers and bulks *)

Definition addReplyLongLongWithPrefix h c (ll prefix : Z) : option (oheap * redisClient) :=
  if (prefix =? 42 (* '*' *)) && (ll <? REDIS_SHARED_BULKHDR_LEN) then
    o ← mget (sh_mbulkhdr shared) ll; addReply h c o
  else if (prefix =? 36 (* '$' *)) && (ll <? REDIS_SHARED_BULKHDR_LEN) then
    o ← mget (sh_bulkhdr shared) ll; addReply h c o
  else
    b ← mset (zmalloc junk 128) 0 prefix;
    '(rest, n) ← ll2string (drop 1 b) (128 - 1) ll;
    let b := prefix :: rest in
    b ← mset b (n + 1) 13;
    b ← mset b (n + 2) 10;
    addReplyString h c b (n + 3).

Definition addReplyLongLong h c (ll : Z) : option (oheap * redisClient) :=
  if ll =? 0 then addReply h c (sh_czero shared)
  else if ll =? 1 then addReply h c (sh_cone shared)
  else addReplyLongLongWithPrefix h c ll 58 (* ':' *).

Definition addReplyMultiBulkLen h c (length : Z) : option (oheap * redisClient) :=
  if length <? REDIS_SHARED_BULKHDR_LEN then o ← mget (sh_mbulkhdr shared) length; addReply h c o
  else addReplyLongLongWithPrefix h c length 42.

(** [while((n = n/10) != 0) len++;] *)
Fixpoint digits_count (fuel : nat) (n l : Z) : option Z :=
  let n := Z.quot n 10 in
  if negb (n =? 0) then match fuel with O => None | S fuel => digits_count fuel n (l + 1) end else Some l.

Definition addReplyBulkLen h c (o : addr) : option (oheap * redisClient) :=
  ob ← h !! o;
  n ← (if oencoding ob =? REDIS_ENCODING_RAW then s ← osds ob; Some (sdslen s)
       else
         v ← olong ob;
         if v <? 0 then digits_count 20 (s64 (- v)) 2 else digits_count 20 v 1);
  if n <? REDIS_SHARED_BULKHDR_LEN then b ← mget (sh_bulkhdr shared) n; addReply h c b
  else addReplyLongLongWithPrefix h c n 36.

Definition addReplyBulk h c (o : addr) : option (oheap * redisClient) :=
  '(h, c) ← addReplyBulkLen h c o;
  '(h, c) ← addReply h c o;
  addReply h c (sh_crlf shared).

Definition addReplyBulkCBuffer h c m (n : Z) : option (oheap * redisClient) :=
  '(h, c) ← addReplyLongLongWithPrefix h c n 36;
  '(h, c) ← addReplyString h c m n;
  addReply h c (sh_crlf shared).

Definition addReplyBulkCString h c (s : option (list Z)) : option (oheap * redisClient) :=
  match s with
  | None => addReply h c (sh_nullbulk shared)
  | Some s => n ← strlen s; addReplyBulkCBuffer h c s n
  end.

Definition addReplyBulkLongLong h c (ll : Z) : option (oheap * redisClient) :=
  '(b, n) ← ll2string (zmalloc junk 64) 64 ll; addReplyBulkCBuffer h c b n.

(** ** Sending *)

(** What the socket does with one [write]: take up to [n] bytes, or fail with
    [errno] set to [EAGAIN] or not. *)
Inductive wresult := Wrote (n : Z) | WFailed (again : bool).
Definition nwritten_of (r : wresult) : Z := match r with Wrote n => n | WFailed _ => -1 end.

(** One [write] of the [n] bytes at [off]: its result, the rest of the script,
    and the bytes that went out.  At the end of the script the socket is full. *)
Definition write_some (ws : list wresult) m (off n : Z) : option (wresult * list wresult * list Z) :=
  let '(r, ws) := match ws with r :: ws => (r, ws) | [] => (WFailed true, []) end in
  match r with
  | Wrote k => let k := Z.min (Z.max k 0) n in bs ← mread m off k; Some (Wrote k, ws, bs)
  | WFailed _ => Some (r, ws, [])
  end.

Record sending := mkSending { s_heap : oheap; s_client : redisClient; s_last : wresult; s_total : Z; s_out : list Z }.

(** One turn of the loop on a client with something to send: [inl] when it
    stops at the write, otherwise whether it goes on without looking at how
    much was sent. *)
Definition send_step (ws : list wresult) (st : sending) : option (sending + list wresult * sending * bool) :=
  let h := s_heap st in let c := s_client st in let o := cout c in
  if bufpos o >? 0 then
    '(r, ws, bs) ← write_some ws (cbuf o) (sentlen o) (bufpos o - sentlen o);
    if nwritten_of r <=? 0 then Some (inl (mkSending h c r (s_total st) (s_out st)))
    else
      let c := set_sentlen c (sentlen o + nwritten_of r) in
      let c := if sentlen (cout c) =? bufpos (cout c)
               then set_sentlen (set_static c (cbuf (cout c)) 0) 0 else c in
      Some (inr (ws, mkSending h c r (s_total st + nwritten_of r) (s_out st ++ bs), false))
  else
    o1 ← head (reply o);
    ob ← h !! o1; s ← osds ob;
    let objlen := sdslen s in
    let objmem := malloc_size s in
    if objlen =? 0 then
      h ← decrRefCount h o1;
      Some (inr (ws, mkSending h (set_reply c (tail (reply o))) (s_last st) (s_total st) (s_out st), true))
    else
      '(r, ws, bs) ← write_some ws (buf s) (sentlen o) (objlen - sentlen o);
      if nwritten_of r <=? 0 then Some (inl (mkSending h c r (s_total st) (s_out st)))
      else
        let c := set_sentlen c (sentlen o + nwritten_of r) in
        '(h, c) ← (if sentlen (cout c) =? objlen then
            h ← decrRefCount h o1;
            Some (h, set_reply_bytes (set_sentlen (set_reply c (tail (reply o))) 0)
                       (u64 (reply_bytes o - objmem)))
          else Some (h, c));
        Some (inr (ws, mkSending h c r (s_total st + nwritten_of r) (s_out st ++ bs), false)).

(** [below_maxmemory]: [server.maxmemory == 0 || zmalloc_used_memory() < server.maxmemory] *)
Fixpoint send_loop (fuel : nat) (below_maxmemory : bool) (ws : list wresult) (st : sending) : option sending :=
  let o := cout (s_client st) in
  if (bufpos o >? 0) || negb (len (reply o) =? 0) then
    match fuel with
    | O => None
    | S fuel =>
        step ← send_step ws st;
        match step with
        | inl st => Some st
        | inr (ws, st, continue) =>
            if negb continue && (s_total st >? REDIS_MAX_WRITE_PER_EVENT) && below_maxmemory then Some st
            else send_loop fuel below_maxmemory ws st
        end
    end
  else Some st.

(** The heap, the client unless it was freed, and what was sent. *)
Definition sendReplyToClient (below_maxmemory : bool) (ws : list wresult) h c : option (oheap * option redisClient * list Z) :=
  st ← send_loop (S (length ws + length (reply (cout c)))) below_maxmemory ws (mkSending h c (Wrote 0) 0 []);
  let h := s_heap st in let c := s_client st in
  match s_last st with
  | WFailed false => Some (h, None, s_out st)
  | _ =>
      let c := if s_total st >? 0 then
                 if negb (has_flag c REDIS_MASTER) then set_lastinteraction c unixtime else c
               else c in
      if (bufpos (cout c) =? 0) && (len (reply (cout c)) =? 0) then
        let c := set_writable (set_sentlen c 0) false in
        Some (h, if has_flag c REDIS_CLOSE_AFTER_REPLY then None else Some c, s_out st)
      else Some (h, Some c, s_out st)
  end.
End reply_ops.
