(* ===== verification/ReplySpec.v ===== *)
(** * What a reply buffer holds

    The output of a client is a stream: bytes to send, and holes for lengths
    that are not known yet.  [out_ok] says that the buffer, the list of objects
    and the count of bytes already sent stand for a stream, and that the
    reference counts are those of the list and of the other holders [ext] of
    the objects.  Appending extends the stream and leaves what the other
    holders see. *)

From S2P Require Import Prelude Util Sds SdsText Object Client Reply.
From stdpp Require Import gmap sets.
Local Open Scope Z_scope.

Abbreviation item := (Z + addr)%type.
Definition bytes (m : list Z) : list item := inl <$> m.

Lemma bytes_app m1 m2 : bytes (m1 ++ m2) = bytes m1 ++ bytes m2.
Proof. apply fmap_app. Qed.

(** The items an object of the list stands for. *)
Definition shows_items (h : oheap) (o : addr) (l : list item) : Prop :=
  ∃ ob, h !! o = Some ob ∧ otype ob = REDIS_STRING ∧ oencoding ob = REDIS_ENCODING_RAW ∧
    match ptr ob with
    | PtrSds s => ∃ t, rep s t ∧ l = bytes t
    | PtrNull => refcount ob = 1 ∧ l = [inr o]
    | _ => False
    end.

(** References from the list and from elsewhere. *)
Definition refs (l : list addr) (o : addr) : Z := len (filter (λ a, a = o) l).

Definition counted (ext : addr → Z) (h : oheap) (l : list addr) : Prop :=
  ∀ o, match h !! o with
       | Some ob => 0 ≤ ext o ∧ 1 ≤ refcount ob ∧ refcount ob = ext o + refs l o
       | None => ext o = 0 ∧ refs l o = 0
       end.

(** The other holders see no change. *)
Definition keeps (ext : addr → Z) (h h' : oheap) : Prop :=
  ∀ o, 0 < ext o → ∀ ob, h !! o = Some ob → ∃ ob', h' !! o = Some ob' ∧ otype ob' = otype ob ∧ oencoding ob' = oencoding ob ∧ ptr ob' = ptr ob.

(** Everything but the output is the same, up to the flag of a client to close;
    the write handler stays. *)
Record near (c c' : redisClient) : Prop := {
  near_in : cin c' = cin c;
  near_fd : cfd c' = cfd c;
  near_repl : replstate c' = replstate c;
  near_writable : writable (cout c) = true → writable (cout c') = true;
  near_flags : ∀ mask, Z.land mask REDIS_CLOSE_ASAP = 0 → has_flag c' mask = has_flag c mask
}.

#[export] Instance near_refl : Reflexive near.
Proof. by split. Qed.
#[export] Instance near_trans : Transitive near.
Proof. intros c1 c2 c3 [H1 H2 H3 Hw H4] [H5 H6 H7 Hw' H8]. split; [congruence..|auto|]. intros mask Hm. rewrite H8, H4; done. Qed.
#[export] Instance keeps_refl ext : Reflexive (keeps ext).
Proof. intros h o Ho ob E. by exists ob. Qed.
#[export] Instance keeps_trans ext : Transitive (keeps ext).
Proof.
  intros h1 h2 h3 H1 H2 o Ho ob E. destruct (H1 o Ho ob E) as (ob' & E' & ? & ? & ?). destruct (H2 o Ho ob' E') as (ob'' & E'' & ? & ? & ?).
  exists ob''. split; [done|]. split_and!; congruence.
Qed.

Section spec.
Context (malloc_size : sdshdr → Z).
Implicit Types (h : oheap) (c : redisClient).

Definition obj_size h (o : addr) : Z :=
  match h !! o with Some ob => match ptr ob with PtrSds s => malloc_size s | _ => 0 end | None => 0 end.
Definition list_size h (l : list addr) : Z := foldr (λ o n, obj_size h o + n) 0 l.

(** What of the front is already sent. *)
Definition sent_ok (c : redisClient) (parts : list (list item)) : Prop :=
  let o := cout c in
  0 ≤ sentlen o ∧
  if bufpos o >? 0 then sentlen o < bufpos o
  else match parts with [] => sentlen o = 0 | p :: _ => sentlen o = 0 ∨ (sentlen o < len p ∧ ∃ t, p = bytes t) end.

Record out_ok (ext : addr → Z) (h : oheap) (c : redisClient) (st : list item) : Prop := {
  out_buf : len (cbuf (cout c)) = REDIS_REPLY_CHUNK_BYTES;
  out_pos : 0 ≤ bufpos (cout c) ≤ REDIS_REPLY_CHUNK_BYTES;
  out_counted : counted ext h (reply (cout c));
  out_size : 0 ≤ list_size h (reply (cout c)) ≤ reply_bytes (cout c);
  out_stream : ∃ parts, Forall2 (shows_items h) (reply (cout c)) parts ∧ sent_ok c parts ∧
    st = drop (Z.to_nat (sentlen (cout c))) (bytes (take (Z.to_nat (bufpos (cout c))) (cbuf (cout c))) ++ concat parts)
}.

(** Space left in the count of bytes and in the list, for [k] more blocks, and
    what [k] appends take of it. *)
Definition room (k : Z) (c : redisClient) : Prop :=
  reply_bytes (cout c) + k * 2 ^ 33 < 2 ^ 63 ∧ len (reply (cout c)) + k < 2 ^ 30.
Definition grows (k : Z) (c c' : redisClient) : Prop :=
  reply_bytes (cout c') ≤ reply_bytes (cout c) + k * 2 ^ 33 ∧ len (reply (cout c')) ≤ len (reply (cout c)) + k.
End spec.

(** The client takes replies. *)
Definition accepts (ae_create : bool) (c : redisClient) : bool :=
  ((prepareClientToWrite ae_create c).2 =? REDIS_OK) && negb (has_flag c REDIS_CLOSE_AFTER_REPLY).

(** ** References *)

Lemma refs_app l1 l2 o : refs (l1 ++ l2) o = refs l1 o + refs l2 o.
Proof. unfold refs. rewrite filter_app, length_app. lia. Qed.

Lemma refs_one a o : refs [a] o = if decide (a = o) then 1 else 0.
Proof. unfold refs. rewrite filter_cons. by case_decide. Qed.

Lemma refs_nonneg l o : 0 ≤ refs l o.
Proof. unfold refs. lia. Qed.

Lemma refs_in l o : o ∈ l ↔ 0 < refs l o.
Proof.
  unfold refs. split.
  - intros Hin. destruct (filter (λ a, a = o) l) eqn:E; [|cbn; lia].
    assert (o ∈ filter (λ a, a = o) l) as Hf by (by apply list_elem_of_filter). rewrite E in Hf. by apply elem_of_nil in Hf.
  - intros Hl. destruct (filter (λ a, a = o) l) as [|a l'] eqn:E; [cbn in Hl; lia|].
    assert (a ∈ filter (λ a, a = o) l) as [-> ?]%list_elem_of_filter by (rewrite E; left). done.
Qed.

(** ** Steps that do not touch the stream *)

Section steps.
Context (junk : nat → Z) (malloc_size : sdshdr → Z) (limits : Z → obuf_limit) (unixtime : Z) (ae_create : bool).
Implicit Types (h : oheap) (c : redisClient).
#[local] Abbreviation out_ok := (out_ok malloc_size).

Lemma near_asap c : near c (freeClientAsync c).
Proof.
  unfold freeClientAsync. destruct (has_flag c REDIS_CLOSE_ASAP); [done|]. split; [done..|]. intros mask Hm.
  unfold has_flag, set_flags. cbn [cflags]. rewrite Z.land_lor_distr_l, (Z.land_comm REDIS_CLOSE_ASAP), Hm, Z.lor_0_r. done.
Qed.

Lemma async_ok c :
  reply_bytes (cout c) < 2 ^ 63 →
  ∃ c', asyncCloseClientOnOutputBufferLimitReached limits unixtime c = Some c' ∧ near c c' ∧ cout c' = cout c.
Proof.
  intros Hb. unfold asyncCloseClientOnOutputBufferLimitReached. rewrite (proj2 (Z.ltb_lt _ _)) by (unfold ULONG_MAX; lia). cbn [negb].
  destruct (_ || _); [by exists c|]. destruct (checkClientOutputBufferLimits _ _ c) as [c1 reached] eqn:E.
  assert (near c c1 ∧ cout c1 = cout c) as [Hn Ho].
  { unfold checkClientOutputBufferLimits in E. cbv zeta in E. destruct (negb _ && (_ >=? soft_limit_bytes _)); [destruct (_ =? 0)|]; injection E as <- _; by split. }
  eexists. split; [done|]. destruct reached; [|done]. split; [etrans; [done|apply near_asap]|].
  rewrite <- Ho. unfold freeClientAsync. by case_match.
Qed.

Lemma out_ok_same ext h c c' st : cout c' = cout c → out_ok ext h c st → out_ok ext h c' st.
Proof. intros E [H1 H2 H3 H4 H5]. split; unfold sent_ok in *; rewrite E; done. Qed.

Lemma out_ok_writable ext h c b st : out_ok ext h c st ↔ out_ok ext h (set_writable c b) st.
Proof. split; (intros [H1 H2 H3 H4 H5]; split; done). Qed.

Lemma prepare_ok c : ∃ b r, prepareClientToWrite ae_create c = (set_out c (mkOut (cbuf (cout c)) (bufpos (cout c)) (reply (cout c)) (reply_bytes (cout c)) (sentlen (cout c)) b), r) ∧ (writable (cout c) = true → b = true).
Proof. destruct c as [? ? ? ? ? ? ? ? [? ? ? ? ? w]]. unfold prepareClientToWrite. repeat case_match; by eexists _, _. Qed.

Lemma prepare_steps ext h c st c1 r :
  prepareClientToWrite ae_create c = (c1, r) → out_ok ext h c st →
  near c c1 ∧ out_ok ext h c1 st ∧ bufpos (cout c1) = bufpos (cout c) ∧ reply (cout c1) = reply (cout c) ∧
    reply_bytes (cout c1) = reply_bytes (cout c) ∧ cflags c1 = cflags c ∧ cbuf (cout c1) = cbuf (cout c).
Proof.
  intros E Ho. destruct (prepare_ok c) as (b & r' & E' & Hb). rewrite E' in E. injection E as <- _.
  split; [by split|]. split; [by apply (proj1 (out_ok_writable ext h c b st))|done].
Qed.

(** ** The stream under an append *)

Lemma sent_le c parts :
  len (cbuf (cout c)) = REDIS_REPLY_CHUNK_BYTES → 0 ≤ bufpos (cout c) ≤ REDIS_REPLY_CHUNK_BYTES → sent_ok c parts →
  (Z.to_nat (sentlen (cout c)) ≤ length (bytes (take (Z.to_nat (bufpos (cout c))) (cbuf (cout c))) ++ concat parts))%nat.
Proof.
  intros Hb Hp [H0 Hs]. unfold bytes. rewrite length_app, length_fmap, length_take. destruct (Z.gtb_spec (bufpos (cout c)) 0); [lia|].
  destruct parts as [|p parts]; [lia|]. cbn [concat]. rewrite length_app. destruct Hs as [|[Hs _]]; lia.
Qed.

Lemma list_size_app h l1 l2 : list_size malloc_size h (l1 ++ l2) = list_size malloc_size h l1 + list_size malloc_size h l2.
Proof. unfold list_size. induction l1 as [|o l1 IH]; cbn [app foldr]; [lia|]. rewrite IH. lia. Qed.

Lemma list_size_ext h h' l : (∀ o, o ∈ l → obj_size malloc_size h' o = obj_size malloc_size h o) → list_size malloc_size h' l = list_size malloc_size h l.
Proof.
  intros Hl. unfold list_size. induction l as [|o l IH]; [done|]. cbn [foldr]. rewrite Hl by left. rewrite IH; [done|].
  intros o' Ho'. apply Hl. by right.
Qed.

Lemma shows_ext h h' l parts :
  (∀ o, o ∈ l → h' !! o = h !! o) → Forall2 (shows_items h) l parts → Forall2 (shows_items h') l parts.
Proof.
  intros Hl Hf. induction Hf as [|o p l parts Ho Hf IH]; [constructor|]. constructor.
  - destruct Ho as (ob & E & Ho). exists ob. split; [|done]. rewrite Hl by left. done.
  - apply IH. intros o' Ho'. apply Hl. by right.
Qed.

(** Objects keep what they hold when only their counts change, holes apart. *)
Definition same_ptrs (h h' : oheap) : Prop :=
  ∀ o ob, h !! o = Some ob → ∃ ob', h' !! o = Some ob' ∧ otype ob' = otype ob ∧ oencoding ob' = oencoding ob ∧ ptr ob' = ptr ob ∧
    (ptr ob = PtrNull → refcount ob' = refcount ob).

Lemma same_ptrs_keeps ext h h' : same_ptrs h h' → keeps ext h h'.
Proof. intros Hs o _ ob Ho. destruct (Hs o ob Ho) as (ob' & ? & ? & ? & ? & _). by exists ob'. Qed.

Lemma shows_same h h' l parts : same_ptrs h h' → Forall2 (shows_items h) l parts → Forall2 (shows_items h') l parts.
Proof.
  intros Hs Hf. eapply Forall2_impl; [exact Hf|]. intros o p (ob & E & Ht & He & Hp). destruct (Hs o ob E) as (ob' & E' & Ht' & He' & Hp' & Hr').
  exists ob'. split; [done|]. rewrite Ht', He', Hp'. split_and!; [done..|]. destruct (ptr ob); [done|done| |done]. by rewrite Hr'.
Qed.

Lemma size_same h h' l : same_ptrs h h' → (∀ o, o ∈ l → is_Some (h !! o)) → list_size malloc_size h' l = list_size malloc_size h l.
Proof.
  intros Hs Hl. apply list_size_ext. intros o Ho. destruct (Hl o Ho) as [ob E]. destruct (Hs o ob E) as (ob' & E' & _ & _ & Hp & _).
  unfold obj_size. by rewrite E, E', Hp.
Qed.

Lemma shows_live h l parts o : Forall2 (shows_items h) l parts → o ∈ l → is_Some (h !! o).
Proof.
  intros Hf Ho. apply list_elem_of_lookup in Ho as [i Hi]. destruct (Forall2_lookup_l _ _ _ _ _ Hf Hi) as (p & _ & ob & E & _). by exists ob.
Qed.

(** The last object, copied if somebody else holds it. *)
Lemma dupLast_ok ext h l0 cur ob s t :
  counted ext h (l0 ++ [cur]) → h !! cur = Some ob → otype ob = REDIS_STRING → oencoding ob = REDIS_ENCODING_RAW →
  ptr ob = PtrSds s → rep s t → fits (len t) →
  ∃ h' new ob' s', dupLastObjectIfNeeded junk h (l0 ++ [cur]) = Some (h', l0 ++ [new], new) ∧
    h' !! new = Some ob' ∧ otype ob' = REDIS_STRING ∧ oencoding ob' = REDIS_ENCODING_RAW ∧ ptr ob' = PtrSds s' ∧ rep s' t ∧
    ext new = 0 ∧ refs l0 new = 0 ∧ counted ext h' (l0 ++ [new]) ∧ same_ptrs h h'.
Proof.
  intros Hc Ho Ht He Hp Hrep Hf. unfold dupLastObjectIfNeeded. rewrite last_snoc. bsimpl. rewrite Ho. bsimpl.
  pose proof (Hc cur) as Hcur. rewrite Ho in Hcur. destruct Hcur as (Hext & Hr1 & Hr). rewrite refs_app, refs_one, decide_True in Hr by done.
  pose proof (refs_nonneg l0 cur). destruct (Z.gtb_spec (refcount ob) 1) as [Hg|Hg].
  - destruct (dupStringObject_ok junk h cur t) as (new & s' & -> & Hnone & Hrep'); [exists ob; split; [done|]; by rewrite ?Hp; split_and!; [|lia|rewrite Hp]|done|by exists s, ob|].
    bsimpl. assert (new ≠ cur) as Hne by congruence. unfold decrRefCount. rewrite lookup_insert_ne by done. rewrite Ho. bsimpl.
    rewrite (proj2 (Z.leb_gt _ _)), (proj2 (Z.eqb_neq _ _)) by lia. bsimpl.
    pose proof (Hc new) as Hnew. rewrite Hnone, refs_app, refs_one, decide_False in Hnew by done. pose proof (refs_nonneg l0 new).
    eexists _, new, _, s'. split; [unfold replace_last; rewrite length_app; cbn [length]; rewrite Nat.add_sub, take_app_length; done|].
    rewrite lookup_insert_ne, lookup_insert_eq by done. split; [done|]. split_and!; try done; [lia..| |].
    + intros o. rewrite refs_app, refs_one. specialize (Hc o). rewrite refs_app, refs_one in Hc.
      destruct (decide (cur = o)) as [<- |Hn1]; [rewrite lookup_insert_eq, decide_False by done; rewrite Ho in Hc; cbn; lia|].
      rewrite lookup_insert_ne by done. destruct (decide (new = o)) as [<- |Hn2].
      * rewrite lookup_insert_eq. cbn. rewrite Hnone in Hc. lia.
      * rewrite lookup_insert_ne by done. destruct (h !! o); lia.
    + intros o ob2 Ho2. destruct (decide (o = cur)) as [-> |Hn1].
      * rewrite lookup_insert_eq. rewrite Ho in Ho2. injection Ho2 as <-. eexists. split; [done|]. cbn. split_and!; [done..|]. by rewrite Hp.
      * rewrite lookup_insert_ne by done. rewrite lookup_insert_ne by congruence. by exists ob2.
  - assert (refcount ob = 1) as E1 by lia. exists h, cur, ob, s. split; [done|]. split_and!; try done; [lia..|].
    intros o ob2 Ho2. by exists ob2.
Qed.
End steps.
