(* ===== verification/ReplyOps.v ===== *)
(** * Appending to the reply buffer

    Each function that appends puts its bytes at the end of the stream the
    buffer stands for. *)

From S2P Require Import Prelude Util Sds SdsText Object Client Reply ReplySpec.
From stdpp Require Import gmap sets.
Local Open Scope Z_scope.

Section append.
Context (junk : nat → Z) (malloc_size : sdshdr → Z) (limits : Z → obuf_limit) (unixtime : Z) (ae_create : bool).
Context (malloc_size_bound : ∀ s, 0 ≤ malloc_size s < 2 ^ 33).
Implicit Types (h : oheap) (c : redisClient).
#[local] Abbreviation out_ok := (out_ok malloc_size).

Lemma obj_size_bound h o : 0 ≤ obj_size malloc_size h o < 2 ^ 33.
Proof. unfold obj_size. destruct (h !! o) as [ob|]; [|lia]. destruct (ptr ob); try lia. apply malloc_size_bound. Qed.

Lemma list_size_nonneg h l : 0 ≤ list_size malloc_size h l.
Proof. unfold list_size. induction l as [|o l IH]; cbn [foldr]; [lia|]. pose proof (obj_size_bound h o). lia. Qed.

Lemma list_size_one h o : list_size malloc_size h [o] = obj_size malloc_size h o.
Proof. unfold list_size. cbn [foldr]. lia. Qed.

(** What an append did: bytes [m] at the end, nothing else changed. *)
Definition appended (ext : addr → Z) (h : oheap) (c : redisClient) (st : list item) (m : list item) (h' : oheap) (c' : redisClient) : Prop :=
  out_ok ext h' c' (st ++ m) ∧ near c c' ∧ keeps ext h h' ∧ grows 1 c c' ∧
  (reply (cout c) ≠ [] → reply (cout c') ≠ []) ∧ bufpos (cout c) ≤ bufpos (cout c').

Lemma drop_append {A} k (l1 l2 : list A) : (k ≤ length l1)%nat → drop k (l1 ++ l2) = drop k l1 ++ l2.
Proof. apply drop_app_le. Qed.

(** Replacing the string of the last object, which only the list holds. *)
Lemma extend_last ext h c st l0 cur parts0 t h' new ob' s1 s2 m :
  out_ok ext h c st → reply (cout c) = l0 ++ [cur] → Forall2 (shows_items h) l0 parts0 → sent_ok c (parts0 ++ [bytes t]) →
  st = drop (Z.to_nat (sentlen (cout c))) (bytes (take (Z.to_nat (bufpos (cout c))) (cbuf (cout c))) ++ concat (parts0 ++ [bytes t])) →
  same_ptrs h h' → counted ext h' (l0 ++ [new]) → h' !! new = Some ob' → otype ob' = REDIS_STRING → oencoding ob' = REDIS_ENCODING_RAW →
  ext new = 0 → refs l0 new = 0 → rep s2 (t ++ m) → obj_size malloc_size h cur = malloc_size s1 → room 1 c →
  appended ext h c st (bytes m) (<[new := set_ptr ob' (PtrSds s2)]> h')
    (set_reply_bytes (set_reply c (l0 ++ [new])) (u64 (u64 (reply_bytes (cout c) - malloc_size s1) + malloc_size s2))).
Proof.
  intros [Hb Hp Hc Hsz _] El Hf0 Hsent -> Hsame Hc' Hnew Ht He Hext Href Hrep Hs1 Hroom. unfold room in Hroom.
  assert (∀ o, o ∈ l0 → o ≠ new) as Hl0 by (intros o Ho ->; apply refs_in in Ho; lia).
  assert (∀ o, o ∈ l0 → is_Some (h !! o)) as Hlive by (intros o; by eapply shows_live).
  rewrite El, list_size_app, list_size_one, Hs1 in Hsz.
  pose proof (malloc_size_bound s1). pose proof (malloc_size_bound s2). pose proof (list_size_nonneg h l0).
  set (h2 := <[new := _]> h').
  assert (list_size malloc_size h2 l0 = list_size malloc_size h l0) as Hsz0.
  { rewrite <- (size_same malloc_size h h' l0 Hsame Hlive). apply list_size_ext. intros o Ho. unfold obj_size, h2.
    rewrite lookup_insert_ne; [done|]. by apply not_eq_sym, Hl0. }
  assert (u64 (u64 (reply_bytes (cout c) - malloc_size s1) + malloc_size s2) = reply_bytes (cout c) - malloc_size s1 + malloc_size s2) as Hu
    by (rewrite (uwrap_small 64 (reply_bytes (cout c) - malloc_size s1)) by lia; by apply uwrap_small; lia).
  assert (bytes (t ++ m) = bytes t ++ bytes m) as Hbm by apply bytes_app.
  split; [|split; [by split|split; [|split; [split; cbn; [rewrite Hu; lia|rewrite El, !length_app; cbn; lia]|split; [|cbn; lia]]]]].
  - split; cbn [cout set_reply set_reply_bytes set_out cbuf bufpos reply reply_bytes sentlen]; [done|done| | |].
    + intros o. specialize (Hc' o). destruct (decide (o = new)) as [-> |Hne]; unfold h2; [by rewrite lookup_insert_eq; rewrite Hnew in Hc'|].
      by rewrite lookup_insert_ne.
    + rewrite Hu, list_size_app, Hsz0, list_size_one. unfold obj_size, h2. rewrite lookup_insert_eq. cbn. lia.
    + exists (parts0 ++ [bytes (t ++ m)]). split; [|split].
      * apply Forall2_app; [|constructor; [|constructor]].
        -- eapply shows_ext; [|by eapply shows_same]. intros o Ho. unfold h2. rewrite lookup_insert_ne; [done|]. by apply not_eq_sym, Hl0.
        -- eexists. unfold h2. rewrite lookup_insert_eq. split; [done|]. cbn. split_and!; [done..|]. by exists (t ++ m).
      * destruct Hsent as [Hs0 Hs]. split; [done|]. cbn [cout set_reply set_reply_bytes set_out bufpos sentlen]. destruct (_ >? 0); [done|].
        destruct parts0 as [|p parts0]; [|done]. cbn [app] in *. destruct Hs as [|[Hs _]]; [by left|]. right.
        split; [rewrite Hbm, length_app; lia|by exists (t ++ m)].
      * pose proof (sent_le c _ Hb Hp Hsent) as Hle. rewrite !concat_app in *. cbn [concat] in *. rewrite !app_nil_r, Hbm in *.
        set (A := bytes (take _ _)) in *. cbn [cout set_reply set_reply_bytes set_out sentlen cbuf bufpos].
        replace (A ++ concat parts0 ++ bytes t ++ bytes m) with ((A ++ concat parts0 ++ bytes t) ++ bytes m) by (by rewrite <- !app_assoc).
        by rewrite (drop_append _ (A ++ concat parts0 ++ bytes t)).
  - intros o Ho ob E. destruct (same_ptrs_keeps ext _ _ Hsame o Ho ob E) as (ob2 & E2 & Hk). exists ob2. unfold h2. rewrite lookup_insert_ne; [done|].
    intros ->. lia.
  - intros _. cbn. by destruct l0.
Qed.

Lemma append_tail_ok ext h c st m rest n :
  out_ok ext h c st → reply (cout c) ≠ [] → n = len m → room 1 c →
  ∃ r, append_tail junk malloc_size h c (m ++ rest) n = Some r ∧
    match r with Some (h', c') => appended ext h c st (bytes m) h' c' | None => True end.
Proof.
  intros Hok Hne Hn Hroom. pose proof Hok as [Hb Hp Hc Hsz (parts & Hf & Hsent & Est)].
  destruct (reply (cout c)) as [|cur l0 _] eqn:El using rev_ind; [done|].
  apply Forall2_app_inv_l in Hf as (parts0 & p1 & Hf0 & Hf1 & ->). apply Forall2_cons_inv_l in Hf1 as (p & p' & Hcur & Hf1 & ->).
  apply Forall2_nil_inv_l in Hf1 as ->. destruct Hcur as (ob & Ho & Ht & He & Hptr).
  unfold append_tail. rewrite El, last_snoc. bsimpl. rewrite Ho. bsimpl. destruct (ptr ob) as [s|v| |] eqn:Ep; [|done| |done]; [|by exists None].
  destruct Hptr as (t & Hrep & ->). destruct (rep_read _ _ Hrep) as [_ Hlt]. rewrite Hlt.
  destruct (Z.leb_spec (len t + n) REDIS_REPLY_CHUNK_BYTES) as [Hle|]; [|by exists None]. unfold REDIS_REPLY_CHUNK_BYTES in Hle.
  destruct (dupLast_ok junk ext h l0 cur ob s t Hc Ho Ht He Ep Hrep ltac:(unfold fits; lia))
    as (h' & new & ob' & s' & -> & Hnew & Ht' & He' & Ep' & Hrep' & Hext & Href & Hc' & Hsame).
  bsimpl. rewrite Hnew. bsimpl. unfold osds. rewrite Ep'. bsimpl.
  destruct (sdscatlen_ok junk s' t m rest n Hrep' Hn) as (s2 & -> & Hrep2); [unfold fits; lia|]. bsimpl. eexists. split; [done|].
  eapply extend_last; try done. unfold obj_size. by rewrite Ho, Ep.
Qed.

Lemma buffer_ok ext h c st m rest n :
  out_ok ext h c st → n = len m → has_flag c REDIS_CLOSE_AFTER_REPLY = false →
  (∃ c', _addReplyToBuffer c (m ++ rest) n = Some (c', REDIS_OK) ∧ appended ext h c st (bytes m) h c') ∨
  _addReplyToBuffer c (m ++ rest) n = Some (c, REDIS_ERR).
Proof.
  intros Hok -> Hfl. pose proof Hok as [Hb Hp Hc Hsz (parts & Hf & Hsent & ->)]. unfold _addReplyToBuffer. rewrite Hfl. cbn zeta.
  destruct (reply (cout c)) as [|o l] eqn:El; [|by right]. change (len [] >? 0) with false. cbv iota.
  apply Forall2_nil_inv_l in Hf as ->. cbn [concat]. rewrite app_nil_r. unfold REDIS_REPLY_CHUNK_BYTES in Hp. rewrite uwrap_small by (unfold REDIS_REPLY_CHUNK_BYTES; lia).
  destruct (Z.gtb_spec (len m) (REDIS_REPLY_CHUNK_BYTES - bufpos (cout c))) as [|Hm]; [by right|left]. unfold REDIS_REPLY_CHUNK_BYTES in Hm, Hb.
  set (p := bufpos (cout c)) in *. set (b := cbuf (cout c)) in *.
  assert (memcpy b (m ++ rest) p 0 (len m) = Some (take (Z.to_nat p) b ++ m ++ drop (Z.to_nat p + length m) b)) as ->.
  { rewrite <- (take_drop (Z.to_nat p) b) at 1. rewrite <- (take_drop (length m) (drop (Z.to_nat p) b)) at 1. rewrite drop_drop.
    apply memcpy_app; [rewrite length_take; lia|done|rewrite length_take, length_drop; lia]. }
  bsimpl. rewrite swrap_small by lia. eexists. split; [done|].
  assert (len (take (Z.to_nat p) b ++ m ++ drop (Z.to_nat p + length m) b) = 16 * 1024) as Hl
    by (rewrite !length_app, length_take, length_drop; lia).
  assert (take (Z.to_nat (p + len m)) (take (Z.to_nat p) b ++ m ++ drop (Z.to_nat p + length m) b) = take (Z.to_nat p) b ++ m) as Htk.
  { rewrite (app_assoc (take _ _)). apply take_app_length'. rewrite length_app, length_take. lia. }
  assert (Z.to_nat (sentlen (cout c)) ≤ length (bytes (take (Z.to_nat p) b)))%nat as Hle.
  { pose proof (sent_le c [] Hb ltac:(unfold REDIS_REPLY_CHUNK_BYTES; lia) Hsent) as Hle. cbn [concat] in Hle. by rewrite app_nil_r in Hle. }
  split; [|split; [by split|split; [done|split; [split; cbn; lia|split; [done|cbn; lia]]]]].
  split; cbn [cout set_static set_out cbuf bufpos reply reply_bytes sentlen]; fold p b; rewrite ?El; [done|unfold REDIS_REPLY_CHUNK_BYTES; lia|done|done|].
  exists []. split; [constructor|]. split.
  - destruct Hsent as [Hs0 Hs]. split; [done|]. cbn [cout set_static set_out bufpos sentlen]. fold p in Hs |- *.
    destruct (Z.gtb_spec (p + len m) 0); destruct (Z.gtb_spec p 0); lia.
  - rewrite Htk. cbn [concat]. rewrite app_nil_r, bytes_app. symmetry. by apply drop_append.
Qed.

(** A node at the tail, for an object the list now holds too. *)
Lemma node_ok ext h h' c st o ob s m :
  out_ok ext h c st → h' !! o = Some ob → otype ob = REDIS_STRING → oencoding ob = REDIS_ENCODING_RAW → ptr ob = PtrSds s → rep s m →
  same_ptrs h h' → counted ext h' (reply (cout c) ++ [o]) → room 1 c →
  appended ext h c st (bytes m) h' (add_node malloc_size c o s).
Proof.
  intros [Hb Hp Hc Hsz (parts & Hf & Hsent & ->)] Ho Ht He Hptr Hrep Hsame Hc' Hroom. unfold room in Hroom.
  pose proof (malloc_size_bound s). assert (obj_size malloc_size h' o = malloc_size s) as Hos by (unfold obj_size; by rewrite Ho, Hptr).
  pose proof (size_same malloc_size h h' (reply (cout c)) Hsame ltac:(intros a; by eapply shows_live)) as Hsz'.
  assert (u64 (reply_bytes (cout c) + malloc_size s) = reply_bytes (cout c) + malloc_size s) as Hu by (apply uwrap_small; lia).
  split; [|split; [by split|split; [by apply same_ptrs_keeps|split; [split; cbn; [rewrite Hu; lia|rewrite length_app; cbn; lia]|split; [intros _; cbn; by destruct (reply (cout c))|cbn; lia]]]]].
  split; cbn [cout add_node set_reply set_reply_bytes set_out cbuf bufpos reply reply_bytes sentlen]; [done..| |].
  - rewrite Hu, list_size_app, list_size_one, Hsz', Hos. lia.
  - exists (parts ++ [bytes m]). split; [|split].
    + apply Forall2_app; [by eapply shows_same|]. constructor; [|constructor]. exists ob. rewrite Hptr. split_and!; try done. by exists m.
    + destruct Hsent as [Hs0 Hs]. split; [done|]. cbn [cout set_reply set_reply_bytes set_out add_node bufpos sentlen]. destruct (_ >? 0); [done|].
      destruct parts as [|p parts]; [by left|done].
    + pose proof (sent_le c _ Hb Hp Hsent) as Hle. rewrite concat_app. cbn [concat]. rewrite app_nil_r, app_assoc. symmetry. by apply drop_append.
Qed.

(** The object of the caller takes one more reference. *)
Lemma incr_node ext h c st o ob s m :
  out_ok ext h c st → h !! o = Some ob → otype ob = REDIS_STRING → oencoding ob = REDIS_ENCODING_RAW → ptr ob = PtrSds s → rep s m →
  refcount ob < 2 ^ 31 - 1 → room 1 c →
  ∃ h', incrRefCount h o = Some h' ∧ appended ext h c st (bytes m) h' (add_node malloc_size c o s).
Proof.
  intros Hok Ho Ht He Hptr Hrep Hr Hroom. unfold incrRefCount. rewrite Ho. bsimpl.
  pose proof (out_counted _ _ _ _ _ Hok) as Hc. pose proof (Hc o) as Hco. rewrite Ho in Hco.
  eexists. split; [done|]. rewrite swrap_small by lia. eapply (node_ok _ _ _ _ _ _ (set_refcount ob (refcount ob + 1))); try done.
  - by rewrite lookup_insert_eq.
  - intros a oa Ha. destruct (decide (a = o)) as [-> |Hne]; [|rewrite lookup_insert_ne by done; by exists oa].
    rewrite lookup_insert_eq. rewrite Ho in Ha. injection Ha as <-. eexists. split; [done|]. cbn. split_and!; [done..|]. by rewrite Hptr.
  - intros a. rewrite refs_app, refs_one. specialize (Hc a). destruct (decide (o = a)) as [<- |Hne].
    + rewrite lookup_insert_eq. rewrite Ho in Hc. cbn. lia.
    + rewrite lookup_insert_ne by done. destruct (h !! a); lia.
Qed.

(** A new object nobody else holds. *)
Lemma fresh_node ext h c st o s m :
  out_ok ext h c st → h !! o = None → rep s m → room 1 c →
  appended ext h c st (bytes m) (<[o := mkObj REDIS_STRING REDIS_ENCODING_RAW 1 (PtrSds s)]> h) (add_node malloc_size c o s).
Proof.
  intros Hok Hn Hrep Hroom. pose proof (out_counted _ _ _ _ _ Hok) as Hc.
  eapply (node_ok _ _ _ _ _ _ (mkObj REDIS_STRING REDIS_ENCODING_RAW 1 (PtrSds s))); try done.
  - by rewrite lookup_insert_eq.
  - intros a oa Ha. rewrite lookup_insert_ne by congruence. by exists oa.
  - intros a. rewrite refs_app, refs_one. specialize (Hc a). destruct (decide (o = a)) as [<- |Hne].
    + rewrite lookup_insert_eq. rewrite Hn in Hc. cbn. lia.
    + rewrite lookup_insert_ne by done. destruct (h !! a); lia.
Qed.

(** What follows a change of the list: the limits are checked. *)
Lemma appended_async ext h c st m h' c' :
  appended ext h c st m h' c' → room 1 c →
  ∃ c'', asyncCloseClientOnOutputBufferLimitReached limits unixtime c' = Some c'' ∧ appended ext h c st m h' c''.
Proof.
  intros (Hok & Hn & Hk & [Hr Hl] & Hne & Hbp) [Hroom _].
  destruct (async_ok limits unixtime c') as (c'' & -> & Hn' & Hout); [lia|].
  exists c''. split; [done|]. split; [by eapply out_ok_same|]. split; [by etrans|]. unfold grows. by rewrite Hout.
Qed.

(** ** The calls of the commands *)

(** The bytes [m] are emitted if the client takes replies, by [k] appends. *)
Definition emits (k : Z) (ext : addr → Z) (h : oheap) (c : redisClient) (st : list item) (m : list item) (r : option (oheap * redisClient)) : Prop :=
  ∃ h' c', r = Some (h', c') ∧ out_ok ext h' c' (st ++ if accepts ae_create c then m else []) ∧ near c c' ∧ keeps ext h h' ∧
    accepts ae_create c' = accepts ae_create c ∧ grows k c c' ∧ (writable (cout (prepareClientToWrite ae_create c).1) = true → writable (cout c') = true).

Lemma accepts_mono c c' :
  near c c' → (reply (cout c) ≠ [] → reply (cout c') ≠ []) → 0 ≤ bufpos (cout c) ≤ bufpos (cout c') →
  accepts ae_create c = true → accepts ae_create c' = true.
Proof.
  intros [_ Hfd Hrs _ Hfl] Hl Hp. unfold accepts, prepareClientToWrite. rewrite !Hfl, Hfd, Hrs by reflexivity.
  rewrite !andb_true_iff. intros [Hr ->]. split; [|done].
  destruct (has_flag c REDIS_LUA_CLIENT); [done|]. destruct (_ && _); [done|]. destruct (_ <=? 0); [done|].
  destruct (bufpos (cout c') =? 0) eqn:E1; [|done]. destruct (len (reply (cout c')) =? 0) eqn:E2; [|done]. cbn [andb].
  apply Z.eqb_eq in E1, E2. assert (bufpos (cout c) = 0) as E0 by lia. rewrite E0 in Hr. destruct (reply (cout c)) as [|x l] eqn:El.
  - change (len [] =? 0) with true in Hr. cbn [Z.eqb andb] in Hr. destruct (_ || _); [|done]. by destruct ae_create.
  - destruct (reply (cout c')); [|cbn in E2; lia]. by destruct Hl.
Qed.

Lemma appended_accepts ext h c st m h' c' :
  0 ≤ bufpos (cout c) → accepts ae_create c = true → appended ext h c st m h' c' → accepts ae_create c' = true.
Proof. intros Hp Ha (_ & Hn & _ & _ & Hl & Hbp). by eapply accepts_mono. Qed.

(** What the part common to all of them leaves. *)
Lemma emits_case ext h c st m c1 ok r :
  out_ok ext h c st → prepareClientToWrite ae_create c = (c1, ok) →
  (ok = REDIS_OK → has_flag c1 REDIS_CLOSE_AFTER_REPLY = true → r = Some (h, c1)) →
  (ok ≠ REDIS_OK → r = Some (h, c1)) →
  (ok = REDIS_OK → has_flag c1 REDIS_CLOSE_AFTER_REPLY = false → out_ok ext h c1 st → ∃ h' c', r = Some (h', c') ∧ appended ext h c1 st m h' c') →
  emits 1 ext h c st m r.
Proof.
  intros Hok Hprep Hclose Herr Hrun. destruct (prepare_steps malloc_size ae_create ext h c st c1 ok Hprep Hok) as (Hn & Hok1 & Hbp & Hl & Hrb & Hfl & _).
  assert (has_flag c1 REDIS_CLOSE_AFTER_REPLY = has_flag c REDIS_CLOSE_AFTER_REPLY) as Hf by (unfold has_flag; by rewrite Hfl).
  assert (∀ b, accepts ae_create c = b → accepts ae_create c1 = b) as Hacc.
  { intros b <-. unfold accepts at 2. rewrite Hprep. cbn [snd]. rewrite <- Hf. destruct (Z.eqb_spec ok REDIS_OK) as [E|E]; cbn [andb].
    - destruct (has_flag c1 REDIS_CLOSE_AFTER_REPLY) eqn:Ef; cbn [negb]; [unfold accepts; by rewrite Ef, andb_false_r|].
      eapply accepts_mono; [exact Hn|by rewrite Hl|rewrite Hbp; pose proof (out_pos _ _ _ _ _ Hok); lia|].
      unfold accepts. rewrite Hprep. cbn [snd]. by rewrite E, <- Hf.
    - assert (c1 = c) as -> by (unfold prepareClientToWrite in Hprep; repeat case_match; by injection Hprep as <- <-).
      unfold accepts. rewrite Hprep. cbn [snd]. by rewrite (proj2 (Z.eqb_neq _ _) E). }
  assert (accepts ae_create c = false → r = Some (h, c1) → emits 1 ext h c st m r) as Hno.
  { intros Ha ->. exists h, c1. split; [done|]. rewrite Ha, app_nil_r. unfold grows. rewrite Hprep, Hrb, Hl. split_and!; try done; [by apply Hacc|lia..]. }
  unfold accepts in Hno at 1. rewrite Hprep, <- Hf in Hno. cbn [snd] in Hno.
  destruct (Z.eqb_spec ok REDIS_OK) as [E|E]; [|by apply Hno, Herr].
  destruct (has_flag c1 REDIS_CLOSE_AFTER_REPLY) eqn:Ef; [by apply Hno, Hclose|].
  destruct (Hrun E eq_refl Hok1) as (h' & c' & -> & Happ). exists h', c'. split; [done|].
  assert (accepts ae_create c = true) as Ha by (unfold accepts; by rewrite Hprep, E, <- Hf).
  pose proof (appended_accepts ext h c1 st m h' c' ltac:(rewrite Hbp; pose proof (out_pos _ _ _ _ _ Hok); lia) (Hacc _ Ha) Happ) as Ha'.
  destruct Happ as (H1 & H2 & H3 & [H4 H5] & _). rewrite Ha. split; [done|]. split; [by etrans|]. split; [done|]. split; [done|].
  rewrite Hprep. split; [split; [lia|rewrite Hl in H5; lia]|by apply (near_writable _ _ H2)].
Qed.

Lemma room_same c c1 : reply_bytes (cout c1) = reply_bytes (cout c) → reply (cout c1) = reply (cout c) → room 1 c → room 1 c1.
Proof. unfold room. by intros -> ->. Qed.

Lemma list_nil_len (l : list addr) : (len l =? 0) = bool_decide (l = []).
Proof. by destruct l. Qed.

(** The tail or a new node, then the limits. *)
Lemma to_list_ok ext h c st m rest (mk : oheap → redisClient → option (oheap * redisClient)) :
  out_ok ext h c st → room 1 c →
  (∃ h' c', mk h c = Some (h', c') ∧ appended ext h c st (bytes m) h' c') →
  ∃ r, (if len (reply (cout c)) =? 0 then Some None else append_tail junk malloc_size h c (m ++ rest) (len m)) = Some r ∧
    ∃ h' c' c'', match r with Some r => Some r | None => mk h c end = Some (h', c') ∧
      asyncCloseClientOnOutputBufferLimitReached limits unixtime c' = Some c'' ∧ appended ext h c st (bytes m) h' c''.
Proof.
  intros Hok Hroom (h1 & c1 & Hmk & Happ). rewrite list_nil_len.
  assert (∃ r, (if bool_decide (reply (cout c) = []) then Some None else append_tail junk malloc_size h c (m ++ rest) (len m)) = Some r ∧
    match r with Some (h', c') => appended ext h c st (bytes m) h' c' | None => True end) as (r & -> & Hr).
  { case_bool_decide as E; [by exists None|]. by eapply append_tail_ok. }
  exists r. split; [done|]. destruct r as [[h' c']|].
  - destruct (appended_async _ _ _ _ _ _ _ Hr Hroom) as (c'' & ? & ?). by exists h', c', c''.
  - destruct (appended_async _ _ _ _ _ _ _ Happ Hroom) as (c'' & ? & ?). by exists h1, c1, c''.
Qed.

Lemma _addReplyStringToList_ok ext h c st m rest :
  out_ok ext h c st → room 1 c → fits (len m) → has_flag c REDIS_CLOSE_AFTER_REPLY = false →
  ∃ h' c', _addReplyStringToList junk malloc_size limits unixtime h c (m ++ rest) (len m) = Some (h', c') ∧ appended ext h c st (bytes m) h' c'.
Proof.
  intros Hok Hroom Hf Hfl. unfold _addReplyStringToList. rewrite Hfl.
  destruct (createStringObject_ok junk h m rest (len m) eq_refl Hf) as (o & s & Ecr & Hnone & Hrep).
  destruct (to_list_ok ext h c st m rest (λ h c, '(h, o) ← createStringObject junk h (m ++ rest) (len m); ob ← h !! o; s ← osds ob; Some (h, add_node malloc_size c o s)) Hok Hroom)
    as (r & -> & h' & c' & c'' & Er & Ea & Happ).
  { rewrite Ecr. bsimpl. rewrite lookup_insert_eq. bsimpl. eexists _, _. split; [done|]. by apply fresh_node. }
  bsimpl. bsimpl in Er. rewrite Er. bsimpl. rewrite Ea. bsimpl. by exists h', c''.
Qed.

Lemma addReplyString_ok ext h c st m rest :
  out_ok ext h c st → room 1 c → fits (len m) →
  emits 1 ext h c st (bytes m) (addReplyString junk malloc_size limits unixtime ae_create h c (m ++ rest) (len m)).
Proof.
  intros Hok Hroom Hf. unfold addReplyString. destruct (prepareClientToWrite ae_create c) as [c1 ok] eqn:Hprep.
  destruct (prepare_steps malloc_size ae_create ext h c st c1 ok Hprep Hok) as (_ & _ & _ & Hrl & Hrb & _).
  apply (room_same _ _ Hrb Hrl) in Hroom. eapply emits_case; [done|exact Hprep| | |].
  - intros -> Hfl. unfold _addReplyToBuffer. rewrite Hfl. done.
  - intros Hne. by rewrite (proj2 (Z.eqb_neq _ _) Hne).
  - intros -> Hfl Hok1. change (negb (REDIS_OK =? REDIS_OK)) with false. cbv iota.
    destruct (buffer_ok ext h c1 st m rest (len m) Hok1 eq_refl Hfl) as [(c' & -> & Happ)| ->]; bsimpl; [by exists h, c'|].
    change (negb (REDIS_ERR =? REDIS_OK)) with true. cbv iota. by apply _addReplyStringToList_ok.
Qed.

Lemma rep_buf s m : rep s m → ∃ r, buf s = m ++ 0 :: r ∧ sdslen s = len m.
Proof. intros (r & -> & _). by exists r. Qed.

Lemma addReplySds_ok ext h c st s m :
  out_ok ext h c st → room 1 c → rep s m →
  emits 1 ext h c st (bytes m) (addReplySds junk malloc_size limits unixtime ae_create h c s).
Proof.
  intros Hok Hroom Hrep. destruct (rep_buf s m Hrep) as (rest & Eb & El). unfold addReplySds.
  destruct (prepareClientToWrite ae_create c) as [c1 ok] eqn:Hprep.
  destruct (prepare_steps malloc_size ae_create ext h c st c1 ok Hprep Hok) as (_ & _ & _ & Hrl & Hrb & _).
  apply (room_same _ _ Hrb Hrl) in Hroom. rewrite Eb, El. eapply emits_case; [done|exact Hprep| | |].
  - intros -> Hfl. unfold _addReplyToBuffer. by rewrite Hfl.
  - intros Hne. by rewrite (proj2 (Z.eqb_neq _ _) Hne).
  - intros -> Hfl Hok1. change (negb (REDIS_OK =? REDIS_OK)) with false. cbv iota.
    destruct (buffer_ok ext h c1 st m (0 :: rest) (len m) Hok1 eq_refl Hfl) as [(c' & -> & Happ)| ->]; bsimpl; [by exists h, c'|].
    change (REDIS_ERR =? REDIS_OK) with false. cbv iota. unfold _addReplySdsToList. rewrite Hfl, Eb, El.
    set (mk := λ h c, let '(h, o) := createObject h REDIS_STRING (PtrSds s) in Some (h, add_node malloc_size c o s)).
    destruct (to_list_ok ext h c1 st m (0 :: rest) mk Hok1 Hroom) as (r & -> & h' & c' & c'' & Er & Ea & Happ).
    { eexists _, _. split; [done|]. apply fresh_node; [done| |done|done]. apply not_elem_of_dom, is_fresh. }
    bsimpl. exists h', c''. split; [|done]. destruct r as [[h2 c2]|]; cbn in Er |- *; injection Er as -> ->; by rewrite Ea.
Qed.

Lemma _addReplyObjectToList_ok ext h c st o ob s m :
  out_ok ext h c st → room 1 c → h !! o = Some ob → otype ob = REDIS_STRING → oencoding ob = REDIS_ENCODING_RAW →
  ptr ob = PtrSds s → rep s m → refcount ob < 2 ^ 31 - 1 → has_flag c REDIS_CLOSE_AFTER_REPLY = false →
  ∃ h' c', _addReplyObjectToList junk malloc_size limits unixtime h c o = Some (h', c') ∧ appended ext h c st (bytes m) h' c'.
Proof.
  intros Hok Hroom Ho Ht He Hptr Hrep Hr Hfl. destruct (rep_buf s m Hrep) as (rest & Eb & El). unfold _addReplyObjectToList, osds.
  rewrite Hfl, Ho. bsimpl. rewrite Hptr. bsimpl. rewrite Eb, El.
  destruct (incr_node ext h c st o ob s m Hok Ho Ht He Hptr Hrep Hr Hroom) as (h1 & Einc & Happ1).
  destruct (to_list_ok ext h c st m (0 :: rest) (λ h c, h ← incrRefCount h o; Some (h, add_node malloc_size c o s)) Hok Hroom)
    as (r & -> & h' & c' & c'' & Er & Ea & Happ).
  { rewrite Einc. bsimpl. by eexists _, _. }
  bsimpl. bsimpl in Er. rewrite Er. bsimpl. rewrite Ea. bsimpl. by exists h', c''.
Qed.

Lemma addReply_raw_ok ext h c st o ob s m :
  out_ok ext h c st → room 1 c → h !! o = Some ob → otype ob = REDIS_STRING → oencoding ob = REDIS_ENCODING_RAW →
  ptr ob = PtrSds s → rep s m → refcount ob < 2 ^ 31 - 1 →
  emits 1 ext h c st (bytes m) (addReply junk malloc_size limits unixtime ae_create h c o).
Proof.
  intros Hok Hroom Ho Ht He Hptr Hrep Hr. destruct (rep_buf s m Hrep) as (rest & Eb & El). unfold addReply.
  destruct (prepareClientToWrite ae_create c) as [c1 ok] eqn:Hprep.
  destruct (prepare_steps malloc_size ae_create ext h c st c1 ok Hprep Hok) as (_ & _ & _ & Hrl & Hrb & _).
  apply (room_same _ _ Hrb Hrl) in Hroom. rewrite Ho. bsimpl. unfold osds. rewrite Hptr, (proj2 (Z.eqb_eq _ _) He). bsimpl. rewrite Eb, El.
  eapply emits_case; [done|exact Hprep| | |].
  - intros -> Hfl. unfold _addReplyToBuffer. by rewrite Hfl.
  - intros Hne. by rewrite (proj2 (Z.eqb_neq _ _) Hne).
  - intros -> Hfl Hok1. change (negb (REDIS_OK =? REDIS_OK)) with false. cbv iota.
    destruct (buffer_ok ext h c1 st m (0 :: rest) (len m) Hok1 eq_refl Hfl) as [(c' & -> & Happ)| ->]; bsimpl; [by exists h, c'|].
    change (negb (REDIS_ERR =? REDIS_OK)) with true. cbv iota. by eapply _addReplyObjectToList_ok.
Qed.

(** ** Sequences of replies *)

Lemma emits_bind k1 k2 ext h c st m1 m2 r f :
  emits k1 ext h c st m1 r →
  (∀ h' c' st', out_ok ext h' c' st' → near c c' → keeps ext h h' → grows k1 c c' →
     emits k2 ext h' c' st' m2 (f h' c')) →
  emits (k1 + k2) ext h c st (m1 ++ m2) (r ≫= λ '(h, c), f h c).
Proof.
  intros (h1 & c1 & -> & Hok & Hn & Hk & Ha & Hrb & Hw) Hnext. destruct (Hnext h1 c1 _ Hok Hn Hk Hrb) as (h2 & c2 & E & Hok2 & Hn2 & Hk2 & Ha2 & Hrb2 & _).
  bsimpl. exists h2, c2. split; [done|]. split; [|split; [by etrans|split; [by etrans|split; [congruence|split; [unfold grows in *; lia|]]]]].
  2:{ intros Hp. by apply (near_writable _ _ Hn2), Hw. }
 
  rewrite Ha, <- app_assoc in Hok2. by destruct (accepts ae_create c).
Qed.

Lemma room_step k1 k2 c c' :
  room (k1 + k2) c → grows k1 c c' → room k2 c'.
Proof. unfold room, grows. lia. Qed.
Lemma room_mono k c : 1 ≤ k → room k c → room 1 c.
Proof. unfold room. lia. Qed.

(** Three strings, as in errors and status replies. *)
Lemma three_strings_ok ext h c st m1 m2 r2 m3 :
  out_ok ext h c st → room 3 c → fits (len m1) → fits (len m2) → fits (len m3) →
  emits 3 ext h c st (bytes (m1 ++ m2 ++ m3))
    ('(h, c) ← addReplyString junk malloc_size limits unixtime ae_create h c m1 (len m1);
     '(h, c) ← addReplyString junk malloc_size limits unixtime ae_create h c (m2 ++ r2) (len m2);
     addReplyString junk malloc_size limits unixtime ae_create h c m3 (len m3)).
Proof.
  intros Hok Hroom H1 H2 H3. rewrite !bytes_app. change 3 with (1 + (1 + 1)).
  assert (∀ h c st m, out_ok ext h c st → room 1 c → fits (len m) →
    emits 1 ext h c st (bytes m) (addReplyString junk malloc_size limits unixtime ae_create h c m (len m))) as Hone.
  { intros h' c' st' m Ho Hr Hm. rewrite <- (app_nil_r m) at 2. by apply addReplyString_ok. }
  change 3 with (1 + (1 + 1)) in Hroom.
  eapply emits_bind; [apply Hone; [done|by eapply (room_mono 3)|done]|]. intros h1 c1 st1 Hok1 _ _ Hb1. pose proof (room_step _ _ _ _ Hroom Hb1) as Hroom1.
  eapply emits_bind; [apply addReplyString_ok; [done|by eapply (room_mono 2)|done]|]. intros h2 c2 st2 Hok2 _ _ Hb2.
  apply Hone; [done|by eapply room_step|done].
Qed.

Lemma addReplyErrorLength_ok ext h c st m rest :
  out_ok ext h c st → room 3 c → fits (len m) →
  emits 3 ext h c st (bytes (str "-ERR " ++ m ++ [13; 10])) (addReplyErrorLength junk malloc_size limits unixtime ae_create h c (m ++ rest) (len m)).
Proof. intros Hok Hroom Hm. by apply (three_strings_ok ext h c st (str "-ERR ") m rest [13; 10]). Qed.

Lemma addReplyError_ok ext h c st m rest :
  out_ok ext h c st → room 3 c → fits (len m) → Forall (λ x, x ≠ 0) m →
  emits 3 ext h c st (bytes (str "-ERR " ++ m ++ [13; 10])) (addReplyError junk malloc_size limits unixtime ae_create h c (m ++ 0 :: rest)).
Proof. intros Hok Hroom Hm Hnz. unfold addReplyError. rewrite strlen_ok by done. bsimpl. by apply addReplyErrorLength_ok. Qed.

Lemma addReplyStatusLength_ok ext h c st m rest :
  out_ok ext h c st → room 3 c → fits (len m) →
  emits 3 ext h c st (bytes (str "+" ++ m ++ [13; 10])) (addReplyStatusLength junk malloc_size limits unixtime ae_create h c (m ++ rest) (len m)).
Proof. intros Hok Hroom Hm. by apply (three_strings_ok ext h c st (str "+") m rest [13; 10]). Qed.

(** ** Objects of the caller *)

Lemma refs_le l o : refs l o ≤ len l.
Proof. unfold refs. pose proof (length_filter (λ a, a = o) l). lia. Qed.

Lemma refcount_bound ext h c st o ob :
  out_ok ext h c st → room 1 c → h !! o = Some ob → ext o < 2 ^ 30 → refcount ob < 2 ^ 31 - 1.
Proof.
  intros Hok [_ Hl] Ho He. pose proof (out_counted _ _ _ _ _ Hok o) as Hc. rewrite Ho in Hc. pose proof (refs_le (reply (cout c)) o). lia.
Qed.

(** One more holder of a new object, and one less. *)
Definition plus_one (ext : addr → Z) (o : addr) : addr → Z := λ a, if decide (a = o) then 1 else ext a.

Lemma out_ok_new ext h c st o s :
  out_ok ext h c st → h !! o = None →
  out_ok (plus_one ext o) (<[o := mkObj REDIS_STRING REDIS_ENCODING_RAW 1 (PtrSds s)]> h) c st.
Proof.
  intros [Hb Hp Hc Hsz (parts & Hf & Hsent & Est)] Hn.
  assert (∀ a, a ∈ reply (cout c) → <[o := mkObj REDIS_STRING REDIS_ENCODING_RAW 1 (PtrSds s)]> h !! a = h !! a) as Hl.
  { intros a Ha. destruct (shows_live _ _ _ _ Hf Ha) as [ob E]. rewrite lookup_insert_ne; [done|congruence]. }
  split; [done|done| | |].
  - intros a. specialize (Hc a). unfold plus_one. destruct (decide (a = o)) as [-> |Hne].
    + rewrite lookup_insert_eq. rewrite Hn in Hc. cbn. lia.
    + by rewrite lookup_insert_ne.
  - rewrite (list_size_ext _ h); [done|]. intros a Ha. unfold obj_size. by rewrite Hl.
  - exists parts. split; [by eapply shows_ext|done].
Qed.

Lemma out_ok_drop ext h c st o ob s :
  out_ok (plus_one ext o) h c st → h !! o = Some ob → otype ob = REDIS_STRING → ptr ob = PtrSds s → ext o = 0 →
  ∃ h', decrRefCount h o = Some h' ∧ out_ok ext h' c st ∧ keeps ext h h'.
Proof.
  intros [Hb Hp Hc Hsz (parts & Hf & Hsent & Est)] Ho Ht Hptr Hext. pose proof (Hc o) as Hco. rewrite Ho in Hco. unfold plus_one in Hco. rewrite decide_True in Hco by done.
  unfold decrRefCount. rewrite Ho. bsimpl. rewrite (proj2 (Z.leb_gt _ _)) by lia. rewrite Ht. cbn [Z.leb Z.compare andb REDIS_STRING].
  destruct (Z.eqb_spec (refcount ob) 1) as [E1|E1].
  - eexists. split; [done|]. assert (∀ a, a ∈ reply (cout c) → delete o h !! a = h !! a) as Hl.
    { intros a Ha. rewrite lookup_delete_ne; [done|]. intros <-. apply refs_in in Ha. lia. }
    split; [split; [done|done| | |]|].
    + intros a. specialize (Hc a). unfold plus_one in Hc. destruct (decide (a = o)) as [-> |Hne].
      * rewrite lookup_delete_eq. lia.
      * by rewrite lookup_delete_ne.
    + rewrite (list_size_ext _ h); [done|]. intros a Ha. unfold obj_size. by rewrite Hl.
    + exists parts. split; [by eapply shows_ext|done].
    + intros a Ha oa E. exists oa. rewrite lookup_delete_ne; [done|]. intros ->. lia.
  - eexists. split; [done|].
    assert (same_ptrs h (<[o := set_refcount ob (refcount ob - 1)]> h)) as Hsame.
    { intros a oa E. destruct (decide (a = o)) as [-> |Hne]; [|rewrite lookup_insert_ne by done; by exists oa].
      rewrite lookup_insert_eq. rewrite Ho in E. injection E as <-. eexists. split; [done|]. cbn. by rewrite Hptr. }
    split; [split; [done|done| | |]|by apply same_ptrs_keeps].
    + intros a. specialize (Hc a). unfold plus_one in Hc. destruct (decide (a = o)) as [-> |Hne].
      * rewrite lookup_insert_eq. rewrite Ho in Hc. cbn. lia.
      * by rewrite lookup_insert_ne.
    + rewrite (size_same _ h); [done|done|]. intros a. by eapply shows_live.
    + exists parts. split; [by eapply shows_same|done].
Qed.

Lemma appended_drop ext h c st o s m h' c' :
  h !! o = None → out_ok ext h c st →
  appended (plus_one ext o) (<[o := mkObj REDIS_STRING REDIS_ENCODING_RAW 1 (PtrSds s)]> h) c st m h' c' →
  ∃ h'', decrRefCount h' o = Some h'' ∧ appended ext h c st m h'' c'.
Proof.
  intros Hn Hok0 (Hok & Hnr & Hk & Hrest). pose proof (out_counted _ _ _ _ _ Hok0 o) as He. rewrite Hn in He.
  destruct (Hk o) with (ob := mkObj REDIS_STRING REDIS_ENCODING_RAW 1 (PtrSds s)) as (ob & Ho & Ht & _ & Hp);
    [unfold plus_one; by rewrite decide_True|by rewrite lookup_insert_eq|].
  destruct (out_ok_drop ext h' c' _ o ob s Hok Ho Ht Hp ltac:(lia)) as (h'' & E & Hok' & Hk'). exists h''. split; [done|].
  split; [done|]. split; [done|]. split; [|done]. intros a Ha oa Ea.
  assert (a ≠ o) as Hne by (intros ->; lia).
  destruct (Hk a) with (ob := oa) as (ob1 & E1 & Ht1 & He1 & Hp1); [unfold plus_one; by rewrite decide_False|by rewrite lookup_insert_ne|].
  destruct (Hk' a Ha ob1 E1) as (ob2 & E2 & ? & ? & ?). exists ob2. split; [done|]. split_and!; congruence.
Qed.

Lemma addReply_decoded_ok ext h c st o ob v m :
  out_ok ext h c st → room 1 c → h !! o = Some ob → obj_says ob m → ptr ob = PtrLong v → ext o < 2 ^ 30 →
  ∃ h' c', addReply_decoded junk malloc_size limits unixtime h c o = Some (h', c') ∧
    if has_flag c REDIS_CLOSE_AFTER_REPLY then h' = h ∧ c' = c else appended ext h c st (bytes m) h' c'.
Proof.
  intros Hok Hroom Ho Hs Ep Hext. pose proof (refcount_bound ext h c st o ob Hok Hroom Ho Hext) as Hrc.
  destruct (getDecodedObject_ok junk h o m ob Ho Hs Hrc) as (h1 & o1 & s & n & Edec & Hrep & -> & Hcase).
  destruct Hcase as [(_ & _ & E)|[Hnone ->]]; [congruence|]. destruct (rep_buf s m Hrep) as (rest & Eb & El).
  unfold addReply_decoded. rewrite Edec. bsimpl. rewrite lookup_insert_eq. bsimpl. unfold osds at 1. cbn [ptr]. bsimpl. rewrite Eb, El.
  pose proof (out_ok_new ext h c st o1 s Hok Hnone) as Hok1.
  destruct (has_flag c REDIS_CLOSE_AFTER_REPLY) eqn:Hfl.
  - unfold _addReplyToBuffer. rewrite Hfl. bsimpl. change (negb (REDIS_OK =? REDIS_OK)) with false. cbv iota. bsimpl.
    unfold decrRefCount. rewrite lookup_insert_eq. bsimpl. cbn -[delete insert]. rewrite delete_insert_id by done. by eexists _, _.
  - assert (∃ h' c', ('(c, r) ← _addReplyToBuffer c (m ++ 0 :: rest) (len m);
      (if negb (r =? REDIS_OK) then _addReplyObjectToList junk malloc_size limits unixtime (<[o1 := mkObj REDIS_STRING REDIS_ENCODING_RAW 1 (PtrSds s)]> h) c o1
       else Some (<[o1 := mkObj REDIS_STRING REDIS_ENCODING_RAW 1 (PtrSds s)]> h, c))) = Some (h', c') ∧
      appended (plus_one ext o1) (<[o1 := mkObj REDIS_STRING REDIS_ENCODING_RAW 1 (PtrSds s)]> h) c st (bytes m) h' c') as (h' & c' & E & Happ).
    { destruct (buffer_ok _ _ c st m (0 :: rest) (len m) Hok1 eq_refl Hfl) as [(c' & -> & Happ)| ->]; bsimpl; [by eexists _, c'|].
      change (negb (REDIS_ERR =? REDIS_OK)) with true. cbv iota.
      eapply _addReplyObjectToList_ok; [done|done|by rewrite lookup_insert_eq|done..]. }
    destruct (_addReplyToBuffer c (m ++ 0 :: rest) (len m)) as [[c2 r]|]; [|done]. bsimpl in *. rewrite E. bsimpl.
    destruct (appended_drop ext h c st o1 s (bytes m) h' c' Hnone Hok Happ) as (h'' & -> & Happ'). bsimpl. by exists h'', c'.
Qed.

Lemma addReply_ok ext h c st o m :
  out_ok ext h c st → room 1 c → says h o m → 0 < ext o < 2 ^ 30 →
  emits 1 ext h c st (bytes m) (addReply junk malloc_size limits unixtime ae_create h c o).
Proof.
  intros Hok Hroom (ob & Ho & Hs) Hext. pose proof (refcount_bound ext h c st o ob Hok Hroom Ho ltac:(lia)) as Hrc. pose proof Hs as (Ht & Hr & Hp).
  destruct (ptr ob) as [s|v| |] eqn:Ep; [destruct Hp as [He Hrep]; by eapply addReply_raw_ok| |done..].
  destruct Hp as (He & Hv & Hd). unfold addReply. destruct (prepareClientToWrite ae_create c) as [c1 ok] eqn:Hprep.
  destruct (prepare_steps malloc_size ae_create ext h c st c1 ok Hprep Hok) as (_ & Hok1' & _ & Hrl & Hrb & _).
  apply (room_same _ _ Hrb Hrl) in Hroom. rewrite Ho. bsimpl. rewrite He. change (REDIS_ENCODING_INT =? REDIS_ENCODING_RAW) with false.
  change (REDIS_ENCODING_INT =? REDIS_ENCODING_INT) with true. cbv iota.
  destruct (print_long_ok junk 32 v ltac:(lia) Hv) as (t & r & Epr & Hd' & Hl). assert (t = m) as -> by (by eapply decimal_repr_unique).
  unfold olong. rewrite Ep. bsimpl. rewrite Epr. bsimpl.
  destruct (addReply_decoded_ok ext h c1 st o ob v m Hok1' Hroom Ho Hs Ep ltac:(lia)) as (h2 & c2 & Edec & Happ2).
  eapply emits_case; [done|exact Hprep| | |].
  - intros -> Hfl. cbn [Z.eqb negb REDIS_OK]. rewrite Hfl in Happ2. destruct Happ2 as [-> ->]. destruct (_ && _); [|by bsimpl].
    unfold _addReplyToBuffer. rewrite Hfl. by bsimpl.
  - intros Hne. by rewrite (proj2 (Z.eqb_neq _ _) Hne).
  - intros -> Hfl Hok1. change (negb (REDIS_OK =? REDIS_OK)) with false. cbv iota. rewrite Hfl in Happ2.
    destruct (_ && _); bsimpl; [|by exists h2, c2].
    destruct (buffer_ok ext h c1 st m (0 :: r) (len m) Hok1 eq_refl Hfl) as [(c' & -> & Happ)| ->]; bsimpl; [by exists h, c'|].
    change (REDIS_ERR =? REDIS_OK) with false. cbv iota. by exists h2, c2.
Qed.
End append.
