(* ===== verification/ReplyText.v ===== *)
(** * The replies of commands

    What numbers, bulks and errors look like on the wire, and that any
    sequence of replies puts exactly those texts on the stream. *)

From S2P Require Import Prelude Util Sds SdsText Object Client Reply ReplySpec ReplyOps.
From stdpp Require Import gmap sets.
Local Open Scope Z_scope.

(** The loop of [addReplyBulkLen] counts decimal digits. *)
Lemma digits_count_ok ds : Forall digit ds → ds ≠ [] → (head ds = Some 48 → ds = [48]) →
  ∀ n l fuel, Z.abs n = dec_val ds → (length ds ≤ S fuel)%nat → digits_count fuel n l = Some (l + len ds - 1).
Proof.
  induction ds as [|d ds IH] using rev_ind; [done|]. intros [Hds Hd]%Forall_app _ Hz n l fuel Hn Hf.
  apply Forall_cons in Hd as [Hd _]. unfold digit in Hd. unfold dec_val in Hn. rewrite dec_acc_snoc in Hn. fold (dec_val ds) in Hn.
  pose proof (dec_val_bound ds Hds) as Hb. rewrite length_app in *. cbn [length] in *.
  assert (Z.abs (Z.quot n 10) = dec_val ds) as Hq.
  { rewrite <- Z.quot_abs by lia. change (Z.abs 10) with 10. rewrite Hn, Z.quot_div_nonneg by lia. symmetry. apply (Z.div_unique _ _ _ (d - 48)); lia. }
  destruct ds as [|d0 ds].
  - assert (Z.quot n 10 = 0) as E by (unfold dec_val, dec_acc in Hq; cbn [foldl] in Hq; lia). destruct fuel; cbn [digits_count]; rewrite E; cbn; f_equal; lia.
  - assert (head (d0 :: ds) ≠ Some 48) as Hh.
    { intros E. cbn [app head] in *. specialize (Hz E). injection Hz as _ Hz. by destruct ds. }
    assert (Z.quot n 10 ≠ 0) as Hne by (intros E; rewrite E in Hq; by apply (dec_val_zero (d0 :: ds)) in Hds).
    destruct fuel as [|fuel]; [cbn [length] in Hf; lia|]. cbn [digits_count]. rewrite (proj2 (Z.eqb_neq _ _) Hne). cbn [negb].
    rewrite IH; [f_equal; lia|done|done|done|done|cbn [length] in *; lia].
Qed.

Section replies.
Context (junk : nat → Z) (malloc_size : sdshdr → Z) (limits : Z → obuf_limit) (unixtime : Z) (ae_create : bool).
Context (shared : shared_objects).
Context (malloc_size_bound : ∀ s, 0 ≤ malloc_size s < 2 ^ 33).
Implicit Types (h : oheap) (c : redisClient).
#[local] Abbreviation out_ok := (out_ok malloc_size).
#[local] Abbreviation emits := (emits malloc_size ae_create).

(** An object somebody outside the reply list holds. *)
Definition held (ext : addr → Z) h (o : addr) (m : list Z) : Prop := says h o m ∧ 0 < ext o < 2 ^ 30.

Lemma held_keeps ext h h' c st o m : keeps ext h h' → out_ok ext h' c st → held ext h o m → held ext h' o m.
Proof.
  intros Hk Hok ((ob & Ho & Ht & Hr & Hp) & He). split; [|done]. destruct (Hk o ltac:(lia) ob Ho) as (ob' & Ho' & Ht' & He' & Hp').
  pose proof (out_counted _ _ _ _ _ Hok o) as Hc. rewrite Ho' in Hc. exists ob'. split; [done|]. split; [congruence|]. split; [lia|].
  rewrite Hp', He'. done.
Qed.

(** A header: a prefix, a number, and the end of the line. *)
Definition header_text (prefix n : Z) (m : list Z) : Prop := ∃ t, decimal_repr n t ∧ m = prefix :: t ++ [13; 10].

(** The shared objects say what [createSharedObjects] put in them. *)
Record shared_replies (ext : addr → Z) h : Prop := {
  shr_crlf : held ext h (sh_crlf shared) [13; 10];
  shr_czero : held ext h (sh_czero shared) (str ":0" ++ [13; 10]);
  shr_cone : held ext h (sh_cone shared) (str ":1" ++ [13; 10]);
  shr_nullbulk : held ext h (sh_nullbulk shared) (str "$-1" ++ [13; 10]);
  shr_mbulkhdr : ∀ j, 0 ≤ j < REDIS_SHARED_BULKHDR_LEN → ∃ o m, mget (sh_mbulkhdr shared) j = Some o ∧ held ext h o m ∧ header_text 42 j m;
  shr_bulkhdr : ∀ j, 0 ≤ j < REDIS_SHARED_BULKHDR_LEN → ∃ o m, mget (sh_bulkhdr shared) j = Some o ∧ held ext h o m ∧ header_text 36 j m
}.

Lemma shared_keeps ext h h' c st : keeps ext h h' → out_ok ext h' c st → shared_replies ext h → shared_replies ext h'.
Proof.
  intros Hk Hok [H1 H2 H3 H4 H5 H6]. split; try (by eapply held_keeps).
  - intros j Hj. destruct (H5 j Hj) as (o & m & ? & ? & ?). exists o, m. split; [done|]. split; [by eapply held_keeps|done].
  - intros j Hj. destruct (H6 j Hj) as (o & m & ? & ? & ?). exists o, m. split; [done|]. split; [by eapply held_keeps|done].
Qed.

Lemma addReply_held ext h c st o m :
  out_ok ext h c st → room 1 c → held ext h o m → emits 1 ext h c st (bytes m) (addReply junk malloc_size limits unixtime ae_create h c o).
Proof. intros Hok Hroom [Hs He]. by apply addReply_ok. Qed.

(** The local buffer: a prefix, the digits, and the end of the line. *)
Lemma prefix_buffer_ok prefix ll :
  LLONG_MIN ≤ ll ≤ LLONG_MAX →
  ∃ t rest b n, ll2string (drop 1 (<[0%nat := prefix]> (zmalloc junk 128))) (128 - 1) ll = Some (b, n) ∧ n = len t ∧ decimal_repr ll t ∧ 1 ≤ len t ≤ 20 ∧
    (b1 ← mset (prefix :: b) (n + 1) 13; mset b1 (n + 2) 10) = Some ((prefix :: t ++ [13; 10]) ++ rest).
Proof.
  intros Hll. set (d := drop 1 _). assert (len d = 127) as Hd by (unfold d; rewrite length_drop, length_insert; unfold zmalloc; rewrite length_fmap, length_seq; lia).
  destruct (ll2string_repr d 127 ll Hll ltac:(lia)) as (t & Ht & E). pose proof (decimal_repr_len ll t Ht Hll) as Hl.
  change (128 - 1) with 127. rewrite E, Z.geb_leb, (proj2 (Z.leb_gt _ _)) by lia.
  assert (∃ x r, drop (S (length t)) d = x :: r) as (x & r & Er).
  { destruct (drop (S (length t)) d) as [|x r] eqn:Er; [apply (f_equal length) in Er; rewrite length_drop in Er; cbn in Er; lia|by eauto]. }
  exists t, r. eexists _, _. split; [done|]. split; [done|]. split; [done|]. split; [done|]. rewrite Er.
  rewrite (mset_app (prefix :: t) (x :: r) 0) by (cbn [length]; lia). bsimpl.
  replace ((prefix :: t) ++ 13 :: x :: r) with ((prefix :: t ++ [13]) ++ x :: r) by (cbn; by rewrite <- app_assoc).
  rewrite mset_app by (cbn [length]; rewrite length_app; cbn; lia). cbn [app]. do 2 f_equal. by rewrite <- !app_assoc.
Qed.

Lemma addReplyLongLongWithPrefix_ok ext h c st ll prefix :
  out_ok ext h c st → room 1 c → shared_replies ext h → LLONG_MIN ≤ ll ≤ LLONG_MAX → (prefix = 42 ∨ prefix = 36 → 0 ≤ ll) →
  ∃ m, header_text prefix ll m ∧ emits 1 ext h c st (bytes m) (addReplyLongLongWithPrefix junk malloc_size limits unixtime ae_create shared h c ll prefix).
Proof.
  intros Hok Hroom Hsh Hll Hp. unfold addReplyLongLongWithPrefix. destruct ((prefix =? 42) && (ll <? REDIS_SHARED_BULKHDR_LEN)) eqn:E1.
  { apply andb_true_iff in E1 as [->%Z.eqb_eq E%Z.ltb_lt]. destruct (shr_mbulkhdr _ _ Hsh ll ltac:(lia)) as (o & m & -> & Hh & Hm).
    exists m. split; [done|]. bsimpl. by apply addReply_held. }
  destruct ((prefix =? 36) && (ll <? REDIS_SHARED_BULKHDR_LEN)) eqn:E2.
  { apply andb_true_iff in E2 as [->%Z.eqb_eq E%Z.ltb_lt]. destruct (shr_bulkhdr _ _ Hsh ll ltac:(lia)) as (o & m & -> & Hh & Hm).
    exists m. split; [done|]. bsimpl. by apply addReply_held. }
  destruct (prefix_buffer_ok prefix ll Hll) as (t & rest & b & n & E & -> & Ht & Hl & Eb).
  exists (prefix :: t ++ [13; 10]). split; [by exists t|]. change (mset (zmalloc junk 128) 0 prefix) with (Some (<[0%nat := prefix]> (zmalloc junk 128))). bsimpl. rewrite E. bsimpl.
  bsimpl in Eb. destruct (mset (prefix :: b) (len t + 1) 13) as [b1|]; [|done]. bsimpl in *. rewrite Eb. bsimpl.
  replace (len t + 3) with (len (prefix :: t ++ [13; 10])) by (cbn [length]; rewrite length_app; cbn; lia).
  apply addReplyString_ok; [done|done|done|]. unfold fits. cbn [length]. rewrite length_app. cbn. lia.
Qed.

Lemma addReplyBulkCBuffer_ok ext h c st m rest :
  out_ok ext h c st → room 3 c → shared_replies ext h → fits (len m) →
  ∃ hd, header_text 36 (len m) hd ∧
    emits 3 ext h c st (bytes (hd ++ m ++ [13; 10])) (addReplyBulkCBuffer junk malloc_size limits unixtime ae_create shared h c (m ++ rest) (len m)).
Proof.
  intros Hok Hroom Hsh Hm. destruct (addReplyLongLongWithPrefix_ok ext h c st (len m) 36) as (hd & Hhd & He);
    [done|by eapply (room_mono 3)|done|unfold fits, LLONG_MIN, LLONG_MAX in *; lia|lia|].
  exists hd. split; [done|]. unfold addReplyBulkCBuffer. rewrite !bytes_app. change 3 with (1 + (1 + 1)) in *.
  eapply emits_bind; [exact He|]. intros h1 c1 st1 Hok1 _ Hk1 Hb1. pose proof (room_step _ _ _ _ Hroom Hb1) as Hroom1.
  eapply emits_bind; [apply addReplyString_ok; [done|done|by eapply (room_mono 2)|done]|]. intros h2 c2 st2 Hok2 _ Hk2 Hb2.
  apply addReply_held; [done|by eapply room_step|]. eapply held_keeps; [exact Hk2|done|]. eapply held_keeps; [exact Hk1|done|]. apply (shr_crlf _ _ Hsh).
Qed.

Lemma repr_small v t : decimal_repr v t → (v = 0 → t = str "0") ∧ (v = 1 → t = str "1").
Proof.
  intros Ht. assert (decimal_repr 0 (str "0") ∧ decimal_repr 1 (str "1")) as [H0 H1]
    by (split; by apply string2ll_repr). split; intros ->; by eapply decimal_repr_unique.
Qed.

Lemma addReplyLongLong_ok ext h c st ll :
  out_ok ext h c st → room 1 c → shared_replies ext h → LLONG_MIN ≤ ll ≤ LLONG_MAX →
  ∃ m, header_text 58 ll m ∧ emits 1 ext h c st (bytes m) (addReplyLongLong junk malloc_size limits unixtime ae_create shared h c ll).
Proof.
  intros Hok Hroom Hsh Hll. unfold addReplyLongLong. destruct (Z.eqb_spec ll 0) as [-> |H0]; [|destruct (Z.eqb_spec ll 1) as [-> |H1]].
  - exists (str ":0" ++ [13; 10]). split; [exists (str "0"); split; [by apply string2ll_repr|done]|].
    apply addReply_held; [done|done|apply (shr_czero _ _ Hsh)].
  - exists (str ":1" ++ [13; 10]). split; [exists (str "1"); split; [by apply string2ll_repr|done]|].
    apply addReply_held; [done|done|apply (shr_cone _ _ Hsh)].
  - apply addReplyLongLongWithPrefix_ok; [done..|lia].
Qed.

Lemma addReplyMultiBulkLen_ok ext h c st n :
  out_ok ext h c st → room 1 c → shared_replies ext h → 0 ≤ n ≤ LLONG_MAX →
  ∃ m, header_text 42 n m ∧ emits 1 ext h c st (bytes m) (addReplyMultiBulkLen junk malloc_size limits unixtime ae_create shared h c n).
Proof.
  intros Hok Hroom Hsh Hn. unfold addReplyMultiBulkLen. destruct (Z.ltb_spec n REDIS_SHARED_BULKHDR_LEN) as [Hl|Hl].
  - destruct (shr_mbulkhdr _ _ Hsh n ltac:(lia)) as (o & m & -> & Hh & Hm). exists m. split; [done|]. bsimpl. by apply addReply_held.
  - apply addReplyLongLongWithPrefix_ok; [done..|unfold LLONG_MIN; lia|lia].
Qed.

(** The length of an object's text, in either encoding. *)
Lemma bulk_length ob m :
  obj_says ob m →
  (if oencoding ob =? REDIS_ENCODING_RAW then s ← osds ob; Some (sdslen s)
   else v ← olong ob; if v <? 0 then digits_count 20 (s64 (- v)) 2 else digits_count 20 v 1) = Some (len m).
Proof.
  intros (_ & _ & Hp). unfold osds, olong. destruct (ptr ob) as [s|v| |]; [| |done..].
  - destruct Hp as [-> Hr]. cbn. f_equal. by apply rep_read in Hr as [_ ->].
  - destruct Hp as (-> & Hv & Hd). change (REDIS_ENCODING_INT =? REDIS_ENCODING_RAW) with false. cbv iota. bsimpl.
    pose proof (decimal_repr_len v m Hd Hv) as Hl. destruct Hd as (ds & Hds & Hn & Hz & Hval & ->). unfold LONG_MIN, LONG_MAX in Hv.
    rewrite length_app in *. destruct (Z.ltb_spec v 0) as [Hneg|Hpos]; cbn [length] in *.
    + assert (Z.abs (s64 (- v)) = dec_val ds) as Habs.
      { destruct (decide (v = - 2 ^ 63)) as [-> |Hne]; [rewrite Hval; reflexivity|]. rewrite swrap_small by lia. lia. }
      rewrite (digits_count_ok ds) by (done || lia). f_equal. lia.
    + rewrite (digits_count_ok ds) by (done || lia). f_equal. lia.
Qed.

Lemma addReplyBulkLen_ok ext h c st o m :
  out_ok ext h c st → room 1 c → shared_replies ext h → says h o m → fits (len m) →
  ∃ hd, header_text 36 (len m) hd ∧ emits 1 ext h c st (bytes hd) (addReplyBulkLen junk malloc_size limits unixtime ae_create shared h c o).
Proof.
  intros Hok Hroom Hsh (ob & Ho & Hs) Hm. unfold addReplyBulkLen. rewrite Ho. bsimpl.
  pose proof (bulk_length ob m Hs) as E. bsimpl in E. rewrite E. bsimpl. destruct (Z.ltb_spec (len m) REDIS_SHARED_BULKHDR_LEN) as [Hl|Hl].
  - destruct (shr_bulkhdr _ _ Hsh (len m) ltac:(lia)) as (o' & hd & -> & Hh & Hhd). exists hd. split; [done|]. bsimpl. by apply addReply_held.
  - apply addReplyLongLongWithPrefix_ok; [done..|unfold fits, LLONG_MIN, LLONG_MAX in *; lia|lia].
Qed.

Lemma addReplyBulk_ok ext h c st o m :
  out_ok ext h c st → room 3 c → shared_replies ext h → held ext h o m → fits (len m) →
  ∃ hd, header_text 36 (len m) hd ∧
    emits 3 ext h c st (bytes (hd ++ m ++ [13; 10])) (addReplyBulk junk malloc_size limits unixtime ae_create shared h c o).
Proof.
  intros Hok Hroom Hsh Hh Hm. pose proof Hh as [Hs _].
  destruct (addReplyBulkLen_ok ext h c st o m) as (hd & Hhd & He); [done|by eapply (room_mono 3)|done..|].
  exists hd. split; [done|]. unfold addReplyBulk. rewrite !bytes_app. change 3 with (1 + (1 + 1)) in *.
  eapply emits_bind; [exact He|]. intros h1 c1 st1 Hok1 _ Hk1 Hb1. pose proof (room_step _ _ _ _ Hroom Hb1) as Hroom1.
  eapply emits_bind; [apply addReply_held; [done|by eapply (room_mono 2)|by eapply held_keeps]|]. intros h2 c2 st2 Hok2 _ Hk2 Hb2.
  apply addReply_held; [done|by eapply room_step|]. eapply held_keeps; [exact Hk2|done|]. eapply held_keeps; [exact Hk1|done|]. apply (shr_crlf _ _ Hsh).
Qed.

Lemma addReplyBulkLongLong_ok ext h c st ll :
  out_ok ext h c st → room 3 c → shared_replies ext h → LLONG_MIN ≤ ll ≤ LLONG_MAX →
  ∃ hd t, decimal_repr ll t ∧ header_text 36 (len t) hd ∧
    emits 3 ext h c st (bytes (hd ++ t ++ [13; 10])) (addReplyBulkLongLong junk malloc_size limits unixtime ae_create shared h c ll).
Proof.
  intros Hok Hroom Hsh Hll. destruct (print_long_ok junk 64 ll ltac:(lia) Hll) as (t & r & E & Ht & Hl).
  destruct (addReplyBulkCBuffer_ok ext h c st t (0 :: r) Hok Hroom Hsh ltac:(unfold fits; lia)) as (hd & Hhd & He).
  exists hd, t. split; [done|]. split; [done|]. unfold addReplyBulkLongLong. unfold print_long in E. rewrite E. bsimpl. done.
Qed.

(** ** Any sequence of replies *)

Inductive reply_op :=
  | RObj (o : addr)
  | RSds (s : sdshdr)
  | RError (err : list Z)
  | RStatus (status : list Z)
  | RLongLong (ll : Z)
  | RMultiBulkLen (n : Z)
  | RBulk (o : addr)
  | RBulkCBuffer (m : list Z)
  | RBulkLongLong (ll : Z)
  | RNullBulk.

(** The messages are C strings. *)
Definition run_reply h c (op : reply_op) : option (oheap * redisClient) :=
  match op with
  | RObj o => addReply junk malloc_size limits unixtime ae_create h c o
  | RSds s => addReplySds junk malloc_size limits unixtime ae_create h c s
  | RError err => addReplyError junk malloc_size limits unixtime ae_create h c (err ++ [0])
  | RStatus status => addReplyStatus junk malloc_size limits unixtime ae_create h c (status ++ [0])
  | RLongLong ll => addReplyLongLong junk malloc_size limits unixtime ae_create shared h c ll
  | RMultiBulkLen n => addReplyMultiBulkLen junk malloc_size limits unixtime ae_create shared h c n
  | RBulk o => addReplyBulk junk malloc_size limits unixtime ae_create shared h c o
  | RBulkCBuffer m => addReplyBulkCBuffer junk malloc_size limits unixtime ae_create shared h c m (len m)
  | RBulkLongLong ll => addReplyBulkLongLong junk malloc_size limits unixtime ae_create shared h c ll
  | RNullBulk => addReplyBulkCString junk malloc_size limits unixtime ae_create shared h c None
  end.

Definition bulk_text (m : list Z) (w : list Z) : Prop := ∃ hd, header_text 36 (len m) hd ∧ w = hd ++ m ++ [13; 10].

(** The text of a reply, and what its caller owes: objects that live on, C
    strings without NUL, numbers of their types. *)
Definition reply_text (ext : addr → Z) h (op : reply_op) (w : list Z) : Prop :=
  match op with
  | RObj o => held ext h o w
  | RSds s => rep s w
  | RError err => Forall (λ x, x ≠ 0) err ∧ fits (len err) ∧ w = str "-ERR " ++ err ++ [13; 10]
  | RStatus status => Forall (λ x, x ≠ 0) status ∧ fits (len status) ∧ w = str "+" ++ status ++ [13; 10]
  | RLongLong ll => LLONG_MIN ≤ ll ≤ LLONG_MAX ∧ header_text 58 ll w
  | RMultiBulkLen n => 0 ≤ n ≤ LLONG_MAX ∧ header_text 42 n w
  | RBulk o => ∃ m, held ext h o m ∧ fits (len m) ∧ bulk_text m w
  | RBulkCBuffer m => fits (len m) ∧ bulk_text m w
  | RBulkLongLong ll => LLONG_MIN ≤ ll ≤ LLONG_MAX ∧ ∃ t, decimal_repr ll t ∧ bulk_text t w
  | RNullBulk => w = str "$-1" ++ [13; 10]
  end.

Lemma header_text_unique p n m1 m2 : header_text p n m1 → header_text p n m2 → m1 = m2.
Proof. intros (t1 & H1 & ->) (t2 & H2 & ->). by rewrite (decimal_repr_unique n t1 t2). Qed.

Lemma bulk_text_unique m w1 w2 : bulk_text m w1 → bulk_text m w2 → w1 = w2.
Proof. intros (h1 & H1 & ->) (h2 & H2 & ->). by rewrite (header_text_unique _ _ _ _ H1 H2). Qed.

Lemma emits_weaken k ext h c st m r : 1 ≤ k → emits 1 ext h c st m r → emits k ext h c st m r.
Proof. intros Hk (h' & c' & ? & ? & ? & ? & ? & [? ?] & ?). exists h', c'. split_and!; try done. split; lia. Qed.

Lemma run_reply_ok ext h c st op w :
  out_ok ext h c st → room 3 c → shared_replies ext h → reply_text ext h op w →
  emits 3 ext h c st (bytes w) (run_reply h c op).
Proof.
  intros Hok Hroom Hsh Hw. pose proof (room_mono 3 c ltac:(lia) Hroom) as Hroom1. destruct op; cbn [run_reply reply_text] in *.
  - apply emits_weaken; [lia|]. by apply addReply_held.
  - apply emits_weaken; [lia|]. by apply addReplySds_ok.
  - destruct Hw as (Hnz & Hf & ->). by apply addReplyError_ok.
  - destruct Hw as (Hnz & Hf & ->). unfold addReplyStatus. rewrite strlen_ok by done. bsimpl. by apply addReplyStatusLength_ok.
  - destruct Hw as (Hll & Hw). destruct (addReplyLongLong_ok ext h c st ll) as (m & Hm & He); [done..|].
    rewrite (header_text_unique _ _ _ _ Hw Hm). by apply emits_weaken.
  - destruct Hw as (Hn & Hw). destruct (addReplyMultiBulkLen_ok ext h c st n) as (m & Hm & He); [done..|].
    rewrite (header_text_unique _ _ _ _ Hw Hm). by apply emits_weaken.
  - destruct Hw as (m & Hh & Hf & Hw). destruct (addReplyBulk_ok ext h c st o m) as (hd & Hhd & He); [done..|].
    rewrite (bulk_text_unique m w (hd ++ m ++ [13; 10])); [done..|by exists hd].
  - destruct Hw as (Hf & Hw). destruct (addReplyBulkCBuffer_ok ext h c st m []) as (hd & Hhd & He); [done..|]. rewrite app_nil_r in He.
    rewrite (bulk_text_unique m w (hd ++ m ++ [13; 10])); [done..|by exists hd].
  - destruct Hw as (Hll & t & Ht & Hw). destruct (addReplyBulkLongLong_ok ext h c st ll) as (hd & t' & Ht' & Hhd & He); [done..|].
    rewrite (decimal_repr_unique ll t t') in Hw by done. rewrite (bulk_text_unique t' w (hd ++ t' ++ [13; 10])); [done..|by exists hd].
  - apply emits_weaken; [lia|]. rewrite Hw. apply addReply_held; [done|done|apply (shr_nullbulk _ _ Hsh)].
Qed.
End replies.
