(* ===== verification/ReplySend.v ===== *)
(** * Sending replies

    The write handler sends the stream from its front, as much as the socket
    takes; called again whenever the socket has room, it sends everything and
    then leaves the client idle, or closes it if that was asked for. *)

From S2P Require Import Prelude Util Sds SdsText Object Client Reply ReplySpec ReplyOps ReplyText.
From stdpp Require Import gmap sets.
Local Open Scope Z_scope.

Section send.
Context (malloc_size : sdshdr → Z) (unixtime : Z).
Context (malloc_size_bound : ∀ s, 0 ≤ malloc_size s < 2 ^ 33).
Implicit Types (h : oheap) (c : redisClient).
#[local] Abbreviation out_ok := (out_ok malloc_size).

(** Releasing the first object of the list. *)
Lemma pop_ok ext h o l p parts :
  counted ext h (o :: l) → Forall2 (shows_items h) (o :: l) (p :: parts) → (∃ ob s, h !! o = Some ob ∧ ptr ob = PtrSds s) →
  ∃ h', decrRefCount h o = Some h' ∧ counted ext h' l ∧ Forall2 (shows_items h') l parts ∧
    list_size malloc_size h' l = list_size malloc_size h l ∧ keeps ext h h'.
Proof.
  intros Hc Hf (ob & s & Ho & Hptr). apply Forall2_cons in Hf as [(ob' & Ho' & Ht & _) Hf]. rewrite Ho in Ho'. injection Ho' as <-.
  assert (∀ a, refs (o :: l) a = (if decide (o = a) then 1 else 0) + refs l a) as Hrefs by (intros a; change (o :: l) with ([o] ++ l); by rewrite refs_app, refs_one).
  pose proof (Hc o) as Hco. rewrite Ho, Hrefs, decide_True in Hco by done. pose proof (refs_nonneg l o).
  unfold decrRefCount. rewrite Ho. bsimpl. rewrite (proj2 (Z.leb_gt _ _)) by lia. rewrite Ht. cbn [Z.leb Z.compare andb REDIS_STRING].
  destruct (Z.eqb_spec (refcount ob) 1) as [E1|E1]; (eexists; split; [done|]).
  - assert (∀ a, a ∈ l → delete o h !! a = h !! a) as Hl.
    { intros a Ha. rewrite lookup_delete_ne; [done|]. intros <-. apply refs_in in Ha. lia. }
    split; [|split; [by eapply shows_ext|split]].
    + intros a. specialize (Hc a). rewrite Hrefs in Hc. destruct (decide (o = a)) as [<- |Hne].
      * rewrite lookup_delete_eq. lia.
      * rewrite lookup_delete_ne by done. destruct (h !! a); lia.
    + apply list_size_ext. intros a Ha. unfold obj_size. by rewrite Hl.
    + intros a Ha oa E. exists oa. rewrite lookup_delete_ne; [done|]. intros ->. lia.
  - assert (same_ptrs h (<[o := set_refcount ob (refcount ob - 1)]> h)) as Hsame.
    { intros a oa E. destruct (decide (a = o)) as [-> |Hne]; [|rewrite lookup_insert_ne by done; by exists oa].
      rewrite lookup_insert_eq. rewrite Ho in E. injection E as <-. eexists. split; [done|]. cbn. by rewrite Hptr. }
    split; [|split; [by eapply shows_same|split; [|by apply same_ptrs_keeps]]].
    + intros a. specialize (Hc a). rewrite Hrefs in Hc. destruct (decide (o = a)) as [<- |Hne].
      * rewrite lookup_insert_eq. rewrite Ho in Hc. cbn. lia.
      * rewrite lookup_insert_ne by done. destruct (h !! a); lia.
    + apply size_same; [done|]. intros a. by eapply shows_live.
Qed.

#[export] Instance wresult_eq_dec : EqDecision wresult.
Proof. solve_decision. Defined.

(** A [write] fails, or takes some of what it is offered. *)
Definition write_failed (ws : list wresult) (r : wresult) : Prop :=
  (nwritten_of r <=? 0) = true ∧ (r = WFailed false → WFailed false ∈ ws) ∧ ∀ n ws0, ws = Wrote n :: ws0 → ¬ 1 ≤ n.

Lemma write_some_ok ws m1 m m3 off :
  off = len m1 → m ≠ [] →
  ∃ r ws' k, write_some ws (m1 ++ m ++ m3) off (len m) = Some (r, ws', take k m) ∧
    (write_failed ws r ∧ k = 0%nat ∨ r = Wrote (Z.of_nat k) ∧ (0 < k ≤ length m)%nat ∧ ∃ w, ws = w :: ws').
Proof.
  intros -> Hm. assert (0 < len m) as Hl by (destruct m; [done|cbn [length]; lia]).
  unfold write_some. destruct ws as [|[n|again] ws].
  - exists (WFailed true), [], 0%nat. split; [done|]. by left.
  - set (k := Z.min (Z.max n 0) (len m)). exists (Wrote k), ws, (Z.to_nat k). cbn zeta.
    assert (0 ≤ k ≤ len m) as Hk by lia.
    replace (mread (m1 ++ m ++ m3) (len m1) k) with (Some (take (Z.to_nat k) m)).
    2:{ symmetry. rewrite <- (take_drop (Z.to_nat k) m) at 1. rewrite <- app_assoc. apply mread_app; [done|]. rewrite length_take. lia. }
    bsimpl. split; [done|]. destruct (decide (k = 0)) as [E|Hne].
    + left. rewrite E. split; [|done]. split; [done|]. split; [done|]. intros n' ws0 [= <- <-]. lia.
    + right. rewrite Z2Nat.id by lia. split; [done|]. split; [lia|]. by exists (Wrote n).
  - exists (WFailed again), ws, 0%nat. split; [done|]. left. split; [|done]. split; [done|]. split; [|done]. intros [= ->]. by left.
Qed.

Lemma bytes_inj m1 m2 : bytes m1 = bytes m2 → m1 = m2.
Proof. unfold bytes. apply (inj (fmap inl)). Qed.

Lemma bytes_split m l1 l2 : l1 ++ l2 = bytes m → ∃ m1 m2, m = m1 ++ m2 ∧ l1 = bytes m1 ∧ l2 = bytes m2.
Proof. unfold bytes. intros E. symmetry in E. apply fmap_app_inv in E as (m1 & m2 & -> & -> & ->). by exists m1, m2. Qed.

Lemma bytes_drop k m : drop k (bytes m) = bytes (drop k m).
Proof. unfold bytes. symmetry. apply fmap_drop. Qed.

(** What is left to send after [k] more bytes of the front. *)
Record sends (ext : addr → Z) (st st' : sending) (m sent rest : list Z) : Prop := {
  snd_split : m = sent ++ rest;
  snd_ok : out_ok ext (s_heap st') (s_client st') (bytes rest);
  snd_keeps : keeps ext (s_heap st) (s_heap st');
  snd_client : ∃ o, s_client st' = set_out (s_client st) o ∧ writable o = writable (cout (s_client st));
  snd_total : s_total st' = s_total st + len sent;
  snd_out : s_out st' = s_out st ++ sent;
  snd_bytes : reply_bytes (cout (s_client st')) ≤ reply_bytes (cout (s_client st));
  snd_len : (length (reply (cout (s_client st'))) ≤ length (reply (cout (s_client st))))%nat
}.

Definition step_ok (ext : addr → Z) (ws : list wresult) (st : sending) (m : list Z) (r : sending + list wresult * sending * bool) : Prop :=
  match r with
  | inl st' => ∃ w, st' = mkSending (s_heap st) (s_client st) w (s_total st) (s_out st) ∧ m ≠ [] ∧ write_failed ws w
  | inr (ws', st', true) => sends ext st st' m [] m ∧ ws' = ws ∧ s_last st' = s_last st ∧
      (length (reply (cout (s_client st'))) < length (reply (cout (s_client st))))%nat
  | inr (ws', st', false) => ∃ sent rest w k, sends ext st st' m sent rest ∧ sent ≠ [] ∧ ws = w :: ws' ∧ s_last st' = Wrote k
  end.

Lemma take_nonempty {A} k (m : list A) : (0 < k ≤ length m)%nat → take k m ≠ [].
Proof. destruct k, m; cbn; try done; lia. Qed.

(** The static buffer. *)
Lemma send_buffer_ok ext ws st m :
  out_ok ext (s_heap st) (s_client st) (bytes m) → 0 < bufpos (cout (s_client st)) →
  ∃ r, send_step malloc_size ws st = Some r ∧ step_ok ext ws st m r.
Proof.
  destruct st as [h c w0 tot out]. cbn [s_heap s_client]. intros [Hb Hp Hc Hz (parts & Hf & [Hs0 Hs] & Hst)] Hpos. set (o := cout c) in *.
  rewrite (proj2 (Z.gtb_lt _ _)) in Hs by lia. set (A := take (Z.to_nat (bufpos o)) (cbuf o)) in *.
  assert (len A = bufpos o) as HA by (unfold A; rewrite length_take; lia).
  rewrite drop_append, bytes_drop in Hst by (unfold bytes; rewrite length_fmap; lia). symmetry in Hst. apply bytes_split in Hst as (m1 & m2 & -> & E1%bytes_inj & E2).
  assert (len m1 = bufpos o - sentlen o) as Hm1 by (rewrite <- E1, length_drop; lia).
  assert (cbuf o = take (Z.to_nat (sentlen o)) A ++ m1 ++ drop (Z.to_nat (bufpos o)) (cbuf o)) as Ecb.
  { rewrite <- E1, app_assoc, take_drop. unfold A. by rewrite take_drop. }
  assert (m1 ≠ []) as Hne by (intros ->; cbn in Hm1; lia).
  destruct (write_some_ok ws (take (Z.to_nat (sentlen o)) A) m1 (drop (Z.to_nat (bufpos o)) (cbuf o)) (sentlen o)) as (r & ws' & k & Ew & Hr);
    [rewrite length_take; lia|done|]. rewrite <- Ecb, Hm1 in Ew.
  unfold send_step. cbn [s_heap s_client s_total s_out]. fold o. rewrite (proj2 (Z.gtb_lt _ _)) by lia. rewrite Ew. bsimpl.
  destruct Hr as [[Hr ->]|(-> & Hk & w & ->)]; [rewrite (proj1 Hr)|rewrite (proj2 (Z.leb_gt _ _)) by (cbn; lia)]; (eexists; split; [done|]).
  { exists r. split; [done|]. split; [by destruct m1|done]. }
  exists (take k m1), (drop k m1 ++ m2), w, (Z.of_nat k). split; [|by split; [by apply take_nonempty|]]. cbn [nwritten_of].
  assert (len (take k m1) = Z.of_nat k) as Hlk by (rewrite length_take; lia).
  split; cbn [s_heap s_client s_total s_out]; [by rewrite app_assoc, take_drop| |done| |by rewrite Hlk|done| |];
    [|case_match; (eexists; split; [done|done])|case_match; cbn; lia|case_match; cbn; lia].
  cbn [sentlen cout set_sentlen set_out bufpos]. fold o. destruct (Z.eqb_spec (sentlen o + Z.of_nat k) (bufpos o)) as [Ee|Ee].
  - split; cbn; [done|lia|done|done|]. exists parts. split; [done|]. split; [split; [cbn; lia|cbn]|].
    + destruct parts; [done|by left].
    + rewrite drop_ge by lia. cbn. by rewrite E2.
  - split; cbn; fold o; [done|lia|done|done|]. exists parts. split; [done|]. split; [split; cbn; fold o; [lia|]|].
    + rewrite (proj2 (Z.gtb_lt _ _)) by lia. lia.
    + fold A. rewrite drop_append, bytes_drop by (unfold bytes; rewrite length_fmap; lia). rewrite E2, bytes_app. f_equal. f_equal.
      rewrite <- E1, drop_drop. f_equal. lia.
Qed.
(** The first object. *)
Lemma front_string ext h c m :
  out_ok ext h c (bytes m) → bufpos (cout c) ≤ 0 → reply (cout c) ≠ [] →
  ∃ o l s t m2 parts ob, reply (cout c) = o :: l ∧ h !! o = Some ob ∧ ptr ob = PtrSds s ∧ rep s t ∧ m = drop (Z.to_nat (sentlen (cout c))) t ++ m2 ∧
    Forall2 (shows_items h) (o :: l) (bytes t :: parts) ∧ concat parts = bytes m2 ∧ 0 ≤ sentlen (cout c) ∧ (sentlen (cout c) = 0 ∨ sentlen (cout c) < len t).
Proof.
  intros [Hb Hp Hc Hz (parts & Hf & [Hs0 Hs] & Hst)] Hpos Hne. destruct (reply (cout c)) as [|o l] eqn:El; [done|].
  rewrite Z.gtb_ltb, (proj2 (Z.ltb_ge _ _)) in Hs by lia. replace (Z.to_nat (bufpos (cout c))) with 0%nat in Hst by lia. rewrite take_0 in Hst. change (bytes [] ++ ?x) with x in Hst.
  inversion Hf as [|? p ? parts' (ob & Ho & Ht & He & Hptr) Hf']; subst. cbn [concat] in Hst.
  assert (∃ s t, ptr ob = PtrSds s ∧ rep s t ∧ p = bytes t) as (s & t & Hps & Hr & ->).
  { destruct (ptr ob) as [s| | |]; [|done| |done]; [destruct Hptr as (t & ? & ->); by exists s, t|]. exfalso. destruct Hptr as [_ ->].
    destruct Hs as [E|[_ (t & E)]]; [|by destruct t]. rewrite E in Hst. cbn in Hst. by destruct m. }
  assert (0 ≤ sentlen (cout c) ≤ len t) as Hsl.
  { destruct Hs as [->|[Hs _]]; [lia|]. unfold bytes in Hs. rewrite length_fmap in Hs. lia. }
  rewrite drop_append, bytes_drop in Hst by (unfold bytes; rewrite length_fmap; lia). symmetry in Hst. apply bytes_split in Hst as (m1 & m2 & -> & E1%bytes_inj & E2).
  exists o, l, s, t, m2, parts', ob. rewrite E1. split_and!; try done. destruct Hs as [|[Hs _]]; [by left|right]. unfold bytes in Hs. by rewrite length_fmap in Hs.
Qed.

(** The state once the first object is off the list. *)
Lemma popped_ok ext h h' c m2 l parts n :
  len (cbuf (cout c)) = REDIS_REPLY_CHUNK_BYTES → bufpos (cout c) = 0 → counted ext h' l → Forall2 (shows_items h') l parts → concat parts = bytes m2 →
  list_size malloc_size h' l ≤ n → out_ok ext h' (set_reply_bytes (set_sentlen (set_reply c l) 0) n) (bytes m2).
Proof.
  intros Hb Hp Hc Hf E Hz. split; cbn; [done|unfold REDIS_REPLY_CHUNK_BYTES; lia|done|split; [by apply list_size_nonneg|done]|].
  exists parts. split; [done|]. split; [split; cbn; [lia|]|by rewrite Hp, E]. rewrite Hp. cbn. destruct parts; [done|by left].
Qed.

Lemma send_front_ok ext ws st m :
  out_ok ext (s_heap st) (s_client st) (bytes m) → bufpos (cout (s_client st)) ≤ 0 → reply (cout (s_client st)) ≠ [] →
  reply_bytes (cout (s_client st)) < 2 ^ 64 →
  ∃ r, send_step malloc_size ws st = Some r ∧ step_ok ext ws st m r.
Proof.
  destruct st as [h c w0 tot out]. cbn [s_heap s_client]. intros Hok Hpos Hne Hrb. pose proof Hok as [Hb Hp Hc Hz _]. assert (bufpos (cout c) = 0) as Hp0 by lia.
  destruct (front_string ext h c m) as (a & l & s & t & m2 & parts & ob & El & Ho & Hptr & Hr & -> & Hf & E2 & Hs0 & Hs); [done..|].
  destruct (rep_buf s t Hr) as (rest & Hbuf & Hlen). rewrite El in Hc, Hz.
  destruct (pop_ok ext h a l _ _ Hc Hf) as (h' & Ed & Hc' & Hf' & Hz' & Hk); [by exists ob, s|].
  assert (list_size malloc_size h (a :: l) = malloc_size s + list_size malloc_size h l) as Ez.
  { unfold list_size. cbn [foldr]. f_equal. unfold obj_size. by rewrite Ho, Hptr. }
  pose proof (malloc_size_bound s). pose proof (list_size_nonneg malloc_size malloc_size_bound h l). set (k0 := Z.to_nat (sentlen (cout c))) in *.
  unfold send_step. cbn [s_heap s_client s_total s_out s_last]. rewrite Z.gtb_ltb, (proj2 (Z.ltb_ge _ _)) by lia. rewrite El. cbn [head]. bsimpl. rewrite Ho. bsimpl. unfold osds. rewrite Hptr. bsimpl. rewrite Hlen.
  destruct (Z.eqb_spec (len t) 0) as [Et|Et].
  { rewrite Ed. bsimpl. eexists. split; [done|]. cbn [step_ok tail]. assert (t = []) as -> by (by destruct t). rewrite drop_nil.
    split; [|split; [done|split; [done|cbn; rewrite El; cbn; lia]]]. split; cbn [s_heap s_client s_total s_out]; [done| |done|by eexists|cbn; lia|by rewrite app_nil_r|cbn; lia|cbn; rewrite El; cbn; lia].
    eapply out_ok_same; [|eapply (popped_ok ext h h' c m2 l parts (reply_bytes (cout c))); [done..|lia]]. cbn in *. f_equal; lia. }
  assert (k0 < length t)%nat as Hk0 by lia.
  assert (len (drop k0 t) = len t - sentlen (cout c)) as Hd by (rewrite length_drop; lia).
  assert (buf s = take k0 t ++ drop k0 t ++ 0 :: rest) as Ebuf by (by rewrite app_assoc, take_drop).
  destruct (write_some_ok ws (take k0 t) (drop k0 t) (0 :: rest) (sentlen (cout c))) as (r & ws' & k & Ew & Hw);
    [rewrite length_take; lia|intros E; rewrite E in Hd; cbn in Hd; lia|]. rewrite <- Ebuf, Hd in Ew. rewrite Ew. bsimpl.
  destruct Hw as [[Hw ->]|(-> & Hkl & w & ->)]; [rewrite (proj1 Hw)|rewrite (proj2 (Z.leb_gt _ _)) by (cbn; lia)].
  { eexists. split; [done|]. exists r. split; [done|]. split; [|done]. intros E. apply app_nil in E as [E _]. rewrite E in Hd. cbn in Hd. lia. }
  cbn [nwritten_of]. change (sentlen (cout (set_sentlen c ?x))) with x.
  assert (len (take k (drop k0 t)) = Z.of_nat k) as Hlk by (rewrite length_take; lia).
  assert (take k (drop k0 t) ≠ []) as Hnon by (by apply take_nonempty). rewrite length_drop in Hkl.
  destruct (Z.eqb_spec (sentlen (cout c) + Z.of_nat k) (len t)) as [Ee|Ee]; [rewrite Ed; bsimpl|bsimpl]; (eexists; split; [done|]).
  - exists (take k (drop k0 t)), m2, w, (Z.of_nat k). split; [|done]. cbn [tail].
    split; cbn [s_heap s_client s_total s_out]; [|rewrite uwrap_small by lia|done|by eexists|by rewrite Hlk|done|cbn; rewrite uwrap_small by lia; lia|cbn; rewrite El; cbn; lia].
    + rewrite take_ge; [done|]. rewrite length_drop. lia.
    + eapply out_ok_same; [|eapply (popped_ok ext h h' c m2 l parts (reply_bytes (cout c) - malloc_size s)); [done..|lia]]. done.
  - exists (take k (drop k0 t)), (drop k (drop k0 t) ++ m2), w, (Z.of_nat k). split; [|done].
    split; cbn [s_heap s_client s_total s_out]; [by rewrite app_assoc, take_drop| |done|by eexists|by rewrite Hlk|done|cbn; lia|cbn; lia].
    split; cbn; rewrite ?El; [done|lia|done|done|]. exists (bytes t :: parts). split; [done|]. split; [split; cbn; [lia|]|].
    + rewrite Hp0. cbn. right. split; [unfold bytes; rewrite length_fmap; lia|by exists t].
    + rewrite Hp0. rewrite take_0. change (bytes [] ++ ?x) with x. cbn [concat]. rewrite drop_append by (unfold bytes; rewrite length_fmap; lia).
      rewrite bytes_drop, E2, bytes_app, drop_drop. do 3 f_equal. lia.
Qed.
Definition idle (c : redisClient) : Prop := bufpos (cout c) = 0 ∧ reply (cout c) = [].

Lemma sends_trans ext st1 st2 st3 m s1 s2 r1 r2 : sends ext st1 st2 m s1 r1 → sends ext st2 st3 r1 s2 r2 → sends ext st1 st3 m (s1 ++ s2) r2.
Proof.
  intros [E1 ? K1 (o1 & C1 & W1) T1 O1 B1 L1] [E2 ? K2 (o2 & C2 & W2) T2 O2 B2 L2].
  split; [by rewrite E1, E2, app_assoc|done|by etrans| |rewrite T2, T1, length_app; lia|by rewrite O2, O1, app_assoc|lia|lia].
  exists o2. rewrite C2, C1. split; [done|]. rewrite W2, C1. cbn. done.
Qed.

Lemma sends_refl ext st m : out_ok ext (s_heap st) (s_client st) (bytes m) → sends ext st st m [] m.
Proof.
  intros Hok. split; [done|done|done| |cbn; lia|by rewrite app_nil_r|lia|lia]. exists (cout (s_client st)). split; [|done]. by destruct (s_client st).
Qed.

Lemma nothing_left ext h c m : out_ok ext h c (bytes m) → idle c → m = [].
Proof.
  intros [_ _ _ _ (parts & Hf & _ & E)] [Hp Hl]. rewrite Hl in Hf. apply Forall2_nil_inv_l in Hf as ->. rewrite Hp, take_0 in E. change (bytes [] ++ concat []) with (@nil item) in E. rewrite drop_nil in E. by destruct m.
Qed.

Lemma send_step_ok ext ws st m :
  out_ok ext (s_heap st) (s_client st) (bytes m) → ¬ idle (s_client st) → reply_bytes (cout (s_client st)) < 2 ^ 64 →
  ∃ r, send_step malloc_size ws st = Some r ∧ step_ok ext ws st m r.
Proof.
  intros Hok Hi Hrb. pose proof (out_pos _ _ _ _ _ Hok). destruct (decide (0 < bufpos (cout (s_client st)))); [by apply send_buffer_ok|].
  apply send_front_ok; [done|lia| |done]. intros E. apply Hi. split; [lia|done].
Qed.

Lemma send_loop_ok below ext fuel ws st m :
  out_ok ext (s_heap st) (s_client st) (bytes m) → reply_bytes (cout (s_client st)) < 2 ^ 64 →
  (length ws + length (reply (cout (s_client st))) < fuel)%nat →
  ∃ st' sent rest, send_loop malloc_size fuel below ws st = Some st' ∧ sends ext st st' m sent rest ∧ (m = [] → idle (s_client st')) ∧
    (∀ n ws0, ws = Wrote n :: ws0 → 1 ≤ n → m ≠ [] → sent ≠ []) ∧ (s_last st' = WFailed false → s_last st = WFailed false ∨ WFailed false ∈ ws).
Proof.
  revert ws st m. induction fuel as [|fuel IH]; intros ws st m Hok Hrb Hfuel; [lia|].
  pose proof (out_pos _ _ _ _ _ Hok) as Hpos. cbn [send_loop].
  replace (_ || _) with (negb (bool_decide (bufpos (cout (s_client st)) = 0 ∧ reply (cout (s_client st)) = []))).
  2:{ destruct (Z.gtb_spec (bufpos (cout (s_client st))) 0); [rewrite bool_decide_eq_false_2 by lia; done|].
      cbn [orb]. f_equal. rewrite list_nil_len. apply bool_decide_ext. split; [by intros []|]. split; [lia|done]. }
  case_bool_decide as Hidle; cbn [negb].
  { exists st, [], m. split; [done|]. split; [by apply sends_refl|]. split; [done|]. split; [|by left].
    intros n ws0 _ _ Hm. by rewrite (nothing_left _ _ _ _ Hok Hidle) in Hm. }
  destruct (send_step_ok ext ws st m) as (r & -> & Hr); [done..|]. bsimpl. destruct r as [st1|[[ws1 st1] [|]]]; cbn [step_ok negb andb] in *.
  - destruct Hr as (w & -> & Hm & _ & Hw1 & Hw2). eexists _, [], m. split; [done|]. split; [|split; [done|]].
    + destruct (sends_refl ext st m Hok). by split.
    + split; [intros n ws0 E Hn; by destruct (Hw2 n ws0 E)|]. cbn. intros E. right. by apply Hw1.
  - destruct Hr as (Hs & -> & Hl & Hlen). destruct (IH ws st1 m) as (st' & sent & rest & -> & Hs' & Hm & Hw & Hf); [apply Hs|destruct Hs; lia|lia|].
    exists st', sent, rest. split; [done|]. split; [by apply (sends_trans _ _ _ _ _ _ _ _ _ Hs Hs')|]. split; [done|]. split; [done|]. by rewrite Hl in Hf.
  - destruct Hr as (sent1 & rest1 & w & k & Hs & Hne & -> & Hl). case_match eqn:Ebreak.
    { exists st1, sent1, rest1. split; [done|]. split; [done|]. split; [|split; [done|by rewrite Hl]].
      intros ->. destruct Hs as [E]. symmetry in E. by apply app_nil in E as [-> _]. }
    cbn [length] in Hfuel. destruct (IH ws1 st1 rest1) as (st' & sent & rest & -> & Hs' & Hm & Hw & Hf); [apply Hs|destruct Hs; lia|destruct Hs; lia|].
    exists st', (sent1 ++ sent), rest. split; [done|]. split; [by eapply sends_trans|]. split; [|split].
    + intros ->. destruct Hs as [E]. symmetry in E. by apply app_nil in E as [-> _].
    + intros _ _ _ _ _ E. by apply app_nil in E as [-> _].
    + intros E. right. destruct (Hf E) as [E'|Hin]; [by rewrite Hl in E'|by right].
Qed.
End send.
