(* ===== verification/ReplyDeferred.v ===== *)
(** * Lengths known later

    A header is promised before its elements are known: an object without
    text holds its place in the list until the length is set. *)

From S2P Require Import Prelude Util Sds SdsText Object Client Reply ReplySpec ReplyOps ReplyText ReplySend.
From stdpp Require Import gmap sets.
Local Open Scope Z_scope.

Section deferred.
Context (junk : nat → Z) (malloc_size : sdshdr → Z) (limits : Z → obuf_limit) (unixtime : Z) (ae_create : bool).
Context (malloc_size_bound : ∀ s, 0 ≤ malloc_size s < 2 ^ 33).
Implicit Types (h : oheap) (c : redisClient).
#[local] Abbreviation out_ok := (out_ok malloc_size).

(** ** The place in the list *)

Lemma bytes_before t r s1 (o : addr) s2 :
  bytes t ++ r = s1 ++ inr o :: s2 → ∃ s1', s1 = bytes t ++ s1' ∧ r = s1' ++ inr o :: s2.
Proof.
  revert s1. induction t as [|x t IH]; intros s1 E; [by exists s1|]. destruct s1 as [|y s1]; [done|].
  cbn in E. injection E as <- E. destruct (IH s1 E) as (s1' & -> & ->). by exists s1'.
Qed.

Lemma locate_hole h l parts s1 o s2 :
  Forall2 (shows_items h) l parts → concat parts = s1 ++ inr o :: s2 →
  ∃ l1 l2 ps1 ps2, l = l1 ++ o :: l2 ∧ parts = ps1 ++ [inr o] :: ps2 ∧ Forall2 (shows_items h) l1 ps1 ∧ Forall2 (shows_items h) l2 ps2 ∧
    concat ps1 = s1 ∧ concat ps2 = s2.
Proof.
  intros Hf. revert s1. induction Hf as [|a p l parts Ha Hf IH]; intros s1 E; [by destruct s1|]. cbn [concat] in E.
  pose proof Ha as (ob & Hob & _ & _ & Hp).
  assert ((∃ t, p = bytes t) ∨ p = [inr a]) as [(t & ->)| ->] by (destruct (ptr ob); [destruct Hp as (t & _ & ->); left; by exists t|done|by right; destruct Hp|done]).
  - apply bytes_before in E as (s1' & -> & E). destruct (IH _ E) as (l1 & l2 & ps1 & ps2 & -> & -> & H1 & H2 & <- & <-).
    exists (a :: l1), l2, (bytes t :: ps1), ps2. split_and!; try done. by constructor.
  - destruct s1 as [|y s1]; injection E as E1 E; [subst; by exists [], l, [], parts|subst y].
    destruct (IH _ E) as (l1 & l2 & ps1 & ps2 & -> & -> & H1 & H2 & <- & <-).
    exists (a :: l1), l2, ([inr a] :: ps1), ps2. split_and!; try done. by constructor.
Qed.

Lemma node_after_ok l1 o l2 : o ∉ l1 → node_after (l1 ++ o :: l2) o = head l2 ∧ del_after (l1 ++ o :: l2) o = l1 ++ o :: tail l2.
Proof.
  induction l1 as [|a l1 IH]; intros Hn; cbn [app node_after del_after].
  - by rewrite !decide_True by done.
  - apply not_elem_of_cons in Hn as [Hne Hn]. rewrite !decide_False by done. destruct (IH Hn) as [-> ->]. done.
Qed.

(** The stream with the hole filled by [hd], from lists with it filled. *)
Lemma filled_stream ext h c st1 o st2 :
  out_ok ext h c (st1 ++ inr o :: st2) →
  ∃ l1 l2 ps1 ps2, reply (cout c) = l1 ++ o :: l2 ∧ Forall2 (shows_items h) l1 ps1 ∧ shows_items h o [inr o] ∧ Forall2 (shows_items h) l2 ps2 ∧ concat ps2 = st2 ∧
    ∀ h' c' l' ps' hd, cbuf (cout c') = cbuf (cout c) → bufpos (cout c') = bufpos (cout c) → sentlen (cout c') = sentlen (cout c) →
      counted ext h' (l1 ++ l') → reply (cout c') = l1 ++ l' → Forall2 (shows_items h') (l1 ++ l') (ps1 ++ ps') → concat ps' = hd ++ st2 →
      0 ≤ list_size malloc_size h' (l1 ++ l') ≤ reply_bytes (cout c') → out_ok ext h' c' (st1 ++ hd ++ st2).
Proof.
  intros [Hb Hp Hc Hz (parts & Hf & Hs & Hst)]. pose proof (sent_le c parts Hb Hp Hs) as Hle.
  set (A := take (Z.to_nat (bufpos (cout c))) (cbuf (cout c))) in *. set (k := Z.to_nat (sentlen (cout c))) in *.
  assert (bytes A ++ concat parts = (take k (bytes A ++ concat parts) ++ st1) ++ inr o :: st2) as E by (rewrite <- app_assoc, Hst; by rewrite take_drop).
  apply bytes_before in E as (s1' & E1 & E2). destruct (locate_hole h _ _ _ _ _ Hf E2) as (l1 & l2 & ps1 & ps2 & El & -> & H1 & H2 & Es1 & Es2).
  exists l1, l2, ps1, ps2. split; [done|]. split; [done|].
  assert (shows_items h o [inr o]) as Ho by (rewrite El in Hf; apply Forall2_app_inv in Hf as [_ Hf]; [by apply Forall2_cons in Hf as [? _]|by eapply Forall2_length]).
  split; [done|]. split; [done|]. split; [done|]. intros h' c' l' ps' hd Eb Ep Es Hc' El' Hf' Ecat Hz'.
  split; rewrite ?Eb, ?Ep, ?El'; try done. exists (ps1 ++ ps'). split; [done|]. split.
  - unfold sent_ok in *. rewrite Ep, Es. destruct Hs as [Hs0 Hs]. split; [done|]. destruct (bufpos (cout c) >? 0); [done|].
    destruct ps1 as [|p ps1]; [|done]. cbn [app] in *. destruct Hs as [E|[_ (t & E)]]; [|by destruct t]. rewrite E. destruct ps'; [done|by left].
  - rewrite Es. fold A k. rewrite concat_app, Es1, Ecat. rewrite (app_assoc (bytes A) s1'), <- E1, <- app_assoc. rewrite drop_app_length'; [done|].
    rewrite length_take. lia.
Qed.

(** Filling the object of the hole. *)
Lemma fill_ok ext h l1 o l2 ps1 ps2 lob s t :
  counted ext h (l1 ++ o :: l2) → Forall2 (shows_items h) l1 ps1 → Forall2 (shows_items h) l2 ps2 →
  h !! o = Some lob → otype lob = REDIS_STRING → oencoding lob = REDIS_ENCODING_RAW → ptr lob = PtrNull → refcount lob = 1 → rep s t →
  let h' := <[o := set_ptr lob (PtrSds s)]> h in
  o ∉ l1 ∧ counted ext h' (l1 ++ o :: l2) ∧ Forall2 (shows_items h') l1 ps1 ∧ shows_items h' o (bytes t) ∧ Forall2 (shows_items h') l2 ps2 ∧
    (∀ a, a ∈ l2 → h' !! a = h !! a) ∧ list_size malloc_size h' (l1 ++ o :: l2) = list_size malloc_size h (l1 ++ o :: l2) + malloc_size s ∧ keeps ext h h'.
Proof.
  intros Hc H1 H2 Ho Ht He Hp Hr Hrep h'. pose proof (Hc o) as Hco. rewrite Ho in Hco.
  change (o :: l2) with ([o] ++ l2) in Hco. rewrite !refs_app, refs_one, decide_True in Hco by done.
  pose proof (refs_nonneg l1 o). pose proof (refs_nonneg l2 o). assert (∀ l, refs l o = 0 → o ∉ l) as Hin by (intros l E Hin; apply refs_in in Hin; lia).
  assert (o ∉ l1) as Hn1 by (apply Hin; lia). assert (o ∉ l2) as Hn2 by (apply Hin; lia).
  assert (∀ l : list addr, o ∉ l → ∀ a, a ∈ l → h' !! a = h !! a) as Hsame by (intros l Hn a Ha; unfold h'; rewrite lookup_insert_ne; [done|congruence]).
  split; [done|]. split; [|split; [|split; [|split; [|split; [by apply Hsame|split]]]]].
  - intros a. specialize (Hc a). unfold h'. destruct (decide (a = o)) as [-> |Hne]; [rewrite lookup_insert_eq; rewrite Ho in Hc; done|by rewrite lookup_insert_ne].
  - eapply shows_ext; [by apply Hsame|done].
  - exists (set_ptr lob (PtrSds s)). unfold h'. rewrite lookup_insert_eq. split_and!; try done. by exists t.
  - eapply shows_ext; [by apply Hsame|done].
  - rewrite !list_size_app. change (o :: l2) with ([o] ++ l2). rewrite !list_size_app, !list_size_one.
    rewrite (list_size_ext malloc_size h h' l1), (list_size_ext malloc_size h h' l2) by (intros a Ha; unfold obj_size; by rewrite (Hsame _ Hn1 a Ha) || by rewrite (Hsame _ Hn2 a Ha)).
    unfold obj_size, h'. rewrite lookup_insert_eq, Ho, Hp. cbn. lia.
  - intros a Ha oa E. exists oa. unfold h'. rewrite lookup_insert_ne; [done|]. intros <-. lia.
Qed.

Lemma refs_perm l1 l2 o : l1 ≡ₚ l2 → refs l1 o = refs l2 o.
Proof. intros E. unfold refs. by rewrite E. Qed.

Lemma counted_perm ext h l1 l2 : l1 ≡ₚ l2 → counted ext h l1 → counted ext h l2.
Proof. intros E Hc o. specialize (Hc o). by rewrite (refs_perm _ _ o E) in Hc. Qed.

Lemma list_size_perm h l1 l2 : l1 ≡ₚ l2 → list_size malloc_size h l1 = list_size malloc_size h l2.
Proof. unfold list_size. induction 1; cbn [foldr]; lia. Qed.

Lemma list_size_del h l1 (o nx : addr) l2 :
  list_size malloc_size h (l1 ++ o :: nx :: l2) = list_size malloc_size h (l1 ++ o :: l2) + obj_size malloc_size h nx.
Proof.
  change (o :: nx :: l2) with ([o] ++ [nx] ++ l2). change (o :: l2) with ([o] ++ l2). rewrite !list_size_app, (list_size_one malloc_size h nx). lia.
Qed.

(** Releasing the object after the one at [o]. *)
Lemma pop_middle ext h l1 o nx l2 ps1 po pn ps2 :
  counted ext h (l1 ++ o :: nx :: l2) → Forall2 (shows_items h) (l1 ++ o :: nx :: l2) (ps1 ++ po :: pn :: ps2) → length l1 = length ps1 →
  (∃ ob s, h !! nx = Some ob ∧ ptr ob = PtrSds s) →
  ∃ h', decrRefCount h nx = Some h' ∧ counted ext h' (l1 ++ o :: l2) ∧ Forall2 (shows_items h') (l1 ++ o :: l2) (ps1 ++ po :: ps2) ∧
    list_size malloc_size h' (l1 ++ o :: l2) = list_size malloc_size h (l1 ++ o :: l2) ∧ keeps ext h h'.
Proof.
  intros Hc Hf Hl Hs. apply Forall2_app_inv in Hf as [H1 H2]; [|done]. apply Forall2_cons in H2 as [Ho H2]. apply Forall2_cons in H2 as [Hn H2].
  apply (pop_ok malloc_size ext h nx (l1 ++ o :: l2) pn (ps1 ++ po :: ps2)); [|constructor; [done|by apply Forall2_app; [done|constructor]]|done].
  eapply counted_perm; [|exact Hc]. change (o :: nx :: l2) with ([o] ++ nx :: l2). rewrite app_assoc, <- Permutation_middle. by rewrite <- app_assoc.
Qed.

Lemma printf_ld_ok v : LONG_MIN ≤ v ≤ LONG_MAX → decimal_repr v (printf_ld v) ∧ len (printf_ld v) ≤ 20 ∧ Forall (λ x, x ≠ 0) (printf_ld v).
Proof.
  intros Hv. unfold printf_ld. destruct (ll2string_repr (replicate 32 0) 32 v Hv ltac:(by rewrite length_replicate)) as (t & Ht & E).
  pose proof (decimal_repr_len v t Ht Hv). rewrite E, Z.geb_leb, (proj2 (Z.leb_gt _ _)) by lia. bsimpl. cbn [default]. unfold default, id.
  rewrite Nat2Z.id, take_app_length. split; [done|]. split; [lia|]. destruct Ht as (ds & Hds & _ & _ & _ & ->).
  apply Forall_app. split; [destruct (v <? 0); [by apply Forall_singleton|constructor]|]. eapply Forall_impl; [exact Hds|]. intros x Hx. unfold digit in Hx. lia.
Qed.

Lemma setDeferred_ok ext h c st1 o st2 n :
  out_ok ext h c (st1 ++ inr o :: st2) → room 1 c → LONG_MIN ≤ n ≤ LONG_MAX → len st2 < 2 ^ 29 →
  ∃ m h' c', setDeferredMultiBulkLength junk malloc_size limits unixtime h c (Some o) n = Some (h', c') ∧ header_text 42 n m ∧
    out_ok ext h' c' (st1 ++ bytes m ++ st2) ∧ near c c' ∧ keeps ext h h' ∧ grows 1 c c'.
Proof.
  intros Hok [Hr1 Hr2] Hn Hst2. destruct (printf_ld_ok n Hn) as (Hd & Hdl & Hnz). pose proof Hok as [_ _ Hc Hz _].
  set (m := str "*" ++ printf_ld n ++ [13; 10]). assert (header_text 42 n m) as Hm by (by exists (printf_ld n)).
  assert (len m ≤ 23) as Hml by (unfold m; rewrite !length_app; change (length (str "*")) with 1%nat; cbn [length]; lia).
  destruct (sdsempty_ok junk) as (s0 & Es0 & Hs0). destruct (sdscatprintf_ok junk s0 [] 6 m Hs0) as (s1 & Es1 & Hs1); [unfold m; apply Forall_app; split; [repeat constructor; done|apply Forall_app; split; [done|repeat constructor; done]]|unfold fits; change (len []) with 0; lia|]. change ([] ++ m) with m in Hs1.
  destruct (filled_stream ext h c st1 o st2 Hok) as (l1 & l2 & ps1 & ps2 & El & H1 & (lob & Ho & Ht & He & Hp) & H2 & Est & Hfill). rewrite El in *.
  destruct (ptr lob) eqn:Hptr; [by destruct Hp as ([|x t] & _ & ?)|done| |done]. destruct Hp as [Hr _].
  destruct (fill_ok ext h l1 o l2 ps1 ps2 lob s1 m) as (Hn1 & Hc1 & Hf1 & Hfo & Hf2 & Hsame & Hz1 & Hk1); [done..|].
  set (h1 := <[o := set_ptr lob (PtrSds s1)]> h) in *. pose proof (malloc_size_bound s1) as Hms1.
  unfold setDeferredMultiBulkLength. rewrite Ho. bsimpl. rewrite Es0. bsimpl. fold m. rewrite Es1. bsimpl. fold h1.
  assert (u64 (reply_bytes (cout c) + malloc_size s1) = reply_bytes (cout c) + malloc_size s1) as -> by (apply uwrap_small; lia).
  change (reply (cout (set_reply_bytes c ?x))) with (reply (cout c)). rewrite El.
  destruct (node_after_ok l1 o l2 Hn1) as [-> ->].
  assert (∀ h' l' n', counted ext h' (l1 ++ l') → keeps ext h h' → len (l1 ++ l') ≤ len (l1 ++ o :: l2) → (∃ ps', Forall2 (shows_items h') (l1 ++ l') (ps1 ++ ps') ∧ concat ps' = bytes m ++ st2) →
     0 ≤ list_size malloc_size h' (l1 ++ l') ≤ n' → n' ≤ reply_bytes (cout c) + 2 ^ 33 →
     ∃ h'' c', (c ← asyncCloseClientOnOutputBufferLimitReached limits unixtime (set_reply_bytes (set_reply c (l1 ++ l')) n'); Some (h', c)) = Some (h'', c') ∧
       out_ok ext h'' c' (st1 ++ bytes m ++ st2) ∧ near c c' ∧ keeps ext h h'' ∧ grows 1 c c') as Hfin.
  { intros h' l' n' Hc' Hk' Hl' (ps' & Hf' & Ecat) Hn' Hnb. set (c1 := set_reply_bytes _ _).
    destruct (async_ok limits unixtime c1) as (c2 & -> & Hnear & Hout); [cbn; lia|]. bsimpl. exists h', c2. split; [done|].
    split; [apply (out_ok_same malloc_size ext h' c1); [done|by eapply (Hfill h' c1 l' ps')]|]. split; [etrans; [|exact Hnear]; by split|]. split; [done|].
    unfold grows. rewrite Hout. cbn. rewrite El. lia. }
  exists m.
  assert (set_reply_bytes c (reply_bytes (cout c) + malloc_size s1) = set_reply_bytes (set_reply c (l1 ++ o :: l2)) (reply_bytes (cout c) + malloc_size s1)) as Ec1
    by (rewrite <- El; by destruct c as [? ? ? ? ? ? ? ? []]).
  assert (∃ h'' c', (c ← asyncCloseClientOnOutputBufferLimitReached limits unixtime (set_reply_bytes c (reply_bytes (cout c) + malloc_size s1)); Some (h1, c)) = Some (h'', c') ∧
       out_ok ext h'' c' (st1 ++ bytes m ++ st2) ∧ near c c' ∧ keeps ext h h'' ∧ grows 1 c c') as Halone.
  { rewrite Ec1. apply Hfin; [done|done|lia| |rewrite Hz1; lia|lia].
    exists (bytes m :: ps2). split; [|cbn [concat]; by rewrite Est]. apply Forall2_app; [done|by constructor]. }
  destruct l2 as [|nx l2]; cbn [head tail]; bsimpl; [destruct Halone as (h'' & c' & -> & ?); by exists h'', c'|].
  assert (h1 !! nx = h !! nx) as Enx by (apply Hsame; by left).
  apply Forall2_cons_inv_l in H2 as (pn & ps3 & (nob & Hnx & Hnt & Hne & Hnp) & H3 & ->).
  rewrite Enx, Hnx. bsimpl. destruct (ptr nob) as [t| | |] eqn:Enp; [|done|bsimpl; destruct Halone as (h'' & c' & -> & ?); by exists h'', c'|done].
  destruct Hnp as (tt & Hrt & ->). destruct (rep_buf t tt Hrt) as (rest & Eb & Elen). rewrite Eb, Elen.
  assert (len tt ≤ len st2) as Htt by (rewrite <- Est; cbn [concat]; rewrite length_app; unfold bytes; rewrite length_fmap; lia).
  destruct (sdscatlen_ok junk s1 m tt (0 :: rest) (len tt) Hs1 eq_refl ltac:(unfold fits; lia)) as (s2 & -> & Hs2). bsimpl.
  assert (Forall2 (shows_items h) (nx :: l2) (bytes tt :: ps3)) as H2' by (constructor; [exists nob; rewrite Enp; split_and!; try done; by exists tt|done]).
  destruct (fill_ok ext h l1 o (nx :: l2) ps1 (bytes tt :: ps3) lob s2 (m ++ tt)) as (_ & Hc2 & Hf1' & Hfo' & Hf2' & Hsame2 & Hz2 & Hk2); [done..|].
  set (h2 := <[o := set_ptr lob (PtrSds s2)]> h) in *. replace (<[o := set_ptr lob (PtrSds s2)]> h1) with h2 by (unfold h1, h2; by rewrite insert_insert_eq).
  destruct (pop_middle ext h2 l1 o nx l2 ps1 (bytes (m ++ tt)) (bytes tt) ps3) as (h3 & -> & Hc3 & Hf3 & Hz3 & Hk3);
    [done|apply Forall2_app; [done|by constructor]|by eapply Forall2_length|exists nob, t; rewrite Hsame2 by left; done|]. bsimpl.
  pose proof (malloc_size_bound s2). pose proof (malloc_size_bound t).
  pose proof (list_size_del h2 l1 o nx l2) as Ez2. pose proof (list_size_del h l1 o nx l2) as Ez0.
  assert (obj_size malloc_size h2 nx = malloc_size t ∧ obj_size malloc_size h nx = malloc_size t) as [Et2 Et0]
    by (unfold obj_size; rewrite Hsame2 by left; by rewrite Hnx, Enp).
  pose proof (list_size_nonneg malloc_size malloc_size_bound h2 (l1 ++ o :: l2)). pose proof (list_size_nonneg malloc_size malloc_size_bound h (l1 ++ o :: l2)).
  cbn [cout set_reply_bytes set_out reply_bytes]. rewrite (uwrap_small 64 (_ - malloc_size s1)), (uwrap_small 64 (_ - malloc_size t)), (uwrap_small 64 (_ + malloc_size s2)) by lia.
  destruct (Hfin h3 (o :: l2) (reply_bytes (cout c) + malloc_size s1 - malloc_size s1 - malloc_size t + malloc_size s2)) as (h'' & c' & E & Hres);
    [done|by etrans|rewrite !length_app; cbn [length]; lia| |rewrite Hz3; lia|lia|].
  { exists (bytes (m ++ tt) :: ps3). split; [done|]. cbn [concat]. rewrite <- Est, bytes_app. cbn [concat]. by rewrite <- app_assoc. }
  exists h'', c'. split; [|done]. rewrite <- E. done.
Qed.
(** The promise. *)
Lemma hole_ok ext h c st o :
  out_ok ext h c st → h !! o = None →
  out_ok ext (<[o := mkObj REDIS_STRING REDIS_ENCODING_RAW 1 PtrNull]> h) (set_reply c (reply (cout c) ++ [o])) (st ++ [inr o]).
Proof.
  intros [Hb Hp Hc Hsz (parts & Hf & Hsent & ->)] Hn. pose proof (Hc o) as Hco. rewrite Hn in Hco. set (h' := <[o := _]> h).
  assert (∀ a, a ∈ reply (cout c) → h' !! a = h !! a) as Hl.
  { intros a Ha. destruct (shows_live _ _ _ _ Hf Ha) as [ob E]. unfold h'. rewrite lookup_insert_ne; [done|congruence]. }
  split; cbn [cout set_reply set_out cbuf bufpos reply reply_bytes sentlen]; [done..| | |].
  - intros a. rewrite refs_app, refs_one. specialize (Hc a). unfold h'. destruct (decide (o = a)) as [<- |Hne].
    + rewrite lookup_insert_eq. rewrite Hn in Hc. cbn. lia.
    + rewrite lookup_insert_ne by done. destruct (h !! a); lia.
  - rewrite list_size_app, list_size_one, (list_size_ext malloc_size h h') by (intros a Ha; unfold obj_size; by rewrite Hl).
    unfold obj_size, h'. rewrite lookup_insert_eq. cbn. lia.
  - exists (parts ++ [[inr o]]). split; [|split].
    + apply Forall2_app; [by eapply shows_ext|]. constructor; [|constructor]. eexists. unfold h'. rewrite lookup_insert_eq. by split_and!.
    + destruct Hsent as [Hs0 Hs]. split; [done|]. cbn [cout set_reply set_out bufpos sentlen]. destruct (_ >? 0); [done|].
      destruct parts as [|p parts]; [by left|done].
    + pose proof (sent_le c _ Hb Hp Hsent) as Hle. rewrite concat_app. cbn [concat]. rewrite app_nil_r, app_assoc. symmetry. by apply drop_append.
Qed.

Lemma addDeferred_ok ext h c st :
  out_ok ext h c st → accepts ae_create c = true →
  ∃ h' c' o, addDeferredMultiBulkLength ae_create h c = (h', c', Some o) ∧ out_ok ext h' c' (st ++ [inr o]) ∧ near c c' ∧ keeps ext h h' ∧
    accepts ae_create c' = true ∧ grows 1 c c' ∧ (writable (cout (prepareClientToWrite ae_create c).1) = true → writable (cout c') = true).
Proof.
  intros Hok Hacc. pose proof Hacc as Ha. unfold accepts in Ha. apply andb_true_iff in Ha as [Ha _]. unfold addDeferredMultiBulkLength.
  destruct (prepareClientToWrite ae_create c) as [c1 ok] eqn:Hprep. cbn [fst snd] in *.
  destruct (prepare_steps malloc_size ae_create ext h c st c1 ok Hprep Hok) as (Hn & Hok1 & Hbp & Hl & Hrb & Hfl & _).
  rewrite Ha. cbn [negb]. unfold createObject. cbv zeta. set (o := fresh (dom h)).
  assert (h !! o = None) as Hno by (apply not_elem_of_dom, is_fresh).
  eexists _, _, o. split; [done|]. split; [by apply hole_ok|]. pose proof (out_pos _ _ _ _ _ Hok).
  split; [etrans; [exact Hn|by split]|]. split; [|split; [|split; [|done]]].
  - intros a _ oa E. exists oa. rewrite lookup_insert_ne; [done|congruence].
  - eapply accepts_mono; [etrans; [exact Hn|by split]|cbn; intros _; by destruct (reply (cout c1))|cbn; lia|done].
  - unfold grows. cbn. rewrite Hl, Hrb, length_app. cbn. lia.
Qed.
End deferred.
