(* ===== verification/ReplyThms.v ===== *)
(** * Replies reach the socket

    Any sequence of replies extends the stream by the texts it should; the
    write handler takes a prefix of the stream to the socket and keeps the
    rest; called often enough, it sends everything and then rests. *)

From S2P Require Import Prelude Util Sds SdsText Object Client Reply ReplySpec ReplyOps ReplyText ReplySend ReplyDeferred.
From stdpp Require Import gmap sets.
Local Open Scope Z_scope.

Section theorems.
Context (junk : nat → Z) (malloc_size : sdshdr → Z) (limits : Z → obuf_limit) (unixtime : Z) (ae_create : bool) (shared : shared_objects).
Context (malloc_size_bound : ∀ s, 0 ≤ malloc_size s < 2 ^ 33).
Implicit Types (h : oheap) (c : redisClient).
#[local] Abbreviation out_ok := (out_ok malloc_size).
#[local] Abbreviation run_reply := (run_reply junk malloc_size limits unixtime ae_create shared).
#[local] Abbreviation handler := (sendReplyToClient malloc_size unixtime).
#[local] Abbreviation emits := (emits malloc_size ae_create).

(** A command's replies, in order. *)
Fixpoint run_replies (ops : list reply_op) h c : option (oheap * redisClient) :=
  match ops with
  | [] => Some (h, c)
  | op :: ops => '(h, c) ← run_reply h c op; run_replies ops h c
  end.

(** The event loop calls the handler while it is installed, each time with the
    server below its memory limit or not and a socket that takes some bytes. *)
Fixpoint drain (events : list (bool * list wresult)) h c : option (oheap * option redisClient * list Z) :=
  if writable (cout c) then
    match events with
    | [] => Some (h, Some c, [])
    | (below, ws) :: events =>
        '(h, r, out) ← handler below ws h c;
        match r with
        | None => Some (h, None, out)
        | Some c => '(h, r, out') ← drain events h c; Some (h, r, out ++ out')
        end
    end
  else Some (h, Some c, []).

Lemma reply_text_keeps ext h h' c st op w : keeps ext h h' → out_ok ext h' c st → reply_text ext h op w → reply_text ext h' op w.
Proof.
  intros Hk Hok. destruct op; cbn; try done; [by eapply held_keeps|]. intros (m & Hh & Hw). exists m. split; [by eapply held_keeps|done].
Qed.

Lemma run_replies_emits op ops : ∀ ext h c st ws,
  out_ok ext h c st → room (3 * len (op :: ops)) c → shared_replies shared ext h → Forall2 (reply_text ext h) (op :: ops) ws →
  emits (3 * len (op :: ops)) ext h c st (bytes (concat ws)) (run_replies (op :: ops) h c).
Proof.
  revert op. induction ops as [|op2 ops IH]; intros op ext h c st ws Hok Hroom Hsh Hws;
    apply Forall2_cons_inv_l in Hws as (w & ws' & Hw & Hws & ->).
  - apply Forall2_nil_inv_l in Hws as ->. cbn [concat run_replies]. rewrite app_nil_r.
    pose proof (run_reply_ok junk malloc_size limits unixtime ae_create shared malloc_size_bound ext h c st op w Hok Hroom Hsh Hw) as He.
    destruct He as (h' & c' & -> & He). by exists h', c'.
  - cbn [concat]. rewrite bytes_app. replace (3 * len (op :: op2 :: ops)) with (3 + 3 * len (op2 :: ops)) in * by (cbn [length]; lia).
    cbn [run_replies]. eapply emits_bind; [apply run_reply_ok; try done; unfold room in *; lia|].
    intros h1 c1 st1 Hok1 _ Hk1 Hb1. apply IH; [done|by eapply room_step|by eapply shared_keeps|].
    eapply Forall2_impl; [exact Hws|]. intros op' w'. by eapply reply_text_keeps.
Qed.

(** C39. Replies extend the stream by their texts: any sequence of them,
    starting from any state of the buffer, appends exactly the concatenation of
    their texts to what the client is to receive, or nothing when the client
    takes no replies; what the rest of the server holds is not touched. *)
Theorem replies_extend_stream ext h c st ops ws :
  out_ok ext h c st → room (3 * len ops) c → shared_replies shared ext h → Forall2 (reply_text ext h) ops ws →
  ∃ h' c', run_replies ops h c = Some (h', c') ∧ out_ok ext h' c' (st ++ if accepts ae_create c then bytes (concat ws) else []) ∧
    near c c' ∧ keeps ext h h'.
Proof.
  intros Hok Hroom Hsh Hws. destruct ops as [|op ops].
  - apply Forall2_nil_inv_l in Hws as ->. exists h, c. split_and!; try done. cbn. destruct (accepts _ _); by rewrite app_nil_r.
  - destruct (run_replies_emits op ops ext h c st ws) as (h' & c' & E & H1 & H2 & H3 & _); [done..|]. by exists h', c'.
Qed.

(** A deferred length: between the promise of a header and its number any
    replies may be added; once the length is set, the stream has the header,
    then the replies. *)
Theorem deferred_multibulk_spec ext h c st ops ws n :
  out_ok ext h c st → accepts ae_create c = true → room (3 * len ops + 2) c → shared_replies shared ext h → Forall2 (reply_text ext h) ops ws →
  LONG_MIN ≤ n ≤ LONG_MAX → len (concat ws) < 2 ^ 29 →
  ∃ m h' c', header_text 42 n m ∧
    (let '(h, c, node) := addDeferredMultiBulkLength ae_create h c in
     '(h, c) ← run_replies ops h c; setDeferredMultiBulkLength junk malloc_size limits unixtime h c node n) = Some (h', c') ∧
    out_ok ext h' c' (st ++ bytes (m ++ concat ws)) ∧ near c c' ∧ keeps ext h h'.
Proof.
  intros Hok Hacc Hroom Hsh Hws Hn Hlen.
  destruct (addDeferred_ok malloc_size ae_create ext h c st Hok Hacc) as (h1 & c1 & o & -> & Hok1 & Hn1 & Hk1 & Ha1 & Hg1 & _).
  assert (∃ h2 c2, run_replies ops h1 c1 = Some (h2, c2) ∧ out_ok ext h2 c2 (st ++ inr o :: bytes (concat ws)) ∧ near c1 c2 ∧ keeps ext h1 h2 ∧
    grows (3 * len ops) c1 c2) as (h2 & c2 & -> & Hok2 & Hn2 & Hk2 & Hg2).
  { assert (shared_replies shared ext h1) as Hsh1 by (by eapply shared_keeps).
    assert (Forall2 (reply_text ext h1) ops ws) as Hws1 by (eapply Forall2_impl; [exact Hws|]; intros op' w'; by eapply reply_text_keeps).
    destruct ops as [|op ops].
    - apply Forall2_nil_inv_l in Hws1 as ->. exists h1, c1. split_and!; try done. unfold grows. cbn. lia.
    - destruct (run_replies_emits op ops ext h1 c1 (st ++ [inr o]) ws) as (h2 & c2 & E & H1 & H2 & H3 & _ & H5 & _); [done|unfold room, grows in *; lia|done..|].
      exists h2, c2. rewrite Ha1, <- app_assoc in H1. done. }
  destruct (setDeferred_ok junk malloc_size limits unixtime malloc_size_bound ext h2 c2 st o (bytes (concat ws)) n) as (m & h3 & c3 & E & Hm & Hok3 & Hn3 & Hk3 & _);
    [done|unfold room, grows in *; lia|done|unfold bytes; by rewrite length_fmap|].
  exists m, h3, c3. bsimpl. rewrite bytes_app. split_and!; try done; [by do 2 (etrans; [done|])|by do 2 (etrans; [done|])].
Qed.

(** ** The handler *)

Record same_client c c' : Prop := {
  sc_in : cin c' = cin c; sc_fd : cfd c' = cfd c; sc_flags : cflags c' = cflags c; sc_repl : replstate c' = replstate c
}.

Lemma handler_ok ext below ws h c m :
  out_ok ext h c (bytes m) → reply_bytes (cout c) < 2 ^ 64 →
  ∃ h' r sent rest, handler below ws h c = Some (h', r, sent) ∧ m = sent ++ rest ∧ keeps ext h h' ∧
    (∀ n ws0, ws = Wrote n :: ws0 → 1 ≤ n → m ≠ [] → sent ≠ []) ∧
    match r with
    | Some c' => out_ok ext h' c' (bytes rest) ∧ same_client c c' ∧ reply_bytes (cout c') ≤ reply_bytes (cout c) ∧ (m = [] → idle c') ∧
        (idle c' → writable (cout c') = false ∧ has_flag c REDIS_CLOSE_AFTER_REPLY = false) ∧ (¬ idle c' → writable (cout c') = writable (cout c))
    | None => WFailed false ∈ ws ∨ rest = [] ∧ has_flag c REDIS_CLOSE_AFTER_REPLY = true
    end.
Proof.
  intros Hok Hrb. unfold sendReplyToClient.
  destruct (send_loop_ok malloc_size malloc_size_bound below ext (S (length ws + length (reply (cout c)))) ws (mkSending h c (Wrote 0) 0 []) m)
    as (st & sent & rest & -> & Hs & Hm & Hp & Hf); [done|done|cbn; lia|]. bsimpl.
  destruct st as [h' c1 last tot out]. destruct Hs as [Em Hok' Hk (o & Ec1 & Hwr) _ Eo Hb _]. cbn [s_heap s_client s_last s_total s_out app] in *. subst c1 out.
  assert (∃ c2, (if tot >? 0 then if negb (has_flag (set_out c o) REDIS_MASTER) then set_lastinteraction (set_out c o) unixtime else set_out c o else set_out c o) = c2 ∧
    same_client c c2 ∧ cout c2 = o) as (c2 & -> & Hsc & Ho) by (repeat case_match; (eexists; split; [done|]; split; [by split|done])).
  assert (∃ r, (match last with WFailed false => Some (h', None, sent)
    | _ => if (bufpos (cout c2) =? 0) && (len (reply (cout c2)) =? 0) then
        Some (h', if has_flag (set_writable (set_sentlen c2 0) false) REDIS_CLOSE_AFTER_REPLY then None else Some (set_writable (set_sentlen c2 0) false), sent)
      else Some (h', Some c2, sent) end) = Some (h', r, sent) ∧ match r with
    | Some c' => out_ok ext h' c' (bytes rest) ∧ same_client c c' ∧ reply_bytes (cout c') ≤ reply_bytes (cout c) ∧ (m = [] → idle c') ∧
        (idle c' → writable (cout c') = false ∧ has_flag c REDIS_CLOSE_AFTER_REPLY = false) ∧ (¬ idle c' → writable (cout c') = writable (cout c))
    | None => WFailed false ∈ ws ∨ rest = [] ∧ has_flag c REDIS_CLOSE_AFTER_REPLY = true
    end) as (r & E & Hr).
  2:{ exists h', r, sent, rest. split; [|done]. cbv zeta. destruct last as [|[|]]; exact E. }
  assert (out_ok ext h' c2 (bytes rest)) as Hok2 by (eapply out_ok_same; [|exact Hok']; by rewrite Ho).
  assert (has_flag c2 REDIS_CLOSE_AFTER_REPLY = has_flag c REDIS_CLOSE_AFTER_REPLY) as Hfl by (unfold has_flag; by rewrite (sc_flags _ _ Hsc)).
  destruct (decide (last = WFailed false)) as [-> |Hnf].
  { eexists. split; [done|]. destruct (Hf eq_refl) as [?|?]; [done|by left]. }
  assert (∀ A (x y : A), (match last with WFailed false => x | _ => y end) = y) as Ey by (intros A x y; by destruct last as [|[]]).
  rewrite Ey. rewrite Ho. rewrite list_nil_len. destruct (Z.eqb_spec (bufpos o) 0) as [E0|E0]; [case_bool_decide as E1|]; cbn [andb]; (eexists; split; [done|]).
  - assert (rest = []) as -> by (by apply (nothing_left malloc_size ext h' (set_out c o))).
    change (has_flag (set_writable (set_sentlen c2 0) false)) with (has_flag c2). rewrite Hfl. destruct (has_flag c REDIS_CLOSE_AFTER_REPLY); [by right|].
    assert (out_ok ext h' (set_writable (set_sentlen c2 0) false) (bytes [])) as Hok3.
    { destruct Hok2 as [H1 H2 H3 H4 H5]. split; cbn; try done. exists []. rewrite Ho in *. rewrite E0, E1. split; [constructor|]. split; [|done].
      split; cbn; [lia|]. rewrite Ho, E0. done. }
    split; [done|]. split; [destruct Hsc; by split|]. split; [cbn; by rewrite Ho|]. split; [intros _; split; cbn; by rewrite Ho|]. split; [done|].
    intros Hni. destruct Hni. split; cbn; by rewrite Ho.
  - split; [done|]. split; [done|]. split; [by rewrite Ho|]. split; [intros E; by rewrite <- Ho in *; apply Hm|]. rewrite Ho. split; [|done].
    intros [_ E]. by rewrite Ho in E.
  - split; [done|]. split; [done|]. split; [by rewrite Ho|]. split; [intros E; by rewrite <- Ho in *; apply Hm|]. rewrite Ho. split; [|done].
    intros [E _]. by rewrite Ho in E.
Qed.

(** A socket that takes some bytes at each event and does not fail. *)
Definition takes_some (e : bool * list wresult) : Prop := (∃ n ws, e.2 = Wrote n :: ws ∧ 1 ≤ n) ∧ WFailed false ∉ e.2.

Lemma drain_all ext events : ∀ h c m,
  out_ok ext h c (bytes m) → reply_bytes (cout c) < 2 ^ 64 → writable (cout c) = true → Forall takes_some events → len m < len events →
  ∃ h' r, drain events h c = Some (h', r, m) ∧ keeps ext h h' ∧
    if has_flag c REDIS_CLOSE_AFTER_REPLY then r = None
    else ∃ c', r = Some c' ∧ idle c' ∧ writable (cout c') = false ∧ out_ok ext h' c' [] ∧ same_client c c'.
Proof.
  induction events as [|[below ws] events IH]; intros h c m Hok Hrb Hw Hev Hlen; [cbn in Hlen; lia|]. cbn [drain]. rewrite Hw.
  apply Forall_cons in Hev as [[(n & ws0 & Hws & Hn) Hnf] Hev]. cbn [snd] in *.
  destruct (handler_ok ext below ws h c m Hok Hrb) as (h1 & r & sent & rest & -> & -> & Hk & Hprog & Hr). bsimpl. destruct r as [c1|].
  2:{ destruct Hr as [?|[-> ->]]; [done|]. rewrite app_nil_r. by exists h1, None. }
  destruct Hr as (Hok1 & Hsc & Hb & Hi & Hi1 & Hi2).
  assert (has_flag c1 REDIS_CLOSE_AFTER_REPLY = has_flag c REDIS_CLOSE_AFTER_REPLY) as Hfl by (unfold has_flag; by rewrite (sc_flags _ _ Hsc)).
  assert (idle c1 ∨ ¬ idle c1) as [Hid|Hid] by (unfold idle; destruct (decide (bufpos (cout c1) = 0)), (decide (reply (cout c1) = [])); tauto).
  - destruct (Hi1 Hid) as [Hwf Hcl]. assert (rest = []) as -> by (by apply (nothing_left malloc_size ext h1 c1)).
    assert (drain events h1 c1 = Some (h1, Some c1, [])) as -> by (destruct events; cbn; by rewrite Hwf). bsimpl. rewrite app_nil_r, Hcl.
    exists h1, (Some c1). split; [done|]. split; [done|]. by exists c1.
  - assert (sent ≠ []) as Hne by (eapply Hprog; [done|done|]; intros E; by apply Hid, Hi).
    destruct (IH h1 c1 rest Hok1) as (h2 & r & -> & Hk2 & Hr2); [lia|by rewrite Hi2|done| |].
    { rewrite length_app in Hlen. cbn [length] in Hlen. destruct sent; [done|]. cbn [length] in Hlen. lia. }
    bsimpl. exists h2, r. split; [done|]. split; [by etrans|]. rewrite Hfl in Hr2. destruct (has_flag c REDIS_CLOSE_AFTER_REPLY); [done|].
    destruct Hr2 as (c2 & -> & ? & ? & ? & Hsc2). exists c2. split_and!; try done. destruct Hsc, Hsc2. split; congruence.
Qed.

(** Whatever the socket does, what reaches it is a prefix of the stream and
    the rest is still there to send: a client is dropped only after a write
    failed for good, or when all was sent and it was to be closed after its
    reply. *)
Theorem drain_sends_prefix ext events h c m :
  out_ok ext h c (bytes m) → reply_bytes (cout c) < 2 ^ 64 →
  ∃ h' r sent rest, drain events h c = Some (h', r, sent) ∧ m = sent ++ rest ∧ keeps ext h h' ∧
    match r with
    | Some c' => out_ok ext h' c' (bytes rest) ∧ same_client c c'
    | None => Exists (λ e, WFailed false ∈ e.2) events ∨ rest = [] ∧ has_flag c REDIS_CLOSE_AFTER_REPLY = true
    end.
Proof.
  revert h c m. induction events as [|[below ws] events IH]; intros h c m Hok Hrb; cbn [drain].
  - exists h, (Some c), [], m. split; [by destruct (writable _)|]. split_and!; done.
  - destruct (writable (cout c)); [|by exists h, (Some c), [], m].
    destruct (handler_ok ext below ws h c m Hok Hrb) as (h1 & r & sent & rest & -> & -> & Hk & _ & Hr). bsimpl. destruct r as [c1|].
    + destruct Hr as (Hok1 & Hsc & Hb & _). destruct (IH h1 c1 rest Hok1) as (h2 & r & sent2 & rest2 & -> & -> & Hk2 & Hr2); [lia|].
      bsimpl. exists h2, r, (sent ++ sent2), rest2. split; [done|]. split; [by rewrite app_assoc|]. split; [by etrans|].
      assert (has_flag c1 REDIS_CLOSE_AFTER_REPLY = has_flag c REDIS_CLOSE_AFTER_REPLY) as Hfl by (unfold has_flag; by rewrite (sc_flags _ _ Hsc)).
      destruct r as [c2|]; [destruct Hr2 as [? Hsc2]; split; [done|]; destruct Hsc, Hsc2; split; congruence|].
      destruct Hr2 as [?|[? E]]; [left; by right|right; by rewrite <- Hfl].
    + exists h1, None, sent, rest. split; [done|]. split; [done|]. split; [done|]. destruct Hr as [?|?]; [left; by left|by right].
Qed.

(** C38. Replies reach the socket: for a client that takes replies, with [m]
    still to send, once some replies are added and the event loop has called
    the handler as many times as there are bytes, with a socket that takes some
    bytes each time, exactly [m] and the texts of the replies were sent, in
    order; the buffer is empty and the handler is removed. *)
Theorem replies_reach_socket ext h c m ops ws events :
  out_ok ext h c (bytes m) → accepts ae_create c = true → writable (cout (prepareClientToWrite ae_create c).1) = true →
  room (3 * len ops) c → shared_replies shared ext h → ops ≠ [] → Forall2 (reply_text ext h) ops ws →
  Forall takes_some events → len (m ++ concat ws) < len events →
  ∃ h' c', ('(h, c) ← run_replies ops h c; drain events h c) = Some (h', Some c', m ++ concat ws) ∧
    bufpos (cout c') = 0 ∧ reply (cout c') = [] ∧ writable (cout c') = false ∧ out_ok ext h' c' [] ∧ keeps ext h h'.
Proof.
  intros Hok Hacc Hw Hroom Hsh Hne Hws Hev Hlen. destruct ops as [|op ops]; [done|].
  destruct (run_replies_emits op ops ext h c (bytes m) ws) as (h1 & c1 & -> & Hok1 & Hn1 & Hk1 & Ha1 & Hg1 & Hw1); [done..|].
  rewrite Hacc, <- bytes_app in Hok1. bsimpl.
  destruct (drain_all ext events h1 c1 (m ++ concat ws)) as (h2 & r & -> & Hk2 & Hr); [done|unfold room, grows in *; lia|by apply Hw1|done|done|].
  assert (has_flag c1 REDIS_CLOSE_AFTER_REPLY = false) as Hcl.
  { unfold accepts in Ha1, Hacc. rewrite Hacc in Ha1. by apply andb_true_iff in Ha1 as [_ ?%negb_true_iff]. }
  rewrite Hcl in Hr. destruct Hr as (c2 & -> & [? ?] & ? & ? & _). exists h2, c2. split_and!; try done. by etrans.
Qed.
End theorems.

(** ** A client to try them on *)

Definition demo_text (m : list Z) : robj := mkObj REDIS_STRING REDIS_ENCODING_RAW 1 (PtrSds (mkSds (len m) 0 (m ++ [0]))).
Definition demo_header (prefix j : Z) : list Z := prefix :: printf_ld j ++ [13; 10].
Definition demo_texts : list (list Z) :=
  [[13; 10]; str ":0" ++ [13; 10]; str ":1" ++ [13; 10]; str "$-1" ++ [13; 10]] ++
  (demo_header 42 <$> seqZ 0 32) ++ (demo_header 36 <$> seqZ 0 32).
Definition demo_heap : oheap := list_to_map (imap (λ i m, (Pos.of_succ_nat i, demo_text m)) demo_texts).
Definition demo_shared : shared_objects :=
  mkShared 1 2 3 4 ((λ i, Pos.of_succ_nat i) <$> seq 4 32) ((λ i, Pos.of_succ_nat i) <$> seq 36 32).
Definition demo_ext (o : addr) : Z := if demo_heap !! o is Some _ then 1 else 0.
Definition demo_client (buf : list Z) : redisClient :=
  mkClient 5 0 REDIS_REPL_NONE 0 0 0 0 (mkIn (mkSds 0 0 [0]) 0 [] 0 0 0 (-1))
    (mkOut (buf ++ replicate (Z.to_nat (REDIS_REPLY_CHUNK_BYTES - len buf)) 0) (len buf) [] 0 0 true).
Definition demo_limits (type : Z) : obuf_limit := mkLimit 0 0 0.

Lemma demo_refcounts : map_Forall (λ _ ob, refcount ob = 1) demo_heap.
Proof. apply (bool_decide_unpack _). vm_compute. exact I. Qed.

Lemma demo_counted : counted demo_ext demo_heap [].
Proof.
  intros o. unfold demo_ext. destruct (demo_heap !! o) as [ob|] eqn:E; [|done]. pose proof (demo_refcounts o ob E) as Hr. cbv beta in Hr. change (refs [] o) with 0. lia.
Qed.

Lemma static_out_ok malloc_size ext h c buf pad w :
  counted ext h [] → cout c = mkOut (buf ++ pad) (len buf) [] 0 0 w → len (buf ++ pad) = REDIS_REPLY_CHUNK_BYTES → out_ok malloc_size ext h c (bytes buf).
Proof.
  intros Hc Ho Hl. pose proof Hl as Hl'. rewrite length_app in Hl'.
  split; unfold sent_ok; rewrite Ho; cbn [cbuf bufpos reply reply_bytes sentlen]; [done|lia|done|done|].
  exists []. split; [constructor|]. split; [split; [done|]; destruct (Z.gtb_spec (len buf) 0); lia|].
  change (Z.to_nat 0) with 0%nat. cbn [concat drop]. by rewrite app_nil_r, Nat2Z.id, take_app_length.
Qed.

Lemma demo_out buf : len buf ≤ REDIS_REPLY_CHUNK_BYTES → out_ok (λ _, 64) demo_ext demo_heap (demo_client buf) (bytes buf).
Proof.
  intros Hl. eapply static_out_ok; [exact demo_counted|reflexivity|]. rewrite length_app, length_replicate. lia.
Qed.

Lemma demo_heap_lookup i m : demo_texts !! i = Some m → demo_heap !! Pos.of_succ_nat i = Some (demo_text m).
Proof.
  intros E. assert ((λ i, demo_heap !! Pos.of_succ_nat i) <$> seq 0 68 = (λ m, Some (demo_text m)) <$> demo_texts) as Eall by (vm_compute; reflexivity).
  assert (i < 68)%nat as Hi by (apply lookup_lt_Some in E; exact E).
  pose proof (f_equal (lookup i) Eall) as Ei. rewrite !list_lookup_fmap, E, lookup_seq_lt in Ei by done. by injection Ei.
Qed.

Lemma demo_held i m : demo_texts !! i = Some m → len m < 2 ^ 30 → held demo_ext demo_heap (Pos.of_succ_nat i) m.
Proof.
  intros E Hl. pose proof (demo_heap_lookup i m E) as Eh. split.
  - exists (demo_text m). split; [done|]. split; [done|]. split; [done|]. split; [done|]. exists []. split_and!; try done; cbn; lia.
  - unfold demo_ext. rewrite Eh. lia.
Qed.

Lemma demo_shared_replies : shared_replies demo_shared demo_ext demo_heap.
Proof.
  assert (∀ p d j, 0 ≤ j < 32 → (∀ i, (i < 32)%nat → demo_texts !! (d + i)%nat = Some (demo_header p (Z.of_nat i))) →
    ∃ o m, mget ((λ i, Pos.of_succ_nat i) <$> seq d 32) j = Some o ∧ held demo_ext demo_heap o m ∧ header_text p j m) as Hhd.
  { intros p d j Hj Hd. destruct (printf_ld_ok j) as (Hr & Hl & Hnz); [unfold LONG_MIN, LONG_MAX; lia|].
    exists (Pos.of_succ_nat (d + Z.to_nat j)), (demo_header p j). split; [|split].
    - apply mget_Some. split; [lia|]. rewrite list_lookup_fmap, lookup_seq_lt by lia. done.
    - apply demo_held; [rewrite Hd by lia; by rewrite Z2Nat.id by lia|].
      unfold demo_header. cbn [length]. rewrite length_app. cbn [length]. lia.
    - by exists (printf_ld j). }
  split.
  - apply (demo_held 0); [reflexivity|done].
  - apply (demo_held 1); [reflexivity|done].
  - apply (demo_held 2); [reflexivity|done].
  - apply (demo_held 3); [reflexivity|done].
  - intros j Hj. apply (Hhd 42 4%nat); try done. intros i Hi. do 32 (destruct i as [|i]; [vm_compute; reflexivity|]). lia.
  - intros j Hj. apply (Hhd 36 36%nat); try done. intros i Hi. do 32 (destruct i as [|i]; [vm_compute; reflexivity|]). lia.
Qed.

Definition demo_ops : list reply_op := [RMultiBulkLen 2; RBulkCBuffer (str "hi"); RLongLong (-7)].
Definition demo_ops_texts : list (list Z) :=
  [str "*2" ++ [13; 10]; str "$2" ++ [13; 10] ++ str "hi" ++ [13; 10]; str ":-7" ++ [13; 10]].

Lemma demo_ops_ok : Forall2 (reply_text demo_ext demo_heap) demo_ops demo_ops_texts.
Proof.
  assert (decimal_repr 2 (str "2") ∧ decimal_repr (-7) (str "-7")) as [H2 H7] by (split; by apply string2ll_repr).
  apply Forall2_cons; split; [|apply Forall2_cons; split; [|apply Forall2_cons; split; [|constructor]]].
  - split; [done|]. by exists (str "2").
  - split; [done|]. exists (str "$2" ++ [13; 10]). split; [by exists (str "2")|done].
  - split; [done|]. by exists (str "-7").
Qed.

Lemma replies_extend_stream_witness :
  ∃ h' c', run_replies (λ _, 0) (λ _, 64) demo_limits 100 true demo_shared demo_ops demo_heap (demo_client (str "+OK")) = Some (h', c') ∧
    out_ok (λ _, 64) demo_ext h' c' (bytes (str "+OK") ++ if accepts true (demo_client (str "+OK")) then bytes (concat demo_ops_texts) else []) ∧
    near (demo_client (str "+OK")) c' ∧ keeps demo_ext demo_heap h'.
Proof.
  apply replies_extend_stream; [intros; lia|by apply demo_out|split; reflexivity|exact demo_shared_replies|exact demo_ops_ok].
Defined.

Lemma deferred_multibulk_spec_witness :
  ∃ m h' c', header_text 42 3 m ∧
    (let '(h, c, node) := addDeferredMultiBulkLength true demo_heap (demo_client (str "+OK")) in
     '(h, c) ← run_replies (λ _, 0) (λ _, 64) demo_limits 100 true demo_shared demo_ops h c;
     setDeferredMultiBulkLength (λ _, 0) (λ _, 64) demo_limits 100 h c node 3) = Some (h', c') ∧
    out_ok (λ _, 64) demo_ext h' c' (bytes (str "+OK") ++ bytes (m ++ concat demo_ops_texts)) ∧ near (demo_client (str "+OK")) c' ∧ keeps demo_ext demo_heap h'.
Proof.
  apply deferred_multibulk_spec; [intros; lia|by apply demo_out|reflexivity|split; reflexivity|exact demo_shared_replies|exact demo_ops_ok|by unfold LONG_MIN, LONG_MAX|reflexivity].
Defined.

(** A socket that takes three bytes, fills up, fails for good. *)
Lemma drain_sends_prefix_witness :
  ∃ h' r sent rest, drain (λ _, 64) 100 [(true, [Wrote 3]); (false, [WFailed true]); (true, [Wrote 1; WFailed false])] demo_heap (demo_client (str "+HELLO")) = Some (h', r, sent) ∧
    str "+HELLO" = sent ++ rest ∧ keeps demo_ext demo_heap h' ∧
    match r with
    | Some c' => out_ok (λ _, 64) demo_ext h' c' (bytes rest) ∧ same_client (demo_client (str "+HELLO")) c'
    | None => Exists (λ e, WFailed false ∈ e.2) [(true, [Wrote 3]); (false, [WFailed true]); (true, [Wrote 1; WFailed false])] ∨
        rest = [] ∧ has_flag (demo_client (str "+HELLO")) REDIS_CLOSE_AFTER_REPLY = true
    end.
Proof. apply drain_sends_prefix; [intros; lia|by apply demo_out|reflexivity]. Defined.

Lemma replies_reach_socket_witness :
  ∃ h' c', ('(h, c) ← run_replies (λ _, 0) (λ _, 64) demo_limits 100 true demo_shared demo_ops demo_heap (demo_client (str "+OK"));
    drain (λ _, 64) 100 (replicate 30 (true, [Wrote 5])) h c) = Some (h', Some c', str "+OK" ++ concat demo_ops_texts) ∧
    bufpos (cout c') = 0 ∧ reply (cout c') = [] ∧ writable (cout c') = false ∧ out_ok (λ _, 64) demo_ext h' c' [] ∧ keeps demo_ext demo_heap h'.
Proof.
  apply replies_reach_socket; [intros; lia|by apply demo_out|reflexivity|reflexivity|split; reflexivity|exact demo_shared_replies|done|exact demo_ops_ok| |reflexivity].
  apply Forall_replicate. split; [by exists 5, []|]. intros Hin. cbn in Hin. set_solver.
Defined.

(** An empty object at the front leaves the list and [reply_bytes] keeps
    counting its block. *)
Example empty_object_stays_counted :
  let h := <[1%positive := demo_text []]> ∅ in
  let c := mkClient 5 0 REDIS_REPL_NONE 0 0 0 0 (mkIn (mkSds 0 0 [0]) 0 [] 0 0 0 (-1)) (mkOut [] 0 [1%positive] 64 0 true) in
  ∃ h' c', sendReplyToClient (λ _, 64) 100 true [] h c = Some (h', Some c', []) ∧ reply (cout c') = [] ∧ reply_bytes (cout c') = 64.
Proof. eexists _, _. split; [vm_compute; reflexivity|]. by split. Qed.

(** A slave that is not online yet gets its replies queued, with no handler. *)
Example prepare_accepts_offline_slave :
  let c := mkClient 5 REDIS_SLAVE 6 0 0 0 0 (mkIn (mkSds 0 0 [0]) 0 [] 0 0 0 (-1)) (mkOut [] 0 [] 0 0 false) in
  prepareClientToWrite true c = (c, REDIS_OK).
Proof. reflexivity. Qed.
