(* ===== verification/Server.v ===== *)
(** * The key space: [db.c]

    A database is a table from keys to values and a table from keys to times at
    which they expire.  The functions of [db.c] act on a state with the heap of
    objects, the client that is served, its arguments, and the database; they
    are written in a state monad over it, [None] being a failed assertion, a
    panic or an access out of bounds.

    What a command tells other parts of the server is recorded, in order, as
    events: keys modified ([signalModifiedKey], for [WATCH]), keyspace
    notifications ([notifyKeyspaceEvent]), lists with a new element
    ([signalListAsReady]), and commands to append to the file and to send to
    the slaves ([feedAppendOnlyFile], [replicationFeedSlaves]).

    The clock is read as [mstime], the same throughout a command.  The access
    clock of objects ([lru]) is not modelled. *)

From S2P Require Import Prelude Util Sds Object Client Table.
From stdpp Require Import gmap.
Local Open Scope Z_scope.

Definition REDIS_LIST : Z := 1.
Definition REDIS_NOTIFY_GENERIC : Z := Z.shiftl 1 2.
Definition REDIS_NOTIFY_STRING : Z := Z.shiftl 1 3.
Definition REDIS_NOTIFY_EXPIRED : Z := Z.shiftl 1 8.

Record redisDb (T E : Type) := mkDb { db_dict : T; db_expires : E; db_id : Z }.
Arguments mkDb {_ _}.
Arguments db_dict {_ _}.
Arguments db_expires {_ _}.
Arguments db_id {_ _}.

Inductive kevent :=
  | EvModified (key : list Z)
  | EvNotify (type : Z) (event key : list Z)
  | EvListReady (key : list Z)
  | EvPropagate (args : list (list Z)).

(** The commands that were passed on. *)
Definition deletions (ev : list kevent) : list (list (list Z)) := omap (λ e, match e with EvPropagate l => Some l | _ => None end) ev.

(** The heap, the client served, its arguments [c->argv] and the name of its
    command [c->cmd->name], its database, and the counters of the server. *)
Record sys (T E : Type) := mkSys {
  st_heap : oheap;
  st_client : redisClient;
  st_argv : list addr;
  st_cmd : list Z;
  st_db : redisDb T E;
  st_dirty : Z;
  st_events : list kevent;
  stat_keyspace_hits : Z;
  stat_keyspace_misses : Z;
  stat_expiredkeys : Z
}.
Arguments mkSys {_ _}.
Arguments st_heap {_ _}.
Arguments st_client {_ _}.
Arguments st_argv {_ _}.
Arguments st_cmd {_ _}.
Arguments st_db {_ _}.
Arguments st_dirty {_ _}.
Arguments st_events {_ _}.
Arguments stat_keyspace_hits {_ _}.
Arguments stat_keyspace_misses {_ _}.
Arguments stat_expiredkeys {_ _}.

Section state.
Context {T E : Type}.
Abbreviation sys := (sys T E).
Implicit Types s : sys.

Definition put_heap h s : sys := mkSys h (st_client s) (st_argv s) (st_cmd s) (st_db s) (st_dirty s) (st_events s) (stat_keyspace_hits s) (stat_keyspace_misses s) (stat_expiredkeys s).
Definition put_client c s : sys := mkSys (st_heap s) c (st_argv s) (st_cmd s) (st_db s) (st_dirty s) (st_events s) (stat_keyspace_hits s) (stat_keyspace_misses s) (stat_expiredkeys s).
Definition put_argv l s : sys := mkSys (st_heap s) (st_client s) l (st_cmd s) (st_db s) (st_dirty s) (st_events s) (stat_keyspace_hits s) (stat_keyspace_misses s) (stat_expiredkeys s).
Definition put_cmd n s : sys := mkSys (st_heap s) (st_client s) (st_argv s) n (st_db s) (st_dirty s) (st_events s) (stat_keyspace_hits s) (stat_keyspace_misses s) (stat_expiredkeys s).
Definition put_db d s : sys := mkSys (st_heap s) (st_client s) (st_argv s) (st_cmd s) d (st_dirty s) (st_events s) (stat_keyspace_hits s) (stat_keyspace_misses s) (stat_expiredkeys s).
Definition put_dirty n s : sys := mkSys (st_heap s) (st_client s) (st_argv s) (st_cmd s) (st_db s) n (st_events s) (stat_keyspace_hits s) (stat_keyspace_misses s) (stat_expiredkeys s).
Definition put_events l s : sys := mkSys (st_heap s) (st_client s) (st_argv s) (st_cmd s) (st_db s) (st_dirty s) l (stat_keyspace_hits s) (stat_keyspace_misses s) (stat_expiredkeys s).
Definition put_stats hits misses expired s : sys := mkSys (st_heap s) (st_client s) (st_argv s) (st_cmd s) (st_db s) (st_dirty s) (st_events s) hits misses expired.

(** ** The monad *)

Definition cmd (A : Type) : Type := sys → option (A * sys).
#[export] Instance cmd_ret : MRet cmd := λ A a s, Some (a, s).
#[export] Instance cmd_bind : MBind cmd := λ A B f m s, match m s with Some (a, s) => f a s | None => None end.

Definition lift {A} (r : option A) : cmd A := λ s, a ← r; Some (a, s).
Definition gets {A} (f : sys → A) : cmd A := λ s, Some (f s, s).
Definition puts (f : sys → sys) : cmd unit := λ s, Some (tt, f s).
Definition assert (b : bool) : cmd unit := λ s, if b then Some (tt, s) else None.
Definition on_heap {A} (f : oheap → option (oheap * A)) : cmd A := λ s, '(h, a) ← f (st_heap s); Some (a, put_heap h s).
Definition upd_heap (f : oheap → option oheap) : cmd unit := λ s, h ← f (st_heap s); Some (tt, put_heap h s).
Definition on_client (f : oheap → redisClient → option (oheap * redisClient)) : cmd unit :=
  λ s, '(h, c) ← f (st_heap s) (st_client s); Some (tt, put_client c (put_heap h s)).

Definition reads {A} (f : oheap → option A) : cmd A := λ s, a ← f (st_heap s); Some (a, s).

Definition emit (e : kevent) : cmd unit := puts (λ s, put_events (st_events s ++ [e]) s).
(** [server.dirty += n] *)
Definition add_dirty (n : Z) : cmd unit := puts (λ s, put_dirty (st_dirty s + n) s).

Definition argc : cmd Z := gets (λ s, len (st_argv s)).
Definition arg (j : nat) : cmd addr := λ s, o ← st_argv s !! j; Some (o, s).
Definition set_arg (j : nat) (o : addr) : cmd unit := puts (λ s, put_argv (<[j := o]> (st_argv s)) s).

Definition object (o : addr) : cmd robj := λ s, ob ← st_heap s !! o; Some (ob, s).
(** [o->ptr], a dynamic string *)
Definition object_sds (o : addr) : cmd sdshdr := λ s, ob ← st_heap s !! o; p ← osds ob; Some (p, s).
(** The bytes of the dynamic string, which tables take as the key. *)
Definition key_text (key : addr) : cmd (list Z) := p ← object_sds key; lift (mread (buf p) 0 (sdslen p)).
End state.
Arguments cmd : clear implicits.

Section db.
Context {T E : Type} `{!KeyTable T addr, !KeyTable E Z}.
Context (junk : nat → Z) (shared_integers : Z → addr) (shared_del : addr).
(** The time now, [mstime()] or when the script that calls the command was
    started; [server.loading], and whether [server.masterhost] is set *)
Context (mstime : Z) (loading masterhost : bool).
Abbreviation cmd := (cmd T E).

(** ** Lookup in the two tables *)

Definition find_dict (k : list Z) : cmd (option addr) :=
  db ← gets st_db;
  '(d, v) ← lift (tbl_find (db_dict db) k);
  puts (put_db (mkDb d (db_expires db) (db_id db)));;
  mret v.

Definition find_expires (k : list Z) : cmd (option Z) :=
  db ← gets st_db;
  '(e, v) ← lift (tbl_find (db_expires db) k);
  puts (put_db (mkDb (db_dict db) e (db_id db)));;
  mret v.

Definition delete_expires (k : list Z) : cmd (option Z) :=
  db ← gets st_db;
  '(e, v) ← lift (tbl_delete (db_expires db) k);
  puts (put_db (mkDb (db_dict db) e (db_id db)));;
  mret v.

Definition delete_dict (k : list Z) : cmd (option addr) :=
  db ← gets st_db;
  '(d, v) ← lift (tbl_delete (db_dict db) k);
  puts (put_db (mkDb d (db_expires db) (db_id db)));;
  mret v.

Definition lookupKey (key : addr) : cmd (option addr) := k ← key_text key; find_dict k.

(** ** Expires *)

Definition removeExpire (key : addr) : cmd bool :=
  k ← key_text key;
  o ← find_dict k;
  assert (bool_decide (is_Some o));;
  v ← delete_expires k;
  mret (bool_decide (is_Some v)).

Definition setExpire (key : addr) (when : Z) : cmd unit :=
  k ← key_text key;
  o ← find_dict k;
  assert (bool_decide (is_Some o));;
  db ← gets st_db;
  '(e, _) ← lift (tbl_replace (db_expires db) k when);
  puts (put_db (mkDb (db_dict db) e (db_id db))).

Definition getExpire (key : addr) : cmd Z :=
  k ← key_text key;
  db ← gets st_db;
  if tbl_size (db_expires db) =? 0 then mret (-1)
  else
    w ← find_expires k;
    match w with
    | None => mret (-1)
    | Some when =>
        o ← find_dict k;
        assert (bool_decide (is_Some o));;
        mret when
    end.

(** What is passed on is recorded; [Call.call] feeds it to the append-only file,
    which no handler looks at. *)
Definition propagateExpire (key : addr) : cmd unit :=
  upd_heap (λ h, incrRefCount h shared_del);;
  upd_heap (λ h, incrRefCount h key);;
  d ← key_text shared_del;
  k ← key_text key;
  emit (EvPropagate [d; k]);;
  upd_heap (λ h, decrRefCount h shared_del);;
  upd_heap (λ h, decrRefCount h key).

Definition signalModifiedKey (key : addr) : cmd unit := k ← key_text key; emit (EvModified k).
Definition notifyKeyspaceEvent (type : Z) (event : list Z) (key : addr) : cmd unit :=
  k ← key_text key; emit (EvNotify type event k).

(** ** Changes *)

Definition dbDelete (key : addr) : cmd Z :=
  k ← key_text key;
  db ← gets st_db;
  (if tbl_size (db_expires db) >? 0 then delete_expires k ;; mret tt else mret tt);;
  v ← delete_dict k;
  match v with
  | Some o => upd_heap (λ h, decrRefCount h o);; mret 1
  | None => mret 0
  end.

Definition expireIfNeeded (key : addr) : cmd bool :=
  when ← getExpire key;
  if when <? 0 then mret false
  else if loading then mret false
  else if masterhost then mret (mstime >? when)
  else if mstime <=? when then mret false
  else
    puts (λ s, put_stats (stat_keyspace_hits s) (stat_keyspace_misses s) (stat_expiredkeys s + 1) s);;
    propagateExpire key;;
    notifyKeyspaceEvent REDIS_NOTIFY_EXPIRED (str "expired") key;;
    r ← dbDelete key;
    mret (negb (r =? 0)).

Definition lookupKeyRead (key : addr) : cmd (option addr) :=
  expireIfNeeded key;;
  val ← lookupKey key;
  puts (λ s, match val with
             | None => put_stats (stat_keyspace_hits s) (stat_keyspace_misses s + 1) (stat_expiredkeys s) s
             | Some _ => put_stats (stat_keyspace_hits s + 1) (stat_keyspace_misses s) (stat_expiredkeys s) s
             end);;
  mret val.

Definition lookupKeyWrite (key : addr) : cmd (option addr) := expireIfNeeded key;; lookupKey key.

Definition dbAdd (key val : addr) : cmd unit :=
  k ← key_text key;
  db ← gets st_db;
  '(d, added) ← lift (tbl_add (db_dict db) k val);
  puts (put_db (mkDb d (db_expires db) (db_id db)));;
  assert added;;
  ob ← object val;
  if otype ob =? REDIS_LIST then emit (EvListReady k) else mret tt.

Definition dbOverwrite (key val : addr) : cmd unit :=
  k ← key_text key;
  o ← find_dict k;
  assert (bool_decide (is_Some o));;
  db ← gets st_db;
  '(d, old) ← lift (tbl_replace (db_dict db) k val);
  puts (put_db (mkDb d (db_expires db) (db_id db)));;
  match old with Some old => upd_heap (λ h, decrRefCount h old) | None => mret tt end.

Definition setKey (key val : addr) : cmd unit :=
  o ← lookupKeyWrite key;
  (match o with None => dbAdd key val | Some _ => dbOverwrite key val end);;
  upd_heap (λ h, incrRefCount h val);;
  removeExpire key;;
  signalModifiedKey key.

Definition dbExists (key : addr) : cmd bool := o ← lookupKey key; mret (bool_decide (is_Some o)).

Definition dbUnshareStringValue (key o : addr) : cmd addr :=
  ob ← object o;
  assert (otype ob =? REDIS_STRING);;
  if negb (refcount ob =? 1) || negb (oencoding ob =? REDIS_ENCODING_RAW) then
    decoded ← on_heap (λ h, getDecodedObject junk h o);
    p ← object_sds decoded;
    o ← on_heap (λ h, createStringObject junk h (buf p) (sdslen p));
    upd_heap (λ h, decrRefCount h decoded);;
    dbOverwrite key o;;
    mret o
  else mret o.
End db.
