(* ===== verification/Commands.v ===== *)
(** * Commands on strings and keys: [t_string.c], [db.c], [object.c]

    The handlers of the string commands, and of the commands that delete keys
    and make them expire.  Handlers see their arguments as objects; what they
    reply goes to the client's buffer. *)

From S2P Require Import Prelude Util Sds Object Number Client Table Server Reply.
From stdpp Require Import gmap.
Local Open Scope Z_scope.

Definition UNIT_SECONDS : Z := 0.
Definition UNIT_MILLISECONDS : Z := 1.
Definition REDIS_SET_NO_FLAGS : Z := 0.
Definition REDIS_SET_NX : Z := Z.shiftl 1 0.
Definition REDIS_SET_XX : Z := Z.shiftl 1 1.

(** More of the shared objects. *)
Record shared_commands := mkSharedCommands {
  sh_ok : addr; sh_emptybulk : addr; sh_wrongtypeerr : addr; sh_syntaxerr : addr; sh_colon : addr; sh_del : addr
}.

(** What the commands use of the rest of the server: memory, the limits of
    output buffers, the two clocks, whether the event loop takes a handler, the
    shared objects, and fields of [server]. *)
Record cmd_env := mkEnv {
  e_junk : nat → Z;
  e_malloc_size : sdshdr → Z;
  e_limits : Z → obuf_limit;
  e_unixtime : Z;
  e_ae_create : bool;
  e_shared : shared_objects;
  e_shared2 : shared_commands;
  e_shared_integers : Z → addr;
  e_maxmemory : Z;
  e_maxmemory_policy : Z;
  e_mstime : Z;
  e_loading : bool;
  e_masterhost : bool;
  (** [lookupCommandOrOriginal]: the name of the command a text names *)
  e_command : list Z → option (list Z)
}.

Section commands.
Context {T E : Type} `{!KeyTable T addr, !KeyTable E Z} (env : cmd_env).
#[local] Abbreviation junk := (e_junk env).
#[local] Abbreviation malloc_size := (e_malloc_size env).
#[local] Abbreviation limits := (e_limits env).
#[local] Abbreviation unixtime := (e_unixtime env).
#[local] Abbreviation ae_create := (e_ae_create env).
#[local] Abbreviation shared := (e_shared env).
#[local] Abbreviation shared2 := (e_shared2 env).
#[local] Abbreviation shared_integers := (e_shared_integers env).
#[local] Abbreviation maxmemory := (e_maxmemory env).
#[local] Abbreviation maxmemory_policy := (e_maxmemory_policy env).
#[local] Abbreviation mstime := (e_mstime env).
#[local] Abbreviation loading := (e_loading env).
#[local] Abbreviation masterhost := (e_masterhost env).
Abbreviation cmd := (cmd T E).
#[local] Abbreviation reads := (reads (T:=T) (E:=E)).
#[local] Abbreviation lookupKeyRead := (lookupKeyRead (sh_del shared2) mstime loading masterhost).
#[local] Abbreviation lookupKeyWrite := (lookupKeyWrite (sh_del shared2) mstime loading masterhost).
#[local] Abbreviation expireIfNeeded := (expireIfNeeded (sh_del shared2) mstime loading masterhost).
#[local] Abbreviation setKey := (setKey (sh_del shared2) mstime loading masterhost).

(** ** Replies *)

Definition add_reply (o : addr) : cmd unit := on_client (λ h c, addReply junk malloc_size limits unixtime ae_create h c o).
Definition add_bulk (o : addr) : cmd unit := on_client (λ h c, addReplyBulk junk malloc_size limits unixtime ae_create shared h c o).
Definition add_long (ll : Z) : cmd unit := on_client (λ h c, addReplyLongLong junk malloc_size limits unixtime ae_create shared h c ll).
Definition add_multi (n : Z) : cmd unit := on_client (λ h c, addReplyMultiBulkLen junk malloc_size limits unixtime ae_create shared h c n).
Definition add_buffer (m : list Z) (n : Z) : cmd unit := on_client (λ h c, addReplyBulkCBuffer junk malloc_size limits unixtime ae_create shared h c m n).
Definition add_error (msg : list Z) : cmd unit := on_client (λ h c, addReplyError junk malloc_size limits unixtime ae_create h c (msg ++ [0])).
Definition add_error_format (fmtlen : Z) (msg : list Z) : cmd unit := on_client (λ h c, addReplyErrorFormat junk malloc_size limits unixtime ae_create h c fmtlen msg).

Definition lookupKeyReadOrReply (key reply : addr) : cmd (option addr) :=
  o ← lookupKeyRead key;
  (match o with None => add_reply reply | Some _ => mret tt end);;
  mret o.

(** ** Arguments: [object.c] *)

(** [true]: the type is wrong, and the reply says so. *)
Definition checkType (o : addr) (type : Z) : cmd bool :=
  ob ← object o;
  if negb (otype ob =? type) then add_reply (sh_wrongtypeerr shared2);; mret true else mret false.

Definition getLongLongFromObjectOrReply (o : option addr) (msg : option (list Z)) : cmd (option Z) :=
  r ← reads (λ h, getLongLongFromObject h o);
  match r with
  | None => add_error (default (str "value is not an integer or out of range") msg);; mret None
  | Some value => mret (Some value)
  end.

Definition getLongFromObjectOrReply (o : option addr) (msg : option (list Z)) : cmd (option Z) :=
  r ← getLongLongFromObjectOrReply o msg;
  match r with
  | None => mret None
  | Some value =>
      if (value <? LONG_MIN) || (value >? LONG_MAX) then add_error (default (str "value is out of range") msg);; mret None
      else mret (Some value)
  end.

(** [c->argv[j] = tryObjectEncoding(c->argv[j])] *)
Definition encode_arg (j : nat) : cmd unit :=
  o ← arg j;
  o ← on_heap (λ h, tryObjectEncoding junk shared_integers maxmemory maxmemory_policy h o);
  set_arg j o.

(** ** SET and its variants *)

Definition checkStringLength (size : Z) : cmd bool :=
  if size >? 512 * 1024 * 1024 then add_error (str "string exceeds maximum allowed size (512MB)");; mret false else mret true.

Definition setGenericCommand (flags : Z) (key val : addr) (expire : option addr) (unit_ : Z) (ok_reply abort_reply : option addr) : cmd unit :=
  milliseconds ← (match expire with
    | None => mret (Some 0)
    | Some e =>
        r ← getLongLongFromObjectOrReply (Some e) None;
        match r with
        | None => mret None
        | Some milliseconds =>
            if milliseconds <=? 0 then
              name ← gets st_cmd;
              add_error_format 25 (str "invalid expire time in " ++ name);; mret None
            else mret (Some (if unit_ =? UNIT_SECONDS then s64 (milliseconds * 1000) else milliseconds))
        end
    end);
  match milliseconds with
  | None => mret tt
  | Some milliseconds =>
      abort ← (nx ← (if negb (Z.land flags REDIS_SET_NX =? 0) then o ← lookupKeyWrite key; mret (bool_decide (is_Some o)) else mret false);
               if nx : bool then mret true
               else if negb (Z.land flags REDIS_SET_XX =? 0) then o ← lookupKeyWrite key; mret (bool_decide (o = None)) else mret false);
      if abort : bool then add_reply (default (sh_nullbulk shared) abort_reply)
      else
        setKey key val;;
        add_dirty 1;;
        (match expire with Some _ => setExpire key (s64 (mstime + milliseconds)) | None => mret tt end);;
        notifyKeyspaceEvent REDIS_NOTIFY_STRING (str "set") key;;
        (match expire with Some _ => notifyKeyspaceEvent REDIS_NOTIFY_GENERIC (str "expire") key | None => mret tt end);;
        add_reply (default (sh_ok shared2) ok_reply)
  end.

(** Is the C string the two letters, given in lower case, in any case? *)
Definition is_word (a : list Z) (x y : Z) : option bool :=
  a0 ← mget a 0;
  if (a0 =? x) || (a0 =? x - 32) then
    a1 ← mget a 1;
    if (a1 =? y) || (a1 =? y - 32) then a2 ← mget a 2; Some (a2 =? 0) else Some false
  else Some false.

(** The options from the [j]-th argument on; [None] after a syntax error. *)
Fixpoint set_options (fuel : nat) (j : nat) (flags : Z) (expire : option addr) (unit_ : Z) : cmd (option (Z * option addr * Z)) :=
  n ← argc;
  if Z.of_nat j <? n then
    match fuel with
    | O => lift None
    | S fuel =>
        o ← arg j;
        p ← object_sds o;
        next ← (if Z.of_nat j =? n - 1 then mret None else o ← arg (S j); mret (Some o));
        nx ← lift (is_word (buf p) 110 120);
        if nx : bool then set_options fuel (S j) (Z.lor flags REDIS_SET_NX) expire unit_
        else
          xx ← lift (is_word (buf p) 120 120);
          if xx : bool then set_options fuel (S j) (Z.lor flags REDIS_SET_XX) expire unit_
          else
            ex ← lift (is_word (buf p) 101 120);
            match (if ex : bool then next else None) with
            | Some next => set_options fuel (S (S j)) flags (Some next) UNIT_SECONDS
            | None =>
                px ← lift (is_word (buf p) 112 120);
                match (if px : bool then next else None) with
                | Some next => set_options fuel (S (S j)) flags (Some next) UNIT_MILLISECONDS
                | None => add_reply (sh_syntaxerr shared2);; mret None
                end
            end
    end
  else mret (Some (flags, expire, unit_)).

Definition setCommand : cmd unit :=
  n ← argc;
  r ← set_options (Z.to_nat n) 3 REDIS_SET_NO_FLAGS None UNIT_SECONDS;
  match r with
  | None => mret tt
  | Some (flags, expire, unit_) =>
      encode_arg 2;;
      key ← arg 1; val ← arg 2;
      setGenericCommand flags key val expire unit_ None None
  end.

Definition setnxCommand : cmd unit :=
  encode_arg 2;;
  key ← arg 1; val ← arg 2;
  setGenericCommand REDIS_SET_NX key val None 0 (Some (sh_cone shared)) (Some (sh_czero shared)).

Definition setexCommand : cmd unit :=
  encode_arg 3;;
  key ← arg 1; val ← arg 3; e ← arg 2;
  setGenericCommand REDIS_SET_NO_FLAGS key val (Some e) UNIT_SECONDS None None.

Definition psetexCommand : cmd unit :=
  encode_arg 3;;
  key ← arg 1; val ← arg 3; e ← arg 2;
  setGenericCommand REDIS_SET_NO_FLAGS key val (Some e) UNIT_MILLISECONDS None None.

(** ** GET and its variants *)

Definition getGenericCommand : cmd Z :=
  key ← arg 1;
  o ← lookupKeyReadOrReply key (sh_nullbulk shared);
  match o with
  | None => mret REDIS_OK
  | Some o =>
      ob ← object o;
      if negb (otype ob =? REDIS_STRING) then add_reply (sh_wrongtypeerr shared2);; mret REDIS_ERR
      else add_bulk o;; mret REDIS_OK
  end.

Definition getCommand : cmd unit := getGenericCommand;; mret tt.

Definition getsetCommand : cmd unit :=
  r ← getGenericCommand;
  if r =? REDIS_ERR then mret tt
  else
    encode_arg 2;;
    key ← arg 1; val ← arg 2;
    setKey key val;;
    notifyKeyspaceEvent REDIS_NOTIFY_STRING (str "set") key;;
    add_dirty 1.

(** ** Parts of strings *)

Definition setrangeCommand : cmd unit :=
  key ← arg 1; o2 ← arg 2; o3 ← arg 3;
  value ← object_sds o3;
  r ← getLongFromObjectOrReply (Some o2) None;
  match r with
  | None => mret tt
  | Some offset =>
      if offset <? 0 then add_error (str "offset is out of range")
      else
        let total := u64 (offset + sdslen value) in
        found ← lookupKeyWrite key;
        target ← (match found with
          | None =>
              if sdslen value =? 0 then add_reply (sh_czero shared);; mret None
              else
                ok ← checkStringLength (s64 total);
                if ok : bool then
                  o ← on_heap (λ h, s ← sdsempty junk; Some (createObject h REDIS_STRING (PtrSds s)));
                  dbAdd key o;;
                  mret (Some o)
                else mret None
          | Some o =>
              wrong ← checkType o REDIS_STRING;
              if wrong : bool then mret None
              else
                olen ← reads (λ h, stringObjectLen junk h o);
                if sdslen value =? 0 then add_long olen;; mret None
                else
                  ok ← checkStringLength (s64 total);
                  if ok : bool then o ← dbUnshareStringValue junk key o; mret (Some o) else mret None
          end);
        match target with
        | None => mret tt
        | Some o =>
            (if sdslen value >? 0 then
               p ← object_sds o;
               p ← lift (sdsgrowzero junk p total);
               b ← lift (memcpy (buf p) (buf value) offset 0 (sdslen value));
               upd_heap (λ h, ob ← h !! o; Some (<[o := set_ptr ob (PtrSds (mkSds (slen p) (sfree p) b))]> h));;
               signalModifiedKey key;;
               notifyKeyspaceEvent REDIS_NOTIFY_STRING (str "setrange") key;;
               add_dirty 1
             else mret tt);;
            p ← object_sds o;
            add_long (sdslen p)
        end
  end.

Definition getrangeCommand : cmd unit :=
  key ← arg 1; o2 ← arg 2; o3 ← arg 3;
  r ← getLongLongFromObjectOrReply (Some o2) None;
  match r with
  | None => mret tt
  | Some start =>
      r ← getLongLongFromObjectOrReply (Some o3) None;
      match r with
      | None => mret tt
      | Some end_ =>
          o ← lookupKeyReadOrReply key (sh_emptybulk shared2);
          match o with
          | None => mret tt
          | Some o =>
              wrong ← checkType o REDIS_STRING;
              if wrong : bool then mret tt
              else
                ob ← object o;
                '(m, strlen) ← (if oencoding ob =? REDIS_ENCODING_INT then v ← lift (olong ob); lift (print_long junk 32 v)
                                else p ← lift (osds ob); mret (buf p, sdslen p));
                let start := if start <? 0 then s64 (u64 (strlen + start)) else start in
                let end_ := if end_ <? 0 then s64 (u64 (strlen + end_)) else end_ in
                let start := if start <? 0 then 0 else start in
                let end_ := if end_ <? 0 then 0 else end_ in
                let end_ := if u64 end_ >=? strlen then s64 (u64 (strlen - 1)) else end_ in
                if (start >? end_) || (strlen =? 0) then add_reply (sh_emptybulk shared2)
                else add_buffer (drop (Z.to_nat start) m) (end_ - start + 1)
          end
      end
  end.

Definition appendCommand : cmd unit :=
  key ← arg 1;
  o ← lookupKeyWrite key;
  totlen ← (match o with
    | None =>
        encode_arg 2;;
        val ← arg 2;
        dbAdd key val;;
        upd_heap (λ h, incrRefCount h val);;
        n ← reads (λ h, stringObjectLen junk h val);
        mret (Some n)
    | Some o =>
        wrong ← checkType o REDIS_STRING;
        if wrong : bool then mret None
        else
          append ← arg 2;
          olen ← reads (λ h, stringObjectLen junk h o);
          p ← object_sds append;
          ok ← checkStringLength (s64 (u64 (olen + sdslen p)));
          if ok : bool then
            o ← dbUnshareStringValue junk key o;
            p ← object_sds append;
            q ← object_sds o;
            q ← lift (sdscatlen junk q (buf p) (sdslen p));
            upd_heap (λ h, ob ← h !! o; Some (<[o := set_ptr ob (PtrSds q)]> h));;
            mret (Some (sdslen q))
          else mret None
    end);
  match totlen with
  | None => mret tt
  | Some totlen =>
      signalModifiedKey key;;
      notifyKeyspaceEvent REDIS_NOTIFY_STRING (str "append") key;;
      add_dirty 1;;
      add_long totlen
  end.

Definition strlenCommand : cmd unit :=
  key ← arg 1;
  o ← lookupKeyReadOrReply key (sh_czero shared);
  match o with
  | None => mret tt
  | Some o =>
      wrong ← checkType o REDIS_STRING;
      if wrong : bool then mret tt
      else
        n ← reads (λ h, stringObjectLen junk h o);
        add_long n
  end.

(** ** Several keys *)

(** [for (j = 1; j < c->argc; j++)] and similar loops: the body at [j], [j] +
    [step], ... while there are arguments. *)
Fixpoint for_args (fuel : nat) (j step : nat) (body : nat → cmd unit) : cmd unit :=
  n ← argc;
  if Z.of_nat j <? n then
    match fuel with
    | O => lift None
    | S fuel => body j;; for_args fuel (step + j) step body
    end
  else mret tt.

Definition mget_one (j : nat) : cmd unit :=
  key ← arg j;
  o ← lookupKeyRead key;
  match o with
  | None => add_reply (sh_nullbulk shared)
  | Some o => ob ← object o; if negb (otype ob =? REDIS_STRING) then add_reply (sh_nullbulk shared) else add_bulk o
  end.

Definition mgetCommand : cmd unit :=
  n ← argc;
  add_multi (n - 1);;
  for_args (Z.to_nat n) 1 1 mget_one.

Fixpoint count_busy (fuel : nat) (j : nat) (busykeys : Z) : cmd Z :=
  n ← argc;
  if Z.of_nat j <? n then
    match fuel with
    | O => lift None
    | S fuel =>
        key ← arg j;
        o ← lookupKeyWrite key;
        count_busy fuel (2 + j) (match o with Some _ => busykeys + 1 | None => busykeys end)
    end
  else mret busykeys.

Definition mset_one (j : nat) : cmd unit :=
  encode_arg (S j);;
  key ← arg j; val ← arg (S j);
  setKey key val;;
  notifyKeyspaceEvent REDIS_NOTIFY_STRING (str "set") key.

Definition msetGenericCommand (nx : bool) : cmd unit :=
  n ← argc;
  if n mod 2 =? 0 then add_error (str "wrong number of arguments for MSET")
  else
    busykeys ← (if nx then count_busy (Z.to_nat n) 1 0 else mret 0);
    if negb (busykeys =? 0) then add_reply (sh_czero shared)
    else
      for_args (Z.to_nat n) 1 2 mset_one;;
      add_dirty ((n - 1) / 2);;
      add_reply (if nx then sh_cone shared else sh_ok shared2).

Definition msetCommand : cmd unit := msetGenericCommand false.
Definition msetnxCommand : cmd unit := msetGenericCommand true.

(** ** Counters *)

Definition incrDecrCommand (incr : Z) : cmd unit :=
  key ← arg 1;
  o ← lookupKeyWrite key;
  wrong ← (match o with Some o => checkType o REDIS_STRING | None => mret false end);
  if wrong : bool then mret tt
  else
    r ← getLongLongFromObjectOrReply o None;
    match r with
    | None => mret tt
    | Some value =>
        let oldvalue := value in
        if ((incr <? 0) && (oldvalue <? 0) && (incr <? LLONG_MIN - oldvalue)) ||
           ((incr >? 0) && (oldvalue >? 0) && (incr >? LLONG_MAX - oldvalue))
        then add_error (str "increment or decrement would overflow")
        else
          let value := value + incr in
          new ← on_heap (λ h, createStringObjectFromLongLong junk shared_integers h value);
          (match o with Some _ => dbOverwrite key new | None => dbAdd key new end);;
          signalModifiedKey key;;
          notifyKeyspaceEvent REDIS_NOTIFY_STRING (str "incrby") key;;
          add_dirty 1;;
          add_reply (sh_colon shared2);;
          add_reply new;;
          add_reply (sh_crlf shared)
    end.

Definition incrCommand : cmd unit := incrDecrCommand 1.
Definition decrCommand : cmd unit := incrDecrCommand (-1).

Definition incrbyCommand : cmd unit :=
  o ← arg 2;
  r ← getLongLongFromObjectOrReply (Some o) None;
  match r with None => mret tt | Some incr => incrDecrCommand incr end.

Definition decrbyCommand : cmd unit :=
  o ← arg 2;
  r ← getLongLongFromObjectOrReply (Some o) None;
  match r with None => mret tt | Some incr => incrDecrCommand (s64 (- incr)) end.

(** ** Keys: [db.c] *)

Fixpoint del_loop (fuel : nat) (j : nat) (deleted : Z) : cmd Z :=
  n ← argc;
  if Z.of_nat j <? n then
    match fuel with
    | O => lift None
    | S fuel =>
        key ← arg j;
        expireIfNeeded key;;
        r ← dbDelete key;
        if negb (r =? 0) then
          signalModifiedKey key;;
          notifyKeyspaceEvent REDIS_NOTIFY_GENERIC (str "del") key;;
          add_dirty 1;;
          del_loop fuel (S j) (deleted + 1)
        else del_loop fuel (S j) deleted
    end
  else mret deleted.

Definition delCommand : cmd unit := n ← argc; deleted ← del_loop (Z.to_nat n) 1 0; add_long deleted.

Definition existsCommand : cmd unit :=
  key ← arg 1;
  expireIfNeeded key;;
  b ← dbExists key;
  add_reply (if b : bool then sh_cone shared else sh_czero shared).

(** [rewriteClientCommandVector(c,2,aux,key)], [networking.c] *)
Definition rewriteClientCommandVector (o key : addr) : cmd unit :=
  upd_heap (λ h, incrRefCount h o);;
  upd_heap (λ h, incrRefCount h key);;
  old ← gets st_argv;
  upd_heap (λ h, foldl (λ h a, h ← h; decrRefCount h a) (Some h) old);;
  puts (put_argv [o; key]);;
  p ← object_sds o;
  t ← lift (mread (buf p) 0 (sdslen p));
  name ← lift (e_command env t);
  puts (put_cmd name).

Definition expireGenericCommand (basetime unit_ : Z) : cmd unit :=
  key ← arg 1; param ← arg 2;
  r ← getLongLongFromObjectOrReply (Some param) None;
  match r with
  | None => mret tt
  | Some when =>
      let when := if unit_ =? UNIT_SECONDS then s64 (when * 1000) else when in
      let when := s64 (when + basetime) in
      o ← lookupKeyRead key;
      match o with
      | None => add_reply (sh_czero shared)
      | Some _ =>
          if (when <=? mstime) && negb loading && negb masterhost then
            r ← dbDelete key;
            assert (negb (r =? 0));;
            add_dirty 1;;
            aux ← on_heap (λ h, createStringObject junk h (str "DEL" ++ [0]) 3);
            rewriteClientCommandVector aux key;;
            upd_heap (λ h, decrRefCount h aux);;
            signalModifiedKey key;;
            notifyKeyspaceEvent REDIS_NOTIFY_GENERIC (str "del") key;;
            add_reply (sh_cone shared)
          else
            setExpire key when;;
            add_reply (sh_cone shared);;
            signalModifiedKey key;;
            notifyKeyspaceEvent REDIS_NOTIFY_GENERIC (str "expire") key;;
            add_dirty 1
      end
  end.

Definition expireCommand : cmd unit := expireGenericCommand mstime UNIT_SECONDS.
Definition expireatCommand : cmd unit := expireGenericCommand 0 UNIT_SECONDS.
Definition pexpireCommand : cmd unit := expireGenericCommand mstime UNIT_MILLISECONDS.
Definition pexpireatCommand : cmd unit := expireGenericCommand 0 UNIT_MILLISECONDS.

Definition ttlGenericCommand (output_ms : bool) : cmd unit :=
  key ← arg 1;
  o ← lookupKeyRead key;
  match o with
  | None => add_long (-2)
  | Some _ =>
      expire ← getExpire key;
      let ttl := if negb (expire =? -1) then let ttl := s64 (expire - mstime) in if ttl <? 0 then 0 else ttl else -1 in
      if ttl =? -1 then add_long (-1)
      else add_long (if output_ms then ttl else Z.quot (s64 (ttl + 500)) 1000)
  end.

Definition ttlCommand : cmd unit := ttlGenericCommand false.
Definition pttlCommand : cmd unit := ttlGenericCommand true.

Definition persistCommand : cmd unit :=
  key ← arg 1;
  de ← lookupKey key;
  match de with
  | None => add_reply (sh_czero shared)
  | Some _ =>
      r ← removeExpire key;
      if r : bool then add_reply (sh_cone shared);; add_dirty 1 else add_reply (sh_czero shared)
  end.
End commands.
