(* ===== verification/DbSpec.v ===== *)
(** * The key space as maps

    What the state of [Server] stands for: a map from keys to values, a map from
    keys to the times they expire at, and what was replied and recorded.  [R]
    relates the two.  Every reference to an object is accounted for: those of
    the tables, of the argument vector, of the command that runs, of the reply
    list, and of the permanent objects.

    Commands are specified by what they return and what state they leave:
    [returns m s Q] says that [m] does not fail in [s], and that [Q] holds of its
    result and its final state. *)

From S2P Require Import Prelude Util Sds Object Number Client Table Reply ReplySpec ReplyOps ReplyText Server.
From stdpp Require Import gmap.
Local Open Scope Z_scope.

(** ** The abstract state *)

Inductive value := VString (t : list Z) | VOther (type : Z).

#[export] Instance value_eq_dec : EqDecision value.
Proof. solve_decision. Defined.

Record kv := mkKv {
  vals : gmap (list Z) value;
  exps : gmap (list Z) Z;
  dirty : Z;
  events : list kevent;
  out : list Z;
  cmd_name : list Z
}.

Definition set_vals m a : kv := mkKv m (exps a) (dirty a) (events a) (out a) (cmd_name a).
Definition set_exps m a : kv := mkKv (vals a) m (dirty a) (events a) (out a) (cmd_name a).
Definition more_dirty n a : kv := mkKv (vals a) (exps a) (dirty a + n) (events a) (out a) (cmd_name a).
Definition event_of e a : kv := mkKv (vals a) (exps a) (dirty a) (events a ++ [e]) (out a) (cmd_name a).
Definition replied w a : kv := mkKv (vals a) (exps a) (dirty a) (events a) (out a ++ w) (cmd_name a).
Definition set_name n a : kv := mkKv (vals a) (exps a) (dirty a) (events a) (out a) n.
Definition del_key k a : kv := mkKv (delete k (vals a)) (delete k (exps a)) (dirty a) (events a) (out a) (cmd_name a).

(** The longest string: 512 MB. *)
Definition MAX_STRING : Z := 512 * 1024 * 1024.

(** ** Total commands *)

Section returns.
Context {T E : Type}.
Implicit Types s : sys T E.

Definition returns {A} (m : cmd T E A) s (Q : A → sys T E → Prop) : Prop := ∃ a s', m s = Some (a, s') ∧ Q a s'.

Lemma returns_ret {A} (a : A) s Q : Q a s → returns (mret a) s Q.
Proof. intros H. by exists a, s. Qed.

Lemma returns_bind {A B} (m : cmd T E A) (f : A → cmd T E B) s Q P :
  returns m s P → (∀ a s', P a s' → returns (f a) s' Q) → returns (m ≫= f) s Q.
Proof. intros (a & s' & Em & Hp) Hf. destruct (Hf a s' Hp) as (b & s2 & Ef & HQ). exists b, s2. split; [|done]. unfold mbind, cmd_bind. by rewrite Em. Qed.

Lemma returns_mono {A} (m : cmd T E A) s (P Q : A → sys T E → Prop) : returns m s P → (∀ a s', P a s' → Q a s') → returns m s Q.
Proof. intros (a & s' & Em & Hp) Hi. exists a, s'. auto. Qed.

Lemma returns_lift {A} (r : option A) a s Q : r = Some a → Q a s → returns (lift r) s Q.
Proof. intros -> H. by exists a, s. Qed.
Lemma returns_gets {A} (f : sys T E → A) s Q : Q (f s) s → returns (gets f) s Q.
Proof. intros H. by eexists _, _. Qed.
Lemma returns_puts f s (Q : unit → sys T E → Prop) : Q tt (f s) → returns (puts f) s Q.
Proof. intros H. by eexists _, _. Qed.
Lemma returns_assert b s (Q : unit → sys T E → Prop) : b = true → Q tt s → returns (assert b) s Q.
Proof. intros -> H. by eexists _, _. Qed.

Lemma returns_assoc {A B D} (m : cmd T E A) (f : A → cmd T E B) (g : B → cmd T E D) s Q :
  returns ((m ≫= f) ≫= g) s Q → returns (m ≫= λ a, f a ≫= g) s Q.
Proof. unfold returns, mbind, cmd_bind. by destruct (m s) as [[]|]. Qed.
Lemma returns_assoc' {A B D} (m : cmd T E A) (f : A → cmd T E B) (g : B → cmd T E D) s Q :
  returns (m ≫= λ a, f a ≫= g) s Q → returns ((m ≫= f) ≫= g) s Q.
Proof. unfold returns, mbind, cmd_bind. by destruct (m s) as [[]|]. Qed.
End returns.

(** ** References of a table *)

Definition table_refs (m : gmap (list Z) addr) (o : addr) : Z := refs (map_to_list m).*2 o.

Lemma refs_cons a l o : refs (a :: l) o = (if decide (a = o) then 1 else 0) + refs l o.
Proof. change (a :: l) with ([a] ++ l). by rewrite refs_app, refs_one. Qed.

Lemma refs_permuted l1 l2 o : l1 ≡ₚ l2 → refs l1 o = refs l2 o.
Proof. intros E. unfold refs. by rewrite E. Qed.

Lemma table_refs_insert m k a o : m !! k = None → table_refs (<[k := a]> m) o = (if decide (a = o) then 1 else 0) + table_refs m o.
Proof. intros E. unfold table_refs. rewrite <- refs_cons. apply refs_permuted. by rewrite (map_to_list_insert m k a E). Qed.

Lemma table_refs_delete m k a o : m !! k = Some a → table_refs m o = (if decide (a = o) then 1 else 0) + table_refs (delete k m) o.
Proof. intros E. by rewrite <- (table_refs_insert (delete k m) k a o), insert_delete_id by (done || apply lookup_delete_eq). Qed.

Lemma table_refs_nonneg m o : 0 ≤ table_refs m o.
Proof. apply refs_nonneg. Qed.

Lemma table_refs_le m o : table_refs m o ≤ Z.of_nat (size m).
Proof. unfold table_refs. etrans; [apply refs_le|]. rewrite length_fmap. by rewrite length_map_to_list. Qed.

Lemma table_refs_in m k o : m !! k = Some o → 0 < table_refs m o.
Proof. intros E. rewrite (table_refs_delete m k o o E), decide_True by done. pose proof (table_refs_nonneg (delete k m) o). lia. Qed.

Lemma table_refs_inv m o : 0 < table_refs m o → ∃ k, m !! k = Some o.
Proof.
  intros Hr%refs_in. apply list_elem_of_fmap in Hr as ([k o'] & -> & Hin). exists k. by apply elem_of_map_to_list.
Qed.

Lemma table_refs_other m k1 k2 o : m !! k1 = Some o → m !! k2 = Some o → k1 ≠ k2 → 1 < table_refs m o.
Proof.
  intros E1 E2 Hne. rewrite (table_refs_delete m k1 o o E1), decide_True by done.
  assert (0 < table_refs (delete k1 m) o); [|lia]. apply (table_refs_in _ k2). by rewrite lookup_delete_ne.
Qed.

(** ** The relation *)

Record argument := mkArg { a_text : list Z; a_raw : bool }.

Definition same_obj (ob ob' : robj) : Prop :=
  otype ob' = otype ob ∧ oencoding ob' = oencoding ob ∧ ptr ob' = ptr ob.

Definition val_is (h : oheap) (o : addr) (v : value) : Prop :=
  match v with
  | VString t => says h o t ∧ len t ≤ MAX_STRING
  | VOther type => 1 ≤ type ≤ 4 ∧ ∃ ob, h !! o = Some ob ∧ otype ob = type
  end.

Definition arg_is (h : oheap) (o : addr) (a : argument) : Prop :=
  ∃ ob, h !! o = Some ob ∧ obj_says ob (a_text a) ∧ (a_raw a = true → oencoding ob = REDIS_ENCODING_RAW) ∧ len (a_text a) ≤ MAX_STRING.

Definition vals_rel (h : oheap) (m : gmap (list Z) addr) (vs : gmap (list Z) value) : Prop :=
  ∀ k, match m !! k, vs !! k with Some o, Some v => val_is h o v | None, None => True | _, _ => False end.

Section relation.
Context {T E : Type} `{!KeyTable T addr, !KeyTable E Z}.
Context (malloc_size : sdshdr → Z) (ae_create : bool).
(** The permanent objects [h0] and their holders, the stream before, the client
    before. *)
Context (base : addr → Z) (h0 : oheap) (st0 : list item) (c0 : redisClient).
Abbreviation sys := (sys T E).
Implicit Types (s : sys) (a : kv).

Definition held_by (m : gmap (list Z) addr) (own : list addr) (o : addr) : Z := base o + table_refs m o + refs own o.

Definition the_map s : gmap (list Z) addr := tbl_map (db_dict (st_db s)).

Definition owner s (args : list (addr * argument)) (tmp : list (addr * value)) : addr → Z := held_by (the_map s) (args.*1 ++ tmp.*1).

(** An argument that is a key. *)
Definition is_key (args : list (addr * argument)) (key : addr) (k : list Z) : Prop := (key, mkArg k true) ∈ args.

(** A permanent object says [t]. *)
Definition permanent (o : addr) (t : list Z) : Prop := ∃ ob, h0 !! o = Some ob ∧ obj_says ob t ∧ oencoding ob = REDIS_ENCODING_RAW ∧ len t ≤ MAX_STRING.

(** [k] bounds the replies and the keys still to come; [args] are the arguments,
    [tmp] the references the command itself holds. *)
Record R (k : Z) (args : list (addr * argument)) (tmp : list (addr * value)) a s : Prop := {
  R_small : ∀ o, 0 ≤ base o < 2 ^ 28;
  R_held : ∀ o ob, h0 !! o = Some ob → 0 < base o;
  R_out : out_ok malloc_size (owner s args tmp) (st_heap s) (st_client s)
            (st0 ++ if accepts ae_create c0 then bytes (out a) else []);
  R_acc : accepts ae_create (st_client s) = accepts ae_create c0;
  R_near : near c0 (st_client s);
  R_room : room k (st_client s);
  R_dict : tbl_ok (db_dict (st_db s));
  R_expires : tbl_ok (db_expires (st_db s));
  R_vals : vals_rel (st_heap s) (the_map s) (vals a);
  R_exps : tbl_map (db_expires (st_db s)) = exps a;
  R_sub : ∀ key, is_Some (exps a !! key) → is_Some (vals a !! key);
  R_argv : st_argv s = args.*1;
  R_args : Forall (λ p, arg_is (st_heap s) p.1 p.2) args;
  R_tmp : Forall (λ p, val_is (st_heap s) p.1 p.2) tmp;
  R_base : ∀ o ob, h0 !! o = Some ob → ∃ ob', st_heap s !! o = Some ob' ∧ same_obj ob ob';
  R_few : Z.of_nat (size (vals a)) + k < MAX_KEYS ∧ len args < 2 ^ 27 ∧ len tmp ≤ 8 ∧ 0 ≤ k;
  R_dirty : st_dirty s = dirty a;
  R_events : st_events s = events a;
  R_cmd : st_cmd s = cmd_name a
}.
End relation.
Arguments R_small {T E _ _ malloc_size ae_create base h0 st0 c0 k args tmp a s} _.
Arguments R_held {T E _ _ malloc_size ae_create base h0 st0 c0 k args tmp a s} _.
Arguments R_out {T E _ _ malloc_size ae_create base h0 st0 c0 k args tmp a s} _.
Arguments R_acc {T E _ _ malloc_size ae_create base h0 st0 c0 k args tmp a s} _.
Arguments R_near {T E _ _ malloc_size ae_create base h0 st0 c0 k args tmp a s} _.
Arguments R_room {T E _ _ malloc_size ae_create base h0 st0 c0 k args tmp a s} _.
Arguments R_dict {T E _ _ malloc_size ae_create base h0 st0 c0 k args tmp a s} _.
Arguments R_expires {T E _ _ malloc_size ae_create base h0 st0 c0 k args tmp a s} _.
Arguments R_vals {T E _ _ malloc_size ae_create base h0 st0 c0 k args tmp a s} _.
Arguments R_exps {T E _ _ malloc_size ae_create base h0 st0 c0 k args tmp a s} _.
Arguments R_sub {T E _ _ malloc_size ae_create base h0 st0 c0 k args tmp a s} _.
Arguments R_argv {T E _ _ malloc_size ae_create base h0 st0 c0 k args tmp a s} _.
Arguments R_args {T E _ _ malloc_size ae_create base h0 st0 c0 k args tmp a s} _.
Arguments R_tmp {T E _ _ malloc_size ae_create base h0 st0 c0 k args tmp a s} _.
Arguments R_base {T E _ _ malloc_size ae_create base h0 st0 c0 k args tmp a s} _.
Arguments R_few {T E _ _ malloc_size ae_create base h0 st0 c0 k args tmp a s} _.
Arguments R_dirty {T E _ _ malloc_size ae_create base h0 st0 c0 k args tmp a s} _.
Arguments R_cmd {T E _ _ malloc_size ae_create base h0 st0 c0 k args tmp a s} _.
Arguments R_events {T E _ _ malloc_size ae_create base h0 st0 c0 k args tmp a s} _.
