(* ===== verification/DbOps.v ===== *)
(** * Steps that keep the relation *)

From S2P Require Import Prelude Util Sds Object Number Client Table Reply ReplySpec ReplyOps ReplyText Server DbSpec.
From stdpp Require Import gmap.
Local Open Scope Z_scope.

#[export] Instance same_obj_refl : Reflexive same_obj.
Proof. by split. Qed.
#[export] Instance same_obj_trans : Transitive same_obj.
Proof. intros o1 o2 o3 (? & ? & ?) (? & ? & ?). split_and!; congruence. Qed.

Lemma same_says ob ob' t : same_obj ob ob' → 1 ≤ refcount ob' → obj_says ob t → obj_says ob' t.
Proof. intros (Et & Ee & Ep) Hr (Ht & _ & Hp). split; [congruence|]. split; [done|]. by rewrite Ep, Ee. Qed.

Lemma val_same h h' o v : val_is h o v → (∀ ob, h !! o = Some ob → ∃ ob', h' !! o = Some ob' ∧ same_obj ob ob' ∧ 1 ≤ refcount ob') → val_is h' o v.
Proof.
  intros Hv Hs. destruct v as [t|type].
  - destruct Hv as [(ob & Ho & Hsays) Hl]. destruct (Hs ob Ho) as (ob' & Ho' & Hsame & Hr). split; [|done]. exists ob'. split; [done|]. by eapply same_says.
  - destruct Hv as [Ht (ob & Ho & Et)]. destruct (Hs ob Ho) as (ob' & Ho' & (Et' & _) & _). split; [done|]. exists ob'. split; [done|congruence].
Qed.

Lemma arg_same h h' o x : arg_is h o x → (∀ ob, h !! o = Some ob → ∃ ob', h' !! o = Some ob' ∧ same_obj ob ob' ∧ 1 ≤ refcount ob') → arg_is h' o x.
Proof.
  intros (ob & Ho & Hsays & Hraw & Hl) Hs. destruct (Hs ob Ho) as (ob' & Ho' & Hsame & Hr). exists ob'. split; [done|].
  split; [by eapply same_says|]. split; [|done]. intros E. destruct Hsame as (_ & -> & _). by apply Hraw.
Qed.

Lemma out_ok_change malloc_size ext ext' h h' c st :
  out_ok malloc_size ext h c st → counted ext' h' (reply (cout c)) →
  (∀ o ob, o ∈ reply (cout c) → h !! o = Some ob → ∃ ob', h' !! o = Some ob' ∧ same_obj ob ob' ∧ (ptr ob = PtrNull → refcount ob' = 1)) →
  out_ok malloc_size ext' h' c st.
Proof.
  intros [H1 H2 H3 H4 (parts & Hf & Hsent & Est)] Hc Hs. split; [done..| |].
  - rewrite (list_size_ext malloc_size h h'); [done|]. intros o Ho. destruct (shows_live _ _ _ _ Hf Ho) as [ob E]. destruct (Hs o ob Ho E) as (ob' & E' & (_ & _ & Ep) & _).
    unfold obj_size. by rewrite E, E', Ep.
  - exists parts. split; [|done]. apply Forall2_same_length_lookup. pose proof (Forall2_length _ _ _ Hf) as Hl. split; [done|]. intros i o p Ho Hp.
    pose proof (Forall2_lookup_lr _ _ _ _ _ _ Hf Ho Hp) as (ob & E & Ht & He & Hq). destruct (Hs o ob (list_elem_of_lookup_2 _ _ _ Ho) E) as (ob' & E' & (Et' & Ee' & Ep') & Hn).
    exists ob'. rewrite Et', Ee', Ep'. split_and!; try done. destruct (ptr ob); try done. destruct Hq as [_ ->]. split; [auto|done].
Qed.

Section ops.
Context {T E : Type} `{!KeyTable T addr, !KeyTable E Z, !KeyTableLaws T addr, !KeyTableLaws E Z}.
Context {malloc_size : sdshdr → Z} {ae_create : bool} {base : addr → Z} {h0 : oheap} {st0 : list item} {c0 : redisClient}.
Abbreviation sys := (sys T E).
Abbreviation cmd := (cmd T E).
Abbreviation R := (R malloc_size ae_create base h0 st0 c0).
#[local] Abbreviation held_by := (held_by base).
#[local] Abbreviation the_map := (@the_map T E _).
#[local] Abbreviation owner := (owner base).
Implicit Types (k : Z) (o : addr).
Implicit Types (s : sys) (a : kv) (args : list (addr * argument)) (tmp : list (addr * value)).

Lemma held_nonneg m own o : (∀ o, 0 ≤ base o < 2 ^ 28) → 0 ≤ held_by m own o.
Proof. intros Hb. unfold DbSpec.held_by. specialize (Hb o). pose proof (table_refs_nonneg m o). pose proof (refs_nonneg own o). lia. Qed.

Lemma R_counted {k args tmp a s} : R k args tmp a s → counted (owner s args tmp) (st_heap s) (reply (cout (st_client s))).
Proof. intros HR. apply (out_counted _ _ _ _ _ (R_out HR)). Qed.

Lemma vals_size h m vs : vals_rel h m vs → size m = size vs.
Proof using Type.
  intros Hr. rewrite <- !size_dom. f_equal. apply set_eq. intros key. rewrite !elem_of_dom. specialize (Hr key). destruct (m !! key), (vs !! key); by (split; intros Hx).
Qed.

(** How often an object can be referenced. *)
Lemma owner_small {k args tmp a s} o : R k args tmp a s → 0 ≤ owner s args tmp o < 2 ^ 30 - 2 ^ 26.
Proof.
  intros HR. pose proof (R_few HR) as (Hf & Ha & Ht & Hk). pose proof (R_small HR o). unfold owner. split; [apply held_nonneg, HR|].
  unfold DbSpec.held_by. pose proof (table_refs_le (the_map s) o) as Hm. rewrite (vals_size _ _ _ (R_vals HR)) in Hm.
  pose proof (refs_le (args.*1 ++ tmp.*1) o) as Ho. rewrite length_app, !length_fmap in Ho. unfold MAX_KEYS in *. lia.
Qed.

Lemma R_live {k args tmp a s} o : R k args tmp a s → 0 < owner s args tmp o →
  ∃ ob, st_heap s !! o = Some ob ∧ refcount ob = owner s args tmp o + refs (reply (cout (st_client s))) o ∧ 1 ≤ refcount ob < 2 ^ 31 - 8.
Proof.
  intros HR Ho. pose proof (R_counted HR o) as Hc. destruct (st_heap s !! o) as [ob|]; [|lia]. exists ob. split; [done|]. destruct Hc as (_ & Hr & Er). split; [done|].
  pose proof (owner_small o HR). pose proof (refs_le (reply (cout (st_client s))) o). pose proof (R_room HR) as [_ Hroom].
  pose proof (R_few HR) as (_ & _ & _ & Hk). lia.
Qed.

(** The general step: the references change, and what the objects still
    referenced hold is known; those in the reply list and the permanent ones
    hold what they did. *)
Lemma R_heap0 {k k' args tmp a s args' tmp' a' s'} :
  R k args tmp a s →
  st_client s' = st_client s → st_argv s' = args'.*1 → st_dirty s' = dirty a' → st_events s' = events a' → out a' = out a → st_cmd s' = cmd_name a' →
  counted (owner s' args' tmp') (st_heap s') (reply (cout (st_client s))) →
  (∀ o ob, st_heap s !! o = Some ob → o ∈ reply (cout (st_client s)) ∨ 0 < base o → ∃ ob', st_heap s' !! o = Some ob' ∧ same_obj ob ob') →
  tbl_ok (db_dict (st_db s')) → tbl_ok (db_expires (st_db s')) → tbl_map (db_expires (st_db s')) = exps a' →
  vals_rel (st_heap s') (the_map s') (vals a') → (∀ key, is_Some (exps a' !! key) → is_Some (vals a' !! key)) →
  Forall (λ p, arg_is (st_heap s') p.1 p.2) args' → Forall (λ p, val_is (st_heap s') p.1 p.2) tmp' →
  Z.of_nat (size (vals a')) + k' < MAX_KEYS → len args' < 2 ^ 27 → len tmp' ≤ 8 → 0 ≤ k' ≤ k →
  R k' args' tmp' a' s'.
Proof.
  intros HR Ec Eav Ed Ee Eo Ecmd Hcnt Hsame Hd He Hme Hv Hsub Ha Ht Hfew Hla Hlt Hk. pose proof HR as [Hsm Hhe HO Hacc Hnear Hroom _ _ _ _ _ _ _ _ HB HF _ _ _].
  split; try done; rewrite ?Ec, ?Eo; try done.
  - apply (out_ok_change malloc_size (owner s args tmp) _ (st_heap s)); [done|done|]. intros o ob Hin Ho. pose proof (proj1 (refs_in _ _) Hin) as Hr.
    destruct (Hsame o ob Ho ltac:(by left)) as (ob' & Ho' & Hs). exists ob'. split; [done|]. split; [done|]. intros Hnull.
    assert (refcount ob = 1 ∧ otype ob = REDIS_STRING) as [Hr1 Hty].
    { destruct HO as [_ _ _ _ (parts & Hf & _)]. apply list_elem_of_lookup in Hin as [i Hi]. destruct (Forall2_lookup_l _ _ _ _ _ Hf Hi) as (p & _ & ob1 & Ho1 & ? & _ & Hp).
      rewrite Ho in Ho1. injection Ho1 as <-. rewrite Hnull in Hp. tauto. }
    pose proof (R_counted HR o) as Hc0. rewrite Ho in Hc0. specialize (Hcnt o). rewrite Ho' in Hcnt.
    assert (owner s' args' tmp' o = 0) as E0; [|lia]. unfold DbSpec.owner, DbSpec.held_by in *.
    pose proof (table_refs_nonneg (the_map s) o). pose proof (refs_nonneg (args.*1 ++ tmp.*1) o). pose proof (R_small HR o).
    destruct Hs as (Et1 & _ & Ep1). rewrite Hnull in Ep1. rewrite Hty in Et1.
    assert (∀ v, ¬ val_is (st_heap s') o v) as Hnv.
    { intros [t|ty]; [intros [(ob1 & Ho1 & _ & _ & Hp) _]|intros [Hb (ob1 & Ho1 & Et)]]; rewrite Ho' in Ho1; injection Ho1 as <-; [by rewrite Ep1 in Hp|unfold REDIS_STRING in Et1; lia]. }
    assert (¬ 0 < table_refs (the_map s') o).
    { intros [key Hkey]%table_refs_inv. specialize (Hv key). rewrite Hkey in Hv. destruct (vals a' !! key); [by eapply Hnv|done]. }
    assert (¬ 0 < refs (args'.*1 ++ tmp'.*1) o).
    { intros [Hi|Hi]%refs_in%elem_of_app; apply list_elem_of_fmap in Hi as ([o1 x] & -> & Hi); [rewrite Forall_forall in Ha|rewrite Forall_forall in Ht].
      - destruct (Ha _ Hi) as (ob1 & Ho1 & (_ & _ & Hp) & _). cbn in *. rewrite Ho' in Ho1. injection Ho1 as <-. by rewrite Ep1 in Hp.
      - by apply (Hnv x), (Ht _ Hi). }
    pose proof (table_refs_nonneg (the_map s') o). pose proof (refs_nonneg (args'.*1 ++ tmp'.*1) o). lia.
  - unfold room in *. lia.
  - intros o ob Ho. destruct (HB o ob Ho) as (ob1 & Ho1 & Hs1). destruct (Hsame o ob1 Ho1) as (ob2 & Ho2 & Hs2); [right; by eapply (R_held HR)|].
    exists ob2. split; [done|by etrans].
  - split; [done|]. split; [done|]. split; [done|lia].
Qed.

(** No object that is still referenced changes what it holds. *)
Lemma R_heap {k k' args tmp a s args' tmp' a' s'} :
  R k args tmp a s →
  st_client s' = st_client s → st_argv s' = args'.*1 → st_dirty s' = dirty a' → st_events s' = events a' → out a' = out a → st_cmd s' = cmd_name a' →
  counted (owner s' args' tmp') (st_heap s') (reply (cout (st_client s))) →
  (∀ o ob, st_heap s !! o = Some ob → 0 < owner s' args' tmp' o + refs (reply (cout (st_client s))) o → ∃ ob', st_heap s' !! o = Some ob' ∧ same_obj ob ob') →
  tbl_ok (db_dict (st_db s')) → tbl_ok (db_expires (st_db s')) → tbl_map (db_expires (st_db s')) = exps a' →
  vals_rel (st_heap s) (the_map s') (vals a') → (∀ key, is_Some (exps a' !! key) → is_Some (vals a' !! key)) →
  Forall (λ p, arg_is (st_heap s) p.1 p.2) args' → Forall (λ p, val_is (st_heap s) p.1 p.2) tmp' →
  Z.of_nat (size (vals a')) + k' < MAX_KEYS → len args' < 2 ^ 27 → len tmp' ≤ 8 → 0 ≤ k' ≤ k →
  R k' args' tmp' a' s'.
Proof.
  intros HR Ec Eav Ed Ee Eo Ecmd Hcnt Hsame Hd He Hme Hv Hsub Ha Ht Hfew Hla Hlt Hk.
  assert (∀ o ob, st_heap s !! o = Some ob → 0 < owner s' args' tmp' o → ∃ ob', st_heap s' !! o = Some ob' ∧ same_obj ob ob' ∧ 1 ≤ refcount ob') as Hlive.
  { intros o ob Ho Hpos. pose proof (refs_nonneg (reply (cout (st_client s))) o) as Hr. destruct (Hsame o ob Ho ltac:(lia)) as (ob' & Ho' & Hs). exists ob'. split; [done|]. split; [done|].
    specialize (Hcnt o). rewrite Ho' in Hcnt. lia. }
  assert (∀ o, o ∈ args'.*1 ++ tmp'.*1 → 0 < owner s' args' tmp' o) as Hown.
  { intros o Ho%refs_in. unfold DbSpec.owner, DbSpec.held_by. pose proof (R_small HR o). pose proof (table_refs_nonneg (the_map s') o). lia. }
  assert (∀ (key : list Z) o, the_map s' !! key = Some o → 0 < owner s' args' tmp' o) as Htab.
  { intros key o Ho%table_refs_in. unfold DbSpec.owner, DbSpec.held_by. pose proof (R_small HR o). pose proof (refs_nonneg (args'.*1 ++ tmp'.*1) o). lia. }
  eapply R_heap0; try done.
  - intros o ob Ho Hor. apply Hsame; [done|]. pose proof (held_nonneg (the_map s') (args'.*1 ++ tmp'.*1) o (R_small HR)) as Hn. fold (owner s' args' tmp') in Hn.
    pose proof (refs_nonneg (reply (cout (st_client s))) o). destruct Hor as [Hr%refs_in|Hb]; [unfold owner in *; lia|].
    unfold DbSpec.owner, DbSpec.held_by in *. pose proof (table_refs_nonneg (the_map s') o). pose proof (refs_nonneg (args'.*1 ++ tmp'.*1) o). lia.
  - intros key. specialize (Hv key). destruct (the_map s' !! key) as [o|] eqn:Eo', (vals a' !! key); try done. eapply val_same; [done|]. intros ob Ho. apply Hlive; [done|by eapply Htab].
  - rewrite Forall_forall in *. intros p Hp. eapply arg_same; [by apply Ha|]. intros ob Ho. apply Hlive; [done|]. apply Hown, elem_of_app. left. by apply list_elem_of_fmap_2.
  - rewrite Forall_forall in *. intros p Hp. eapply val_same; [by apply Ht|]. intros ob Ho. apply Hlive; [done|]. apply Hown, elem_of_app. right. by apply list_elem_of_fmap_2.
Qed.

(** ** Reading *)

Lemma returns_eq {A} (m : cmd A) s x s' (Q : A → sys → Prop) : m s = Some (x, s') → Q x s' → returns m s Q.
Proof using Type. intros E1 HQ. by exists x, s'. Qed.

Lemma returns_step {A B} (m : cmd A) (f : A → cmd B) s x s' (Q : B → sys → Prop) : m s = Some (x, s') → returns (f x) s' Q → returns (m ≫= f) s Q.
Proof using Type. intros E1 (b & s2 & Ef & HQ). exists b, s2. split; [|done]. unfold mbind, cmd_bind. by rewrite E1. Qed.

Lemma R_arg {k args tmp a s} o x : R k args tmp a s → (o, x) ∈ args → arg_is (st_heap s) o x.
Proof. intros HR Hin. pose proof (R_args HR) as HF. rewrite Forall_forall in HF. by apply (HF _ Hin). Qed.

Lemma arg_owned {k args tmp a s} o x : R k args tmp a s → (o, x) ∈ args → 0 < owner s args tmp o.
Proof.
  intros HR Hin. assert (0 < refs (args.*1 ++ tmp.*1) o) as Hr by (apply refs_in, elem_of_app; left; by apply (list_elem_of_fmap_2' fst args (o, x))).
  unfold DbSpec.owner, DbSpec.held_by. pose proof (R_small HR o). pose proof (table_refs_nonneg (the_map s) o). lia.
Qed.

Lemma tmp_owned {k args tmp a s} o v : R k args tmp a s → (o, v) ∈ tmp → 0 < owner s args tmp o.
Proof.
  intros HR Hin. assert (0 < refs (args.*1 ++ tmp.*1) o) as Hr by (apply refs_in, elem_of_app; right; by apply (list_elem_of_fmap_2' fst tmp (o, v))).
  unfold DbSpec.owner, DbSpec.held_by. pose proof (R_small HR o). pose proof (table_refs_nonneg (the_map s) o). lia.
Qed.

Lemma table_owned {k args tmp a s} key o : R k args tmp a s → the_map s !! key = Some o → 0 < owner s args tmp o.
Proof.
  intros HR Ho%table_refs_in. unfold DbSpec.owner, DbSpec.held_by. pose proof (R_small HR o). pose proof (refs_nonneg (args.*1 ++ tmp.*1) o). lia.
Qed.

Lemma raw_read (h : oheap) (o : addr) ob t : h !! o = Some ob → obj_says ob t → oencoding ob = REDIS_ENCODING_RAW → ∃ p, osds ob = Some p ∧ rep p t.
Proof using Type.
  intros Ho (_ & _ & Hp) He. unfold osds. destruct (ptr ob) as [p|v| |]; try done; [exists p; by destruct Hp|]. destruct Hp as (Ei & _). by rewrite Ei in He.
Qed.

Lemma key_text_raw key ob t s : st_heap s !! key = Some ob → obj_says ob t → oencoding ob = REDIS_ENCODING_RAW → key_text key s = Some (t, s).
Proof using Type.
  intros Ho Hs He. destruct (raw_read _ _ _ _ Ho Hs He) as (p & Ep & Hr). unfold key_text, object_sds, mbind, cmd_bind. rewrite Ho. bsimpl. rewrite Ep. bsimpl.
  unfold lift. destruct (rep_read _ _ Hr) as [-> _]. done.
Qed.

Lemma key_text_ok {k args tmp a s} key t : R k args tmp a s → is_key args key t → key_text key s = Some (t, s).
Proof. intros HR Hk. destruct (R_arg _ _ HR Hk) as (ob & Ho & Hs & Hraw & _). eapply key_text_raw; [done|done|by apply Hraw]. Qed.

(** ** The tables move on *)

Lemma R_db {k args tmp a s} db' : R k args tmp a s →
  tbl_ok (db_dict db') → tbl_ok (db_expires db') → tbl_map (db_dict db') = the_map s → tbl_map (db_expires db') = tbl_map (db_expires (st_db s)) →
  R k args tmp a (put_db db' s).
Proof. intros [] H1 H2 E1 E2. split; try done; unfold DbSpec.owner, the_map in *; cbn [st_db put_db st_heap st_client st_argv]; rewrite ?E1, ?E2; done. Qed.

Lemma find_dict_ok {k args tmp a s} key : R k args tmp a s →
  returns (find_dict key) s (λ r s', R k args tmp a s' ∧ r = the_map s' !! key ∧ the_map s' = the_map s ∧ st_heap s' = st_heap s).
Proof.
  intros HR. destruct (tbl_find_ok (db_dict (st_db s)) key (R_dict HR)) as (d' & Ef & Hok & Hm).
  eexists _, _. split; [unfold find_dict, mbind, cmd_bind, gets, lift; rewrite Ef; reflexivity|]. unfold the_map. cbn [st_db put_db db_dict]. rewrite Hm. split; [|done].
  apply R_db; try done. apply (R_expires HR).
Qed.

Lemma find_expires_ok {k args tmp a s} key : R k args tmp a s →
  returns (find_expires key) s (λ r s', R k args tmp a s' ∧ r = exps a !! key ∧ the_map s' = the_map s).
Proof.
  intros HR. destruct (tbl_find_ok (db_expires (st_db s)) key (R_expires HR)) as (d' & Ef & Hok & Hm).
  rewrite (R_exps HR) in Ef.
  eexists _, _. split; [unfold find_expires, mbind, cmd_bind, gets, lift; rewrite Ef; reflexivity|]. split; [|done]. apply R_db; try done. apply (R_dict HR).
Qed.

(** What a lookup means. *)
Lemma R_lookup {k args tmp a s} key : R k args tmp a s →
  match the_map s !! key with
  | Some o => ∃ v, vals a !! key = Some v ∧ val_is (st_heap s) o v ∧ 0 < owner s args tmp o
  | None => vals a !! key = None
  end.
Proof.
  intros HR. pose proof (R_vals HR key) as Hv. destruct (the_map s !! key) as [o|] eqn:Eo, (vals a !! key) as [v|]; try done.
  exists v. split; [done|]. split; [done|]. by eapply table_owned.
Qed.

Lemma lookupKey_ok {k args tmp a s} key t : R k args tmp a s → is_key args key t →
  returns (lookupKey key) s (λ r s', R k args tmp a s' ∧ r = the_map s' !! t ∧ the_map s' = the_map s).
Proof. intros HR Hk. unfold lookupKey. eapply returns_step; [by eapply key_text_ok|]. eapply returns_mono; [exact (find_dict_ok t HR)|]. intros r s1 (? & ? & ? & _). done. Qed.

(** ** References taken and given back *)

Lemma incr_ok {k args tmp a s} o v : R k args tmp a s → len tmp < 8 → val_is (st_heap s) o v → 0 < owner s args tmp o →
  returns (upd_heap (λ h, incrRefCount h o)) s (λ _ s', R k args ((o, v) :: tmp) a s' ∧ st_db s' = st_db s).
Proof.
  intros HR Hl Hv Ho. destruct (R_live _ HR Ho) as (ob & Eo & Er & Hr).
  eexists tt, _. split; [unfold upd_heap, incrRefCount; rewrite Eo; reflexivity|]. split; [|done]. pose proof HR as [].
  eapply (R_heap HR); try done; cbn [put_heap st_heap st_db]; try lia.
  - intros o'. pose proof (R_counted HR o') as Hc. unfold DbSpec.owner, DbSpec.held_by in *. cbn [fmap list_fmap fst]. unfold the_map in *. cbn [put_heap st_db].
    rewrite refs_app in Hc. rewrite refs_app, refs_cons. destruct (decide (o = o')) as [<- |Hne].
    + rewrite lookup_insert_eq. rewrite Eo in Hc. cbn [refcount set_refcount]. rewrite swrap_small by lia. lia.
    + rewrite lookup_insert_ne by done. destruct (st_heap s !! o'); lia.
  - intros o' ob' E' _. destruct (decide (o = o')) as [<- |Hne].
    + rewrite Eo in E'. injection E' as <-. rewrite lookup_insert_eq. by eexists.
    + rewrite lookup_insert_ne by done. by exists ob'.
  - constructor; [done|]. exact R_tmp.
  - cbn [length]. lia.
Qed.

Lemma val_freeable h o v ob : val_is h o v → h !! o = Some ob → (0 <=? otype ob) && (otype ob <=? 4) = true.
Proof using Type.
  intros Hv Eo. destruct v as [t|ty]; cbn in Hv.
  - destruct Hv as [(ob1 & E1 & Et & _) _]. rewrite Eo in E1. injection E1 as <-. by rewrite Et.
  - destruct Hv as [Hb (ob1 & E1 & Et)]. rewrite Eo in E1. injection E1 as <-. apply andb_true_iff. split; apply Z.leb_le; lia.
Qed.

Lemma decr_ok {k args tmp a s} o v : R k args ((o, v) :: tmp) a s →
  returns (upd_heap (λ h, decrRefCount h o)) s (λ _ s', R k args tmp a s' ∧ st_db s' = st_db s ∧ ∀ o', o' ≠ o → st_heap s' !! o' = st_heap s !! o').
Proof.
  intros HR. destruct (R_live o HR) as (ob & Eo & Er & Hr); [apply (tmp_owned _ v HR); by left|]. pose proof HR as [].
  pose proof (Forall_inv R_tmp) as Hv. cbn in Hv. pose proof (val_freeable _ _ _ _ Hv Eo) as Hfree.
  assert (∃ h', decrRefCount (st_heap s) o = Some h' ∧ (∀ o', o' ≠ o → h' !! o' = st_heap s !! o') ∧
    (if decide (refcount ob = 1) then h' !! o = None else h' !! o = Some (set_refcount ob (refcount ob - 1)))) as (h' & Ed & Hne & Hh).
  { unfold decrRefCount. rewrite Eo. bsimpl. rewrite (proj2 (Z.leb_gt _ _)) by lia. destruct (Z.eqb_spec (refcount ob) 1) as [E1|E1].
    - rewrite Hfree. eexists. split; [done|]. split; [intros; by rewrite lookup_delete_ne|]. rewrite decide_True by done. apply lookup_delete_eq.
    - eexists. split; [done|]. split; [intros; by rewrite lookup_insert_ne|]. rewrite decide_False by done. apply lookup_insert_eq. }
  eexists tt, _. split; [unfold upd_heap; rewrite Ed; reflexivity|]. split; [|by split].
  assert (∀ o', owner (put_heap h' s) args tmp o' = owner s args ((o, v) :: tmp) o' - if decide (o = o') then 1 else 0) as Hown.
  { intros o'. unfold DbSpec.owner, DbSpec.held_by, the_map. cbn [put_heap st_db fmap list_fmap fst]. rewrite !refs_app, refs_cons. lia. }
  eapply (R_heap HR); try done; cbn [put_heap st_heap st_db st_client]; try lia.
  - intros o'. pose proof (R_counted HR o') as Hc. rewrite Hown. destruct (decide (o = o')) as [<- |Hno].
    + pose proof (refs_nonneg (reply (cout (st_client s))) o). assert (0 < owner s args ((o, v) :: tmp) o) by (apply (tmp_owned _ v HR); by left).
      rewrite Eo in Hc. case_decide as E1; rewrite Hh; [|cbn [refcount set_refcount]]; lia.
    + rewrite Hne by done. destruct (st_heap s !! o'); lia.
  - intros o' ob' E' Hpos. rewrite Hown in Hpos. destruct (decide (o = o')) as [<- |Hno].
    + rewrite Eo in E'. injection E' as <-. case_decide as E1; [lia|]. rewrite Hh. by eexists.
    + rewrite Hne by done. by exists ob'.
  - by apply Forall_cons in R_tmp as [_ ?].
  - cbn [length] in R_few. lia.
Qed.
End ops.
