(* ===== verification/DbKeys.v ===== *)
(** * Functions of the key space keep the relation

    Lookups, expiry, and the changes of [db.c], in terms of the maps. *)

From S2P Require Import Prelude Util Sds Object Number Client Table Reply ReplySpec ReplyOps ReplyText Server DbSpec DbOps.
From stdpp Require Import gmap.
Local Open Scope Z_scope.

(** ** What the functions do to the maps *)

Definition put_val (t : list Z) (v : value) a : kv := set_vals (<[t := v]> (vals a)) a.

(** A key past its time is deleted when it is looked up, on a master. *)
Definition expired (mstime : Z) (loading masterhost : bool) (when : Z) : bool :=
  negb (when <? 0) && negb loading && negb masterhost && negb (mstime <=? when).

Definition purge (mstime : Z) (loading masterhost : bool) (t : list Z) a : kv :=
  match exps a !! t with
  | Some when =>
      if expired mstime loading masterhost when
      then del_key t (event_of (EvNotify REDIS_NOTIFY_EXPIRED (str "expired") t) (event_of (EvPropagate [str "DEL"; t]) a))
      else a
  | None => a
  end.

Section keys.
Context {T E : Type} `{!KeyTable T addr, !KeyTable E Z, !KeyTableLaws T addr, !KeyTableLaws E Z}.
Context {malloc_size : sdshdr → Z} {ae_create : bool} {base : addr → Z} {h0 : oheap} {st0 : list item} {c0 : redisClient}.
Abbreviation sys := (sys T E).
Abbreviation cmd := (cmd T E).
Abbreviation R := (R malloc_size ae_create base h0 st0 c0).
#[local] Abbreviation the_map := (@the_map T E _).
#[local] Abbreviation owner := (owner base).
#[local] Abbreviation permanent := (permanent h0).
Implicit Types (s : sys) (a : kv) (args : list (addr * argument)) (tmp : list (addr * value)) (t : list Z).

(** ** The database changes *)

(** References move between the table of keys and the command. *)
Lemma R_move {k args tmp a s} k' tmp' d' vs' : R k args tmp a s →
  tbl_ok d' →
  (∀ o, table_refs (tbl_map d') o + refs tmp'.*1 o = table_refs (the_map s) o + refs tmp.*1 o) →
  vals_rel (st_heap s) (tbl_map d') vs' → Forall (λ p, val_is (st_heap s) p.1 p.2) tmp' →
  (∀ key, is_Some (exps a !! key) → is_Some (vs' !! key)) →
  Z.of_nat (size vs') + k' < MAX_KEYS → len tmp' ≤ 8 → 0 ≤ k' ≤ k →
  R k' args tmp' (set_vals vs' a) (put_db (mkDb d' (db_expires (st_db s)) (db_id (st_db s))) s).
Proof.
  intros HR Hd Hrefs Hv Ht Hsub Hs Hl Hk. pose proof HR as [].
  eapply (R_heap HR); try done; cbn [st_heap put_db st_db db_dict db_expires st_client]; [|naive_solver|tauto].
  intros o. pose proof (R_counted HR o) as Hc. unfold DbSpec.owner, held_by in *. unfold DbSpec.the_map in *. cbn [put_db st_db db_dict].
  specialize (Hrefs o). rewrite refs_app in *. destruct (st_heap s !! o); lia.
Qed.

Lemma R_set_exps {k args tmp a s} e' : R k args tmp a s → tbl_ok e' → (∀ key, is_Some (tbl_map e' !! key) → is_Some (vals a !! key)) →
  R k args tmp (set_exps (tbl_map e') a) (put_db (mkDb (db_dict (st_db s)) e' (db_id (st_db s))) s).
Proof. intros [] He Hsub. by split. Qed.

Lemma exps_size {k args tmp a s} : R k args tmp a s → Z.of_nat (size (exps a)) < MAX_KEYS.
Proof.
  intros []. assert (size (exps a) ≤ size (vals a))%nat; [|lia].
  rewrite <- !size_dom. apply subseteq_size. intros key. rewrite !elem_of_dom. apply R_sub.
Qed.

Lemma map_size {k args tmp a s} : R k args tmp a s → Z.of_nat (size (the_map s)) < MAX_KEYS.
Proof. intros []. rewrite (vals_size _ _ _ R_vals). lia. Qed.

Lemma delete_expires_ok {k args tmp a s} t : R k args tmp a s →
  returns (delete_expires t) s (λ r s', R k args tmp (set_exps (delete t (exps a)) a) s' ∧ r = exps a !! t ∧ the_map s' = the_map s).
Proof.
  intros HR. pose proof HR as []. destruct (tbl_delete_ok (db_expires (st_db s)) t R_expires) as (e' & Ee & Hok & Hm). rewrite R_exps in *.
  eexists _, _. split; [unfold delete_expires, mbind, cmd_bind, gets, lift; rewrite Ee; reflexivity|]. split; [|done]. rewrite <- Hm.
  apply R_set_exps; [done|done|]. rewrite Hm. intros key Hi. apply R_sub. destruct (decide (t = key)) as [<- |Hne]; [rewrite lookup_delete_eq in Hi; by destruct Hi|by rewrite lookup_delete_ne in Hi].
Qed.

(** ** Permanent objects *)

Lemma permanent_live {k args tmp a s} o t : R k args tmp a s → permanent o t →
  ∃ ob, st_heap s !! o = Some ob ∧ obj_says ob t ∧ oencoding ob = REDIS_ENCODING_RAW ∧ 0 < owner s args tmp o.
Proof.
  intros HR (ob0 & Ho0 & Hs & He & Hl). pose proof HR as []. destruct (R_base o ob0 Ho0) as (ob & Ho & Hsame). pose proof (R_held o ob0 Ho0) as Hb.
  assert (0 < owner s args tmp o) as Hown.
  { unfold DbSpec.owner, held_by. pose proof (table_refs_nonneg (the_map s) o). pose proof (refs_nonneg (args.*1 ++ tmp.*1) o). lia. }
  exists ob. split; [done|]. split; [|split; [|done]].
  - eapply same_says; [done| |done]. destruct (R_live _ HR Hown) as (ob' & Ho' & _ & Hr). rewrite Ho in Ho'. injection Ho' as <-. lia.
  - destruct Hsame as (_ & Ee & _). congruence.
Qed.

Lemma permanent_val {k args tmp a s} o t : R k args tmp a s → permanent o t → val_is (st_heap s) o (VString t) ∧ 0 < owner s args tmp o.
Proof.
  intros HR Hp. destruct (permanent_live _ _ HR Hp) as (ob & Ho & Hs & _ & Hown). split; [|done]. split; [by exists ob|]. by destruct Hp as (? & _ & _ & _ & ?).
Qed.

Lemma permanent_text {k args tmp a s} o t : R k args tmp a s → permanent o t → key_text o s = Some (t, s).
Proof. intros HR Hp. destruct (permanent_live _ _ HR Hp) as (ob & Ho & Hs & He & _). by eapply key_text_raw. Qed.

Lemma arg_val {k args tmp a s} o x : R k args tmp a s → (o, x) ∈ args → val_is (st_heap s) o (VString (a_text x)) ∧ 0 < owner s args tmp o.
Proof.
  intros HR Hi. destruct (R_arg _ _ HR Hi) as (ob & Ho & Hs & _ & Hl). split; [split; [by exists ob|done]|]. by eapply arg_owned.
Qed.

(** ** Expiry *)

Lemma getExpire_ok {k args tmp a s} key t : R k args tmp a s → is_key args key t →
  returns (getExpire key) s (λ r s', R k args tmp a s' ∧ r = default (-1) (exps a !! t) ∧ the_map s' = the_map s).
Proof.
  intros HR Hk. unfold getExpire. eapply returns_step; [by eapply (key_text_ok key t HR)|]. eapply returns_step; [reflexivity|].
  rewrite tbl_size_ok by (rewrite ?(R_exps HR); apply HR || by eapply exps_size). rewrite (R_exps HR).
  destruct (Z.eqb_spec (Z.of_nat (size (exps a))) 0) as [E0|E0].
  - apply returns_ret. split; [done|]. split; [|done]. assert (exps a = ∅) as -> by (apply map_size_empty_inv; lia). done.
  - eapply returns_bind; [exact (find_expires_ok t HR)|]. intros r s1 (HR1 & -> & Em). destruct (exps a !! t) as [when|] eqn:Ew; [|by apply returns_ret].
    eapply returns_bind; [exact (find_dict_ok t HR1)|]. intros r s2 (HR2 & -> & Em2 & _).
    eapply returns_bind; [apply (returns_assert _ _ (λ _ s, s = s2)); [|done]|]; [|intros _ s3 ->; apply returns_ret; split; [done|]; split; [done|congruence]].
    apply bool_decide_eq_true. pose proof (R_lookup t HR2) as Hl. destruct (DbSpec.the_map s2 !! t); [done|].
    destruct (R_sub HR2 t) as [v Hv]; [by rewrite Ew|congruence].
Qed.

Lemma emit_ok {k args tmp a s} e : R k args tmp a s → returns (emit e) s (λ _ s', R k args tmp (event_of e a) s' ∧ the_map s' = the_map s ∧ st_heap s' = st_heap s).
Proof. intros []. apply returns_puts. split; [|by split]. split; try done. cbn. by rewrite R_events. Qed.

Lemma notify_ok {k args tmp a s} type ev key t : R k args tmp a s → is_key args key t →
  returns (notifyKeyspaceEvent type ev key) s (λ _ s', R k args tmp (event_of (EvNotify type ev t) a) s' ∧ the_map s' = the_map s ∧ st_heap s' = st_heap s).
Proof. intros HR Hk. eapply returns_step; [by eapply (key_text_ok key t HR)|]. exact (emit_ok _ HR). Qed.

Lemma signal_ok {k args tmp a s} key t : R k args tmp a s → is_key args key t →
  returns (signalModifiedKey key) s (λ _ s', R k args tmp (event_of (EvModified t) a) s' ∧ the_map s' = the_map s ∧ st_heap s' = st_heap s).
Proof. intros HR Hk. eapply returns_step; [by eapply (key_text_ok key t HR)|]. exact (emit_ok _ HR). Qed.

Lemma dirty_ok {k args tmp a s} n : R k args tmp a s → returns (add_dirty n) s (λ _ s', R k args tmp (more_dirty n a) s' ∧ the_map s' = the_map s ∧ st_heap s' = st_heap s).
Proof. intros []. apply returns_puts. split; [|by split]. split; try done. cbn. by rewrite R_dirty. Qed.

Lemma db_of_map s s' : st_db s' = st_db s → the_map s' = the_map s.
Proof. unfold DbSpec.the_map. by intros ->. Qed.

Lemma R_perm {k args tmp a s} tmp' : R k args tmp a s → tmp ≡ₚ tmp' → R k args tmp' a s.
Proof.
  intros HR Hp. pose proof HR as []. split; try done.
  - assert (∀ o, owner s args tmp' o = owner s args tmp o) as Hown by (intros o; unfold DbSpec.owner, held_by; rewrite !refs_app; f_equal; f_equal; apply refs_permuted; by rewrite Hp).
    apply (out_ok_change _ _ _ _ _ _ _ R_out).
    + intros o. rewrite Hown. apply (R_counted HR).
    + intros o ob Ho E1. exists ob. pose proof (out_stream _ _ _ _ _ R_out) as (parts & Hf & _). apply list_elem_of_lookup in Ho as [i Hi].
      destruct (Forall2_lookup_l _ _ _ _ _ Hf Hi) as (p & _ & ob1 & E2 & _ & _ & Hq). rewrite E1 in E2. injection E2 as <-. split; [done|]. split; [done|]. intros En. rewrite En in Hq. tauto.
  - by rewrite <- Hp.
  - by rewrite <- Hp.
Qed.

Lemma propagateExpire_ok {k args tmp a s} del key t : R k args tmp a s → is_key args key t → permanent del (str "DEL") → len tmp ≤ 4 →
  returns (propagateExpire del key) s (λ _ s', R k args tmp (event_of (EvPropagate [str "DEL"; t]) a) s' ∧ the_map s' = the_map s).
Proof.
  intros HR Hk Hd Hl. unfold propagateExpire. destruct (permanent_val _ _ HR Hd) as [Hv Ho].
  eapply returns_bind; [exact (incr_ok _ _ HR ltac:(lia) Hv Ho)|]. intros _ s1 [HR1 E1]. destruct (arg_val _ _ HR1 Hk) as [Hv1 Ho1].
  eapply returns_bind; [exact (incr_ok _ _ HR1 ltac:(cbn; lia) Hv1 Ho1)|]. intros _ s2 [HR2 E2].
  eapply returns_step; [by apply (permanent_text _ _ HR2 Hd)|]. eapply returns_step; [by apply (key_text_ok _ _ HR2 Hk)|].
  eapply returns_bind; [exact (emit_ok _ HR2)|]. intros _ s3 (HR3 & E3 & _).
  eapply returns_bind; [refine (decr_ok _ _ (R_perm _ HR3 _)); apply perm_swap|]. intros _ s4 (HR4 & E4 & _).
  eapply returns_mono; [exact (decr_ok _ _ HR4)|]. intros _ s5 (HR5 & E5 & _). split; [done|].
  by rewrite (db_of_map _ _ E5), (db_of_map _ _ E4), E3, (db_of_map _ _ E2), (db_of_map _ _ E1).
Qed.

(** ** Changes *)

Lemma vals_rel_delete h m vs t : vals_rel h m vs → vals_rel h (delete t m) (delete t vs).
Proof. intros Hv key. destruct (decide (t = key)) as [<- |Hne]; [by rewrite !lookup_delete_eq|]. rewrite !lookup_delete_ne by done. apply Hv. Qed.

Lemma vals_rel_insert h m vs t o v : vals_rel h m vs → val_is h o v → vals_rel h (<[t := o]> m) (<[t := v]> vs).
Proof. intros Hv Ho key. destruct (decide (t = key)) as [<- |Hne]; [by rewrite !lookup_insert_eq|]. rewrite !lookup_insert_ne by done. apply Hv. Qed.

(** The table gives a value back. *)
Lemma delete_dict_ok {k args tmp a s} t : R k args tmp a s → exps a !! t = None → len tmp < 8 →
  returns (delete_dict t) s
    (λ r s', R k args (match r, vals a !! t with Some o, Some v => (o, v) :: tmp | _, _ => tmp end) (set_vals (delete t (vals a)) a) s' ∧
       r = the_map s !! t).
Proof.
  intros HR Hn Hl. pose proof HR as []. destruct (tbl_delete_ok (db_dict (st_db s)) t R_dict) as (d' & Ee & Hok & Hm).
  eexists _, _. split; [unfold delete_dict, mbind, cmd_bind, gets, lift; rewrite Ee; reflexivity|]. split; [|done].
  pose proof (R_lookup t HR) as Hlk. unfold DbSpec.the_map in *. destruct (tbl_map (db_dict (st_db s)) !! t) as [o|] eqn:Eo; [destruct Hlk as (v & Ev & Hv & Ho); rewrite Ev|].
  - apply (R_move _ _ _ _ HR Hok); rewrite ?Hm; unfold DbSpec.the_map.
    + intros o'. rewrite (table_refs_delete _ _ _ o' Eo). cbn [fmap list_fmap fst]. rewrite refs_cons. lia.
    + by apply vals_rel_delete.
    + by constructor.
    + intros key Hi. destruct (decide (t = key)) as [<- |Hne]; [rewrite Hn in Hi; by destruct Hi|]. rewrite lookup_delete_ne by done. by apply R_sub.
    + rewrite map_size_delete, Ev. lia.
    + cbn [length]. lia.
    + lia.
  - apply (R_move _ _ _ _ HR Hok); rewrite ?Hm, ?(delete_id (vals a) t Hlk), ?(delete_id (tbl_map _) t Eo); unfold DbSpec.the_map; try done; lia.
Qed.

Lemma set_exps_id a : set_exps (exps a) a = a.
Proof. by destruct a. Qed.

Lemma dbDelete_ok {k args tmp a s} key t : R k args tmp a s → is_key args key t → len tmp < 8 →
  returns (dbDelete key) s (λ r s', R k args tmp (del_key t a) s' ∧ r = match vals a !! t with Some _ => 1 | None => 0 end).
Proof.
  intros HR Hk Hl. unfold dbDelete. eapply returns_step; [exact (key_text_ok _ _ HR Hk)|]. eapply returns_step; [reflexivity|].
  rewrite tbl_size_ok by (rewrite ?(R_exps HR); apply HR || exact (exps_size HR)). rewrite (R_exps HR).
  apply (returns_bind _ _ _ _ (λ _ s', R k args tmp (set_exps (delete t (exps a)) a) s')).
  { destruct (Z.gtb_spec (Z.of_nat (size (exps a))) 0) as [Hg|Hg].
    - eapply returns_bind; [exact (delete_expires_ok t HR)|]. intros r s1 [HR1 _]. by apply returns_ret.
    - apply returns_ret. assert (exps a = ∅) as E0 by (apply map_size_empty_inv; lia). rewrite E0, delete_empty, <- E0, set_exps_id. done. }
  intros ? s1 HR1. eapply returns_bind; [refine (delete_dict_ok t HR1 _ Hl); cbn; by rewrite lookup_delete_eq|]. cbn [vals set_exps]. intros r s2 [HR2 ->].
  pose proof (R_lookup t HR1) as Hlk. cbn [vals set_exps] in Hlk. destruct (DbSpec.the_map s1 !! t) as [o|].
  - destruct Hlk as (v & Ev & _). rewrite Ev in *. eapply returns_bind; [exact (decr_ok _ _ HR2)|]. intros _ s3 [HR3 _]. by apply returns_ret.
  - rewrite Hlk. by apply returns_ret.
Qed.

(** ** Lookups with expiry *)

Context (shared_del : addr) (mstime : Z) (loading masterhost : bool) (del_permanent : permanent shared_del (str "DEL")).
#[local] Abbreviation purge := (purge mstime loading masterhost).
#[local] Abbreviation expireIfNeeded := (expireIfNeeded shared_del mstime loading masterhost).
#[local] Abbreviation lookupKeyRead := (lookupKeyRead shared_del mstime loading masterhost).
#[local] Abbreviation lookupKeyWrite := (lookupKeyWrite shared_del mstime loading masterhost).

Lemma R_stats {k args tmp a s} x y z : R k args tmp a s → R k args tmp a (put_stats x y z s).
Proof. intros []. by split. Qed.

Lemma expireIfNeeded_ok {k args tmp a s} key t : R k args tmp a s → is_key args key t → len tmp ≤ 4 →
  returns (expireIfNeeded key) s (λ _ s', R k args tmp (purge t a) s').
Proof using del_permanent KeyTableLaws0 KeyTableLaws1.
  intros HR Hk Hl. unfold Server.expireIfNeeded. eapply returns_bind; [exact (getExpire_ok _ _ HR Hk)|]. intros r s1 (HR1 & -> & _).
  unfold DbKeys.purge. destruct (exps a !! t) as [when|]; cbn [default from_option id]; [|by apply returns_ret]. unfold expired.
  destruct (when <? 0); [by apply returns_ret|]. destruct loading; [by apply returns_ret|]. destruct masterhost; [by apply returns_ret|].
  destruct (mstime <=? when); [by apply returns_ret|]. cbn [negb andb]. eapply returns_step; [reflexivity|].
  eapply returns_bind; [exact (propagateExpire_ok _ _ _ (R_stats _ _ _ HR1) Hk del_permanent Hl)|]. intros _ s2 [HR2 _].
  eapply returns_bind; [exact (notify_ok _ _ _ _ HR2 Hk)|]. intros _ s3 [HR3 _].
  eapply returns_bind; [refine (dbDelete_ok _ _ HR3 Hk _); lia|]. intros r s4 [HR4 _]. by apply returns_ret.
Qed.

Lemma lookupKeyWrite_ok {k args tmp a s} key t : R k args tmp a s → is_key args key t → len tmp ≤ 4 →
  returns (lookupKeyWrite key) s (λ r s', R k args tmp (purge t a) s' ∧ r = the_map s' !! t).
Proof using del_permanent KeyTableLaws0 KeyTableLaws1.
  intros HR Hk Hl. eapply returns_bind; [exact (expireIfNeeded_ok _ _ HR Hk Hl)|]. intros ? s1 HR1.
  eapply returns_mono; [exact (lookupKey_ok _ _ HR1 Hk)|]. intros r s2 (HR2 & -> & E2). by rewrite E2.
Qed.

Lemma lookupKeyRead_ok {k args tmp a s} key t : R k args tmp a s → is_key args key t → len tmp ≤ 4 →
  returns (lookupKeyRead key) s (λ r s', R k args tmp (purge t a) s' ∧ r = the_map s' !! t).
Proof using del_permanent KeyTableLaws0 KeyTableLaws1.
  intros HR Hk Hl. eapply returns_bind; [exact (expireIfNeeded_ok _ _ HR Hk Hl)|]. intros ? s1 HR1.
  eapply returns_bind; [exact (lookupKey_ok _ _ HR1 Hk)|]. intros r s2 (HR2 & -> & E2).
  apply (returns_bind _ _ _ _ (λ _ s', R k args tmp (purge t a) s' ∧ the_map s' = the_map s2)).
  - apply returns_puts. rewrite E2. destruct (DbSpec.the_map s1 !! t); (split; [by apply R_stats|done]).
  - intros _ s3 [HR3 E3]. apply returns_ret. split; [done|]. by rewrite E3, E2.
Qed.

Lemma dbExists_ok {k args tmp a s} key t : R k args tmp a s → is_key args key t →
  returns (dbExists key) s (λ r s', R k args tmp a s' ∧ r = bool_decide (is_Some (vals a !! t))).
Proof.
  intros HR Hk. eapply returns_bind; [exact (lookupKey_ok _ _ HR Hk)|]. intros r s1 (HR1 & -> & E1). apply returns_ret. split; [done|].
  apply bool_decide_ext. rewrite ?E1. pose proof (R_lookup t HR) as Hlk. destruct (DbSpec.the_map s !! t); [destruct Hlk as (v & -> & _)|rewrite Hlk]; split; intros Hx; done || by destruct Hx.
Qed.

Lemma removeExpire_ok {k args tmp a s} key t : R k args tmp a s → is_key args key t → is_Some (vals a !! t) →
  returns (removeExpire key) s (λ r s', R k args tmp (set_exps (delete t (exps a)) a) s' ∧ r = bool_decide (is_Some (exps a !! t)) ∧ the_map s' = the_map s).
Proof.
  intros HR Hk Hin. eapply returns_step; [exact (key_text_ok _ _ HR Hk)|]. eapply returns_bind; [exact (find_dict_ok t HR)|]. intros r s1 (HR1 & -> & E1 & _).
  eapply returns_bind; [apply (returns_assert _ _ (λ _ s, s = s1)); [|done]|].
  { apply bool_decide_eq_true. rewrite E1. pose proof (R_lookup t HR) as Hlk. destruct (DbSpec.the_map s !! t); [done|]. rewrite Hlk in Hin. by destruct Hin. }
  intros _ s2 ->. eapply returns_bind; [exact (delete_expires_ok t HR1)|]. intros r s3 (HR3 & -> & E3). apply returns_ret. split; [done|]. split; [done|congruence].
Qed.

Lemma setExpire_ok {k args tmp a s} key t when : R k args tmp a s → is_key args key t → is_Some (vals a !! t) →
  returns (setExpire key when) s (λ _ s', R k args tmp (set_exps (<[t := when]> (exps a)) a) s' ∧ the_map s' = the_map s).
Proof.
  intros HR Hk Hin. eapply returns_step; [exact (key_text_ok _ _ HR Hk)|]. eapply returns_bind; [exact (find_dict_ok t HR)|]. intros r s1 (HR1 & -> & E1 & _).
  eapply returns_bind; [apply (returns_assert _ _ (λ _ s, s = s1)); [|done]|].
  { apply bool_decide_eq_true. rewrite E1. pose proof (R_lookup t HR) as Hlk. destruct (DbSpec.the_map s !! t); [done|]. rewrite Hlk in Hin. by destruct Hin. }
  intros _ s2 ->. pose proof HR1 as []. destruct (tbl_replace_ok (db_expires (st_db s1)) t when R_expires) as (e' & Ee & Hok & Hm).
  { rewrite R_exps. exact (exps_size HR). }
  eapply returns_eq; [unfold mbind, cmd_bind, gets, lift; rewrite Ee; reflexivity|]. split; [|exact E1]. rewrite <- R_exps, <- Hm. apply R_set_exps; [done|done|].
  rewrite Hm, R_exps. intros key' Hi. destruct (decide (t = key')) as [<- |Hne]; [done|]. rewrite lookup_insert_ne in Hi by done. by apply R_sub.
Qed.

(** ** New values *)

Lemma put_size {k args tmp a s} t v : R k args tmp a s → Z.of_nat (size (<[t := v]> (vals a))) + (k - 1) < MAX_KEYS.
Proof.
  intros HR. pose proof (R_few HR) as [Hf _]. destruct (vals a !! t) as [w|] eqn:Ew.
  - rewrite map_size_insert_Some by done. lia.
  - rewrite map_size_insert_None by done. lia.
Qed.

Lemma put_sub {k args tmp a s} t v : R k args tmp a s → ∀ key, is_Some (exps a !! key) → is_Some (<[t := v]> (vals a) !! key).
Proof. intros HR key Hi. destruct (decide (t = key)) as [<- |Hne]; [rewrite lookup_insert_eq; by eexists|]. rewrite lookup_insert_ne by done. by apply (R_sub HR). Qed.

Lemma val_object h o v : val_is h o v → ∃ ob, h !! o = Some ob ∧ otype ob = match v with VString _ => REDIS_STRING | VOther type => type end.
Proof. destruct v as [tx|type]; [intros [(ob & Ho & Ht & _) _]|intros [_ (ob & Ho & Ht)]]; by exists ob. Qed.

(** The new object [o] comes with a reference that passes to the table. *)
Lemma dbAdd_ok {k args tmp a s} key t o tx : R k args ((o, VString tx) :: tmp) a s → is_key args key t → vals a !! t = None → 1 ≤ k →
  returns (dbAdd key o) s (λ _ s', R (k - 1) args tmp (put_val t (VString tx) a) s' ∧ st_heap s' = st_heap s ∧ the_map s' !! t = Some o).
Proof.
  intros HR Hk Hn Hpos. eapply returns_step; [exact (key_text_ok _ _ HR Hk)|]. eapply returns_step; [reflexivity|].
  destruct (tbl_add_ok (db_dict (st_db s)) t o (R_dict HR) (map_size HR)) as (d' & Ea & Hok & Hm).
  pose proof (R_lookup t HR) as Hlk. unfold DbSpec.the_map in Hlk. destruct (tbl_map (db_dict (st_db s)) !! t) as [o'|] eqn:Eo; [destruct Hlk as (v & Ev & _); congruence|].
  rewrite bool_decide_eq_true_2 in Ea by done. eapply returns_step; [unfold lift; rewrite Ea; reflexivity|]. cbv beta iota.
  eapply returns_step; [reflexivity|]. eapply returns_step; [reflexivity|]. cbn [st_db].
  pose proof (Forall_inv (R_tmp HR)) as Hv. cbn [fst snd] in Hv. destruct (val_object _ _ _ Hv) as (ob & Ho & Ht). eapply returns_step; [unfold object; cbn; rewrite Ho; reflexivity|]. rewrite Ht.
  change (REDIS_STRING =? REDIS_LIST) with false. cbv iota. apply returns_ret.
  split; [|split; [done|]; unfold DbSpec.the_map; cbn [st_db put_db db_dict]; by rewrite Hm, lookup_insert_eq]. refine (R_move _ _ _ _ HR Hok _ _ _ _ _ _ _); rewrite ?Hm.
  - intros o2. rewrite (table_refs_insert _ _ _ _ Eo). cbn [fmap list_fmap fst]. rewrite refs_cons. unfold DbSpec.the_map. lia.
  - apply vals_rel_insert; [apply (R_vals HR)|done].
  - exact (Forall_inv_tail (R_tmp HR)).
  - exact (put_sub _ _ HR).
  - exact (put_size _ _ HR).
  - pose proof (R_few HR) as (_ & _ & Hl & _). cbn [length] in Hl. lia.
  - lia.
Qed.

Lemma dbOverwrite_ok {k args tmp a s} key t o tx : R k args ((o, VString tx) :: tmp) a s → is_key args key t → is_Some (vals a !! t) →
  returns (dbOverwrite key o) s (λ _ s', R k args tmp (put_val t (VString tx) a) s' ∧
    (∀ o', the_map s !! t ≠ Some o' → st_heap s' !! o' = st_heap s !! o') ∧ the_map s' !! t = Some o).
Proof.
  intros HR Hk [v Hv]. eapply returns_step; [exact (key_text_ok _ _ HR Hk)|]. eapply returns_bind; [exact (find_dict_ok t HR)|]. intros r s1 (HR1 & -> & E1 & Hst).
  pose proof (R_lookup t HR1) as Hlk. destruct (DbSpec.the_map s1 !! t) as [old|] eqn:Eo; [destruct Hlk as (v' & Ev & Hvo & _)|congruence]. rewrite Hv in Ev. injection Ev as <-.
  eapply returns_step; [reflexivity|]. eapply returns_step; [reflexivity|].
  destruct (tbl_replace_ok (db_dict (st_db s1)) t o (R_dict HR1) (map_size HR1)) as (d' & Ea & Hok & Hm). unfold DbSpec.the_map in Eo. rewrite Eo in Ea.
  eapply returns_step; [unfold lift; rewrite Ea; reflexivity|]. cbv beta iota. eapply returns_step; [reflexivity|]. cbn [st_db].
  refine (returns_mono _ _ _ _ (decr_ok old v (a := put_val t (VString tx) a) _) _).
  2:{ intros _ s2 (HR2 & Ed & Hh). split; [done|]. split.
      - intros o' Ho'. rewrite Hh; [cbn [put_db st_heap]; by rewrite Hst|]. intros ->. apply Ho'. rewrite <- E1. exact Eo.
      - unfold DbSpec.the_map. rewrite Ed. cbn [st_db put_db db_dict]. by rewrite Hm, lookup_insert_eq. }
  refine (R_move _ _ _ _ HR1 Hok _ _ _ _ _ _ _); rewrite ?Hm.
  - intros o2. rewrite <- (insert_delete_eq (tbl_map _) t o), table_refs_insert by apply lookup_delete_eq. unfold DbSpec.the_map.
    rewrite (table_refs_delete _ _ _ o2 Eo). cbn [fmap list_fmap fst]. rewrite !refs_cons. lia.
  - apply vals_rel_insert; [apply (R_vals HR1)|]. exact (Forall_inv (R_tmp HR1)).
  - constructor; [done|]. exact (Forall_inv_tail (R_tmp HR1)).
  - exact (put_sub _ _ HR1).
  - rewrite map_size_insert_Some by done. pose proof (R_few HR1). lia.
  - pose proof (R_few HR) as (_ & _ & Hl & _). cbn [length] in *. lia.
  - pose proof (R_few HR). lia.
Qed.

(** ** A reference taken after the table got it *)

Lemma decr_incr_comm (h : oheap) o v ob obv :
  h !! o = Some ob → h !! v = Some obv → 1 ≤ refcount ob < 2 ^ 31 - 1 → 1 ≤ refcount obv < 2 ^ 31 - 1 → (o = v → 1 < refcount ob) →
  (h1 ← decrRefCount h o; incrRefCount h1 v) = (h1 ← incrRefCount h v; decrRefCount h1 o).
Proof using Type.
  intros Ho Hv Hr Hrv Hne. unfold decrRefCount, incrRefCount. rewrite Ho, Hv. bsimpl. rewrite (proj2 (Z.leb_gt _ _)) by lia.
  destruct (decide (o = v)) as [<- |Hnv].
  - rewrite Hv in Ho. injection Ho as ->. specialize (Hne eq_refl). rewrite (proj2 (Z.eqb_neq _ _)) by lia. bsimpl. rewrite !lookup_insert_eq. bsimpl.
    cbn [refcount set_refcount]. rewrite (proj2 (Z.leb_gt _ _)), (proj2 (Z.eqb_neq _ _)) by (rewrite swrap_small; lia).
    rewrite !swrap_small by lia. unfold set_refcount. cbn. rewrite !insert_insert_eq. do 4 f_equal. lia.
  - rewrite lookup_insert_ne, Ho by done. bsimpl. rewrite (proj2 (Z.leb_gt (refcount ob) 0)) by lia. destruct (refcount ob =? 1).
    + destruct (_ && _); [|done]. bsimpl. rewrite lookup_delete_ne, Hv by done. bsimpl. by rewrite delete_insert_ne.
    + bsimpl. rewrite lookup_insert_ne, Hv by done. bsimpl. by rewrite insert_insert_ne.
Qed.

Lemma put_heap_id s : put_heap (st_heap s) s = s.
Proof. by destruct s. Qed.

Lemma key_text_incr s key t v h1 : key_text key s = Some (t, s) → incrRefCount (st_heap s) v = Some h1 → key_text key (put_heap h1 s) = Some (t, put_heap h1 s).
Proof.
  unfold key_text, object_sds, incrRefCount, mbind, cmd_bind. intros Hk Hi. destruct (st_heap s !! v) as [obv|] eqn:Ev; [|done]. bsimpl in Hi. injection Hi as <-. cbn [st_heap put_heap].
  destruct (st_heap s !! key) as [ob|] eqn:Ek; [|done]. bsimpl in Hk.
  assert (∃ ob', <[v := set_refcount obv (s32 (refcount obv + 1))]> (st_heap s) !! key = Some ob' ∧ osds ob' = osds ob) as (ob' & -> & Eo).
  { destruct (decide (v = key)) as [<- |Hne]; [rewrite lookup_insert_eq; eexists; split; [done|]; rewrite Ev in Ek; by injection Ek as ->|].
    rewrite lookup_insert_ne by done. by exists ob. }
  bsimpl. rewrite Eo. destruct (osds ob) as [p|]; [|done]. bsimpl in *. unfold lift in *. destruct (mread (buf p) 0 (sdslen p)); [|done]. bsimpl in *. by injection Hk as ->.
Qed.

(** Where the heap matters in the two functions. *)
Lemma dbAdd_run {k args tmp a s} key t val : R k args tmp a s → vals a !! t = None →
  ∃ db', ∀ h ob, key_text key (put_heap h s) = Some (t, put_heap h s) → h !! val = Some ob → otype ob = REDIS_STRING →
    dbAdd key val (put_heap h s) = Some (tt, put_heap h (put_db db' s)).
Proof.
  intros HR Hn. destruct (tbl_add_ok (db_dict (st_db s)) t val (R_dict HR) (map_size HR)) as (d' & Ea & _ & _).
  pose proof (R_lookup t HR) as Hlk. unfold DbSpec.the_map in *. destruct (tbl_map (db_dict (st_db s)) !! t) as [o'|]; [destruct Hlk as (v & Ev & _); congruence|].
  eexists. intros h ob Hk Ho Ht. unfold dbAdd, mbind, cmd_bind. rewrite Hk. unfold gets, lift, puts, assert, object. cbn [st_db put_heap st_heap put_db]. rewrite Ea. bsimpl.
  cbn [bool_decide decide option_eq_None_dec]. cbn [st_heap put_heap put_db]. rewrite Ho. bsimpl. rewrite Ht. reflexivity.
Qed.

Lemma dbOverwrite_run {k args tmp a s} key t val : R k args tmp a s → is_Some (vals a !! t) →
  ∃ db' old, the_map s !! t = Some old ∧ ∀ h, key_text key (put_heap h s) = Some (t, put_heap h s) →
    dbOverwrite key val (put_heap h s) = (h' ← decrRefCount h old; Some (tt, put_heap h' (put_db db' s))).
Proof.
  intros HR [v Hv]. destruct (tbl_find_ok (db_dict (st_db s)) t (R_dict HR)) as (d1 & Ef & Hok1 & Hm1).
  destruct (tbl_replace_ok d1 t val Hok1) as (d' & Ea & _ & _); [rewrite Hm1; exact (map_size HR)|]. rewrite Hm1 in Ea.
  pose proof (R_lookup t HR) as Hlk. unfold DbSpec.the_map in *. destruct (tbl_map (db_dict (st_db s)) !! t) as [old|]; [|congruence].
  eexists _, old. split; [done|]. intros h Hk. unfold dbOverwrite, find_dict, mbind, cmd_bind. rewrite Hk. unfold gets, lift, puts, assert, upd_heap. cbn [st_db put_heap st_heap put_db]. rewrite Ef.
  cbn. rewrite Ea. cbn. destruct (decrRefCount h old); reflexivity.
Qed.

(** A reference that the caller keeps is copied to the table. *)
Lemma add_incr_ok {k args tmp a s} key t val x : R k args tmp a s → is_key args key t → (val, x) ∈ args → vals a !! t = None → 1 ≤ k → len tmp < 8 →
  returns (dbAdd key val;; upd_heap (λ h, incrRefCount h val)) s (λ _ s', R (k - 1) args tmp (put_val t (VString (a_text x)) a) s').
Proof.
  intros HR Hk Hv Hn Hpos Hl. destruct (arg_val _ _ HR Hv) as [Hval Hown]. destruct (incr_ok val _ HR Hl Hval Hown) as ([] & s1 & E1 & HR1 & _).
  unfold upd_heap, mbind in E1. destruct (incrRefCount (st_heap s) val) as [h1|] eqn:Ei; [|done]. cbn in E1. injection E1 as <-.
  destruct (dbAdd_ok key t val _ HR1 Hk Hn Hpos) as ([] & s2 & E2 & HR2 & _). destruct (dbAdd_run key t val HR Hn) as (db' & Hrun).
  pose proof (key_text_ok _ _ HR Hk) as Hkt. destruct (val_object _ _ _ Hval) as (ob & Ho & Ht).
  pose proof (Hrun (st_heap s) ob) as H1. rewrite put_heap_id in H1. specialize (H1 Hkt Ho Ht).
  assert (∃ ob1, h1 !! val = Some ob1 ∧ otype ob1 = REDIS_STRING) as (ob1 & Ho1 & Ht1).
  { unfold incrRefCount in Ei. rewrite Ho in Ei. bsimpl in Ei. injection Ei as <-. rewrite lookup_insert_eq. by eexists. }
  rewrite (Hrun h1 ob1 (key_text_incr _ _ _ _ _ Hkt Ei) Ho1 Ht1) in E2. injection E2 as <-.
  eapply returns_step; [exact H1|]. eexists tt, _. split; [unfold upd_heap, mbind; cbn [st_heap put_heap put_db]; rewrite Ei; reflexivity|exact HR2].
Qed.

Lemma overwrite_incr_ok {k args tmp a s} key t val x : R k args tmp a s → is_key args key t → (val, x) ∈ args → is_Some (vals a !! t) → len tmp < 8 →
  returns (dbOverwrite key val;; upd_heap (λ h, incrRefCount h val)) s (λ _ s', R k args tmp (put_val t (VString (a_text x)) a) s').
Proof.
  intros HR Hk Hv Hn Hl. destruct (arg_val _ _ HR Hv) as [Hval Hown]. destruct (incr_ok val _ HR Hl Hval Hown) as ([] & s1 & E1 & HR1 & _).
  unfold upd_heap, mbind in E1. destruct (incrRefCount (st_heap s) val) as [h1|] eqn:Ei; [|done]. cbn in E1. injection E1 as <-.
  destruct (dbOverwrite_ok key t val _ HR1 Hk Hn) as ([] & s2 & E2 & HR2 & _). destruct (dbOverwrite_run key t val HR Hn) as (db' & old & Eold & Hrun).
  pose proof (key_text_ok _ _ HR Hk) as Hkt. rewrite (Hrun h1 (key_text_incr _ _ _ _ _ Hkt Ei)) in E2.
  pose proof (Hrun (st_heap s)) as H1. rewrite put_heap_id in H1. specialize (H1 Hkt).
  destruct (R_live _ HR (table_owned _ _ HR Eold)) as (ob & Ho & Hr & Hb). destruct (R_live _ HR Hown) as (obv & Hov & _ & Hbv).
  pose proof (decr_incr_comm (st_heap s) old val ob obv Ho Hov ltac:(lia) ltac:(lia)) as Hcomm. rewrite Ei in Hcomm. cbn [mbind option_bind] in Hcomm.
  rewrite <- Hcomm in E2.
  - destruct (decrRefCount (st_heap s) old) as [h2|]; [|done]. cbn [mbind option_bind] in *. destruct (incrRefCount h2 val) as [h3|] eqn:E3; [|done]. injection E2 as <-.
    eapply returns_step; [exact H1|]. eexists tt, _. split; [unfold upd_heap, mbind; cbn [st_heap put_heap put_db]; rewrite E3; reflexivity|exact HR2].
  - intros <-. rewrite Hr. unfold DbSpec.owner, held_by. pose proof (R_small HR old). pose proof (table_refs_in _ _ _ Eold).
    pose proof (refs_nonneg (reply (cout (st_client s))) old). assert (0 < refs (args.*1 ++ tmp.*1) old); [|lia].
    apply refs_in, elem_of_app. left. by apply (list_elem_of_fmap_2' fst args (old, x)).
Qed.

Lemma R_less {k args tmp a s} k' : R k args tmp a s → 0 ≤ k' ≤ k → R k' args tmp a s.
Proof. intros [] Hk. split; try done; [unfold room in *; lia|]. split; [lia|]. split; [tauto|]. split; [tauto|lia]. Qed.

(** [setKey] *)
Definition set_key (t : list Z) (v : value) a : kv :=
  let a := purge t a in event_of (EvModified t) (set_exps (delete t (exps a)) (put_val t v a)).

Lemma setKey_ok {k args tmp a s} key t val x : R k args tmp a s → is_key args key t → (val, x) ∈ args → 1 ≤ k → len tmp ≤ 4 →
  returns (setKey shared_del mstime loading masterhost key val) s (λ _ s', R (k - 1) args tmp (set_key t (VString (a_text x)) a) s').
Proof using del_permanent KeyTableLaws0 KeyTableLaws1.
  intros HR Hk Hv Hpos Hl. unfold setKey. eapply returns_bind; [exact (lookupKeyWrite_ok _ _ HR Hk Hl)|]. intros r s1 [HR1 ->].
  apply returns_assoc. eapply (returns_bind _ _ _ _ (λ _ s', R (k - 1) args tmp (put_val t (VString (a_text x)) (purge t a)) s')).
  { pose proof (R_lookup t HR1) as Hlk. destruct (DbSpec.the_map s1 !! t).
    - destruct Hlk as (v & Ev & _). eapply returns_mono; [refine (overwrite_incr_ok _ _ _ _ HR1 Hk Hv _ _); [by rewrite Ev|lia]|]. intros ? s2 HR2. refine (R_less _ HR2 _). lia.
    - refine (add_incr_ok _ _ _ _ HR1 Hk Hv Hlk Hpos _). lia. }
  intros ? s2 HR2. eapply returns_bind; [refine (removeExpire_ok _ _ HR2 Hk _); cbn; by rewrite lookup_insert_eq|]. intros r s3 (HR3 & _).
  eapply returns_mono; [exact (signal_ok _ _ HR3 Hk)|]. by intros _ s4 [HR4 _].
Qed.
End keys.
