(* ===== verification/DbReply.v ===== *)
(** * Replies and new objects of the commands

    What a command replies is appended to the output, and nothing it holds
    changes; the objects it creates, encodes or unshares say what they should. *)

From S2P Require Import Prelude Util Sds SdsText Object Number Client Table Reply ReplySpec ReplyOps ReplyText ReplyDeferred Server Commands DbSpec DbOps DbKeys.
From stdpp Require Import gmap.
Local Open Scope Z_scope.

(** ** Texts *)

Definition crlf : list Z := [13; 10].
Definition reply_int (n : Z) : list Z := 58 :: printf_ld n ++ crlf.
Definition reply_bulk (t : list Z) : list Z := 36 :: printf_ld (len t) ++ crlf ++ t ++ crlf.
Definition reply_multi (n : Z) : list Z := 42 :: printf_ld n ++ crlf.
Definition reply_error (m : list Z) : list Z := str "-ERR " ++ m ++ crlf.
Definition reply_ok : list Z := str "+OK" ++ crlf.
Definition reply_nil : list Z := str "$-1" ++ crlf.
Definition reply_empty : list Z := str "$0" ++ crlf ++ crlf.
Definition reply_wrongtype : list Z := str "-WRONGTYPE Operation against a key holding the wrong kind of value" ++ crlf.
Definition reply_syntax : list Z := str "-ERR syntax error" ++ crlf.

Lemma printf_ld_repr n : LLONG_MIN ≤ n ≤ LLONG_MAX → decimal_repr n (printf_ld n).
Proof. intros Hn. destruct (printf_ld_ok n) as (Hr & _); [done|done]. Qed.

Section replies.
Context {T E : Type} `{!KeyTable T addr, !KeyTable E Z, !KeyTableLaws T addr, !KeyTableLaws E Z}.
Context (env : cmd_env) {base : addr → Z} {h0 : oheap} {st0 : list item} {c0 : redisClient}.
#[local] Abbreviation junk := (e_junk env).
#[local] Abbreviation malloc_size := (e_malloc_size env).
#[local] Abbreviation limits := (e_limits env).
#[local] Abbreviation unixtime := (e_unixtime env).
#[local] Abbreviation ae_create := (e_ae_create env).
#[local] Abbreviation shared := (e_shared env).
#[local] Abbreviation shared2 := (e_shared2 env).
#[local] Abbreviation shared_integers := (e_shared_integers env).
#[local] Abbreviation maxmemory := (e_maxmemory env).
#[local] Abbreviation maxmemory_policy := (e_maxmemory_policy env).
#[local] Abbreviation mstime := (e_mstime env).
#[local] Abbreviation loading := (e_loading env).
#[local] Abbreviation masterhost := (e_masterhost env).
Context (malloc_size_bound : ∀ s, 0 ≤ malloc_size s < 2 ^ 33).
Abbreviation sys := (sys T E).
Abbreviation cmd := (cmd T E).
Abbreviation R := (R malloc_size ae_create base h0 st0 c0).
#[local] Abbreviation the_map := (@the_map T E _).
#[local] Abbreviation owner := (owner base).
#[local] Abbreviation permanent := (permanent h0).
Implicit Types (s : sys) (a : kv) (args : list (addr * argument)) (tmp : list (addr * value)) (t : list Z).

(** The shared objects are permanent and say what [createSharedObjects] put in
    them. *)
Record shared_perm : Prop := {
  perm_crlf : permanent (sh_crlf shared) crlf;
  perm_czero : permanent (sh_czero shared) (reply_int 0);
  perm_cone : permanent (sh_cone shared) (reply_int 1);
  perm_nullbulk : permanent (sh_nullbulk shared) reply_nil;
  perm_mbulkhdr : ∀ j, 0 ≤ j < REDIS_SHARED_BULKHDR_LEN → ∃ o, mget (sh_mbulkhdr shared) j = Some o ∧ permanent o (reply_multi j);
  perm_bulkhdr : ∀ j, 0 ≤ j < REDIS_SHARED_BULKHDR_LEN → ∃ o, mget (sh_bulkhdr shared) j = Some o ∧ permanent o (36 :: printf_ld j ++ crlf);
  perm_ok : permanent (sh_ok shared2) reply_ok;
  perm_emptybulk : permanent (sh_emptybulk shared2) reply_empty;
  perm_wrongtype : permanent (sh_wrongtypeerr shared2) reply_wrongtype;
  perm_syntax : permanent (sh_syntaxerr shared2) reply_syntax;
  perm_colon : permanent (sh_colon shared2) [58];
  perm_del : permanent (sh_del shared2) (str "DEL");
  perm_integers : ∀ v, 0 ≤ v < REDIS_SHARED_INTEGERS → ∃ ob, h0 !! shared_integers v = Some ob ∧ otype ob = REDIS_STRING ∧ oencoding ob = REDIS_ENCODING_INT ∧ ptr ob = PtrLong v
}.

Lemma val_held {k args tmp a s} o t : R k args tmp a s → val_is (st_heap s) o (VString t) → 0 < owner s args tmp o → held (owner s args tmp) (st_heap s) o t.
Proof. intros HR [Hs _] Ho. split; [done|]. pose proof (owner_small o HR). lia. Qed.

Lemma perm_held {k args tmp a s} o t : R k args tmp a s → permanent o t → held (owner s args tmp) (st_heap s) o t.
Proof. intros HR Hp. destruct (permanent_val _ _ HR Hp). by eapply val_held. Qed.

Lemma shared_held {k args tmp a s} : R k args tmp a s → shared_perm → shared_replies shared (owner s args tmp) (st_heap s).
Proof.
  intros HR []. split; try by eapply perm_held.
  - intros j Hj. destruct (perm_mbulkhdr0 j Hj) as (o & Ho & Hp). exists o, (reply_multi j). split; [done|]. split; [by eapply perm_held|].
    exists (printf_ld j). split; [|done]. apply printf_ld_repr. unfold LLONG_MIN, LLONG_MAX, REDIS_SHARED_BULKHDR_LEN in *. lia.
  - intros j Hj. destruct (perm_bulkhdr0 j Hj) as (o & Ho & Hp). exists o, (36 :: printf_ld j ++ crlf). split; [done|]. split; [by eapply perm_held|].
    exists (printf_ld j). split; [|done]. apply printf_ld_repr. unfold LLONG_MIN, LLONG_MAX, REDIS_SHARED_BULKHDR_LEN in *. lia.
Qed.

(** ** What is emitted *)

Lemma R_emits {k args tmp a s} n w f : R k args tmp a s → 0 ≤ n ≤ k →
  emits malloc_size ae_create n (owner s args tmp) (st_heap s) (st_client s) (st0 ++ if accepts ae_create c0 then bytes (out a) else []) (bytes w) (f (st_heap s) (st_client s)) →
  returns (on_client f) s (λ _ s', R (k - n) args tmp (replied w a) s' ∧ st_db s' = st_db s).
Proof.
  intros HR Hn (h' & c' & Ef & Hok & Hnear & Hkeeps & Hacc & Hgrows & _). eexists tt, _. split; [unfold on_client; rewrite Ef; reflexivity|]. split; [|done].
  pose proof HR as [].
  assert (∀ o, 0 < owner s args tmp o → ∀ ob, st_heap s !! o = Some ob → ∃ ob', h' !! o = Some ob' ∧ same_obj ob ob' ∧ 1 ≤ refcount ob') as Hlive.
  { intros o Ho ob Eo. destruct (Hkeeps o Ho ob Eo) as (ob' & Eo' & Hs). exists ob'. split; [done|]. split; [by destruct Hs as (? & ? & ?)|].
    pose proof (out_counted _ _ _ _ _ Hok o) as Hc. rewrite Eo' in Hc. lia. }
  split; cbn [put_client put_heap st_heap st_client st_argv st_db st_dirty st_events vals exps dirty events out replied]; try done.
  - rewrite R_acc in Hok. destruct (accepts ae_create c0); [rewrite bytes_app, app_assoc|rewrite app_nil_r in Hok]; exact Hok.
  - congruence.
  - by etrans.
  - unfold room, grows in *. lia.
  - intros key. specialize (R_vals key). change (the_map (put_client c' (put_heap h' s))) with (the_map s). destruct (the_map s !! key) as [o|] eqn:Eo, (vals a !! key); try done.
    eapply val_same; [exact R_vals|]. apply Hlive. exact (table_owned _ _ HR Eo).
  - rewrite Forall_forall in *. intros [o x] Hp. eapply arg_same; [by apply (R_args _ Hp)|]. apply Hlive. exact (arg_owned _ _ HR Hp).
  - rewrite Forall_forall in *. intros [o x] Hp. eapply val_same; [by apply (R_tmp _ Hp)|]. apply Hlive. exact (tmp_owned _ _ HR Hp).
  - intros o ob Eo. destruct (R_base o ob Eo) as (ob' & Eo' & Hs). destruct (Hlive o) with (ob := ob') as (ob2 & Eo2 & Hs2 & _); [|done|exists ob2; split; [done|by etrans]].
    unfold DbSpec.owner, held_by. pose proof (table_refs_nonneg (the_map s) o). pose proof (refs_nonneg (args.*1 ++ tmp.*1) o). pose proof (R_held o ob Eo). lia.
  - lia.
Qed.

Lemma reply_ok_op {k args tmp a s} op w : R k args tmp a s → shared_perm → reply_text (owner s args tmp) (st_heap s) op w → 3 ≤ k →
  returns (on_client (λ h c, run_reply junk malloc_size limits unixtime ae_create shared h c op)) s (λ _ s', R (k - 3) args tmp (replied w a) s' ∧ st_db s' = st_db s).
Proof using malloc_size_bound KeyTableLaws0 KeyTableLaws1.
  intros HR Hsh Hw Hk. apply (R_emits 3 w _ HR); [lia|]. apply run_reply_ok; try done.
  - apply HR.
  - pose proof (R_room HR). unfold room in *. lia.
  - by eapply shared_held.
Qed.

(** ** The replies *)

#[local] Abbreviation add_reply := (add_reply env (T:=T) (E:=E)).
#[local] Abbreviation add_bulk := (add_bulk env (T:=T) (E:=E)).
#[local] Abbreviation add_long := (add_long env (T:=T) (E:=E)).
#[local] Abbreviation add_multi := (add_multi env (T:=T) (E:=E)).
#[local] Abbreviation add_buffer := (add_buffer env (T:=T) (E:=E)).
#[local] Abbreviation add_error := (add_error env (T:=T) (E:=E)).
#[local] Abbreviation add_error_format := (add_error_format env (T:=T) (E:=E)).
Context (shared_ok : shared_perm).

Lemma add_reply_ok {k args tmp a s} o t : R k args tmp a s → permanent o t → 3 ≤ k →
  returns (add_reply o) s (λ _ s', R (k - 3) args tmp (replied t a) s' ∧ st_db s' = st_db s).
Proof using malloc_size_bound KeyTableLaws0 KeyTableLaws1 shared_ok.
  intros HR Ho Hk. refine (reply_ok_op (RObj o) t HR shared_ok _ Hk). exact (perm_held _ _ HR Ho).
Qed.

Lemma add_reply_val {k args tmp a s} o t : R k args tmp a s → val_is (st_heap s) o (VString t) → 0 < owner s args tmp o → 3 ≤ k →
  returns (add_reply o) s (λ _ s', R (k - 3) args tmp (replied t a) s' ∧ st_db s' = st_db s).
Proof using malloc_size_bound KeyTableLaws0 KeyTableLaws1 shared_ok.
  intros HR Hv Ho Hk. refine (reply_ok_op (RObj o) t HR shared_ok _ Hk). exact (val_held _ _ HR Hv Ho).
Qed.

Lemma bulk_text_reply t : len t ≤ LLONG_MAX → bulk_text t (reply_bulk t).
Proof using Type. intros Ht. exists (36 :: printf_ld (len t) ++ crlf). split; [exists (printf_ld (len t)); split; [|done]; apply printf_ld_repr; unfold LLONG_MIN; lia|]. unfold reply_bulk. cbn [app]. by rewrite <- !app_assoc. Qed.

Lemma add_bulk_ok {k args tmp a s} o t : R k args tmp a s → val_is (st_heap s) o (VString t) → 0 < owner s args tmp o → 3 ≤ k →
  returns (add_bulk o) s (λ _ s', R (k - 3) args tmp (replied (reply_bulk t) a) s' ∧ st_db s' = st_db s).
Proof using malloc_size_bound KeyTableLaws0 KeyTableLaws1 shared_ok.
  intros HR Hv Ho Hk. refine (reply_ok_op (RBulk o) _ HR shared_ok _ Hk). destruct Hv as [Hs Hl]. exists t. split; [exact (val_held _ _ HR (conj Hs Hl) Ho)|].
  unfold MAX_STRING in Hl. split; [unfold fits; lia|]. apply bulk_text_reply. unfold LLONG_MAX. lia.
Qed.

Lemma add_long_ok {k args tmp a s} n : R k args tmp a s → LLONG_MIN ≤ n ≤ LLONG_MAX → 3 ≤ k →
  returns (add_long n) s (λ _ s', R (k - 3) args tmp (replied (reply_int n) a) s' ∧ st_db s' = st_db s).
Proof using malloc_size_bound KeyTableLaws0 KeyTableLaws1 shared_ok.
  intros HR Hn Hk. refine (reply_ok_op (RLongLong n) _ HR shared_ok _ Hk). split; [done|]. exists (printf_ld n). split; [by apply printf_ld_repr|done].
Qed.

Lemma add_multi_ok {k args tmp a s} n : R k args tmp a s → 0 ≤ n ≤ LLONG_MAX → 3 ≤ k →
  returns (add_multi n) s (λ _ s', R (k - 3) args tmp (replied (reply_multi n) a) s' ∧ st_db s' = st_db s).
Proof using malloc_size_bound KeyTableLaws0 KeyTableLaws1 shared_ok.
  intros HR Hn Hk. refine (reply_ok_op (RMultiBulkLen n) _ HR shared_ok _ Hk). split; [done|]. exists (printf_ld n). split; [apply printf_ld_repr; unfold LLONG_MIN; lia|done].
Qed.

Lemma add_error_ok {k args tmp a s} m : R k args tmp a s → Forall (λ x, x ≠ 0) m → fits (len m) → 3 ≤ k →
  returns (add_error m) s (λ _ s', R (k - 3) args tmp (replied (reply_error m) a) s' ∧ st_db s' = st_db s).
Proof using malloc_size_bound KeyTableLaws0 KeyTableLaws1 shared_ok. intros HR Hm Hf Hk. by refine (reply_ok_op (RError m) _ HR shared_ok _ Hk). Qed.

Lemma add_buffer_ok {k args tmp a s} t rest : R k args tmp a s → len t ≤ MAX_STRING → 3 ≤ k →
  returns (add_buffer (t ++ rest) (len t)) s (λ _ s', R (k - 3) args tmp (replied (reply_bulk t) a) s' ∧ st_db s' = st_db s).
Proof using malloc_size_bound KeyTableLaws0 KeyTableLaws1 shared_ok.
  intros HR Hl Hk. unfold MAX_STRING in Hl. apply (R_emits 3 _ _ HR); [lia|]. pose proof (R_room HR) as Hroom.
  destruct (addReplyBulkCBuffer_ok junk malloc_size limits unixtime ae_create shared malloc_size_bound (owner s args tmp) (st_heap s) (st_client s)
    (st0 ++ if accepts ae_create c0 then bytes (out a) else []) t rest) as (hd & Hhd & He); [apply HR|unfold room in *; lia|by eapply shared_held|unfold fits; lia|].
  rewrite (bulk_text_unique t (reply_bulk t) (hd ++ t ++ [13; 10])); [done|apply bulk_text_reply; unfold LLONG_MAX; lia|by exists hd].
Qed.

(** A formatted message: ends of lines become spaces. *)
Lemma error_format_eq h c n m : Forall (λ x, x ≠ 0) m → fits (len m + n) → 0 ≤ n →
  ∃ b, addReplyErrorFormat junk malloc_size limits unixtime ae_create h c n m =
    addReplyErrorLength junk malloc_size limits unixtime ae_create h c ((no_newline <$> m) ++ b) (len (no_newline <$> m)).
Proof using Type.
  intros Hm Hf Hn. unfold addReplyErrorFormat. destruct (sdsempty_ok junk) as (s0 & -> & Hs0). bsimpl.
  destruct (sdscatprintf_ok junk s0 [] n m Hs0 Hm) as (s & E1 & Hs); [|unfold sdscatprintf in E1; rewrite E1; bsimpl].
  { cbn. unfold fits in *. lia. }
  destruct Hs as (r & -> & Hr). cbn [app buf sdslen slen] in *. rewrite Nat2Z.id.
  pose proof (map_loop_ok no_newline m [] (0 :: r)) as Em. cbn [app] in Em. change (len []) with 0 in Em. rewrite Em. bsimpl. exists (0 :: r). by rewrite length_fmap.
Qed.

Lemma add_error_format_ok {k args tmp a s} n m : R k args tmp a s → Forall (λ x, x ≠ 0) m → fits (len m + n) → 0 ≤ n → 3 ≤ k →
  returns (add_error_format n m) s (λ _ s', R (k - 3) args tmp (replied (reply_error (no_newline <$> m)) a) s' ∧ st_db s' = st_db s).
Proof using malloc_size_bound KeyTableLaws0 KeyTableLaws1 shared_ok.
  intros HR Hm Hf Hn Hk. apply (R_emits 3 _ _ HR); [lia|]. destruct (error_format_eq (st_heap s) (st_client s) n m Hm Hf Hn) as (b & ->).
  apply addReplyErrorLength_ok; [done|apply HR|pose proof (R_room HR); unfold room in *; lia|]. rewrite length_fmap. unfold fits in *. lia.
Qed.
End replies.
