(* ===== verification/DbObject.v ===== *)
(** * Objects of the commands

    The objects a command creates, encodes, unshares and changes in place. *)

From S2P Require Import Prelude Util Sds SdsText Object Number Client Table Reply ReplySpec ReplyOps ReplyText ReplyDeferred Server Commands DbSpec DbOps DbKeys DbReply.
From stdpp Require Import gmap.
Local Open Scope Z_scope.

(** ** Encoding, case by case *)

Section encoding.
Context (junk : nat → Z) (shared_integers : Z → addr) (maxmemory maxmemory_policy : Z).

Lemma tryObjectEncoding_cases (h : oheap) (o : addr) ob t :
  shared_ok shared_integers h → h !! o = Some ob → obj_says ob t →
  ∃ h' o', tryObjectEncoding junk shared_integers maxmemory maxmemory_policy h o = Some (h', o') ∧
    ((h' = h ∧ o' = o) ∨
     (refcount ob = 1 ∧ o' = o ∧ ∃ ob', h' = <[o := ob']> h ∧ obj_says ob' t ∧ refcount ob' = 1) ∨
     (refcount ob = 1 ∧ o ≠ o' ∧ ∃ v ob2, 0 ≤ v < REDIS_SHARED_INTEGERS ∧ o' = shared_integers v ∧ h !! o' = Some ob2 ∧ decimal_repr v t ∧
        h' = <[o' := set_refcount ob2 (refcount ob2 + 1)]> (delete o h))).
Proof.
  intros Hsh Ho Hs. unfold tryObjectEncoding. rewrite Ho. bsimpl. pose proof Hs as (Ht & Hr & Hp).
  destruct (ptr ob) as [s|v| |] eqn:Ep; [| |done..].
  2:{ destruct Hp as (He & _). rewrite He. change (negb (REDIS_ENCODING_INT =? REDIS_ENCODING_RAW)) with true. cbv iota. exists h, o. split; [done|by left]. }
  destruct Hp as [He Hrep]. rewrite (proj2 (Z.eqb_eq _ _) He). cbn [negb].
  destruct (Z.gtb_spec (refcount ob) 1) as [Hr1|Hr1]; [exists h, o; split; [done|by left]|]. assert (refcount ob = 1) as Hr2 by lia.
  rewrite Ht. change (negb (REDIS_STRING =? REDIS_STRING)) with false. cbv iota. unfold osds. rewrite Ep. bsimpl. cbv zeta. rewrite (parse_ok s t Hrep). bsimpl.
  destruct (string2l t) as [v|] eqn:Ev.
  - apply string2l_repr in Ev as [Hd Hv]. destruct (_ && (v <? REDIS_SHARED_INTEGERS)) eqn:Ec.
    + rewrite !andb_true_iff, Z.geb_le, Z.ltb_lt in Ec. destruct Ec as [[_ Hv0] Hv1].
      destruct (Hsh v ltac:(lia)) as (ob2 & Ho2 & Ht2 & He2 & Hr3 & Hp2).
      assert (o ≠ shared_integers v) as Hne by (intros E; rewrite <- E, Ho in Ho2; injection Ho2 as ->; by rewrite He2 in He).
      rewrite (share_ok shared_integers h o ob v ob2) by (done || lia). eexists _, _. split; [done|]. right. right. split; [done|]. split; [done|]. by exists v, ob2.
    + eexists _, o. split; [done|]. right. left. split; [done|]. split; [done|]. eexists. split; [done|]. by split_and!.
  - destruct (_ && _).
    + eexists _, o. split; [done|]. right. left. split; [done|]. split; [done|]. eexists. split; [done|]. split; [|done]. eapply set_ptr_says; [done|done|by apply sdsRemoveFreeSpace_ok].
    + exists h, o. split; [done|by left].
Qed.
End encoding.

Section objects.
Context {T E : Type} `{!KeyTable T addr, !KeyTable E Z, !KeyTableLaws T addr, !KeyTableLaws E Z}.
Context (env : cmd_env) {base : addr → Z} {h0 : oheap} {st0 : list item} {c0 : redisClient}.
#[local] Abbreviation junk := (e_junk env).
#[local] Abbreviation malloc_size := (e_malloc_size env).
#[local] Abbreviation limits := (e_limits env).
#[local] Abbreviation unixtime := (e_unixtime env).
#[local] Abbreviation ae_create := (e_ae_create env).
#[local] Abbreviation shared := (e_shared env).
#[local] Abbreviation shared2 := (e_shared2 env).
#[local] Abbreviation shared_integers := (e_shared_integers env).
#[local] Abbreviation maxmemory := (e_maxmemory env).
#[local] Abbreviation maxmemory_policy := (e_maxmemory_policy env).
#[local] Abbreviation mstime := (e_mstime env).
#[local] Abbreviation loading := (e_loading env).
#[local] Abbreviation masterhost := (e_masterhost env).
Abbreviation sys := (sys T E).
Abbreviation cmd := (cmd T E).
Abbreviation R := (R malloc_size ae_create base h0 st0 c0).
#[local] Abbreviation the_map := (@the_map T E _).
#[local] Abbreviation owner := (owner base).
Context (perm : shared_perm env (h0 := h0)).
Implicit Types (s : sys) (a : kv) (args : list (addr * argument)) (tmp : list (addr * value)) (t : list Z).

(** ** New objects *)

Lemma R_new {k args tmp a s} o ob t : R k args tmp a s → st_heap s !! o = None → obj_says ob t → refcount ob = 1 → len t ≤ MAX_STRING → len tmp < 8 →
  R k args ((o, VString t) :: tmp) a (put_heap (<[o := ob]> (st_heap s)) s).
Proof.
  intros HR Hn Hs Hr Hl Htmp. pose proof HR as [].
  assert (owner s args tmp o = 0 ∧ refs (reply (cout (st_client s))) o = 0) as [Hown Hrl] by (pose proof (R_counted HR o) as Hc; by rewrite Hn in Hc).
  assert (∀ o', st_heap s !! o' ≠ None → <[o := ob]> (st_heap s) !! o' = st_heap s !! o') as Hne.
  { intros o' Ho'. rewrite lookup_insert_ne; [done|]. intros <-. done. }
  assert (∀ o' ob', st_heap s !! o' = Some ob' → ∃ ob2, <[o := ob]> (st_heap s) !! o' = Some ob2 ∧ same_obj ob' ob2 ∧ (0 < owner s args tmp o' → 1 ≤ refcount ob2)) as Hsame.
  { intros o' ob' Ho'. exists ob'. rewrite Hne by congruence. split; [done|]. split; [done|]. intros Hpos. destruct (R_live o' HR Hpos) as (ob2 & E2 & _ & Hb). rewrite Ho' in E2. injection E2 as <-. lia. }
  eapply (R_heap0 HR); try done; cbn [put_heap st_heap st_db st_client]; try lia.
  - intros o'. pose proof (R_counted HR o') as Hc. unfold DbSpec.owner, DbSpec.held_by, DbSpec.the_map in *. cbn [fmap list_fmap fst put_heap st_db].
    rewrite refs_app in *. rewrite refs_cons. destruct (decide (o = o')) as [<- |Hno].
    + rewrite lookup_insert_eq. lia.
    + rewrite lookup_insert_ne by done. destruct (st_heap s !! o'); lia.
  - intros o' ob' Ho' _. destruct (Hsame o' ob' Ho') as (ob2 & ? & ? & _). by exists ob2.
  - intros key. specialize (R_vals key). change (the_map (put_heap (<[o:=ob]> (st_heap s)) s)) with (the_map s).
    destruct (the_map s !! key) as [o'|] eqn:Eo, (vals a !! key); try done. eapply val_same; [exact R_vals|]. intros ob' Ho'.
    destruct (Hsame o' ob' Ho') as (ob2 & ? & ? & H2). exists ob2. split; [done|]. split; [done|]. apply H2. exact (table_owned _ _ HR Eo).
  - rewrite Forall_forall in *. intros [o' x] Hp. eapply arg_same; [by apply (R_args _ Hp)|]. intros ob' Ho'.
    destruct (Hsame o' ob' Ho') as (ob2 & ? & ? & H2). exists ob2. split; [done|]. split; [done|]. apply H2. exact (arg_owned _ _ HR Hp).
  - constructor.
    + split; [|done]. exists ob. cbn. by rewrite lookup_insert_eq.
    + rewrite Forall_forall in *. intros [o' x] Hp. eapply val_same; [by apply (R_tmp _ Hp)|]. intros ob' Ho'.
      destruct (Hsame o' ob' Ho') as (ob2 & ? & ? & H2). exists ob2. split; [done|]. split; [done|]. apply H2. exact (tmp_owned _ _ HR Hp).
  - cbn [length]. lia.
Qed.

(** ** References in a list that is updated *)

Lemma refs_insert (l : list addr) j o o' x : l !! j = Some o → refs (<[j := o']> l) x + (if decide (o = x) then 1 else 0) = refs l x + (if decide (o' = x) then 1 else 0).
Proof using Type.
  intros Hj. rewrite <- (take_drop_middle l j o Hj) at 2. rewrite insert_take_drop by (by eapply lookup_lt_Some). rewrite !refs_app, !refs_cons. lia.
Qed.

Lemma refs_sole (l : list addr) i j o : refs l o = 1 → l !! i = Some o → l !! j = Some o → i = j.
Proof using Type.
  intros Hr Hi Hj. destruct (decide (i = j)) as [|Hne]; [done|]. pose proof (refs_insert l i o (Pos.succ o) o Hi) as H1.
  rewrite decide_True, decide_False in H1 by (done || lia). assert (0 < refs (<[i := Pos.succ o]> l) o); [|lia].
  apply refs_in. apply list_elem_of_lookup. exists j. by rewrite list_lookup_insert_ne.
Qed.

(** An object whose only reference is an argument. *)
Lemma sole_arg {k args tmp a s} j o x ob : R k args tmp a s → args !! j = Some (o, x) → st_heap s !! o = Some ob → refcount ob = 1 →
  base o = 0 ∧ (∀ key, the_map s !! key ≠ Some o) ∧ (∀ i y, args !! i = Some (o, y) → i = j) ∧ (∀ v, (o, v) ∉ tmp) ∧ refs (reply (cout (st_client s))) o = 0.
Proof.
  intros HR Hj Ho Hr. pose proof (R_counted HR o) as Hc. rewrite Ho in Hc. destruct Hc as (_ & _ & Hc). unfold DbSpec.owner, held_by in Hc. rewrite refs_app in Hc.
  pose proof (R_small HR o). pose proof (table_refs_nonneg (the_map s) o) as Ht. pose proof (refs_nonneg tmp.*1 o) as Htmp. pose proof (refs_nonneg (reply (cout (st_client s))) o).
  assert (args.*1 !! j = Some o) as Hj1 by (by rewrite list_lookup_fmap, Hj).
  assert (0 < refs args.*1 o) by (apply refs_in, list_elem_of_lookup; by exists j).
  split; [lia|]. split; [intros key Hk%table_refs_in; lia|]. split.
  { intros i y Hi. apply (refs_sole args.*1 i j o); [lia|by rewrite list_lookup_fmap, Hi|done]. }
  split; [|lia]. intros v Hv. assert (0 < refs tmp.*1 o); [|lia]. apply refs_in. by apply (list_elem_of_fmap_2' fst tmp (o, v)).
Qed.

Lemma R_arg_set {k args tmp a s} j o x o' x' h' : R k args tmp a s → args !! j = Some (o, x) →
  counted (owner (put_argv (<[j := o']> (st_argv s)) (put_heap h' s)) (<[j := (o', x')]> args) tmp) h' (reply (cout (st_client s))) →
  arg_is h' o' x' →
  (∀ o2 ob2, st_heap s !! o2 = Some ob2 → o2 ≠ o → ∃ ob', h' !! o2 = Some ob' ∧ same_obj ob2 ob') →
  (o' = o ∧ h' = st_heap s) ∨ (∃ ob, st_heap s !! o = Some ob ∧ refcount ob = 1) →
  R k (<[j := (o', x')]> args) tmp a (put_argv (<[j := o']> (st_argv s)) (put_heap h' s)).
Proof.
  intros HR Hj Hc Ha Hsame Hcase. pose proof HR as [].
  assert (∀ o2 ob2, st_heap s !! o2 = Some ob2 → o2 ≠ o ∨ h' = st_heap s → 0 < owner (put_argv (<[j := o']> (st_argv s)) (put_heap h' s)) (<[j := (o', x')]> args) tmp o2 →
    ∃ ob', h' !! o2 = Some ob' ∧ same_obj ob2 ob' ∧ 1 ≤ refcount ob') as Hlive.
  { intros o2 ob2 Ho2 Hor Hpos. assert (∃ ob', h' !! o2 = Some ob' ∧ same_obj ob2 ob') as (ob' & E1 & E2) by (destruct Hor as [|Eh]; [by apply Hsame|exists ob2; by rewrite Eh]).
    exists ob'. split; [done|]. split; [done|]. specialize (Hc o2). rewrite E1 in Hc. lia. }
  assert (∀ o2, (o2 ≠ o ∨ h' = st_heap s) ∨ (o2 = o ∧ ∃ ob, st_heap s !! o = Some ob ∧ refcount ob = 1)) as Hany.
  { intros o2. destruct Hcase as [[_ ->]|Hr]; [left; by right|]. destruct (decide (o2 = o)); [by right|left; by left]. }
  eapply (R_heap0 HR); try done; cbn [put_heap put_argv st_heap st_db st_client st_argv]; try lia.
  - rewrite R_argv. by rewrite list_fmap_insert.
  - intros o2 ob2 Ho2 Hor. destruct (Hany o2) as [[Hne|Eh]|(-> & ob & Ho & Hr)]; [by apply Hsame|exists ob2; by rewrite Eh|].
    destruct (sole_arg j o x ob HR Hj Ho Hr) as (Hb & _ & _ & _ & Hrl). destruct Hor as [Hin|Hpos]; [apply refs_in in Hin|]; lia.
  - intros key. specialize (R_vals key). change (the_map (put_argv (<[j:=o']> (st_argv s)) (put_heap h' s))) with (the_map s).
    destruct (the_map s !! key) as [o2|] eqn:Eo, (vals a !! key); try done. eapply val_same; [exact R_vals|]. intros ob2 Ho2. apply Hlive; [done| |].
    + destruct (Hany o2) as [|(-> & ob & Ho & Hr)]; [done|]. destruct (sole_arg j o x ob HR Hj Ho Hr) as (_ & Ht & _). by destruct (Ht key).
    + unfold DbSpec.owner, held_by. pose proof (R_small o2). apply table_refs_in in Eo. change (the_map (put_argv (<[j:=o']> (st_argv s)) (put_heap h' s))) with (the_map s).
      pose proof (refs_nonneg ((<[j:=(o', x')]> args).*1 ++ tmp.*1) o2). lia.
  - apply Forall_lookup. intros i [o2 y] Hi. cbn. apply list_lookup_insert_Some in Hi as [(<- & [= <- <-] & _)|[Hne Hi]]; [done|].
    eapply arg_same; [apply (R_arg o2 y HR), list_elem_of_lookup; by exists i|]. intros ob2 Ho2. apply Hlive; [done| |].
    + destruct (Hany o2) as [|(-> & ob & Ho & Hr)]; [done|]. destruct (sole_arg j o x ob HR Hj Ho Hr) as (_ & _ & Hs & _). by destruct (Hs i y Hi).
    + unfold DbSpec.owner, held_by. pose proof (R_small o2). pose proof (table_refs_nonneg (the_map (put_argv (<[j:=o']> (st_argv s)) (put_heap h' s))) o2).
      assert (0 < refs ((<[j:=(o', x')]> args).*1 ++ tmp.*1) o2); [|lia]. apply refs_in, elem_of_app. left. apply list_elem_of_lookup. exists i.
      by rewrite list_lookup_fmap, list_lookup_insert_ne, Hi.
  - apply Forall_forall. intros [o2 v] Hp. rewrite Forall_forall in R_tmp. eapply val_same; [by apply (R_tmp _ Hp)|]. cbn. intros ob2 Ho2. apply Hlive; [done| |].
    + destruct (Hany o2) as [|(-> & ob & Ho & Hr)]; [done|]. destruct (sole_arg j o x ob HR Hj Ho Hr) as (_ & _ & _ & Hs & _). by destruct (Hs v Hp).
    + unfold DbSpec.owner, held_by. pose proof (R_small o2). pose proof (table_refs_nonneg (the_map (put_argv (<[j:=o']> (st_argv s)) (put_heap h' s))) o2).
      assert (0 < refs ((<[j:=(o', x')]> args).*1 ++ tmp.*1) o2); [|lia]. apply refs_in, elem_of_app. right. by apply (list_elem_of_fmap_2' fst tmp (o2, v)).
  - rewrite length_insert. lia.
Qed.

Lemma owner_arg_set h' j o o' x x' s args tmp o2 : st_argv s = args.*1 → args !! j = Some (o, x) →
  owner (put_argv (<[j := o']> (st_argv s)) (put_heap h' s)) (<[j := (o', x')]> args) tmp o2 + (if decide (o = o2) then 1 else 0) =
  owner s args tmp o2 + (if decide (o' = o2) then 1 else 0).
Proof using Type.
  intros Ea Hj. unfold DbSpec.owner, held_by. change (the_map (put_argv (<[j:=o']> (st_argv s)) (put_heap h' s))) with (the_map s).
  rewrite !refs_app, list_fmap_insert. assert (args.*1 !! j = Some o) as Hj1 by (by rewrite list_lookup_fmap, Hj). pose proof (refs_insert args.*1 j o o' o2 Hj1). cbn [fst]. lia.
Qed.

(** The shared integers are there. *)
Lemma integers_ok {k args tmp a s} : R k args tmp a s → shared_ok shared_integers (st_heap s).
Proof using perm KeyTableLaws0 KeyTableLaws1.
  intros HR v Hv. destruct (perm_integers _ perm v Hv) as (ob0 & Ho0 & Ht & He & Hp). destruct (R_base HR _ _ Ho0) as (ob & Ho & Ht' & He' & Hp').
  exists ob. split; [done|]. assert (0 < owner s args tmp (shared_integers v)) as Hown.
  { unfold DbSpec.owner, held_by. pose proof (table_refs_nonneg (the_map s) (shared_integers v)). pose proof (refs_nonneg (args.*1 ++ tmp.*1) (shared_integers v)). pose proof (R_held HR _ _ Ho0). lia. }
  destruct (R_live _ HR Hown) as (ob' & E1 & _ & Hb). rewrite Ho in E1. injection E1 as <-. rewrite Ht', He', Hp'. split_and!; (done || lia).
Qed.

(** An argument is encoded: it says the same. *)
Lemma encode_arg_ok {k args tmp a s} j o x : R k args tmp a s → args !! j = Some (o, x) →
  returns (encode_arg env j) s
    (λ _ s', ∃ o', R k (<[j := (o', mkArg (a_text x) false)]> args) tmp a s' ∧ st_db s' = st_db s).
Proof using perm KeyTableLaws0 KeyTableLaws1.
  intros HR Hj. pose proof (R_arg o x HR ltac:(apply list_elem_of_lookup; by exists j)) as (ob & Ho & Hs & Hraw & Hl).
  destruct (tryObjectEncoding_cases junk shared_integers maxmemory maxmemory_policy (st_heap s) o ob (a_text x) (integers_ok HR) Ho Hs) as (h' & o' & Hrun & Hcase).
  eapply returns_step; [unfold arg; rewrite (R_argv HR), list_lookup_fmap, Hj; reflexivity|]. eapply returns_step; [unfold on_heap; cbn [fst]; rewrite Hrun; reflexivity|].
  apply returns_puts. exists o'. split; [|done]. cbn [st_argv put_heap]. pose proof (R_counted HR) as Hc.
  destruct Hcase as [[-> ->]|[(Hr & -> & ob' & -> & Hs' & Hr')|(Hr & Hne & v & ob2 & Hv & -> & Ho2 & Hd & ->)]].
  - apply (R_arg_set j o x); [done|done| | | |by left].
    + intros o2. pose proof (owner_arg_set (st_heap s) j o o x (mkArg (a_text x) false) s args tmp o2 (R_argv HR) Hj). specialize (Hc o2). destruct (st_heap s !! o2); lia.
    + exists ob. split; [done|]. split; [done|]. by split.
    + intros o2 ob2 Ho2 _. by exists ob2.
  - apply (R_arg_set j o x); [done|done| | | |right; by exists ob].
    + intros o2. pose proof (owner_arg_set (<[o:=ob']> (st_heap s)) j o o x (mkArg (a_text x) false) s args tmp o2 (R_argv HR) Hj). specialize (Hc o2).
      destruct (decide (o = o2)) as [<- |Hne]; [rewrite lookup_insert_eq; rewrite Ho in Hc; lia|]. rewrite lookup_insert_ne by done. destruct (st_heap s !! o2); lia.
    + exists ob'. rewrite lookup_insert_eq. split; [done|]. split; [done|]. by split.
    + intros o2 ob2 Ho2 Hne. rewrite lookup_insert_ne by done. by exists ob2.
  - destruct (integers_ok HR v Hv) as (ob3 & Ho3 & Ht3 & He3 & Hb3 & Hp3). rewrite Ho2 in Ho3. injection Ho3 as <-.
    destruct (sole_arg j o x ob HR Hj Ho Hr) as (Hbase & Htab & Hsole & Htmp & Hrl).
    apply (R_arg_set j o x); [done|done| | | |right; by exists ob].
    + intros o2. pose proof (owner_arg_set (<[shared_integers v:=set_refcount ob2 (refcount ob2 + 1)]> (delete o (st_heap s))) j o (shared_integers v) x (mkArg (a_text x) false) s args tmp o2 (R_argv HR) Hj).
      specialize (Hc o2). destruct (decide (shared_integers v = o2)) as [<- |Hne2].
      * rewrite lookup_insert_eq. rewrite Ho2 in Hc. rewrite decide_False in * by done. cbn [refcount set_refcount]. lia.
      * rewrite lookup_insert_ne by done. destruct (decide (o = o2)) as [<- |Hne3]; [rewrite lookup_delete_eq; rewrite Ho in Hc; lia|].
        rewrite lookup_delete_ne by done. destruct (st_heap s !! o2); lia.
    + eexists. rewrite lookup_insert_eq. split; [done|]. split; [|by split].
      split; [done|]. split; [cbn; lia|]. cbn [ptr set_refcount]. rewrite Hp3. cbn. split; [done|]. split; [unfold LONG_MIN, LONG_MAX, REDIS_SHARED_INTEGERS in *; lia|done].
    + intros o2 ob4 Ho4 Hne2. destruct (decide (shared_integers v = o2)) as [<- |Hne3].
      * rewrite lookup_insert_eq. rewrite Ho2 in Ho4. injection Ho4 as <-. by eexists.
      * rewrite lookup_insert_ne, lookup_delete_ne by done. by exists ob4.
Qed.

(** ** Numbers *)

Lemma fromLongLong_ok {k args tmp a s} v : R k args tmp a s → LLONG_MIN ≤ v ≤ LLONG_MAX → len tmp < 8 →
  returns (on_heap (λ h, createStringObjectFromLongLong junk shared_integers h v)) s (λ o s', R k args ((o, VString (printf_ld v)) :: tmp) a s' ∧ st_db s' = st_db s).
Proof using perm KeyTableLaws0 KeyTableLaws1.
  intros HR Hv Hl. pose proof (printf_ld_repr v Hv) as Hd. unfold createStringObjectFromLongLong.
  destruct (_ && _) eqn:Ec.
  - rewrite andb_true_iff, Z.geb_le, Z.ltb_lt in Ec. destruct (perm_integers _ perm v Ec) as (ob0 & Ho0 & _).
    destruct (integers_ok HR v Ec) as (ob & Ho & Ht & He & Hb & Hp).
    assert (val_is (st_heap s) (shared_integers v) (VString (printf_ld v))) as Hval.
    { split; [exists ob; split; [done|]; split; [done|]; split; [lia|]; rewrite Hp; exact (conj He (conj Hv Hd))|]. pose proof (decimal_repr_len v _ Hd Hv). unfold MAX_STRING. lia. }
    assert (0 < owner s args tmp (shared_integers v)) as Hown.
    { unfold DbSpec.owner, held_by. pose proof (table_refs_nonneg (the_map s) (shared_integers v)). pose proof (refs_nonneg (args.*1 ++ tmp.*1) (shared_integers v)). pose proof (R_held HR _ _ Ho0). lia. }
    destruct (incr_ok _ _ HR Hl Hval Hown) as ([] & s' & E1 & HR' & Edb). unfold upd_heap, mbind in E1.
    eapply returns_eq; [|exact (conj HR' Edb)]. unfold on_heap, mbind. destruct (incrRefCount (st_heap s) (shared_integers v)); [|done]. cbn in *. by injection E1 as <-.
  - rewrite (proj2 (andb_true_iff _ _)) by (rewrite Z.geb_le, Z.leb_le; exact Hv). unfold createObject. cbv zeta beta iota.
    eexists _, _. split; [unfold on_heap; reflexivity|]. rewrite insert_insert_eq. split; [|done]. apply (R_new _ _ _ HR); [apply not_elem_of_dom, is_fresh| |done| |done].
    + split; [done|]. split; [done|]. exact (conj eq_refl (conj Hv Hd)).
    + pose proof (decimal_repr_len v _ Hd Hv). unfold MAX_STRING. lia.
Qed.

(** ** Unsharing *)

(** The object is a value of its own, and holds a dynamic string. *)
Definition own_string s t o tx : Prop :=
  the_map s !! t = Some o ∧ ∃ ob p, st_heap s !! o = Some ob ∧ otype ob = REDIS_STRING ∧ oencoding ob = REDIS_ENCODING_RAW ∧ refcount ob = 1 ∧ ptr ob = PtrSds p ∧ rep p tx.

Lemma put_same t v a : vals a !! t = Some v → put_val t v a = a.
Proof using Type. destruct a. intros Hv. unfold put_val, set_vals. cbn in *. by rewrite insert_id. Qed.

Lemma decode_ok {k args tmp a s} o tx : R k args tmp a s → val_is (st_heap s) o (VString tx) → 0 < owner s args tmp o → len tmp < 8 →
  returns (on_heap (λ h, getDecodedObject junk h o)) s (λ o' s', R k args ((o', VString tx) :: tmp) a s' ∧ st_db s' = st_db s ∧
    ∃ ob p, st_heap s' !! o' = Some ob ∧ ptr ob = PtrSds p ∧ rep p tx).
Proof.
  intros HR [(ob & Ho & Hs) Hlen] Hown Hl. pose proof Hs as (Ht & Hr & Hp). destruct (ptr ob) as [p|v| |] eqn:Ep; [| |done..].
  - destruct Hp as [He Hrep]. destruct (incr_ok o (VString tx) HR Hl (conj (ex_intro _ ob (conj Ho Hs)) Hlen) Hown) as ([] & s' & E1 & HR' & Edb).
    unfold upd_heap, mbind, incrRefCount in E1. rewrite Ho in E1. cbn in E1. injection E1 as E1.
    eexists o, s'. split; [unfold on_heap, getDecodedObject; rewrite Ho; bsimpl; rewrite He; change (REDIS_ENCODING_RAW =? REDIS_ENCODING_RAW) with true; cbv iota; unfold incrRefCount; rewrite Ho; cbn; by rewrite E1|].
    split; [done|]. split; [done|]. subst s'. cbn. rewrite lookup_insert_eq. eexists _, p. by split_and!.
  - assert (refcount ob < 2 ^ 31 - 1) as Hlt by (destruct (R_live o HR Hown) as (ob' & E1 & _ & Hb); rewrite Ho in E1; injection E1 as <-; lia).
    destruct (getDecodedObject_ok junk (st_heap s) o tx ob Ho Hs Hlt) as (h' & o' & p & n & Hrun & Hrep & -> & [(_ & _ & Ep')|[Hn ->]]); [congruence|].
    eexists o', _. split; [unfold on_heap; rewrite Hrun; reflexivity|]. split; [apply (R_new _ _ _ HR Hn); [|done|done|done]; by split|]. split; [done|].
    cbn. rewrite lookup_insert_eq. eexists _, p. by split_and!.
Qed.

Lemma create_ok {k args tmp a s} p tx : R k args tmp a s → rep p tx → len tx ≤ MAX_STRING → len tmp < 8 →
  returns (on_heap (λ h, createStringObject junk h (buf p) (sdslen p))) s (λ o s', R k args ((o, VString tx) :: tmp) a s' ∧ st_db s' = st_db s ∧ st_heap s !! o = None ∧
    ∃ q, st_heap s' !! o = Some (mkObj REDIS_STRING REDIS_ENCODING_RAW 1 (PtrSds q)) ∧ rep q tx).
Proof.
  intros HR (r & -> & Hb) Hlen Hl. cbn [buf sdslen slen]. unfold MAX_STRING in Hlen.
  destruct (createStringObject_ok junk (st_heap s) tx (0 :: r) (len tx)) as (o & q & Hrun & Hn & Hrep); [done|unfold fits; lia|].
  eexists o, _. split; [unfold on_heap; rewrite Hrun; reflexivity|]. split; [apply (R_new _ _ _ HR Hn); [by split|done|unfold MAX_STRING; lia|done]|]. split; [done|]. split; [done|].
  exists q. cbn. by rewrite lookup_insert_eq.
Qed.

Lemma dbUnshareStringValue_ok {k args tmp a s} key t o tx : R k args tmp a s → is_key args key t → the_map s !! t = Some o → vals a !! t = Some (VString tx) → len tmp ≤ 4 →
  returns (dbUnshareStringValue junk key o) s (λ o' s', R k args tmp a s' ∧ own_string s' t o' tx).
Proof.
  intros HR Hk Hm Hv Hl. pose proof (R_lookup t HR) as Hlk. rewrite Hm in Hlk. destruct Hlk as (v & Ev & Hval & Hown). rewrite Hv in Ev. injection Ev as <-.
  pose proof Hval as [(ob & Ho & Hs) Hlen]. pose proof Hs as (Ht & Hr & Hp). eapply returns_step; [unfold object; rewrite Ho; reflexivity|].
  eapply returns_step; [unfold assert; rewrite Ht; reflexivity|]. destruct (negb (refcount ob =? 1) || negb (oencoding ob =? REDIS_ENCODING_RAW)) eqn:Ec.
  - eapply returns_bind; [refine (decode_ok o tx HR Hval Hown _); lia|]. intros d s1 (HR1 & E1 & obd & p & Hd & Ep & Hrep).
    eapply returns_step; [unfold object_sds, osds; rewrite Hd; cbn; rewrite Ep; reflexivity|].
    eapply returns_bind; [refine (create_ok p tx HR1 Hrep Hlen _); cbn [length]; lia|]. intros o2 s2 (HR2 & E2 & Hn2 & q & Ho2 & Hq).
    eapply returns_bind; [exact (decr_ok d _ (R_perm _ HR2 (perm_swap _ _ _)))|]. intros _ s3 (HR3 & E3 & H3).
    assert (the_map s3 !! t = Some o) as Hm3 by (by rewrite (db_of_map _ _ E3), (db_of_map _ _ E2), (db_of_map _ _ E1)).
    eapply returns_bind; [refine (dbOverwrite_ok key t o2 tx HR3 Hk _); by rewrite Hv|]. intros _ s4 (HR4 & H4 & Hm4). rewrite (put_same _ _ _ Hv) in HR4.
    apply returns_ret. split; [done|]. split; [done|]. exists (mkObj REDIS_STRING REDIS_ENCODING_RAW 1 (PtrSds q)), q. split; [|by split_and!]. rewrite H4, H3; [done| |].
    + intros ->. congruence.
    + rewrite Hm3. intros [= ->]. destruct (R_live o2 HR1) as (ob5 & E5 & _); [|congruence]. apply (table_owned t o2 HR1). by rewrite (db_of_map _ _ E1).
  - apply orb_false_iff in Ec as [Ec1 Ec2]. apply negb_false_iff, Z.eqb_eq in Ec1, Ec2. apply returns_ret. split; [done|]. split; [done|].
    destruct (ptr ob) as [p|v| |] eqn:Ep; [|by destruct Hp as (He & _); rewrite Ec2 in He|done..]. exists ob, p. by destruct Hp.
Qed.

(** A change in place. *)
Lemma inplace_ok {k args tmp a s} t o tx q ty : R k args tmp a s → own_string s t o tx → rep q ty → len ty ≤ MAX_STRING → is_Some (vals a !! t) →
  returns (upd_heap (λ h, ob ← h !! o; Some (<[o := set_ptr ob (PtrSds q)]> h))) s (λ _ s', R k args tmp (put_val t (VString ty) a) s' ∧ own_string s' t o ty).
Proof.
  intros HR (Hm & ob & p & Ho & Hty & He & Hr & Hp & _) Hq Hlen [v Hv]. eexists tt, _. split; [unfold upd_heap; rewrite Ho; reflexivity|].
  split; [|split; [exact Hm|]; eexists _, q; cbn [put_heap st_heap]; rewrite lookup_insert_eq; split; [done|]; by split_and!].
  pose proof HR as []. pose proof (R_counted HR) as Hc. pose proof (Hc o) as Hco. rewrite Ho in Hco. destruct Hco as (_ & _ & Hco).
  unfold DbSpec.owner, held_by in Hco. rewrite refs_app in Hco. pose proof (table_refs_in _ _ _ Hm) as Htr. pose proof (R_small o) as Hb.
  pose proof (refs_nonneg args.*1 o) as Hra. pose proof (refs_nonneg tmp.*1 o) as Hrt. pose proof (refs_nonneg (reply (cout (st_client s))) o) as Hrl.
  assert (∀ o2, o2 ≠ o → <[o := set_ptr ob (PtrSds q)]> (st_heap s) !! o2 = st_heap s !! o2) as Hne by (intros o2 ?; by rewrite lookup_insert_ne).
  assert (∀ o2 ob2, o2 ≠ o → 0 < owner s args tmp o2 → st_heap s !! o2 = Some ob2 → ∃ ob', <[o := set_ptr ob (PtrSds q)]> (st_heap s) !! o2 = Some ob' ∧ same_obj ob2 ob' ∧ 1 ≤ refcount ob') as Hlive.
  { intros o2 ob2 Hne2 Hpos Ho2. rewrite Hne by done. exists ob2. split; [done|]. split; [done|]. destruct (R_live o2 HR Hpos) as (ob3 & E3 & _ & Hb3). rewrite Ho2 in E3. injection E3 as <-. lia. }
  eapply (R_heap0 HR); try done; cbn [put_heap st_heap st_db st_client]; try lia.
  - intros o2. specialize (Hc o2). change (owner (put_heap (<[o:=set_ptr ob (PtrSds q)]> (st_heap s)) s) args tmp o2) with (owner s args tmp o2).
    destruct (decide (o2 = o)) as [-> |Hn2]; [|by rewrite Hne]. rewrite lookup_insert_eq. rewrite Ho in Hc. exact Hc.
  - intros o2 ob2 Ho2 Hor. destruct (decide (o2 = o)) as [-> |Hn2]; [destruct Hor as [Hin%refs_in|]; lia|]. rewrite Hne by done. by exists ob2.
  - intros key. specialize (R_vals key). change (the_map (put_heap (<[o:=set_ptr ob (PtrSds q)]> (st_heap s)) s)) with (the_map s). cbn [vals put_val set_vals].
    destruct (decide (t = key)) as [<- |Hnk].
    + rewrite Hm, lookup_insert_eq. split; [|done]. eexists. rewrite lookup_insert_eq. split; [done|]. split; [done|]. split; [by cbn; lia|]. by cbn.
    + rewrite lookup_insert_ne by done. destruct (the_map s !! key) as [o2|] eqn:Eo, (vals a !! key); try done. eapply val_same; [exact R_vals|]. intros ob2 Ho2. apply Hlive; [|exact (table_owned _ _ HR Eo)|done].
      intros ->. pose proof (table_refs_other _ _ _ _ Hm Eo Hnk). lia.
  - exact (put_sub t _ HR).
  - rewrite Forall_forall in *. intros [o2 x] Hpp. eapply arg_same; [by apply (R_args _ Hpp)|]. intros ob2 Ho2. apply Hlive; [|exact (arg_owned _ _ HR Hpp)|done].
    cbn. intros ->. assert (0 < refs args.*1 o); [|lia]. apply refs_in. by apply (list_elem_of_fmap_2' fst args (o, x)).
  - rewrite Forall_forall in *. intros [o2 x] Hpp. eapply val_same; [by apply (R_tmp _ Hpp)|]. intros ob2 Ho2. apply Hlive; [|exact (tmp_owned _ _ HR Hpp)|done].
    cbn. intros ->. assert (0 < refs tmp.*1 o); [|lia]. apply refs_in. by apply (list_elem_of_fmap_2' fst tmp (o, x)).
  - cbn [vals put_val set_vals]. rewrite map_size_insert_Some by done. lia.
Qed.
End objects.
