(* ===== verification/CommandSpec.v ===== *)
(** * What the commands do, on texts

    The specification of the handlers of [Commands]: functions from the texts of
    the arguments and the key space as maps to the key space after, with the
    reply and the events in order.  No objects, encodings or reference counts;
    only what a client or another part of the server can see. *)

From S2P Require Import Prelude Util Object Number Reply Server Commands DbSpec DbKeys DbReply.
From stdpp Require Import gmap.
Local Open Scope Z_scope.

Abbreviation text := (list Z).

Lemma s64_range x : LLONG_MIN ≤ s64 x ≤ LLONG_MAX.
Proof. pose proof (swrap_bound 64 x ltac:(lia)). unfold LLONG_MIN, LLONG_MAX. lia. Qed.

Section spec.
Context (mstime : Z) (loading masterhost : bool).
Implicit Types (a : kv) (t k v : text).
#[local] Abbreviation purge := (purge mstime loading masterhost).
#[local] Abbreviation set_key := (set_key mstime loading masterhost).

(** ** Parts *)

Definition not_integer : text := reply_error (str "value is not an integer or out of range").
Definition too_long : text := reply_error (str "string exceeds maximum allowed size (512MB)").

Definition notify (type : Z) (event k : text) a : kv := event_of (EvNotify type event k) a.
Definition modified k a : kv := event_of (EvModified k) a.

(** A string value was written: its observers are told, and the client. *)
Definition wrote k (event r : text) a : kv :=
  replied r (more_dirty 1 (notify REDIS_NOTIFY_STRING event k (modified k a))).

(** ** SET *)

(** The milliseconds to live, or what is replied instead. *)
Definition time_to_live (expire : option text) (unit_ : Z) a : kv + Z :=
  match expire with
  | None => inr 0
  | Some e =>
      match text_number e with
      | None => inl (replied not_integer a)
      | Some n =>
          if n <=? 0 then inl (replied (reply_error (str "invalid expire time in " ++ cmd_name a)) a)
          else inr (if unit_ =? UNIT_SECONDS then s64 (n * 1000) else n)
      end
  end.

Definition present k a : bool := bool_decide (is_Some (vals a !! k)).

(** The conditions of [NX] and [XX]. *)
Definition refused (flags : Z) k a : kv * bool :=
  let nx := negb (Z.land flags REDIS_SET_NX =? 0) in
  let xx := negb (Z.land flags REDIS_SET_XX =? 0) in
  let a := if nx then purge k a else a in
  if nx && present k a then (a, true)
  else let a := if xx then purge k a else a in (a, xx && negb (present k a)).

(** The value, its time if it has one, and what is told. *)
Definition store k v (expire : option Z) (ok : text) a : kv :=
  let a := more_dirty 1 (set_key k (VString v) a) in
  let a := match expire with Some when => set_exps (<[k := when]> (exps a)) a | None => a end in
  let a := notify REDIS_NOTIFY_STRING (str "set") k a in
  let a := match expire with Some _ => notify REDIS_NOTIFY_GENERIC (str "expire") k a | None => a end in
  replied ok a.

Definition set_generic (flags : Z) k v (expire : option text) (unit_ : Z) (ok abort : text) a : kv :=
  match time_to_live expire unit_ a with
  | inl a => a
  | inr ms =>
      let '(a, no) := refused flags k a in
      if no then replied abort a
      else store k v (match expire with Some _ => Some (s64 (mstime + ms)) | None => None end) ok a
  end.

(** An option, two letters in any case, up to the first NUL. *)
Definition word t (x y : Z) : bool :=
  match until_nul t with
  | [a0; a1] => ((a0 =? x) || (a0 =? x - 32)) && ((a1 =? y) || (a1 =? y - 32))
  | _ => false
  end.

Fixpoint options (l : list text) (flags : Z) (expire : option text) (unit_ : Z) : option (Z * option text * Z) :=
  match l with
  | [] => Some (flags, expire, unit_)
  | t :: l =>
      if word t 110 120 then options l (Z.lor flags REDIS_SET_NX) expire unit_
      else if word t 120 120 then options l (Z.lor flags REDIS_SET_XX) expire unit_
      else
        match l with
        | [] => None
        | next :: l =>
            if word t 101 120 then options l flags (Some next) UNIT_SECONDS
            else if word t 112 120 then options l flags (Some next) UNIT_MILLISECONDS
            else None
        end
  end.

Definition spec_set k v (l : list text) a : kv :=
  match options l REDIS_SET_NO_FLAGS None UNIT_SECONDS with
  | None => replied reply_syntax a
  | Some (flags, expire, unit_) => set_generic flags k v expire unit_ reply_ok reply_nil a
  end.

(** ** Reading *)

Definition reply_value (o : option value) (missing : text) : text :=
  match o with None => missing | Some (VString t) => reply_bulk t | Some (VOther _) => reply_wrongtype end.

Definition spec_get k a : kv := let a := purge k a in replied (reply_value (vals a !! k) reply_nil) a.

Definition spec_getset k v a : kv :=
  let a := spec_get k a in
  match vals a !! k with
  | Some (VOther _) => a
  | _ => more_dirty 1 (notify REDIS_NOTIFY_STRING (str "set") k (set_key k (VString v) a))
  end.

Definition spec_strlen k a : kv :=
  let a := purge k a in
  replied (match vals a !! k with None => reply_int 0 | Some (VString t) => reply_int (len t) | Some (VOther _) => reply_wrongtype end) a.

(** Bytes [start] to [end_] of a text, counted from the end when negative. *)
Definition substring t (start end_ : Z) : text :=
  let n := len t in
  let start := Z.max 0 (if start <? 0 then n + start else start) in
  let end_ := Z.min (n - 1) (Z.max 0 (if end_ <? 0 then n + end_ else end_)) in
  take (Z.to_nat (end_ - start + 1)) (drop (Z.to_nat start) t).

Definition spec_getrange k (t1 t2 : text) a : kv :=
  match text_number t1, text_number t2 with
  | Some start, Some end_ =>
      let a := purge k a in
      replied (match vals a !! k with
               | None => reply_empty
               | Some (VString t) => reply_bulk (substring t start end_)
               | Some (VOther _) => reply_wrongtype
               end) a
  | _, _ => replied not_integer a
  end.

(** ** Writing parts *)

(** [t] with [v] written at [offset], zero bytes filling a gap. *)
Definition overlay t (offset : Z) v : text :=
  let t := t ++ replicate (Z.to_nat (offset + len v - len t)) 0 in
  take (Z.to_nat offset) t ++ v ++ drop (Z.to_nat (offset + len v)) t.

Definition spec_setrange k (t2 v : text) a : kv :=
  match text_number t2 with
  | None => replied not_integer a
  | Some offset =>
      if offset <? 0 then replied (reply_error (str "offset is out of range")) a
      else
        let a := purge k a in
        match vals a !! k with
        | Some (VOther _) => replied reply_wrongtype a
        | o =>
            let old := match o with Some (VString t) => t | _ => [] end in
            if bool_decide (v = []) then replied (reply_int (len old)) a
            else if offset + len v >? MAX_STRING then replied too_long a
            else
              let new := overlay old offset v in
              wrote k (str "setrange") (reply_int (len new)) (put_val k (VString new) a)
        end
  end.

Definition spec_append k v a : kv :=
  let a := purge k a in
  match vals a !! k with
  | Some (VOther _) => replied reply_wrongtype a
  | None => wrote k (str "append") (reply_int (len v)) (put_val k (VString v) a)
  | Some (VString t) =>
      if len t + len v >? MAX_STRING then replied too_long a
      else wrote k (str "append") (reply_int (len (t ++ v))) (put_val k (VString (t ++ v)) a)
  end.

(** ** Counters *)

(** The number a counter stands at. *)
Definition counter (o : option value) : option Z := match o with Some (VString t) => text_number t | _ => Some 0 end.

Definition add_to_counter (n : Z) k a : kv :=
  match counter (vals a !! k) with
  | None => replied not_integer a
  | Some v =>
      if (v + n <? LLONG_MIN) || (LLONG_MAX <? v + n) then replied (reply_error (str "increment or decrement would overflow")) a
      else wrote k (str "incrby") (reply_int (v + n)) (put_val k (VString (printf_ld (v + n))) a)
  end.

Definition spec_incr (n : Z) k a : kv :=
  let a := purge k a in
  match vals a !! k with
  | Some (VOther _) => replied reply_wrongtype a
  | _ => add_to_counter n k a
  end.

Definition spec_incrby (f : Z → Z) k t a : kv :=
  match text_number t with None => replied not_integer a | Some n => spec_incr (f n) k a end.

(** ** Several keys *)

Definition mget_key a k : kv :=
  let a := purge k a in
  replied (match vals a !! k with Some (VString t) => reply_bulk t | _ => reply_nil end) a.

Definition spec_mget (ks : list text) a : kv := foldl mget_key (replied (reply_multi (len ks)) a) ks.

Definition mset_pair a (p : text * text) : kv := notify REDIS_NOTIFY_STRING (str "set") p.1 (set_key p.1 (VString p.2) a).

Fixpoint pairs (l : list text) : list (text * text) :=
  match l with k :: v :: l => (k, v) :: pairs l | _ => [] end.

(** Keys past their time go; is one of the others there? *)
Definition busy (ks : list text) a : kv * bool :=
  foldl (λ '(a, b) k, let a := purge k a in (a, b || present k a)) (a, false) ks.

Definition spec_mset (nx : bool) (l : list text) a : kv :=
  if Nat.odd (length l) then replied (reply_error (str "wrong number of arguments for MSET")) a
  else
    let '(a, b) := if nx then busy (pairs l).*1 a else (a, false) in
    if b then replied (reply_int 0) a
    else replied (if nx then reply_int 1 else reply_ok) (more_dirty (len (pairs l)) (foldl mset_pair a (pairs l))).

(** ** Keys *)

Definition del_one (p : kv * Z) k : kv * Z :=
  let a := purge k p.1 in
  if present k a then (more_dirty 1 (notify REDIS_NOTIFY_GENERIC (str "del") k (modified k (del_key k a))), p.2 + 1) else (a, p.2).

Definition spec_del (ks : list text) a : kv := let '(a, n) := foldl del_one (a, 0) ks in replied (reply_int n) a.

Definition spec_exists k a : kv := let a := purge k a in replied (reply_int (if present k a then 1 else 0)) a.

(** The time at which a key is to expire. *)
Definition deadline (basetime unit_ n : Z) : Z := s64 ((if unit_ =? UNIT_SECONDS then s64 (n * 1000) else n) + basetime).

(** A key that is to expire now is deleted, and the command is turned into
    [DEL]; [true] tells that it was. *)
Definition spec_expire (basetime unit_ : Z) k t a : kv * bool :=
  match text_number t with
  | None => (replied not_integer a, false)
  | Some n =>
      let when := deadline basetime unit_ n in
      let a := purge k a in
      if negb (present k a) then (replied (reply_int 0) a, false)
      else if (when <=? mstime) && negb loading && negb masterhost then
        (replied (reply_int 1) (notify REDIS_NOTIFY_GENERIC (str "del") k (modified k (set_name (str "del") (more_dirty 1 (del_key k a))))), true)
      else
        (more_dirty 1 (notify REDIS_NOTIFY_GENERIC (str "expire") k (modified k (replied (reply_int 1) (set_exps (<[k := when]> (exps a)) a)))), false)
  end.

(** Minus two without the key, minus one without a time. *)
Definition spec_ttl (ms : bool) k a : kv :=
  let a := purge k a in
  replied (reply_int (
    if negb (present k a) then -2
    else match exps a !! k with
         | None => -1
         | Some when =>
             let left := Z.max 0 (s64 (when - mstime)) in
             if when =? -1 then -1 else if ms then left else Z.quot (s64 (left + 500)) 1000
         end)) a.

Definition spec_persist k a : kv :=
  if present k a && bool_decide (is_Some (exps a !! k))
  then more_dirty 1 (replied (reply_int 1) (set_exps (delete k (exps a)) a))
  else replied (reply_int 0) a.
End spec.
