(* ===== verification/StringOps.v ===== *)
(** * The handlers implement their specification: strings

    Each handler, run on arguments that are live string objects, does to the
    state what its function of [CommandSpec] says. *)

From S2P Require Import Prelude Util Sds SdsText Object Number Client Table Reply ReplySpec ReplyText Server Commands DbSpec DbOps DbKeys DbReply DbObject CommandSpec.
From stdpp Require Import gmap.
Local Open Scope Z_scope.

(** Room for the replies and the keys of a command. *)
Definition cost (args : list (addr * argument)) : Z := 15 + 4 * len args.

Definition texts (args : list (addr * argument)) : list text := a_text <$> args.*2.

Section handlers.
Context {T E : Type} `{!KeyTable T addr, !KeyTable E Z, !KeyTableLaws T addr, !KeyTableLaws E Z}.
Context (env : cmd_env) {base : addr → Z} {h0 : oheap} {st0 : list item} {c0 : redisClient}.
Context (malloc_size_bound : ∀ s, 0 ≤ e_malloc_size env s < 2 ^ 33) (perm : shared_perm env (h0 := h0)).
#[local] Abbreviation junk := (e_junk env).
Abbreviation sys := (sys T E).
Abbreviation cmd := (cmd T E).
Abbreviation R := (R (e_malloc_size env) (e_ae_create env) base h0 st0 c0).
#[local] Abbreviation the_map := (@the_map T E _).
#[local] Abbreviation owner := (owner base).
#[local] Abbreviation purge := (purge (e_mstime env) (e_loading env) (e_masterhost env)).
#[local] Abbreviation set_key := (set_key (e_mstime env) (e_loading env) (e_masterhost env)).
Implicit Types (s : sys) (a : kv) (args : list (addr * argument)) (tmp : list (addr * value)) (t : text) (n : Z).

(** What a handler leaves. *)
Definition leaves (n : Z) args (ts : list text) a' : unit → sys → Prop :=
  λ _ s', ∃ args', R (n - cost args) args' [] a' s' ∧ texts args' = ts.

Lemma leaves_same {n' args a s'} n a' u : R n' args [] a' s' → 0 ≤ n - cost args ≤ n' → a = a' → leaves n args (texts args) a u s'.
Proof using Type. intros HR Hn ->. exists args. split; [refine (R_less _ HR _); lia|done]. Qed.

(** ** Arguments *)

Lemma arg_eq {n args tmp a s} j o x : R n args tmp a s → args !! j = Some (o, x) → arg j s = Some (o, s).
Proof using Type. intros HR Hj. unfold arg. by rewrite (R_argv HR), list_lookup_fmap, Hj. Qed.

Lemma argc_eq {n args tmp a s} : R n args tmp a s → argc s = Some (len args, s).
Proof using Type. intros HR. unfold argc, gets. by rewrite (R_argv HR), length_fmap. Qed.

Lemma key_at args j o t : args !! j = Some (o, mkArg t true) → is_key args o t.
Proof using Type. intros Hj. apply list_elem_of_lookup. by exists j. Qed.

Lemma arg_at {n args tmp a s} j o x : R n args tmp a s → args !! j = Some (o, x) → val_is (st_heap s) o (VString (a_text x)) ∧ 0 < owner s args tmp o.
Proof using KeyTableLaws0 KeyTableLaws1. intros HR Hj. apply (arg_val _ _ HR). apply list_elem_of_lookup. by exists j. Qed.

(** The dynamic string of an argument that was not encoded. *)
Lemma arg_sds {n args tmp a s} j o t : R n args tmp a s → args !! j = Some (o, mkArg t true) → ∃ p, object_sds o s = Some (p, s) ∧ rep p t ∧ len t ≤ MAX_STRING.
Proof using Type.
  intros HR Hj. destruct (R_arg o _ HR (key_at _ _ _ _ Hj)) as (ob & Ho & Hs & Hraw & Hl). destruct (raw_read _ _ _ _ Ho Hs (Hraw eq_refl)) as (p & Ep & Hr).
  exists p. split; [|done]. unfold object_sds. rewrite Ho. bsimpl. by rewrite Ep.
Qed.

Lemma found {n args tmp a s} t o : R n args tmp a s → the_map s !! t = Some o → ∃ v, vals a !! t = Some v ∧ val_is (st_heap s) o v ∧ 0 < owner s args tmp o.
Proof using KeyTableLaws0 KeyTableLaws1. intros HR Ho. pose proof (R_lookup t HR) as Hl. by rewrite Ho in Hl. Qed.

Lemma missing {n args tmp a s} t : R n args tmp a s → the_map s !! t = None → vals a !! t = None.
Proof using KeyTableLaws0 KeyTableLaws1. intros HR Ho. pose proof (R_lookup t HR) as Hl. by rewrite Ho in Hl. Qed.

(** A message without NUL, short. *)
Ltac message := first [by repeat (apply Forall_cons; split; [done|]) | reflexivity | lia].

Lemma number_ok {n args tmp a s} o t : R n args tmp a s → val_is (st_heap s) o (VString t) → 3 ≤ n →
  returns (getLongLongFromObjectOrReply env (Some o) None) s
    (λ r s', r = text_number t ∧ match text_number t with Some _ => s' = s | None => R (n - 3) args tmp (replied not_integer a) s' ∧ st_db s' = st_db s end).
Proof using All.
  intros HR [Hs _] Hn. eapply returns_step; [unfold reads; rewrite (getLongLongFromObject_ok _ _ _ Hs); reflexivity|].
  destruct (text_number t) as [v|]; [by apply returns_ret|].
  eapply returns_bind; [refine (add_error_ok env malloc_size_bound perm _ HR _ _ Hn)|]; [message..|]. intros ? s1 HR1. by apply returns_ret.
Qed.

Lemma type_ok {n args tmp a s} o v : R n args tmp a s → val_is (st_heap s) o v → 3 ≤ n →
  returns (checkType env o REDIS_STRING) s
    (λ r s', match v with VString _ => r = false ∧ s' = s | VOther _ => r = true ∧ R (n - 3) args tmp (replied reply_wrongtype a) s' ∧ st_db s' = st_db s end).
Proof using All.
  intros HR Hv Hn. destruct (val_object _ _ _ Hv) as (ob & Ho & Ht). eapply returns_step; [unfold object; rewrite Ho; reflexivity|]. rewrite Ht.
  destruct v as [tx|type]; [by apply returns_ret|]. destruct Hv as [Hb _]. rewrite (proj2 (Z.eqb_neq _ _)) by (unfold REDIS_STRING; lia). cbn [negb].
  eapply returns_bind; [exact (add_reply_ok env malloc_size_bound perm _ _ HR (perm_wrongtype _ perm) Hn)|]. intros ? s1 HR1. by apply returns_ret.
Qed.

(** ** GET *)

Lemma lookupKeyReadOrReply_ok {n args tmp a s} key t r w : R n args tmp a s → is_key args key t → permanent h0 r w → len tmp ≤ 4 → 3 ≤ n →
  returns (lookupKeyReadOrReply env key r) s
    (λ o s', o = the_map s' !! t ∧ match o with Some _ => R n args tmp (purge t a) s' | None => R (n - 3) args tmp (replied w (purge t a)) s' end).
Proof using All.
  intros HR Hk Hr Hl Hn. eapply returns_bind; [exact (lookupKeyRead_ok _ _ _ _ (perm_del _ perm) _ _ HR Hk Hl)|]. intros o s1 [HR1 ->].
  destruct (DbSpec.the_map s1 !! t) as [o|] eqn:Eo; [eapply returns_step; [reflexivity|]; by apply returns_ret|].
  eapply returns_bind; [exact (add_reply_ok env malloc_size_bound perm _ _ HR1 Hr Hn)|]. intros _ s2 [HR2 E2]. apply returns_ret. split; [|done]. by rewrite (db_of_map _ _ E2).
Qed.

Lemma getGenericCommand_ok {n args a s} key t : R n args [] a s → args !! 1%nat = Some (key, mkArg t true) → 3 ≤ n →
  returns (getGenericCommand env) s (λ r s', R (n - 3) args [] (spec_get (e_mstime env) (e_loading env) (e_masterhost env) t a) s' ∧
    r = match vals (purge t a) !! t with Some (VOther _) => REDIS_ERR | _ => REDIS_OK end).
Proof using All.
  intros HR Hj Hn. eapply returns_step; [exact (arg_eq _ _ _ HR Hj)|].
  eapply returns_bind; [refine (lookupKeyReadOrReply_ok _ _ _ _ HR (key_at _ _ _ _ Hj) (perm_nullbulk _ perm) _ Hn); cbn; lia|]. intros o s1 [-> HR1].
  unfold spec_get. destruct (DbSpec.the_map s1 !! t) as [o|] eqn:Eo.
  - destruct (found _ _ HR1 Eo) as (v & Ev & Hv & Hown). rewrite Ev. destruct (val_object _ _ _ Hv) as (ob & Ho & Ht). eapply returns_step; [unfold object; rewrite Ho; reflexivity|]. rewrite Ht.
    destruct v as [tx|type].
    + eapply returns_bind; [exact (add_bulk_ok env malloc_size_bound perm _ _ HR1 Hv Hown Hn)|]. intros _ s2 [HR2 _]. by apply returns_ret.
    + destruct Hv as [Hb _]. rewrite (proj2 (Z.eqb_neq _ _)) by (unfold REDIS_STRING; lia). cbn [negb].
      eapply returns_bind; [exact (add_reply_ok env malloc_size_bound perm _ _ HR1 (perm_wrongtype _ perm) Hn)|]. intros _ s2 [HR2 _]. by apply returns_ret.
  - pose proof (missing t HR1 Eo) as Em. cbn [vals replied] in Em. rewrite Em. by apply returns_ret.
Qed.

(** ** SET *)

Definition name_ok (nm : text) : Prop := Forall (λ x, x ≠ 0) nm ∧ no_newline <$> nm = nm ∧ len nm ≤ 100.

Lemma present_map {n args tmp a s} t : R n args tmp a s → bool_decide (is_Some (the_map s !! t)) = present t a.
Proof using KeyTableLaws0 KeyTableLaws1.
  intros HR. unfold present. destruct (DbSpec.the_map s !! t) as [o|] eqn:Eo; [destruct (found _ _ HR Eo) as (v & -> & _)|rewrite (missing _ HR Eo)]; done.
Qed.

(** The optional argument [EX] or [PX] names. *)
Definition expire_is args (e : option addr) (et : option text) : Prop :=
  match e, et with Some o, Some t => ∃ x, (o, x) ∈ args ∧ a_text x = t | None, None => True | _, _ => False end.

Lemma milliseconds_ok {n args a s} e et unit_ : R n args [] a s → expire_is args e et → name_ok (cmd_name a) → 3 ≤ n →
  returns (match e with
    | None => mret (Some 0)
    | Some e =>
        r ← getLongLongFromObjectOrReply env (Some e) None;
        match r with
        | None => mret None
        | Some milliseconds =>
            if milliseconds <=? 0 then
              name ← gets st_cmd;
              add_error_format env 25 (str "invalid expire time in " ++ name);; mret None
            else mret (Some (if unit_ =? UNIT_SECONDS then s64 (milliseconds * 1000) else milliseconds))
        end
    end) s (λ r s', match time_to_live et unit_ a with inl a' => r = None ∧ R (n - 3) args [] a' s' | inr ms => r = Some ms ∧ R n args [] a s' end).
Proof using All.
  intros HR He (Hnz & Hnl & Hlen) Hn. destruct e as [o|], et as [t|]; try done; [|by apply returns_ret]. destruct He as (x & Hx & <-). cbn [time_to_live].
  destruct (arg_val _ _ HR Hx) as [Hv _]. eapply returns_bind; [exact (number_ok _ _ HR Hv Hn)|]. intros r s1 [-> H1].
  destruct (text_number (a_text x)) as [v|]; [|apply returns_ret; by destruct H1]. subst s1.
  destruct (v <=? 0); [|by apply returns_ret]. eapply returns_step; [reflexivity|]. rewrite (R_cmd HR).
  eapply returns_bind; [refine (add_error_format_ok env malloc_size_bound perm _ _ HR _ _ _ Hn)|].
  - apply Forall_app. split; [by repeat (apply Forall_cons; split; [done|])|done].
  - unfold fits. rewrite length_app. change (length (str "invalid expire time in ")) with 23%nat. lia.
  - lia.
  - intros ? s2 [HR2 _]. apply returns_ret. split; [done|]. rewrite fmap_app, Hnl in HR2. exact HR2.
Qed.

Lemma refused_ok {n args a s} flags key t : R n args [] a s → is_key args key t →
  returns (nx ← (if negb (Z.land flags REDIS_SET_NX =? 0) then o ← lookupKeyWrite (sh_del (e_shared2 env)) (e_mstime env) (e_loading env) (e_masterhost env) key; mret (bool_decide (is_Some o)) else mret false);
               if nx : bool then mret true
               else if negb (Z.land flags REDIS_SET_XX =? 0) then o ← lookupKeyWrite (sh_del (e_shared2 env)) (e_mstime env) (e_loading env) (e_masterhost env) key; mret (bool_decide (o = None)) else mret false) s
    (λ r s', R n args [] (refused (e_mstime env) (e_loading env) (e_masterhost env) flags t a).1 s' ∧ r = (refused (e_mstime env) (e_loading env) (e_masterhost env) flags t a).2).
Proof using perm KeyTableLaws0 KeyTableLaws1.
  intros HR Hk. unfold refused. set (nx := negb (Z.land flags REDIS_SET_NX =? 0)). set (xx := negb (Z.land flags REDIS_SET_XX =? 0)).
  apply (returns_bind _ _ _ _ (λ r s', R n args [] (if nx then purge t a else a) s' ∧ r = nx && present t (if nx then purge t a else a))).
  { destruct nx; [|by apply returns_ret]. eapply returns_bind; [refine (lookupKeyWrite_ok _ _ _ _ (perm_del _ perm) _ _ HR Hk _); cbn; lia|]. intros o s1 [HR1 ->].
    apply returns_ret. split; [done|]. exact (present_map _ HR1). }
  intros r s1 [HR1 ->]. destruct (nx && present t (if nx then purge t a else a)); [by apply returns_ret|]. destruct xx; [|by apply returns_ret].
  eapply returns_bind; [refine (lookupKeyWrite_ok _ _ _ _ (perm_del _ perm) _ _ HR1 Hk _); cbn; lia|]. intros o s2 [HR2 ->]. apply returns_ret. split; [done|].
  cbn [snd andb]. rewrite <- (present_map _ HR2). by destruct (DbSpec.the_map s2 !! t).
Qed.

Lemma setGenericCommand_ok {n args a s} flags key t val x e et unit_ ok abort wok wabort :
  R n args [] a s → is_key args key t → (val, x) ∈ args → expire_is args e et → name_ok (cmd_name a) →
  permanent h0 (default (sh_ok (e_shared2 env)) ok) wok → permanent h0 (default (sh_nullbulk (e_shared env)) abort) wabort → 4 ≤ n →
  returns (setGenericCommand env flags key val e unit_ ok abort) s
    (λ _ s', R (n - 4) args [] (set_generic (e_mstime env) (e_loading env) (e_masterhost env) flags t (a_text x) et unit_ wok wabort a) s').
Proof using All.
  intros HR Hk Hv He Hname Hok Hab Hn. unfold setGenericCommand, set_generic. eapply returns_bind; [refine (milliseconds_ok _ _ _ HR He Hname _); lia|]. intros r s1 H1.
  destruct (time_to_live et unit_ a) as [a'|ms]; [destruct H1 as [-> HR1]; apply returns_ret; refine (R_less _ HR1 _); lia|]. destruct H1 as [-> HR1].
  eapply returns_bind; [exact (refused_ok flags _ _ HR1 Hk)|]. intros r s2 [HR2 ->]. destruct (refused _ _ _ flags t a) as [a2 no]. cbn [fst snd] in *. destruct no.
  - eapply returns_mono; [refine (add_reply_ok env malloc_size_bound perm _ _ HR2 Hab _); lia|]. intros ? s3 [HR3 _]. refine (R_less _ HR3 _). lia.
  - unfold store. eapply returns_bind; [refine (setKey_ok _ _ _ _ (perm_del _ perm) _ _ _ _ HR2 Hk Hv _ _); cbn; lia|]. intros ? s3 HR3.
    eapply returns_bind; [exact (dirty_ok 1 HR3)|]. intros ? s4 [HR4 _].
    destruct e as [eo|], et as [tt'|]; try done.
    + eapply returns_bind; [refine (setExpire_ok _ _ _ HR4 Hk _); cbn; rewrite lookup_insert_eq; by eexists|]. intros ? s5 [HR5 _].
      eapply returns_bind; [exact (notify_ok _ _ _ _ HR5 Hk)|]. intros ? s6 [HR6 _]. eapply returns_bind; [exact (notify_ok _ _ _ _ HR6 Hk)|]. intros ? s7 [HR7 _].
      eapply returns_mono; [refine (add_reply_ok env malloc_size_bound perm _ _ HR7 Hok _); lia|]. intros ? s8 [HR8 _]. refine (R_less _ HR8 _). lia.
    + eapply returns_step; [reflexivity|]. eapply returns_bind; [exact (notify_ok _ _ _ _ HR4 Hk)|]. intros ? s6 [HR6 _]. eapply returns_step; [reflexivity|].
      eapply returns_mono; [refine (add_reply_ok env malloc_size_bound perm _ _ HR6 Hok _); lia|]. intros ? s8 [HR8 _]. refine (R_less _ HR8 _). lia.
Qed.

Lemma mget_at1 x y (m : text) : mget (x :: y :: m) 1 = Some y.
Proof using Type. by apply (mget_app [x]). Qed.
Lemma mget_at2 x y z (m : text) : mget (x :: y :: z :: m) 2 = Some z.
Proof using Type. by apply (mget_app [x; y]). Qed.

Lemma is_word_ok p t x y : rep p t → 32 < x → 32 < y → is_word (buf p) x y = Some (word t x y).
Proof using Type.
  intros (r & -> & _) Hx Hy. cbn [buf]. destruct (until_nul_spec t r) as (r' & -> & Hnz). unfold is_word, word.
  destruct (until_nul t) as [|a0 l]; cbn [app]; [rewrite mget_head; bsimpl; rewrite !(proj2 (Z.eqb_neq 0 _)) by lia; done|].
  rewrite mget_head. bsimpl. apply Forall_cons in Hnz as [H0 Hnz]. destruct ((a0 =? x) || (a0 =? x - 32)) eqn:E0.
  2:{ destruct l as [|a1 [|a2 l]]; done. }
  destruct l as [|a1 l]; cbn [app].
  { rewrite mget_at1. bsimpl. rewrite !(proj2 (Z.eqb_neq 0 _)) by lia. done. }
  rewrite mget_at1. bsimpl. cbn [andb]. destruct ((a1 =? y) || (a1 =? y - 32)); [|by destruct l].
  apply Forall_cons in Hnz as [H1 Hnz]. destruct l as [|a2 l]; cbn [app].
  - rewrite mget_at2. done.
  - rewrite mget_at2. bsimpl. apply Forall_cons in Hnz as [H2 _]. by rewrite (proj2 (Z.eqb_neq a2 0)).
Qed.

Definition all_raw args : Prop := Forall (λ p, a_raw p.2 = true) args.

Lemma raw_at args j o x : all_raw args → args !! j = Some (o, x) → x = mkArg (a_text x) true.
Proof using Type. intros Hr Hj. unfold all_raw in Hr. rewrite Forall_lookup in Hr. pose proof (Hr j _ Hj) as E1. cbn in E1. destruct x as [t r]. cbn in *. by subst. Qed.

Lemma texts_drop args j o x : args !! j = Some (o, x) → drop j (texts args) = a_text x :: drop (S j) (texts args).
Proof using Type. intros Hj. apply drop_S. unfold texts. by rewrite !list_lookup_fmap, Hj. Qed.

Lemma texts_len args : length (texts args) = length args.
Proof using Type. unfold texts. by rewrite !length_fmap. Qed.

(** The option argument, further than the value. *)
Definition option_is args (e : option addr) (et : option text) : Prop :=
  match e, et with Some o, Some t => ∃ i x, (3 < i)%nat ∧ args !! i = Some (o, x) ∧ a_text x = t | None, None => True | _, _ => False end.

Lemma set_options_ok {n args a s} : R n args [] a s → all_raw args → 3 ≤ n →
  ∀ fuel j flags e et unit_, (length args ≤ fuel + j)%nat → (3 ≤ j)%nat → option_is args e et →
  returns (set_options env fuel j flags e unit_) s (λ r s',
    match options (drop j (texts args)) flags et unit_ with
    | None => r = None ∧ R (n - 3) args [] (replied reply_syntax a) s'
    | Some (f, et', u) => s' = s ∧ ∃ e', r = Some (f, e', u) ∧ option_is args e' et'
    end).
Proof using All.
  intros HR Hraw Hn fuel. induction fuel as [fuel IH] using lt_wf_ind. intros j flags e et unit_ Hf Hj He.
  destruct fuel as [|fuel]; cbn [set_options]; (eapply returns_step; [exact (argc_eq HR)|]).
  { rewrite (proj2 (Z.ltb_ge _ _)) by lia. apply returns_ret. rewrite drop_ge by (rewrite texts_len; lia). cbn. split; [done|]. by exists e. }
  destruct (Z.ltb_spec (Z.of_nat j) (len args)) as [Hlt|Hge].
  2:{ apply returns_ret. rewrite drop_ge by (rewrite texts_len; lia). cbn. split; [done|]. by exists e. }
  destruct (lookup_lt_is_Some_2 args j) as [[o x] Ej]; [lia|]. pose proof (raw_at _ _ _ _ Hraw Ej) as Ex. rewrite Ex in Ej.
  destruct (arg_sds j o _ HR Ej) as (p & Ep & Hp & _). eapply returns_step; [exact (arg_eq _ _ _ HR Ej)|]. eapply returns_step; [exact Ep|].
  rewrite (texts_drop _ _ _ _ Ej). cbn [a_text].
  assert ((if Z.of_nat j =? len args - 1 then mret None else o0 ← arg (S j); mret (Some o0)) s = Some (fst <$> args !! S j, s)) as Enext.
  { destruct (Z.eqb_spec (Z.of_nat j) (len args - 1)) as [El|El]; [rewrite lookup_ge_None_2 by lia; done|].
    destruct (lookup_lt_is_Some_2 args (S j)) as [[o' x'] Ej']; [lia|]. unfold mbind, cmd_bind. rewrite (arg_eq _ _ _ HR Ej'), Ej'. done. }
  eapply returns_step; [exact Enext|]. eapply returns_step; [unfold lift; rewrite (is_word_ok p _ _ _ Hp) by lia; reflexivity|]. cbn [options].
  destruct (word (a_text x) 110 120); [apply IH; [lia|lia|lia|done]|].
  eapply returns_step; [unfold lift; rewrite (is_word_ok p _ _ _ Hp) by lia; reflexivity|]. destruct (word (a_text x) 120 120); [apply IH; [lia|lia|lia|done]|].
  eapply returns_step; [unfold lift; rewrite (is_word_ok p _ _ _ Hp) by lia; reflexivity|].
  destruct (args !! S j) as [[o' x']|] eqn:Ej'.
  - rewrite (texts_drop _ _ _ _ Ej'). cbn [fmap option_fmap option_map fst].
    assert (option_is args (Some o') (Some (a_text x'))) as He' by (exists (S j), x'; split; [lia|done]).
    destruct (word (a_text x) 101 120); [apply IH; [lia|lia|lia|done]|].
    eapply returns_step; [unfold lift; rewrite (is_word_ok p _ _ _ Hp) by lia; reflexivity|]. destruct (word (a_text x) 112 120); [apply IH; [lia|lia|lia|done]|].
    eapply returns_bind; [exact (add_reply_ok env malloc_size_bound perm _ _ HR (perm_syntax _ perm) Hn)|]. intros ? s1 [HR1 _]. by apply returns_ret.
  - rewrite drop_ge by (rewrite texts_len; by apply lookup_ge_None). cbn [fmap option_fmap option_map].
    destruct (word (a_text x) 101 120); (eapply returns_step; [unfold lift; rewrite (is_word_ok p _ _ _ Hp) by lia; reflexivity|]); destruct (word (a_text x) 112 120);
      (eapply returns_bind; [exact (add_reply_ok env malloc_size_bound perm _ _ HR (perm_syntax _ perm) Hn)|]; intros ? s1 [HR1 _]; by apply returns_ret).
Qed.

(** ** The commands that set *)

Lemma texts_set args j o x o' : args !! j = Some (o, x) → texts (<[j := (o', mkArg (a_text x) false)]> args) = texts args.
Proof using Type. intros Hj. unfold texts. rewrite !list_fmap_insert. cbn [snd a_text]. apply list_insert_id. by rewrite !list_lookup_fmap, Hj. Qed.

Lemma set_at args j o x o' : args !! j = Some (o, x) → (<[j := (o', mkArg (a_text x) false)]> args) !! j = Some (o', mkArg (a_text x) false).
Proof using Type. intros Hj. apply list_lookup_insert_eq. by eapply lookup_lt_Some. Qed.

Lemma set_other args j i y p : args !! i = Some p → i ≠ j → <[j := y]> args !! i = Some p.
Proof using Type. intros Hi Hne. by rewrite list_lookup_insert_ne. Qed.

Lemma cost_set args j y : cost (<[j := y]> args) = cost args.
Proof using Type. unfold cost. by rewrite length_insert. Qed.

(** After the value was encoded. *)
Lemma leaves_set {n' args a s'} n j o x o' a' u : R n' (<[j := (o', mkArg (a_text x) false)]> args) [] a' s' → args !! j = Some (o, x) → 0 ≤ n - cost args ≤ n' → a = a' →
  leaves n args (texts args) a u s'.
Proof using Type. intros HR Hj Hn ->. eexists. split; [refine (R_less _ HR _); lia|]. by eapply texts_set. Qed.

#[local] Abbreviation set_generic := (set_generic (e_mstime env) (e_loading env) (e_masterhost env)).

Lemma setCommand_ok {n args a s} key k val v : R n args [] a s → all_raw args → args !! 1%nat = Some (key, k) → args !! 2%nat = Some (val, v) → name_ok (cmd_name a) → cost args ≤ n →
  returns (setCommand env) s (leaves n args (texts args) (spec_set (e_mstime env) (e_loading env) (e_masterhost env) (a_text k) (a_text v) (drop 3 (texts args)) a)).
Proof using All.
  intros HR Hraw H1 H2 Hname Hn. unfold cost in Hn. eapply returns_step; [exact (argc_eq HR)|].
  eapply returns_bind; [refine (set_options_ok HR Hraw _ (Z.to_nat (len args)) 3 REDIS_SET_NO_FLAGS None None UNIT_SECONDS _ _ _); [lia|lia|lia|done]|].
  intros r s1 Hr. unfold spec_set. destruct (options _ _ _ _) as [[[flags et] unit_]|].
  2:{ destruct Hr as [-> HR1]. apply returns_ret. apply (leaves_same _ _ _ HR1); unfold cost; [lia|done]. }
  destruct Hr as (-> & e & -> & He). eapply returns_bind; [exact (encode_arg_ok env perm 2 val v HR H2)|]. intros ? s2 (val' & HR2 & _).
  pose proof (raw_at _ _ _ _ Hraw H1) as Ek. rewrite Ek in H1.
  assert (<[2%nat := (val', mkArg (a_text v) false)]> args !! 1%nat = Some (key, mkArg (a_text k) true)) as H1' by (by apply set_other).
  eapply returns_step; [exact (arg_eq _ _ _ HR2 H1')|]. eapply returns_step; [exact (arg_eq _ _ _ HR2 (set_at _ _ _ _ _ H2))|].
  eapply returns_mono; [refine (setGenericCommand_ok flags key (a_text k) val' _ e et unit_ None None _ _ HR2 (key_at _ _ _ _ H1') _ _ Hname (perm_ok _ perm) (perm_nullbulk _ perm) _)|].
  - apply list_elem_of_lookup. exists 2%nat. exact (set_at _ _ _ _ _ H2).
  - destruct e as [o|], et as [t|]; try done. destruct He as (i & x & Hi & Hx & Et). exists x. split; [|done]. apply list_elem_of_lookup. exists i. apply set_other; [done|lia].
  - lia.
  - intros ? s3 HR3. cbn [a_text] in HR3. apply (leaves_set _ _ _ _ _ _ _ HR3 H2); unfold cost; [lia|done].
Qed.

Lemma setnxCommand_ok {n args a s} key k val v : R n args [] a s → all_raw args → args !! 1%nat = Some (key, k) → args !! 2%nat = Some (val, v) → name_ok (cmd_name a) → cost args ≤ n →
  returns (setnxCommand env) s (leaves n args (texts args) (set_generic REDIS_SET_NX (a_text k) (a_text v) None 0 (reply_int 1) (reply_int 0) a)).
Proof using All.
  intros HR Hraw H1 H2 Hname Hn. unfold cost in Hn. eapply returns_bind; [exact (encode_arg_ok env perm 2 val v HR H2)|]. intros ? s2 (val' & HR2 & _).
  rewrite (raw_at _ _ _ _ Hraw H1) in H1. pose proof (set_other _ 2 1 (val', mkArg (a_text v) false) _ H1 ltac:(lia)) as H1'.
  eapply returns_step; [exact (arg_eq _ _ _ HR2 H1')|]. eapply returns_step; [exact (arg_eq _ _ _ HR2 (set_at _ _ _ _ _ H2))|].
  eapply returns_mono; [refine (setGenericCommand_ok REDIS_SET_NX key (a_text k) val' _ None None 0 (Some (sh_cone (e_shared env))) (Some (sh_czero (e_shared env))) _ _
    HR2 (key_at _ _ _ _ H1') (list_elem_of_lookup_2 _ _ _ (set_at _ _ _ _ _ H2)) I Hname (perm_cone _ perm) (perm_czero _ perm) _); lia|].
  intros ? s3 HR3. apply (leaves_set _ _ _ _ _ _ _ HR3 H2); unfold cost; [lia|done].
Qed.

Lemma setex_ok {n args a s} unit_ key k tm (t : argument) val v : R n args [] a s → all_raw args → args !! 1%nat = Some (key, k) → args !! 2%nat = Some (tm, t) → args !! 3%nat = Some (val, v) → name_ok (cmd_name a) → cost args ≤ n →
  returns (encode_arg env 3;; key ← arg 1; val ← arg 3; e ← arg 2; setGenericCommand env REDIS_SET_NO_FLAGS key val (Some e) unit_ None None) s
    (leaves n args (texts args) (set_generic REDIS_SET_NO_FLAGS (a_text k) (a_text v) (Some (a_text t)) unit_ reply_ok reply_nil a)).
Proof using All.
  intros HR Hraw H1 H2 H3 Hname Hn. unfold cost in Hn. eapply returns_bind; [exact (encode_arg_ok env perm 3 val v HR H3)|]. intros ? s2 (val' & HR2 & _).
  rewrite (raw_at _ _ _ _ Hraw H1) in H1. pose proof (set_other _ 3 1 (val', mkArg (a_text v) false) _ H1 ltac:(lia)) as H1'.
  pose proof (set_other _ 3 2 (val', mkArg (a_text v) false) _ H2 ltac:(lia)) as H2'.
  eapply returns_step; [exact (arg_eq _ _ _ HR2 H1')|]. eapply returns_step; [exact (arg_eq _ _ _ HR2 (set_at _ _ _ _ _ H3))|]. eapply returns_step; [exact (arg_eq _ _ _ HR2 H2')|].
  eapply returns_mono; [refine (setGenericCommand_ok REDIS_SET_NO_FLAGS key (a_text k) val' _ (Some tm) (Some (a_text t)) unit_ None None _ _
    HR2 (key_at _ _ _ _ H1') (list_elem_of_lookup_2 _ _ _ (set_at _ _ _ _ _ H3)) _ Hname (perm_ok _ perm) (perm_nullbulk _ perm) _); [exists t; split; [by eapply list_elem_of_lookup_2|done]|lia]|].
  intros ? s3 HR3. apply (leaves_set _ _ _ _ _ _ _ HR3 H3); unfold cost; [lia|done].
Qed.

Lemma getsetCommand_ok {n args a s} key k val v : R n args [] a s → all_raw args → args !! 1%nat = Some (key, k) → args !! 2%nat = Some (val, v) → cost args ≤ n →
  returns (getsetCommand env) s (leaves n args (texts args) (spec_getset (e_mstime env) (e_loading env) (e_masterhost env) (a_text k) (a_text v) a)).
Proof using All.
  intros HR Hraw H1 H2 Hn. unfold cost in Hn. rewrite (raw_at _ _ _ _ Hraw H1) in H1.
  eapply returns_bind; [refine (getGenericCommand_ok _ _ HR H1 _); lia|]. intros r s1 [HR1 ->]. unfold spec_getset.
  assert (vals (spec_get (e_mstime env) (e_loading env) (e_masterhost env) (a_text k) a) = vals (purge (a_text k) a)) as Ev by reflexivity. rewrite Ev.
  destruct (vals (purge (a_text k) a) !! a_text k) as [[tx|type]|] eqn:Eo; [|apply returns_ret; apply (leaves_same _ _ _ HR1); unfold cost; [lia|done]|].
  all: (eapply returns_bind; [exact (encode_arg_ok env perm 2 val v HR1 H2)|]; intros ? s2 (val' & HR2 & _);
    pose proof (set_other _ 2 1 (val', mkArg (a_text v) false) _ H1 ltac:(lia)) as H1';
    eapply returns_step; [exact (arg_eq _ _ _ HR2 H1')|]; eapply returns_step; [exact (arg_eq _ _ _ HR2 (set_at _ _ _ _ _ H2))|];
    eapply returns_bind; [refine (setKey_ok _ _ _ _ (perm_del _ perm) _ _ _ _ HR2 (key_at _ _ _ _ H1') (list_elem_of_lookup_2 _ _ _ (set_at _ _ _ _ _ H2)) _ _); cbn; lia|]; intros ? s3 HR3;
    eapply returns_bind; [exact (notify_ok _ _ _ _ HR3 (key_at _ _ _ _ H1'))|]; intros ? s4 [HR4 _];
    eapply returns_mono; [exact (dirty_ok 1 HR4)|]; intros ? s5 [HR5 _]; apply (leaves_set _ _ _ _ _ _ _ HR5 H2); unfold cost; [lia|done]).
Qed.

(** ** Reading *)

Lemma getCommand_ok {n args a s} key k : R n args [] a s → all_raw args → args !! 1%nat = Some (key, k) → cost args ≤ n →
  returns (getCommand env) s (leaves n args (texts args) (spec_get (e_mstime env) (e_loading env) (e_masterhost env) (a_text k) a)).
Proof using All.
  intros HR Hraw Hj Hn. rewrite (raw_at _ _ _ _ Hraw Hj) in Hj. unfold cost in Hn. eapply returns_bind; [refine (getGenericCommand_ok _ _ HR Hj _); lia|]. intros r s1 [HR1 _]. apply returns_ret.
  by apply (leaves_same _ _ _ HR1); unfold cost; [lia|].
Qed.

Lemma strlenCommand_ok {n args a s} key k : R n args [] a s → all_raw args → args !! 1%nat = Some (key, k) → cost args ≤ n →
  returns (strlenCommand env) s (leaves n args (texts args) (spec_strlen (e_mstime env) (e_loading env) (e_masterhost env) (a_text k) a)).
Proof using All.
  intros HR Hraw H1 Hn. unfold cost in Hn. rewrite (raw_at _ _ _ _ Hraw H1) in H1. eapply returns_step; [exact (arg_eq _ _ _ HR H1)|].
  eapply returns_bind; [refine (lookupKeyReadOrReply_ok _ _ _ _ HR (key_at _ _ _ _ H1) (perm_czero _ perm) _ _); cbn; lia|]. intros o s1 [-> HR1]. unfold spec_strlen.
  destruct (DbSpec.the_map s1 !! a_text k) as [o|] eqn:Eo.
  - destruct (found _ _ HR1 Eo) as (v & Ev & Hv & Hown). rewrite Ev. eapply returns_bind; [refine (type_ok _ _ HR1 Hv _); lia|]. intros r s2 Hr. destruct v as [tx|type].
    + destruct Hr as [-> ->]. destruct Hv as [Hs Hl]. eapply returns_step; [unfold reads; rewrite (stringObjectLen_ok _ _ _ _ Hs); reflexivity|].
      eapply returns_mono; [refine (add_long_ok env malloc_size_bound perm _ HR1 _ _); [unfold LLONG_MIN, LLONG_MAX, MAX_STRING in *; lia|lia]|]. intros ? s3 [HR3 _].
      apply (leaves_same _ _ _ HR3); unfold cost; [lia|done].
    + destruct Hr as (-> & HR2 & _). apply returns_ret. apply (leaves_same _ _ _ HR2); unfold cost; [lia|done].
  - pose proof (missing _ HR1 Eo) as Em. cbn [vals replied] in Em. rewrite Em. apply returns_ret. apply (leaves_same _ _ _ HR1); unfold cost; [lia|done].
Qed.

(** The bytes of a value, printed if it is an integer. *)
Lemma value_bytes s o (tx : text) ob : st_heap s !! o = Some ob → obj_says ob tx →
  ∃ r, (if oencoding ob =? REDIS_ENCODING_INT then v ← lift (olong ob); lift (print_long junk 32 v) else p ← lift (osds ob); mret (buf p, sdslen p)) s = Some ((tx ++ r, len tx), s).
Proof using Type.
  intros Ho (Ht & Hr & Hp). destruct (ptr ob) as [p|v| |] eqn:Ep; [| |done..].
  - destruct Hp as [-> (r & -> & _)]. change (REDIS_ENCODING_RAW =? REDIS_ENCODING_INT) with false. cbv iota. exists (0 :: r). unfold osds, mbind, cmd_bind, lift. by rewrite Ep.
  - destruct Hp as (-> & Hv & Hd). change (REDIS_ENCODING_INT =? REDIS_ENCODING_INT) with true. cbv iota.
    destruct (print_long_ok junk 32 v ltac:(lia) Hv) as (t' & r & Epr & Hd' & _). rewrite (decimal_repr_unique v t' tx) in Epr by done. exists (0 :: r).
    unfold olong, mbind, cmd_bind, lift. rewrite Ep. cbn. rewrite Epr. done.
Qed.

(** The arithmetic of [GETRANGE]. *)
Lemma getrange_bounds n start end_ : 0 ≤ n ≤ MAX_STRING → LLONG_MIN ≤ start ≤ LLONG_MAX → LLONG_MIN ≤ end_ ≤ LLONG_MAX →
  let start' := if start <? 0 then s64 (u64 (n + start)) else start in
  let end' := if end_ <? 0 then s64 (u64 (n + end_)) else end_ in
  let start' := if start' <? 0 then 0 else start' in
  let end' := if end' <? 0 then 0 else end' in
  let end' := if u64 end' >=? n then s64 (u64 (n - 1)) else end' in
  start' = Z.max 0 (if start <? 0 then n + start else start) ∧
  end' = Z.min (n - 1) (Z.max 0 (if end_ <? 0 then n + end_ else end_)).
Proof using Type.
  unfold MAX_STRING, LLONG_MIN, LLONG_MAX. intros Hn Hs He. cbv zeta.
  assert (∀ x, - 2 ^ 63 ≤ x < 2 ^ 63 → s64 (u64 x) = x) as Hw by (intros x Hx; rewrite swrap_uwrap_wide by lia; apply swrap_small; lia).
  assert (∀ x, - 2 ^ 63 ≤ x ≤ 2 ^ 63 - 1 → (if x <? 0 then s64 (u64 (n + x)) else x) = if x <? 0 then n + x else x) as H1.
  { intros x Hx. destruct (Z.ltb_spec x 0); [apply Hw; lia|done]. }
  rewrite !H1 by lia. set (e := if end_ <? 0 then n + end_ else end_). assert (- 2 ^ 63 ≤ e < 2 ^ 63) as Hb by (unfold e; destruct (Z.ltb_spec end_ 0); lia).
  set (st := if start <? 0 then n + start else start). split; [destruct (Z.ltb_spec st 0); lia|].
  replace (if e <? 0 then 0 else e) with (Z.max 0 e) by (destruct (Z.ltb_spec e 0); lia). rewrite uwrap_small by lia. rewrite Z.geb_leb.
  destruct (Z.leb_spec n (Z.max 0 e)); [rewrite Hw by lia|]; lia.
Qed.

Lemma getrange_bulk t start end_ : LLONG_MIN ≤ start ≤ LLONG_MAX → LLONG_MIN ≤ end_ ≤ LLONG_MAX →
  let start' := Z.max 0 (if start <? 0 then len t + start else start) in
  let end' := Z.min (len t - 1) (Z.max 0 (if end_ <? 0 then len t + end_ else end_)) in
  ((start' >? end') || (len t =? 0) = true → substring t start end_ = []) ∧
  ((start' >? end') || (len t =? 0) = false → len (substring t start end_) = end' - start' + 1 ∧ ∀ r, ∃ r', drop (Z.to_nat start') (t ++ r) = substring t start end_ ++ r').
Proof using Type.
  intros Hs He. cbv zeta. unfold substring. set (s' := Z.max 0 (if start <? 0 then len t + start else start)).
  set (e' := Z.min (len t - 1) (Z.max 0 (if end_ <? 0 then len t + end_ else end_))). assert (0 ≤ s' ∧ -1 ≤ e' ≤ len t - 1) as [Hs' He'] by lia. split; intros Hc.
  - apply orb_true_iff in Hc as [Hc|Hc]; [|apply Z.eqb_eq in Hc; destruct t; [by rewrite drop_nil, take_nil|cbn [length] in Hc; lia]].
    rewrite Z.gtb_lt in Hc. replace (Z.to_nat (e' - s' + 1)) with 0%nat by lia. done.
  - apply orb_false_iff in Hc as [Hc Hz]. rewrite Z.gtb_ltb in Hc. apply Z.ltb_ge in Hc. apply Z.eqb_neq in Hz. split.
    + rewrite length_take, length_drop. lia.
    + intros r. exists (drop (Z.to_nat (e' - s' + 1)) (drop (Z.to_nat s') t) ++ r). rewrite app_assoc, take_drop. rewrite drop_app_le by lia. done.
Qed.

Lemma text_number_range t n : text_number t = Some n → LLONG_MIN ≤ n ≤ LLONG_MAX.
Proof using Type.
  unfold text_number. destruct (until_nul t) as [|x l]; [intros [= <-]; by unfold LLONG_MIN, LLONG_MAX|]. cbv zeta. destruct (_ && forallb _ _); [|done].
  destruct (_ && _) eqn:Ec; [|done]. intros [= <-]. apply andb_true_iff in Ec as [H1 H2]. apply Z.leb_le in H1, H2. done.
Qed.

Lemma getrangeCommand_ok {n args a s} key k o2 (t1 : argument) o3 (t2 : argument) : R n args [] a s → all_raw args → args !! 1%nat = Some (key, k) → args !! 2%nat = Some (o2, t1) → args !! 3%nat = Some (o3, t2) → cost args ≤ n →
  returns (getrangeCommand env) s (leaves n args (texts args) (spec_getrange (e_mstime env) (e_loading env) (e_masterhost env) (a_text k) (a_text t1) (a_text t2) a)).
Proof using All.
  intros HR Hraw H1 H2 H3 Hn. unfold cost in Hn. rewrite (raw_at _ _ _ _ Hraw H1) in H1. eapply returns_step; [exact (arg_eq _ _ _ HR H1)|].
  eapply returns_step; [exact (arg_eq _ _ _ HR H2)|]. eapply returns_step; [exact (arg_eq _ _ _ HR H3)|].
  destruct (arg_at _ _ _ HR H2) as [Hv2 _]. destruct (arg_at _ _ _ HR H3) as [Hv3 _]. unfold spec_getrange.
  eapply returns_bind; [refine (number_ok _ _ HR Hv2 _); lia|]. intros r s1 [-> Hr1]. destruct (text_number (a_text t1)) as [start|] eqn:Es.
  2:{ destruct Hr1 as [HR1 _]. apply returns_ret. apply (leaves_same _ _ _ HR1); unfold cost; [lia|done]. }
  subst s1. eapply returns_bind; [refine (number_ok _ _ HR Hv3 _); lia|]. intros r s1 [-> Hr1]. destruct (text_number (a_text t2)) as [end_|] eqn:Ee.
  2:{ destruct Hr1 as [HR1 _]. apply returns_ret. apply (leaves_same _ _ _ HR1); unfold cost; [lia|done]. }
  subst s1. apply text_number_range in Es, Ee.
  eapply returns_bind; [refine (lookupKeyReadOrReply_ok _ _ _ _ HR (key_at _ _ _ _ H1) (perm_emptybulk _ perm) _ _); cbn; lia|]. intros o s1 [-> HR1].
  destruct (DbSpec.the_map s1 !! a_text k) as [o|] eqn:Eo.
  2:{ pose proof (missing _ HR1 Eo) as Em. cbn [vals replied] in Em. rewrite Em. apply returns_ret. apply (leaves_same _ _ _ HR1); unfold cost; [lia|done]. }
  destruct (found _ _ HR1 Eo) as (v & Ev & Hv & Hown). rewrite Ev. eapply returns_bind; [refine (type_ok _ _ HR1 Hv _); lia|]. intros r s2 Hr. destruct v as [tx|type].
  2:{ destruct Hr as (-> & HR2 & _). apply returns_ret. apply (leaves_same _ _ _ HR2); unfold cost; [lia|done]. }
  destruct Hr as [-> ->]. destruct Hv as [(ob & Ho & Hs) Hl]. eapply returns_step; [unfold object; rewrite Ho; reflexivity|].
  destruct (value_bytes s1 o tx ob Ho Hs) as (r & Eb). eapply returns_step; [exact Eb|]. cbv beta iota zeta.
  pose proof (getrange_bounds (len tx) start end_ ltac:(lia) Es Ee) as [-> ->]. destruct (getrange_bulk tx start end_ Es Ee) as [Hempty Hsub]. cbv zeta in Hempty, Hsub.
  destruct (_ || (len tx =? 0)) eqn:Ec.
  - rewrite (Hempty eq_refl). eapply returns_mono; [refine (add_reply_ok env malloc_size_bound perm _ _ HR1 (perm_emptybulk _ perm) _); lia|]. intros ? s3 [HR3 _].
    apply (leaves_same _ _ _ HR3); unfold cost; [lia|done].
  - destruct (Hsub eq_refl) as [Hlen Hdrop]. destruct (Hdrop r) as (r' & ->). rewrite <- Hlen.
    eapply returns_mono; [refine (add_buffer_ok env malloc_size_bound perm _ _ HR1 _ _); [|lia]|].
    + unfold substring. rewrite length_take, length_drop. lia.
    + intros ? s3 [HR3 _]. apply (leaves_same _ _ _ HR3); unfold cost; [lia|done].
Qed.

(** ** Writing parts *)

Lemma length_ok {n args tmp a s} size : R n args tmp a s → 3 ≤ n →
  returns (checkStringLength env size) s (λ r s', if size >? MAX_STRING then r = false ∧ R (n - 3) args tmp (replied too_long a) s' ∧ st_db s' = st_db s else r = true ∧ s' = s).
Proof using All.
  intros HR Hn. unfold checkStringLength. change (512 * 1024 * 1024) with MAX_STRING. destruct (size >? MAX_STRING); [|by apply returns_ret].
  eapply returns_bind; [refine (add_error_ok env malloc_size_bound perm _ HR _ _ Hn)|]; [message..|]. intros ? s1 HR1. by apply returns_ret.
Qed.

(** The value changed: watchers, notifications, the count of changes. *)
Lemma wrote_ok {n args a s} key t ev len_ : R n args [] a s → is_key args key t → LLONG_MIN ≤ len_ ≤ LLONG_MAX → 3 ≤ n →
  returns (signalModifiedKey key;; notifyKeyspaceEvent REDIS_NOTIFY_STRING ev key;; add_dirty 1;; add_long env len_) s
    (λ _ s', R (n - 3) args [] (wrote t ev (reply_int len_) a) s').
Proof using All.
  intros HR Hk Hb Hn. eapply returns_bind; [exact (signal_ok _ _ HR Hk)|]. intros ? s1 [HR1 _]. eapply returns_bind; [exact (notify_ok _ _ _ _ HR1 Hk)|]. intros ? s2 [HR2 _].
  eapply returns_bind; [exact (dirty_ok 1 HR2)|]. intros ? s3 [HR3 _]. eapply returns_mono; [exact (add_long_ok env malloc_size_bound perm _ HR3 Hb Hn)|]. by intros ? s4 [HR4 _].
Qed.

Lemma put_put t v1 v2 a : put_val t v2 (put_val t v1 a) = put_val t v2 a.
Proof using Type. unfold put_val, set_vals. cbn. by rewrite insert_insert_eq. Qed.

Lemma own_sds s t o tx : own_string s t o tx → ∃ p, object_sds o s = Some (p, s) ∧ rep p tx ∧ the_map s !! t = Some o.
Proof using Type. intros (Hm & ob & p & Ho & _ & _ & _ & Hp & Hr). exists p. unfold object_sds, osds. rewrite Ho. cbn. rewrite Hp. done. Qed.

(** What the first half of [APPEND] and [SETRANGE] leaves: the reply was given,
    or the new value is there and its length known. *)
Definition half args n key k a1 a' ev (r : option Z) s' : Prop :=
  match r with
  | None => leaves n args (texts args) a' tt s'
  | Some z => ∃ args' new, z = len new ∧ len new ≤ MAX_STRING ∧ R (n - 1) args' [] (put_val k (VString new) a1) s' ∧ texts args' = texts args ∧ len args' = len args ∧
      is_key args' key k ∧ a' = wrote k ev (reply_int (len new)) (put_val k (VString new) a1)
  end.

Lemma half_ok {n args a1 a' ev s} key k z : half args n key k a1 a' ev (Some z) s → cost args ≤ n →
  returns (signalModifiedKey key;; notifyKeyspaceEvent REDIS_NOTIFY_STRING ev key;; add_dirty 1;; add_long env z) s (leaves n args (texts args) a').
Proof using All.
  intros (args' & new & -> & Hl & HR & Ht & Hla & Hk & ->) Hn. unfold cost in *.
  eapply returns_mono; [refine (wrote_ok _ _ ev _ HR Hk _ _); [unfold LLONG_MIN, LLONG_MAX, MAX_STRING in *; lia|lia]|].
  intros ? s1 HR1. exists args'. split; [|done]. refine (R_less _ HR1 _). unfold cost. lia.
Qed.

Lemma append_missing {n args a s} key k val v : R n args [] a s → args !! 1%nat = Some (key, mkArg k true) → args !! 2%nat = Some (val, v) → vals a !! k = None → cost args ≤ n →
  returns (encode_arg env 2;; val ← arg 2; dbAdd key val;; upd_heap (λ h, incrRefCount h val);; n ← reads (λ h, stringObjectLen junk h val); mret (Some n)) s
    (half args n key k a (wrote k (str "append") (reply_int (len (a_text v))) (put_val k (VString (a_text v)) a)) (str "append")).
Proof using All.
  intros HR H1 H2 Hm Hn. unfold cost in Hn. eapply returns_bind; [exact (encode_arg_ok env perm 2 val v HR H2)|]. intros ? s2 (val' & HR2 & _).
  pose proof (set_other _ 2 1 (val', mkArg (a_text v) false) _ H1 ltac:(lia)) as H1'. pose proof (set_at _ _ _ _ val' H2) as H2'.
  eapply returns_step; [exact (arg_eq _ _ _ HR2 H2')|]. apply returns_assoc.
  eapply returns_bind; [refine (add_incr_ok _ _ _ _ HR2 (key_at _ _ _ _ H1') (list_elem_of_lookup_2 _ _ _ H2') Hm _ _); cbn; lia|]. cbn [a_text]. intros ? s3 HR3.
  destruct (arg_at _ _ _ HR3 H2') as [[Hs Hl] _]. cbn [a_text] in *. eapply returns_step; [unfold reads; rewrite (stringObjectLen_ok _ _ _ _ Hs); reflexivity|]. apply returns_ret.
  eexists _, (a_text v). split; [done|]. split; [done|]. split; [exact HR3|]. split; [by eapply texts_set|]. split; [by rewrite length_insert|]. split; [|done]. by eapply key_at.
Qed.

Lemma append_found {n args a s} key k val v o tx : R n args [] a s → args !! 1%nat = Some (key, mkArg k true) → args !! 2%nat = Some (val, mkArg v true) →
  the_map s !! k = Some o → vals a !! k = Some (VString tx) → cost args ≤ n →
  returns (append ← arg 2;
        olen ← reads (λ h, stringObjectLen junk h o);
        p ← object_sds append;
        ok ← checkStringLength env (s64 (u64 (olen + sdslen p)));
        if ok : bool then
          o ← dbUnshareStringValue junk key o;
          p ← object_sds append;
          q ← object_sds o;
          q ← lift (sdscatlen junk q (buf p) (sdslen p));
          upd_heap (λ h, ob ← h !! o; Some (<[o := set_ptr ob (PtrSds q)]> h));;
          mret (Some (sdslen q))
        else mret None) s
    (half args n key k a (if len tx + len v >? MAX_STRING then replied too_long a else wrote k (str "append") (reply_int (len (tx ++ v))) (put_val k (VString (tx ++ v)) a)) (str "append")).
Proof using All.
  intros HR H1 H2 Hm Hv Hn. unfold cost in Hn. eapply returns_step; [exact (arg_eq _ _ _ HR H2)|].
  destruct (found _ _ HR Hm) as (w & Ew & Hval & _). rewrite Hv in Ew. injection Ew as <-. destruct Hval as [Hs Hl]. eapply returns_step; [unfold reads; rewrite (stringObjectLen_ok _ _ _ _ Hs); reflexivity|].
  destruct (arg_sds _ _ _ HR H2) as (p & Ep & (r & -> & Hr) & Hlv). eapply returns_step; [exact Ep|]. cbn [sdslen slen]. unfold MAX_STRING in Hl, Hlv.
  rewrite swrap_uwrap_wide, swrap_small by lia. eapply returns_bind; [refine (length_ok _ HR _); lia|]. intros b s1 Hb.
  destruct (Z.gtb_spec (len tx + len v) MAX_STRING) as [Hg|Hg].
  { destruct Hb as (-> & HR1 & _). apply returns_ret. exists args. split; [|done]. refine (R_less _ HR1 _). unfold cost. lia. }
  destruct Hb as [-> ->]. cbv iota. eapply returns_bind; [refine (dbUnshareStringValue_ok env key k o tx HR (key_at _ _ _ _ H1) Hm Hv _); cbn; lia|]. intros o' s2 [HR2 Hown].
  destruct (arg_sds _ _ _ HR2 H2) as (p2 & Ep2 & (r2 & -> & Hr2) & _). eapply returns_step; [exact Ep2|]. destruct (own_sds _ _ _ _ Hown) as (q & Eq & Hq & _). eapply returns_step; [exact Eq|].
  unfold MAX_STRING in Hg. cbn [buf sdslen slen]. destruct (sdscatlen_ok junk q tx v (0 :: r2) (len v) Hq eq_refl) as (q' & Ecat & Hq'); [unfold fits; lia|].
  eapply returns_step; [unfold lift; rewrite Ecat; reflexivity|]. assert (len (tx ++ v) ≤ MAX_STRING) as Hnew by (rewrite length_app; unfold MAX_STRING; lia).
  eapply returns_bind; [refine (inplace_ok env k o' tx q' (tx ++ v) HR2 Hown Hq' Hnew _); by rewrite Hv|]. intros ? s3 [HR3 _]. apply returns_ret.
  destruct (rep_read _ _ Hq') as [_ ->]. exists args, (tx ++ v). split; [done|]. split; [done|]. split; [refine (R_less _ HR3 _); lia|]. split; [done|]. split; [done|]. split; [by eapply key_at|done].
Qed.

Lemma appendCommand_ok {n args a s} key k val v : R n args [] a s → all_raw args → args !! 1%nat = Some (key, k) → args !! 2%nat = Some (val, v) → cost args ≤ n →
  returns (appendCommand env) s (leaves n args (texts args) (spec_append (e_mstime env) (e_loading env) (e_masterhost env) (a_text k) (a_text v) a)).
Proof using All.
  intros HR Hraw H1 H2 Hn. rewrite (raw_at _ _ _ _ Hraw H1) in H1. rewrite (raw_at _ _ _ _ Hraw H2) in H2. eapply returns_step; [exact (arg_eq _ _ _ HR H1)|].
  eapply returns_bind; [refine (lookupKeyWrite_ok _ _ _ _ (perm_del _ perm) _ _ HR (key_at _ _ _ _ H1) _); cbn; lia|]. intros o s1 [HR1 ->].
  set (a1 := purge (a_text k) a) in *. set (a' := spec_append _ _ _ _ _ a).
  apply (returns_bind _ _ _ _ (half args n key (a_text k) a1 a' (str "append"))).
  2:{ intros [z|] s2 Hh; [by apply half_ok in Hh|by apply returns_ret]. }
  unfold a', spec_append. fold a1. destruct (DbSpec.the_map s1 !! a_text k) as [o|] eqn:Eo.
  - destruct (found _ _ HR1 Eo) as (vv & Ev & Hv & Hown). rewrite Ev. unfold cost in Hn. eapply returns_bind; [refine (type_ok _ _ HR1 Hv _); lia|]. intros r s2 Hr. destruct vv as [tx|type].
    + destruct Hr as [-> ->]. by apply append_found with (val := val).
    + destruct Hr as (-> & HR2 & _). apply returns_ret. exists args. split; [|done]. refine (R_less _ HR2 _). unfold cost. lia.
  - pose proof (missing _ HR1 Eo) as Em. rewrite Em. exact (append_missing _ _ _ _ HR1 H1 H2 Em Hn).
Qed.

Lemma overlay_len t off v : 0 ≤ off → len (overlay t off v) = Z.max (len t) (off + len v).
Proof using Type. intros Ho. unfold overlay. rewrite !length_app, length_take, length_drop, !length_app, !length_replicate. lia. Qed.

(** [memcpy] into the string once it is long enough. *)
Lemma overlay_ok q tx off v r total : rep q tx → 0 ≤ off → total = off + len v → fits total →
  ∃ q1 b, sdsgrowzero junk q total = Some q1 ∧ memcpy (buf q1) (v ++ r) off 0 (len v) = Some b ∧ rep (mkSds (slen q1) (sfree q1) b) (overlay tx off v).
Proof using Type.
  intros Hq Ho -> Hf. destruct (sdsgrowzero_ok junk q tx (off + len v) Hq Hf) as (q1 & -> & Hq1). set (t1 := tx ++ replicate (Z.to_nat (off + len v - len tx)) 0) in *.
  assert (off + len v ≤ len t1) as Hl by (unfold t1; rewrite length_app, length_replicate; lia). destruct Hq1 as (r1 & -> & Hr1). cbn [buf slen sfree].
  pose proof (take_drop (Z.to_nat off) t1) as E1. pose proof (take_drop (length v) (drop (Z.to_nat off) t1)) as E2. rewrite drop_drop in E2.
  eexists _, (take (Z.to_nat off) t1 ++ v ++ drop (Z.to_nat off + length v) t1 ++ 0 :: r1). split; [done|]. split.
  - cbn [buf]. rewrite <- E1 at 1. rewrite <- E2 at 1. rewrite <- !app_assoc. apply memcpy_app; [rewrite length_take; lia|done|rewrite length_take, length_drop; lia].
  - exists r1. assert (overlay tx off v = take (Z.to_nat off) t1 ++ v ++ drop (Z.to_nat off + length v) t1) as E3.
    { unfold overlay. fold t1. do 3 f_equal. lia. }
    rewrite E3. split; [|cbn; rewrite <- E3, overlay_len by lia; unfold t1 in Hr1; rewrite length_app, length_replicate in Hr1; lia].
    cbn [slen sfree]. rewrite <- !app_assoc. f_equal. rewrite <- E3, overlay_len by lia. unfold t1. rewrite length_app, length_replicate. lia.
Qed.

(** The object to write to. *)
Definition target_ok args n k a1 a' off v (r : option addr) s' : Prop :=
  match r with
  | None => leaves n args (texts args) a' tt s'
  | Some o => ∃ tx, R (n - 1) args [] (put_val k (VString tx) a1) s' ∧ own_string s' k o tx ∧ v ≠ [] ∧ off + len v ≤ MAX_STRING ∧
      len tx ≤ MAX_STRING ∧ a' = wrote k (str "setrange") (reply_int (len (overlay tx off v))) (put_val k (VString (overlay tx off v)) a1)
  end.

Definition setrange_result k off v a1 : kv :=
  match vals a1 !! k with
  | Some (VOther _) => replied reply_wrongtype a1
  | o =>
      let old := match o with Some (VString t) => t | _ => [] end in
      if bool_decide (v = []) then replied (reply_int (len old)) a1
      else if off + len v >? MAX_STRING then replied too_long a1
      else wrote k (str "setrange") (reply_int (len (overlay old off v))) (put_val k (VString (overlay old off v)) a1)
  end.

Lemma setrange_target {n args a s} key k v off lv : R n args [] a s → args !! 1%nat = Some (key, mkArg k true) → lv = len v → len v ≤ MAX_STRING → 0 ≤ off → off + len v < 2 ^ 63 → cost args ≤ n →
  returns (match the_map s !! k with
          | None =>
              if lv =? 0 then add_reply env (sh_czero (e_shared env));; mret None
              else
                ok ← checkStringLength env (s64 (u64 (off + lv)));
                if ok : bool then
                  o ← on_heap (λ h, s ← sdsempty junk; Some (createObject h REDIS_STRING (PtrSds s)));
                  dbAdd key o;;
                  mret (Some o)
                else mret None
          | Some o =>
              wrong ← checkType env o REDIS_STRING;
              if wrong : bool then mret None
              else
                olen ← reads (λ h, stringObjectLen junk h o);
                if lv =? 0 then add_long env olen;; mret None
                else
                  ok ← checkStringLength env (s64 (u64 (off + lv)));
                  if ok : bool then o ← dbUnshareStringValue junk key o; mret (Some o) else mret None
          end) s (target_ok args n k a (setrange_result k off v a) off v).
Proof using All.
  intros HR H1 -> Hlv Hoff Hsum Hn. unfold cost in Hn. unfold setrange_result.
  assert ((len v =? 0) = bool_decide (v = [])) as -> by (destruct v; cbn [length]; [done|by rewrite bool_decide_eq_false_2, (proj2 (Z.eqb_neq _ _)) by (done || lia)]).
  rewrite swrap_uwrap_wide, swrap_small by lia. pose proof (key_at _ _ _ _ H1) as Hk.
  destruct (DbSpec.the_map s !! k) as [o|] eqn:Eo.
  - destruct (found _ _ HR Eo) as (vv & Ev & Hv & _). rewrite Ev. eapply returns_bind; [refine (type_ok _ _ HR Hv _); lia|]. intros r s1 Hr. destruct vv as [tx|type].
    2:{ destruct Hr as (-> & HR1 & _). apply returns_ret. apply (leaves_same _ _ _ HR1); unfold cost; [lia|done]. }
    destruct Hr as [-> ->]. destruct Hv as [Hs Hl]. eapply returns_step; [unfold reads; rewrite (stringObjectLen_ok _ _ _ _ Hs); reflexivity|].
    case_bool_decide as Hnil.
    + eapply returns_bind; [refine (add_long_ok env malloc_size_bound perm _ HR _ _); [unfold LLONG_MIN, LLONG_MAX, MAX_STRING in *; lia|lia]|]. intros ? s1 [HR1 _]. apply returns_ret.
      apply (leaves_same _ _ _ HR1); unfold cost; [lia|done].
    + eapply returns_bind; [refine (length_ok _ HR _); lia|]. intros b s1 Hb. destruct (Z.gtb_spec (off + len v) MAX_STRING) as [Hg|Hg].
      { destruct Hb as (-> & HR1 & _). apply returns_ret. apply (leaves_same _ _ _ HR1); unfold cost; [lia|done]. }
      destruct Hb as [-> ->]. eapply returns_bind; [refine (dbUnshareStringValue_ok env key k o tx HR Hk Eo Ev _); cbn; lia|]. intros o' s2 [HR2 Hown].
      apply returns_ret. exists tx. split; [rewrite (put_same _ _ _ Ev); refine (R_less _ HR2 _); lia|]. by split_and!.
  - rewrite (missing _ HR Eo). case_bool_decide as Hnil.
    + eapply returns_bind; [refine (add_reply_ok env malloc_size_bound perm _ _ HR (perm_czero _ perm) _); lia|]. intros ? s1 [HR1 _]. apply returns_ret.
      apply (leaves_same _ _ _ HR1); unfold cost; [lia|done].
    + eapply returns_bind; [refine (length_ok _ HR _); lia|]. intros b s1 Hb. destruct (Z.gtb_spec (off + len v) MAX_STRING) as [Hg|Hg].
      { destruct Hb as (-> & HR1 & _). apply returns_ret. apply (leaves_same _ _ _ HR1); unfold cost; [lia|done]. }
      destruct Hb as [-> ->]. destruct (sdsempty_ok junk) as (p & Ep & Hp). eapply returns_step; [unfold on_heap; rewrite Ep; reflexivity|].
      set (o := fresh (dom (st_heap s))). set (ob := mkObj REDIS_STRING REDIS_ENCODING_RAW 1 (PtrSds p)). set (s1 := put_heap (<[o:=ob]> (st_heap s)) s).
      assert (st_heap s !! o = None) as Hnone by apply not_elem_of_dom, is_fresh.
      assert (R n args [(o, VString [])] a s1) as HR1 by (apply (R_new env _ _ _ HR Hnone); [by split|done|by vm_compute|done]).
      eapply returns_bind; [refine (dbAdd_ok _ _ _ _ HR1 Hk _ _); [exact (missing k HR Eo)|lia]|]. intros ? s2 (HR2 & Eh & Hm). apply returns_ret.
      exists []. split; [exact HR2|]. split; [split; [done|]|by split_and!]. exists ob, p. rewrite Eh. cbn. rewrite lookup_insert_eq. by split_and!.
Qed.

Lemma setrangeCommand_ok {n args a s} key k o2 (t2 : argument) o3 v : R n args [] a s → all_raw args → args !! 1%nat = Some (key, k) → args !! 2%nat = Some (o2, t2) → args !! 3%nat = Some (o3, v) → cost args ≤ n →
  (∀ off, text_number (a_text t2) = Some off → off + len (a_text v) < 2 ^ 63) →
  returns (setrangeCommand env) s (leaves n args (texts args) (spec_setrange (e_mstime env) (e_loading env) (e_masterhost env) (a_text k) (a_text t2) (a_text v) a)).
Proof using All.
  intros HR Hraw H1 H2 H3 Hn Hsafe. rewrite (raw_at _ _ _ _ Hraw H1) in H1. rewrite (raw_at _ _ _ _ Hraw H3) in H3. eapply returns_step; [exact (arg_eq _ _ _ HR H1)|].
  eapply returns_step; [exact (arg_eq _ _ _ HR H2)|]. eapply returns_step; [exact (arg_eq _ _ _ HR H3)|].
  destruct (arg_sds _ _ _ HR H3) as (pv & Ep & (rv & -> & Hrv) & Hlv). eapply returns_step; [exact Ep|]. cbn [buf sdslen slen].
  destruct (arg_at _ _ _ HR H2) as [Hv2 _]. unfold getLongFromObjectOrReply. apply returns_assoc'. pose proof Hn as Hn'. unfold cost in Hn'. eapply returns_bind; [refine (number_ok _ _ HR Hv2 _); lia|]. intros r s1 [-> Hr1].
  unfold spec_setrange. destruct (text_number (a_text t2)) as [off|] eqn:Es.
  2:{ destruct Hr1 as [HR1 _]. eapply returns_step; [reflexivity|]. apply returns_ret. apply (leaves_same _ _ _ HR1); unfold cost; [lia|done]. }
  subst s1. specialize (Hsafe off eq_refl). pose proof (text_number_range _ _ Es) as Hoffr. 
  assert ((off <? LONG_MIN) || (off >? LONG_MAX) = false) as -> by (unfold LONG_MIN, LONG_MAX, LLONG_MIN, LLONG_MAX in *; apply orb_false_iff; rewrite Z.gtb_ltb, !Z.ltb_ge; lia).
  eapply returns_step; [reflexivity|]. cbv beta iota. destruct (Z.ltb_spec off 0) as [Hneg|Hoff].
  { eapply returns_mono; [refine (add_error_ok env malloc_size_bound perm _ HR _ _ _); [message..|lia]|]. intros ? s1 [HR1 _]. apply (leaves_same _ _ _ HR1); unfold cost; [lia|done]. }
  eapply returns_bind; [refine (lookupKeyWrite_ok _ _ _ _ (perm_del _ perm) _ _ HR (key_at _ _ _ _ H1) _); cbn; lia|]. intros o s1 [HR1 ->].
  eapply returns_bind; [exact (setrange_target key (a_text k) (a_text v) off _ HR1 H1 eq_refl Hlv Hoff Hsafe Hn)|]. fold (setrange_result (a_text k) off (a_text v) (purge (a_text k) a)). intros [o|] s2 Ht; [|by apply returns_ret].
  destruct Ht as (tx & HR2 & Hown & Hne & Hmax & Hltx & ->). cbn [a_text] in *. rewrite Z.gtb_ltb, (proj2 (Z.ltb_lt 0 (len (a_text v)))) by (destruct (a_text v); [done|cbn [length]; lia]).
  destruct (own_sds _ _ _ _ Hown) as (q & Eq & Hq & _). unfold MAX_STRING in Hmax.
  destruct (overlay_ok q tx off (a_text v) (0 :: rv) (u64 (off + len (a_text v))) Hq Hoff) as (q1 & b & Eg & Em & Hb); [by rewrite uwrap_small by lia|rewrite uwrap_small by lia; unfold fits; lia|].
  pose proof (overlay_len tx off (a_text v) Hoff) as Hol. assert (len (overlay tx off (a_text v)) ≤ MAX_STRING) as Hnew by (unfold MAX_STRING in *; lia).
  set (new := overlay tx off (a_text v)) in *. pose proof (key_at _ _ _ _ H1) as Hk.
  apply (returns_bind _ _ _ _ (λ _ s', R (n - 1) args [] (more_dirty 1 (notify REDIS_NOTIFY_STRING (str "setrange") (a_text k) (modified (a_text k) (put_val (a_text k) (VString new) (purge (a_text k) a))))) s' ∧
    own_string s' (a_text k) o new)).
  - eapply returns_step; [exact Eq|]. eapply returns_step; [unfold lift; rewrite Eg; reflexivity|]. eapply returns_step; [unfold lift; rewrite Em; reflexivity|].
    eapply returns_bind; [refine (inplace_ok env (a_text k) o tx _ new HR2 Hown Hb Hnew _); cbn; rewrite lookup_insert_eq; by eexists|]. intros ? s3 [HR3 Hown3]. rewrite put_put in HR3.
    eapply returns_bind; [exact (signal_ok _ _ HR3 Hk)|]. intros ? s4 (HR4 & Em4 & Eh4). eapply returns_bind; [exact (notify_ok _ _ _ _ HR4 Hk)|]. intros ? s5 (HR5 & Em5 & Eh5).
    eapply returns_mono; [exact (dirty_ok 1 HR5)|]. intros ? s6 (HR6 & Em6 & Eh6). split; [exact HR6|]. unfold own_string in *. rewrite Em6, Em5, Em4, Eh6, Eh5, Eh4. exact Hown3.
  - intros ? s3 [HR3 Hown3]. destruct (own_sds _ _ _ _ Hown3) as (q3 & Eq3 & Hq3 & _). eapply returns_step; [exact Eq3|]. destruct (rep_read _ _ Hq3) as [_ ->].
    eapply returns_mono; [refine (add_long_ok env malloc_size_bound perm _ HR3 _ _); [unfold LLONG_MIN, LLONG_MAX, MAX_STRING in *; lia|lia]|]. intros ? s4 [HR4 _].
    apply (leaves_same _ _ _ HR4); unfold cost; [lia|done].
Qed.
End handlers.
