(* ===== verification/KeyOps.v ===== *)
(** * The handlers implement their specification: counters and keys

    Counters, the commands on several keys, deletion and expiry. *)

From S2P Require Import Prelude Util Sds SdsText Object Number Client Table Reply ReplySpec ReplyText Server Commands DbSpec DbOps DbKeys DbReply DbObject CommandSpec StringOps.
From stdpp Require Import gmap.
Local Open Scope Z_scope.

Lemma replied_app w1 w2 a : replied w2 (replied w1 a) = replied (w1 ++ w2) a.
Proof. unfold replied. cbn. by rewrite <- app_assoc. Qed.

Section handlers.
Context {T E : Type} `{!KeyTable T addr, !KeyTable E Z, !KeyTableLaws T addr, !KeyTableLaws E Z}.
Context (env : cmd_env) {base : addr → Z} {h0 : oheap} {st0 : list item} {c0 : redisClient}.
Context (malloc_size_bound : ∀ s, 0 ≤ e_malloc_size env s < 2 ^ 33) (perm : shared_perm env (h0 := h0)).
#[local] Abbreviation junk := (e_junk env).
Abbreviation sys := (sys T E).
Abbreviation cmd := (cmd T E).
Abbreviation R := (R (e_malloc_size env) (e_ae_create env) base h0 st0 c0).
#[local] Abbreviation the_map := (@the_map T E _).
#[local] Abbreviation owner := (owner base).
#[local] Abbreviation mstime := (e_mstime env).
#[local] Abbreviation loading := (e_loading env).
#[local] Abbreviation masterhost := (e_masterhost env).
#[local] Abbreviation purge := (purge mstime loading masterhost).
#[local] Abbreviation set_key := (set_key mstime loading masterhost).
#[local] Abbreviation leaves := (leaves env (base := base) (h0 := h0) (st0 := st0) (c0 := c0)).
#[local] Abbreviation leaves_same := (leaves_same env).
#[local] Abbreviation arg_eq := (arg_eq env).
#[local] Abbreviation argc_eq := (argc_eq env).
#[local] Abbreviation arg_at := (arg_at env).
#[local] Abbreviation found := (found env).
#[local] Abbreviation missing := (missing env).
#[local] Abbreviation present_map := (present_map env).
#[local] Abbreviation type_ok := (type_ok env malloc_size_bound perm).
#[local] Abbreviation number_ok := (number_ok env malloc_size_bound perm).
#[local] Abbreviation add_reply_ok := (add_reply_ok env malloc_size_bound perm).
#[local] Abbreviation add_long_ok := (add_long_ok env malloc_size_bound perm).
#[local] Abbreviation add_error_ok := (add_error_ok env malloc_size_bound perm).
#[local] Abbreviation lookupKeyWrite_ok := (lookupKeyWrite_ok _ mstime loading masterhost (perm_del _ perm)).
#[local] Abbreviation lookupKeyRead_ok := (lookupKeyRead_ok _ mstime loading masterhost (perm_del _ perm)).
Implicit Types (s : sys) (a : kv) (args : list (addr * argument)) (tmp : list (addr * value)) (t : text) (n : Z).

#[local] Ltac message := first [by repeat (apply Forall_cons; split; [done|]) | reflexivity | lia].

(** ** Counters *)

Lemma incr_overflow old incr : LLONG_MIN ≤ old ≤ LLONG_MAX → LLONG_MIN ≤ incr ≤ LLONG_MAX →
  ((incr <? 0) && (old <? 0) && (incr <? LLONG_MIN - old)) || ((incr >? 0) && (old >? 0) && (incr >? LLONG_MAX - old)) =
  (old + incr <? LLONG_MIN) || (LLONG_MAX <? old + incr).
Proof using Type.
  intros Ho Hi. rewrite !Z.gtb_ltb. unfold LLONG_MIN, LLONG_MAX in *.
  destruct (Z.ltb_spec incr 0), (Z.ltb_spec old 0), (Z.ltb_spec 0 incr), (Z.ltb_spec 0 old), (Z.ltb_spec incr (- 2 ^ 63 - old)), (Z.ltb_spec (2 ^ 63 - 1 - old) incr),
    (Z.ltb_spec (old + incr) (- 2 ^ 63)), (Z.ltb_spec (2 ^ 63 - 1) (old + incr)); cbn [andb orb]; done || lia.
Qed.

Lemma counter_ok {n args a s} t : R n args [] a s → (∀ type, vals a !! t ≠ Some (VOther type)) → 3 ≤ n →
  returns (getLongLongFromObjectOrReply env (the_map s !! t) None) s
    (λ r s', r = counter (vals a !! t) ∧ match counter (vals a !! t) with Some v => s' = s ∧ LLONG_MIN ≤ v ≤ LLONG_MAX | None => R (n - 3) args [] (replied not_integer a) s' end).
Proof using All.
  intros HR Hno Hn. destruct (DbSpec.the_map s !! t) as [o|] eqn:Eo.
  - destruct (found _ _ HR Eo) as (v & Ev & Hv & _). rewrite Ev. destruct v as [tx|type]; [|by destruct (Hno type)]. cbn [counter].
    eapply returns_mono; [exact (number_ok _ _ HR Hv Hn)|]. intros r s1 [-> Hr]. split; [done|]. destruct (text_number tx) eqn:Et; [split; [done|by apply text_number_range in Et]|by destruct Hr].
  - rewrite (missing _ HR Eo). cbn [counter]. eapply returns_step; [reflexivity|]. apply returns_ret. split; [done|]. split; [done|by unfold LLONG_MIN, LLONG_MAX].
Qed.

Lemma store_number {n args a s} key t o new v : R n args [(new, VString (printf_ld v))] a s → is_key args key t → o = the_map s !! t → LLONG_MIN ≤ v ≤ LLONG_MAX → 10 ≤ n →
  returns ((match o with Some _ => dbOverwrite key new | None => dbAdd key new end);; signalModifiedKey key;; notifyKeyspaceEvent REDIS_NOTIFY_STRING (str "incrby") key;; add_dirty 1;;
      add_reply env (sh_colon (e_shared2 env));; add_reply env new;; add_reply env (sh_crlf (e_shared env))) s
    (λ _ s', R (n - 10) args [] (wrote t (str "incrby") (reply_int v) (put_val t (VString (printf_ld v)) a)) s').
Proof using All.
  intros HR Hk -> Hv Hn. apply (returns_bind _ _ _ _ (λ _ s', R (n - 1) args [] (put_val t (VString (printf_ld v)) a) s' ∧ the_map s' !! t = Some new)).
  { pose proof (R_lookup t HR) as Hl. destruct (DbSpec.the_map s !! t) as [o|].
    - destruct Hl as (w & Ew & _). eapply returns_mono; [refine (dbOverwrite_ok key t new _ HR Hk _); by rewrite Ew|]. intros ? s1 (HR1 & _ & Hm). split; [refine (R_less _ HR1 _); lia|done].
    - eapply returns_mono; [refine (dbAdd_ok key t new _ HR Hk Hl _); lia|]. intros ? s1 (HR1 & _ & Hm). done. }
  intros ? s1 [HR1 Hm1]. eapply returns_bind; [exact (signal_ok _ _ HR1 Hk)|]. intros ? s2 (HR2 & E2 & _). eapply returns_bind; [exact (notify_ok _ _ _ _ HR2 Hk)|]. intros ? s3 (HR3 & E3 & _).
  eapply returns_bind; [exact (dirty_ok 1 HR3)|]. intros ? s4 (HR4 & E4 & _).
  eapply returns_bind; [refine (add_reply_ok _ _ HR4 (perm_colon _ perm) _); lia|]. intros ? s5 (HR5 & E5).
  assert (the_map s5 !! t = Some new) as Hm5 by (by rewrite (db_of_map _ _ E5), E4, E3, E2).
  destruct (found _ _ HR5 Hm5) as (w & Ew & Hval & Hown). cbn in Ew. rewrite lookup_insert_eq in Ew. injection Ew as <-.
  eapply returns_bind; [refine (add_reply_val env malloc_size_bound perm _ _ HR5 Hval Hown _); lia|]. intros ? s6 (HR6 & E6).
  eapply returns_mono; [refine (add_reply_ok _ _ HR6 (perm_crlf _ perm) _); lia|]. intros ? s7 (HR7 & _).
  rewrite !replied_app in HR7. unfold wrote. assert (n - 10 = n - 1 - 3 - 3 - 3) as -> by lia. exact HR7.
Qed.

Lemma add_to_counter_ok {n args a s} incr key k : R n args [] a s → is_key args key k → (∀ type, vals a !! k ≠ Some (VOther type)) → LLONG_MIN ≤ incr ≤ LLONG_MAX → cost args ≤ n →
  returns (r ← getLongLongFromObjectOrReply env (the_map s !! k) None;
    match r with
    | None => mret tt
    | Some value =>
        let oldvalue := value in
        if ((incr <? 0) && (oldvalue <? 0) && (incr <? LLONG_MIN - oldvalue)) ||
           ((incr >? 0) && (oldvalue >? 0) && (incr >? LLONG_MAX - oldvalue))
        then add_error env (str "increment or decrement would overflow")
        else
          let value := value + incr in
          new ← on_heap (λ h, createStringObjectFromLongLong junk (e_shared_integers env) h value);
          (match the_map s !! k with Some _ => dbOverwrite key new | None => dbAdd key new end);;
          signalModifiedKey key;;
          notifyKeyspaceEvent REDIS_NOTIFY_STRING (str "incrby") key;;
          add_dirty 1;;
          add_reply env (sh_colon (e_shared2 env));;
          add_reply env new;;
          add_reply env (sh_crlf (e_shared env))
    end) s (leaves n args (texts args) (add_to_counter incr k a)).
Proof using All.
  intros HR Hk Hno Hi Hn. unfold cost in Hn. eapply returns_bind; [refine (counter_ok k HR Hno _); lia|]; intros r s2 [-> Hr]. unfold add_to_counter.
  destruct (counter (vals a !! k)) as [old|]; [|apply returns_ret; apply (leaves_same _ _ _ Hr); unfold cost; [lia|done]].
  destruct Hr as [-> Hold]. cbv zeta. rewrite (incr_overflow old incr Hold Hi).
  destruct (_ || _) eqn:Eov; [eapply returns_mono; [refine (add_error_ok _ HR _ _ _); [message..|lia]|]; intros ? s3 [HR3 _]; apply (leaves_same _ _ _ HR3); unfold cost; [lia|done]|].
  apply orb_false_iff in Eov as [Ov1%Z.ltb_ge Ov2%Z.ltb_ge].
  eapply returns_bind; [refine (fromLongLong_ok env perm (old + incr) HR _ _); [lia|cbn; lia]|]. intros new s3 [HR3 E3].
  eapply returns_mono; [refine (store_number key k _ new (old + incr) HR3 Hk _ _ _); [by rewrite (db_of_map _ _ E3)|lia|lia]|].
  intros ? s4 HR4. apply (leaves_same _ _ _ HR4); unfold cost; [lia|done].
Qed.

Lemma incrDecrCommand_ok {n args a s} incr key k : R n args [] a s → all_raw args → args !! 1%nat = Some (key, k) → LLONG_MIN ≤ incr ≤ LLONG_MAX → cost args ≤ n →
  returns (incrDecrCommand env incr) s (leaves n args (texts args) (spec_incr mstime loading masterhost incr (a_text k) a)).
Proof using All.
  intros HR Hraw H1 Hi Hn. pose proof Hn as Hn'. unfold cost in Hn'. rewrite (raw_at _ _ _ _ Hraw H1) in H1. pose proof (key_at _ _ _ _ H1) as Hk. eapply returns_step; [exact (arg_eq _ _ _ HR H1)|].
  eapply returns_bind; [refine (lookupKeyWrite_ok _ _ HR Hk _); cbn; lia|]. intros o s1 [HR1 ->]. unfold spec_incr. set (a1 := purge (a_text k) a) in *.
  apply (returns_bind _ _ _ _ (λ r s', match vals a1 !! a_text k with Some (VOther _) => r = true ∧ R (n - 3) args [] (replied reply_wrongtype a1) s' | _ => r = false ∧ s' = s1 end)).
  { pose proof (R_lookup (a_text k) HR1) as Hl. destruct (DbSpec.the_map s1 !! a_text k) as [o|].
    - destruct Hl as (w & -> & Hv & _). eapply returns_mono; [refine (type_ok _ _ HR1 Hv _); lia|]. intros r s2 Hr. destruct w; [done|]. by destruct Hr as (-> & ? & _).
    - rewrite Hl. by apply returns_ret. }
  intros r s2 Hr. destruct (vals a1 !! a_text k) as [[tx|type]|] eqn:Ev.
  2:{ destruct Hr as [-> HR2]. apply returns_ret. apply (leaves_same _ _ _ HR2); unfold cost; [lia|done]. }
  all: destruct Hr as [-> ->]; refine (add_to_counter_ok incr key (a_text k) HR1 Hk _ Hi Hn); by rewrite Ev.
Qed.

Lemma incrby_ok {n args a s} (f : Z → Z) key k o (d : argument) : R n args [] a s → all_raw args → args !! 1%nat = Some (key, k) → args !! 2%nat = Some (o, d) → (∀ x, LLONG_MIN ≤ x ≤ LLONG_MAX → LLONG_MIN ≤ f x ≤ LLONG_MAX) → cost args ≤ n →
  returns (o ← arg 2; r ← getLongLongFromObjectOrReply env (Some o) None; match r with None => mret tt | Some incr => incrDecrCommand env (f incr) end) s
    (leaves n args (texts args) (spec_incrby mstime loading masterhost f (a_text k) (a_text d) a)).
Proof using All.
  intros HR Hraw H1 H2 Hf Hn. pose proof Hn as Hn'. unfold cost in Hn'. eapply returns_step; [exact (arg_eq _ _ _ HR H2)|]. destruct (arg_at _ _ _ HR H2) as [Hv _].
  eapply returns_bind; [refine (number_ok _ _ HR Hv _); lia|]. intros r s1 [-> Hr]. unfold spec_incrby. destruct (text_number (a_text d)) as [x|] eqn:Et.
  - subst s1. apply text_number_range in Et. by apply (incrDecrCommand_ok _ key); [..|apply Hf|].
  - destruct Hr as [HR1 _]. apply returns_ret. apply (leaves_same _ _ _ HR1); unfold cost; [lia|done].
Qed.

(** ** Several keys *)

#[local] Abbreviation mget_key := (mget_key mstime loading masterhost).
#[local] Abbreviation mset_pair := (mset_pair mstime loading masterhost).

Lemma mget_one_ok {n args a s} j key t : R n args [] a s → args !! j = Some (key, mkArg t true) → 3 ≤ n →
  returns (mget_one env j) s (λ _ s', R (n - 3) args [] (mget_key a t) s').
Proof using All.
  intros HR Hj Hn. eapply returns_step; [exact (arg_eq _ _ _ HR Hj)|]. eapply returns_bind; [refine (lookupKeyRead_ok _ _ HR (key_at _ _ _ _ Hj) _); cbn; lia|]. intros o s1 [HR1 ->].
  unfold CommandSpec.mget_key. pose proof (R_lookup t HR1) as Hl. destruct (DbSpec.the_map s1 !! t) as [o|].
  - destruct Hl as (v & -> & Hv & Hown). destruct (val_object _ _ _ Hv) as (ob & Ho & Ht). eapply returns_step; [unfold object; rewrite Ho; reflexivity|]. rewrite Ht. destruct v as [tx|type].
    + eapply returns_mono; [exact (add_bulk_ok env malloc_size_bound perm _ _ HR1 Hv Hown Hn)|]. by intros ? s2 [HR2 _].
    + destruct Hv as [Hb _]. rewrite (proj2 (Z.eqb_neq _ _)) by (unfold REDIS_STRING; lia). cbn [negb].
      eapply returns_mono; [exact (add_reply_ok _ _ HR1 (perm_nullbulk _ perm) Hn)|]. by intros ? s2 [HR2 _].
  - rewrite Hl. eapply returns_mono; [exact (add_reply_ok _ _ HR1 (perm_nullbulk _ perm) Hn)|]. by intros ? s2 [HR2 _].
Qed.

Lemma mget_loop args : all_raw args → ∀ fuel j n a s, R n args [] a s → (length args ≤ fuel + j)%nat → 3 * (len args - Z.of_nat j) ≤ n → (j ≤ length args)%nat →
  returns (for_args fuel j 1 (mget_one env)) s (λ _ s', R (n - 3 * (len args - Z.of_nat j)) args [] (foldl mget_key a (drop j (texts args))) s').
Proof using All.
  intros Hraw fuel. induction fuel as [|fuel IH]; intros j n a s HR Hf Hn Hj; cbn [for_args]; (eapply returns_step; [exact (argc_eq HR)|]).
  { rewrite (proj2 (Z.ltb_ge _ _)) by lia. apply returns_ret. rewrite drop_ge by (rewrite texts_len; lia). refine (R_less _ HR _). lia. }
  destruct (Z.ltb_spec (Z.of_nat j) (len args)) as [Hlt|Hge].
  2:{ apply returns_ret. rewrite drop_ge by (rewrite texts_len; lia). refine (R_less _ HR _). lia. }
  destruct (lookup_lt_is_Some_2 args j) as [[o x] Ej]; [lia|]. rewrite (texts_drop _ _ _ _ Ej). cbn [foldl]. rewrite (raw_at _ _ _ _ Hraw Ej) in Ej. cbn [a_text] in *.
  eapply returns_bind; [refine (mget_one_ok j o _ HR Ej _); lia|]. intros ? s1 HR1.
  eapply returns_mono; [refine (IH (S j) _ _ _ HR1 _ _ _); lia|]. intros ? s2 HR2. assert (n - 3 * (len args - Z.of_nat j) = n - 3 - 3 * (len args - Z.of_nat (S j))) as -> by lia. exact HR2.
Qed.

Lemma mgetCommand_ok {n args a s} : R n args [] a s → all_raw args → (2 ≤ length args)%nat → cost args ≤ n →
  returns (mgetCommand env) s (leaves n args (texts args) (spec_mget mstime loading masterhost (drop 1 (texts args)) a)).
Proof using All.
  intros HR Hraw Hl Hn. unfold cost in Hn. eapply returns_step; [exact (argc_eq HR)|]. pose proof (R_few HR) as (_ & Hfew & _).
  eapply returns_bind; [refine (add_multi_ok env malloc_size_bound perm _ HR _ _); [unfold LLONG_MAX; lia|lia]|]. intros ? s1 [HR1 _].
  eapply returns_mono; [refine (mget_loop args Hraw (Z.to_nat (len args)) 1 _ _ _ HR1 _ _ _); lia|]. intros ? s2 HR2. unfold spec_mget.
  apply (leaves_same _ _ _ HR2); [unfold cost; lia|]. rewrite length_drop, texts_len. do 3 f_equal. lia.
Qed.

Lemma mset_one_ok {n args a s} j key t val v : R n args [] a s → args !! j = Some (key, mkArg t true) → args !! S j = Some (val, v) → 1 ≤ n →
  returns (mset_one env j) s (λ _ s', ∃ val', R (n - 1) (<[S j := (val', mkArg (a_text v) false)]> args) [] (mset_pair a (t, a_text v)) s').
Proof using All.
  intros HR H1 H2 Hn. eapply returns_bind; [exact (encode_arg_ok env perm (S j) val v HR H2)|]. intros ? s1 (val' & HR1 & _).
  pose proof (set_other _ (S j) j (val', mkArg (a_text v) false) _ H1 ltac:(lia)) as H1'. pose proof (set_at _ _ _ _ val' H2) as H2'. pose proof (key_at _ _ _ _ H1') as Hk.
  eapply returns_step; [exact (arg_eq _ _ _ HR1 H1')|]. eapply returns_step; [exact (arg_eq _ _ _ HR1 H2')|].
  eapply returns_bind; [refine (setKey_ok _ _ _ _ (perm_del _ perm) _ _ _ _ HR1 Hk (list_elem_of_lookup_2 _ _ _ H2') Hn _); cbn; lia|]. intros ? s2 HR2.
  eapply returns_mono; [exact (notify_ok _ _ _ _ HR2 Hk)|]. intros ? s3 [HR3 _]. by exists val'.
Qed.

(** The arguments from the [j]-th on were not encoded yet. *)
Definition raw_from (j : nat) args : Prop := ∀ i o x, (j ≤ i)%nat → args !! i = Some (o, x) → x = mkArg (a_text x) true.

Lemma mset_loop m : ∀ fuel j args n a s, R n args [] a s → raw_from j args → length args = (j + 2 * m)%nat → (m ≤ fuel)%nat → Z.of_nat m ≤ n →
  returns (for_args fuel j 2 (mset_one env)) s (λ _ s', ∃ args', R (n - Z.of_nat m) args' [] (foldl mset_pair a (pairs (drop j (texts args)))) s' ∧ texts args' = texts args).
Proof using All.
  induction m as [|m IH]; intros fuel j args n a s HR Hraw Hl Hf Hn.
  - assert (for_args fuel j 2 (mset_one env) s = Some (tt, s)) as E1.
    { destruct fuel; cbn [for_args]; unfold mbind, cmd_bind; rewrite (argc_eq HR), (proj2 (Z.ltb_ge _ _)) by lia; done. }
    eapply returns_eq; [exact E1|]. exists args. split; [|done]. rewrite drop_ge by (rewrite texts_len; lia). cbn [pairs foldl]. refine (R_less _ HR _). lia.
  - destruct fuel as [|fuel]; [lia|]. cbn [for_args]. eapply returns_step; [exact (argc_eq HR)|]. rewrite (proj2 (Z.ltb_lt _ _)) by lia.
    destruct (lookup_lt_is_Some_2 args j) as [[o x] Ej]; [lia|]. destruct (lookup_lt_is_Some_2 args (S j)) as [[o2 x2] Ej2]; [lia|].
    rewrite (texts_drop _ _ _ _ Ej), (texts_drop _ _ _ _ Ej2). cbn [pairs foldl]. rewrite (Hraw _ _ _ (le_n j) Ej) in Ej. cbn [a_text] in *.
    eapply returns_bind; [refine (mset_one_ok j o _ o2 x2 HR Ej Ej2 _); lia|]. intros ? s1 (val' & HR1).
    eapply returns_mono; [refine (IH fuel (2 + j)%nat _ _ _ _ HR1 _ _ _ _); [|rewrite length_insert; lia|lia|lia]|].
    + intros i oi xi Hi Ei. rewrite list_lookup_insert_ne in Ei by lia. apply (Hraw i oi); [lia|done].
    + intros ? s2 (args' & HR2 & Ht). exists args'. rewrite Ht, (texts_set _ _ _ _ val' Ej2). split; [|done].
      rewrite (texts_set _ _ _ _ val' Ej2) in HR2. assert (n - Z.of_nat (S m) = n - 1 - Z.of_nat m) as -> by lia. exact HR2.
Qed.

Lemma busy_fold mt ld mh ks a b : foldl (λ '(a, b) k, let a := DbKeys.purge mt ld mh k a in (a, b || present k a)) (a, b) ks =
  ((busy mt ld mh ks a).1, b || (busy mt ld mh ks a).2).
Proof using Type.
  unfold busy. revert a b. induction ks as [|k ks IH]; intros a b; cbn [foldl]; [by rewrite orb_false_r|]. cbv zeta. rewrite IH. symmetry. rewrite IH. cbn [orb fst snd]. f_equal. by rewrite orb_assoc.
Qed.

Lemma count_busy_ok args : all_raw args → ∀ m fuel j n a s z, R n args [] a s → length args = (j + 2 * m)%nat → (m ≤ fuel)%nat → 0 ≤ z →
  returns (count_busy env fuel j z) s (λ r s', R n args [] (busy mstime loading masterhost (pairs (drop j (texts args))).*1 a).1 s' ∧ 0 ≤ r ∧
    ((r =? 0) = (z =? 0) && negb (busy mstime loading masterhost (pairs (drop j (texts args))).*1 a).2)).
Proof using All.
  intros Hraw m. induction m as [|m IH]; intros fuel j n a s z HR Hl Hf Hz.
  - assert (count_busy env fuel j z s = Some (z, s)) as E1.
    { destruct fuel; cbn [count_busy]; unfold mbind, cmd_bind; rewrite (argc_eq HR), (proj2 (Z.ltb_ge _ _)) by lia; done. }
    eapply returns_eq; [exact E1|]. rewrite drop_ge by (rewrite texts_len; lia). cbn. by rewrite andb_true_r.
  - destruct fuel as [|fuel]; [lia|]. cbn [count_busy]. eapply returns_step; [exact (argc_eq HR)|]. rewrite (proj2 (Z.ltb_lt _ _)) by lia.
    destruct (lookup_lt_is_Some_2 args j) as [[o x] Ej]; [lia|]. destruct (lookup_lt_is_Some_2 args (S j)) as [[o2 x2] Ej2]; [lia|].
    rewrite (texts_drop _ _ _ _ Ej), (texts_drop _ _ _ _ Ej2). cbn [pairs fmap list_fmap fst]. rewrite (raw_at _ _ _ _ Hraw Ej) in Ej. cbn [a_text] in *.
    eapply returns_step; [exact (arg_eq _ _ _ HR Ej)|]. eapply returns_bind; [refine (lookupKeyWrite_ok _ _ HR (key_at _ _ _ _ Ej) _); cbn; lia|]. intros r s1 [HR1 ->].
    pose proof (present_map (a_text x) HR1) as Hp. unfold busy. cbn [foldl]. cbv zeta. rewrite busy_fold. cbn [orb fst snd]. unfold busy in IH.
    set (z' := match the_map s1 !! a_text x with Some _ => z + 1 | None => z end).
    assert (0 ≤ z' ∧ ((z' =? 0) = (z =? 0) && negb (present (a_text x) (purge (a_text x) a)))) as [Hz' Ez'].
    { unfold z'. rewrite <- Hp. destruct (DbSpec.the_map s1 !! a_text x); [|by rewrite bool_decide_eq_false_2, andb_true_r by (by intros [])].
      split; [lia|]. rewrite bool_decide_eq_true_2, andb_false_r by by eexists. apply Z.eqb_neq. lia. }
    eapply returns_mono; [refine (IH fuel (2 + j)%nat _ _ _ z' HR1 _ _ Hz'); lia|]. intros r s2 (HR2 & Hr & Er). split; [exact HR2|]. split; [done|].
    rewrite Er, Ez', negb_orb, andb_assoc. done.
Qed.

Lemma pairs_len m : ∀ l : list text, length l = (2 * m)%nat → length (pairs l) = m.
Proof using Type. induction m as [|m IH]; intros [|x [|y l]] Hl; cbn [length] in Hl; try lia; [done|]. cbn [pairs length]. rewrite IH; lia. Qed.

Lemma raw_from_all args j : all_raw args → raw_from j args.
Proof using Type. intros Hraw i o x _ Hi. by eapply raw_at. Qed.

Lemma msetGenericCommand_ok {n args a s} nx : R n args [] a s → all_raw args → (1 ≤ length args)%nat → cost args ≤ n →
  returns (msetGenericCommand env nx) s (leaves n args (texts args) (spec_mset mstime loading masterhost nx (drop 1 (texts args)) a)).
Proof using All.
  intros HR Hraw Hl Hn. pose proof Hn as Hn'. unfold cost in Hn'. eapply returns_step; [exact (argc_eq HR)|]. unfold spec_mset. rewrite length_drop, texts_len.
  destruct (Nat.odd (length args - 1)) eqn:Eodd.
  { apply Nat.odd_spec in Eodd as [m Em]. assert (len args mod 2 = 0) as -> by (symmetry; apply (Z.mod_unique_pos _ 2 (Z.of_nat m + 1)); lia). change (0 =? 0) with true. cbv iota.
    eapply returns_mono; [refine (add_error_ok _ HR _ _ _); [message..|lia]|]. intros ? s1 [HR1 _]. apply (leaves_same _ _ _ HR1); unfold cost; [lia|done]. }
  assert (∃ m, length args = (1 + 2 * m)%nat) as (m & Em).
  { rewrite <- Nat.negb_even in Eodd. apply negb_false_iff, Nat.even_spec in Eodd as [m Em]. exists m. lia. }
  assert (len args mod 2 = 1) as -> by (symmetry; apply (Z.mod_unique_pos _ 2 (Z.of_nat m)); lia). change (1 =? 0) with false. cbv iota.
  set (l := drop 1 (texts args)). assert (length (pairs l) = m) as Hm by (apply pairs_len; unfold l; rewrite length_drop, texts_len; lia).
  apply (returns_bind _ _ _ _ (λ r s', R n args [] (if nx then busy mstime loading masterhost (pairs l).*1 a else (a, false)).1 s' ∧
    ((r =? 0) = negb (if nx then busy mstime loading masterhost (pairs l).*1 a else (a, false)).2))).
  { destruct nx; [|by apply returns_ret]. eapply returns_mono; [refine (count_busy_ok args Hraw m _ 1 _ _ _ 0 HR _ _ _); lia|]. intros r s1 (HR1 & _ & Er). split; [exact HR1|exact Er]. }
  intros r s1 [HR1 Er]. rewrite Er, negb_involutive. destruct (if nx then _ else _) as [a1 b]. cbn [fst snd] in *. destruct b.
  { eapply returns_mono; [refine (add_reply_ok _ _ HR1 (perm_czero _ perm) _); lia|]. intros ? s2 [HR2 _]. apply (leaves_same _ _ _ HR2); unfold cost; [lia|done]. }
  eapply returns_bind; [refine (mset_loop m (Z.to_nat (len args)) 1 args _ _ _ HR1 (raw_from_all _ _ Hraw) _ _ _); lia|]. intros ? s2 (args' & HR2 & Ht).
  eapply returns_bind; [exact (dirty_ok _ HR2)|]. intros ? s3 [HR3 _]. replace ((len args - 1) / 2) with (len (pairs l)) in HR3 by (rewrite Em, Hm; apply (Z.div_unique_pos _ 2 _ 0); lia).
  assert (length args' = length args) as Hla by (rewrite <- (texts_len args'), Ht; apply texts_len).
  destruct nx; (eapply returns_mono; [refine (add_reply_ok _ _ HR3 _ _); [first [exact (perm_cone _ perm)|exact (perm_ok _ perm)]|lia]|]; intros ? s4 [HR4 _];
    exists args'; split; [refine (R_less _ HR4 _); unfold cost; lia|done]).
Qed.

(** ** Deletion *)

#[local] Abbreviation del_one := (del_one mstime loading masterhost).

Lemma del_absent {n args tmp a s} t : R n args tmp a s → vals a !! t = None → del_key t a = a.
Proof using Type.
  intros HR Hv. destruct (exps a !! t) eqn:Ee; [destruct (R_sub HR t) as [v Ev]; [by rewrite Ee|congruence]|].
  destruct a. unfold del_key. cbn in *. by rewrite !delete_id.
Qed.

Lemma del_loop_ok args : all_raw args → ∀ fuel j n a s z, R n args [] a s → (length args ≤ fuel + j)%nat → (j ≤ length args)%nat →
  returns (del_loop env fuel j z) s (λ r s', R n args [] (foldl del_one (a, z) (drop j (texts args))).1 s' ∧ r = (foldl del_one (a, z) (drop j (texts args))).2).
Proof using perm KeyTableLaws0 KeyTableLaws1.
  intros Hraw fuel. induction fuel as [|fuel IH]; intros j n a s z HR Hf Hj; cbn [del_loop]; (eapply returns_step; [exact (argc_eq HR)|]).
  { rewrite (proj2 (Z.ltb_ge _ _)) by lia. apply returns_ret. by rewrite drop_ge by (rewrite texts_len; lia). }
  destruct (Z.ltb_spec (Z.of_nat j) (len args)) as [Hlt|Hge].
  2:{ apply returns_ret. by rewrite drop_ge by (rewrite texts_len; lia). }
  destruct (lookup_lt_is_Some_2 args j) as [[o x] Ej]; [lia|]. rewrite (texts_drop _ _ _ _ Ej). cbn [foldl]. rewrite (raw_at _ _ _ _ Hraw Ej) in Ej. cbn [a_text] in *.
  pose proof (key_at _ _ _ _ Ej) as Hk. eapply returns_step; [exact (arg_eq _ _ _ HR Ej)|].
  eapply returns_bind; [refine (expireIfNeeded_ok _ _ _ _ (perm_del _ perm) _ _ HR Hk _); cbn; lia|]. intros ? s1 HR1.
  eapply returns_bind; [refine (dbDelete_ok _ _ HR1 Hk _); cbn; lia|]. intros r s2 [HR2 ->]. unfold CommandSpec.del_one at 2 4. cbn [fst snd]. unfold present.
  destruct (vals (purge (a_text x) a) !! a_text x) as [v|] eqn:Ev.
  - rewrite bool_decide_eq_true_2 by by eexists. change (negb (1 =? 0)) with true. cbv iota.
    eapply returns_bind; [exact (signal_ok _ _ HR2 Hk)|]. intros ? s3 [HR3 _]. eapply returns_bind; [exact (notify_ok _ _ _ _ HR3 Hk)|]. intros ? s4 [HR4 _].
    eapply returns_bind; [exact (dirty_ok 1 HR4)|]. intros ? s5 [HR5 _]. exact (IH (S j) _ _ _ _ HR5 ltac:(lia) ltac:(lia)).
  - rewrite bool_decide_eq_false_2 by (by intros []). change (negb (0 =? 0)) with false. cbv iota. rewrite (del_absent _ HR1 Ev) in HR2.
    exact (IH (S j) _ _ _ _ HR2 ltac:(lia) ltac:(lia)).
Qed.

Lemma del_count mt ld mh ks a z : z ≤ (foldl (CommandSpec.del_one mt ld mh) (a, z) ks).2 ≤ z + len ks.
Proof using Type.
  revert a z. induction ks as [|k ks IH]; intros a z; cbn [foldl length]; [cbn; lia|]. unfold CommandSpec.del_one at 2 4. cbn [fst snd]. destruct (present _ _);
    match goal with |- context [foldl _ (?a', ?z') ks] => pose proof (IH a' z') end; lia.
Qed.

Lemma delCommand_ok {n args a s} : R n args [] a s → all_raw args → (1 ≤ length args)%nat → cost args ≤ n →
  returns (delCommand env) s (leaves n args (texts args) (spec_del mstime loading masterhost (drop 1 (texts args)) a)).
Proof using All.
  intros HR Hraw Hl Hn. unfold cost in Hn. pose proof (R_few HR) as (_ & Hfew & _). eapply returns_step; [exact (argc_eq HR)|].
  eapply returns_bind; [refine (del_loop_ok args Hraw (Z.to_nat (len args)) 1 _ _ _ 0 HR _ _); lia|]. intros r s1 [HR1 ->]. unfold spec_del.
  pose proof (del_count mstime loading masterhost (drop 1 (texts args)) a 0) as Hc. rewrite length_drop, texts_len in Hc. destruct (foldl _ _ _) as [a1 z]. cbn [fst snd] in *.
  eapply returns_mono; [refine (add_long_ok _ HR1 _ _); [unfold LLONG_MIN, LLONG_MAX; lia|lia]|]. intros ? s2 [HR2 _]. apply (leaves_same _ _ _ HR2); unfold cost; [lia|done].
Qed.

Lemma existsCommand_ok {n args a s} key k : R n args [] a s → all_raw args → args !! 1%nat = Some (key, k) → cost args ≤ n →
  returns (existsCommand env) s (leaves n args (texts args) (spec_exists mstime loading masterhost (a_text k) a)).
Proof using All.
  intros HR Hraw H1 Hn. unfold cost in Hn. rewrite (raw_at _ _ _ _ Hraw H1) in H1. pose proof (key_at _ _ _ _ H1) as Hk. eapply returns_step; [exact (arg_eq _ _ _ HR H1)|].
  eapply returns_bind; [refine (expireIfNeeded_ok _ _ _ _ (perm_del _ perm) _ _ HR Hk _); cbn; lia|]. intros ? s1 HR1.
  eapply returns_bind; [exact (dbExists_ok _ _ HR1 Hk)|]. intros r s2 [HR2 ->]. unfold spec_exists. fold (present (a_text k) (purge (a_text k) a)).
  destruct (present _ _); (eapply returns_mono; [refine (add_reply_ok _ _ HR2 _ _); [first [exact (perm_cone _ perm)|exact (perm_czero _ perm)]|lia]|]; intros ? s3 [HR3 _];
    apply (leaves_same _ _ _ HR3); unfold cost; [lia|done]).
Qed.

(** ** The arguments change hands *)

Lemma R_give {n args a s} o x tmp : R n ((o, x) :: args) tmp a s → len tmp < 8 → R n args ((o, VString (a_text x)) :: tmp) a (put_argv args.*1 s).
Proof using Type.
  intros HR Hl. pose proof (arg_val _ _ HR (list_elem_of_here (o, x) args)) as [Hv _]. pose proof HR as [].
  assert (∀ o2, DbSpec.owner base (put_argv args.*1 s) args ((o, VString (a_text x)) :: tmp) o2 = owner s ((o, x) :: args) tmp o2) as Hown.
  { intros o2. unfold DbSpec.owner, held_by. change (the_map (put_argv args.*1 s)) with (the_map s). cbn [fmap list_fmap fst]. cbn [app]. rewrite refs_cons, !refs_app, refs_cons. lia. }
  eapply (R_heap HR); try done; cbn [put_argv st_heap st_db st_client]; try lia.
  - intros o2. rewrite Hown. apply (R_counted HR).
  - intros o2 ob Ho _. by exists ob.
  - by apply Forall_cons in R_args as [_ ?].
  - by constructor.
  - cbn [length] in R_few. lia.
  - cbn [length]. lia.
Qed.

Lemma R_take {n args a s} o t x tmp : R n args ((o, VString t) :: tmp) a s → arg_is (st_heap s) o x → len args + 1 < 2 ^ 27 → R n (args ++ [(o, x)]) tmp a (put_argv (args ++ [(o, x)]).*1 s).
Proof using Type.
  intros HR Hx Hl. pose proof HR as [].
  assert (∀ o2, DbSpec.owner base (put_argv (args ++ [(o, x)]).*1 s) (args ++ [(o, x)]) tmp o2 = owner s args ((o, VString t) :: tmp) o2) as Hown.
  { intros o2. unfold DbSpec.owner, held_by. change (the_map (put_argv (args ++ [(o, x)]).*1 s)) with (the_map s). rewrite fmap_app. cbn [fmap list_fmap fst]. rewrite !refs_app, refs_cons. change (refs [] o2) with 0. rewrite refs_cons. lia. }
  eapply (R_heap HR); try done; cbn [put_argv st_heap st_db st_client]; try lia.
  - intros o2. rewrite Hown. apply (R_counted HR).
  - intros o2 ob Ho _. by exists ob.
  - apply Forall_app. split; [done|]. by constructor.
  - by apply Forall_cons in R_tmp as [_ ?].
  - rewrite length_app. cbn [length]. lia.
  - cbn [length] in R_few. lia.
Qed.

(** A reference taken to any object leaves the others' encodings. *)
Lemma incr_any {n args tmp a s} o v o2 ob2 : R n args tmp a s → len tmp < 8 → val_is (st_heap s) o v → 0 < owner s args tmp o →
  oencoding ob2 = REDIS_ENCODING_RAW → st_heap s !! o2 = Some ob2 →
  returns (upd_heap (λ h, incrRefCount h o)) s (λ _ s', R n args ((o, v) :: tmp) a s' ∧ ∃ ob', st_heap s' !! o2 = Some ob' ∧ oencoding ob' = REDIS_ENCODING_RAW).
Proof using KeyTableLaws0 KeyTableLaws1.
  intros HR Hl Hv Ho He Ho2. destruct (incr_ok o v HR Hl Hv Ho) as ([] & s' & E1 & HR' & _). exists tt, s'. split; [done|]. split; [done|].
  unfold upd_heap, mbind, incrRefCount in E1. destruct (st_heap s !! o) as [ob|] eqn:Eo; [|done]. cbn in E1. injection E1 as <-. cbn.
  destruct (decide (o = o2)) as [<- |Hne]; [rewrite lookup_insert_eq; eexists; split; [done|]; rewrite Eo in Ho2; injection Ho2 as <-; exact He|].
  rewrite lookup_insert_ne by done. by exists ob2.
Qed.

Lemma put_argv_heap h l l' s : put_argv l (put_heap h (put_argv l' s)) = put_argv l (put_heap h s).
Proof using Type. by destruct s. Qed.

(** Every argument of a list is released. *)
Lemma release_ok n old : ∀ args tmp a s, R n (old ++ args) tmp a s → len tmp < 8 →
  ∃ h', foldl (λ h o, h ← h; decrRefCount h o) (Some (st_heap s)) old.*1 = Some h' ∧ R n args tmp a (put_argv args.*1 (put_heap h' s)).
Proof using KeyTableLaws0 KeyTableLaws1.
  induction old as [|[o x] old IH]; intros args tmp a s HR Hl.
  - exists (st_heap s). split; [done|]. rewrite put_heap_id. cbn [app] in HR. pose proof (R_argv HR) as E1. destruct s. cbn in *. by subst.
  - cbn [app] in HR. destruct (decr_ok o _ (R_give o x tmp HR Hl)) as ([] & s1 & E1 & HR1 & Edb & _). unfold upd_heap, mbind in E1. cbn [st_heap put_argv] in E1.
    destruct (decrRefCount (st_heap s) o) as [h1|] eqn:Ed; [|done]. cbn in E1. injection E1 as <-.
    destruct (IH _ _ _ _ HR1 Hl) as (h2 & E2 & HR2). exists h2. cbn [fmap list_fmap fst foldl]. cbn [mbind option_bind]. rewrite Ed. split; [exact E2|].
    assert (put_argv args.*1 (put_heap h2 s) = put_argv args.*1 (put_heap h2 (put_heap h1 (put_argv (old ++ args).*1 s)))) as -> by (by destruct s). exact HR2.
Qed.

Lemma R_name {n args tmp a s} nm : R n args tmp a s → R n args tmp (set_name nm a) (put_cmd nm s).
Proof using Type. intros []. by split. Qed.

Lemma rewrite_ok {n args a s} o t key k nm : R n args [(o, VString t)] a s → (∃ ob, st_heap s !! o = Some ob ∧ oencoding ob = REDIS_ENCODING_RAW) → e_command env t = Some nm → is_key args key k → len args < 2 ^ 20 →
  returns (rewriteClientCommandVector env o key) s (λ _ s', R n [(o, mkArg t true); (key, mkArg k true)] [(o, VString t)] (set_name nm a) s').
Proof using KeyTableLaws0 KeyTableLaws1.
  intros HR (ob0 & Ho0 & He0) Hnm Hk Hl. pose proof (Forall_inv (R_tmp HR)) as Hv. cbn [fst snd] in Hv.
  eapply returns_bind; [refine (incr_any o (VString t) o _ HR _ Hv _ He0 Ho0); [cbn; lia|apply (tmp_owned o (VString t) HR); by left]|]. intros ? s1 (HR1 & ob1 & Ho1 & He1).
  destruct (arg_val _ _ HR1 Hk) as [Hvk Hok]. eapply returns_bind; [refine (incr_any key (VString k) o _ HR1 _ Hvk Hok He1 Ho1); cbn; lia|]. intros ? s2 (HR2 & ob2 & Ho2 & He2).
  eapply returns_step; [reflexivity|]. rewrite (R_argv HR2).
  assert (arg_is (st_heap s2) o (mkArg t true)) as Ha1.
  { pose proof (Forall_inv (Forall_inv_tail (R_tmp HR2))) as [(ob & Ho & Hs) Hlen]. exists ob. split; [done|]. split; [done|]. split; [|done]. intros _. cbn in Ho. congruence. }
  pose proof (R_arg key _ HR2 Hk) as Ha2. cbn [a_text] in *.
  pose proof (R_take o t _ _ (R_perm _ HR2 (perm_swap _ _ _)) Ha1 ltac:(lia)) as HR3.
  pose proof (R_take key k (mkArg k true) _ HR3 Ha2 ltac:(rewrite length_app; cbn [length]; lia)) as HR4. rewrite <- app_assoc in HR4. cbn [app] in HR4.
  destruct (release_ok n args _ _ _ _ HR4 ltac:(cbn; lia)) as (h' & Er & HR5). cbn [st_heap put_argv] in Er.
  eapply returns_step; [unfold upd_heap; rewrite Er; reflexivity|]. eapply returns_step; [reflexivity|]. cbn [fmap list_fmap fst] in HR5.
  match type of HR5 with context [put_argv [o; key] ?x] => assert (put_argv [o; key] x = put_argv [o; key] (put_heap h' s2)) as El by (by destruct s2) end. rewrite El in HR5.
  assert ([(o, mkArg t true); (key, mkArg k true)] !! 0%nat = Some (o, mkArg t true)) as H0 by done.
  destruct (arg_sds env 0 o t HR5 H0) as (p & Ep & Hp & _). eapply returns_step; [exact Ep|]. destruct (rep_read _ _ Hp) as [Em _]. eapply returns_step; [unfold lift; rewrite Em; reflexivity|].
  eapply returns_step; [unfold lift; rewrite Hnm; reflexivity|]. apply returns_puts. by apply R_name.
Qed.

(** ** Expiry *)

(** The arguments after [EXPIRE]: those of [DEL] if the key was deleted. *)
Definition expire_texts (ts : list text) k (deleted : bool) : list text := if deleted then [str "DEL"; k] else ts.

Lemma expire_now {n args a s} key k : R n args [] a s → args !! 1%nat = Some (key, mkArg k true) → length args = 3%nat → is_Some (vals a !! k) → e_command env (str "DEL") = Some (str "del") → cost args ≤ n →
  returns (r ← dbDelete key;
            assert (negb (r =? 0));;
            add_dirty 1;;
            aux ← on_heap (λ h, createStringObject junk h (str "DEL" ++ [0]) 3);
            rewriteClientCommandVector env aux key;;
            upd_heap (λ h, decrRefCount h aux);;
            signalModifiedKey key;;
            notifyKeyspaceEvent REDIS_NOTIFY_GENERIC (str "del") key;;
            add_reply env (sh_cone (e_shared env))) s
    (leaves n args [str "DEL"; k] (replied (reply_int 1) (notify REDIS_NOTIFY_GENERIC (str "del") k (modified k (set_name (str "del") (more_dirty 1 (del_key k a))))))).
Proof using All.
  intros HR H1 Hl [v Hv] Hcmd Hn. unfold cost in Hn. pose proof (key_at _ _ _ _ H1) as Hk. eapply returns_bind; [refine (dbDelete_ok _ _ HR Hk _); cbn; lia|]. intros r s1 [HR1 ->]. rewrite Hv.
  eapply returns_step; [reflexivity|]. eapply returns_bind; [exact (dirty_ok 1 HR1)|]. intros ? s2 [HR2 _].
  destruct (createStringObject_ok junk (st_heap s2) (str "DEL") [0] 3) as (o & q & Ec & Hn2 & Hq); [done|done|].
  eapply returns_step; [unfold on_heap; rewrite Ec; reflexivity|]. set (ob := mkObj REDIS_STRING REDIS_ENCODING_RAW 1 (PtrSds q)). set (s3 := put_heap (<[o:=ob]> (st_heap s2)) s2).
  assert (R n args [(o, VString (str "DEL"))] (more_dirty 1 (del_key k a)) s3) as HR3 by (apply (R_new env _ _ _ HR2 Hn2); [by split|done|by vm_compute|done]).
  eapply returns_bind; [refine (rewrite_ok o (str "DEL") key k (str "del") HR3 _ Hcmd Hk _); [exists ob; split; [apply lookup_insert_eq|done]|rewrite Hl; lia]|]. intros ? s4 HR4.
  eapply returns_bind; [exact (decr_ok o _ HR4)|]. intros ? s5 (HR5 & _).
  assert (is_key [(o, mkArg (str "DEL") true); (key, mkArg k true)] key k) as Hk5 by (right; left).
  eapply returns_bind; [exact (signal_ok _ _ HR5 Hk5)|]. intros ? s6 [HR6 _]. eapply returns_bind; [exact (notify_ok _ _ _ _ HR6 Hk5)|]. intros ? s7 [HR7 _].
  eapply returns_mono; [refine (add_reply_ok _ _ HR7 (perm_cone _ perm) _); lia|]. intros ? s8 [HR8 _]. eexists. split; [refine (R_less _ HR8 _); unfold cost; lia|done].
Qed.

Lemma expireGenericCommand_ok {n args a s} basetime unit_ key k o (d : argument) : R n args [] a s → all_raw args → args !! 1%nat = Some (key, k) → args !! 2%nat = Some (o, d) → length args = 3%nat →
  e_command env (str "DEL") = Some (str "del") → cost args ≤ n →
  returns (expireGenericCommand env basetime unit_) s
    (let r := spec_expire mstime loading masterhost basetime unit_ (a_text k) (a_text d) a in leaves n args (expire_texts (texts args) (a_text k) r.2) r.1).
Proof using All.
  intros HR Hraw H1 H2 Hl Hcmd Hn. cbv zeta. pose proof Hn as Hn'. unfold cost in Hn'. rewrite (raw_at _ _ _ _ Hraw H1) in H1. pose proof (key_at _ _ _ _ H1) as Hk.
  assert (∀ n' a1 s', R n' args [] a1 s' → n - 6 ≤ n' → leaves n args (texts args) a1 tt s') as Hkeep by (intros n' a1 s' HR' Hle; exists args; split; [refine (R_less _ HR' _); unfold cost; lia|done]).
  eapply returns_step; [exact (arg_eq _ _ _ HR H1)|]. eapply returns_step; [exact (arg_eq _ _ _ HR H2)|]. destruct (arg_at _ _ _ HR H2) as [Hv2 _].
  eapply returns_bind; [refine (number_ok _ _ HR Hv2 _); lia|]. intros r s1 [-> Hr1]. unfold spec_expire. destruct (text_number (a_text d)) as [w|].
  2:{ destruct Hr1 as [HR1 _]. apply returns_ret. cbn [fst snd expire_texts]. refine (Hkeep _ _ _ HR1 _). lia. }
  subst s1. cbv zeta. fold (deadline basetime unit_ w). set (when := deadline basetime unit_ w).
  eapply returns_bind; [refine (lookupKeyRead_ok _ _ HR Hk _); cbn; lia|]. intros r s1 [HR1 ->]. pose proof (present_map (a_text k) HR1) as Hp. set (a1 := purge (a_text k) a) in *.
  destruct (DbSpec.the_map s1 !! a_text k) as [o'|].
  2:{ rewrite bool_decide_eq_false_2 in Hp by (by intros []). rewrite <- Hp. cbn [negb fst snd expire_texts].
      eapply returns_mono; [refine (add_reply_ok _ _ HR1 (perm_czero _ perm) _); lia|]. intros [] s2 [HR2 _]. refine (Hkeep _ _ _ HR2 _). lia. }
  rewrite bool_decide_eq_true_2 in Hp by by eexists. rewrite <- Hp. cbn [negb]. symmetry in Hp. unfold present in Hp. apply bool_decide_eq_true in Hp.
  destruct ((when <=? mstime) && negb loading && negb masterhost).
  - cbn [fst snd expire_texts]. exact (expire_now key (a_text k) HR1 H1 Hl Hp Hcmd Hn).
  - cbn [fst snd expire_texts]. eapply returns_bind; [exact (setExpire_ok _ _ _ HR1 Hk Hp)|]. intros ? s2 [HR2 _].
    eapply returns_bind; [refine (add_reply_ok _ _ HR2 (perm_cone _ perm) _); lia|]. intros ? s3 [HR3 _].
    eapply returns_bind; [exact (signal_ok _ _ HR3 Hk)|]. intros ? s4 [HR4 _]. eapply returns_bind; [exact (notify_ok _ _ _ _ HR4 Hk)|]. intros ? s5 [HR5 _].
    eapply returns_mono; [exact (dirty_ok 1 HR5)|]. intros [] s6 [HR6 _]. refine (Hkeep _ _ _ HR6 _). lia.
Qed.

Lemma ttlGenericCommand_ok {n args a s} ms key k : R n args [] a s → all_raw args → args !! 1%nat = Some (key, k) → cost args ≤ n →
  returns (ttlGenericCommand env ms) s (leaves n args (texts args) (spec_ttl mstime loading masterhost ms (a_text k) a)).
Proof using All.
  intros HR Hraw H1 Hn. unfold cost in Hn. rewrite (raw_at _ _ _ _ Hraw H1) in H1. pose proof (key_at _ _ _ _ H1) as Hk. eapply returns_step; [exact (arg_eq _ _ _ HR H1)|].
  eapply returns_bind; [refine (lookupKeyRead_ok _ _ HR Hk _); cbn; lia|]. intros r s1 [HR1 ->]. pose proof (present_map (a_text k) HR1) as Hp. unfold spec_ttl. set (a1 := purge (a_text k) a) in *.
  destruct (DbSpec.the_map s1 !! a_text k) as [o'|].
  2:{ rewrite bool_decide_eq_false_2 in Hp by (by intros []). rewrite <- Hp. cbn [negb]. eapply returns_mono; [refine (add_long_ok _ HR1 _ _); [by unfold LLONG_MIN, LLONG_MAX|lia]|].
      intros ? s2 [HR2 _]. apply (leaves_same _ _ _ HR2); unfold cost; [lia|done]. }
  rewrite bool_decide_eq_true_2 in Hp by by eexists. rewrite <- Hp. cbn [negb]. eapply returns_bind; [exact (getExpire_ok _ _ HR1 Hk)|]. intros r s2 (HR2 & -> & _).
  assert (∀ z, LLONG_MIN ≤ z ≤ LLONG_MAX → returns (add_long env z) s2 (leaves n args (texts args) (replied (reply_int z) a1))) as Hadd.
  { intros z Hz. eapply returns_mono; [refine (add_long_ok _ HR2 Hz _); lia|]. intros ? s3 [HR3 _]. apply (leaves_same _ _ _ HR3); unfold cost; [lia|done]. }
  destruct (exps a1 !! a_text k) as [when|]; cbn [default from_option id].
  2:{ change (negb (-1 =? -1)) with false. cbv iota zeta. change (-1 =? -1) with true. cbv iota. apply Hadd. by unfold LLONG_MIN, LLONG_MAX. }
  cbv zeta. destruct (Z.eqb_spec when (-1)) as [->|Hne]; cbn [negb].
  { change (-1 =? -1) with true. cbv iota. apply Hadd. by unfold LLONG_MIN, LLONG_MAX. }
  set (left := s64 (when - mstime)). assert (- 2 ^ 63 ≤ left < 2 ^ 63) as Hleft by (apply (swrap_bound 64); lia).
  replace (if left <? 0 then 0 else left) with (Z.max 0 left) by (destruct (Z.ltb_spec left 0); lia). rewrite (proj2 (Z.eqb_neq (Z.max 0 left) (-1))) by lia. apply Hadd.
  unfold LLONG_MIN, LLONG_MAX. destruct ms; [lia|]. set (w := s64 (Z.max 0 left + 500)). assert (- 2 ^ 63 ≤ w < 2 ^ 63) as Hw by (apply (swrap_bound 64); lia).
  pose proof (Z.quot_rem w 1000 ltac:(lia)). pose proof (Z.rem_bound_abs w 1000 ltac:(lia)). lia.
Qed.

Lemma persistCommand_ok {n args a s} key k : R n args [] a s → all_raw args → args !! 1%nat = Some (key, k) → cost args ≤ n →
  returns (persistCommand env) s (leaves n args (texts args) (spec_persist (a_text k) a)).
Proof using All.
  intros HR Hraw H1 Hn. unfold cost in Hn. rewrite (raw_at _ _ _ _ Hraw H1) in H1. pose proof (key_at _ _ _ _ H1) as Hk. eapply returns_step; [exact (arg_eq _ _ _ HR H1)|].
  eapply returns_bind; [exact (lookupKey_ok _ _ HR Hk)|]. intros r s1 (HR1 & -> & E1). pose proof (present_map (a_text k) HR1) as Hp. unfold spec_persist.
  destruct (DbSpec.the_map s1 !! a_text k) as [o'|].
  2:{ rewrite bool_decide_eq_false_2 in Hp by (by intros []). rewrite <- Hp. cbn [andb]. eapply returns_mono; [refine (add_reply_ok _ _ HR1 (perm_czero _ perm) _); lia|].
      intros ? s2 [HR2 _]. apply (leaves_same _ _ _ HR2); unfold cost; [lia|done]. }
  rewrite bool_decide_eq_true_2 in Hp by by eexists. rewrite <- Hp. cbn [andb]. symmetry in Hp. unfold present in Hp. apply bool_decide_eq_true in Hp.
  eapply returns_bind; [exact (removeExpire_ok _ _ HR1 Hk Hp)|]. intros r s2 (HR2 & -> & _). case_bool_decide as He.
  - eapply returns_bind; [refine (add_reply_ok _ _ HR2 (perm_cone _ perm) _); lia|]. intros ? s3 [HR3 _]. eapply returns_mono; [exact (dirty_ok 1 HR3)|]. intros ? s4 [HR4 _].
    apply (leaves_same _ _ _ HR4); unfold cost; [lia|done].
  - assert (set_exps (delete (a_text k) (exps a)) a = a) as Ee by (rewrite delete_id; [apply set_exps_id|by apply eq_None_not_Some]). rewrite Ee in HR2.
    eapply returns_mono; [refine (add_reply_ok _ _ HR2 (perm_czero _ perm) _); lia|]. intros ? s3 [HR3 _]. apply (leaves_same _ _ _ HR3); unfold cost; [lia|done].
Qed.
End handlers.
