(* ===== verification/CommandThms.v ===== *)
(** * The commands as a whole

    Every handler implements its specification; what follows from the
    specifications for the key space. *)

From S2P Require Import Prelude Util Sds SdsText Object Number Client Table Reply ReplySpec ReplyText Server Commands DbSpec DbOps DbKeys DbReply DbObject CommandSpec StringOps KeyOps.
From stdpp Require Import gmap.
Local Open Scope Z_scope.

(** ** The table of commands *)

Inductive command :=
  | CGet | CSet | CSetnx | CSetex | CPsetex | CAppend | CStrlen | CDel | CExists | CSetrange | CGetrange
  | CIncr | CDecr | CMget | CIncrby | CDecrby | CGetset | CMset | CMsetnx
  | CExpire | CExpireat | CPexpire | CPexpireat | CTtl | CPttl | CPersist.

#[export] Instance command_eq_dec : EqDecision command.
Proof. solve_decision. Defined.

(** The number of arguments with the name; at least as many if negative. *)
Definition arity (c : command) : Z :=
  match c with
  | CGet | CStrlen | CExists | CIncr | CDecr | CTtl | CPttl | CPersist => 2
  | CSetnx | CAppend | CIncrby | CDecrby | CGetset | CExpire | CExpireat | CPexpire | CPexpireat => 3
  | CSetex | CPsetex | CSetrange | CGetrange => 4
  | CSet | CMset | CMsetnx => -3
  | CDel | CMget => -2
  end.

Definition arity_ok (c : command) (argc : Z) : bool :=
  negb (((arity c >? 0) && negb (arity c =? argc)) || (argc <? - arity c)).

Section handlers.
Context {T E : Type} `{!KeyTable T addr, !KeyTable E Z} (env : cmd_env).

Definition handler (c : command) : cmd T E unit :=
  match c with
  | CGet => getCommand env | CSet => setCommand env | CSetnx => setnxCommand env | CSetex => setexCommand env | CPsetex => psetexCommand env
  | CAppend => appendCommand env | CStrlen => strlenCommand env | CDel => delCommand env | CExists => existsCommand env
  | CSetrange => setrangeCommand env | CGetrange => getrangeCommand env | CIncr => incrCommand env | CDecr => decrCommand env
  | CMget => mgetCommand env | CIncrby => incrbyCommand env | CDecrby => decrbyCommand env | CGetset => getsetCommand env
  | CMset => msetCommand env | CMsetnx => msetnxCommand env | CExpire => expireCommand env | CExpireat => expireatCommand env
  | CPexpire => pexpireCommand env | CPexpireat => pexpireatCommand env | CTtl => ttlCommand env | CPttl => pttlCommand env | CPersist => persistCommand env
  end.
End handlers.

(** ** What they do *)

Section exec.
Context (mstime : Z) (loading masterhost : bool).
Implicit Types (a : kv) (k v t : text).
#[local] Abbreviation set_generic := (set_generic mstime loading masterhost).

Definition expire_of (basetime unit_ : Z) (ts : list text) k t a : kv * list text :=
  let r := spec_expire mstime loading masterhost basetime unit_ k t a in (r.1, expire_texts ts k r.2).

(** The state after, and the arguments as they are passed on. *)
Definition exec (c : command) (ts : list text) a : kv * list text :=
  match c, ts with
  | CGet, [_; k] => (spec_get mstime loading masterhost k a, ts)
  | CSet, _ :: k :: v :: l => (spec_set mstime loading masterhost k v l a, ts)
  | CSetnx, [_; k; v] => (set_generic REDIS_SET_NX k v None 0 (reply_int 1) (reply_int 0) a, ts)
  | CSetex, [_; k; t; v] => (set_generic REDIS_SET_NO_FLAGS k v (Some t) UNIT_SECONDS reply_ok reply_nil a, ts)
  | CPsetex, [_; k; t; v] => (set_generic REDIS_SET_NO_FLAGS k v (Some t) UNIT_MILLISECONDS reply_ok reply_nil a, ts)
  | CAppend, [_; k; v] => (spec_append mstime loading masterhost k v a, ts)
  | CStrlen, [_; k] => (spec_strlen mstime loading masterhost k a, ts)
  | CDel, _ :: ks => (spec_del mstime loading masterhost ks a, ts)
  | CExists, [_; k] => (spec_exists mstime loading masterhost k a, ts)
  | CSetrange, [_; k; t; v] => (spec_setrange mstime loading masterhost k t v a, ts)
  | CGetrange, [_; k; t1; t2] => (spec_getrange mstime loading masterhost k t1 t2 a, ts)
  | CIncr, [_; k] => (spec_incr mstime loading masterhost 1 k a, ts)
  | CDecr, [_; k] => (spec_incr mstime loading masterhost (-1) k a, ts)
  | CMget, _ :: ks => (spec_mget mstime loading masterhost ks a, ts)
  | CIncrby, [_; k; t] => (spec_incrby mstime loading masterhost id k t a, ts)
  | CDecrby, [_; k; t] => (spec_incrby mstime loading masterhost (λ n, s64 (- n)) k t a, ts)
  | CGetset, [_; k; v] => (spec_getset mstime loading masterhost k v a, ts)
  | CMset, _ :: l => (spec_mset mstime loading masterhost false l a, ts)
  | CMsetnx, _ :: l => (spec_mset mstime loading masterhost true l a, ts)
  | CExpire, [_; k; t] => expire_of mstime UNIT_SECONDS ts k t a
  | CExpireat, [_; k; t] => expire_of 0 UNIT_SECONDS ts k t a
  | CPexpire, [_; k; t] => expire_of mstime UNIT_MILLISECONDS ts k t a
  | CPexpireat, [_; k; t] => expire_of 0 UNIT_MILLISECONDS ts k t a
  | CTtl, [_; k] => (spec_ttl mstime loading masterhost false k a, ts)
  | CPttl, [_; k] => (spec_ttl mstime loading masterhost true k a, ts)
  | CPersist, [_; k] => (spec_persist k a, ts)
  | _, _ => (a, ts)
  end.
End exec.

(** The end of the range written by [SETRANGE] is a number. *)
Definition safe (c : command) (ts : list text) : Prop :=
  match c, ts with
  | CSetrange, [_; _; t; v] => ∀ off, text_number t = Some off → off + len v < 2 ^ 63
  | _, _ => True
  end.

(** What the parts of the environment promise. *)
Record env_ok (env : cmd_env) (h0 : oheap) : Prop := {
  env_malloc : ∀ s, 0 ≤ e_malloc_size env s < 2 ^ 33;
  env_shared : shared_perm env (h0 := h0);
  env_del : e_command env (str "DEL") = Some (str "del")
}.

Section theorems.
Context {T E : Type} `{!KeyTable T addr, !KeyTable E Z, !KeyTableLaws T addr, !KeyTableLaws E Z}.
Context (env : cmd_env) (base : addr → Z) (h0 : oheap) (st0 : list item) (c0 : redisClient).
#[local] Abbreviation R := (R (e_malloc_size env) (e_ae_create env) base h0 st0 c0).
#[local] Abbreviation exec := (exec (e_mstime env) (e_loading env) (e_masterhost env)).

Lemma neg_range x : LLONG_MIN ≤ x ≤ LLONG_MAX → LLONG_MIN ≤ s64 (- x) ≤ LLONG_MAX.
Proof. intros _. pose proof (swrap_bound 64 (- x) ltac:(lia)). unfold LLONG_MIN, LLONG_MAX. lia. Qed.

(** The state is in the relation, and the arguments fit the command. *)
Record ready c n args a (s : sys T E) : Prop := {
  ready_R : R n args [] a s;
  ready_raw : all_raw args;
  ready_arity : arity_ok c (len args) = true;
  ready_safe : safe c (texts args);
  ready_name : name_ok (cmd_name a);
  ready_cost : cost args ≤ n
}.

Lemma handlers_ok c n args a (s : sys T E) : env_ok env h0 → ready c n args a s →
  returns (handler env c) s (leaves env (base := base) (h0 := h0) (st0 := st0) (c0 := c0) n args (exec c (texts args) a).2 (exec c (texts args) a).1).
Proof.
  intros [Hms Hp Hdel] [HR Hraw Har Hsafe Hname Hn]. unfold arity_ok in Har. apply negb_true_iff, orb_false_iff in Har as [Hexact Hmin]. apply Z.ltb_ge in Hmin.
  assert (∀ m, arity c = m → 0 < m → len args = m) as Hlen.
  { intros m Em Hm. rewrite Em in Hexact. rewrite Z.gtb_ltb, (proj2 (Z.ltb_lt 0 m)) in Hexact by done. cbn [andb] in Hexact. apply negb_false_iff, Z.eqb_eq in Hexact. done. }
  destruct c; cbn [arity] in *; try (specialize (Hlen _ eq_refl eq_refl); destruct args as [|[o0 x0] [|[o1 x1] [|[o2 x2] [|[o3 x3] [|x4 args]]]]]; cbn [length] in Hlen; try lia);
    rename Hmin into Hargs; clear Hexact; cbn [handler].
  - exact (getCommand_ok env Hms Hp o1 x1 HR Hraw eq_refl Hn).
  - destruct args as [|[o0 x0] [|[o1 x1] [|[o2 x2] args]]]; cbn [length] in Hargs; try lia. exact (setCommand_ok env Hms Hp o1 x1 o2 x2 HR Hraw eq_refl eq_refl Hname Hn).
  - exact (setnxCommand_ok env Hms Hp o1 x1 o2 x2 HR Hraw eq_refl eq_refl Hname Hn).
  - exact (setex_ok env Hms Hp UNIT_SECONDS o1 x1 o2 x2 o3 x3 HR Hraw eq_refl eq_refl eq_refl Hname Hn).
  - exact (setex_ok env Hms Hp UNIT_MILLISECONDS o1 x1 o2 x2 o3 x3 HR Hraw eq_refl eq_refl eq_refl Hname Hn).
  - exact (appendCommand_ok env Hms Hp o1 x1 o2 x2 HR Hraw eq_refl eq_refl Hn).
  - exact (strlenCommand_ok env Hms Hp o1 x1 HR Hraw eq_refl Hn).
  - destruct args as [|[o0 x0] args]; [cbn in Hargs; lia|]. exact (delCommand_ok env Hms Hp HR Hraw ltac:(cbn; lia) Hn).
  - exact (existsCommand_ok env Hms Hp o1 x1 HR Hraw eq_refl Hn).
  - exact (setrangeCommand_ok env Hms Hp o1 x1 o2 x2 o3 x3 HR Hraw eq_refl eq_refl eq_refl Hn Hsafe).
  - exact (getrangeCommand_ok env Hms Hp o1 x1 o2 x2 o3 x3 HR Hraw eq_refl eq_refl eq_refl Hn).
  - exact (incrDecrCommand_ok env Hms Hp 1 o1 x1 HR Hraw eq_refl ltac:(by unfold LLONG_MIN, LLONG_MAX) Hn).
  - exact (incrDecrCommand_ok env Hms Hp (-1) o1 x1 HR Hraw eq_refl ltac:(by unfold LLONG_MIN, LLONG_MAX) Hn).
  - destruct args as [|[o0 x0] args]; [cbn in Hargs; lia|]. exact (mgetCommand_ok env Hms Hp HR Hraw ltac:(cbn in *; lia) Hn).
  - exact (incrby_ok env Hms Hp id o1 x1 o2 x2 HR Hraw eq_refl eq_refl (λ x Hx, Hx) Hn).
  - exact (incrby_ok env Hms Hp (λ n, s64 (- n)) o1 x1 o2 x2 HR Hraw eq_refl eq_refl neg_range Hn).
  - exact (getsetCommand_ok env Hms Hp o1 x1 o2 x2 HR Hraw eq_refl eq_refl Hn).
  - destruct args as [|[o0 x0] args]; [cbn in Hargs; lia|]. exact (msetGenericCommand_ok env Hms Hp false HR Hraw ltac:(cbn; lia) Hn).
  - destruct args as [|[o0 x0] args]; [cbn in Hargs; lia|]. exact (msetGenericCommand_ok env Hms Hp true HR Hraw ltac:(cbn; lia) Hn).
  - exact (expireGenericCommand_ok env Hms Hp (e_mstime env) UNIT_SECONDS o1 x1 o2 x2 HR Hraw eq_refl eq_refl eq_refl Hdel Hn).
  - exact (expireGenericCommand_ok env Hms Hp 0 UNIT_SECONDS o1 x1 o2 x2 HR Hraw eq_refl eq_refl eq_refl Hdel Hn).
  - exact (expireGenericCommand_ok env Hms Hp (e_mstime env) UNIT_MILLISECONDS o1 x1 o2 x2 HR Hraw eq_refl eq_refl eq_refl Hdel Hn).
  - exact (expireGenericCommand_ok env Hms Hp 0 UNIT_MILLISECONDS o1 x1 o2 x2 HR Hraw eq_refl eq_refl eq_refl Hdel Hn).
  - exact (ttlGenericCommand_ok env Hms Hp false o1 x1 HR Hraw eq_refl Hn).
  - exact (ttlGenericCommand_ok env Hms Hp true o1 x1 HR Hraw eq_refl Hn).
  - exact (persistCommand_ok env Hms Hp o1 x1 HR Hraw eq_refl Hn).
Qed.
End theorems.
