(* ===== verification/Observe.v ===== *)
(** * What the specifications of the commands guarantee

    Two equivalences and two preorders on the states of the key space.  States
    that agree differ only in keys past their time, and the commands cannot
    tell them apart.  A step is told if every key it changes was reported;
    it is quiet if it changed no more than what expired. *)

From S2P Require Import Prelude Util Object Number Reply Server Commands DbSpec DbKeys DbReply CommandSpec StringOps KeyOps CommandThms.
From stdpp Require Import gmap.
Local Open Scope Z_scope.

Section observe.
Context (strict : Prop) (mstime : Z) (loading masterhost : bool).
Implicit Types (a b : kv) (k t : text).
#[local] Abbreviation purge := (purge mstime loading masterhost).
#[local] Abbreviation expired := (expired mstime loading masterhost).
#[local] Abbreviation set_key := (set_key mstime loading masterhost).
#[local] Abbreviation exec := (exec mstime loading masterhost).

(** ** Agreement *)

(** The key is past its time. *)
Definition gone k a : bool := match exps a !! k with Some when => expired when | None => false end.

Definition live k a : option value * option Z := if gone k a then (None, None) else (vals a !! k, exps a !! k).

(** What a client and the rest of the server see beside the keys. *)
Definition visible a : list Z * list Z * Z := (out a, cmd_name a, dirty a).

(** Whether they see the same matters if [strict]. *)
Record agree a b : Prop := {
  agree_live : ∀ k, live k a = live k b;
  agree_visible : strict → visible a = visible b
}.

(** They agree, and on the key [k] they are the same. *)
Definition agree_at k a b : Prop := agree a b ∧ vals a !! k = vals b !! k ∧ exps a !! k = exps b !! k.

#[export] Instance agree_equiv : Equivalence agree.
Proof.
  split.
  - intros a. by split.
  - intros a b [H1 H2]. split; [done|]. intros Hs. by rewrite H2.
  - intros a b c [H1 H2] [H3 H4]. split; [congruence|]. intros Hs. by rewrite H2, H4.
Qed.

Lemma agree_at_agree k a b : agree_at k a b → agree a b.
Proof. by intros []. Qed.

Lemma live_purge k j a : live j (purge k a) = live j a.
Proof.
  unfold live, gone, DbKeys.purge. destruct (exps a !! k) as [when|] eqn:Ek; [|done]. destruct (expired when) eqn:Ex; [|done]. cbn [del_key event_of exps vals].
  destruct (decide (k = j)) as [<- |Hne]; [rewrite !lookup_delete_eq; by rewrite Ek, Ex|]. by rewrite !lookup_delete_ne.
Qed.

Lemma purge_rest k a : out (purge k a) = out a ∧ cmd_name (purge k a) = cmd_name a ∧ dirty (purge k a) = dirty a.
Proof. unfold DbKeys.purge. by destruct (exps a !! k) as [when|]; [destruct (expired when)|]. Qed.

(** Once a key was looked up, it is not past its time. *)
Lemma purge_gone k a : gone k (purge k a) = false.
Proof.
  unfold gone, DbKeys.purge. destruct (exps a !! k) as [when|] eqn:Ek; [|by rewrite Ek]. destruct (expired when) eqn:Ex; [|by rewrite Ek].
  cbn [del_key event_of exps]. by rewrite lookup_delete_eq.
Qed.

Lemma visible_purge k a : visible (purge k a) = visible a.
Proof. unfold visible. by destruct (purge_rest k a) as (-> & -> & ->). Qed.

Lemma purge_agree k a b : agree a b → agree_at k (purge k a) (purge k b).
Proof.
  intros [H1 H2].
  assert (live k (purge k a) = live k (purge k b)) as Hk by (by rewrite !live_purge). unfold live in Hk. rewrite !purge_gone in Hk. injection Hk as Hv He.
  split; [|done]. split; [intros j; by rewrite !live_purge|by rewrite !visible_purge].
Qed.

(** Updates at the key that was looked up. *)
Lemma agree_at_update k a b a' b' : agree_at k a b →
  (∀ j, j ≠ k → vals a' !! j = vals a !! j ∧ exps a' !! j = exps a !! j) → (∀ j, j ≠ k → vals b' !! j = vals b !! j ∧ exps b' !! j = exps b !! j) →
  vals a' !! k = vals b' !! k → exps a' !! k = exps b' !! k → (visible a = visible b → visible a' = visible b') → agree_at k a' b'.
Proof.
  intros [[H1 H2] _] Ha Hb Hv He Hvis. split; [|done]. split; [|by eauto]. intros j. destruct (decide (j = k)) as [-> |Hne].
  - unfold live, gone. by rewrite Hv, He.
  - specialize (H1 j). unfold live, gone in *. destruct (Ha j Hne) as [-> ->], (Hb j Hne) as [-> ->]. done.
Qed.

Lemma agree_put k v a b : agree_at k a b → agree_at k (put_val k v a) (put_val k v b).
Proof.
  intros H. pose proof H as [_ [_ He]]. apply (agree_at_update _ _ _ _ _ H); cbn; try done; [intros j Hj; by rewrite lookup_insert_ne..|by rewrite !lookup_insert_eq].
Qed.

Lemma agree_deadline k w a b : agree_at k a b → agree_at k (set_exps (<[k := w]> (exps a)) a) (set_exps (<[k := w]> (exps b)) b).
Proof.
  intros H. pose proof H as [_ [Hv _]]. apply (agree_at_update _ _ _ _ _ H); cbn; try done; [intros j Hj; by rewrite lookup_insert_ne..|by rewrite !lookup_insert_eq].
Qed.

Lemma agree_forever k a b : agree_at k a b → agree_at k (set_exps (delete k (exps a)) a) (set_exps (delete k (exps b)) b).
Proof.
  intros H. pose proof H as [_ [Hv _]]. apply (agree_at_update _ _ _ _ _ H); cbn; try done; [intros j Hj; by rewrite lookup_delete_ne..|by rewrite !lookup_delete_eq].
Qed.

Lemma agree_del k a b : agree_at k a b → agree_at k (del_key k a) (del_key k b).
Proof.
  intros H. apply (agree_at_update _ _ _ _ _ H); cbn; try done; [intros j Hj; by rewrite !lookup_delete_ne..|by rewrite !lookup_delete_eq|by rewrite !lookup_delete_eq].
Qed.

(** The rest of the state. *)
Lemma agree_rest a b a' b' : agree a b → vals a' = vals a → exps a' = exps a → vals b' = vals b → exps b' = exps b → (strict → visible a = visible b → visible a' = visible b') → agree a' b'.
Proof.
  intros [H1 H2] Ev Ee Fv Fe Hv. split; [|by eauto]. intros k. specialize (H1 k). unfold live, gone in *. by rewrite Ev, Ee, Fv, Fe.
Qed.

Lemma agree_replied w a b : agree a b → agree (replied w a) (replied w b).
Proof. intros H. apply (agree_rest a b); try done. intros _ [= Eo En Ed]. unfold visible. cbn. congruence. Qed.
Lemma agree_more n a b : agree a b → agree (more_dirty n a) (more_dirty n b).
Proof. intros H. apply (agree_rest a b); try done. intros _ [= Eo En Ed]. unfold visible. cbn. congruence. Qed.
Lemma agree_of e1 e2 a b : agree a b → agree (event_of e1 a) (event_of e2 b).
Proof. intros H. by apply (agree_rest a b). Qed.
Lemma agree_set_name nm a b : agree a b → agree (set_name nm a) (set_name nm b).
Proof. intros H. apply (agree_rest a b); try done. intros _ [= Eo En Ed]. unfold visible. cbn. congruence. Qed.

#[export] Instance replied_proper w : Proper (agree ==> agree) (replied w).
Proof. intros a b. apply agree_replied. Qed.
#[export] Instance dirty_proper n : Proper (agree ==> agree) (more_dirty n).
Proof. intros a b. apply agree_more. Qed.
#[export] Instance event_proper e : Proper (agree ==> agree) (event_of e).
Proof. intros a b. apply agree_of. Qed.

Lemma agree_event k e1 e2 a b : agree_at k a b → agree_at k (event_of e1 a) (event_of e2 b).
Proof. intros [H1 H2]. split; [by apply agree_of|done]. Qed.
Lemma agree_dirty_at k n a b : agree_at k a b → agree_at k (more_dirty n a) (more_dirty n b).
Proof. intros [H1 H2]. split; [by apply agree_more|done]. Qed.
Lemma agree_replied_at k w a b : agree_at k a b → agree_at k (replied w a) (replied w b).
Proof. intros [H1 H2]. split; [by apply agree_replied|done]. Qed.
Lemma agree_name_at k nm a b : agree_at k a b → agree_at k (set_name nm a) (set_name nm b).
Proof. intros [H1 H2]. split; [by apply agree_set_name|done]. Qed.

Lemma agree_present k a b : agree_at k a b → present k a = present k b.
Proof. intros [_ [Hv _]]. unfold present. by rewrite Hv. Qed.

Lemma agree_set_key k v a b : agree a b → agree_at k (set_key k v a) (set_key k v b).
Proof. intros H. apply agree_event. apply (agree_forever k (put_val k v (purge k a)) (put_val k v (purge k b))). apply agree_put, purge_agree, H. Qed.

Lemma agree_wrote k ev r a b : agree_at k a b → agree_at k (wrote k ev r a) (wrote k ev r b).
Proof. intros H. apply agree_replied_at, agree_dirty_at, agree_event, agree_event, H. Qed.
End observe.

Create HintDb agreement discriminated.
#[export] Hint Resolve agree_at_agree purge_agree agree_put agree_deadline agree_forever agree_del agree_event agree_dirty_at agree_replied_at agree_name_at
  agree_set_key agree_wrote agree_replied agree_more agree_of : agreement.

Ltac agrees := solve [eauto 10 with agreement].

Section agreement.
Context (strict : Prop) (mstime : Z) (loading masterhost : bool).
Implicit Types (a b : kv) (k t : text).
#[local] Abbreviation purge := (purge mstime loading masterhost).
#[local] Abbreviation set_key := (set_key mstime loading masterhost).
#[local] Abbreviation exec := (exec mstime loading masterhost).
#[local] Abbreviation agree := (agree strict mstime loading masterhost).
#[local] Abbreviation agree_at := (agree_at strict mstime loading masterhost).

(** ** No command tells states that agree apart *)

Lemma agree_refused flags k a b : agree a b →
  let x := refused mstime loading masterhost flags k a in let y := refused mstime loading masterhost flags k b in agree x.1 y.1 ∧ x.2 = y.2.
Proof.
  intros H. cbv zeta. unfold refused. pose proof (purge_agree _ _ _ _ k _ _ H) as Hp. pose proof (agree_present _ _ _ _ _ _ _ Hp) as Epr.
  destruct (negb (Z.land flags REDIS_SET_NX =? 0)); cbn [andb].
  - rewrite Epr. destruct (present k (purge k b)); [split; [agrees|done]|].
    destruct (negb (Z.land flags REDIS_SET_XX =? 0)); cbn [andb]; [|split; [agrees|done]].
    pose proof (purge_agree _ _ _ _ k _ _ (agree_at_agree _ _ _ _ _ _ _ Hp)) as Hp2. split; [agrees|]. cbn [snd]. by rewrite (agree_present _ _ _ _ _ _ _ Hp2).
  - destruct (negb (Z.land flags REDIS_SET_XX =? 0)); cbn [andb]; [|by split]. split; [agrees|]. cbn [snd]. by rewrite Epr.
Qed.

Lemma agree_store k v e ok a b : agree a b → agree (store mstime loading masterhost k v e ok a) (store mstime loading masterhost k v e ok b).
Proof.
  intros H. unfold store. destruct e as [when|]; apply (agree_at_agree _ _ _ _ k); [|agrees].
  do 3 (apply agree_replied_at || apply agree_event). apply (agree_deadline _ _ _ _ k when (more_dirty 1 (set_key k (VString v) a)) (more_dirty 1 (set_key k (VString v) b))). agrees.
Qed.

Lemma agree_set_generic flags k v e u ok abort a b : agree a b →
  agree (set_generic mstime loading masterhost flags k v e u ok abort a) (set_generic mstime loading masterhost flags k v e u ok abort b).
Proof.
  intros H. unfold set_generic.
  assert (match time_to_live e u a, time_to_live e u b with inl x, inl y => agree x y | inr x, inr y => x = y | _, _ => False end) as Ht.
  { unfold time_to_live. destruct e as [t|]; [|done]. destruct (text_number t) as [n|]; [|agrees]. destruct (n <=? 0); [|done].
    apply (agree_rest _ _ _ _ a b); try done. intros _ [= Eo En Ed]. unfold visible. cbn. congruence. }
  destruct (time_to_live e u a) as [x|ms], (time_to_live e u b) as [y|ms']; try done. subst ms'.
  pose proof (agree_refused flags k a b H) as [Hr Hn]. destruct (refused _ _ _ flags k a) as [a1 r1], (refused _ _ _ flags k b) as [b1 r2]. cbn [fst snd] in *. subst r2.
  destruct r1; [agrees|]. by apply agree_store.
Qed.

(** The shape most commands share: look the key up, then act on it. *)
Lemma agree_lookup k (f : option value → option Z → kv → kv) a b :
  (∀ a b, agree_at k a b → agree (f (vals a !! k) (exps a !! k) a) (f (vals a !! k) (exps a !! k) b)) → agree a b →
  agree (f (vals (purge k a) !! k) (exps (purge k a) !! k) (purge k a)) (f (vals (purge k b) !! k) (exps (purge k b) !! k) (purge k b)).
Proof. intros Hf H. pose proof (purge_agree _ _ _ _ k _ _ H) as Hp. pose proof Hp as [_ [<- <-]]. by apply Hf. Qed.

Lemma agree_incr n k a b : agree a b → agree (spec_incr mstime loading masterhost n k a) (spec_incr mstime loading masterhost n k b).
Proof.
  apply (agree_lookup k (λ v _ a, match v with Some (VOther _) => replied reply_wrongtype a | _ => add_to_counter n k a end)). intros x y Hxy.
  assert (agree (add_to_counter n k x) (add_to_counter n k y)).
  { unfold add_to_counter. destruct (Hxy) as [_ [<- _]]. destruct (counter _); [|agrees]. destruct (_ || _); agrees. }
  destruct (vals x !! k) as [[]|]; agrees.
Qed.

Lemma agree_foldl {A} (f : kv → A → kv) l a b : (∀ x a b, agree a b → agree (f a x) (f b x)) → agree a b → agree (foldl f a l) (foldl f b l).
Proof. intros Hf. revert a b. induction l as [|x l IH]; intros a b H; [done|]. cbn [foldl]. apply IH, Hf, H. Qed.

Lemma agree_mget_key k a b : agree a b → agree (mget_key mstime loading masterhost a k) (mget_key mstime loading masterhost b k).
Proof. apply (agree_lookup k (λ v _ a, replied (match v with Some (VString t) => reply_bulk t | _ => reply_nil end) a)). agrees. Qed.

Lemma agree_busy ks a b : agree a b → agree (busy mstime loading masterhost ks a).1 (busy mstime loading masterhost ks b).1 ∧ (busy mstime loading masterhost ks a).2 = (busy mstime loading masterhost ks b).2.
Proof.
  revert a b. induction ks as [|k ks IH]; intros a b H; [done|]. unfold busy. cbn [foldl]. cbv zeta. rewrite !busy_fold. cbn [fst snd].
  pose proof (purge_agree _ _ _ _ k _ _ H) as Hp. destruct (IH _ _ (agree_at_agree _ _ _ _ _ _ _ Hp)) as [H1 ->]. rewrite (agree_present _ _ _ _ _ _ _ Hp). done.
Qed.

Lemma agree_mset nx l a b : agree a b → agree (spec_mset mstime loading masterhost nx l a) (spec_mset mstime loading masterhost nx l b).
Proof.
  intros H. unfold spec_mset. destruct (Nat.odd _); [agrees|].
  assert (let x := if nx then busy mstime loading masterhost (pairs l).*1 a else (a, false) in let y := if nx then busy mstime loading masterhost (pairs l).*1 b else (b, false) in
    agree x.1 y.1 ∧ x.2 = y.2) as Hb by (destruct nx; [by apply agree_busy|by split]).
  cbv zeta in Hb. destruct (if nx then busy _ _ _ _ a else _) as [a1 r1], (if nx then busy _ _ _ _ b else _) as [b1 r2]. cbn [fst snd] in Hb. destruct Hb as [Hb ->].
  destruct r2; [agrees|]. apply agree_replied, agree_more, agree_foldl; [|done]. intros p x y Hxy. unfold mset_pair, notify. agrees.
Qed.

Lemma agree_del_keys ks a b : agree a b → agree (spec_del mstime loading masterhost ks a) (spec_del mstime loading masterhost ks b).
Proof.
  intros H. unfold spec_del. assert (∀ z, agree (foldl (del_one mstime loading masterhost) (a, z) ks).1 (foldl (del_one mstime loading masterhost) (b, z) ks).1 ∧
    (foldl (del_one mstime loading masterhost) (a, z) ks).2 = (foldl (del_one mstime loading masterhost) (b, z) ks).2) as Hf.
  { revert a b H. induction ks as [|k ks IH]; intros a b H z; [done|]. cbn [foldl]. unfold del_one at 2 4 6 8. cbn [fst snd].
    pose proof (purge_agree _ _ _ _ k _ _ H) as Hp. rewrite (agree_present _ _ _ _ _ _ _ Hp). destruct (present k (purge k b)); apply IH; unfold notify, modified; agrees. }
  destruct (Hf 0) as [H1 H2]. destruct (foldl _ (a, 0) ks) as [a1 z1], (foldl _ (b, 0) ks) as [b1 z2]. cbn [fst snd] in *. subst. agrees.
Qed.

Lemma agree_expire basetime u ts k t a b : agree a b →
  agree (expire_of mstime loading masterhost basetime u ts k t a).1 (expire_of mstime loading masterhost basetime u ts k t b).1 ∧
  (expire_of mstime loading masterhost basetime u ts k t a).2 = (expire_of mstime loading masterhost basetime u ts k t b).2.
Proof.
  intros H. unfold expire_of, spec_expire. destruct (text_number t) as [n|]; [|cbn; split; agrees]. cbv zeta.
  pose proof (purge_agree _ _ _ _ k _ _ H) as Hp. rewrite (agree_present _ _ _ _ _ _ _ Hp). destruct (negb (present k (purge k b))); [cbn; split; agrees|].
  destruct (_ && negb masterhost); cbn [fst snd]; (split; [|done]); unfold notify, modified; [agrees|].
  apply (agree_at_agree _ _ _ _ k). apply agree_dirty_at, agree_event, agree_event, agree_replied_at. by apply (agree_deadline _ _ _ _ k _ (purge k a) (purge k b)).
Qed.

Lemma agree_get k a b : agree a b → agree_at k (spec_get mstime loading masterhost k a) (spec_get mstime loading masterhost k b).
Proof. intros H. unfold spec_get. pose proof (purge_agree _ _ _ _ k _ _ H) as Hp. pose proof Hp as [_ [-> _]]. by apply agree_replied_at. Qed.

Lemma agree_getset k v a b : agree a b → agree (spec_getset mstime loading masterhost k v a) (spec_getset mstime loading masterhost k v b).
Proof.
  intros H%(agree_get k). unfold spec_getset, notify. pose proof H as [_ [-> _]]. destruct (vals (spec_get _ _ _ k b) !! k) as [[]|]; agrees.
Qed.

Lemma agree_setrange k t v a b : agree a b → agree (spec_setrange mstime loading masterhost k t v a) (spec_setrange mstime loading masterhost k t v b).
Proof.
  intros H. unfold spec_setrange. destruct (text_number t) as [n|]; [|agrees]. destruct (n <? 0); [agrees|].
  pose proof (purge_agree _ _ _ _ k _ _ H) as Hp. pose proof Hp as [_ [-> _]]. cbv zeta.
  destruct (vals (purge k b) !! k) as [[]|]; [|agrees|]; (destruct (bool_decide _); [agrees|]; destruct (_ >? _); agrees).
Qed.

Lemma agree_append k v a b : agree a b → agree (spec_append mstime loading masterhost k v a) (spec_append mstime loading masterhost k v b).
Proof.
  intros H. unfold spec_append. pose proof (purge_agree _ _ _ _ k _ _ H) as Hp. pose proof Hp as [_ [-> _]]. cbv zeta.
  destruct (vals (purge k b) !! k) as [[]|]; [destruct (_ >? _)|..]; agrees.
Qed.

(** A reply that only depends on the key. *)
Lemma agree_answer k (f : option value → option Z → text) a b : agree a b →
  agree (replied (f (vals (purge k a) !! k) (exps (purge k a) !! k)) (purge k a)) (replied (f (vals (purge k b) !! k) (exps (purge k b) !! k)) (purge k b)).
Proof. apply (agree_lookup k (λ o w a, replied (f o w) a)). intros x y H. agrees. Qed.

Lemma agree_incrby f k t a b : agree a b → agree (spec_incrby mstime loading masterhost f k t a) (spec_incrby mstime loading masterhost f k t b).
Proof. intros H. unfold spec_incrby. destruct (text_number t); [by apply agree_incr|agrees]. Qed.

Lemma agree_ttl ms k a b : agree a b → agree (spec_ttl mstime loading masterhost ms k a) (spec_ttl mstime loading masterhost ms k b).
Proof.
  apply (agree_answer k (λ o w, reply_int (if negb (@bool_decide (is_Some o) (is_Some_dec o)) then -2 else match w with None => -1 | Some when =>
    let left := Z.max 0 (s64 (when - mstime)) in if when =? -1 then -1 else if ms then left else Z.quot (s64 (left + 500)) 1000 end))).
Qed.

Lemma exec_agree c ts a b : c ≠ CPersist → agree a b → agree (exec c ts a).1 (exec c ts b).1 ∧ (exec c ts a).2 = (exec c ts b).2.
Proof.
  intros Hc H. unfold CommandThms.exec.
  destruct c; try done; repeat (destruct ts as [|? ts]; [by split|]); try (destruct ts as [|? ts]; [|by split]); try (by apply agree_expire); try (split; [|done]); cbn [fst].
  all: try (by apply agree_set_generic); try (by apply agree_incr); try (by apply agree_del_keys); try (by apply agree_mset).
  all: try (by apply agree_append); try (by apply agree_setrange); try (by apply agree_incrby); try (by apply agree_getset); try (by eapply agree_at_agree, agree_get).
  - unfold spec_set. destruct (options _ _ _ _) as [[[flags e] u]|]; [by apply agree_set_generic|agrees].
  - by eapply (agree_answer _ (λ o _, match o with None => reply_int 0 | Some (VString t) => reply_int (len t) | Some (VOther _) => reply_wrongtype end)).
  - by eapply (agree_answer _ (λ o _, reply_int (if @bool_decide (is_Some o) (is_Some_dec o) then 1 else 0))).
  - unfold spec_getrange. destruct (text_number _) as [i|]; [|agrees]. destruct (text_number _) as [j|]; [|agrees].
    by eapply (agree_answer _ (λ o _, match o with None => reply_empty | Some (VString t) => reply_bulk (substring t i j) | Some (VOther _) => reply_wrongtype end)).
  - apply agree_foldl; [|agrees]. intros. by apply agree_mget_key.
  - by apply agree_ttl.
  - by apply agree_ttl.
Qed.
End agreement.
