(* ===== verification/Effects.v ===== *)
(** * What the commands report

    Two preorders on the states of the key space.  A step is told if every key
    it changes was reported to whoever watches it, or was deleted because its
    time was past and this was passed on.  A step counts its changes if nothing a
    client can see changes unless the count of changes rises, by which the
    server knows what to save and to pass on. *)

From S2P Require Import Prelude Util Object Number Reply Server Commands DbSpec DbKeys DbReply CommandSpec StringOps KeyOps CommandThms Observe.
From stdpp Require Import gmap.
Local Open Scope Z_scope.

Section told.
Context (mstime : Z) (loading masterhost : bool).
Implicit Types (a b : kv) (k t : text).
#[local] Abbreviation purge := (purge mstime loading masterhost).
#[local] Abbreviation set_key := (set_key mstime loading masterhost).
#[local] Abbreviation exec := (exec mstime loading masterhost).

(** ** Told *)

Definition changed a b k : Prop := vals b !! k ≠ vals a !! k ∨ exps b !! k ≠ exps a !! k.
Definition reported (ev : list kevent) k : Prop := EvModified k ∈ ev ∨ EvPropagate [str "DEL"; k] ∈ ev.

(** The keys [o] are still to be reported. *)
Definition owes (o : gset text) a b : Prop := ∃ ev, events b = events a ++ ev ∧ ∀ k, changed a b k → k ∈ o ∨ reported ev k.

Definition told : kv → kv → Prop := owes ∅.

Lemma owes_trans o a b c : owes o a b → told b c → owes o a c.
Proof.
  intros (e1 & E1 & H1) (e2 & E2 & H2). exists (e1 ++ e2). split; [by rewrite E2, E1, <- app_assoc|]. unfold reported. setoid_rewrite elem_of_app.
  intros k Hk. destruct (decide (vals b !! k = vals a !! k)) as [Ev|Nv]; [destruct (decide (exps b !! k = exps a !! k)) as [Ee|Ne]|].
  - destruct (H2 k) as [?| [?|?]]; [unfold changed in *; by rewrite Ev, Ee|set_solver|by auto..].
  - destruct (H1 k) as [?| [?|?]]; [by right|auto..].
  - destruct (H1 k) as [?| [?|?]]; [by left|auto..].
Qed.

#[export] Instance told_preorder : PreOrder told.
Proof.
  split.
  - intros a. exists []. split; [by rewrite app_nil_r|]. by intros k [].
  - intros a b c. apply owes_trans.
Qed.

Lemma owes_refl o a : owes o a a.
Proof. exists []. split; [by rewrite app_nil_r|]. by intros k []. Qed.

Lemma owes_more o o' a b : o ⊆ o' → owes o a b → owes o' a b.
Proof. intros Ho (ev & E & H). exists ev. split; [done|]. intros k Hk. destruct (H k Hk); [left; set_solver|by right]. Qed.

Lemma owes_vals o k a b b' : owes o a b → k ∈ o → events b' = events b → (∀ j, j ≠ k → vals b' !! j = vals b !! j ∧ exps b' !! j = exps b !! j) → owes o a b'.
Proof.
  intros (ev & E & H) Hk E' Hj. exists ev. split; [congruence|]. intros j Hc. destruct (decide (j = k)) as [-> |Hne]; [by left|].
  apply H. unfold changed in *. by destruct (Hj j Hne) as [<- <-].
Qed.

Lemma owes_put o k v a b : k ∈ o → owes o a b → owes o a (put_val k v b).
Proof. intros Hk H. apply (owes_vals _ k _ _ _ H); [done..|]. intros j Hj. cbn. by rewrite lookup_insert_ne. Qed.
Lemma owes_deadline o k w a b c : k ∈ o → owes o a b → exps c = exps b → owes o a (set_exps (<[k := w]> (exps c)) b).
Proof. intros Hk H Ec. apply (owes_vals _ k _ _ _ H); [done..|]. intros j Hj. cbn. by rewrite Ec, lookup_insert_ne. Qed.
Lemma owes_forever o k a b c : k ∈ o → owes o a b → exps c = exps b → owes o a (set_exps (delete k (exps c)) b).
Proof. intros Hk H Ec. apply (owes_vals _ k _ _ _ H); [done..|]. intros j Hj. cbn. by rewrite Ec, lookup_delete_ne. Qed.
Lemma owes_del o k a b : k ∈ o → owes o a b → owes o a (del_key k b).
Proof. intros Hk H. apply (owes_vals _ k _ _ _ H); [done..|]. intros j Hj. cbn. by rewrite !lookup_delete_ne. Qed.

Lemma owes_event o e a b : owes o a b → owes o a (event_of e b).
Proof.
  intros (ev & E & H). exists (ev ++ [e]). split; [cbn; by rewrite E, <- app_assoc|]. intros k Hk. destruct (H k Hk) as [?| [?|?]]; [by left|..]; right; [left|right]; set_solver.
Qed.

(** A report of [k] leaves the other keys. *)
Lemma owes_report o k e a b : owes ({[k]} ∪ o) a b → e = EvModified k ∨ e = EvPropagate [str "DEL"; k] → owes o a (event_of e b).
Proof.
  intros (ev & E & H) He. exists (ev ++ [e]). split; [cbn; by rewrite E, <- app_assoc|]. intros j Hj. destruct (H j Hj) as [Hin| [?|?]]; [|right; left; set_solver|right; right; set_solver].
  apply elem_of_union in Hin as [->%elem_of_singleton|?]; [|by left]. right. destruct He as [-> | ->]; [left|right]; set_solver.
Qed.

Lemma owes_modified o k a b : owes ({[k]} ∪ o) a b → owes o a (event_of (EvModified k) b).
Proof. intros H. apply (owes_report _ k); auto. Qed.

Lemma owes_replied o w a b : owes o a b → owes o a (replied w b).
Proof. done. Qed.
Lemma owes_dirty o n a b : owes o a b → owes o a (more_dirty n b).
Proof. done. Qed.
Lemma owes_name o n a b : owes o a b → owes o a (set_name n b).
Proof. done. Qed.

(** Reported before the change. *)
Lemma told_purge k a : told a (purge k a).
Proof.
  unfold DbKeys.purge. destruct (exps a !! k) as [when|]; [|reflexivity]. destruct (expired _ _ _ when); [|reflexivity].
  exists [EvPropagate [str "DEL"; k]; EvNotify REDIS_NOTIFY_EXPIRED (str "expired") k]. split; [cbn [del_key event_of events]; by rewrite <- app_assoc|].
  intros j Hj. destruct (decide (j = k)) as [-> |Hne]; [right; right; set_solver|]. exfalso. unfold changed in Hj. cbn [del_key event_of vals exps] in Hj.
  rewrite !lookup_delete_ne in Hj by done. by destruct Hj.
Qed.

Lemma owes_purge o k a b : owes o a b → owes o a (purge k b).
Proof. intros H. apply (owes_trans _ _ b _ H), told_purge. Qed.
End told.

Create HintDb telling discriminated.
#[export] Hint Resolve owes_refl owes_replied owes_dirty owes_name owes_purge owes_modified : telling.
#[export] Hint Resolve owes_put owes_del owes_deadline owes_forever : telling.
#[export] Hint Resolve owes_event | 5 : telling.
#[export] Hint Extern 0 (_ ∈ _) => set_solver : telling.
#[export] Hint Extern 0 (exps _ = exps _) => reflexivity : telling.
Ltac tells := solve [eauto 30 with telling].

Section effects.
Context (mstime : Z) (loading masterhost : bool).
Implicit Types (a b : kv) (k t : text).
#[local] Abbreviation purge := (purge mstime loading masterhost).
#[local] Abbreviation set_key := (set_key mstime loading masterhost).
#[local] Abbreviation exec := (exec mstime loading masterhost).

Lemma owes_set_key o k v a b : owes o a b → owes o a (set_key k v b).
Proof.
  intros H. unfold DbKeys.set_key. cbv zeta. apply owes_modified. apply owes_forever; [set_solver|apply owes_put; [set_solver|]|reflexivity].
  apply owes_purge. by apply (owes_more o); [set_solver|].
Qed.

Lemma owes_wrote o k ev r a b : owes ({[k]} ∪ o) a b → owes o a (wrote k ev r b).
Proof. intros H. unfold wrote, notify, modified. tells. Qed.

#[local] Hint Resolve owes_set_key owes_wrote : telling.

Lemma told_refused flags k a : told a (refused mstime loading masterhost flags k a).1.
Proof. unfold refused, told. destruct (negb _), (negb _); cbn [andb]; repeat (destruct (present _ _); cbn [fst]); tells. Qed.

Lemma events_set_key k v a : ∃ ev, events (set_key k v a) = events a ++ ev ∧ EvModified k ∈ ev.
Proof.
  destruct (told_purge mstime loading masterhost k a) as (ev & E & _). exists (ev ++ [EvModified k]). split; [cbn; by rewrite E, <- app_assoc|set_solver].
Qed.

(** The time is set after the report. *)
Lemma told_deadline k w ev a b : told a b → events b = events a ++ ev → EvModified k ∈ ev → told a (set_exps (<[k := w]> (exps b)) b).
Proof.
  intros (ev' & E & H) E' Hin. assert (ev' = ev) as -> by (apply (app_inv_head (events a)); congruence). exists ev. split; [done|].
  intros j Hj. destruct (decide (j = k)) as [-> |Hne]; [right; by left|]. apply H. unfold changed in *. cbn [set_exps vals exps] in Hj. by rewrite lookup_insert_ne in Hj.
Qed.

Lemma told_store k v e ok a : told a (store mstime loading masterhost k v e ok a).
Proof.
  unfold store, notify. destruct e as [when|]; [|unfold told; tells]. apply owes_replied, owes_event, owes_event.
  destruct (events_set_key k (VString v) a) as (ev & E & Hin). refine (told_deadline k when ev a (more_dirty 1 (set_key k (VString v) a)) _ E Hin). unfold told. tells.
Qed.

Lemma told_set_generic flags k v e u ok abort a : told a (set_generic mstime loading masterhost flags k v e u ok abort a).
Proof.
  unfold set_generic. pose proof (told_refused flags k a) as Hr. destruct (refused _ _ _ flags k a) as [b no]. cbn [fst] in Hr.
  assert (∀ w, told a (replied w a)) as Hw by (unfold told; intros; tells).
  assert (∀ ms, told a (if no then replied abort b else store mstime loading masterhost k v (match e with Some _ => Some (s64 (mstime + ms)) | None => None end) ok b)) as Hs.
  { intros ms. destruct no; [by apply owes_replied|]. etrans; [exact Hr|apply told_store]. }
  unfold time_to_live. destruct e as [t|]; [|exact (Hs 0)]. destruct (text_number t) as [n|]; [|exact (Hw _)]. destruct (n <=? 0); [exact (Hw _)|exact (Hs _)].
Qed.

Lemma told_incr n k a : told a (spec_incr mstime loading masterhost n k a).
Proof.
  assert (∀ b, told b (add_to_counter n k b)) as Hc.
  { intros b. unfold add_to_counter, told. destruct (counter _); [destruct (_ || _)|]; tells. }
  assert (told a (purge k a)) as Hp by (unfold told; tells). unfold spec_incr. cbv zeta. etrans; [exact Hp|]. destruct (vals _ !! k) as [[]|]; try apply Hc. unfold told. tells.
Qed.

Lemma told_foldl {A} (f : kv → A → kv) l a : (∀ a x, told a (f a x)) → told a (foldl f a l).
Proof. intros Hf. revert a. induction l as [|x l IH]; intros a; [reflexivity|]. cbn [foldl]. etrans; [apply Hf|apply IH]. Qed.

Lemma told_foldl_fst {A B} (f : kv * B → A → kv * B) l p : (∀ p x, told p.1 (f p x).1) → told p.1 (foldl f p l).1.
Proof. intros Hf. revert p. induction l as [|x l IH]; intros p; [reflexivity|]. cbn [foldl]. etrans; [apply Hf|apply IH]. Qed.

Lemma told_mset nx l a : told a (spec_mset mstime loading masterhost nx l a).
Proof.
  unfold spec_mset. destruct (Nat.odd _); [unfold told; tells|].
  assert (told a (if nx then busy mstime loading masterhost (pairs l).*1 a else (a, false)).1) as Hb.
  { destruct nx; [|reflexivity]. unfold busy. apply (told_foldl_fst _ _ (a, false)). intros [b z] x. cbn. unfold told. tells. }
  destruct (if nx then _ else _) as [b no]. cbn [fst] in Hb. destruct no; [by apply owes_replied|]. apply owes_replied, owes_dirty. etrans; [exact Hb|].
  apply told_foldl. intros c [k v]. unfold mset_pair, notify, told. tells.
Qed.

Lemma told_del ks a : told a (spec_del mstime loading masterhost ks a).
Proof.
  unfold spec_del. assert (told a (foldl (del_one mstime loading masterhost) (a, 0) ks).1) as Hd.
  { apply (told_foldl_fst _ _ (a, 0)). intros [b z] k. unfold del_one. cbn [fst]. cbv zeta. destruct (present _ _); cbn [fst]; unfold notify, modified, told; tells. }
  destruct (foldl _ _ _). by apply owes_replied.
Qed.

Lemma told_expire basetime u ts k t a : told a (expire_of mstime loading masterhost basetime u ts k t a).1.
Proof.
  unfold expire_of, spec_expire, told. destruct (text_number t); cbn [fst]; [|tells]. cbv zeta. destruct (negb _); cbn [fst]; [tells|].
  destruct (_ && _); cbn [fst]; unfold notify, modified; [tells|]. apply owes_dirty, owes_event, owes_modified, owes_replied. apply owes_deadline; [set_solver|apply owes_purge; tells|done].
Qed.

(** ** Every command but [PERSIST] tells what it does *)
Lemma exec_told c ts a : c ≠ CPersist → told a (exec c ts a).1.
Proof.
  intros Hc. unfold CommandThms.exec.
  destruct c; try done; repeat (destruct ts as [|? ts]; [reflexivity|]); try (destruct ts as [|? ts]; [|reflexivity]); try apply told_expire; cbn [fst].
  all: try apply told_set_generic; try apply told_incr; try apply told_del; try apply told_mset.
  all: unfold told.
  - unfold spec_get. tells.
  - unfold spec_set. destruct (options _ _ _ _) as [[[flags e] u]|]; [apply told_set_generic|tells].
  - unfold spec_append. cbv zeta. destruct (vals _ !! _) as [[]|]; [destruct (_ >? _)|..]; tells.
  - unfold spec_strlen. tells.
  - unfold spec_exists. tells.
  - unfold spec_setrange. destruct (text_number _); [|tells]. destruct (_ <? 0); [tells|]. cbv zeta.
    destruct (vals _ !! _) as [[]|]; try tells; (destruct (bool_decide _); [tells|]; destruct (_ >? _); tells).
  - unfold spec_getrange. destruct (text_number _) as [i|]; [|tells]. destruct (text_number _) as [j|]; tells.
  - unfold spec_mget. apply (owes_trans _ _ (replied (reply_multi (len ts)) a)); [tells|]. apply told_foldl. intros b k. unfold mget_key, told. tells.
  - unfold spec_incrby. destruct (text_number _); [apply told_incr|tells].
  - unfold spec_incrby. destruct (text_number _); [apply told_incr|tells].
  - unfold spec_getset, spec_get, notify. cbv zeta. destruct (vals _ !! _) as [[]|]; tells.
  - unfold spec_ttl. tells.
  - unfold spec_ttl. tells.
Qed.
End effects.

Section tallied.
Context (mstime : Z) (loading masterhost : bool).
Implicit Types (a b : kv) (k t : text).
#[local] Abbreviation purge := (purge mstime loading masterhost).
#[local] Abbreviation set_key := (set_key mstime loading masterhost).
#[local] Abbreviation exec := (exec mstime loading masterhost).
#[local] Abbreviation live := (live mstime loading masterhost).

(** ** Changes are counted *)

(** The deletion of a key, as it is passed on. *)
Definition deletion (k : text) : list text := [str "DEL"; k].

(** The key space without the keys [ks]. *)
Definition without (ks : list text) a : kv := foldr del_key a ks.

Definition same a b : Prop := vals a = vals b ∧ exps a = exps b.

#[export] Instance same_equiv : Equivalence same.
Proof. split; [by intros a|intros a b [H1 H2]; by split|intros a b c [H1 H2] [H3 H4]; split; congruence]. Qed.

Lemma without_lookup ks a k : vals (without ks a) !! k = (if bool_decide (k ∈ ks) then None else vals a !! k) ∧ exps (without ks a) !! k = (if bool_decide (k ∈ ks) then None else exps a !! k).
Proof.
  induction ks as [|j ks [IH1 IH2]]; [by rewrite bool_decide_eq_false_2 by apply not_elem_of_nil|]. cbn [without foldr del_key vals exps]. fold (without ks a).
  destruct (decide (k = j)) as [-> |Hne].
  - rewrite !lookup_delete_eq, bool_decide_eq_true_2 by apply list_elem_of_here. done.
  - rewrite !lookup_delete_ne, IH1, IH2 by done. by rewrite !(bool_decide_ext (k ∈ j :: ks) (k ∈ ks)) by (rewrite elem_of_cons; naive_solver).
Qed.

Lemma without_same ks a b : same a b → same (without ks a) (without ks b).
Proof. intros [H1 H2]. split; apply map_eq; intros k; destruct (without_lookup ks a k) as [E1 E2], (without_lookup ks b k) as [F1 F2]; by rewrite ?E1, ?F1, ?E2, ?F2, ?H1, ?H2. Qed.

Lemma without_app ks1 ks2 a : same (without (ks1 ++ ks2) a) (without ks2 (without ks1 a)).
Proof.
  assert (∀ k, bool_decide (k ∈ ks1 ++ ks2) = bool_decide (k ∈ ks1) || bool_decide (k ∈ ks2)) as Hb.
  { intros k. rewrite (bool_decide_ext (k ∈ ks1 ++ ks2) (k ∈ ks1 ∨ k ∈ ks2)) by apply elem_of_app. apply bool_decide_or. }
  split; apply map_eq; intros k; destruct (without_lookup (ks1 ++ ks2) a k) as [E1 E2], (without_lookup ks1 a k) as [F1 F2], (without_lookup ks2 (without ks1 a) k) as [G1 G2];
    rewrite ?E1, ?E2, ?G1, ?G2, ?F1, ?F2, Hb; by destruct (bool_decide (k ∈ ks1)), (bool_decide (k ∈ ks2)).
Qed.

(** Nothing changed, except that keys past their time were dropped, and that was
    passed on. *)
Definition quiet a b : Prop :=
  ∃ ks ev, events b = events a ++ ev ∧ deletions ev = deletion <$> ks ∧ same b (without ks a) ∧ ∀ k, k ∈ ks → gone mstime loading masterhost k a = true.

#[export] Instance quiet_preorder : PreOrder quiet.
Proof.
  split.
  - intros a. exists [], []. split; [by rewrite app_nil_r|]. split; [done|]. split; [done|]. by intros k Hk%not_elem_of_nil.
  - intros a b c (k1 & e1 & E1 & D1 & S1 & H1) (k2 & e2 & E2 & D2 & S2 & H2). exists (k1 ++ k2), (e1 ++ e2).
    split; [by rewrite E2, E1, <- app_assoc|]. split; [unfold deletions in *; by rewrite omap_app, D1, D2, fmap_app|]. split.
    + etrans; [exact S2|]. etrans; [by apply without_same|]. symmetry. apply without_app.
    + intros k [Hk|Hk]%elem_of_app; [by apply H1|]. specialize (H2 k Hk). unfold gone in *. destruct S1 as [_ Se]. rewrite Se in H2.
      destruct (without_lookup k1 a k) as [_ El]. rewrite El in H2. by destruct (bool_decide _).
Qed.

Lemma quiet_live a b k : quiet a b → live k b = live k a.
Proof.
  intros (ks & ev & _ & _ & [Ev Ee] & H). destruct (without_lookup ks a k) as [E1 E2]. unfold Observe.live, gone in *. rewrite Ev, Ee, E1, E2.
  case_bool_decide as Hk; [|done]. specialize (H k Hk). by rewrite H.
Qed.

Lemma quiet_purge k a : quiet a (purge k a).
Proof.
  unfold DbKeys.purge. destruct (exps a !! k) as [when|] eqn:Ek; [|reflexivity]. destruct (expired _ _ _ when) eqn:Ex; [|reflexivity].
  exists [k], [EvPropagate (deletion k); EvNotify REDIS_NOTIFY_EXPIRED (str "expired") k]. split; [cbn [del_key event_of events]; by rewrite <- app_assoc|]. split; [done|]. split; [done|].
  intros j ->%list_elem_of_singleton. unfold gone. by rewrite Ek.
Qed.

(** Events that are not deletions. *)
Lemma quiet_keep a b b' ev : quiet a b → vals b' = vals b → exps b' = exps b → events b' = events b ++ ev → deletions ev = [] → quiet a b'.
Proof.
  intros (ks & e1 & E1 & D1 & [S1 S2] & H1) Ev Ee Ew Ed. exists ks, (e1 ++ ev). split; [by rewrite Ew, E1, <- app_assoc|].
  split; [unfold deletions in *; by rewrite omap_app, Ed, app_nil_r|]. split; [split; congruence|done].
Qed.

Definition tallied a b : Prop := dirty a ≤ dirty b ∧ (dirty b = dirty a → quiet a b).

#[export] Instance tallied_preorder : PreOrder tallied.
Proof.
  split; [done|]. intros a b c [H1 H2] [H3 H4]. split; [lia|]. intros E. etrans; [apply H2|apply H4]; lia.
Qed.

Lemma tallied_purge k a : tallied a (purge k a).
Proof. destruct (purge_rest mstime loading masterhost k a) as (_ & _ & E). split; [lia|]. intros _. apply quiet_purge. Qed.

Lemma tallied_more n a b : dirty a ≤ dirty b → 0 < n → tallied a (more_dirty n b).
Proof. intros H Hn. split; cbn; lia. Qed.

Lemma tallied_keep a b b' ev : tallied a b → vals b' = vals b → exps b' = exps b → dirty b' = dirty b → events b' = events b ++ ev → deletions ev = [] → tallied a b'.
Proof. intros [H1 H2] Ev Ee Ed Ew Hd. split; [lia|]. intros Eq. apply (quiet_keep a b b' ev); [apply H2; lia|done..]. Qed.

Lemma tallied_replied w a b : tallied a b → tallied a (replied w b).
Proof. intros H. apply (tallied_keep _ b _ [] H); try done. cbn. by rewrite app_nil_r. Qed.

Lemma tallied_refused flags k a : tallied a (refused mstime loading masterhost flags k a).1.
Proof.
  unfold refused. pose proof (tallied_purge k a). destruct (negb _), (negb _); cbn [andb]; repeat (destruct (present _ _); cbn [fst]); try done; try reflexivity;
    etrans; (done || apply tallied_purge).
Qed.

Lemma dirty_purge k a : dirty (purge k a) = dirty a.
Proof. apply purge_rest. Qed.

Lemma tallied_store k v e ok a : tallied a (store mstime loading masterhost k v e ok a).
Proof. unfold store, notify. split; destruct e; cbn; rewrite dirty_purge; lia. Qed.

Lemma tallied_wrote k ev r a b : dirty a ≤ dirty b → tallied a (wrote k ev r b).
Proof. intros H. unfold wrote, notify, modified. split; cbn; lia. Qed.

Lemma tallied_set_generic flags k v e u ok abort a : tallied a (set_generic mstime loading masterhost flags k v e u ok abort a).
Proof.
  unfold set_generic. pose proof (tallied_refused flags k a) as Hr. destruct (refused _ _ _ flags k a) as [b no]. cbn [fst] in Hr.
  assert (∀ w, tallied a (replied w a)) as Hw by (intros w; by apply tallied_replied).
  assert (∀ ms, tallied a (if no then replied abort b else store mstime loading masterhost k v (match e with Some _ => Some (s64 (mstime + ms)) | None => None end) ok b)) as Hs.
  { intros ms. destruct no; [by apply tallied_replied|]. etrans; [exact Hr|apply tallied_store]. }
  unfold time_to_live. destruct e as [t|]; [|exact (Hs 0)]. destruct (text_number t) as [n|]; [|exact (Hw _)]. destruct (n <=? 0); [exact (Hw _)|exact (Hs _)].
Qed.

Lemma tallied_incr n k a : tallied a (spec_incr mstime loading masterhost n k a).
Proof.
  assert (∀ b, tallied b (add_to_counter n k b)) as Hc.
  { intros b. unfold add_to_counter. destruct (counter _); [destruct (_ || _)|]; try (intros; by apply tallied_replied). by apply tallied_wrote. }
  unfold spec_incr. cbv zeta. etrans; [apply (tallied_purge k)|]. destruct (vals _ !! k) as [[]|]; try apply Hc. by apply tallied_replied.
Qed.

Lemma tallied_foldl {A} (f : kv → A → kv) l a : (∀ a x, tallied a (f a x)) → tallied a (foldl f a l).
Proof. intros Hf. revert a. induction l as [|x l IH]; intros a; [reflexivity|]. cbn [foldl]. etrans; [apply Hf|apply IH]. Qed.

Lemma tallied_foldl_fst {A B} (f : kv * B → A → kv * B) l p : (∀ p x, tallied p.1 (f p x).1) → tallied p.1 (foldl f p l).1.
Proof. intros Hf. revert p. induction l as [|x l IH]; intros p; [reflexivity|]. cbn [foldl]. etrans; [apply Hf|apply IH]. Qed.

Lemma dirty_foldl {A} (f : kv → A → kv) l a : (∀ a x, dirty (f a x) = dirty a) → dirty (foldl f a l) = dirty a.
Proof. intros Hf. revert a. induction l as [|x l IH]; intros a; [done|]. cbn [foldl]. by rewrite IH. Qed.

Lemma tallied_mset nx l a : tallied a (spec_mset mstime loading masterhost nx l a).
Proof.
  unfold spec_mset. destruct (Nat.odd _); [by apply tallied_replied|].
  assert (tallied a (if nx then busy mstime loading masterhost (pairs l).*1 a else (a, false)).1) as Hb.
  { destruct nx; [|reflexivity]. unfold busy. apply (tallied_foldl_fst _ _ (a, false)). intros [b z] x. apply tallied_purge. }
  destruct (if nx then _ else _) as [b no]. cbn [fst] in Hb. destruct no; [by apply tallied_replied|]. apply tallied_replied. etrans; [exact Hb|].
  destruct (pairs l) as [|p ps]; [apply (tallied_keep _ b _ []); try done; cbn; [lia|by rewrite app_nil_r]|]. apply tallied_more; [|cbn [length]; lia].
  rewrite dirty_foldl; [lia|]. intros c q. cbn. apply dirty_purge.
Qed.

Lemma tallied_del ks a : tallied a (spec_del mstime loading masterhost ks a).
Proof.
  unfold spec_del. assert (tallied a (foldl (del_one mstime loading masterhost) (a, 0) ks).1) as Hd.
  { apply (tallied_foldl_fst _ _ (a, 0)). intros [b z] k. unfold del_one. cbn [fst]. cbv zeta. destruct (present _ _); cbn [fst]; [|apply tallied_purge].
    apply tallied_more; [cbn; by rewrite dirty_purge|lia]. }
  destruct (foldl _ _ _). by apply tallied_replied.
Qed.

Lemma tallied_expire basetime u ts k t a : tallied a (expire_of mstime loading masterhost basetime u ts k t a).1.
Proof.
  unfold expire_of, spec_expire. destruct (text_number t); cbn [fst]; [|by apply tallied_replied]. cbv zeta. destruct (negb _); cbn [fst]; [apply tallied_replied, tallied_purge|].
  destruct (_ && _); cbn [fst]; unfold notify, modified; split; cbn; rewrite dirty_purge; lia.
Qed.

(** ** What a client can see does not change unless the count of changes rises *)
Lemma exec_tallied c ts a : tallied a (exec c ts a).1.
Proof.
  unfold CommandThms.exec.
  assert (∀ w k, tallied a (replied w (purge k a))) as Hrp by (intros; apply tallied_replied, tallied_purge).
  assert (∀ w, tallied a (replied w a)) as Hr by (intros; by apply tallied_replied).
  destruct c; try done; repeat (destruct ts as [|? ts]; [reflexivity|]); try (destruct ts as [|? ts]; [|reflexivity]); try apply tallied_expire; cbn [fst].
  all: try apply tallied_set_generic; try apply tallied_incr; try apply tallied_del; try apply tallied_mset; try apply Hrp.
  - unfold spec_set. destruct (options _ _ _ _) as [[[flags e] u]|]; [apply tallied_set_generic|apply Hr].
  - unfold spec_append. cbv zeta. destruct (vals _ !! _) as [[]|]; [destruct (_ >? _)|..]; try apply Hrp; apply tallied_wrote; cbn; by rewrite dirty_purge.
  - unfold spec_setrange. destruct (text_number _); [|apply Hr]. destruct (_ <? 0); [apply Hr|]. cbv zeta.
    destruct (vals _ !! _) as [[]|]; try apply Hrp; (destruct (bool_decide _); [apply Hrp|]; destruct (_ >? _); [apply Hrp|]; apply tallied_wrote; cbn; by rewrite dirty_purge).
  - unfold spec_getrange. destruct (text_number _) as [i|]; [|apply Hr]. destruct (text_number _) as [j|]; [apply Hrp|apply Hr].
  - unfold spec_mget. etrans; [apply (Hr (reply_multi (len ts)))|]. apply tallied_foldl. intros b k. unfold mget_key. apply tallied_replied, tallied_purge.
  - unfold spec_incrby. destruct (text_number _); [apply tallied_incr|apply Hr].
  - unfold spec_incrby. destruct (text_number _); [apply tallied_incr|apply Hr].
  - unfold spec_getset, spec_get, notify. cbv zeta. destruct (vals _ !! _) as [[]|]; try apply Hrp; split; cbn; rewrite dirty_purge; cbn; rewrite dirty_purge; lia.
  - unfold spec_persist. destruct (_ && _); [|apply Hr]. split; cbn; lia.
Qed.
End tallied.
