(* ===== verification/Passed.v ===== *)
(** * What a command passes on while it runs

    Looking up a key whose time is past deletes it and passes the deletion on.
    Nothing else is passed on before a command has run: what its events hold of
    it are deletions of keys that are among its arguments. *)

From S2P Require Import Prelude Util Object Number Reply Server Commands DbSpec DbKeys DbReply CommandSpec StringOps KeyOps CommandThms Observe Effects.
From stdpp Require Import gmap.
Local Open Scope Z_scope.

Definition passes (L : list text) (a b : kv) : Prop :=
  ∃ ev ks, events b = events a ++ ev ∧ deletions ev = deletion <$> ks ∧ ∀ k, k ∈ ks → k ∈ L.

#[export] Instance passes_preorder L : PreOrder (passes L).
Proof.
  split.
  - intros a. exists [], []. split; [by rewrite app_nil_r|]. split; [done|]. by intros k Hk%not_elem_of_nil.
  - intros a b c (e1 & k1 & E1 & D1 & H1) (e2 & k2 & E2 & D2 & H2). exists (e1 ++ e2), (k1 ++ k2). split; [by rewrite E2, E1, <- app_assoc|].
    split; [unfold deletions in *; by rewrite omap_app, D1, D2, fmap_app|]. intros k [Hk|Hk]%elem_of_app; auto.
Qed.

Section passed.
Context (mstime : Z) (loading masterhost : bool) (L : list text).
Implicit Types (a b : kv) (k t v : text) (ts : list text).
#[local] Abbreviation purge := (purge mstime loading masterhost).
#[local] Abbreviation set_key := (set_key mstime loading masterhost).
#[local] Abbreviation exec := (exec mstime loading masterhost).
#[local] Abbreviation passes := (passes L).

Lemma passes_refl a : passes a a.
Proof. reflexivity. Qed.
Lemma passes_keep a b b' : passes a b → events b' = events b → passes a b'.
Proof. intros (ev & ks & E & H). exists ev, ks. by rewrite <- E. Qed.
Lemma passes_event e a b : passes a b → deletions [e] = [] → passes a (event_of e b).
Proof.
  intros (ev & ks & E & D & H) He. exists (ev ++ [e]), ks. split; [cbn; by rewrite E, <- app_assoc|]. split; [|done]. unfold deletions in *. by rewrite omap_app, D, He, app_nil_r.
Qed.
Lemma passes_notify type e k a b : passes a b → passes a (notify type e k b).
Proof. intros H. by apply passes_event. Qed.
Lemma passes_modified k a b : passes a b → passes a (modified k b).
Proof. intros H. by apply passes_event. Qed.
Lemma passes_replied w a b : passes a b → passes a (replied w b).
Proof. intros H. by apply (passes_keep _ b). Qed.
Lemma passes_dirty n a b : passes a b → passes a (more_dirty n b).
Proof. intros H. by apply (passes_keep _ b). Qed.
Lemma passes_name n a b : passes a b → passes a (set_name n b).
Proof. intros H. by apply (passes_keep _ b). Qed.
Lemma passes_put k (x : value) a b : passes a b → passes a (put_val k x b).
Proof. intros H. by apply (passes_keep _ b). Qed.
Lemma passes_exps m a b : passes a b → passes a (set_exps m b).
Proof. intros H. by apply (passes_keep _ b). Qed.
Lemma passes_del k a b : passes a b → passes a (del_key k b).
Proof. intros H. by apply (passes_keep _ b). Qed.

Lemma passes_purge k a b : k ∈ L → passes a b → passes a (purge k b).
Proof.
  intros Hk H. etrans; [exact H|]. unfold DbKeys.purge. destruct (exps b !! k) as [when|]; [|reflexivity]. destruct (expired _ _ _ when); [|reflexivity].
  exists [EvPropagate (deletion k); EvNotify REDIS_NOTIFY_EXPIRED (str "expired") k], [k]. split; [cbn [del_key event_of events]; by rewrite <- app_assoc|]. split; [done|]. by intros j ->%list_elem_of_singleton.
Qed.
Lemma passes_set_key k (x : value) a b : k ∈ L → passes a b → passes a (set_key k x b).
Proof. intros Hk H. unfold DbKeys.set_key. cbv zeta. by apply passes_modified, passes_exps, passes_put, passes_purge. Qed.
Lemma passes_wrote k ev r a b : passes a b → passes a (wrote k ev r b).
Proof. intros H. unfold wrote. by apply passes_replied, passes_dirty, passes_notify, passes_modified. Qed.
End passed.

Create HintDb passing discriminated.
#[export] Hint Resolve passes_refl passes_notify passes_modified passes_replied passes_dirty passes_name passes_put passes_exps passes_del passes_purge passes_set_key passes_wrote : passing.
#[export] Hint Extern 0 (_ ∈ _) => assumption : passing.
Ltac pass := solve [eauto 20 with passing].

Section passed.
Context (mstime : Z) (loading masterhost : bool) (L : list text).
Implicit Types (a b : kv) (k t v : text) (ts : list text).
#[local] Abbreviation exec := (exec mstime loading masterhost).
#[local] Abbreviation passes := (passes L).

Lemma passes_foldl {A} (f : kv → A → kv) l a : (∀ a x, x ∈ l → passes a (f a x)) → passes a (foldl f a l).
Proof.
  revert a. induction l as [|x l IH]; intros a Hf; [reflexivity|]. cbn [foldl]. etrans; [apply Hf; left|apply IH]. intros. apply Hf. by right.
Qed.

Lemma passes_foldl_fst {A B} (f : kv * B → A → kv * B) l p : (∀ p x, x ∈ l → passes p.1 (f p x).1) → passes p.1 (foldl f p l).1.
Proof.
  revert p. induction l as [|x l IH]; intros p Hf; [reflexivity|]. cbn [foldl]. etrans; [apply Hf; left|apply IH]. intros. apply Hf. by right.
Qed.

Lemma passes_refused flags k a : k ∈ L → passes a (refused mstime loading masterhost flags k a).1.
Proof. intros Hk. unfold refused. destruct (negb _), (negb _); cbn [andb]; repeat (destruct (present _ _); cbn [fst]); pass. Qed.

Lemma passes_store k v e ok a : k ∈ L → passes a (store mstime loading masterhost k v e ok a).
Proof. intros Hk. unfold store. destruct e; cbv zeta; pass. Qed.

Lemma passes_set_generic flags k v e u ok abort a : k ∈ L → passes a (set_generic mstime loading masterhost flags k v e u ok abort a).
Proof.
  intros Hk. unfold set_generic. pose proof (passes_refused flags k a Hk) as Hr. destruct (refused _ _ _ flags k a) as [b no]. cbn [fst] in Hr.
  assert (∀ w, passes a (replied w a)) as Hw by (intros; pass).
  assert (∀ ms, passes a (if no then replied abort b else store mstime loading masterhost k v (match e with Some _ => Some (s64 (mstime + ms)) | None => None end) ok b)) as Hs.
  { intros ms. destruct no; [pass|]. etrans; [exact Hr|by apply passes_store]. }
  unfold time_to_live. destruct e as [t|]; [|exact (Hs 0)]. destruct (text_number t) as [n|]; [|exact (Hw _)]. destruct (n <=? 0); [exact (Hw _)|exact (Hs _)].
Qed.

Lemma passes_incr n k a : k ∈ L → passes a (spec_incr mstime loading masterhost n k a).
Proof.
  intros Hk. unfold spec_incr, add_to_counter. cbv zeta. destruct (vals _ !! k) as [[]|]; [destruct (counter _); [destruct (_ || _)|]|..|destruct (counter _); [destruct (_ || _)|]]; pass.
Qed.

Lemma pairs_keys (l : list text) p : p ∈ pairs l → p.1 ∈ l.
Proof.
  revert p. induction l as [l IH] using (induction_ltof1 _ length). destruct l as [|k [|v l]]; intros p; [by intros ?%not_elem_of_nil..|]. cbn [pairs].
  intros [->|Hp]%elem_of_cons; [left|]. right. right. apply (IH l); [unfold ltof; cbn; lia|done].
Qed.

Lemma passes_mset nx l a : (∀ k, k ∈ l → k ∈ L) → passes a (spec_mset mstime loading masterhost nx l a).
Proof.
  intros Hl. unfold spec_mset. destruct (Nat.odd _); [pass|].
  assert (passes a (if nx then busy mstime loading masterhost (pairs l).*1 a else (a, false)).1) as Hb.
  { destruct nx; [|reflexivity]. unfold busy. apply (passes_foldl_fst _ _ (a, false)). intros [b z] k Hk. cbn. apply list_elem_of_fmap in Hk as (p & -> & Hp).
    apply passes_purge; [by apply Hl, pairs_keys|reflexivity]. }
  destruct (if nx then _ else _) as [b no]. cbn [fst] in Hb. destruct no; [by apply passes_replied|]. apply passes_replied, passes_dirty. etrans; [exact Hb|].
  apply passes_foldl. intros c [k v] Hp. unfold mset_pair. apply passes_notify, passes_set_key; [by apply Hl, (pairs_keys l (k, v))|reflexivity].
Qed.

Lemma passes_dels ks a : (∀ k, k ∈ ks → k ∈ L) → passes a (spec_del mstime loading masterhost ks a).
Proof.
  intros Hl. unfold spec_del. assert (passes a (foldl (del_one mstime loading masterhost) (a, 0) ks).1) as Hd.
  { apply (passes_foldl_fst _ _ (a, 0)). intros [b z] k Hk%Hl. unfold del_one. cbn [fst]. cbv zeta. destruct (present _ _); cbn [fst]; pass. }
  destruct (foldl _ _ _). by apply passes_replied.
Qed.

Lemma passes_expire basetime u ts k t a : k ∈ L → passes a (expire_of mstime loading masterhost basetime u ts k t a).1.
Proof.
  intros Hk. unfold expire_of, spec_expire. destruct (text_number t); cbn [fst]; [|pass]. cbv zeta. destruct (negb _); cbn [fst]; [pass|]. destruct (_ && _); cbn [fst]; pass.
Qed.
End passed.

Lemma exec_passes m l h c ts a : passes ts a (exec m l h c ts a).1.
Proof.
  assert (∀ n k (l : list text), k ∈ n :: k :: l) as H1 by (intros; right; left).
  assert (∀ n (l : list text) k, k ∈ l → k ∈ n :: l) as H2 by (intros; by right).
  unfold exec. destruct c; try (destruct ts as [|n ts]; [reflexivity|]; cbn [fst]; first [apply passes_dels; intros; by apply H2|apply passes_mset; intros; by apply H2]);
    repeat (destruct ts as [|? ts]; [reflexivity|]); try (destruct ts as [|? ts]; [|reflexivity]); try (by apply passes_expire); cbn [fst].
  all: try (by apply passes_set_generic); try (by apply passes_incr).
  - pose proof (H1 l0 l1 []). unfold spec_get. pass.
  - pose proof (H1 l0 l1 (l2 :: ts)). unfold spec_set. destruct (options _ _ _ _) as [[[flags e] u]|]; [by apply passes_set_generic|pass].
  - pose proof (H1 l0 l1 [l2]). unfold spec_append. cbv zeta. destruct (vals _ !! _) as [[]|]; [destruct (_ >? _)|..]; pass.
  - pose proof (H1 l0 l1 []). unfold spec_strlen. pass.
  - pose proof (H1 l0 l1 []). unfold spec_exists. pass.
  - pose proof (H1 l0 l1 [l2; l3]). unfold spec_setrange. destruct (text_number _); [|pass]. destruct (_ <? 0); [pass|]. cbv zeta.
    destruct (vals _ !! _) as [[]|]; try pass; (destruct (bool_decide _); [pass|]; destruct (_ >? _); pass).
  - pose proof (H1 l0 l1 [l2; l3]). unfold spec_getrange. destruct (text_number _) as [i|]; [|pass]. destruct (text_number _) as [j|]; pass.
  - unfold spec_mget. etrans; [apply (passes_replied _ (reply_multi (len ts))), passes_refl|]. apply passes_foldl. intros b k Hk. unfold mget_key. apply passes_replied, passes_purge; [by apply H2|apply passes_refl].
  - unfold spec_incrby. destruct (text_number _); [by apply passes_incr|pass].
  - unfold spec_incrby. destruct (text_number _); [by apply passes_incr|pass].
  - pose proof (H1 l0 l1 [l2]). unfold spec_getset, spec_get. cbv zeta. destruct (vals _ !! _) as [[]|]; pass.
  - pose proof (H1 l0 l1 []). unfold spec_ttl. pass.
  - pose proof (H1 l0 l1 []). unfold spec_ttl. pass.
  - unfold spec_persist. destruct (_ && _); pass.
Qed.
