(* ===== verification/CommandProps.v ===== *)
(** * Properties of the commands

    What the handlers do to the state of the server, by way of their
    specifications: they implement them, they cannot see keys past their time,
    they report what they change, and they count it. *)

From S2P Require Import Prelude Util Sds SdsText Object Number Client Dict Table Reply ReplySpec ReplyText ReplyDeferred ReplyThms Server Commands DbSpec DbOps DbKeys DbReply DbObject CommandSpec StringOps KeyOps CommandThms Observe Effects.
From stdpp Require Import gmap.
Local Open Scope Z_scope.

Section props.
Context {T E : Type} `{!KeyTable T addr, !KeyTable E Z, !KeyTableLaws T addr, !KeyTableLaws E Z}.
Context (env : cmd_env) (base : addr → Z) (h0 : oheap) (st0 : list item) (c0 : redisClient).
Abbreviation R := (R (e_malloc_size env) (e_ae_create env) base h0 st0 c0).
Abbreviation ready := (ready env base h0 st0 c0).
Abbreviation exec := (exec (e_mstime env) (e_loading env) (e_masterhost env)).
Implicit Types s t : sys T E.

(** What a handler returns, and the state it leaves. *)
Lemma handler_exec c n args a s : env_ok env h0 → ready c n args a s →
  ∃ s' args', handler env c s = Some (tt, s') ∧ R (n - cost args) args' [] (exec c (texts args) a).1 s' ∧ texts args' = (exec c (texts args) a).2.
Proof using KeyTableLaws0 KeyTableLaws1. intros He Hr. destruct (handlers_ok env base h0 st0 c0 c n args a s He Hr) as ([] & s' & E1 & args' & HR & Et). by exists s', args'. Qed.

(** C1. Every handler of a command on strings and keys, in a state that stands
    for the key space [a], returns without a failed assertion or an access
    out of bounds, and leaves a state that stands for what the specification of
    the command says of [a] and of the texts of its arguments: the keys with
    their values and times, the reply in the client's output, the events in
    order and the count of changes.  The references to every object are
    accounted for before and after. *)
Theorem commands_refine c n args a s : env_ok env h0 → ready c n args a s →
  ∃ s' args', handler env c s = Some (tt, s') ∧ R (n - cost args) args' [] (exec c (texts args) a).1 s' ∧ texts args' = (exec c (texts args) a).2.
Proof using KeyTableLaws0 KeyTableLaws1. apply handler_exec. Qed.

(** C4. Keys past their time are not there: if two states differ only in such
    keys, whether they were deleted already or not, every command but
    [PERSIST] sends the client the same bytes in both, counts the same changes
    and leaves two states that differ only in such keys again. *)
Theorem expired_keys_invisible c n args argt a b s t : c ≠ CPersist → env_ok env h0 →
  ready c n args a s → ready c n argt b t → texts argt = texts args → agree True (e_mstime env) (e_loading env) (e_masterhost env) a b →
  ∃ s' t' args' argt' a' b', handler env c s = Some (tt, s') ∧ handler env c t = Some (tt, t') ∧
    R (n - cost args) args' [] a' s' ∧ R (n - cost argt) argt' [] b' t' ∧ texts argt' = texts args' ∧ out a' = out b' ∧ st_dirty s' = st_dirty t' ∧
    agree True (e_mstime env) (e_loading env) (e_masterhost env) a' b'.
Proof using KeyTableLaws0 KeyTableLaws1.
  intros Hc He Hs Ht Et Hab. destruct (handler_exec c n args a s He Hs) as (s' & args' & E1 & HR1 & Et1), (handler_exec c n argt b t He Ht) as (t' & argt' & E2 & HR2 & Et2).
  rewrite Et in HR2, Et2. destruct (exec_agree True (e_mstime env) (e_loading env) (e_masterhost env) c (texts args) a b Hc Hab) as [Ha Ep]. pose proof (agree_visible _ _ _ _ _ _ Ha I) as Hv. injection Hv as Ho En Ed.
  exists s', t', args', argt', (exec c (texts args) a).1, (exec c (texts args) b).1. split; [exact E1|]. split; [exact E2|]. split; [exact HR1|]. split; [exact HR2|].
  split; [congruence|]. split; [done|]. split; [by rewrite (R_dirty HR1), (R_dirty HR2)|done].
Qed.

(** C5. Every command but [PERSIST] reports what it changes: a key whose value or
    time is another after the command is among the keys signalled as
    modified while it ran, or its time was past and its deletion was passed on
    to the file and the slaves. *)
Theorem changes_are_told c n args a s : c ≠ CPersist → env_ok env h0 → ready c n args a s →
  ∃ s' args' a' ev, handler env c s = Some (tt, s') ∧ R (n - cost args) args' [] a' s' ∧ st_events s' = st_events s ++ ev ∧
    ∀ k, vals a' !! k ≠ vals a !! k ∨ exps a' !! k ≠ exps a !! k → EvModified k ∈ ev ∨ EvPropagate [str "DEL"; k] ∈ ev.
Proof using KeyTableLaws0 KeyTableLaws1.
  intros Hc He Hs. destruct (handler_exec c n args a s He Hs) as (s' & args' & E1 & HR1 & _).
  destruct (exec_told (e_mstime env) (e_loading env) (e_masterhost env) c (texts args) a Hc) as (ev & Ee & Hk). exists s', args', (exec c (texts args) a).1, ev. split; [done|]. split; [exact HR1|].
  split; [by rewrite (R_events HR1), (R_events (ready_R _ _ _ _ _ _ _ _ _ _ Hs)), Ee|]. intros k Hch. by destruct (Hk k Hch).
Qed.

(** C6. The count of changes never falls, and if it did not rise, no key that is
    not past its time is there, or lost, or has another value or time than
    before: what is saved, appended to the file and sent to the slaves only
    when the count rises is complete. *)
Theorem changes_are_counted c n args a s : env_ok env h0 → ready c n args a s →
  ∃ s' args' a', handler env c s = Some (tt, s') ∧ R (n - cost args) args' [] a' s' ∧ st_dirty s ≤ st_dirty s' ∧
    (st_dirty s' = st_dirty s → ∀ k, live (e_mstime env) (e_loading env) (e_masterhost env) k a' = live (e_mstime env) (e_loading env) (e_masterhost env) k a).
Proof using KeyTableLaws0 KeyTableLaws1.
  intros He Hs. destruct (handler_exec c n args a s He Hs) as (s' & args' & E1 & HR1 & _). exists s', args', (exec c (texts args) a).1. split; [done|]. split; [exact HR1|].
  rewrite (R_dirty HR1), (R_dirty (ready_R _ _ _ _ _ _ _ _ _ _ Hs)). destruct (exec_tallied (e_mstime env) (e_loading env) (e_masterhost env) c (texts args) a) as [Hle Hq].
  split; [exact Hle|]. intros Eq k. by apply quiet_live, Hq.
Qed.
End props.

(** ** Witnesses *)

(** A server with its permanent objects, a counter with a time, and a client
    that sends [INCR]. *)
Definition demo_more : list text := [reply_ok; reply_empty; reply_wrongtype; reply_syntax; [58]; str "DEL"].
Definition demo_words : list text := ReplyThms.demo_texts ++ demo_more.
Definition demo_word (i : nat) : addr := Z.to_pos (20001 + Z.of_nat i).
Definition demo_word_heap : oheap := list_to_map (imap (λ i m, (demo_word i, demo_text m)) demo_words).
Definition demo_base_heap : oheap := demo_word_heap ∪ demo_ints.
Definition demo_base (o : addr) : Z := if demo_base_heap !! o is Some _ then 1 else 0.
Definition demo_env : cmd_env :=
  mkEnv (λ _, 0) (λ _, 64) demo_limits 100 true
    (mkShared (demo_word 0) (demo_word 1) (demo_word 2) (demo_word 3) (demo_word <$> seq 4 32) (demo_word <$> seq 36 32))
    (mkSharedCommands (demo_word 68) (demo_word 69) (demo_word 70) (demo_word 71) (demo_word 72) (demo_word 73))
    demo_addr 0 0 1000 false false (λ t, if bool_decide (t = str "DEL") then Some (str "del") else None).

Lemma demo_base_bound o : demo_base o = 0 ∨ demo_base o = 1.
Proof. unfold demo_base. case_match; auto. Qed.

Lemma demo_base_held o ob : demo_base_heap !! o = Some ob → demo_base o = 1.
Proof. unfold demo_base. intros E. rewrite E. reflexivity. Qed.

Lemma demo_word_lookup i m : demo_words !! i = Some m → demo_word_heap !! demo_word i = Some (demo_text m).
Proof.
  intros E. assert ((λ i, demo_word_heap !! demo_word i) <$> seq 0 74 = (λ m, Some (demo_text m)) <$> demo_words) as Eall by (vm_compute; reflexivity).
  assert (i < 74)%nat as Hi by (apply lookup_lt_Some in E; exact E).
  pose proof (f_equal (lookup i) Eall) as Ei. rewrite !list_lookup_fmap, E, lookup_seq_lt in Ei by done. by injection Ei.
Qed.

Lemma demo_text_says m : len m ≤ 100 → obj_says (demo_text m) m.
Proof. intros Hl. split; [done|]. split; [done|]. split; [done|]. exists []. split; [done|cbn; lia]. Qed.

Lemma demo_permanent i m : demo_words !! i = Some m → len m ≤ 100 → permanent demo_base_heap (demo_word i) m.
Proof.
  intros E Hl. exists (demo_text m). split; [unfold demo_base_heap; apply lookup_union_Some_l; by apply demo_word_lookup|].
  split; [by apply demo_text_says|split; [done|unfold MAX_STRING; lia]].
Qed.

Lemma demo_word_inv o ob : demo_word_heap !! o = Some ob → 20000 < Zpos o < 30000 ∧ refcount ob = 1.
Proof.
  intros E. assert (map_Forall (λ o ob, 20000 < Zpos o < 30000 ∧ refcount ob = 1) demo_word_heap) as Hall by (apply (bool_decide_unpack _); vm_compute; exact I).
  exact (Hall o ob E).
Qed.

Lemma demo_base_lookup o ob : demo_base_heap !! o = Some ob → Zpos o < 30000 ∧ refcount ob = 1.
Proof.
  intros [E|[_ E]]%lookup_union_Some_raw; [apply demo_word_inv in E; lia|]. apply demo_ints_lookup in E as (v & Hv & -> & ->).
  unfold demo_addr, REDIS_SHARED_INTEGERS in *. cbn [refcount]. lia.
Qed.

Lemma demo_int v : 0 ≤ v < REDIS_SHARED_INTEGERS → demo_base_heap !! demo_addr v = Some (mkObj REDIS_STRING REDIS_ENCODING_INT 1 (PtrLong v)).
Proof.
  intros Hv. unfold demo_base_heap. rewrite lookup_union_r; [apply demo_ints_lookup; by exists v|].
  destruct (demo_word_heap !! demo_addr v) eqn:E; [|done]. apply demo_word_inv in E. unfold demo_addr, REDIS_SHARED_INTEGERS in *. lia.
Qed.

Lemma demo_env_ok : env_ok demo_env demo_base_heap.
Proof.
  split; [cbn; intros; lia| |done].
  assert (∀ p d j, 0 ≤ j < 32 → (∀ i, (i < 32)%nat → demo_words !! (d + i)%nat = Some (demo_header p (Z.of_nat i))) →
    ∃ o, mget (demo_word <$> seq d 32) j = Some o ∧ permanent demo_base_heap o (demo_header p j)) as Hhd.
  { intros p d j Hj Hd. destruct (printf_ld_ok j) as (Hr & Hl & Hnz); [unfold LONG_MIN, LONG_MAX; lia|].
    exists (demo_word (d + Z.to_nat j)). split.
    - apply mget_Some. split; [lia|]. rewrite list_lookup_fmap, lookup_seq_lt by lia. done.
    - apply demo_permanent; [rewrite Hd by lia; by rewrite Z2Nat.id by lia|]. unfold demo_header. cbn [length]. rewrite length_app. cbn [length]. lia. }
  split; try (by apply demo_permanent; vm_compute).
  - intros j Hj. apply (Hhd 42 4%nat); try done. intros i Hi. do 32 (destruct i as [|i]; [vm_compute; reflexivity|]). lia.
  - intros j Hj. apply (Hhd 36 36%nat); try done. intros i Hi. do 32 (destruct i as [|i]; [vm_compute; reflexivity|]). lia.
  - intros v Hv. eexists. split; [by apply demo_int|done].
Qed.

#[local] Opaque demo_base_heap demo_words demo_ints.

(** Three more objects: the name of the command, the key, the value. *)
Definition demo_name : addr := 30001.
Definition demo_key : addr := 30002.
Definition demo_value : addr := 30003.
Definition demo_server_heap : oheap := <[demo_name := demo_text (str "INCR")]> (<[demo_key := demo_text (str "n")]> (<[demo_value := demo_text (str "41")]> demo_base_heap)).
Definition demo_args : list (addr * argument) := [(demo_name, mkArg (str "INCR") true); (demo_key, mkArg (str "n") true)].

#[local] Instance demo_table : KeyTable (dict (list Z) addr) addr := dict_table 5381 1%positive true.
#[local] Instance demo_times : KeyTable (dict (list Z) Z) Z := dict_table 5381 0 true.
Definition demo_dict : dict (list Z) addr := match tbl_add dictCreate (str "n") demo_value with Some (d, _) => d | None => dictCreate end.
Definition demo_expires (when : Z) : dict (list Z) Z := match tbl_add dictCreate (str "n") when with Some (d, _) => d | None => dictCreate end.
Definition demo_server (when : Z) : sys (dict (list Z) addr) (dict (list Z) Z) :=
  mkSys demo_server_heap (demo_client (str "+OK")) [demo_name; demo_key] (str "incr") (mkDb demo_dict (demo_expires when) 0) 7 [] 0 0 0.
Definition demo_kv (when : Z) : kv := mkKv {[ str "n" := VString (str "41") ]} {[ str "n" := when ]} 7 [] [] (str "incr").

Lemma empty_ok {V} (d0 : V) : @tbl_ok _ _ (dict_table 5381 d0 true) dictCreate.
Proof. split; [by left; split_and!; [..|left]|constructor|done]. Qed.

Lemma one_entry {V} (d0 : V) k v : let t := match @tbl_add _ _ (dict_table 5381 d0 true) dictCreate k v with Some (d, _) => d | None => dictCreate end in
  @tbl_ok _ _ (dict_table 5381 d0 true) t ∧ @tbl_map _ _ (dict_table 5381 d0 true) t = {[ k := v ]}.
Proof.
  destruct (@tbl_add_ok _ _ _ (dict_table_laws 5381 d0 true) dictCreate k v) as (t & -> & Hok & Hm); [apply empty_ok|done|].
  split; [exact Hok|exact Hm].
Qed.

Lemma demo_map when : the_map (demo_server when) = {[ str "n" := demo_value ]} ∧ tbl_map (db_expires (st_db (demo_server when))) = {[ str "n" := when ]} ∧
  tbl_ok (db_dict (st_db (demo_server when))) ∧ tbl_ok (db_expires (st_db (demo_server when))).
Proof.
  destruct (one_entry 1%positive (str "n") demo_value) as [Hd Ed], (one_entry 0 (str "n") when) as [Hx Ex].
  split; [exact Ed|]. split; [exact Ex|]. by split.
Qed.

Lemma three_lookups (m : oheap) n k v : let h := <[demo_name := n]> (<[demo_key := k]> (<[demo_value := v]> m)) in
  h !! demo_name = Some n ∧ h !! demo_key = Some k ∧ h !! demo_value = Some v ∧ ∀ o, Zpos o < 30000 → h !! o = m !! o.
Proof.
  cbv zeta. split; [apply lookup_insert_eq|]. split; [rewrite lookup_insert_ne by done; apply lookup_insert_eq|].
  split; [rewrite !lookup_insert_ne by done; apply lookup_insert_eq|]. intros o Ho. unfold demo_name, demo_key, demo_value. by rewrite !lookup_insert_ne by lia.
Qed.

Lemma demo_lookups : demo_server_heap !! demo_name = Some (demo_text (str "INCR")) ∧ demo_server_heap !! demo_key = Some (demo_text (str "n")) ∧
  demo_server_heap !! demo_value = Some (demo_text (str "41")) ∧ ∀ o, Zpos o < 30000 → demo_server_heap !! o = demo_base_heap !! o.
Proof. apply three_lookups. Qed.

Lemma table_refs_one k x o : table_refs {[ k := x ]} o = if decide (x = o) then 1 else 0.
Proof. rewrite <- insert_empty, table_refs_insert by apply lookup_empty. unfold table_refs. rewrite map_to_list_empty. cbn. change (refs [] o) with 0. lia. Qed.

Lemma demo_owner when o : owner demo_base (demo_server when) demo_args [] o = demo_base o + refs [demo_value; demo_name; demo_key] o.
Proof.
  destruct (demo_map when) as (Em & _). unfold owner, held_by. rewrite Em, table_refs_one. cbn [fmap list_fmap snd fst app demo_args]. rewrite !refs_cons. lia.
Qed.

Lemma three_counted (m : oheap) (own : addr → Z) n k v : (∀ o ob, m !! o = Some ob → Zpos o < 30000 ∧ refcount ob = 1) →
  (∀ o, own o = (if m !! o is Some _ then 1 else 0) + refs [demo_value; demo_name; demo_key] o) → refcount n = 1 → refcount k = 1 → refcount v = 1 →
  ReplySpec.counted own (<[demo_name := n]> (<[demo_key := k]> (<[demo_value := v]> m))) [].
Proof.
  intros Hm Hown Hn Hk Hv o. rewrite Hown. change (refs [] o) with 0. destruct (three_lookups m n k v) as (E1 & E2 & E3 & Eo). rewrite !refs_cons. change (refs [] o) with 0.
  assert (∀ x : addr, 30000 < Zpos x → m !! x = None) as Hb by (intros x Hx; destruct (m !! x) eqn:E; [apply Hm in E; lia|done]).
  destruct (decide (demo_value = o)) as [<- |H3]; [rewrite E3, Hb, !decide_False by done; lia|].
  destruct (decide (demo_name = o)) as [<- |H1]; [rewrite E1, Hb, !decide_False by done; lia|].
  destruct (decide (demo_key = o)) as [<- |H2]; [rewrite E2, Hb by done; lia|].
  rewrite !lookup_insert_ne by done. destruct (m !! o) as [ob|] eqn:E; [|lia]. apply Hm in E as [_ ->]. lia.
Qed.

Lemma demo_server_counted when : ReplySpec.counted (owner demo_base (demo_server when) demo_args []) demo_server_heap [].
Proof.
  unfold demo_server_heap. refine (three_counted demo_base_heap _ (demo_text (str "INCR")) (demo_text (str "n")) (demo_text (str "41")) demo_base_lookup _ eq_refl eq_refl eq_refl).
  intros o. rewrite demo_owner. unfold demo_base. reflexivity.
Qed.

#[local] Opaque demo_server_heap.

Lemma singleton_rel (h : oheap) k o v : val_is h o v → vals_rel h {[ k := o ]} {[ k := v ]}.
Proof. intros Hv j. destruct (decide (k = j)) as [<- |Hne]; [by rewrite !lookup_singleton_eq|by rewrite !lookup_singleton_ne]. Qed.

Lemma singleton_sub {A B} k (x : A) (y : B) j : is_Some (({[ k := x ]} : gmap (list Z) A) !! j) → is_Some (({[ k := y ]} : gmap (list Z) B) !! j).
Proof. intros [w [<- _]%lookup_singleton_Some]. rewrite lookup_singleton_eq. by eexists. Qed.

Lemma demo_says o m : demo_server_heap !! o = Some (demo_text m) → len m ≤ 100 → arg_is demo_server_heap o (mkArg m true).
Proof. intros E Hl. exists (demo_text m). split; [exact E|]. split; [by apply demo_text_says|]. split; [intros _; reflexivity|]. unfold MAX_STRING. cbn [a_text]. lia. Qed.

Lemma demo_R when : DbSpec.R (e_malloc_size demo_env) (e_ae_create demo_env) demo_base demo_base_heap (bytes (str "+OK")) (demo_client (str "+OK")) 100 demo_args [] (demo_kv when) (demo_server when).
Proof.
  destruct (demo_map when) as (Em & Ee & Hd & He), demo_lookups as (E1 & E2 & E3 & Eo). split.
  - intros o. destruct (demo_base_bound o) as [-> | ->]; lia.
  - intros o ob E. rewrite (demo_base_held o ob E). reflexivity.
  - rewrite app_nil_r. eapply static_out_ok; [apply demo_server_counted|reflexivity|reflexivity].
  - reflexivity.
  - apply near_refl.
  - split; cbn; lia.
  - exact Hd.
  - exact He.
  - rewrite Em. apply singleton_rel. split; [exists (demo_text (str "41")); split; [exact E3|by apply demo_text_says]|by vm_compute].
  - exact Ee.
  - intros k. apply singleton_sub.
  - reflexivity.
  - constructor; [|constructor; [|constructor]]; cbn [fst snd]; (apply demo_says; [assumption|by vm_compute]).
  - constructor.
  - intros o ob E. exists ob. split; [exact (eq_trans (Eo o (proj1 (demo_base_lookup o ob E))) E)|]. split; [reflexivity|]. split; reflexivity.
  - cbn [vals demo_kv]. rewrite map_size_singleton. unfold MAX_KEYS. cbn [length demo_args]. lia.
  - reflexivity.
  - reflexivity.
  - reflexivity.
Qed.

Lemma demo_ready when : ready demo_env demo_base demo_base_heap (bytes (str "+OK")) (demo_client (str "+OK")) CIncr 100 demo_args (demo_kv when) (demo_server when).
Proof.
  split; [apply demo_R|repeat constructor|reflexivity|exact I| |by vm_compute].
  split; [by repeat constructor|split; [reflexivity|by vm_compute]].
Qed.

Abbreviation demo_R_of := (DbSpec.R (e_malloc_size demo_env) (e_ae_create demo_env) demo_base demo_base_heap (bytes (str "+OK")) (demo_client (str "+OK"))).

(** The counter is not past its time, at 5000. *)
Lemma commands_refine_witness : ∃ s' args', handler demo_env CIncr (demo_server 5000) = Some (tt, s') ∧
  demo_R_of 77 args' [] (CommandThms.exec 1000 false false CIncr [str "INCR"; str "n"] (demo_kv 5000)).1 s' ∧
  texts args' = (CommandThms.exec 1000 false false CIncr [str "INCR"; str "n"] (demo_kv 5000)).2.
Proof. exact (commands_refine demo_env demo_base demo_base_heap _ _ CIncr 100 demo_args _ _ demo_env_ok (demo_ready 5000)). Defined.

(** Two servers where it is, at 500 and at 600. *)
Lemma demo_agree : agree True 1000 false false (demo_kv 500) (demo_kv 600).
Proof.
  split; try done. intros k. unfold live, gone. cbn [exps vals demo_kv]. destruct (decide (str "n" = k)) as [<- |Hne]; [by rewrite !lookup_singleton_eq|by rewrite !lookup_singleton_ne].
Qed.

Lemma expired_keys_invisible_witness : ∃ s' t' args' argt' a' b', handler demo_env CIncr (demo_server 500) = Some (tt, s') ∧ handler demo_env CIncr (demo_server 600) = Some (tt, t') ∧
  demo_R_of 77 args' [] a' s' ∧ demo_R_of 77 argt' [] b' t' ∧ texts argt' = texts args' ∧ out a' = out b' ∧ st_dirty s' = st_dirty t' ∧ agree True 1000 false false a' b'.
Proof. exact (expired_keys_invisible demo_env demo_base demo_base_heap _ _ CIncr 100 demo_args demo_args _ _ _ _ ltac:(discriminate) demo_env_ok (demo_ready 500) (demo_ready 600) eq_refl demo_agree). Defined.

Lemma changes_are_told_witness : ∃ s' args' a' ev, handler demo_env CIncr (demo_server 500) = Some (tt, s') ∧ demo_R_of 77 args' [] a' s' ∧ st_events s' = ev ∧
  ∀ k, vals a' !! k ≠ vals (demo_kv 500) !! k ∨ exps a' !! k ≠ exps (demo_kv 500) !! k → EvModified k ∈ ev ∨ EvPropagate [str "DEL"; k] ∈ ev.
Proof. exact (changes_are_told demo_env demo_base demo_base_heap _ _ CIncr 100 demo_args _ _ ltac:(discriminate) demo_env_ok (demo_ready 500)). Defined.

Lemma changes_are_counted_witness : ∃ s' args' a', handler demo_env CIncr (demo_server 5000) = Some (tt, s') ∧ demo_R_of 77 args' [] a' s' ∧ 7 ≤ st_dirty s' ∧
  (st_dirty s' = 7 → ∀ k, live 1000 false false k a' = live 1000 false false k (demo_kv 5000)).
Proof. exact (changes_are_counted demo_env demo_base demo_base_heap _ _ CIncr 100 demo_args _ _ demo_env_ok (demo_ready 5000)). Defined.

(** ** Examples *)

(** The counter goes to 42, and starts again at 1 once its time is past. *)
Example incr_counts : out (CommandThms.exec 1000 false false CIncr [str "INCR"; str "n"] (demo_kv 5000)).1 = str ":42" ++ crlf.
Proof. reflexivity. Qed.

Example incr_starts_again : out (CommandThms.exec 1000 false false CIncr [str "INCR"; str "n"] (demo_kv 500)).1 = str ":1" ++ crlf.
Proof. reflexivity. Qed.

(** [PERSIST] does not look at the time: a key that is past it, and that no other
    command sees, is there for good. *)
Example persist_revives_expired_key :
  let a := demo_kv 500 in let a' := (CommandThms.exec 1000 false false CPersist [str "PERSIST"; str "n"] a).1 in
  out a' = str ":1" ++ crlf ∧ live 1000 false false (str "n") a = (None, None) ∧ live 1000 false false (str "n") a' = (Some (VString (str "41")), None) ∧ events a' = [].
Proof. split; [reflexivity|]. split; [reflexivity|]. split; reflexivity. Qed.

(** A time before 1970 is no time. *)
Example negative_time_never_comes : live 1000 false false (str "n") (demo_kv (-1)) = (Some (VString (str "41")), Some (-1)).
Proof. reflexivity. Qed.

(** [DECRBY] by the least number adds it. *)
Example decrby_least_adds : out (CommandThms.exec 1000 false false CDecrby [str "DECRBY"; str "m"; str "-9223372036854775808"] (demo_kv 500)).1 = str ":-9223372036854775808" ++ crlf.
Proof. reflexivity. Qed.

(** Seconds to live that wrap when they are turned into milliseconds: the time is
    before 1970 and never comes, and the reply says the key was set. *)
Example seconds_wrap : let a' := (CommandThms.exec 1000 false false CSetex [str "SETEX"; str "m"; str "27670116110564328"; str "v"] (demo_kv 500)).1 in
  out a' = str "+OK" ++ crlf ∧ live 1000 false false (str "m") a' = (Some (VString (str "v")), Some (-9223372036854774232)).
Proof. split; reflexivity. Qed.
