(* ===== verification/Input.v ===== *)
(** * Requests: the input side of [networking.c]

    What the socket delivers goes into the query buffer; complete requests, in
    the inline or the multi-bulk form, are parsed into the argument vector and
    executed one after the other.  A malformed request is answered with an error
    and the client is marked to be closed after its reply.

    The commands are an argument: [processCommand] acts on a world of its own
    type, the heap of objects and the client, and returns its result code. *)

From S2P Require Import Prelude Util Sds SdsText Object Client Reply.
From stdpp Require Import gmap.
Local Open Scope Z_scope.

Definition REDIS_IOBUF_LEN : Z := 1024 * 16.
Definition REDIS_INLINE_MAX_SIZE : Z := 1024 * 64.
Definition REDIS_MBULK_BIG_ARG : Z := 1024 * 32.
Definition REDIS_REQ_INLINE : Z := 1.
Definition REDIS_REQ_MULTIBULK : Z := 2.

(** [strchr(m + pos, c)]: the index of the character in [m], if it comes before
    the NUL. *)
Fixpoint strchr_from (fuel : nat) (m : list Z) (pos c : Z) : option (option Z) :=
  match fuel with
  | O => None
  | S fuel =>
      x ← mget m pos;
      if x =? c then Some (Some pos)
      else if x =? 0 then Some None
      else strchr_from fuel m (pos + 1) c
  end.

Section input_ops.
Context (junk : nat → Z) (malloc_size : sdshdr → Z).
Context (limits : Z → obuf_limit) (unixtime : Z) (ae_create : bool).
(** [server.client_max_querybuf_len] *)
Context (client_max_querybuf_len : Z).
Context {World : Type} (processCommand : World → oheap → redisClient → option (World * oheap * redisClient * Z)).
Implicit Types (h : oheap) (c : redisClient).

#[local] Abbreviation addReplyError := (addReplyError junk malloc_size limits unixtime ae_create).
#[local] Abbreviation addReplyErrorFormat := (addReplyErrorFormat junk malloc_size limits unixtime ae_create).

Definition qstrchr c (pos ch : Z) : option (option Z) :=
  let b := buf (querybuf (cin c)) in strchr_from (S (length b)) b pos ch.

(** The arguments are in an array of [argv_room] pointers. *)
Definition push_arg c (o : robj) : option redisClient :=
  let i := cin c in
  if len (argv i) <? argv_room i then Some (set_argv c (argv i ++ [o]) (argv_room i)) else None.

Definition freeClientArgv c : redisClient := set_argv c [] (argv_room (cin c)).

Definition resetClient c : redisClient :=
  let c := freeClientArgv c in
  let c := set_reqtype c 0 in
  let c := set_lens c 0 (-1) in
  if negb (has_flag c REDIS_MULTI) then set_flags c (Z.land (cflags c) (Z.lnot REDIS_ASKING)) else c.

Definition setProtocolError c (pos : Z) : option redisClient :=
  let c := set_flags c (Z.lor (cflags c) REDIS_CLOSE_AFTER_REPLY) in
  q ← sdsrange (querybuf (cin c)) pos (-1);
  Some (set_querybuf c q).

(** The reply, the mark and the error code. *)
Definition protocol_error h c (msg : list Z) (pos : Z) : option (oheap * redisClient * Z) :=
  '(h, c) ← addReplyError h c (msg ++ [0]);
  c ← setProtocolError c pos;
  Some (h, c, REDIS_ERR).

(** ** Inline requests *)

Fixpoint inline_args (args : list sdshdr) c : option redisClient :=
  match args with
  | [] => Some c
  | s :: args =>
      c ← (if negb (sdslen s =? 0) then push_arg c (mkObj REDIS_STRING REDIS_ENCODING_RAW 1 (PtrSds s)) else Some c);
      inline_args args c
  end.

Definition processInlineBuffer h c : option (oheap * redisClient * Z) :=
  let b := buf (querybuf (cin c)) in
  nl ← qstrchr c 0 10;
  match nl with
  | None =>
      if sdslen (querybuf (cin c)) >? REDIS_INLINE_MAX_SIZE
      then protocol_error h c (str "Protocol error: too big inline request") 0
      else Some (h, c, REDIS_ERR)
  | Some newline =>
      newline ← (if negb (newline =? 0)
                 then x ← mget b (newline - 1); Some (if x =? 13 then newline - 1 else newline)
                 else Some newline);
      let querylen := newline in
      aux ← sdsnewlen junk (Some b) querylen;
      args ← sdssplitargs junk (buf aux);
      match args with
      | None => protocol_error h c (str "Protocol error: unbalanced quotes in request") 0
      | Some args =>
          let c := if (querylen =? 0) && has_flag c REDIS_SLAVE then set_repl_ack_time c unixtime else c in
          q ← sdsrange (querybuf (cin c)) (querylen + 2) (-1);
          let c := set_querybuf c q in
          let c := set_argv c [] (if len args =? 0 then argv_room (cin c) else len args) in
          c ← inline_args args c;
          Some (h, c, REDIS_OK)
      end
  end.

(** ** Multi-bulk requests *)

(** One argument: [SBreak] when more bytes are needed, [SError] after a protocol
    error, otherwise the client and the position behind the argument. *)
Inductive bulk_step :=
  | SBreak (c : redisClient) (pos : Z)
  | SError (h : oheap) (c : redisClient)
  | SNext (c : redisClient) (pos : Z).

Definition bulk_error h c (msg : list Z) (pos : Z) : option bulk_step :=
  '(h, c, _) ← protocol_error h c msg pos; Some (SError h c).

(** [if (c->bulklen == -1) { ... }]: the length of the argument *)
Definition read_bulklen h c (pos : Z) : option bulk_step :=
  let q := querybuf (cin c) in
  nl ← qstrchr c pos 13;
  match nl with
  | None =>
      if sdslen q >? REDIS_INLINE_MAX_SIZE then bulk_error h c (str "Protocol error: too big bulk count string") 0
      else Some (SBreak c pos)
  | Some newline =>
      if newline >? s32 (sdslen q) - 2 then Some (SBreak c pos)
      else
        x ← mget (buf q) pos;
        if negb (x =? 36 (* '$' *)) then
          '(h, c) ← addReplyErrorFormat h c 38 (str "Protocol error: expected '$', got '" ++ [x] ++ str "'");
          c ← setProtocolError c pos;
          Some (SError h c)
        else
          txt ← mread (buf q) (pos + 1) (newline - (pos + 1));
          match string2ll txt with
          | Some ll =>
              if (ll <? 0) || (ll >? 512 * 1024 * 1024) then bulk_error h c (str "Protocol error: invalid bulk length") pos
              else
                let pos := pos + (newline - pos + 2) in
                '(c, pos) ← (if ll >=? REDIS_MBULK_BIG_ARG then
                    q ← sdsrange q pos (-1);
                    let qblen := sdslen q in
                    let q := if qblen <? u64 (ll + 2) then sdsMakeRoomFor junk q (u64 (ll + 2 - qblen)) else q in
                    Some (set_querybuf c q, 0)
                  else Some (c, pos));
                Some (SNext (set_lens c (multibulklen (cin c)) ll) pos)
          | None => bulk_error h c (str "Protocol error: invalid bulk length") pos
          end
  end.

(** The argument itself. *)
Definition read_bulk c (pos : Z) : option bulk_step :=
  let q := querybuf (cin c) in let bulklen := bulklen (cin c) in
  if u64 (sdslen q - pos) <? u32 (bulklen + 2) then Some (SBreak c pos)
  else
    '(c, pos) ← (if (pos =? 0) && (bulklen >=? REDIS_MBULK_BIG_ARG) && (s32 (sdslen q) =? bulklen + 2) then
        s ← sdsIncrLen q (-2);
        c ← push_arg c (mkObj REDIS_STRING REDIS_ENCODING_RAW 1 (PtrSds s));
        q ← sdsempty junk;
        Some (set_querybuf c (sdsMakeRoomFor junk q (bulklen + 2)), 0)
      else
        s ← sdsnewlen junk (Some (drop (Z.to_nat pos) (buf q))) bulklen;
        c ← push_arg c (mkObj REDIS_STRING REDIS_ENCODING_RAW 1 (PtrSds s));
        Some (c, pos + (bulklen + 2)));
    Some (SNext (set_lens c (multibulklen (cin c) - 1) (-1)) pos).

(** [while(c->multibulklen) { ... }] *)
Fixpoint bulk_loop (fuel : nat) h c (pos : Z) : option bulk_step :=
  if multibulklen (cin c) =? 0 then Some (SBreak c pos)
  else
    match fuel with
    | O => None
    | S fuel =>
        st ← (if bulklen (cin c) =? -1 then read_bulklen h c pos else Some (SNext c pos));
        match st with
        | SNext c pos =>
            st ← read_bulk c pos;
            match st with SNext c pos => bulk_loop fuel h c pos | _ => Some st end
        | _ => Some st
        end
    end.

(** The rest of the function, from the loop on. *)
Definition multibulk_args h c (pos : Z) : option (oheap * redisClient * Z) :=
  if negb (multibulklen (cin c) >? 0) then None
  else
    st ← bulk_loop (Z.to_nat (multibulklen (cin c))) h c pos;
    match st with
    | SError h c => Some (h, c, REDIS_ERR)
    | SBreak c pos | SNext c pos =>
        c ← (if negb (pos =? 0) then q ← sdsrange (querybuf (cin c)) pos (-1); Some (set_querybuf c q) else Some c);
        Some (h, c, if multibulklen (cin c) =? 0 then REDIS_OK else REDIS_ERR)
    end.

Definition processMultibulkBuffer h c : option (oheap * redisClient * Z) :=
  let q := querybuf (cin c) in
  if multibulklen (cin c) =? 0 then
    if negb (len (argv (cin c)) =? 0) then None
    else
      nl ← qstrchr c 0 13;
      match nl with
      | None =>
          if sdslen q >? REDIS_INLINE_MAX_SIZE then protocol_error h c (str "Protocol error: too big mbulk count string") 0
          else Some (h, c, REDIS_ERR)
      | Some newline =>
          if newline >? s32 (sdslen q) - 2 then Some (h, c, REDIS_ERR)
          else
            x ← mget (buf q) 0;
            if negb (x =? 42 (* '*' *)) then None
            else
              txt ← mread (buf q) 1 (newline - 1);
              match string2ll txt with
              | None => protocol_error h c (str "Protocol error: invalid multibulk length") 0
              | Some ll =>
                  if ll >? 1024 * 1024 then protocol_error h c (str "Protocol error: invalid multibulk length") 0
                  else
                    let pos := newline + 2 in
                    if ll <=? 0 then q ← sdsrange q pos (-1); Some (h, set_querybuf c q, REDIS_OK)
                    else
                      let c := set_lens c (s32 ll) (bulklen (cin c)) in
                      multibulk_args h (set_argv c [] (multibulklen (cin c))) pos
              end
      end
  else multibulk_args h c 0.

(** ** The loop over requests *)

(** [None] inside is a request type that is neither. *)
Definition one_request h c : option (oheap * redisClient * Z) :=
  if reqtype (cin c) =? REDIS_REQ_INLINE then processInlineBuffer h c
  else if reqtype (cin c) =? REDIS_REQ_MULTIBULK then processMultibulkBuffer h c
  else None.

Fixpoint processInputBuffer (fuel : nat) (w : World) h c : option (World * oheap * redisClient) :=
  if sdslen (querybuf (cin c)) =? 0 then Some (w, h, c)
  else if has_flag c REDIS_BLOCKED then Some (w, h, c)
  else if has_flag c REDIS_CLOSE_AFTER_REPLY then Some (w, h, c)
  else
    match fuel with
    | O => None
    | S fuel =>
        c ← (if reqtype (cin c) =? 0 then
               x ← mget (buf (querybuf (cin c))) 0;
               Some (set_reqtype c (if x =? 42 then REDIS_REQ_MULTIBULK else REDIS_REQ_INLINE))
             else Some c);
        '(h, c, r) ← one_request h c;
        if negb (r =? REDIS_OK) then Some (w, h, c)
        else if len (argv (cin c)) =? 0 then processInputBuffer fuel w h (resetClient c)
        else
          '(w, h, c, r) ← processCommand w h c;
          processInputBuffer fuel w h (if r =? REDIS_OK then resetClient c else c)
    end.

(** ** Reading *)

(** What the socket does with one [read]: deliver some of the bytes asked for,
    fail with [errno] set to [EAGAIN] or not, or tell that the other side has
    closed. *)
Inductive rresult := RBytes (m : list Z) | RFailed (again : bool).

(** The number of bytes asked for. *)
Definition read_size c : Z :=
  let i := cin c in
  if (reqtype i =? REDIS_REQ_MULTIBULK) && negb (multibulklen i =? 0) && negb (bulklen i =? -1) && (bulklen i >=? REDIS_MBULK_BIG_ARG)
  then let remaining := s32 (u64 (u32 (bulklen i + 2) - sdslen (querybuf i))) in
       if remaining <? REDIS_IOBUF_LEN then remaining else REDIS_IOBUF_LEN
  else REDIS_IOBUF_LEN.

(** The client unless it was freed. *)
Definition readQueryFromClient (r : rresult) (w : World) h c : option (World * oheap * option redisClient) :=
  let readlen := read_size c in
  let qblen := sdslen (querybuf (cin c)) in
  let c := if querybuf_peak (cin c) <? qblen then set_querybuf_peak c qblen else c in
  let c := set_querybuf c (sdsMakeRoomFor junk (querybuf (cin c)) (u64 readlen)) in
  match r with
  | RFailed true => Some (w, h, Some c)
  | RFailed false => Some (w, h, None)
  | RBytes m =>
      let m := take (Z.to_nat (u64 readlen)) m in
      if len m =? 0 then Some (w, h, None)
      else
        b ← mwrite (buf (querybuf (cin c))) qblen m;
        let q := querybuf (cin c) in
        q ← sdsIncrLen (mkSds (slen q) (sfree q) b) (len m);
        let c := set_lastinteraction (set_querybuf c q) unixtime in
        let c := if has_flag c REDIS_MASTER then set_reploff c (reploff c + len m) else c in
        if sdslen (querybuf (cin c)) >? client_max_querybuf_len then Some (w, h, None)
        else '(w, h, c) ← processInputBuffer (S (Z.to_nat (sdslen (querybuf (cin c))))) w h c; Some (w, h, Some c)
  end.
End input_ops.
