(* ===== verification/InputSpec.v ===== *)
(** * What the parsers read

    The behaviour of the parsers on the text [q] of the query buffer, whatever
    the text: where a line ends, when a length is accepted, what is left. *)

From S2P Require Import Prelude Util Sds SdsText Object Client Reply ReplySpec ReplyOps Input.
From stdpp Require Import gmap.
Local Open Scope Z_scope.

(** ** Text *)

(** The index of the first [ch], unless a NUL or the end comes first. *)
Fixpoint cfind (ch : Z) (l : list Z) : option Z :=
  match l with
  | [] => None
  | x :: l => if x =? ch then Some 0 else if x =? 0 then None else i ← cfind ch l; Some (1 + i)
  end.

Lemma cfind_app ch p l : Forall (λ x, x ≠ ch ∧ x ≠ 0) p → cfind ch (p ++ l) = (i ← cfind ch l; Some (len p + i)).
Proof.
  induction 1 as [|x p [H1 H2] Hp IH]; cbn [app cfind].
  - by destruct (cfind ch l).
  - rewrite (proj2 (Z.eqb_neq _ _) H1), (proj2 (Z.eqb_neq _ _) H2), IH. destruct (cfind ch l); [|done]. bsimpl. f_equal. cbn [length]. lia.
Qed.

Lemma cfind_Some ch l i : cfind ch l = Some i → ∃ p r, l = p ++ ch :: r ∧ i = len p ∧ Forall (λ x, x ≠ ch ∧ x ≠ 0) p.
Proof.
  revert i. induction l as [|x l IH]; intros i E; [done|]. cbn in E. destruct (Z.eqb_spec x ch) as [-> |H1]; [injection E as <-; by exists [], l|].
  destruct (Z.eqb_spec x 0) as [|H2]; [done|]. destruct (cfind ch l) as [j|]; [|done]. bsimpl in E. injection E as <-.
  destruct (IH j eq_refl) as (p & r & -> & -> & Hp). exists (x :: p), r. split; [done|]. split; [cbn [length]; lia|by constructor].
Qed.

Lemma strchr_from_ok ch q pre r fuel off :
  off = len pre → ch ≠ 0 → (length q < fuel)%nat →
  strchr_from fuel (pre ++ q ++ 0 :: r) off ch = Some (i ← cfind ch q; Some (off + i)).
Proof.
  intros -> Hch. revert pre fuel. induction q as [|x q IH]; intros pre fuel Hf; (destruct fuel as [|fuel]; [lia|]); cbn [strchr_from app].
  - rewrite mget_app by done. bsimpl. rewrite (proj2 (Z.eqb_neq 0 ch)) by done. done.
  - rewrite mget_app by done. bsimpl. cbn [cfind]. destruct (x =? ch); [bsimpl; f_equal; f_equal; lia|]. destruct (x =? 0); [done|].
    cbn [length] in Hf. replace (pre ++ x :: q ++ 0 :: r) with ((pre ++ [x]) ++ q ++ 0 :: r) by (by rewrite <- app_assoc).
    replace (len pre + 1) with (len (pre ++ [x])) by (rewrite length_app; cbn; lia). rewrite IH by lia.
    destruct (cfind ch q); [|done]. bsimpl. do 2 f_equal. rewrite length_app. cbn [length]. lia.
Qed.

Lemma qstrchr_ok c q pos ch :
  rep (querybuf (cin c)) q → 0 ≤ pos ≤ len q → ch ≠ 0 →
  qstrchr c pos ch = Some (i ← cfind ch (drop (Z.to_nat pos) q); Some (pos + i)).
Proof.
  unfold qstrchr. intros (r & -> & _) Hpos Hch. cbn [buf].
  assert (len (take (Z.to_nat pos) q) = pos) as Hl by (rewrite length_take; lia).
  replace (q ++ 0 :: r) with (take (Z.to_nat pos) q ++ drop (Z.to_nat pos) q ++ 0 :: r) by (by rewrite app_assoc, take_drop).
  rewrite strchr_from_ok; [done|by rewrite Hl|done|]. rewrite !length_app, length_drop. cbn [length]. lia.
Qed.

Lemma rep_mget s q pos x l : rep s q → 0 ≤ pos ≤ len q → drop (Z.to_nat pos) q = x :: l → mget (buf s) pos = Some x.
Proof.
  intros (r & -> & _) Hpos E. cbn [buf]. rewrite <- (take_drop (Z.to_nat pos) q), E, <- app_assoc. cbn [app]. apply mget_app. rewrite length_take. lia.
Qed.

Lemma rep_mread s q pos t l off n : rep s q → 0 ≤ pos ≤ len q → drop (Z.to_nat pos) q = t ++ l → off = pos → n = len t → mread (buf s) off n = Some t.
Proof.
  intros (r & -> & _) Hpos E -> ->. cbn [buf]. rewrite <- (take_drop (Z.to_nat pos) q), E, <- !app_assoc. apply mread_app; [rewrite length_take; lia|done].
Qed.

(** Trimming the buffer. *)
Lemma trim_ok s q pos :
  rep s q → 0 ≤ pos < 2 ^ 31 → len q < 2 ^ 31 → ∃ s', sdsrange s pos (-1) = Some s' ∧ rep s' (drop (Z.to_nat pos) q).
Proof.
  intros Hs Hpos Hl. destruct (sdsrange_ok s q pos (-1) Hs) as (s' & E & Hr); [lia|lia|]. exists s'. split; [done|].
  replace (drop (Z.to_nat pos) q) with (range q pos (-1)); [done|].
  unfold range. cbv zeta. rewrite (proj2 (Z.ltb_ge pos 0)) by lia. change (-1 <? 0) with true. cbv iota.
  rewrite take_ge; [done|]. rewrite length_drop. lia.
Qed.

(** ** States of the input *)

(** A client with another buffer, arguments and lengths. *)
Definition upd (c : redisClient) (qb : sdshdr) (av : list robj) (mbl bl : Z) : redisClient :=
  set_in c (mkIn qb (querybuf_peak (cin c)) av (argv_room (cin c)) (reqtype (cin c)) mbl bl).

Definition MAX_BULK : Z := 512 * 1024 * 1024.

(** The first line of [d] is [t], and what follows is [l]. *)
Definition first_line (d t l : list Z) : Prop := ∃ y, d = t ++ 13 :: y :: l ∧ Forall (λ x, x ≠ 13 ∧ x ≠ 0) t.
Definition no_line (d : list Z) : Prop := ∀ t l, ¬ first_line d t l.

Definition valid_len (lo hi : Z) (t : list Z) (ll : Z) : Prop := string2ll t = Some ll ∧ lo ≤ ll ≤ hi.
Definition invalid_len (lo hi : Z) (t : list Z) : Prop := ∀ ll, ¬ valid_len lo hi t ll.

Lemma valid_dec lo hi t : (∃ ll, valid_len lo hi t ll) ∨ invalid_len lo hi t.
Proof.
  unfold invalid_len, valid_len. destruct (string2ll t) as [ll|]; [|right; by intros ll []].
  destruct (decide (lo ≤ ll ≤ hi)); [left; by exists ll|right]. by intros ll' [[= <-] ?].
Qed.

Lemma line_cases d :
  (cfind 13 d = None ∧ no_line d) ∨ (∃ i, cfind 13 d = Some i ∧ len d < i + 2 ∧ no_line d) ∨
  ∃ t l, first_line d t l ∧ cfind 13 d = Some (len t) ∧ len t + 2 ≤ len d.
Proof.
  assert (∀ t l, first_line d t l → cfind 13 d = Some (len t) ∧ len t + 2 ≤ len d) as Hl.
  { intros t l (y & -> & Ht). rewrite cfind_app by done. cbn. split; [f_equal; lia|]. rewrite length_app. cbn [length]. lia. }
  destruct (cfind 13 d) as [i|] eqn:E; [|left; split; [done|]; intros t l H; by destruct (Hl t l H)].
  right. destruct (cfind_Some _ _ _ E) as (p & r & -> & -> & Hp). destruct r as [|y r].
  - left. exists (len p). split; [done|]. rewrite length_app. cbn [length]. split; [lia|].
    intros t l H. destruct (Hl t l H) as [[= <-] H2]. rewrite length_app in H2. cbn [length] in H2. lia.
  - right. exists p, r. split; [by exists y|]. split; [done|]. rewrite length_app. cbn [length]. lia.
Qed.

Section parsers.
Context (junk : nat → Z) (malloc_size : sdshdr → Z) (limits : Z → obuf_limit) (unixtime : Z) (ae_create : bool).
Context (malloc_size_bound : ∀ s, 0 ≤ malloc_size s < 2 ^ 33).
Implicit Types (h : oheap) (c : redisClient).
#[local] Abbreviation out_ok := (out_ok malloc_size).
#[local] Abbreviation addReplyErrorLength := (addReplyErrorLength junk malloc_size limits unixtime ae_create).
#[local] Abbreviation protocol_error := (protocol_error junk malloc_size limits unixtime ae_create).
#[local] Abbreviation read_bulklen := (read_bulklen junk malloc_size limits unixtime ae_create).

(** ** Errors *)

(** The reply with the message [m], and the mark. *)
Definition is_error h c (m : list Z) (pos : Z) (r : option (oheap * redisClient)) : Prop :=
  ∃ rest, r = '(h, c) ← addReplyErrorLength h c (m ++ rest) (len m); c ← setProtocolError c pos; Some (h, c).

(** What an error leaves. *)
Record failed (ext : addr → Z) h c (st : list item) (q m : list Z) (pos : Z) h' c' : Prop := {
  failed_out : out_ok ext h' c' (st ++ if accepts ae_create c then bytes (str "-ERR " ++ m ++ [13; 10]) else []);
  failed_keeps : keeps ext h h';
  failed_flag : has_flag c' REDIS_CLOSE_AFTER_REPLY = true;
  failed_query : rep (querybuf (cin c')) (drop (Z.to_nat pos) q);
  failed_lens : bulklen (cin c') = bulklen (cin c)
}.

Lemma close_flag c : has_flag (set_flags c (Z.lor (cflags c) REDIS_CLOSE_AFTER_REPLY)) REDIS_CLOSE_AFTER_REPLY = true.
Proof.
  unfold has_flag. cbn [cflags set_flags]. rewrite Z.land_lor_distr_l, Z.land_diag. apply negb_true_iff, Z.eqb_neq. intros E.
  apply Z.lor_eq_0_iff in E as [_ E]. done.
Qed.

Lemma is_error_ok ext h c st q m pos r :
  is_error h c m pos r → out_ok ext h c st → room 3 c → rep (querybuf (cin c)) q → 0 ≤ pos < 2 ^ 31 → len q < 2 ^ 31 → fits (len m) →
  ∃ h' c', r = Some (h', c') ∧ failed ext h c st q m pos h' c'.
Proof.
  intros (rest & ->) Hok Hroom Hq Hpos Hl Hm.
  destruct (addReplyErrorLength_ok junk malloc_size limits unixtime ae_create malloc_size_bound ext h c st m rest) as (h' & c' & -> & Hok' & Hn & Hk & _); [done..|].
  bsimpl. unfold setProtocolError. cbn [cin set_flags]. rewrite (near_in _ _ Hn).
  destruct (trim_ok _ _ pos Hq Hpos Hl) as (s & -> & Hs). bsimpl. eexists _, _. split; [done|].
  split; [|done|apply close_flag|done|cbn; by rewrite (near_in _ _ Hn)]. eapply out_ok_same; [|exact Hok']. done.
Qed.

Lemma addReplyError_eq h c m : Forall (λ x, x ≠ 0) m →
  addReplyError junk malloc_size limits unixtime ae_create h c (m ++ [0]) = addReplyErrorLength h c (m ++ [0]) (len m).
Proof. intros Hm. unfold addReplyError. by rewrite strlen_ok. Qed.

Lemma protocol_error_eq h c m pos : Forall (λ x, x ≠ 0) m →
  ∃ r, is_error h c m pos r ∧ protocol_error h c m pos = ('(h, c) ← r; Some (h, c, REDIS_ERR)).
Proof.
  intros Hm. eexists. split; [by exists [0]|]. unfold Input.protocol_error. rewrite addReplyError_eq by done.
  destruct (addReplyErrorLength h c (m ++ [0]) (len m)) as [[h' c']|]; [|done]. bsimpl. by destruct (setProtocolError c' pos).
Qed.

Definition expected_dollar (x : Z) : list Z := str "Protocol error: expected '$', got '" ++ [no_newline x] ++ str "'".

Lemma expected_dollar_eq h c x : x ≠ 0 →
  ∃ b, addReplyErrorFormat junk malloc_size limits unixtime ae_create h c 38 (str "Protocol error: expected '$', got '" ++ [x] ++ str "'") =
    addReplyErrorLength h c (expected_dollar x ++ b) (len (expected_dollar x)).
Proof.
  intros Hx. unfold addReplyErrorFormat. destruct (sdsempty_ok junk) as (s0 & -> & Hs0). bsimpl.
  set (m := str "Protocol error: expected '$', got '" ++ [x] ++ str "'").
  destruct (sdscatprintf_ok junk s0 [] 38 m Hs0) as (s & E & Hs); [|unfold fits; cbn; lia|].
  { unfold m. repeat (apply Forall_app; split); [repeat constructor; done|by apply Forall_singleton|repeat constructor; done]. }
  unfold sdscatprintf in E. rewrite E. bsimpl. destruct Hs as (r & -> & Hr). cbn [app] in *. cbn [buf sdslen slen]. rewrite Nat2Z.id.
  pose proof (map_loop_ok no_newline m [] (0 :: r)) as Em. cbn [app] in Em. change (len []) with 0 in Em. rewrite Em. clear Em. bsimpl. exists (0 :: r).
  assert (no_newline <$> m = expected_dollar x) as Em by reflexivity. rewrite <- Em, length_fmap. done.
Qed.

(** ** The length of an argument *)

(** The error for the text [d], in a buffer of [n] bytes. *)
Inductive bulk_bad : list Z → Z → list Z → Prop :=
  | bad_size d n : no_line d → REDIS_INLINE_MAX_SIZE < n → bulk_bad d n (str "Protocol error: too big bulk count string")
  | bad_dollar d n x t l : first_line d t l → head d = Some x → x ≠ 36 → bulk_bad d n (expected_dollar x)
  | bad_len d n t l : first_line d (36 :: t) l → invalid_len 0 MAX_BULK t → bulk_bad d n (str "Protocol error: invalid bulk length").

Lemma bulk_bad_fits d n m : bulk_bad d n m → fits (len m).
Proof. intros []; vm_compute; reflexivity. Qed.

Lemma make_room_rep s q n : rep s q → 0 ≤ n → fits (len q + n) → rep (sdsMakeRoomFor junk s n) q.
Proof. intros Hs Hn Hf. destruct (sdsMakeRoomFor_ok junk s q n Hs Hn Hf) as (r & -> & _ & Hr). by exists r. Qed.

(** What reading the length [ll] leaves, with [l] after it. *)
Definition got_len c (q l : list Z) (ll : Z) c' (pos' : Z) : Prop :=
  ∃ qb q', c' = upd c qb (argv (cin c)) (multibulklen (cin c)) ll ∧ rep qb q' ∧ 0 ≤ pos' ≤ len q' ∧ len q' ≤ len q ∧ drop (Z.to_nat pos') q' = l ∧
    (REDIS_MBULK_BIG_ARG ≤ ll → pos' = 0).

Lemma take_length_ok h c q pos t l ll nl :
  rep (querybuf (cin c)) q → 0 ≤ pos → fits (len q) → drop (Z.to_nat pos) q = t ++ l → len t = nl - pos + 2 → 0 ≤ nl - pos → 0 ≤ ll ≤ MAX_BULK →
  ∃ c' pos', ('(c, pos) ← (if ll >=? REDIS_MBULK_BIG_ARG then
        q ← sdsrange (querybuf (cin c)) (pos + (nl - pos + 2)) (-1);
        let qblen := sdslen q in
        let q := if qblen <? u64 (ll + 2) then sdsMakeRoomFor junk q (u64 (ll + 2 - qblen)) else q in
        Some (set_querybuf c q, 0)
      else Some (c, pos + (nl - pos + 2)));
    Some (SNext (set_lens c (multibulklen (cin c)) ll) pos)) = Some (SNext c' pos') ∧ got_len c q l ll c' pos'.
Proof.
  intros Hq Hpos Hf Ed Ht Hnl Hll. unfold fits, MAX_BULK in *.
  assert (len q = pos + len t + len l) as Hlq.
  { pose proof (f_equal length Ed) as E. rewrite length_drop, length_app in E.
    destruct (decide (pos ≤ len q)); [lia|]. rewrite drop_ge in Ed by lia. destruct t; [cbn in Ht; lia|done]. }
  assert (drop (Z.to_nat (pos + (nl - pos + 2))) q = l) as Edl.
  { replace (Z.to_nat (pos + (nl - pos + 2))) with (Z.to_nat pos + length t)%nat by lia. rewrite <- drop_drop, Ed. apply drop_app_length. }
  rewrite Z.geb_leb. destruct (Z.leb_spec REDIS_MBULK_BIG_ARG ll) as [Hb|Hb].
  - destruct (trim_ok _ q (pos + (nl - pos + 2)) Hq) as (s & -> & Hs); [lia|lia|]. rewrite Edl in Hs. bsimpl. cbv zeta.
    destruct (rep_buf s l Hs) as (_ & _ & El). rewrite El, uwrap_small by lia.
    eexists _, 0. split; [done|]. eexists _, l. split; [reflexivity|]. split_and!; try done; try lia.
    destruct (Z.ltb_spec (len l) (ll + 2)); [|done]. rewrite uwrap_small by lia. apply make_room_rep; [done|lia|unfold fits; lia].
  - bsimpl. eexists _, _. split; [done|]. exists (querybuf (cin c)), q. split; [reflexivity|]. split_and!; try done; try lia.
Qed.

Lemma read_bulklen_cases h c q pos :
  let d := drop (Z.to_nat pos) q in
  rep (querybuf (cin c)) q → 0 ≤ pos ≤ len q → fits (len q) →
  (read_bulklen h c pos = Some (SBreak c pos) ∧ no_line d ∧ (cfind 13 d = None → len q ≤ REDIS_INLINE_MAX_SIZE)) ∨
  (∃ m p r, read_bulklen h c pos = ('(h, c) ← r; Some (SError h c)) ∧ is_error h c m p r ∧ 0 ≤ p ≤ pos ∧ bulk_bad d (len q) m) ∨
  (∃ t l ll c' pos', read_bulklen h c pos = Some (SNext c' pos') ∧ first_line d (36 :: t) l ∧ valid_len 0 MAX_BULK t ll ∧ got_len c q l ll c' pos').
Proof.
  intros d Hq Hpos Hf. destruct (rep_buf _ _ Hq) as (_ & _ & Hlen). unfold Input.read_bulklen. rewrite (qstrchr_ok c q pos 13) by done. fold d. bsimpl.
  assert (len d = len q - pos) as Hd by (unfold d; rewrite length_drop; lia).
  assert (∀ m p, Forall (λ x, x ≠ 0) m → ∃ r, is_error h c m p r ∧ bulk_error junk malloc_size limits unixtime ae_create h c m p = ('(h, c) ← r; Some (SError h c))) as Herr.
  { intros m p Hm. destruct (protocol_error_eq h c m p Hm) as (r & Hr & E). exists r. split; [done|]. unfold bulk_error. rewrite E. by destruct r as [[]|]. }
  destruct (line_cases d) as [[E Hno]|[(i & E & Hi & Hno)|(t & l & Hfl & E & Hl)]]; rewrite E; bsimpl.
  - rewrite Hlen, Z.gtb_ltb. destruct (Z.ltb_spec REDIS_INLINE_MAX_SIZE (len q)) as [Hs|Hs]; [|by left].
    right. left. destruct (Herr (str "Protocol error: too big bulk count string") 0) as (r & Hr & ->); [repeat constructor; done|].
    eexists _, 0, r. split; [done|]. split; [done|]. split; [lia|by constructor].
  - unfold fits in Hf. rewrite Hlen, swrap_small, Z.gtb_ltb, (proj2 (Z.ltb_lt _ _)) by lia. left. split; [done|]. split; [done|]. intros E'. congruence.
  - unfold fits in Hf. rewrite Hlen, swrap_small, Z.gtb_ltb, (proj2 (Z.ltb_ge _ _)) by lia. right. pose proof Hfl as (y & Ed & Hclean).
    assert (∃ x d', d = x :: d' ∧ x ≠ 0 ∧ (x = 36 → ∃ t', t = 36 :: t')) as (x & d' & Exd & Hx0 & Hx).
    { rewrite Ed. destruct t as [|x t]; [by eexists _, _|]. apply Forall_cons in Hclean as [[_ ?] _]. eexists x, _. split; [done|]. split; [done|]. intros ->. by exists t. }
    rewrite (rep_mget _ q pos x d') by done. bsimpl. destruct (Z.eqb_spec x 36) as [-> |Hne]; cbn [negb].
    + destruct (Hx eq_refl) as (t' & ->). clear Hx. cbn [length] in *.
      assert (drop (Z.to_nat (pos + 1)) q = t' ++ 13 :: y :: l) as Ed1.
      { replace (Z.to_nat (pos + 1)) with (Z.to_nat pos + 1)%nat by lia. rewrite <- drop_drop. fold d. by rewrite Ed. }
      rewrite (rep_mread _ q (pos + 1) t' (13 :: y :: l)) by (done || lia). bsimpl.
      destruct (valid_dec 0 MAX_BULK t') as [(ll & Hs & Hll)|Hinv].
      * right. rewrite Hs. rewrite (proj2 (Z.ltb_ge _ _)), Z.gtb_ltb, (proj2 (Z.ltb_ge _ _)) by (unfold MAX_BULK in *; lia). cbn [orb].
        destruct (take_length_ok h c q pos (36 :: t' ++ [13; y]) l ll (pos + Z.of_nat (S (length t')))) as (c' & pos' & Eg & Hg); [done|lia|done| | |lia|done|].
        { fold d. rewrite Ed. cbn. by rewrite <- app_assoc. }
        { cbn [length]. rewrite length_app. cbn [length]. lia. }
        exists t', l, ll, c', pos'. split; [exact Eg|done].
      * left. destruct (Herr (str "Protocol error: invalid bulk length") pos) as (r & Hr & Er); [repeat constructor; done|].
        eexists _, pos, r. split; [|split; [done|split; [lia|by eapply bad_len]]].
        destruct (string2ll t') as [ll|] eqn:Es; [|done]. destruct (_ || _) eqn:Eb; [done|]. exfalso. apply orb_false_iff in Eb as [E1%Z.ltb_ge E2].
        rewrite Z.gtb_ltb in E2. apply Z.ltb_ge in E2. apply (Hinv ll). split; [done|unfold MAX_BULK; lia].
    + left. destruct (expected_dollar_eq h c x Hx0) as (b & ->). eexists (expected_dollar x), pos, _. split; [|split; [by exists b|split; [lia|eapply (bad_dollar d (len q) x t l); [done|by rewrite Exd|done]]]].
      destruct (addReplyErrorLength h c _ _) as [[h' c']|]; [|done]. bsimpl. by destruct (setProtocolError c' pos).
Qed.

(** ** The argument itself *)

Definition arg_ok (o : robj) (t : list Z) : Prop :=
  otype o = REDIS_STRING ∧ oencoding o = REDIS_ENCODING_RAW ∧ refcount o = 1 ∧ ∃ s, ptr o = PtrSds s ∧ rep s t.

Lemma new_arg_ok s t : rep s t → arg_ok (mkObj REDIS_STRING REDIS_ENCODING_RAW 1 (PtrSds s)) t.
Proof. intros Hs. split_and!; try done. by exists s. Qed.

Lemma read_bulk_cases c q pos :
  let d := drop (Z.to_nat pos) q in
  rep (querybuf (cin c)) q → 0 ≤ pos ≤ len q → fits (len q) → 0 ≤ bulklen (cin c) ≤ MAX_BULK → len (argv (cin c)) < argv_room (cin c) →
  (len d < bulklen (cin c) + 2 ∧ read_bulk junk c pos = Some (SBreak c pos)) ∨
  ∃ y e1 e2 l o qb q' pos', d = y ++ e1 :: e2 :: l ∧ len y = bulklen (cin c) ∧ arg_ok o y ∧ rep qb q' ∧ 0 ≤ pos' ≤ len q' ∧ len q' ≤ len q ∧
    drop (Z.to_nat pos') q' = l ∧ (REDIS_INLINE_MAX_SIZE < len q' → REDIS_INLINE_MAX_SIZE < len q ∧ (len d ≤ bulklen (cin c) + 2 → 0 < pos ∨ bulklen (cin c) < REDIS_MBULK_BIG_ARG)) ∧
    read_bulk junk c pos = Some (SNext (upd c qb (argv (cin c) ++ [o]) (multibulklen (cin c) - 1) (-1)) pos').
Proof.
  intros d Hq Hpos Hf Hbl Hroom. set (bl := bulklen (cin c)) in *. destruct (rep_buf _ _ Hq) as (_ & _ & Hlen).
  assert (len d = len q - pos) as Hd by (unfold d; rewrite length_drop; lia). unfold fits, MAX_BULK in *.
  unfold read_bulk. fold bl. rewrite Hlen, uwrap_small, uwrap_small by lia. rewrite <- Hd.
  destruct (Z.ltb_spec (len d) (bl + 2)) as [Hs|Hs]; [by left|right].
  assert (∃ y e1 e2 l, d = y ++ e1 :: e2 :: l ∧ len y = bl) as (y & e1 & e2 & l & Ed & Hy).
  { destruct (drop (Z.to_nat bl) d) as [|e1 [|e2 l]] eqn:E; [| |exists (take (Z.to_nat bl) d), e1, e2, l; rewrite <- E, take_drop, length_take; split; [done|lia]];
      apply (f_equal length) in E; rewrite length_drop in E; cbn [length] in E; lia. }
  assert (len d = bl + 2 + len l) as Hdl by (rewrite Ed, length_app; cbn [length]; lia).
  unfold push_arg. rewrite (proj2 (Z.ltb_lt _ _)) by lia. destruct ((pos =? 0) && (bl >=? REDIS_MBULK_BIG_ARG) && (s32 (len q) =? bl + 2)) eqn:E.
  - apply andb_true_iff in E as [[->%Z.eqb_eq E2]%andb_true_iff E3%Z.eqb_eq]. rewrite swrap_small in E3 by lia. change (Z.to_nat 0) with 0%nat in *. change (drop 0 q) with q in *.
    assert (l = []) as -> by (destruct l; [done|cbn [length] in *; lia]).
    destruct (sdsIncrLen_trim_ok _ q 2 Hq) as (s & Es & Hsr); [lia|]. change (- (2)) with (-2) in Es. rewrite Es. bsimpl.
    destruct (sdsempty_ok junk) as (s0 & -> & Hs0). bsimpl.
    exists y, e1, e2, [], (mkObj REDIS_STRING REDIS_ENCODING_RAW 1 (PtrSds s)), (sdsMakeRoomFor junk s0 (bl + 2)), [], 0.
    split; [done|]. split; [done|]. split; [apply new_arg_ok|].
    { assert (q = y ++ [e1; e2]) as Eq by exact Ed. replace y with (take (Z.to_nat (len q - 2)) q); [done|].
      rewrite Eq, length_app. apply take_app_length'. cbn [length]. lia. }
    split; [apply make_room_rep; [done|lia|unfold fits; cbn [length]; lia]|]. split; [cbn; lia|]. split; [cbn [length]; lia|]. split; [done|].
    split; [intros Hbig; unfold REDIS_INLINE_MAX_SIZE in Hbig; cbn [length] in Hbig; lia|]. done.
  - destruct (sdsnewlen_ok junk y (e1 :: e2 :: l ++ drop (length q) (buf (querybuf (cin c)))) bl) as (s & Es & Hsr); [done|unfold fits; lia|].
    replace (drop (Z.to_nat pos) (buf (querybuf (cin c)))) with (y ++ e1 :: e2 :: l ++ drop (length q) (buf (querybuf (cin c)))).
    2:{ destruct (rep_buf _ _ Hq) as (r & Eb & _). rewrite Eb, drop_app_length, (drop_app_le q) by lia. fold d. rewrite Ed, <- app_assoc. done. }
    rewrite Es. bsimpl. exists y, e1, e2, l, (mkObj REDIS_STRING REDIS_ENCODING_RAW 1 (PtrSds s)), (querybuf (cin c)), q, (pos + (bl + 2)).
    split; [done|]. split; [done|]. split; [by apply new_arg_ok|]. split; [done|]. split; [lia|]. split; [lia|].
    split; [|split; [|done]].
    + replace (Z.to_nat (pos + (bl + 2))) with (Z.to_nat pos + (length y + 2))%nat by lia. rewrite <- drop_drop. fold d. rewrite Ed, <- drop_drop. by rewrite drop_app_length.
    + intros Hbig. split; [done|]. intros Hle. apply andb_false_iff in E as [E|E%Z.eqb_neq]; [|rewrite swrap_small in E by lia; lia].
      apply andb_false_iff in E as [E%Z.eqb_neq|E]; [lia|]. rewrite Z.geb_leb in E. apply Z.leb_gt in E. lia.
Qed.

(** ** The loop *)

(** From a text with the length [bl] pending, or none ([-1]), the arguments [ys]
    can be read; then [bl'] is pending and [l] is left. *)
Inductive reads : Z → list Z → list (list Z) → Z → list Z → Prop :=
  | reads_none bl d : reads bl d [] bl d
  | reads_len d t ll l ys bl' l' : first_line d (36 :: t) l → valid_len 0 MAX_BULK t ll → reads ll l ys bl' l' → reads (-1) d ys bl' l'
  | reads_arg bl y e1 e2 l ys bl' l' : 0 ≤ bl → len y = bl → reads (-1) l ys bl' l' → reads bl (y ++ e1 :: e2 :: l) (y :: ys) bl' l'.

(** More bytes are needed. *)
Definition waits (bl : Z) (l : list Z) (n : Z) : Prop :=
  (bl = -1 ∧ no_line l ∧ (cfind 13 l = None → n ≤ REDIS_INLINE_MAX_SIZE)) ∨ (0 ≤ bl ≤ MAX_BULK ∧ len l < bl + 2).

(** The buffers that can be parsed without tripping over the size limit. *)
Definition small (bl : Z) (pos n : Z) : Prop := n ≤ REDIS_INLINE_MAX_SIZE ∨ (REDIS_MBULK_BIG_ARG ≤ bl ∧ pos = 0 ∧ n ≤ bl + 2).

(** Where the loop is: [ys] were read into the arguments [os], [k] are missing. *)
Record looped c q c' q' pos' (ys : list (list Z)) bl' l : Prop := {
  lp_reads : reads (bulklen (cin c)) q ys bl' l;
  lp_client : ∃ qb os, c' = upd c qb (argv (cin c) ++ os) (multibulklen (cin c) - len ys) bl' ∧ Forall2 arg_ok os ys ∧ rep qb q';
  lp_pos : 0 ≤ pos' ≤ len q';
  lp_left : drop (Z.to_nat pos') q' = l
}.

Lemma looped_none c q pos : rep (querybuf (cin c)) q → 0 ≤ pos ≤ len q → looped c (drop (Z.to_nat pos) q) c q pos [] (bulklen (cin c)) (drop (Z.to_nat pos) q).
Proof.
  intros Hq Hpos. split; [constructor| |done|done]. exists (querybuf (cin c)), []. split; [|by split]. rewrite app_nil_r, Z.sub_0_r. by destruct c as [? ? ? ? ? ? ? []].
Qed.

Definition loop_result h c d pos n0 (n : Z) (r : option bulk_step) : Prop :=
  ∃ c' q' pos' ys bl' l, looped c d c' q' pos' ys bl' l ∧ len q' ≤ n0 ∧ (small (bulklen (cin c)) pos n0 → bl' = -1 → len q' ≤ REDIS_INLINE_MAX_SIZE) ∧
    (len ys = n ∧ bl' = -1 ∧ r = Some (SBreak c' pos') ∨
     len ys < n ∧ waits bl' l (len q') ∧ r = Some (SBreak c' pos') ∨
     len ys < n ∧ bl' = -1 ∧ ∃ m p r0, r = ('(h, c) ← r0; Some (SError h c)) ∧ is_error h c' m p r0 ∧ 0 ≤ p ≤ pos' ∧ bulk_bad l (len q') m).

Lemma reads_trans bl d ys1 bl1 l1 ys2 bl2 l2 : reads bl d ys1 bl1 l1 → reads bl1 l1 ys2 bl2 l2 → reads bl d (ys1 ++ ys2) bl2 l2.
Proof.
  induction 1; intros H2; cbn [app]; [done|eapply reads_len; [done|done|auto]|apply reads_arg; [done|done|auto]].
Qed.

Lemma looped_trans c d c1 q1 pos1 ys1 bl1 l1 c2 q2 pos2 ys2 bl2 l2 :
  looped c d c1 q1 pos1 ys1 bl1 l1 → looped c1 l1 c2 q2 pos2 ys2 bl2 l2 → looped c d c2 q2 pos2 (ys1 ++ ys2) bl2 l2.
Proof.
  intros [R1 (qb1 & os1 & -> & A1 & _) _ _] [R2 (qb2 & os2 & -> & A2 & Q2) P2 L2]. cbn in *. split; [by eapply reads_trans| |done|done].
  exists qb2, (os1 ++ os2). split; [|split; [by apply Forall2_app|done]]. unfold upd. cbn. rewrite length_app, app_assoc. do 2 f_equal. lia.
Qed.

Lemma loop_result_trans h c d pos n0 n c1 q1 pos1 n1 ys1 bl1 l1 r :
  looped c d c1 q1 pos1 ys1 bl1 l1 → len q1 ≤ n0 → n1 = len q1 → (small (bulklen (cin c)) pos n0 → small bl1 pos1 n1) →
  loop_result h c1 l1 pos1 n1 (n - len ys1) r → loop_result h c d pos n0 n r.
Proof.
  intros H1 Hq1 -> Hs (c2 & q2 & pos2 & ys2 & bl2 & l2 & H2 & Hq2 & Hsm & Hr). pose proof H1 as [_ (? & ? & Ec1 & _) _ _].
  assert (bulklen (cin c1) = bl1) as Eb by (by rewrite Ec1). rewrite Eb in Hsm.
  exists c2, q2, pos2, (ys1 ++ ys2), bl2, l2. split; [by eapply looped_trans|]. split; [lia|]. split; [auto|]. rewrite length_app.
  destruct Hr as [(? & ? & ->)|[(? & ? & ->)|(? & ? & ?)]]; [left|right; left|right; right]; split_and!; try done; lia.
Qed.

Lemma bulk_loop_cases fuel : ∀ h c q pos,
  rep (querybuf (cin c)) q → 0 ≤ pos ≤ len q → fits (len q) →
  multibulklen (cin c) = Z.of_nat fuel → (fuel = 0%nat → bulklen (cin c) = -1) → bulklen (cin c) = -1 ∨ 0 ≤ bulklen (cin c) ≤ MAX_BULK →
  len (argv (cin c)) + Z.of_nat fuel ≤ argv_room (cin c) →
  loop_result h c (drop (Z.to_nat pos) q) pos (len q) (Z.of_nat fuel)
    (bulk_loop junk malloc_size limits unixtime ae_create fuel h c pos).
Proof.
  induction fuel as [|fuel IH]; intros h c q pos Hq Hpos Hf Hm H0 Hbl Hroom; cbn [bulk_loop]; rewrite Hm.
  { change (Z.of_nat 0 =? 0) with true. cbv iota. exists c, q, pos, [], (bulklen (cin c)), (drop (Z.to_nat pos) q).
    split; [by apply looped_none|]. split; [lia|]. split; [intros [?|(? & ? & ?)] E; [done|unfold REDIS_MBULK_BIG_ARG in *; lia]|]. left. split; [done|]. split; [by apply H0|done]. }
  rewrite (proj2 (Z.eqb_neq _ _)) by lia.
  (* the argument, once its length is known *)
  assert (∀ c q pos, rep (querybuf (cin c)) q → 0 ≤ pos ≤ len q → fits (len q) → multibulklen (cin c) = Z.of_nat (S fuel) → 0 ≤ bulklen (cin c) ≤ MAX_BULK →
    len (argv (cin c)) + Z.of_nat (S fuel) ≤ argv_room (cin c) →
    loop_result h c (drop (Z.to_nat pos) q) pos (len q) (Z.of_nat (S fuel))
      (st ← read_bulk junk c pos; match st with SNext c pos => bulk_loop junk malloc_size limits unixtime ae_create fuel h c pos | _ => Some st end)) as Hbody.
  { clear c q pos Hq Hpos Hf Hm H0 Hbl Hroom. intros c q pos Hq Hpos Hf Hm Hbl Hroom.
    destruct (read_bulk_cases c q pos) as [[Hs ->]|(y & e1 & e2 & l & o & qb & q' & pos' & Ed & Hy & Ho & Hqb & Hpos' & Hlq & Edl & Hsm & ->)]; [done|lia|done|done|lia| |]; bsimpl.
    - exists c, q, pos, [], (bulklen (cin c)), (drop (Z.to_nat pos) q). split; [by apply looped_none|]. split; [lia|]. split; [lia|].
      right. left. split; [cbn [length]; lia|]. split; [by right|done].
    - set (c1 := upd c qb (argv (cin c) ++ [o]) (multibulklen (cin c) - 1) (-1)).
      apply (loop_result_trans h c _ pos (len q) (Z.of_nat (S fuel)) c1 q' pos' (len q') [y] (-1) l); [|done|done| |].
      + split; [rewrite Ed; apply reads_arg; [lia|done|constructor]| |lia|done]. exists qb, [o]. split; [done|]. split; [by constructor|done].
      + intros Hs. left. destruct (decide (REDIS_INLINE_MAX_SIZE < len q')) as [Hb|]; [|lia]. destruct (Hsm Hb) as [H1 H2].
        destruct Hs as [?|(? & -> & ?)]; [lia|]. change (Z.to_nat 0) with 0%nat in H2. rewrite drop_0 in H2. specialize (H2 ltac:(lia)). lia.
      + cbn [length]. replace (Z.of_nat (S fuel) - Z.of_nat 1) with (Z.of_nat fuel) by lia. rewrite <- Edl. unfold fits in Hf.
        apply IH; cbn; [done|lia|unfold fits; lia|lia|done|by left|rewrite length_app; cbn [length]; lia]. }
  destruct (Z.eqb_spec (bulklen (cin c)) (-1)) as [Eb|Eb].
  2:{ bsimpl. apply Hbody; try done. lia. }
  destruct (read_bulklen_cases h c q pos) as [(-> & Hno & Hsz)|[(m & p & r0 & -> & He & Hp & Hbad)|(t & l & ll & c1 & pos1 & -> & Hfl & Hll & qb & q1 & -> & Hqb & Hpos1 & Hlq & Ed1 & Hbig)]]; [done..| | |].
  - bsimpl. exists c, q, pos, [], (bulklen (cin c)), (drop (Z.to_nat pos) q). split; [by apply looped_none|]. split; [lia|].
    split; [intros [?|(? & ? & ?)] _; [done|unfold REDIS_MBULK_BIG_ARG in *; lia]|]. right. left. split; [cbn [length]; lia|]. split; [left; by rewrite Eb|done].
  - exists c, q, pos, [], (bulklen (cin c)), (drop (Z.to_nat pos) q). split; [by apply looped_none|]. split; [lia|].
    split; [intros [?|(? & ? & ?)] _; [done|unfold REDIS_MBULK_BIG_ARG in *; lia]|]. right. right. split; [cbn [length]; lia|]. split; [done|].
    exists m, p, r0. split; [|done]. destruct r0 as [[h' c']|]; done.
  - bsimpl. set (c1 := upd c qb (argv (cin c)) (multibulklen (cin c)) ll). pose proof Hll as [_ Hll2]. unfold fits in Hf.
    apply (loop_result_trans h c _ pos (len q) (Z.of_nat (S fuel)) c1 q1 pos1 (len q1) [] ll l); [|done|done| |].
    + split; [rewrite Eb; eapply reads_len; [done|done|constructor]| |done|done]. exists qb, []. rewrite app_nil_r. cbn [length]. rewrite Z.sub_0_r. by split_and!.
    + intros [?|(? & ? & ?)]; [left; lia|unfold REDIS_MBULK_BIG_ARG in *; lia].
    + cbn [length]. rewrite Z.sub_0_r, <- Ed1. apply Hbody; cbn; try done; unfold fits; lia.
Qed.
End parsers.
