(* ===== verification/InputOps.v ===== *)
(** * What one request does

    The two request forms and the loop over requests, on arbitrary text. *)

From S2P Require Import Prelude Util Sds SdsText Object Client Reply ReplySpec ReplyOps Input InputSpec.
From stdpp Require Import gmap.
Local Open Scope Z_scope.

Lemma cfind_no_line d : cfind 13 d = None → no_line d.
Proof. intros E t l (y & -> & Ht). by rewrite cfind_app in E. Qed.

Section requests.
Context (junk : nat → Z) (malloc_size : sdshdr → Z) (limits : Z → obuf_limit) (unixtime : Z) (ae_create : bool).
Context (malloc_size_bound : ∀ s, 0 ≤ malloc_size s < 2 ^ 33).
Implicit Types (h : oheap) (c : redisClient).
#[local] Abbreviation is_error := (is_error junk malloc_size limits unixtime ae_create).
#[local] Abbreviation multibulk_args := (multibulk_args junk malloc_size limits unixtime ae_create).
#[local] Abbreviation processMultibulkBuffer := (processMultibulkBuffer junk malloc_size limits unixtime ae_create).
#[local] Abbreviation processInlineBuffer := (processInlineBuffer junk malloc_size limits unixtime ae_create).

(** More bytes are needed to go on. *)
Definition pending (bl : Z) (l : list Z) : Prop := (bl = -1 ∧ no_line l) ∨ (0 ≤ bl ≤ MAX_BULK ∧ len l < bl + 2).

(** What the arguments are read into, starting at the text [d] in a buffer of [N] bytes. *)
Inductive args_result h c (d : list Z) (N : Z) (sm : Prop) : option (oheap * redisClient * Z) → Prop :=
  | args_done ys l qb os :
      reads (bulklen (cin c)) d ys (-1) l → Forall2 arg_ok os ys → rep qb l → len l ≤ len d → len ys = multibulklen (cin c) →
      args_result h c d N sm (Some (h, upd c qb (argv (cin c) ++ os) 0 (-1), REDIS_OK))
  | args_wait ys bl l qb os :
      reads (bulklen (cin c)) d ys bl l → Forall2 arg_ok os ys → rep qb l → len l ≤ len d → len ys < multibulklen (cin c) → pending bl l →
      args_result h c d N sm (Some (h, upd c qb (argv (cin c) ++ os) (multibulklen (cin c) - len ys) bl, REDIS_ERR))
  | args_error ys l n qb q os m p r :
      reads (bulklen (cin c)) d ys (-1) l → Forall2 arg_ok os ys → len ys < multibulklen (cin c) → bulk_bad l n m → (sm → n ≤ REDIS_INLINE_MAX_SIZE) →
      rep qb q → fits (len q) → len q ≤ N → 0 ≤ p ≤ len q → is_error h (upd c qb (argv (cin c) ++ os) (multibulklen (cin c) - len ys) (-1)) m p r →
      args_result h c d N sm ('(h, c) ← r; Some (h, c, REDIS_ERR)).

Lemma args_weaken h c d N (sm sm' : Prop) r : (sm' → sm) → args_result h c d N sm r → args_result h c d N sm' r.
Proof. intros Hs []; [by eapply args_done|by eapply args_wait|]. eapply args_error; try done. by eauto. Qed.

Lemma reads_le bl d ys bl' l : reads bl d ys bl' l → len l ≤ len d.
Proof.
  induction 1 as [|d t ll l ys bl' l' (y & -> & _) _ _ IH|bl y e1 e2 l ys bl' l' _ _ _ IH]; [done| |]; rewrite length_app; cbn [length]; lia.
Qed.

Lemma multibulk_args_cases h c q pos :
  rep (querybuf (cin c)) q → 0 ≤ pos ≤ len q → fits (len q) → 0 < multibulklen (cin c) →
  bulklen (cin c) = -1 ∨ 0 ≤ bulklen (cin c) ≤ MAX_BULK → len (argv (cin c)) + multibulklen (cin c) ≤ argv_room (cin c) →
  args_result h c (drop (Z.to_nat pos) q) (len q) (small (bulklen (cin c)) pos (len q)) (multibulk_args h c pos).
Proof.
  intros Hq Hpos Hf Hm Hbl Hroom. unfold Input.multibulk_args. rewrite Z.gtb_ltb, (proj2 (Z.ltb_lt _ _)) by lia. cbn [negb].
  destruct (bulk_loop_cases junk malloc_size limits unixtime ae_create (Z.to_nat (multibulklen (cin c))) h c q pos)
    as (c' & q' & pos' & ys & bl' & l & [Hr (qb & os & -> & Ha & Hqb) Hpos' Hl] & Hlq & Hsm & Hcase); try done; try lia.
  rewrite Z2Nat.id in Hcase by lia. unfold fits in Hf. pose proof (reads_le _ _ _ _ _ Hr) as Hle.
  assert (∃ s, (if negb (pos' =? 0) then q0 ← sdsrange qb pos' (-1); Some (set_querybuf (upd c qb (argv (cin c) ++ os) (multibulklen (cin c) - len ys) bl') q0)
    else Some (upd c qb (argv (cin c) ++ os) (multibulklen (cin c) - len ys) bl')) = Some (upd c s (argv (cin c) ++ os) (multibulklen (cin c) - len ys) bl') ∧ rep s l) as (s & Etrim & Hs).
  { destruct (Z.eqb_spec pos' 0) as [-> |Hne]; cbn [negb].
    - exists qb. split; [done|]. by rewrite <- Hl.
    - destruct (trim_ok qb q' pos' Hqb) as (s & -> & Hs); [lia|lia|]. exists s. rewrite <- Hl. done. }
  destruct Hcase as [(Hk & -> & ->)|[(Hk & Hw & ->)|(Hk & -> & m & p & r0 & -> & He & Hp & Hbad)]]; bsimpl.
  - cbn [cin upd set_in querybuf multibulklen]. rewrite Etrim. bsimpl. cbn [cin upd set_in multibulklen].
    replace (multibulklen (cin c) - len ys) with 0 by lia. by eapply args_done.
  - cbn [cin upd set_in querybuf multibulklen]. rewrite Etrim. bsimpl. cbn [cin upd set_in multibulklen]. rewrite (proj2 (Z.eqb_neq _ 0)) by lia.
    eapply args_wait; try done. destruct Hw as [(? & ? & _)|?]; [by left|by right].
  - assert (args_result h c (drop (Z.to_nat pos) q) (len q) (small (bulklen (cin c)) pos (len q)) ('(h, c) ← r0; Some (h, c, REDIS_ERR))) as Hres.
    { apply (args_error h c _ _ _ ys l (len q') qb q' os m p r0); try done; [intros; by apply Hsm|unfold fits; lia|lia]. }
    by destruct r0 as [[]|].
Qed.

(** The error in the first line of a request. *)
Inductive start_bad : list Z → Z → list Z → Prop :=
  | start_size d n : cfind 13 d = None → REDIS_INLINE_MAX_SIZE < n → start_bad d n (str "Protocol error: too big mbulk count string")
  | start_len d n t l : first_line d (42 :: t) l → invalid_len LLONG_MIN (1024 * 1024) t → start_bad d n (str "Protocol error: invalid multibulk length").

Lemma multibulk_start_cases h c q :
  rep (querybuf (cin c)) q → head q = Some 42 → fits (len q) → multibulklen (cin c) = 0 → argv (cin c) = [] →
  (no_line q ∧ (cfind 13 q = None → len q ≤ REDIS_INLINE_MAX_SIZE) ∧ processMultibulkBuffer h c = Some (h, c, REDIS_ERR)) ∨
  (∃ m r, is_error h c m 0 r ∧ start_bad q (len q) m ∧ processMultibulkBuffer h c = ('(h, c) ← r; Some (h, c, REDIS_ERR))) ∨
  (∃ t l ll qb, first_line q (42 :: t) l ∧ valid_len LLONG_MIN 0 t ll ∧ rep qb l ∧ processMultibulkBuffer h c = Some (h, set_querybuf c qb, REDIS_OK)) ∨
  (∃ t l ll, first_line q (42 :: t) l ∧ valid_len 1 (1024 * 1024) t ll ∧ drop (Z.to_nat (len t + 3)) q = l ∧ len t + 3 ≤ len q ∧
    processMultibulkBuffer h c = multibulk_args h (set_argv (set_lens c ll (bulklen (cin c))) [] ll) (len t + 3)).
Proof.
  intros Hq Hhd Hf Hm Ha. destruct (rep_buf _ _ Hq) as (_ & _ & Hlen). unfold Input.processMultibulkBuffer. rewrite Hm, Ha. cbn [length]. change (Z.of_nat 0 =? 0) with true.
  change (0 =? 0) with true. cbn [negb]. cbv iota. rewrite (qstrchr_ok c q 0 13) by (done || lia). change (Z.to_nat 0) with 0%nat. rewrite drop_0. bsimpl.
  assert (∀ m, Forall (λ x, x ≠ 0) m → ∃ r, is_error h c m 0 r ∧ protocol_error junk malloc_size limits unixtime ae_create h c m 0 = ('(h, c) ← r; Some (h, c, REDIS_ERR))) as Herr
    by (intros m Hmz; by apply protocol_error_eq).
  destruct (line_cases q) as [[E Hno]|[(i & E & Hi & Hno)|(t & l & Hfl & E & Hl)]]; rewrite E; bsimpl.
  - rewrite Hlen, Z.gtb_ltb. destruct (Z.ltb_spec REDIS_INLINE_MAX_SIZE (len q)) as [Hs|Hs]; [|by left].
    right. left. destruct (Herr (str "Protocol error: too big mbulk count string")) as (r & Hr & ->); [repeat constructor; done|].
    eexists _, r. split; [done|]. split; [by constructor|done].
  - unfold fits in Hf. rewrite Hlen, swrap_small, Z.gtb_ltb, (proj2 (Z.ltb_lt _ _)) by lia. left. split; [done|]. split; [congruence|done].
  - unfold fits in Hf. rewrite Hlen, swrap_small, Z.gtb_ltb, (proj2 (Z.ltb_ge _ _)) by lia. right. pose proof Hfl as (y & Ed & Hclean).
    assert (∃ t', t = 42 :: t') as (t' & ->).
    { destruct t as [|x t]; [by rewrite Ed in Hhd|]. rewrite Ed in Hhd. injection Hhd as ->. by exists t. }
    rewrite (rep_mget _ q 0 42 (t' ++ 13 :: y :: l)) by (done || lia). bsimpl. change (negb (42 =? 42)) with false. cbv iota. cbn [length] in *.
    rewrite (rep_mread _ q 1 t' (13 :: y :: l)) by (done || lia || (change (Z.to_nat 1) with 1%nat; by rewrite Ed)). bsimpl.
    destruct (valid_dec LLONG_MIN (1024 * 1024) t') as [(ll & Hs & Hll)|Hinv].
    + right. rewrite Hs, Z.gtb_ltb, (proj2 (Z.ltb_ge _ _)) by lia. cbv zeta. destruct (Z.leb_spec ll 0) as [H0|H0]; [left|right].
      * destruct (trim_ok _ q (0 + Z.of_nat (S (length t')) + 2) Hq) as (s & -> & Hsr); [lia|lia|]. bsimpl. exists t', l, ll, s.
        split; [done|]. split; [split; [done|lia]|]. split; [|done]. replace l with (drop (Z.to_nat (0 + Z.of_nat (S (length t')) + 2)) q); [done|].
        rewrite Ed. replace (Z.to_nat (0 + Z.of_nat (S (length t')) + 2)) with (length (42%Z :: t') + 2)%nat by (cbn [length]; lia).
        rewrite <- drop_drop. by rewrite drop_app_length.
      * exists t', l, ll. split; [done|]. split; [split; [done|lia]|]. split; [|split; [lia|]].
        { rewrite Ed. replace (Z.to_nat (len t' + 3)) with (length (42%Z :: t') + 2)%nat by (cbn [length]; lia). rewrite <- drop_drop. by rewrite drop_app_length. }
        rewrite (swrap_small 32 ll) by lia. replace (0 + Z.of_nat (S (length t')) + 2) with (len t' + 3) by lia. done.
    + left. destruct (Herr (str "Protocol error: invalid multibulk length")) as (r & Hr & Er); [repeat constructor; done|].
      eexists _, r. split; [done|]. split; [by eapply start_len|]. destruct (string2ll t') as [ll|] eqn:Es; [|done]. destruct (ll >? 1024 * 1024) eqn:Eb; [done|].
      exfalso. rewrite Z.gtb_ltb in Eb. apply Z.ltb_ge in Eb. apply (Hinv ll). split; [done|]. apply string2ll_repr in Es as [_ ?]. lia.
Qed.

(** ** Inline requests *)

(** The line without the carriage return at its end. *)
Definition chomp (p : list Z) : list Z := match last p with Some 13 => take (length p - 1) p | _ => p end.

Definition new_arg (s : sdshdr) : robj := mkObj REDIS_STRING REDIS_ENCODING_RAW 1 (PtrSds s).
Definition inline_argv (toks : list sdshdr) : list robj := new_arg <$> filter (λ s, sdslen s ≠ 0) toks.

Lemma inline_args_ok toks : ∀ c,
  len (argv (cin c)) + len (inline_argv toks) ≤ argv_room (cin c) →
  inline_args toks c = Some (set_argv c (argv (cin c) ++ inline_argv toks) (argv_room (cin c))).
Proof.
  unfold inline_argv. induction toks as [|s toks IH]; intros c Hr; cbn [inline_args].
  - rewrite app_nil_r. by destruct c as [? ? ? ? ? ? ? []].
  - rewrite filter_cons in *. destruct (Z.eqb_spec (sdslen s) 0) as [E|E]; [rewrite decide_False in * by tauto|rewrite decide_True in * by done]; cbn [negb].
    + bsimpl. by apply IH.
    + cbn [fmap list_fmap length] in Hr. unfold push_arg. rewrite (proj2 (Z.ltb_lt _ _)) by lia. bsimpl. rewrite IH; cbn; [|rewrite length_app; cbn [length]; lia].
      do 2 f_equal. unfold set_argv. cbn. by rewrite <- app_assoc.
Qed.

Lemma chomp_cases p : (∃ p', p = p' ++ [13] ∧ chomp p = p') ∨ (last p ≠ Some 13 ∧ chomp p = p).
Proof.
  unfold chomp. destruct (last p) as [x|] eqn:E; [|by right]. destruct (decide (x = 13)) as [-> |Hne].
  - left. apply last_Some in E as (p' & ->). exists p'. split; [done|]. rewrite length_app. cbn [length]. rewrite Nat.add_sub. by rewrite take_app_length.
  - right. split; [congruence|]. destruct x as [|x|x]; [done| |done]. do 4 (destruct x as [x|x|]; try done).
Qed.

Inductive inline_bad : list Z → list Z → Prop :=
  | inline_size q : cfind 10 q = None → REDIS_INLINE_MAX_SIZE < len q → inline_bad q (str "Protocol error: too big inline request")
  | inline_quotes p r : Forall (λ x, x ≠ 10 ∧ x ≠ 0) p → sdssplitargs junk (chomp p ++ [0]) = Some None →
      inline_bad (p ++ 10 :: r) (str "Protocol error: unbalanced quotes in request").

(** The client after the line [p]: the buffer, and the arguments. *)
Definition inline_client c (qb : sdshdr) (p : list Z) (toks : list sdshdr) : redisClient :=
  let c := if (len (chomp p) =? 0) && has_flag c REDIS_SLAVE then set_repl_ack_time c unixtime else c in
  set_argv (set_querybuf c qb) (inline_argv toks) (if len toks =? 0 then argv_room (cin c) else len toks).

Lemma inline_cases h c q :
  rep (querybuf (cin c)) q → fits (len q + 1) → 0 ≤ argv_room (cin c) →
  (cfind 10 q = None ∧ len q ≤ REDIS_INLINE_MAX_SIZE ∧ processInlineBuffer h c = Some (h, c, REDIS_ERR)) ∨
  (∃ m r, is_error h c m 0 r ∧ inline_bad q m ∧ processInlineBuffer h c = ('(h, c) ← r; Some (h, c, REDIS_ERR))) ∨
  (∃ p r toks qb, q = p ++ 10 :: r ∧ Forall (λ x, x ≠ 10 ∧ x ≠ 0) p ∧ sdssplitargs junk (chomp p ++ [0]) = Some (Some toks) ∧
    rep qb (drop (length (chomp p) + 2) q) ∧ processInlineBuffer h c = Some (h, inline_client c qb p toks, REDIS_OK)).
Proof.
  intros Hq Hf Hroom. destruct (rep_buf _ _ Hq) as (rb & Eb & Hlen). unfold fits in Hf.
  assert (∀ m, Forall (λ x, x ≠ 0) m → ∃ r, is_error h c m 0 r ∧ protocol_error junk malloc_size limits unixtime ae_create h c m 0 = ('(h, c) ← r; Some (h, c, REDIS_ERR))) as Herr
    by (intros m Hmz; by apply protocol_error_eq).
  unfold Input.processInlineBuffer. rewrite (qstrchr_ok c q 0 10) by (done || lia). change (Z.to_nat 0) with 0%nat. rewrite drop_0. bsimpl.
  destruct (cfind 10 q) as [i|] eqn:E; bsimpl.
  2:{ rewrite Hlen, Z.gtb_ltb. destruct (Z.ltb_spec REDIS_INLINE_MAX_SIZE (len q)) as [Hs|Hs]; [|by left].
      right. left. destruct (Herr (str "Protocol error: too big inline request")) as (r & Hr & ->); [repeat constructor; done|].
      eexists _, r. split; [done|]. split; [by constructor|done]. }
  right. destruct (cfind_Some _ _ _ E) as (p & r & Eq & -> & Hp). rewrite Z.add_0_l.
  assert ((if negb (len p =? 0) then x ← mget (buf (querybuf (cin c))) (len p - 1); Some (if x =? 13 then len p - 1 else len p) else Some (len p)) = Some (len (chomp p))) as ->.
  { destruct (chomp_cases p) as [(p' & -> & ->)|[Hl ->]].
    - rewrite length_app. cbn [length]. rewrite (proj2 (Z.eqb_neq _ 0)) by lia. cbn [negb]. rewrite Eb, Eq, <- !app_assoc. cbn [app].
      rewrite mget_app by lia. bsimpl. change (13 =? 13) with true. f_equal. lia.
    - destruct (Z.eqb_spec (len p) 0) as [E0|E0]; [done|]. cbn [negb]. destruct (last p) as [x|] eqn:El; [|by apply last_None in El; subst].
      apply last_Some in El as (p' & ->). rewrite length_app in *. cbn [length] in *. rewrite Eb, Eq, <- !app_assoc. cbn [app]. rewrite mget_app by lia. bsimpl.
      rewrite (proj2 (Z.eqb_neq x 13)) by congruence. done. }
  bsimpl. assert (∃ r2, q = chomp p ++ r2 ∧ len (chomp p) ≤ len p) as (r2 & Eq2 & Hcl).
  { destruct (chomp_cases p) as [(p' & -> & ->)|[Hl ->]]; [exists ([13] ++ 10 :: r); rewrite Eq, <- app_assoc, length_app; split; [done|lia]|by exists (10 :: r)]. }
  assert (len p + 1 ≤ len q) as Hpq by (rewrite Eq, length_app; cbn [length]; lia).
  destruct (sdsnewlen_ok junk (chomp p) (r2 ++ 0 :: rb) (len (chomp p))) as (aux & Ea & Hra); [done|unfold fits; lia|].
  assert (q ++ 0 :: rb = chomp p ++ r2 ++ 0 :: rb) as Eqb by (rewrite app_assoc; by rewrite <- Eq2). rewrite Eb, Eqb, Ea. bsimpl.
  assert (buf aux = chomp p ++ [0]) as ->.
  { destruct Hra as (ra & Era & _). assert (sfree aux = 0) as H0.
    { unfold sdsnewlen in Ea. destruct (if _ =? 0 then _ else _) as [b|]; [|done]. bsimpl in Ea. destruct (mset b _ 0); [|done]. bsimpl in Ea. by injection Ea as <-. }
    rewrite Era in H0 |- *. cbn in *. by destruct ra. }
  destruct (sdssplitargs_total junk (chomp p)) as ([toks|] & Et); [unfold fits; lia| |]; rewrite Et; bsimpl.
  - right. destruct (trim_ok _ q (len (chomp p) + 2) Hq) as (qb & Etr & Hqb); [lia|lia|].
    set (c1 := if (len (chomp p) =? 0) && has_flag c REDIS_SLAVE then set_repl_ack_time c unixtime else c).
    assert (cin c1 = cin c) as Ec1 by (unfold c1; by case_match). rewrite Ec1, Etr. bsimpl.
    exists p, r, toks, qb. split; [done|]. split; [done|]. split; [done|]. split; [by replace (length (chomp p) + 2)%nat with (Z.to_nat (len (chomp p) + 2)) by lia|].
    rewrite inline_args_ok; cbn [cin set_argv set_in argv argv_room].
    + bsimpl. unfold inline_client. fold c1. unfold set_argv. cbn. by rewrite Ec1.
    + cbn [length]. unfold inline_argv. rewrite length_fmap. rewrite Z.add_0_l.
      destruct (Z.eqb_spec (len toks) 0) as [E0|E0]; [|apply inj_le, length_filter]. destruct toks; [|done]. cbn. by rewrite Ec1.
  - left. destruct (Herr (str "Protocol error: unbalanced quotes in request")) as (r' & Hr & ->); [repeat constructor; done|].
    eexists _, r'. split; [done|]. split; [|done]. rewrite Eq. by constructor.
Qed.
End requests.
