(* ===== verification/InputStream.v ===== *)
(** * Requests as bytes

    The encoding of commands as multi-bulk requests, and how a text made of
    requests determines what the parsers find in any prefix of it. *)

From S2P Require Import Prelude Util Sds SdsText Object Client Reply ReplySpec ReplyDeferred Input InputSpec InputOps.
From stdpp Require Import gmap.
Local Open Scope Z_scope.

Definition header (prefix n : Z) : list Z := prefix :: printf_ld n ++ [13; 10].
Definition bulk (y : list Z) : list Z := header 36 (len y) ++ y ++ [13; 10].
Definition request (args : list (list Z)) : list Z := header 42 (len args) ++ concat (bulk <$> args).

(** The commands a client may send: up to 1024*1024 arguments, of up to 512 MB. *)
Definition command_ok (args : list (list Z)) : Prop := 1 ≤ len args ≤ 1024 * 1024 ∧ Forall (λ y, len y ≤ MAX_BULK) args.

Lemma printf_digits n : 0 ≤ n ≤ MAX_BULK → Forall digit (printf_ld n) ∧ 1 ≤ len (printf_ld n) ≤ 20 ∧ string2ll (printf_ld n) = Some n.
Proof.
  intros Hn. destruct (printf_ld_ok n) as (Hr & Hl & _); [unfold MAX_BULK, LONG_MIN, LONG_MAX in *; lia|].
  assert (string2ll (printf_ld n) = Some n) as Hs by (apply string2ll_repr; split; [done|unfold MAX_BULK, LLONG_MIN, LLONG_MAX in *; lia]).
  destruct Hr as (ds & Hds & Hne & _ & _ & E). rewrite (proj2 (Z.ltb_ge n 0)) in E by lia. cbn [app] in E. rewrite E in *. split; [done|]. split; [|done].
  destruct ds; [done|]. cbn [length] in *. lia.
Qed.

Lemma digits_clean ds : Forall digit ds → Forall (λ x, x ≠ 13 ∧ x ≠ 0) ds.
Proof. intros H. eapply Forall_impl; [exact H|]. unfold digit. intros x ?. lia. Qed.

(** The first line of a text that starts with a header. *)
Lemma header_line prefix n l t l' d fut :
  prefix ≠ 13 → prefix ≠ 0 → 0 ≤ n ≤ MAX_BULK → first_line d t l' → d ++ fut = header prefix n ++ l → t = prefix :: printf_ld n ∧ l' ++ fut = l.
Proof.
  intros H13 H0 Hn (y & -> & Ht) E. destruct (printf_digits n Hn) as (Hds%digits_clean & _ & _).
  assert (Forall (λ x, x ≠ 13 ∧ x ≠ 0) (prefix :: printf_ld n)) as Hp by (by constructor).
  unfold header in E. cbn [app] in E. rewrite <- !app_assoc in E. cbn [app] in E. change (prefix :: printf_ld n ++ 13 :: 10 :: l) with ((prefix :: printf_ld n) ++ 13 :: 10 :: l) in E.
  revert Hp E. generalize (prefix :: printf_ld n). clear -Ht. intros u Hu E. revert u Hu E. induction Ht as [|x t [H1 H2] Ht IH]; intros u Hu E.
  - destruct u as [|z u]; [by simplify_eq/=|]. apply Forall_cons in Hu as [[? ?] _]. by injection E.
  - destruct u as [|z u]; [by injection E|]. apply Forall_cons in Hu as [[? ?] Hu]. cbn [app] in E. injection E as -> E.
    destruct (IH u Hu E) as [-> ->]. done.
Qed.

(** A text that lacks a whole line is shorter than the header. *)
Lemma header_short prefix n l d fut :
  prefix ≠ 13 → prefix ≠ 0 → 0 ≤ n ≤ MAX_BULK → no_line d → d ++ fut = header prefix n ++ l → fut ≠ [] ∧ len d ≤ 24.
Proof.
  intros H13 H0 Hn Hno E. destruct (printf_digits n Hn) as (Hds%digits_clean & Hl & _).
  assert (len (header prefix n) ≤ 24) as Hh by (unfold header; cbn [length]; rewrite length_app; cbn [length]; lia).
  assert (len d < len (header prefix n)) as Hd.
  { destruct (decide (len d < len (header prefix n))) as [|Hge]; [done|exfalso].
    assert (d = header prefix n ++ drop (length (header prefix n)) d) as Ed.
    { rewrite <- (take_drop (length (header prefix n)) d) at 1. f_equal. apply (f_equal (take (length (header prefix n)))) in E.
      rewrite take_app_le, take_app_length in E by lia. done. }
    apply (Hno (prefix :: printf_ld n) (drop (length (header prefix n)) d)). exists 10. split; [|by constructor].
    rewrite Ed at 1. unfold header at 1. cbn [app]. by rewrite <- app_assoc. }
  split; [|lia]. intros ->. apply (f_equal length) in E. rewrite app_nil_r, length_app in E. lia.
Qed.

(** ** Arguments still to come *)

(** [t] holds the arguments [ys], the first one's length being known if [bl]
    says so, and then [rest]. *)
Definition owed (bl : Z) (ys : list (list Z)) (rest t : list Z) : Prop :=
  (bl = -1 ∧ t = concat (bulk <$> ys) ++ rest) ∨
  (0 ≤ bl ∧ ∃ y ys', ys = y :: ys' ∧ len y = bl ∧ t = y ++ [13; 10] ++ concat (bulk <$> ys') ++ rest).

Lemma bulk_cons y ys rest : concat (bulk <$> y :: ys) ++ rest = header 36 (len y) ++ y ++ [13; 10] ++ concat (bulk <$> ys) ++ rest.
Proof. cbn [fmap list_fmap concat]. unfold bulk at 1. by rewrite <- !app_assoc. Qed.

Lemma reads_owed bl d ys1 bl' l : reads bl d ys1 bl' l → ∀ ys rest fut,
  head rest ≠ Some 36 → Forall (λ y, len y ≤ MAX_BULK) ys → owed bl ys rest (d ++ fut) →
  ∃ ys2, ys = ys1 ++ ys2 ∧ owed bl' ys2 rest (l ++ fut).
Proof.
  induction 1 as [bl d|d t ll l ys1 bl' l' Hfl [Hs Hll] _ IH|bl y0 e1 e2 l ys1 bl' l' Hbl Hy0 _ IH]; intros ys rest fut Hrest Hok Ho.
  - by exists ys.
  - destruct Ho as [[_ E]|[? _]]; [|lia]. destruct ys as [|y ys].
    { cbn in E. destruct Hfl as (z & -> & _). cbn in E. by rewrite <- E in Hrest. }
    apply Forall_cons in Hok as [Hy Hok]. rewrite bulk_cons in E.
    destruct (header_line 36 (len y) _ _ _ _ _ ltac:(done) ltac:(done) ltac:(lia) Hfl E) as [[= ->] E2].
    destruct (printf_digits (len y)) as (_ & _ & Hp); [lia|]. rewrite Hs in Hp. injection Hp as ->.
    apply IH; [done|by constructor|]. right. split; [lia|]. by exists y, ys.
  - destruct Ho as [[? _]|(_ & y & ys' & -> & Hy & E)]; [lia|]. rewrite <- app_assoc in E. apply app_inj_1 in E as [-> E]; [|lia].
    cbn in E. injection E as _ _ E. apply Forall_cons in Hok as [_ Hok].
    destruct (IH ys' rest fut Hrest Hok) as (ys2 & -> & Ho2); [by left|]. by exists ys2.
Qed.

Lemma pending_owed bl l y ys rest fut :
  pending bl l → Forall (λ y, len y ≤ MAX_BULK) (y :: ys) → owed bl (y :: ys) rest (l ++ fut) → fut ≠ [] ∧ (bl = -1 → len l ≤ 24) ∧ (bl ≠ -1 → len l < bl + 2).
Proof.
  intros [[-> Hno]|[Hbl Hl]] Hok Ho.
  - destruct Ho as [[_ E]|[? _]]; [|lia]. rewrite bulk_cons in E. apply Forall_cons in Hok as [Hy _].
    destruct (header_short 36 (len y) _ l fut ltac:(done) ltac:(done) ltac:(lia) Hno E). split_and!; try done.
  - split; [|lia]. intros ->. destruct Ho as [[? _]|(_ & y' & ys' & _ & Hy & E)]; [lia|]. apply (f_equal length) in E. rewrite !length_app in E. cbn [length] in E. lia.
Qed.

Lemma bad_owed l n m y ys rest fut :
  bulk_bad l n m → n ≤ REDIS_INLINE_MAX_SIZE → Forall (λ y, len y ≤ MAX_BULK) (y :: ys) → owed (-1) (y :: ys) rest (l ++ fut) → False.
Proof.
  intros Hbad Hn Hok Ho. destruct Ho as [[_ E]|[? _]]; [|lia]. rewrite bulk_cons in E. apply Forall_cons in Hok as [Hy _].
  destruct Hbad as [d n Hno|d n x t l' Hfl Hhd Hx|d n t l' Hfl Hinv]; [lia| |].
  - destruct d; [done|]. injection Hhd as ->. by injection E.
  - destruct (header_line 36 (len y) _ _ _ _ _ ltac:(done) ltac:(done) ltac:(lia) Hfl E) as [[= ->] _].
    destruct (printf_digits (len y)) as (_ & _ & Hp); [lia|]. apply (Hinv (len y)). split; [done|lia].
Qed.

Lemma reads_lt bl d ys bl' l : reads bl d ys bl' l → ys ≠ [] → len l < len d.
Proof.
  induction 1 as [|d t ll l ys bl' l' (y & -> & _) _ _ IH|bl y e1 e2 l ys bl' l' _ _ Hr IH]; intros Hne; [done| |].
  - rewrite length_app. specialize (IH Hne). cbn [length]. lia.
  - apply reads_le in Hr. rewrite length_app. cbn [length]. lia.
Qed.

(** Nothing is left when the buffer ends with the argument. *)
Lemma reads_alone bl d ys bl' l : reads bl d ys bl' l → ys ≠ [] → 0 ≤ bl → len d ≤ bl + 2 → len l ≤ 0.
Proof.
  intros Hr. destruct Hr as [|d t ll l0 ys bl' l' _ _ _|bl y e1 e2 l0 ys bl' l' _ Hy Hr]; intros Hne Hbl Hd; [done|lia|].
  apply reads_le in Hr. rewrite length_app in Hd. cbn [length] in Hd. lia.
Qed.
