(* ===== verification/InputThms.v ===== *)
(** * Requests are served

    However the bytes of a sequence of requests are split, the server executes
    exactly the commands they encode, in order. *)

From S2P Require Import Prelude Util Sds SdsText Object Client Reply ReplySpec ReplyOps Input InputSpec InputOps InputStream.
From stdpp Require Import gmap.
Local Open Scope Z_scope.

Section served.
Context (junk : nat → Z) (malloc_size : sdshdr → Z) (limits : Z → obuf_limit) (unixtime : Z) (ae_create : bool) (max_querybuf : Z).
Context (malloc_size_bound : ∀ s, 0 ≤ malloc_size s < 2 ^ 33).
Context {World : Type} (processCommand : World → oheap → redisClient → option (World * oheap * redisClient * Z)).
Implicit Types (h : oheap) (c : redisClient) (w : World).
#[local] Abbreviation processMultibulkBuffer := (processMultibulkBuffer junk malloc_size limits unixtime ae_create).
#[local] Abbreviation processInputBuffer := (processInputBuffer junk malloc_size limits unixtime ae_create processCommand).
#[local] Abbreviation readQueryFromClient := (readQueryFromClient junk malloc_size limits unixtime ae_create max_querybuf processCommand).

(** What a command does to the world, and that it neither blocks the client nor
    has it closed, nor touches its query buffer. *)
Context (exec : list (list Z) → World → World).
Definition open_client c : Prop := has_flag c REDIS_BLOCKED = false ∧ has_flag c REDIS_CLOSE_AFTER_REPLY = false.
Definition serves (args : list (list Z)) : Prop :=
  ∀ w h c, Forall2 arg_ok (argv (cin c)) args → open_client c →
    ∃ h' c', processCommand w h c = Some (exec args w, h', c', REDIS_OK) ∧ querybuf (cin c') = querybuf (cin c) ∧ open_client c'.

Definition served (args : list (list Z)) : Prop := command_ok args ∧ serves args.

(** Where a client is in the commands [cs], with the text [t] still to parse. *)
Inductive stage c (t : list Z) : list (list (list Z)) → Prop :=
  | stage_ready cs : reqtype (cin c) = 0 ∨ reqtype (cin c) = REDIS_REQ_MULTIBULK → multibulklen (cin c) = 0 → bulklen (cin c) = -1 → argv (cin c) = [] →
      t = concat (request <$> cs) → stage c t cs
  | stage_args xs ys cs : ys ≠ [] → reqtype (cin c) = REDIS_REQ_MULTIBULK → multibulklen (cin c) = len ys → Forall2 arg_ok (argv (cin c)) xs →
      len (argv (cin c)) + multibulklen (cin c) ≤ argv_room (cin c) → bulklen (cin c) = -1 ∨ 0 ≤ bulklen (cin c) ≤ MAX_BULK →
      owed (bulklen (cin c)) ys (concat (request <$> cs)) t → stage c t ((xs ++ ys) :: cs).

(** Little is left in the buffer when more is needed. *)
Definition short c (q : list Z) : Prop :=
  (bulklen (cin c) = -1 → len q ≤ 24) ∧ (bulklen (cin c) ≠ -1 → 0 ≤ bulklen (cin c) ≤ MAX_BULK ∧ len q < bulklen (cin c) + 2).

Lemma requests_head cs : head (concat (request <$> cs)) ≠ Some 36.
Proof. by destruct cs. Qed.

Lemma request_cons args cs : concat (request <$> args :: cs) = header 42 (len args) ++ concat (bulk <$> args) ++ concat (request <$> cs).
Proof. cbn [fmap list_fmap concat]. unfold request at 1. by rewrite <- app_assoc. Qed.

(** One call of the multi-bulk parser. *)
Definition call_result h c (q fut : list Z) cs (r : option (oheap * redisClient * Z)) : Prop :=
  ∃ c', (∃ i, c' = set_in c i) ∧
    ((r = Some (h, c', REDIS_ERR) ∧ ∃ q', rep (querybuf (cin c')) q' ∧ len q' ≤ len q ∧ stage c' (q' ++ fut) cs ∧ short c' q' ∧ fut ≠ []) ∨
     (r = Some (h, c', REDIS_OK) ∧ ∃ args cs' q', cs = args :: cs' ∧ rep (querybuf (cin c')) q' ∧ len q' < len q ∧ len q' ≤ REDIS_INLINE_MAX_SIZE ∧
        Forall2 arg_ok (argv (cin c')) args ∧ q' ++ fut = concat (request <$> cs'))).

Lemma args_call h c d N fut xs ys cs r :
  args_result junk malloc_size limits unixtime ae_create h c d N (small (bulklen (cin c)) 0 (len d)) r →
  len d ≤ REDIS_INLINE_MAX_SIZE ∨ REDIS_MBULK_BIG_ARG ≤ bulklen (cin c) ∧ len d ≤ bulklen (cin c) + 2 →
  reqtype (cin c) = REDIS_REQ_MULTIBULK → ys ≠ [] → multibulklen (cin c) = len ys → Forall2 arg_ok (argv (cin c)) xs → Forall (λ y, len y ≤ MAX_BULK) ys →
  len (argv (cin c)) + multibulklen (cin c) ≤ argv_room (cin c) → owed (bulklen (cin c)) ys (concat (request <$> cs)) (d ++ fut) →
  call_result h c d fut ((xs ++ ys) :: cs) r.
Proof.
  intros Hr Hsz Ht Hne Hm Hxs Hok Hroom Ho. pose proof (requests_head cs) as Hhd.
  assert (small (bulklen (cin c)) 0 (len d)) as Hsm by (destruct Hsz as [?|[? ?]]; [by left|right; by split_and!]).
  destruct Hr as [ys1 l qb os Hr Ha Hqb Hl Hk|ys1 bl l qb os Hr Ha Hqb Hl Hk Hp|ys1 l n qb q os m p r Hr Ha Hk Hbad Hn _ _ _ _ _].
  - destruct (reads_owed _ _ _ _ _ Hr ys _ fut Hhd Hok Ho) as (ys2 & -> & Ho2). rewrite length_app in Hm. destruct ys2; [|cbn [length] in Hm; lia]. rewrite app_nil_r in *.
    destruct Ho2 as [[_ E]|[? _]]; [|lia]. eexists. split; [by eexists|]. right. split; [done|]. exists (xs ++ ys1), cs, l. split; [done|]. split; [done|].
    pose proof (reads_lt _ _ _ _ _ Hr Hne). split; [done|]. split; [|split; [by apply Forall2_app|done]].
    destruct Hsz as [?|[Hb Hd]]; [lia|]. assert (len l ≤ 0); [|unfold REDIS_INLINE_MAX_SIZE; lia].
    eapply reads_alone; [exact Hr|done|unfold REDIS_MBULK_BIG_ARG in *; lia|done].
  - destruct (reads_owed _ _ _ _ _ Hr ys _ fut Hhd Hok Ho) as (ys2 & -> & Ho2). rewrite length_app in Hm. destruct ys2 as [|y ys2]; [cbn [length] in Hm; lia|].
    apply Forall_app in Hok as [_ Hok]. destruct (pending_owed _ _ _ _ _ _ Hp Hok Ho2) as (Hf & H1 & H2).
    eexists. split; [by eexists|]. left. split; [done|]. exists l. split; [done|]. split; [done|]. split; [|split; [|done]].
    + rewrite app_assoc. cbn [length] in Hm. apply stage_args; cbn; try done; [lia|by apply Forall2_app| |destruct Hp as [[-> _]|[? _]]; [by left|by right]].
      rewrite length_app. apply Forall2_length in Ha. lia.
    + split; cbn; [done|]. intros Hb. split; [|by apply H2]. destruct Hp as [[-> _]|[? _]]; [done|lia].
  - destruct (reads_owed _ _ _ _ _ Hr ys _ fut Hhd Hok Ho) as (ys2 & -> & Ho2). rewrite length_app in Hm. destruct ys2 as [|y ys2]; [cbn [length] in Hm; lia|].
    apply Forall_app in Hok as [_ Hok]. exfalso. eapply bad_owed; [done| |done|done]. by apply Hn.
Qed.

Lemma multibulk_call h c q fut cs :
  rep (querybuf (cin c)) q → q ≠ [] → fits (len q) → Forall command_ok cs → stage c (q ++ fut) cs →
  reqtype (cin c) = REDIS_REQ_MULTIBULK → len q ≤ REDIS_INLINE_MAX_SIZE ∨ REDIS_MBULK_BIG_ARG ≤ bulklen (cin c) ∧ len q ≤ bulklen (cin c) + 2 →
  call_result h c q fut cs (processMultibulkBuffer h c).
Proof.
  intros Hq Hne Hf Hcs Hst Ht Hsz. destruct Hst as [cs _ Hm Hbl Ha E|xs ys cs Hys _ Hm Hxs Hroom Hbl Ho].
  - destruct cs as [|args cs]; [cbn in E; by apply app_nil in E as [-> _]|]. rewrite request_cons in E. apply Forall_cons in Hcs as [[Hn Hok] Hcs].
    assert (len q ≤ REDIS_INLINE_MAX_SIZE) as Hq64 by (destruct Hsz as [?|[? _]]; [done|unfold REDIS_MBULK_BIG_ARG in *; lia]).
    destruct (multibulk_start_cases junk malloc_size limits unixtime ae_create h c q) as [(Hno & _ & ->)|[(m & r & _ & Hbad & _)|[(t & l & ll & qb & Hfl & [Hs Hll] & _)|(t & l & ll & Hfl & [Hs Hll] & Hd & Hpos & ->)]]]; try done.
    + destruct q as [|x q]; [done|]. by injection E as ->.
    + destruct (header_short 42 (len args) _ q fut ltac:(done) ltac:(done) ltac:(unfold MAX_BULK; lia) Hno E) as [Hfut Hl].
      exists c. split; [exists (cin c); by destruct c|]. left. split; [done|]. exists q. split; [done|]. split; [done|]. split; [|split; [split; [done|by intros ?]|done]].
      constructor; try done; [by right|by rewrite request_cons].
    + exfalso. destruct Hbad as [d n Hno Hb|d n t l Hfl Hinv]; [lia|].
      destruct (header_line 42 (len args) _ _ _ _ _ ltac:(done) ltac:(done) ltac:(unfold MAX_BULK; lia) Hfl E) as [[= ->] _].
      destruct (printf_digits (len args)) as (_ & _ & Hp); [unfold MAX_BULK; lia|]. apply (Hinv (len args)). split; [done|]. unfold LLONG_MIN. lia.
    + exfalso. destruct (header_line 42 (len args) _ _ _ _ _ ltac:(done) ltac:(done) ltac:(unfold MAX_BULK; lia) Hfl E) as [[= ->] _].
      destruct (printf_digits (len args)) as (_ & _ & Hp); [unfold MAX_BULK; lia|]. rewrite Hs in Hp. injection Hp as ->. lia.
    + destruct (header_line 42 (len args) _ _ _ _ _ ltac:(done) ltac:(done) ltac:(unfold MAX_BULK; lia) Hfl E) as [[= ->] E2].
      destruct (printf_digits (len args)) as (_ & _ & Hp); [unfold MAX_BULK; lia|]. rewrite Hs in Hp. injection Hp as ->.
      set (c1 := set_argv (set_lens c (len args) (bulklen (cin c))) [] (len args)).
      assert (len l < len q) as Hlq by (rewrite <- Hd, length_drop; lia).
      destruct (args_call h c1 l (len q) fut [] args cs (multibulk_args junk malloc_size limits unixtime ae_create h c1 (len (printf_ld (len args)) + 3)))
        as (c' & (i & ->) & Hcase); [|left; lia|done|intros ->; cbn [length] in Hn; lia|done|done|done|cbn; lia|cbn; rewrite Hbl; by left|].
      { rewrite <- Hd. eapply args_weaken; [|by apply multibulk_args_cases; cbn; try done; [lia|lia|by left]].
        intros _. left. done. }
      exists (set_in c i). split; [by exists i|]. change (set_in c1 i) with (set_in c i) in Hcase. cbn [app] in Hcase.
      destruct Hcase as [(-> & q' & ? & ? & ? & ? & ?)|(-> & a & cs' & q' & ? & ? & ? & ? & ? & ?)]; [left|right]; (split; [done|]).
      * exists q'. split_and!; try done. lia.
      * exists a, cs', q'. split_and!; try done. lia.
  - unfold Input.processMultibulkBuffer. rewrite Hm. destruct ys as [|y ys]; [done|]. rewrite (proj2 (Z.eqb_neq _ 0)) by (cbn [length]; lia).
    apply Forall_cons in Hcs as [[_ Hok] _]. apply Forall_app in Hok as [_ Hok].
    eapply args_call; try done. apply (multibulk_args_cases junk malloc_size limits unixtime ae_create h c q 0); try done; [lia|rewrite Hm; cbn [length]; lia].
Qed.

(** ** The loop over requests *)

Lemma reset_ok c : querybuf (cin (resetClient c)) = querybuf (cin c) ∧ reqtype (cin (resetClient c)) = 0 ∧ multibulklen (cin (resetClient c)) = 0 ∧
  bulklen (cin (resetClient c)) = -1 ∧ argv (cin (resetClient c)) = [] ∧
  ∀ mask, Z.land REDIS_ASKING mask = 0 → has_flag (resetClient c) mask = has_flag c mask.
Proof.
  unfold resetClient. case_match; split_and!; try done. intros mask Hm. unfold has_flag. cbn [cflags set_flags set_lens set_reqtype freeClientArgv set_argv set_in].
  f_equal. f_equal. rewrite <- Z.land_assoc. f_equal. apply Z.bits_inj'. intros n Hn. rewrite Z.land_spec, Z.lnot_spec by done.
  pose proof (f_equal (λ z, Z.testbit z n) Hm) as Hb. cbv beta in Hb. rewrite Z.land_spec, Z.bits_0 in Hb. by destruct (Z.testbit REDIS_ASKING n), (Z.testbit mask n).
Qed.

Lemma reset_open c : open_client c → open_client (resetClient c).
Proof. intros [H1 H2]. destruct (reset_ok c) as (_ & _ & _ & _ & _ & Hfl). split; by rewrite Hfl. Qed.

Lemma set_in_open c i : open_client c → open_client (set_in c i).
Proof. done. Qed.

Lemma stage_head c q fut cs : stage c (q ++ fut) cs → q ≠ [] → reqtype (cin c) = 0 → head q = Some 42.
Proof.
  intros [cs' _ _ _ _ E|? ? ? _ E] Hne Ht; [|by rewrite E in Ht]. destruct q as [|x q]; [done|]. destruct cs'; [done|]. by injection E as ->.
Qed.

Lemma stage_reqtype c c' t cs : stage c t cs → cin c' = cin (set_reqtype c REDIS_REQ_MULTIBULK) → stage c' t cs.
Proof. intros [] E; [apply stage_ready|apply stage_args]; rewrite ?E; try done; by right. Qed.

(** What a run of the loop leaves, [cs] being still to serve. *)
Definition rests c (q fut : list Z) cs : Prop :=
  rep (querybuf (cin c)) q ∧ stage c (q ++ fut) cs ∧ short c q ∧ open_client c.

Lemma nothing_owed c cs : stage c [] cs → cs = [].
Proof.
  intros [cs' _ _ _ _ E|xs ys cs' Hys _ _ _ _ _ Ho]; [by destruct cs'|exfalso].
  destruct Ho as [[_ E]|(_ & y & ys' & _ & _ & E)]; [destruct ys; [done|]; by rewrite bulk_cons in E|by destruct y].
Qed.

Lemma run_loop fuel : ∀ w h c q fut cs,
  rep (querybuf (cin c)) q → stage c (q ++ fut) cs → open_client c → Forall served cs → fits (len q) → len q < Z.of_nat fuel → (q = [] → short c q) →
  len q ≤ REDIS_INLINE_MAX_SIZE ∨ REDIS_MBULK_BIG_ARG ≤ bulklen (cin c) ∧ len q ≤ bulklen (cin c) + 2 →
  ∃ cs1 cs2 h' c' q', cs = cs1 ++ cs2 ∧ processInputBuffer fuel w h c = Some (foldl (flip exec) w cs1, h', c') ∧
    rests c' q' fut cs2 ∧ (fut = [] → cs2 = []).
Proof.
  induction fuel as [|fuel IH]; intros w h c q fut cs Hq Hst Hop Hcs Hf Hfuel H0 Hsz; [lia|]. cbn [Input.processInputBuffer].
  destruct (rep_buf _ _ Hq) as (_ & _ & Hlen). rewrite Hlen. destruct (Z.eqb_spec (len q) 0) as [E0|E0].
  { destruct q; [|done]. exists [], cs, h, c, []. split; [done|]. split; [done|]. split; [split; [done|]; split; [done|]; split; [by apply H0|done]|]. intros ->. by eapply nothing_owed. }
  assert (q ≠ []) as Hne by (by intros ->). destruct Hop as [Hb Hc]. rewrite Hb, Hc.
  assert (∃ c1, (if reqtype (cin c) =? 0 then x ← mget (buf (querybuf (cin c))) 0; Some (set_reqtype c (if x =? 42 then REDIS_REQ_MULTIBULK else REDIS_REQ_INLINE)) else Some c) = Some c1 ∧
    c1 = set_reqtype c REDIS_REQ_MULTIBULK) as (c1 & -> & Ec1).
  { destruct (Z.eqb_spec (reqtype (cin c)) 0) as [Et|Et].
    - pose proof (stage_head _ _ _ _ Hst Hne Et) as Hhd. destruct q as [|x q]; [done|]. injection Hhd as ->.
      rewrite (rep_mget _ (42 :: q) 0 42 q) by (done || lia). bsimpl. by eexists.
    - exists c. split; [done|]. assert (reqtype (cin c) = REDIS_REQ_MULTIBULK) as Ht by (destruct Hst as [? [?|?]|]; done).
      destruct c as [? ? ? ? ? ? ? []]. cbn in Ht. by subst. }
  bsimpl. assert (reqtype (cin c1) = REDIS_REQ_MULTIBULK) as Ht by (by rewrite Ec1). unfold one_request. rewrite Ht.
  change (REDIS_REQ_MULTIBULK =? REDIS_REQ_INLINE) with false. change (REDIS_REQ_MULTIBULK =? REDIS_REQ_MULTIBULK) with true. cbv iota.
  assert (Forall command_ok cs) as Hcmd by (eapply Forall_impl; [exact Hcs|]; by intros ? []).
  destruct (multibulk_call h c1 q fut cs) as (c2 & (i & Ei) & [(-> & q' & Hq' & Hl & Hst' & Hsh & Hfut)|(-> & args & cs' & q' & -> & Hq' & Hl & Hl64 & Ha & E)]);
    [by rewrite Ec1|done|done|done|by eapply stage_reqtype; [exact Hst|rewrite Ec1]|done|by rewrite Ec1|..]; bsimpl.
  - change (negb (REDIS_ERR =? REDIS_OK)) with true. cbv iota. exists [], cs, h, c2, q'. split; [done|]. split; [done|]. split; [|done].
    split; [done|]. split; [done|]. split; [done|]. rewrite Ei, Ec1. by split.
  - change (negb (REDIS_OK =? REDIS_OK)) with false. cbv iota. apply Forall_cons in Hcs as [[[Hn _] Hserv] Hcs].
    pose proof (Forall2_length _ _ _ Ha) as Hal. rewrite (proj2 (Z.eqb_neq (len (argv (cin c2))) 0)) by lia.
    destruct (Hserv w h c2 Ha) as (h3 & c3 & -> & Eq3 & Hop3); [rewrite Ei, Ec1; by split|]. bsimpl. change (REDIS_OK =? REDIS_OK) with true. cbv iota.
    destruct (reset_ok c3) as (R1 & R2 & R3 & R4 & R5 & _).
    destruct (IH (exec args w) h3 (resetClient c3) q' fut cs') as (cs1 & cs2 & h' & c' & q2 & -> & -> & Hr & Hend).
    + by rewrite R1, Eq3.
    + constructor; try done. by left.
    + by apply reset_open.
    + done.
    + unfold fits in *. lia.
    + lia.
    + intros ->. split; [cbn; lia|]. by rewrite R4.
    + by left.
    + exists (args :: cs1), cs2, h', c', q2. by split_and!.
Qed.

(** ** Reading *)

Lemma take_drop_len {A} k (l : list A) : take k l ++ drop (length (take k l)) l = l.
Proof.
  rewrite length_take. destruct (Nat.le_ge_cases k (length l)); [rewrite Nat.min_l by done; apply take_drop|].
  rewrite Nat.min_r, take_ge, drop_all, app_nil_r by done. done.
Qed.

Lemma read_append s q m n :
  rep s q → fits (len q + n) → 0 < len m ≤ n →
  let s1 := sdsMakeRoomFor junk s n in
  ∃ b s', mwrite (buf s1) (len q) m = Some b ∧ sdsIncrLen (mkSds (slen s1) (sfree s1) b) (len m) = Some s' ∧ rep s' (q ++ m).
Proof.
  intros Hs Hf Hm s1. unfold fits in Hf. destruct (sdsMakeRoomFor_ok junk s q n Hs) as (r & E & Hr & Hb); [lia|unfold fits; lia|].
  unfold s1. rewrite E. cbn [buf slen sfree].
  assert (∃ r1 r2, 0 :: r = r1 ++ r2 ∧ len r1 = len m ∧ ∃ x r3, r2 = x :: r3 ∧ len r3 = len r - len m) as (r1 & r2 & Er & Hr1 & x & r3 & -> & Hr3).
  { exists (take (length m) (0 :: r)), (drop (length m) (0 :: r)). rewrite take_drop. split; [done|]. split; [rewrite length_take; cbn [length]; lia|].
    destruct (drop (length m) (0 :: r)) as [|x r3] eqn:Ed; apply (f_equal length) in Ed; rewrite length_drop in Ed; cbn [length] in Ed; [lia|]. exists x, r3. split; [done|lia]. }
  rewrite Er. rewrite mwrite_app by lia. eexists _, _. split; [done|].
  unfold sdsIncrLen. cbn [slen sfree buf]. rewrite Z.geb_leb, (proj2 (Z.leb_le _ _)) by lia. rewrite (uwrap_small 32 (len m)), Z.geb_leb, (proj2 (Z.leb_le _ _)) by lia. cbv zeta.
  rewrite (uwrap_small 32 (len q + len m)), (uwrap_small 32 (len r - len m)) by lia. rewrite app_assoc, mset_app by (rewrite length_app; lia). bsimpl.
  split; [done|]. exists r3. rewrite length_app. split; [|lia]. f_equal; lia.
Qed.

(** The event loop calls the handler when some bytes, the event's number of
    them at most, can be read; [incoming] is what the other side sends. *)
Fixpoint serve (events : list nat) (incoming : list Z) w h c : option (World * oheap * option redisClient * list Z) :=
  match incoming, events with
  | [], _ | _, [] => Some (w, h, Some c, incoming)
  | _, n :: events =>
      let avail := take n incoming in
      let taken := take (Z.to_nat (u64 (read_size c))) avail in
      '(w, h, r) ← readQueryFromClient (RBytes avail) w h c;
      match r with
      | Some c => serve events (drop (length taken) incoming) w h c
      | None => Some (w, h, None, drop (length taken) incoming)
      end
  end.

Lemma read_size_ok c q fut cs :
  rests c q fut cs → let n := read_size c in
  0 < n ≤ REDIS_IOBUF_LEN ∧ len q + n ≤ 2 ^ 29 + 2 ∧ (len q + n ≤ REDIS_INLINE_MAX_SIZE ∨ REDIS_MBULK_BIG_ARG ≤ bulklen (cin c) ∧ len q + n ≤ bulklen (cin c) + 2).
Proof.
  intros (Hq & Hst & [H1 H2] & _). destruct (rep_buf _ _ Hq) as (_ & _ & Hlen). unfold read_size, REDIS_IOBUF_LEN, REDIS_INLINE_MAX_SIZE, REDIS_MBULK_BIG_ARG, MAX_BULK in *.
  destruct (Z.eqb_spec (bulklen (cin c)) (-1)) as [Eb|Eb]; [rewrite andb_false_r; cbn [andb]; lia|]. destruct (H2 Eb) as [Hb Hl].
  assert (reqtype (cin c) = REDIS_REQ_MULTIBULK ∧ 0 < multibulklen (cin c)) as [-> Hm].
  { destruct Hst as [|xs ys cs' Hys ? Em]; [done|]. split; [done|]. rewrite Em. destruct ys; [done|]. cbn [length]. lia. }
  change (REDIS_REQ_MULTIBULK =? REDIS_REQ_MULTIBULK) with true. rewrite (proj2 (Z.eqb_neq (multibulklen (cin c)) 0)), Z.geb_leb by lia. cbn [andb negb].
  destruct (Z.leb_spec (1024 * 32) (bulklen (cin c))); [|lia]. rewrite Hlen, (uwrap_small 32), (uwrap_small 64), swrap_small by lia.
  destruct (Z.ltb_spec (bulklen (cin c) + 2 - len q) (1024 * 16)); lia.
Qed.

Lemma serve_all events : ∀ incoming w h c q cs,
  rests c q incoming cs → (incoming = [] → cs = []) → Forall served cs → MAX_BULK + 2 ≤ max_querybuf →
  Forall (λ n, (1 ≤ n)%nat) events → (length incoming ≤ length events)%nat →
  ∃ h' c' q', serve events incoming w h c = Some (foldl (flip exec) w cs, h', Some c', []) ∧ rests c' q' [] [].
Proof.
  induction events as [|n events IH]; intros incoming w h c q cs Hr Hend Hcs Hmax Hev Hlen.
  { destruct incoming; [|cbn in Hlen; lia]. rewrite Hend in * by done. by exists h, c, q. }
  destruct incoming as [|x incoming]; [rewrite Hend in * by done; by exists h, c, q|]. apply Forall_cons in Hev as [Hn Hev].
  pose proof (read_size_ok _ _ _ _ Hr) as (Hrs & Hfit & Hsz). pose proof Hr as (Hq & Hst & Hsh & Hop). destruct (rep_buf _ _ Hq) as (_ & _ & Hql).
  cbn [serve]. set (inc := x :: incoming) in *. unfold REDIS_IOBUF_LEN in Hrs.
  set (m := take (Z.to_nat (u64 (read_size c))) (take n inc)).
  assert (m ++ drop (length m) inc = inc ∧ 0 < len m ≤ read_size c) as [Em Hm].
  { unfold m. rewrite (uwrap_small 64) by lia. rewrite take_take. split; [|rewrite length_take].
    - apply take_drop_len.
    - unfold inc. cbn [length]. lia. }
  destruct (read_append (querybuf (cin c)) q m (read_size c) Hq) as (b & s' & Ew & Ei & Hs'); [unfold fits; lia|done|].
  unfold Input.readQueryFromClient. rewrite Hql. cbv zeta.
  set (c0 := if querybuf_peak (cin c) <? len q then set_querybuf_peak c (len q) else c).
  assert (querybuf (cin c0) = querybuf (cin c) ∧ (∀ t l, stage c t l → ∀ qb, stage (set_querybuf c0 qb) t l) ∧ cflags c0 = cflags c ∧ bulklen (cin c0) = bulklen (cin c)) as (-> & Hst0 & Hfl0 & Hbl0).
  { unfold c0. case_match; split_and!; try done; intros t l [] qb; (apply stage_ready + apply stage_args); done. }
  fold m. rewrite (uwrap_small 64 (read_size c)) by lia. rewrite (proj2 (Z.eqb_neq (len m) 0)) by lia.
  cbn [cin set_querybuf set_in querybuf]. rewrite Ew. bsimpl. rewrite Ei. bsimpl.
  set (c1 := set_lastinteraction (set_querybuf (set_querybuf c0 _) s') unixtime).
  set (c2 := if has_flag c1 REDIS_MASTER then set_reploff c1 (reploff c1 + len m) else c1).
  assert (cin c2 = cin (set_querybuf c0 s') ∧ cflags c2 = cflags c) as [Ec2 Efl] by (unfold c2; by case_match).
  rewrite Ec2. cbn [cin set_querybuf set_in querybuf]. destruct (rep_buf _ _ Hs') as (_ & _ & ->). rewrite length_app in *.
  unfold MAX_BULK, REDIS_INLINE_MAX_SIZE in *. rewrite Z.gtb_ltb, (proj2 (Z.ltb_ge _ _)) by lia.
  destruct (run_loop (S (Z.to_nat (Z.of_nat (length q + length m)))) w h c2 (q ++ m) (drop (length m) inc) cs) as (cs1 & cs2 & h' & c' & q' & -> & -> & Hr' & Hend').
  - by rewrite Ec2.
  - rewrite <- app_assoc, Em. destruct (Hst0 _ _ Hst s'); [apply stage_ready|apply stage_args]; rewrite ?Ec2; done.
  - unfold open_client, has_flag. rewrite Efl. apply Hop.
  - done.
  - unfold fits. rewrite length_app. lia.
  - rewrite length_app. lia.
  - intros E. apply app_nil in E as [_ E]. rewrite E in Hm. cbn in Hm. lia.
  - rewrite length_app, Ec2. cbn [bulklen cin set_querybuf set_in]. rewrite Hbl0. unfold REDIS_INLINE_MAX_SIZE. lia.
  - bsimpl. apply Forall_app in Hcs as [_ Hcs].
    destruct (IH (drop (length m) inc) (foldl (flip exec) w cs1) h' c' q' cs2) as (h2 & c3 & q3 & -> & Hr3); [done|done|done|done|done| |].
    + rewrite length_drop. cbn [length] in Hlen. unfold inc in *. cbn [length] in *. lia.
    + exists h2, c3, q3. by rewrite foldl_app.
Qed.
End served.
