(* ===== verification/InputErrors.v ===== *)
(** * Malformed requests, and arbitrary bytes

    Whatever a client sends, the parsers neither leave their buffers nor fail an
    assertion, and a malformed request gets one error reply and ends the
    conversation. *)

From S2P Require Import Prelude Util Sds SdsText Object Client Reply ReplySpec ReplyOps Input InputSpec InputOps InputStream InputThms.
From stdpp Require Import gmap.
Local Open Scope Z_scope.

(** ** What can be read is determined *)

Lemma first_line_det d t1 l1 t2 l2 : first_line d t1 l1 → first_line d t2 l2 → t1 = t2 ∧ l1 = l2.
Proof.
  intros (y1 & -> & H1) (y2 & E & H2). revert t2 H2 E. induction H1 as [|x t1 [Hx _] H1 IH]; intros t2 H2 E.
  - destruct t2 as [|z t2]; [by injection E as -> ->|]. apply Forall_cons in H2 as [[? _] _]. by injection E as <- _.
  - destruct t2 as [|z t2]; [by injection E|]. apply Forall_cons in H2 as [_ H2]. injection E as <- E. by destruct (IH t2 H2 E) as [-> ->].
Qed.

Lemma reads_det bl d ys1 bl1 l1 : reads bl d ys1 bl1 l1 → ∀ ys2 bl2 l2, reads bl d ys2 bl2 l2 →
  (∃ ys3, ys2 = ys1 ++ ys3 ∧ reads bl1 l1 ys3 bl2 l2) ∨ (∃ ys3, ys1 = ys2 ++ ys3 ∧ reads bl2 l2 ys3 bl1 l1).
Proof.
  induction 1 as [bl d|d t ll l ys1 bl1 l1 Hfl [Hs Hll] Hr IH|bl y e1 e2 l ys1 bl1 l1 Hbl Hy Hr IH]; intros ys2 bl2 l2 H2.
  - left. by exists ys2.
  - inversion H2 as [|d' t' ll' l' ys' bl' l'' Hfl' [Hs' Hll'] Hr'|bl' y e1 e2 l' ys' bl'' l'' Hbl']; subst.
    + right. exists ys1. split; [done|]. by eapply reads_len.
    + destruct (first_line_det _ _ _ _ _ Hfl Hfl') as [[= <-] <-]. rewrite Hs in Hs'. injection Hs' as <-. by apply IH.
    + lia.
  - inversion H2 as [| |bl' y' e1' e2' l' ys' bl'' l'' Hbl' Hy' Hr' Eb Ed]; subst.
    + right. eexists. split; [done|]. by apply reads_arg.
    + lia.
    + apply app_inj_1 in Ed as [-> [= -> -> ->]]; [|lia]. destruct (IH _ _ _ Hr') as [(ys3 & -> & H)|(ys3 & -> & H)]; [left|right]; by exists ys3.
Qed.

(** States from which nothing can be read. *)
Definition stuck (bl : Z) (l : list Z) : Prop := ∀ ys bl' l', reads bl l ys bl' l' → ys = [] ∧ bl' = bl ∧ l' = l.

Lemma pending_stuck bl l : pending bl l → stuck bl l.
Proof.
  intros Hp ys bl' l' Hr. destruct Hr as [|d t ll l ys bl' l' Hfl _ _|bl y e1 e2 l ys bl' l' Hbl Hy _]; [done|exfalso..].
  - destruct Hp as [[_ Hno]|[? _]]; [by apply (Hno (36 :: t) l)|lia].
  - destruct Hp as [[-> _]|[_ Hl]]; [lia|]. rewrite length_app in Hl. cbn [length] in Hl. lia.
Qed.

Lemma bad_stuck l n m : bulk_bad l n m → stuck (-1) l.
Proof.
  intros Hb ys bl' l' Hr. remember (-1) as b eqn:Eb. destruct Hr as [|d t ll l ys bl' l' Hfl Hv _|bl y e1 e2 l ys bl' l' Hbl Hy _]; [done|exfalso|lia].
  destruct Hb as [d n Hno _|d n x t' l2 _ Hhd Hx|d n t' l2 Hfl' Hinv].
  - by apply (Hno (36 :: t) l).
  - destruct Hfl as (y & -> & _). cbn in Hhd. congruence.
  - destruct (first_line_det _ _ _ _ _ Hfl Hfl') as [[= <-] _]. by apply (Hinv ll).
Qed.

Lemma bad_det l n1 n2 m1 m2 : bulk_bad l n1 m1 → bulk_bad l n2 m2 → ¬ no_line l → m1 = m2.
Proof.
  intros [d n Hno _|d n x t l1 Hfl Hhd Hx|d n t l1 Hfl Hinv] H2 Hl; [done|..];
    destruct H2 as [d n2' Hno _|d n2' x' t' l1' Hfl' Hhd' Hx'|d n2' t' l1' Hfl' Hinv']; try done.
  - congruence.
  - destruct Hfl' as (y & -> & _). cbn in Hhd. congruence.
  - destruct Hfl as (y & -> & _). cbn in Hhd'. congruence.
Qed.

Lemma reads_same d ys1 l1 ys2 bl2 l2 : reads (-1) d ys1 (-1) l1 → reads (-1) d ys2 bl2 l2 → stuck (-1) l1 → (stuck bl2 l2 ∨ len ys1 < len ys2) →
  ys1 = ys2 ∧ bl2 = -1 ∧ l1 = l2.
Proof.
  intros H1 H2 Hs1 Hs2. destruct (reads_det _ _ _ _ _ H1 _ _ _ H2) as [(ys3 & -> & H)|(ys3 & -> & H)].
  - destruct (Hs1 _ _ _ H) as (-> & -> & ->). by rewrite app_nil_r.
  - destruct Hs2 as [Hs2|Hl]; [|rewrite length_app in Hl; lia]. destruct (Hs2 _ _ _ H) as (-> & <- & <-). by rewrite app_nil_r.
Qed.

Section errors.
Context (junk : nat → Z) (malloc_size : sdshdr → Z) (limits : Z → obuf_limit) (unixtime : Z) (ae_create : bool) (max_querybuf : Z).
Context (malloc_size_bound : ∀ s, 0 ≤ malloc_size s < 2 ^ 33).
Context {World : Type} (processCommand : World → oheap → redisClient → option (World * oheap * redisClient * Z)).
Implicit Types (h : oheap) (c : redisClient) (w : World).
#[local] Abbreviation out_ok := (out_ok malloc_size).
#[local] Abbreviation is_error := (is_error junk malloc_size limits unixtime ae_create).
#[local] Abbreviation one_request := (one_request junk malloc_size limits unixtime ae_create).
#[local] Abbreviation processInputBuffer := (processInputBuffer junk malloc_size limits unixtime ae_create processCommand).
#[local] Abbreviation readQueryFromClient := (readQueryFromClient junk malloc_size limits unixtime ae_create max_querybuf processCommand).

(** A text whose first request is malformed, and the message it gets. *)
Inductive malformed : list Z → list Z → Prop :=
  | mal_inline q m : q ≠ [] → head q ≠ Some 42 → inline_bad junk q m → malformed q m
  | mal_count q m : head q = Some 42 → start_bad q (len q) m → malformed q m
  | mal_bulk q t n l ys l2 m : first_line q (42 :: t) l → valid_len 1 (1024 * 1024) t n → reads (-1) l ys (-1) l2 → len ys < n → bulk_bad l2 0 m →
      malformed q m.

Definition error_text (m : list Z) : list Z := str "-ERR " ++ m ++ [13; 10].

Lemma accepts_set_in c i : accepts ae_create (set_in c i) = accepts ae_create c.
Proof. unfold accepts, prepareClientToWrite, has_flag. cbn [cflags cfd cout replstate set_in]. by repeat (case_match; try done). Qed.

Lemma error_in ext h c st i q m p r :
  is_error h (set_in c i) m p r → out_ok ext h c st → room 3 c → rep (querybuf i) q → 0 ≤ p ≤ len q → fits (len q) → fits (len m) →
  ∃ h' c', r = Some (h', c') ∧ out_ok ext h' c' (st ++ if accepts ae_create c then bytes (error_text m) else []) ∧ keeps ext h h' ∧
    has_flag c' REDIS_CLOSE_AFTER_REPLY = true ∧ (∃ q', rep (querybuf (cin c')) q' ∧ len q' ≤ len q) ∧ bulklen (cin c') = bulklen i.
Proof.
  intros He Hok Hroom Hq Hp Hf Hm. unfold fits in Hf.
  destruct (is_error_ok junk malloc_size limits unixtime ae_create malloc_size_bound ext h (set_in c i) st q m p r) as (h' & c' & -> & [F1 F2 F3 F4 F5]); try done; try lia; [by eapply out_ok_same; [|exact Hok]|].
  exists h', c'. split; [done|]. split; [by rewrite accepts_set_in in F1|]. split; [done|]. split; [done|]. split; [|exact F5].
  eexists. split; [exact F4|]. rewrite length_drop. lia.
Qed.

Lemma inline_bad_fits q m : inline_bad junk q m → fits (len m).
Proof. intros []; vm_compute; reflexivity. Qed.
Lemma start_bad_fits q n m : start_bad q n m → fits (len m).
Proof. intros []; vm_compute; reflexivity. Qed.

Lemma inline_bad_det q m1 m2 : inline_bad junk q m1 → inline_bad junk q m2 → m1 = m2.
Proof.
  intros H1 H2. destruct H1 as [q E ?|p r Hp Es]; inversion H2 as [q' E' ?|p' r' Hp' Es' Eq]; subst; try done; exfalso;
    [by rewrite cfind_app in E|by rewrite cfind_app in E'].
Qed.

(** The first request, when nothing is known of the text. *)
Lemma malformed_request ext h c st q m :
  malformed q m → rep (querybuf (cin c)) q → fits (len q + 1) → multibulklen (cin c) = 0 → bulklen (cin c) = -1 → argv (cin c) = [] → 0 ≤ argv_room (cin c) →
  reqtype (cin c) = (if decide (head q = Some 42) then REDIS_REQ_MULTIBULK else REDIS_REQ_INLINE) → out_ok ext h c st → room 3 c →
  ∃ h' c', one_request h c = Some (h', c', REDIS_ERR) ∧ out_ok ext h' c' (st ++ if accepts ae_create c then bytes (error_text m) else []) ∧ keeps ext h h' ∧
    has_flag c' REDIS_CLOSE_AFTER_REPLY = true.
Proof.
  intros Hmal Hq Hf Hmbl Hbl Ha Hroom0 Ht Hok Hroom. assert (fits (len q)) as Hf' by (unfold fits in *; lia).
  assert (c = set_in c (cin c)) as Ec by (by destruct c). unfold Input.one_request. rewrite Ht. destruct Hmal as [q m Hne Hhd Hbad|q m Hhd Hbad|q t n l ys l2 m Hfl Hv Hr Hk Hbad].
  - rewrite decide_False by done. change (REDIS_REQ_INLINE =? REDIS_REQ_INLINE) with true. cbv iota.
    destruct (inline_cases junk malloc_size limits unixtime ae_create h c q Hq Hf Hroom0) as [(E & Hl & _)|[(m' & r & He & Hbad' & ->)|(p & r & toks & qb & -> & Hp & Et & _)]].
    + exfalso. destruct Hbad as [q _ ?|p r Hp _]; [lia|]. rewrite cfind_app in E by done. done.
    + assert (m' = m) as -> by (by eapply inline_bad_det).
      rewrite Ec in He. destruct (error_in ext h c st (cin c) q m 0 r He) as (h' & c' & -> & ? & ? & ? & _); try done; [lia|by eapply inline_bad_fits|].
      bsimpl. by exists h', c'.
    + exfalso. inversion Hbad as [q' E ?|p' r' Hp' Es Eq]; subst; [rewrite cfind_app in E by done; done|].
      assert (p' = p) as ->; [|congruence]. clear -Hp Hp' Eq. revert p Hp Eq. induction Hp' as [|x p' [Hx _] Hp' IH]; intros p Hp Eq.
      * destruct p; [done|]. injection Eq as <- _. by apply Forall_cons in Hp as [[? _] _].
      * destruct p; [by injection Eq|]. injection Eq as <- Eq. apply Forall_cons in Hp as [_ Hp]. f_equal. by apply IH.
  - rewrite decide_True by done. change (REDIS_REQ_MULTIBULK =? REDIS_REQ_INLINE) with false. change (REDIS_REQ_MULTIBULK =? REDIS_REQ_MULTIBULK) with true. cbv iota.
    destruct (multibulk_start_cases junk malloc_size limits unixtime ae_create h c q) as [(Hno & Hsz & E)|[(m' & r & He & Hbad' & ->)|[(t & l & ll & qb & Hfl & Hv & _)|(t & l & ll & Hfl & Hv & _)]]]; try done.
    + exfalso. destruct Hbad as [d n E' ?|d n t l Hfl _]; [specialize (Hsz E'); lia|by apply (Hno (42 :: t) l)].
    + assert (m' = m) as ->.
      { destruct Hbad as [d n Hno%cfind_no_line ?|d n t l Hfl Hinv], Hbad' as [d' n' Hno'%cfind_no_line ?|d' n' t' l' Hfl' Hinv']; try done; [by destruct (Hno (42 :: t') l')|by destruct (Hno' (42 :: t) l)]. }
      rewrite Ec in He. destruct (error_in ext h c st (cin c) q m 0 r He) as (h' & c' & -> & ? & ? & ? & _); try done; [lia|by eapply start_bad_fits|].
      bsimpl. by exists h', c'.
    + exfalso. destruct Hbad as [d n Hno%cfind_no_line _|d n t' l' Hfl' Hinv]; [by apply (Hno (42 :: t) l)|].
      destruct (first_line_det _ _ _ _ _ Hfl Hfl') as [[= <-] _]. destruct Hv as [? ?]. apply (Hinv ll). split; [done|lia].
    + exfalso. destruct Hbad as [d n Hno%cfind_no_line _|d n t' l' Hfl' Hinv]; [by apply (Hno (42 :: t) l)|].
      destruct (first_line_det _ _ _ _ _ Hfl Hfl') as [[= <-] _]. destruct Hv as [? ?]. apply (Hinv ll). split; [done|unfold LLONG_MIN; lia].
  - pose proof Hv as [Hs Hn]. assert (head q = Some 42) as Hhd by (by destruct Hfl as (y & -> & _)). rewrite decide_True by done.
    change (REDIS_REQ_MULTIBULK =? REDIS_REQ_INLINE) with false. change (REDIS_REQ_MULTIBULK =? REDIS_REQ_MULTIBULK) with true. cbv iota.
    assert (¬ no_line l2 ∧ stuck (-1) l2) as [Hl2 Hst].
    { split; [|by eapply bad_stuck]. intros Hno. remember 0 as z eqn:Ez in Hbad. destruct Hbad as [d n0 _ Hsz|d n0 x t' l' Hfl' _ _|d n0 t' l' Hfl' _]; [|by apply (Hno t' l')|by apply (Hno (36 :: t') l')].
      unfold REDIS_INLINE_MAX_SIZE in Hsz. lia. }
    destruct (multibulk_start_cases junk malloc_size limits unixtime ae_create h c q) as [(Hno & _)|[(m' & r & He & Hbad' & _)|[(t' & l' & ll & qb & Hfl' & [Hs' ?] & _)|(t' & l' & ll & Hfl' & [Hs' Hll] & Hd & Hpos & ->)]]]; try done.
    + by destruct (Hno (42 :: t) l).
    + exfalso. destruct Hbad' as [d n' Hno%cfind_no_line _|d n' t' l' Hfl' Hinv]; [by apply (Hno (42 :: t) l)|].
      destruct (first_line_det _ _ _ _ _ Hfl Hfl') as [[= <-] _]. apply (Hinv n). split; [done|unfold LLONG_MIN; lia].
    + exfalso. destruct (first_line_det _ _ _ _ _ Hfl Hfl') as [[= <-] _]. rewrite Hs in Hs'. injection Hs' as <-. lia.
    + destruct (first_line_det _ _ _ _ _ Hfl Hfl') as [[= <-] <-]. rewrite Hs in Hs'. injection Hs' as <-. set (c1 := set_argv (set_lens c n (bulklen (cin c))) [] n).
      assert (args_result junk malloc_size limits unixtime ae_create h c1 l (len q) (small (bulklen (cin c1)) (len t + 3) (len q)) (multibulk_args junk malloc_size limits unixtime ae_create h c1 (len t + 3))) as Hres.
      { rewrite <- Hd. apply multibulk_args_cases; cbn; try done; [lia|lia|by left]. }
      assert (bulklen (cin c1) = -1 ∧ multibulklen (cin c1) = n) as [Eb Em] by done.
      destruct Hres as [ys' l' qb os Hr' _ _ _ Hk'|ys' bl l' qb os Hr' _ _ _ Hk' Hp|ys' l' n' qb q' os m' p r Hr' _ Hk' Hbad' _ Hqb Hfq _ Hp He]; rewrite Eb, Em in *.
      * exfalso. destruct (reads_same _ _ _ _ _ _ Hr Hr' Hst) as (-> & _ & _); [by right; lia|lia].
      * exfalso. destruct (reads_same _ _ _ _ _ _ Hr Hr' Hst) as (-> & -> & ->); [left; by apply pending_stuck|].
        destruct Hp as [[_ ?]|[? _]]; [done|lia].
      * destruct (reads_same _ _ _ _ _ _ Hr Hr' Hst) as (-> & _ & ->); [left; by eapply bad_stuck|].
        assert (m' = m) as -> by (by eapply bad_det).
        destruct (error_in ext h c st (cin (upd c1 qb (argv (cin c1) ++ os) (n - len ys') (-1))) q' m p r He) as (h' & c' & -> & ? & ? & ? & _); try done; [by eapply bulk_bad_fits|].
        bsimpl. by exists h', c'.
Qed.

(** ** Arbitrary bytes *)

(** The replies so far are in order, and there is space for an error. *)
Definition healthy h c : Prop := ∃ ext st, out_ok ext h c st ∧ room 3 c.

(** The states the parsers leave and take up again, with the text [q] in the
    buffer. *)
Inductive sound h c (q : list Z) : Prop :=
  | sound_closing : has_flag c REDIS_CLOSE_AFTER_REPLY = true → bulklen (cin c) = -1 → sound h c q
  | sound_between : multibulklen (cin c) = 0 → bulklen (cin c) = -1 → argv (cin c) = [] → 0 ≤ argv_room (cin c) →
      reqtype (cin c) = 0 ∨ reqtype (cin c) = REDIS_REQ_INLINE ∨ reqtype (cin c) = REDIS_REQ_MULTIBULK ∧ head q = Some 42 → healthy h c → sound h c q
  | sound_within : reqtype (cin c) = REDIS_REQ_MULTIBULK → 0 < multibulklen (cin c) → len (argv (cin c)) + multibulklen (cin c) ≤ argv_room (cin c) →
      bulklen (cin c) = -1 ∨ 0 ≤ bulklen (cin c) ≤ MAX_BULK → open_client c → healthy h c → sound h c q.

(** No argument is complete. *)
Definition quiet c (q : list Z) : Prop := bulklen (cin c) = -1 ∨ (0 ≤ bulklen (cin c) ≤ MAX_BULK ∧ len q < bulklen (cin c) + 2).

(** What is asked of a command: it returns, leaves the query buffer, and leaves
    the replies in order or has the client closed. *)
Definition tame : Prop := ∀ w h c, healthy h c → argv (cin c) ≠ [] → 0 ≤ argv_room (cin c) →
  ∃ w' h' c' r, processCommand w h c = Some (w', h', c', r) ∧ querybuf (cin c') = querybuf (cin c) ∧ bulklen (cin c') = bulklen (cin c) ∧
    0 ≤ argv_room (cin c') ∧ (r = REDIS_OK ∧ healthy h' c' ∨ r ≠ REDIS_OK ∧ has_flag c' REDIS_CLOSE_AFTER_REPLY = true).

Lemma healthy_same h c c' : cout c' = cout c → healthy h c → healthy h c'.
Proof. intros E (ext & st & Hok & Hr). exists ext, st. split; [by eapply out_ok_same|]. unfold room in *. by rewrite E. Qed.

(** The result of one request. *)
Definition request_result h c (q : list Z) (r : option (oheap * redisClient * Z)) : Prop :=
  ∃ h' c' q' res, r = Some (h', c', res) ∧ rep (querybuf (cin c')) q' ∧
    (res = REDIS_ERR ∧ sound h' c' q' ∧ quiet c' q' ∧ len q' ≤ len q ∨
     res = REDIS_OK ∧ healthy h' c' ∧ len q' < len q ∧ bulklen (cin c') = -1 ∧ 0 ≤ argv_room (cin c')).

Lemma error_result h c q i q1 m p r :
  healthy h c → is_error h (set_in c i) m p r → rep (querybuf i) q1 → 0 ≤ p ≤ len q1 → fits (len q1) → fits (len m) → len q1 ≤ len q → bulklen i = -1 →
  request_result h c q ('(h, c) ← r; Some (h, c, REDIS_ERR)).
Proof.
  intros (ext & st & Hok & Hroom) He Hq Hp Hf Hm Hl Hb.
  destruct (error_in ext h c st i q1 m p r He) as (h' & c' & -> & _ & _ & Hfl & (q' & Hq' & Hl') & Hbl); try done. bsimpl.
  exists h', c', q', REDIS_ERR. split; [done|]. split; [done|]. left. split; [done|]. split; [apply sound_closing; [done|congruence]|]. split; [left; congruence|lia].
Qed.

Lemma inline_result h c q :
  rep (querybuf (cin c)) q → q ≠ [] → fits (len q + 1) → healthy h c → multibulklen (cin c) = 0 → bulklen (cin c) = -1 → argv (cin c) = [] → 0 ≤ argv_room (cin c) →
  reqtype (cin c) = REDIS_REQ_INLINE → request_result h c q (processInlineBuffer junk malloc_size limits unixtime ae_create h c).
Proof.
  intros Hq Hne Hf Hh Hm Hb Ha Hroom Ht. assert (0 < len q) as Hpos by (destruct q; [done|cbn [length]; lia]).
  destruct (inline_cases junk malloc_size limits unixtime ae_create h c q Hq Hf Hroom) as [(_ & _ & ->)|[(m & r & He & Hbad & ->)|(p & r & toks & qb & _ & _ & _ & Hqb & ->)]].
  - exists h, c, q, REDIS_ERR. split; [done|]. split; [done|]. left. split; [done|]. split; [apply sound_between; auto|]. split; [by left|lia].
  - assert (c = set_in c (cin c)) as Ec by (by destruct c). rewrite Ec in He. eapply error_result; try done; first [lia|unfold fits in *; lia|by eapply inline_bad_fits].
  - eexists h, _, _, REDIS_OK. split; [done|]. split; [cbn; exact Hqb|]. right. split; [done|].
    assert (∃ c0, inline_client unixtime c qb p toks = set_argv (set_querybuf c0 qb) (inline_argv toks) (if len toks =? 0 then argv_room (cin c0) else len toks) ∧ cout c0 = cout c ∧ cin c0 = cin c) as (c0 & -> & Eo & Ei).
    { unfold inline_client. cbv zeta. eexists. split; [reflexivity|]. by case_match. }
    split; [by eapply healthy_same; [|exact Hh]|]. split; [rewrite length_drop; lia|]. cbn. rewrite Ei. split; [done|]. case_match; lia.
Qed.

Lemma args_total h c d q sm r :
  args_result junk malloc_size limits unixtime ae_create h c d (len q) sm r → healthy h c → open_client c → reqtype (cin c) = REDIS_REQ_MULTIBULK →
  0 < multibulklen (cin c) → len (argv (cin c)) + multibulklen (cin c) ≤ argv_room (cin c) → len d ≤ len q → fits (len q) → request_result h c q r.
Proof.
  intros Hr Hh Hb Ht Hm Hroom Hl Hf. destruct Hr as [ys l qb os Hr Ha Hqb _ Hk|ys bl l qb os Hr Ha Hqb Hle Hk Hp|ys l n qb q' os m p r Hr Ha Hk Hbad _ Hqb Hfq HN Hp He].
  - eexists h, _, l, REDIS_OK. split; [done|]. split; [done|]. right. split; [done|]. split; [by eapply healthy_same; [|exact Hh]|].
    assert (len l < len d) by (eapply reads_lt; [exact Hr|intros ->; cbn in Hk; lia]). split; [lia|]. split; [done|]. cbn. lia.
  - eexists h, _, l, REDIS_ERR. split; [done|]. split; [done|]. left. split; [done|]. apply Forall2_length in Ha. split; [|split; [|lia]].
    + apply sound_within; cbn; try done; [lia|rewrite length_app; lia| |by eapply healthy_same; [|exact Hh]]. destruct Hp as [[-> _]|[? _]]; [by left|by right].
    + destruct Hp as [[-> _]|?]; [by left|by right].
  - set (c1 := upd c qb (argv (cin c) ++ os) (multibulklen (cin c) - len ys) (-1)) in He.
    assert (is_error h (set_in c (cin c1)) m p r) as He' by done. eapply error_result; try done. by eapply bulk_bad_fits.
Qed.
Lemma one_total h c q :
  rep (querybuf (cin c)) q → q ≠ [] → fits (len q + 1) → sound h c q → open_client c → reqtype (cin c) ≠ 0 → request_result h c q (one_request h c).
Proof.
  intros Hq Hne Hf Hs Hop Ht. assert (fits (len q)) as Hf' by (unfold fits in *; lia). unfold Input.one_request. destruct Hs as [Hc _|Hm Hb Ha Hr Hty Hh|Hty Hm Hr Hb _ Hh].
  - destruct Hop. congruence.
  - destruct Hty as [?|[E|[E Hhd]]]; [done| |]; rewrite E.
    + change (REDIS_REQ_INLINE =? REDIS_REQ_INLINE) with true. cbv iota. by apply inline_result.
    + change (REDIS_REQ_MULTIBULK =? REDIS_REQ_INLINE) with false. change (REDIS_REQ_MULTIBULK =? REDIS_REQ_MULTIBULK) with true. cbv iota.
      destruct (multibulk_start_cases junk malloc_size limits unixtime ae_create h c q) as [(_ & _ & ->)|[(m & r & He & Hbad & ->)|[(t & l & ll & qb & Hfl & _ & Hqb & ->)|(t & l & ll & Hfl & [_ Hll] & <- & Hpos & ->)]]]; try done.
      * exists h, c, q, REDIS_ERR. split; [done|]. split; [done|]. left. split; [done|]. split; [apply sound_between; auto|]. split; [by left|lia].
      * assert (c = set_in c (cin c)) as Ec by (by destruct c). rewrite Ec in He. eapply error_result; try done; first [lia|by eapply start_bad_fits].
      * exists h, (set_querybuf c qb), l, REDIS_OK. split; [done|]. split; [done|]. right. split; [done|]. split; [by eapply healthy_same; [|exact Hh]|].
        split; [|done]. destruct Hfl as (y & -> & _). cbn [length app]. rewrite length_app. cbn [length]. lia.
      * set (c1 := set_argv (set_lens c ll (bulklen (cin c))) [] ll).
        assert (args_result junk malloc_size limits unixtime ae_create h c1 (drop (Z.to_nat (len t + 3)) q) (len q) (small (bulklen (cin c1)) (len t + 3) (len q)) (multibulk_args junk malloc_size limits unixtime ae_create h c1 (len t + 3))) as Hres
          by (apply multibulk_args_cases; cbn; try done; [lia|lia|by left]).
        destruct (args_total h c1 _ q _ _ Hres) as (h' & c' & q' & res & Er); cbn; try done; [by eapply healthy_same; [|exact Hh]|lia|rewrite length_drop; lia|].
        by exists h', c', q', res.
  - rewrite Hty. change (REDIS_REQ_MULTIBULK =? REDIS_REQ_INLINE) with false. change (REDIS_REQ_MULTIBULK =? REDIS_REQ_MULTIBULK) with true. cbv iota.
    unfold processMultibulkBuffer. rewrite (proj2 (Z.eqb_neq (multibulklen (cin c)) 0)) by lia.
    eapply args_total; [apply (multibulk_args_cases junk malloc_size limits unixtime ae_create h c q 0)| | | | | | |]; try done; first [lia|rewrite length_drop; lia].
Qed.

Lemma sound_reqtype h c q x q' : q = x :: q' → sound h c q →
  sound h (if reqtype (cin c) =? 0 then set_reqtype c (if x =? 42 then REDIS_REQ_MULTIBULK else REDIS_REQ_INLINE) else c) q.
Proof.
  intros -> Hs. destruct (Z.eqb_spec (reqtype (cin c)) 0) as [Et|]; [|done]. destruct Hs as [Hc Hb|Hm Hb Ha Hr Hty Hh|Hty]; [by apply sound_closing| |by rewrite Et in Hty].
  apply sound_between; try done; [|by eapply healthy_same; [|exact Hh]]. right. cbn. destruct (Z.eqb_spec x 42) as [-> |]; [by right|by left].
Qed.

Lemma resetClient_room c : argv_room (cin (resetClient c)) = argv_room (cin c).
Proof. unfold resetClient. by case_match. Qed.
Lemma resetClient_out c : cout (resetClient c) = cout c.
Proof. unfold resetClient. by case_match. Qed.

Lemma loop_total fuel : ∀ w h c q,
  tame → rep (querybuf (cin c)) q → fits (len q + 1) → sound h c q → (q = [] → quiet c q) → len q < Z.of_nat fuel →
  ∃ w' h' c' q', processInputBuffer fuel w h c = Some (w', h', c') ∧ rep (querybuf (cin c')) q' ∧ sound h' c' q' ∧ quiet c' q' ∧ len q' ≤ len q.
Proof.
  induction fuel as [|fuel IH]; intros w h c q Htame Hq Hf Hs H0 Hfuel; [lia|]. cbn [Input.processInputBuffer].
  destruct (rep_buf _ _ Hq) as (_ & _ & Hlen). rewrite Hlen. destruct (Z.eqb_spec (len q) 0) as [E0|E0].
  { destruct q; [|done]. exists w, h, c, []. split_and!; try done. by apply H0. }
  assert (sound h c q → ¬ open_client c → quiet c q) as Hquiet.
  { intros [_ Hb|_ Hb|_ _ _ _ Hop] Hn; [by left|by left|done]. }
  destruct (has_flag c REDIS_BLOCKED) eqn:Eb; [exists w, h, c, q; split_and!; try done; apply Hquiet; [done|intros []; congruence]|].
  destruct (has_flag c REDIS_CLOSE_AFTER_REPLY) eqn:Ec; [exists w, h, c, q; split_and!; try done; apply Hquiet; [done|intros []; congruence]|].
  destruct q as [|x q0] eqn:Eq; [done|]. rewrite <- Eq in *.
  pose proof (sound_reqtype h c q x q0 Eq Hs) as Hs1.
  assert ((if reqtype (cin c) =? 0 then x ← mget (buf (querybuf (cin c))) 0; Some (set_reqtype c (if x =? 42 then REDIS_REQ_MULTIBULK else REDIS_REQ_INLINE)) else Some c) =
    Some (if reqtype (cin c) =? 0 then set_reqtype c (if x =? 42 then REDIS_REQ_MULTIBULK else REDIS_REQ_INLINE) else c)) as ->.
  { destruct (reqtype (cin c) =? 0); [|done]. rewrite (rep_mget _ q 0 x q0) by (done || lia || (by rewrite Eq)). done. }
  bsimpl. set (c1 := if reqtype (cin c) =? 0 then _ else c) in *.
  assert (querybuf (cin c1) = querybuf (cin c) ∧ cflags c1 = cflags c ∧ reqtype (cin c1) ≠ 0) as (Eq1 & Efl & Hty1).
  { unfold c1. destruct (Z.eqb_spec (reqtype (cin c)) 0); [|done]. cbn. split_and!; try done. by destruct (x =? 42). }
  destruct (one_total h c1 q) as (h2 & c2 & q2 & res & -> & Hq2 & [(-> & Hs2 & Hq2' & Hl2)|(-> & Hh2 & Hl2 & Hb2 & Hr2)]);
    [by rewrite Eq1|by rewrite Eq|done|done|unfold open_client, has_flag in *; by rewrite Efl|done|..]; bsimpl.
  - change (negb (REDIS_ERR =? REDIS_OK)) with true. cbv iota. by exists w, h2, c2, q2.
  - change (negb (REDIS_OK =? REDIS_OK)) with false. cbv iota.
    assert (∀ w h c, rep (querybuf (cin c)) q2 → healthy h c → 0 ≤ argv_room (cin c) → ∃ w' h' c' q', processInputBuffer fuel w h (resetClient c) = Some (w', h', c') ∧
      rep (querybuf (cin c')) q' ∧ sound h' c' q' ∧ quiet c' q' ∧ len q' ≤ len q) as Hnext.
    { intros w3 h3 c3 Hq3 Hh3 Hr3. destruct (reset_ok c3) as (R1 & R2 & R3 & R4 & R5 & _).
      destruct (IH w3 h3 (resetClient c3) q2 Htame) as (w4 & h4 & c4 & q4 & -> & ? & ? & ? & ?); [by rewrite R1|unfold fits in *; lia| |by left|lia|].
      - apply sound_between; auto; [by rewrite (resetClient_room c3)|by eapply healthy_same; [apply resetClient_out|]].
      - exists w4, h4, c4, q4. split_and!; try done. lia. }
    destruct (Z.eqb_spec (len (argv (cin c2))) 0) as [Ea|Ea]; [by apply Hnext|].
    destruct (Htame w h2 c2 Hh2) as (w3 & h3 & c3 & r & -> & Eq3 & Eb3 & Hr3 & Hcase); [by intros E; rewrite E in Ea|done|]. bsimpl. rewrite <- Eq3 in Hq2.
    destruct (Z.eqb_spec r REDIS_OK) as [Er|Er]; destruct Hcase as [[? Hh3]|[? Hcl]]; try done; [by apply Hnext|].
    destruct (IH w3 h3 c3 q2 Htame) as (w4 & h4 & c4 & q4 & -> & ? & ? & ? & ?); [done|unfold fits in *; lia|apply sound_closing; [done|congruence]|by intros _; left; congruence|lia|].
    exists w4, h4, c4, q4. split_and!; try done. lia.
Qed.
End errors.
