(* ===== verification/RequestThms.v ===== *)
(** * What the server does with what it is sent

    The theorems on requests: everything a client sends is served, however it is
    split; a malformed request executes nothing and ends the conversation; no
    sequence of bytes, or of failures of the socket, makes the parsers leave
    their buffers or fail an assertion. *)

From S2P Require Import Prelude Util Sds SdsText Object Client Reply ReplySpec ReplyOps ReplyThms Input InputSpec InputOps InputStream InputThms InputErrors.
From stdpp Require Import gmap.
Local Open Scope Z_scope.

Section requests.
Context (junk : nat → Z) (malloc_size : sdshdr → Z) (limits : Z → obuf_limit) (unixtime : Z) (ae_create : bool) (max_querybuf : Z).
Context {World : Type} (processCommand : World → oheap → redisClient → option (World * oheap * redisClient * Z)).
Implicit Types (h : oheap) (c : redisClient) (w : World).
#[local] Abbreviation out_ok := (out_ok malloc_size).
#[local] Abbreviation processInlineBuffer := (processInlineBuffer junk malloc_size limits unixtime ae_create).
#[local] Abbreviation processInputBuffer := (processInputBuffer junk malloc_size limits unixtime ae_create processCommand).
#[local] Abbreviation readQueryFromClient := (readQueryFromClient junk malloc_size limits unixtime ae_create max_querybuf processCommand).
#[local] Abbreviation serve := (serve junk malloc_size limits unixtime ae_create max_querybuf processCommand).

(** A client between two requests, with nothing read. *)
Record between c : Prop := {
  between_type : reqtype (cin c) = 0;
  between_multi : multibulklen (cin c) = 0;
  between_bulk : bulklen (cin c) = -1;
  between_argv : argv (cin c) = [];
  between_room : 0 ≤ argv_room (cin c);
  between_open : open_client c
}.

(** The connection over time: what each call of the handler finds. *)
Fixpoint feed (rs : list rresult) w h c : option (World * oheap * option redisClient) :=
  match rs with
  | [] => Some (w, h, Some c)
  | r :: rs =>
      '(w, h, c) ← readQueryFromClient r w h c;
      match c with Some c => feed rs w h c | None => Some (w, h, None) end
  end.

(** ** Requests split in any way *)

(** C3. Whatever commands a client pipelines, and however the network splits
    the bytes and the event loop interleaves the reads, the server executes
    exactly those commands, in order, and is then ready for the next one with
    nothing left in its buffer. *)
Theorem requests_served exec events cs w h c :
  between c → rep (querybuf (cin c)) [] → Forall (served processCommand exec) cs → MAX_BULK + 2 ≤ max_querybuf →
  Forall (λ n, (1 ≤ n)%nat) events → (length (concat (request <$> cs)) ≤ length events)%nat →
  ∃ h' c', serve events (concat (request <$> cs)) w h c = Some (foldl (flip exec) w cs, h', Some c', []) ∧
    rep (querybuf (cin c')) [] ∧ multibulklen (cin c') = 0 ∧ bulklen (cin c') = -1 ∧ argv (cin c') = [].
Proof.
  intros [Ht Hm Hb Ha Hr Hop] Hq Hcs Hmax Hev Hlen.
  destruct (serve_all junk malloc_size limits unixtime ae_create max_querybuf processCommand exec events (concat (request <$> cs)) w h c [] cs)
    as (h' & c' & q' & E & Hq' & Hst & Hsh & _); try done.
  - split; [done|]. split; [apply stage_ready; auto|]. split; [split; [cbn; lia|congruence]|done].
  - destruct cs as [|[] ]; done.
  - exists h', c'. split; [done|]. rewrite app_nil_r in Hst. remember [] as cs0 eqn:E0 in Hst. destruct Hst as [cs' _ Hm' Hb' Ha' Eq|]; [|done].
    subst. cbn in Hq'. by split_and!.
Qed.
(** ** Malformed requests *)

Lemma malformed_cons q m : malformed junk q m → ∃ x q0, q = x :: q0.
Proof.
  intros [[|x q0] m' Hne _ _|[|x q0] m' Hhd _|q' t n l ys l2 m' (y & -> & _) _ _ _ _]; try done; by eexists _, _.
Qed.

Lemma accepts_reqtype c t : accepts ae_create (set_reqtype c t) = accepts ae_create c.
Proof. apply accepts_set_in. Qed.

Lemma closing_rests fuel w h c : has_flag c REDIS_CLOSE_AFTER_REPLY = true → processInputBuffer fuel w h c = Some (w, h, c).
Proof. intros E. destruct fuel; cbn [Input.processInputBuffer]; rewrite E; by repeat case_match. Qed.

(** C36. A malformed request executes nothing: it is answered with one error
    that tells what is wrong, the client is marked to be closed after that
    reply, and no byte it sends afterwards is looked at. *)
Theorem malformed_refused ext fuel w h c st q m :
  (∀ s, 0 ≤ malloc_size s < 2 ^ 33) → malformed junk q m → between c → rep (querybuf (cin c)) q → fits (len q + 1) → out_ok ext h c st → room 3 c →
  ∃ h' c', processInputBuffer (S fuel) w h c = Some (w, h', c') ∧ out_ok ext h' c' (st ++ if accepts ae_create c then bytes (error_text m) else []) ∧
    keeps ext h h' ∧ has_flag c' REDIS_CLOSE_AFTER_REPLY = true ∧ ∀ fuel' w', processInputBuffer fuel' w' h' c' = Some (w', h', c').
Proof.
  intros Hms Hmal [Ht Hm Hb Ha Hr [Hbl Hcl]] Hq Hf Hok Hroom.
  destruct (malformed_cons _ _ Hmal) as (x & q0 & Eq).
  cbn [Input.processInputBuffer]. destruct (rep_buf _ _ Hq) as (_ & _ & Hlen). rewrite Hlen, (proj2 (Z.eqb_neq (len q) 0)), Hbl, Hcl, Ht by (rewrite Eq; cbn [length]; lia).
  change (0 =? 0) with true. cbv iota. rewrite (rep_mget _ q 0 x q0) by (done || lia || by rewrite Eq). bsimpl.
  set (c1 := set_reqtype c _). destruct (malformed_request junk malloc_size limits unixtime ae_create Hms ext h c1 st q m) as (h' & c' & -> & Hok' & Hk & Hfl); try done.
  { unfold c1. cbn. rewrite Eq. destruct (Z.eqb_spec x 42) as [-> |]; [by rewrite decide_True|rewrite decide_False by (by intros [= ->]); done]. }
  { by eapply out_ok_same; [|exact Hok]. }
  bsimpl. change (negb (REDIS_ERR =? REDIS_OK)) with true. cbv iota. exists h', c'. split; [done|]. unfold c1 in Hok'. rewrite accepts_reqtype in Hok'.
  split; [done|]. split; [done|]. split; [done|]. intros. by apply closing_rests.
Qed.
(** ** Inline requests *)

Lemma quoted_line_printable args : Forall (Forall byte) args → Forall (λ x, 32 ≤ x) (quoted_line args).
Proof.
  assert (∀ x, byte x → Forall (λ x, 32 ≤ x) (quote x)) as Hq.
  { intros x Hx. unfold quote, isprint, hex_digit, byte in *. repeat (case_match; [repeat constructor; lia|]). pose proof (Z.div_pos x 16). pose proof (Z.mod_pos_bound x 16).
    repeat constructor; try case_match; lia. }
  induction 1 as [|a args Ha Hargs IH]; [constructor|]. rewrite quoted_line_cons. unfold repr. cbn [app]. constructor; [lia|]. apply Forall_app. split.
  - apply Forall_app. split; [|by repeat constructor]. clear -Ha Hq. induction Ha as [|x a Hx Ha IHa]; cbn [quotes]; [constructor|]. apply Forall_app. split; [by apply Hq|done].
  - destruct args; [constructor|]. constructor; [lia|done].
Qed.

Lemma line_inj (p1 p2 r1 r2 : list Z) :
  Forall (λ x, x ≠ 10) p1 → Forall (λ x, x ≠ 10) p2 → p1 ++ 10 :: r1 = p2 ++ 10 :: r2 → p1 = p2 ∧ r1 = r2.
Proof.
  intros H1 H2 E. revert p2 H2 E. induction H1 as [|x p1 Hx H1 IH]; intros [|y p2] H2 E; cbn in E.
  - by injection E.
  - apply Forall_cons in H2 as [? _]. by injection E as <- _.
  - by injection E.
  - apply Forall_cons in H2 as [_ H2]. injection E as <- E. by destruct (IH p2 H2 E) as [-> ->].
Qed.

Lemma inline_argv_ok toks args : Forall2 rep toks args → Forall2 arg_ok (inline_argv toks) (filter (λ a, a ≠ []) args).
Proof.
  unfold inline_argv. induction 1 as [|s t toks args Hs Hr IH]; [constructor|]. rewrite !filter_cons. destruct (rep_buf _ _ Hs) as (_ & _ & Hl).
  destruct t as [|x t]; [rewrite decide_False by (rewrite Hl; tauto); by rewrite decide_False by tauto|].
  rewrite decide_True by (rewrite Hl; cbn [length]; lia). rewrite decide_True by done. constructor; [|done]. by apply new_arg_ok.
Qed.

(** The line [p], which holds the quoted arguments and maybe a carriage return. *)
Lemma inline_line args p r h c :
  Forall (Forall byte) args → p = quoted_line args ∨ p = quoted_line args ++ [13] → rep (querybuf (cin c)) (p ++ 10 :: r) → fits (len (p ++ 10 :: r) + 1) → 0 ≤ argv_room (cin c) →
  ∃ c', processInlineBuffer h c = Some (h, c', REDIS_OK) ∧ Forall2 arg_ok (argv (cin c')) (filter (λ a, a ≠ []) args) ∧
    rep (querybuf (cin c')) (drop (length (quoted_line args) + 2) (p ++ 10 :: r)).
Proof.
  intros Hb Hp Hq Hf Hr. pose proof (quoted_line_printable args Hb) as Hpr.
  assert (Forall (λ x, x ≠ 10 ∧ x ≠ 0) p) as Hclean.
  { destruct Hp as [-> | ->]; [|apply Forall_app; split; [|by repeat constructor]]; (eapply Forall_impl; [exact Hpr|]; cbv beta; lia). }
  assert (chomp p = quoted_line args) as Echomp.
  { destruct (chomp_cases p) as [(p' & Ep & ->)|[Hl ->]]; destruct Hp as [-> | ->]; try done.
    - rewrite Ep in Hpr. apply Forall_app in Hpr as [_ Hpr]. apply Forall_cons in Hpr as [Hpr _]. lia.
    - by apply app_inj_tail in Ep as [-> _].
    - by rewrite last_snoc in Hl. }
  destruct (sdssplitargs_quoted_ok junk args [] Hb) as (toks & Et & Ht).
  { unfold fits in *. rewrite length_app in *. cbn [length] in *. destruct Hp as [-> | ->]; [|rewrite length_app in Hf; cbn [length] in Hf]; lia. }
  assert (∀ p' r', p ++ 10 :: r = p' ++ 10 :: r' → Forall (λ x, x ≠ 10 ∧ x ≠ 0) p' → p' = p ∧ r' = r) as Hinj.
  { intros p' r' E Hp'. destruct (line_inj p p' r r') as [-> ->]; [eapply Forall_impl; [exact Hclean|tauto]|eapply Forall_impl; [exact Hp'|tauto]|done|done]. }
  destruct (inline_cases junk malloc_size limits unixtime ae_create h c _ Hq Hf Hr) as [(E & _)|[(m & r0 & _ & Hbad & _)|(p' & r' & toks' & qb & E & Hp' & Et' & Hqb & ->)]].
  - rewrite cfind_app in E by done. done.
  - exfalso. remember (p ++ 10 :: r) as q eqn:Eq in Hbad. destruct Hbad as [q E _|p' r' Hp' Es].
    + rewrite Eq, cfind_app in E by done. done.
    + destruct (Hinj p' r' (eq_sym Eq) Hp') as [-> ->]. rewrite Echomp in Es. congruence.
  - destruct (Hinj p' r' E Hp') as [-> ->]. rewrite Echomp in *. rewrite Et in Et'. injection Et' as <-.
    eexists. split; [done|]. split; [by apply inline_argv_ok|done].
Qed.

(** An inline request, whatever bytes its arguments hold, when they are
    quoted the way the server quotes them: the argument vector has exactly the
    arguments that are not empty, and what follows the line is the next text to
    parse. *)
Theorem inline_request_parsed args rest h c :
  Forall (Forall byte) args → rep (querybuf (cin c)) (quoted_line args ++ [13; 10] ++ rest) → fits (len (quoted_line args ++ [13; 10] ++ rest) + 1) → 0 ≤ argv_room (cin c) →
  ∃ c', processInlineBuffer h c = Some (h, c', REDIS_OK) ∧ Forall2 arg_ok (argv (cin c')) (filter (λ a, a ≠ []) args) ∧ rep (querybuf (cin c')) rest.
Proof.
  intros Hb Hq Hf Hr. assert (quoted_line args ++ [13; 10] ++ rest = (quoted_line args ++ [13]) ++ 10 :: rest) as E by (by rewrite <- app_assoc).
  rewrite E in *. destruct (inline_line args _ rest h c Hb (or_intror eq_refl) Hq Hf Hr) as (c' & -> & Ha & Hq'). exists c'. split; [done|]. split; [done|].
  rewrite <- E, drop_app_ge in Hq' by lia. by replace (_ + 2 - _)%nat with 2%nat in Hq' by lia.
Qed.

(** With a line feed alone at the end of the line, the first byte of what
    follows is lost. *)
Lemma inline_line_feed_loses args x rest h c :
  Forall (Forall byte) args → rep (querybuf (cin c)) (quoted_line args ++ 10 :: x :: rest) → fits (len (quoted_line args ++ 10 :: x :: rest) + 1) → 0 ≤ argv_room (cin c) →
  ∃ c', processInlineBuffer h c = Some (h, c', REDIS_OK) ∧ Forall2 arg_ok (argv (cin c')) (filter (λ a, a ≠ []) args) ∧ rep (querybuf (cin c')) rest.
Proof.
  intros Hb Hq Hf Hr. destruct (inline_line args _ (x :: rest) h c Hb (or_introl eq_refl) Hq Hf Hr) as (c' & -> & Ha & Hq'). exists c'. split; [done|]. split; [done|].
  rewrite drop_app_ge in Hq' by lia. by replace (_ + 2 - _)%nat with 2%nat in Hq' by lia.
Qed.

(** ** Arbitrary bytes *)

#[local] Abbreviation sound := (sound malloc_size).

Lemma quiet_read_size c q : quiet c q → rep (querybuf (cin c)) q → 0 < read_size c ≤ REDIS_IOBUF_LEN.
Proof.
  intros Hqu Hq. destruct (rep_buf _ _ Hq) as (_ & _ & Hlen). unfold read_size, REDIS_IOBUF_LEN, REDIS_MBULK_BIG_ARG, quiet, MAX_BULK in *.
  destruct (_ && _) eqn:E; [|lia]. apply andb_true_iff in E as [[[_ _]%andb_true_iff Hb%negb_true_iff]%andb_true_iff Hbig].
  apply Z.eqb_neq in Hb. destruct Hqu as [?|[? ?]]; [done|]. rewrite Hlen, (uwrap_small 32), (uwrap_small 64), swrap_small by lia.
  destruct (Z.ltb_spec (bulklen (cin c) + 2 - len q) (1024 * 16)); lia.
Qed.

Lemma sound_same h c c' q q' :
  cout c' = cout c → cflags c' = cflags c → (∀ qb, cin (set_querybuf c' qb) = cin (set_querybuf (set_querybuf_peak c (querybuf_peak (cin c'))) qb)) →
  (head q = Some 42 → head q' = Some 42) → sound h c q → sound h c' q'.
Proof.
  intros Eo Ef Ei Hhd Hs. specialize (Ei (querybuf (cin c))). cbn in Ei. injection Ei as Ea Er Et Em Eb.
  destruct Hs as [Hc Hb|Hm Hb Ha Hr Hty Hh|Hty Hm Hr Hb Hop Hh].
  - apply sound_closing; [unfold has_flag in *; by rewrite Ef|congruence].
  - apply sound_between; try congruence; [|by eapply healthy_same]. rewrite Et. naive_solver.
  - apply sound_within; rewrite ?Et, ?Em, ?Ea, ?Er, ?Eb; try done; [unfold open_client, has_flag in *; by rewrite Ef|by eapply healthy_same].
Qed.

(** A connection that is looked after. *)
Definition tended h c : Prop := ∃ q, rep (querybuf (cin c)) q ∧ sound h c q ∧ quiet c q ∧ len q ≤ max_querybuf.

Lemma read_total r w h c :
  (∀ s, 0 ≤ malloc_size s < 2 ^ 33) → tame malloc_size processCommand → fits (max_querybuf + REDIS_IOBUF_LEN + 1) → tended h c →
  ∃ w' h' r', readQueryFromClient r w h c = Some (w', h', r') ∧ match r' with Some c' => tended h' c' | None => True end.
Proof.
  intros Hms Htame Hmax (q & Hq & Hs & Hqu & Hl). pose proof (quiet_read_size _ _ Hqu Hq) as Hrs. destruct (rep_buf _ _ Hq) as (_ & _ & Hql).
  unfold REDIS_IOBUF_LEN, fits in *. unfold Input.readQueryFromClient. rewrite Hql. cbv zeta. rewrite (uwrap_small 64 (read_size c)) by lia.
  set (c0 := if querybuf_peak (cin c) <? len q then set_querybuf_peak c (len q) else c).
  assert (querybuf (cin c0) = querybuf (cin c) ∧ cout c0 = cout c ∧ cflags c0 = cflags c ∧ bulklen (cin c0) = bulklen (cin c) ∧
    ∀ qb, cin (set_querybuf c0 qb) = cin (set_querybuf (set_querybuf_peak c (querybuf_peak (cin c0))) qb)) as (-> & Eo & Ef & Eb & Ei) by (unfold c0; by case_match).
  destruct r as [m|[|]]; [|eexists _, _, (Some _); split; [done|]|eexists _, _, None; by split].
  2:{ exists q. split; [apply make_room_rep; [done|lia|unfold fits; lia]|]. split; [eapply (sound_same h c _ q); try done|split; [|done]; unfold quiet; cbn; by rewrite Eb]. }
  set (m' := take (Z.to_nat (read_size c)) m). assert (len m' ≤ read_size c) as Hm' by (unfold m'; rewrite length_take; lia).
  destruct (Z.eqb_spec (len m') 0) as [E0|E0]; [eexists _, _, None; by split|].
  destruct (read_append junk (querybuf (cin c)) q m' (read_size c) Hq) as (b & s' & Ew & Es & Hs'); [unfold fits; lia|lia|].
  cbn [cin set_querybuf set_in querybuf]. rewrite Ew. bsimpl. rewrite Es. bsimpl.
  set (c1 := set_lastinteraction (set_querybuf (set_querybuf c0 _) s') unixtime).
  set (c2 := if has_flag c1 REDIS_MASTER then set_reploff c1 (reploff c1 + len m') else c1).
  assert (cin c2 = cin (set_querybuf c0 s') ∧ cflags c2 = cflags c ∧ cout c2 = cout c) as (Ec2 & Ef2 & Eo2) by (unfold c2; by case_match).
  rewrite Ec2. cbn [cin set_querybuf set_in querybuf]. destruct (rep_buf _ _ Hs') as (_ & _ & ->). rewrite length_app in *.
  rewrite Z.gtb_ltb. destruct (Z.ltb_spec max_querybuf (Z.of_nat (length q + length m'))) as [Hbig|Hbig]; [eexists _, _, None; by split|].
  destruct (loop_total junk malloc_size limits unixtime ae_create Hms processCommand (S (Z.to_nat (Z.of_nat (length q + length m')))) w h c2 (q ++ m') Htame)
    as (w' & h' & c' & q' & -> & Hq' & Hs2 & Hqu' & Hl').
  - by rewrite Ec2.
  - unfold fits. rewrite length_app. lia.
  - eapply sound_same; [exact Eo2|exact Ef2| | |exact Hs]; [|by destruct q].
    intros qb. specialize (Ei qb). cbn in *. by rewrite Ec2.
  - intros E. apply app_nil in E as [_ E]. by rewrite E in E0.
  - rewrite length_app. lia.
  - bsimpl. eexists _, _, (Some _). split; [done|]. exists q'. rewrite length_app in Hl'. split_and!; try done. lia.
Qed.

(** C37. Whatever bytes a client sends, however they arrive, and whatever the
    socket reports, the parsers stay inside their buffers and no assertion
    fails: the connection is read to its end, or the client is freed; and the
    query buffer of a client that stays is within the configured limit. *)
Theorem input_total rs w h c :
  (∀ s, 0 ≤ malloc_size s < 2 ^ 33) → tame malloc_size processCommand → fits (max_querybuf + REDIS_IOBUF_LEN + 1) → tended h c →
  ∃ w' h' r', feed rs w h c = Some (w', h', r') ∧ match r' with Some c' => tended h' c' | None => True end.
Proof.
  intros Hms Htame Hmax. revert w h c. induction rs as [|r rs IH]; intros w h c Ht; cbn [feed]; [by eexists _, _, (Some c)|].
  destruct (read_total r w h c Hms Htame Hmax Ht) as (w1 & h1 & [c1|] & -> & Ht1); bsimpl; [by apply IH|by eexists _, _, None].
Qed.
End requests.

(** ** The theorems at work *)

(** Commands that do nothing but to be written down. *)
Definition arg_text (o : robj) : list Z := match ptr o with PtrSds s => take (Z.to_nat (slen s)) (buf s) | _ => [] end.
Definition log_command (w : list (list (list Z))) (h : oheap) (c : redisClient) : option (list (list (list Z)) * oheap * redisClient * Z) :=
  Some (w ++ [arg_text <$> argv (cin c)], h, c, REDIS_OK).

Lemma args_text os args : Forall2 arg_ok os args → arg_text <$> os = args.
Proof.
  induction 1 as [|o t os args (_ & _ & _ & s & Ep & (r & -> & _)) H IH]; [done|]. cbn [fmap list_fmap]. rewrite IH. f_equal.
  unfold arg_text. rewrite Ep. cbn [slen buf]. by rewrite Nat2Z.id, take_app_length.
Qed.

Lemma log_serves args : serves log_command (λ args w, w ++ [args]) args.
Proof. intros w h c Ha Hop. exists h, c. split; [|done]. unfold log_command. by rewrite (args_text _ _ Ha). Qed.

Lemma log_tame malloc_size : tame malloc_size log_command.
Proof. intros w h c Hh Ha Hr. exists (w ++ [arg_text <$> argv (cin c)]), h, c, REDIS_OK. split_and!; try done. by left. Qed.

Definition idle_client (q : list Z) : redisClient :=
  mkClient 5 0 REDIS_REPL_NONE 0 0 0 0 (mkIn (mkSds (len q) 0 (q ++ [0])) 0 [] 0 0 0 (-1)) (mkOut (replicate (Z.to_nat REDIS_REPLY_CHUNK_BYTES) 0) 0 [] 0 0 false).

Lemma idle_between q : between (idle_client q).
Proof. by repeat split. Qed.
Lemma idle_rep q : len q < 2 ^ 31 → rep (querybuf (cin (idle_client q))) q.
Proof. intros Hq. exists []. split; [cbn; by f_equal|]. cbn. lia. Qed.
Lemma idle_out q : out_ok (λ _, 64) (λ _, 0) ∅ (idle_client q) [].
Proof.
  apply (static_out_ok (λ _, 64) (λ _, 0) ∅ (idle_client q) [] (replicate (Z.to_nat REDIS_REPLY_CHUNK_BYTES) 0) false); [|done|by rewrite length_app, length_replicate].
  intros o. rewrite lookup_empty. done.
Qed.

Definition demo_commands : list (list (list Z)) := [[str "SET"; str "k"; [0; 13; 10]]; [str "PING"]; [str "GET"; []]].

Lemma requests_served_witness :
  ∃ h' c', serve (λ _, 0) (λ _, 64) demo_limits 100 true (2 ^ 30) log_command (replicate 100 3%nat) (concat (request <$> demo_commands)) [] ∅ (idle_client []) =
      Some (foldl (flip (λ args w, w ++ [args])) [] demo_commands, h', Some c', []) ∧
    rep (querybuf (cin c')) [] ∧ multibulklen (cin c') = 0 ∧ bulklen (cin c') = -1 ∧ argv (cin c') = [].
Proof.
  apply requests_served; [apply idle_between|by apply idle_rep| |by vm_compute|by apply Forall_replicate; lia|apply Nat.leb_le; by vm_compute].
  repeat (apply Forall_cons; split; [split; [|apply log_serves]; split; [cbn [length]; lia|repeat (apply Forall_cons; split; [by vm_compute|]); apply Forall_nil_2]|]). apply Forall_nil_2.
Defined.

Definition bad_request : list Z := str "*1" ++ [13; 10] ++ str ":3" ++ [13; 10].

Lemma bad_request_malformed : malformed (λ _, 0) bad_request (str "Protocol error: expected '$', got ':'").
Proof.
  eapply (mal_bulk _ bad_request (str "1") 1 (str ":3" ++ [13; 10]) [] (str ":3" ++ [13; 10])).
  - exists 10. split; [done|by repeat constructor].
  - by vm_compute.
  - constructor.
  - done.
  - change (str "Protocol error: expected '$', got ':'") with (expected_dollar 58). eapply (bad_dollar _ _ 58 (str ":3") []); [|done|done]. exists 10. split; [done|by repeat constructor].
Qed.

Lemma malformed_refused_witness :
  ∃ h' c', processInputBuffer (λ _, 0) (λ _, 64) demo_limits 100 true log_command 10 [] ∅ (idle_client bad_request) = Some ([], h', c') ∧
    out_ok (λ _, 64) (λ _, 0) h' c' ([] ++ if accepts true (idle_client bad_request) then bytes (error_text (str "Protocol error: expected '$', got ':'")) else []) ∧
    keeps (λ _, 0) ∅ h' ∧ has_flag c' REDIS_CLOSE_AFTER_REPLY = true ∧
    ∀ fuel' w', processInputBuffer (λ _, 0) (λ _, 64) demo_limits 100 true log_command fuel' w' h' c' = Some (w', h', c').
Proof.
  apply (malformed_refused (λ _, 0) (λ _, 64) demo_limits 100 true log_command (λ _, 0) 9 [] ∅ (idle_client bad_request) [] bad_request);
    [intros; lia|exact bad_request_malformed|apply idle_between|by apply idle_rep|done|apply idle_out|by split].
Defined.

Lemma inline_request_parsed_witness :
  ∃ c', processInlineBuffer (λ _, 0) (λ _, 64) demo_limits 100 true ∅ (idle_client (quoted_line [str "GET"; [10; 0; 34]; []] ++ [13; 10] ++ str "x")) = Some (∅, c', REDIS_OK) ∧
    Forall2 arg_ok (argv (cin c')) (filter (λ a, a ≠ []) [str "GET"; [10; 0; 34]; []]) ∧ rep (querybuf (cin c')) (str "x").
Proof. apply inline_request_parsed; [by repeat constructor|by apply idle_rep|by vm_compute|done]. Defined.

(** Nonsense in three pieces, a pause, a failure. *)
Lemma input_total_witness :
  ∃ w' h' r', feed (λ _, 0) (λ _, 64) demo_limits 100 true (2 ^ 30) log_command [RBytes (str "*2"); RFailed true; RBytes [13; 10; 36; 255; 0]; RBytes (str "x"); RFailed false]
      [] ∅ (idle_client []) = Some (w', h', r') ∧ match r' with Some c' => tended (λ _, 64) (2 ^ 30) h' c' | None => True end.
Proof.
  apply input_total; [intros; lia|apply log_tame|by vm_compute|]. exists []. split; [by apply idle_rep|].
  split; [|split; [by left|done]]. apply sound_between; try done; [by left|]. exists (λ _, 0), []. split; [apply idle_out|by split].
Defined.

(** Two commands that a client ends with line feeds alone: the second arrives
    without its first letter. *)
Example line_feed_eats_a_byte :
  ∃ h' c', processInputBuffer (λ _, 0) (λ _, 64) demo_limits 100 true log_command 20 [] ∅ (idle_client (str "PING" ++ [10] ++ str "INFO" ++ [10])) =
    Some ([[str "PING"]; [str "NFO"]], h', c').
Proof. eexists _, _. vm_compute. reflexivity. Qed.
