(* ===== verification/Aof.v ===== *)
(** * The append-only file: [aof.c]

    Commands are encoded as multi-bulk requests into a buffer that is written to
    the file, and into a list of blocks while the file is rewritten by a child.
    The times that commands set are translated to absolute ones.

    Writing the buffer to the file and syncing it are system calls, and the
    rewriting of the file by a child process is not modelled. *)

From S2P Require Import Prelude Util Sds Object Number Client Table Server Reply Commands.
From stdpp Require Import gmap.
Local Open Scope Z_scope.

Definition REDIS_AOF_OFF : Z := 0.
Definition REDIS_AOF_ON : Z := 1.
Definition REDIS_AOF_WAIT_REWRITE : Z := 2.
Definition AOF_RW_BUF_BLOCK_SIZE : Z := 1024 * 1024 * 10.

(** ** The rewrite buffer *)

Record aofrwblock := mkBlock { used : Z; free : Z; block_buf : list Z }.

Definition aofRewriteBufferReset : list aofrwblock := [].

Definition aofRewriteBufferSize (blocks : list aofrwblock) : Z :=
  match last blocks with
  | None => 0
  | Some block => u64 (u64 ((len blocks - 1) * AOF_RW_BUF_BLOCK_SIZE) + used block)
  end.

(** What the block takes of the [n] bytes at offset [p] of [s]. *)
Definition block_append (block : aofrwblock) (s : list Z) (p n : Z) : option (aofrwblock * Z) :=
  let thislen := if free block <? n then free block else n in
  if negb (thislen =? 0) then
    b ← memcpy (block_buf block) s (used block) p thislen;
    Some (mkBlock (u64 (used block + thislen)) (u64 (free block - thislen)) b, thislen)
  else Some (block, 0).

(** [while(len)]: the blocks before the last, the last, what is left. *)
Fixpoint append_loop (fuel : nat) (junk : nat → Z) (blocks : list aofrwblock) (block : option aofrwblock) (s : list Z) (p n : Z) : option (list aofrwblock) :=
  let close := blocks ++ match block with Some b => [b] | None => [] end in
  if negb (n =? 0) then
    match fuel with
    | O => None
    | S fuel =>
        '(block, took) ← (match block with
                          | Some b => '(b, took) ← block_append b s p n; Some (Some b, took)
                          | None => Some (None, 0)
                          end);
        let p := p + took in
        let n := n - took in
        if negb (n =? 0) then
          append_loop fuel junk (blocks ++ match block with Some b => [b] | None => [] end)
            (Some (mkBlock 0 AOF_RW_BUF_BLOCK_SIZE (zmalloc junk AOF_RW_BUF_BLOCK_SIZE))) s p n
        else Some (blocks ++ match block with Some b => [b] | None => [] end)
    end
  else Some close.

Definition aofRewriteBufferAppend (junk : nat → Z) (blocks : list aofrwblock) (s : list Z) (n : Z) : option (list aofrwblock) :=
  append_loop (S (Z.to_nat n)) junk (take (length blocks - 1) blocks) (last blocks) s 0 n.

(** ** The buffer *)

(** Fields of [server]; [aof_child]: the file is being rewritten. *)
Record aof_server := mkAof {
  aof_state : Z;
  aof_selected_db : Z;
  aof_buf : sdshdr;
  aof_child : bool;
  aof_rewrite_buf_blocks : list aofrwblock
}.

(** The commands whose arguments are translated, told apart by [cmd->proc]. *)
Inductive aof_proc := ProcExpire | ProcPexpire | ProcExpireat | ProcSetex | ProcPsetex | ProcOther.

#[export] Instance aof_proc_eq_dec : EqDecision aof_proc.
Proof. solve_decision. Defined.

Section aof.
Context {T E : Type} `{!KeyTable T addr, !KeyTable E Z} (env : cmd_env).
#[local] Abbreviation junk := (e_junk env).
#[local] Abbreviation cmd := (cmd T E).

(** [buf[0] = prefix], the number, the end of the line. *)
Definition cat_header (prefix n : Z) : option (list Z * Z) :=
  b ← mset (zmalloc junk 32) 0 prefix;
  '(rest, k) ← ll2string (drop 1 b) (32 - 1) n;
  let b := prefix :: rest in
  b ← mset b (k + 1) 13;
  b ← mset b (k + 2) 10;
  Some (b, k + 3).

Definition cat_bulk (dst : sdshdr) (o : addr) : cmd sdshdr :=
  o ← on_heap (λ h, getDecodedObject junk h o);
  p ← object_sds o;
  '(b, n) ← lift (cat_header 36 (sdslen p));
  dst ← lift (sdscatlen junk dst b n);
  p ← object_sds o;
  dst ← lift (sdscatlen junk dst (buf p) (sdslen p));
  dst ← lift (sdscatlen junk dst [13; 10; 0] 2);
  upd_heap (λ h, decrRefCount h o);;
  mret dst.

Fixpoint cat_bulks (dst : sdshdr) (argv : list addr) : cmd sdshdr :=
  match argv with
  | [] => mret dst
  | o :: argv => dst ← cat_bulk dst o; cat_bulks dst argv
  end.

Definition catAppendOnlyGenericCommand (dst : sdshdr) (argv : list addr) : cmd sdshdr :=
  '(b, n) ← lift (cat_header 42 (len argv));
  dst ← lift (sdscatlen junk dst b n);
  cat_bulks dst argv.

Definition catAppendOnlyExpireAtCommand (dst : sdshdr) (proc : aof_proc) (key seconds : addr) : cmd sdshdr :=
  seconds ← on_heap (λ h, getDecodedObject junk h seconds);
  p ← object_sds seconds;
  '(when, _, _) ← lift (strtoll (buf p));
  let when := match proc with ProcExpire | ProcSetex | ProcExpireat => s64 (when * 1000) | _ => when end in
  let when := match proc with ProcExpire | ProcPexpire | ProcSetex | ProcPsetex => s64 (when + e_mstime env) | _ => when end in
  upd_heap (λ h, decrRefCount h seconds);;
  a0 ← on_heap (λ h, createStringObject junk h (str "PEXPIREAT" ++ [0]) 9);
  a2 ← on_heap (λ h, createStringObjectFromLongLong junk (e_shared_integers env) h when);
  dst ← catAppendOnlyGenericCommand dst [a0; key; a2];
  upd_heap (λ h, decrRefCount h a0);;
  upd_heap (λ h, decrRefCount h a2);;
  mret dst.

(** [SELECT], if the command is for another database than the last one. *)
Definition cat_select (a : aof_server) (dst : sdshdr) (dictid : Z) : option (aof_server * sdshdr) :=
  if negb (dictid =? aof_selected_db a) then
    let seldb := printf_ld dictid in
    dst ← sdscatprintf junk dst 26 (str "*2" ++ [13; 10] ++ str "$6" ++ [13; 10] ++ str "SELECT" ++ [13; 10] ++ str "$" ++ printf_ld (len seldb) ++ [13; 10] ++ seldb ++ [13; 10]);
    Some (mkAof (aof_state a) dictid (aof_buf a) (aof_child a) (aof_rewrite_buf_blocks a), dst)
  else Some (a, dst).

(** The command, or what it is translated to. *)
Definition feed_text (proc : aof_proc) (dst : sdshdr) (argv : list addr) : cmd sdshdr :=
  match proc with
  | ProcExpire | ProcPexpire | ProcExpireat =>
      key ← lift (argv !! 1%nat); t ← lift (argv !! 2%nat);
      catAppendOnlyExpireAtCommand dst proc key t
  | ProcSetex | ProcPsetex =>
      a0 ← on_heap (λ h, createStringObject junk h (str "SET" ++ [0]) 3);
      key ← lift (argv !! 1%nat); val ← lift (argv !! 3%nat);
      dst ← catAppendOnlyGenericCommand dst [a0; key; val];
      upd_heap (λ h, decrRefCount h a0);;
      t ← lift (argv !! 2%nat);
      catAppendOnlyExpireAtCommand dst proc key t
  | ProcOther => catAppendOnlyGenericCommand dst argv
  end.

Definition feedAppendOnlyFile (a : aof_server) (proc : aof_proc) (dictid : Z) (argv : list addr) : cmd aof_server :=
  dst ← lift (sdsempty junk);
  '(a, dst) ← lift (cat_select a dst dictid);
  dst ← feed_text proc dst argv;
  b ← (if aof_state a =? REDIS_AOF_ON then lift (sdscatlen junk (aof_buf a) (buf dst) (sdslen dst)) else mret (aof_buf a));
  blocks ← (if aof_child a then lift (aofRewriteBufferAppend junk (aof_rewrite_buf_blocks a) (buf dst) (sdslen dst)) else mret (aof_rewrite_buf_blocks a));
  mret (mkAof (aof_state a) (aof_selected_db a) b (aof_child a) blocks).

End aof.
