(* ===== verification/Call.v ===== *)
(** * Calling a command: [call] and [propagate] of [redis.c]

    A command runs on the state of the server and is appended to the file if it
    changed something. *)

From S2P Require Import Prelude Util Sds Object Client Table Reply Server Commands CommandThms Aof.
Local Open Scope Z_scope.

Definition REDIS_PROPAGATE_NONE : Z := 0.
Definition REDIS_PROPAGATE_AOF : Z := 1.
Definition REDIS_PROPAGATE_REPL : Z := 2.

(** [cmd->proc], by [cmd->name]. *)
Definition proc_named (name : list Z) : aof_proc :=
  if bool_decide (name = str "expire") then ProcExpire
  else if bool_decide (name = str "pexpire") then ProcPexpire
  else if bool_decide (name = str "expireat") then ProcExpireat
  else if bool_decide (name = str "setex") then ProcSetex
  else if bool_decide (name = str "psetex") then ProcPsetex
  else ProcOther.

Section call.
Context {T E : Type} `{!KeyTable T addr, !KeyTable E Z} (env : cmd_env).
#[local] Abbreviation cmd := (cmd T E).

(** There are no slaves. *)
Definition propagate (a : aof_server) (proc : aof_proc) (dbid : Z) (argv : list addr) (flags : Z) : cmd aof_server :=
  if negb (aof_state a =? REDIS_AOF_OFF) && negb (Z.land flags REDIS_PROPAGATE_AOF =? 0) then feedAppendOnlyFile env a proc dbid argv else mret a.

(** What [propagateExpire] feeds to the file while the command runs: the deletion
    of a key.  Nothing a handler does depends on the file, so it is done here,
    in the order of the events; they carry texts, and objects with those texts
    stand for the two that are passed on. *)
Definition feed_deletion (a : aof_server) (dbid : Z) (del key : list Z) : cmd aof_server :=
  if negb (aof_state a =? REDIS_AOF_OFF) then
    o1 ← on_heap (λ h, createStringObject (e_junk env) h (del ++ [0]) (len del));
    o2 ← on_heap (λ h, createStringObject (e_junk env) h (key ++ [0]) (len key));
    a ← feedAppendOnlyFile env a ProcOther dbid [o1; o2];
    upd_heap (λ h, decrRefCount h o2);;
    upd_heap (λ h, decrRefCount h o1);;
    mret a
  else mret a.

Fixpoint feed_deletions (a : aof_server) (dbid : Z) (l : list (list (list Z))) : cmd aof_server :=
  match l with
  | [] => mret a
  | [del; key] :: l => a ← feed_deletion a dbid del key; feed_deletions a dbid l
  | _ :: _ => lift None
  end.

(** The command runs, keys whose time is past are deleted and the deletions are
    passed on, and the command is propagated if it changed something: under the
    name and with the arguments it has then.  None of these commands forces its
    propagation or propagates others; monitors, statistics and the slow log are
    left out. *)
Definition call (c : command) (a : aof_server) (dbid : Z) : cmd aof_server :=
  dirty0 ← gets st_dirty;
  events0 ← gets st_events;
  handler env c;;
  dirty1 ← gets st_dirty;
  events1 ← gets st_events;
  a ← feed_deletions a dbid (deletions (drop (length events0) events1));
  let dirty := dirty1 - dirty0 in
  let dirty := if dirty <? 0 then 0 else dirty in
  let flags := REDIS_PROPAGATE_NONE in
  let flags := if negb (dirty =? 0) then Z.lor flags (Z.lor REDIS_PROPAGATE_REPL REDIS_PROPAGATE_AOF) else flags in
  if negb (flags =? REDIS_PROPAGATE_NONE) then
    name ← gets st_cmd;
    argv ← gets st_argv;
    propagate a (proc_named name) dbid argv flags
  else mret a.
End call.
