(* ===== verification/AofOps.v ===== *)
(** * What is appended to the file

    The functions of [Aof] append the encoding of the commands: of one command,
    of its translation, to the buffer and to the blocks.  The objects they take
    keep their holders. *)

From S2P Require Import Prelude Util Sds SdsText Object Number Client Table Reply ReplySpec ReplyText ReplyDeferred Server Commands DbSpec DbOps DbKeys DbReply DbObject CommandSpec StringOps KeyOps CommandThms InputStream Aof.
From stdpp Require Import gmap.
Local Open Scope Z_scope.

(** ** The rewrite buffer *)

Definition contents (blocks : list aofrwblock) : list Z := concat ((λ b, take (Z.to_nat (used b)) (block_buf b)) <$> blocks).

Record block_ok (b : aofrwblock) : Prop := {
  block_used : 0 ≤ used b;
  block_free : 0 ≤ free b;
  block_total : used b + free b = AOF_RW_BUF_BLOCK_SIZE;
  block_length : len (block_buf b) = AOF_RW_BUF_BLOCK_SIZE
}.

(** Every block but the last is full, and none is empty. *)
Definition blocks_ok (blocks : list aofrwblock) : Prop :=
  Forall block_ok blocks ∧ Forall (λ b, free b = 0) (take (length blocks - 1) blocks).

Lemma block_append_ok b s p n : block_ok b → 0 ≤ p → 0 ≤ n → p + n ≤ len s → n < 2 ^ 63 →
  ∃ b', block_append b s p n = Some (b', Z.min (free b) n) ∧ block_ok b' ∧ free b' = free b - Z.min (free b) n ∧
    contents [b'] = contents [b] ++ take (Z.to_nat (Z.min (free b) n)) (drop (Z.to_nat p) s).
Proof.
  intros [H1 H2 H3 H4] Hp Hn Hs Hb. unfold block_append. cbv zeta. set (k := Z.min (free b) n). assert (0 ≤ k ≤ n ∧ k ≤ free b) as Hk by (unfold k; lia).
  assert ((if free b <? n then free b else n) = k) as -> by (unfold k; destruct (Z.ltb_spec (free b) n); lia).
  destruct (Z.eqb_spec k 0) as [E|E]; cbn [negb].
  - exists b. split; [by rewrite E|]. split; [done|]. split; [lia|]. rewrite E. cbn [Z.to_nat take]. by rewrite app_nil_r.
  - assert (mread s p k = Some (take (Z.to_nat k) (drop (Z.to_nat p) s))) as Er by (unfold mread; rewrite bool_decide_eq_true_2 by lia; done).
    set (m := take (Z.to_nat k) (drop (Z.to_nat p) s)) in *. assert (len m = k) as Hm by (unfold m; rewrite length_take, length_drop; lia).
    unfold memcpy. rewrite Er. bsimpl. unfold mwrite. rewrite bool_decide_eq_true_2 by lia. bsimpl. unfold AOF_RW_BUF_BLOCK_SIZE in *.
    rewrite !uwrap_small by lia. eexists. split; [done|]. split; [|split; [done|]].
    + split; cbn [used free block_buf]; unfold AOF_RW_BUF_BLOCK_SIZE; [lia..|]. rewrite !length_app, length_take, length_drop. lia.
    + unfold contents. cbn [fmap list_fmap used block_buf concat]. rewrite !app_nil_r.
      rewrite take_app. rewrite length_take, take_take. replace (Z.to_nat (used b + k) `min` Z.to_nat (used b))%nat with (Z.to_nat (used b)) by lia. f_equal.
      replace (Z.to_nat (used b + k) - Z.to_nat (used b) `min` length (block_buf b))%nat with (length m) by lia. by rewrite take_app_length.
Qed.

Lemma contents_app l1 l2 : contents (l1 ++ l2) = contents l1 ++ contents l2.
Proof. unfold contents. by rewrite fmap_app, concat_app. Qed.

Lemma new_block junk : block_ok (mkBlock 0 AOF_RW_BUF_BLOCK_SIZE (zmalloc junk AOF_RW_BUF_BLOCK_SIZE)) ∧ contents [mkBlock 0 AOF_RW_BUF_BLOCK_SIZE (zmalloc junk AOF_RW_BUF_BLOCK_SIZE)] = [].
Proof. split; [|done]. split; cbn [used free block_buf]; [done..|]. by apply zmalloc_length. Qed.

Definition opt_block (block : option aofrwblock) : list aofrwblock := match block with Some b => [b] | None => [] end.

Lemma blocks_close blocks block : Forall block_ok blocks → Forall (λ b, free b = 0) blocks → (∀ b, block = Some b → block_ok b) → blocks_ok (blocks ++ opt_block block).
Proof.
  intros Hok Hfull Hb. destruct block as [b|]; cbn [opt_block].
  - split; [apply Forall_app; split; [done|]; apply Forall_singleton; auto|]. rewrite length_app. cbn [length]. rewrite Nat.add_sub. by rewrite take_app_length.
  - rewrite app_nil_r. split; [done|]. by apply Forall_take.
Qed.

Lemma append_loop_ok junk s : ∀ fuel blocks block p n, Forall block_ok blocks → Forall (λ b, free b = 0) blocks → (∀ b, block = Some b → block_ok b) →
  0 ≤ p → 0 ≤ n → p + n ≤ len s → n < 2 ^ 63 → n + (match block with Some b => if 0 <? free b then 0 else 1 | None => 1 end) ≤ Z.of_nat fuel ∨ n = 0 →
  ∃ bs, append_loop fuel junk blocks block s p n = Some bs ∧ blocks_ok bs ∧
    contents bs = contents (blocks ++ opt_block block) ++ take (Z.to_nat n) (drop (Z.to_nat p) s).
Proof.
  induction fuel as [|fuel IH]; intros blocks block p n Hok Hfull Hb Hp Hn Hs Hn63 Hf; cbn [append_loop]; fold (opt_block block).
  { assert (n = 0) as -> by (destruct block as [b|]; [destruct (0 <? free b)|]; lia). cbn [negb Z.eqb]. eexists. split; [done|]. split; [by apply blocks_close|by rewrite app_nil_r]. }
  destruct (Z.eqb_spec n 0) as [-> |E]; cbn [negb].
  { eexists. split; [done|]. split; [by apply blocks_close|by rewrite app_nil_r]. }
  assert (∃ block' took, match block with Some b => '(b, took) ← block_append b s p n; Some (Some b, took) | None => Some (None, 0) end = Some (block', took) ∧
    (∀ b, block' = Some b → block_ok b) ∧ 0 ≤ took ≤ n ∧ (took < n → ∀ b, block' = Some b → free b = 0) ∧ n - took ≤ Z.of_nat fuel ∧
    contents (blocks ++ opt_block block') = contents (blocks ++ opt_block block) ++ take (Z.to_nat took) (drop (Z.to_nat p) s)) as (block' & took & -> & Hb' & Htook & Hfree & Hfuel & Hc).
  { destruct block as [b|].
    - destruct (block_append_ok b s p n (Hb b eq_refl) Hp Hn Hs Hn63) as (b' & -> & Hb' & Hfr & Hct). bsimpl. pose proof (block_free _ (Hb b eq_refl)).
      exists (Some b'), (Z.min (free b) n). split; [done|]. split; [intros ? [= <-]; exact Hb'|]. split; [lia|]. split; [intros Hlt ? [= <-]; lia|]. split; [destruct (Z.ltb_spec 0 (free b)); lia|].
      cbn [opt_block]. by rewrite !contents_app, Hct, app_assoc.
    - exists None, 0. split; [done|]. split; [done|]. split; [lia|]. split; [done|]. split; [lia|]. change (take (Z.to_nat 0) (drop (Z.to_nat p) s)) with (@nil Z); symmetry; apply app_nil_r. }
  bsimpl. fold (opt_block block'). destruct (Z.eqb_spec (n - took) 0) as [E2|E2]; cbn [negb].
  - assert (took = n) as -> by lia. eexists. split; [done|]. split; [by apply blocks_close|exact Hc].
  - destruct (new_block junk) as [Hnew Hnc]. destruct (IH (blocks ++ opt_block block') (Some (mkBlock 0 AOF_RW_BUF_BLOCK_SIZE (zmalloc junk AOF_RW_BUF_BLOCK_SIZE))) (p + took) (n - took))
      as (bs & -> & Hbs & Hct); try lia.
    + apply Forall_app. split; [done|]. destruct block' as [b'|]; [apply Forall_singleton; auto|constructor].
    + apply Forall_app. split; [done|]. destruct block' as [b'|]; [apply Forall_singleton; apply Hfree; [lia|done]|constructor].
    + by intros ? [= <-].
    + cbn [free]. left. change (0 <? AOF_RW_BUF_BLOCK_SIZE) with true. cbv iota. lia.
    + exists bs. split; [done|]. split; [done|]. rewrite Hct, contents_app. cbn [opt_block]. rewrite Hnc, app_nil_r, Hc, <- app_assoc. f_equal.
      replace (Z.to_nat (p + took)) with (Z.to_nat p + Z.to_nat took)%nat by lia. rewrite <- drop_drop.
      replace (Z.to_nat n) with (Z.to_nat took + Z.to_nat (n - took))%nat by lia. symmetry. apply take_add || (rewrite <- (take_take_drop (drop (Z.to_nat p) s) (Z.to_nat took)); done).
Qed.

Lemma blocks_split blocks : blocks = take (length blocks - 1) blocks ++ opt_block (last blocks).
Proof.
  destruct blocks as [|b blocks _] using rev_ind; [done|]. rewrite last_snoc, length_app. cbn [length opt_block]. by rewrite Nat.add_sub, take_app_length.
Qed.

Lemma aofRewriteBufferAppend_ok junk blocks s rest n : blocks_ok blocks → n = len s → n < 2 ^ 63 →
  ∃ bs, aofRewriteBufferAppend junk blocks (s ++ rest) n = Some bs ∧ blocks_ok bs ∧ contents bs = contents blocks ++ s.
Proof.
  intros [Hok Hfull] -> Hn. unfold aofRewriteBufferAppend.
  destruct (append_loop_ok junk (s ++ rest) (S (Z.to_nat (len s))) (take (length blocks - 1) blocks) (last blocks) 0 (len s)) as (bs & -> & Hbs & Hc); try lia.
  - by apply Forall_take.
  - done.
  - intros b Hb%last_Some_elem_of. rewrite Forall_forall in Hok. auto.
  - rewrite length_app. lia.
  - left. destruct (last blocks) as [b|]; [destruct (0 <? free b)|]; lia.
  - exists bs. split; [done|]. split; [done|]. rewrite Hc, <- blocks_split, Nat2Z.id. change (drop (Z.to_nat 0) (s ++ rest)) with (s ++ rest). by rewrite take_app_length.
Qed.

Lemma full_contents bs : Forall block_ok bs → Forall (λ b, free b = 0) bs → len (contents bs) = len bs * AOF_RW_BUF_BLOCK_SIZE.
Proof.
  induction bs as [|b bs IH]; [done|]. intros [[H1 H2 H3 H4] Hok]%Forall_cons [Hf Hfull]%Forall_cons. change (b :: bs) with ([b] ++ bs) at 1. rewrite contents_app, length_app, Nat2Z.inj_add, IH by done.
  unfold contents. cbn [fmap list_fmap concat length]. rewrite app_nil_r, length_take. lia.
Qed.

(** What is counted is what was appended. *)
Lemma aofRewriteBufferSize_ok blocks : blocks_ok blocks → len (contents blocks) < 2 ^ 64 → aofRewriteBufferSize blocks = len (contents blocks).
Proof.
  intros [Hok Hfull] Hl. unfold aofRewriteBufferSize. pose proof (blocks_split blocks) as Hs. destruct (last blocks) as [b|] eqn:Eb.
  - cbn [opt_block] in Hs. set (l := take (length blocks - 1) blocks) in *. rewrite Hs in Hok, Hl |- *. apply Forall_app in Hok as [Hok Hb]. apply Forall_inv in Hb as [H1 H2 H3 H4].
    assert (len (contents (l ++ [b])) = len l * AOF_RW_BUF_BLOCK_SIZE + used b) as El.
    { rewrite contents_app, length_app, Nat2Z.inj_add, full_contents by done. unfold contents. cbn [fmap list_fmap concat]. rewrite app_nil_r, length_take. lia. }
    rewrite El in *. rewrite length_app, Nat2Z.inj_add. cbn [length]. replace (len l + Z.of_nat 1 - 1) with (len l) by lia. unfold AOF_RW_BUF_BLOCK_SIZE in *. rewrite (uwrap_small 64 (len l * _)) by lia. apply uwrap_small. lia.
  - cbn [opt_block] in Hs. rewrite app_nil_r in Hs. destruct blocks as [|b bs]; [done|]. apply (f_equal length) in Hs. rewrite length_take in Hs. cbn in Hs. lia.
Qed.

(** ** Encoding *)

Lemma strtoll_number t r v : text_number t = Some v → ∃ n e, strtoll (t ++ 0 :: r) = Some (v, n, e).
Proof.
  unfold text_number. destruct (until_nul_spec t r) as (r' & -> & Hnz). destruct (until_nul t) as [|x t'] eqn:Eu.
  { intros [= <-]. exists 0%nat, false. done. }
  apply Forall_cons in Hnz as [Hx Hnz]. destruct (isspace x) eqn:Es.
  - assert ((x =? 45) || (x =? 43) = false ∧ is_digit x = false) as [-> Ed] by (unfold isspace, is_digit in *; split; lia). cbn [forallb]. by rewrite Ed, andb_false_r.
  - destruct (strtoll_plain x t' r' Es Hx Hnz) as (w & n & e & y & -> & _ & Hcase). cbv zeta. destruct (_ && forallb _ _); [|done].
    destruct Hcase as (-> & -> & Hv). destruct (_ && _); cbn [negb] in *; [|done]. intros [= <-]. exists n, false. by rewrite Hv.
Qed.

Section encoding.
Context {T E : Type} `{!KeyTable T addr, !KeyTable E Z, !KeyTableLaws T addr, !KeyTableLaws E Z}.
Context (env : cmd_env) {base : addr → Z} {h0 : oheap} {st0 : list item} {c0 : redisClient}.
#[local] Abbreviation junk := (e_junk env).
Abbreviation sys := (sys T E).
#[local] Abbreviation cmd := (cmd T E).
Abbreviation R := (R (e_malloc_size env) (e_ae_create env) base h0 st0 c0).
#[local] Abbreviation owner := (owner base).
Context (perm : shared_perm env (h0 := h0)).
Implicit Types (s : sys) (a : kv) (args : list (addr * argument)) (tmp : list (addr * value)) (t : text) (dst : sdshdr).

Lemma cat_header_ok prefix n : LLONG_MIN ≤ n ≤ LLONG_MAX → ∃ rest, cat_header env prefix n = Some (header prefix n ++ rest, len (header prefix n)).
Proof.
  intros Hn. unfold cat_header. change (mset (zmalloc junk 32) 0 prefix) with (Some (<[0%nat := prefix]> (zmalloc junk 32))). bsimpl.
  set (d := drop 1 _). assert (len d = 31) as Hd by (unfold d; rewrite length_drop, length_insert; unfold zmalloc; rewrite length_fmap, length_seq; lia).
  destruct (ll2string_repr d 31 n Hn ltac:(lia)) as (t & Ht & Er). pose proof (decimal_repr_len n t Ht Hn) as Hl. change (32 - 1) with 31.
  rewrite Er, Z.geb_leb, (proj2 (Z.leb_gt _ _)) by lia. bsimpl.
  assert (∃ x r, drop (S (length t)) d = x :: r) as (x & r & Ex).
  { destruct (drop (S (length t)) d) as [|x r] eqn:Ed; [apply (f_equal length) in Ed; rewrite length_drop in Ed; cbn in Ed; lia|by eauto]. }
  rewrite Ex. rewrite (mset_app (prefix :: t) (0 :: x :: r) 0) || rewrite (mset_app (prefix :: t) (x :: r) 0) by (cbn [length]; lia). bsimpl.
  replace ((prefix :: t) ++ 13 :: x :: r) with ((prefix :: t ++ [13]) ++ x :: r) by (cbn; by rewrite <- app_assoc).
  rewrite mset_app by (cbn [length]; rewrite length_app; cbn; lia). bsimpl.
  assert (printf_ld n = t) as Ep by (eapply decimal_repr_unique; [apply printf_ld_repr, Hn|exact Ht]).
  exists r. unfold header. rewrite Ep. do 2 f_equal; [cbn [app]; f_equal; by rewrite <- !app_assoc|]. cbn [length]. rewrite length_app. cbn [length]. lia.
Qed.

(** The object is an argument or one the command holds, and says [t]. *)
Definition stands args tmp (o : addr) t : Prop := (∃ x, (o, x) ∈ args ∧ a_text x = t) ∨ (o, VString t) ∈ tmp.

Lemma stands_ok {n args tmp a s} o t : R n args tmp a s → stands args tmp o t → val_is (st_heap s) o (VString t) ∧ 0 < owner s args tmp o.
Proof.
  intros HR [(x & Hx & <-)|Ht]; [by apply (arg_val _ _ HR)|]. split; [|by apply (tmp_owned _ _ HR Ht)]. pose proof (R_tmp HR) as Hf. rewrite Forall_forall in Hf. by apply (Hf _ Ht).
Qed.

Lemma stands_len {n args tmp a s} o t : R n args tmp a s → stands args tmp o t → len t ≤ MAX_STRING.
Proof. intros HR Hs. by destruct (stands_ok o t HR Hs) as [[_ Hl] _]. Qed.

Lemma header_len prefix n : LLONG_MIN ≤ n ≤ LLONG_MAX → 3 < len (header prefix n) ≤ 23.
Proof. intros Hn. unfold header. cbn [length]. rewrite length_app. pose proof (decimal_repr_len n _ (printf_ld_repr n Hn) Hn). cbn [length]. lia. Qed.

Lemma cat_bulk_ok {n args tmp a s} dst x o t : R n args tmp a s → len tmp < 8 → stands args tmp o t → rep dst x → fits (len x + len (bulk t)) →
  returns (cat_bulk env dst o) s (λ dst' s', R n args tmp a s' ∧ st_db s' = st_db s ∧ rep dst' (x ++ bulk t)).
Proof.
  intros HR Hl Hst Hrep Hf. destruct (stands_ok o t HR Hst) as [Hv Ho]. pose proof (stands_len o t HR Hst) as Hlt. unfold MAX_STRING in Hlt.
  assert (LLONG_MIN ≤ len t ≤ LLONG_MAX) as Hll by (unfold LLONG_MIN, LLONG_MAX; lia). pose proof (header_len 36 (len t) Hll).
  unfold bulk in *. rewrite !length_app in Hf. cbn [length] in Hf. unfold cat_bulk.
  eapply returns_bind; [refine (decode_ok env o t HR Hv Ho _); lia|]. intros o' s1 (HR1 & Edb & ob & p & Eo' & Ep & Hp).
  assert (object_sds o' s1 = Some (p, s1)) as Eobj by (unfold object_sds; rewrite Eo'; bsimpl; unfold osds; rewrite Ep; done).
  eapply returns_step; [exact Eobj|]. destruct (rep_read _ _ Hp) as [_ Hlen]. rewrite Hlen. destruct (cat_header_ok 36 (len t) Hll) as (rest & Eh).
  eapply returns_step; [unfold lift; rewrite Eh; reflexivity|]. cbv beta iota.
  destruct (sdscatlen_ok junk dst x (header 36 (len t)) rest (len (header 36 (len t))) Hrep eq_refl) as (d1 & E1 & Hd1); [unfold fits in *; lia|].
  eapply returns_step; [unfold lift; rewrite E1; reflexivity|]. cbv beta. eapply returns_step; [exact Eobj|]. destruct Hp as (r & -> & Hb). cbn [buf sdslen slen] in *.
  destruct (sdscatlen_ok junk d1 (x ++ header 36 (len t)) t (0 :: r) (len t) Hd1 eq_refl) as (d2 & E2 & Hd2); [rewrite length_app; unfold fits in *; lia|].
  eapply returns_step; [unfold lift; cbn [sdslen slen]; rewrite E2; reflexivity|]. cbv beta.
  destruct (sdscatlen_ok junk d2 ((x ++ header 36 (len t)) ++ t) [13; 10] [0] 2 Hd2 eq_refl) as (d3 & E3 & Hd3); [rewrite !length_app; unfold fits in *; lia|].
  eapply returns_step; [unfold lift; cbn [app] in E3; rewrite E3; reflexivity|]. cbv beta.
  eapply returns_bind; [exact (decr_ok o' _ HR1)|]. intros u s2 (HR2 & Edb2 & _). apply returns_ret. split; [exact HR2|]. split; [congruence|]. by rewrite <- !app_assoc in *.
Qed.

Lemma cat_bulks_ok {n args tmp a} argv ts : Forall2 (stands args tmp) argv ts → len tmp < 8 → ∀ dst x s, R n args tmp a s → rep dst x → fits (len x + len (concat (bulk <$> ts))) →
  returns (cat_bulks env dst argv) s (λ dst' s', R n args tmp a s' ∧ st_db s' = st_db s ∧ rep dst' (x ++ concat (bulk <$> ts))).
Proof.
  intros Hf Hl. induction Hf as [|o t argv ts Hot Hf IH]; intros dst x s HR Hrep Hfit; cbn [cat_bulks].
  - apply returns_ret. split; [exact HR|]. split; [done|]. by rewrite app_nil_r.
  - cbn [fmap list_fmap concat] in *. rewrite length_app in Hfit. eapply returns_bind; [refine (cat_bulk_ok dst x o t HR Hl Hot Hrep _); unfold fits in *; lia|].
    intros d s1 (HR1 & E1 & Hd). eapply returns_mono; [refine (IH d _ s1 HR1 Hd _); rewrite length_app; unfold fits in *; lia|].
    intros d' s2 (HR2 & E2 & Hd'). split; [exact HR2|]. split; [congruence|]. by rewrite <- app_assoc in Hd'.
Qed.

Lemma catAppendOnlyGenericCommand_ok {n args tmp a s} dst x argv ts : R n args tmp a s → len tmp < 8 → Forall2 (stands args tmp) argv ts → rep dst x → fits (len x + len (request ts)) →
  returns (catAppendOnlyGenericCommand env dst argv) s (λ dst' s', R n args tmp a s' ∧ st_db s' = st_db s ∧ rep dst' (x ++ request ts)).
Proof.
  intros HR Hl Hf Hrep Hfit. unfold request in *. rewrite length_app in Hfit. pose proof (Forall2_length _ _ _ Hf) as Elen.
  assert (LLONG_MIN ≤ len ts ≤ LLONG_MAX) as Hll.
  { assert (len ts ≤ len (concat (bulk <$> ts))); [|unfold fits, LLONG_MIN, LLONG_MAX in *; lia]. clear. induction ts as [|t ts IH]; [done|]. cbn [fmap list_fmap concat]. rewrite length_app. unfold bulk at 1. rewrite !length_app. cbn [length]. lia. }
  unfold catAppendOnlyGenericCommand. rewrite Elen. destruct (cat_header_ok 42 (len ts) Hll) as (rest & Eh).
  eapply returns_step; [unfold lift; rewrite Eh; reflexivity|]. cbv beta iota.
  destruct (sdscatlen_ok junk dst x (header 42 (len ts)) rest (len (header 42 (len ts))) Hrep eq_refl) as (d1 & E1 & Hd1); [unfold fits in *; lia|].
  eapply returns_step; [unfold lift; rewrite E1; reflexivity|]. cbv beta.
  eapply returns_mono; [refine (cat_bulks_ok argv ts Hf Hl d1 _ s HR Hd1 _); rewrite length_app; unfold fits in *; lia|].
  intros d s1 (HR1 & Edb & Hd). split; [exact HR1|]. split; [done|]. by rewrite <- app_assoc in Hd.
Qed.

Lemma create_text_ok {n args tmp a s} t : R n args tmp a s → len t ≤ MAX_STRING → len tmp < 8 →
  returns (on_heap (λ h, createStringObject junk h (t ++ [0]) (len t))) s (λ o s', R n args ((o, VString t) :: tmp) a s' ∧ st_db s' = st_db s).
Proof.
  intros HR Hl Ht. eapply returns_mono; [refine (create_ok env (mkSds (len t) 0 (t ++ [0])) t HR _ Hl Ht)|intros o s' (HR' & Edb & _); by split].
  exists []. split; [done|]. unfold MAX_STRING in Hl. cbn. lia.
Qed.

Lemma stands_more args tmp tmp' o t : (∀ p, p ∈ tmp → p ∈ tmp') → stands args tmp o t → stands args tmp' o t.
Proof. intros Hin [Ha|Ht]; [by left|right; by apply Hin]. Qed.

(** The time of the translated command. *)
Definition expire_when (proc : aof_proc) (n : Z) : Z :=
  let when := match proc with ProcExpire | ProcSetex | ProcExpireat => s64 (n * 1000) | _ => n end in
  match proc with ProcExpire | ProcPexpire | ProcSetex | ProcPsetex => s64 (when + e_mstime env) | _ => when end.

Lemma expire_when_range proc n : LLONG_MIN ≤ n ≤ LLONG_MAX → LLONG_MIN ≤ expire_when proc n ≤ LLONG_MAX.
Proof using Type. intros Hn. unfold expire_when. destruct proc; cbv zeta; try apply s64_range; done. Qed.

Lemma catAppendOnlyExpireAtCommand_ok {n args tmp a s} dst x proc key k seconds t v : R n args tmp a s → len tmp < 6 → stands args tmp key k → stands args tmp seconds t →
  text_number t = Some v → rep dst x → fits (len x + len (request [str "PEXPIREAT"; k; printf_ld (expire_when proc v)])) →
  returns (catAppendOnlyExpireAtCommand env dst proc key seconds) s
    (λ dst' s', R n args tmp a s' ∧ st_db s' = st_db s ∧ rep dst' (x ++ request [str "PEXPIREAT"; k; printf_ld (expire_when proc v)])).
Proof using perm KeyTableLaws0 KeyTableLaws1.
  intros HR Hl Hk Hs Hv Hrep Hfit. destruct (stands_ok seconds t HR Hs) as [Hsv Hso]. unfold catAppendOnlyExpireAtCommand.
  eapply returns_bind; [refine (decode_ok env seconds t HR Hsv Hso _); lia|]. intros o s1 (HR1 & E1 & ob & p & Eo & Ep & Hp).
  eapply returns_step; [unfold object_sds; rewrite Eo; bsimpl; unfold osds; rewrite Ep; reflexivity|].
  destruct Hp as (r & -> & Hb). cbn [buf]. destruct (strtoll_number t r v Hv) as (m & e & Es).
  eapply returns_step; [unfold lift; rewrite Es; reflexivity|]. cbv beta iota zeta. change (match proc with ProcExpire | ProcPexpire | ProcSetex | ProcPsetex => _ | _ => _ end) with (expire_when proc v).
  eapply returns_bind; [exact (decr_ok o _ HR1)|]. intros [] s2 (HR2 & E2 & _).
  eapply returns_bind; [refine (create_text_ok (str "PEXPIREAT") HR2 _ _); [by vm_compute|lia]|]. intros a0 s3 [HR3 E3].
  eapply returns_bind; [refine (fromLongLong_ok env perm (expire_when proc v) HR3 (expire_when_range proc v (text_number_range t v Hv)) _); cbn [length]; lia|]. intros a2 s4 [HR4 E4].
  eapply returns_bind; [refine (catAppendOnlyGenericCommand_ok dst x [a0; key; a2] [str "PEXPIREAT"; k; printf_ld (expire_when proc v)] HR4 _ _ Hrep Hfit)|].
  { cbn [length]. lia. }
  { apply Forall2_cons_2; [right; right; left|]. apply Forall2_cons_2; [refine (stands_more _ tmp _ _ _ _ Hk); intros; by do 2 right|].
    apply Forall2_cons_2; [right; left|by apply Forall2_nil]. }
  intros d s5 (HR5 & E5 & Hd). eapply returns_bind; [exact (decr_ok a0 _ (R_perm _ HR5 (perm_swap _ _ _)))|]. intros [] s6 (HR6 & E6 & _).
  eapply returns_bind; [exact (decr_ok a2 _ HR6)|]. intros [] s7 (HR7 & E7 & _). apply returns_ret. split; [exact HR7|]. split; [congruence|exact Hd].
Qed.

(** ** The two buffers *)

(** What is in the buffer and in the blocks. *)
Record aof_says (A : aof_server) (x y : list Z) : Prop := {
  says_buf : rep (aof_buf A) x;
  says_blocks : blocks_ok (aof_rewrite_buf_blocks A);
  says_rewrite : contents (aof_rewrite_buf_blocks A) = y
}.

(** Commands for the database [dictid] were appended. *)
Definition appended (A A' : aof_server) (dictid : Z) : Prop :=
  aof_state A' = aof_state A ∧ aof_child A' = aof_child A ∧ aof_selected_db A' = dictid.

Definition selects (A : aof_server) (dictid : Z) : list (list text) :=
  if dictid =? aof_selected_db A then [] else [[str "SELECT"; printf_ld dictid]].

Lemma cat_select_ok A dst dictid : rep dst [] → LLONG_MIN ≤ dictid ≤ LLONG_MAX →
  ∃ dst', cat_select env A dst dictid = Some (mkAof (aof_state A) dictid (aof_buf A) (aof_child A) (aof_rewrite_buf_blocks A), dst') ∧ rep dst' (concat (request <$> selects A dictid)).
Proof using Type.
  intros Hrep Hd. unfold cat_select, selects. destruct (Z.eqb_spec dictid (aof_selected_db A)) as [Hdb|_]; cbn [negb].
  - exists dst. split; [|done]. rewrite Hdb. by destruct A.
  - cbv zeta. set (t := printf_ld dictid). pose proof (decimal_repr_len dictid t (printf_ld_repr dictid Hd) Hd) as Hl.
    assert (LLONG_MIN ≤ len t ≤ LLONG_MAX) as Hll by (unfold LLONG_MIN, LLONG_MAX; lia).
    assert (∀ z, LLONG_MIN ≤ z ≤ LLONG_MAX → Forall (λ x, x ≠ 0) (printf_ld z) ∧ len (printf_ld z) ≤ 20) as Hnz by (intros z Hz; destruct (printf_ld_ok z Hz) as (_ & ? & ?); done).
    destruct (Hnz _ Hll) as [Hz1 Hl1], (Hnz _ Hd) as [Hz2 _]. fold t in Hz2.
    assert (concat (request <$> [[str "SELECT"; t]]) = str "*2" ++ [13; 10] ++ str "$6" ++ [13; 10] ++ str "SELECT" ++ [13; 10] ++ str "$" ++ printf_ld (len t) ++ [13; 10] ++ t ++ [13; 10]) as ->.
    { cbn [fmap list_fmap concat]. rewrite app_nil_r. unfold request. cbn [fmap list_fmap concat]. rewrite app_nil_r. unfold bulk, header.
      change (printf_ld (len [str "SELECT"; t])) with (str "2"). change (printf_ld (len (str "SELECT"))) with (str "6"). cbn [app]. repeat (rewrite <- app_assoc; cbn [app]). done. }
    set (l := str "*2" ++ _). destruct (sdscatprintf_ok junk dst [] 26 l Hrep) as (dst' & E1 & Hd1).
    + unfold l. repeat (apply Forall_app; split); try done; by apply (bool_decide_unpack _).
    + unfold l. rewrite !length_app. change (len []) with 0. unfold fits. cbn [length]. change (length (str "SELECT")) with 6%nat. change (length (str "*2")) with 2%nat. change (length (str "$6")) with 2%nat. change (length (str "$")) with 1%nat. lia.
    + rewrite E1. bsimpl. by exists dst'.
Qed.
End encoding.
