(* ===== verification/Replay.v ===== *)
(** * What the append-only file means

    The commands that are logged for a command that ran, as lists of texts, and
    what reading them back does: a log of everything that ran since the
    beginning gives the same keys, values and times. *)

From S2P Require Import Prelude Util SdsText Object Number Reply ReplyText ReplyDeferred Server Commands DbSpec DbKeys DbReply CommandSpec StringOps KeyOps CommandThms Observe Effects.
From stdpp Require Import gmap.
Local Open Scope Z_scope.

(** ** Names *)

Definition cname (c : command) : text :=
  match c with
  | CGet => str "get" | CSet => str "set" | CSetnx => str "setnx" | CSetex => str "setex" | CPsetex => str "psetex" | CAppend => str "append"
  | CStrlen => str "strlen" | CDel => str "del" | CExists => str "exists" | CSetrange => str "setrange" | CGetrange => str "getrange" | CIncr => str "incr"
  | CDecr => str "decr" | CMget => str "mget" | CIncrby => str "incrby" | CDecrby => str "decrby" | CGetset => str "getset" | CMset => str "mset"
  | CMsetnx => str "msetnx" | CExpire => str "expire" | CExpireat => str "expireat" | CPexpire => str "pexpire" | CPexpireat => str "pexpireat"
  | CTtl => str "ttl" | CPttl => str "pttl" | CPersist => str "persist"
  end.

Definition all_commands : list command :=
  [CGet; CSet; CSetnx; CSetex; CPsetex; CAppend; CStrlen; CDel; CExists; CSetrange; CGetrange; CIncr; CDecr; CMget; CIncrby; CDecrby; CGetset; CMset; CMsetnx;
   CExpire; CExpireat; CPexpire; CPexpireat; CTtl; CPttl; CPersist].

(** [lookupCommand]: letters of either case. *)
Definition named (t : text) : option command := head (filter (λ c, tolower <$> t = cname c) all_commands).

Lemma named_cname c : named (cname c) = Some c.
Proof. by destruct c. Qed.

Section replay.
Context (mstime : Z).
Implicit Types (a b : kv) (k t : text) (ts : list text).
(** The server that runs the commands, and the one that reads the file. *)
#[local] Abbreviation exec := (exec mstime false false).
#[local] Abbreviation purge := (purge mstime false false).
#[local] Abbreviation gone := (gone mstime false false).
#[local] Abbreviation set_key := (set_key mstime false false).

(** ** The log *)

(** [PEXPIREAT] with the time in the argument of another command. *)
Definition expire_at (c : command) k t : list text :=
  let when := default 0 (text_number t) in
  let when := match c with CExpire | CSetex | CExpireat => s64 (when * 1000) | _ => when end in
  let when := match c with CExpire | CPexpire | CSetex | CPsetex => s64 (when + mstime) | _ => when end in
  [str "PEXPIREAT"; k; printf_ld when].

Definition translated (c : command) ts : list (list text) :=
  match c, ts with
  | (CExpire | CPexpire | CExpireat), _ :: k :: t :: _ => [expire_at c k t]
  | (CSetex | CPsetex), _ :: k :: t :: v :: _ => [[str "SET"; k; v]; expire_at c k t]
  | _, _ => [ts]
  end.

(** What is appended while a command runs, and after it, on a server that is
    loading, or is a slave, or neither. *)
Definition logged_on (loading masterhost : bool) (c : command) ts a : list (list text) :=
  let r := CommandThms.exec mstime loading masterhost c ts a in
  deletions (drop (length (events a)) (events r.1)) ++
  (if dirty r.1 =? dirty a then [] else translated (default c (named (cmd_name r.1))) r.2).

Definition logged : command → list text → kv → list (list text) := logged_on false false.
End replay.

(** ** Reading it back *)

Section loading.
Context (now : Z).
#[local] Abbreviation exec := (exec now true false).

Definition replay1 (a : kv) (ts : list text) : option kv :=
  match ts with
  | [] => None
  | name :: _ => c ← named name; Some (exec c ts a).1
  end.

Definition replay (a : kv) (l : list (list text)) : option kv := foldl (λ r ts, a ← r; replay1 a ts) (Some a) l.

(** ** A server that reads the file deletes nothing on its own *)

Lemma purge_loading k a : DbKeys.purge now true false k a = a.
Proof. unfold DbKeys.purge, expired. destruct (exps a !! k); [|done]. by rewrite andb_false_r. Qed.

Lemma gone_loading k a : Observe.gone now true false k a = false.
Proof. unfold Observe.gone, expired. destruct (exps a !! k); [|done]. by rewrite andb_false_r. Qed.

Lemma agree_same a b : agree False now true false a b ↔ same a b.
Proof.
  split.
  - intros [H _]. split; apply map_eq; intros k; specialize (H k); unfold live in H; rewrite !gone_loading in H; by injection H.
  - intros [Ev Ee]. split; [|done]. intros k. unfold live. by rewrite !gone_loading, Ev, Ee.
Qed.

Lemma exec_same c ts a b : same a b → same (exec c ts a).1 (exec c ts b).1.
Proof.
  intros H. destruct (decide (c = CPersist)) as [-> |Hc]; [|by apply agree_same, exec_agree, agree_same].
  unfold CommandThms.exec. destruct ts as [|? [|k [|]]]; try done. cbn [fst]. unfold spec_persist, present. destruct H as [Ev Ee]. rewrite Ev, Ee. destruct (_ && _); by split.
Qed.

Lemma replay1_same ts a b y : same a b → replay1 a ts = Some y → ∃ z, replay1 b ts = Some z ∧ same y z.
Proof.
  intros H. unfold replay1. destruct ts as [|name ts]; [done|]. destruct (named name) as [c|]; [|done]. bsimpl. intros [= <-]. eexists. split; [done|]. by apply exec_same.
Qed.

Lemma replay_cons a ts l : replay a (ts :: l) = a ← replay1 a ts; replay a l.
Proof.
  unfold replay. cbn [foldl]. bsimpl. destruct (replay1 a ts); bsimpl; [done|]. induction l as [|ts' l IH]; [done|]. cbn [foldl]. bsimpl. done.
Qed.

Lemma replay_app a l1 l2 : replay a (l1 ++ l2) = a ← replay a l1; replay a l2.
Proof.
  revert a. induction l1 as [|ts l1 IH]; intros a; [done|]. cbn [app]. rewrite !replay_cons. destruct (replay1 a ts) as [b|]; bsimpl; [apply IH|done].
Qed.

Lemma replay_same l a b y : same a b → replay a l = Some y → ∃ z, replay b l = Some z ∧ same y z.
Proof.
  revert a b. induction l as [|ts l IH]; intros a b H; [intros [= <-]; by exists b|]. rewrite !replay_cons. destruct (replay1 a ts) as [a1|] eqn:E1; [|done]. bsimpl. intros E2.
  destruct (replay1_same ts a b a1 H E1) as (b1 & -> & H1). bsimpl. by apply (IH a1).
Qed.

(** Every time belongs to a key. *)
Definition closed a : Prop := ∀ k, is_Some (exps a !! k) → is_Some (vals a !! k).

Lemma closed_same a b : same a b → closed a → closed b.
Proof. intros [Ev Ee] H k. rewrite <- Ev, <- Ee. apply H. Qed.

Lemma closed_del k a : closed a → closed (del_key k a).
Proof. intros H j. cbn. destruct (decide (j = k)) as [-> |Hne]; [rewrite lookup_delete_eq; by intros []|]. rewrite !lookup_delete_ne by done. apply H. Qed.
Lemma closed_put k v a : closed a → closed (put_val k v a).
Proof. intros H j Hj. cbn in *. destruct (decide (j = k)) as [-> |Hne]; [rewrite lookup_insert_eq; by eexists|]. rewrite lookup_insert_ne by done. by apply H. Qed.
Lemma closed_forever k a b : closed a → exps b = exps a → closed (set_exps (delete k (exps b)) a).
Proof. intros H -> j. cbn. destruct (decide (j = k)) as [-> |Hne]; [rewrite lookup_delete_eq; by intros []|]. rewrite lookup_delete_ne by done. apply H. Qed.
Lemma closed_deadline k w a b : closed a → exps b = exps a → is_Some (vals a !! k) → closed (set_exps (<[k := w]> (exps b)) a).
Proof. intros H -> Hk j. cbn. destruct (decide (j = k)) as [-> |Hne]; [done|]. rewrite lookup_insert_ne by done. apply H. Qed.

Lemma replay_deletion a k : closed a → ∃ y, replay1 a (deletion k) = Some y ∧ same y (del_key k a) ∧ closed y.
Proof.
  intros Hc. exists (spec_del now true false [k] a). split; [reflexivity|]. unfold spec_del. cbn [foldl]. unfold del_one, present. cbn [fst snd]. cbv zeta. rewrite purge_loading.
  case_bool_decide as Hp.
  - split; [done|]. apply (closed_same (del_key k a)); [done|]. by apply closed_del.
  - cbn. assert (vals a !! k = None) as Ev by (by apply eq_None_not_Some). assert (exps a !! k = None) as Ee.
    { apply eq_None_not_Some. intros He. by apply Hp, Hc. }
    split; [|done]. split; cbn; by rewrite delete_id.
Qed.

Lemma del_key_same k a b : same a b → same (del_key k a) (del_key k b).
Proof. intros [Ev Ee]. split; cbn; congruence. Qed.

Lemma without_cons k ks a : same (without (k :: ks) a) (without ks (del_key k a)).
Proof. apply (without_app [k] ks). Qed.

Lemma replay_deletions ks a : closed a → ∃ y, replay a (deletion <$> ks) = Some y ∧ same y (without ks a) ∧ closed y.
Proof.
  revert a. induction ks as [|k ks IH]; intros a Hc; [by exists a|]. cbn [fmap list_fmap]. rewrite replay_cons.
  destruct (replay_deletion a k Hc) as (a1 & -> & H1 & Hc1). bsimpl. destruct (IH a1 Hc1) as (y & -> & Hy & Hcy). exists y. split; [done|]. split; [|done].
  etrans; [exact Hy|]. etrans; [by apply without_same|]. symmetry. apply without_cons.
Qed.
End loading.

Section running.
Context (mstime now : Z).
Implicit Types (a b : kv) (k t v : text) (ts : list text).
#[local] Abbreviation exec := (exec mstime false false).
#[local] Abbreviation purge := (purge mstime false false).
#[local] Abbreviation gone := (gone mstime false false).
#[local] Abbreviation reads := (CommandThms.exec now true false).

(** ** Commands on one key, once it was looked up *)

Lemma purge_id k a : gone k a = false → purge k a = a.
Proof. unfold Observe.gone, DbKeys.purge. by destruct (exps a !! k) as [when|]; [intros ->|]. Qed.

Lemma purge_twice k a : purge k (purge k a) = purge k a.
Proof. apply purge_id, purge_gone. Qed.

Lemma purge_replied k w a : gone k a = false → purge k (replied w a) = replied w a.
Proof. intros H. by apply purge_id. Qed.

(** Either nothing is counted, or the command does to the key space without the
    key past its time what it does when it is read back. *)
Definition looked_up k (f g : kv → kv) a : Prop := dirty (f a) = dirty a ∨ f a = g (purge k a).

Lemma looked_up_set flags k v u ok abort a :
  looked_up k (set_generic mstime false false flags k v None u ok abort) (set_generic now true false flags k v None u ok abort) a.
Proof.
  unfold looked_up, set_generic. cbn [time_to_live].
  assert (∀ b, (b = a ∨ b = purge k a) → store mstime false false k v None ok b = store now true false k v None ok (purge k a)) as Hst.
  { intros b Hb. unfold store, set_key. assert (purge k b = purge k a) as -> by (destruct Hb as [-> | ->]; [done|apply purge_twice]). by rewrite purge_loading. }
  assert (∀ w b, (b = a ∨ b = purge k a) → dirty (replied w b) = dirty a) as Hw by (intros w b [-> | ->]; [done|apply dirty_purge]).
  unfold refused. destruct (negb (Z.land flags REDIS_SET_NX =? 0)); cbn [andb]; rewrite ?purge_loading.
  - destruct (present k (purge k a)); [left; by apply Hw; right|]. destruct (negb (Z.land flags REDIS_SET_XX =? 0)); cbn [andb]; rewrite ?purge_loading, ?purge_twice.
    + destruct (present k (purge k a)); cbn [negb]; [right; by apply Hst; right|left; by apply Hw; right].
    + right. by apply Hst; right.
  - destruct (negb (Z.land flags REDIS_SET_XX =? 0)); cbn [andb]; rewrite ?purge_loading; [|right; by apply Hst; left].
    destruct (present k (purge k a)); cbn [negb]; [right; by apply Hst; right|left; by apply Hw; right].
Qed.

Lemma looked_up_append k v a : looked_up k (spec_append mstime false false k v) (spec_append now true false k v) a.
Proof. right. unfold spec_append. by rewrite purge_loading. Qed.

Lemma looked_up_setrange k t v a : looked_up k (spec_setrange mstime false false k t v) (spec_setrange now true false k t v) a.
Proof.
  unfold looked_up, spec_setrange. destruct (text_number t) as [n|]; [|by left]. destruct (n <? 0); [by left|]. right. by rewrite purge_loading.
Qed.

Lemma looked_up_incr n k a : looked_up k (spec_incr mstime false false n k) (spec_incr now true false n k) a.
Proof. right. unfold spec_incr. by rewrite purge_loading. Qed.

Lemma looked_up_incrby f k t a : looked_up k (spec_incrby mstime false false f k t) (spec_incrby now true false f k t) a.
Proof. unfold looked_up, spec_incrby. destruct (text_number t); [apply looked_up_incr|by left]. Qed.

Lemma looked_up_getset k v a : looked_up k (spec_getset mstime false false k v) (spec_getset now true false k v) a.
Proof.
  right. unfold spec_getset, spec_get, set_key. rewrite !purge_loading. cbv zeta. by rewrite purge_replied by apply purge_gone.
Qed.

(** ** What is read back passes nothing on *)

Definition silent a b : Prop := cmd_name b = cmd_name a ∧ ∃ ev, events b = events a ++ ev ∧ deletions ev = [].

Lemma silent_refl a : silent a a.
Proof. split; [done|]. exists []. by rewrite app_nil_r. Qed.
Lemma silent_keep a b b' : silent a b → events b' = events b → cmd_name b' = cmd_name b → silent a b'.
Proof. intros (Hn & ev & E & H) E' Hn'. split; [congruence|]. exists ev. by rewrite E'. Qed.
Lemma silent_event e a b : silent a b → deletions [e] = [] → silent a (event_of e b).
Proof. intros (Hn & ev & E & H) He. split; [done|]. exists (ev ++ [e]). unfold deletions in *. rewrite omap_app, H, He. split; [cbn; by rewrite E, <- app_assoc|done]. Qed.
Lemma silent_notify type e k a b : silent a b → silent a (notify type e k b).
Proof. intros H. by apply silent_event. Qed.
Lemma silent_modified k a b : silent a b → silent a (modified k b).
Proof. intros H. by apply silent_event. Qed.
Lemma silent_replied w a b : silent a b → silent a (replied w b).
Proof. intros H. by apply (silent_keep _ b). Qed.
Lemma silent_dirty n a b : silent a b → silent a (more_dirty n b).
Proof. intros H. by apply (silent_keep _ b). Qed.
Lemma silent_put k (x : value) a b : silent a b → silent a (put_val k x b).
Proof. intros H. by apply (silent_keep _ b). Qed.
Lemma silent_exps m a b : silent a b → silent a (set_exps m b).
Proof. intros H. by apply (silent_keep _ b). Qed.
Lemma silent_del k a b : silent a b → silent a (del_key k b).
Proof. intros H. by apply (silent_keep _ b). Qed.
Lemma silent_set_key k (x : value) a b : silent a b → silent a (set_key now true false k x b).
Proof. intros H. unfold set_key. rewrite purge_loading. apply silent_event; [|done]. by apply (silent_keep _ b). Qed.
Lemma silent_wrote k ev r a b : silent a b → silent a (wrote k ev r b).
Proof. intros H. unfold wrote. by apply silent_replied, silent_dirty, silent_notify, silent_modified. Qed.
End running.

Create HintDb silence discriminated.
#[export] Hint Resolve silent_refl silent_notify silent_modified silent_replied silent_dirty silent_put silent_exps silent_del silent_set_key silent_wrote : silence.
Ltac silently := solve [eauto 20 with silence].

Section silence.
Context (now : Z).
Implicit Types (a b : kv) (k t v : text) (ts : list text).

Lemma silent_store k v e ok a : silent a (store now true false k v e ok a).
Proof. unfold store. destruct e; cbv zeta; silently. Qed.

Lemma silent_set_generic flags k v u ok abort a : silent a (set_generic now true false flags k v None u ok abort a).
Proof.
  unfold set_generic, refused. cbn [time_to_live]. destruct (negb (Z.land flags REDIS_SET_NX =? 0)), (negb (Z.land flags REDIS_SET_XX =? 0)); cbn [andb];
    rewrite ?purge_loading; repeat match goal with |- context [present k a] => destruct (present k a) end; cbn [negb]; first [apply silent_store|silently].
Qed.

Lemma silent_append k v a : silent a (spec_append now true false k v a).
Proof. unfold spec_append. rewrite purge_loading. cbv zeta. destruct (vals a !! k) as [[]|]; [destruct (_ >? _)|..]; silently. Qed.

Lemma silent_setrange k t v a : silent a (spec_setrange now true false k t v a).
Proof.
  unfold spec_setrange. destruct (text_number t); [|silently]. destruct (_ <? 0); [silently|]. rewrite purge_loading. cbv zeta.
  destruct (vals a !! k) as [[]|]; try silently; (destruct (bool_decide _); [silently|]; destruct (_ >? _); silently).
Qed.

Lemma silent_incr n k a : silent a (spec_incr now true false n k a).
Proof.
  assert (silent a (add_to_counter n k a)) as Hc by (unfold add_to_counter; destruct (counter _); [destruct (_ || _)|]; silently).
  unfold spec_incr. rewrite purge_loading. cbv zeta. destruct (vals a !! k) as [[]|]; try apply Hc. silently.
Qed.

Lemma silent_incrby f k t a : silent a (spec_incrby now true false f k t a).
Proof. unfold spec_incrby. destruct (text_number t); [apply silent_incr|silently]. Qed.

Lemma silent_getset k v a : silent a (spec_getset now true false k v a).
Proof. unfold spec_getset, spec_get. rewrite purge_loading. cbv zeta. destruct (vals _ !! k) as [[]|]; silently. Qed.
End silence.

Section recorded.
Context (mstime now : Z).
Implicit Types (a b y : kv) (k t v : text) (ts : list text).
#[local] Abbreviation exec := (exec mstime false false).
#[local] Abbreviation purge := (purge mstime false false).
#[local] Abbreviation gone := (gone mstime false false).
#[local] Abbreviation reads := (CommandThms.exec now true false).

(** ** What is logged for a change gives the same change *)

(** From [a] to [a'] deletions were passed on, and after them [l] leads to what
    [a'] is. *)
Definition recorded a a' (l : list (list text)) : Prop :=
  ∃ ks ev, events a' = events a ++ ev ∧ deletions ev = deletion <$> ks ∧
    ∀ y, closed y → same y (without ks a) → ∃ z, replay now y l = Some z ∧ same a' z.

Lemma replay_one y name ts c : named name = Some c → replay now y [name :: ts] = Some (reads c (name :: ts) y).1.
Proof. intros E. unfold replay. cbn [foldl]. bsimpl. unfold replay1. by rewrite E. Qed.

Lemma recorded_at k a a' p l : p = purge k a → (∃ ev, events a' = events p ++ ev ∧ deletions ev = []) → (∀ y, closed y → same y p → ∃ z, replay now y l = Some z ∧ same a' z) → recorded a a' l.
Proof.
  intros -> (e2 & E2 & D2) Hl. destruct (quiet_purge mstime false false k a) as (ks & e1 & E1 & D1 & S1 & _).
  exists ks, (e1 ++ e2). split; [by rewrite E2, E1, <- app_assoc|]. split; [unfold deletions in *; by rewrite omap_app, D1, D2, app_nil_r|].
  intros y Hc Hy. apply Hl; [done|]. by etrans.
Qed.

(** Commands that are logged as they are. *)
Lemma recorded_direct k c name ts a (f g : kv → kv) : named name = Some c →
  looked_up mstime k f g a → (∀ p, silent p (g p)) → (∀ p, (reads c (name :: ts) p).1 = g p) → dirty (f a) ≠ dirty a → recorded a (f a) [name :: ts].
Proof.
  intros Hn [He|He] Hs Hg Hd; [done|]. apply (recorded_at k a (f a) (purge k a)); [done|rewrite He; by destruct (Hs (purge k a))|].
  intros y _ Hy. exists (g y). split; [by rewrite (replay_one y name ts c Hn), Hg|]. rewrite He, <- !Hg. apply exec_same. by symmetry.
Qed.

(** *** Times *)

Lemma time_text when : LLONG_MIN ≤ when ≤ LLONG_MAX → text_number (printf_ld when) = Some when.
Proof. intros H. apply decimal_text; [by apply printf_ld_repr|done]. Qed.

Lemma s64_s64 x : s64 (s64 x) = s64 x.
Proof. apply swrap_small; [done|]. pose proof (s64_range x). unfold LLONG_MIN, LLONG_MAX in *. lia. Qed.

Lemma deadline_absolute when : LLONG_MIN ≤ when ≤ LLONG_MAX → deadline 0 UNIT_MILLISECONDS when = when.
Proof. intros H. unfold deadline. cbn. rewrite Z.add_0_r. apply swrap_small; [done|]. unfold LLONG_MIN, LLONG_MAX in H. lia. Qed.

Lemma reads_deadline y name k when t : is_Some (vals y !! k) → text_number t = Some when → LLONG_MIN ≤ when ≤ LLONG_MAX →
  same (set_exps (<[k := when]> (exps y)) y) (reads CPexpireat [name; k; t] y).1.
Proof.
  intros Hk Ht Hw. cbn [CommandThms.exec]. unfold expire_of, spec_expire. rewrite Ht. cbv zeta. rewrite purge_loading. unfold present. rewrite bool_decide_eq_true_2 by done.
  cbn [negb]. rewrite andb_false_r. cbn [andb fst]. by rewrite deadline_absolute.
Qed.

(** The time that is logged is the one that was set. *)
Lemma expire_at_ok c k t n : text_number t = Some n → expire_at mstime c k t = [str "PEXPIREAT"; k; printf_ld (match c with
    | CExpire | CSetex => s64 (s64 (n * 1000) + mstime) | CExpireat => s64 (n * 1000) | CPexpire | CPsetex => s64 (n + mstime) | _ => n end)].
Proof. intros E. unfold expire_at. rewrite E. by destruct c. Qed.

(** *** SETEX *)

Lemma reads_set y name k v : named name = Some CSet → ∃ z, replay1 now y [name; k; v] = Some z ∧ same z (set_key now true false k (VString v) y) ∧ is_Some (vals z !! k).
Proof.
  intros Hn. exists (store now true false k v None reply_ok y). unfold replay1. rewrite Hn. split; [done|]. split; [done|]. cbn. rewrite lookup_insert_eq. by eexists.
Qed.

Lemma deadline_range c n : LLONG_MIN ≤ n ≤ LLONG_MAX → LLONG_MIN ≤ (match c with
    | CExpire | CSetex => s64 (s64 (n * 1000) + mstime) | CExpireat => s64 (n * 1000) | CPexpire | CPsetex => s64 (n + mstime) | _ => n end) ≤ LLONG_MAX.
Proof. intros H. destruct c; try done; apply s64_range. Qed.

Lemma refused_none m l h k a : refused m l h REDIS_SET_NO_FLAGS k a = (a, false).
Proof. done. Qed.

Lemma recorded_setex c unit_ k v t a : (c = CSetex ∧ unit_ = UNIT_SECONDS ∨ c = CPsetex ∧ unit_ = UNIT_MILLISECONDS) →
  let a' := set_generic mstime false false REDIS_SET_NO_FLAGS k v (Some t) unit_ reply_ok reply_nil a in
  dirty a' ≠ dirty a → recorded a a' [[str "SET"; k; v]; expire_at mstime c k t] ∧ cmd_name a' = cmd_name a.
Proof.
  intros Hc. cbv zeta. unfold set_generic, time_to_live. destruct (text_number t) as [n|] eqn:Et; [|done]. destruct (n <=? 0); [done|].
  pose proof (text_number_range t n Et) as Hn. rewrite (expire_at_ok c k t n Et), refused_none.
  set (ms := if unit_ =? UNIT_SECONDS then s64 (n * 1000) else n). intros _.
  set (when := match c with CExpire | CSetex => _ | _ => _ end).
  assert (s64 (mstime + ms) = when) as Ew by (unfold ms, when; destruct Hc as [[-> ->]|[-> ->]]; cbn; f_equal; lia).
  assert (LLONG_MIN ≤ when ≤ LLONG_MAX) as Hw by apply (deadline_range c n Hn).
  assert (store mstime false false k v (Some (s64 (mstime + ms))) reply_ok a = store now true false k v (Some when) reply_ok (purge k a)) as Es
    by (unfold store, set_key; by rewrite purge_loading, Ew).
  rewrite Es. split; [|by destruct (silent_store now k v (Some when) reply_ok (purge k a)) as [-> _]; apply (purge_rest mstime false false)].
  apply (recorded_at k a _ (purge k a)); [done|apply silent_store|]. intros y Hcl Hy. rewrite replay_cons.
  destruct (reads_set y (str "SET") k v eq_refl) as (z & -> & [Hzv Hze] & Hk). bsimpl.
  eexists. split; [apply (replay_one _ (str "PEXPIREAT")); reflexivity|]. etrans; [|apply (reads_deadline z (str "PEXPIREAT") k when); [done|by apply time_text|done]].
  destruct Hy as [Hv He]. unfold store, set_key in *. rewrite purge_loading in *. cbn in Hzv, Hze. split; cbn; congruence.
Qed.

(** *** EXPIRE *)

Lemma recorded_expire c basetime unit_ name k t a :
  (c = CExpire ∧ basetime = mstime ∧ unit_ = UNIT_SECONDS ∨ c = CPexpire ∧ basetime = mstime ∧ unit_ = UNIT_MILLISECONDS ∨
   c = CExpireat ∧ basetime = 0 ∧ unit_ = UNIT_SECONDS ∨ c = CPexpireat ∧ basetime = 0 ∧ unit_ = UNIT_MILLISECONDS) →
  named name = Some c → cmd_name a = cname c →
  let r := expire_of mstime false false basetime unit_ [name; k; t] k t a in
  dirty r.1 ≠ dirty a → recorded a r.1 (translated mstime (default c (named (cmd_name r.1))) r.2).
Proof.
  intros Hc Hn Hname. cbv zeta. unfold expire_of, spec_expire. destruct (text_number t) as [n|] eqn:Et; [|done]. cbv zeta.
  pose proof (text_number_range t n Et) as Hr. unfold present. case_bool_decide as Hk; cbn [negb]; [|cbn; by rewrite dirty_purge].
  destruct (purge_rest mstime false false k a) as (_ & Hpn & _). cbn [negb andb]. rewrite !andb_true_r. destruct (deadline basetime unit_ n <=? mstime); cbn [fst snd expire_texts]; intros _.
  - cbn [cmd_name replied notify modified event_of set_name]. change (named (str "del")) with (Some CDel). cbn [default id translated].
    apply (recorded_at k a _ (purge k a)); [done| |].
    + eexists [EvModified k; EvNotify REDIS_NOTIFY_GENERIC (str "del") k]. split; [cbn; by rewrite <- app_assoc|done].
    + intros y Hcl Hy. destruct (replay_deletion now y k Hcl) as (z & Ez & Hz & _). exists z. split; [rewrite replay_cons; change [str "DEL"; k] with (deletion k); by rewrite Ez|].
      etrans; [|symmetry; exact Hz]. symmetry. by apply (del_key_same k y (purge k a)).
  - rewrite Hpn, Hname, named_cname || (cbn [cmd_name more_dirty notify modified event_of replied set_exps]; rewrite Hpn, Hname, named_cname). cbn [default id].
    set (when := deadline basetime unit_ n). assert (LLONG_MIN ≤ when ≤ LLONG_MAX) as Hw by apply s64_range.
    apply (recorded_at k a _ (purge k a)); [done|eexists [EvModified k; EvNotify REDIS_NOTIFY_GENERIC (str "expire") k]; split; [cbn; by rewrite <- app_assoc|done]|].
    intros y Hcl [Hv He]. assert (∃ nm t', translated mstime c [name; k; t] = [[nm; k; t']] ∧ named nm = Some CPexpireat ∧ text_number t' = Some when) as (nm & t' & -> & Hnm & Ht').
    { destruct Hc as [(-> & -> & ->)|[(-> & -> & ->)|[(-> & -> & ->)|(-> & -> & ->)]]]; cbn [translated]; [..|exists name, t; split; [done|]; split; [done|]; rewrite Et; f_equal; symmetry; by apply deadline_absolute];
        rewrite (expire_at_ok _ k t n Et); eexists _, _; (split; [done|]); (split; [done|]); (rewrite time_text by apply s64_range); f_equal; unfold when, deadline; cbn; by rewrite ?Z.add_0_r, ?s64_s64. }
    eexists. split; [by apply (replay_one y nm)|]. etrans; [|apply (reads_deadline y nm k when); [by rewrite Hv|done|done]]. split; cbn; congruence.
Qed.

(** *** PERSIST *)

Lemma recorded_persist name k a : named name = Some CPersist → let a' := spec_persist k a in recorded a a' [[name; k]] ∧ cmd_name a' = cmd_name a.
Proof.
  intros Hn. cbv zeta. assert (events (spec_persist k a) = events a ∧ cmd_name (spec_persist k a) = cmd_name a) as [Ev En] by (unfold spec_persist; by destruct (_ && _)).
  split; [|done]. exists [], []. split; [by rewrite Ev, app_nil_r|]. split; [done|]. intros y _ Hy. eexists. split; [by apply replay_one|].
  cbn [CommandThms.exec fst]. unfold spec_persist, present. cbn [without foldr] in Hy. destruct Hy as [Hv He]. rewrite Hv, He. destruct (_ && _); by split.
Qed.

(** *** Several keys *)

(** Equal but for the keys [ks]. *)
Definition same_off (ks : list text) a b : Prop := ∀ j, j ∉ ks → vals a !! j = vals b !! j ∧ exps a !! j = exps b !! j.

Lemma same_off_without ks ks' a y : (∀ k, k ∈ ks → k ∈ ks') → same y (without ks a) → same_off ks' a y.
Proof.
  intros Hin [Ev Ee] j Hj. destruct (without_lookup ks a j) as [E1 E2]. rewrite Ev, Ee, E1, E2, bool_decide_eq_false_2 by auto. done.
Qed.

(** Deletions among the keys [ks] were passed on, and nothing else. *)
Definition passes (ks : list text) a b : Prop :=
  cmd_name b = cmd_name a ∧ ∃ ds ev, events b = events a ++ ev ∧ deletions ev = deletion <$> ds ∧ ∀ k, k ∈ ds → k ∈ ks.

Lemma passes_trans ks a b c : passes ks a b → passes ks b c → passes ks a c.
Proof.
  intros (N1 & d1 & e1 & E1 & D1 & H1) (N2 & d2 & e2 & E2 & D2 & H2). split; [congruence|]. exists (d1 ++ d2), (e1 ++ e2).
  split; [by rewrite E2, E1, <- app_assoc|]. split; [unfold deletions in *; by rewrite omap_app, D1, D2, fmap_app|]. intros k [Hk|Hk]%elem_of_app; auto.
Qed.

Lemma passes_silent ks a b : silent a b → passes ks a b.
Proof. intros (Hn & ev & E & H). split; [done|]. exists [], ev. split; [done|]. split; [done|]. by intros k Hk%not_elem_of_nil. Qed.

Lemma replay_purge ks k a : k ∈ ks → passes ks a (purge k a).
Proof.
  intros Hk. unfold passes, DbKeys.purge. destruct (exps a !! k) as [when|]; [|by apply passes_silent, silent_refl]. destruct (expired _ _ _ _); [|by apply passes_silent, silent_refl].
  split; [done|]. exists [k], [EvPropagate (deletion k); EvNotify REDIS_NOTIFY_EXPIRED (str "expired") k]. split; [cbn [del_key event_of events]; by rewrite <- app_assoc|]. split; [done|].
  by intros j ->%list_elem_of_singleton.
Qed.

Lemma recorded_passes ks a a' l : passes ks a a' → (∀ y, closed y → same_off ks a y → ∃ z, replay now y l = Some z ∧ same a' z) → recorded a a' l.
Proof.
  intros (_ & ds & ev & E & D & H) Hl. exists ds, ev. split; [done|]. split; [done|]. intros y Hc Hy. apply Hl; [done|]. by eapply same_off_without.
Qed.

Lemma purge_off k j a : j ≠ k → vals (purge k a) !! j = vals a !! j ∧ exps (purge k a) !! j = exps a !! j.
Proof. intros Hj. unfold DbKeys.purge. destruct (exps a !! k); [|done]. destruct (expired _ _ _ _); [|done]. cbn. by rewrite !lookup_delete_ne. Qed.

(** **** MSET *)

Lemma set_key_lookup m l h k (x : value) a j :
  vals (set_key m l h k x a) !! j = (if decide (j = k) then Some x else vals a !! j) ∧ exps (set_key m l h k x a) !! j = (if decide (j = k) then None else exps a !! j).
Proof.
  unfold set_key. cbn [event_of set_exps put_val set_vals vals exps]. destruct (decide (j = k)) as [-> |Hne]; [by rewrite lookup_insert_eq, lookup_delete_eq|].
  rewrite lookup_insert_ne, lookup_delete_ne by done. unfold DbKeys.purge. destruct (exps a !! k); [|done]. destruct (expired _ _ _ _); [|done]. cbn. by rewrite !lookup_delete_ne.
Qed.

Lemma mset_same ps : ∀ a y, same_off ps.*1 a y → same (foldl (mset_pair mstime false false) a ps) (foldl (mset_pair now true false) y ps).
Proof.
  induction ps as [|[k v] ps IH]; intros a y H; cbn [foldl].
  - split; apply map_eq; intros j; by destruct (H j ltac:(apply not_elem_of_nil)).
  - apply IH. intros j Hj. unfold mset_pair, notify. cbn [event_of vals exps fst snd].
    destruct (set_key_lookup mstime false false k (VString v) a j) as [-> ->], (set_key_lookup now true false k (VString v) y j) as [-> ->].
    destruct (decide (j = k)); [done|]. apply H. cbn [fmap list_fmap fst]. rewrite not_elem_of_cons. done.
Qed.

Lemma replay_event ks a b e : passes ks a b → deletions [e] = [] → passes ks a (event_of e b).
Proof. intros H He. apply (passes_trans _ _ b); [done|]. apply passes_silent, silent_event; [apply silent_refl|done]. Qed.

Lemma replay_set_key ks k (x : value) a : k ∈ ks → passes ks a (set_key mstime false false k x a).
Proof. intros Hk. unfold set_key. apply replay_event; [|done]. by apply (replay_purge ks k a). Qed.

Lemma replay_mset ks ps : (∀ k, k ∈ ps.*1 → k ∈ ks) → ∀ a, passes ks a (foldl (mset_pair mstime false false) a ps).
Proof.
  induction ps as [|[k v] ps IH]; intros H a; [apply passes_silent, silent_refl|]. cbn [foldl]. eapply passes_trans; [|apply IH; intros j Hj; apply H; by right].
  apply replay_event; [|done]. apply replay_set_key, H. by left.
Qed.

Lemma passes_busy ks0 ks a : (∀ k, k ∈ ks → k ∈ ks0) → passes ks0 a (busy mstime false false ks a).1.
Proof.
  revert a. induction ks as [|k ks IH]; intros a H; [apply passes_silent, silent_refl|]. unfold busy. cbn [foldl]. cbv zeta. rewrite busy_fold. cbn [fst].
  eapply passes_trans; [apply replay_purge, H; by left|]. apply IH. intros j Hj. apply H. by right.
Qed.

Lemma purge_none k j a : vals a !! j = None → vals (purge k a) !! j = None.
Proof.
  intros H. unfold DbKeys.purge. destruct (exps a !! k); [|done]. destruct (expired _ _ _ _); [|done]. cbn.
  destruct (decide (j = k)) as [-> |Hne]; [by rewrite lookup_delete_eq|by rewrite lookup_delete_ne].
Qed.

Lemma busy_none ks a j : vals a !! j = None → vals (busy mstime false false ks a).1 !! j = None.
Proof.
  revert a. induction ks as [|k ks IH]; intros a H; [done|]. unfold busy. cbn [foldl]. cbv zeta. rewrite busy_fold. cbn [fst]. by apply IH, purge_none.
Qed.

Lemma busy_absent ks a : (busy mstime false false ks a).2 = false → ∀ j, j ∈ ks → vals (busy mstime false false ks a).1 !! j = None.
Proof.
  revert a. induction ks as [|k ks IH]; intros a; [by intros _ j Hj%not_elem_of_nil|]. unfold busy. cbn [foldl]. cbv zeta. rewrite busy_fold. cbn [fst snd orb].
  intros [Hp Hb]%orb_false_iff j [-> |Hj]%elem_of_cons; [|by apply IH]. apply busy_none. unfold present in Hp. case_bool_decide as Hk; [done|]. by apply eq_None_not_Some.
Qed.

Lemma quiet_busy ks a : quiet mstime false false a (busy mstime false false ks a).1.
Proof.
  revert a. induction ks as [|k ks IH]; intros a; [reflexivity|]. unfold busy. cbn [foldl]. cbv zeta. rewrite busy_fold. cbn [fst]. etrans; [apply quiet_purge|apply IH].
Qed.

Lemma busy_reads ks y : (∀ j, j ∈ ks → vals y !! j = None) → busy now true false ks y = (y, false).
Proof.
  induction ks as [|k ks IH]; intros H; [done|]. unfold busy. cbn [foldl]. cbv zeta. rewrite busy_fold, purge_loading. cbn [orb].
  unfold present. rewrite H by apply list_elem_of_here. fold (busy now true false ks y). rewrite IH; [done|]. intros j Hj. apply H. by right.
Qed.

Lemma busy_dirty ks a : dirty (busy mstime false false ks a).1 = dirty a.
Proof.
  revert a. induction ks as [|k ks IH]; intros a; [done|]. unfold busy. cbn [foldl]. cbv zeta. rewrite busy_fold. cbn [fst]. etrans; [apply IH|apply dirty_purge].
Qed.

Lemma deletion_inj (ks1 ks2 : list text) : deletion <$> ks1 = deletion <$> ks2 → ks1 = ks2.
Proof. revert ks2. induction ks1 as [|k1 ks1 IH]; intros [|k2 ks2]; try done. cbn. intros [= -> H]. f_equal. by apply IH. Qed.

Lemma recorded_mset name l a : named name = Some CMset → let a' := spec_mset mstime false false false l a in
  dirty a' ≠ dirty a → recorded a a' [name :: l] ∧ cmd_name a' = cmd_name a.
Proof.
  intros Hn. cbv zeta. unfold spec_mset at 1 2 3. destruct (Nat.odd (length l)) eqn:Eo; [done|]. intros _.
  pose proof (replay_mset (pairs l).*1 (pairs l) (λ k H, H) a) as Hp.
  split; [|destruct Hp as [Hnm _]; exact Hnm]. apply (recorded_passes (pairs l).*1); [exact Hp|]. intros y _ Hy.
  eexists. split; [by apply replay_one|]. cbn [CommandThms.exec fst]. unfold spec_mset. rewrite Eo. exact (mset_same _ _ _ Hy).
Qed.

Lemma recorded_msetnx name l a : named name = Some CMsetnx → let a' := spec_mset mstime false false true l a in
  dirty a' ≠ dirty a → recorded a a' [name :: l] ∧ cmd_name a' = cmd_name a.
Proof.
  intros Hn. cbv zeta. unfold spec_mset at 1 2 3. destruct (Nat.odd (length l)) eqn:Eo; [done|].
  set (ks := (pairs l).*1). pose proof (busy_absent ks a) as Hab. destruct (quiet_busy ks a) as (d1 & e1 & E1 & D1 & [S1 S2] & _).
  pose proof (busy_dirty ks a) as Hd. pose proof (passes_busy ks ks a (λ k H, H)) as (N1 & _). pose proof (passes_busy ks ks a (λ k H, H)) as (_ & d0 & e0 & E0 & D0 & H0).
  destruct (busy mstime false false ks a) as [a1 b1]. cbn [fst snd] in *. destruct b1; [done|]. intros _. specialize (Hab eq_refl).
  destruct (replay_mset ks (pairs l) (λ k H, H) a1) as (N2 & d2 & e2 & E2 & D2 & H2). split; [|cbn; congruence].
  assert (e0 = e1) as -> by (apply (app_inv_head (events a)); congruence).
  assert (d0 = d1) as -> by (apply deletion_inj; congruence).
  exists (d1 ++ d2), (e1 ++ e2). split; [cbn; by rewrite E2, E1, <- app_assoc|]. split; [unfold deletions in *; by rewrite omap_app, D1, D2, fmap_app|].
  intros y _ Hy. assert (∀ k, k ∈ d1 ++ d2 → k ∈ ks) as Hin by (intros k [Hk|Hk]%elem_of_app; auto).
  assert (∀ j, j ∈ ks → vals y !! j = None) as Hnone.
  { intros j Hj. destruct Hy as [-> _]. destruct (without_lookup (d1 ++ d2) a j) as [-> _]. case_bool_decide as Hjd; [done|].
    specialize (Hab j Hj). rewrite S1 in Hab. destruct (without_lookup d1 a j) as [E' _]. rewrite E', bool_decide_eq_false_2 in Hab; [done|]. intros Hj1. apply Hjd, elem_of_app. by left. }
  eexists. split; [by apply replay_one|]. cbn [CommandThms.exec fst]. unfold spec_mset. rewrite Eo. fold ks. rewrite (busy_reads ks y Hnone).
  apply (mset_same (pairs l) a1 y). intros j Hj. fold ks in Hj. rewrite S1, S2. destruct (without_lookup d1 a j) as [-> ->]. rewrite bool_decide_eq_false_2 by auto.
  by apply (same_off_without (d1 ++ d2) ks a y).
Qed.

(** **** DEL *)

Lemma closed_purge m l h k a : closed a → closed (DbKeys.purge m l h k a).
Proof. intros H. unfold DbKeys.purge. destruct (exps a !! k); [|done]. destruct (expired _ _ _ _); [|done]. apply closed_del. exact H. Qed.

Lemma del_one_closed m l h p k : closed p.1 → closed (del_one m l h p k).1.
Proof. intros H. unfold del_one. cbv zeta. destruct (present _ _); cbn [fst]; [apply (closed_del k)|]; by apply closed_purge. Qed.

Lemma del_one_lookup m l h p k j : closed p.1 →
  vals (del_one m l h p k).1 !! j = (if decide (j = k) then None else vals p.1 !! j) ∧ exps (del_one m l h p k).1 !! j = (if decide (j = k) then None else exps p.1 !! j).
Proof.
  intros H. pose proof (closed_purge m l h k p.1 H k) as Hk.
  assert (j ≠ k → vals (DbKeys.purge m l h k p.1) !! j = vals p.1 !! j ∧ exps (DbKeys.purge m l h k p.1) !! j = exps p.1 !! j) as Hoff.
  { intros Hne. unfold DbKeys.purge. destruct (exps p.1 !! k); [|done]. destruct (expired _ _ _ _); [|done]. cbn. by rewrite !lookup_delete_ne. }
  unfold del_one, present. cbv zeta. case_bool_decide as Hp; cbn [fst].
  - cbn. destruct (decide (j = k)) as [-> |Hne]; [by rewrite !lookup_delete_eq|rewrite !lookup_delete_ne by done; auto].
  - destruct (decide (j = k)) as [-> |Hne]; [|auto]. split; apply eq_None_not_Some; auto.
Qed.

Lemma del_same ks : ∀ p q, closed p.1 → closed q.1 → same_off ks p.1 q.1 → same (foldl (del_one mstime false false) p ks).1 (foldl (del_one now true false) q ks).1.
Proof.
  induction ks as [|k ks IH]; intros p q Hp Hq H; cbn [foldl].
  - split; apply map_eq; intros j; by destruct (H j ltac:(apply not_elem_of_nil)).
  - apply IH; [by apply del_one_closed..|]. intros j Hj. destruct (del_one_lookup mstime false false p k j Hp) as [-> ->], (del_one_lookup now true false q k j Hq) as [-> ->].
    destruct (decide (j = k)); [done|]. apply H. by apply not_elem_of_cons.
Qed.

Lemma replay_del ks0 ks : (∀ k, k ∈ ks → k ∈ ks0) → ∀ p, passes ks0 p.1 (foldl (del_one mstime false false) p ks).1.
Proof.
  induction ks as [|k ks IH]; intros H p; [apply passes_silent, silent_refl|]. cbn [foldl]. eapply passes_trans; [|apply IH; intros j Hj; apply H; by right].
  unfold del_one. cbv zeta. assert (passes ks0 p.1 (purge k p.1)) as Hp by (apply replay_purge, H; by left). destruct (present k (purge k p.1)); cbn [fst]; [|done].
  eapply passes_trans; [exact Hp|]. apply passes_silent. silently.
Qed.

Lemma recorded_del name ks a : named name = Some CDel → closed a → let a' := spec_del mstime false false ks a in recorded a a' [name :: ks] ∧ cmd_name a' = cmd_name a.
Proof.
  intros Hn Hc. cbv zeta. unfold spec_del. pose proof (replay_del ks ks (λ k H, H) (a, 0)) as Hp. pose proof (λ y, del_same ks (a, 0) (y, 0)) as Hs. cbn [fst] in *.
  destruct (foldl (del_one mstime false false) (a, 0) ks) as [a1 z1]. cbn [fst] in *. split; [|by destruct Hp].
  apply (recorded_passes ks); [exact Hp|]. intros y Hcy Hy. eexists. split; [by apply replay_one|]. cbn [CommandThms.exec fst]. unfold spec_del.
  specialize (Hs y Hc Hcy Hy). destruct (foldl (del_one now true false) (y, 0) ks). exact Hs.
Qed.
End recorded.

(** ** Every time belongs to a key, whatever runs *)

Section closing.
Context (m : Z) (l h : bool).
Implicit Types (a : kv) (k t v : text) (ts : list text).
#[local] Abbreviation purge := (DbKeys.purge m l h).

Lemma closed_replied w a : closed a → closed (replied w a).
Proof. done. Qed.
Lemma closed_dirty n a : closed a → closed (more_dirty n a).
Proof. done. Qed.
Lemma closed_event e a : closed a → closed (event_of e a).
Proof. done. Qed.
Lemma closed_name n a : closed a → closed (set_name n a).
Proof. done. Qed.
Lemma closed_wrote k ev r a : closed a → closed (wrote k ev r a).
Proof. done. Qed.
Lemma closed_notify type e k a : closed a → closed (notify type e k a).
Proof. done. Qed.
Lemma closed_modified k a : closed a → closed (modified k a).
Proof. done. Qed.
Lemma closed_set_key k (x : value) a : closed a → closed (set_key m l h k x a).
Proof. intros H. unfold set_key. apply closed_event. apply (closed_forever k (put_val k x (purge k a))); [|done]. by apply closed_put, closed_purge. Qed.

Lemma closed_store k v e ok a : closed a → closed (store m l h k v e ok a).
Proof.
  intros H. unfold store. destruct e as [when|]; cbv zeta; apply closed_replied; repeat apply closed_notify; [|by apply closed_dirty, closed_set_key].
  apply (closed_deadline k when (more_dirty 1 (set_key m l h k (VString v) a))); [by apply closed_dirty, closed_set_key|done|]. cbn. rewrite lookup_insert_eq. by eexists.
Qed.
End closing.

Create HintDb closing discriminated.
#[export] Hint Resolve closed_replied closed_dirty closed_event closed_name closed_wrote closed_notify closed_modified closed_set_key closed_store closed_put closed_del closed_purge : closing.
Ltac closes := solve [eauto 12 with closing].

Section closing_commands.
Context (m : Z) (l h : bool).
Implicit Types (a : kv) (k t v : text) (ts : list text).

Lemma closed_set_generic flags k v e u ok abort a : closed a → closed (set_generic m l h flags k v e u ok abort a).
Proof.
  intros H. unfold set_generic. assert (closed (refused m l h flags k a).1) as Hr.
  { unfold refused. destruct (negb _), (negb _); cbn [andb]; repeat (destruct (present _ _); cbn [fst]); closes. }
  destruct (time_to_live e u a) as [b|ms] eqn:Et.
  - unfold time_to_live in Et. destruct e as [t|]; [|done]. destruct (text_number t) as [n|]; [destruct (n <=? 0)|]; [injection Et as <-|done|injection Et as <-]; closes.
  - destruct (refused m l h flags k a) as [b no]. cbn [fst] in Hr. destruct no; closes.
Qed.

Lemma closed_incr n k a : closed a → closed (spec_incr m l h n k a).
Proof.
  intros H. unfold spec_incr, add_to_counter. cbv zeta. assert (closed (purge m l h k a)) as Hp by closes.
  destruct (vals _ !! k) as [[]|]; [destruct (counter _); [destruct (_ || _)|]|..|destruct (counter _); [destruct (_ || _)|]]; closes.
Qed.

Lemma closed_foldl {A} (f : kv → A → kv) s a : (∀ a x, closed a → closed (f a x)) → closed a → closed (foldl f a s).
Proof. intros Hf. revert a. induction s as [|x s IH]; intros a H; [done|]. cbn [foldl]. by apply IH, Hf. Qed.

Lemma closed_foldl_fst {A B} (f : kv * B → A → kv * B) s p : (∀ p x, closed p.1 → closed (f p x).1) → closed p.1 → closed (foldl f p s).1.
Proof. intros Hf. revert p. induction s as [|x s IH]; intros p H; [done|]. cbn [foldl]. by apply IH, Hf. Qed.

Lemma closed_mset nx s a : closed a → closed (spec_mset m l h nx s a).
Proof.
  intros H. unfold spec_mset. destruct (Nat.odd _); [closes|].
  assert (closed (if nx then busy m l h (pairs s).*1 a else (a, false)).1) as Hb.
  { destruct nx; [|done]. unfold busy. apply (closed_foldl_fst _ _ (a, false)); [|done]. intros [b z] x Hx. by apply closed_purge. }
  destruct (if nx then _ else _) as [b no]. cbn [fst] in Hb. destruct no; [closes|]. apply closed_replied, closed_dirty, closed_foldl; [|done].
  intros c [k v] Hc. unfold mset_pair. closes.
Qed.

Lemma closed_del_keys ks a : closed a → closed (spec_del m l h ks a).
Proof.
  intros H. unfold spec_del. assert (closed (foldl (del_one m l h) (a, 0) ks).1) as Hd by (apply closed_foldl_fst; [|done]; intros; by apply del_one_closed).
  destruct (foldl _ _ _). closes.
Qed.

Lemma closed_expire b u ts k t a : closed a → closed (expire_of m l h b u ts k t a).1.
Proof.
  intros H. unfold expire_of, spec_expire. destruct (text_number t) as [n|]; cbn [fst]; [|closes]. cbv zeta. unfold present. case_bool_decide as Hk; cbn [negb fst]; [|closes].
  destruct (_ && negb h); cbn [fst]; [closes|]. apply closed_dirty, closed_notify, closed_modified, closed_replied. apply (closed_deadline k _ (purge m l h k a)); [by apply closed_purge|done|done].
Qed.

Lemma exec_closed c ts a : closed a → closed (exec m l h c ts a).1.
Proof.
  intros H. unfold exec.
  destruct c; try done; repeat (destruct ts as [|? ts]; [done|]); try (destruct ts as [|? ts]; [|done]); try (by apply closed_expire); cbn [fst].
  all: try (by apply closed_set_generic); try (by apply closed_incr); try (by apply closed_del_keys); try (by apply closed_mset).
  - unfold spec_get. closes.
  - unfold spec_set. destruct (options _ _ _ _) as [[[flags e] u]|]; [by apply closed_set_generic|closes].
  - unfold spec_append. cbv zeta. destruct (vals _ !! _) as [[]|]; [destruct (_ >? _)|..]; closes.
  - unfold spec_strlen. closes.
  - unfold spec_exists. closes.
  - unfold spec_setrange. destruct (text_number _); [|closes]. destruct (_ <? 0); [closes|]. cbv zeta.
    destruct (vals _ !! _) as [[]|]; try closes; (destruct (bool_decide _); [closes|]; destruct (_ >? _); closes).
  - unfold spec_getrange. destruct (text_number _) as [i|]; [|closes]. destruct (text_number _) as [j|]; closes.
  - apply closed_foldl; [|closes]. intros b k Hb. unfold mget_key. closes.
  - unfold spec_incrby. destruct (text_number _); [by apply closed_incr|closes].
  - unfold spec_incrby. destruct (text_number _); [by apply closed_incr|closes].
  - unfold spec_getset, spec_get. cbv zeta. destruct (vals _ !! _) as [[]|]; closes.
  - unfold spec_ttl. closes.
  - unfold spec_ttl. closes.
  - unfold spec_persist. destruct (_ && _); [|closes]. apply closed_dirty, closed_replied. by apply (closed_forever _ a).
Qed.
End closing_commands.
