(* ===== verification/ReplayThms.v ===== *)
(** * The append-only file restores the key space

    A log of everything that ran, read back by a server that starts empty,
    leads to the same keys, values and times, whenever it is read. *)

From S2P Require Import Prelude Util SdsText Object Number Reply ReplyText ReplyDeferred Server Commands DbSpec DbKeys DbReply CommandSpec StringOps KeyOps CommandThms Observe Effects Replay.
From stdpp Require Import gmap.
Local Open Scope Z_scope.

(** A time to live given to [SET] is logged as it is. *)
Definition absolute (c : command) (ts : list text) : Prop :=
  match c, ts with
  | CSet, _ :: _ :: _ :: l => ∀ flags e u, options l REDIS_SET_NO_FLAGS None UNIT_SECONDS = Some (flags, e, u) → e = None
  | _, _ => True
  end.

(** The command the client named, with as many arguments as it takes. *)
Definition well_formed (c : command) (ts : list text) : Prop :=
  arity_ok c (len ts) = true ∧ ∃ name l, ts = name :: l ∧ named name = Some c.

Lemma arity_exact c n m : arity_ok c n = true → arity c = m → 0 < m → n = m.
Proof.
  unfold arity_ok. intros H <- Hp. apply negb_true_iff, orb_false_iff in H as [H _]. rewrite Z.gtb_ltb, (proj2 (Z.ltb_lt 0 (arity c))) in H by done. cbn [andb] in H.
  apply negb_false_iff, Z.eqb_eq in H. done.
Qed.

Section step.
Context (mstime now : Z).
Implicit Types (a b y : kv) (k t v : text) (ts : list text).
#[local] Abbreviation exec := (exec mstime false false).
#[local] Abbreviation recorded := (recorded now).

(** Commands on one key that are logged as they are. *)
Lemma direct_ok k c ts a (f g : kv → kv) : (∃ name l, ts = name :: l ∧ named name = Some c) → cmd_name a = cname c →
  exec c ts a = (f a, ts) → (∀ p, CommandThms.exec now true false c ts p = (g p, ts)) → looked_up mstime k f g a → (∀ p, silent p (g p)) → (∀ ts, translated mstime c ts = [ts]) →
  dirty (exec c ts a).1 ≠ dirty a → recorded a (exec c ts a).1 (translated mstime (default c (named (cmd_name (exec c ts a).1))) (exec c ts a).2).
Proof.
  intros (name & l & -> & Hn) Hname Ef Eg Hlk Hs Ht. rewrite Ef. cbn [fst snd]. intros Hd.
  assert (cmd_name (f a) = cname c) as ->.
  { destruct Hlk as [He| ->]; [done|]. destruct (Hs (purge mstime false false k a)) as [-> _]. by destruct (purge_rest mstime false false k a) as (_ & -> & _). }
  rewrite named_cname. cbn [default id]. rewrite Ht. apply (recorded_direct mstime now k c name l a f g); try done. intros p. by rewrite Eg.
Qed.

(** Commands that only read. *)
Definition reader (c : command) : bool := match c with CGet | CStrlen | CExists | CGetrange | CMget | CTtl | CPttl => true | _ => false end.

Lemma reader_dirty c ts a : reader c = true → dirty (exec c ts a).1 = dirty a.
Proof.
  destruct c; try done; intros _; cbn [CommandThms.exec]; (destruct ts as [|t0 ts]; [done|]); try (destruct ts as [|t1 [|t2 [|t3 [|t4 ts]]]]; try done; cbn [fst];
    unfold spec_get, spec_strlen, spec_exists, spec_getrange, spec_ttl; repeat (destruct (text_number _); try done); apply dirty_purge).
  cbn [fst]. unfold spec_mget. rewrite dirty_foldl; [done|]. intros b k. apply dirty_purge.
Qed.

Lemma recorded_name a a' c l ts : cmd_name a' = cname c → ts = l → translated mstime c l = [l] → recorded a a' [l] → recorded a a' (translated mstime (default c (named (cmd_name a'))) ts).
Proof. intros -> -> Ht H. rewrite named_cname. cbn [default id]. by rewrite Ht. Qed.

Lemma recorded_ok c ts a : closed a → cmd_name a = cname c → well_formed c ts → absolute c ts → dirty (exec c ts a).1 ≠ dirty a →
  recorded a (exec c ts a).1 (translated mstime (default c (named (cmd_name (exec c ts a).1))) (exec c ts a).2).
Proof.
  intros Hcl Hname [Har Hnm] Habs Hd. destruct (reader c) eqn:Er; [by rewrite reader_dirty in Hd|].
  assert (∀ m, arity c = m → 0 < m → len ts = m) as Hlen by (intros m; by apply arity_exact). destruct Hnm as (name & l & -> & Hn).
  assert (∃ name' l', name :: l = name' :: l' ∧ named name' = Some c) as Hnm by (by eexists _, _).
  destruct c; try done; cbn [arity] in *; try (specialize (Hlen _ eq_refl eq_refl); destruct l as [|t1 [|t2 [|t3 [|t4 ts]]]]; cbn [length] in Hlen; try lia).
  - destruct l as [|k [|v l]]; [done..|]. destruct (options l REDIS_SET_NO_FLAGS None UNIT_SECONDS) as [[[flags e] u]|] eqn:Eo;
      [|cbn [CommandThms.exec fst snd] in Hd; unfold spec_set in Hd; by rewrite Eo in Hd].
    assert (e = None) as -> by (by eapply Habs).
    assert (∀ m lo ms p, CommandThms.exec m lo ms CSet (name :: k :: v :: l) p = (set_generic m lo ms flags k v None u reply_ok reply_nil p, name :: k :: v :: l)) as Ee
      by (intros; cbn [CommandThms.exec]; unfold spec_set; by rewrite Eo).
    eapply (direct_ok k); [done|done|apply Ee|intros; apply Ee|apply looked_up_set|intros; apply silent_set_generic|done|done].
  - eapply (direct_ok t1); [done..|apply looked_up_set|intros; apply silent_set_generic|done|done].
  - destruct (recorded_setex mstime now CSetex UNIT_SECONDS t1 t3 t2 a) as [Hr En]; [by left|done|]. cbn [CommandThms.exec fst snd]. rewrite En, Hname. exact Hr.
  - destruct (recorded_setex mstime now CPsetex UNIT_MILLISECONDS t1 t3 t2 a) as [Hr En]; [by right|done|]. cbn [CommandThms.exec fst snd]. rewrite En, Hname. exact Hr.
  - eapply (direct_ok t1); [done..|apply looked_up_append|intros; apply silent_append|done|done].
  - destruct (recorded_del mstime now name l a Hn Hcl) as [Hr En]. eapply recorded_name; [cbn [CommandThms.exec fst]; by rewrite En|done..|exact Hr].
  - eapply (direct_ok t1); [done..|apply looked_up_setrange|intros; apply silent_setrange|done|done].
  - eapply (direct_ok t1); [done..|apply looked_up_incr|intros; apply silent_incr|done|done].
  - eapply (direct_ok t1); [done..|apply looked_up_incr|intros; apply silent_incr|done|done].
  - eapply (direct_ok t1); [done..|apply looked_up_incrby|intros; apply silent_incrby|done|done].
  - eapply (direct_ok t1); [done..|apply looked_up_incrby|intros; apply silent_incrby|done|done].
  - eapply (direct_ok t1); [done..|apply looked_up_getset|intros; apply silent_getset|done|done].
  - destruct (recorded_mset mstime now name l a Hn Hd) as [Hr En]. eapply recorded_name; [cbn [CommandThms.exec fst]; by rewrite En|done..|exact Hr].
  - destruct (recorded_msetnx mstime now name l a Hn Hd) as [Hr En]. eapply recorded_name; [cbn [CommandThms.exec fst]; by rewrite En|done..|exact Hr].
  - by apply (recorded_expire mstime now CExpire mstime UNIT_SECONDS name t1 t2 a); [left|..].
  - by apply (recorded_expire mstime now CExpireat 0 UNIT_SECONDS name t1 t2 a); [right; right; left|..].
  - by apply (recorded_expire mstime now CPexpire mstime UNIT_MILLISECONDS name t1 t2 a); [right; left|..].
  - by apply (recorded_expire mstime now CPexpireat 0 UNIT_MILLISECONDS name t1 t2 a); [right; right; right|..].
  - destruct (recorded_persist now name t1 a Hn) as [Hr En]. eapply recorded_name; [cbn [CommandThms.exec fst]; by rewrite En|done..|exact Hr].
Qed.
End step.

(** ** A step *)

Section theorems.
Context (now : Z).
Implicit Types (a b y : kv) (k t v : text) (ts : list text).

Lemma logged_ok mstime c ts a y : closed a → closed y → same a y → cmd_name a = cname c → well_formed c ts → absolute c ts →
  ∃ z, replay now y (logged mstime c ts a) = Some z ∧ same (exec mstime false false c ts a).1 z.
Proof.
  intros Hcl Hcy Hy Hname Hw Habs. unfold logged, logged_on. cbv zeta. rewrite replay_app. destruct (exec_tallied mstime false false c ts a) as [_ Hq].
  destruct (Z.eqb_spec (dirty (exec mstime false false c ts a).1) (dirty a)) as [Hd|Hd].
  - destruct (Hq Hd) as (ks & ev & Ee & Ed & Hs & _). rewrite Ee, drop_app_length, Ed. destruct (replay_deletions now ks y Hcy) as (z & -> & Hz & _). bsimpl.
    exists z. split; [done|]. etrans; [exact Hs|]. etrans; [by apply without_same|]. by symmetry.
  - destruct (recorded_ok mstime now c ts a Hcl Hname Hw Habs Hd) as (ks & ev & Ee & Ed & Hl). rewrite Ee, drop_app_length, Ed.
    destruct (replay_deletions now ks y Hcy) as (y1 & -> & Hy1 & Hc1). bsimpl. apply Hl; [done|]. etrans; [exact Hy1|]. apply without_same. by symmetry.
Qed.

Lemma replay1_closed a ts y : closed a → replay1 now a ts = Some y → closed y.
Proof. intros H. unfold replay1. destruct ts as [|name ts]; [done|]. destruct (named name); [|done]. bsimpl. intros [= <-]. by apply exec_closed. Qed.

Lemma replay_closed l : ∀ a y, closed a → replay now a l = Some y → closed y.
Proof.
  induction l as [|ts l IH]; intros a y H; [by intros [= <-]|]. rewrite replay_cons. destruct (replay1 now a ts) as [b|] eqn:E; [|done]. bsimpl. apply IH. by eapply replay1_closed.
Qed.
End theorems.
