(* ===== verification/Load.v ===== *)
(** * Loading the append-only file: [loadAppendOnlyFile] of [aof.c]

    The file is read with [fgets] and [fread], line by line and argument by
    argument, and each command is run as if a client had sent it.  What a
    command does to the server is a parameter: the state [S], the table of
    commands [lookup], and [proc].  Serving clients while the file is read
    ([processEventsWhileBlocked]) is not modelled. *)

From S2P Require Import Prelude Util Sds Object Number.
Local Open Scope Z_scope.

(** ** Streams *)

(** What is left of the file, and whether a read went past its end. *)
Record stream := mkStream { left : list Z; feof : bool }.

(** The bytes up to the end of the line, at most [n] of them. *)
Fixpoint line_of (n : nat) (m : list Z) : list Z * list Z :=
  match n, m with
  | O, _ | _, [] => ([], m)
  | S n, x :: m => if x =? 10 then ([x], m) else let '(l, r) := line_of n m in (x :: l, r)
  end.

(** [fgets(buf, size, fp)]: [None] is [NULL]. *)
Definition fgets (size : Z) (f : stream) : option (list Z) * stream :=
  let '(l, r) := line_of (Z.to_nat (size - 1)) (left f) in
  let short := (len l <? size - 1) && negb (bool_decide (last l = Some 10)) in
  match l with
  | [] => (None, mkStream r (feof f || short))
  | _ => (Some (l ++ [0]), mkStream r (feof f || short))
  end.

(** [fread(_, n, 1, fp)]: [None] is 0. *)
Definition fread (n : Z) (f : stream) : option (list Z) * stream :=
  if len (left f) <? n then (None, mkStream [] true)
  else (Some (take (Z.to_nat n) (left f)), mkStream (drop (Z.to_nat n) (left f)) (feof f)).

(** ** One command *)

Inductive read_result (A : Type) := RdOk (a : A) (f : stream) | RdEof | RdReaderr (f : stream) | RdFmterr.
Arguments RdOk {_}.
Arguments RdEof {_}.
Arguments RdReaderr {_}.
Arguments RdFmterr {_}.

Section reading.
Context (junk : nat → Z).

(** The turn of the loop over the arguments. *)
Definition read_arg (f : stream) : option (read_result sdshdr) :=
  match fgets 128 f with
  | (None, f) => Some (RdReaderr f)
  | (Some b, f) =>
      x ← mget b 0;
      if negb (x =? 36) then Some RdFmterr
      else
        '(v, _, _) ← strtoll (drop 1 b);
        let n := u64 v in
        (* the size of the block wraps *)
        if 8 + n + 1 >? ULLONG_MAX then None
        else
          argsds ← sdsnewlen junk None n;
          '(got, f) ← (if negb (n =? 0) then
                         match fread n f with
                         | (None, f) => Some (None, f)
                         | (Some m, f) => b ← mwrite (buf argsds) 0 m; Some (Some (mkSds (slen argsds) (sfree argsds) b), f)
                         end
                       else Some (Some argsds, f));
          match got with
          | None => Some (RdReaderr f)
          | Some argsds =>
              match fread 2 f with
              | (None, f) => Some (RdReaderr f)
              | (Some _, f) => Some (RdOk argsds f)
              end
          end
  end.

Fixpoint read_argv (argc : nat) (f : stream) : option (read_result (list sdshdr)) :=
  match argc with
  | O => Some (RdOk [] f)
  | S argc =>
      r ← read_arg f;
      match r with
      | RdOk a f =>
          r ← read_argv argc f;
          Some (match r with RdOk l f => RdOk (a :: l) f | r => r end)
      | RdEof => Some RdEof
      | RdReaderr f => Some (RdReaderr f)
      | RdFmterr => Some RdFmterr
      end
  end.

Definition read_command (f : stream) : option (read_result (list sdshdr)) :=
  match fgets 128 f with
  | (None, f) => Some (if feof f then RdEof else RdReaderr f)
  | (Some b, f) =>
      x ← mget b 0;
      if negb (x =? 42) then Some RdFmterr
      else
        y ← mget b 1;
        if y =? 0 then Some (RdReaderr f)
        else
          '(v, _, _) ← strtoll (drop 1 b);
          let argc := s32 v in
          if argc <? 1 then Some RdFmterr else read_argv (Z.to_nat argc) f
  end.
End reading.

(** ** The file *)

Section loading.
Context {S C : Type} (junk : nat → Z) (lookup : list Z → option C) (proc : C → S → list (list Z) → option S).
(** [fakeClient->flags & REDIS_MULTI], [server.aof_load_truncated], and whether
    [truncate] and [lseek] succeed. *)
Context (in_multi : S → bool) (load_truncated can_truncate : bool).

Definition sds_text (s : sdshdr) : option (list Z) := mread (buf s) 0 (sdslen s).

(** The command that was read is looked up and run; [None] inside is [exit]. *)
Definition run_command (s : S) (argv : list sdshdr) : option (option S) :=
  ts ← mapM sds_text argv;
  name ← head ts;
  match lookup name with
  | None => Some None
  | Some c => s ← proc c s ts; Some (Some s)
  end.

(** The server was loaded; it was loaded up to an offset, where the file was
    cut; the file is empty; the process exits. *)
Inductive load_result := LoadOk (s : S) | LoadCut (s : S) (valid_up_to : Z) | LoadEmpty | LoadExit.

Definition load_short (s : S) (valid_up_to : Z) : load_result :=
  if load_truncated && can_truncate then LoadCut s valid_up_to else LoadExit.

Fixpoint load_loop (fuel : nat) (size : Z) (f : stream) (s : S) (valid_up_to : Z) : option load_result :=
  match fuel with
  | O => None
  | Datatypes.S fuel =>
      r ← read_command junk f;
      match r with
      | RdEof => Some (if in_multi s then load_short s valid_up_to else LoadOk s)
      | RdReaderr f => Some (if feof f then load_short s valid_up_to else LoadExit)
      | RdFmterr => Some LoadExit
      | RdOk argv f =>
          r ← run_command s argv;
          match r with
          | None => Some LoadExit
          | Some s => load_loop fuel size f s (if load_truncated then size - len (left f) else valid_up_to)
          end
      end
  end.

Definition loadAppendOnlyFile (file : list Z) (s : S) : option load_result :=
  if len file =? 0 then Some LoadEmpty
  else load_loop (Datatypes.S (length file)) (len file) (mkStream file false) s 0.
End loading.
Arguments LoadOk {_}.
Arguments LoadCut {_}.
Arguments LoadEmpty {_}.
Arguments LoadExit {_}.
