(* ===== verification/LoadThms.v ===== *)
(** * What the append-only file is read as

    A file made of encoded commands is read back as those commands, and of a
    file that ends in the middle of a command, the commands before it. *)

From S2P Require Import Prelude Util Sds SdsText Object Number Reply ReplyDeferred DbReply Input InputSpec InputStream Load.
Local Open Scope Z_scope.

(** ** Lines *)

Lemma line_of_line l : Forall (λ x, x ≠ 10) l → ∀ n r, (length l < n)%nat → line_of n (l ++ 10 :: r) = (l ++ [10], r).
Proof.
  induction 1 as [|x l Hx Hl IH]; intros [|n] r Hn; cbn [length] in Hn; try lia; cbn [app line_of]; [done|].
  rewrite (proj2 (Z.eqb_neq x 10)) by done. by rewrite IH by lia.
Qed.

Lemma line_of_rest l : Forall (λ x, x ≠ 10) l → ∀ n, (length l ≤ n)%nat → line_of n l = (l, []).
Proof.
  induction 1 as [|x l Hx Hl IH]; intros [|n] Hn; cbn [length] in Hn; try lia; cbn [line_of]; [done..|].
  rewrite (proj2 (Z.eqb_neq x 10)) by done. by rewrite IH by lia.
Qed.

Lemma fgets_line l r e : Forall (λ x, x ≠ 10) l → len l < 126 → fgets 128 (mkStream (l ++ 10 :: r) e) = (Some (l ++ [10; 0]), mkStream r e).
Proof.
  intros Hl Hn. unfold fgets. cbn [left feof]. rewrite (line_of_line l Hl) by lia. rewrite last_snoc, bool_decide_eq_true_2 by done. rewrite andb_false_r, orb_false_r.
  destruct l; [done|]. cbn [app]. by rewrite <- app_assoc.
Qed.

Lemma fgets_rest l e : Forall (λ x, x ≠ 10) l → len l < 127 → l ≠ [] → fgets 128 (mkStream l e) = (Some (l ++ [0]), mkStream [] true).
Proof.
  intros Hl Hn Hne. unfold fgets. cbn [left feof]. rewrite (line_of_rest l Hl) by lia. rewrite bool_decide_eq_false_2.
  - rewrite (proj2 (Z.ltb_lt _ _)) by lia. cbn [negb andb]. rewrite orb_true_r. by destruct l.
  - intros H. apply last_Some_elem_of in H. rewrite Forall_forall in Hl. by apply (Hl 10).
Qed.

Lemma fread_ok m r e n : n = len m → fread n (mkStream (m ++ r) e) = (Some m, mkStream r e).
Proof.
  intros ->. unfold fread. cbn [left feof]. rewrite length_app. rewrite (proj2 (Z.ltb_ge _ _)) by lia.
  by rewrite Nat2Z.id, take_app_length, drop_app_length.
Qed.

Lemma fread_crlf r e : fread 2 (mkStream (13 :: 10 :: r) e) = (Some [13; 10], mkStream r e).
Proof. by apply (fread_ok [13; 10]). Qed.

Lemma fread_short m e n : len m < n → fread n (mkStream m e) = (None, mkStream [] true).
Proof. intros H. unfold fread. cbn [left]. by rewrite (proj2 (Z.ltb_lt _ _)) by done. Qed.

(** ** Numbers *)

Lemma strtoll_of_digits ds x m : Forall digit ds → ds ≠ [] → is_digit x = false → dec_val ds ≤ LLONG_MAX → strtoll (ds ++ x :: m) = Some (dec_val ds, length ds, false).
Proof.
  intros Hds Hne Hx Hv. destruct ds as [|d ds]; [done|]. pose proof (Forall_inv Hds) as Hd. unfold digit in Hd.
  assert (Forall (λ d, is_digit d = true) (d :: ds)) as Hds' by (eapply Forall_impl; [exact Hds|]; unfold digit, is_digit; intros; lia).
  assert (0 ≤ dec_val (d :: ds)) as Hpos.
  { assert (∀ l a, 0 ≤ a → Forall digit l → 0 ≤ dec_acc a l) as H; [|by apply H].
    induction l as [|z l IH]; intros a Ha Hl; [done|]. apply Forall_cons in Hl as [Hz Hl]. unfold digit in Hz. cbn [dec_acc foldl]. apply IH; [lia|done]. }
  unfold strtoll. cbn [app]. rewrite strtoll_spaces_ok by (unfold isspace; lia). bsimpl. cbn [head tail]. bsimpl.
  rewrite (proj2 (Z.eqb_neq d 45)), (proj2 (Z.eqb_neq d 43)) by lia. cbn [orb]. change (d :: ds ++ x :: m) with ((d :: ds) ++ x :: m).
  rewrite strtoll_digits_ok by done. bsimpl. fold (dec_val (d :: ds)). cbn [length Nat.add Nat.eqb].
  rewrite Z.gtb_ltb, (proj2 (Z.ltb_ge _ _)) by done. rewrite (proj2 (Z.ltb_ge _ _)) by (unfold LLONG_MIN; lia). done.
Qed.

Lemma strtoll_nothing m : strtoll (0 :: m) = Some (0, 0%nat, false).
Proof. done. Qed.

(** The digits of a number, and a header cut short. *)
Lemma header_digits n : 0 ≤ n ≤ LLONG_MAX → ∃ ds, printf_ld n = ds ∧ Forall digit ds ∧ ds ≠ [] ∧ dec_val ds = n ∧ len ds ≤ 20 ∧ (0 < n → head ds ≠ Some 48).
Proof.
  intros Hn. assert (LLONG_MIN ≤ n ≤ LLONG_MAX) as Hb by (unfold LLONG_MIN; lia). destruct (printf_ld_ok n Hb) as (Hr & Hl & _).
  destruct Hr as (ds & Hds & Hne & H48 & Hv & Ep). rewrite (proj2 (Z.ltb_ge n 0)) in Ep by lia. cbn [app] in Ep. exists ds. split; [done|]. split; [done|]. split; [done|].
  split; [lia|]. split; [by rewrite <- Ep|]. intros Hp E0. specialize (H48 E0). rewrite H48 in Hv. cbn in Hv. lia.
Qed.

Lemma dec_acc_grows l : Forall digit l → ∀ a, 0 ≤ a → a ≤ dec_acc a l.
Proof.
  induction 1 as [|z l Hz Hl IH]; intros a Ha; [done|]. unfold digit in Hz. cbn [dec_acc foldl]. etrans; [|apply IH; lia]. lia.
Qed.

Lemma dec_val_prefix l1 l2 : Forall digit (l1 ++ l2) → 0 ≤ dec_val l1 ≤ dec_val (l1 ++ l2).
Proof.
  intros [H1 H2]%Forall_app. unfold dec_val. rewrite dec_acc_app. pose proof (dec_acc_grows l1 H1 0 ltac:(lia)). split; [done|]. by apply dec_acc_grows.
Qed.

Lemma dec_val_positive l : Forall digit l → l ≠ [] → head l ≠ Some 48 → 1 ≤ dec_val l.
Proof.
  intros Hl Hne Hh. destruct l as [|d l]; [done|]. apply Forall_cons in Hl as [Hd Hl]. unfold digit in Hd. assert (d ≠ 48) by (intros ->; done).
  unfold dec_val. cbn [dec_acc foldl]. etrans; [|apply dec_acc_grows; [done|lia]]. lia.
Qed.

(** What is before the end of the line of a header that is cut. *)
Lemma header_cut prefix n p z r : 0 ≤ n ≤ LLONG_MAX → header prefix n = p ++ z :: r → p ≠ [] →
  ∃ ds1 ds2 tl, printf_ld n = ds1 ++ ds2 ∧ p = prefix :: ds1 ++ tl ∧ (tl = [] ∨ tl = [13] ∧ ds2 = []).
Proof.
  intros Hn Eh Hne. destruct p as [|x p]; [done|]. unfold header in Eh. cbn [app] in Eh. injection Eh as <- Eh.
  change [13; 10] with ([13] ++ [10]) in Eh. rewrite app_assoc in Eh.
  assert (∃ r', printf_ld n ++ [13] = p ++ r') as [r' Er].
  { destruct (List.exists_last (l := z :: r)) as (r' & y & Hr); [done|]. rewrite Hr, app_assoc in Eh. apply app_inj_tail in Eh as [-> _]. by exists r'. }
  destruct (app_eq_app _ _ _ _ Er) as (k & [[E1 E2]|[E1 E2]]).
  - exists p, k, []. rewrite app_nil_r. auto.
  - destruct k as [|y k]; [exists (printf_ld n), [], []; rewrite !app_nil_r in *; rewrite E1; auto|].
    cbn in E2. injection E2 as <- E2. destruct k, r'; try done. exists (printf_ld n), [], [13]. rewrite app_nil_r. rewrite E1. auto.
Qed.

Lemma mget_0 (x : Z) m : mget (x :: m) 0 = Some x.
Proof. by apply (mget_app [] m). Qed.
Lemma mget_1 (x y : Z) m : mget (x :: y :: m) 1 = Some y.
Proof. by apply (mget_app [x] m). Qed.

(** ** Arguments *)

Section reading.
Context (junk : nat → Z).

Definition says_sds (a : sdshdr) (t : list Z) : Prop := sds_text a = Some t.

Lemma digit_line prefix ds : prefix ≠ 10 → Forall digit ds → Forall (λ x, x ≠ 10) (prefix :: ds).
Proof. intros Hp Hds. constructor; [done|]. eapply Forall_impl; [exact Hds|]. unfold digit. intros; lia. Qed.

Lemma fgets_header prefix n r e : prefix ≠ 10 → 0 ≤ n ≤ LLONG_MAX → fgets 128 (mkStream (header prefix n ++ r) e) = (Some (prefix :: printf_ld n ++ [13; 10; 0]), mkStream r e).
Proof.
  intros Hp Hn. destruct (header_digits n Hn) as (ds & Ep & Hds & Hne & Hv & Hl & _). unfold header. rewrite Ep.
  replace ((prefix :: ds ++ [13; 10]) ++ r) with (((prefix :: ds) ++ [13]) ++ 10 :: r) by (cbn; by rewrite <- !app_assoc).
  rewrite fgets_line; [by cbn; rewrite <- app_assoc| |rewrite length_app; cbn; lia].
  apply Forall_app. split; [by apply digit_line|by apply Forall_singleton].
Qed.

(** A header that is cut is read whole, with the number that is left of it. *)
Lemma fgets_cut prefix n p z r e : prefix ≠ 10 → 0 ≤ n ≤ LLONG_MAX → header prefix n = p ++ z :: r → p ≠ [] →
  ∃ m v k er, p = prefix :: m ∧ fgets 128 (mkStream p e) = (Some (p ++ [0]), mkStream [] true) ∧ strtoll (m ++ [0]) = Some (v, k, er) ∧ 0 ≤ v ≤ n ∧
    (m = [] ∨ (0 < n → 1 ≤ v) ∧ ∃ d m', m = d :: m' ∧ d ≠ 0).
Proof.
  intros Hp Hn Eh Hne. destruct (header_cut _ _ _ _ _ Hn Eh Hne) as (ds1 & ds2 & tl & Ep & -> & Htl).
  destruct (header_digits n Hn) as (ds & Ed & Hds & Hds0 & Hv & Hl & Hpos). rewrite Ep in Ed. subst ds. rewrite length_app in Hl.
  exists (ds1 ++ tl). pose proof (dec_val_prefix ds1 ds2 Hds) as Hle. rewrite Hv in Hle. pose proof Hds as [Hd1 Hd2]%Forall_app.
  assert (len tl ≤ 1 ∧ Forall (λ x, x ≠ 10) tl) as [Htl1 Htl2] by (destruct Htl as [-> |[-> _]]; split; cbn; try lia; [constructor|by apply Forall_singleton]).
  assert (fgets 128 (mkStream (prefix :: ds1 ++ tl) e) = (Some ((prefix :: ds1 ++ tl) ++ [0]), mkStream [] true)) as Hg.
  { apply fgets_rest; [|cbn [length]; rewrite length_app; lia|done]. change (prefix :: ds1 ++ tl) with ((prefix :: ds1) ++ tl). apply Forall_app. split; [by apply digit_line|done]. }
  destruct ds1 as [|d ds1].
  - destruct Htl as [-> |[-> ->]]; [|done]. exists 0, 0%nat, false. split; [done|]. split; [exact Hg|]. split; [done|]. split; [lia|by left].
  - assert (∃ x, (d :: ds1) ++ tl ++ [0] = (d :: ds1) ++ x :: drop 1 (tl ++ [0]) ∧ is_digit x = false) as (x & Ex & Hx) by (destruct Htl as [-> |[-> _]]; by eexists).
    exists (dec_val (d :: ds1)), (length (d :: ds1)), false. split; [done|]. split; [exact Hg|]. split; [rewrite <- app_assoc, Ex; apply strtoll_of_digits; [done..|lia]|]. split; [done|].
    right. split; [intros Hn0; apply dec_val_positive; [done..|by apply (Hpos Hn0)]|]. exists d, (ds1 ++ tl). split; [done|]. apply Forall_inv in Hd1. unfold digit in Hd1. lia.
Qed.

Lemma sdsnewlen_none n : 0 ≤ n < 2 ^ 32 → ∃ b, sdsnewlen junk None n = Some (mkSds n 0 b) ∧ len b = n + 1 ∧ (n = 0 → b = [0]).
Proof.
  intros Hn. unfold sdsnewlen. bsimpl. unfold mset. rewrite bool_decide_eq_true_2 by (unfold zcalloc; rewrite length_replicate; lia). bsimpl. rewrite uwrap_small by lia.
  eexists. split; [done|]. split; [unfold zcalloc; rewrite length_insert, length_replicate; lia|]. by intros ->.
Qed.

(** A string takes the bytes that were read. *)
Lemma filled_ok n b t : len t = n → len b = n + 1 → ∃ b', mwrite b 0 t = Some b' ∧ says_sds (mkSds n 0 b') t.
Proof.
  intros Ht Hb. assert (∃ b1 x, b = b1 ++ [x] ∧ length b1 = length t) as (b1 & x & -> & Hl).
  { destruct (List.exists_last (l := b)) as (b1 & x & ->); [intros ->; cbn in Hb; lia|]. exists b1, x. split; [done|]. rewrite length_app in Hb. cbn in Hb. lia. }
  exists (t ++ [x]). split; [by apply (mwrite_app [] b1 [x] t 0)|]. unfold says_sds, sds_text. cbn [buf sdslen slen]. by apply (mread_app [] t [x] 0).
Qed.

Lemma u64_small n : 0 ≤ n ≤ LLONG_MAX → u64 n = n.
Proof. intros Hn. apply uwrap_small. unfold LLONG_MAX in Hn. lia. Qed.

Lemma read_arg_ok t r e : len t ≤ MAX_BULK → ∃ a, read_arg junk (mkStream (bulk t ++ r) e) = Some (RdOk a (mkStream r e)) ∧ says_sds a t.
Proof.
  intros Ht. unfold MAX_BULK in Ht. assert (0 ≤ len t ≤ LLONG_MAX) as Hn by (unfold LLONG_MAX; lia).
  unfold bulk. rewrite <- !app_assoc. unfold read_arg. rewrite fgets_header by done. bsimpl. rewrite mget_0. bsimpl.
  change (negb (36 =? 36)) with false. cbv iota. cbn [drop]. rewrite ?drop_0. destruct (header_digits (len t) Hn) as (ds & -> & Hds & Hne & Hv & Hl & _).
  rewrite (strtoll_of_digits ds 13 [10; 0]) by (done || lia). bsimpl. rewrite Hv, u64_small by done. rewrite Z.gtb_ltb, (proj2 (Z.ltb_ge _ _)) by (unfold ULLONG_MAX; lia).
  destruct (sdsnewlen_none (len t)) as (b & -> & Hb & Hb0); [lia|]. bsimpl. destruct (Z.eqb_spec (len t) 0) as [E|E]; cbn [negb].
  - destruct t; [|cbn in E; lia]. bsimpl. cbn [app]; rewrite fread_crlf. exists (mkSds 0 0 b). split; [done|]. by rewrite Hb0.
  - rewrite fread_ok by done. cbn [buf slen sfree]. destruct (filled_ok (len t) b t eq_refl Hb) as (b' & -> & Hs). bsimpl. cbn [app]; rewrite fread_crlf. by eexists.
Qed.

Lemma read_arg_cut t p z r e : len t ≤ MAX_BULK → bulk t = p ++ z :: r → ∃ f, read_arg junk (mkStream p e) = Some (RdReaderr f) ∧ feof f = true.
Proof.
  intros Ht Eb. unfold MAX_BULK in Ht. assert (0 ≤ len t ≤ LLONG_MAX) as Hn by (unfold LLONG_MAX; lia). unfold read_arg.
  destruct p as [|x p]; [eexists; split; [reflexivity|apply orb_true_r]|]. unfold bulk in Eb.
  assert ((∃ y k, header 36 (len t) = (x :: p) ++ y :: k) ∨ ∃ k, x :: p = header 36 (len t) ++ k ∧ t ++ [13; 10] = k ++ z :: r) as [(y & k & E1)|(k & -> & E2)].
  { destruct (app_eq_app _ _ _ _ Eb) as (k & [[E1 E2]|[E1 E2]]); [|by right; exists k].
    destruct k as [|y k]; [right; exists []; rewrite app_nil_r in *; by split|left; by exists y, k]. }
  - destruct (fgets_cut 36 (len t) (x :: p) y k e) as (m & v & j & er & Em & -> & Hst & Hv & _); [done..|]. injection Em as -> ->. cbn [app]; rewrite mget_0. bsimpl.
    change (negb (36 =? 36)) with false. cbv iota. cbn [drop app]. rewrite ?drop_0. rewrite Hst. bsimpl. rewrite u64_small by lia. rewrite Z.gtb_ltb, (proj2 (Z.ltb_ge _ _)) by (unfold ULLONG_MAX; lia).
    destruct (sdsnewlen_none v) as (b & -> & Hb & Hb0); [lia|]. bsimpl. destruct (Z.eqb_spec v 0) as [E|E]; cbn [negb].
    + bsimpl. by eexists.
    + rewrite fread_short by (cbn; lia). bsimpl. by eexists.
  - rewrite fgets_header by done. rewrite mget_0. bsimpl.
    change (negb (36 =? 36)) with false. cbv iota. cbn [drop]. rewrite ?drop_0. destruct (header_digits (len t) Hn) as (ds & -> & Hds & Hne & Hv & Hl & _).
    rewrite (strtoll_of_digits ds 13 [10; 0]) by (done || lia). bsimpl. rewrite Hv, u64_small by done. rewrite Z.gtb_ltb, (proj2 (Z.ltb_ge _ _)) by (unfold ULLONG_MAX; lia).
    destruct (sdsnewlen_none (len t)) as (b & -> & Hb & Hb0); [lia|]. bsimpl. pose proof (f_equal length E2) as El. rewrite !length_app in El. cbn [length] in El.
    destruct (Z.eqb_spec (len t) 0) as [E|E]; cbn [negb]; bsimpl; [rewrite fread_short by lia; by eexists|].
    destruct (decide (len k < len t)); [rewrite fread_short by done; by eexists|].
    assert (k = t ++ drop (length t) k) as Ek.
    { rewrite <- (take_drop (length t) k) at 1. f_equal. apply (f_equal (take (length t))) in E2. by rewrite take_app_length, take_app_le in E2 by lia. }
    rewrite Ek, fread_ok by done. cbn [buf slen sfree]. destruct (filled_ok (len t) b t eq_refl Hb) as (b' & -> & _). bsimpl. rewrite fread_short by (rewrite length_drop; lia). by eexists.
Qed.

(** ** Commands *)

Lemma read_argv_ok ts r e : Forall (λ t, len t ≤ MAX_BULK) ts →
  ∃ argv, read_argv junk (length ts) (mkStream (concat (bulk <$> ts) ++ r) e) = Some (RdOk argv (mkStream r e)) ∧ Forall2 says_sds argv ts.
Proof.
  induction 1 as [|t ts Ht Hts (argv & IH & Hf)]; [by exists []|]. cbn [fmap list_fmap concat length read_argv]. rewrite <- app_assoc.
  destruct (read_arg_ok t (concat (bulk <$> ts) ++ r) e Ht) as (a & -> & Ha). bsimpl. rewrite IH. bsimpl. exists (a :: argv). split; [done|by constructor].
Qed.

Lemma read_argv_cut ts p z r e : Forall (λ t, len t ≤ MAX_BULK) ts → concat (bulk <$> ts) = p ++ z :: r →
  ∃ f, read_argv junk (length ts) (mkStream p e) = Some (RdReaderr f) ∧ feof f = true.
Proof.
  intros Hts. revert p. induction Hts as [|t ts Ht Hts IH]; intros p E; [by destruct p|]. cbn [fmap list_fmap concat length read_argv] in *.
  assert ((∃ y k, bulk t = p ++ y :: k) ∨ ∃ k, p = bulk t ++ k ∧ concat (bulk <$> ts) = k ++ z :: r) as [(y & k & E1)|(k & -> & E2)].
  { destruct (app_eq_app _ _ _ _ E) as (k & [[E1 E2]|[E1 E2]]); [|by right; exists k].
    destruct k as [|y k]; [right; exists []; rewrite app_nil_r in *; by split|left; by exists y, k]. }
  - destruct (read_arg_cut t p y k e Ht E1) as (f & -> & Hf). bsimpl. by exists f.
  - destruct (read_arg_ok t k e Ht) as (a & -> & _). bsimpl. destruct (IH k E2) as (f & -> & Hf). bsimpl. by exists f.
Qed.

Lemma command_count ts : command_ok ts → 0 ≤ len ts ≤ LLONG_MAX ∧ s32 (len ts) = len ts.
Proof. intros [Hn _]. split; [unfold LLONG_MAX; lia|]. apply swrap_small; lia. Qed.

Lemma read_command_ok ts r e : command_ok ts →
  ∃ argv, read_command junk (mkStream (request ts ++ r) e) = Some (RdOk argv (mkStream r e)) ∧ Forall2 says_sds argv ts.
Proof.
  intros Hok. destruct (command_count ts Hok) as [Hn Hs]. destruct Hok as [H1 Hts]. unfold request. rewrite <- app_assoc. unfold read_command. rewrite fgets_header by done.
  rewrite mget_0. bsimpl. change (negb (42 =? 42)) with false. cbv iota. destruct (header_digits (len ts) Hn) as (ds & -> & Hds & Hne & Hv & Hl & _).
  destruct ds as [|d ds]; [done|]. cbn [app]. rewrite mget_1. bsimpl. pose proof (Forall_inv Hds) as Hd. unfold digit in Hd. rewrite (proj2 (Z.eqb_neq d 0)) by lia.
  cbn [drop]. rewrite ?drop_0. change (d :: ds ++ [13; 10; 0]) with ((d :: ds) ++ [13; 10; 0]). rewrite (strtoll_of_digits (d :: ds) 13 [10; 0]) by (done || lia). bsimpl.
  rewrite Hv, Hs, (proj2 (Z.ltb_ge _ _)) by lia. rewrite Nat2Z.id. by apply read_argv_ok.
Qed.

Lemma read_command_cut ts p z r e : command_ok ts → request ts = p ++ z :: r → p ≠ [] →
  ∃ f, read_command junk (mkStream p e) = Some (RdReaderr f) ∧ feof f = true.
Proof.
  intros Hok Er Hp. destruct (command_count ts Hok) as [Hn Hs]. pose proof Hok as [H1 Hts]. unfold request in Er.
  assert ((∃ y k, header 42 (len ts) = p ++ y :: k) ∨ ∃ k, p = header 42 (len ts) ++ k ∧ concat (bulk <$> ts) = k ++ z :: r) as [(y & k & E1)|(k & -> & E2)].
  { destruct (app_eq_app _ _ _ _ Er) as (k & [[E1 E2]|[E1 E2]]); [|by right; exists k].
    destruct k as [|y k]; [right; exists []; rewrite app_nil_r in *; by split|left; by exists y, k]. }
  - destruct (fgets_cut 42 (len ts) p y k e) as (m & v & j & er & -> & Eg & Hst & Hv & Hm); [done..|]. unfold read_command. rewrite Eg. cbn [app]. rewrite mget_0. bsimpl.
    change (negb (42 =? 42)) with false. cbv iota. destruct Hm as [-> |(Hpos & d & m' & -> & Hd)].
    + cbn [app]. rewrite mget_1. bsimpl. by eexists.
    + cbn [app]. rewrite mget_1. bsimpl. rewrite (proj2 (Z.eqb_neq d 0)) by done. cbn [drop]. rewrite ?drop_0. change (d :: m' ++ [0]) with ((d :: m') ++ [0]). rewrite Hst. bsimpl.
      assert (s32 v = v) as -> by (apply swrap_small; lia). rewrite (proj2 (Z.ltb_ge _ _)) by lia. destruct (Z.to_nat v) as [|k'] eqn:Ek; [lia|]. cbn [read_argv]. unfold read_arg. cbn. by eexists.
  - unfold read_command. rewrite fgets_header by done.
    rewrite mget_0. bsimpl. change (negb (42 =? 42)) with false. cbv iota. destruct (header_digits (len ts) Hn) as (ds & -> & Hds & Hne & Hv & Hl & _).
    destruct ds as [|d ds]; [done|]. cbn [app]. rewrite mget_1. bsimpl. pose proof (Forall_inv Hds) as Hd. unfold digit in Hd. rewrite (proj2 (Z.eqb_neq d 0)) by lia.
    cbn [drop]. rewrite ?drop_0. change (d :: ds ++ [13; 10; 0]) with ((d :: ds) ++ [13; 10; 0]). rewrite (strtoll_of_digits (d :: ds) 13 [10; 0]) by (done || lia). bsimpl.
    rewrite Hv, Hs, (proj2 (Z.ltb_ge _ _)) by lia. rewrite Nat2Z.id. by apply (read_argv_cut ts k z r).
Qed.
End reading.

(** ** Files *)

Definition file_of (l : list (list (list Z))) : list Z := concat (request <$> l).

Lemma file_of_app l1 l2 : file_of (l1 ++ l2) = file_of l1 ++ file_of l2.
Proof. unfold file_of. by rewrite fmap_app, concat_app. Qed.

(** A part of one command, with something missing. *)
Definition cut_command (q : list Z) : Prop := ∃ ts z r, command_ok ts ∧ request ts = q ++ z :: r ∧ q ≠ [].

(** The beginning of a file: whole commands, and perhaps a part of the next. *)
Lemma file_prefix l p : p `prefix_of` file_of l →
  ∃ l' q, l' `prefix_of` l ∧ p = file_of l' ++ q ∧ (q = [] ∨ ∃ ts z r, (l' ++ [ts]) `prefix_of` l ∧ request ts = q ++ z :: r ∧ q ≠ []).
Proof.
  revert p. induction l as [|ts l IH]; intros p [r E].
  - exists [], []. split; [done|]. split; [by destruct p|by left].
  - change (file_of (ts :: l)) with (request ts ++ file_of l) in E. symmetry in E.
    assert (p = [] ∨ (∃ z k, request ts = p ++ z :: k ∧ p ≠ []) ∨ ∃ k, p = request ts ++ k ∧ file_of l = k ++ r) as [-> |[(z & k & E1 & Hp)|(k & -> & E2)]].
    { destruct p as [|x p]; [by left|right]. destruct (app_eq_app _ _ _ _ E) as (k & [[E1 E2]|[E1 E2]]); [right; by exists k|].
      destruct k as [|y k]; [right; exists []; rewrite app_nil_r in *; by split|left; by exists y, k]. }
    + exists [], []. split; [apply prefix_nil|]. split; [done|by left].
    + exists [], p. split; [apply prefix_nil|]. split; [done|]. right. exists ts, z, k. split; [apply prefix_cons, prefix_nil|done].
    + destruct (IH k) as (l' & q & Hpre & -> & Hq); [by exists r|]. exists (ts :: l'), q. split; [by apply prefix_cons|]. split.
      * change (file_of (ts :: l')) with (request ts ++ file_of l'). by rewrite app_assoc.
      * destruct Hq as [-> |(u & z & r' & Hu & Hr)]; [by left|right]. exists u, z, r'. split; [by apply (prefix_cons ts)|done].
Qed.

Lemma request_length ts : command_ok ts → (0 < length (request ts))%nat.
Proof. intros _. unfold request, header. cbn. lia. Qed.

Section loading.
Context {S C : Type} (junk : nat → Z) (lookup : list Z → option C) (proc : C → S → list (list Z) → option S).
Context (in_multi : S → bool) (load_truncated can_truncate : bool).

(** The commands are known and none fails. *)
Definition run_texts (s : S) (ts : list (list Z)) : option S := name ← head ts; c ← lookup name; proc c s ts.
Fixpoint run_all (s : S) (l : list (list (list Z))) : option S := match l with [] => Some s | ts :: l => s ← run_texts s ts; run_all s l end.

Lemma run_all_app s l1 l2 : run_all s (l1 ++ l2) = s ← run_all s l1; run_all s l2.
Proof. revert s. induction l1 as [|ts l1 IH]; intros s; [done|]. cbn [app run_all]. destruct (run_texts s ts); bsimpl; [apply IH|done]. Qed.

Lemma run_command_says argv ts s s' : Forall2 says_sds argv ts → run_texts s ts = Some s' → run_command lookup proc s argv = Some (Some s').
Proof.
  intros Hf Hr. unfold run_command. assert (mapM sds_text argv = Some ts) as -> by (by apply mapM_Some). bsimpl. unfold run_texts in Hr.
  destruct (head ts) as [name|]; [|done]. cbn in Hr. bsimpl. destruct (lookup name); [|done]. cbn in Hr. by rewrite Hr.
Qed.

#[local] Abbreviation load_loop := (load_loop junk lookup proc in_multi load_truncated can_truncate).
#[local] Abbreviation load_short := (load_short load_truncated can_truncate).

Lemma load_short_eq (s : S) v v' : (load_truncated = true → v = v') → load_short s v = load_short s v'.
Proof. unfold Load.load_short. intros H. destruct load_truncated; [by rewrite H|done]. Qed.

Lemma load_loop_ok l : Forall command_ok l → ∀ fuel size s s' v q, run_all s l = Some s' → q = [] ∨ cut_command q → (length (file_of l ++ q) < fuel)%nat →
  (load_truncated = true → v = size - len (file_of l ++ q)) →
  load_loop fuel size (mkStream (file_of l ++ q) false) s v =
    Some (if bool_decide (q = []) && negb (in_multi s') then LoadOk s' else load_short s' (size - len q)).
Proof.
  induction 1 as [|ts l Hts Hl IH]; intros fuel size s s' v q Hrun Hq Hf Hv; (destruct fuel as [|fuel]; [lia|]); cbn [Load.load_loop].
  - injection Hrun as <-. change (file_of [] ++ q) with q in *. destruct Hq as [-> |(ts & z & r & Hok & Er & Hne)].
    + change (read_command junk (mkStream [] false)) with (Some (@RdEof (list sdshdr))). bsimpl. rewrite bool_decide_eq_true_2 by done. destruct (in_multi s); cbn [negb andb]; [|done]. f_equal. by apply load_short_eq.
    + destruct (read_command_cut junk ts q z r false Hok Er Hne) as (f & -> & Hfe). bsimpl. rewrite Hfe, bool_decide_eq_false_2 by done. cbn [andb]. f_equal. by apply load_short_eq.
  - change (file_of (ts :: l)) with (request ts ++ file_of l) in *. rewrite <- app_assoc in *. destruct (read_command_ok junk ts (file_of l ++ q) false Hts) as (argv & -> & Hargv). bsimpl.
    cbn [run_all] in Hrun. destruct (run_texts s ts) as [s1|] eqn:E1; [|done]. cbn in Hrun. rewrite (run_command_says argv ts s s1 Hargv E1). bsimpl. cbn [left].
    pose proof (request_length ts Hts). rewrite (length_app (request ts)) in Hf. apply IH; [done|done|lia|]. intros ->. done.
Qed.

Lemma load_file l s s' : Forall command_ok l → l ≠ [] → run_all s l = Some s' →
  loadAppendOnlyFile junk lookup proc in_multi load_truncated can_truncate (file_of l) s = Some (if in_multi s' then load_short s' (len (file_of l)) else LoadOk s').
Proof.
  intros Hl Hne Hrun. unfold loadAppendOnlyFile. assert (0 < length (file_of l))%nat as Hpos.
  { destruct l as [|ts l]; [done|]. apply Forall_cons in Hl as [Hts _]. change (file_of (ts :: l)) with (request ts ++ file_of l). rewrite length_app. pose proof (request_length ts Hts). lia. }
  rewrite (proj2 (Z.eqb_neq _ _)) by lia. pose proof (load_loop_ok l Hl (Datatypes.S (length (file_of l))) (len (file_of l)) s s' 0 [] Hrun) as H.
  rewrite app_nil_r in H. rewrite H; [|by left|lia|intros; lia]. rewrite bool_decide_eq_true_2 by done. cbn [andb negb length]. rewrite Z.sub_0_r. by destruct (in_multi s').
Qed.

Lemma load_prefix l p s s' : Forall command_ok l → run_all s l = Some s' → p `prefix_of` file_of l → p ≠ [] →
  ∃ l' q z, l' `prefix_of` l ∧ p = file_of l' ++ q ∧ run_all s l' = Some z ∧ (∀ ts, (l' ++ [ts]) `prefix_of` l → ¬ request ts `prefix_of` q) ∧
    loadAppendOnlyFile junk lookup proc in_multi load_truncated can_truncate p s =
      Some (if bool_decide (q = []) && negb (in_multi z) then LoadOk z else load_short z (len (file_of l'))).
Proof.
  intros Hl Hrun Hp Hne. destruct (file_prefix l p Hp) as (l' & q & Hpre & -> & Hq).
  assert (q = [] ∨ cut_command q) as Hcut.
  { destruct Hq as [-> |(ts & z & r & [l3 ->] & Er & Hq)]; [by left|right]. exists ts, z, r. apply Forall_app in Hl as [[_ Hts]%Forall_app _]. by apply Forall_inv in Hts. }
  assert (∀ ts, (l' ++ [ts]) `prefix_of` l → ¬ request ts `prefix_of` q) as Hmax.
  { intros ts Hts [k Ek]. destruct Hq as [-> |(ts' & z & r & Hts' & Er & Hq)]; [done|]. assert (ts' = ts) as ->.
    { destruct Hts as [k1 ->], Hts' as [k2 E2]. rewrite <- !app_assoc in E2. apply app_inv_head in E2. by injection E2. }
    rewrite Ek in Er. apply (f_equal length) in Er. rewrite !length_app in Er. cbn in Er. lia. }
  destruct Hpre as [l2 ->]. rewrite run_all_app in Hrun.
  destruct (run_all s l') as [z|] eqn:Ez; [|done]. exists l', q, z. split; [by eexists|]. split; [done|]. split; [done|]. split; [exact Hmax|]. apply Forall_app in Hl as [Hl _].
  unfold loadAppendOnlyFile. rewrite (proj2 (Z.eqb_neq _ _)) by (destruct (file_of l' ++ q); [done|cbn; lia]).
  rewrite (load_loop_ok l' Hl (Datatypes.S (length (file_of l' ++ q))) (len (file_of l' ++ q)) s z 0 q Ez Hcut); [|lia|intros; lia].
  rewrite length_app. do 2 f_equal. by replace (Z.of_nat (length (file_of l') + length q) - len q) with (len (file_of l')) by lia.
Qed.
End loading.
