(* ===== verification/AofThms.v ===== *)
(** * Properties of the append-only file

    What a command adds to the file, what the file is loaded as, and that a
    server that loads it has the keys, values and times of the one that wrote
    it. *)

From S2P Require Import Prelude Util Sds SdsText Object Number Client Table Dict Reply ReplySpec ReplyText ReplyDeferred ReplyThms Server Commands DbSpec DbOps DbKeys DbReply DbObject CommandSpec StringOps KeyOps CommandThms Observe Effects Passed CommandProps InputSpec InputStream Aof Call AofOps Replay ReplayThms Load LoadThms.
From stdpp Require Import gmap.
Local Open Scope Z_scope.

(** ** Appending *)

Definition proc_of (c : command) : aof_proc :=
  match c with
  | CExpire => ProcExpire | CPexpire => ProcPexpire | CExpireat => ProcExpireat | CSetex => ProcSetex | CPsetex => ProcPsetex
  | _ => ProcOther
  end.

(** A command that sets a time has it in its arguments, as a number. *)
Definition timed (c : command) (ts : list text) : Prop :=
  match c, ts with
  | (CExpire | CPexpire | CExpireat), [_; _; t] => is_Some (text_number t)
  | (CSetex | CPsetex), [_; _; t; _] => is_Some (text_number t)
  | (CExpire | CPexpire | CExpireat | CSetex | CPsetex), _ => False
  | _, _ => True
  end.

Section feeding.
Context {T E : Type} `{!KeyTable T addr, !KeyTable E Z, !KeyTableLaws T addr, !KeyTableLaws E Z}.
Context (env : cmd_env) {base : addr → Z} {h0 : oheap} {st0 : list item} {c0 : redisClient}.
#[local] Abbreviation junk := (e_junk env).
Abbreviation sys := (sys T E).
Abbreviation R := (R (e_malloc_size env) (e_ae_create env) base h0 st0 c0).
Context (perm : shared_perm env (h0 := h0)).
Implicit Types (s : sys) (a : kv) (args : list (addr * argument)) (tmp : list (addr * value)) (t : text) (dst : sdshdr).

Lemma expire_at_when c k t v : text_number t = Some v → expire_at (e_mstime env) c k t = [str "PEXPIREAT"; k; printf_ld (expire_when env (proc_of c) v)].
Proof. intros Hv. unfold expire_at. rewrite Hv. by destruct c. Qed.

Lemma expire_text_ok {n args tmp a s} c dst x argv ts : proc_of c = ProcExpire ∨ proc_of c = ProcPexpire ∨ proc_of c = ProcExpireat → timed c ts →
  R n args tmp a s → len tmp < 5 → Forall2 (stands args tmp) argv ts → rep dst x → fits (len x + len (file_of (translated (e_mstime env) c ts))) →
  returns (key ← lift (argv !! 1%nat); t ← lift (argv !! 2%nat); catAppendOnlyExpireAtCommand env dst (proc_of c) key t) s
    (λ dst' s', R n args tmp a s' ∧ st_db s' = st_db s ∧ rep dst' (x ++ file_of (translated (e_mstime env) c ts))).
Proof using perm KeyTableLaws0 KeyTableLaws1.
  intros Hc Ht HR Hl Hf Hrep Hfit. assert (∃ name k t v, ts = [name; k; t] ∧ text_number t = Some v ∧ translated (e_mstime env) c ts = [expire_at (e_mstime env) c k t]) as (name & k & t & v & -> & Hv & Etr).
  { destruct c; cbn in Hc; try (by destruct Hc as [?|[?|?]]); (destruct ts as [|name [|k [|t [|]]]]; try done; destruct Ht as [v Hv]; by exists name, k, t, v). }
  rewrite Etr in *. unfold file_of in *. cbn [fmap list_fmap concat] in *. rewrite app_nil_r in *. rewrite (expire_at_when c k t v Hv) in *.
  inversion_clear Hf as [|? ? ? ? _ Hf']. inversion_clear Hf' as [|? ? ? ? Hk Hf'']. inversion_clear Hf'' as [|? ? ? ? Hs _].
  eapply returns_step; [reflexivity|]. eapply returns_step; [reflexivity|]. refine (catAppendOnlyExpireAtCommand_ok env perm dst x _ _ k _ t v HR _ Hk Hs Hv Hrep Hfit). lia.
Qed.

(** [SET] and then the time. *)
Lemma setex_text_ok {n args tmp a s} proc dst x name key o val k t u v : R n args tmp a s → len tmp < 5 → stands args tmp key k → stands args tmp o t → stands args tmp val u →
  text_number t = Some v → rep dst x → fits (len x + len (request [str "SET"; k; u]) + len (request [str "PEXPIREAT"; k; printf_ld (expire_when env proc v)])) → proc = ProcSetex ∨ proc = ProcPsetex →
  returns (feed_text env proc dst [name; key; o; val]) s
    (λ dst' s', R n args tmp a s' ∧ st_db s' = st_db s ∧ rep dst' (x ++ request [str "SET"; k; u] ++ request [str "PEXPIREAT"; k; printf_ld (expire_when env proc v)])).
Proof using perm KeyTableLaws0 KeyTableLaws1.
  intros HR Hl Hk Ho Hu Hv Hrep Hfit Hc.
  assert (returns (a0 ← on_heap (λ h, createStringObject junk h (str "SET" ++ [0]) 3);
    dst ← catAppendOnlyGenericCommand env dst [a0; key; val]; upd_heap (λ h, decrRefCount h a0);; catAppendOnlyExpireAtCommand env dst proc key o) s
    (λ dst' s', R n args tmp a s' ∧ st_db s' = st_db s ∧ rep dst' (x ++ request [str "SET"; k; u] ++ request [str "PEXPIREAT"; k; printf_ld (expire_when env proc v)]))) as Hmain.
  { eapply returns_bind; [refine (create_text_ok env (str "SET") HR _ _); [by vm_compute|lia]|]. intros a0 s1 [HR1 E1].
    eapply returns_bind; [refine (catAppendOnlyGenericCommand_ok env dst x [a0; key; val] [str "SET"; k; u] HR1 _ _ Hrep _)|].
    { cbn [length]. lia. }
    { apply Forall2_cons_2; [right; left|]. apply Forall2_cons_2; [refine (stands_more _ tmp _ _ _ _ Hk); intros; by right|].
      apply Forall2_cons_2; [refine (stands_more _ tmp _ _ _ _ Hu); intros; by right|by apply Forall2_nil]. }
    { unfold fits in *. lia. }
    intros d s2 (HR2 & E2 & Hd). eapply returns_bind; [exact (decr_ok a0 _ HR2)|]. intros [] s3 (HR3 & E3 & _).
    eapply returns_mono; [refine (catAppendOnlyExpireAtCommand_ok env perm d _ proc key k o t v HR3 _ Hk Ho Hv Hd _); [lia|rewrite length_app; unfold fits in *; lia]|].
    intros d' s4 (HR4 & E4 & Hd'). split; [exact HR4|]. split; [congruence|]. by rewrite <- app_assoc in Hd'. }
  by destruct Hc as [-> | ->].
Qed.

Lemma feed_text_ok {n args tmp a s} c dst x argv ts : timed c ts → R n args tmp a s → len tmp < 5 → Forall2 (stands args tmp) argv ts → rep dst x →
  fits (len x + len (file_of (translated (e_mstime env) c ts))) →
  returns (feed_text env (proc_of c) dst argv) s (λ dst' s', R n args tmp a s' ∧ st_db s' = st_db s ∧ rep dst' (x ++ file_of (translated (e_mstime env) c ts))).
Proof using perm KeyTableLaws0 KeyTableLaws1.
  intros Ht HR Hl Hf Hrep Hfit.
  destruct (decide (c = CSetex ∨ c = CPsetex)) as [Hc|Hc].
  - assert (proc_of c = ProcSetex ∨ proc_of c = ProcPsetex) as Hp by (destruct Hc as [-> | ->]; auto).
    assert (∃ name k t u v, ts = [name; k; t; u] ∧ text_number t = Some v ∧ translated (e_mstime env) c ts = [[str "SET"; k; u]; expire_at (e_mstime env) c k t]) as (name & k & t & u & v & -> & Hv & Etr).
    { destruct Hc as [-> | ->]; (destruct ts as [|name [|k [|t [|u [|]]]]]; try done; destruct Ht as [v Hv]; by exists name, k, t, u, v). }
    rewrite Etr in *. unfold file_of in *. cbn [fmap list_fmap concat] in *. rewrite app_nil_r in *. rewrite (expire_at_when c k t v Hv) in *. rewrite length_app in Hfit.
    inversion_clear Hf as [|? ? ? ? _ Hf']. inversion_clear Hf' as [|? ? ? ? Hk Hf'']. inversion_clear Hf'' as [|? ? ? ? Hs Hf3]. inversion_clear Hf3 as [|? ? ? ? Hu Hf4]. inversion_clear Hf4.
    refine (setex_text_ok (proc_of c) dst x _ _ _ _ k t u v HR Hl Hk Hs Hu Hv Hrep _ Hp). unfold fits in *. lia.
  - destruct (decide (proc_of c = ProcOther)) as [Eo|Eo].
    + assert (translated (e_mstime env) c ts = [ts]) as Etr by (by destruct c). rewrite Etr in *. unfold file_of in *. cbn [fmap list_fmap concat] in *. rewrite app_nil_r in *.
      rewrite Eo. refine (catAppendOnlyGenericCommand_ok env dst x argv ts HR _ Hf Hrep Hfit). lia.
    + assert (proc_of c = ProcExpire ∨ proc_of c = ProcPexpire ∨ proc_of c = ProcExpireat) as Hp by (destruct c; cbn in *; tauto).
      assert (feed_text env (proc_of c) dst argv = (key ← lift (argv !! 1%nat); t ← lift (argv !! 2%nat); catAppendOnlyExpireAtCommand env dst (proc_of c) key t)) as -> by (by destruct Hp as [->|[-> | ->]]).
      by eapply expire_text_ok.
Qed.

Lemma feed_ok {n args tmp a s} A c dictid argv ts x y : let w := file_of (selects A dictid ++ translated (e_mstime env) c ts) in
  timed c ts → R n args tmp a s → len tmp < 5 → Forall2 (stands args tmp) argv ts → LLONG_MIN ≤ dictid ≤ LLONG_MAX → aof_says A x y → fits (len x + len w) →
  returns (feedAppendOnlyFile env A (proc_of c) dictid argv) s (λ A' s', R n args tmp a s' ∧ st_db s' = st_db s ∧ appended A A' dictid ∧
    aof_says A' (if aof_state A =? REDIS_AOF_ON then x ++ w else x) (if aof_child A then y ++ w else y)).
Proof using perm KeyTableLaws0 KeyTableLaws1.
  intros w Ht HR Hl Hf Hd [Hb Hbl Hc] Hfit. unfold w in *. rewrite file_of_app in *. rewrite length_app in Hfit. set (w1 := file_of (selects A dictid)) in *. set (w2 := file_of (translated _ _ _)) in *.
  unfold feedAppendOnlyFile. destruct (sdsempty_ok junk) as (d0 & E0 & Hd0). eapply returns_step; [unfold lift; rewrite E0; reflexivity|].
  destruct (cat_select_ok env A d0 dictid Hd0 Hd) as (d1 & E1 & Hd1). fold (file_of (selects A dictid)) in Hd1. fold w1 in Hd1. eapply returns_step; [unfold lift; rewrite E1; reflexivity|]. cbv beta iota.
  eapply returns_bind; [refine (feed_text_ok c d1 w1 argv ts Ht HR Hl Hf Hd1 _); fold w2; unfold fits in *; lia|]. fold w2. intros d2 s1 (HR1 & Edb & (r & -> & Hr)).
  cbn [aof_state aof_child aof_buf aof_rewrite_buf_blocks aof_selected_db buf sdslen slen].
  eapply (returns_bind _ _ _ _ (λ b s', s' = s1 ∧ rep b (if aof_state A =? REDIS_AOF_ON then x ++ w1 ++ w2 else x))).
  { destruct (aof_state A =? REDIS_AOF_ON); [|by apply returns_ret]. destruct (sdscatlen_ok junk (aof_buf A) x (w1 ++ w2) (0 :: r) (len (w1 ++ w2)) Hb eq_refl) as (b & Eb & Hb'); [rewrite length_app; unfold fits in *; lia|].
    by eapply returns_lift. }
  intros b s2 [-> Hb']. eapply (returns_bind _ _ _ _ (λ bl s', s' = s1 ∧ blocks_ok bl ∧ contents bl = (if aof_child A then y ++ w1 ++ w2 else y))).
  { destruct (aof_child A); [|by apply returns_ret]. destruct (aofRewriteBufferAppend_ok junk (aof_rewrite_buf_blocks A) (w1 ++ w2) (0 :: r) (len (w1 ++ w2)) Hbl eq_refl) as (bl & Ebl & Hbl' & Hct); [rewrite length_app; unfold fits in *; lia|].
    eapply returns_lift; [exact Ebl|]. split; [done|]. split; [done|]. by rewrite Hct, Hc. }
  intros bl s2 (-> & Hbl' & Hct). apply returns_ret. split; [exact HR1|]. split; [done|]. split; [done|]. by split.
Qed.
End feeding.

(** ** Loading *)

(** What the loader runs, besides the commands: [SELECT], of which there is one
    database, and the two that enclose a transaction. *)
Inductive load_command := LoadSelect | LoadMulti | LoadExec | LoadCommand (c : command).

Definition load_lookup (t : text) : option load_command :=
  let t' := tolower <$> t in
  if bool_decide (t' = str "select") then Some LoadSelect
  else if bool_decide (t' = str "multi") then Some LoadMulti
  else if bool_decide (t' = str "exec") then Some LoadExec
  else LoadCommand <$> named t.

(** The handlers are called directly, with the client's [REDIS_MULTI]: nothing is
    queued, so [EXEC] finds no commands and ends the transaction.  A server that
    loads has nothing expire on its own. *)
Definition load_proc (now : Z) (c : load_command) (s : kv * bool) (ts : list text) : option (kv * bool) :=
  match c with
  | LoadSelect => Some s
  | LoadMulti => Some (s.1, true)
  | LoadExec => Some (s.1, false)
  | LoadCommand c => Some ((exec now true false c ts s.1).1, s.2)
  end.

Definition select0 : list text := [str "SELECT"; str "0"].
Definition bracket (open : bool) : list text := [str (if open then "MULTI" else "EXEC")].

Lemma load_lookup_named t c : named t = Some c → load_lookup t = Some (LoadCommand c).
Proof.
  intros H. unfold load_lookup. cbv zeta. rewrite !bool_decide_eq_false_2; [by rewrite H|..]; intros Es; unfold named in H; rewrite Es in H; by vm_compute in H.
Qed.

Lemma run_all_replay now l : ∀ a m z, replay now a l = Some z → run_all load_lookup (load_proc now) (a, m) l = Some (z, m).
Proof.
  induction l as [|ts l IH]; intros a m z; [by intros [= ->]|]. rewrite replay_cons. cbn [run_all]. destruct (replay1 now a ts) as [b|] eqn:E1; [|done]. bsimpl. intros Hz.
  assert (run_texts load_lookup (load_proc now) (a, m) ts = Some (b, m)) as ->; [|bsimpl; by apply IH].
  unfold replay1 in E1. destruct ts as [|name ts]; [done|]. destruct (named name) as [c|] eqn:En; [|done]. cbn in E1. injection E1 as <-. unfold run_texts. cbn [head]. bsimpl. by rewrite (load_lookup_named _ _ En).
Qed.

Lemma run_bracket now s (open : bool) : run_texts load_lookup (load_proc now) s (bracket open) = Some (s.1, open).
Proof. by destruct open. Qed.

Lemma select0_ok : command_ok select0.
Proof. split; [vm_compute; by split|]. by apply (bool_decide_unpack _); vm_compute. Qed.

(** What a server that logs its commands did since it started empty: commands at
    any time, of any client, each with the reply to it alone; [m]: inside a
    transaction. *)
Inductive history : kv → bool → list (list text) → Prop :=
  | history_start a : vals a = ∅ → exps a = ∅ → history a false []
  | history_step mstime c ts a m b log : history a m log → same a b → cmd_name b = cname c → well_formed c ts → absolute c ts →
      history (CommandThms.exec mstime false false c ts b).1 m (log ++ logged mstime c ts b)
  | history_bracket open a log : history a (negb open) log → history a open (log ++ [bracket open]).

Lemma history_closed a m log : history a m log → closed a.
Proof.
  induction 1 as [a Ev Ee|mstime c ts a m b log _ IH Hs _ _ _|open a log _ IH]; [|apply exec_closed; by apply (closed_same a)|done].
  intros k. rewrite Ee, lookup_empty. by intros [].
Qed.

Lemma history_replayed now a m log : history a m log → ∀ e, vals e = ∅ → exps e = ∅ →
  ∃ z, run_all load_lookup (load_proc now) (e, false) log = Some (z, m) ∧ same a z ∧ closed z.
Proof.
  induction 1 as [a Ev Ee|mstime c ts a m b log Hh IH Hs Hname Hw Habs|open a log _ IH]; intros e Hv He.
  - exists e. split; [done|]. split; [split; congruence|]. intros k. rewrite He, lookup_empty. by intros [].
  - destruct (IH e Hv He) as (y & Ey & Hy & Hcy). rewrite run_all_app, Ey. bsimpl. assert (closed b) as Hcb by (by apply (closed_same a), (history_closed a m log)).
    destruct (logged_ok now mstime c ts b y Hcb Hcy) as (z & Ez & Hz); [etrans; [by symmetry|exact Hy]|done..|]. exists z. split; [by apply run_all_replay|]. split; [done|]. exact (replay_closed now _ _ _ Hcy Ez).
  - destruct (IH e Hv He) as (y & Ey & Hy & Hcy). rewrite run_all_app, Ey. bsimpl. cbn [run_all]. rewrite run_bracket. by exists y.
Qed.

(** ** Names *)

Section names.
Context (m : Z) (l h : bool).
Implicit Types (a : kv) (k t v : text) (ts : list text).

Lemma name_purge k a : cmd_name (purge m l h k a) = cmd_name a.
Proof. by destruct (purge_rest m l h k a) as (_ & -> & _). Qed.

Lemma name_foldl {A} (f : kv → A → kv) s a : (∀ a x, cmd_name (f a x) = cmd_name a) → cmd_name (foldl f a s) = cmd_name a.
Proof. intros Hf. revert a. induction s as [|x s IH]; intros a; [done|]. cbn [foldl]. by rewrite IH, Hf. Qed.

Lemma name_foldl_fst {A B} (f : kv * B → A → kv * B) s p : (∀ p x, cmd_name (f p x).1 = cmd_name p.1) → cmd_name (foldl f p s).1 = cmd_name p.1.
Proof. intros Hf. revert p. induction s as [|x s IH]; intros p; [done|]. cbn [foldl]. by rewrite IH, Hf. Qed.

Ltac names := unfold set_key, notify, modified, wrote, put_val, set_vals, set_exps; cbn [cmd_name replied more_dirty event_of del_key fst]; rewrite ?name_purge; try done.

Lemma name_set k (x : value) a : cmd_name (set_key m l h k x a) = cmd_name a.
Proof. unfold set_key. names. Qed.

Lemma name_store k v e ok a : cmd_name (store m l h k v e ok a) = cmd_name a.
Proof. unfold store. destruct e; cbn; by rewrite name_purge. Qed.

Lemma name_set_generic flags k v e u ok abort a : cmd_name (set_generic m l h flags k v e u ok abort a) = cmd_name a.
Proof.
  unfold set_generic. assert (cmd_name (refused m l h flags k a).1 = cmd_name a) as Hr.
  { unfold refused. destruct (negb _), (negb _); cbn [andb]; repeat (destruct (present _ _); cbn [fst]); names. }
  destruct (time_to_live e u a) as [b|ms] eqn:Et.
  - unfold time_to_live in Et. destruct e as [t|]; [|done]. destruct (text_number t) as [n|]; [destruct (n <=? 0)|]; [by injection Et as <-|done|by injection Et as <-].
  - destruct (refused m l h flags k a) as [b no]. cbn [fst] in Hr. destruct no; [names|]. by rewrite name_store.
Qed.

Lemma name_incr n k a : cmd_name (spec_incr m l h n k a) = cmd_name a.
Proof.
  unfold spec_incr, add_to_counter. cbv zeta. destruct (vals _ !! k) as [[]|]; [destruct (counter _); [destruct (_ || _)|]|..|destruct (counter _); [destruct (_ || _)|]]; names.
Qed.

Lemma name_del ks a : cmd_name (spec_del m l h ks a) = cmd_name a.
Proof.
  unfold spec_del. assert (cmd_name (foldl (del_one m l h) (a, 0) ks).1 = cmd_name a) as Hd; [|by destruct (foldl _ _ _)].
  apply (name_foldl_fst _ _ (a, 0)). intros p k. unfold del_one. cbv zeta. destruct (present _ _); names.
Qed.

Lemma name_mset nx s a : cmd_name (spec_mset m l h nx s a) = cmd_name a.
Proof.
  unfold spec_mset. destruct (Nat.odd _); [names|].
  assert (cmd_name (if nx then busy m l h (pairs s).*1 a else (a, false)).1 = cmd_name a) as Hb.
  { destruct nx; [|done]. unfold busy. apply (name_foldl_fst _ _ (a, false)). intros [b z] x. names. }
  destruct (if nx then _ else _) as [b no]. cbn [fst] in Hb. destruct no; [names|]. cbn [cmd_name replied more_dirty]. rewrite name_foldl; [done|].
  intros c [k v]. unfold mset_pair. names.
Qed.

Lemma name_mget s a : cmd_name (spec_mget m l h s a) = cmd_name a.
Proof. unfold spec_mget. rewrite name_foldl; [done|]. intros b k. unfold mget_key. names. Qed.

(** A command that sets a time on a key. *)
Definition expires_key (c : command) : bool := match c with CExpire | CExpireat | CPexpire | CPexpireat => true | _ => false end.

(** Only a time that is past changes the name, that of [EXPIRE] to [DEL]. *)
Lemma exec_name c ts a : expires_key c = false → cmd_name (exec m l h c ts a).1 = cmd_name a.
Proof.
  intros Hc. unfold exec.
  destruct c; try discriminate Hc; clear Hc; try (destruct ts as [|? ts]; [done|]; cbn [fst]; first [apply name_del|apply name_mget|apply name_mset]);
    repeat (destruct ts as [|? ts]; [done|]); try (destruct ts as [|? ts]; [|done]); cbn [fst].
  all: try apply name_set_generic; try apply name_incr.
  - unfold spec_get. names.
  - unfold spec_set. destruct (options _ _ _ _) as [[[flags e] u]|]; [apply name_set_generic|names].
  - unfold spec_append. cbv zeta. destruct (vals _ !! _) as [[]|]; [destruct (_ >? _)|..]; names.
  - unfold spec_strlen. names.
  - unfold spec_exists. names.
  - unfold spec_setrange. destruct (text_number _); [|names]. destruct (_ <? 0); [names|]. cbv zeta.
    destruct (vals _ !! _) as [[]|]; try names; (destruct (bool_decide _); [names|]; destruct (_ >? _); names).
  - unfold spec_getrange. destruct (text_number _) as [i|]; [|names]. destruct (text_number _) as [j|]; names.
  - unfold spec_incrby. destruct (text_number _); [apply name_incr|names].
  - unfold spec_incrby. destruct (text_number _); [apply name_incr|names].
  - unfold spec_getset, spec_get. cbv zeta. destruct (vals _ !! _) as [[]|]; names; unfold spec_get; names.
  - unfold spec_ttl. names.
  - unfold spec_ttl. names.
  - unfold spec_persist. destruct (_ && _); names.
Qed.

Lemma proc_cname c : proc_named (cname c) = proc_of c.
Proof. by destruct c. Qed.

(** What is propagated has the time it is translated with. *)
Lemma exec_timed c ts a : cmd_name a = cname c → arity_ok c (len ts) = true → let r := exec m l h c ts a in dirty r.1 ≠ dirty a →
  ∃ c', named (cmd_name r.1) = Some c' ∧ cmd_name r.1 = cname c' ∧ timed c' r.2.
Proof.
  intros Hn Har. cbv zeta. assert (∀ z, arity c = z → 0 < z → len ts = z) as Hlen by (intros z; by apply arity_exact). destruct (expires_key c) eqn:Ex.
  - assert (∃ b u name k t, ts = [name; k; t] ∧ exec m l h c ts a = expire_of m l h b u ts k t a) as (b & u & name & k & t & -> & Ee).
    { destruct c; try discriminate Ex; cbn [arity] in Hlen; specialize (Hlen _ eq_refl eq_refl); (destruct ts as [|name [|k [|t [|]]]]; cbn [length] in Hlen; try lia); by eexists _, _, name, k, t. }
    rewrite Ee. unfold expire_of, spec_expire. destruct (text_number t) as [n|] eqn:Et; [|done]. cbv zeta. destruct (negb (present k _)); [cbn; by rewrite dirty_purge|].
    destruct (_ && negb h); cbn [fst snd expire_texts]; intros _.
    + exists CDel. by split.
    + exists c. cbn [cmd_name more_dirty notify event_of modified replied set_exps]. rewrite name_purge, Hn. split; [by apply named_cname|]. split; [done|]. destruct c; try done; cbn; by rewrite Et.
  - intros Hd. exists c. rewrite exec_name, Hn by done. split; [by apply named_cname|]. split; [done|].
    destruct c; try done; cbn [arity] in Hlen; specialize (Hlen _ eq_refl eq_refl); (destruct ts as [|name [|k [|t [|v [|]]]]]; cbn [length] in Hlen; try lia); cbn [CommandThms.exec fst snd] in *;
      unfold set_generic, time_to_live in Hd; cbn; (destruct (text_number t); [done|done]).
Qed.
End names.

(** ** Theorems *)

Section theorems.
Context {T E : Type} `{!KeyTable T addr, !KeyTable E Z, !KeyTableLaws T addr, !KeyTableLaws E Z}.
Context (env : cmd_env) (base : addr → Z) (h0 : oheap) (st0 : list item) (c0 : redisClient).
Abbreviation R := (R (e_malloc_size env) (e_ae_create env) base h0 st0 c0).
Abbreviation ready := (ready env base h0 st0 c0).
Abbreviation exec := (exec (e_mstime env) (e_loading env) (e_masterhost env)).
Implicit Types s : sys T E.

(** A [SELECT] before the first command, if it is for another database. *)
Definition with_select (A : aof_server) (dbid : Z) (l : list (list text)) : list (list text) := match l with [] => [] | _ => selects A dbid ++ l end.

Lemma args_stand (args : list (addr * argument)) : Forall2 (stands args []) args.*1 (texts args).
Proof.
  assert (∀ l, (∀ p, p ∈ l → p ∈ args) → Forall2 (stands args []) l.*1 (texts l)) as H; [|by apply H].
  induction l as [|[o x] l IH]; intros Hin; [constructor|]. cbn. constructor; [left; exists x; split; [|done]; apply Hin; left|]. apply IH. intros p Hp. apply Hin. by right.
Qed.

(** The buffers once [w] was appended: the buffer while appending is on, the
    rewrite buffer while the file is rewritten. *)
Definition buf_after (A : aof_server) (x w : list Z) : list Z := if aof_state A =? REDIS_AOF_ON then x ++ w else x.
Definition rewrite_after (A : aof_server) (y w : list Z) : list Z := if (aof_state A =? REDIS_AOF_OFF) || negb (aof_child A) then y else y ++ w.

Record grown (A : aof_server) (x y w : list Z) (A' : aof_server) : Prop := {
  grown_state : aof_state A' = aof_state A;
  grown_child : aof_child A' = aof_child A;
  grown_says : aof_says A' (buf_after A x w) (rewrite_after A y w)
}.

Lemma grown_nothing A x y w : aof_says A x y → w = [] ∨ aof_state A = REDIS_AOF_OFF → grown A x y w A.
Proof. intros HA [-> |Eo]; (split; [done|done|]); unfold buf_after, rewrite_after; [rewrite !app_nil_r; by destruct (_ =? _), (_ || _)|rewrite Eo; exact HA]. Qed.

Lemma grown_trans A1 A2 A3 x y w1 w2 : grown A1 x y w1 A2 → grown A2 (buf_after A1 x w1) (rewrite_after A1 y w1) w2 A3 → grown A1 x y (w1 ++ w2) A3.
Proof.
  intros [S1 C1 H1] [S2 C2 H2]. unfold buf_after, rewrite_after in *. rewrite S1, C1 in *. split; [done|done|]. revert H2. unfold buf_after, rewrite_after. destruct (_ =? REDIS_AOF_ON), (_ || _); by rewrite ?app_assoc.
Qed.

Lemma fits_after A x w1 w2 : fits (len x + len (w1 ++ w2)) → fits (len x + len w1) ∧ fits (len (buf_after A x w1) + len w2).
Proof. unfold buf_after. rewrite length_app. intros Hf. split; [|destruct (_ =? _); rewrite ?length_app]; unfold fits in *; lia. Qed.

(** Once something was fed, nothing is selected. *)
Definition selected (A A' : aof_server) (dbid : Z) (l : list (list text)) : Prop :=
  aof_selected_db A' = match l with [] => aof_selected_db A | _ => dbid end.

Lemma with_select_app A A' dbid l1 l2 : selected A A' dbid l1 → with_select A dbid (l1 ++ l2) = with_select A dbid l1 ++ with_select A' dbid l2.
Proof.
  unfold selected, with_select, selects. destruct l1 as [|t1 l1]; cbn [app]; intros ->; [done|]. rewrite Z.eqb_refl. by destruct l2; cbn [app]; rewrite ?app_nil_r, <- ?app_assoc.
Qed.

(** A command that is fed while appending is on, or waits for it. *)
Lemma feed_grown {n args tmp a s} A c dbid argv ts x y : env_ok env h0 → timed c ts → R n args tmp a s → len tmp < 5 → Forall2 (stands args tmp) argv ts → LLONG_MIN ≤ dbid ≤ LLONG_MAX →
  aof_state A ≠ REDIS_AOF_OFF → aof_says A x y → let w := file_of (selects A dbid ++ translated (e_mstime env) c ts) in fits (len x + len w) →
  returns (feedAppendOnlyFile env A (proc_of c) dbid argv) s (λ A' s', R n args tmp a s' ∧ grown A x y w A' ∧ aof_selected_db A' = dbid).
Proof using KeyTableLaws0 KeyTableLaws1.
  intros He Ht HR Hl Hf Hd Eo HA w Hfit. eapply returns_mono; [exact (feed_ok env (env_shared _ _ He) A c dbid argv ts x y Ht HR Hl Hf Hd HA Hfit)|].
  intros A' s' (HR' & _ & (E1 & E2 & E3) & HA'). split; [exact HR'|]. split; [|done]. split; [done|done|]. unfold buf_after, rewrite_after. rewrite (proj2 (Z.eqb_neq (aof_state A) REDIS_AOF_OFF)) by done. cbn [orb]. by destruct (aof_child A).
Qed.

Lemma feed_deletion_ok {n args a s} A dbid k x y : env_ok env h0 → R n args [] a s → len k ≤ MAX_STRING → LLONG_MIN ≤ dbid ≤ LLONG_MAX → aof_state A ≠ REDIS_AOF_OFF → aof_says A x y →
  let w := file_of (with_select A dbid [deletion k]) in fits (len x + len w) →
  returns (feed_deletion env A dbid (str "DEL") k) s (λ A' s', R n args [] a s' ∧ grown A x y w A' ∧ aof_selected_db A' = dbid).
Proof using KeyTableLaws0 KeyTableLaws1.
  intros He HR Hk Hd Eo HA w Hfit. unfold feed_deletion. rewrite (proj2 (Z.eqb_neq (aof_state A) REDIS_AOF_OFF)) by done. cbn [negb].
  eapply returns_bind; [refine (create_text_ok env (str "DEL") HR _ _); [by vm_compute|cbn; lia]|]. intros o1 s1 [HR1 _].
  eapply returns_bind; [refine (create_text_ok env k HR1 Hk _); cbn; lia|]. intros o2 s2 [HR2 _].
  eapply returns_bind; [refine (feed_grown A CDel dbid [o1; o2] (deletion k) x y He I HR2 _ _ Hd Eo HA Hfit)|].
  { cbn. lia. }
  { apply Forall2_cons_2; [right; right; left|]. apply Forall2_cons_2; [right; left|]. by apply Forall2_nil. }
  intros A' s3 (HR3 & HG & Hsel). eapply returns_bind; [exact (decr_ok o2 _ HR3)|]. intros [] s4 (HR4 & _). eapply returns_bind; [exact (decr_ok o1 _ HR4)|]. intros [] s5 (HR5 & _).
  apply returns_ret. by split.
Qed.

Lemma feed_deletions_ok ks : ∀ {n args a s} A dbid x y, env_ok env h0 → R n args [] a s → Forall (λ k, len k ≤ MAX_STRING) ks → LLONG_MIN ≤ dbid ≤ LLONG_MAX → aof_state A ≠ REDIS_AOF_OFF → aof_says A x y →
  let w := file_of (with_select A dbid (deletion <$> ks)) in fits (len x + len w) →
  returns (feed_deletions env A dbid (deletion <$> ks)) s (λ A' s', R n args [] a s' ∧ grown A x y w A' ∧ selected A A' dbid (deletion <$> ks)).
Proof using KeyTableLaws0 KeyTableLaws1.
  induction ks as [|k ks IH]; intros n args a s A dbid x y He HR Hk Hd Eo HA w Hfit; cbn [fmap list_fmap feed_deletions].
  - apply returns_ret. split; [exact HR|]. split; [by apply grown_nothing; [|left]|done].
  - apply Forall_cons in Hk as [Hk Hks]. unfold w in *. clear w.
    assert (∀ A1, aof_selected_db A1 = dbid → file_of (with_select A dbid (deletion <$> k :: ks)) = file_of (with_select A dbid [deletion k]) ++ file_of (with_select A1 dbid (deletion <$> ks))) as Ew
      by (intros A1 E1; rewrite <- file_of_app; f_equal; by apply (with_select_app A A1 dbid [deletion k])).
    pose proof Hfit as Hfit1. rewrite (Ew (mkAof 0 dbid (aof_buf A) false [])) in Hfit1 by done. apply (fits_after A) in Hfit1 as [Hfit1 _].
    eapply returns_bind; [exact (feed_deletion_ok A dbid k x y He HR Hk Hd Eo HA Hfit1)|]. intros A1 s1 (HR1 & HG1 & Hsel1).
    rewrite (Ew A1 Hsel1) in Hfit |- *. apply (fits_after A) in Hfit as [_ Hfit]. pose proof HG1 as [S1 C1 HA1].
    eapply returns_mono; [refine (IH n args a s1 A1 dbid _ _ He HR1 Hks Hd _ HA1 Hfit); by rewrite S1|].
    intros A2 s2 (HR2 & HG2 & Hsel2). split; [exact HR2|]. split; [by eapply grown_trans|]. unfold selected in *. rewrite Hsel2. by destruct ks.
Qed.
(** What the handler passed on while it ran. *)
Lemma handler_deletions c n args a s s1 args1 : R n args [] a s → R (n - cost args) args1 [] (exec c (texts args) a).1 s1 →
  ∃ ks, deletions (drop (length (st_events s)) (st_events s1)) = deletion <$> ks ∧ Forall (λ k, len k ≤ MAX_STRING) ks ∧
    deletions (drop (length (events a)) (events (exec c (texts args) a).1)) = deletion <$> ks.
Proof using Type.
  intros HR HR1. destruct (exec_passes (e_mstime env) (e_loading env) (e_masterhost env) c (texts args) a) as (ev & ks & Ee & Ed & Hin). exists ks.
  rewrite (R_events HR), (R_events HR1), Ee, drop_app_length. split; [done|]. split; [|done]. apply Forall_forall. intros k (x & -> & Hx)%Hin%list_elem_of_fmap.
  apply list_elem_of_fmap in Hx as ([o y] & -> & Hp). pose proof (R_args HR) as Ha. rewrite Forall_forall in Ha. by destruct (Ha _ Hp) as (ob & _ & _ & _ & Hl).
Qed.

(** What it is propagated as, once it ran. *)
Lemma propagate_ok c n args args1 a s1 A dbid x y : env_ok env h0 → cmd_name a = cname c → arity_ok c (len (texts args)) = true → R n args1 [] (exec c (texts args) a).1 s1 → texts args1 = (exec c (texts args) a).2 →
  LLONG_MIN ≤ dbid ≤ LLONG_MAX → aof_says A x y → dirty (exec c (texts args) a).1 ≠ dirty a → aof_state A ≠ REDIS_AOF_OFF →
  let w := file_of (selects A dbid ++ translated (e_mstime env) (default c (named (cmd_name (exec c (texts args) a).1))) (exec c (texts args) a).2) in fits (len x + len w) →
  returns (propagate env A (proc_named (st_cmd s1)) dbid (st_argv s1) 3) s1 (λ A' s', R n args1 [] (exec c (texts args) a).1 s' ∧ grown A x y w A' ∧ aof_selected_db A' = dbid).
Proof using KeyTableLaws0 KeyTableLaws1.
  intros He Hname Har HR1 Et1 Hd HA Hdirty Eo w Hfit. pose proof (exec_timed (e_mstime env) (e_loading env) (e_masterhost env) c (texts args) a Hname) as Htimed. cbv zeta in Htimed.
  destruct (Htimed Har Hdirty) as (c' & Hc' & Hnm & Ht). unfold propagate. change (Z.land 3 REDIS_PROPAGATE_AOF =? 0) with false. rewrite (proj2 (Z.eqb_neq (aof_state A) REDIS_AOF_OFF)) by done. cbn [negb andb].
  rewrite (R_cmd HR1), Hnm, proc_cname, (R_argv HR1). unfold w in *. rewrite Hnm, named_cname in *. cbn [default] in *. rewrite <- Et1 in *.
  refine (feed_grown A c' dbid args1.*1 (texts args1) x y He Ht HR1 _ _ Hd Eo HA Hfit); [done|apply args_stand].
Qed.

Lemma translated_some m c ts : translated m c ts ≠ [].
Proof. destruct c, ts as [|? [|? [|? [|? ?]]]]; discriminate. Qed.

Lemma feed_deletions_off ks A dbid s : aof_state A = REDIS_AOF_OFF → feed_deletions env A dbid (deletion <$> ks) s = Some (A, s).
Proof using Type. intros Eo. induction ks as [|k ks IH]; [done|]. cbn [fmap list_fmap feed_deletions deletion]. unfold feed_deletion. rewrite Eo. exact IH. Qed.

(** The log is what the deletions and the propagation append. *)
Lemma call_log_app c ts a A dbid ks : deletions (drop (length (events a)) (events (exec c ts a).1)) = deletion <$> ks →
  let l := logged_on (e_mstime env) (e_loading env) (e_masterhost env) c ts a in
  l = (deletion <$> ks) ++ (if dirty (exec c ts a).1 =? dirty a then [] else translated (e_mstime env) (default c (named (cmd_name (exec c ts a).1))) (exec c ts a).2) ∧
  ∀ A1, selected A A1 dbid (deletion <$> ks) → with_select A dbid l = with_select A dbid (deletion <$> ks) ++ with_select A1 dbid (drop (length ks) l).
Proof using Type.
  intros Ed l. assert (l = (deletion <$> ks) ++ (if dirty (exec c ts a).1 =? dirty a then [] else translated (e_mstime env) (default c (named (cmd_name (exec c ts a).1))) (exec c ts a).2)) as El
    by (unfold l, logged_on; by rewrite Ed). split; [exact El|]. intros A1 HA1. rewrite El. rewrite (with_select_app A A1) by done. f_equal. f_equal.
  rewrite drop_app_length'; [done|by rewrite length_fmap].
Qed.

(** The rest of [call], after the handler. *)
Lemma after_handler_ok c n args args1 a s s1 A dbid x y : env_ok env h0 → ready c n args a s → cmd_name a = cname c → LLONG_MIN ≤ dbid ≤ LLONG_MAX → aof_says A x y →
  R (n - cost args) args1 [] (exec c (texts args) a).1 s1 → texts args1 = (exec c (texts args) a).2 →
  let l := logged_on (e_mstime env) (e_loading env) (e_masterhost env) c (texts args) a in let w := file_of (with_select A dbid l) in fits (len x + len w) →
  returns (A' ← feed_deletions env A dbid (deletions (drop (length (st_events s)) (st_events s1)));
           if dirty (exec c (texts args) a).1 =? dirty a then mret A' else name ← gets st_cmd; argv ← gets st_argv; propagate env A' (proc_named name) dbid argv 3) s1
    (λ A' s', R (n - cost args) args1 [] (exec c (texts args) a).1 s' ∧ grown A x y w A' ∧ (aof_state A ≠ REDIS_AOF_OFF → selected A A' dbid l)).
Proof using KeyTableLaws0 KeyTableLaws1.
  intros He Hs Hname Hd HA HR1 Et1 l w Hfit. pose proof (ready_R _ _ _ _ _ _ _ _ _ _ Hs) as HR0. destruct (handler_deletions c n args a s s1 args1 HR0 HR1) as (ks & Ek & Hk & Ed). rewrite Ek.
  destruct (call_log_app c (texts args) a A dbid ks Ed) as [El Hsel]. cbv zeta in El, Hsel. fold l in El, Hsel. destruct (Z.eqb_spec (aof_state A) REDIS_AOF_OFF) as [Eo|Eo].
  { eapply returns_step; [by apply feed_deletions_off|]. assert (grown A x y w A) as HG by (apply grown_nothing; [done|by right]).
    destruct (_ =? dirty a); [by apply returns_ret|]. eapply returns_step; [reflexivity|]. eapply returns_step; [reflexivity|]. unfold propagate. rewrite Eo. by apply returns_ret. }
  assert (∀ A1, selected A A1 dbid (deletion <$> ks) → w = file_of (with_select A dbid (deletion <$> ks)) ++ file_of (with_select A1 dbid (drop (length ks) l))) as Ew
    by (intros A1 HA1; unfold w; by rewrite (Hsel A1 HA1), file_of_app).
  pose proof Hfit as Hfit1. rewrite (Ew (mkAof 0 (match deletion <$> ks with [] => aof_selected_db A | _ => dbid end) (aof_buf A) false [])) in Hfit1 by done. apply (fits_after A) in Hfit1 as [Hfit1 _].
  eapply returns_bind; [exact (feed_deletions_ok ks A dbid x y He HR1 Hk Hd Eo HA Hfit1)|]. intros A1 s2 (HR2 & HG1 & Hsel1). rewrite (Ew A1 Hsel1) in Hfit |- *. apply (fits_after A) in Hfit as [_ Hfit].
  pose proof HG1 as [S1 _ HA1]. assert (drop (length ks) l = (if dirty (exec c (texts args) a).1 =? dirty a then [] else translated (e_mstime env) (default c (named (cmd_name (exec c (texts args) a).1))) (exec c (texts args) a).2)) as Edrop.
  { rewrite El. rewrite drop_app_length'; [done|by rewrite length_fmap]. }
  rewrite Edrop in *. destruct (Z.eqb_spec (dirty (exec c (texts args) a).1) (dirty a)) as [Eq|Eq].
  - apply returns_ret. split; [exact HR2|]. split; [change (file_of (with_select A1 dbid [])) with (@nil Z); by rewrite app_nil_r|]. intros _. by rewrite El, app_nil_r.
  - set (tr := translated _ _ _) in *. assert (tr ≠ []) as Htr by apply translated_some. assert (with_select A1 dbid tr = selects A1 dbid ++ tr) as Ews by (by destruct tr). rewrite Ews in *.
    eapply returns_step; [reflexivity|]. eapply returns_step; [reflexivity|]. eapply returns_mono; [refine (propagate_ok c (n - cost args) args args1 a s2 A1 dbid _ _ He Hname _ HR2 Et1 Hd HA1 Eq _ Hfit)|].
    + unfold texts. rewrite !length_fmap. exact (ready_arity _ _ _ _ _ _ _ _ _ _ Hs).
    + by rewrite S1.
    + intros A2 s3 (HR3 & HG2 & Hsel2). split; [exact HR3|]. split; [by eapply grown_trans|]. intros _. unfold selected. rewrite El, Hsel2. destruct (deletion <$> ks); [by destruct tr|done].
Qed.

Lemma call_appends_ok c n args a s A dbid x y : env_ok env h0 → ready c n args a s → cmd_name a = cname c →
  LLONG_MIN ≤ dbid ≤ LLONG_MAX → aof_says A x y → let l := logged_on (e_mstime env) (e_loading env) (e_masterhost env) c (texts args) a in let w := file_of (with_select A dbid l) in fits (len x + len w) →
  ∃ A' s' args', call env c A dbid s = Some (A', s') ∧ R (n - cost args) args' [] (exec c (texts args) a).1 s' ∧ grown A x y w A' ∧
    (aof_state A ≠ REDIS_AOF_OFF → selected A A' dbid l) ∧
    (len (y ++ w) < 2 ^ 64 → aofRewriteBufferSize (aof_rewrite_buf_blocks A') = len (rewrite_after A y w)).
Proof using KeyTableLaws0 KeyTableLaws1.
  intros He Hs Hname Hd HA l w Hfit. destruct (handlers_ok env base h0 st0 c0 c n args a s He Hs) as ([] & s1 & Eh & args1 & HR1 & Et1).
  destruct (after_handler_ok c n args args1 a s s1 A dbid x y He Hs Hname Hd HA HR1 Et1 Hfit) as (A' & s' & Er & HR' & HG & Hsel). exists A', s', args1.
  split; [|split; [exact HR'|split; [exact HG|split; [exact Hsel|]]]].
  - rewrite <- Er. pose proof (ready_R _ _ _ _ _ _ _ _ _ _ Hs) as HR0. destruct (exec_tallied (e_mstime env) (e_loading env) (e_masterhost env) c (texts args) a) as [Hle _].
    rewrite <- (R_dirty HR0), <- (R_dirty HR1) in Hle |- *. unfold call, mbind, cmd_bind, gets. rewrite Eh. destruct (feed_deletions _ _ _ _ s1) as [[A1 s2]|] eqn:Ef; [|done]. cbv zeta.
    rewrite (proj2 (Z.ltb_ge (st_dirty s1 - st_dirty s) 0)) by lia.
    destruct (Z.eqb_spec (st_dirty s1) (st_dirty s)) as [Eq|Eq]; [rewrite (proj2 (Z.eqb_eq (st_dirty s1 - st_dirty s) 0)) by lia|rewrite (proj2 (Z.eqb_neq (st_dirty s1 - st_dirty s) 0)) by lia]; done.
  - intros Hlen. destruct HG as [_ _ [_ Hbl Hct]]. rewrite aofRewriteBufferSize_ok; [by rewrite Hct|done|]. rewrite Hct. unfold rewrite_after. destruct (_ || _); [rewrite length_app in Hlen; lia|exact Hlen].
Qed.

(** C7. A command that is called runs as specified.  While it runs, the deletion
    of every key it looked up that is past its time is appended to the file's
    buffer; after it ran, the command, if it changed something: under the name
    and with the arguments it has then, as a request, with relative times made
    absolute and [SETEX] split in two.  A [SELECT] comes first if the last
    command that was appended was for another database.  The same is appended to
    the rewrite buffer while the file is rewritten, whose size is that of what is
    in it.  Nothing else is appended, and nothing while the file is off. *)
Theorem call_appends c n args a s A dbid x y : env_ok env h0 → ready c n args a s → cmd_name a = cname c →
  LLONG_MIN ≤ dbid ≤ LLONG_MAX → aof_says A x y → let l := logged_on (e_mstime env) (e_loading env) (e_masterhost env) c (texts args) a in let w := file_of (with_select A dbid l) in fits (len x + len w) →
  ∃ A' s' args', call env c A dbid s = Some (A', s') ∧ R (n - cost args) args' [] (exec c (texts args) a).1 s' ∧ grown A x y w A' ∧
    (aof_state A ≠ REDIS_AOF_OFF → selected A A' dbid l) ∧
    (len (y ++ w) < 2 ^ 64 → aofRewriteBufferSize (aof_rewrite_buf_blocks A') = len (rewrite_after A y w)).
Proof using KeyTableLaws0 KeyTableLaws1. apply call_appends_ok. Qed.
End theorems.

(** ** A run of the server *)

Section ran.
Context {T E : Type} `{!KeyTable T addr, !KeyTable E Z, !KeyTableLaws T addr, !KeyTableLaws E Z}.
Implicit Types (s : sys T E) (A : aof_server) (a b : kv) (f : list Z).

(** [f] is the file, [A] the fields of the server for it, [a] what the key space
    stands for, [m] whether a transaction is being logged, [log] what was.
    Commands are called, on a server that is neither loading nor a slave, at any
    time and with any client; in between, the client and its arguments change,
    but no key.  The buffer may be written to the file at any time; [MULTI] and
    [EXEC] are fed as [execCommandPropagateMulti] and the call of [EXEC] do. *)
Inductive ran : list Z → aof_server → kv → bool → list (list text) → Prop :=
  | ran_start A y a : aof_state A = REDIS_AOF_ON → aof_selected_db A = -1 → aof_says A [] y → vals a = ∅ → exps a = ∅ → ran [] A a false []
  | ran_call f A a m log x y env base h0 st0 c0 c n args b s A' s' : ran f A a m log → same a b →
      env_ok env h0 → ready env base h0 st0 c0 c n args b s → cmd_name b = cname c → well_formed c (texts args) → absolute c (texts args) →
      e_loading env = false → e_masterhost env = false → aof_says A x y → fits (len x + len (file_of (with_select A 0 (logged (e_mstime env) c (texts args) b)))) →
      call env c A 0 s = Some (A', s') → ran f A' (CommandThms.exec (e_mstime env) false false c (texts args) b).1 m (log ++ logged (e_mstime env) c (texts args) b)
  | ran_bracket f A a (open : bool) log x y env base h0 st0 c0 n args tmp b s o A' s' : ran f A a (negb open) log →
      env_ok env h0 → R (e_malloc_size env) (e_ae_create env) base h0 st0 c0 n args tmp b s → len tmp < 5 → Forall2 (stands args tmp) [o] (bracket open) →
      aof_says A x y → fits (len x + len (file_of (with_select A 0 [bracket open]))) →
      feedAppendOnlyFile env A ProcOther 0 [o] s = Some (A', s') → ran f A' a open (log ++ [bracket open])
  | ran_flush f A a m log x y (emptied : sdshdr) : ran f A a m log → aof_says A x y → rep emptied [] →
      ran (f ++ x) (mkAof (aof_state A) (aof_selected_db A) emptied (aof_child A) (aof_rewrite_buf_blocks A)) a m log.

Lemma rep_same (d : sdshdr) x x' : rep d x → rep d x' → x = x'.
Proof.
  intros (r & -> & _) (r' & Hd & _). injection Hd as Hl _ Hb. assert (length x = length x') as Hl' by lia. by apply app_inj_1 in Hb as [-> _].
Qed.

Lemma says_same A x y x' y' : aof_says A x y → aof_says A x' y' → x = x' ∧ y = y'.
Proof. intros [H1 _ E1] [H2 _ E2]. split; [by eapply rep_same|congruence]. Qed.

Definition whole (log : list (list text)) : list (list text) := match log with [] => [] | _ => select0 :: log end.

Lemma whole_app A log l : aof_selected_db A = (match log with [] => -1 | _ => 0 end) → whole (log ++ l) = whole log ++ with_select A 0 l.
Proof.
  intros Hd. unfold whole, with_select, selects. rewrite Hd. destruct log as [|t1 log]; cbn [app]; [destruct l; [done|]; reflexivity|]. by destruct l; cbn [app]; rewrite ?app_nil_r.
Qed.

Lemma selected_app A A' log l : aof_selected_db A = (match log with [] => -1 | _ => 0 end) → selected A A' 0 l → aof_selected_db A' = (match log ++ l with [] => -1 | _ => 0 end).
Proof. unfold selected. intros Hd ->. rewrite Hd. by destruct log, l. Qed.

(** The file and the buffer hold the log, after the one [SELECT]. *)
Lemma ran_ok f A a m log : ran f A a m log → history a m log ∧ aof_state A = REDIS_AOF_ON ∧ aof_selected_db A = (match log with [] => -1 | _ => 0 end) ∧
  ∃ x y, aof_says A x y ∧ f ++ x = file_of (whole log).
Proof.
  induction 1 as [A y a Es Ed HA Hv He|f A a m log x y env base h0 st0 c0 c n args b s A' s' _ (IHh & IHs & IHd & x' & y' & HA' & Ex) Hab Henv Hr Hname Hw Habs Hl Hm HA Hfit Hcall|
    f A a open log x y env base h0 st0 c0 n args tmp b s o A' s' _ (IHh & IHs & IHd & x' & y' & HA' & Ex) Henv HR Htmp Ho HA Hfit Hfeed|f A a m log x y emptied _ (IHh & IHs & IHd & x' & y' & HA' & Ex) HA Hb].
  - split; [by apply history_start|]. split; [done|]. split; [done|]. by exists [], y.
  - destruct (says_same A x' y' x y HA' HA) as [-> ->]. pose proof (call_appends_ok env base h0 st0 c0 c n args b s A 0 x y Henv Hr Hname ltac:(by split) HA) as Hc. rewrite Hl, Hm in Hc.
    destruct (Hc Hfit) as (A1 & s1 & args1 & Ec & _ & [S1 _ HA1] & Hsel & _). rewrite Hcall in Ec. injection Ec as <- <-. rewrite IHs in S1, Hsel.
    split; [by eapply history_step|]. split; [done|]. split; [apply (selected_app A); [done|by apply Hsel]|]. eexists _, _. split; [exact HA1|].
    unfold buf_after. rewrite IHs. change (REDIS_AOF_ON =? REDIS_AOF_ON) with true. cbv iota. rewrite app_assoc, Ex, <- file_of_app. f_equal. symmetry. by apply whole_app.
  - destruct (says_same A x' y' x y HA' HA) as [-> ->]. assert (aof_state A ≠ REDIS_AOF_OFF) as Hon by (by rewrite IHs).
    destruct (feed_grown env base h0 st0 c0 A CDel 0 [o] (bracket open) x y Henv I HR Htmp Ho ltac:(by split) Hon HA Hfit) as (A1 & s1 & Ef & _ & [S1 _ HA1] & Hsel).
    change (proc_of CDel) with ProcOther in Ef. rewrite Hfeed in Ef. injection Ef as <- <-. rewrite IHs in S1.
    split; [by apply history_bracket|]. split; [done|]. split; [apply (selected_app A); [done|exact Hsel]|]. eexists _, _. split; [exact HA1|].
    unfold buf_after. rewrite IHs. change (REDIS_AOF_ON =? REDIS_AOF_ON) with true. cbv iota. rewrite app_assoc, Ex, <- file_of_app. f_equal. symmetry. by apply (whole_app A log [bracket open]).
  - destruct (says_same A x' y' x y HA' HA) as [-> ->]. split; [done|]. split; [done|]. split; [done|]. exists [], y. split; [|by rewrite app_nil_r]. destruct HA as [_ H2 H3]. by split.
Qed.

(** C8. What a server wrote is what it had.  Take any run of commands by a server
    that started empty, with its handlers on its heap and its tables, whose
    append-only file is on: at any times, by any clients, transactions being
    enclosed by [MULTI] and [EXEC], and the buffer being written to the file at
    any points.  The file and the buffer together load without an error, at any
    later time, and give the keys, values and times of the server, keys past
    their time included only if it still had them.  Commands are those of
    strings and keys but for [SET] with [EX] or [PX], whose relative time is
    logged as it is; the loader runs them as specified. *)
Theorem aof_restored junk truncated truncates now f A a log e : ran f A a false log → log ≠ [] → Forall command_ok log → vals e = ∅ → exps e = ∅ →
  ∃ x y z, aof_says A x y ∧ loadAppendOnlyFile junk load_lookup (load_proc now) snd truncated truncates (f ++ x) (e, false) = Some (LoadOk (z, false)) ∧ same a z.
Proof.
  intros Hran Hne Hlog Hv He. destruct (ran_ok f A a false log Hran) as (Hh & _ & _ & x & y & HA & Ex). destruct (history_replayed now a false log Hh e Hv He) as (z & Hz & Hs & _).
  exists x, y, z. split; [done|]. split; [|done]. assert (whole log = select0 :: log) as Ew by (by destruct log). rewrite Ex, Ew.
  rewrite (load_file junk load_lookup (load_proc now) snd truncated truncates (select0 :: log) (e, false) (z, false)); [done|constructor; [apply select0_ok|done]|done|].
  cbn [run_all]. change (run_texts load_lookup (load_proc now) (e, false) select0) with (Some (e, false)). by bsimpl.
Qed.
End ran.

(** C9. A file that was cut anywhere, as when the machine stopped while it was
    written, is loaded with [aof-load-truncated] up to the last command that is
    whole, whatever the commands do.  If the cut left nothing over and no
    transaction is open, that is all; otherwise the load is reported as short and
    the file is cut at the end of that command, also when a [MULTI] before it
    has no [EXEC].  What is then in the file is loaded the same way the next
    time. *)
Theorem aof_cut_loads {S C} junk (lookup : list Z → option C) (proc : C → S → list (list Z) → option S) (in_multi : S → bool) l p s s' :
  Forall command_ok l → run_all lookup proc s l = Some s' → p `prefix_of` file_of l → p ≠ [] →
  ∃ l' z, l' `prefix_of` l ∧ run_all lookup proc s l' = Some z ∧
    (∀ ts, (l' ++ [ts]) `prefix_of` l → ¬ file_of (l' ++ [ts]) `prefix_of` p) ∧
    loadAppendOnlyFile junk lookup proc in_multi true true p s =
      Some (if bool_decide (p = file_of l') && negb (in_multi z) then LoadOk z else LoadCut z (len (file_of l'))) ∧
    take (length (file_of l')) p = file_of l' ∧
    (l' ≠ [] → loadAppendOnlyFile junk lookup proc in_multi true true (file_of l') s = Some (if in_multi z then LoadCut z (len (file_of l')) else LoadOk z)).
Proof.
  intros Hl Hrun Hp Hne. destruct (load_prefix junk lookup proc in_multi true true l p s s' Hl Hrun Hp Hne) as (l' & q & z & Hpre & -> & Hz & Hmax & Hload).
  exists l', z. split; [done|]. split; [done|]. split; [|split; [|split; [by rewrite take_app_length|]]].
  - intros ts Hts Hp'. rewrite file_of_app in Hp'. apply prefix_app_inv in Hp'. apply (Hmax ts Hts). unfold file_of in Hp'. cbn in Hp'. by rewrite app_nil_r in Hp'.
  - rewrite Hload. unfold load_short. cbn [andb]. replace (bool_decide (file_of l' ++ q = file_of l')) with (bool_decide (q = [])); [done|].
    apply bool_decide_ext. split; [intros ->; apply app_nil_r|]. intros H. apply (app_inv_head (file_of l')). by rewrite app_nil_r.
  - intros Hne'. destruct Hpre as [l2 ->]. apply Forall_app in Hl as [Hl _]. by rewrite (load_file junk lookup proc in_multi true true l' s z Hl Hne' Hz).
Qed.

(** ** Witnesses *)

#[local] Existing Instance demo_table.
#[local] Existing Instance demo_times.

Definition demo_aof : aof_server := mkAof REDIS_AOF_ON (-1) (mkSds 0 0 [0]) true [].

Lemma demo_aof_says : aof_says demo_aof [] [].
Proof. split; [by exists []|split; constructor|done]. Qed.

(** The key is past its time: its deletion comes first. *)
Lemma call_appends_witness : let w := file_of [select0; [str "DEL"; str "n"]; [str "INCR"; str "n"]] in
  ∃ A' s' args', call demo_env CIncr demo_aof 0 (demo_server 500) = Some (A', s') ∧
  demo_R_of 77 args' [] (CommandThms.exec 1000 false false CIncr [str "INCR"; str "n"] (demo_kv 500)).1 s' ∧ grown demo_aof [] [] w A' ∧
  (aof_state demo_aof ≠ REDIS_AOF_OFF → selected demo_aof A' 0 [[str "DEL"; str "n"]; [str "INCR"; str "n"]]) ∧
  (len w < 2 ^ 64 → aofRewriteBufferSize (aof_rewrite_buf_blocks A') = len w).
Proof.
  assert (logged_on 1000 false false CIncr [str "INCR"; str "n"] (demo_kv 500) = [[str "DEL"; str "n"]; [str "INCR"; str "n"]]) as El by (vm_compute; reflexivity).
  pose proof (call_appends demo_env demo_base demo_base_heap _ _ CIncr 100 demo_args _ _ demo_aof 0 [] [] demo_env_ok (demo_ready 500) eq_refl ltac:(by split) demo_aof_says) as H.
  cbv zeta in H. change (texts demo_args) with [str "INCR"; str "n"] in H. change (e_mstime demo_env) with 1000 in H. change (e_loading demo_env) with false in H. change (e_masterhost demo_env) with false in H.
  rewrite El in H. exact (H ltac:(by vm_compute)).
Defined.

(** A key with a time, that is changed afterwards. *)
Definition demo_empty : kv := mkKv ∅ ∅ 0 [] [] [].
Definition demo_setex : list text := [str "SETEX"; str "n"; str "100"; str "41"].
Definition demo_incr : list text := [str "INCR"; str "n"].
Definition demo_after_setex : kv := (exec 1000 false false CSetex demo_setex (set_name (str "setex") demo_empty)).1.
Definition demo_after_incr : kv := (exec 2000 false false CIncr demo_incr (set_name (str "incr") demo_after_setex)).1.
Lemma demo_well_formed c ts : arity_ok c (len ts) = true → (n ← head ts; named n) = Some c → well_formed c ts.
Proof. intros Ha Hn. split; [done|]. destruct ts as [|n ts]; [done|]. by exists n, ts. Qed.

(** A server without keys, and a client that sends [SETNX]. *)
Definition setnx_args : list (addr * argument) := [(demo_name, mkArg (str "SETNX") true); (demo_key, mkArg (str "n") true); (demo_value, mkArg (str "41") true)].
Definition setnx_heap : oheap := <[demo_name := demo_text (str "SETNX")]> (<[demo_key := demo_text (str "n")]> (<[demo_value := demo_text (str "41")]> demo_base_heap)).
Definition setnx_server : sys (dict (list Z) addr) (dict (list Z) Z) :=
  mkSys setnx_heap (demo_client (str "+OK")) [demo_name; demo_key; demo_value] (str "setnx") (mkDb dictCreate dictCreate 0) 7 [] 0 0 0.
Definition setnx_kv : kv := mkKv ∅ ∅ 7 [] [] (str "setnx").

#[local] Opaque demo_base_heap demo_words demo_ints.

Lemma setnx_map : the_map setnx_server = ∅.
Proof. reflexivity. Qed.

Lemma setnx_refs o : table_refs (the_map setnx_server) o = 0.
Proof. reflexivity. Qed.

Lemma setnx_owner o : owner demo_base setnx_server setnx_args [] o = demo_base o + refs [demo_value; demo_name; demo_key] o.
Proof. unfold owner, held_by. pose proof (setnx_refs o) as E0. rewrite E0. cbn [fmap list_fmap snd fst app setnx_args]. rewrite !refs_cons. lia. Qed.

Lemma setnx_counted : ReplySpec.counted (owner demo_base setnx_server setnx_args []) setnx_heap [].
Proof.
  refine (three_counted demo_base_heap _ (demo_text (str "SETNX")) (demo_text (str "n")) (demo_text (str "41")) demo_base_lookup _ eq_refl eq_refl eq_refl).
  intros o. rewrite setnx_owner. unfold demo_base. reflexivity.
Qed.

Lemma setnx_R : demo_R_of 100 setnx_args [] setnx_kv setnx_server.
Proof.
  destruct (three_lookups demo_base_heap (demo_text (str "SETNX")) (demo_text (str "n")) (demo_text (str "41"))) as (E1 & E2 & E3 & Eo). split.
  - intros o. destruct (demo_base_bound o) as [-> | ->]; lia.
  - intros o ob Eb. rewrite (demo_base_held o ob Eb). reflexivity.
  - rewrite app_nil_r. eapply static_out_ok; [apply setnx_counted|reflexivity|reflexivity].
  - reflexivity.
  - apply near_refl.
  - split; cbn; lia.
  - apply (empty_ok 1%positive).
  - apply (empty_ok 0).
  - intros k. by rewrite (lookup_empty k : the_map setnx_server !! k = None).
  - reflexivity.
  - intros k (w & Hw). unfold setnx_kv in Hw. cbn [exps] in Hw. by rewrite lookup_empty in Hw.
  - reflexivity.
  - repeat (constructor; [cbn [fst snd]; match goal with |- arg_is _ _ (mkArg ?m true) => exists (demo_text m) end; split; [assumption|]; split; [by apply demo_text_says|]; split; [intros _; reflexivity|by vm_compute]|]). constructor.
  - constructor.
  - intros o ob Eb. exists ob. split; [exact (eq_trans (Eo o (proj1 (demo_base_lookup o ob Eb))) Eb)|]. split; [reflexivity|]. split; reflexivity.
  - cbn [vals setnx_kv]. rewrite map_size_empty. unfold MAX_KEYS. cbn [length setnx_args]. lia.
  - reflexivity.
  - reflexivity.
  - reflexivity.
Qed.

Lemma setnx_ready : ready demo_env demo_base demo_base_heap (bytes (str "+OK")) (demo_client (str "+OK")) CSetnx 100 setnx_args setnx_kv setnx_server.
Proof.
  split; [apply setnx_R|repeat constructor|reflexivity|exact I| |by vm_compute].
  split; [by repeat constructor|split; [reflexivity|by vm_compute]].
Qed.

Definition setnx_text : list text := [str "SETNX"; str "n"; str "41"].

Lemma setnx_ran : ∃ A a, ran [] A a false [setnx_text] ∧ vals a = {[ str "n" := VString (str "41") ]}.
Proof.
  assert (logged 1000 CSetnx setnx_text setnx_kv = [setnx_text]) as El by (vm_compute; reflexivity).
  assert (fits (len (@nil Z) + len (file_of (with_select demo_aof 0 [setnx_text])))) as Hfit by (by vm_compute).
  pose proof (call_appends_ok demo_env demo_base demo_base_heap _ _ CSetnx 100 setnx_args _ _ demo_aof 0 [] [] demo_env_ok setnx_ready eq_refl ltac:(by split) demo_aof_says) as H.
  cbv zeta in H. change (texts setnx_args) with setnx_text in H. change (logged_on _ _ _) with (logged 1000) in H. rewrite El in H. destruct (H Hfit) as (A' & s' & args' & Ec & _).
  assert (well_formed CSetnx (texts setnx_args)) as Hw by (by apply demo_well_formed). assert (same setnx_kv setnx_kv) as Hs by done.
  assert (fits (len (@nil Z) + len (file_of (with_select demo_aof 0 (logged (e_mstime demo_env) CSetnx (texts setnx_args) setnx_kv))))) as Hfit2.
  { change (logged (e_mstime demo_env) CSetnx (texts setnx_args) setnx_kv) with (logged 1000 CSetnx setnx_text setnx_kv). rewrite El. exact Hfit. }
  pose proof (ran_call [] demo_aof setnx_kv false [] [] [] demo_env demo_base demo_base_heap _ _ CSetnx 100 setnx_args setnx_kv setnx_server A' s'
    (ran_start demo_aof [] setnx_kv eq_refl eq_refl demo_aof_says eq_refl eq_refl) Hs demo_env_ok setnx_ready eq_refl Hw I eq_refl eq_refl demo_aof_says Hfit2 Ec) as Hran.
  change (logged (e_mstime demo_env) CSetnx (texts setnx_args) setnx_kv) with (logged 1000 CSetnx setnx_text setnx_kv) in Hran. rewrite El in Hran.
  eexists A', _. split; [exact Hran|]. vm_compute. reflexivity.
Qed.

Lemma setnx_text_ok : Forall command_ok [setnx_text].
Proof. constructor; [split; [by vm_compute|by apply (bool_decide_unpack _); vm_compute]|constructor]. Qed.

Lemma aof_restored_witness : ∃ A a x y z, vals a = {[ str "n" := VString (str "41") ]} ∧ aof_says A x y ∧
  loadAppendOnlyFile (λ _, 0) load_lookup (load_proc 999999) snd true true ([] ++ x) (demo_empty, false) = Some (LoadOk (z, false)) ∧ same a z.
Proof.
  destruct setnx_ran as (A & a & Hran & Hv). destruct (aof_restored (λ _, 0) true true 999999 [] A a [setnx_text] demo_empty Hran ltac:(discriminate) setnx_text_ok eq_refl eq_refl) as (x & y & z & H).
  exists A, a, x, y, z. split; [exact Hv|exact H].
Defined.

(** Cut in the second command of a transaction. *)
Definition demo_multi : list (list text) := [bracket true; [str "SET"; str "n"; str "41"]; demo_incr; bracket false].

Lemma demo_multi_ok : Forall command_ok demo_multi.
Proof. repeat (constructor; [split; [by vm_compute|by apply (bool_decide_unpack _); vm_compute]|]). constructor. Qed.

Lemma aof_cut_loads_witness : let p := take 60 (file_of demo_multi) in let load := loadAppendOnlyFile (λ _, 0) load_lookup (load_proc 999999) snd true true in
  ∃ l' z, l' `prefix_of` demo_multi ∧ run_all load_lookup (load_proc 999999) (demo_empty, false) l' = Some z ∧
    (∀ ts, (l' ++ [ts]) `prefix_of` demo_multi → ¬ file_of (l' ++ [ts]) `prefix_of` p) ∧
    load p (demo_empty, false) = Some (if bool_decide (p = file_of l') && negb z.2 then LoadOk z else LoadCut z (len (file_of l'))) ∧
    take (length (file_of l')) p = file_of l' ∧
    (l' ≠ [] → load (file_of l') (demo_empty, false) = Some (if z.2 : bool then LoadCut z (len (file_of l')) else LoadOk z)).
Proof.
  refine (aof_cut_loads (λ _, 0) load_lookup (load_proc 999999) snd demo_multi (take 60 (file_of demo_multi)) (demo_empty, false) _ demo_multi_ok _ _ _).
  - reflexivity.
  - exists (drop 60 (file_of demo_multi)). symmetry. apply take_drop.
  - discriminate.
Defined.

(** ** Examples *)

(** A time to live given to [SET] is not translated: the same request, loaded
    later, sets a later time. *)
Example set_ex_is_logged_as_is :
  let ts := [str "SET"; str "n"; str "41"; str "EX"; str "100"] in let a := (exec 1000 false false CSet ts (set_name (str "set") demo_empty)).1 in
  logged 1000 CSet ts (set_name (str "set") demo_empty) = [ts] ∧ exps a !! str "n" = Some 101000 ∧
  (z ← replay 50000 demo_empty [ts]; exps z !! str "n") = Some 150000.
Proof. split; [reflexivity|]. split; reflexivity. Qed.

(** A file cut between the two commands that [SETEX] is appended as gives a key
    without a time. *)
Example setex_may_be_cut :
  let l := logged 1000 CSetex demo_setex (set_name (str "setex") demo_empty) in
  match loadAppendOnlyFile (λ _, 0) load_lookup (load_proc 2000) snd true true (take 40 (file_of l)) (demo_empty, false) with
  | Some (LoadCut (z, _) off) => off = 28 ∧ vals z !! str "n" = Some (VString (str "41")) ∧ exps z !! str "n" = None
  | _ => False
  end.
Proof. vm_compute. by split. Qed.

(** A transaction that was cut is loaded in part: the first of its two commands
    is kept, and the file keeps the [MULTI]. *)
Example transaction_may_be_cut :
  match loadAppendOnlyFile (λ _, 0) load_lookup (load_proc 2000) snd true true (take 60 (file_of demo_multi)) (demo_empty, false) with
  | Some (LoadCut (z, m) off) => off = len (file_of (take 2 demo_multi)) ∧ vals z !! str "n" = Some (VString (str "41")) ∧ m = true
  | _ => False
  end.
Proof. vm_compute. by split_and!. Qed.
