(* ===== verification/Adlist.v ===== *)
(** * Doubly linked lists: [adlist.c], [adlist.h]

    The nodes of all lists live in one heap; a node has a value and the
    locations of the nodes before and after it.  The structure [list] is passed
    and returned as a record.  Values stand for pointers: without a [match]
    method they are compared by identity.  [zmalloc] does not fail; where it is
    called the location it returns is an argument.  What the [free] method is
    called with is recorded in order.

    [None] is a dereference of NULL or of a node that was freed. *)

From S2P Require Import Prelude.
From stdpp Require Import gmap.
Local Open Scope Z_scope.

Definition AL_START_HEAD : Z := 0.
Definition AL_START_TAIL : Z := 1.

Section adlist.
Context {V : Type} `{!EqDecision V}.
#[local] Abbreviation loc := positive.

Record listNode := mkNode { prev : option loc; next : option loc; value : V }.

Record listIter := mkIter { it_next : option loc; direction : Z }.

Record list_ := mkList {
  head : option loc;
  tail : option loc;
  dup : option (V → option V);
  has_free : bool;
  match_ : option (V → V → bool);
  len_ : Z
}.

#[local] Abbreviation nodes := (gmap loc listNode).
Implicit Types (h : nodes) (l : list_) (n new : loc).

Definition put_prev h n p : option nodes := nd ← h !! n; Some (<[n := mkNode p (next nd) (value nd)]> h).
Definition put_next h n p : option nodes := nd ← h !! n; Some (<[n := mkNode (prev nd) p (value nd)]> h).
Definition with_head l p : list_ := mkList p (tail l) (dup l) (has_free l) (match_ l) (len_ l).
Definition with_tail l p : list_ := mkList (head l) p (dup l) (has_free l) (match_ l) (len_ l).
Definition with_len l k : list_ := mkList (head l) (tail l) (dup l) (has_free l) (match_ l) (u64 k).

(** ** The operations *)

Definition listCreate : list_ := mkList None None None false None 0.

Fixpoint release_loop (k : nat) (freeing : bool) h (current : option loc) (freed : list V) : option (nodes * list V) :=
  match k with
  | O => Some (h, freed)
  | S k =>
      n ← current;
      nd ← h !! n;
      release_loop k freeing (delete n h) (next nd) (if freeing then freed ++ [value nd] else freed)
  end.

Definition listRelease h l : option (nodes * list V) := release_loop (Z.to_nat (len_ l)) (has_free l) h (head l) [].

Definition listAddNodeHead h l new (v : V) : option (nodes * list_) :=
  if len_ l =? 0 then Some (<[new := mkNode None None v]> h, with_len (with_tail (with_head l (Some new)) (Some new)) (len_ l + 1))
  else
    f ← head l;
    h ← put_prev (<[new := mkNode None (Some f) v]> h) f (Some new);
    Some (h, with_len (with_head l (Some new)) (len_ l + 1)).

Definition listAddNodeTail h l new (v : V) : option (nodes * list_) :=
  if len_ l =? 0 then Some (<[new := mkNode None None v]> h, with_len (with_tail (with_head l (Some new)) (Some new)) (len_ l + 1))
  else
    t ← tail l;
    h ← put_next (<[new := mkNode (Some t) None v]> h) t (Some new);
    Some (h, with_len (with_tail l (Some new)) (len_ l + 1)).

Definition listInsertNode h l (old_node : loc) new (v : V) (after : bool) : option (nodes * list_) :=
  o ← h !! old_node;
  let '(p, q, l) :=
    if after then (Some old_node, next o, if bool_decide (tail l = Some old_node) then with_tail l (Some new) else l)
    else (prev o, Some old_node, if bool_decide (head l = Some old_node) then with_head l (Some new) else l) in
  let h := <[new := mkNode p q v]> h in
  h ← match p with Some p => put_next h p (Some new) | None => Some h end;
  h ← match q with Some q => put_prev h q (Some new) | None => Some h end;
  Some (h, with_len l (len_ l + 1)).

(** With the value the [free] method is called with. *)
Definition listDelNode h l n : option (nodes * list_ * option V) :=
  nd ← h !! n;
  '(h, l) ← match prev nd with
            | Some p => h ← put_next h p (next nd); Some (h, l)
            | None => Some (h, with_head l (next nd))
            end;
  '(h, l) ← match next nd with
            | Some q => h ← put_prev h q (prev nd); Some (h, l)
            | None => Some (h, with_tail l (prev nd))
            end;
  Some (delete n h, with_len l (len_ l - 1), if has_free l then Some (value nd) else None).

Definition listGetIterator l (direction : Z) : listIter :=
  mkIter (if direction =? AL_START_HEAD then head l else tail l) direction.

Definition listRewind l : listIter := mkIter (head l) AL_START_HEAD.
Definition listRewindTail l : listIter := mkIter (tail l) AL_START_TAIL.

Definition listNext h (iter : listIter) : option (option loc * listIter) :=
  match it_next iter with
  | None => Some (None, iter)
  | Some current =>
      nd ← h !! current;
      Some (Some current, mkIter (if direction iter =? AL_START_HEAD then next nd else prev nd) (direction iter))
  end.

(** The nodes of the copy are put at [news]. *)
Fixpoint dup_loop (fuel : nat) h (copy : list_) (iter : listIter) (news : nat → loc) : option (nodes * option list_ * list V) :=
  match fuel with
  | O => None
  | S fuel =>
      '(node, iter) ← listNext h iter;
      match node with
      | None => Some (h, Some copy, [])
      | Some n =>
          nd ← h !! n;
          match match dup copy with Some d => d (value nd) | None => Some (value nd) end with
          | None => '(h, freed) ← listRelease h copy; Some (h, None, freed)
          | Some v => '(h, copy) ← listAddNodeTail h copy (news 0%nat) v; dup_loop fuel h copy iter (λ i, news (S i))
          end
      end
  end.

(** The copy, [None] for NULL, and the values freed on the way to it. *)
Definition listDup h orig (news : nat → loc) : option (nodes * option list_ * list V) :=
  dup_loop (S (Z.to_nat (len_ orig))) h (mkList None None (dup orig) (has_free orig) (match_ orig) 0) (listGetIterator orig AL_START_HEAD) news.

Fixpoint search_loop (fuel : nat) h l (iter : listIter) (key : V) : option (option loc) :=
  match fuel with
  | O => None
  | S fuel =>
      '(node, iter) ← listNext h iter;
      match node with
      | None => Some None
      | Some n =>
          nd ← h !! n;
          if match match_ l with Some f => f (value nd) key | None => bool_decide (key = value nd) end then Some (Some n)
          else search_loop fuel h l iter key
      end
  end.

Definition listSearchKey h l (key : V) : option (option loc) := search_loop (S (Z.to_nat (len_ l))) h l (listGetIterator l AL_START_HEAD) key.

(** [while(index-- && n) n = n->next], or [prev]. *)
Fixpoint index_loop (fuel : nat) h (step : listNode → option loc) (index : Z) (n : option loc) : option (option loc) :=
  if index =? 0 then Some n
  else
    match n with
    | None => Some None
    | Some m =>
        match fuel with
        | O => None
        | S fuel => nd ← h !! m; index_loop fuel h step (s64 (index - 1)) (step nd)
        end
    end.

Definition listIndex h l (index : Z) : option (option loc) :=
  if index <? 0 then index_loop (Z.to_nat (len_ l)) h prev (s64 (s64 (- index) - 1)) (tail l)
  else index_loop (Z.to_nat (len_ l)) h next index (head l).

Definition listRotate h l : option (nodes * list_) :=
  if len_ l <=? 1 then Some (h, l)
  else
    t ← tail l;
    nd ← h !! t;
    let l := with_tail l (prev nd) in
    t' ← tail l;
    h ← put_next h t' None;
    f ← head l;
    h ← put_prev h f (Some t);
    h ← put_prev h t None;
    h ← put_next h t (head l);
    Some (h, with_head l (Some t)).
End adlist.
Arguments listNode : clear implicits.
Arguments list_ : clear implicits.
Abbreviation nodes V := (gmap positive (listNode V)).
