(* ===== verification/AdlistThms.v ===== *)
(** * Doubly linked lists are lists

    [is_list h l cs]: the list [l] on the heap [h] has the nodes and values
    [cs], in order.  The operations of [adlist.c] are those of lists, touch no
    node of another list, and may remove a node while it is iterated over. *)

From stdpp Require Import gmap.
From S2P Require Import Prelude Adlist.
Local Open Scope Z_scope.

Section thms.
Context {V : Type} `{!EqDecision V}.
#[local] Abbreviation loc := positive.
Implicit Types (h : nodes V) (l : list_ V) (n new : loc) (cs a b : list (loc * V)).

(** The first node of [cs], [q] if there is none; the last one, or [p]. *)
Definition first_or q cs : option loc := match cs with [] => q | c :: _ => Some c.1 end.
Definition last_or (p : option loc) cs : option loc := match last cs with None => p | Some c => Some c.1 end.

(** A segment after [p] and before [q]. *)
Fixpoint dseg h p cs q : Prop :=
  match cs with
  | [] => True
  | c :: cs => h !! c.1 = Some (mkNode p (first_or q cs) c.2) ∧ dseg h (Some c.1) cs q
  end.

Record is_list h l cs : Prop := {
  il_seg : dseg h None cs None;
  il_nodup : NoDup cs.*1;
  il_head : head l = first_or None cs;
  il_tail : tail l = last_or None cs;
  il_len : len_ l = len cs;
  il_bound : len cs < 2 ^ 64
}.

(** The nodes that are not [ns] are as before. *)
Definition only (ns : list loc) h h' : Prop := ∀ m, m ∉ ns → h' !! m = h !! m.

(** ** Segments *)

Lemma last_or_cons p c cs : last_or p (c :: cs) = last_or (Some c.1) cs.
Proof. unfold last_or. destruct cs as [|d cs]; [done|]. cbn [last]. by destruct (last (d :: cs)) eqn:El; [|apply last_None in El]. Qed.

Lemma last_or_app p a b : last_or p (a ++ b) = last_or (last_or p a) b.
Proof. revert p. induction a as [|c a IH]; intros p; [done|]. cbn [app]. by rewrite !last_or_cons, IH. Qed.

Lemma last_or_None cs : last_or None cs = None → cs = [].
Proof. unfold last_or. destruct (last cs) eqn:El; [done|]. intros _. by apply last_None in El. Qed.

Lemma first_or_app q a b : first_or q (a ++ b) = first_or (first_or q b) a.
Proof. by destruct a. Qed.

Lemma dseg_app h p a b q : dseg h p (a ++ b) q ↔ dseg h p a (first_or q b) ∧ dseg h (last_or p a) b q.
Proof.
  revert p. induction a as [|c a IH]; intros p; cbn [app dseg]; [unfold last_or; cbn; tauto|]. rewrite IH, last_or_cons, first_or_app. tauto.
Qed.

Lemma dseg_insert h p cs q n nd : n ∉ cs.*1 → dseg h p cs q → dseg (<[n := nd]> h) p cs q.
Proof.
  revert p. induction cs as [|c cs IH]; intros p Hn; [done|]. cbn in Hn. apply not_elem_of_cons in Hn as [Hne Hn]. cbn [dseg]. intros [E Hs].
  split; [by rewrite lookup_insert_ne|by apply IH].
Qed.

Lemma dseg_delete h p cs q n : n ∉ cs.*1 → dseg h p cs q → dseg (delete n h) p cs q.
Proof.
  revert p. induction cs as [|c cs IH]; intros p Hn; [done|]. cbn in Hn. apply not_elem_of_cons in Hn as [Hne Hn]. cbn [dseg]. intros [E Hs].
  split; [by rewrite lookup_delete_ne|by apply IH].
Qed.

(** Another node before, or after. *)
Lemma dseg_put_next h p cs c q q' : NoDup (cs ++ [c]).*1 → dseg h p (cs ++ [c]) q →
  ∃ h', put_next h c.1 q' = Some h' ∧ dseg h' p (cs ++ [c]) q' ∧ only [c.1] h h'.
Proof.
  intros Hd Hs. rewrite fmap_app in Hd. apply NoDup_app in Hd as (_ & Hn & _). apply dseg_app in Hs as [H1 [H2 _]]. unfold put_next. rewrite H2. bsimpl. eexists. split; [done|].
  split; [|intros m Hm; rewrite lookup_insert_ne; [done|set_solver]]. apply dseg_app. split; [|by split; [rewrite lookup_insert_eq|]].
  apply dseg_insert; [|done]. intros Hin. apply (Hn _ Hin). cbn. set_solver.
Qed.

Lemma dseg_put_prev h p p' c cs q : NoDup (c :: cs).*1 → dseg h p (c :: cs) q →
  ∃ h', put_prev h c.1 p' = Some h' ∧ dseg h' p' (c :: cs) q ∧ only [c.1] h h'.
Proof.
  cbn [fmap list_fmap]. intros [Hn _]%NoDup_cons [H1 H2]. unfold put_prev. rewrite H1. bsimpl. eexists. split; [done|].
  split; [|intros m Hm; rewrite lookup_insert_ne; [done|set_solver]]. split; [by rewrite lookup_insert_eq|]. by apply dseg_insert.
Qed.

Lemma dseg_only h h' p cs q ns : dseg h p cs q → only ns h h' → (∀ n, n ∈ cs.*1 → n ∉ ns) → dseg h' p cs q.
Proof.
  intros Hs Ho. revert p Hs. induction cs as [|c cs IH]; intros p; [done|]. intros [E Hs] Hn.
  split; [rewrite Ho; [done|apply Hn; cbn; set_solver]|]. apply IH; [done|]. intros n Hin. apply Hn. cbn. set_solver.
Qed.

(** Where two segments meet, the nodes on both sides are told of each other:
    the common part of the operations that change the middle of a list. *)
Lemma link_left h a p q : NoDup a.*1 → dseg h None a p →
  ∃ h', match last_or None a with Some n => put_next h n q | None => Some h end = Some h' ∧ dseg h' None a q ∧ only a.*1 h h'.
Proof.
  intros Hd Hs. destruct a as [|c a _] using rev_ind; [by exists h|]. rewrite last_or_app. cbn [last_or last].
  destruct (dseg_put_next h None a c p q Hd Hs) as (h' & E & H1 & H2). exists h'. split; [done|]. split; [done|]. intros m Hm. apply H2. rewrite fmap_app in Hm. set_solver.
Qed.

Lemma link_right h b p q : NoDup b.*1 → dseg h p b None →
  ∃ h', match first_or None b with Some n => put_prev h n q | None => Some h end = Some h' ∧ dseg h' q b None ∧ only b.*1 h h'.
Proof.
  intros Hd Hs. destruct b as [|c b]; [by exists h|]. cbn [first_or].
  destruct (dseg_put_prev h p q c b None Hd Hs) as (h' & E & H1 & H2). exists h'. split; [done|]. split; [done|]. intros m Hm. apply H2. cbn in Hm. set_solver.
Qed.

Lemma nodup_parts a b : NoDup (a ++ b).*1 → NoDup a.*1 ∧ NoDup b.*1 ∧ ∀ n, n ∈ a.*1 → n ∉ b.*1.
Proof. rewrite fmap_app. intros (H1 & H2 & H3)%NoDup_app. done. Qed.

Lemma only_trans ns h1 h2 h3 : only ns h1 h2 → only ns h2 h3 → only ns h1 h3.
Proof. intros H1 H2 m Hm. by rewrite H2, H1. Qed.
Lemma only_more ns ns' h h' : ns ⊆ ns' → only ns h h' → only ns' h h'.
Proof. intros Hs H m Hm. apply H. set_solver. Qed.
Lemma only_insert ns n nd h : n ∈ ns → only ns h (<[n := nd]> h).
Proof. intros Hn m Hm. rewrite lookup_insert_ne; [done|set_solver]. Qed.
Lemma only_delete ns n h : n ∈ ns → only ns h (delete n h).
Proof. intros Hn m Hm. rewrite lookup_delete_ne; [done|set_solver]. Qed.

Lemma is_list_absent h l cs n : is_list h l cs → h !! n = None → n ∉ cs.*1.
Proof.
  intros [Hs _ _ _ _ _] Hn. revert Hs. generalize (@None loc) at 1 as p. induction cs as [|c cs IH]; intros p; cbn; [set_solver|]. intros [E Hs].
  apply not_elem_of_cons. split; [congruence|by apply (IH (Some c.1))].
Qed.

(** ** A node is put between two segments *)

Lemma spliced h l a b new v : is_list h l (a ++ b) → h !! new = None → len (a ++ b) < 2 ^ 64 - 1 →
  ∃ h1 h2, (match last_or None a with Some n => put_next (<[new := mkNode (last_or None a) (first_or None b) v]> h) n (Some new)
            | None => Some (<[new := mkNode (last_or None a) (first_or None b) v]> h) end) = Some h1 ∧
    (match first_or None b with Some n => put_prev h1 n (Some new) | None => Some h1 end) = Some h2 ∧
    (∀ l', head l' = first_or None (a ++ (new, v) :: b) → tail l' = last_or None (a ++ (new, v) :: b) → len_ l' = u64 (len_ l + 1) → is_list h2 l' (a ++ (new, v) :: b)) ∧
    only (new :: (a ++ b).*1) h h2.
Proof.
  intros Hl Hnew Hb. pose proof (is_list_absent _ _ _ _ Hl Hnew) as Ha. destruct Hl as [Hs Hd Hh Ht Hlen _]. apply dseg_app in Hs as [H1 H2].
  destruct (nodup_parts _ _ Hd) as (D1 & D2 & D3). rewrite fmap_app in Ha. apply not_elem_of_app in Ha as [A1 A2]. set (h0 := <[new := _]> h).
  destruct (link_left h0 a (first_or None b) (Some new) D1) as (h1 & -> & S1 & O1); [by apply dseg_insert|].
  assert (dseg h1 (last_or None a) b None) as S2 by (eapply dseg_only; [by apply dseg_insert| exact O1|]; intros n Hn Hn'; by apply (D3 n Hn')).
  destruct (link_right h1 b (last_or None a) (Some new) D2 S2) as (h2 & E2 & S2' & O2). exists h1, h2. split; [done|]. split; [done|]. split.
  - intros l' E1 E3 E4. split; [|..|done|done| |].
    + apply dseg_app. split; [|split; [|exact S2']].
      * eapply dseg_only; [exact S1|exact O2|]. intros n Hn. by apply D3.
      * cbn. rewrite O2, O1 by done. apply lookup_insert_eq.
    + rewrite fmap_app. apply NoDup_app. cbn. split; [done|]. split; [intros n Hn; apply not_elem_of_cons; split; [congruence|by apply D3]|by apply NoDup_cons].
    + rewrite E4, Hlen. rewrite uwrap_small by lia. rewrite !length_app. cbn. lia.
    + rewrite length_app in *. cbn. lia.
  - rewrite fmap_app. apply (only_trans _ _ h0); [apply only_insert; set_solver|]. apply (only_trans _ _ h1); [apply (only_more a.*1); [set_solver|done]|apply (only_more b.*1); [set_solver|done]].
Qed.

(** ** The operations *)

Lemma with_len_head l k : head (with_len l k) = head l. Proof. done. Qed.

Lemma first_or_nonempty q q' cs : cs ≠ [] → first_or q cs = first_or q' cs.
Proof. by destruct cs. Qed.
Lemma last_or_nonempty p p' cs : cs ≠ [] → last_or p cs = last_or p' cs.
Proof. destruct cs; [done|]. by rewrite !last_or_cons. Qed.

(** What is common to the three ways of adding a node. *)
Definition added h l new cs' (r : option (nodes V * list_ V)) : Prop :=
  ∃ h' l', r = Some (h', l') ∧ is_list h' l' cs' ∧ only (new :: cs'.*1) h h' ∧ dup l' = dup l ∧ has_free l' = has_free l ∧ match_ l' = match_ l.

Lemma only_middle a b new (v : V) h h' : only (new :: (a ++ b).*1) h h' → only (new :: (a ++ (new, v) :: b).*1) h h'.
Proof. apply only_more. rewrite !fmap_app. cbn. set_solver. Qed.

Lemma addHead_ok h l cs new v : is_list h l cs → h !! new = None → len cs < 2 ^ 64 - 1 → added h l new ((new, v) :: cs) (listAddNodeHead h l new v).
Proof.
  intros Hl Hn Hb. destruct (spliced h l [] cs new v Hl Hn Hb) as (h1 & h2 & [= <-] & E2 & H & O). apply (only_middle [] cs new v) in O. unfold added, listAddNodeHead.
  rewrite (il_len _ _ _ Hl), (il_head _ _ _ Hl). destruct cs as [|c cs].
  - cbn [first_or last_or last length] in *. change (0 =? 0) with true. cbn iota. injection E2 as <-. eexists _, _. split; [reflexivity|].
    split; [apply H; try done; cbn; by rewrite (il_len _ _ _ Hl)|done].
  - rewrite (proj2 (Z.eqb_neq (len (c :: cs)) 0)) by (cbn; lia). cbn [first_or] in *. bsimpl. change (last_or None []) with (@None loc) in *. rewrite E2. bsimpl.
    eexists _, _. split; [reflexivity|]. split; [apply H; [done|cbn [with_len with_head tail app]; by rewrite (il_tail _ _ _ Hl), !last_or_cons|cbn [with_len len_]; by rewrite (il_len _ _ _ Hl)]|done].
Qed.

Lemma addTail_ok h l cs new v : is_list h l cs → h !! new = None → len cs < 2 ^ 64 - 1 → added h l new (cs ++ [(new, v)]) (listAddNodeTail h l new v).
Proof.
  intros Hl Hn Hb. rewrite <- (app_nil_r cs) in Hl, Hb. destruct (spliced h l cs [] new v Hl Hn Hb) as (h1 & h2 & E1 & [= <-] & H & O). apply (only_middle cs [] new v) in O.
  rewrite app_nil_r in Hl, Hb. unfold added, listAddNodeTail. rewrite (il_len _ _ _ Hl), (il_tail _ _ _ Hl). change (first_or None []) with (@None loc) in *. destruct cs as [|c cs].
  - cbn [last_or last length] in *. change (0 =? 0) with true. cbn iota. injection E1 as <-. eexists _, _. split; [reflexivity|].
    split; [apply H; try done; cbn; by rewrite (il_len _ _ _ Hl)|done].
  - rewrite (proj2 (Z.eqb_neq (len (c :: cs)) 0)) by (cbn; lia).
    destruct (last_or None (c :: cs)) as [t|] eqn:Et; [|by apply last_or_None in Et]. bsimpl. rewrite E1. bsimpl.
    eexists _, _. split; [reflexivity|]. split; [apply H; [cbn [with_len with_tail head]; rewrite (il_head _ _ _ Hl); done|cbn [with_len with_tail tail]; by rewrite last_or_app|cbn [with_len len_]; by rewrite (il_len _ _ _ Hl)]|done].
Qed.

(** A node in the middle. *)
Lemma seg_node h p a n v b q : dseg h p (a ++ (n, v) :: b) q → h !! n = Some (mkNode (last_or p a) (first_or q b) v).
Proof. intros [_ [E _]]%dseg_app. exact E. Qed.

Lemma tail_is a n v b l : NoDup (a ++ (n, v) :: b).*1 → tail l = last_or None (a ++ (n, v) :: b) → bool_decide (tail l = Some n) = bool_decide (b = []).
Proof.
  intros Hd ->. rewrite last_or_app, last_or_cons. cbn [fst]. destruct b as [|c b] using rev_ind; [by rewrite !bool_decide_true|].
  rewrite (bool_decide_false (b ++ [c] = [])) by (by destruct b). rewrite last_or_app. cbn [last_or last]. apply bool_decide_false. intros [= E].
  rewrite fmap_app in Hd. apply NoDup_app in Hd as (_ & _ & [Hn _]%NoDup_cons). apply Hn. change (n ∈ (b ++ [c]).*1). rewrite fmap_app, <- E. cbn. set_solver.
Qed.

Lemma head_is a n v b l : NoDup (a ++ (n, v) :: b).*1 → head l = first_or None (a ++ (n, v) :: b) → bool_decide (head l = Some n) = bool_decide (a = []).
Proof.
  intros Hd ->. destruct a as [|c a]; [by rewrite !bool_decide_true|]. cbn [app first_or]. rewrite (bool_decide_false (c :: a = [])) by done. apply bool_decide_false. intros [= E].
  cbn in Hd. apply NoDup_cons in Hd as [Hn _]. apply Hn. change (c.1 ∈ (a ++ (n, v) :: b).*1). rewrite fmap_app, E. cbn. set_solver.
Qed.

Lemma insertNode_ok h l a n w b new v (after : bool) : is_list h l (a ++ (n, w) :: b) → h !! new = None → len (a ++ (n, w) :: b) < 2 ^ 64 - 1 →
  added h l new (if after then a ++ (n, w) :: (new, v) :: b else a ++ (new, v) :: (n, w) :: b) (listInsertNode h l n new v after).
Proof.
  intros Hl Hnew Hb. pose proof Hl as [Hs Hd Hh Ht Hlen _]. unfold listInsertNode. rewrite (seg_node _ _ _ _ _ _ _ Hs). bsimpl. destruct after; cbn [Adlist.next Adlist.prev].
  - change (a ++ (n, w) :: (new, v) :: b) with (a ++ [(n, w)] ++ (new, v) :: b). change (a ++ (n, w) :: b) with (a ++ [(n, w)] ++ b) in Hl, Hb. rewrite app_assoc in *.
    destruct (spliced h l (a ++ [(n, w)]) b new v Hl Hnew Hb) as (h1 & h2 & E1 & E2 & H & O). apply only_middle with (v := v) in O. rewrite last_or_app in E1. cbn [last_or last fst] in E1.
    rewrite (tail_is a n w b l Hd Ht). rewrite E1. bsimpl. rewrite E2. bsimpl. eexists _, _. split; [reflexivity|]. split; [|by case_bool_decide].
    apply H; [by case_bool_decide; cbn [with_len with_tail head]; rewrite Hh, <- app_assoc, !first_or_app| |by case_bool_decide].
    rewrite last_or_app, last_or_cons. cbn [fst]. case_bool_decide as Eb; [by subst b|]. cbn [with_len tail]. rewrite Ht, last_or_app, last_or_cons. by apply last_or_nonempty.
  - destruct (spliced h l a ((n, w) :: b) new v Hl Hnew Hb) as (h1 & h2 & E1 & E2 & H & O). apply only_middle with (v := v) in O. cbn [first_or fst] in E1, E2.
    rewrite (head_is a n w b l Hd Hh). rewrite E1. bsimpl. rewrite E2. bsimpl. eexists _, _. split; [reflexivity|]. split; [|by case_bool_decide].
    apply H; [|by case_bool_decide; cbn [with_len with_head tail]; rewrite Ht, !last_or_app, !last_or_cons|by case_bool_decide].
    rewrite first_or_app. case_bool_decide as Ea; [by subst a|]. cbn [with_len head]. rewrite Hh, first_or_app. by apply first_or_nonempty.
Qed.

Lemma delNode_ok h l a n v b : is_list h l (a ++ (n, v) :: b) →
  ∃ h' l', listDelNode h l n = Some (h', l', if has_free l then Some v else None) ∧ is_list h' l' (a ++ b) ∧ only (a ++ (n, v) :: b).*1 h h' ∧ h' !! n = None ∧
    dup l' = dup l ∧ has_free l' = has_free l ∧ match_ l' = match_ l.
Proof.
  intros [Hs Hd Hh Ht Hlen Hb]. unfold listDelNode. rewrite (seg_node _ _ _ _ _ _ _ Hs). bsimpl. cbn [Adlist.next Adlist.prev value].
  apply dseg_app in Hs as [S1 [E S2]]. destruct (nodup_parts _ _ Hd) as (D1 & [Nb D2]%NoDup_cons & D3). cbn [fst first_or] in *.
  destruct (link_left h a (Some n) (first_or None b) D1 S1) as (h1 & E1 & S1' & O1).
  assert (dseg h1 (Some n) b None) as S2' by (eapply dseg_only; [exact S2|exact O1|]; intros m Hm Hm'; apply (D3 m Hm'); by right).
  destruct (link_right h1 b (Some n) (last_or None a) D2 S2') as (h2 & E2 & S2'' & O2).
  assert (dseg h2 None a (first_or None b)) as S1'' by (eapply dseg_only; [exact S1'|exact O2|]; intros m Hm Hm'; apply (D3 m Hm); by right).
  assert (n ∉ a.*1) as Na by (intros Hin; apply (D3 n Hin); by left).
  assert (only (a ++ (n, v) :: b).*1 h (delete n h2)) as O.
  { rewrite fmap_app. cbn. apply (only_trans _ _ h1); [apply (only_more a.*1); [set_solver|done]|]. apply (only_trans _ _ h2); [apply (only_more b.*1); [set_solver|done]|]. apply only_delete. set_solver. }
  assert (∀ l', head l' = first_or None (a ++ b) → tail l' = last_or None (a ++ b) → len_ l' = u64 (len_ l - 1) → is_list (delete n h2) l' (a ++ b)) as Hgoal.
  { intros l' F1 F2 F3. rewrite length_app in Hlen, Hb. cbn [length] in Hlen, Hb. split; [apply dseg_app; split; by apply dseg_delete| |done|done| |rewrite length_app; lia].
    - rewrite fmap_app. apply NoDup_app. split; [done|]. split; [|done]. intros m Hm Hm'. apply (D3 m Hm). by right.
    - rewrite F3, uwrap_small by lia. rewrite length_app. lia. }
  destruct (last_or None a) as [p|] eqn:Ea.
  - rewrite E1. bsimpl. destruct (first_or None b) as [q|] eqn:Eb; [rewrite E2|injection E2 as ->]; bsimpl; eexists _, _; (split; [reflexivity|]); (split; [|split; [done|split; [apply lookup_delete_eq|done]]]).
    + destruct a; [done|]. destruct b as [|d b]; [done|]. apply Hgoal; [exact Hh|cbn [with_len tail]; rewrite Ht, !last_or_app; by rewrite !last_or_cons|done].
    + destruct a; [done|]. destruct b as [|d b]; [|done]. apply Hgoal; [exact Hh|cbn [with_len with_tail tail]; by rewrite app_nil_r|done].
  - injection E1 as <-. bsimpl. apply last_or_None in Ea as ->. cbn [app] in *.
    destruct (first_or None b) as [q|] eqn:Eb; [rewrite E2|injection E2 as ->]; bsimpl; eexists _, _; (split; [reflexivity|]); (split; [|split; [done|split; [apply lookup_delete_eq|done]]]).
    + destruct b as [|d b]; [done|]. apply Hgoal; [done|cbn [with_len with_head tail]; by rewrite Ht, !last_or_cons|done].
    + destruct b as [|d b]; [|done]. apply Hgoal; done.
Qed.

Lemma rotate_ok h l cs c : is_list h l (cs ++ [c]) → ∃ h' l', listRotate h l = Some (h', l') ∧ is_list h' l' (c :: cs) ∧ only (cs ++ [c]).*1 h h'.
Proof.
  intros Hl. pose proof Hl as [Hs Hd Hh Ht Hlen Hb]. unfold listRotate. rewrite Hlen, length_app. cbn [length]. destruct cs as [|f cs _] using rev_ind.
  { rewrite (proj2 (Z.leb_le _ _)) by (cbn; lia). by exists h, l. }
  rewrite (proj2 (Z.leb_gt _ _)) by (rewrite length_app; cbn; lia). clear Hl. rename cs into a. set (b := a ++ [f]) in *. rewrite Ht, last_or_app. cbn [last_or last]. bsimpl.
  pose proof Hs as Hs'. apply dseg_app in Hs as [S1 [Ec _]]. rewrite Ec. bsimpl. destruct (nodup_parts _ _ Hd) as (D1 & _ & D3).
  assert (c.1 ∉ b.*1) as Nc by (intros Hin; by apply (D3 _ Hin), list_elem_of_singleton).
  assert (last_or None b = Some f.1) as Lb by (unfold b; by rewrite last_or_app). cbn [with_tail tail Adlist.prev Adlist.value Adlist.next head first_or]. rewrite Lb. bsimpl.
  destruct (link_left h b (Some c.1) None D1 S1) as (h1 & E1 & S1' & O1). rewrite Lb in E1. rewrite E1. bsimpl. rewrite Hh, first_or_app. cbn [first_or].
  assert (first_or (Some c.1) b = first_or None b) as Fb by (apply first_or_nonempty; unfold b; by destruct a). rewrite Fb.
  destruct (link_right h1 b None (Some c.1) D1 S1') as (h2 & E2 & S2 & O2). destruct (first_or None b) as [g|] eqn:Eg; [|unfold b in Eg; by destruct a].
  bsimpl. rewrite E2. bsimpl. assert (h2 !! c.1 = Some (mkNode (last_or None b) None c.2)) as Ec2 by (rewrite O2, O1 by done; by rewrite Lb in *).
  unfold put_prev at 1. rewrite Ec2. bsimpl. cbn [Adlist.next Adlist.value]. unfold put_next at 1. rewrite lookup_insert_eq. bsimpl. cbn [Adlist.prev Adlist.value]. rewrite insert_insert_eq.
  eexists _, _. split; [reflexivity|]. split.
  - split.
    + cbn [dseg]. rewrite lookup_insert_eq, Eg. split; [done|]. apply dseg_insert; [exact Nc|exact S2].
    + cbn. apply NoDup_cons. by split.
    + done.
    + cbn [with_head with_tail tail]. rewrite last_or_cons. rewrite <- Lb. apply last_or_nonempty. unfold b. by destruct a.
    + cbn [with_head with_tail len_]. rewrite Hlen, length_app. cbn. lia.
    + rewrite length_app in Hb. cbn in *. lia.
  - rewrite fmap_app. apply (only_trans _ _ h2); [apply (only_trans _ _ h1); apply (only_more b.*1); [set_solver|done|set_solver|done]|apply only_insert; cbn; set_solver].
Qed.

(** ** Walks *)

Lemma next_head h l a n v b : is_list h l (a ++ (n, v) :: b) → listNext h (mkIter (Some n) AL_START_HEAD) = Some (Some n, mkIter (first_or None b) AL_START_HEAD).
Proof. intros [Hs _ _ _ _ _]. unfold listNext. cbn [it_next]. by rewrite (seg_node _ _ _ _ _ _ _ Hs). Qed.

Lemma next_tail h l a n v b : is_list h l (a ++ (n, v) :: b) → listNext h (mkIter (Some n) AL_START_TAIL) = Some (Some n, mkIter (last_or None a) AL_START_TAIL).
Proof. intros [Hs _ _ _ _ _]. unfold listNext. cbn [it_next]. by rewrite (seg_node _ _ _ _ _ _ _ Hs). Qed.

(** [match] or the comparison of the pointers *)
Definition matches l (key v : V) : bool := match match_ l with Some f => f v key | None => bool_decide (key = v) end.

Lemma search_nodes_ok h l key fuel : ∀ a b, is_list h l (a ++ b) → (length b < fuel)%nat →
  search_loop fuel h l (mkIter (first_or None b) AL_START_HEAD) key = Some (fst <$> List.find (λ c, matches l key c.2) b).
Proof.
  induction fuel as [|fuel IH]; intros a b Hl Hf; [lia|]. destruct b as [|[n v] b]; cbn [search_loop first_or]; [done|]. cbn [fst]. rewrite (next_head _ _ _ _ _ _ Hl). bsimpl.
  rewrite (seg_node _ _ _ _ _ _ _ (il_seg _ _ _ Hl)). bsimpl. cbn [value List.find snd]. fold (matches l key v). destruct (matches l key v); [done|].
  apply (IH (a ++ [(n, v)])); [by rewrite <- app_assoc|cbn in Hf; lia].
Qed.

Lemma index_next_ok h l fuel : ∀ a b i, is_list h l (a ++ b) → (length b ≤ fuel)%nat → 0 ≤ i < 2 ^ 63 →
  index_loop fuel h Adlist.next i (first_or None b) = Some (fst <$> b !! Z.to_nat i).
Proof.
  induction fuel as [|fuel IH]; intros a b i Hl Hf Hi; (destruct b as [|[n v] b]; [cbn [index_loop first_or]; by destruct (Z.eqb_spec i 0)|]); [cbn in Hf; lia|].
  cbn [index_loop first_or fst]. destruct (Z.eqb_spec i 0) as [-> |Hne]; [done|]. rewrite (seg_node _ _ _ _ _ _ _ (il_seg _ _ _ Hl)). bsimpl. cbn [Adlist.next].
  rewrite (swrap_small 64) by lia. rewrite (IH (a ++ [(n, v)])); [|by rewrite <- app_assoc|cbn in Hf; lia|lia].
  assert (Z.to_nat i = S (Z.to_nat (i - 1))) as -> by lia. done.
Qed.

Lemma index_prev_ok h l fuel : ∀ a b i, is_list h l (a ++ b) → (length a ≤ fuel)%nat → 0 ≤ i < 2 ^ 63 →
  index_loop fuel h Adlist.prev i (last_or None a) = Some (fst <$> reverse a !! Z.to_nat i).
Proof.
  induction fuel as [|fuel IH]; intros a b i Hl Hf Hi; (destruct a as [|[n v] a _] using rev_ind; [cbn [index_loop last_or last]; by destruct (Z.eqb_spec i 0)|]);
    rewrite length_app in Hf; [cbn in Hf; lia|].
  rewrite last_or_app, reverse_snoc. cbn [index_loop last_or last fst]. destruct (Z.eqb_spec i 0) as [-> |Hne]; [done|]. rewrite <- app_assoc in Hl. rewrite (seg_node _ _ _ _ _ _ _ (il_seg _ _ _ Hl)). bsimpl. cbn [Adlist.prev].
  rewrite (swrap_small 64) by lia. rewrite (IH a ((n, v) :: b)); [|done|cbn in Hf; lia|lia].
  assert (Z.to_nat i = S (Z.to_nat (i - 1))) as -> by lia. done.
Qed.

Lemma search_key_ok h l cs key : is_list h l cs → listSearchKey h l key = Some (fst <$> List.find (λ c, matches l key c.2) cs).
Proof.
  intros Hl. unfold listSearchKey, listGetIterator. change (AL_START_HEAD =? AL_START_HEAD) with true. cbn iota. rewrite (il_head _ _ _ Hl), (il_len _ _ _ Hl).
  apply (search_nodes_ok h l key _ []); [done|lia].
Qed.

Lemma index_ok h l cs i : is_list h l cs → - 2 ^ 63 < i < 2 ^ 63 →
  listIndex h l i = Some (fst <$> (if i <? 0 then reverse cs !! Z.to_nat (- i - 1) else cs !! Z.to_nat i)).
Proof.
  intros Hl Hi. unfold listIndex. rewrite (il_len _ _ _ Hl). destruct (Z.ltb_spec i 0).
  - rewrite (swrap_small 64 (- i)) by lia. rewrite (swrap_small 64) by lia. rewrite (il_tail _ _ _ Hl). apply (index_prev_ok h l _ cs []); [by rewrite app_nil_r|lia|lia].
  - rewrite (il_head _ _ _ Hl). apply (index_next_ok h l _ []); [done|lia|lia].
Qed.

(** The rest of the list is freed. *)
Lemma release_loop_ok freeing : ∀ cs h p freed, dseg h p cs None → NoDup cs.*1 →
  ∃ h', release_loop (length cs) freeing h (first_or None cs) freed = Some (h', if freeing then freed ++ cs.*2 else freed) ∧
    (∀ m, m ∈ cs.*1 → h' !! m = None) ∧ only cs.*1 h h'.
Proof.
  induction cs as [|[n v] cs IH]; intros h p freed Hs Hd.
  { exists h. cbn. rewrite app_nil_r. split; [by destruct freeing|]. split; [set_solver|by intros m _]. }
  destruct Hs as [E Hs]. cbn [fmap list_fmap fst snd] in *. apply NoDup_cons in Hd as [Hn Hd]. cbn [length release_loop first_or fst]. bsimpl. rewrite E. bsimpl. cbn [Adlist.next value].
  destruct (IH (delete n h) (Some n) (if freeing then freed ++ [v] else freed)) as (h' & -> & H1 & H2); [by apply dseg_delete|done|]. exists h'.
  split; [by destruct freeing; [rewrite <- app_assoc|]|]. split.
  - intros m [-> |Hm]%elem_of_cons; [rewrite H2 by done; apply lookup_delete_eq|by apply H1].
  - intros m Hm. apply not_elem_of_cons in Hm as [Hne Hm]. rewrite H2 by done. by apply lookup_delete_ne.
Qed.

Lemma release_nodes_ok h l cs : is_list h l cs →
  ∃ h', listRelease h l = Some (h', if has_free l then cs.*2 else []) ∧ (∀ m, m ∈ cs.*1 → h' !! m = None) ∧ only cs.*1 h h'.
Proof.
  intros [Hs Hd Hh _ Hlen _]. unfold listRelease. rewrite Hlen, Hh, Nat2Z.id. by apply (release_loop_ok (has_free l) cs h None []).
Qed.

(** The rest [b] of [orig] is copied after [cs]. *)
Lemma dup_loop_ok orig f : (∀ v, match dup orig with Some d => d v | None => Some v end = f v) → ∀ b a h copy cs fuel news,
  is_list h orig (a ++ b) → is_list h copy cs → dup copy = dup orig → has_free copy = has_free orig → (∀ n, n ∈ cs.*1 → n ∉ (a ++ b).*1) →
  (∀ i, h !! news i = None) → Inj (=) (=) news → len cs + len b < 2 ^ 64 → (length b < fuel)%nat →
  ∃ h' r freed, dup_loop fuel h copy (mkIter (first_or None b) AL_START_HEAD) news = Some (h', r, freed) ∧ is_list h' orig (a ++ b) ∧
    (∀ m, m ∉ cs.*1 → (∀ i, m ≠ news i) → h' !! m = h !! m) ∧
    match mapM f b.*2 with
    | Some vs => ∃ copy', r = Some copy' ∧ freed = [] ∧ is_list h' copy' (cs ++ imap (λ i v, (news i, v)) vs)
    | None => r = None ∧ ∃ vs, freed = if has_free orig then cs.*2 ++ vs else []
    end.
Proof.
  intros Hf b. induction b as [|[n v] b IH]; intros a h copy cs fuel news Hl Hc Ed Ef Hdis Hnew Hinj Hb Hfuel; (destruct fuel as [|fuel]; [cbn in Hfuel; lia|]); cbn [dup_loop first_or].
  { exists h, (Some copy), []. split; [done|]. split; [done|]. split; [done|]. cbn. exists copy. by rewrite app_nil_r. }
  cbn [fst]. rewrite (next_head _ _ _ _ _ _ Hl). bsimpl. rewrite (seg_node _ _ _ _ _ _ _ (il_seg _ _ _ Hl)). bsimpl. rewrite Ed, Hf. cbn [value fmap list_fmap snd mapM].
  destruct (f v) as [w|]; bsimpl.
  - destruct (addTail_ok h copy cs (news 0%nat) w Hc (Hnew _)) as (h1 & copy1 & -> & Hc1 & O1 & Ed1 & Ef1 & _); [cbn in Hb; lia|]. bsimpl.
    assert (∀ m, m ∉ cs.*1 → m ≠ news 0%nat → h1 !! m = h !! m) as O1' by (intros m Hm Hne; apply O1; rewrite fmap_app; set_solver).
    assert (is_list h1 orig ((a ++ [(n, v)]) ++ b)) as Hl1.
    { rewrite <- app_assoc. destruct Hl as [Hs ? ? ? ? ?]. split; [|done..]. eapply dseg_only; [exact Hs|exact O1|]. intros m Hm. rewrite fmap_app.
      assert (m ≠ news 0%nat) as Hne by (intros ->; apply (is_list_absent h orig _ (news 0%nat)) in Hm; [done|by split|done]). apply not_elem_of_cons. split; [done|]. apply not_elem_of_app.
      split; [intros Hin; by apply (Hdis _ Hin)|]. cbn. set_solver. }
    destruct (IH (a ++ [(n, v)]) h1 copy1 (cs ++ [(news 0%nat, w)]) fuel (λ i, news (S i)) Hl1 Hc1) as (h2 & r & freed & -> & Hl2 & O2 & Hr).
    + by rewrite Ed1.
    + by rewrite Ef1.
    + intros m. rewrite fmap_app. intros [Hm|Hm]%elem_of_app; [rewrite <- app_assoc; by apply Hdis|]. apply list_elem_of_singleton in Hm as ->. cbn [fst]. rewrite <- app_assoc.
      by apply (is_list_absent _ _ _ _ Hl).
    + intros i. rewrite O1'; [apply Hnew| |by intros [=]%(inj news)]. intros Hm. by apply (is_list_absent _ _ _ _ Hc (Hnew (S i))).
    + by intros i j [=]%(inj news).
    + rewrite length_app. cbn in *. lia.
    + cbn in Hfuel. lia.
    + exists h2, r, freed. split; [done|]. split; [by rewrite <- app_assoc in Hl2|]. split.
      { intros m Hm Hi. rewrite O2; [by apply O1'| |by intros i; apply Hi]. rewrite fmap_app. intros [?|?%list_elem_of_singleton]%elem_of_app; [done|by apply (Hi 0%nat)]. }
      change (snd <$> b) with b.*2 in *. destruct (mapM f b.*2) as [vs|]; bsimpl.
      * destruct Hr as (copy' & ? & ? & Hr). exists copy'. split; [done|]. split; [done|]. by rewrite <- app_assoc in Hr.
      * destruct Hr as (-> & vs & ->). split; [done|]. exists (w :: vs). destruct (has_free orig); [|done]. by rewrite fmap_app, <- app_assoc.
  - destruct (release_nodes_ok h copy cs Hc) as (h1 & -> & _ & O1). bsimpl. exists h1, None, (if has_free copy then cs.*2 else []). split; [done|]. split.
    + destruct Hl as [Hs ? ? ? ? ?]. split; [|done..]. eapply dseg_only; [exact Hs|exact O1|]. intros m Hm Hin. by apply (Hdis _ Hin).
    + split; [intros m Hm _; by apply O1|]. split; [done|]. exists []. rewrite app_nil_r. by rewrite Ef.
Qed.

Lemma empty_list h d f m : is_list h (mkList None None d f m 0) [].
Proof. split; [done|constructor|done|done|done|cbn; lia]. Qed.

(** C19. The operations that change a list are those of lists: a value is added
    at either end, before or after any node, a node is taken out wherever it is,
    and the last node becomes the first.  Both directions of the list, its ends
    and its length agree after each; no node that is not in the list changes, the
    node taken out is freed, and its value is passed to the list's [free]. *)
Theorem list_changes h l cs : is_list h l cs →
  (∀ new v, h !! new = None → len cs < 2 ^ 64 - 1 →
    added h l new ((new, v) :: cs) (listAddNodeHead h l new v) ∧ added h l new (cs ++ [(new, v)]) (listAddNodeTail h l new v) ∧
    ∀ a n w b, cs = a ++ (n, w) :: b →
      added h l new (a ++ (n, w) :: (new, v) :: b) (listInsertNode h l n new v true) ∧
      added h l new (a ++ (new, v) :: (n, w) :: b) (listInsertNode h l n new v false)) ∧
  (∀ a n w b, cs = a ++ (n, w) :: b →
    ∃ h' l', listDelNode h l n = Some (h', l', if has_free l then Some w else None) ∧ is_list h' l' (a ++ b) ∧ only cs.*1 h h' ∧ h' !! n = None) ∧
  (∀ a c, cs = a ++ [c] → ∃ h' l', listRotate h l = Some (h', l') ∧ is_list h' l' (c :: a) ∧ only cs.*1 h h').
Proof.
  intros Hl. split; [|split].
  - intros new v Hn Hb. split; [by apply addHead_ok|]. split; [by apply addTail_ok|]. intros a n w b ->.
    split; [by apply (insertNode_ok h l a n w b new v true)|by apply (insertNode_ok h l a n w b new v false)].
  - intros a n w b ->. destruct (delNode_ok h l a n w b Hl) as (h' & l' & H1 & H2 & H3 & H4 & _). by exists h', l'.
  - intros a c ->. by apply rotate_ok.
Qed.

(** C20. What is read of a list is what it holds: a search finds the first value
    that matches, an index counts from the head, or from the tail if it is
    negative, an iterator goes from node to node in its direction, and goes on
    with the rest if the node it just returned is deleted.  A copy holds the
    values, or what [dup] makes of them, on new nodes, if [dup] never fails;
    else there is none, and what it had is released. *)
Theorem list_reads h l cs : is_list h l cs →
  (∀ key, listSearchKey h l key = Some (fst <$> List.find (λ c, matches l key c.2) cs)) ∧
  (∀ i, - 2 ^ 63 < i < 2 ^ 63 → listIndex h l i = Some (fst <$> (if i <? 0 then reverse cs !! Z.to_nat (- i - 1) else cs !! Z.to_nat i))) ∧
  (∀ a n v b, cs = a ++ (n, v) :: b →
    listNext h (mkIter (Some n) AL_START_TAIL) = Some (Some n, mkIter (last_or None a) AL_START_TAIL) ∧
    ∃ iter h' l', listNext h (mkIter (Some n) AL_START_HEAD) = Some (Some n, iter) ∧
      listDelNode h l n = Some (h', l', if has_free l then Some v else None) ∧ is_list h' l' (a ++ b) ∧ iter = mkIter (first_or None b) AL_START_HEAD) ∧
  (∀ news, (∀ i, h !! news i = None) → Inj (=) (=) news →
    ∃ h' r freed, listDup h l news = Some (h', r, freed) ∧ is_list h' l cs ∧ (∀ m, (∀ i, m ≠ news i) → h' !! m = h !! m) ∧
      match mapM (λ v, match dup l with Some d => d v | None => Some v end) cs.*2 with
      | Some vs => ∃ copy, r = Some copy ∧ is_list h' copy (imap (λ i v, (news i, v)) vs)
      | None => r = None
      end).
Proof.
  intros Hl. split; [intros key; by apply search_key_ok|]. split; [intros i; by apply index_ok|]. split.
  - intros a n v b ->. split; [by apply (next_tail h l a n v b)|]. destruct (delNode_ok h l a n v b Hl) as (h' & l' & H1 & H2 & _). eexists _, h', l'. split; [exact (next_head h l a n v b Hl)|done].
  - intros news Hn Hi. unfold listDup, listGetIterator. change (AL_START_HEAD =? AL_START_HEAD) with true. cbn iota. rewrite (il_head _ _ _ Hl), (il_len _ _ _ Hl), Nat2Z.id.
    destruct (dup_loop_ok l (λ v, match dup l with Some d => d v | None => Some v end) (λ _, eq_refl) cs [] h _ [] (S (length cs)) news Hl (empty_list h (dup l) (has_free l) (match_ l)) eq_refl eq_refl)
      as (h' & r & freed & -> & H1 & H2 & H3); [set_solver|done|done|pose proof (il_bound _ _ _ Hl); cbn; lia|lia|].
    exists h', r, freed. split; [done|]. split; [exact H1|]. split; [intros m Hm; apply H2; [set_solver|done]|]. destruct (mapM _ _); [|apply H3]. destruct H3 as (copy & -> & _ & H3). by exists copy.
Qed.
End thms.

(** ** Witnesses *)

(** Three nodes. *)
Definition demo_nodes : nodes Z := list_to_map [(1%positive, mkNode None (Some 2%positive) 10); (2%positive, mkNode (Some 1%positive) (Some 3%positive) 20); (3%positive, mkNode (Some 2%positive) None 30)].
Definition demo_list : list_ Z := mkList (Some 1%positive) (Some 3%positive) None true None 3.

Lemma demo_is_list : is_list demo_nodes demo_list [(1%positive, 10); (2%positive, 20); (3%positive, 30)].
Proof. split; try reflexivity; [cbn; by split_and!|by apply (bool_decide_unpack _)]. Qed.

Lemma list_changes_witness : is_list demo_nodes demo_list [(1%positive, 10); (2%positive, 20); (3%positive, 30)] ∧
  ∃ h' l', listRotate demo_nodes demo_list = Some (h', l') ∧ is_list h' l' [(3%positive, 30); (1%positive, 10); (2%positive, 20)].
Proof.
  split; [exact demo_is_list|]. destruct (list_changes demo_nodes demo_list _ demo_is_list) as (_ & _ & H). destruct (H [(1%positive, 10); (2%positive, 20)] (3%positive, 30) eq_refl) as (h' & l' & H1 & H2 & _).
  exists h', l'. split; [exact H1|exact H2].
Defined.

Lemma list_reads_witness : is_list demo_nodes demo_list [(1%positive, 10); (2%positive, 20); (3%positive, 30)] ∧ listSearchKey demo_nodes demo_list 20 = Some (Some 2%positive) ∧
  listIndex demo_nodes demo_list (-1) = Some (Some 3%positive).
Proof.
  split; [exact demo_is_list|]. destruct (list_reads demo_nodes demo_list _ demo_is_list) as (H1 & H2 & _). split; [exact (H1 20)|apply (H2 (-1)); lia].
Defined.
