(* ===== verification/Multi.v ===== *)
(** * Dispatch and transactions: [processCommand] of [redis.c], [multi.c]

    The clients, the keys they watch, the commands they have queued, and what is
    passed on to the file and the slaves.  A client is known by a number, keys
    and arguments are their texts, the output of a client is what was written to
    it in all.  The lists of [adlist.c] are lists ([Adlist]).  The tables
    [watched_keys] of all databases are one map from a database and a key.

    What the commands do that are not of [multi.c] is the argument [run]: the
    data [K] they work on after them, the reply, the keys they signalled as
    modified, and how much they added to the count of changes.  Monitors, the
    slow log, statistics and clients blocked on lists are left out.

    [None] is a failed assertion or a dangling pointer. *)

From S2P Require Import Prelude Util Object Number Client Reply Server DbReply.
From stdpp Require Import gmap.
Local Open Scope Z_scope.

Abbreviation text := (list Z).

Definition REDIS_DIRTY_CAS : Z := Z.shiftl 1 5.
Definition REDIS_DIRTY_EXEC : Z := Z.shiftl 1 12.

Definition REDIS_CMD_WRITE : Z := 1.
Definition REDIS_CMD_READONLY : Z := 2.
Definition REDIS_CMD_DENYOOM : Z := 4.
Definition REDIS_CMD_ADMIN : Z := 16.
Definition REDIS_CMD_PUBSUB : Z := 32.
Definition REDIS_CMD_NOSCRIPT : Z := 64.
Definition REDIS_CMD_RANDOM : Z := 128.
Definition REDIS_CMD_SORT_FOR_SCRIPT : Z := 256.
Definition REDIS_CMD_LOADING : Z := 512.
Definition REDIS_CMD_STALE : Z := 1024.
Definition REDIS_CMD_SKIP_MONITOR : Z := 2048.
Definition REDIS_CMD_FAST : Z := 8192.

(** The flags of a command from its letters, as [populateCommandTable] reads
    them; [None] is a panic. *)
Definition flag_of (f : Z) : option Z :=
  if f =? 119 then Some REDIS_CMD_WRITE
  else if f =? 114 then Some REDIS_CMD_READONLY
  else if f =? 109 then Some REDIS_CMD_DENYOOM
  else if f =? 97 then Some REDIS_CMD_ADMIN
  else if f =? 112 then Some REDIS_CMD_PUBSUB
  else if f =? 115 then Some REDIS_CMD_NOSCRIPT
  else if f =? 82 then Some REDIS_CMD_RANDOM
  else if f =? 83 then Some REDIS_CMD_SORT_FOR_SCRIPT
  else if f =? 108 then Some REDIS_CMD_LOADING
  else if f =? 116 then Some REDIS_CMD_STALE
  else if f =? 77 then Some REDIS_CMD_SKIP_MONITOR
  else if f =? 70 then Some REDIS_CMD_FAST
  else None.

Definition flags_of (sflags : text) : option Z := foldl (λ r f, a ← r; b ← flag_of f; Some (Z.lor a b)) (Some 0) sflags.

(** [cmd->proc], as far as the dispatch tells the commands apart; the others by
    [D]. *)
Inductive proc (D : Type) :=
  | PMulti | PExec | PDiscard | PWatch | PUnwatch
  | PAuth | PPing | PSubscribe | PUnsubscribe | PPsubscribe | PPunsubscribe | PReplconf | PShutdown | PScript
  | PData (d : D).
Arguments PMulti {D}.
Arguments PExec {D}.
Arguments PDiscard {D}.
Arguments PWatch {D}.
Arguments PUnwatch {D}.
Arguments PAuth {D}.
Arguments PPing {D}.
Arguments PSubscribe {D}.
Arguments PUnsubscribe {D}.
Arguments PPsubscribe {D}.
Arguments PPunsubscribe {D}.
Arguments PReplconf {D}.
Arguments PShutdown {D}.
Arguments PScript {D}.
Arguments PData {D}.

Record redisCommand (D : Type) := mkCommand { rc_name : text; rc_proc : proc D; rc_arity : Z; rc_flags : Z }.
Arguments mkCommand {D}.
Arguments rc_name {D}.
Arguments rc_proc {D}.
Arguments rc_arity {D}.
Arguments rc_flags {D}.

Record multiCmd (D : Type) := mkMulti { mc_cmd : redisCommand D; mc_argv : list text }.
Arguments mkMulti {D}.
Arguments mc_cmd {D}.
Arguments mc_argv {D}.

Record mclient (D : Type) := mkMClient {
  m_flags : Z;
  authenticated : bool;
  (** [c->db->id] *)
  m_db : Z;
  m_cmd : option (redisCommand D);
  m_argv : list text;
  watched_keys : list (Z * text);
  commands : list (multiCmd D);
  m_out : list Z
}.
Arguments mkMClient {D}.
Arguments m_flags {D}.
Arguments authenticated {D}.
Arguments m_db {D}.
Arguments m_cmd {D}.
Arguments m_argv {D}.
Arguments watched_keys {D}.
Arguments commands {D}.
Arguments m_out {D}.

Record world (D K : Type) := mkWorld {
  clients : gmap Z (mclient D);
  watchers : gmap (Z * text) (list Z);
  w_data : K;
  w_dirty : Z;
  (** what is passed on: the database and the arguments *)
  w_log : list (Z * list text)
}.
Arguments mkWorld {D K}.
Arguments clients {D K}.
Arguments watchers {D K}.
Arguments w_data {D K}.
Arguments w_dirty {D K}.
Arguments w_log {D K}.

(** A key signalled as modified, or a database emptied ([-1]: all), with the keys
    it had. *)
Inductive touch := TouchKey (db : Z) (key : text) | TouchFlush (dbid : Z) (has : Z → text → bool).

Record ran (K : Type) := mkRan {
  r_data : K;
  r_out : list Z;
  r_touched : list touch;
  r_dirty : Z;
  (** passed on while the command ran *)
  r_feeds : list (Z * list text);
  (** [c->argv], [c->db->id] and [c->authenticated] after it *)
  r_argv : list text;
  r_db : Z;
  r_auth : bool
}.
Arguments mkRan {K}.
Arguments r_data {K}.
Arguments r_out {K}.
Arguments r_touched {K}.
Arguments r_dirty {K}.
Arguments r_feeds {K}.
Arguments r_argv {K}.
Arguments r_db {K}.
Arguments r_auth {K}.

(** The settings and the state of the server that [processCommand] looks at, and
    the clock. *)
Record settings := mkSettings {
  clock : Z;
  requirepass : bool;
  maxmemory : Z;
  stop_writes_on_bgsave_err : bool;
  saveparamslen : Z;
  lastbgsave_status : Z;
  aof_last_write_status : Z;
  aof_error : text;
  has_master : bool;
  repl_min_slaves_to_write : Z;
  repl_min_slaves_max_lag : Z;
  repl_good_slaves_count : Z;
  repl_slave_ro : bool;
  repl_connected : bool;
  repl_serve_stale_data : bool;
  is_loading : bool;
  lua_timedout : bool
}.

Definition has (flags mask : Z) : bool := negb (Z.land flags mask =? 0).

(** The permanent replies. *)
Definition shared_ok : text := str "+OK" ++ crlf.
Definition shared_queued : text := str "+QUEUED" ++ crlf.
Definition shared_nullmultibulk : text := str "*-1" ++ crlf.
Definition shared_execaborterr : text := str "-EXECABORT Transaction discarded because of previous errors." ++ crlf.
Definition shared_noautherr : text := str "-NOAUTH Authentication required." ++ crlf.
Definition shared_oomerr : text := str "-OOM command not allowed when used memory > 'maxmemory'." ++ crlf.
Definition shared_bgsaveerr : text :=
  str "-MISCONF Redis is configured to save RDB snapshots, but is currently not able to persist on disk. Commands that may modify the data set are disabled. Please check Redis logs for details about the error." ++ crlf.
Definition shared_noreplicaserr : text := str "-NOREPLICAS Not enough good slaves to write." ++ crlf.
Definition shared_roslaveerr : text := str "-READONLY You can't write against a read only slave." ++ crlf.
Definition shared_masterdownerr : text := str "-MASTERDOWN Link with MASTER is down and slave-serve-stale-data is set to 'no'." ++ crlf.
Definition shared_loadingerr : text := str "-LOADING Redis is loading the dataset in memory" ++ crlf.
Definition shared_slowscripterr : text := str "-BUSY Redis is busy running a script. You can only call SCRIPT KILL or SHUTDOWN NOSAVE." ++ crlf.

(** [addReplyErrorFormat] with one name printed by [%s] *)
Definition error_about (before name after : text) : text :=
  reply_error (no_newline <$> (before ++ until_nul name ++ after)).

Section multi.
Context {D K : Type}.
Abbreviation world := (world D K).
Abbreviation mclient := (mclient D).
Abbreviation redisCommand := (redisCommand D).
Implicit Types (w : world) (c : mclient) (cid : Z).

(** The table of commands, as it finds names. *)
Context (lookupCommand : text → option redisCommand).
(** The command, with the database, whether its client is authenticated, the
    arguments, and the data. *)
Context (run : settings → redisCommand → Z → bool → list text → K → option (ran K)).
(** The keys left, whether enough memory is free, and the deletions passed on. *)
Context (freeMemoryIfNeeded : K → K * Z * list (Z * list text)).

(** ** Fields *)

Definition put_flags f c : mclient := mkMClient f (authenticated c) (m_db c) (m_cmd c) (m_argv c) (watched_keys c) (commands c) (m_out c).
Definition put_call cmd argv c : mclient := mkMClient (m_flags c) (authenticated c) (m_db c) cmd argv (watched_keys c) (commands c) (m_out c).
Definition put_watched l c : mclient := mkMClient (m_flags c) (authenticated c) (m_db c) (m_cmd c) (m_argv c) l (commands c) (m_out c).
Definition put_commands l c : mclient := mkMClient (m_flags c) (authenticated c) (m_db c) (m_cmd c) (m_argv c) (watched_keys c) l (m_out c).
Definition put_after db auth argv c : mclient := mkMClient (m_flags c) auth db (m_cmd c) argv (watched_keys c) (commands c) (m_out c).
Definition say t c : mclient := mkMClient (m_flags c) (authenticated c) (m_db c) (m_cmd c) (m_argv c) (watched_keys c) (commands c) (m_out c ++ t).

Definition put_clients m w : world := mkWorld m (watchers w) (w_data w) (w_dirty w) (w_log w).
Definition put_watchers m w : world := mkWorld (clients w) m (w_data w) (w_dirty w) (w_log w).
Definition put_data k w : world := mkWorld (clients w) (watchers w) k (w_dirty w) (w_log w).
Definition put_wdirty n w : world := mkWorld (clients w) (watchers w) (w_data w) n (w_log w).
Definition pass_on l w : world := mkWorld (clients w) (watchers w) (w_data w) (w_dirty w) (w_log w ++ l).

(** The client [cid] is changed in place. *)
Definition on (cid : Z) (f : mclient → mclient) w : option world := c ← clients w !! cid; Some (put_clients (<[cid := f c]> (clients w)) w).

Definition addReply cid (t : text) : world → option world := on cid (say t).

Section commands.
Context (cfg : settings).

(** ** Queueing *)

Definition initClientMultiState c : mclient := put_commands [] c.

Definition queueMultiCommand cid w : option world :=
  c ← clients w !! cid;
  cmd ← m_cmd c;
  on cid (put_commands (commands c ++ [mkMulti cmd (m_argv c)])) w.

Definition flagTransaction cid : world → option world :=
  on cid (λ c, if has (m_flags c) REDIS_MULTI then put_flags (Z.lor (m_flags c) REDIS_DIRTY_EXEC) c else c).

(** ** Watching *)

Definition watchForKey cid (key : text) w : option world :=
  c ← clients w !! cid;
  let wk := (m_db c, key) in
  if bool_decide (wk ∈ watched_keys c) then Some w
  else
    let l := default [] (watchers w !! wk) in
    on cid (put_watched (watched_keys c ++ [wk])) (put_watchers (<[wk := l ++ [cid]]> (watchers w)) w).

(** The list without the first occurrence; there is one. *)
Fixpoint remove_first (cid : Z) (l : list Z) : option (list Z) :=
  match l with
  | [] => None
  | x :: l => if x =? cid then Some l else l ← remove_first cid l; Some (x :: l)
  end.

Fixpoint unwatch_loop (wks : list (Z * text)) cid w : option world :=
  match wks with
  | [] => Some w
  | wk :: wks =>
      l ← watchers w !! wk;
      l ← remove_first cid l;
      w ← on cid (put_watched wks) (put_watchers (match l with [] => delete wk (watchers w) | _ => <[wk := l]> (watchers w) end) w);
      unwatch_loop wks cid w
  end.

Definition unwatchAllKeys cid w : option world :=
  c ← clients w !! cid;
  if len (watched_keys c) =? 0 then Some w else unwatch_loop (watched_keys c) cid w.

(** One client after the other is marked. *)
Fixpoint mark (l : list Z) w : option world :=
  match l with
  | [] => Some w
  | cid :: l => w ← on cid (λ c, put_flags (Z.lor (m_flags c) REDIS_DIRTY_CAS) c) w; mark l w
  end.

Definition touchWatchedKey (db : Z) (key : text) w : option world :=
  match watchers w !! (db, key) with None => Some w | Some l => mark l w end.

Definition touchWatchedKeysOnFlush (dbid : Z) (has : Z → text → bool) w : world :=
  put_clients ((λ c,
    if existsb (λ wk : Z * text, ((dbid =? -1) || (wk.1 =? dbid)) && has wk.1 wk.2) (watched_keys c)
    then put_flags (Z.lor (m_flags c) REDIS_DIRTY_CAS) c else c) <$> clients w) w.

(** [signalModifiedKey], [signalFlushedDb] *)
Definition signal (t : touch) w : option world :=
  match t with TouchKey db key => touchWatchedKey db key w | TouchFlush dbid has => Some (touchWatchedKeysOnFlush dbid has w) end.

Fixpoint signal_all (l : list touch) w : option world :=
  match l with [] => Some w | t :: l => w ← signal t w; signal_all l w end.

(** ** The commands *)

Definition discardTransaction cid w : option world :=
  w ← on cid (λ c, let c := initClientMultiState c in put_flags (Z.land (m_flags c) (Z.lnot (Z.lor REDIS_MULTI (Z.lor REDIS_DIRTY_CAS REDIS_DIRTY_EXEC)))) c) w;
  unwatchAllKeys cid w.

Definition multiCommand cid w : option world :=
  c ← clients w !! cid;
  if has (m_flags c) REDIS_MULTI then addReply cid (reply_error (str "MULTI calls can not be nested")) w
  else w ← on cid (λ c, put_flags (Z.lor (m_flags c) REDIS_MULTI) c) w; addReply cid shared_ok w.

Definition discardCommand cid w : option world :=
  c ← clients w !! cid;
  if negb (has (m_flags c) REDIS_MULTI) then addReply cid (reply_error (str "DISCARD without MULTI")) w
  else w ← discardTransaction cid w; addReply cid shared_ok w.

Fixpoint watch_each (keys : list text) cid w : option world :=
  match keys with [] => Some w | k :: keys => w ← watchForKey cid k w; watch_each keys cid w end.

Definition watchCommand cid w : option world :=
  c ← clients w !! cid;
  if has (m_flags c) REDIS_MULTI then addReply cid (reply_error (str "WATCH inside MULTI is not allowed")) w
  else w ← watch_each (drop 1 (m_argv c)) cid w; addReply cid shared_ok w.

Definition unwatchCommand cid w : option world :=
  w ← unwatchAllKeys cid w;
  w ← on cid (λ c, put_flags (Z.land (m_flags c) (Z.lnot REDIS_DIRTY_CAS)) c) w;
  addReply cid shared_ok w.

(** A command that is not of this file: what it signals takes effect on the
    clients, its reply goes to [cid]. *)
Definition runCommand (cmd : redisCommand) cid w : option world :=
  c ← clients w !! cid;
  r ← run cfg cmd (m_db c) (authenticated c) (m_argv c) (w_data w);
  w ← signal_all (r_touched r) (put_wdirty (w_dirty w + r_dirty r) (put_data (r_data r) (pass_on (r_feeds r) w)));
  on cid (λ c, say (r_out r) (put_after (r_db r) (r_auth r) (r_argv r) c)) w.

(** What a command that was queued runs. *)
Definition proc_queued cid w : option world :=
  c ← clients w !! cid;
  cmd ← m_cmd c;
  match rc_proc cmd with
  | PMulti | PExec | PDiscard | PWatch => None
  | PUnwatch => unwatchCommand cid w
  | _ => runCommand cmd cid w
  end.

(** [call] around the procedure of the command: it is passed on if the count of
    changes rose, with the arguments it has then. *)
Definition call_of (proc : Z → world → option world) cid w : option world :=
  let dirty0 := w_dirty w in
  w ← proc cid w;
  let dirty := w_dirty w - dirty0 in
  let dirty := if dirty <? 0 then 0 else dirty in
  c ← clients w !! cid;
  Some (if dirty =? 0 then w else pass_on [(m_db c, m_argv c)] w).

(** [c->cmd] after a command that may have changed its arguments. *)
Definition cmd_after (cmd : redisCommand) (argv : list text) : redisCommand :=
  match argv with t :: _ => default cmd (lookupCommand t) | [] => cmd end.

Definition execCommandPropagateMulti cid w : option world :=
  c ← clients w !! cid;
  Some (pass_on [(m_db c, [str "MULTI"])] w).

(** The [n] commands from [j] on. *)
Fixpoint exec_loop (n : nat) (j : nat) (must_propagate : bool) cid w : option (world * bool) :=
  match n with
  | O => Some (w, must_propagate)
  | S n =>
      c ← clients w !! cid;
      mc ← commands c !! j;
      w ← on cid (put_call (Some (mc_cmd mc)) (mc_argv mc)) w;
      '(w, must_propagate) ← (if negb must_propagate && negb (has (rc_flags (mc_cmd mc)) REDIS_CMD_READONLY)
                              then w ← execCommandPropagateMulti cid w; Some (w, true)
                              else Some (w, must_propagate));
      w ← call_of proc_queued cid w;
      w ← on cid (λ c, put_commands (<[j := mkMulti (cmd_after (mc_cmd mc) (m_argv c)) (m_argv c)]> (commands c)) c) w;
      exec_loop n (S j) must_propagate cid w
  end.

Definition execCommand cid w : option world :=
  c ← clients w !! cid;
  if negb (has (m_flags c) REDIS_MULTI) then addReply cid (reply_error (str "EXEC without MULTI")) w
  else if has (m_flags c) (Z.lor REDIS_DIRTY_CAS REDIS_DIRTY_EXEC) then
    w ← addReply cid (if has (m_flags c) REDIS_DIRTY_EXEC then shared_execaborterr else shared_nullmultibulk) w;
    discardTransaction cid w
  else
    w ← unwatchAllKeys cid w;
    w ← addReply cid (reply_multi (len (commands c))) w;
    '(w, must_propagate) ← exec_loop (length (commands c)) 0 false cid w;
    w ← on cid (put_call (m_cmd c) (m_argv c)) w;
    w ← discardTransaction cid w;
    Some (if must_propagate : bool then put_wdirty (w_dirty w + 1) w else w).

Definition proc_any cid w : option world :=
  c ← clients w !! cid;
  cmd ← m_cmd c;
  match rc_proc cmd with
  | PMulti => multiCommand cid w
  | PExec => execCommand cid w
  | PDiscard => discardCommand cid w
  | PWatch => watchCommand cid w
  | _ => proc_queued cid w
  end.

Definition call : Z → world → option world := call_of proc_any.

(** ** Dispatch *)

Definition is_pubsub (p : proc D) : bool := match p with PPing | PSubscribe | PUnsubscribe | PPsubscribe | PPunsubscribe => true | _ => false end.
Definition is_ping (p : proc D) : bool := match p with PPing => true | _ => false end.
Definition is_auth (p : proc D) : bool := match p with PAuth => true | _ => false end.

(** The commands allowed while a script is too slow. *)
Definition unblocks (cmd : redisCommand) (argv : list text) : bool :=
  match rc_proc cmd with
  | PAuth | PReplconf => true
  | PShutdown => (len argv =? 2) && (tolower (default 0 (a ← argv !! 1%nat; a !! 0%nat)) =? 110)
  | PScript => (len argv =? 2) && (tolower (default 0 (a ← argv !! 1%nat; a !! 0%nat)) =? 107)
  | _ => false
  end.

Definition bad_arity (cmd : redisCommand) (argv : list text) : bool :=
  ((0 <? rc_arity cmd) && negb (rc_arity cmd =? len argv)) || (len argv <? - rc_arity cmd).

(** The reply to a command that is refused, and whether the transaction is
    flagged for it. *)
Definition refusal (oom : bool) c (cmd : redisCommand) : option (text * bool) :=
  let write := has (rc_flags cmd) REDIS_CMD_WRITE in
  if requirepass cfg && negb (authenticated c) && negb (is_auth (rc_proc cmd)) then Some (shared_noautherr, true)
  else if has (rc_flags cmd) REDIS_CMD_DENYOOM && oom then Some (shared_oomerr, true)
  else if ((stop_writes_on_bgsave_err cfg && (0 <? saveparamslen cfg) && (lastbgsave_status cfg =? REDIS_ERR)) || (aof_last_write_status cfg =? REDIS_ERR)) &&
          negb (has_master cfg) && (write || is_ping (rc_proc cmd)) then
    Some (if aof_last_write_status cfg =? REDIS_OK then shared_bgsaveerr else str "-MISCONF Errors writing to the AOF file: " ++ aof_error cfg ++ crlf, true)
  else if negb (has_master cfg) && negb (repl_min_slaves_to_write cfg =? 0) && negb (repl_min_slaves_max_lag cfg =? 0) && write &&
          (repl_good_slaves_count cfg <? repl_min_slaves_to_write cfg) then Some (shared_noreplicaserr, true)
  else if has_master cfg && repl_slave_ro cfg && negb (has (m_flags c) REDIS_MASTER) && write then Some (shared_roslaveerr, false)
  else if has (m_flags c) REDIS_PUBSUB && negb (is_pubsub (rc_proc cmd)) then
    Some (reply_error (str "only (P)SUBSCRIBE / (P)UNSUBSCRIBE / QUIT allowed in this context"), false)
  else if has_master cfg && negb (repl_connected cfg) && negb (repl_serve_stale_data cfg) && negb (has (rc_flags cmd) REDIS_CMD_STALE) then Some (shared_masterdownerr, true)
  else if is_loading cfg && negb (has (rc_flags cmd) REDIS_CMD_LOADING) then Some (shared_loadingerr, false)
  else if lua_timedout cfg && negb (unblocks cmd (m_argv c)) then Some (shared_slowscripterr, true)
  else None.

Definition queues (p : proc D) : bool := match p with PExec | PDiscard | PMulti | PWatch => false | _ => true end.

(** The arguments are those of the request; 0 or -1 is returned. *)
Definition processCommand cid w : option (world * Z) :=
  c ← clients w !! cid;
  name ← m_argv c !! 0%nat;
  if bool_decide (tolower <$> until_nul name = str "quit") then
    w ← addReply cid shared_ok w;
    w ← on cid (λ c, put_flags (Z.lor (m_flags c) REDIS_CLOSE_AFTER_REPLY) c) w;
    Some (w, REDIS_ERR)
  else
    w ← on cid (λ c, put_call (lookupCommand name) (m_argv c) c) w;
    match lookupCommand name with
    | None =>
        w ← flagTransaction cid w;
        w ← addReply cid (error_about (str "unknown command '") name (str "'")) w;
        Some (w, REDIS_OK)
    | Some cmd =>
        if bad_arity cmd (m_argv c) then
          w ← flagTransaction cid w;
          w ← addReply cid (error_about (str "wrong number of arguments for '") (rc_name cmd) (str "' command")) w;
          Some (w, REDIS_OK)
        else
          let free := (negb (requirepass cfg && negb (authenticated c) && negb (is_auth (rc_proc cmd)))) && negb (maxmemory cfg =? 0) in
          let '(k, retval, feeds) := if free then freeMemoryIfNeeded (w_data w) else (w_data w, REDIS_OK, []) in
          let w := put_data k (pass_on feeds w) in
          match refusal (retval =? REDIS_ERR) c cmd with
          | Some (t, flagged) =>
              w ← (if flagged : bool then flagTransaction cid w else Some w);
              w ← addReply cid t w;
              Some (w, REDIS_OK)
          | None =>
              if has (m_flags c) REDIS_MULTI && queues (rc_proc cmd) then
                w ← queueMultiCommand cid w;
                w ← addReply cid shared_queued w;
                Some (w, REDIS_OK)
              else
                w ← call cid w;
                Some (w, REDIS_OK)
          end
    end.

End commands.

(** ** Clients come and go *)

Definition createClient cid w : option world :=
  match clients w !! cid with
  | Some _ => None
  | None => Some (put_clients (<[cid := mkMClient 0 false 0 None [] [] [] []]> (clients w)) w)
  end.

(** As far as [freeClient] concerns transactions. *)
Definition freeClient cid w : option world :=
  w ← unwatchAllKeys cid w;
  Some (put_clients (delete cid (clients w)) w).

(** What happens to the server: a request is read, with the settings of the
    moment, or a client comes or goes. *)
Inductive event := Request (cid : Z) (cfg : settings) (argv : list text) | Connect (cid : Z) | Leave (cid : Z).

Definition step (e : event) w : option world :=
  match e with
  | Request cid cfg argv => w ← on cid (λ c, put_call (m_cmd c) argv c) w; '(w, _) ← processCommand cfg cid w; Some w
  | Connect cid => createClient cid w
  | Leave cid => freeClient cid w
  end.

Inductive steps : list event → world → world → Prop :=
  | steps_nil w : steps [] w w
  | steps_cons e l w1 w2 w3 : step e w1 = Some w2 → steps l w2 w3 → steps (e :: l) w1 w3.
End multi.
Arguments steps {D K}.
