(* ===== verification/MultiSpec.v ===== *)
(** * What transactions promise

    The two indexes of who watches what agree, whatever is done to them; a client
    that watches a key is marked when it is touched; and what the steps of
    [Multi] leave alone. *)

From S2P Require Import Prelude Util Object Number Client Reply Server DbReply Multi.
From stdpp Require Import gmap.
Local Open Scope Z_scope.

(** ** Flags *)

Lemma has_bit f n : 0 ≤ n → has f (Z.shiftl 1 n) = Z.testbit f n.
Proof.
  intros Hn. unfold has. rewrite Z.shiftl_1_l. destruct (Z.testbit f n) eqn:Eb.
  - apply negb_true_iff, Z.eqb_neq. intros E. apply (f_equal (λ z, Z.testbit z n)) in E. rewrite Z.land_spec, Z.pow2_bits_true, Eb, Z.bits_0 in E by done. done.
  - apply negb_false_iff, Z.eqb_eq. apply Z.bits_inj'. intros m Hm. rewrite Z.land_spec, Z.bits_0, Z.pow2_bits_eqb by done. destruct (Z.eqb_spec n m); [subst; by rewrite Eb|apply andb_false_r].
Qed.

Lemma has_or f a b : has f (Z.lor a b) = has f a || has f b.
Proof.
  unfold has. rewrite Z.land_lor_distr_r. destruct (Z.eqb_spec (Z.land f a) 0) as [-> |Ha]; [by rewrite Z.lor_0_l|]. cbn [negb orb].
  apply negb_true_iff, Z.eqb_neq. intros E. by apply Z.lor_eq_0_iff in E as [? _].
Qed.

Lemma has_set f n m : 0 ≤ n → 0 ≤ m → has (Z.lor f (Z.shiftl 1 n)) (Z.shiftl 1 m) = has f (Z.shiftl 1 m) || (n =? m).
Proof. intros Hn Hm. rewrite !has_bit, Z.lor_spec by done. by rewrite Z.shiftl_1_l, Z.pow2_bits_eqb. Qed.

Lemma has_clear f a m : 0 ≤ m → has (Z.land f (Z.lnot a)) (Z.shiftl 1 m) = has f (Z.shiftl 1 m) && negb (Z.testbit a m).
Proof. intros Hm. rewrite !has_bit by done. by rewrite Z.land_spec, Z.lnot_spec. Qed.

Definition TX_FLAGS : Z := Z.lor REDIS_MULTI (Z.lor REDIS_DIRTY_CAS REDIS_DIRTY_EXEC).

Section spec.
Context {D K : Type}.
Abbreviation world := (world D K).
Abbreviation mclient := (mclient D).
Implicit Types (w : world) (c : mclient) (cid i : Z) (wk : Z * text).

Definition in_multi c : bool := has (m_flags c) REDIS_MULTI.
Definition cas c : bool := has (m_flags c) REDIS_DIRTY_CAS.
Definition err c : bool := has (m_flags c) REDIS_DIRTY_EXEC.

(** Marked as touched. *)
Definition marked c : mclient := put_flags (Z.lor (m_flags c) REDIS_DIRTY_CAS) c.

Lemma marked_flags c : in_multi (marked c) = in_multi c ∧ cas (marked c) = true ∧ err (marked c) = err c.
Proof.
  unfold in_multi, cas, err, marked, REDIS_MULTI, REDIS_DIRTY_CAS, REDIS_DIRTY_EXEC. cbn [m_flags put_flags]. rewrite !has_set by lia.
  change (5 =? 3) with false. change (5 =? 12) with false. by rewrite !orb_false_r, orb_true_r.
Qed.

Lemma marked_marked c : marked (marked c) = marked c.
Proof. unfold marked, put_flags. cbn. by rewrite <- Z.lor_assoc, Z.lor_diag. Qed.

(** ** The indexes *)

Definition wkeys w : gmap Z (list (Z * text)) := watched_keys <$> clients w.

Record linked (m : gmap Z (list (Z * text))) (t : gmap (Z * text) (list Z)) : Prop := {
  lk_nodup : ∀ i l, m !! i = Some l → NoDup l;
  lk_lists : ∀ wk l, t !! wk = Some l → l ≠ [] ∧ NoDup l;
  lk_there : ∀ wk l i, t !! wk = Some l → i ∈ l → ∃ ks, m !! i = Some ks ∧ wk ∈ ks;
  lk_back : ∀ i ks wk, m !! i = Some ks → wk ∈ ks → ∃ l, t !! wk = Some l ∧ i ∈ l
}.

Lemma linked_add m t i ks wk : linked m t → m !! i = Some ks → wk ∉ ks →
  linked (<[i := ks ++ [wk]]> m) (<[wk := default [] (t !! wk) ++ [i]]> t).
Proof.
  intros [H1 H2 H3 H4] Hi Hn. assert (i ∉ default [] (t !! wk)) as Hni.
  { destruct (t !! wk) as [l|] eqn:El; cbn; [|by apply not_elem_of_nil]. intros Hin. destruct (H3 wk l i El Hin) as (ks' & Ek & Hk). congruence. }
  assert (NoDup (default [] (t !! wk))) as Hd by (destruct (t !! wk) as [l|] eqn:El; cbn; [by apply (H2 wk)|constructor]). split.
  - intros j l. destruct (decide (j = i)) as [-> |Hj]; [rewrite lookup_insert_eq; intros [= <-]|rewrite lookup_insert_ne by done; apply H1].
    apply NoDup_app. split; [by apply (H1 i)|]. split; [intros x Hx ->%list_elem_of_singleton; done|apply NoDup_singleton].
  - intros wk' l. destruct (decide (wk' = wk)) as [-> |Hw]; [rewrite lookup_insert_eq; intros [= <-]|rewrite lookup_insert_ne by done; apply H2].
    split; [by intros [_ ?]%app_nil|]. apply NoDup_app. split; [done|]. split; [intros x Hx ->%list_elem_of_singleton; done|apply NoDup_singleton].
  - intros wk' l j. destruct (decide (wk' = wk)) as [-> |Hw].
    + rewrite lookup_insert_eq. intros [= <-] [Hin| ->%list_elem_of_singleton]%elem_of_app.
      * destruct (t !! wk) as [l|] eqn:El; cbn in *; [|by apply not_elem_of_nil in Hin]. destruct (H3 wk l j El Hin) as (ks' & Ek & Hk).
        destruct (decide (j = i)) as [-> |Hj]; [done|]. exists ks'. by rewrite lookup_insert_ne.
      * exists (ks ++ [wk]). rewrite lookup_insert_eq. set_solver.
    + rewrite lookup_insert_ne by done. intros El Hin. destruct (H3 wk' l j El Hin) as (ks' & Ek & Hk). destruct (decide (j = i)) as [-> |Hj].
      * exists (ks ++ [wk]). rewrite lookup_insert_eq. set_solver.
      * exists ks'. by rewrite lookup_insert_ne.
  - intros j ks' wk' Hj Hin.
    assert (wk' = wk ∧ j = i ∨ ∃ l, t !! wk' = Some l ∧ j ∈ l) as [[-> ->]|(l & El & Hl)].
    { destruct (decide (j = i)) as [-> |Hne]; [|rewrite lookup_insert_ne in Hj by done; right; by apply (H4 j ks')].
      rewrite lookup_insert_eq in Hj. injection Hj as <-. apply elem_of_app in Hin as [Hin| ->%list_elem_of_singleton]; [right; by apply (H4 i ks)|by left]. }
    + eexists. rewrite lookup_insert_eq. split; [done|set_solver].
    + destruct (decide (wk' = wk)) as [-> |Hw]; [|exists l; by rewrite lookup_insert_ne]. eexists. rewrite lookup_insert_eq, El. split; [done|]. cbn. set_solver.
Qed.

Lemma remove_first_ok i l : NoDup l → i ∈ l → ∃ l', remove_first i l = Some l' ∧ NoDup l' ∧ ∀ j, j ∈ l' ↔ j ∈ l ∧ j ≠ i.
Proof.
  induction l as [|x l IH]; intros Hd Hi; [by apply not_elem_of_nil in Hi|]. apply NoDup_cons in Hd as [Hx Hd]. cbn. destruct (Z.eqb_spec x i) as [-> |Hne].
  - exists l. split; [done|]. split; [done|]. set_solver.
  - apply elem_of_cons in Hi as [|Hi]; [congruence|]. destruct (IH Hd Hi) as (l' & -> & Hd' & Hl'). bsimpl. exists (x :: l'). split; [done|].
    split; [apply NoDup_cons; split; [rewrite Hl'; tauto|done]|]. intros j. rewrite !elem_of_cons, Hl'. split; [intros [-> |[]]; tauto|tauto].
Qed.

Lemma linked_remove m t i wk ks l l' : linked m t → m !! i = Some (wk :: ks) → t !! wk = Some l → NoDup l' → (∀ j, j ∈ l' ↔ j ∈ l ∧ j ≠ i) →
  linked (<[i := ks]> m) (match l' with [] => delete wk t | _ => <[wk := l']> t end).
Proof.
  intros [H1 H2 H3 H4] Hi Hl Hd' Hl'. set (t' := match l' with [] => _ | _ => _ end).
  assert (∀ wk', wk' ≠ wk → t' !! wk' = t !! wk') as Ho by (intros wk' Hw; unfold t'; destruct l'; [by rewrite lookup_delete_ne|by rewrite lookup_insert_ne]).
  assert (∀ l2, t' !! wk = Some l2 ↔ l2 = l' ∧ l' ≠ []) as Hw.
  { intros l2. unfold t'. destruct l'; [rewrite lookup_delete_eq; split; [done|by intros [_ ?]]|rewrite lookup_insert_eq; split; [intros [= <-]; done|by intros [-> _]]]. }
  pose proof (H1 i _ Hi) as Hnd. apply NoDup_cons in Hnd as [Hwk Hnd]. split.
  - intros j kl. destruct (decide (j = i)) as [-> |Hj]; [rewrite lookup_insert_eq; intros [= <-]; done|rewrite lookup_insert_ne by done; apply H1].
  - intros wk' l2. destruct (decide (wk' = wk)) as [-> |Hne]; [intros [-> ?]%Hw; done|rewrite Ho by done; apply H2].
  - intros wk' l2 j. destruct (decide (wk' = wk)) as [-> |Hne].
    + intros [-> _]%Hw [Hj Hji]%Hl'. rewrite lookup_insert_ne by done. by apply (H3 wk l).
    + rewrite Ho by done. intros El Hin. destruct (H3 wk' l2 j El Hin) as (ks' & Ek & Hk). destruct (decide (j = i)) as [-> |Hj].
      * exists ks. rewrite lookup_insert_eq. split; [done|]. rewrite Hi in Ek. injection Ek as <-. set_solver.
      * exists ks'. by rewrite lookup_insert_ne.
  - intros j ks' wk' Hj Hin. destruct (decide (j = i)) as [-> |Hji].
    + rewrite lookup_insert_eq in Hj. injection Hj as <-. assert (wk' ≠ wk) as Hne by congruence. rewrite Ho by done. apply (H4 i (wk :: ks)); [done|by right].
    + rewrite lookup_insert_ne in Hj by done. destruct (H4 j ks' wk' Hj Hin) as (l2 & El & Hl2). destruct (decide (wk' = wk)) as [-> |Hne]; [|exists l2; by rewrite Ho].
      rewrite Hl in El. injection El as <-. exists l'. assert (j ∈ l') as Hj' by (by apply Hl'). split; [apply Hw; split; [done|by intros ->; apply not_elem_of_nil in Hj']|done].
Qed.

(** ** Steps of the clients *)

Lemma wkeys_insert w i c m : wkeys (put_clients (<[i := c]> m) w) = <[i := watched_keys c]> (watched_keys <$> m).
Proof. apply fmap_insert. Qed.

Lemma on_ok cid f w c : clients w !! cid = Some c → on cid f w = Some (put_clients (<[cid := f c]> (clients w)) w).
Proof. intros E. unfold on. by rewrite E. Qed.

(** [w'] is [w] but for the clients and the index. *)
Definition only_clients w w' : Prop := w_data w' = w_data w ∧ w_dirty w' = w_dirty w ∧ w_log w' = w_log w.

Lemma unwatch_loop_ok cid wks : ∀ w c, linked (wkeys w) (watchers w) → clients w !! cid = Some c → watched_keys c = wks →
  ∃ t, unwatch_loop wks cid w = Some (put_watchers t (put_clients (<[cid := put_watched [] c]> (clients w)) w)) ∧ linked (<[cid := []]> (wkeys w)) t.
Proof.
  induction wks as [|wk wks IH]; intros w c Hl Hc Hw; cbn [unwatch_loop].
  - exists (watchers w). destruct w as [m t d n lg], c; cbn in *; subst. unfold put_watched, put_watchers, put_clients. cbn. rewrite insert_id by done. split; [done|].
    rewrite insert_id; [done|]. unfold wkeys. cbn. by rewrite lookup_fmap, Hc.
  - assert (wkeys w !! cid = Some (wk :: wks)) as Hm by (unfold wkeys; by rewrite lookup_fmap, Hc, <- Hw).
    destruct (lk_back _ _ Hl cid _ wk Hm) as (l & El & Hin); [by left|]. rewrite El. bsimpl. destruct (lk_lists _ _ Hl _ _ El) as [_ Hd].
    destruct (remove_first_ok cid l Hd Hin) as (l' & -> & Hd' & Hl'). bsimpl. set (t' := match l' with [] => _ | _ => _ end). erewrite on_ok by done. bsimpl.
    set (w1 := put_clients _ _). assert (clients w1 !! cid = Some (put_watched wks c)) as Hc1 by (unfold w1; cbn; by rewrite lookup_insert_eq).
    assert (wkeys w1 = <[cid := wks]> (wkeys w)) as Ek by (unfold w1, wkeys; cbn; by rewrite fmap_insert).
    destruct (IH w1 (put_watched wks c)) as (t2 & -> & H2); [rewrite Ek; unfold w1; cbn; by apply (linked_remove _ _ cid wk wks l l')|done|done|].
    exists t2. split; [|by rewrite Ek, insert_insert_eq in H2]. unfold w1, put_watchers, put_clients. cbn. by rewrite insert_insert_eq.
Qed.

Lemma unwatch_ok cid w c : linked (wkeys w) (watchers w) → clients w !! cid = Some c →
  ∃ t, unwatchAllKeys cid w = Some (put_watchers t (put_clients (<[cid := put_watched [] c]> (clients w)) w)) ∧ linked (<[cid := []]> (wkeys w)) t.
Proof.
  intros Hl Hc. unfold unwatchAllKeys. rewrite Hc. bsimpl. destruct (Z.eqb_spec (len (watched_keys c)) 0) as [E|_]; [|by apply unwatch_loop_ok].
  destruct (watched_keys c) eqn:Ew; [|cbn in E; lia]. destruct (unwatch_loop_ok cid [] w c Hl Hc Ew) as (t & [= E1] & H). exists t. split; [by rewrite <- E1|exact H].
Qed.

(** The clients are as before, or marked if they watch a key. *)
Definition marks w w' : Prop :=
  only_clients w w' ∧ watchers w' = watchers w ∧
  ∀ i, clients w' !! i = clients w !! i ∨ ∃ c, clients w !! i = Some c ∧ watched_keys c ≠ [] ∧ clients w' !! i = Some (marked c).

Lemma marks_refl w : marks w w.
Proof. split; [done|]. split; [done|]. by left. Qed.

Lemma marks_trans w1 w2 w3 : marks w1 w2 → marks w2 w3 → marks w1 w3.
Proof.
  intros ((A1 & A2 & A3) & B & C) ((A1' & A2' & A3') & B' & C'). split; [split; [congruence|split; congruence]|]. split; [congruence|]. intros i.
  destruct (C i) as [E1|(c & E0 & Hc & E1)], (C' i) as [E2|(c' & E0' & Hc' & E2)]; [left; congruence|right; exists c'; by rewrite <- E1|right; exists c; by rewrite E2|].
  right. exists c. split; [done|]. split; [done|]. rewrite E2. rewrite E1 in E0'. injection E0' as <-. by rewrite marked_marked.
Qed.

Lemma marks_wkeys w w' : marks w w' → wkeys w' = wkeys w.
Proof. intros (_ & _ & H). apply map_eq. intros i. unfold wkeys. rewrite !lookup_fmap. by destruct (H i) as [-> |(c & -> & _ & ->)]. Qed.

Definition is_cas w i : Prop := ∃ c, clients w !! i = Some c ∧ cas c = true.

Lemma marks_cas w w' i : marks w w' → is_cas w i → is_cas w' i.
Proof.
  intros (_ & _ & H) (c & Ec & Hc). unfold is_cas. destruct (H i) as [-> |(d & _ & _ & ->)]; [rewrite Ec; by exists c|]. exists (marked d). split; [done|apply marked_flags].
Qed.

Lemma mark_ok l : ∀ w, (∀ i, i ∈ l → ∃ c, clients w !! i = Some c ∧ watched_keys c ≠ []) → ∃ w', mark l w = Some w' ∧ marks w w' ∧ ∀ i, i ∈ l → is_cas w' i.
Proof.
  induction l as [|i l IH]; intros w Hl; cbn [mark].
  - exists w. split; [done|]. split; [apply marks_refl|]. by intros i ?%not_elem_of_nil.
  - destruct (Hl i) as (c & Ec & Hk); [by left|]. rewrite (on_ok _ _ _ _ Ec). bsimpl. fold (marked c). set (w1 := put_clients _ w).
    assert (marks w w1) as Hm.
    { split; [done|]. split; [done|]. intros j. unfold w1. cbn. destruct (decide (j = i)) as [-> |Hj]; [right; exists c; by rewrite lookup_insert_eq|left; by rewrite lookup_insert_ne]. }
    destruct (IH w1) as (w' & -> & Hm' & Hc).
    { intros j Hj. destruct (Hl j) as (d & Hd & Hk'); [by right|]. destruct Hm as (_ & _ & Hm). destruct (Hm j) as [-> |(d' & Ed' & _ & ->)]; [by exists d|]. exists (marked d'). split; [done|].
      rewrite Hd in Ed'. by injection Ed' as <-. }
    exists w'. split; [done|]. split; [by eapply marks_trans|]. intros j [-> |Hj]%elem_of_cons; [|by apply Hc]. apply (marks_cas w1); [done|].
    exists (marked c). unfold w1. cbn. rewrite lookup_insert_eq. split; [done|apply marked_flags].
Qed.

(** [t] touches the key. *)
Definition hits wk (t : touch) : Prop :=
  match t with TouchKey db key => (db, key) = wk | TouchFlush dbid has => (dbid = -1 ∨ wk.1 = dbid) ∧ has wk.1 wk.2 = true end.

Lemma signal_marks_ok t w : linked (wkeys w) (watchers w) →
  ∃ w', signal t w = Some w' ∧ marks w w' ∧ ∀ i c wk, clients w !! i = Some c → wk ∈ watched_keys c → hits wk t → is_cas w' i.
Proof.
  intros Hl. destruct t as [db key|dbid f]; cbn [signal hits].
  - unfold touchWatchedKey. destruct (watchers w !! (db, key)) as [l|] eqn:El.
    + destruct (mark_ok l w) as (w' & -> & Hm & Hc).
      { intros i Hi. destruct (lk_there _ _ Hl _ _ _ El Hi) as (ks & Ek & H). unfold wkeys in Ek. rewrite lookup_fmap in Ek. destruct (clients w !! i) as [d|]; [|done]. injection Ek as <-. exists d. split; [done|]. intros E. rewrite E in *. by apply not_elem_of_nil in H. }
      exists w'. split; [done|]. split; [done|]. intros i c wk Ec Hw <-. apply Hc. destruct (lk_back _ _ Hl i (watched_keys c) (db, key)) as (l' & El' & Hi); [unfold wkeys; by rewrite lookup_fmap, Ec|done|]. congruence.
    + exists w. split; [done|]. split; [apply marks_refl|]. intros i c wk Ec Hw <-. destruct (lk_back _ _ Hl i (watched_keys c) (db, key)) as (l' & El' & Hi); [unfold wkeys; by rewrite lookup_fmap, Ec|done|]. congruence.
  - eexists. split; [reflexivity|]. unfold touchWatchedKeysOnFlush. split.
    + split; [done|]. split; [done|]. intros i. cbn. rewrite lookup_fmap. destruct (clients w !! i) as [c|]; [|by left]. cbn. destruct (existsb _ _) eqn:Ex; [|by left]. right. exists c. split; [done|]. split; [by intros E; rewrite E in Ex|done].
    + intros i c wk Ec Hw [Hd Hf]. unfold is_cas. cbn. rewrite lookup_fmap, Ec. cbn. rewrite (proj2 (existsb_exists _ _)); [exists (marked c); split; [done|apply marked_flags]|].
      exists wk. split; [by apply list_elem_of_In|]. rewrite Hf, andb_true_r. destruct Hd as [-> | <-]; [done|]. by rewrite Z.eqb_refl, orb_true_r.
Qed.

Lemma signal_all_ok l : ∀ w, linked (wkeys w) (watchers w) →
  ∃ w', signal_all l w = Some w' ∧ marks w w' ∧ ∀ i c wk, clients w !! i = Some c → wk ∈ watched_keys c → Exists (hits wk) l → is_cas w' i.
Proof.
  induction l as [|t l IH]; intros w Hl; cbn [signal_all].
  - exists w. split; [done|]. split; [apply marks_refl|]. by intros i c wk _ _ ?%Exists_nil.
  - destruct (signal_marks_ok t w Hl) as (w1 & -> & Hm1 & Hh1). bsimpl. destruct (IH w1) as (w2 & -> & Hm2 & Hh2); [rewrite (marks_wkeys _ _ Hm1); destruct Hm1 as (_ & -> & _); done|].
    exists w2. split; [done|]. split; [by eapply marks_trans|]. intros i c wk Ec Hw [Ht|Ht]%Exists_cons; [apply (marks_cas w1); [done|by apply (Hh1 i c wk)]|].
    destruct Hm1 as (_ & _ & Hi). destruct (Hi i) as [E1|(d & Ed & _ & E1)]; [rewrite Ec in E1; by apply (Hh2 i c wk)|]. rewrite Ec in Ed. injection Ed as <-. by apply (Hh2 i (marked c) wk).
Qed.
End spec.
