(* ===== verification/MultiOps.v ===== *)
(** * The operations of transactions

    Each handler of [Multi], run in a consistent state, finishes in a consistent
    state; the other clients are left alone, or marked because a key they
    watch was touched; and [EXEC] runs the queue as one block. *)

From S2P Require Import Prelude Util Object Number Client Reply Server DbReply Multi MultiSpec.
From stdpp Require Import gmap.
Local Open Scope Z_scope.

Section ops.
Context {D K : Type}.
Abbreviation world := (world D K).
Abbreviation mclient := (mclient D).
Abbreviation redisCommand := (redisCommand D).
Implicit Types (w : world) (c : mclient) (cid i : Z) (wk : Z * text) (P : Z → Prop).

Context (lookupCommand : text → option redisCommand).
Context (run : settings → redisCommand → Z → bool → list text → K → option (ran K)).
Context (freeMemoryIfNeeded : K → K * Z * list (Z * list text)).
(** What a watched key must not lose unseen. *)
Context (kept : Z * text → K → K → Prop) {kept_preorder : ∀ wk, PreOrder (kept wk)}.

Definition plain (p : proc D) : bool := match p with PMulti | PExec | PDiscard | PWatch | PUnwatch => false | _ => true end.
Definition known (cmd : redisCommand) : Prop := ∃ name, lookupCommand name = Some cmd.

Record commands_ok : Prop := {
  run_total : ∀ cfg cmd db auth argv k, known cmd → plain (rc_proc cmd) = true → is_Some (run cfg cmd db auth argv k);
  run_kept : ∀ cfg cmd db auth argv k r wk, known cmd → run cfg cmd db auth argv k = Some r → ¬ Exists (hits wk) (r_touched r) → kept wk k (r_data r);
  free_kept : ∀ k wk, kept wk k (freeMemoryIfNeeded k).1.1
}.

(** ** Consistent states *)

(** A command in the queue. *)
Definition queued (mc : multiCmd D) : Prop := queues (rc_proc (mc_cmd mc)) = true ∧ known (mc_cmd mc).

Record tidy c : Prop := {
  td_multi : in_multi c = false → commands c = [] ∧ err c = false;
  td_queue : Forall queued (commands c)
}.

(** As far as the clients in [P] are concerned. *)
Record sound P w : Prop := {
  so_linked : linked (wkeys w) (watchers w);
  so_tidy : ∀ i c, P i → clients w !! i = Some c → tidy c
}.

Definition consistent w : Prop := sound (λ _, True) w.

(** The clients in [P] still watch what they watched, keep their marks, and are
    marked if something they watch was not kept. *)
Definition evolves P w w' : Prop :=
  ∀ i c, P i → clients w !! i = Some c → ∃ c', clients w' !! i = Some c' ∧ (∀ wk, wk ∈ watched_keys c → wk ∈ watched_keys c') ∧
    (cas c = true → cas c' = true) ∧ (err c = true → err c' = true) ∧ (in_multi c = true → in_multi c' = true) ∧
    ∀ wk, wk ∈ watched_keys c → cas c' = true ∨ kept wk (w_data w) (w_data w').

(** The clients other than [cid] are as before, or marked. *)
Definition others cid w w' : Prop := ∀ i, i ≠ cid → clients w' !! i = clients w !! i ∨ clients w' !! i = marked <$> clients w !! i.

Lemma evolves_trans P w1 w2 w3 : evolves P w1 w2 → evolves P w2 w3 → evolves P w1 w3.
Proof.
  intros H1 H2 i c Pi Ec. destruct (H1 i c Pi Ec) as (c2 & E2 & A2 & B2 & C2 & D2 & F2), (H2 i c2 Pi E2) as (c3 & E3 & A3 & B3 & C3 & D3 & F3).
  exists c3. split; [done|]. split; [auto|]. split; [auto|]. split; [auto|]. split; [auto|]. intros wk Hw. destruct (F2 wk Hw) as [|Hk]; [left; auto|].
  destruct (F3 wk (A2 wk Hw)) as [|Hk']; [by left|]. right. by etrans.
Qed.

Lemma others_trans cid w1 w2 w3 : others cid w1 w2 → others cid w2 w3 → others cid w1 w3.
Proof.
  intros H1 H2 i Hi. destruct (H1 i Hi) as [E1|E1], (H2 i Hi) as [E2|E2]; rewrite E2, E1; [by left|by right..|]. right. destruct (clients w1 !! i); [|done]. cbn. by rewrite marked_marked.
Qed.

Lemma others_refl cid w : others cid w w.
Proof. by left. Qed.

(** Only [cid] changed, and not what matters. *)
Definition same_but c c' : Prop :=
  watched_keys c' = watched_keys c ∧ (cas c = true → cas c' = true) ∧ (err c = true → err c' = true) ∧ (in_multi c = true → in_multi c' = true).

Lemma evolves_insert P w w' cid c c' : clients w !! cid = Some c → clients w' = <[cid := c']> (clients w) → w_data w' = w_data w → (P cid → same_but c c') → evolves P w w'.
Proof.
  intros Ec E' Ed H i d Pi Hd. rewrite E'. destruct (decide (i = cid)) as [-> |Hi].
  - rewrite Ec in Hd. injection Hd as <-. destruct (H Pi) as (H1 & H2 & H3 & H4). exists c'. rewrite lookup_insert_eq. split; [done|]. rewrite H1. rewrite Ed. split; [done|]. split; [done|]. split; [done|]. split; [done|].
    intros wk _. by right.
  - exists d. rewrite lookup_insert_ne by done. split; [done|]. split; [done|]. split; [done|]. split; [done|]. split; [done|]. intros wk _. right. by rewrite Ed.
Qed.

Lemma others_insert cid w w' c' : clients w' = <[cid := c']> (clients w) → others cid w w'.
Proof. intros E i Hi. left. rewrite E. by rewrite lookup_insert_ne. Qed.

Lemma sound_insert P w w' cid c c' : sound P w → clients w !! cid = Some c → clients w' = <[cid := c']> (clients w) → watchers w' = watchers w → watched_keys c' = watched_keys c → (P cid → tidy c') → sound P w'.
Proof.
  intros [Hl Ht] Ec E' Et Ew H. split.
  - rewrite Et. assert (wkeys w' = wkeys w) as ->; [|done]. unfold wkeys. rewrite E', fmap_insert, Ew. apply insert_id. by rewrite lookup_fmap, Ec.
  - intros i d Pi. rewrite E'. destruct (decide (i = cid)) as [-> |Hi]; [rewrite lookup_insert_eq; intros [= <-]; auto|rewrite lookup_insert_ne by done; by apply Ht].
Qed.

Lemma sound_mono P P' w : (∀ i, P' i → P i) → sound P w → sound P' w.
Proof. intros H [Hl Ht]. split; [done|]. intros i c Hi. apply Ht. auto. Qed.

Lemma evolves_mono P P' w w' : (∀ i, P' i → P i) → evolves P w w' → evolves P' w w'.
Proof. intros H He i c Hi. apply He. auto. Qed.

Lemma tidy_same c c' : in_multi c' = in_multi c → err c' = err c → commands c' = commands c → tidy c → tidy c'.
Proof. intros E1 E2 E3 [H1 H2]. split; rewrite ?E1, ?E2, ?E3; done. Qed.

Lemma tidy_marked c : tidy c → tidy (marked c).
Proof. destruct (marked_flags c) as (E1 & _ & E2). by apply tidy_same. Qed.

Lemma marks_sound P w w' : marks w w' → sound P w → sound P w'.
Proof.
  intros Hm [Hl Ht]. split; [rewrite (marks_wkeys _ _ Hm); by destruct Hm as (_ & -> & _)|]. intros i c Pi. destruct Hm as (_ & _ & H).
  destruct (H i) as [-> |(d & Ed & _ & ->)]; [by apply Ht|]. intros [= <-]. apply tidy_marked. by apply (Ht i).
Qed.

Lemma marks_others cid w w' : marks w w' → others cid w w'.
Proof. intros (_ & _ & H) i _. destruct (H i) as [-> |(d & -> & _ & ->)]; [by left|by right]. Qed.

(** Marks, with the data changed where they allow it. *)
Lemma marks_evolves P w w0 w' : marks w0 w' → clients w0 = clients w →
  (∀ i c wk, clients w !! i = Some c → wk ∈ watched_keys c → is_cas w' i ∨ kept wk (w_data w) (w_data w')) → evolves P w w'.
Proof.
  intros (_ & _ & H) Ec Hk i c Pi Hc. specialize (Hk i c). unfold is_cas in Hk. destruct (H i) as [E|(d & Ed & _ & E)]; rewrite Ec in *.
  - exists c. rewrite E in *. rewrite Hc in *. split; [done|]. split; [done|]. split; [done|]. split; [done|]. split; [done|]. intros wk Hw. destruct (Hk wk eq_refl Hw) as [(d & [= <-] & Hcas)|Hkept]; [by left|by right].
  - rewrite Hc in Ed. injection Ed as <-. destruct (marked_flags c) as (E1 & E2 & E3). exists (marked c). split; [done|]. split; [done|]. split; [done|]. split; [by rewrite E3|]. split; [by rewrite E1|]. by left.
Qed.

(** ** The parts *)

(** What an operation by [cid] does that ends in [w']. *)
Definition finished P cid w w' : Prop := consistent w' ∧ evolves P w w' ∧ others cid w w' ∧ is_Some (clients w' !! cid).

Lemma finished_trans P cid w1 w2 w3 : finished P cid w1 w2 → (consistent w2 → finished P cid w2 w3) → finished P cid w1 w3.
Proof. intros (H1 & H2 & H3 & _) H. destruct (H H1) as (H1' & H2' & H3' & H4'). split; [done|]. split; [by eapply evolves_trans|]. split; [by eapply others_trans|done]. Qed.

Lemma finished_insert P cid w w' c c' : consistent w → clients w !! cid = Some c → clients w' = <[cid := c']> (clients w) → watchers w' = watchers w → w_data w' = w_data w →
  watched_keys c' = watched_keys c → tidy c' → (P cid → same_but c c') → finished P cid w w'.
Proof.
  intros Hs Ec E' Et Ed Ew Ht Hp. split; [eapply sound_insert; eauto|]. split; [eapply evolves_insert; eauto|]. split; [eapply others_insert; eauto|]. rewrite E', lookup_insert_eq. by eexists.
Qed.

Lemma same_but_say c t : same_but c (say t c).
Proof. by unfold same_but. Qed.

Lemma tidy_say c t : tidy c → tidy (say t c).
Proof. by apply tidy_same. Qed.

Lemma finished_refl P cid w : consistent w → is_Some (clients w !! cid) → finished P cid w w.
Proof.
  intros Hs Hc. split; [done|]. split; [|split; [by left|done]]. intros i c _ Ec. exists c. split; [done|]. split; [done|]. split; [done|]. split; [done|]. split; [done|]. intros wk _. by right.
Qed.

(** A reply is the end of most handlers. *)
Lemma said_ok P cid t w c : consistent w → clients w !! cid = Some c →
  ∃ w', addReply cid t w = Some w' ∧ finished P cid w w' ∧ clients w' !! cid = Some (say t c) ∧ w_data w' = w_data w ∧ w_dirty w' = w_dirty w ∧ w_log w' = w_log w.
Proof.
  intros Hs Ec. unfold addReply. rewrite (on_ok _ _ _ _ Ec). eexists. split; [reflexivity|]. split; [|cbn; by rewrite lookup_insert_eq].
  eapply finished_insert; [done|exact Ec|done|done|done|done|apply tidy_say; by apply (so_tidy _ _ Hs cid)|intros _; apply same_but_say].
Qed.

(** The flags cleared at the end of a transaction. *)
Lemma cleared_flags f : has (Z.land f (Z.lnot TX_FLAGS)) REDIS_MULTI = false ∧ has (Z.land f (Z.lnot TX_FLAGS)) REDIS_DIRTY_CAS = false ∧ has (Z.land f (Z.lnot TX_FLAGS)) REDIS_DIRTY_EXEC = false.
Proof. unfold REDIS_MULTI, REDIS_DIRTY_CAS, REDIS_DIRTY_EXEC. rewrite !has_clear by lia. cbn. by rewrite !andb_false_r. Qed.

Definition discarded c : mclient := put_watched [] (put_flags (Z.land (m_flags c) (Z.lnot TX_FLAGS)) (put_commands [] c)).

Lemma tidy_discarded c : tidy (discarded c).
Proof. split; [intros _; split; [done|apply cleared_flags]|constructor]. Qed.

(** The keys [cid] watched are let go. *)
Lemma unwatched P w t cid c c' w' : sound P w → linked (<[cid := []]> (wkeys w)) t → clients w !! cid = Some c → watched_keys c' = [] → (P cid → tidy c') →
  clients w' = <[cid := c']> (clients w) → watchers w' = t → sound P w'.
Proof.
  intros [_ Ht] Hl Ec Hw Htd E1 E2. split.
  - rewrite E2. unfold wkeys in *. by rewrite E1, fmap_insert, Hw.
  - intros i d Pi. rewrite E1. destruct (decide (i = cid)) as [-> |Hi]; [rewrite lookup_insert_eq; intros [= <-]; auto|rewrite lookup_insert_ne by done; by apply Ht].
Qed.

Lemma discard_ok P w cid c : sound (λ i, i ≠ cid) w → clients w !! cid = Some c → ¬ P cid →
  ∃ w', discardTransaction cid w = Some w' ∧ finished P cid w w' ∧ clients w' !! cid = Some (discarded c) ∧ w_data w' = w_data w ∧ w_dirty w' = w_dirty w ∧ w_log w' = w_log w.
Proof.
  intros Hs Ec Hp. unfold discardTransaction. rewrite (on_ok _ _ _ _ Ec). bsimpl. set (c1 := put_flags _ _). set (w1 := put_clients _ w).
  assert (clients w1 !! cid = Some c1) as E1 by (unfold w1; cbn; by rewrite lookup_insert_eq).
  assert (sound (λ i, i ≠ cid) w1) as Hs1 by (eapply sound_insert; [done|exact Ec|done|done|done|by intros ?]).
  destruct (unwatch_ok cid w1 c1) as (t & -> & Hl); [apply Hs1|done|].
  assert (clients (put_watchers t (put_clients (<[cid := put_watched [] c1]> (clients w1)) w1)) = <[cid := discarded c]> (clients w)) as Ecl by (cbn; by rewrite insert_insert_eq).
  eexists. split; [reflexivity|]. split; [split|split; [by rewrite Ecl, lookup_insert_eq|done]].
  - split.
    + unfold wkeys. rewrite Ecl, fmap_insert. cbn [watchers put_watchers]. unfold w1, wkeys in Hl. cbn in Hl. by rewrite fmap_insert, insert_insert_eq in Hl.
    + intros i d _. rewrite Ecl. destruct (decide (i = cid)) as [-> |Hi]; [rewrite lookup_insert_eq; intros [= <-]; apply tidy_discarded|rewrite lookup_insert_ne by done; by apply (so_tidy _ _ Hs)].
  - split; [by eapply evolves_insert|]. split; [by eapply others_insert|]. rewrite Ecl, lookup_insert_eq. by eexists.
Qed.

(** ** The commands of the file *)

Lemma multi_flags f : has (Z.lor f REDIS_MULTI) REDIS_MULTI = true ∧ has (Z.lor f REDIS_MULTI) REDIS_DIRTY_CAS = has f REDIS_DIRTY_CAS ∧
  has (Z.lor f REDIS_MULTI) REDIS_DIRTY_EXEC = has f REDIS_DIRTY_EXEC.
Proof. unfold REDIS_MULTI, REDIS_DIRTY_CAS, REDIS_DIRTY_EXEC. rewrite !has_set by lia. cbn. by rewrite orb_true_r, !orb_false_r. Qed.

Lemma multi_ok P w cid c : consistent w → clients w !! cid = Some c → ∃ w', multiCommand cid w = Some w' ∧ finished P cid w w'.
Proof.
  intros Hs Ec. unfold multiCommand. rewrite Ec. bsimpl. fold (in_multi c). destruct (in_multi c) eqn:Em.
  - destruct (said_ok P cid (reply_error (str "MULTI calls can not be nested")) w c Hs Ec) as (w' & -> & H & _). by exists w'.
  - rewrite (on_ok _ _ _ _ Ec). bsimpl. set (c1 := put_flags _ c). set (w1 := put_clients _ w). destruct (multi_flags (m_flags c)) as (F1 & F2 & F3).
    assert (finished P cid w w1) as H1.
    { eapply finished_insert; [done|exact Ec|done|done|done|done| |].
      - destruct (so_tidy _ _ Hs cid c I Ec) as [H1 H2]. split; [unfold in_multi, c1; cbn; by rewrite F1|done].
      - intros _. unfold same_but, cas, err, in_multi, c1. cbn. by rewrite F1, F2, F3. }
    destruct (said_ok P cid shared_ok w1 c1) as (w' & -> & H2 & _); [apply H1|unfold w1; cbn; by rewrite lookup_insert_eq|]. exists w'. split; [done|]. by eapply finished_trans.
Qed.

Lemma discardCommand_ok P w cid c : consistent w → clients w !! cid = Some c → ¬ P cid → ∃ w', discardCommand cid w = Some w' ∧ finished P cid w w'.
Proof.
  intros Hs Ec Hp. unfold discardCommand. rewrite Ec. bsimpl. destruct (has _ _); cbn [negb].
  - destruct (discard_ok P w cid c) as (w1 & -> & H1 & E1 & _); [by apply (sound_mono (λ _, True))|done|done|]. bsimpl. destruct (said_ok P cid shared_ok w1 _ (proj1 H1) E1) as (w' & -> & H2 & _). exists w'. split; [done|]. by eapply finished_trans.
  - destruct (said_ok P cid (reply_error (str "DISCARD without MULTI")) w c Hs Ec) as (w' & -> & H & _). by exists w'.
Qed.

(** A client that watches more keys. *)
Definition watches_more c c' : Prop :=
  (∀ wk, wk ∈ watched_keys c → wk ∈ watched_keys c') ∧ cas c' = cas c ∧ err c' = err c ∧ in_multi c' = in_multi c ∧ commands c' = commands c ∧ m_out c' = m_out c ∧ m_db c' = m_db c.

Lemma watchForKey_ok P w cid c key : consistent w → clients w !! cid = Some c →
  ∃ w' c', watchForKey cid key w = Some w' ∧ finished P cid w w' ∧ clients w' !! cid = Some c' ∧ watches_more c c' ∧ (m_db c, key) ∈ watched_keys c' ∧ w_data w' = w_data w.
Proof.
  intros Hs Ec. unfold watchForKey. rewrite Ec. bsimpl. case_bool_decide as Hin.
  { exists w, c. split; [done|]. split; [by apply finished_refl; [|exists c]|done]. }
  set (wk := (m_db c, key)) in *. unfold on. cbn [put_watchers clients]. rewrite Ec. bsimpl. set (c' := put_watched _ c). eexists _, c'. split; [reflexivity|].
  split; [|split; [cbn; by rewrite lookup_insert_eq|]].
  - split; [split|split; [|split]].
    + unfold wkeys. cbn. rewrite fmap_insert. unfold c'. cbn [watched_keys put_watched]. apply linked_add; [apply Hs|by rewrite lookup_fmap, Ec|done].
    + intros i d _. cbn. destruct (decide (i = cid)) as [-> |Hi]; [rewrite lookup_insert_eq; intros [= <-]|rewrite lookup_insert_ne by done; by apply (so_tidy _ _ Hs)].
      apply (tidy_same c); [done..|]. by apply (so_tidy _ _ Hs cid).
    + intros i d _ Ed. cbn. destruct (decide (i = cid)) as [-> |Hi].
      * rewrite lookup_insert_eq. rewrite Ec in Ed. injection Ed as <-. exists c'. split; [done|]. split; [unfold c'; cbn; set_solver|]. split; [done|]. split; [done|]. split; [done|]. intros ? _. by right.
      * rewrite lookup_insert_ne by done. exists d. split; [done|]. split; [done|]. split; [done|]. split; [done|]. split; [done|]. intros ? _. by right.
    + by eapply others_insert.
    + cbn. rewrite lookup_insert_eq. by eexists.
  - unfold watches_more, c'. cbn. set_solver.
Qed.

Lemma watch_each_ok P cid keys : ∀ w c, consistent w → clients w !! cid = Some c →
  ∃ w' c', watch_each keys cid w = Some w' ∧ finished P cid w w' ∧ clients w' !! cid = Some c' ∧ watches_more c c' ∧ (∀ k, k ∈ keys → (m_db c, k) ∈ watched_keys c') ∧ w_data w' = w_data w.
Proof.
  induction keys as [|k keys IH]; intros w c Hs Ec; cbn [watch_each].
  { exists w, c. split; [done|]. split; [by apply finished_refl; [|exists c]|]. split; [done|]. split; [done|]. split; [by intros k ?%not_elem_of_nil|done]. }
  destruct (watchForKey_ok P w cid c k Hs Ec) as (w1 & c1 & -> & H1 & E1 & M1 & K1 & D1). bsimpl.
  destruct (IH w1 c1 (proj1 H1) E1) as (w2 & c2 & -> & H2 & E2 & M2 & K2 & D2). exists w2, c2. split; [done|]. split; [by eapply finished_trans|]. split; [done|].
  destruct M1 as (A1 & A2 & A3 & A4 & A5 & A6 & A7), M2 as (B1 & B2 & B3 & B4 & B5 & B6 & B7). split; [split; [auto|split_and!; congruence]|]. split; [|congruence].
  intros j [-> |Hj]%elem_of_cons; [by apply B1|]. rewrite <- A7. by apply K2.
Qed.

Lemma watchCommand_ok P w cid c : consistent w → clients w !! cid = Some c → ∃ w', watchCommand cid w = Some w' ∧ finished P cid w w'.
Proof.
  intros Hs Ec. unfold watchCommand. rewrite Ec. bsimpl. destruct (has _ _).
  - destruct (said_ok P cid (reply_error (str "WATCH inside MULTI is not allowed")) w c Hs Ec) as (w' & -> & H & _). by exists w'.
  - destruct (watch_each_ok P cid (drop 1 (m_argv c)) w c Hs Ec) as (w1 & c1 & -> & H1 & E1 & _). bsimpl.
    destruct (said_ok P cid shared_ok w1 c1 (proj1 H1) E1) as (w' & -> & H2 & _). exists w'. split; [done|]. by eapply finished_trans.
Qed.

(** ** Commands that are called *)

Lemma unwatchCommand_ok Q P w cid c : sound Q w → clients w !! cid = Some c → ¬ P cid →
  ∃ w', unwatchCommand cid w = Some w' ∧ sound Q w' ∧ evolves P w w' ∧ others cid w w' ∧
    clients w' !! cid = Some (say shared_ok (put_flags (Z.land (m_flags c) (Z.lnot REDIS_DIRTY_CAS)) (put_watched [] c))) ∧
    w_data w' = w_data w ∧ w_dirty w' = w_dirty w ∧ w_log w' = w_log w.
Proof.
  intros Hs Ec Hp. unfold unwatchCommand. destruct (unwatch_ok cid w c (so_linked _ _ Hs) Ec) as (t & -> & Hl). bsimpl.
  set (w1 := put_watchers _ _). assert (clients w1 !! cid = Some (put_watched [] c)) as E1 by (unfold w1; cbn; by rewrite lookup_insert_eq).
  rewrite (on_ok _ _ _ _ E1). bsimpl. set (c2 := put_flags _ _). set (w2 := put_clients _ w1). assert (clients w2 !! cid = Some c2) as E2 by (unfold w2; cbn; by rewrite lookup_insert_eq).
  unfold addReply. rewrite (on_ok _ _ _ _ E2). eexists. split; [reflexivity|]. set (w3 := put_clients _ w2).
  assert (clients w3 = <[cid := say shared_ok c2]> (clients w)) as E3 by (unfold w3, w2, w1; cbn; by rewrite !insert_insert_eq).
  split; [|split; [by eapply evolves_insert|split; [by eapply others_insert|split; [by rewrite E3, lookup_insert_eq|done]]]].
  eapply unwatched; [exact Hs|exact Hl|exact Ec| |intros Q'|exact E3|done]; [done|]. destruct (so_tidy _ _ Hs cid c Q' Ec) as [H1 H2]. split; [|done].
  unfold in_multi, err, c2, REDIS_MULTI, REDIS_DIRTY_EXEC, REDIS_DIRTY_CAS in *. cbn. rewrite !has_clear by lia. cbn. by rewrite !andb_true_r.
Qed.

Context (ok : commands_ok).

#[local] Instance hits_dec wk t : Decision (hits wk t).
Proof. destruct t; cbn; apply _. Defined.

Lemma runCommand_ok cfg Q P w cid c cmd : sound Q w → clients w !! cid = Some c → known cmd → plain (rc_proc cmd) = true →
  ∃ r w' c1, run cfg cmd (m_db c) (authenticated c) (m_argv c) (w_data w) = Some r ∧ runCommand run cfg cmd cid w = Some w' ∧ sound Q w' ∧ evolves P w w' ∧ others cid w w' ∧
    clients w' !! cid = Some (say (r_out r) (put_after (r_db r) (r_auth r) (r_argv r) c1)) ∧ (c1 = c ∨ watched_keys c ≠ [] ∧ c1 = marked c) ∧
    w_data w' = r_data r ∧ w_dirty w' = w_dirty w + r_dirty r ∧ w_log w' = w_log w ++ r_feeds r.
Proof.
  intros Hs Ec Hk Hp. destruct (run_total ok cfg cmd (m_db c) (authenticated c) (m_argv c) (w_data w) Hk Hp) as [r Er]. unfold runCommand. rewrite Ec. bsimpl. rewrite Er. bsimpl.
  set (w0 := put_wdirty _ _). destruct (signal_all_ok (r_touched r) w0) as (w1 & -> & Hm & Hh); [apply Hs|]. bsimpl.
  assert (sound Q w1) as Hs1 by (eapply (marks_sound Q w0); [done|]; destruct Hs; by split).
  assert (evolves P w w1) as He1.
  { eapply (marks_evolves P w w0 w1); [done|done|]. intros i d wk Ed Hw. destruct (decide (Exists (hits wk) (r_touched r))) as [Hx|Hx]; [left; by apply (Hh i d wk)|right].
    destruct Hm as ((-> & _) & _). exact (run_kept ok _ _ _ _ _ _ _ _ Hk Er Hx). }
  assert (others cid w w1) as Ho1 by exact (marks_others cid w0 w1 Hm).
  assert (∃ c1, clients w1 !! cid = Some c1 ∧ (c1 = c ∨ watched_keys c ≠ [] ∧ c1 = marked c)) as (c1 & E1 & Hc1).
  { destruct Hm as (_ & _ & Hi). destruct (Hi cid) as [E|(d & Ed & Hd & E)]; [exists c; rewrite E; split; [done|by left]|]. cbn in Ed. rewrite Ec in Ed. injection Ed as <-. exists (marked c). split; [done|by right]. }
  rewrite (on_ok _ _ _ _ E1). exists r. eexists _, c1. split; [done|]. split; [reflexivity|]. set (c2 := say _ _). set (w2 := put_clients _ w1).
  assert (clients w2 = <[cid := c2]> (clients w1)) as E2 by done. split; [|split; [|split; [|split; [by rewrite E2, lookup_insert_eq|split; [done|]]]]].
  - eapply (sound_insert Q w1 w2); [done|exact E1|done|done|done|]. intros Q'. apply (tidy_same c1); [done..|]. by apply (so_tidy _ _ Hs1 cid).
  - eapply evolves_trans; [exact He1|]. by eapply evolves_insert.
  - eapply others_trans; [exact Ho1|]. by eapply others_insert.
  - destruct Hm as ((A1 & A2 & A3) & _). cbn. by rewrite A1, A2, A3.
Qed.

(** ** The queue as one block *)

Record progress := mkProgress {
  p_data : K;
  p_db : Z;
  p_auth : bool;
  p_out : list Z;
  p_dirty : Z;
  p_log : list (Z * list text);
  (** whether [MULTI] was passed on *)
  p_must : bool
}.

Definition writes (cmd : redisCommand) : bool := negb (has (rc_flags cmd) REDIS_CMD_READONLY).

(** One command of the queue after the others. *)
Definition one cfg (mc : multiCmd D) (p : progress) : option progress :=
  let cmd := mc_cmd mc in
  let log := p_log p ++ (if negb (p_must p) && writes cmd then [(p_db p, [str "MULTI"])] else []) in
  let must := p_must p || writes cmd in
  match rc_proc cmd with
  | PUnwatch => Some (mkProgress (p_data p) (p_db p) (p_auth p) (p_out p ++ shared_ok) (p_dirty p) log must)
  | _ =>
      r ← run cfg cmd (p_db p) (p_auth p) (mc_argv mc) (p_data p);
      Some (mkProgress (r_data r) (r_db r) (r_auth r) (p_out p ++ r_out r) (p_dirty p + r_dirty r)
              (log ++ r_feeds r ++ (if r_dirty r <=? 0 then [] else [(r_db r, r_argv r)])) must)
  end.

Fixpoint run_block cfg (l : list (multiCmd D)) (p : progress) : option progress :=
  match l with [] => Some p | mc :: l => p ← one cfg mc p; run_block cfg l p end.

(** The state is as far as [p], from the log [L], the count [d] and the output
    [o]. *)
Definition reached L d o p w c : Prop :=
  w_data w = p_data p ∧ m_db c = p_db p ∧ authenticated c = p_auth p ∧ m_out c = o ++ p_out p ∧ w_dirty w = d + p_dirty p ∧ w_log w = L ++ p_log p.

(** The flags that end with the transaction apart. *)
Definition same_flags c c' : Prop := Z.land (m_flags c') (Z.lnot TX_FLAGS) = Z.land (m_flags c) (Z.lnot TX_FLAGS).

Lemma cas_cleared f : Z.land (Z.land f (Z.lnot REDIS_DIRTY_CAS)) (Z.lnot TX_FLAGS) = Z.land f (Z.lnot TX_FLAGS).
Proof. rewrite <- Z.land_assoc. by f_equal. Qed.

Lemma call_queued_ok cfg w cid c mc p L d o : sound (λ i, i ≠ cid) w → clients w !! cid = Some c → watched_keys c = [] → queued mc →
  m_cmd c = Some (mc_cmd mc) → m_argv c = mc_argv mc →
  w_data w = p_data p → m_db c = p_db p → authenticated c = p_auth p → m_out c = o ++ p_out p → w_dirty w = d + p_dirty p →
  w_log w = L ++ p_log p ++ (if negb (p_must p) && writes (mc_cmd mc) then [(p_db p, [str "MULTI"])] else []) →
  ∃ w' c' p', call_of (proc_queued run cfg) cid w = Some w' ∧ one cfg mc p = Some p' ∧ sound (λ i, i ≠ cid) w' ∧ evolves (λ i, i ≠ cid) w w' ∧ others cid w w' ∧
    clients w' !! cid = Some c' ∧ watched_keys c' = [] ∧ commands c' = commands c ∧ same_flags c c' ∧ reached L d o p' w' c' ∧ p_must p' = p_must p || writes (mc_cmd mc).
Proof.
  intros Hs Ec Hw [Hq Hk] Hcmd Hargv E1 E2 E3 E4 E5 E6. unfold call_of, proc_queued. rewrite Ec. bsimpl. rewrite Hcmd. bsimpl. unfold one.
  destruct (plain (rc_proc (mc_cmd mc))) eqn:Ep.
  - assert (∀ A (x y z : A), match rc_proc (mc_cmd mc) with PMulti | PExec | PDiscard | PWatch => x | PUnwatch => y | _ => z end = z) as Hm by (intros; by destruct (rc_proc (mc_cmd mc))).
    rewrite Hm. assert (∀ A (x y : A), match rc_proc (mc_cmd mc) with PUnwatch => x | _ => y end = y) as -> by (intros; by destruct (rc_proc (mc_cmd mc))).
    destruct (runCommand_ok cfg (λ i, i ≠ cid) (λ i, i ≠ cid) w cid c (mc_cmd mc) Hs Ec Hk Ep) as (r & w' & c1 & Er & -> & Hs' & He & Ho & Ec' & Hc1 & A1 & A2 & A3).
    destruct Hc1 as [-> |[? _]]; [|done]. bsimpl. rewrite Ec'. bsimpl. rewrite E1, E2, E3, Hargv in Er. rewrite Er. bsimpl. rewrite A2. replace (w_dirty w + r_dirty r - w_dirty w) with (r_dirty r) by lia.
    assert (∀ w2, clients w2 = clients w' → watchers w2 = watchers w' → w_data w2 = w_data w' → sound (λ i, i ≠ cid) w2 ∧ evolves (λ i, i ≠ cid) w w2 ∧ others cid w w2) as Hframe.
    { intros w2 F1 F2 F3. split; [destruct Hs' as [B1 B2]; split; [unfold wkeys in *; by rewrite F1, F2|by rewrite F1]|]. split; [|unfold others; by rewrite F1]. unfold evolves. by rewrite F1, F3. }
    set (c' := say _ _). set (w2 := if _ =? 0 then w' else _). destruct (Hframe w2) as (S2 & V2 & O2); [by unfold w2; destruct (_ =? 0)..|].
    assert (clients w2 = clients w') as F1 by (by unfold w2; destruct (_ =? 0)). eexists w2, c', _. split; [done|]. split; [reflexivity|]. split; [done|]. split; [done|]. split; [done|]. split; [by rewrite F1|].
    split; [done|]. split; [done|]. split; [done|]. split; [|done]. unfold reached. cbn [p_data p_db p_auth p_out p_dirty p_log].
    split; [by unfold w2; destruct (_ =? 0)|]. split; [done|]. split; [done|]. split; [unfold c'; cbn; by rewrite E4, <- app_assoc|]. split; [unfold w2; destruct (_ =? 0); cbn; rewrite A2; lia|].
    unfold w2. destruct (Z.ltb_spec (r_dirty r) 0), (Z.leb_spec (r_dirty r) 0); try lia.
    + change (0 =? 0) with true. cbn iota. rewrite A3, E6, <- !app_assoc, !app_nil_r. done.
    + rewrite (proj2 (Z.eqb_eq (r_dirty r) 0)) by lia. rewrite A3, E6, <- !app_assoc, !app_nil_r. done.
    + rewrite (proj2 (Z.eqb_neq (r_dirty r) 0)) by lia. cbn [w_log pass_on]. rewrite A3, E6, <- !app_assoc. done.
  - assert (rc_proc (mc_cmd mc) = PUnwatch) as -> by (unfold queues in Hq; by destruct (rc_proc (mc_cmd mc))).
    destruct (unwatchCommand_ok (λ i, i ≠ cid) (λ i, i ≠ cid) w cid c Hs Ec) as (w' & -> & Hs' & He & Ho & Ec' & A1 & A2 & A3); [tauto|]. bsimpl. rewrite A2, Z.sub_diag. rewrite Ec'. bsimpl.
    eexists _, _, _. split; [reflexivity|]. split; [reflexivity|]. split; [done|]. split; [done|]. split; [done|]. split; [exact Ec'|]. split; [done|]. split; [done|].
    split; [unfold same_flags; cbn; apply cas_cleared|]. split; [|done]. unfold reached. cbn. rewrite A1, A2, A3, E6, E4, <- !app_assoc. by split_and!.
Qed.

(** The client itself is changed and nothing else. *)
Lemma self_insert w w' cid c c' : sound (λ i, i ≠ cid) w → clients w !! cid = Some c → clients w' = <[cid := c']> (clients w) → watchers w' = watchers w → w_data w' = w_data w →
  watched_keys c' = watched_keys c → sound (λ i, i ≠ cid) w' ∧ evolves (λ i, i ≠ cid) w w' ∧ others cid w w' ∧ clients w' !! cid = Some c'.
Proof.
  intros Hs Ec E' Et Ed Ew. split; [by eapply sound_insert|]. split; [by eapply evolves_insert|]. split; [by eapply others_insert|]. by rewrite E', lookup_insert_eq.
Qed.

Lemma exec_loop_ok cfg cid n : ∀ j w c p L d o, sound (λ i, i ≠ cid) w → clients w !! cid = Some c → watched_keys c = [] → length (commands c) = (j + n)%nat →
  Forall queued (drop j (commands c)) → reached L d o p w c →
  ∃ w' c' p', exec_loop lookupCommand run cfg n j (p_must p) cid w = Some (w', p_must p') ∧ run_block cfg (drop j (commands c)) p = Some p' ∧
    sound (λ i, i ≠ cid) w' ∧ evolves (λ i, i ≠ cid) w w' ∧ others cid w w' ∧ clients w' !! cid = Some c' ∧ watched_keys c' = [] ∧ same_flags c c' ∧ reached L d o p' w' c'.
Proof.
  induction n as [|n IH]; intros j w c p L d o Hs Ec Hw Hn Hq Hr; cbn [exec_loop].
  { rewrite drop_ge by lia. exists w, c, p. split; [done|]. split; [done|]. split; [done|]. split; [|split; [by left|done]].
    intros i e Hi Ee. exists e. split; [done|]. split; [done|]. split; [done|]. split; [done|]. split; [done|]. intros wk _. by right. }
  rewrite Ec. bsimpl. destruct (lookup_lt_is_Some_2 (commands c) j) as [mc Emc]; [lia|]. rewrite Emc. bsimpl. rewrite (on_ok _ _ _ _ Ec). bsimpl.
  set (c1 := put_call _ _ c). set (w1 := put_clients _ w). destruct (self_insert w w1 cid c c1 Hs Ec) as (S1 & V1 & O1 & E1); [done..|].
  rewrite (drop_S _ _ _ Emc) in Hq |- *. apply Forall_cons in Hq as [Hmc Hq]. unfold execCommandPropagateMulti. rewrite E1. bsimpl. fold (writes (mc_cmd mc)).
  set (first := negb (p_must p) && writes (mc_cmd mc)). set (w2 := if first then pass_on [(m_db c1, [str "MULTI"])] w1 else w1).
  assert ((if first then Some (pass_on [(m_db c1, [str "MULTI"])] w1, true) else Some (w1, p_must p)) = Some (w2, p_must p || writes (mc_cmd mc))) as ->.
  { unfold w2, first. by destruct (p_must p), (writes (mc_cmd mc)). }
  bsimpl. destruct Hr as (R1 & R2 & R3 & R4 & R5 & R6).
  assert (clients w2 = clients w1 ∧ watchers w2 = watchers w1 ∧ w_data w2 = w_data w1 ∧ w_dirty w2 = w_dirty w1 ∧ w_log w2 = w_log w1 ++ (if first then [(m_db c1, [str "MULTI"])] else [])) as (F1 & F2 & F3 & F4 & F5).
  { unfold w2. destruct first; [done|]. by rewrite app_nil_r. }
  assert (sound (λ i, i ≠ cid) w2) as S2 by (destruct S1; split; [unfold wkeys in *; by rewrite F1, F2|by rewrite F1]).
  destruct (call_queued_ok cfg w2 cid c1 mc p L d o) as (w3 & c3 & p' & -> & Ep & S3 & V3 & O3 & E3 & W3 & C3 & G3 & R' & M3); [done|by rewrite F1|done|done|done|done|by rewrite F3|done|done|done|by rewrite F4| |].
  { rewrite F5. fold first. cbn [w_log w1 put_clients]. rewrite R6, <- app_assoc. unfold c1. cbn [m_db put_call]. by rewrite R2. }
  bsimpl. rewrite (on_ok _ _ _ _ E3). bsimpl. set (c4 := put_commands _ c3). set (w4 := put_clients _ w3). destruct (self_insert w3 w4 cid c3 c4 S3 E3) as (S4 & V4 & O4 & E4); [done..|].
  cbn [run_block]. rewrite Ep. bsimpl. rewrite <- M3.
  assert (drop (S j) (commands c4) = drop (S j) (commands c)) as Ed by (unfold c4; cbn [commands put_commands]; rewrite C3; rewrite drop_insert_lt by lia; done).
  destruct (IH (S j) w4 c4 p' L d o S4 E4) as (w5 & c5 & p5 & -> & Eb & S5 & V5 & O5 & E5 & W5 & G5 & R5').
  - done.
  - unfold c4. cbn [commands put_commands]. rewrite length_insert, C3. cbn [commands put_call c1]. lia.
  - by rewrite Ed.
  - exact R'.
  - rewrite Ed in Eb. exists w5, c5, p5. split; [done|]. split; [exact Eb|]. split; [done|]. split.
    + eapply evolves_trans; [exact V1|]. eapply evolves_trans; [|eapply evolves_trans; [exact V4|exact V5]]. unfold evolves in V3. rewrite F1, F3 in V3. exact V3.
    + split; [|split; [done|split; [done|split; [|done]]]].
      * eapply others_trans; [exact O1|]. eapply others_trans; [|eapply others_trans; [exact O4|exact O5]]. unfold others in O3. rewrite F1 in O3. exact O3.
      * unfold same_flags in *. rewrite G5. cbn [m_flags put_commands c4]. exact G3.
Qed.

(** The start of a block. *)
Definition block_start w c : progress := mkProgress (w_data w) (m_db c) (authenticated c) [] 0 [] false.

(** What [EXEC] leaves if it runs the queue. *)
Definition executed w c p w' : Prop :=
  w_data w' = p_data p ∧ w_log w' = w_log w ++ p_log p ∧ w_dirty w' = w_dirty w + p_dirty p + (if p_must p then 1 else 0).

Definition client_after c p : mclient :=
  mkMClient (Z.land (m_flags c) (Z.lnot TX_FLAGS)) (p_auth p) (p_db p) (m_cmd c) (m_argv c) [] [] (m_out c ++ reply_multi (len (commands c)) ++ p_out p).

Lemma exec_runs_ok cfg P w cid c : consistent w → clients w !! cid = Some c → in_multi c = true → cas c = false → err c = false → ¬ P cid → (∀ i, P i → i ≠ cid) →
  ∃ w' p, execCommand lookupCommand run cfg cid w = Some w' ∧ run_block cfg (commands c) (block_start w c) = Some p ∧ finished P cid w w' ∧ executed w c p w' ∧
    clients w' !! cid = Some (client_after c p).
Proof.
  intros Hs Ec Em Hcas Herr Hp Hp'. unfold execCommand. rewrite Ec. bsimpl. unfold in_multi in Em. rewrite Em. cbn [negb]. rewrite has_or. unfold cas, err in Hcas, Herr. rewrite Hcas, Herr. cbn [orb].
  destruct (unwatch_ok cid w c (so_linked _ _ Hs) Ec) as (t & -> & Hl). bsimpl. set (w1 := put_watchers _ _). set (c1 := put_watched [] c) in *.
  assert (clients w1 !! cid = Some c1) as E1 by (unfold w1; cbn; by rewrite lookup_insert_eq). unfold addReply. rewrite (on_ok _ _ _ _ E1). bsimpl.
  set (c2 := say _ c1). set (w2 := put_clients _ w1). assert (clients w2 !! cid = Some c2) as E2 by (unfold w2; cbn; by rewrite lookup_insert_eq).
  assert (clients w2 = <[cid := c2]> (clients w)) as Ecl by (unfold w2, w1; cbn; by rewrite insert_insert_eq).
  assert (sound (λ i, i ≠ cid) w2) as S2 by (eapply unwatched; [by apply (sound_mono (λ _, True))|exact Hl|exact Ec| |intros ?|exact Ecl|done]; done).
  assert (evolves (λ i, i ≠ cid) w w2) as V2 by (by eapply evolves_insert). assert (others cid w w2) as O2 by (by eapply others_insert).
  destruct (exec_loop_ok cfg cid (length (commands c)) 0 w2 c2 (block_start w c) (w_log w) (w_dirty w) (m_out c ++ reply_multi (len (commands c))) S2 E2)
    as (w3 & c3 & p & Ex & Eb & S3 & V3 & O3 & E3 & W3 & G3 & (R1 & R2 & R3 & R4 & R5 & R6)).
  { done. } { done. } { exact (td_queue _ (so_tidy _ _ Hs cid c I Ec)). }
  { unfold reached. cbn. rewrite !app_nil_r. split_and!; try done. lia. }
  cbn [block_start p_must] in Ex. rewrite Ex. bsimpl. rewrite (on_ok _ _ _ _ E3). bsimpl. set (c4 := put_call _ _ c3). set (w4 := put_clients _ w3).
  destruct (self_insert w3 w4 cid c3 c4 S3 E3) as (S4 & V4 & O4 & E4); [done..|].
  destruct (discard_ok P w4 cid c4 S4 E4 Hp) as (w5 & -> & (C5 & V5 & O5 & X5) & E5 & D1 & D2 & D3). bsimpl. eexists _, p. split; [reflexivity|].
  split; [exact Eb|]. set (w6 := if p_must p then _ else _). assert (clients w6 = clients w5 ∧ watchers w6 = watchers w5 ∧ w_data w6 = w_data w5 ∧ w_log w6 = w_log w5) as (F1 & F2 & F3 & F4) by (unfold w6; by destruct (p_must p)).
  assert (evolves P w w6) as V6.
  { assert (evolves P w w5) as V; [|unfold evolves in *; by rewrite F1, F3]. eapply evolves_trans; [|exact V5]. apply (evolves_mono (λ i, i ≠ cid)); [exact Hp'|]. eapply evolves_trans; [exact V2|]. by eapply evolves_trans. }
  split; [|split].
  - split; [destruct C5; split; [unfold wkeys in *; by rewrite F1, F2|by rewrite F1]|]. split; [exact V6|]. unfold others. rewrite F1. split; [|done]. eapply others_trans; [exact O2|]. eapply others_trans; [exact O3|]. by eapply others_trans.
  - unfold executed. rewrite F3, F4, D1, D3. cbn [w_data w_log w4 put_clients]. rewrite R1, R6. split; [done|]. split; [done|]. unfold w6. destruct (p_must p); cbn [w_dirty put_wdirty]; rewrite D2; cbn [w_dirty w4 put_clients]; lia.
  - rewrite F1, E5. unfold discarded, client_after, c4, put_watched, put_flags, put_commands, put_call. cbn [m_flags authenticated m_db m_cmd m_argv m_out]. rewrite R2, R3, R4, G3, <- app_assoc. done.
Qed.

Lemma exec_refuses_ok cfg P w cid c : consistent w → clients w !! cid = Some c → in_multi c = false ∨ cas c = true ∨ err c = true → ¬ P cid →
  ∃ w', execCommand lookupCommand run cfg cid w = Some w' ∧ finished P cid w w' ∧ w_data w' = w_data w ∧ w_dirty w' = w_dirty w ∧ w_log w' = w_log w ∧
    clients w' !! cid = Some (if in_multi c then discarded (say (if err c then shared_execaborterr else shared_nullmultibulk) c) else say (reply_error (str "EXEC without MULTI")) c).
Proof.
  intros Hs Ec Hno Hp. unfold execCommand. rewrite Ec. bsimpl. fold (in_multi c). destruct (in_multi c) eqn:Em; cbn [negb].
  - rewrite has_or. fold (cas c). fold (err c). assert (cas c || err c = true) as -> by (destruct Hno as [?|[-> | ->]]; [done|done|by destruct (cas c)]).
    destruct (said_ok P cid (if err c then shared_execaborterr else shared_nullmultibulk) w c Hs Ec) as (w1 & -> & H1 & E1 & A1 & A2 & A3). bsimpl.
    destruct (discard_ok P w1 cid (say (if err c then shared_execaborterr else shared_nullmultibulk) c)) as (w' & -> & H2 & E2 & B1 & B2 & B3); [apply (sound_mono (λ _, True)); [done|apply H1]|exact E1|done|].
    exists w'. split; [done|]. split; [by eapply finished_trans|]. split; [congruence|]. split; [congruence|]. split; [congruence|exact E2].
  - destruct (said_ok P cid (reply_error (str "EXEC without MULTI")) w c Hs Ec) as (w1 & -> & H1 & E1 & A1 & A2 & A3). exists w1. by split_and!.
Qed.

(** ** Dispatch *)

(** The commands after which a client watches nothing. *)
Definition ends (p : proc D) : bool := match p with PExec | PDiscard | PUnwatch => true | _ => false end.

Definition spared (b : bool) cid : Z → Prop := λ i, b = true → i ≠ cid.

Lemma not_spared cid : ¬ spared true cid cid.
Proof. intros H. by apply H. Qed.

Lemma proc_any_ok cfg w cid c cmd : consistent w → clients w !! cid = Some c → m_cmd c = Some cmd → known cmd →
  ∃ w', proc_any lookupCommand run cfg cid w = Some w' ∧ finished (spared (ends (rc_proc cmd)) cid) cid w w'.
Proof.
  intros Hs Ec Hcmd Hk. unfold proc_any. rewrite Ec. bsimpl. rewrite Hcmd. bsimpl.
  destruct (plain (rc_proc cmd)) eqn:Ep.
  - destruct (runCommand_ok cfg (λ _, True) (spared (ends (rc_proc cmd)) cid) w cid c cmd Hs Ec Hk Ep) as (r & w' & c1 & _ & Er & S' & V' & O' & E' & _).
    exists w'. split; [|split; [done|split; [done|split; [done|by rewrite E']]]]. unfold proc_queued. rewrite Ec. bsimpl. rewrite Hcmd. bsimpl. by destruct (rc_proc cmd).
  - destruct (rc_proc cmd) eqn:Er; try done; cbn [ends].
    + by apply (multi_ok _ w cid c).
    + destruct (decide (in_multi c = true ∧ cas c = false ∧ err c = false)) as [(E1 & E2 & E3)|Hno].
      * destruct (exec_runs_ok cfg (spared true cid) w cid c Hs Ec E1 E2 E3 (not_spared cid)) as (w' & p & -> & _ & H & _); [intros i Hi; by apply Hi|]. by exists w'.
      * destruct (exec_refuses_ok cfg (spared true cid) w cid c Hs Ec) as (w' & -> & H & _); [|apply not_spared|by exists w']. destruct (in_multi c); [|by left]. right.
        destruct (cas c); [by left|]. destruct (err c); [by right|]. by destruct Hno.
    + apply (discardCommand_ok _ w cid c); [done|done|apply not_spared].
    + by apply (watchCommand_ok _ w cid c).
    + unfold proc_queued. rewrite Ec. bsimpl. rewrite Hcmd. bsimpl. rewrite Er.
      destruct (unwatchCommand_ok (λ _, True) (spared true cid) w cid c Hs Ec (not_spared cid)) as (w' & E & S' & V' & O' & E' & _).
      exists w'. split; [|split; [done|split; [done|split; [done|by rewrite E']]]]. exact E.
Qed.

Lemma finished_log P cid w w' w2 : clients w2 = clients w' → watchers w2 = watchers w' → w_data w2 = w_data w' → finished P cid w w' → finished P cid w w2.
Proof.
  intros E1 E2 E3 (H1 & H2 & H3 & H4). split; [destruct H1; split; [unfold wkeys in *; by rewrite E1, E2|by rewrite E1]|]. split; [unfold evolves in *; by rewrite E1, E3|].
  unfold others. by rewrite E1.
Qed.

Lemma call_ok cfg w cid c cmd : consistent w → clients w !! cid = Some c → m_cmd c = Some cmd → known cmd →
  ∃ w', call lookupCommand run cfg cid w = Some w' ∧ finished (spared (ends (rc_proc cmd)) cid) cid w w'.
Proof.
  intros Hs Ec Hcmd Hk. unfold call, call_of. destruct (proc_any_ok cfg w cid c cmd Hs Ec Hcmd Hk) as (w' & -> & H). bsimpl. destruct (proj2 (proj2 (proj2 H))) as [c' ->]. bsimpl.
  eexists. split; [reflexivity|]. eapply finished_log; [..|exact H]; by destruct (_ =? 0).
Qed.

(** The client after an error while it queued. *)
Definition flagged c : mclient := if in_multi c then put_flags (Z.lor (m_flags c) REDIS_DIRTY_EXEC) c else c.

Lemma flagged_flags c : in_multi (flagged c) = in_multi c ∧ cas (flagged c) = cas c ∧ err (flagged c) = err c || in_multi c.
Proof.
  unfold flagged. destruct (in_multi c) eqn:Em; [|by rewrite orb_false_r]. unfold in_multi, cas, err, REDIS_MULTI, REDIS_DIRTY_CAS, REDIS_DIRTY_EXEC in *. cbn [m_flags put_flags].
  rewrite !has_set by lia. change (12 =? 3) with false. change (12 =? 5) with false. by rewrite !orb_false_r, !orb_true_r.
Qed.

Lemma flag_ok P w cid c : consistent w → clients w !! cid = Some c →
  ∃ w', flagTransaction cid w = Some w' ∧ finished P cid w w' ∧ clients w' !! cid = Some (flagged c) ∧ w_data w' = w_data w ∧ w_dirty w' = w_dirty w ∧ w_log w' = w_log w.
Proof.
  intros Hs Ec. unfold flagTransaction. rewrite (on_ok _ _ _ _ Ec). fold (in_multi c). fold (flagged c). destruct (flagged_flags c) as (F1 & F2 & F3).
  assert (watched_keys (flagged c) = watched_keys c ∧ commands (flagged c) = commands c) as [F4 F5] by (unfold flagged; by destruct (in_multi c)).
  eexists. split; [reflexivity|]. split; [|cbn; by rewrite lookup_insert_eq]. eapply finished_insert; [done|exact Ec|done|done|done|done| |].
  - destruct (so_tidy _ _ Hs cid c I Ec) as [H1 H2]. split; [|by rewrite F5]. rewrite F1, F3, F5. intros Em. rewrite Em, orb_false_r. by apply H1.
  - intros _. unfold same_but. rewrite F1, F2, F3, F4. split; [done|]. split; [done|]. split; [|done]. by intros ->.
Qed.

(** A refusal: the transaction is flagged or not, and the reply. *)
Lemma refused_call_ok P (flag : bool) t w cid c : consistent w → clients w !! cid = Some c →
  ∃ w', (w ← (if flag then flagTransaction cid w else Some w); w ← addReply cid t w; Some (w, REDIS_OK)) = Some (w', REDIS_OK) ∧ finished P cid w w' ∧
    clients w' !! cid = Some (say t (if flag then flagged c else c)) ∧ w_data w' = w_data w ∧ w_dirty w' = w_dirty w ∧ w_log w' = w_log w.
Proof.
  intros Hs Ec. destruct flag.
  - destruct (flag_ok P w cid c Hs Ec) as (w1 & -> & H1 & E1 & A1 & A2 & A3). bsimpl. destruct (said_ok P cid t w1 _ (proj1 H1) E1) as (w' & -> & H2 & E2 & B1 & B2 & B3). bsimpl.
    exists w'. split; [done|]. split; [by eapply finished_trans|]. split; [done|]. split_and!; congruence.
  - bsimpl. destruct (said_ok P cid t w c Hs Ec) as (w' & -> & H2). by exists w'.
Qed.

Definition named_ends (name : text) : bool := match lookupCommand name with Some cmd => ends (rc_proc cmd) | None => false end.

Lemma queue_ok P w cid c cmd : consistent w → clients w !! cid = Some c → m_cmd c = Some cmd → known cmd → in_multi c = true → queues (rc_proc cmd) = true →
  ∃ w', queueMultiCommand cid w = Some w' ∧ finished P cid w w' ∧ clients w' !! cid = Some (put_commands (commands c ++ [mkMulti cmd (m_argv c)]) c).
Proof.
  intros Hs Ec Hcmd Hk Em Hq. unfold queueMultiCommand. rewrite Ec. bsimpl. rewrite Hcmd. bsimpl. rewrite (on_ok _ _ _ _ Ec). eexists. split; [reflexivity|]. split; [|cbn; by rewrite lookup_insert_eq].
  eapply finished_insert; [done|exact Ec|done|done|done|done| |done]. destruct (so_tidy _ _ Hs cid c I Ec) as [H1 H2]. split; [unfold in_multi in *; cbn; congruence|].
  cbn. apply Forall_app. split; [done|]. by apply Forall_singleton.
Qed.

Lemma data_ok P w cid w' : consistent w → is_Some (clients w !! cid) → clients w' = clients w → watchers w' = watchers w → (∀ wk, kept wk (w_data w) (w_data w')) → finished P cid w w'.
Proof.
  intros Hs Hc E1 E2 Hk. split; [destruct Hs; split; [unfold wkeys in *; by rewrite E1, E2|by rewrite E1]|]. split; [|split; [left; by rewrite E1|by rewrite E1]].
  intros i c _ Ec. exists c. rewrite E1. split; [done|]. split; [done|]. split; [done|]. split; [done|]. split; [done|]. by right.
Qed.

Lemma processCommand_ok cfg w cid c name rest : consistent w → clients w !! cid = Some c → m_argv c = name :: rest →
  ∃ w' r, processCommand lookupCommand run freeMemoryIfNeeded cfg cid w = Some (w', r) ∧ finished (spared (named_ends name) cid) cid w w'.
Proof.
  intros Hs Ec Ea. set (P := spared _ _). unfold processCommand. rewrite Ec. bsimpl. rewrite Ea. cbn [lookup list_lookup]. bsimpl. case_bool_decide as Hquit.
  { destruct (said_ok P cid shared_ok w c Hs Ec) as (w1 & -> & H1 & E1 & _). bsimpl. rewrite (on_ok _ _ _ _ E1). bsimpl. eexists _, _. split; [reflexivity|]. eapply finished_trans; [exact H1|]. intros Hs1.
    set (c1 := say shared_ok c) in *. assert (∀ m, m ∈ [3; 5; 12] → has (Z.lor (m_flags c1) REDIS_CLOSE_AFTER_REPLY) (Z.shiftl 1 m) = has (m_flags c1) (Z.shiftl 1 m)) as Hm.
    { intros m Hin. unfold REDIS_CLOSE_AFTER_REPLY. rewrite has_set; [|lia|set_unfold; lia]. rewrite (proj2 (Z.eqb_neq 6 m)) by (set_unfold; lia). apply orb_false_r. }
    assert (in_multi (put_flags (Z.lor (m_flags c1) REDIS_CLOSE_AFTER_REPLY) c1) = in_multi c1) as M1 by (apply (Hm 3); set_solver).
    assert (cas (put_flags (Z.lor (m_flags c1) REDIS_CLOSE_AFTER_REPLY) c1) = cas c1) as M2 by (apply (Hm 5); set_solver).
    assert (err (put_flags (Z.lor (m_flags c1) REDIS_CLOSE_AFTER_REPLY) c1) = err c1) as M3 by (apply (Hm 12); set_solver).
    eapply finished_insert; [exact Hs1|exact E1|done|done|done|done| |intros _; unfold same_but; by rewrite M1, M2, M3]. apply (tidy_same c1); [done..|]. by apply (so_tidy _ _ Hs1 cid). }
  rewrite (on_ok _ _ _ _ Ec). bsimpl. set (c1 := put_call _ _ c). set (w1 := put_clients _ w).
  assert (clients w1 !! cid = Some c1) as E1 by (unfold w1; cbn; by rewrite lookup_insert_eq).
  assert (finished P cid w w1) as H1 by (eapply finished_insert; [exact Hs|exact Ec|done|done|done|done|apply (tidy_same c); [done..|]; by apply (so_tidy _ _ Hs cid)|done]).
  destruct (lookupCommand name) as [cmd|] eqn:El.
  2:{ destruct (refused_call_ok P true (error_about (str "unknown command '") name (str "'")) w1 cid c1 (proj1 H1) E1) as (w' & E & H2 & _). exists w', REDIS_OK. split; [exact E|]. by eapply finished_trans. }
  assert (known cmd) as Hk by (by exists name). destruct (bad_arity cmd (name :: rest)).
  { destruct (refused_call_ok P true (error_about (str "wrong number of arguments for '") (rc_name cmd) (str "' command")) w1 cid c1 (proj1 H1) E1) as (w' & E & H2 & _). exists w', REDIS_OK. split; [exact E|]. by eapply finished_trans. }
  set (m := if _ && _ then freeMemoryIfNeeded (w_data w1) else _). assert (∀ wk, kept wk (w_data w1) m.1.1) as Hm by (intros wk; unfold m; destruct (_ && _); [apply (free_kept ok)|reflexivity]).
  destruct m as [[k retval] feeds]. cbn [fst] in Hm. set (w2 := put_data k (pass_on feeds w1)).
  assert (finished P cid w w2) as H2 by (eapply finished_trans; [exact H1|]; intros Hs1; by apply data_ok; [..|exists c1|done|done|exact Hm]).
  destruct (refusal cfg (retval =? REDIS_ERR) c cmd) as [[t flag]|].
  { destruct (refused_call_ok P flag t w2 cid c1 (proj1 H2) E1) as (w' & E & H3 & _). exists w', REDIS_OK. split; [exact E|]. by eapply finished_trans. }
  destruct (has (m_flags c) REDIS_MULTI && queues (rc_proc cmd)) eqn:Eq.
  - apply andb_true_iff in Eq as [Em Hq]. destruct (queue_ok P w2 cid c1 cmd (proj1 H2) E1) as (w3 & -> & H3 & E3); [done|done|exact Em|exact Hq|]. bsimpl.
    destruct (said_ok P cid shared_queued w3 _ (proj1 H3) E3) as (w4 & -> & H4 & _). bsimpl. exists w4, REDIS_OK. split; [done|]. eapply finished_trans; [exact H2|]. intros _. by eapply finished_trans.
  - destruct (call_ok cfg w2 cid c1 cmd (proj1 H2) E1) as (w3 & -> & H3); [done|done|]. bsimpl. exists w3, REDIS_OK. split; [done|]. eapply finished_trans; [exact H2|]. intros _.
    unfold P, named_ends. by rewrite El.
Qed.
End ops.
