(* ===== verification/MultiStrings.v ===== *)
(** * Transactions of commands on strings and keys

    The commands of [Multi] that are not of [multi.c] are those of
    [CommandThms], run on the databases by their numbers; what they signal and
    pass on is read off the events of the specification. *)

From S2P Require Import Prelude Util Object Number Client Reply Server Commands DbSpec DbKeys DbReply CommandSpec StringOps KeyOps CommandThms Observe Effects Multi MultiSpec MultiOps.
From stdpp Require Import gmap.
Local Open Scope Z_scope.

(** ** The table of commands *)

Definition row (name : string) (p : proc command) (arity : Z) (sflags : string) : redisCommand command :=
  mkCommand (str name) p arity (default 0 (flags_of (str sflags))).

(** The rows of the commands that are modelled. *)
Definition redisCommandTable : list (redisCommand command) := [
  row "get" (PData CGet) 2 "rF"; row "set" (PData CSet) (-3) "wm"; row "setnx" (PData CSetnx) 3 "wmF"; row "setex" (PData CSetex) 4 "wm";
  row "psetex" (PData CPsetex) 4 "wm"; row "append" (PData CAppend) 3 "wm"; row "strlen" (PData CStrlen) 2 "rF"; row "del" (PData CDel) (-2) "w";
  row "exists" (PData CExists) 2 "rF"; row "setrange" (PData CSetrange) 4 "wm"; row "getrange" (PData CGetrange) 4 "r"; row "substr" (PData CGetrange) 4 "r";
  row "incr" (PData CIncr) 2 "wmF"; row "decr" (PData CDecr) 2 "wmF"; row "mget" (PData CMget) (-2) "r"; row "incrby" (PData CIncrby) 3 "wmF";
  row "decrby" (PData CDecrby) 3 "wmF"; row "getset" (PData CGetset) 3 "wm"; row "mset" (PData CMset) (-3) "wm"; row "msetnx" (PData CMsetnx) (-3) "wm";
  row "expire" (PData CExpire) 3 "wF"; row "expireat" (PData CExpireat) 3 "wF"; row "pexpire" (PData CPexpire) 3 "wF"; row "pexpireat" (PData CPexpireat) 3 "wF";
  row "multi" PMulti 1 "rsF"; row "exec" PExec 1 "sM"; row "discard" PDiscard 1 "rsF"; row "ttl" (PData CTtl) 2 "rF"; row "pttl" (PData CPttl) 2 "rF";
  row "persist" (PData CPersist) 2 "wF"; row "watch" PWatch (-2) "rsF"; row "unwatch" PUnwatch 1 "rsF"].

(** [server.commands] after some commands were renamed to nothing. *)
Definition lookup_but (gone : list text) (name : text) : option (redisCommand command) :=
  if bool_decide (tolower <$> name ∈ gone) then None else List.find (λ c, bool_decide (rc_name c = tolower <$> name)) redisCommandTable.

(** ** Running them *)

(** The databases, by their numbers. *)
Definition databases : Type := Z → kv.

Definition put_database (db : Z) (a : kv) (f : databases) : databases := λ i, if i =? db then a else f i.

(** Nothing is replied yet. *)
Definition unreplied (cmd : redisCommand command) (a : kv) : kv := mkKv (vals a) (exps a) (dirty a) (events a) [] (rc_name cmd).

Definition touched (db : Z) (ev : list kevent) : list touch := omap (λ e, match e with EvModified k => Some (TouchKey db k) | _ => None end) ev.

Definition run_strings (cfg : settings) (cmd : redisCommand command) (db : Z) (auth : bool) (argv : list text) (f : databases) : option (ran databases) :=
  match rc_proc cmd with
  | PData c =>
      let a := f db in
      let r := exec (clock cfg) (is_loading cfg) (has_master cfg) c argv (unreplied cmd a) in
      let ev := drop (length (events a)) (events r.1) in
      Some (mkRan (put_database db r.1 f) (out r.1) (touched db ev) (dirty r.1 - dirty a) ((λ l, (db, l)) <$> deletions ev) r.2 db auth)
  | _ => None
  end.

(** Whatever happens to the key, its value and its time are the same, or its
    deletion was passed on; but [PERSIST], which does not report what it
    changes, may have taken its time away. *)
Definition kept_key (persist : Prop) (wk : Z * text) (f g : databases) : Prop :=
  ∃ ev, events (g wk.1) = events (f wk.1) ++ ev ∧
    (vals (g wk.1) !! wk.2 = vals (f wk.1) !! wk.2 ∧
     (exps (g wk.1) !! wk.2 = exps (f wk.1) !! wk.2 ∨ persist ∧ exps (g wk.1) !! wk.2 = None) ∨ EvPropagate [str "DEL"; wk.2] ∈ ev).

#[export] Instance kept_key_preorder persist wk : PreOrder (kept_key persist wk).
Proof.
  split.
  - intros f. exists []. rewrite app_nil_r. split; [done|]. left. by split; [|left].
  - intros f g h (e1 & E1 & H1) (e2 & E2 & H2). exists (e1 ++ e2). split; [by rewrite E2, E1, <- app_assoc|].
    destruct H1 as [[A1 B1]|H1], H2 as [[A2 B2]|H2]; [left|right; set_solver..]. split; [congruence|].
    destruct B2 as [-> |?]; [|by right]. exact B1.
Qed.

(** The commands the table may have. *)
Definition served (p : proc command) : Prop :=
  match p with PData _ | PMulti | PExec | PDiscard | PWatch | PUnwatch => True | _ => False end.

Lemma plain_data p : served p → plain p = true → ∃ c, p = PData c.
Proof. destruct p; try done. intros _ _. by exists d. Qed.

(** What a command does to a key and does not report. *)
Lemma exec_silent mstime loading masterhost c ts a k : ∃ ev, events (exec mstime loading masterhost c ts a).1 = events a ++ ev ∧
  let b := (exec mstime loading masterhost c ts a).1 in
  (reported ev k ∨ vals b !! k = vals a !! k ∧ (exps b !! k = exps a !! k ∨ c = CPersist ∧ exps b !! k = None)).
Proof.
  destruct (decide (c = CPersist)) as [-> |Hc].
  - exists []. rewrite app_nil_r. cbn [CommandThms.exec]. destruct ts as [|t1 [|t2 [|]]]; cbn [fst]; try (by split; [|right; split; [|left]]).
    unfold spec_persist. destruct (_ && _); cbn; [|by split; [|right; split; [|left]]]. split; [done|]. right. split; [done|].
    destruct (decide (t2 = k)) as [-> |?]; [right; by rewrite lookup_delete_eq|left; by rewrite lookup_delete_ne].
  - destruct (exec_told mstime loading masterhost c ts a Hc) as (ev & E & Hev). exists ev. split; [done|]. cbn zeta. unfold changed in Hev.
    destruct (decide (vals (exec mstime loading masterhost c ts a).1 !! k = vals a !! k ∧ exps (exec mstime loading masterhost c ts a).1 !! k = exps a !! k)) as [[E1 E2]|Hn].
    { right. split; [done|]. by left. }
    left. destruct (Hev k) as [Hin|H]; [|by apply not_elem_of_empty in Hin|exact H].
    destruct (decide (vals (exec mstime loading masterhost c ts a).1 !! k = vals a !! k)); [right|by left]. tauto.
Qed.

Section strings.
Context (lookupCommand : text → option (redisCommand command)).
Context (table : ∀ name cmd, lookupCommand name = Some cmd → served (rc_proc cmd)).

(** The table has [PERSIST]. *)
Definition persists : Prop := ∃ name cmd, lookupCommand name = Some cmd ∧ rc_proc cmd = PData CPersist.

Context (freeMemoryIfNeeded : databases → databases * Z * list (Z * list text)).
Context (evicts : ∀ f wk, kept_key persists wk f (freeMemoryIfNeeded f).1.1).

Lemma run_strings_kept cfg cmd db auth argv f r wk : known lookupCommand cmd → run_strings cfg cmd db auth argv f = Some r → ¬ Exists (hits wk) (r_touched r) →
  kept_key persists wk f (r_data r).
Proof.
  intros [name Hk] Hr Hno. unfold run_strings in Hr. destruct (rc_proc cmd) as [| | | | | | | | | | | | | |c] eqn:Ep; try done. injection Hr as <-. cbn [r_touched r_data] in *.
  destruct wk as [i k]. unfold kept_key. cbn [fst snd]. unfold put_database. destruct (Z.eqb_spec i db) as [-> |Hi].
  2:{ exists []. rewrite app_nil_r. split; [done|]. left. by split; [|left]. }
  destruct (exec_silent (clock cfg) (is_loading cfg) (has_master cfg) c argv (unreplied cmd (f db)) k) as (ev & Ee & Hev).
  set (b := exec _ _ _ _ _ _) in *. cbn [unreplied events vals exps] in Ee, Hev. exists ev. split; [done|].
  rewrite Ee, drop_app_length in Hno. destruct Hev as [[Hm|Hd]|[Ev Ex]]; [|by right|left].
  - exfalso. apply Hno, Exists_exists. exists (TouchKey db k). split; [|done]. unfold touched. apply list_elem_of_omap. by exists (EvModified k).
  - split; [done|]. destruct Ex as [?|[-> ?]]; [by left|right]. split; [|done]. by exists name, cmd.
Qed.

Lemma strings_ok : commands_ok lookupCommand run_strings freeMemoryIfNeeded (kept_key persists).
Proof.
  split; [|exact run_strings_kept|exact evicts]. intros cfg cmd db auth argv f [name Hk] Hp. destruct (plain_data _ (table name cmd Hk) Hp) as (c & E). unfold run_strings. rewrite E. by eexists.
Qed.
End strings.

(** ** What the flags of the table promise *)

Lemma foldl_same {A B C} (g : A → B) (f : A → C → A) : (∀ a x, g (f a x) = g a) → ∀ l a, g (foldl f a l) = g a.
Proof. intros H l. induction l as [|x l IH]; intros a; [done|]. cbn. by rewrite IH. Qed.

(** The commands that only read. *)
Definition reads_only (c : command) : bool := match c with CGet | CStrlen | CExists | CGetrange | CMget | CTtl | CPttl => true | _ => false end.

Lemma exec_reads_only mstime loading masterhost c ts a : reads_only c = true → dirty (exec mstime loading masterhost c ts a).1 = dirty a.
Proof.
  intros Hc. unfold CommandThms.exec. destruct c; try done; repeat (destruct ts as [|? ts]; [reflexivity|]); try (destruct ts as [|? ts]; [|reflexivity]); cbn [fst].
  - unfold spec_get. apply dirty_purge.
  - unfold spec_strlen. apply dirty_purge.
  - unfold spec_exists. apply dirty_purge.
  - unfold spec_getrange. destruct (text_number _); [|done]. destruct (text_number _); [|done]. apply dirty_purge.
  - unfold spec_mget. rewrite (foldl_same dirty); [done|]. intros b k. unfold mget_key. apply dirty_purge.
  - unfold spec_ttl. apply dirty_purge.
  - unfold spec_ttl. apply dirty_purge.
Qed.

Lemma table_reads cmd c : cmd ∈ redisCommandTable → rc_proc cmd = PData c → writes cmd = negb (reads_only c).
Proof.
  intros Hin. assert (Forall (λ cmd, ∀ c, rc_proc cmd = PData c → writes cmd = negb (reads_only c)) redisCommandTable) as H.
  { unfold redisCommandTable. repeat (apply Forall_cons; split; [intros d; cbn [rc_proc row]; intros [= <-]; vm_compute; reflexivity|]). by apply Forall_nil. }
  rewrite Forall_forall in H. by apply H.
Qed.
