(* ===== verification/MultiThms.v ===== *)
(** * Properties of transactions *)

From S2P Require Import Prelude Util Object Number Client Reply Server Commands DbSpec DbKeys DbReply CommandSpec StringOps KeyOps CommandThms Observe Effects Multi MultiSpec MultiOps MultiStrings.
From stdpp Require Import gmap.
Local Open Scope Z_scope.

(** No clients, and the data [k]. *)
Definition initial {D K} (k : K) : world D K := mkWorld ∅ ∅ k 0 [].

Section steps.
Context {D K : Type} (lookupCommand : text → option (redisCommand D)) (run : settings → redisCommand D → Z → bool → list text → K → option (ran K))
  (freeMemoryIfNeeded : K → K * Z * list (Z * list text)) (kept : Z * text → K → K → Prop) {kept_preorder : ∀ wk, PreOrder (kept wk)}.
Context (ok : commands_ok lookupCommand run freeMemoryIfNeeded kept).
#[local] Abbreviation world := (world D K).
#[local] Abbreviation step := (step lookupCommand run freeMemoryIfNeeded).
#[local] Abbreviation steps := (steps lookupCommand run freeMemoryIfNeeded).
#[local] Abbreviation consistent := (consistent lookupCommand).
#[local] Abbreviation evolves := (evolves kept).
#[local] Abbreviation finished := (finished lookupCommand kept).
Implicit Types (w : world) (i cid : Z).

(** The step takes nothing from the client [i] that it watches. *)
Definition spares (e : event) i : Prop :=
  match e with
  | Request cid _ (name :: _) => spared (named_ends lookupCommand name) cid i
  | Leave cid => i ≠ cid
  | _ => True
  end.

Lemma request_ok cfg w cid c name rest : consistent w → clients w !! cid = Some c →
  ∃ w', step (Request cid cfg (name :: rest)) w = Some w' ∧ consistent w' ∧ evolves (spares (Request cid cfg (name :: rest))) w w'.
Proof using ok kept_preorder.
  intros Hs Ec. unfold Multi.step. rewrite (on_ok _ _ _ _ Ec). bsimpl. set (c1 := put_call _ _ c). set (w1 := put_clients _ w).
  assert (finished (spares (Request cid cfg (name :: rest))) cid w w1) as H1.
  { eapply finished_insert; [exact kept_preorder|exact Hs|exact Ec|done|done|done|done| |done]. apply (tidy_same _ c); [done..|]. by apply (so_tidy _ _ _ Hs cid). }
  destruct (processCommand_ok lookupCommand run freeMemoryIfNeeded kept ok cfg w1 cid c1 name rest) as (w' & r & -> & H2); [apply H1|unfold w1; cbn; by rewrite lookup_insert_eq|done|].
  bsimpl. exists w'. split; [done|]. destruct (finished_trans lookupCommand kept _ cid w w1 w' H1) as (A & B & _); [by intros _|done].
Qed.

Lemma leave_ok w cid c : consistent w → clients w !! cid = Some c → ∃ w', step (Leave cid) w = Some w' ∧ consistent w' ∧ evolves (spares (Leave cid)) w w'.
Proof using kept_preorder.
  intros Hs Ec. unfold Multi.step, freeClient. destruct (unwatch_ok cid w c (so_linked _ _ _ Hs) Ec) as (t & -> & Hl). bsimpl. eexists. split; [reflexivity|].
  assert (∀ i, i ≠ cid → clients (put_clients (delete cid (<[cid := put_watched [] c]> (clients w))) w) !! i = clients w !! i) as Hi.
  { intros i Hi. cbn. by rewrite lookup_delete_ne, lookup_insert_ne. }
  split.
  - split.
    + assert (wkeys (put_clients (delete cid (<[cid := put_watched [] c]> (clients w))) w) = delete cid (<[cid := []]> (wkeys w))) as Ek by (unfold wkeys; cbn; by rewrite fmap_delete, fmap_insert).
      change (linked (wkeys (put_clients (delete cid (<[cid := put_watched [] c]> (clients w))) w)) t). rewrite Ek. destruct Hl as [L1 L2 L3 L4].
      assert (∀ i l, delete cid (<[cid := []]> (wkeys w)) !! i = Some l → <[cid := []]> (wkeys w) !! i = Some l) as Hd by (intros i l E; by apply lookup_delete_Some in E as [_ E]).
      split; [intros i l E; apply (L1 i), Hd, E|exact L2| |intros i ks wk E; apply (L4 i), Hd, E].
      intros wk l i El Hin. destruct (L3 wk l i El Hin) as (ks & E & Hk). exists ks. split; [|done]. rewrite lookup_delete_ne; [done|]. intros <-. rewrite lookup_insert_eq in E. injection E as <-. by apply not_elem_of_nil in Hk.
    + intros i d _ Ed. cbn in Ed. apply lookup_delete_Some in Ed as [Hne Ed]. rewrite lookup_insert_ne in Ed by done. by apply (so_tidy _ _ _ Hs i).
  - intros i d Hne Ed. exists d. split; [by rewrite <- Ed; apply Hi|]. split; [done|]. split; [done|]. split; [done|]. split; [done|]. intros wk _. by right.
Qed.

Lemma connect_ok w cid w' : consistent w → step (Connect cid) w = Some w' → consistent w' ∧ evolves (spares (Connect cid)) w w'.
Proof using kept_preorder.
  intros [[L1 L2 L3 L4] Ht]. unfold Multi.step, createClient. destruct (clients w !! cid) eqn:Ec; [done|]. intros [= <-]. set (c0 := mkMClient _ _ _ _ _ _ _ _).
  assert (∀ i d, clients w !! i = Some d → i ≠ cid) as Hne by (intros i d E ->; congruence). split.
  - split.
    + unfold wkeys in *. cbn. rewrite fmap_insert. split.
      * intros i l. destruct (decide (i = cid)) as [-> |Hi]; [rewrite lookup_insert_eq; intros [= <-]; constructor|rewrite lookup_insert_ne by done; apply L1].
      * exact L2.
      * intros wk l i El Hin. destruct (L3 wk l i El Hin) as (ks & E & Hk). exists ks. split; [|done]. rewrite lookup_insert_ne; [done|]. intros <-. by rewrite lookup_fmap, Ec in E.
      * intros i ks wk. destruct (decide (i = cid)) as [-> |Hi]; [rewrite lookup_insert_eq; intros [= <-] ?%not_elem_of_nil; done|rewrite lookup_insert_ne by done; apply L4].
    + intros i d _. cbn. destruct (decide (i = cid)) as [-> |Hi]; [rewrite lookup_insert_eq; intros [= <-]; split; [done|constructor]|rewrite lookup_insert_ne by done; by apply Ht].
  - intros i d _ Ed. exists d. cbn. rewrite lookup_insert_ne by (symmetry; by apply (Hne i d)). split; [done|]. split; [done|]. split; [done|]. split; [done|]. split; [done|]. intros wk _. by right.
Qed.

Lemma step_ok e w w' : consistent w → step e w = Some w' → consistent w' ∧ evolves (spares e) w w'.
Proof using ok kept_preorder.
  intros Hs He. destruct e as [cid cfg argv|cid|cid]; [|by apply (connect_ok w cid)|].
  - destruct (clients w !! cid) as [c|] eqn:Ec; [|unfold Multi.step, on in He; by rewrite Ec in He]. destruct argv as [|name rest].
    + unfold Multi.step in He. rewrite (on_ok _ _ _ _ Ec) in He. bsimpl in He. unfold processCommand in He. cbn in He. rewrite lookup_insert_eq in He. done.
    + destruct (request_ok cfg w cid c name rest Hs Ec) as (w2 & E2 & H). rewrite E2 in He. by injection He as <-.
  - destruct (clients w !! cid) as [c|] eqn:Ec; [|unfold Multi.step, freeClient, unwatchAllKeys in He; by rewrite Ec in He].
    destruct (leave_ok w cid c Hs Ec) as (w2 & E2 & H). rewrite E2 in He. by injection He as <-.
Qed.

Lemma steps_ok l w w' i : steps l w w' → consistent w → consistent w' ∧ (Forall (λ e, spares e i) l → evolves (λ j, j = i) w w').
Proof using ok kept_preorder.
  intros Hl. induction Hl as [w|e l w1 w2 w3 He Hl IH]; intros Hs.
  - split; [done|]. intros _ j c _ Ec. exists c. split; [done|]. split; [done|]. split; [done|]. split; [done|]. split; [done|]. intros wk _. by right.
  - destruct (step_ok e w1 w2 Hs He) as [Hs2 He2], (IH Hs2) as [Hs3 He3]. split; [done|]. intros [Hsp Hl']%Forall_cons. eapply evolves_trans; [exact kept_preorder| |by apply He3]. intros j c ->. by apply He2.
Qed.

Lemma initial_consistent (k : K) : consistent (initial k).
Proof. split; [split|]; unfold initial, wkeys; cbn; intros *; rewrite ?fmap_empty, ?lookup_empty; done. Qed.
End steps.

(** ** What is passed on *)

Section logs.
Context {D K : Type} (lookupCommand : text → option (redisCommand D)) (run : settings → redisCommand D → Z → bool → list text → K → option (ran K)).
(** What may be passed on while a command runs. *)
Context (feed : Z * list text → Prop).

(** A command that only reads changes nothing that counts, and the count never
    falls. *)
Definition logs_ok : Prop :=
  ∀ cfg cmd db auth argv k r, known lookupCommand cmd → run cfg cmd db auth argv k = Some r →
    0 ≤ r_dirty r ∧ (writes cmd = false → r_dirty r = 0 ∧ Forall feed (r_feeds r)).

Context (ok : logs_ok).

(** What a command passes on: what it does by itself, and then the command, if it
    changed something. *)
Definition passed_by (r : ran K) : list (Z * list text) := r_feeds r ++ (if r_dirty r <=? 0 then [] else [(r_db r, r_argv r)]).

(** A command in a run of commands: whether it may write, the database of the
    client when it starts, and what it passes on. *)
Record turn := mkTurn { t_writes : bool; t_db : Z; t_passed : list (Z * list text) }.

(** The commands one after the other, with no transaction, and the database of
    the client at the end. *)
Fixpoint turns cfg (l : list (multiCmd D)) (db : Z) (auth : bool) (k : K) : option (list turn * Z) :=
  match l with
  | [] => Some ([], db)
  | mc :: l =>
      match rc_proc (mc_cmd mc) with
      | PUnwatch => '(ts, db') ← turns cfg l db auth k; Some (mkTurn (writes (mc_cmd mc)) db [] :: ts, db')
      | _ =>
          r ← run cfg (mc_cmd mc) db auth (mc_argv mc) k;
          '(ts, db') ← turns cfg l (r_db r) (r_auth r) (r_data r);
          Some (mkTurn (writes (mc_cmd mc)) db (passed_by r) :: ts, db')
      end
  end.

(** With [MULTI] before the first that may write, unless it was passed on. *)
Fixpoint opened (must : bool) (ts : list turn) : list (Z * list text) :=
  match ts with
  | [] => []
  | t :: ts => (if negb must && t_writes t then [(t_db t, [str "MULTI"])] else []) ++ t_passed t ++ opened (must || t_writes t) ts
  end.

Lemma opened_once ts : opened true ts = concat (t_passed <$> ts).
Proof. induction ts as [|t ts IH]; [done|]. cbn. by rewrite IH. Qed.

Lemma opened_split ts : ∃ pre post, ts = pre ++ post ∧ Forall (λ t, t_writes t = false) pre ∧ (existsb t_writes ts = match post with [] => false | _ => true end) ∧
  opened false ts = concat (t_passed <$> pre) ++ match post with [] => [] | t :: _ => (t_db t, [str "MULTI"]) :: concat (t_passed <$> post) end ∧
  match post with [] => True | t :: _ => t_writes t = true end.
Proof.
  induction ts as [|t ts (pre & post & E1 & E2 & E3 & E4 & E5)]; [by exists [], []|]. destruct (t_writes t) eqn:Ew.
  - exists [], (t :: ts). cbn. by rewrite Ew, opened_once.
  - exists (t :: pre), post. cbn. rewrite Ew, E3, E4, E1. cbn. split; [done|]. split; [by constructor|]. split; [done|]. split; [by rewrite <- app_assoc|done].
Qed.

Lemma block_log cfg l : ∀ p p', Forall (queued lookupCommand) l → run_block run cfg l p = Some p' →
  ∃ ts, turns cfg l (p_db p) (p_auth p) (p_data p) = Some (ts, p_db p') ∧ p_log p' = p_log p ++ opened (p_must p) ts ∧ p_must p' = p_must p || existsb t_writes ts ∧
    p_dirty p ≤ p_dirty p' ∧ (existsb t_writes ts = false → p_dirty p' = p_dirty p) ∧ Forall (λ t, t_writes t = false → Forall feed (t_passed t)) ts.
Proof using ok.
  induction l as [|mc l IH]; intros p p' Hq H; cbn [run_block turns] in *.
  { injection H as <-. exists []. cbn. rewrite app_nil_r, orb_false_r. split_and!; try done; lia. }
  apply Forall_cons in Hq as [[_ Hk] Hq]. destruct (one run cfg mc p) as [p1|] eqn:E1; [|done]. bsimpl in H. destruct (IH p1 p' Hq H) as (ts & Et & El & Em & Hd & Hz & Hf). unfold one in E1.
  assert (rc_proc (mc_cmd mc) = PUnwatch ∨ ∀ A (x y : A), match rc_proc (mc_cmd mc) with PUnwatch => x | _ => y end = y) as [E|Eq] by (destruct (rc_proc (mc_cmd mc)); auto).
  - rewrite E in E1 |- *. injection E1 as <-. cbn [p_db p_auth p_data p_log p_must p_dirty] in *. rewrite Et. bsimpl. eexists. split; [reflexivity|]. cbn. rewrite El, Em, <- app_assoc, orb_assoc. split_and!; try done.
    + intros [_ Hw]%orb_false_iff. by apply Hz.
    + by constructor.
  - rewrite Eq in E1 |- *. destruct (run _ _ _ _ _ _) as [r|] eqn:Er; [|done]. bsimpl in E1. bsimpl. injection E1 as <-. cbn [p_db p_auth p_data p_log p_must p_dirty] in *. rewrite Et. bsimpl.
    destruct (ok _ _ _ _ _ _ _ Hk Er) as (H1 & H2). eexists. split; [reflexivity|]. cbn. unfold passed_by. rewrite El, Em, <- !app_assoc, orb_assoc. split; [done|]. split; [done|]. split; [lia|]. split.
    + intros [Hw Hw']%orb_false_iff. destruct (H2 Hw). rewrite (Hz Hw'). lia.
    + constructor; [|done]. cbn. intros Hw. destruct (H2 Hw) as [Hr Hfe]. rewrite Hr, app_nil_r. done.
Qed.
End logs.

(** ** The properties *)

#[export] Instance anything_preorder {K} (wk : Z * text) : PreOrder (λ _ _ : K, True).
Proof. by split. Qed.

Section claims.
Context {D K : Type} (lookupCommand : text → option (redisCommand D)) (run : settings → redisCommand D → Z → bool → list text → K → option (ran K))
  (freeMemoryIfNeeded : K → K * Z * list (Z * list text)).
(** The other commands of the table return. *)
Context (total : ∀ cfg cmd db auth argv k, known lookupCommand cmd → plain (rc_proc cmd) = true → is_Some (run cfg cmd db auth argv k)).
#[local] Abbreviation world := (world D K).
#[local] Abbreviation step := (step lookupCommand run freeMemoryIfNeeded).
#[local] Abbreviation steps := (steps lookupCommand run freeMemoryIfNeeded).
#[local] Abbreviation consistent := (consistent lookupCommand).
#[local] Abbreviation execCommand := (execCommand lookupCommand run).
Implicit Types (w : world) (i cid : Z).

Lemma anything_ok free : commands_ok lookupCommand run free (λ _ _ _, True).
Proof using total. by split. Qed.

(** C12. Whatever clients come, send and go, the server never fails an assertion
    or follows a dangling pointer of the transactions: the list of the keys a
    client watches and the table of the clients that watch a key say the same,
    no client is in a list twice, no list is empty, every client in it is
    connected, and the next request of any client is processed, as is its
    leaving. *)
Theorem watching_is_consistent l k w : steps l (initial k) w →
  (∀ i c wk, clients w !! i = Some c → NoDup (watched_keys c) ∧ (wk ∈ watched_keys c ↔ ∃ ws, watchers w !! wk = Some ws ∧ i ∈ ws)) ∧
  (∀ wk ws, watchers w !! wk = Some ws → ws ≠ [] ∧ NoDup ws ∧ ∀ i, i ∈ ws → is_Some (clients w !! i)) ∧
  (∀ cid, is_Some (clients w !! cid) → (∀ cfg name rest, is_Some (step (Request cid cfg (name :: rest)) w)) ∧ is_Some (step (Leave cid) w)).
Proof using total.
  intros Hl. destruct (steps_ok lookupCommand run freeMemoryIfNeeded _ (anything_ok _) l _ w 0 Hl (initial_consistent lookupCommand k)) as [Hs _]. pose proof Hs as [[L1 L2 L3 L4] _]. unfold wkeys in *. split; [|split].
  - intros i c wk Ec. assert (watched_keys <$> clients w !! i = Some (watched_keys c)) as Ek by (by rewrite Ec). split; [apply (L1 i); by rewrite lookup_fmap|]. split.
    + intros Hw. apply (L4 i (watched_keys c)); [by rewrite lookup_fmap|done].
    + intros (ws & Ei & Hin). destruct (L3 wk ws i Ei Hin) as (ks & E & Hk). rewrite lookup_fmap, Ek in E. by injection E as <-.
  - intros wk ws Ei. destruct (L2 wk ws Ei). split; [done|]. split; [done|]. intros i Hin. destruct (L3 wk ws i Ei Hin) as (ks & E & _). rewrite lookup_fmap in E. destruct (clients w !! i); [by eexists|done].
  - intros cid [c Ec]. split.
    + intros cfg name rest. destruct (request_ok lookupCommand run freeMemoryIfNeeded _ (anything_ok _) cfg w cid c name rest Hs Ec) as (w' & E & _). unfold Multi.step in *. by exists w'.
    + destruct (leave_ok lookupCommand run freeMemoryIfNeeded (λ _ _ _, True) w cid c Hs Ec) as (w' & E & _). by exists w'.
Qed.


(** C13. A transaction is passed on as a whole.  The commands of the queue are
    run one after the other, each in the state the one before left, and each
    passes on what it does by itself and then the command, if it changed
    something.  If one of them may write, [EXEC] adds to what is passed on
    [MULTI] once, right before what the first such command passes on, and the
    [EXEC] itself at the end; nothing else is added and nothing is lost.  What
    comes before [MULTI] is what commands that only read pass on, such as the
    deletion of keys past their time.  If all of them only read, neither [MULTI]
    nor [EXEC] is passed on. *)
Theorem transaction_logged_whole (feed : Z * list text → Prop) cfg w cid c cmd : logs_ok lookupCommand run feed → consistent w → clients w !! cid = Some c →
  m_cmd c = Some cmd → rc_proc cmd = PExec → in_multi c = true → cas c = false → err c = false →
  ∃ w' pre post db, call lookupCommand run cfg cid w = Some w' ∧ turns run cfg (commands c) (m_db c) (authenticated c) (w_data w) = Some (pre ++ post, db) ∧
    Forall (λ t, t_writes t = false ∧ Forall feed (t_passed t)) pre ∧
    match post with
    | [] => w_log w' = w_log w ++ concat (t_passed <$> pre)
    | t :: _ => t_writes t = true ∧ w_log w' = w_log w ++ concat (t_passed <$> pre) ++ (t_db t, [str "MULTI"]) :: concat (t_passed <$> post) ++ [(db, m_argv c)]
    end.
Proof using total.
  intros Hlog Hs Ec Hcmd Hp Em Hc He. unfold call, call_of, proc_any. rewrite Ec. bsimpl. rewrite Hcmd. bsimpl. rewrite Hp.
  destruct (exec_runs_ok lookupCommand run (λ k, (k, 0, [])) _ (anything_ok _) cfg (λ i, i ≠ cid) w cid c Hs Ec Em Hc He) as (w' & p & -> & Hb & _ & (A1 & A2 & A3) & E'); [tauto|done|]. bsimpl. rewrite E'. bsimpl.
  destruct (block_log lookupCommand run feed Hlog cfg (commands c) _ p (td_queue _ _ (so_tidy _ _ _ Hs cid c I Ec)) Hb) as (ts & Et & El & Eb & Hd & Hz & Hf).
  destruct (opened_split ts) as (pre & post & Hts & Hpre & Hex & Eo & Hpost). cbn [block_start p_db p_auth p_data p_log p_must p_dirty orb app] in *.
  eexists _, pre, post, (p_db p). split; [reflexivity|]. split; [by rewrite Et, Hts|]. rewrite Hts in Hf. apply Forall_app in Hf as [Hf _]. split.
  { rewrite Forall_forall in *. intros t Hin. split; [by apply Hpre|]. apply Hf; [done|]. by apply Hpre. }
  rewrite A3, Eb, Hex. rewrite Eo in El. destruct post as [|t post].
  - rewrite (Hz Hex). replace (w_dirty w + 0 + 0 - w_dirty w) with 0 by lia. change (0 <? 0) with false. cbv iota. change (0 =? 0) with true. cbv iota. by rewrite A2, El, app_nil_r.
  - split; [done|]. rewrite (proj2 (Z.ltb_ge (w_dirty w + p_dirty p + 1 - w_dirty w) 0)) by lia.
    rewrite (proj2 (Z.eqb_neq (w_dirty w + p_dirty p + 1 - w_dirty w) 0)) by lia. cbn [w_log pass_on client_after m_db m_argv]. rewrite A2, El. by rewrite <- !app_assoc.
Qed.

(** C14. A command that is refused while a transaction is queued, because there is
    no such command or the number of its arguments is wrong, ends it: whatever
    the client queues after it, and whatever others do, if the client does not
    end the transaction itself, [EXEC] runs nothing and replies [EXECABORT]. *)
Theorem queue_error_aborts l w w1 w2 cid c cfg cfg' name rest : consistent w → clients w !! cid = Some c → in_multi c = true →
  tolower <$> until_nul name ≠ str "quit" → match lookupCommand name with None => True | Some cmd => bad_arity cmd (name :: rest) = true end →
  step (Request cid cfg (name :: rest)) w = Some w1 → steps l w1 w2 → Forall (λ e, spares lookupCommand e cid) l →
  ∃ c2 w3, clients w2 !! cid = Some c2 ∧ execCommand cfg' cid w2 = Some w3 ∧ w_data w3 = w_data w2 ∧ w_dirty w3 = w_dirty w2 ∧ w_log w3 = w_log w2 ∧
    clients w3 !! cid = Some (discarded (say shared_execaborterr c2)).
Proof using total.
  intros Hs Ec Em Hquit Hbad He Hl Hsp. destruct (step_ok lookupCommand run freeMemoryIfNeeded _ (anything_ok _) _ w w1 Hs He) as [Hs1 _].
  assert (∃ c1, clients w1 !! cid = Some c1 ∧ in_multi c1 = true ∧ err c1 = true) as (c1 & E1 & Em1 & Ee1).
  { unfold Multi.step in He. rewrite (on_ok _ _ _ _ Ec) in He. bsimpl in He. set (c0 := put_call _ _ c) in He. set (w0 := put_clients _ w) in He.
    assert (clients w0 !! cid = Some c0) as E0 by (unfold w0; cbn; by rewrite lookup_insert_eq).
    assert (consistent w0) as Hs0 by (eapply sound_insert; [exact Hs|exact Ec|done|done|done|intros _; apply (tidy_same _ c); [done..|]; by apply (so_tidy _ _ _ Hs cid)]).
    unfold processCommand in He. rewrite E0 in He. bsimpl in He. cbn [c0 put_call m_argv lookup list_lookup] in He. bsimpl in He. rewrite (bool_decide_false _ Hquit) in He.
    rewrite (on_ok _ _ _ _ E0) in He. bsimpl in He. set (c1 := put_call _ _ c0) in He. set (w' := put_clients _ w0) in He.
    assert (clients w' !! cid = Some c1) as E1 by (unfold w'; cbn; by rewrite lookup_insert_eq).
    assert (consistent w') as Hs' by (eapply sound_insert; [exact Hs0|exact E0|done|done|done|intros _; apply (tidy_same _ c); [done..|]; by apply (so_tidy _ _ _ Hs cid)]).
    destruct (flagged_flags c1) as (F1 & _ & F3). change (in_multi c1) with (in_multi c) in F1, F3. rewrite Em, orb_true_r in F3. rewrite Em in F1.
    assert (∀ t, ('(w, _) ← (w ← flagTransaction cid w'; w ← addReply cid t w; Some (w, REDIS_OK)); Some w) = Some w1 → ∃ c2, clients w1 !! cid = Some c2 ∧ in_multi c2 = true ∧ err c2 = true) as Hend.
    { intros t Ht. destruct (refused_call_ok lookupCommand (λ _ _ _, True) (λ _, True) true t w' cid c1 Hs' E1) as (w2' & Ht' & _ & Ec2 & _). cbv iota in Ht'. rewrite Ht' in Ht. cbn [mbind option_bind] in Ht. injection Ht as <-. eexists. split; [exact Ec2|]. by split. }
    destruct (lookupCommand name) as [cmd|].
    - change (m_argv c0) with (name :: rest) in He. rewrite Hbad in He. exact (Hend _ He).
    - exact (Hend _ He). }
  destruct (steps_ok lookupCommand run freeMemoryIfNeeded _ (anything_ok _) l w1 w2 cid Hl Hs1) as [Hs2 Hev]. destruct (Hev Hsp cid c1 eq_refl E1) as (c2 & E2 & _ & _ & Ee2 & Em2 & _).
  destruct (exec_refuses_ok lookupCommand run (λ _ _ _, True) cfg' (λ i, i ≠ cid) w2 cid c2 Hs2 E2) as (w3 & E3 & _ & A1 & A2 & A3 & A4); [right; right; by apply Ee2|tauto|].
  exists c2, w3. split; [done|]. split; [done|]. split; [done|]. split; [done|]. split; [done|]. by rewrite (Em2 Em1), (Ee2 Ee1) in A4.
Qed.
End claims.

Section watched.
Context (lookupCommand : text → option (redisCommand command)).
Context (table : ∀ name cmd, lookupCommand name = Some cmd → served (rc_proc cmd)).
Context (freeMemoryIfNeeded : databases → databases * Z * list (Z * list text)).
Context (evicts : ∀ f wk, kept_key (persists lookupCommand) wk f (freeMemoryIfNeeded f).1.1).

(** C10. What [WATCH] is for, for a server whose commands are those on strings
    and keys that are modelled, with the transactions.  A client watches a key,
    others run commands and transactions, and the client itself does anything
    but give up what it watches.  Then it still watches it, and either it is
    marked, and its [EXEC] runs nothing, or the key is there or not as it was,
    with the very value it had, unless the deletion of the key, because its time
    was past, was passed on in between.  Its time is the one it had too, but for
    [PERSIST], which does not mark the clients that watch the key: a server
    whose table has it may have taken the time away. *)
Theorem watched_keys_are_kept l w w' cid c db k : consistent lookupCommand w → clients w !! cid = Some c → (db, k) ∈ watched_keys c →
  steps lookupCommand run_strings freeMemoryIfNeeded l w w' → Forall (λ e, spares lookupCommand e cid) l →
  ∃ c', clients w' !! cid = Some c' ∧ (db, k) ∈ watched_keys c' ∧
    (cas c' = true ∧ (∀ cfg, ∃ w2, execCommand lookupCommand run_strings cfg cid w' = Some w2 ∧ w_data w2 = w_data w' ∧ w_log w2 = w_log w') ∨
     ∃ ev, events (w_data w' db) = events (w_data w db) ++ ev ∧
       (vals (w_data w' db) !! k = vals (w_data w db) !! k ∧
        (exps (w_data w' db) !! k = exps (w_data w db) !! k ∨
         (∃ name cmd, lookupCommand name = Some cmd ∧ rc_proc cmd = PData CPersist) ∧ exps (w_data w' db) !! k = None) ∨
        EvPropagate [str "DEL"; k] ∈ ev)).
Proof using table evicts.
  intros Hs Ec Hk Hl Hsp. pose proof (strings_ok lookupCommand table freeMemoryIfNeeded evicts) as ok.
  destruct (steps_ok lookupCommand run_strings freeMemoryIfNeeded (kept_key (persists lookupCommand)) ok l w w' cid Hl Hs) as [Hs' Hev]. destruct (Hev Hsp cid c eq_refl Ec) as (c' & E' & Hw & _ & _ & _ & Hc).
  exists c'. split; [done|]. split; [by apply Hw|]. destruct (Hc (db, k) Hk) as [Hcas|Hkept]; [left|right; exact Hkept]. split; [done|]. intros cfg.
  destruct (exec_refuses_ok lookupCommand run_strings (kept_key (persists lookupCommand)) cfg (λ i, i ≠ cid) w' cid c' Hs' E') as (w2 & E2 & _ & A1 & _ & A3 & _); [by right; left|tauto|]. by exists w2.
Qed.
End watched.

(** ** Witnesses *)

(** A deletion of a key. *)
Definition is_deletion (e : Z * list text) : Prop := ∃ k, e.2 = [str "DEL"; k].

Lemma lookup_but_table gone name cmd : lookup_but gone name = Some cmd → cmd ∈ redisCommandTable.
Proof. unfold lookup_but. case_bool_decide; [done|]. intros Hf. apply find_some in Hf as [Hf _]. by apply list_elem_of_In. Qed.

Lemma strings_logs gone : logs_ok (lookup_but gone) run_strings is_deletion.
Proof.
  intros cfg cmd db auth argv f r [name Hk] Hr. apply lookup_but_table in Hk. unfold run_strings in Hr. destruct (rc_proc cmd) as [| | | | | | | | | | | | | |c] eqn:Ep; try done. injection Hr as <-. cbn [r_dirty r_feeds].
  set (b := exec _ _ _ _ _ _). destruct (exec_tallied (clock cfg) (is_loading cfg) (has_master cfg) c argv (unreplied cmd (f db))) as [Hd Hq]. fold b in Hd, Hq. cbn [unreplied dirty] in Hd, Hq. split; [lia|].
  intros Hw. rewrite (table_reads cmd c Hk Ep) in Hw. apply negb_false_iff in Hw. assert (dirty b.1 = dirty (f db)) as Ed by (unfold b; rewrite exec_reads_only by done; done). split; [lia|].
  destruct (Hq Ed) as (ks & ev & Ee & Edel & _). cbn [unreplied events] in Ee. rewrite Ee, drop_app_length, Edel. apply Forall_fmap, Forall_fmap, Forall_forall. intros k _. by exists k.
Qed.

(** A server with an integer at [n], and all the commands but one. *)
Definition demo_lookup : text → option (redisCommand command) := lookup_but [str "substr"].
Definition demo_free (f : databases) : databases * Z * list (Z * list text) := (f, 0, []).
Definition demo_cfg : settings := mkSettings 1000 false 0 false 0 0 0 [] false 0 0 0 false true true false false.
Definition demo_databases : databases := λ _, mkKv {[ str "n" := VString (str "41") ]} ∅ 0 [] [] [].
#[local] Abbreviation demo_step := (step demo_lookup run_strings demo_free).
#[local] Abbreviation demo_steps := (steps demo_lookup run_strings demo_free).

Lemma demo_served name cmd : demo_lookup name = Some cmd → served (rc_proc cmd).
Proof.
  intros Hin%lookup_but_table. assert (Forall (λ c, served (rc_proc c)) redisCommandTable) as H by (by repeat constructor). rewrite Forall_forall in H. by apply H.
Qed.

Lemma demo_kept f wk : kept_key (persists demo_lookup) wk f (demo_free f).1.1.
Proof. reflexivity. Qed.

Lemma demo_total cfg cmd db auth argv f : known demo_lookup cmd → plain (rc_proc cmd) = true → is_Some (run_strings cfg cmd db auth argv f).
Proof. apply (run_total _ _ _ _ (strings_ok demo_lookup demo_served demo_free demo_kept)). Qed.

Definition demo_request (cid : Z) (argv : list string) : event := Request cid demo_cfg (str <$> argv).

Fixpoint run_steps (l : list event) (w : world command databases) : option (world command databases) :=
  match l with [] => Some w | e :: l => w ← demo_step e w; run_steps l w end.

Definition demo_world (l : list event) : world command databases := default (initial demo_databases) (run_steps l (initial demo_databases)).
Definition after (l : list event) (w : world command databases) : world command databases := default w (run_steps l w).

Lemma after_steps l w : is_Some (run_steps l w) → demo_steps l w (after l w).
Proof.
  unfold after. revert w. induction l as [|e l IH]; intros w [w' E]; [constructor|]. cbn [run_steps] in *. destruct (demo_step e w) as [w1|] eqn:E1; [|done]. bsimpl. bsimpl in E.
  econstructor; [exact E1|]. rewrite E. cbn [default]. specialize (IH w1 (ex_intro _ w' E)). by rewrite E in IH.
Qed.

(** One client watches [n]. *)
Definition demo_watch : list event := [Connect 1; Connect 2; demo_request 1 ["WATCH"; "n"]].
Definition demo_watching : world command databases := after demo_watch (initial demo_databases).
(** It queues a command while another sets the key. *)
Definition demo_race : list event := [demo_request 1 ["MULTI"]; demo_request 2 ["SET"; "n"; "5"]; demo_request 1 ["INCR"; "n"]].
(** It queues two commands, the first of which reads. *)
Definition demo_queue : list event := [demo_request 1 ["MULTI"]; demo_request 1 ["GET"; "n"]; demo_request 1 ["INCR"; "n"]].
Definition demo_queued : world command databases := after demo_queue demo_watching.

Definition client_of (w : world command databases) (cid : Z) : mclient command := default (mkMClient 0 false 0 None [] [] [] []) (clients w !! cid).

Lemma demo_watching_steps : demo_steps demo_watch (initial demo_databases) demo_watching.
Proof. apply after_steps. vm_compute. by eexists. Qed.

Lemma demo_watching_consistent : consistent demo_lookup demo_watching.
Proof.
  refine (proj1 (steps_ok demo_lookup run_strings demo_free (kept_key (persists demo_lookup)) (strings_ok demo_lookup demo_served demo_free demo_kept) demo_watch _ _ 1 demo_watching_steps _)). apply initial_consistent.
Qed.

Lemma demo_queued_consistent : consistent demo_lookup demo_queued.
Proof.
  refine (proj1 (steps_ok demo_lookup run_strings demo_free (kept_key (persists demo_lookup)) (strings_ok demo_lookup demo_served demo_free demo_kept) demo_queue demo_watching _ 1 _ demo_watching_consistent)).
  apply after_steps. vm_compute. by eexists.
Qed.

#[local] Opaque demo_watching demo_queued.

Lemma client_of_ok w cid : match clients w !! cid with Some _ => true | None => false end = true → clients w !! cid = Some (client_of w cid).
Proof. unfold client_of. by destruct (clients w !! cid). Qed.

Lemma watching_is_consistent_witness : demo_steps demo_watch (initial demo_databases) demo_watching ∧ watchers demo_watching !! (0, str "n") = Some [1] ∧
  is_Some (demo_step (Leave 1) demo_watching).
Proof.
  split; [exact demo_watching_steps|]. split; [vm_compute; reflexivity|].
  destruct (watching_is_consistent demo_lookup run_strings demo_free demo_total demo_watch demo_databases demo_watching demo_watching_steps) as (_ & _ & H).
  apply (H 1). exists (client_of demo_watching 1). apply client_of_ok. vm_compute. reflexivity.
Defined.


(** The client sends [EXEC]. *)
Definition demo_exec : redisCommand command := row "exec" PExec 1 "sM".
Definition demo_execing : world command databases :=
  put_clients (<[1 := put_call (Some demo_exec) [str "EXEC"] (client_of demo_queued 1)]> (clients demo_queued)) demo_queued.

Lemma calling_consistent {D K} (lookup : text → option (redisCommand D)) (w : world D K) cid c cmd argv : consistent lookup w → clients w !! cid = Some c →
  consistent lookup (put_clients (<[cid := put_call cmd argv c]> (clients w)) w).
Proof.
  intros Hs Ec. eapply sound_insert; [exact Hs|exact Ec|reflexivity|reflexivity|reflexivity|]. intros _. apply (tidy_same _ c); [done..|]. by apply (so_tidy _ _ _ Hs cid).
Qed.

Lemma demo_execing_consistent : consistent demo_lookup demo_execing.
Proof. apply calling_consistent; [exact demo_queued_consistent|]. apply client_of_ok. vm_compute. reflexivity. Qed.

Definition demo_calling : mclient command := put_call (Some demo_exec) [str "EXEC"] (client_of demo_queued 1).

Lemma demo_calling_client : clients demo_execing !! 1 = Some demo_calling.
Proof. unfold demo_execing. apply lookup_insert_eq. Qed.

Lemma demo_calling_state : in_multi demo_calling = true ∧ cas demo_calling = false ∧ err demo_calling = false.
Proof. split; [|split]; vm_compute; reflexivity. Qed.

Lemma demo_calling_args : m_cmd demo_calling = Some demo_exec ∧ m_argv demo_calling = [str "EXEC"].
Proof. split; reflexivity. Qed.

(** What the queue passes on: the second command changes the key. *)
Lemma demo_turns : turns run_strings demo_cfg (commands demo_calling) (m_db demo_calling) (authenticated demo_calling) (w_data demo_execing)
  = Some ([mkTurn false 0 []; mkTurn true 0 [(0, [str "INCR"; str "n"])]], 0).
Proof. vm_compute. reflexivity. Qed.

Lemma transaction_logged_whole_witness : in_multi demo_calling = true ∧
  ∃ w', call demo_lookup run_strings demo_cfg 1 demo_execing = Some w' ∧
    w_log w' = w_log demo_execing ++ [(0, [str "MULTI"]); (0, [str "INCR"; str "n"]); (0, [str "EXEC"])].
Proof.
  destruct demo_calling_state as (H1 & H2 & H3). split; [exact H1|].
  destruct (transaction_logged_whole demo_lookup run_strings demo_total is_deletion demo_cfg demo_execing 1 demo_calling demo_exec (strings_logs _) demo_execing_consistent
    demo_calling_client (proj1 demo_calling_args) eq_refl H1 H2 H3) as (w' & pre & post & db & E & Et & Hpre & H).
  exists w'. split; [exact E|]. rewrite demo_turns in Et. injection Et as Ets <-. rewrite (proj2 demo_calling_args) in H.
  destruct pre as [|t1 [|t2 [|t3 pre]]]; cbn [app] in Ets.
  - subst post. exfalso. destruct H as [H _]. discriminate H.
  - injection Ets as <- <-. exact (proj2 H).
  - injection Ets as <- <- <-. exfalso. apply Forall_cons in Hpre as [_ Hpre]. apply Forall_cons in Hpre as [[Hw _] _]. discriminate Hw.
  - discriminate Ets.
Defined.

(** After [MULTI], a command that is not there. *)
Definition demo_begun : world command databases := after [demo_request 1 ["MULTI"]] demo_watching.
Definition demo_bad : world command databases := after [demo_request 1 ["SUBSTR"; "n"]] demo_begun.
Definition demo_then : list event := [demo_request 2 ["SET"; "n"; "5"]; demo_request 1 ["GET"; "n"]].

Lemma demo_begun_consistent : consistent demo_lookup demo_begun.
Proof.
  refine (proj1 (steps_ok demo_lookup run_strings demo_free (kept_key (persists demo_lookup)) (strings_ok demo_lookup demo_served demo_free demo_kept) [demo_request 1 ["MULTI"]] demo_watching _ 1 _ demo_watching_consistent)).
  apply after_steps. vm_compute. by eexists.
Qed.

Lemma queue_error_aborts_witness : in_multi (client_of demo_begun 1) = true ∧
  ∃ c2 w3, clients (after demo_then demo_bad) !! 1 = Some c2 ∧ execCommand demo_lookup run_strings demo_cfg 1 (after demo_then demo_bad) = Some w3 ∧
    clients w3 !! 1 = Some (discarded (say shared_execaborterr c2)).
Proof.
  split; [vm_compute; reflexivity|].
  destruct (queue_error_aborts demo_lookup run_strings demo_free demo_total demo_then demo_begun demo_bad (after demo_then demo_bad) 1 (client_of demo_begun 1) demo_cfg demo_cfg (str "SUBSTR") [str "n"])
    as (c2 & w3 & E2 & E3 & _ & _ & _ & E4).
  - exact demo_begun_consistent.
  - apply client_of_ok. vm_compute. reflexivity.
  - vm_compute. reflexivity.
  - intros H. vm_compute in H. discriminate H.
  - exact I.
  - unfold demo_bad, after. cbn [run_steps]. destruct (demo_step (demo_request 1 ["SUBSTR"; "n"]) demo_begun) as [w1|] eqn:E; [exact E|]. exfalso.
    assert (match demo_step (demo_request 1 ["SUBSTR"; "n"]) demo_begun with Some _ => true | None => false end = true) as Hs by (vm_compute; reflexivity). rewrite E in Hs. discriminate Hs.
  - apply after_steps. vm_compute. by eexists.
  - repeat (apply Forall_cons; split; [intros H; vm_compute in H; discriminate H|]). by apply Forall_nil.
  - exists c2, w3. split; [exact E2|]. split; [exact E3|exact E4].
Defined.

Lemma watched_keys_are_kept_witness : (0, str "n") ∈ watched_keys (client_of demo_watching 1) ∧
  ∃ c', clients (after demo_race demo_watching) !! 1 = Some c' ∧ (0, str "n") ∈ watched_keys c'.
Proof.
  assert ((0, str "n") ∈ watched_keys (client_of demo_watching 1)) as Hin by (apply (bool_decide_unpack _); vm_compute; exact I). split; [exact Hin|].
  destruct (watched_keys_are_kept demo_lookup demo_served demo_free demo_kept demo_race demo_watching (after demo_race demo_watching) 1 (client_of demo_watching 1) 0 (str "n")) as (c' & E' & Hk & _).
  - exact demo_watching_consistent.
  - apply client_of_ok. vm_compute. reflexivity.
  - exact Hin.
  - apply after_steps. vm_compute. by eexists.
  - repeat (apply Forall_cons; split; [intros H; vm_compute in H; discriminate H|]). by apply Forall_nil.
  - exists c'. split; [exact E'|exact Hk].
Defined.

(** The race marks the client: its [EXEC] would run nothing. *)
Example race_marks : cas (client_of (after demo_race demo_watching) 1) = true.
Proof. vm_compute. reflexivity. Qed.

(** [PERSIST] takes the time of a watched key away and marks nobody. *)
Example persist_marks_nobody :
  let w := after [Connect 1; Connect 2; demo_request 2 ["PEXPIRE"; "n"; "5000"]; demo_request 1 ["WATCH"; "n"]] (initial demo_databases) in
  let w' := after [demo_request 2 ["PERSIST"; "n"]] w in
  exps (w_data w 0) !! str "n" = Some 6000 ∧ exps (w_data w' 0) !! str "n" = None ∧ cas (client_of w' 1) = false.
Proof. vm_compute. by split_and!. Qed.

(** The table of commands has the flags the letters say. *)
Example set_flags : flags_of (str "wm") = Some (Z.lor REDIS_CMD_WRITE REDIS_CMD_DENYOOM) ∧ flags_of (str "x") = None.
Proof. split; reflexivity. Qed.

(** A write refused by a slave that only reads is not held against the
    transaction: [EXEC] runs the rest. *)
Definition demo_slave : settings := mkSettings 1000 false 0 false 0 0 0 [] true 0 0 0 true true true false false.
Example refused_write_does_not_abort :
  refusal demo_slave false (client_of demo_begun 1) (row "set" (PData CSet) (-3) "wm") = Some (shared_roslaveerr, false).
Proof. vm_compute. reflexivity. Qed.
