(* ===== verification/Value.v ===== *)
(** * String objects by value

    A string object ([redis.h], [robj]) without its address and its reference
    count: an integer or the bytes of a dynamic string, with the text it
    stands for.  The components that only look at what objects say use it. *)

From S2P Require Import Prelude Util Object.
Local Open Scope Z_scope.

(** An integer, or a dynamic string with these bytes. *)
Inductive sobj := SInt (v : Z) | SRaw (t : list Z).

#[export] Instance sobj_eq_dec : EqDecision sobj.
Proof. solve_decision. Defined.

(** The digits of [v], as [sdsfromlonglong] and [ll2string] write them. *)
Definition digits_of (v : Z) : option (list Z) :=
  '(b, n) ← ll2string (replicate 32 0) 32 v; mread b 0 n.

(** [tryObjectEncoding] by value: an integer of at most 21 characters. *)
Definition encoded (o : sobj) : sobj :=
  match o with
  | SInt v => SInt v
  | SRaw t => if 21 <? len t then SRaw t else match string2l t with Some v => SInt v | None => SRaw t end
  end.

(** The text of any object; its integer is a [long]. *)
Definition otext (o : sobj) : list Z := match o with SInt v => default [] (digits_of (s64 v)) | SRaw t => t end.

(** [isObjectRepresentableAsLongLong] by value. *)
Definition as_long_long (o : sobj) : option Z := match o with SInt v => Some (s64 v) | SRaw t => string2ll t end.

Lemma mread_text (d r : list Z) : mread (d ++ r) 0 (len d) = Some d.
Proof. by apply (mread_app [] d r). Qed.

Lemma digits_of_ok v : LLONG_MIN ≤ v ≤ LLONG_MAX → ∃ t, digits_of v = Some t ∧ decimal_repr v t.
Proof.
  intros Hv. unfold digits_of. destruct (ll2string_repr (replicate 32 0) 32 v Hv) as (s & Hs & ->); [done|].
  pose proof (decimal_repr_len v s Hs Hv). rewrite Z.geb_leb, (proj2 (Z.leb_gt _ _)) by lia. bsimpl.
  exists s. split; [apply mread_text|done].
Qed.

Lemma digits_of_repr v t : LLONG_MIN ≤ v ≤ LLONG_MAX → decimal_repr v t → digits_of v = Some t.
Proof. intros Hv Ht. destruct (digits_of_ok v Hv) as (t' & -> & Ht'). f_equal. by eapply decimal_repr_unique. Qed.

Definition sobj_text (o : sobj) (t : list Z) : Prop :=
  match o with SRaw s => s = t | SInt v => decimal_repr v t ∧ LONG_MIN ≤ v ≤ LONG_MAX end.

Lemma encoded_int v t : decimal_repr v t → LLONG_MIN ≤ v ≤ LLONG_MAX → encoded (SRaw t) = SInt v.
Proof.
  intros Ht Hv. cbn. pose proof (decimal_repr_len v t Ht Hv). rewrite (proj2 (Z.ltb_ge _ _)) by lia.
  by rewrite (proj2 (string2l_repr t v) (conj Ht (proj2 (long_ll v) Hv))).
Qed.

