(* ===== verification/SetType.v ===== *)
(** * Sets: [t_set.c]

    A set is an integer set or a dictionary whose keys are its members
    ([setDictType], [redis.c]).  Members are string objects by value; their
    reference counts are left out, and with them the destructor of the
    dictionary.  The operations on one set, its iterator, and the loops of
    SINTER, SUNION and SDIFF, which work on sets at addresses of a store:
    looking up and storing the keys and sending the replies are left out. *)

From S2P Require Import Prelude Endian Util Intset Dict DictIter Table Object Value.
From stdpp Require Import gmap.
Local Open Scope Z_scope.

Definition REDIS_HT_MINFILL : Z := 10.

Section set_type.
Context `{Host}.
(** Uninitialised memory, the seed of the hash, the settings, the addresses
    of tables. *)
Context (junk : nat → Z) (seed : Z) (dict_can_resize : bool) (set_max_intset_entries : Z) (table_address : dictht sobj unit → Z).

(** ** The dictionary type *)

Definition dictEncObjHash (o : sobj) : Z :=
  match o with
  | SRaw t => dictGenHashFunction seed t
  | SInt v => dictGenHashFunction seed (default [] (digits_of (s64 v)))
  end.

Definition dictEncObjKeyCompare (o1 o2 : sobj) : bool :=
  match o1, o2 with
  | SInt v1, SInt v2 => s64 v1 =? s64 v2
  | _, _ => dictSdsKeyCompare (otext o1) (otext o2)
  end.

Definition setDictType : dictType sobj unit := mkType dictEncObjHash None None (Some dictEncObjKeyCompare) true false.

Definition htNeedsResize (d : dict sobj unit) : bool :=
  let size := s64 (u64 (size_ (ht0 d) + size_ (ht1 d))) in
  let used := s64 (dictSize d) in
  negb (size =? 0) && negb (used =? 0) && (size >? DICT_HT_INITIAL_SIZE) && (s64 (used * 100) / size <? REDIS_HT_MINFILL).

(** ** One set *)

Inductive sset := SetInt (s : intset) | SetHt (d : dict sobj unit).

Definition setTypeCreate (value : sobj) : sset :=
  match as_long_long value with Some _ => SetInt intsetNew | None => SetHt dictCreate end.

(** The loop of [setTypeConvert], from position [ii]. *)
Fixpoint convert_loop (fuel : nat) (s : intset) (ii : Z) (d : dict sobj unit) : option (dict sobj unit) :=
  match fuel with
  | O => None
  | S fuel =>
      e ← intsetGet s ii;
      match e with
      | None => Some d
      | Some intele =>
          '(d, r) ← dictAdd setDictType tt dict_can_resize d (SInt intele) tt;
          if negb (r =? DICT_OK) then None else convert_loop fuel s (ii + 1) d
      end
  end.

(** To a hash table; the assertion is that it is not one yet. *)
Definition setTypeConvert (subject : sset) : option sset :=
  match subject with
  | SetHt _ => None
  | SetInt s =>
      '(d, _) ← dictExpand dictCreate (intsetLen s);
      d ← convert_loop (S (Z.to_nat (intsetLen s))) s 0 d;
      Some (SetHt d)
  end.

Definition setTypeAdd (subject : sset) (value : sobj) : option (sset * bool) :=
  match subject with
  | SetHt d => '(d, r) ← dictAdd setDictType tt dict_can_resize d value tt; Some (SetHt d, r =? DICT_OK)
  | SetInt s =>
      match as_long_long value with
      | Some llval =>
          '(s, success) ← intsetAdd junk s llval;
          if success : bool then
            if intsetLen s >? set_max_intset_entries then c ← setTypeConvert (SetInt s); Some (c, true)
            else Some (SetInt s, true)
          else Some (SetInt s, false)
      | None =>
          c ← setTypeConvert (SetInt s);
          match c with
          | SetHt d => '(d, r) ← dictAdd setDictType tt dict_can_resize d value tt; if negb (r =? DICT_OK) then None else Some (SetHt d, true)
          | SetInt _ => None
          end
      end
  end.

Definition setTypeRemove (setobj : sset) (value : sobj) : option (sset * bool) :=
  match setobj with
  | SetHt d =>
      '(d, r, _) ← dictDelete setDictType d value;
      if r =? DICT_OK then
        if htNeedsResize d then '(d, _) ← dictResize dict_can_resize d; Some (SetHt d, true) else Some (SetHt d, true)
      else Some (SetHt d, false)
  | SetInt s =>
      match as_long_long value with
      | Some llval => '(s, success) ← intsetRemove junk s llval; Some (SetInt s, success)
      | None => Some (SetInt s, false)
      end
  end.

(** A lookup may move the dictionary on. *)
Definition setTypeIsMember (subject : sset) (value : sobj) : option (sset * bool) :=
  match subject with
  | SetHt d => '(d, de) ← dictFind setDictType d value; Some (SetHt d, bool_decide (is_Some de))
  | SetInt s =>
      match as_long_long value with
      | Some llval => found ← intsetFind s llval; Some (SetInt s, found)
      | None => Some (SetInt s, false)
      end
  end.

Definition setTypeSize (subject : sset) : Z :=
  match subject with SetHt d => dictSize d | SetInt s => intsetLen s end.

(** ** Iteration *)

Inductive setTypeIterator := IterHt (di : dictIterator sobj unit) | IterInt (ii : Z).

Definition setTypeInitIterator (subject : sset) : setTypeIterator :=
  match subject with SetHt _ => IterHt dictGetIterator | SetInt _ => IterInt 0 end.

Definition setTypeReleaseIterator (si : setTypeIterator) (subject : sset) : option sset :=
  match si, subject with
  | IterHt di, SetHt d => d ← dictReleaseIterator table_address di d; Some (SetHt d)
  | IterInt _, SetInt _ => Some subject
  | _, _ => None
  end.

(** What [setTypeNext] fills in: an integer or an object. *)
Inductive element := EInt (v : Z) | EObj (o : sobj).

Definition setTypeNext (si : setTypeIterator) (subject : sset) : option (setTypeIterator * sset * option element) :=
  match si, subject with
  | IterHt di, SetHt d =>
      '(di, d, de) ← dictNext table_address di d;
      Some (IterHt di, SetHt d, match de with Some e => Some (EObj (key e)) | None => None end)
  | IterInt ii, SetInt s => e ← intsetGet s ii; Some (IterInt (ii + 1), subject, match e with Some v => Some (EInt v) | None => None end)
  | _, _ => None
  end.

(** [createStringObjectFromLongLong] of an element that is an integer. *)
Definition element_object (e : element) : sobj := match e with EInt v => SInt v | EObj o => o end.

Definition setTypeNextObject (si : setTypeIterator) (subject : sset) : option (setTypeIterator * sset * option sobj) :=
  '(si, subject, e) ← setTypeNext si subject; Some (si, subject, match e with Some e => Some (element_object e) | None => None end).

(** What [random] returns is taken from a list of numbers. *)
Definition setTypeRandomElement (setobj : sset) (random : list Z) : option (sset * element * list Z) :=
  match setobj with
  | SetHt d => '(d, de, random) ← dictGetRandomKey setDictType d random; e ← de; Some (SetHt d, EObj (key e), random)
  | SetInt s => r ← head random; v ← intsetRandom r s; Some (SetInt s, EInt v, tail random)
  end.

(** ** Several sets *)

(** The sets are at addresses of a store; [NULL] is [None]. *)
Abbreviation addr := positive.
Definition store : Type := gmap addr sset.

(** One of the sets to intersect has the element. *)
Definition has_element (s : sset) (e : element) : option (sset * bool) :=
  match e, s with
  | EInt intobj, SetInt i => found ← intsetFind i intobj; Some (s, found)
  | EInt intobj, SetHt _ => setTypeIsMember s (SInt intobj)
  | EObj eleobj, _ =>
      skip ← match eleobj, s with
             | SInt v, SetInt i => found ← intsetFind i (s64 v); Some (negb found)
             | _, _ => Some false
             end;
      if skip : bool then Some (s, false) else setTypeIsMember s eleobj
  end.

(** The loop over the other sets: whether all of them have the element. *)
Fixpoint in_others (st : store) (first : addr) (others : list addr) (e : element) : option (store * bool) :=
  match others with
  | [] => Some (st, true)
  | a :: others =>
      if bool_decide (a = first) then in_others st first others e
      else
        s ← st !! a;
        '(s, found) ← has_element s e;
        let st := <[a := s]> st in
        if found : bool then in_others st first others e else Some (st, false)
  end.

(** What comes of an element that all sets have: it is sent, or added to the
    set to store. *)
Inductive sink := Reply (sent : list element) | Store (dstset : sset).

Definition put_element (k : sink) (e : element) : option sink :=
  match k with
  | Reply sent => Some (Reply (sent ++ [e]))
  | Store dstset => '(dstset, _) ← setTypeAdd dstset (element_object e); Some (Store dstset)
  end.

Fixpoint inter_loop (fuel : nat) (si : setTypeIterator) (st : store) (first : addr) (others : list addr) (k : sink) (cardinality : Z) :
    option (setTypeIterator * store * sink * Z) :=
  match fuel with
  | O => None
  | S fuel =>
      s ← st !! first;
      '(si, s, e) ← setTypeNext si s;
      let st := <[first := s]> st in
      match e with
      | None => Some (si, st, k, cardinality)
      | Some e =>
          '(st, found) ← in_others st first others e;
          if found : bool then
            k' ← put_element k e;
            inter_loop fuel si st first others k' (match k with Reply _ => cardinality + 1 | Store _ => cardinality end)
          else inter_loop fuel si st first others k cardinality
      end
  end.

(** The number of rounds: the loop ends when the iterator does. *)
Definition loop_fuel (s : sset) : nat := S (Z.to_nat (setTypeSize s)).

(** From the sorted sets on. *)
Definition sinter_sets (st : store) (sets : list addr) (dst : bool) : option (store * sink * Z) :=
  match sets with
  | [] => None
  | first :: others =>
      s ← st !! first;
      '(si, st, k, cardinality) ← inter_loop (loop_fuel s) (setTypeInitIterator s) st first others (if dst then Store (SetInt intsetNew) else Reply []) 0;
      s ← st !! first;
      s ← setTypeReleaseIterator si s;
      Some (<[first := s]> st, k, cardinality)
  end.

(** [while((ele = setTypeNextObject(si)) != NULL)] over the set at [a]. *)
Fixpoint each (fuel : nat) {S : Type} (body : store → S → sobj → option (store * S)) (si : setTypeIterator) (st : store) (a : addr) (x : S) :
    option (setTypeIterator * store * S) :=
  match fuel with
  | O => None
  | S fuel =>
      s ← st !! a;
      '(si, s, ele) ← setTypeNextObject si s;
      let st := <[a := s]> st in
      match ele with
      | None => Some (si, st, x)
      | Some ele => '(st, x) ← body st x ele; each fuel body si st a x
      end
  end.

Definition each_element {S : Type} (body : store → S → sobj → option (store * S)) (st : store) (a : addr) (x : S) : option (store * S) :=
  s ← st !! a;
  '(si, st, x) ← each (loop_fuel s) body (setTypeInitIterator s) st a x;
  s ← st !! a;
  s ← setTypeReleaseIterator si s;
  Some (<[a := s]> st, x).

Definition add_counted (st : store) (x : sset * Z) (ele : sobj) : option (store * (sset * Z)) :=
  '(dstset, added) ← setTypeAdd x.1 ele; Some (st, (dstset, if added : bool then x.2 + 1 else x.2)).
Definition remove_counted (st : store) (x : sset * Z) (ele : sobj) : option (store * (sset * Z)) :=
  '(dstset, removed) ← setTypeRemove x.1 ele; Some (st, (dstset, if removed : bool then x.2 - 1 else x.2)).

(** SUNION: every element of every set. *)
Fixpoint union_loop (st : store) (sets : list (option addr)) (x : sset * Z) : option (store * (sset * Z)) :=
  match sets with
  | [] => Some (st, x)
  | None :: sets => union_loop st sets x
  | Some a :: sets => '(st, x) ← each_element add_counted st a x; union_loop st sets x
  end.

(** SDIFF, algorithm 1: no other set has the element. *)
Fixpoint in_no_other (st : store) (first : addr) (others : list (option addr)) (ele : sobj) : option (store * bool) :=
  match others with
  | [] => Some (st, true)
  | None :: others => in_no_other st first others ele
  | Some a :: others =>
      if bool_decide (a = first) then Some (st, false)
      else
        s ← st !! a;
        '(s, found) ← setTypeIsMember s ele;
        let st := <[a := s]> st in
        if found : bool then Some (st, false) else in_no_other st first others ele
  end.

Definition diff_body (first : addr) (others : list (option addr)) (st : store) (x : sset * Z) (ele : sobj) : option (store * (sset * Z)) :=
  '(st, new) ← in_no_other st first others ele;
  if new : bool then '(dstset, _) ← setTypeAdd x.1 ele; Some (st, (dstset, x.2 + 1)) else Some (st, x).

(** Algorithm 2: the elements of the first set, then without those of the
    others, until none is left. *)
Fixpoint diff_loop (st : store) (sets : list (option addr)) (is_first : bool) (x : sset * Z) : option (store * (sset * Z)) :=
  match sets with
  | [] => Some (st, x)
  | None :: sets => diff_loop st sets false x
  | Some a :: sets =>
      '(st, x) ← each_element (if is_first then add_counted else remove_counted) st a x;
      if x.2 =? 0 then Some (st, x) else diff_loop st sets false x
  end.

(** The work of both algorithms. *)
Fixpoint algo_work (st : store) (sets : list (option addr)) (size0 one two : Z) : option (Z * Z) :=
  match sets with
  | [] => Some (one, two)
  | None :: sets => algo_work st sets size0 one two
  | Some a :: sets => s ← st !! a; algo_work st sets size0 (s64 (one + size0)) (s64 (two + setTypeSize s))
  end.

(** [qsort], which orders the other sets by size for algorithm 1. *)
Context (qsort : store → list (option addr) → list (option addr)).

Inductive set_op := REDIS_OP_UNION | REDIS_OP_DIFF.

(** From the sets that were found on; the result and its cardinality. *)
Definition sunion_diff_sets (st : store) (sets : list (option addr)) (op : set_op) : option (store * (sset * Z)) :=
  let dstset := SetInt intsetNew in
  match op, sets with
  | REDIS_OP_UNION, _ => union_loop st sets (dstset, 0)
  | REDIS_OP_DIFF, Some first :: others =>
      s ← st !! first;
      '(one, two) ← algo_work st sets (setTypeSize s) 0 0;
      if Z.quot one 2 <=? two then
        let others := if 1 <? len sets then qsort st others else others in
        each_element (diff_body first others) st first (dstset, 0)
      else diff_loop st sets true (dstset, 0)
  | REDIS_OP_DIFF, _ => Some (st, (dstset, 0))
  end.
End set_type.
