(* ===== verification/SetSpec.v ===== *)
(** * Sets: what a set stands for

    [set_rep s X]: [s] stands for the finite set [X] of texts.  The operations
    on one set are those of finite sets, through both representations and the
    conversion between them. *)

From S2P Require Import Prelude Endian Util Intset Dict DictIter Table Object Value SetType.
From stdpp Require Import gmap sets.
Local Open Scope Z_scope.

(** ** Texts of integers *)

Definition int_text (v : Z) : list Z := default [] (digits_of v).
Definition long (v : Z) : Prop := LLONG_MIN ≤ v ≤ LLONG_MAX.

Lemma int_text_repr v : long v → decimal_repr v (int_text v).
Proof. intros Hv. unfold int_text. destruct (digits_of_ok v Hv) as (t & -> & Ht). exact Ht. Qed.

Lemma int_text_inj v w : long v → long w → int_text v = int_text w → v = w.
Proof. intros Hv Hw E. apply (decimal_repr_inj v w (int_text v)); [by apply int_text_repr|rewrite E; by apply int_text_repr|done|done]. Qed.

Lemma s64_long v : long (s64 v).
Proof. pose proof (swrap_bound 64 v). unfold long, LLONG_MIN, LLONG_MAX. lia. Qed.

Lemma long_s64 v : long v → s64 v = v.
Proof. intros Hv. apply swrap_small; unfold long, LLONG_MIN, LLONG_MAX in Hv; lia. Qed.

Lemma otext_int v : long v → otext (SInt v) = int_text v.
Proof. intros Hv. cbn. by rewrite long_s64. Qed.

(** An object is representable as an integer exactly when its text is that of one. *)
Lemma as_long_long_text o v : as_long_long o = Some v ↔ long v ∧ otext o = int_text v.
Proof.
  destruct o as [w|t]; cbn.
  - split; [intros [= <-]; split; [apply s64_long|done]|]. intros [Hv E]. f_equal. apply int_text_inj; [apply s64_long|done|exact E].
  - rewrite string2ll_repr. split.
    + intros [Hd Hv]. split; [done|]. eapply decimal_repr_unique; [exact Hd|by apply int_text_repr].
    + intros [Hv ->]. split; [by apply int_text_repr|done].
Qed.

Lemma as_long_long_None o v : as_long_long o = None → long v → otext o ≠ int_text v.
Proof. intros Hn Hv E. assert (as_long_long o = Some v) by (by apply as_long_long_text). congruence. Qed.

(** ** The dictionary type *)

#[export] Instance setDictType_laws seed : DictLaws (setDictType seed) otext.
Proof.
  split; [|intros k1 k2 E|done].
  - assert (∀ t1 t2, dictSdsKeyCompare t1 t2 = bool_decide (t1 = t2)) as Hc.
    { intros t1 t2. unfold dictSdsKeyCompare. destruct (Z.eqb_spec (len t1) (len t2)) as [|Hne]; cbn [negb]; [done|]. symmetry. apply bool_decide_eq_false_2. by intros ->. }
    intros [v|t] [w|u]; unfold dictCompareKeys; cbn [keyCompare setDictType dictEncObjKeyCompare]; rewrite ?Hc; try done.
    apply eq_bool_prop_intro. rewrite Is_true_true, Z.eqb_eq, bool_decide_spec. cbn. split; [by intros ->|]. apply int_text_inj; apply s64_long.
  - unfold dictHashKey. cbn [hashFunction setDictType dictEncObjHash]. f_equal.
    assert (∀ o, dictEncObjHash seed o = dictGenHashFunction seed (otext o)) as Hh by (by intros []). by rewrite !Hh, E.
Qed.

(** ** The set of a representation *)

Section set_rep.
Context `{Host}.
Context (junk : nat → Z) (seed : Z) (dict_can_resize : bool) (set_max_intset_entries : Z) (table_address : dictht sobj unit → Z).

Abbreviation ty := (setDictType seed).
Abbreviation wf := (dict_wf ty otext).

Definition set_rep (s : sset) (X : gset (list Z)) : Prop :=
  match s with
  | SetInt s => ∃ Y, intset_denotes s Y ∧ X = set_map int_text Y
  | SetHt d => wf d ∧ dom (dict_map otext d) = X
  end.

(** The sets the theorems cover: one member can still be added. *)
Definition small_set (X : gset (list Z)) : Prop := Z.of_nat (size X) < max_entries.

(** Integer sets. *)
Lemma denotes_long s Y v : intset_denotes s Y → v ∈ Y → long v.
Proof.
  intros (vs & Hr & ->) Hv%elem_of_list_to_set. pose proof (rep_fits _ _ Hr) as Hf. rewrite Forall_forall in Hf.
  pose proof (fits_range64 _ _ (rep_width _ _ Hr) (Hf v Hv)). unfold long, LLONG_MIN, LLONG_MAX. lia.
Qed.

Lemma int_text_member s Y v : intset_denotes s Y → long v → int_text v ∈ (set_map int_text Y : gset (list Z)) ↔ v ∈ Y.
Proof.
  intros Hd Hv. rewrite elem_of_map. split; [|by exists v]. intros (w & E & Hw). by rewrite (int_text_inj v w Hv (denotes_long _ _ _ Hd Hw) E).
Qed.

Lemma not_int_member s Y o : intset_denotes s Y → as_long_long o = None → otext o ∉ (set_map int_text Y : gset (list Z)).
Proof. intros Hd Ho (w & E & Hw)%elem_of_map. by apply (as_long_long_None o w Ho (denotes_long _ _ _ Hd Hw)). Qed.

(** The members in the order of the array. *)
Lemma int_members s Y : intset_denotes s Y → ∃ vs, intset_rep s vs ∧ Y = list_to_set vs ∧ Forall long vs ∧
  NoDup (int_text <$> vs) ∧ set_map int_text Y = (list_to_set (int_text <$> vs) : gset (list Z)).
Proof.
  intros Hd. pose proof Hd as (vs & Hr & E). exists vs. split; [done|]. split; [done|].
  assert (Forall long vs) as Hl by (apply Forall_forall; intros v Hv; eapply denotes_long; [exact Hd|]; rewrite E; by apply elem_of_list_to_set). split; [done|]. split.
  - apply NoDup_fmap_2_strong.
    + intros v w Hv Hw. rewrite Forall_forall in Hl. apply int_text_inj; auto.
    + pose proof (rep_sorted _ _ Hr) as Hs. clear - Hs. induction Hs as [|x l Hs IH Hall]; constructor; [|done]. rewrite Forall_forall in Hall. intros Hx%Hall. lia.
  - apply set_eq. intros t. rewrite E, elem_of_map, elem_of_list_to_set, list_elem_of_fmap. split; intros (v & Ev & Hv); exists v; (split; [done|]); [by apply elem_of_list_to_set in Hv|by apply elem_of_list_to_set].
Qed.

Lemma int_size s Y : intset_denotes s Y → size (set_map int_text Y : gset (list Z)) = size Y.
Proof.
  intros Hd. destruct (int_members s Y Hd) as (vs & Hr & EY & _ & Hn & ->). by rewrite size_list_to_set, length_fmap, EY, (rep_size s vs) by done.
Qed.

(** Tables. *)
Lemma ht_members d : wf d → NoDup ((λ e, otext (key e)) <$> dict_entries d) ∧ dom (dict_map otext d) = list_to_set ((λ e, otext (key e)) <$> dict_entries d).
Proof.
  intros Hw. split; [apply (wf_nodup _ _ _ Hw)|]. unfold dict_map. rewrite dom_list_to_map_L. f_equal. rewrite <- list_fmap_compose. done.
Qed.

Lemma ht_size d : wf d → size (dom (dict_map otext d)) = length (dict_entries d).
Proof. intros Hw. destruct (ht_members d Hw) as [Hn ->]. by rewrite size_list_to_set, length_fmap. Qed.

Lemma setTypeSize_ok s X : set_rep s X → small_set X → setTypeSize s = Z.of_nat (size X).
Proof.
  unfold small_set, max_entries. destruct s as [s|d]; cbn.
  - intros (Y & Hd & ->) Hs. rewrite (int_size s Y Hd) in *. destruct (intsetGet_enumerates s Y Hd) as (vs & Hso & -> & -> & _); [unfold max_entries; lia|].
    f_equal. symmetry. apply size_list_to_set. clear - Hso. induction Hso as [|x l Hs IH Hall]; constructor; [|done]. rewrite Forall_forall in Hall. intros Hx%Hall. lia.
  - intros (Hw & <-) Hs. rewrite (ht_size d Hw) in *. unfold dictSize. rewrite (dict_total ty otext d) by done. apply uwrap_small. lia.
Qed.

Lemma ht_small d X : wf d → dom (dict_map otext d) = X → small_set X → len (dict_entries d) < 2 ^ 30.
Proof. intros Hw <- Hs. unfold small_set, max_entries in Hs. rewrite (ht_size d Hw) in Hs. lia. Qed.

(** ** Adding *)

Lemma ht_add d X o : wf d → dom (dict_map otext d) = X → small_set X →
  ∃ d', dictAdd ty tt dict_can_resize d o tt = Some (d', if bool_decide (otext o ∈ X) then DICT_ERR else DICT_OK) ∧ wf d' ∧ dom (dict_map otext d') = {[otext o]} ∪ X.
Proof.
  intros Hw Ex Hs. destruct (dictAdd_ok ty otext tt dict_can_resize d o tt Hw (ht_small d X Hw Ex Hs)) as (d' & Hw' & _ & Hr).
  rewrite (bool_decide_ext _ (otext o ∈ X)) in Hr by (rewrite <- Ex, elem_of_dom; done). exists d'. case_bool_decide as Hin; destruct Hr as [-> Hm].
  - split; [done|]. split; [done|]. rewrite Hm, Ex. set_solver.
  - split; [done|]. split; [done|]. rewrite Hm, dom_insert_L. set_solver.
Qed.

Lemma convert_loop_ok n : ∀ s vs ii d, intset_rep s vs → len vs ≤ max_entries → 0 ≤ ii → (length vs - Z.to_nat ii < n)%nat →
  wf d → NoDup (int_text <$> vs) → Forall long vs → dom (dict_map otext d) = list_to_set (int_text <$> take (Z.to_nat ii) vs) →
  ∃ d', convert_loop seed dict_can_resize n s ii d = Some d' ∧ wf d' ∧ dom (dict_map otext d') = list_to_set (int_text <$> vs).
Proof.
  induction n as [|n IH]; intros s vs ii d Hr Hl Hi Hn Hw Hd Hv Hdom; [lia|]. cbn [convert_loop].
  assert (intsetGet s ii = Some (vs !! Z.to_nat ii)) as ->.
  { unfold intsetGet. rewrite (rep_length _ _ Hr). destruct (Z.ltb_spec ii (len vs)); [|by rewrite lookup_ge_None_2 by lia].
    destruct (lookup_lt_is_Some_2 vs (Z.to_nat ii)) as [v Hlv]; [lia|]. by rewrite (get_rep s vs ii v), Hlv by done. }
  bsimpl. destruct (vs !! Z.to_nat ii) as [v|] eqn:Ev.
  - assert (long v) as Hlv by (rewrite Forall_forall in Hv; apply Hv; by eapply list_elem_of_lookup_2).
    pose proof (lookup_lt_Some _ _ _ Ev) as Hlt. set (X := list_to_set (int_text <$> take (Z.to_nat ii) vs) : gset (list Z)) in *.
    assert (small_set X) as Hs.
    { unfold small_set, X. rewrite size_list_to_set by (rewrite fmap_take; eapply sublist_NoDup; [exact Hd|apply sublist_take]). rewrite length_fmap, length_take. lia. }
    assert (int_text v ∉ X) as Hnew.
    { unfold X. rewrite elem_of_list_to_set. rewrite <- (take_drop_middle vs _ _ Ev), fmap_app, fmap_cons in Hd. apply NoDup_app in Hd as (_ & Hdis & _).
      intros Hin%Hdis. apply Hin. by left. }
    destruct (ht_add d X (SInt v) Hw Hdom Hs) as (d' & E & Hw' & Hdom'). rewrite (otext_int v Hlv) in *. rewrite bool_decide_eq_false_2 in E by done. rewrite E. bsimpl.
    apply (IH s vs (ii + 1) d'); [done|done|lia|lia|done|done|done|].
    replace (Z.to_nat (ii + 1)) with (S (Z.to_nat ii)) by lia. rewrite (take_S_r _ _ v) by done. rewrite Hdom', fmap_app, list_to_set_app_L. unfold X. set_solver.
  - exists d. split; [done|]. split; [done|]. rewrite take_ge in Hdom; [done|]. by apply lookup_ge_None_1.
Qed.

Lemma create_wf : wf dictCreate.
Proof. split; [left; split; [done|]; split; [done|by left]|constructor|cbn; lia]. Qed.

Lemma setTypeConvert_ok s Y : intset_denotes s Y → Z.of_nat (size Y) ≤ max_entries →
  ∃ d, setTypeConvert seed dict_can_resize (SetInt s) = Some (SetHt d) ∧ set_rep (SetHt d) (set_map int_text Y).
Proof.
  intros Hd Hs. destruct (int_members s Y Hd) as (vs & Hr & EY & Hl & Hn & Em). assert (len vs ≤ max_entries) as Hlv by (by rewrite <- (rep_size s vs Hr), <- EY).
  unfold setTypeConvert, intsetLen. rewrite (rep_length _ _ Hr).
  destruct (dictExpand_ok ty otext dictCreate (len vs) create_wf) as (d & -> & Hw & He & _); [split; [done|]; split; [done|by left]|cbn; unfold max_entries in Hlv; lia|]. bsimpl.
  destruct (convert_loop_ok (S (Z.to_nat (len vs))) s vs 0 d Hr Hlv) as (d' & -> & Hw' & Hdom); [lia|lia|done|done|done| |].
  - destruct (ht_members d Hw) as [_ ->]. by rewrite He.
  - bsimpl. exists d'. split; [done|]. split; [done|]. by rewrite Em.
Qed.

Lemma setTypeCreate_ok o : set_rep (setTypeCreate o) ∅.
Proof.
  unfold setTypeCreate. destruct (as_long_long o); cbn.
  - exists ∅. split; [exists []; split; [apply new_rep|done]|by rewrite set_map_empty].
  - split; [apply create_wf|]. by vm_compute.
Qed.

Lemma setTypeAdd_ok s X o : set_rep s X → small_set X →
  ∃ s', setTypeAdd junk seed dict_can_resize set_max_intset_entries s o = Some (s', bool_decide (otext o ∉ X)) ∧ set_rep s' ({[otext o]} ∪ X).
Proof.
  intros Hr Hs. destruct s as [s|d]; cbn [setTypeAdd set_rep] in *.
  - destruct Hr as (Y & Hd & ->). unfold small_set in Hs. rewrite (int_size s Y Hd) in Hs. destruct (as_long_long o) as [v|] eqn:Eo.
    + apply as_long_long_text in Eo as [Hv ->]. assert (- 2 ^ 63 ≤ v < 2 ^ 63) as Hv' by (unfold long, LLONG_MIN, LLONG_MAX in Hv; lia).
      destruct (intsetAdd_refines junk s Y v Hd Hs Hv') as (s' & -> & Hd'). bsimpl.
      rewrite (bool_decide_ext (int_text v ∉ _) (v ∉ Y)) by (by rewrite (int_text_member s Y v Hd Hv)).
      assert (set_map int_text ({[v]} ∪ Y) = ({[int_text v]} ∪ set_map int_text Y : gset (list Z))) as Em by (by rewrite set_map_union_L, set_map_singleton_L).
      case_bool_decide as Hin; [|exists (SetInt s'); split; [done|]; exists ({[v]} ∪ Y); by rewrite Em].
      destruct (_ >? _); [|exists (SetInt s'); split; [done|]; exists ({[v]} ∪ Y); by rewrite Em].
      destruct (setTypeConvert_ok s' _ Hd') as (d & -> & Hrep); [rewrite size_union by set_solver; rewrite size_singleton; lia|]. bsimpl. exists (SetHt d). split; [done|]. by rewrite <- Em.
    + pose proof (not_int_member s Y o Hd Eo) as Hnew. destruct (setTypeConvert_ok s Y Hd) as (d & -> & Hw & Hdom); [lia|]. bsimpl.
      destruct (ht_add d _ o Hw Hdom) as (d' & -> & Hw' & Hdom'); [unfold small_set; by rewrite (int_size s Y Hd)|]. rewrite bool_decide_eq_false_2, bool_decide_eq_true_2 by done. bsimpl.
      exists (SetHt d'). done.
  - destruct Hr as [Hw Hdom]. destruct (ht_add d X o Hw Hdom Hs) as (d' & -> & Hw' & Hdom'). bsimpl. exists (SetHt d'). split; [|done].
    do 2 f_equal. repeat case_bool_decide; tauto.
Qed.

Lemma dictResize_ok d : wf d → len (dict_entries d) < 2 ^ 30 → ∃ d' r, dictResize dict_can_resize d = Some (d', r) ∧ wf d' ∧ dict_entries d' = dict_entries d.
Proof.
  intros Hw Hs. unfold dictResize. destruct dict_can_resize; cbn [negb orb]; [|by exists d, DICT_ERR]. destruct (dictIsRehashing d) eqn:Er; [by exists d, DICT_ERR|].
  pose proof (wf_not_rehashing ty otext d Hw Er) as Hrest. pose proof (dict_total ty otext d Hw) as Hu. assert (used (ht1 d) = 0) as E1 by (destruct Hrest as (_ & -> & _); done).
  cbv zeta. rewrite (swrap_small 32 (used (ht0 d))) by lia. set (m := if used (ht0 d) <? DICT_HT_INITIAL_SIZE then _ else _).
  assert (used (ht0 d) ≤ m ∧ 0 ≤ m < 2 ^ 31) as Hm by (unfold m, DICT_HT_INITIAL_SIZE; destruct (Z.ltb_spec (used (ht0 d)) 4); lia).
  rewrite uwrap_small by lia. destruct (dictExpand_ok ty otext d m Hw Hrest) as (d' & -> & Hw' & He & _); [lia|]. by exists d', DICT_OK.
Qed.

Lemma setTypeRemove_ok s X o : set_rep s X → small_set X →
  ∃ s', setTypeRemove junk seed dict_can_resize s o = Some (s', bool_decide (otext o ∈ X)) ∧ set_rep s' (X ∖ {[otext o]}).
Proof.
  intros Hr Hs. destruct s as [s|d]; cbn [setTypeRemove set_rep] in *.
  - destruct Hr as (Y & Hd & ->). unfold small_set in Hs. rewrite (int_size s Y Hd) in Hs. destruct (as_long_long o) as [v|] eqn:Eo.
    + apply as_long_long_text in Eo as [Hv ->]. destruct (intsetRemove_refines junk s Y v Hd) as (s' & -> & Hd'); [lia|unfold long, LLONG_MIN, LLONG_MAX in Hv; lia|]. bsimpl.
      rewrite (bool_decide_ext (int_text v ∈ _) (v ∈ Y)) by (by apply (int_text_member s Y v Hd Hv)). exists (SetInt s'). split; [done|]. exists (Y ∖ {[v]}). split; [done|].
      apply set_eq. intros t. rewrite elem_of_difference, !elem_of_map, elem_of_singleton. split.
      * intros [(w & -> & Hw) Hne]. exists w. split; [done|]. apply elem_of_difference. split; [done|]. rewrite elem_of_singleton. by intros ->.
      * intros (w & -> & [Hw Hne]%elem_of_difference). split; [by exists w|]. rewrite elem_of_singleton in Hne. intros E. apply Hne. apply (int_text_inj w v); [exact (denotes_long s Y w Hd Hw)|done|exact E].
    + pose proof (not_int_member s Y o Hd Eo) as Hno. rewrite bool_decide_eq_false_2 by done. exists (SetInt s). split; [done|]. exists Y. split; [done|]. set_solver.
  - destruct Hr as [Hw Hdom]. unfold dictDelete. destruct (dictGenericDelete_ok ty otext d o false Hw) as (d' & r & evs & -> & Hw' & Hm & Hr). bsimpl.
    assert (dom (dict_map otext d') = X ∖ {[otext o]}) as Hdom' by (rewrite Hm, dom_delete_L; by rewrite Hdom).
    rewrite (bool_decide_ext _ (is_Some (dict_map otext d !! otext o))) by (by rewrite <- Hdom, elem_of_dom).
    destruct (dict_map otext d !! otext o) as [u|] eqn:El.
    + destruct Hr as [-> _]. change (DICT_OK =? DICT_OK) with true. cbv iota. rewrite bool_decide_eq_true_2 by done. destruct (htNeedsResize d'); [|by exists (SetHt d')].
      assert (len (dict_entries d') < 2 ^ 30) as Hlen.
      { pose proof (ht_size d' Hw') as Hsz. rewrite Hdom' in Hsz. assert (size (X ∖ {[otext o]}) ≤ size X)%nat by (apply subseteq_size; set_solver). unfold small_set, max_entries in Hs. lia. }
      destruct (dictResize_ok d' Hw' Hlen) as (d2 & r2 & -> & Hw2 & He). bsimpl. exists (SetHt d2). split; [done|]. split; [done|].
      destruct (ht_members d2 Hw2) as [_ ->]. rewrite He, <- Hdom'. symmetry. apply (ht_members d' Hw').
    + destruct Hr as [-> _]. change (DICT_ERR =? DICT_OK) with false. cbv iota. rewrite bool_decide_eq_false_2 by (intros [? ?]; done). by exists (SetHt d').
Qed.

Lemma setTypeIsMember_ok s X o : set_rep s X → small_set X →
  ∃ s', setTypeIsMember seed s o = Some (s', bool_decide (otext o ∈ X)) ∧ set_rep s' X.
Proof.
  intros Hr Hs. destruct s as [s|d]; cbn [setTypeIsMember set_rep] in *.
  - destruct Hr as (Y & Hd & ->). unfold small_set in Hs. rewrite (int_size s Y Hd) in Hs. destruct (as_long_long o) as [v|] eqn:Eo.
    + apply as_long_long_text in Eo as [Hv ->]. rewrite (intsetFind_correct s Y v Hd) by (unfold long, LLONG_MIN, LLONG_MAX in Hv; lia). bsimpl.
      rewrite (bool_decide_ext (int_text v ∈ _) (v ∈ Y)) by (by apply (int_text_member s Y v Hd Hv)). exists (SetInt s). split; [done|]. by exists Y.
    + rewrite bool_decide_eq_false_2 by (by apply not_int_member with s). exists (SetInt s). split; [done|]. by exists Y.
  - destruct Hr as [Hw Hdom]. destruct (dictFind_ok ty otext d o Hw) as (d' & p & -> & Hw' & _ & Hm & Hp). bsimpl. exists (SetHt d'). split; [|split; [done|by rewrite Hm]].
    do 2 f_equal. apply bool_decide_ext. rewrite <- Hdom, elem_of_dom. destruct p as [p|]; [|rewrite Hp; split; intros [? ?]; done]. split; [|by eauto]. intros _.
    pose proof (search_result_map ty otext d' o (inl p) Hw' Hp) as (e & _ & _ & He). rewrite <- Hm, He. by eexists.
Qed.
End set_rep.
