(* ===== verification/SetIter.v ===== *)
(** * Sets: going through one

    [iterates si s es]: the iterator [si] of the set [s] still has [es] to
    return.  [each_element_ok] is the rule for a loop over a set, with an
    invariant over the members that were seen. *)

From S2P Require Import Prelude Endian Util Intset Dict DictIter Table Object Value SetType SetSpec.
From stdpp Require Import gmap sets.
Local Open Scope Z_scope.

Definition etext (e : element) : list Z := otext (element_object e).
Definition element_ok (e : element) : Prop := match e with EInt v => long v | EObj _ => True end.

Section set_iter.
Context `{Host}.
Context (seed : Z) (table_address : dictht sobj unit → Z).

Definition iterates (si : setTypeIterator) (s : sset) (es : list element) : Prop :=
  match si, s with
  | IterInt ii, SetInt i => ∃ vs, intset_rep i vs ∧ len vs ≤ max_entries ∧ 0 ≤ ii ∧ Forall long vs ∧ es = EInt <$> drop (Z.to_nat ii) vs
  | IterHt di, SetHt d => tables_ok d ∧ second_ok d ∧ iter_ok di d ∧ it_safe di = false ∧ (fresh_iter di = true ∨ fingerprint di = dictFingerprint table_address d) ∧
      es = (λ e, EObj (key e)) <$> remaining di d
  | _, _ => False
  end.

Lemma iterates_ok si s es : iterates si s es → Forall element_ok es.
Proof.
  destruct si as [di|ii], s as [i|d]; try done.
  - intros (_ & _ & _ & _ & _ & ->). by apply Forall_fmap, Forall_true.
  - intros (vs & _ & _ & _ & Hl & ->). by apply Forall_fmap, Forall_drop.
Qed.

Lemma setTypeInitIterator_ok s X : set_rep seed s X → small_set X →
  ∃ es, iterates (setTypeInitIterator s) s es ∧ NoDup (etext <$> es) ∧ list_to_set (etext <$> es) = X ∧ length es = size X.
Proof.
  destruct s as [i|d]; cbn [setTypeInitIterator set_rep iterates].
  - intros (Y & Hd & ->) Hs. unfold small_set in Hs. rewrite (int_size i Y Hd) in Hs. destruct (int_members i Y Hd) as (vs & Hr & EY & Hl & Hn & Em).
    assert (etext <$> (EInt <$> vs) = int_text <$> vs) as Et.
    { rewrite <- list_fmap_compose. apply list_fmap_ext. intros k v Hv%list_elem_of_lookup_2. rewrite Forall_forall in Hl. apply otext_int. by apply Hl. }
    exists (EInt <$> vs). rewrite Et, Em. split; [|split; [done|split; [done|]]].
    + exists vs. rewrite <- (rep_size i vs Hr), <- EY. repeat (split; [done || lia|]). done.
    + by rewrite length_fmap, size_list_to_set, length_fmap.
  - intros (Hw & <-) Hs. destruct (wf_tables_ok _ _ d Hw) as [Ht H2]. destruct (ht_members seed d Hw) as [Hn ->].
    exists ((λ e, EObj (key e)) <$> dict_entries d). assert (etext <$> ((λ e, EObj (key e)) <$> dict_entries d) = (λ e, otext (key e)) <$> dict_entries d) as Et by (by rewrite <- list_fmap_compose).
    rewrite Et. split; [|split; [done|split; [done|]]].
    + split; [done|]. split; [done|]. split; [by split|]. split; [done|]. split; [by left|done].
    + by rewrite length_fmap, size_list_to_set, length_fmap.
Qed.

Lemma setTypeNext_ok si s es : iterates si s es → ∃ si', setTypeNext table_address si s = Some (si', s, head es) ∧ iterates si' s (tail es).
Proof.
  destruct si as [di|ii], s as [i|d]; try done; cbn [iterates setTypeNext].
  - intros (Ht & H2 & Hi & Hs & Hf & ->). destruct (dictNext_ok table_address di d Ht H2 Hi) as (it' & -> & Hi' & Hf' & Hr & Hs' & Hp). bsimpl.
    assert (opened di d = d) as -> by (unfold opened; by rewrite Hs, andb_false_r). exists (IterHt it'). split; [by destruct (remaining di d)|].
    split; [done|]. split; [done|]. split; [done|]. split; [by rewrite Hs'|]. split; [|rewrite Hr; by destruct (remaining di d)]. right. rewrite Hp. unfold printed. rewrite Hs.
    destruct Hf as [-> |Hf]; [done|]. by destruct (fresh_iter di).
  - intros (vs & Hr & Hm & Hi & Hl & ->).
    assert (intsetGet i ii = Some (vs !! Z.to_nat ii)) as ->.
    { unfold intsetGet. rewrite (rep_length _ _ Hr). destruct (Z.ltb_spec ii (len vs)); [|by rewrite lookup_ge_None_2 by lia].
      destruct (lookup_lt_is_Some_2 vs (Z.to_nat ii)) as [v Hlv]; [lia|]. by rewrite (get_rep i vs ii v), Hlv by done. }
    bsimpl. exists (IterInt (ii + 1)). split.
    + destruct (vs !! Z.to_nat ii) as [v|] eqn:Ev; [by rewrite (drop_S vs v _ Ev)|]. rewrite drop_ge; [done|by apply lookup_ge_None_1].
    + exists vs. split; [done|]. split; [done|]. split; [lia|]. split; [done|]. replace (Z.to_nat (ii + 1)) with (S (Z.to_nat ii)) by lia.
      destruct (vs !! Z.to_nat ii) as [v|] eqn:Ev; [by rewrite (drop_S vs v _ Ev)|]. apply lookup_ge_None_1 in Ev. by rewrite !drop_ge by lia.
Qed.

Lemma setTypeReleaseIterator_ok si s es : iterates si s es → setTypeReleaseIterator table_address si s = Some s.
Proof.
  destruct si as [di|ii], s as [i|d]; try done; cbn [iterates setTypeReleaseIterator]. intros (_ & _ & _ & Hs & Hf & _). unfold dictReleaseIterator. rewrite Hs.
  destruct (fresh_iter di); [done|]. destruct Hf as [?| ->]; [done|]. by rewrite Z.eqb_refl.
Qed.

(** ** Loops *)

Lemma store_same (st : store) (a : addr) (s : sset) : st !! a = Some s → <[a := s]> st = st.
Proof. apply (insert_id (M := gmap positive) st a s). Qed.

Lemma store_here (st : store) (a : addr) (s : sset) : <[a := s]> st !! a = Some s.
Proof. apply (lookup_insert_eq (M := gmap positive)). Qed.

Lemma store_there (st : store) (a b : addr) (s : sset) : a ≠ b → <[a := s]> st !! b = st !! b.
Proof. apply (lookup_insert_ne (M := gmap positive)). Qed.

Lemma next_object_ok si s es : iterates si s es → ∃ si', setTypeNextObject table_address si s = Some (si', s, element_object <$> head es) ∧ iterates si' s (tail es).
Proof. intros Hi. unfold setTypeNextObject. destruct (setTypeNext_ok si s es Hi) as (si' & -> & Hi'). bsimpl. exists si'. split; [by destruct es|done]. Qed.

Section loop.
Context {S : Type} (body : store → S → sobj → option (store * S)) (a : addr) (s : sset) (X : gset (list Z)).
(** What holds once the members [Y] were seen. *)
Context (I : gset (list Z) → store → S → Prop).
Hypothesis set_kept : ∀ Y st x, I Y st x → st !! a = Some s.
Hypothesis step : ∀ Y st x e, I Y st x → Y ⊆ X → otext e ∈ X → otext e ∉ Y → ∃ st' x', body st x e = Some (st', x') ∧ I ({[otext e]} ∪ Y) st' x'.

Lemma each_ok n : ∀ si st x es Y, iterates si s es → I Y st x → NoDup (etext <$> es) → Y ## list_to_set (etext <$> es) → Y ∪ list_to_set (etext <$> es) = X → (length es < n)%nat →
  ∃ si' st' x', each table_address n body si st a x = Some (si', st', x') ∧ iterates si' s [] ∧ I X st' x'.
Proof.
  induction n as [|n IH]; intros si st x es Y Hi HI Hn Hd HX Hl; [lia|]. cbn [each]. rewrite (set_kept _ _ _ HI). bsimpl.
  destruct (next_object_ok si s es Hi) as (si' & -> & Hi'). bsimpl. rewrite (store_same _ _ _ (set_kept _ _ _ HI)). destruct es as [|e es]; cbn [head tail fmap option_fmap option_map] in *.
  - exists si', st, x. split; [done|]. split; [done|]. cbn in HX. rewrite union_empty_r_L in HX. by rewrite <- HX.
  - cbn in Hn, Hd, HX, Hl. apply NoDup_cons in Hn as [Hnew Hn]. destruct (step Y st x (element_object e) HI) as (st' & x' & -> & HI'); [set_solver|unfold etext in *; set_solver|unfold etext in *; set_solver|]. bsimpl.
    apply (IH si' st' x' es ({[etext e]} ∪ Y) Hi' HI' Hn); [|set_solver|lia]. apply disjoint_union_l. split; [|set_solver]. apply disjoint_singleton_l. by rewrite elem_of_list_to_set.
Qed.

Lemma each_element_ok st x : set_rep seed s X → small_set X → I ∅ st x → ∃ st' x', each_element table_address body st a x = Some (st', x') ∧ I X st' x'.
Proof.
  intros Hr Hs HI. unfold each_element. rewrite (set_kept _ _ _ HI). bsimpl. destruct (setTypeInitIterator_ok s X Hr Hs) as (es & Hi & Hn & HX & Hl).
  destruct (each_ok (loop_fuel s) _ st x es ∅ Hi HI Hn) as (si' & st' & x' & -> & Hi' & HI'); [set_solver|set_solver|unfold loop_fuel; rewrite (setTypeSize_ok seed s X Hr Hs); lia|].
  bsimpl. rewrite (set_kept _ _ _ HI'). bsimpl. rewrite (setTypeReleaseIterator_ok si' s [] Hi'). bsimpl. rewrite (store_same _ _ _ (set_kept _ _ _ HI')). by exists st', x'.
Qed.
End loop.
End set_iter.
