(* ===== verification/SetThms.v ===== *)
(** * Sets: the operations on several sets

    The loops of SINTER, SUNION and SDIFF compute the intersection, the union
    and the difference of the sets, whatever their representations, whatever
    order they were put in, and with either algorithm of SDIFF. *)

From S2P Require Import Prelude Endian Util Intset Dict DictIter Table Object Value SetType SetSpec SetIter.
From stdpp Require Import gmap sets.
Local Open Scope Z_scope.

Section sets.
Context `{Host}.
Context (junk : nat → Z) (seed : Z) (dict_can_resize : bool) (set_max_intset_entries : Z) (table_address : dictht sobj unit → Z).
Implicit Types (st : store) (M : gmap addr (gset (list Z))) (X Y : gset (list Z)).

(** The store has a set for every address of [M], which stands for the set of
    texts there. *)
Definition store_rep st M : Prop := ∀ a X, M !! a = Some X → ∃ s, st !! a = Some s ∧ set_rep seed s X ∧ small_set X.

Abbreviation values M sets := (omap (λ a, M !! a) sets).
Abbreviation given M sets := (∀ a, a ∈ sets → is_Some (M !! a)).

Lemma store_set st M a X s : store_rep st M → M !! a = Some X → set_rep seed s X → store_rep (<[a := s]> st) M.
Proof.
  intros HM Ha Hs b Y Hb. destruct (decide (a = b)) as [<-|Hne].
  - rewrite Ha in Hb. injection Hb as <-. exists s. split; [apply store_here|]. split; [done|]. by destruct (HM a X Ha) as (_ & _ & _ & ?).
  - rewrite store_there by done. by apply HM.
Qed.

(** ** One set *)

(** C35. A set whose members are held in an integer set or in a dictionary is a
    finite set of texts: adding, removing and looking up a string object, and
    the size, are those of the finite set of its texts, through every
    conversion of the representation; 123 as an integer and as a string is the
    same member.  The set has fewer than [max_entries] members. *)
Theorem set_ops_refine s X o : set_rep seed s X → small_set X →
  (∃ s', setTypeAdd junk seed dict_can_resize set_max_intset_entries s o = Some (s', bool_decide (otext o ∉ X)) ∧ set_rep seed s' ({[otext o]} ∪ X)) ∧
  (∃ s', setTypeRemove junk seed dict_can_resize s o = Some (s', bool_decide (otext o ∈ X)) ∧ set_rep seed s' (X ∖ {[otext o]})) ∧
  (∃ s', setTypeIsMember seed s o = Some (s', bool_decide (otext o ∈ X)) ∧ set_rep seed s' X) ∧
  setTypeSize s = Z.of_nat (size X) ∧ set_rep seed (setTypeCreate o) ∅.
Proof.
  intros Hr Hs. split; [by apply setTypeAdd_ok|]. split; [by apply setTypeRemove_ok|]. split; [by apply setTypeIsMember_ok|]. split; [by apply (setTypeSize_ok seed)|apply setTypeCreate_ok].
Qed.

(** The set with these members, added one by one. *)
Fixpoint set_of (os : list sobj) : option sset :=
  match os with
  | [] => Some (SetInt intsetNew)
  | o :: os => s ← set_of os; '(s, _) ← setTypeAdd junk seed dict_can_resize set_max_intset_entries s o; Some s
  end.

Lemma set_of_ok os : len os < max_entries → ∃ s, set_of os = Some s ∧ set_rep seed s (list_to_set (otext <$> os)) ∧ small_set (list_to_set (otext <$> os)).
Proof.
  assert (∀ os, (size (list_to_set (otext <$> os) : gset (list Z)) ≤ length os)%nat) as Hsize.
  { clear os. intros os. induction os as [|o os IH]; [done|]. cbn. rewrite size_union_alt, size_singleton.
    assert (size ((list_to_set (otext <$> os) : gset (list Z)) ∖ {[otext o]}) ≤ size (list_to_set (otext <$> os) : gset (list Z)))%nat by (by apply subseteq_size, subseteq_difference_l). lia. }
  induction os as [|o os IH]; cbn [set_of length]; intros Hl.
  - exists (SetInt intsetNew). split; [done|]. split; [|done]. exists ∅. split; [exists []; split; [apply new_rep|done]|by rewrite set_map_empty].
  - destruct IH as (s & -> & Hr & Hs); [lia|]. bsimpl. destruct (setTypeAdd_ok junk seed dict_can_resize set_max_intset_entries s _ o Hr Hs) as (s' & -> & Hr'). bsimpl.
    exists s'. split; [done|]. split; [done|]. unfold small_set. specialize (Hsize (o :: os)). cbn [length] in Hsize. lia.
Qed.

(** ** One element and several sets *)

Lemma has_element_ok s X e : set_rep seed s X → small_set X → element_ok e →
  ∃ s', has_element seed s e = Some (s', bool_decide (etext e ∈ X)) ∧ set_rep seed s' X.
Proof.
  intros Hr Hs He. unfold has_element. destruct e as [v|o].
  - destruct s as [i|d]; [|by apply setTypeIsMember_ok]. destruct Hr as (Y & Hd & ->). unfold small_set in Hs. rewrite (int_size i Y Hd) in Hs.
    rewrite (intsetFind_correct i Y v Hd) by (cbn in He; unfold long, LLONG_MIN, LLONG_MAX in He; lia). bsimpl.
    rewrite (bool_decide_ext (etext (EInt v) ∈ _) (v ∈ Y)); [exists (SetInt i); split; [done|by exists Y]|]. unfold etext, element_object. rewrite otext_int by done. by apply (int_text_member i Y v Hd).
  - destruct (setTypeIsMember_ok seed s X o Hr Hs) as (s' & Em & Hr'). destruct o as [v|t]; [|bsimpl; by exists s']. destruct s as [i|d]; [|bsimpl; by exists s'].
    pose proof Hr as (Y & Hd & ->). pose proof Hs as Hs2. unfold small_set in Hs2. rewrite (int_size i Y Hd) in Hs2. pose proof (s64_long v) as Hv.
    rewrite (intsetFind_correct i Y (s64 v) Hd) by (unfold long, LLONG_MIN, LLONG_MAX in Hv; lia).
    bsimpl. destruct (bool_decide_reflect (s64 v ∈ Y)) as [Hin|Hin]; cbn [negb]; [by exists s'|].
    exists (SetInt i). rewrite bool_decide_eq_false_2; [done|]. intros Ht. apply Hin. by apply (int_text_member i Y (s64 v) Hd).
Qed.

Lemma in_others_ok others : ∀ st M first e, store_rep st M → given M others → element_ok e →
  ∃ st', in_others seed st first others e = Some (st', bool_decide (Forall (λ a, a = first ∨ etext e ∈ M !!! a) others)) ∧ store_rep st' M ∧ st' !! first = st !! first.
Proof.
  induction others as [|a others IH]; intros st M first e HM Hg He; cbn [in_others]; [by exists st|].
  assert (given M others) as Hg' by (intros b Hb; apply Hg; by right). destruct (Hg a (list_elem_of_here a others)) as [X Ha].
  case_bool_decide as Heq.
  - destruct (IH st M first e HM Hg' He) as (st' & -> & HM' & Ef). exists st'. split; [|done]. do 2 f_equal. apply bool_decide_ext. rewrite Forall_cons. tauto.
  - destruct (HM a X Ha) as (s & -> & Hr & Hs). bsimpl. destruct (has_element_ok s X e Hr Hs He) as (s' & -> & Hr'). bsimpl. pose proof (store_set st M a X s' HM Ha Hr') as HM1.
    assert (<[a := s']> st !! first = st !! first) as Ef1 by (by apply store_there). case_bool_decide as Hin.
    + destruct (IH _ M first e HM1 Hg' He) as (st' & -> & HM' & Ef). exists st'. rewrite Ef, Ef1. split; [|done]. do 2 f_equal. apply bool_decide_ext. rewrite Forall_cons, (lookup_total_correct _ _ _ Ha). tauto.
    + exists (<[a := s']> st). split; [|done]. do 2 f_equal. symmetry. apply bool_decide_eq_false_2. rewrite Forall_cons, (lookup_total_correct _ _ _ Ha). tauto.
Qed.

Lemma in_no_other_ok others : ∀ st M first o, store_rep st M → given M (omap id others) →
  ∃ st', in_no_other seed st first others o = Some (st', bool_decide (Forall (λ a, a ≠ first ∧ otext o ∉ M !!! a) (omap id others))) ∧ store_rep st' M ∧ st' !! first = st !! first.
Proof.
  induction others as [|[a|] others IH]; intros st M first o HM Hg; cbn [in_no_other omap list_omap id]; [by exists st| |by apply IH].
  assert (given M (omap id others)) as Hg' by (intros b Hb; apply Hg; by right). destruct (Hg a (list_elem_of_here a _)) as [X Ha].
  case_bool_decide as Heq; [exists st; split; [|done]; do 2 f_equal; symmetry; apply bool_decide_eq_false_2; rewrite Forall_cons; tauto|].
  destruct (HM a X Ha) as (s & -> & Hr & Hs). bsimpl. destruct (setTypeIsMember_ok seed s X o Hr Hs) as (s' & -> & Hr'). bsimpl. pose proof (store_set st M a X s' HM Ha Hr') as HM1.
  assert (<[a := s']> st !! first = st !! first) as Ef1 by (by apply store_there). case_bool_decide as Hin.
  - exists (<[a := s']> st). split; [|done]. do 2 f_equal. symmetry. apply bool_decide_eq_false_2. rewrite Forall_cons, (lookup_total_correct _ _ _ Ha). tauto.
  - destruct (IH _ M first o HM1 Hg') as (st' & -> & HM' & Ef). exists st'. rewrite Ef, Ef1. split; [|done]. do 2 f_equal. apply bool_decide_ext. rewrite Forall_cons, (lookup_total_correct _ _ _ Ha). tauto.
Qed.

(** ** Counting *)

Definition counted (x : sset * Z) Y : Prop := set_rep seed x.1 Y ∧ x.2 = Z.of_nat (size Y).

Lemma small_le X Y : X ⊆ Y → small_set Y → small_set X.
Proof. intros Hs%subseteq_size. unfold small_set. lia. Qed.

Lemma size_add X t : t ∉ X → size ({[t]} ∪ X) = S (size X).
Proof. intros Ht. rewrite size_union by set_solver. by rewrite size_singleton. Qed.

Lemma add_counted_ok st x Y o : counted x Y → small_set Y →
  ∃ x', add_counted junk seed dict_can_resize set_max_intset_entries st x o = Some (st, x') ∧ counted x' ({[otext o]} ∪ Y).
Proof.
  intros [Hr Hc] Hs. unfold add_counted. destruct (setTypeAdd_ok junk seed dict_can_resize set_max_intset_entries x.1 Y o Hr Hs) as (s' & -> & Hr'). bsimpl. eexists. split; [reflexivity|]. split; [done|]. cbn [snd].
  case_bool_decide as Hin; [rewrite size_add by done; lia|]. assert ({[otext o]} ∪ Y = Y) as -> by set_solver. done.
Qed.

Lemma remove_counted_ok st x Y o : counted x Y → small_set Y →
  ∃ x', remove_counted junk seed dict_can_resize st x o = Some (st, x') ∧ counted x' (Y ∖ {[otext o]}).
Proof.
  intros [Hr Hc] Hs. unfold remove_counted. destruct (setTypeRemove_ok junk seed dict_can_resize x.1 Y o Hr Hs) as (s' & -> & Hr'). bsimpl. eexists. split; [reflexivity|]. split; [done|]. cbn [snd].
  case_bool_decide as Hin; [|assert (Y ∖ {[otext o]} = Y) as -> by set_solver; done].
  assert (Y = {[otext o]} ∪ Y ∖ {[otext o]}) as Ey by (by apply union_difference_singleton_L). rewrite Ey in Hc at 1. rewrite size_add in Hc by set_solver. lia.
Qed.
(** ** SINTER *)

(** What was sent, with its number, or the set to store, has the texts [Y]. *)
Definition sunk (dst : bool) (k : sink) (n : Z) Y : Prop :=
  match dst, k with
  | false, Reply sent => NoDup (etext <$> sent) ∧ list_to_set (etext <$> sent) = Y ∧ n = len sent
  | true, Store s => set_rep seed s Y
  | _, _ => False
  end.

Lemma put_element_ok dst k n Y e : sunk dst k n Y → etext e ∉ Y → small_set Y →
  ∃ k', put_element junk seed dict_can_resize set_max_intset_entries k e = Some k' ∧ sunk dst k' (match k with Reply _ => n + 1 | Store _ => n end) ({[etext e]} ∪ Y).
Proof.
  intros Hk He Hs. destruct dst, k as [sent|s]; try done; cbn [put_element sunk] in *.
  - destruct (setTypeAdd_ok junk seed dict_can_resize set_max_intset_entries s Y (element_object e) Hk Hs) as (s' & -> & Hr). bsimpl. by exists (Store s').
  - destruct Hk as (Hn & <- & ->). exists (Reply (sent ++ [e])). split; [done|]. rewrite fmap_app, list_to_set_app_L, length_app. cbn. split; [|split; [set_solver|lia]].
    apply NoDup_app. split; [done|]. split; [|apply NoDup_singleton]. intros t Ht ->%list_elem_of_singleton. apply He. by apply elem_of_list_to_set.
Qed.

(** The members seen so far with the next one, which is kept or not. *)
Lemma filter_next (P : list Z → Prop) `{∀ t, Decision (P t)} Y t X :
  Y ∪ filter P ({[t]} ∪ X) = if decide (P t) then ({[t]} ∪ Y) ∪ filter P X else Y ∪ filter P X.
Proof. apply set_eq. intros u. destruct (decide (P t)); rewrite !elem_of_union, !elem_of_filter, ?elem_of_union, elem_of_singleton; naive_solver. Qed.

Lemma inter_loop_ok fuel M first others dst s : given M others → ∀ si st k n es Y, store_rep st M → st !! first = Some s → iterates table_address si s es →
  sunk dst k n Y → NoDup (etext <$> es) → Y ## list_to_set (etext <$> es) → small_set (Y ∪ list_to_set (etext <$> es)) → (length es < fuel)%nat →
  ∃ si' st' k' n', inter_loop junk seed dict_can_resize set_max_intset_entries table_address fuel si st first others k n = Some (si', st', k', n') ∧
    store_rep st' M ∧ st' !! first = Some s ∧ iterates table_address si' s [] ∧
    sunk dst k' n' (Y ∪ filter (λ t, Forall (λ a, a = first ∨ t ∈ M !!! a) others) (list_to_set (etext <$> es))).
Proof.
  intros Hg. induction fuel as [|fuel IH]; intros si st k n es Y HM Hf Hi Hk Hn Hd Hs Hl; [lia|]. cbn [inter_loop]. rewrite Hf. bsimpl. pose proof (iterates_ok _ _ _ _ Hi) as He.
  destruct (setTypeNext_ok table_address si s es Hi) as (si' & -> & Hi'). bsimpl. rewrite (store_same _ _ _ Hf). destruct es as [|e es]; cbn [head tail] in *.
  - exists si', st, k, n. assert (Y ∪ filter (λ t, Forall (λ a, a = first ∨ t ∈ M !!! a) others) (list_to_set (etext <$> [])) = Y) as -> by (apply set_eq; intros t; rewrite elem_of_union, elem_of_filter; cbn; rewrite elem_of_empty; tauto). done.
  - cbn [fmap list_fmap list_to_set length] in *. apply NoDup_cons in Hn as [Hnew Hn]. apply Forall_cons in He as [He _].
    destruct (in_others_ok others st M first e HM Hg He) as (st' & -> & HM' & Ef). bsimpl. rewrite Hf in Ef. rewrite filter_next, (decide_bool_decide _ (_ ∪ _ ∪ _)).
    apply disjoint_union_r in Hd as [Hd1%disjoint_singleton_r Hd]. case_bool_decide as Hin.
    + destruct (put_element_ok dst k n Y e Hk Hd1) as (k' & -> & Hk'); [by eapply small_le; [apply union_subseteq_l|exact Hs]|]. bsimpl.
      apply (IH si' st' k' _ es _ HM' Ef Hi' Hk' Hn); [|by rewrite (union_comm_L {[etext e]}), <- union_assoc_L|lia].
      apply disjoint_union_l. split; [|done]. apply disjoint_singleton_l. by rewrite elem_of_list_to_set.
    + apply (IH si' st' k n es Y HM' Ef Hi' Hk Hn Hd); [|lia]. eapply small_le; [|exact Hs]. apply union_mono_l, union_subseteq_r.
Qed.

Lemma elem_of_inter (t : list Z) X0 (Xs : list (gset (list Z))) : t ∈ foldr intersection X0 Xs ↔ t ∈ X0 ∧ Forall (λ X, t ∈ X) Xs.
Proof. induction Xs as [|X Xs IH]; cbn; [by rewrite Forall_nil; tauto|]. rewrite elem_of_intersection, IH, Forall_cons. tauto. Qed.

Lemma Forall_values (P : gset (list Z) → Prop) M sets : given M sets → Forall P (values M sets) ↔ Forall (λ a, P (M !!! a)) sets.
Proof.
  induction sets as [|a sets IH]; intros Hg; cbn; [by rewrite !Forall_nil|]. destruct (Hg a (list_elem_of_here a sets)) as [X Ha]. rewrite Ha. cbn.
  rewrite !Forall_cons, (lookup_total_correct _ _ _ Ha), IH; [done|]. intros b Hb. apply Hg. by right.
Qed.

(** SINTER and SINTERSTORE, from the sorted sets on: with sets of texts
    given at the addresses, in whatever order and with repetitions, the loop
    ends and sends the elements of their intersection, each once, with their
    number, or builds a set that stands for it; the sets given still stand for
    what they did. *)
Theorem sinter_correct st M first others (dst : bool) X0 :
  store_rep st M → M !! first = Some X0 → given M others →
  ∃ st' k n, sinter_sets junk seed dict_can_resize set_max_intset_entries table_address st (first :: others) dst = Some (st', k, n) ∧
    store_rep st' M ∧ sunk dst k n (foldr intersection X0 (values M others)).
Proof.
  intros HM Hf Hg. destruct (HM first X0 Hf) as (s & Es & Hr & Hs). unfold sinter_sets. rewrite Es. bsimpl. destruct (setTypeInitIterator_ok seed table_address s X0 Hr Hs) as (es & Hi & Hn & HX & Hl).
  set (k0 := if dst then _ else _). assert (sunk dst k0 0 ∅) as Hk by (destruct dst; cbn; [exists ∅; split; [exists []; split; [apply new_rep|done]|by rewrite set_map_empty]|split; [constructor|done]]).
  destruct (inter_loop_ok (loop_fuel s) M first others dst s Hg _ st k0 0 es ∅ HM Es Hi Hk Hn) as (si' & st' & k' & n' & -> & HM' & Ef & Hi' & Hk').
  { apply disjoint_empty_l. } { by rewrite HX, union_empty_l_L. } { unfold loop_fuel. rewrite (setTypeSize_ok seed s X0 Hr Hs). lia. }
  bsimpl. rewrite Ef. bsimpl. rewrite (setTypeReleaseIterator_ok table_address si' s [] Hi'). bsimpl. rewrite (store_same _ _ _ Ef). exists st', k', n'. split; [done|]. split; [done|].
  assert (∅ ∪ filter (λ t, Forall (λ a, a = first ∨ t ∈ M !!! a) others) (list_to_set (etext <$> es)) = foldr intersection X0 (values M others)) as <-; [|exact Hk'].
  rewrite HX. apply set_eq. intros t. rewrite elem_of_union, elem_of_empty, elem_of_filter, elem_of_inter, (Forall_values (λ X, t ∈ X) M others Hg). split.
  - intros [[]|[Hall Ht]]. split; [done|]. eapply Forall_impl; [exact Hall|]. cbn. intros a [->|Ha]; [by rewrite (lookup_total_correct _ _ _ Hf)|done].
  - intros [Ht Hall]. right. split; [|done]. eapply Forall_impl; [exact Hall|]. cbn. tauto.
Qed.

(** ** SUNION *)

Lemma union_each_ok st M a X Y x : store_rep st M → M !! a = Some X → counted x Y → small_set (Y ∪ X) →
  ∃ x', each_element table_address (add_counted junk seed dict_can_resize set_max_intset_entries) st a x = Some (st, x') ∧ counted x' (Y ∪ X).
Proof.
  intros HM Ha Hx Hs. destruct (HM a X Ha) as (s & Es & Hr & Hsx).
  destruct (each_element_ok seed table_address (add_counted junk seed dict_can_resize set_max_intset_entries) a s X (λ Z st' x', st' = st ∧ counted x' (Y ∪ Z))) with (st := st) (x := x) as (st' & x' & -> & -> & Hx').
  - by intros Z st' x' [-> _].
  - intros Z st' x' e [-> Hx'] HZ He Hne. destruct (add_counted_ok st x' (Y ∪ Z) e Hx') as (x2 & -> & H2); [eapply small_le; [|exact Hs]; by apply union_mono_l|].
    exists st, x2. split; [done|]. split; [done|]. by rewrite union_assoc_L, (union_comm_L Y), <- union_assoc_L.
  - done.
  - done.
  - split; [done|]. by rewrite union_empty_r_L.
  - by exists x'.
Qed.

Lemma union_loop_ok sets : ∀ st M Y x, store_rep st M → given M (omap id sets) → counted x Y → small_set (Y ∪ ⋃ (values M (omap id sets))) →
  ∃ x', union_loop junk seed dict_can_resize set_max_intset_entries table_address st sets x = Some (st, x') ∧ counted x' (Y ∪ ⋃ (values M (omap id sets))).
Proof.
  induction sets as [|[a|] sets IH]; intros st M Y x HM Hg Hx Hs; cbn [union_loop omap list_omap id]; [exists x; rewrite union_list_nil, union_empty_r_L; done| |by apply IH].
  assert (given M (omap id sets)) as Hg' by (intros b Hb; apply Hg; by right). destruct (Hg a (list_elem_of_here a _)) as [X Ha]. cbn [omap list_omap id] in Hs |- *. rewrite Ha, union_list_cons in Hs |- *.
  rewrite union_assoc_L in Hs |- *. destruct (union_each_ok st M a X Y x HM Ha Hx) as (x' & -> & Hx'); [eapply small_le; [|exact Hs]; apply union_subseteq_l|]. bsimpl. by apply IH.
Qed.

Context (qsort : store → list (option addr) → list (option addr)).

(** SUNION and SUNIONSTORE, from the sets that were found on: the loops
    end with a set that stands for the union of the sets there are, [NULL]
    being the empty set, and with the number of its members; every set given
    is left as it was. *)
Theorem sunion_correct st M sets : store_rep st M → given M (omap id sets) → small_set (⋃ (values M (omap id sets))) →
  ∃ x, sunion_diff_sets junk seed dict_can_resize set_max_intset_entries table_address qsort st sets REDIS_OP_UNION = Some (st, x) ∧
    counted x (⋃ (values M (omap id sets))).
Proof.
  intros HM Hg Hs. cbn [sunion_diff_sets]. destruct (union_loop_ok sets st M ∅ (SetInt intsetNew, 0) HM Hg) as (x & -> & Hx); [|by rewrite union_empty_l_L|exists x; by rewrite union_empty_l_L in Hx].
  split; [|done]. exists ∅. split; [exists []; split; [apply new_rep|done]|by rewrite set_map_empty].
Qed.

(** ** SDIFF *)

Lemma elem_of_values (t : list Z) M sets : given M sets → t ∈ ⋃ (values M sets) ↔ ∃ a, a ∈ sets ∧ t ∈ M !!! a.
Proof.
  induction sets as [|a sets IH]; intros Hg; cbn; [rewrite elem_of_empty; split; [done|by intros (a & Ha%not_elem_of_nil & _)]|].
  destruct (Hg a (list_elem_of_here a sets)) as [X Ha]. rewrite Ha. cbn. rewrite elem_of_union, IH by (intros b Hb; apply Hg; by right). split.
  - intros [Ht|(b & Hb & Ht)]; [exists a; split; [by left|by rewrite (lookup_total_correct _ _ _ Ha)]|exists b; split; [by right|done]].
  - intros (b & [->|Hb]%elem_of_cons & Ht); [left; by rewrite (lookup_total_correct _ _ _ Ha) in Ht|right; by exists b].
Qed.

Lemma empty_difference X : ∅ ∖ X = ∅.
Proof. apply set_eq. intros t. rewrite elem_of_difference, elem_of_empty. tauto. Qed.

(** Algorithm 1. *)
Lemma diff_one_ok st M first others X0 : store_rep st M → M !! first = Some X0 → given M (omap id others) →
  ∃ st' x, each_element table_address (diff_body junk seed dict_can_resize set_max_intset_entries first others) st first (SetInt intsetNew, 0) = Some (st', x) ∧
    store_rep st' M ∧ counted x (X0 ∖ ⋃ (values M (omap id others))).
Proof.
  intros HM Hf Hg. destruct (HM first X0 Hf) as (s & Es & Hr & Hs). set (P := λ t, Forall (λ a, a ≠ first ∧ t ∉ M !!! a) (omap id others)).
  destruct (each_element_ok seed table_address (diff_body junk seed dict_can_resize set_max_intset_entries first others) first s X0
    (λ Y st' x, store_rep st' M ∧ st' !! first = Some s ∧ counted x (filter P Y))) with (st := st) (x := (SetInt intsetNew, 0)) as (st' & x & E & HM' & _ & Hx).
  - by intros Y st' x (_ & ? & _).
  - intros Y st' x e (HM' & Ef & Hr' & Hc) HY He Hne. unfold diff_body. destruct (in_no_other_ok others st' M first e HM' Hg) as (st2 & -> & HM2 & Ef2). bsimpl.
    pose proof (filter_next P ∅ (otext e) Y) as Hn. rewrite !union_empty_l_L, union_empty_r_L in Hn. rewrite Hn, decide_bool_decide. fold (P (otext e)). case_bool_decide as Hin; [|exists st2, x; by rewrite Ef2].
    destruct (setTypeAdd_ok junk seed dict_can_resize set_max_intset_entries x.1 (filter P Y) e Hr') as (s2 & -> & Hr2); [eapply small_le; [|exact Hs]; etrans; [|exact HY]; intros u [_ Hu]%elem_of_filter; exact Hu|]. bsimpl.
    exists st2, (s2, x.2 + 1). split; [done|]. split; [done|]. split; [by rewrite Ef2|]. split; [done|]. cbn [snd]. rewrite size_add; [lia|]. rewrite elem_of_filter. tauto.
  - done.
  - done.
  - split; [done|]. split; [done|]. split; [exists ∅; split; [exists []; split; [apply new_rep|done]|by rewrite set_map_empty]|done].
  - exists st', x. split; [done|]. split; [done|]. assert (X0 ∖ ⋃ (values M (omap id others)) = filter P X0) as ->; [|done].
    apply set_eq. intros t. rewrite elem_of_difference, elem_of_filter, (elem_of_values t M _ Hg). unfold P. rewrite Forall_forall. split.
    + intros [Ht Hn]. split; [|done]. intros a Ha. split; [intros ->|]; [apply Hn; exists first; split; [done|by rewrite (lookup_total_correct _ _ _ Hf)]|]. intros Hta. apply Hn. by exists a.
    + intros [Hall Ht]. split; [done|]. intros (a & Ha & Hta). by destruct (Hall a Ha).
Qed.

(** Algorithm 2. *)
Lemma diff_each_ok st M a X Y x : store_rep st M → M !! a = Some X → counted x Y → small_set Y →
  ∃ x', each_element table_address (remove_counted junk seed dict_can_resize) st a x = Some (st, x') ∧ counted x' (Y ∖ X).
Proof.
  intros HM Ha Hx Hs. destruct (HM a X Ha) as (s & Es & Hr & Hsx).
  destruct (each_element_ok seed table_address (remove_counted junk seed dict_can_resize) a s X (λ Z st' x', st' = st ∧ counted x' (Y ∖ Z))) with (st := st) (x := x) as (st' & x' & -> & -> & Hx').
  - by intros Z st' x' [-> _].
  - intros Z st' x' e [-> Hx'] HZ He Hne. destruct (remove_counted_ok st x' (Y ∖ Z) e Hx') as (x2 & -> & H2); [eapply small_le; [|exact Hs]; apply subseteq_difference_l; done|].
    exists st, x2. split; [done|]. split; [done|]. by rewrite difference_difference_l_L, (union_comm_L Z) in H2.
  - done.
  - done.
  - split; [done|]. by rewrite difference_empty_L.
  - by exists x'.
Qed.

Lemma diff_rest_ok sets : ∀ st M Y x, store_rep st M → given M (omap id sets) → counted x Y → small_set Y →
  ∃ x', diff_loop junk seed dict_can_resize set_max_intset_entries table_address st sets false x = Some (st, x') ∧ counted x' (Y ∖ ⋃ (values M (omap id sets))).
Proof.
  induction sets as [|[a|] sets IH]; intros st M Y x HM Hg Hx Hs; cbn [diff_loop omap list_omap id]; [exists x; by rewrite union_list_nil, difference_empty_L| |by apply IH].
  assert (given M (omap id sets)) as Hg' by (intros b Hb; apply Hg; by right). destruct (Hg a (list_elem_of_here a _)) as [X Ha]. rewrite Ha, union_list_cons, <- difference_difference_l_L.
  destruct (diff_each_ok st M a X Y x HM Ha Hx Hs) as (x' & -> & Hx'). bsimpl. destruct (Z.eqb_spec x'.2 0) as [E0|_].
  - exists x'. split; [done|]. destruct Hx' as [Hr Hc]. assert (Y ∖ X = ∅) as Ee by (apply leibniz_equiv, size_empty_inv; lia). rewrite Ee in *. by rewrite empty_difference.
  - apply IH; [done|done|done|]. eapply small_le; [|exact Hs]. by apply subseteq_difference_l.
Qed.

Lemma algo_work_ok sets : ∀ st M n one two, store_rep st M → given M (omap id sets) → is_Some (algo_work st sets n one two).
Proof.
  induction sets as [|[a|] sets IH]; intros st M n one two HM Hg; cbn [algo_work]; [by eexists| |by eapply IH]. destruct (Hg a (list_elem_of_here a _)) as [X Ha].
  destruct (HM a X Ha) as (s & -> & _). bsimpl. eapply IH; [done|]. intros b Hb. apply Hg. by right.
Qed.

(** What SDIFF promises. *)
Definition difference_of M (sets : list (option addr)) : gset (list Z) :=
  match sets with
  | Some a :: others => M !!! a ∖ ⋃ (values M (omap id others))
  | _ => ∅
  end.

(** C40. SDIFF and SDIFFSTORE, from the sets that were found on: whichever of
    the two algorithms the sizes select and however the other sets are sorted,
    the loops end with a set that stands for the members of the first set that
    no other set has, and with their number.  The sets at the addresses have
    fewer than [max_entries] members each. *)
Theorem sdiff_correct st M sets : (∀ st l, qsort st l ≡ₚ l) → store_rep st M → given M (omap id sets) →
  ∃ st' x, sunion_diff_sets junk seed dict_can_resize set_max_intset_entries table_address qsort st sets REDIS_OP_DIFF = Some (st', x) ∧
    store_rep st' M ∧ counted x (difference_of M sets).
Proof.
  intros Hq HM Hg. assert (counted (SetInt intsetNew, 0) ∅) as H0 by (split; [exists ∅; split; [exists []; split; [apply new_rep|done]|by rewrite set_map_empty]|done]).
  destruct sets as [|[first|] others]; cbn [sunion_diff_sets difference_of]; [by eexists st, _| |by eexists st, _].
  destruct (Hg first (list_elem_of_here _ _)) as [X0 Hf]. assert (given M (omap id others)) as Hg' by (intros b Hb; apply Hg; by right). rewrite (lookup_total_correct _ _ _ Hf).
  destruct (HM first X0 Hf) as (s & Es & Hr & Hs). rewrite Es. bsimpl. destruct (algo_work_ok (Some first :: others) st M (setTypeSize s) 0 0 HM Hg) as [[one two] ->]. bsimpl.
  destruct (_ <=? two).
  - set (l := if 1 <? _ then _ else _). assert (l ≡ₚ others) as Hp by (unfold l; destruct (1 <? _); [apply Hq|done]). assert (omap id l ≡ₚ omap id others) as Hp2 by (by rewrite Hp).
    destruct (diff_one_ok st M first l X0 HM Hf) as (st' & x & -> & HM' & Hx); [intros a Ha; apply Hg'; by rewrite <- Hp2|]. exists st', x. split; [done|]. split; [done|].
    assert (⋃ (values M (omap id others)) = ⋃ (values M (omap id l))) as ->; [|done]. apply set_eq. intros t. rewrite !elem_of_values; [|intros a Ha; apply Hg'; by rewrite <- Hp2|done]. by setoid_rewrite Hp2.
  - cbn [diff_loop]. destruct (union_each_ok st M first X0 ∅ (SetInt intsetNew, 0) HM Hf H0) as (x & -> & Hx); [by rewrite union_empty_l_L|]. rewrite union_empty_l_L in Hx. bsimpl. destruct (Z.eqb_spec x.2 0) as [E0|_].
    + exists st, x. split; [done|]. split; [done|]. destruct Hx as [Hrx Hc]. assert (X0 = ∅) as -> by (apply leibniz_equiv, size_empty_inv; lia). by rewrite empty_difference.
    + destruct (diff_rest_ok others st M X0 x HM Hg' Hx Hs) as (x' & -> & Hx'). by exists st, x'.
Qed.
End sets.

(** ** Examples *)

Section examples.
#[local] Existing Instance little_host.

Abbreviation junk0 := (λ _ : nat, 0).
Abbreviation address0 := (λ _ : dictht sobj unit, 0).
Definition text (s : string) : list Z := (λ c, Z.of_N (Ascii.N_of_ascii c)) <$> String.list_ascii_of_string s.

(** Integer sets have at most two members here. *)
Definition members1 : list sobj := [SInt 1; SRaw (text "2"); SRaw (text "x"); SInt 12].
Definition members2 : list sobj := [SInt 2; SRaw (text "12")].
Definition members3 : list sobj := [SRaw (text "x"); SInt 2].

Definition example_set (os : list sobj) : sset := default (SetInt intsetNew) (set_of junk0 5381 true 2 os).
Definition example_texts (os : list sobj) : gset (list Z) := list_to_set (otext <$> os).

Lemma example_set_ok os : len os < 10 → set_rep 5381 (example_set os) (example_texts os) ∧ small_set (example_texts os).
Proof. intros Hl. unfold example_set. destruct (set_of_ok junk0 5381 true 2 os) as (s & -> & Hr & Hs); [unfold max_entries; lia|]. done. Qed.

Definition example_store : store := <[1%positive := example_set members1]> (<[2%positive := example_set members2]> (<[3%positive := example_set members3]> ∅)).
Definition example_values : gmap addr (gset (list Z)) :=
  <[1%positive := example_texts members1]> (<[2%positive := example_texts members2]> (<[3%positive := example_texts members3]> ∅)).

Lemma example_store_rep : store_rep 5381 example_store example_values.
Proof.
  assert (∀ os (st : store) M a, len os < 10 → store_rep 5381 st M → store_rep 5381 (<[a := example_set os]> st) (<[a := example_texts os]> M)) as Hadd.
  { intros os st M a Hl HM b X Hb. destruct (example_set_ok os Hl) as [Hr Hs]. destruct (decide (a = b)) as [<-|Hne].
    - rewrite lookup_insert_eq in Hb. injection Hb as <-. exists (example_set os). rewrite store_here. done.
    - rewrite lookup_insert_ne in Hb by done. rewrite store_there by done. by apply HM. }
  apply Hadd; [done|]. apply Hadd; [done|]. apply Hadd; [done|]. intros a X Ha. by rewrite lookup_empty in Ha.
Qed.

(** The first is a dictionary, the second an integer set. *)
Example example_kinds : match example_set members1, example_set members2 with SetHt _, SetInt _ => true | _, _ => false end = true.
Proof. vm_compute. reflexivity. Qed.

Lemma set_ops_refine_witness : let s := example_set members2 in let X := example_texts members2 in let o := SRaw (text "7") in
  (∃ s', setTypeAdd junk0 5381 true 2 s o = Some (s', bool_decide (otext o ∉ X)) ∧ set_rep 5381 s' ({[otext o]} ∪ X)) ∧
  (∃ s', setTypeRemove junk0 5381 true s o = Some (s', bool_decide (otext o ∈ X)) ∧ set_rep 5381 s' (X ∖ {[otext o]})) ∧
  (∃ s', setTypeIsMember 5381 s o = Some (s', bool_decide (otext o ∈ X)) ∧ set_rep 5381 s' X) ∧
  setTypeSize s = Z.of_nat (size X) ∧ set_rep 5381 (setTypeCreate o) ∅.
Proof. destruct (example_set_ok members2 eq_refl) as [Hr Hs]. exact (set_ops_refine junk0 5381 true 2 _ _ (SRaw (text "7")) Hr Hs). Defined.

Lemma sinter_correct_witness : ∃ st' k n, sinter_sets junk0 5381 true 2 address0 example_store [1%positive; 2%positive; 1%positive] false = Some (st', k, n) ∧
  store_rep 5381 st' example_values ∧ sunk 5381 false k n (foldr intersection (example_texts members1) (omap (λ a, example_values !! a) [2%positive; 1%positive])).
Proof.
  apply (sinter_correct junk0 5381 true 2 address0 example_store example_values 1 [2%positive; 1%positive] false (example_texts members1)).
  - exact example_store_rep.
  - reflexivity.
  - intros a Ha. apply elem_of_cons in Ha as [->|Ha]; [eexists; reflexivity|]. apply list_elem_of_singleton in Ha as ->. eexists; reflexivity.
Defined.

Lemma sunion_correct_witness : ∃ x, sunion_diff_sets junk0 5381 true 2 address0 (λ _ l, l) example_store [Some 1%positive; None; Some 2%positive] REDIS_OP_UNION = Some (example_store, x) ∧
  counted 5381 x (⋃ (omap (λ a, example_values !! a) [1%positive; 2%positive])).
Proof.
  apply (sunion_correct junk0 5381 true 2 address0 (λ _ l, l) example_store example_values [Some 1%positive; None; Some 2%positive]).
  - exact example_store_rep.
  - intros a Ha. apply elem_of_cons in Ha as [->|Ha]; [eexists; reflexivity|]. apply list_elem_of_singleton in Ha as ->. eexists; reflexivity.
  - vm_compute. reflexivity.
Defined.

Lemma sdiff_correct_witness : ∃ st' x, sunion_diff_sets junk0 5381 true 2 address0 (λ _ l, reverse l) example_store [Some 1%positive; Some 2%positive; Some 3%positive] REDIS_OP_DIFF = Some (st', x) ∧
  store_rep 5381 st' example_values ∧ counted 5381 x (difference_of example_values [Some 1%positive; Some 2%positive; Some 3%positive]).
Proof.
  apply (sdiff_correct junk0 5381 true 2 address0 (λ _ l, reverse l) example_store example_values).
  - intros st l. apply reverse_Permutation.
  - exact example_store_rep.
  - intros a Ha. apply elem_of_cons in Ha as [->|Ha]; [eexists; reflexivity|]. apply elem_of_cons in Ha as [->|Ha]; [eexists; reflexivity|]. apply list_elem_of_singleton in Ha as ->. eexists; reflexivity.
Defined.
End examples.
