(* ===== verification/Rio.v ===== *)
(** * Streams of dump files: [rio.c], [rio.h]

    A stream writes to, or reads from, a buffer or a file; what is read and
    written is kept as a list of bytes.  A file may take only so many bytes
    more ([io_room]).  The checksum is computed as the bytes go by.  Sets of
    sockets as a target, and syncing a file while it is written, are not
    modelled. *)

From S2P Require Import Prelude Crc64.
Local Open Scope Z_scope.

Record rio := mkRio {
  io_data : list Z;
  io_pos : Z;
  io_room : option Z;
  (** whether there is a function that updates the checksum *)
  update_cksum : bool;
  cksum : Z;
  processed_bytes : Z;
  max_processing_chunk : Z
}.

Definition rioInitWith (data : list Z) (room : option Z) : rio := mkRio data 0 room false 0 0 0.

(** [rioGenericUpdateChecksum] *)
Definition rioGenericUpdateChecksum (r : rio) (m : list Z) : option rio :=
  c ← crc64 (cksum r) m;
  Some (mkRio (io_data r) (io_pos r) (io_room r) (update_cksum r) c (processed_bytes r) (max_processing_chunk r)).

Definition update (r : rio) (m : list Z) : option rio := if update_cksum r then rioGenericUpdateChecksum r m else Some r.

(** [r->write]: [None] is 0. *)
Definition rioBufferWrite (r : rio) (m : list Z) : option rio :=
  let go room := Some (mkRio (io_data r ++ m) (io_pos r + len m) room (update_cksum r) (cksum r) (processed_bytes r) (max_processing_chunk r)) in
  match io_room r with
  | None => go None
  | Some n => if n <? len m then None else go (Some (n - len m))
  end.

(** [r->read]: [None] is 0. *)
Definition rioBufferRead (r : rio) (n : Z) : option (list Z * rio) :=
  if len (io_data r) - io_pos r <? n then None
  else Some (take (Z.to_nat n) (drop (Z.to_nat (io_pos r)) (io_data r)),
             mkRio (io_data r) (io_pos r + n) (io_room r) (update_cksum r) (cksum r) (processed_bytes r) (max_processing_chunk r)).

Definition processed (r : rio) (n : Z) : rio :=
  mkRio (io_data r) (io_pos r) (io_room r) (update_cksum r) (cksum r) (u64 (processed_bytes r + n)) (max_processing_chunk r).

(** How much of [n] bytes is handled at once. *)
Definition chunk (r : rio) (n : Z) : Z :=
  if negb (max_processing_chunk r =? 0) && (max_processing_chunk r <? n) then max_processing_chunk r else n.

Fixpoint write_loop (fuel : nat) (r : rio) (m : list Z) : option (bool * rio) :=
  if len m =? 0 then Some (true, r)
  else
    match fuel with
    | O => None
    | S fuel =>
        let n := chunk r (len m) in
        let b := take (Z.to_nat n) m in
        r ← update r b;
        match rioBufferWrite r b with
        | None => Some (false, r)
        | Some r => write_loop fuel (processed r n) (drop (Z.to_nat n) m)
        end
    end.

Definition rioWrite (r : rio) (m : list Z) : option (bool * rio) := write_loop (length m) r m.

(** The bytes read, [None] on a short read. *)
Fixpoint read_loop (fuel : nat) (r : rio) (got : list Z) (n : Z) : option (option (list Z) * rio) :=
  if n =? 0 then Some (Some got, r)
  else
    match fuel with
    | O => None
    | S fuel =>
        let k := chunk r n in
        match rioBufferRead r k with
        | None => Some (None, r)
        | Some (b, r) =>
            r ← update r b;
            read_loop fuel (processed r k) (got ++ b) (n - k)
        end
    end.

Definition rioRead (r : rio) (n : Z) : option (option (list Z) * rio) := read_loop (Z.to_nat n) r [] n.

(** ** Contracts *)

(** The checksum of what went by, 0 if none is computed. *)
Definition summed (r : rio) (w : list Z) : Prop := cksum r = if update_cksum r then crc_bits 0 w else 0.

(** [w] was written and more can be. *)
Record wrote_all (r : rio) (w : list Z) : Prop := {
  wa_data : io_data r = w;
  wa_room : io_room r = None;
  wa_sum : summed r w;
  wa_chunk : 0 ≤ max_processing_chunk r
}.

(** [w] was read and [rest] is to come. *)
Record reading (r : rio) (w rest : list Z) : Prop := {
  rd_data : io_data r = w ++ rest;
  rd_pos : io_pos r = len w;
  rd_sum : summed r w;
  rd_chunk : 0 ≤ max_processing_chunk r
}.

Lemma chunk_bounds r n : 0 ≤ max_processing_chunk r → 0 < n → 0 < chunk r n ≤ n.
Proof.
  intros Hm Hn. unfold chunk. destruct (Z.eqb_spec (max_processing_chunk r) 0); cbn [negb andb]; [lia|]. destruct (Z.ltb_spec (max_processing_chunk r) n); lia.
Qed.

Lemma update_ok r w m : summed r w → Forall byte m →
  ∃ r', update r m = Some r' ∧ summed r' (w ++ m) ∧ io_data r' = io_data r ∧ io_pos r' = io_pos r ∧ io_room r' = io_room r ∧
    max_processing_chunk r' = max_processing_chunk r ∧ update_cksum r' = update_cksum r.
Proof.
  intros Hs Hm. unfold update, rioGenericUpdateChecksum. destruct (update_cksum r) eqn:E.
  - rewrite (crc64_crc_bits _ _ Hm). bsimpl. eexists. split; [done|]. unfold summed in *. cbn. rewrite E in *. split; [|done]. by rewrite crc_bits_app, <- Hs.
  - exists r. split; [done|]. split; [|done]. unfold summed in *. by rewrite E in *.
Qed.

Lemma write_loop_ok fuel : ∀ r w m, wrote_all r w → Forall byte m → (length m ≤ fuel)%nat →
  ∃ r', write_loop fuel r m = Some (true, r') ∧ wrote_all r' (w ++ m) ∧ update_cksum r' = update_cksum r.
Proof.
  induction fuel as [|fuel IH]; intros r w m Hr Hm Hf; cbn [write_loop].
  { destruct m; [|cbn in Hf; lia]. exists r. by rewrite app_nil_r. }
  destruct (Z.eqb_spec (len m) 0) as [E|E]; [destruct m; [|cbn in E; lia]; exists r; by rewrite app_nil_r|].
  pose proof (chunk_bounds r (len m) (wa_chunk _ _ Hr) ltac:(lia)) as Hn. cbv zeta. set (n := chunk r (len m)) in *.
  rewrite <- (take_drop (Z.to_nat n) m) in Hm. apply Forall_app in Hm as [Hb Hd]. destruct Hr as [D Rm Sm Ck].
  destruct (update_ok r w _ Sm Hb) as (r1 & -> & S1 & D1 & _ & R1 & C1 & U1). bsimpl. unfold rioBufferWrite. rewrite R1, Rm.
  set (r2 := processed _ n). destruct (IH r2 (w ++ take (Z.to_nat n) m) (drop (Z.to_nat n) m)) as (r3 & -> & H3 & U3); [|done|rewrite length_drop; lia|].
  - split; cbn; [by rewrite D1, D|done|exact S1|by rewrite C1].
  - exists r3. split; [done|]. split; [|cbn in U3; congruence]. by rewrite <- app_assoc, take_drop in H3.
Qed.

Lemma rioWrite_ok r w m : wrote_all r w → Forall byte m → ∃ r', rioWrite r m = Some (true, r') ∧ wrote_all r' (w ++ m) ∧ update_cksum r' = update_cksum r.
Proof. intros Hr Hm. by apply write_loop_ok. Qed.

Lemma read_loop_ok fuel : ∀ r w m rest got, reading r w (m ++ rest) → Forall byte m → (length m ≤ fuel)%nat →
  ∃ r', read_loop fuel r got (len m) = Some (Some (got ++ m), r') ∧ reading r' (w ++ m) rest ∧ update_cksum r' = update_cksum r.
Proof.
  induction fuel as [|fuel IH]; intros r w m rest got Hr Hm Hf; cbn [read_loop].
  { destruct m; [|cbn in Hf; lia]. exists r. by rewrite !app_nil_r. }
  destruct (Z.eqb_spec (len m) 0) as [E|E]; [destruct m; [|cbn in E; lia]; exists r; by rewrite !app_nil_r|].
  pose proof (chunk_bounds r (len m) (rd_chunk _ _ _ Hr) ltac:(lia)) as Hn. cbv zeta. set (n := chunk r (len m)) in *. destruct Hr as [D P Sm Ck].
  unfold rioBufferRead. rewrite D, P, !length_app. rewrite (proj2 (Z.ltb_ge _ _)) by lia. rewrite Nat2Z.id, drop_app_length, take_app_le by lia.
  pose proof Hm as Hm'. rewrite <- (take_drop (Z.to_nat n) m) in Hm. apply Forall_app in Hm as [Hb Hd].
  set (r0 := mkRio _ _ _ _ _ _ _). destruct (update_ok r0 w _ Sm Hb) as (r1 & -> & S1 & D1 & P1 & _ & C1 & U1). bsimpl.
  assert (len m - n = len (drop (Z.to_nat n) m)) as -> by (rewrite length_drop; lia).
  destruct (IH (processed r1 n) (w ++ take (Z.to_nat n) m) (drop (Z.to_nat n) m) rest (got ++ take (Z.to_nat n) m)) as (r3 & -> & H3 & U3); [|done|rewrite length_drop; lia|].
  - split; cbn.
    + rewrite D1. cbn. by rewrite <- app_assoc, (app_assoc (take _ _)), take_drop.
    + rewrite P1. cbn. rewrite length_app, length_take. lia.
    + exact S1.
    + rewrite C1. exact Ck.
  - exists r3. split; [by rewrite <- app_assoc, take_drop|]. split; [by rewrite <- app_assoc, take_drop in H3|]. cbn in U3. by rewrite U3, U1.
Qed.

Lemma rioRead_ok r w m rest n : reading r w (m ++ rest) → Forall byte m → n = len m →
  ∃ r', rioRead r n = Some (Some m, r') ∧ reading r' (w ++ m) rest ∧ update_cksum r' = update_cksum r.
Proof. intros Hr Hm ->. unfold rioRead. rewrite Nat2Z.id. by apply (read_loop_ok (length m) r w m rest []). Qed.

Lemma read_loop_short fuel : ∀ r w rest got n, reading r w rest → Forall byte rest → len rest < n ≤ Z.of_nat fuel →
  ∃ r' m rest', read_loop fuel r got n = Some (None, r') ∧ rest = m ++ rest' ∧ reading r' (w ++ m) rest' ∧ update_cksum r' = update_cksum r.
Proof.
  induction fuel as [|fuel IH]; intros r w rest got n Hr Hb Hn; cbn [read_loop]; [lia|]. rewrite (proj2 (Z.eqb_neq n 0)) by lia.
  pose proof (chunk_bounds r n (rd_chunk _ _ _ Hr) ltac:(lia)) as Hk. cbv zeta. set (k := chunk r n) in *. pose proof (rd_data _ _ _ Hr) as D. pose proof (rd_pos _ _ _ Hr) as P.
  unfold rioBufferRead. rewrite D, P, length_app. destruct (Z.ltb_spec (Z.of_nat (length w + length rest) - len w) k) as [Hlt|Hge].
  { exists r, [], rest. rewrite app_nil_r. done. }
  rewrite Nat2Z.id, drop_app_length. assert (len (take (Z.to_nat k) rest) = k) as Lm by (rewrite length_take; lia).
  pose proof (take_drop (Z.to_nat k) rest) as Em. set (m := take (Z.to_nat k) rest) in *. set (d := drop (Z.to_nat k) rest) in *. clearbody m d. subst rest. apply Forall_app in Hb as [Hm Hd]. rewrite length_app in *.
  set (r0 := mkRio _ _ _ _ _ _ _). destruct (update_ok r0 w m (rd_sum _ _ _ Hr) Hm) as (r1 & -> & S1 & D1 & P1 & _ & C1 & U1). bsimpl.
  destruct (IH (processed r1 k) (w ++ m) d (got ++ m) (n - k)) as (r3 & m' & rest' & -> & -> & R3 & U3); [|done|lia|].
  - split; cbn; [by rewrite D1; cbn; rewrite <- app_assoc|rewrite P1; cbn; rewrite length_app; lia|exact S1|rewrite C1; apply (rd_chunk _ _ _ Hr)].
  - exists r3, (m ++ m'), rest'. split; [done|]. split; [by rewrite app_assoc|]. rewrite app_assoc. split; [done|]. cbn in U3. by rewrite U3, U1.
Qed.

(** Whatever is to come, reading ends and takes a part of it. *)
Lemma rioRead_any r w rest n : reading r w rest → Forall byte rest → 0 ≤ n →
  ∃ b r' m rest', rioRead r n = Some (b, r') ∧ rest = m ++ rest' ∧ reading r' (w ++ m) rest' ∧ update_cksum r' = update_cksum r ∧
    match b with Some b => b = m ∧ len b = n | None => len rest < n end.
Proof.
  intros Hr Hb Hn. destruct (Z.le_gt_cases n (len rest)).
  - rewrite <- (take_drop (Z.to_nat n) rest) in Hr, Hb. apply Forall_app in Hb as [Hb _].
    destruct (rioRead_ok r w _ _ n Hr Hb) as (r' & -> & R & U); [rewrite length_take; lia|].
    eexists _, r', _, _. split; [done|]. split; [symmetry; apply take_drop|]. split; [done|]. split; [done|]. split; [done|]. rewrite length_take. lia.
  - destruct (read_loop_short (Z.to_nat n) r w rest [] n Hr Hb) as (r' & m & rest' & E & H1 & H2 & H3); [lia|].
    exists None, r', m, rest'. unfold rioRead. done.
Qed.
