(* ===== verification/Rdb.v ===== *)
(** * Dump files: [rdb.c]

    What is written to a stream and read from it, for databases of strings.
    String objects are taken by value, by their encoding and their content;
    the dictionary of a database is given to the saver as its entries in the
    order the iterator returns them, with the time each key expires at or -1.
    Loading stops at the first value of another type, with a result of its own.
    Allocation does not fail.
    Files are opened, renamed and closed elsewhere. *)

From S2P Require Import Prelude Endian Util Crc64 Lzf Sds Object Number Client Value Rio.
From stdpp Require Import gmap.
Local Open Scope Z_scope.

Definition REDIS_RDB_VERSION : Z := 6.
Definition REDIS_RDB_6BITLEN : Z := 0.
Definition REDIS_RDB_14BITLEN : Z := 1.
Definition REDIS_RDB_32BITLEN : Z := 2.
Definition REDIS_RDB_ENCVAL : Z := 3.
Definition REDIS_RDB_LENERR : Z := 2 ^ 32 - 1.
Definition REDIS_RDB_ENC_INT8 : Z := 0.
Definition REDIS_RDB_ENC_INT16 : Z := 1.
Definition REDIS_RDB_ENC_INT32 : Z := 2.
Definition REDIS_RDB_ENC_LZF : Z := 3.
Definition REDIS_RDB_TYPE_STRING : Z := 0.
Definition REDIS_RDB_OPCODE_EXPIRETIME_MS : Z := 252.
Definition REDIS_RDB_OPCODE_EXPIRETIME : Z := 253.
Definition REDIS_RDB_OPCODE_SELECTDB : Z := 254.
Definition REDIS_RDB_OPCODE_EOF : Z := 255.
Definition rdbIsObjectType (t : Z) : bool := ((t >=? 0) && (t <=? 4)) || ((t >=? 9) && (t <=? 13)).

(** ** Operations on a stream *)

(** A result, a return of -1 or [NULL], or a panic. *)
Inductive outcome (A : Type) := Done (a : A) | Failed | Panicked.
Arguments Done {A}.
Arguments Failed {A}.
Arguments Panicked {A}.

(** [None] is an access out of bounds. *)
Definition io (A : Type) : Type := rio → option (outcome A * rio).
#[export] Instance io_ret : MRet io := λ A a r, Some (Done a, r).
#[export] Instance io_bind : MBind io := λ A B f m r,
  match m r with
  | Some (Done a, r) => f a r
  | Some (Failed, r) => Some (Failed, r)
  | Some (Panicked, r) => Some (Panicked, r)
  | None => None
  end.
Definition io_fail {A} : io A := λ r, Some (Failed, r).
Definition io_panic {A} : io A := λ r, Some (Panicked, r).
Definition io_lift {A} (m : option A) : io A := λ r, a ← m; Some (Done a, r).

(** Bytes, or nothing on a short read. *)
Definition try_read (n : Z) : io (option (list Z)) := λ r, '(b, r) ← rioRead r n; Some (Done b, r).
Definition io_read (n : Z) : io (list Z) := b ← try_read n; match b with Some b => mret b | None => io_fail end.

Definition rdbWriteRaw (m : list Z) : io Z := λ r, '(ok, r) ← rioWrite r m; Some (if ok : bool then Done (len m) else Failed, r).

Section rdb.
Context `{Host}.
(** The uninitialised memory of the buffer and the table of the compressor. *)
Context (junk : nat → Z) (tab : LZF_STATE).
Context (rdb_compression rdb_checksum : bool).

Definition rdbSaveType (type : Z) : io Z := rdbWriteRaw [u8 type].

Definition rdbLoadType : io Z := b ← io_read 1; io_lift (mget b 0).

Definition rdbLoadTime : io Z := b ← io_read 4; mret (s32 (host_val b)).

Definition rdbSaveMillisecondTime (t : Z) : io Z := rdbWriteRaw (host_bytes 8 t).

Definition rdbLoadMillisecondTime : io Z := b ← io_read 8; mret (s64 (host_val b)).

(** ** Lengths *)

Definition rdbSaveLen (n : Z) : io Z :=
  let n := u32 n in
  if n <? Z.shiftl 1 6 then rdbWriteRaw [Z.lor (Z.land n 255) (Z.shiftl REDIS_RDB_6BITLEN 6)];; mret 1
  else if n <? Z.shiftl 1 14 then
    rdbWriteRaw [Z.lor (Z.land (Z.shiftr n 8) 255) (Z.shiftl REDIS_RDB_14BITLEN 6); Z.land n 255];; mret 2
  else
    rdbWriteRaw [Z.shiftl REDIS_RDB_32BITLEN 6];;
    (* [htonl] *)
    rdbWriteRaw (reverse (le_bytes 4 n));; mret 5.

(** Whether it is the number of an encoding, and the length. *)
Definition rdbLoadLen : io (bool * Z) :=
  b ← try_read 1;
  match b with
  | None => mret (false, REDIS_RDB_LENERR)
  | Some b =>
      x ← io_lift (mget b 0);
      let type := Z.shiftr (Z.land x 192) 6 in
      if type =? REDIS_RDB_ENCVAL then mret (true, Z.land x 63)
      else if type =? REDIS_RDB_6BITLEN then mret (false, Z.land x 63)
      else if type =? REDIS_RDB_14BITLEN then
        b ← try_read 1;
        match b with
        | None => mret (false, REDIS_RDB_LENERR)
        | Some b => y ← io_lift (mget b 0); mret (false, Z.lor (Z.shiftl (Z.land x 63) 8) y)
        end
      else
        b ← try_read 4;
        match b with
        | None => mret (false, REDIS_RDB_LENERR)
        | Some b => mret (false, le_val (reverse b))
        end
  end.

(** ** Integers as strings *)

(** The bytes, none for 0. *)
Definition rdbEncodeInteger (value : Z) : list Z :=
  let tag e := Z.lor (Z.shiftl REDIS_RDB_ENCVAL 6) e in
  let at_ k := Z.land (Z.shiftr value k) 255 in
  if (value >=? - Z.shiftl 1 7) && (value <=? Z.shiftl 1 7 - 1) then [tag REDIS_RDB_ENC_INT8; at_ 0]
  else if (value >=? - Z.shiftl 1 15) && (value <=? Z.shiftl 1 15 - 1) then [tag REDIS_RDB_ENC_INT16; at_ 0; at_ 8]
  else if (value >=? - Z.shiftl 1 31) && (value <=? Z.shiftl 1 31 - 1) then [tag REDIS_RDB_ENC_INT32; at_ 0; at_ 8; at_ 16; at_ 24]
  else [].

Definition rdbLoadIntegerObject (enctype : Z) (encode : bool) : io sobj :=
  val ← (if enctype =? REDIS_RDB_ENC_INT8 then b ← io_read 1; x ← io_lift (mget b 0); mret (swrap 8 x)
         else if enctype =? REDIS_RDB_ENC_INT16 then
           b ← io_read 2; x ← io_lift (mget b 0); y ← io_lift (mget b 1); mret (s16 (Z.lor x (Z.shiftl y 8)))
         else if enctype =? REDIS_RDB_ENC_INT32 then
           b ← io_read 4; x ← io_lift (mget b 0); y ← io_lift (mget b 1); z ← io_lift (mget b 2); w ← io_lift (mget b 3);
           mret (s32 (Z.lor (Z.lor (Z.lor x (Z.shiftl y 8)) (Z.shiftl z 16)) (Z.shiftl w 24)))
         else io_panic);
  if encode then mret (SInt val) else t ← io_lift (digits_of val); mret (SRaw t).

(** [s] is followed by a NUL. *)
Definition rdbTryIntegerEncoding (s : list Z) : option (list Z) :=
  '(value, endptr, _) ← strtoll (s ++ [0]);
  x ← (s ++ [0]) !! endptr;
  if negb (x =? 0) then Some []
  else
    '(b, n) ← ll2string (replicate 32 0) 32 value;
    d ← mread b 0 n;
    if negb (n =? len s) || negb (bool_decide (d = s)) then Some [] else Some (rdbEncodeInteger value).

(** ** Strings *)

(** 0 if the string was not written. *)
Definition rdbSaveLzfStringObject (s : list Z) : io Z :=
  if len s <=? 4 then mret 0
  else
    let outlen := len s - 4 in
    '(comprlen, out) ← io_lift (lzf_compress tab s (junk <$> seq 0 (Z.to_nat (outlen + 1))) outlen);
    if comprlen =? 0 then mret 0
    else
      n1 ← rdbWriteRaw [Z.lor (Z.shiftl REDIS_RDB_ENCVAL 6) REDIS_RDB_ENC_LZF];
      n2 ← rdbSaveLen comprlen;
      n3 ← rdbSaveLen (len s);
      m ← io_lift (mread out 0 comprlen);
      n4 ← rdbWriteRaw m;
      mret (n1 + n2 + n3 + n4).

Definition rdbLoadLzfStringObject : io sobj :=
  '(_, clen) ← rdbLoadLen;
  if clen =? REDIS_RDB_LENERR then io_fail
  else
    '(_, len) ← rdbLoadLen;
    if len =? REDIS_RDB_LENERR then io_fail
    else
      c ← io_read clen;
      '(n, _, val) ← io_lift (lzf_decompress c (replicate (Z.to_nat len) 0));
      if n =? 0 then io_fail else mret (SRaw val).

Definition rdbSaveRawString (s : list Z) : io Z :=
  enc ← (if len s <=? 11 then io_lift (rdbTryIntegerEncoding s) else mret []);
  if 0 <? len enc then rdbWriteRaw enc
  else
    n ← (if rdb_compression && (20 <? len s) then rdbSaveLzfStringObject s else mret 0);
    if 0 <? n then mret n
    else
      n ← rdbSaveLen (len s);
      if 0 <? len s then n2 ← rdbWriteRaw s; mret (n + n2) else mret n.

Definition rdbSaveLongLongAsStringObject (value : Z) : io Z :=
  let enc := rdbEncodeInteger value in
  if 0 <? len enc then rdbWriteRaw enc
  else
    d ← io_lift (digits_of value);
    (* [enclen] is less than 32 *)
    n1 ← rdbSaveLen (len d);
    n2 ← rdbWriteRaw d;
    mret (n1 + n2).

Definition rdbSaveStringObject (o : sobj) : io Z :=
  match o with SInt v => rdbSaveLongLongAsStringObject v | SRaw t => rdbSaveRawString t end.

Definition rdbGenericLoadStringObject (encode : bool) : io sobj :=
  '(isencoded, n) ← rdbLoadLen;
  if isencoded : bool then
    if (n =? REDIS_RDB_ENC_INT8) || (n =? REDIS_RDB_ENC_INT16) || (n =? REDIS_RDB_ENC_INT32) then rdbLoadIntegerObject n encode
    else if n =? REDIS_RDB_ENC_LZF then rdbLoadLzfStringObject
    else io_panic
  else if n =? REDIS_RDB_LENERR then io_fail
  else if n =? 0 then mret (SRaw [])
  else val ← io_read n; mret (SRaw val).

Definition rdbLoadStringObject : io sobj := rdbGenericLoadStringObject false.
Definition rdbLoadEncodedStringObject : io sobj := rdbGenericLoadStringObject true.

(** ** Saving *)

Record entry := mkEntry { e_key : list Z; e_val : sobj; e_expire : Z }.

(** 1 if the key was saved, 0 if it is past its time. *)
Definition rdbSaveKeyValuePair (e : entry) (now : Z) : io Z :=
  if negb (e_expire e =? -1) && (e_expire e <? now) then mret 0
  else
    (if negb (e_expire e =? -1) then rdbSaveType REDIS_RDB_OPCODE_EXPIRETIME_MS;; rdbSaveMillisecondTime (e_expire e);; mret tt else mret tt);;
    rdbSaveType REDIS_RDB_TYPE_STRING;;
    rdbSaveStringObject (SRaw (e_key e));;
    rdbSaveStringObject (e_val e);;
    mret 1.

Fixpoint save_entries (l : list entry) (now : Z) : io unit :=
  match l with [] => mret tt | e :: l => rdbSaveKeyValuePair e now;; save_entries l now end.

Fixpoint save_dbs (j : Z) (dbs : list (list entry)) (now : Z) : io unit :=
  match dbs with
  | [] => mret tt
  | [] :: dbs => save_dbs (j + 1) dbs now
  | l :: dbs =>
      rdbSaveType REDIS_RDB_OPCODE_SELECTDB;;
      rdbSaveLen j;;
      save_entries l now;;
      save_dbs (j + 1) dbs now
  end.

Definition set_update (b : bool) : io unit := λ r,
  Some (Done tt, mkRio (io_data r) (io_pos r) (io_room r) b (cksum r) (processed_bytes r) (max_processing_chunk r)).
Definition get_cksum : io Z := λ r, Some (Done (cksum r), r).

Definition rdbSaveRio (dbs : list (list entry)) (now : Z) : io unit :=
  (if rdb_checksum then set_update true else mret tt);;
  rdbWriteRaw (str "REDIS" ++ [48; 48; 48; 48 + REDIS_RDB_VERSION]);;
  save_dbs 0 dbs now;;
  rdbSaveType REDIS_RDB_OPCODE_EOF;;
  c ← get_cksum;
  m ← io_lift (memrev64ifbe (host_bytes 8 c));
  rdbWriteRaw m;;
  mret tt.

(** ** Loading *)

Context (masterhost : bool) (now interval : Z).

(** Nothing at a value that is no string. *)
Definition rdbLoadObject (rdbtype : Z) : io (option sobj) :=
  if rdbtype =? REDIS_RDB_TYPE_STRING then o ← rdbLoadEncodedStringObject; mret (Some (encoded o))
  else if rdbIsObjectType rdbtype then mret None
  else io_panic.

(** A database: the values and the times of its keys. *)
Record database := mkDatabase { d_vals : gmap (list Z) sobj; d_exps : gmap (list Z) Z }.

(** [dbAdd], which asserts that the key is new, and [setExpire]. *)
Definition add_key (dbs : list database) (db : nat) (k : list Z) (v : sobj) (expiretime : Z) : io (list database) :=
  d ← io_lift (dbs !! db);
  match d_vals d !! k with
  | Some _ => io_panic
  | None => mret (<[db := mkDatabase (<[k := v]> (d_vals d)) (if expiretime =? -1 then d_exps d else <[k := expiretime]> (d_exps d))]> dbs)
  end.

(** What one turn of the loop ends with: the end mark, the next turn, an exit,
    or a value of another type. *)
Inductive turn := Eof | Next (db : nat) (dbs : list database) | Exits | Other.

Definition load_turn (db : nat) (dbs : list database) : io turn :=
  type ← rdbLoadType;
  '(type, expiretime) ← (if type =? REDIS_RDB_OPCODE_EXPIRETIME then
                           t ← rdbLoadTime; if t =? -1 then io_fail else type ← rdbLoadType; mret (type, t * 1000)
                         else if type =? REDIS_RDB_OPCODE_EXPIRETIME_MS then
                           t ← rdbLoadMillisecondTime; if t =? -1 then io_fail else type ← rdbLoadType; mret (type, t)
                         else mret (type, -1));
  if type =? REDIS_RDB_OPCODE_EOF then mret Eof
  else if type =? REDIS_RDB_OPCODE_SELECTDB then
    '(_, dbid) ← rdbLoadLen;
    if dbid =? REDIS_RDB_LENERR then io_fail
    else if len dbs <=? dbid then mret Exits
    else mret (Next (Z.to_nat dbid) dbs)
  else
    key ← rdbLoadStringObject;
    val ← rdbLoadObject type;
    match val with
    | None => mret Other
    | Some val =>
        if negb masterhost && negb (expiretime =? -1) && (expiretime <? now) then mret (Next db dbs)
        else
          match key with
          | SRaw k => dbs ← add_key dbs db k val expiretime; mret (Next db dbs)
          | SInt _ => io_panic
          end
    end.

(** The databases, [REDIS_ERR], an exit, a panic, or a value of another type in
    the file, where the model stops. *)
Inductive load_result := Loaded (dbs : list database) | Refused | Exited | Aborted | Unread.

Fixpoint load_loop (fuel : nat) (rdbver : Z) (db : nat) (dbs : list database) (r : rio) : option load_result :=
  match fuel with
  | O => None
  | S fuel =>
      '(o, r) ← load_turn db dbs r;
      match o with
      | Failed => Some Exited
      | Panicked => Some Aborted
      | Done Exits => Some Exited
      | Done Other => Some Unread
      | Done (Next db dbs) => load_loop fuel rdbver db dbs r
      | Done Eof =>
          if (rdbver >=? 5) && rdb_checksum then
            let expected := cksum r in
            '(b, _) ← rioRead r 8;
            match b with
            | None => Some Exited
            | Some b =>
                m ← memrev64ifbe b;
                let c := host_val m in
                Some (if c =? 0 then Loaded dbs else if negb (c =? expected) then Exited else Loaded dbs)
            end
          else Some (Loaded dbs)
      end
  end.

(** The file [data], into [dbs]. *)
Definition rdbLoad (data : list Z) (dbs : list database) : option load_result :=
  let r := mkRio data 0 None rdb_checksum 0 0 interval in
  '(b, r) ← rioRead r 9;
  match b with
  | None => Some Exited
  | Some b =>
      if negb (bool_decide (take 5 b = str "REDIS")) then Some Refused
      else
        '(v, _, _) ← strtoll (drop 5 b ++ [0]);
        let rdbver := s32 v in
        if (rdbver <? 1) || (REDIS_RDB_VERSION <? rdbver) then Some Refused
        else load_loop (length data) rdbver 0 dbs r
  end.
End rdb.
