(* ===== verification/RdbSpec.v ===== *)
(** * Dump files: what is written, and reading it back

    [emits m a w]: [m] returns [a] and writes [w], or fails when the file is
    full, with a part of [w] written.  [decodes m a w]: [m] reads [w], which
    may be followed by anything, and returns [a].  Both compose over the
    operations on streams. *)

From S2P Require Import Prelude Endian Util Crc64 Lzf Sds Object Number Client Value Rio Rdb.
From stdpp Require Import gmap.
Local Open Scope Z_scope.

(** ** Writing *)

Record out_ok (r : rio) (w : list Z) : Prop := {
  oo_data : io_data r = w;
  oo_sum : summed r w;
  oo_room : match io_room r with None => True | Some k => 0 ≤ k end;
  oo_chunk : 0 ≤ max_processing_chunk r
}.

Definition has_room (room : option Z) (n : Z) : Prop := match room with None => True | Some k => n ≤ k end.
Definition less (room : option Z) (n : Z) : option Z := (λ k, k - n) <$> room.

(** After [w0] and [w]; the room was [room]. *)
Definition written (r r' : rio) (w0 w : list Z) : Prop :=
  out_ok r' (w0 ++ w) ∧ io_room r' = less (io_room r) (len w) ∧ update_cksum r' = update_cksum r.

Definition cut (r r' : rio) (w0 w : list Z) : Prop :=
  ¬ has_room (io_room r) (len w) ∧ ∃ w', w' `prefix_of` w ∧ io_data r' = w0 ++ w'.

(** From a stream on which [w0] was written; [u] says whether a checksum is
    computed. *)
Definition emits_at {A} (u : bool) (w0 : list Z) (m : io A) (a : A) (w : list Z) : Prop :=
  ∀ r, out_ok r w0 → update_cksum r = u →
    (∃ r', m r = Some (Done a, r') ∧ has_room (io_room r) (len w) ∧ written r r' w0 w) ∨
    (∃ r', m r = Some (Failed, r') ∧ cut r r' w0 w).

Definition emits {A} (m : io A) (a : A) (w : list Z) : Prop := ∀ u w0, emits_at u w0 m a w.

Lemma less_0 room : less room 0 = room.
Proof. destruct room as [k|]; [|done]. cbn. f_equal. lia. Qed.

Lemma less_less room a b : less (less room a) b = less room (a + b).
Proof. destruct room as [k|]; [|done]. cbn. f_equal. lia. Qed.

Lemma has_room_less room a b : 0 ≤ b → has_room room a → has_room (less room a) b ↔ has_room room (a + b).
Proof. destruct room as [k|]; cbn; intros; [lia|done]. Qed.

Lemma has_room_le room a b : a ≤ b → has_room room b → has_room room a.
Proof. destruct room as [k|]; cbn; intros; [lia|done]. Qed.

Lemma has_room_dec room n : has_room room n ∨ ¬ has_room room n.
Proof. destruct room as [k|]; cbn; [lia|by left]. Qed.

Lemma written_nil r w0 : out_ok r w0 → has_room (io_room r) 0 ∧ written r r w0 [].
Proof. intros Ho. unfold written, has_room. rewrite app_nil_r, less_0. split; [apply (oo_room _ _ Ho)|done]. Qed.

Lemma emits_ret {A} (a : A) : emits (mret a) a [].
Proof. intros u w0 r Ho _. left. exists r. split; [done|]. by apply written_nil. Qed.

Lemma emits_at_bind {A B} u w0 (m : io A) (f : A → io B) a b w1 w2 :
  emits_at u w0 m a w1 → emits_at u (w0 ++ w1) (f a) b w2 → emits_at u w0 (m ≫= f) b (w1 ++ w2).
Proof.
  intros Hm Hf r Ho Hu. unfold mbind, io_bind. destruct (Hm r Ho Hu) as [(r1 & -> & H1 & O1 & R1 & U1)|(r1 & -> & C1 & w' & P1 & D1)].
  - destruct (Hf r1 O1) as [(r2 & -> & H2 & O2 & R2 & U2)|(r2 & -> & C2 & w' & P2 & D2)]; [congruence|left|right]; exists r2; (split; [done|]); rewrite R1 in *.
    + rewrite has_room_less in H2 by (done || lia). rewrite length_app, Nat2Z.inj_add. split; [done|].
      split; [by rewrite app_assoc|]. rewrite R2, less_less, U2, U1, length_app, Nat2Z.inj_add. done.
    + rewrite has_room_less in C2 by (done || lia). split; [by rewrite length_app, Nat2Z.inj_add|].
      exists (w1 ++ w'). split; [by apply prefix_app|by rewrite app_assoc].
  - right. exists r1. split; [done|]. split; [|exists w'; split; [by apply prefix_app_r|done]].
    intros Hr. apply C1. eapply has_room_le; [|exact Hr]. rewrite length_app. lia.
Qed.

Lemma writes_bind {A B} (m : io A) (f : A → io B) a b w1 w2 : emits m a w1 → emits (f a) b w2 → emits (m ≫= f) b (w1 ++ w2).
Proof. intros Hm Hf u w0. eapply emits_at_bind; [apply Hm|apply Hf]. Qed.

Lemma emits_lift {A B} (v : option A) (f : A → io B) a b w : v = Some a → emits (f a) b w → emits (io_lift v ≫= f) b w.
Proof. intros -> Hf u w0. unfold emits_at, mbind, io_bind, io_lift. bsimpl. exact (Hf u w0). Qed.

Lemma get_cksum_emits u w0 : emits_at u w0 get_cksum (if u then crc_bits 0 w0 else 0) [].
Proof. intros r Ho <-. left. exists r. unfold get_cksum. rewrite (oo_sum _ _ Ho). split; [done|]. by apply written_nil. Qed.

Lemma write_loop_emits fuel : ∀ r w0 m, out_ok r w0 → Forall byte m → (length m ≤ fuel)%nat →
  (∃ r', write_loop fuel r m = Some (true, r') ∧ has_room (io_room r) (len m) ∧ written r r' w0 m) ∨
  (∃ r', write_loop fuel r m = Some (false, r') ∧ cut r r' w0 m).
Proof.
  induction fuel as [|fuel IH]; intros r w0 m Ho Hm Hf; cbn [write_loop].
  { destruct m; [|cbn in Hf; lia]. left. exists r. split; [done|]. by apply written_nil. }
  destruct (Z.eqb_spec (len m) 0) as [E|E]; [destruct m; [|cbn in E; lia]; left; exists r; split; [done|]; by apply written_nil|].
  pose proof (chunk_bounds r (len m) (oo_chunk _ _ Ho) ltac:(lia)) as Hn. cbv zeta. set (n := chunk r (len m)) in *.
  set (b := take (Z.to_nat n) m). set (d := drop (Z.to_nat n) m). assert (m = b ++ d) as Em by (symmetry; apply take_drop).
  assert (len b = n) as Lb by (unfold b; rewrite length_take; lia). assert (len d = len m - n) as Ld by (unfold d; rewrite length_drop; lia).
  clearbody b d n. rewrite Em in Hm. apply Forall_app in Hm as [Hb Hd]. destruct Ho as [D Sm Rm Ck].
  destruct (update_ok r w0 _ Sm Hb) as (r1 & -> & S1 & D1 & _ & R1 & C1 & U1). bsimpl. unfold rioBufferWrite. rewrite R1, Lb.
  assert (¬ has_room (io_room r) n → cut r r1 w0 m) as Hcut.
  { intros Hno. split; [intros Hr; apply Hno; eapply has_room_le; [|exact Hr]; lia|]. exists []. split; [apply prefix_nil|by rewrite app_nil_r, D1]. }
  assert (∀ room', room' = less (io_room r) n → has_room (io_room r) n →
    let r2 := processed (mkRio (io_data r1 ++ b) (io_pos r1 + n) room' (update_cksum r1) (cksum r1) (processed_bytes r1) (max_processing_chunk r1)) n in
    (∃ r', write_loop fuel r2 d = Some (true, r') ∧ has_room (io_room r) (len m) ∧ written r r' w0 m) ∨
    (∃ r', write_loop fuel r2 d = Some (false, r') ∧ cut r r' w0 m)) as Hgo.
  { intros room' -> Hr r2. assert (out_ok r2 (w0 ++ b)) as O2.
    { split; cbn; [by rewrite D1, D|exact S1| |by rewrite C1]. destruct (io_room r); cbn in *; [lia|done]. }
    assert (length d ≤ fuel)%nat as Lf by lia.
    destruct (IH r2 (w0 ++ b) d O2 Hd Lf) as [(r3 & E3 & H3 & O3 & R3 & U3)|(r3 & E3 & C3 & w' & P3 & D3)]; [left|right]; exists r3; (split; [exact E3|]).
    - cbn [io_room r2 processed] in H3, R3. rewrite has_room_less in H3 by (done || lia). replace (n + len d) with (len m) in H3 by lia. split; [done|].
      split; [by rewrite Em, app_assoc|]. rewrite R3, less_less. split; [f_equal; lia|]. cbn in U3. congruence.
    - cbn [io_room r2 processed] in C3. rewrite has_room_less in C3 by (done || lia). replace (n + len d) with (len m) in C3 by lia. split; [done|].
      exists (b ++ w'). split; [rewrite Em; by apply prefix_app|by rewrite app_assoc]. }
  destruct (io_room r) as [k|] eqn:Er; [|by apply Hgo]. destruct (Z.ltb_spec k n) as [Hk|Hk]; [right|apply Hgo; [done|cbn; lia]].
  exists r1. split; [done|]. apply Hcut. cbn. lia.
Qed.

Lemma rdbWriteRaw_emits m n : Forall byte m → n = len m → emits (rdbWriteRaw m) n m.
Proof.
  intros Hm -> u w0 r Ho _. unfold rdbWriteRaw, rioWrite. destruct (write_loop_emits (length m) r w0 m Ho Hm) as [(r' & -> & H)|(r' & -> & H)]; [lia|left|right]; by exists r'.
Qed.

(** ** Reading *)

Definition decodes {A} (m : io A) (a : A) (w : list Z) : Prop :=
  ∀ r pre rest, reading r pre (w ++ rest) → ∃ r', m r = Some (Done a, r') ∧ reading r' (pre ++ w) rest ∧ update_cksum r' = update_cksum r.

Lemma decodes_ret {A} (a : A) : decodes (mret a) a [].
Proof. intros r pre rest Hr. exists r. by rewrite app_nil_r. Qed.

Lemma decodes_bind {A B} (m : io A) (f : A → io B) a b w1 w2 : decodes m a w1 → decodes (f a) b w2 → decodes (m ≫= f) b (w1 ++ w2).
Proof.
  intros Hm Hf r pre rest Hr. rewrite <- app_assoc in Hr. destruct (Hm r pre _ Hr) as (r1 & E1 & H1 & U1). destruct (Hf r1 _ _ H1) as (r2 & E2 & H2 & U2).
  exists r2. unfold mbind, io_bind. rewrite E1, E2. rewrite app_assoc, U2, U1. done.
Qed.

Lemma decodes_lift {A B} (v : option A) (f : A → io B) a b w : v = Some a → decodes (f a) b w → decodes (io_lift v ≫= f) b w.
Proof. intros -> Hf. unfold mbind, io_bind, io_lift. bsimpl. exact Hf. Qed.

Lemma try_read_decodes m n : Forall byte m → n = len m → decodes (try_read n) (Some m) m.
Proof. intros Hm Hn r pre rest Hr. destruct (rioRead_ok r pre m rest n Hr Hm Hn) as (r' & E & H). exists r'. unfold try_read. by rewrite E. Qed.

Lemma io_read_decodes m n : Forall byte m → n = len m → decodes (io_read n) m m.
Proof. intros Hm Hn. rewrite <- (app_nil_r m) at 2. eapply decodes_bind; [by apply try_read_decodes|]. apply decodes_ret. Qed.

(** ** Lengths *)

Lemma le_bytes_byte n v : 0 ≤ n → Forall byte (le_bytes n v).
Proof. apply le_bytes_range. Qed.

Lemma lor_tag x t : 0 ≤ x < 64 → 0 ≤ t → Z.lor x (Z.shiftl t 6) = t * 64 + x.
Proof. intros Hx Ht. rewrite Z.shiftl_mul_pow2, Z.lor_comm by lia. by apply (lor_low 6). Qed.

Lemma tag_parts x t : 0 ≤ x < 64 → 0 ≤ t < 4 → Z.shiftr (Z.land (t * 64 + x) 192) 6 = t ∧ Z.land (t * 64 + x) 63 = x.
Proof.
  intros Hx Ht. change 63 with (2 ^ 6 - 1). rewrite (land_mask (t * 64 + x) 6), Z.shiftr_land, Z.shiftr_div_pow2 by lia.
  change (192 ≫ 6) with (2 ^ 2 - 1). rewrite (land_mask _ 2) by lia. change (2 ^ 6) with 64. change (2 ^ 2) with 4.
  rewrite Z.div_add_l, (Z.div_small x 64), Z.add_0_r, (Z.mod_small t), (Z.add_comm _ x), Z_mod_plus_full, Z.mod_small by lia. done.
Qed.

Lemma decodes_cons {B} (f : option (list Z) → io B) m n b w :
  Forall byte m → n = len m → decodes (f (Some m)) b w → decodes (try_read n ≫= f) b (m ++ w).
Proof. intros Hm Hn Hf. eapply decodes_bind; [by apply try_read_decodes|exact Hf]. Qed.

(** The first byte of a length, and what follows it. *)
Lemma rdbLoadLen_tag x t y w : 0 ≤ x < 64 → 0 ≤ t < 4 → decodes
    (if t =? REDIS_RDB_ENCVAL then mret (true, x)
     else if t =? REDIS_RDB_6BITLEN then mret (false, x)
     else if t =? REDIS_RDB_14BITLEN then
       b ← try_read 1;
       match b with
       | None => mret (false, REDIS_RDB_LENERR)
       | Some b => y ← io_lift (mget b 0); mret (false, Z.lor (Z.shiftl x 8) y)
       end
     else
       b ← try_read 4;
       match b with
       | None => mret (false, REDIS_RDB_LENERR)
       | Some b => mret (false, le_val (reverse b))
       end) y w →
  decodes rdbLoadLen y ([t * 64 + x] ++ w).
Proof.
  intros Hx Ht Hf. unfold rdbLoadLen. apply decodes_cons; [constructor; [unfold byte; lia|constructor]|done|]. cbv beta iota.
  eapply decodes_lift; [apply mget_head|]. cbv zeta. destruct (tag_parts x t Hx Ht) as [-> ->]. exact Hf.
Qed.

Lemma bytes_one x : 0 ≤ x < 256 → Forall byte [x].
Proof. intros. constructor; [done|constructor]. Qed.

Lemma rdbSaveLen_ok n : 0 ≤ n < 2 ^ 32 → ∃ w k, emits (rdbSaveLen n) k w ∧ 0 < k ∧ Forall byte w ∧ decodes rdbLoadLen (false, n) w.
Proof.
  intros Hn. unfold rdbSaveLen. rewrite (uwrap_small 32) by done. cbv zeta. change (Z.shiftl 1 6) with 64. change (Z.shiftl 1 14) with 16384.
  unfold REDIS_RDB_6BITLEN, REDIS_RDB_14BITLEN, REDIS_RDB_32BITLEN. change 255 with (2 ^ 8 - 1).
  destruct (Z.ltb_spec n 64) as [H1|H1]; [|destruct (Z.ltb_spec n 16384) as [H2|H2]].
  - rewrite (land_mask _ 8), Z.mod_small, lor_tag by lia. assert (Forall byte [0 * 64 + n]) as Hb by (apply bytes_one; lia).
    exists ([0 * 64 + n] ++ []), 1. split; [|split; [lia|split; [by rewrite app_nil_r|]]].
    + eapply writes_bind; [by apply rdbWriteRaw_emits|apply emits_ret].
    + apply rdbLoadLen_tag; [lia..|]. apply decodes_ret.
  - rewrite !(land_mask _ 8), Z.shiftr_div_pow2 by lia. change (2 ^ 8) with 256.
    set (x := n / 256). set (y := n mod 256). assert (0 ≤ x < 64 ∧ 0 ≤ y < 256 ∧ x * 256 + y = n) as (Hx & Hy & Exy).
    { unfold x, y. pose proof (Z.mod_pos_bound n 256). pose proof (Z.div_mod n 256). lia. }
    clearbody x y. subst n. rewrite (Z.mod_small x), lor_tag by lia.
    assert (Forall byte [1 * 64 + x; y]) as Hb by (constructor; [unfold byte; lia|by apply bytes_one]).
    exists ([1 * 64 + x; y] ++ []), 2. split; [|split; [lia|split; [by rewrite app_nil_r|]]].
    + eapply writes_bind; [by apply rdbWriteRaw_emits|apply emits_ret].
    + change ([1 * 64 + x; y] ++ []) with ([1 * 64 + x] ++ ([y] ++ [])). apply rdbLoadLen_tag; [lia..|]. cbn [Z.eqb REDIS_RDB_ENCVAL].
      apply decodes_cons; [by apply bytes_one|done|]. eapply decodes_lift; [apply mget_head|].
      rewrite Z.shiftl_mul_pow2, (lor_low 8) by lia. apply decodes_ret.
  - pose proof (le_bytes_byte 4 n ltac:(lia)) as Hl. assert (Forall byte (reverse (le_bytes 4 n))) as Hl' by (by apply Forall_reverse).
    change (Z.shiftl 2 6) with (2 * 64 + 0). assert (Forall byte [2 * 64 + 0]) as Hb by (by apply bytes_one).
    exists ([2 * 64 + 0] ++ reverse (le_bytes 4 n) ++ []), 5. split; [|split; [lia|split; [rewrite app_nil_r; apply Forall_app; done|]]].
    + eapply writes_bind; [by apply rdbWriteRaw_emits|]. eapply writes_bind; [by apply rdbWriteRaw_emits|apply emits_ret].
    + apply rdbLoadLen_tag; [lia..|]. cbn [Z.eqb REDIS_RDB_ENCVAL]. apply decodes_cons; [done|rewrite length_reverse, le_bytes_length; lia|].
      rewrite reverse_involutive, le_val_bytes, uwrap_small by lia. apply decodes_ret.
Qed.

(** ** Integers *)

Lemma mod_two_bytes v : v mod 2 ^ 8 + v / 2 ^ 8 mod 2 ^ 8 * 2 ^ 8 = v mod 2 ^ 16.
Proof. pose proof (Z.rem_mul_r v (2 ^ 8) (2 ^ 8) ltac:(lia) ltac:(lia)) as E. change (2 ^ 8 * 2 ^ 8) with (2 ^ 16) in E. lia. Qed.

Lemma mod_four_bytes v : v mod 2 ^ 8 + v / 2 ^ 8 mod 2 ^ 8 * 2 ^ 8 + v / 2 ^ 16 mod 2 ^ 8 * 2 ^ 16 + v / 2 ^ 24 mod 2 ^ 8 * 2 ^ 24 = v mod 2 ^ 32.
Proof.
  pose proof (Z.rem_mul_r v (2 ^ 16) (2 ^ 16) ltac:(lia) ltac:(lia)) as E. change (2 ^ 16 * 2 ^ 16) with (2 ^ 32) in E.
  rewrite mod_two_bytes, E, <- (mod_two_bytes (v / 2 ^ 16)), Z.div_div by lia. change (2 ^ 16 * 2 ^ 8) with (2 ^ 24). lia.
Qed.

(** The low byte of a shifted number. *)
Lemma byte_at v k : 0 ≤ k → Z.land (Z.shiftr v k) 255 = v / 2 ^ k mod 2 ^ 8.
Proof. intros. change 255 with (2 ^ 8 - 1). by rewrite land_mask, Z.shiftr_div_pow2 by lia. Qed.

Lemma byte_at_bound v : 0 ≤ v mod 2 ^ 8 < 256.
Proof. by apply Z.mod_pos_bound. Qed.

Lemma lor_bytes x y k : 0 ≤ x < 2 ^ k → 0 ≤ k → Z.lor x (Z.shiftl y k) = x + y * 2 ^ k.
Proof. intros Hx Hk. rewrite Z.shiftl_mul_pow2, Z.lor_comm, lor_low by lia. lia. Qed.

(** The tag of an encoding, and the bytes of the number. *)
Lemma integer_decodes e encode v t bs : 
  0 ≤ e < 3 → decodes (rdbLoadIntegerObject e encode) (if encode then SInt v else SRaw t) bs →
  decodes (rdbGenericLoadStringObject encode) (if encode then SInt v else SRaw t) (192 + e :: bs).
Proof.
  intros He Hd. unfold rdbGenericLoadStringObject. change (192 + e :: bs) with ([192 + e] ++ bs).
  eapply decodes_bind.
  - rewrite <- (app_nil_r [_]). replace (192 + e) with (3 * 64 + e) by lia. apply rdbLoadLen_tag; [lia..|]. cbn [Z.eqb REDIS_RDB_ENCVAL]. apply decodes_ret.
  - cbv beta iota. assert ((e =? REDIS_RDB_ENC_INT8) || (e =? REDIS_RDB_ENC_INT16) || (e =? REDIS_RDB_ENC_INT32) = true) as ->; [|done].
    unfold REDIS_RDB_ENC_INT8, REDIS_RDB_ENC_INT16, REDIS_RDB_ENC_INT32. lia.
Qed.

Lemma load_integer_end (encode : bool) v t : LLONG_MIN ≤ v ≤ LLONG_MAX → decimal_repr v t →
  decodes (if encode then mret (SInt v) else t ← io_lift (digits_of v); mret (SRaw t) : io sobj) (if encode then SInt v else SRaw t) [].
Proof.
  intros Hv Ht. destruct encode; [apply decodes_ret|]. eapply decodes_lift; [by apply digits_of_repr|apply decodes_ret].
Qed.

Lemma load_integer (m : io Z) (encode : bool) v t bs : LLONG_MIN ≤ v ≤ LLONG_MAX → decimal_repr v t → decodes m v bs →
  decodes (val ← m; if encode then mret (SInt val) else t ← io_lift (digits_of val); mret (SRaw t)) (if encode then SInt v else SRaw t) bs.
Proof. intros Hv Ht Hm. rewrite <- (app_nil_r bs). eapply decodes_bind; [exact Hm|by apply load_integer_end]. Qed.

Lemma io_read_then {B} (f : list Z → io B) m n b : Forall byte m → n = len m → decodes (f m) b [] → decodes (io_read n ≫= f) b m.
Proof. intros Hm Hn Hf. rewrite <- (app_nil_r m). eapply decodes_bind; [by apply io_read_decodes|exact Hf]. Qed.

Lemma load_int8 encode v t : - 2 ^ 7 ≤ v < 2 ^ 7 → decimal_repr v t →
  decodes (rdbLoadIntegerObject REDIS_RDB_ENC_INT8 encode) (if encode then SInt v else SRaw t) [v mod 2 ^ 8].
Proof.
  intros Hv Ht. apply load_integer; [unfold LLONG_MIN, LLONG_MAX; lia|done|]. cbn [Z.eqb REDIS_RDB_ENC_INT8].
  apply io_read_then; [apply bytes_one, byte_at_bound|done|]. eapply decodes_lift; [apply mget_head|].
  replace (swrap 8 (v mod 2 ^ 8)) with v; [apply decodes_ret|]. symmetry. by apply (swrap_of_uwrap 8).
Qed.

Lemma load_int16 encode v t : - 2 ^ 15 ≤ v < 2 ^ 15 → decimal_repr v t →
  decodes (rdbLoadIntegerObject REDIS_RDB_ENC_INT16 encode) (if encode then SInt v else SRaw t) [v mod 2 ^ 8; v / 2 ^ 8 mod 2 ^ 8].
Proof.
  intros Hv Ht. apply load_integer; [unfold LLONG_MIN, LLONG_MAX; lia|done|]. cbn [Z.eqb REDIS_RDB_ENC_INT16 REDIS_RDB_ENC_INT8].
  pose proof (byte_at_bound v). apply io_read_then; [constructor; [done|apply bytes_one, byte_at_bound]|done|]. do 2 (eapply decodes_lift; [reflexivity|]).
  rewrite lor_bytes, mod_two_bytes by lia. replace (s16 (v mod 2 ^ 16)) with v; [apply decodes_ret|]. symmetry. by apply (swrap_of_uwrap 16).
Qed.

Lemma load_int32 encode v t : - 2 ^ 31 ≤ v < 2 ^ 31 → decimal_repr v t →
  decodes (rdbLoadIntegerObject REDIS_RDB_ENC_INT32 encode) (if encode then SInt v else SRaw t)
    [v mod 2 ^ 8; v / 2 ^ 8 mod 2 ^ 8; v / 2 ^ 16 mod 2 ^ 8; v / 2 ^ 24 mod 2 ^ 8].
Proof.
  intros Hv Ht. apply load_integer; [unfold LLONG_MIN, LLONG_MAX; lia|done|]. cbn [Z.eqb REDIS_RDB_ENC_INT32 REDIS_RDB_ENC_INT16 REDIS_RDB_ENC_INT8].
  pose proof (byte_at_bound v). pose proof (byte_at_bound (v / 2 ^ 8)). pose proof (byte_at_bound (v / 2 ^ 16)). pose proof (byte_at_bound (v / 2 ^ 24)).
  apply io_read_then; [repeat (apply Forall_cons; split; [done|]); constructor|done|]. do 4 (eapply decodes_lift; [reflexivity|]).
  rewrite (lor_bytes _ _ 8), (lor_bytes _ _ 16), (lor_bytes _ _ 24), mod_four_bytes by lia. replace (s32 (v mod 2 ^ 32)) with v; [apply decodes_ret|]. symmetry. by apply (swrap_of_uwrap 32).
Qed.

Lemma rdbEncodeInteger_ok v : rdbEncodeInteger v = [] ∨
  Forall byte (rdbEncodeInteger v) ∧ 0 < len (rdbEncodeInteger v) ∧
  ∀ encode t, decimal_repr v t → decodes (rdbGenericLoadStringObject encode) (if encode then SInt v else SRaw t) (rdbEncodeInteger v).
Proof.
  unfold rdbEncodeInteger. cbv zeta. rewrite !Z.geb_leb, !byte_at by lia.
  change (Z.shiftl 1 7) with (2 ^ 7). change (Z.shiftl 1 15) with (2 ^ 15). change (Z.shiftl 1 31) with (2 ^ 31). rewrite Z.pow_0_r, Z.div_1_r.
  pose proof (byte_at_bound v). pose proof (byte_at_bound (v / 2 ^ 8)). pose proof (byte_at_bound (v / 2 ^ 16)). pose proof (byte_at_bound (v / 2 ^ 24)).
  change (Z.lor (Z.shiftl REDIS_RDB_ENCVAL 6) REDIS_RDB_ENC_INT8) with (192 + 0). change (Z.lor (Z.shiftl REDIS_RDB_ENCVAL 6) REDIS_RDB_ENC_INT16) with (192 + 1).
  change (Z.lor (Z.shiftl REDIS_RDB_ENCVAL 6) REDIS_RDB_ENC_INT32) with (192 + 2).
  destruct ((- 2 ^ 7 <=? v) && (v <=? 2 ^ 7 - 1)) eqn:E1; [right|].
  2: destruct ((- 2 ^ 15 <=? v) && (v <=? 2 ^ 15 - 1)) eqn:E2; [right|].
  3: destruct ((- 2 ^ 31 <=? v) && (v <=? 2 ^ 31 - 1)) eqn:E3; [right|by left].
  all: split; [repeat (apply Forall_cons; split; [unfold byte; lia|]); constructor|].
  all: split; [cbn; lia|]; intros encode t Ht.
  - apply (integer_decodes 0); [done|]. apply load_int8; [lia|done].
  - apply (integer_decodes 1); [done|]. apply load_int16; [lia|done].
  - apply (integer_decodes 2); [done|]. apply load_int32; [lia|done].
Qed.

Lemma strtoll_range (m : list Z) v n e : strtoll m = Some (v, n, e) → LLONG_MIN ≤ v ≤ LLONG_MAX.
Proof.
  unfold strtoll. destruct (strtoll_spaces m 0) as [[m1 k]|]; bsimpl; [|done]. destruct (head m1) as [x|]; bsimpl; [|done].
  destruct (if (x =? 45) || (x =? 43) then (tail m1, S k) else (m1, k)) as [m2 n1]. destruct (strtoll_digits m2 0 n1) as [[w n2]|]; bsimpl; [|done].
  set (z := if x =? 45 then - w else w). rewrite Z.gtb_ltb. unfold LLONG_MIN, LLONG_MAX.
  destruct (n2 =? n1)%nat; [intros [= <- _ _]; lia|]. destruct (Z.ltb_spec (2 ^ 63 - 1) z); [intros [= <- _ _]; lia|].
  destruct (Z.ltb_spec z (- 2 ^ 63)); intros [= <- _ _]; lia.
Qed.

(** A string is stored as a number only when it is the number's text. *)
Lemma rdbTryIntegerEncoding_ok s : ∃ enc, rdbTryIntegerEncoding s = Some enc ∧
  (enc = [] ∨ ∃ v, enc = rdbEncodeInteger v ∧ decimal_repr v s ∧ LLONG_MIN ≤ v ≤ LLONG_MAX).
Proof.
  unfold rdbTryIntegerEncoding. destruct (strtoll_total s []) as (v & n & e & y & E & Ey). rewrite E. bsimpl. rewrite Ey. bsimpl.
  pose proof (strtoll_range _ _ _ _ E) as Hv. destruct (negb (y =? 0)); [by eexists; split; [|left]|].
  destruct (ll2string_repr (replicate 32 0) 32 v Hv) as (d & Hd & ->); [done|]. pose proof (decimal_repr_len v d Hd Hv).
  rewrite Z.geb_leb, (proj2 (Z.leb_gt _ _)) by lia. bsimpl. rewrite mread_text. bsimpl.
  destruct (negb _ || negb _) eqn:E2; [by eexists; split; [|left]|]. eexists. split; [done|]. right. exists v. split; [done|].
  apply orb_false_iff in E2 as [_ E2]. apply negb_false_iff, bool_decide_eq_true in E2. by subst d.
Qed.

(** ** Compressed strings *)

Lemma back_copy_prefix n : ∀ off o, o `prefix_of` back_copy n off o.
Proof. induction n as [|n IH]; intros off o; cbn; [done|]. destruct (mget _ _); [|done]. etrans; [|apply IH]. by apply prefix_app_r. Qed.

Lemma run_prefix o t : o `prefix_of` run o t.
Proof. destruct t; cbn; [by apply prefix_app_r|apply back_copy_prefix]. Qed.

Lemma foldl_run_prefix ts : ∀ o, o `prefix_of` foldl run o ts.
Proof. induction ts as [|t ts IH]; intros o; cbn; [done|]. etrans; [apply run_prefix|apply IH]. Qed.

Lemma encode_bytes ts : ∀ o, tokens_ok o ts → Forall byte (foldl run o ts) → Forall byte (Lzf.encode ts).
Proof.
  induction ts as [|t ts IH]; intros o Hok Hb; [constructor|]. destruct Hok as [Ht Hts]. rewrite encode_cons. apply Forall_app. split; [|by eapply IH].
  destruct t as [l|off n]; cbn in Ht |- *.
  - constructor; [unfold byte; lia|]. destruct (foldl_run_prefix ts (o ++ l)) as [k E]. cbn in Hb. rewrite E, !Forall_app in Hb. tauto.
  - pose proof (Z.mod_pos_bound off 256). assert (off / 256 < 32) by (apply Z.div_lt_upper_bound; lia). pose proof (Z.div_pos off 256).
    destruct (Z.ltb_spec n 7); repeat (apply Forall_cons; split; [unfold byte; lia|]); constructor.
Qed.

(** Decompression into a buffer of just the right size. *)
Lemma lzf_decompress_exact ts : ts ≠ [] → tokens_ok [] ts → Forall byte (evaluate ts) → evaluate ts ≠ [] →
  lzf_decompress (Lzf.encode ts) (replicate (length (evaluate ts)) 0) = Some (len (evaluate ts), NOERR, evaluate ts).
Proof.
  intros Hne Hok Hb Hv. destruct (lzf_decompress_ok ts (replicate (length (evaluate ts)) 0) Hne Hok) as [f E]; [by rewrite length_replicate|].
  assert (0 < len (Lzf.encode ts)) as Hl.
  { pose proof (tokens_encode_length ts [] Hok). destruct ts; [done|]. cbn [length] in *. lia. }
  destruct (decompress_loop_safe (length (Lzf.encode ts) + 1) (Lzf.encode ts) (replicate (length (evaluate ts)) 0) 0 0) as (n & e & o & E2 & Lo & _);
    [by eapply encode_bytes|lia..|]. unfold lzf_decompress in *. rewrite E in E2. injection E2 as <- <- <-.
  rewrite length_app, length_replicate in Lo. destruct f; [|cbn in Lo; lia]. by rewrite E, app_nil_r.
Qed.

(** ** String objects *)

Section rdb_strings.
Context `{Host}.
Context (junk : nat → Z) (tab : LZF_STATE) (rdb_compression : bool).
Hypothesis tab_pointers : ∀ i, pointer (tab i).

(** A text a string object may hold. *)
Definition text_ok (t : list Z) : Prop := Forall byte t ∧ len t < 2 ^ 32 - 1.

Lemma byte_195 : Forall byte [195].
Proof. by apply bytes_one. Qed.

Lemma load_lzf w1 w2 ts encode : ts ≠ [] → tokens_ok [] ts → text_ok (evaluate ts) → evaluate ts ≠ [] → len (Lzf.encode ts) < 2 ^ 32 - 1 →
  decodes rdbLoadLen (false, len (Lzf.encode ts)) w1 → decodes rdbLoadLen (false, len (evaluate ts)) w2 →
  decodes (rdbGenericLoadStringObject encode) (SRaw (evaluate ts)) ([195] ++ w1 ++ w2 ++ Lzf.encode ts).
Proof.
  intros Hne Hok [Hb Hl] Hv Hc H1 H2. assert (Forall byte (Lzf.encode ts)) as Hbe by (by eapply encode_bytes). unfold rdbGenericLoadStringObject. eapply decodes_bind.
  { rewrite <- (app_nil_r [_]). change 195 with (3 * 64 + 3). apply rdbLoadLen_tag; [lia..|]. cbn [Z.eqb REDIS_RDB_ENCVAL]. apply decodes_ret. }
  cbv beta iota. cbn [Z.eqb REDIS_RDB_ENC_INT8 REDIS_RDB_ENC_INT16 REDIS_RDB_ENC_INT32 REDIS_RDB_ENC_LZF orb].
  unfold rdbLoadLzfStringObject. eapply decodes_bind; [exact H1|]. cbv beta iota. unfold REDIS_RDB_LENERR. rewrite (proj2 (Z.eqb_neq _ _)) by lia.
  eapply decodes_bind; [exact H2|]. cbv beta iota. rewrite (proj2 (Z.eqb_neq _ _)) by lia.
  apply io_read_then; [done|done|]. eapply decodes_lift; [rewrite Nat2Z.id; by apply lzf_decompress_exact|]. cbv beta iota.
  rewrite (proj2 (Z.eqb_neq _ _)); [apply decodes_ret|]. destruct (evaluate ts); [done|cbn; lia].
Qed.

Lemma rdbSaveLzfStringObject_ok s : text_ok s → 4 < len s → ∃ w n, emits (rdbSaveLzfStringObject junk tab s) n w ∧
  (n = 0 ∧ w = [] ∨ 0 < n ∧ Forall byte w ∧ ∀ encode, decodes (rdbGenericLoadStringObject encode) (SRaw s) w).
Proof.
  intros [Hb Hl] H4. unfold rdbSaveLzfStringObject. rewrite (proj2 (Z.leb_gt _ _)) by lia. cbv zeta. set (buf := junk <$> _).
  assert (len buf = len s - 3) as Lb by (unfold buf; rewrite length_fmap, length_seq; lia).
  destruct (lzf_compress_ok tab s buf (len s - 4)) as (n & o & E & Lo & Hn & Hr); [lia|lia|done|].
  destruct (Z.eq_dec n 0) as [->|Hn0].
  { exists [], 0. split; [|by left]. eapply emits_lift; [exact E|]. cbn. apply emits_ret. }
  destruct Hr as [?|(ts & Hne & Hok & Et & <-)]; [done|]. assert (Forall byte (Lzf.encode ts)) as Hbe by (by eapply encode_bytes).
  assert (len (Lzf.encode ts) = n) as Le by (rewrite <- Et, length_take; lia). assert (mread o 0 n = Some (Lzf.encode ts)) as Em.
  { rewrite <- (take_drop (Z.to_nat n) o), Et, <- Le. apply mread_text. }
  destruct (rdbSaveLen_ok n ltac:(lia)) as (w1 & k1 & E1 & K1 & B1 & D1). destruct (rdbSaveLen_ok (len (evaluate ts)) ltac:(lia)) as (w2 & k2 & E2 & K2 & B2 & D2).
  exists ([195] ++ w1 ++ w2 ++ Lzf.encode ts ++ []), (1 + k1 + k2 + n). split; [|right; split; [lia|split]].
  - eapply emits_lift; [exact E|]. cbv beta iota. rewrite (proj2 (Z.eqb_neq n 0)) by done. eapply writes_bind; [apply (rdbWriteRaw_emits _ 1); [apply byte_195|done]|].
    eapply writes_bind; [exact E1|]. eapply writes_bind; [exact E2|]. eapply emits_lift; [exact Em|]. eapply writes_bind; [by apply (rdbWriteRaw_emits _ n)|]. apply emits_ret.
  - rewrite app_nil_r, !Forall_app. split; [apply byte_195|done].
  - intros encode. rewrite app_nil_r. apply load_lzf; [done|done|done| |lia|by rewrite Le|done]. intros Ev. rewrite Ev in H4. cbn in H4. lia.
Qed.

(** [o] loads [w] as [t], whether or not it asks for an encoded object. *)
Definition restores (o : sobj) (t w : list Z) : Prop :=
  Forall byte w ∧ ∀ encode, ∃ o', decodes (rdbGenericLoadStringObject encode) o' w ∧ encoded o' = encoded o ∧ (encode = false → o' = SRaw t).

Lemma encode_integer_restores o v t : rdbEncodeInteger v ≠ [] → decimal_repr v t → LLONG_MIN ≤ v ≤ LLONG_MAX → encoded o = SInt v → restores o t (rdbEncodeInteger v).
Proof.
  intros Hne Ht Hv Ho. destruct (rdbEncodeInteger_ok v) as [?|(Hb & _ & Hd)]; [done|]. split; [done|]. intros encode. eexists. split; [by apply Hd|].
  destruct encode; [done|]. split; [|done]. rewrite Ho. by apply encoded_int.
Qed.

(** As a length and the bytes. *)
Lemma load_plain t w : Forall byte t → 0 < len t < 2 ^ 32 - 1 → decodes rdbLoadLen (false, len t) w → ∀ encode, decodes (rdbGenericLoadStringObject encode) (SRaw t) (w ++ t).
Proof.
  intros Hb Hl Hw encode. unfold rdbGenericLoadStringObject. eapply decodes_bind; [exact Hw|]. cbv beta iota. unfold REDIS_RDB_LENERR.
  rewrite (proj2 (Z.eqb_neq _ _)), (proj2 (Z.eqb_neq (len t) 0)) by lia. apply io_read_then; [done|done|apply decodes_ret].
Qed.

Lemma load_empty w : decodes rdbLoadLen (false, 0) w → ∀ encode, decodes (rdbGenericLoadStringObject encode) (SRaw []) w.
Proof. intros Hw encode. rewrite <- (app_nil_r w). eapply decodes_bind; [exact Hw|]. apply decodes_ret. Qed.

Lemma rdbEncodeInteger_pos v : rdbEncodeInteger v ≠ [] → 0 < len (rdbEncodeInteger v).
Proof. destruct (rdbEncodeInteger v); [done|cbn; lia]. Qed.

Lemma plain_ok t : text_ok t → ∃ w n,
  emits (n ← rdbSaveLen (len t); if 0 <? len t then n2 ← rdbWriteRaw t; mret (n + n2) else mret n) n w ∧ restores (SRaw t) t w.
Proof.
  intros [Hb Hl]. destruct (rdbSaveLen_ok (len t) ltac:(lia)) as (w & k & He & Hk & Hw & Hd). destruct (Z.ltb_spec 0 (len t)).
  - exists (w ++ t ++ []). eexists. split; [eapply writes_bind; [exact He|]; eapply writes_bind; [by apply rdbWriteRaw_emits|apply emits_ret]|].
    rewrite app_nil_r. split; [by apply Forall_app|]. intros encode. eexists. split; [by apply load_plain|done].
  - destruct t; [|cbn in *; lia]. exists (w ++ []). eexists. split; [eapply writes_bind; [exact He|apply emits_ret]|].
    rewrite app_nil_r. split; [done|]. intros encode. eexists. split; [by apply load_empty|done].
Qed.

Lemma rdbSaveRawString_ok t : text_ok t → ∃ w n, emits (rdbSaveRawString junk tab rdb_compression t) n w ∧ restores (SRaw t) t w.
Proof.
  intros Ht. unfold rdbSaveRawString. destruct (rdbTryIntegerEncoding_ok t) as (enc & Ee & Hv).
  set (e := if len t <=? 11 then enc else []).
  assert (∀ {B} (f : list Z → io B) b w, emits (f e) b w → emits ((if len t <=? 11 then io_lift (rdbTryIntegerEncoding t) else mret []) ≫= f) b w) as Hbind.
  { intros B f b w Hf. unfold e in Hf. destruct (len t <=? 11); [by eapply emits_lift|]. rewrite <- (app_nil_l w). eapply writes_bind; [apply emits_ret|exact Hf]. }
  assert (e = [] ∨ ∃ v, e = rdbEncodeInteger v ∧ decimal_repr v t ∧ LLONG_MIN ≤ v ≤ LLONG_MAX) as Hev by (unfold e; destruct (len t <=? 11); [done|by left]).
  clearbody e. destruct e as [|x e'].
  - destruct (plain_ok t Ht) as (w & n & Hw & Hr).
    destruct (rdb_compression && (20 <? len t)) eqn:Ec.
    + apply andb_true_iff in Ec as [_ Ec]. destruct (rdbSaveLzfStringObject_ok t Ht ltac:(lia)) as (w1 & n1 & E1 & [[-> ->]|(Hn & B1 & D1)]).
      * exists w, n. split; [|done]. apply Hbind. cbn [length Z.of_nat Z.ltb Z.compare]. rewrite <- (app_nil_l w). eapply writes_bind; [exact E1|]. exact Hw.
      * exists (w1 ++ []), n1. split; [apply Hbind; cbn [length Z.of_nat Z.ltb Z.compare]; eapply writes_bind; [exact E1|]; rewrite (proj2 (Z.ltb_lt _ _)) by done; apply emits_ret|].
        rewrite app_nil_r. split; [done|]. intros encode. by exists (SRaw t).
    + exists w, n. split; [|done]. apply Hbind. cbn [length Z.of_nat Z.ltb Z.compare]. rewrite <- (app_nil_l w). eapply writes_bind; [apply emits_ret|]. exact Hw.
  - destruct Hev as [?|(v & Ev & Hd & Hv')]; [done|]. rewrite Ev in *. assert (rdbEncodeInteger v ≠ []) as Hne by (by rewrite <- Ev).
    pose proof (encode_integer_restores (SRaw t) v t Hne Hd Hv' (encoded_int v t Hd Hv')) as Hr. exists (rdbEncodeInteger v). eexists. split; [|done].
    apply Hbind. rewrite (proj2 (Z.ltb_lt _ _)) by (by apply rdbEncodeInteger_pos). apply rdbWriteRaw_emits; [apply Hr|done].
Qed.

Lemma rdbSaveStringObject_ok o t : sobj_text o t → text_ok t → ∃ w n, emits (rdbSaveStringObject junk tab rdb_compression o) n w ∧ restores o t w.
Proof.
  intros Ho Ht. destruct o as [v|s]; cbn in Ho |- *; [|subst s; by apply rdbSaveRawString_ok]. destruct Ho as [Hd Hv%long_ll].
  unfold rdbSaveLongLongAsStringObject. cbv zeta. destruct (rdbEncodeInteger v) as [|x e] eqn:Ee.
  - pose proof (decimal_repr_len v t Hd Hv). destruct (rdbSaveLen_ok (len t) ltac:(lia)) as (w & k & He & Hk & Hw & Hdw).
    exists (w ++ t ++ []). eexists. split; [cbn [length Z.of_nat Z.ltb Z.compare]; eapply emits_lift; [by apply digits_of_repr|]; eapply writes_bind; [exact He|];
      eapply writes_bind; [by apply rdbWriteRaw_emits; [apply Ht|]|apply emits_ret]|].
    rewrite app_nil_r. split; [apply Forall_app; split; [done|apply Ht]|]. intros encode. exists (SRaw t). split; [apply load_plain; [apply Ht|lia|done]|]. split; [by apply encoded_int|done].
  - rewrite <- Ee. assert (rdbEncodeInteger v ≠ []) as Hne by (by rewrite Ee). pose proof (encode_integer_restores (SInt v) v t Hne Hd Hv eq_refl) as Hr.
    exists (rdbEncodeInteger v). eexists. split; [|exact Hr]. rewrite (proj2 (Z.ltb_lt _ _)) by (by apply rdbEncodeInteger_pos). apply rdbWriteRaw_emits; [apply Hr|done].
Qed.
End rdb_strings.
