(* ===== verification/RdbThms.v ===== *)
(** * Dump files: theorems

    What is saved is restored ([dump_restored]); a dump that does not fit is
    reported as failed ([dump_saved_or_failed]). *)

From S2P Require Import Prelude Endian Util Crc64 Lzf Sds Object Number Client Value Rio Rdb RdbSpec.
From stdpp Require Import gmap.
Local Open Scope Z_scope.

Section save_load.
Context `{Host}.
Context (junk : nat → Z) (tab : LZF_STATE) (rdb_compression saved_sum : bool) (saved : Z).
Hypothesis tab_pointers : ∀ i, pointer (tab i).
Context (masterhost : bool) (now interval : Z) (checks_sum : bool).

Definition dead (e : entry) (now : Z) : bool := negb (e_expire e =? -1) && (e_expire e <? now).

(** Saved, and kept when it is loaded. *)
Definition live (e : entry) : bool := negb (dead e saved) && (masterhost || negb (dead e now)).

Definition entry_ok (e : entry) : Prop :=
  text_ok (e_key e) ∧ (∃ t, sobj_text (e_val e) t ∧ text_ok t) ∧ - 2 ^ 63 ≤ e_expire e < 2 ^ 63.

(** The database that holds the live keys of [l]. *)
Definition value_of (e : entry) : list Z * sobj := (e_key e, encoded (e_val e)).
Definition time_of (e : entry) : list Z * Z := (e_key e, e_expire e).
Definition restored (l : list entry) : database :=
  let l := base.filter (λ e, live e = true) l in
  mkDatabase (list_to_map (value_of <$> l)) (list_to_map (time_of <$> base.filter (λ e, e_expire e ≠ -1) l)).

Definition put (d : database) (e : entry) : database :=
  mkDatabase (<[e_key e := encoded (e_val e)]> (d_vals d)) (if e_expire e =? -1 then d_exps d else <[e_key e := e_expire e]> (d_exps d)).
Definition empty_db : database := mkDatabase ∅ ∅.

Lemma not_key (e : entry) (l : list entry) {A} (g : entry → list Z * A) : (∀ e, (g e).1 = e_key e) → e_key e ∉ e_key <$> l → (list_to_map (g <$> l) : gmap (list Z) A) !! e_key e = None.
Proof.
  intros Hg Hn. apply not_elem_of_list_to_map_1. rewrite <- list_fmap_compose. intros (e' & Ek & Hin)%list_elem_of_fmap. apply Hn, list_elem_of_fmap. exists e'. split; [|done]. rewrite Ek. cbn. apply Hg.
Qed.

Lemma foldl_put l : ∀ d, NoDup (e_key <$> l) → foldl put d l =
  mkDatabase (list_to_map (value_of <$> l) ∪ d_vals d) (list_to_map (time_of <$> base.filter (λ e, e_expire e ≠ -1) l) ∪ d_exps d).
Proof.
  induction l as [|e l IH]; intros [dv de] Hn; cbn [foldl].
  - cbn. by rewrite !map_empty_union.
  - rewrite fmap_cons in Hn. apply NoDup_cons in Hn as [He Hn]. rewrite IH by done. cbn [d_vals d_exps put fmap list_fmap list_to_map foldr]. f_equal.
    + change (list_to_map (value_of e :: (value_of <$> l))) with (<[e_key e := encoded (e_val e)]> (list_to_map (value_of <$> l) : gmap (list Z) sobj)).
      rewrite <- insert_union_r, insert_union_l by (by apply not_key). done.
    + rewrite filter_cons. destruct (Z.eqb_spec (e_expire e) (-1)) as [E|E].
      * by rewrite decide_False by (intros ?; done).
      * rewrite decide_True by done. cbn [fmap list_fmap].
        change (list_to_map (time_of e :: (time_of <$> base.filter (λ e, e_expire e ≠ -1) l))) with (<[e_key e := e_expire e]> (list_to_map (time_of <$> base.filter (λ e, e_expire e ≠ -1) l) : gmap (list Z) Z)).
        rewrite <- insert_union_r, insert_union_l; [done|]. apply not_key; [done|]. intros (e' & Ek & [_ Hin]%list_elem_of_filter)%list_elem_of_fmap. apply He, list_elem_of_fmap. by exists e'.
Qed.

Lemma restored_foldl l : NoDup (e_key <$> l) → restored l = foldl put empty_db (base.filter (λ e, live e = true) l).
Proof.
  intros Hn. rewrite foldl_put; [unfold restored, empty_db; cbn [d_vals d_exps]; by rewrite !map_union_empty|].
  eapply sublist_NoDup; [exact Hn|]. apply fmap_sublist, sublist_filter.
Qed.
(** ** Keys *)

Lemma rdbSaveType_emits t : 0 ≤ t < 256 → emits (rdbSaveType t) 1 [t].
Proof. intros Ht. unfold rdbSaveType. rewrite (uwrap_small 8) by done. apply rdbWriteRaw_emits; [by apply bytes_one|done]. Qed.

Lemma rdbLoadType_decodes t : 0 ≤ t < 256 → decodes rdbLoadType t [t].
Proof.
  intros Ht. apply io_read_then; [by apply bytes_one|done|]. rewrite mget_head. intros r pre rest Hr. exists r. split; [done|]. by rewrite app_nil_r.
Qed.

Abbreviation turn := (load_turn masterhost now).

Lemma host_bytes_byte n v : 0 ≤ n → Forall byte (host_bytes n v).
Proof. intros Hn. unfold host_bytes. destruct big_endian; [apply Forall_reverse|]; by apply le_bytes_byte. Qed.

Lemma rdbLoadMillisecondTime_decodes t : - 2 ^ 63 ≤ t < 2 ^ 63 → decodes rdbLoadMillisecondTime t (host_bytes 8 t).
Proof.
  intros Ht. apply io_read_then; [by apply host_bytes_byte|by rewrite host_bytes_length|].
  rewrite host_val_bytes, (swrap_of_uwrap 64) by lia. apply decodes_ret.
Qed.

Definition time_bytes (t : Z) : list Z := if t =? -1 then [] else REDIS_RDB_OPCODE_EXPIRETIME_MS :: host_bytes 8 t.

(** The time in front of a key, if it has one, and the type. *)
Lemma load_time (t type : Z) {B} (f : Z * Z → io B) b w :
  0 ≤ type < 252 → - 2 ^ 63 ≤ t < 2 ^ 63 → decodes (f (type, t)) b w →
  decodes (type ← rdbLoadType;
    (if type =? REDIS_RDB_OPCODE_EXPIRETIME then t ← rdbLoadTime; if t =? -1 then io_fail else type ← rdbLoadType; mret (type, t * 1000)
     else if type =? REDIS_RDB_OPCODE_EXPIRETIME_MS then t ← rdbLoadMillisecondTime; if t =? -1 then io_fail else type ← rdbLoadType; mret (type, t)
     else mret (type, -1)) ≫= f) b (time_bytes t ++ [type] ++ w).
Proof.
  intros Hty Ht Hf. unfold time_bytes. destruct (Z.eqb_spec t (-1)) as [->|Hne].
  - change ([] ++ [type] ++ w) with ([type] ++ [] ++ w). eapply decodes_bind; [apply rdbLoadType_decodes; lia|]. unfold REDIS_RDB_OPCODE_EXPIRETIME, REDIS_RDB_OPCODE_EXPIRETIME_MS.
    rewrite (proj2 (Z.eqb_neq _ _)), (proj2 (Z.eqb_neq _ _)) by lia. eapply decodes_bind; [apply decodes_ret|exact Hf].
  - change ((REDIS_RDB_OPCODE_EXPIRETIME_MS :: host_bytes 8 t) ++ [type] ++ w) with ([REDIS_RDB_OPCODE_EXPIRETIME_MS] ++ host_bytes 8 t ++ [type] ++ w).
    eapply decodes_bind; [by apply rdbLoadType_decodes|]. unfold REDIS_RDB_OPCODE_EXPIRETIME, REDIS_RDB_OPCODE_EXPIRETIME_MS. cbn [Z.eqb Pos.eqb].
    rewrite (app_assoc (host_bytes 8 t)). eapply decodes_bind; [|exact Hf]. eapply decodes_bind; [by apply rdbLoadMillisecondTime_decodes|].
    rewrite (proj2 (Z.eqb_neq _ _)) by done. rewrite <- (app_nil_r [type]). eapply decodes_bind; [apply rdbLoadType_decodes; lia|apply decodes_ret].
Qed.

(** What a key is loaded as. *)
Definition loaded (d : database) (e : entry) : database := if negb masterhost && dead e now then d else put d e.

Lemma add_key_put dbs j d e : dbs !! j = Some d → d_vals d !! e_key e = None →
  decodes (add_key dbs j (e_key e) (encoded (e_val e)) (e_expire e)) (<[j := put d e]> dbs) [].
Proof. intros Hd Hk. unfold add_key. eapply decodes_lift; [exact Hd|]. rewrite Hk. apply decodes_ret. Qed.

(** A key that is saved, and loaded into database [j]. *)
Lemma rdbSaveKeyValuePair_ok e : entry_ok e → dead e saved = false → ∃ w, w ≠ [] ∧ Forall byte w ∧
  emits (rdbSaveKeyValuePair junk tab rdb_compression e saved) 1 w ∧
  ∀ (dbs : list (database)) j d, dbs !! j = Some d → d_vals d !! e_key e = None → decodes (turn j dbs) (Next j (<[j := loaded d e]> dbs)) w.
Proof.
  intros (Hk & (t & Hv & Ht) & Hx) Hs. unfold rdbSaveKeyValuePair. unfold dead in Hs. rewrite Hs.
  destruct (rdbSaveStringObject_ok junk tab rdb_compression tab_pointers (SRaw (e_key e)) (e_key e) eq_refl Hk) as (w1 & n1 & E1 & B1 & R1).
  destruct (rdbSaveStringObject_ok junk tab rdb_compression tab_pointers (e_val e) t Hv Ht) as (w2 & n2 & E2 & B2 & R2).
  exists (time_bytes (e_expire e) ++ [REDIS_RDB_TYPE_STRING] ++ w1 ++ w2 ++ []). split; [intros []%app_eq_nil; done|]. split; [|split].
  - rewrite app_nil_r. apply Forall_app. split; [|apply Forall_app; split; [by apply bytes_one|by apply Forall_app]]. unfold time_bytes.
    destruct (_ =? _); [constructor|]. constructor; [done|by apply host_bytes_byte].
  - eapply writes_bind.
    { unfold time_bytes. destruct (Z.eqb_spec (e_expire e) (-1)); cbn [negb]; [apply emits_ret|].
      change (?a :: host_bytes 8 ?b) with ([a] ++ host_bytes 8 b). eapply writes_bind; [by apply rdbSaveType_emits|]. rewrite <- (app_nil_r (host_bytes _ _)).
      eapply writes_bind; [apply rdbWriteRaw_emits; [by apply host_bytes_byte|done]|apply emits_ret]. }
    eapply writes_bind; [by apply rdbSaveType_emits|]. eapply writes_bind; [exact E1|]. eapply writes_bind; [exact E2|apply emits_ret].
  - intros dbs j d Hd Hnew. destruct (R1 false) as (k' & D1 & _ & Hk'). specialize (Hk' eq_refl). subst k'. destruct (R2 true) as (v' & D2 & Hv' & _).
    unfold load_turn. eapply load_time; [done|done|]. cbv beta iota. cbn [Z.eqb Pos.eqb REDIS_RDB_TYPE_STRING REDIS_RDB_OPCODE_EOF REDIS_RDB_OPCODE_SELECTDB].
    eapply decodes_bind; [exact D1|]. eapply decodes_bind.
    { unfold rdbLoadObject. cbn [Z.eqb REDIS_RDB_TYPE_STRING]. rewrite <- (app_nil_r w2). eapply decodes_bind; [exact D2|]. rewrite Hv'. apply decodes_ret. }
    cbv beta. unfold loaded, dead. rewrite andb_assoc. destruct (negb masterhost && negb (e_expire e =? -1) && (e_expire e <? now)).
    + rewrite list_insert_id by done. apply decodes_ret.
    + rewrite <- (app_nil_l []). eapply decodes_bind; [by apply add_key_put|apply decodes_ret].
Qed.
(** ** Databases *)

(** Reading [w] takes the loop from one state to the next. *)
Definition loads (ver : Z) (w : list Z) (j : nat) (dbs : list (database)) (j' : nat) (dbs' : list database) : Prop :=
  ∀ r pre rest fuel, reading r pre (w ++ rest) → (length w ≤ fuel)%nat →
  ∃ r' fuel', load_loop checks_sum masterhost now fuel ver j dbs r = load_loop checks_sum masterhost now fuel' ver j' dbs' r' ∧
    (fuel ≤ fuel' + length w)%nat ∧ reading r' (pre ++ w) rest ∧ update_cksum r' = update_cksum r.

Lemma loads_nil ver j dbs : loads ver [] j dbs j dbs.
Proof. intros r pre rest fuel Hr Hf. exists r, fuel. rewrite app_nil_r. split; [done|]. split; [lia|done]. Qed.

Lemma loads_app ver w1 w2 j1 d1 j2 d2 j3 d3 : loads ver w1 j1 d1 j2 d2 → loads ver w2 j2 d2 j3 d3 → loads ver (w1 ++ w2) j1 d1 j3 d3.
Proof.
  intros H1 H2 r pre rest fuel Hr Hf. rewrite length_app in *. rewrite <- app_assoc in Hr.
  destruct (H1 r pre (w2 ++ rest) fuel Hr ltac:(lia)) as (r1 & f1 & -> & F1 & R1 & U1). destruct (H2 r1 _ rest f1 R1 ltac:(lia)) as (r2 & f2 & -> & F2 & R2 & U2).
  exists r2, f2. rewrite app_assoc, U2, U1. split; [done|]. split; [lia|done].
Qed.

Lemma loads_turn ver w j dbs j' dbs' : w ≠ [] → decodes (turn j dbs) (Next j' dbs') w → loads ver w j dbs j' dbs'.
Proof.
  intros Hw Hd r pre rest fuel Hr Hf. destruct w as [|x w]; [done|]. destruct fuel as [|fuel]; [cbn in Hf; lia|].
  destruct (Hd r pre rest Hr) as (r1 & E & H1 & U1). exists r1, fuel. cbn [load_loop]. rewrite E. bsimpl. split; [done|]. cbn. split; [lia|done].
Qed.

Lemma loaded_keys d e k : k ≠ e_key e → d_vals d !! k = None → d_vals (loaded d e) !! k = None.
Proof. intros Hk Hd. unfold loaded. destruct (_ && _); [done|]. cbn. by rewrite lookup_insert_ne by done. Qed.

Definition load_into (d : database) (l : list entry) : database := foldl put d (base.filter (λ e, live e = true) l).

Lemma load_into_cons d e l : load_into d (e :: l) = load_into (if dead e saved then d else loaded d e) l.
Proof.
  unfold load_into, loaded, live. rewrite filter_cons. destruct (dead e saved); cbn [negb andb]; [by rewrite decide_False by done|].
  destruct masterhost; cbn [negb orb andb]; [by rewrite decide_True by done|]. by destruct (dead e now); [rewrite decide_False by done|rewrite decide_True by done].
Qed.

Lemma save_entries_ok l : Forall entry_ok l → NoDup (e_key <$> l) → ∃ w, Forall byte w ∧ emits (save_entries junk tab rdb_compression l saved) tt w ∧
  ∀ ver (dbs : list (database)) j d, dbs !! j = Some d → (∀ e, e ∈ l → d_vals d !! e_key e = None) → loads ver w j dbs j (<[j := load_into d l]> dbs).
Proof.
  induction l as [|e l IH]; intros Hl Hn; cbn [save_entries].
  { exists []. split; [constructor|]. split; [apply emits_ret|]. intros ver dbs j d Hd _. unfold load_into. cbn. rewrite list_insert_id by done. apply loads_nil. }
  apply Forall_cons in Hl as [He Hl]. rewrite fmap_cons in Hn. apply NoDup_cons in Hn as [Hnk Hn]. destruct (IH Hl Hn) as (w & B & E & L).
  assert (∀ d e', (∀ e0, e0 ∈ e :: l → d_vals d !! e_key e0 = None) → e' ∈ l → d_vals (loaded d e) !! e_key e' = None) as Hkeep.
  { intros d e' Hd He'. apply loaded_keys; [|apply Hd; by right]. intros Ek. apply Hnk. apply list_elem_of_fmap. by exists e'. }
  destruct (dead e saved) eqn:Ed.
  - exists ([] ++ w). split; [done|]. split.
    + eapply writes_bind; [|exact E]. unfold rdbSaveKeyValuePair. unfold dead in Ed. rewrite Ed. apply emits_ret.
    + intros ver dbs j d Hd Hk. rewrite load_into_cons, Ed. apply L; [done|]. intros e' He'. apply Hk. by right.
  - destruct (rdbSaveKeyValuePair_ok e He Ed) as (w1 & N1 & B1 & E1 & L1). exists (w1 ++ w). split; [by apply Forall_app|]. split.
    + eapply writes_bind; [exact E1|exact E].
    + intros ver dbs j d Hd Hk. rewrite load_into_cons, Ed. eapply loads_app; [apply loads_turn; [done|]; apply L1; [exact Hd|apply Hk; by left]|].
      rewrite <- (list_insert_insert_eq dbs j (load_into (loaded d e) l) (loaded d e)). apply L; [|by intros; apply Hkeep].
      apply list_lookup_insert_eq. by eapply lookup_lt_Some.
Qed.
Lemma select_decodes j j0 (dbs : list (database)) w : (j < length dbs)%nat → len dbs < 2 ^ 32 → decodes rdbLoadLen (false, Z.of_nat j) w →
  decodes (turn j0 dbs) (Next j dbs) (REDIS_RDB_OPCODE_SELECTDB :: w).
Proof.
  intros Hj Hl Hw. change (REDIS_RDB_OPCODE_SELECTDB :: w) with ([REDIS_RDB_OPCODE_SELECTDB] ++ [] ++ w). unfold load_turn.
  eapply decodes_bind; [by apply rdbLoadType_decodes|]. eapply decodes_bind; [cbn; apply decodes_ret|]. cbv beta iota. cbn [Z.eqb Pos.eqb REDIS_RDB_OPCODE_EOF REDIS_RDB_OPCODE_SELECTDB].
  rewrite <- (app_nil_r w). eapply decodes_bind; [exact Hw|]. cbv beta iota. unfold REDIS_RDB_LENERR. rewrite (proj2 (Z.eqb_neq _ _)), (proj2 (Z.leb_gt _ _)) by lia.
  rewrite Nat2Z.id. apply decodes_ret.
Qed.

Lemma save_dbs_ok dbs : ∀ j, Forall (Forall entry_ok) dbs → Forall (λ l, NoDup (e_key <$> l)) dbs → Z.of_nat j + len dbs < 2 ^ 32 →
  ∃ w, Forall byte w ∧ emits (save_dbs junk tab rdb_compression (Z.of_nat j) dbs saved) tt w ∧
  ∀ ver front back j0, length front = j → len (front ++ replicate (length dbs) empty_db ++ back) < 2 ^ 32 →
    ∃ j1, loads ver w j0 (front ++ replicate (length dbs) empty_db ++ back) j1 (front ++ (restored <$> dbs) ++ back).
Proof.
  induction dbs as [|l dbs IH]; intros j Hd Hn Hj; cbn [save_dbs].
  { exists []. split; [constructor|]. split; [apply emits_ret|]. intros ver front back j0 _ _. exists j0. apply loads_nil. }
  apply Forall_cons in Hd as [Hl Hd]. apply Forall_cons in Hn as [Hnl Hn]. destruct (IH (S j) Hd Hn) as (w & B & E & L); [cbn [length] in Hj; lia|].
  replace (Z.of_nat (S j)) with (Z.of_nat j + 1) in E by lia.
  assert (∀ ver front back j0 (d : database), length front = j → len (front ++ d :: replicate (length dbs) empty_db ++ back) < 2 ^ 32 →
    ∃ j1, loads ver w j0 (front ++ d :: replicate (length dbs) empty_db ++ back) j1 (front ++ d :: (restored <$> dbs) ++ back)) as Hrest.
  { intros ver front back j0 d Hf Hs. destruct (L ver (front ++ [d]) back j0) as [j1 H1]; [rewrite length_app; cbn; lia|by rewrite <- app_assoc|].
    exists j1. by rewrite <- !app_assoc in H1. }
  destruct l as [|e l].
  { exists w. split; [done|]. split; [exact E|]. intros ver front back j0 Hf Hs. by apply Hrest. }
  destruct (save_entries_ok (e :: l) Hl Hnl) as (w1 & B1 & E1 & L1). destruct (rdbSaveLen_ok (Z.of_nat j)) as (w0 & k0 & E0 & _ & B0 & D0); [cbn [length] in Hj; lia|].
  exists ([REDIS_RDB_OPCODE_SELECTDB] ++ w0 ++ w1 ++ w). split; [|split].
  - apply Forall_app. split; [by apply bytes_one|]. apply Forall_app. split; [done|]. by apply Forall_app.
  - eapply writes_bind; [by apply rdbSaveType_emits|]. eapply writes_bind; [exact E0|]. eapply writes_bind; [exact E1|exact E].
  - intros ver front back j0 Hf Hs. cbn [length replicate app] in Hs |- *. set (all := front ++ _) in *.
    assert (all !! j = Some empty_db) as Hj' by (unfold all; by rewrite lookup_app_r, Hf, Nat.sub_diag by lia).
    destruct (Hrest ver front back j (restored (e :: l)) Hf) as [j1 H1]; [unfold all in Hs; rewrite length_app in *; cbn [length] in *; lia|]. exists j1.
    eapply (loads_app _ (REDIS_RDB_OPCODE_SELECTDB :: w0)); [apply loads_turn; [done|]; apply select_decodes; [by eapply lookup_lt_Some|exact Hs|exact D0]|].
    eapply loads_app; [by apply L1|]. rewrite (restored_foldl (e :: l)) in H1 by done.
    rewrite fmap_cons, (restored_foldl (e :: l)) by done. unfold all. rewrite insert_app_r_alt, Hf, Nat.sub_diag by lia. exact H1.
Qed.
(** ** Files *)

Definition magic : list Z := str "REDIS" ++ [48; 48; 48; 48 + REDIS_RDB_VERSION].
Definition sum_of (body : list Z) : Z := if saved_sum then crc_bits 0 body else 0.

Lemma sum_bound body : Forall byte body → 0 ≤ sum_of body < 2 ^ 64.
Proof. intros Hb. unfold sum_of. destruct saved_sum; [|lia]. by apply crc_bits_bound. Qed.

Lemma rdbSaveRio_emits dbs w room : Forall byte w → emits (save_dbs junk tab rdb_compression 0 dbs saved) tt w → has_room room 0 →
  let data := (magic ++ w ++ [REDIS_RDB_OPCODE_EOF]) ++ le_bytes 8 (sum_of (magic ++ w ++ [REDIS_RDB_OPCODE_EOF])) in
  let result := rdbSaveRio junk tab rdb_compression saved_sum dbs saved (rioInitWith [] room) in
  (∃ r, result = Some (Done tt, r) ∧ has_room room (len data) ∧ io_data r = data) ∨
  (∃ r, result = Some (Failed, r) ∧ ¬ has_room room (len data) ∧ io_data r `prefix_of` data).
Proof.
  intros Hb Hw Hroom data result. set (body := magic ++ w ++ _) in *.
  set (r1 := mkRio [] 0 room saved_sum 0 0 0). assert (out_ok r1 []) as Ho by (split; [done|unfold summed; cbn; by destruct saved_sum|by destruct room|cbn; lia]).
  set (rest := rdbWriteRaw magic;; save_dbs junk tab rdb_compression 0 dbs saved;; rdbSaveType REDIS_RDB_OPCODE_EOF;;
    c ← get_cksum; m ← io_lift (memrev64ifbe (host_bytes 8 c)); rdbWriteRaw m;; mret tt).
  assert (result = rest r1) as -> by (unfold result, rest, rdbSaveRio, r1; by destruct saved_sum).
  assert (emits_at saved_sum [] rest tt data) as He.
  { assert (data = magic ++ w ++ [REDIS_RDB_OPCODE_EOF] ++ [] ++ le_bytes 8 (sum_of body) ++ []) as -> by (unfold data, body; by rewrite app_nil_r, <- !app_assoc).
    eapply emits_at_bind; [apply rdbWriteRaw_emits; [|done]|eapply emits_at_bind; [apply Hw|eapply emits_at_bind; [by apply rdbSaveType_emits|eapply emits_at_bind; [apply get_cksum_emits|]]]].
    { repeat (apply Forall_cons; split; [done|]). constructor. }
    cbn [app]. rewrite <- app_assoc. change (magic ++ w ++ [REDIS_RDB_OPCODE_EOF]) with body. fold (sum_of body).
    apply emits_lift with (le_bytes 8 (sum_of body)); [apply memrev64ifbe_host|]. eapply writes_bind; [apply rdbWriteRaw_emits; [by apply le_bytes_byte|done]|apply emits_ret]. }
  destruct (He r1 Ho eq_refl) as [(r2 & E & Hr & O2 & _)|(r2 & E & Hr & w' & P & D)]; [left|right]; exists r2; (split; [exact E|]); (split; [exact Hr|]).
  - by rewrite (oo_data _ _ O2).
  - by rewrite D.
Qed.

Lemma eof_decodes j (dbs : list (database)) : decodes (turn j dbs) Eof [REDIS_RDB_OPCODE_EOF].
Proof.
  change [REDIS_RDB_OPCODE_EOF] with ([REDIS_RDB_OPCODE_EOF] ++ [] ++ []). unfold load_turn.
  eapply decodes_bind; [by apply rdbLoadType_decodes|]. eapply decodes_bind; [cbn; apply decodes_ret|]. apply decodes_ret.
Qed.

Lemma load_end j (dbs : list (database)) r pre fuel : let body := pre ++ [REDIS_RDB_OPCODE_EOF] in
  reading r pre ([REDIS_RDB_OPCODE_EOF] ++ le_bytes 8 (sum_of body)) → Forall byte body → update_cksum r = checks_sum → (0 < fuel)%nat →
  load_loop checks_sum masterhost now fuel 6 j dbs r = Some (Loaded dbs).
Proof.
  intros body Hr Hb Hu Hf. destruct fuel as [|fuel]; [lia|]. cbn [load_loop]. destruct (eof_decodes j dbs r pre _ Hr) as (r1 & -> & R1 & U1). bsimpl. fold body in R1.
  change (6 >=? 5) with true. cbn [andb]. destruct checks_sum eqn:Ec; [|done]. pose proof (rd_sum _ _ _ R1) as Hs. unfold summed in Hs. rewrite U1, Hu in Hs.
  rewrite <- (app_nil_r (le_bytes _ _)) in R1. destruct (rioRead_ok r1 body (le_bytes 8 (sum_of body)) [] 8 R1) as (r2 & -> & _); [by apply le_bytes_byte|by rewrite le_bytes_length|].
  bsimpl. rewrite memrev64ifbe_le. bsimpl. pose proof (sum_bound body Hb). rewrite host_val_bytes, uwrap_small by done. rewrite Hs. unfold sum_of.
  destruct saved_sum; [|done]. destruct (_ =? 0); [done|]. by rewrite Z.eqb_refl.
Qed.

Lemma rdbLoad_saved dbs w dbnum : Forall byte w → (length dbs ≤ dbnum)%nat → Z.of_nat dbnum < 2 ^ 32 → 0 ≤ interval →
  (∀ ver front back j0, length front = 0%nat → len (front ++ replicate (length dbs) empty_db ++ back) < 2 ^ 32 →
    ∃ j1, loads ver w j0 (front ++ replicate (length dbs) empty_db ++ back) j1 (front ++ (restored <$> dbs) ++ back)) →
  let body := magic ++ w ++ [REDIS_RDB_OPCODE_EOF] in
  rdbLoad checks_sum masterhost now interval (body ++ le_bytes 8 (sum_of body)) (replicate dbnum empty_db) =
    Some (Loaded ((restored <$> dbs) ++ replicate (dbnum - length dbs) empty_db)).
Proof.
  intros Hb Hn Hs Hi L body. assert (Forall byte magic) as Hm by (repeat (apply Forall_cons; split; [done|]); constructor).
  assert (Forall byte body) as Hbody by (apply Forall_app; split; [done|]; apply Forall_app; split; [done|by apply bytes_one]).
  unfold rdbLoad. set (data := body ++ _). set (r0 := mkRio data 0 None checks_sum 0 0 interval).
  assert (reading r0 [] (magic ++ w ++ [REDIS_RDB_OPCODE_EOF] ++ le_bytes 8 (sum_of body))) as R0.
  { split; [cbn; unfold data, body; by rewrite <- !app_assoc|done|unfold summed; cbn; by destruct checks_sum|done]. }
  destruct (rioRead_ok r0 [] magic _ 9 R0 Hm eq_refl) as (r1 & -> & R1 & U1). bsimpl. rewrite bool_decide_eq_true_2 by done. cbn [negb].
  change (strtoll (drop 5 magic ++ [0])) with (Some (6, 4%nat, false)). bsimpl. cbv zeta. change (s32 6) with 6. change ((6 <? 1) || (REDIS_RDB_VERSION <? 6)) with false. cbv iota.
  destruct (L 6 [] (replicate (dbnum - length dbs) empty_db) 0%nat eq_refl) as [j1 H1]; [cbn [app]; rewrite <- replicate_add, length_replicate; lia|].
  cbn [app] in H1. rewrite <- replicate_add in H1. replace (length dbs + (dbnum - length dbs))%nat with dbnum in H1 by lia.
  cbn [app] in R1. assert (length data = 18 + length w)%nat as Ld.
  { unfold data, body. pose proof (le_bytes_length 8 (sum_of body) ltac:(lia)). fold body. rewrite length_app. unfold body at 1. rewrite !length_app. change (length magic) with 9%nat. cbn [length]. lia. }
  destruct (H1 r1 magic _ (length data) R1 ltac:(lia)) as (r2 & f2 & -> & F2 & R2 & U2). apply load_end with (magic ++ w).
  - by rewrite <- app_assoc.
  - by rewrite <- app_assoc.
  - by rewrite U2, U1.
  - lia.
Qed.
End save_load.

(** C15. Saving any databases of strings writes a file, and loading it, at any
    later time and on a server with at least as many databases, restores
    exactly the keys that are not past their time (a replica keeps those past
    it too, if they were not when they were saved): every key with its text,
    encoded as an integer where it can be, and with its time; however the
    strings are stored (as integers, compressed or plain), whatever the byte
    order, and with checksums on or off at either end. *)
Theorem dump_restored `{Host} junk tab rdb_compression saved_sum saved masterhost now interval checks_sum dbs dbnum :
  (∀ i, pointer (tab i)) → Forall (Forall entry_ok) dbs → Forall (λ l, NoDup (e_key <$> l)) dbs →
  (length dbs ≤ dbnum)%nat → Z.of_nat dbnum < 2 ^ 32 → 0 ≤ interval →
  ∃ r, rdbSaveRio junk tab rdb_compression saved_sum dbs saved (rioInitWith [] None) = Some (Done tt, r) ∧
    rdbLoad checks_sum masterhost now interval (io_data r) (replicate dbnum empty_db) =
      Some (Loaded ((restored saved masterhost now <$> dbs) ++ replicate (dbnum - length dbs) empty_db)).
Proof.
  intros Htab Hd Hn Hl Hs Hi.
  destruct (save_dbs_ok junk tab rdb_compression saved Htab masterhost now checks_sum dbs 0 Hd Hn) as (w & B & E & L); [lia|].
  destruct (rdbSaveRio_emits junk tab rdb_compression saved_sum saved dbs w None B E I) as [(r & Er & _ & D)|(r & _ & Hno & _)]; [|by destruct Hno].
  exists r. split; [exact Er|]. rewrite D. by eapply rdbLoad_saved.
Qed.

(** C18. A dump to a file that takes only so many bytes either fits, and the
    file is then the same as without a limit, or is reported as failed; what
    was written before is then the beginning of that file. *)
Theorem dump_saved_or_failed `{Host} junk tab rdb_compression saved_sum saved dbs room :
  (∀ i, pointer (tab i)) → Forall (Forall entry_ok) dbs → Forall (λ l, NoDup (e_key <$> l)) dbs → len dbs < 2 ^ 32 → 0 ≤ room →
  let save room := rdbSaveRio junk tab rdb_compression saved_sum dbs saved (rioInitWith [] room) in
  ∃ whole, save None = Some (Done tt, whole) ∧
    ((∃ r, save (Some room) = Some (Done tt, r) ∧ len (io_data whole) ≤ room ∧ io_data r = io_data whole) ∨
     (∃ r, save (Some room) = Some (Failed, r) ∧ room < len (io_data whole) ∧ io_data r `prefix_of` io_data whole)).
Proof.
  intros Htab Hd Hn Hl Hr save.
  destruct (save_dbs_ok junk tab rdb_compression saved Htab false 0 false dbs 0 Hd Hn) as (w & B & E & _); [lia|].
  pose proof (rdbSaveRio_emits junk tab rdb_compression saved_sum saved dbs w) as Hem.
  destruct (Hem None B E I) as [(whole & Ew & _ & Dw)|(r & _ & Hno & _)]; [|by destruct Hno]. exists whole. split; [exact Ew|]. rewrite Dw.
  destruct (Hem (Some room) B E Hr) as [(r & Er & Hf & D)|(r & Er & Hf & D)]; [left|right]; exists r; (split; [exact Er|]); unfold has_room in Hf; (split; [lia|done]).
Qed.

(** ** Examples *)

Lemma text_ok_of t : forallb (λ b, (0 <=? b) && (b <? 256)) t && (len t <? 2 ^ 32 - 1) = true → text_ok t.
Proof.
  intros [Hb Hl]%andb_true_iff. split; [|lia]. apply list.Forall_forall. intros b Hin. rewrite forallb_forall in Hb. specialize (Hb b (proj1 (list_elem_of_In _ _) Hin)). unfold byte. lia.
Qed.

(** A number, a text with a time, a text past its time; a text that compresses. *)
Definition demo_dbs : list (list entry) :=
  [[mkEntry (str "n") (SInt 12) (-1); mkEntry (str "t") (SRaw (str "some text")) 5000; mkEntry (str "old") (SRaw (str "x")) 50];
   [mkEntry (str "z") (SRaw (replicate 40 97)) 200]].

Lemma demo_dbs_ok : Forall (Forall entry_ok) demo_dbs ∧ Forall (λ l, NoDup (e_key <$> l)) demo_dbs.
Proof.
  assert (∀ k t x, text_ok k → text_ok t → - 2 ^ 63 ≤ x < 2 ^ 63 → entry_ok (mkEntry k (SRaw t) x)) as Hraw by (intros k t x Hk Ht Hx; split; [done|]; split; [by exists t|done]).
  split; repeat (apply Forall_cons; split); try apply Forall_nil; try done.
  - split; [by apply text_ok_of|]. split; [|done]. exists (str "12"). split; [split; [by apply (proj1 (string2l_repr (str "12") 12))|done]|by apply text_ok_of].
  - by apply Hraw; [apply text_ok_of|apply text_ok_of|].
  - by apply Hraw; [apply text_ok_of|apply text_ok_of|].
  - by apply Hraw; [apply text_ok_of|apply text_ok_of|].
  - cbn [fmap list_fmap e_key]. apply (bool_decide_unpack _). by vm_compute.
  - cbn [fmap list_fmap e_key]. apply (bool_decide_unpack _). by vm_compute.
Qed.

Lemma zero_pointer (i : Z) : pointer 0.
Proof. unfold pointer. by vm_compute. Qed.

(** The dump of an empty server, as every dump reader knows it. *)
Example empty_dump : (λ o, match o with Some (Done _, r) => io_data r | _ => [] end)
    (rdbSaveRio (H := little_host) (λ _, 0) (λ _, 0) true true [] 100 (rioInitWith [] None)) =
  str "REDIS0006" ++ [255; 0xdc; 0xb3; 0x43; 0xf0; 0x5a; 0xdc; 0xf2; 0x56].
Proof. vm_compute. reflexivity. Qed.

Lemma dump_restored_witness :
  (∃ r, rdbSaveRio (H := big_host) (λ _, 0) (λ _, 0) true true demo_dbs 100 (rioInitWith [] None) = Some (Done tt, r) ∧
    rdbLoad (H := big_host) true false 300 2 (io_data r) (replicate 3 empty_db) =
      Some (Loaded ((restored 100 false 300 <$> demo_dbs) ++ replicate (3 - length demo_dbs) empty_db))) ∧
  (d_vals <$> (restored 100 false 300 <$> demo_dbs)) = [{[str "n" := SInt 12; str "t" := SRaw (str "some text")]}; ∅] ∧
  (d_exps <$> (restored 100 false 300 <$> demo_dbs)) = [{[str "t" := 5000]}; ∅].
Proof.
  split; [|split; vm_compute; reflexivity].
  apply (dump_restored (H := big_host)); [apply zero_pointer|apply demo_dbs_ok|apply demo_dbs_ok|cbn; lia|done|done].
Defined.

Lemma dump_saved_or_failed_witness :
  let save room := rdbSaveRio (H := little_host) (λ _, 0) (λ _, 0) true true demo_dbs 100 (rioInitWith [] room) in
  (∃ whole, save None = Some (Done tt, whole) ∧
    ((∃ r, save (Some 30) = Some (Done tt, r) ∧ len (io_data whole) ≤ 30 ∧ io_data r = io_data whole) ∨
     (∃ r, save (Some 30) = Some (Failed, r) ∧ 30 < len (io_data whole) ∧ io_data r `prefix_of` io_data whole))) ∧
  (λ o, match o with Some (Failed, r) => io_data r | _ => [] end) (save (Some 30)) = str "REDIS0006" ++ [254; 0; 0; 1; 110; 192; 12; 252; 136; 19; 0; 0; 0; 0; 0; 0; 0; 1; 116; 9].
Proof.
  split; [|vm_compute; reflexivity].
  apply (dump_saved_or_failed (H := little_host)); [apply zero_pointer|apply demo_dbs_ok|apply demo_dbs_ok|cbn; lia|lia].
Defined.
