(* ===== verification/RdbLoad.v ===== *)
(** * Dump files: loading arbitrary files

    The loader ends on every file, or stops at the first value that is no
    string, and stays in its buffers, but for one kind of damaged file
    ([load_ends]); which files it takes, and the part of the checksum in it, is
    [load_checks_sum]. *)

From S2P Require Import Prelude Endian Util Crc64 Lzf Sds Object Number Client Value Rio Rdb RdbSpec.
From stdpp Require Import gmap.
Local Open Scope Z_scope.

(** The file has a compressed string of no bytes: the byte that announces a
    compressed string is followed by the length 0. *)
Definition compressed_empty (data : list Z) : Prop :=
  ∃ pre rest r r' e, data = pre ++ 195 :: rest ∧ reading r (pre ++ [195]) rest ∧ rdbLoadLen r = Some (Done (e, 0), r').

(** [m] takes a part of what is to come; or, if [X] holds of the file, leaves
    its buffers. *)
Definition safe_at {A} (X : list Z → Prop) (Q : A → Prop) (m : io A) (r : rio) (pre rest : list Z) : Prop :=
  match m r with
  | None => X (pre ++ rest)
  | Some (o, r') => ∃ got rest', rest = got ++ rest' ∧ reading r' (pre ++ got) rest' ∧ update_cksum r' = update_cksum r ∧
      match o with Done a => Q a | _ => True end
  end.

(** Whatever is to come. *)
Definition safe {A} (X : list Z → Prop) (Q : A → Prop) (m : io A) : Prop :=
  ∀ r pre rest, reading r pre rest → Forall byte (pre ++ rest) → safe_at X Q m r pre rest.

Section safe_lemmas.
Context {A B : Type} (X : list Z → Prop).
Implicit Types Q : A → Prop.

Lemma safe_here Q (o : outcome A) r pre rest : reading r pre rest → match o with Done a => Q a | _ => True end →
  ∃ got rest', rest = got ++ rest' ∧ reading r (pre ++ got) rest' ∧ update_cksum r = update_cksum r ∧ match o with Done a => Q a | _ => True end.
Proof. intros Hr Ho. exists [], rest. by rewrite app_nil_r. Qed.

Lemma safe_ret Q a : Q a → safe X Q (mret a).
Proof. intros Ha r pre rest Hr _. by apply (safe_here Q (Done a)). Qed.

Lemma safe_fail Q : safe X Q io_fail.
Proof. intros r pre rest Hr _. by apply (safe_here Q Failed). Qed.

Lemma safe_panic Q : safe X Q io_panic.
Proof. intros r pre rest Hr _. by apply (safe_here Q Panicked). Qed.

Lemma safe_none Q (v : option A) : (∀ d, X d) → v = None → safe X Q (io_lift v).
Proof. intros HX -> r pre rest _ _. apply HX. Qed.

Lemma safe_lift Q (v : option A) a : v = Some a → Q a → safe X Q (io_lift v).
Proof. intros -> Ha r pre rest Hr _. unfold safe_at, io_lift. bsimpl. by apply (safe_here Q (Done a)). Qed.

Lemma safe_at_bind Q (R : B → Prop) (m : io A) (f : A → io B) r pre rest : Forall byte (pre ++ rest) →
  safe_at X Q m r pre rest → (∀ a r1, m r = Some (Done a, r1) → Q a → safe X R (f a)) → safe_at X R (m ≫= f) r pre rest.
Proof.
  intros Hb Hm Hf. unfold safe_at, mbind, io_bind in *. destruct (m r) as [[o r1]|] eqn:E; [|done].
  destruct Hm as (got & rest1 & -> & R1 & U1 & Ho). destruct o as [a| |]; [|by exists got, rest1..].
  specialize (Hf a r1 eq_refl Ho r1 (pre ++ got) rest1 R1). unfold safe_at in Hf. rewrite <- app_assoc in Hf. specialize (Hf Hb). destruct (f a r1) as [[o r2]|]; [|done].
  destruct Hf as (got2 & rest2 & -> & R2 & U2 & Ho2). exists (got ++ got2), rest2. split; [by rewrite app_assoc|]. by rewrite app_assoc, U2, U1.
Qed.

Lemma safe_bind Q (R : B → Prop) (m : io A) (f : A → io B) : safe X Q m → (∀ a, Q a → safe X R (f a)) → safe X R (m ≫= f).
Proof. intros Hm Hf r pre rest Hr Hb. eapply safe_at_bind; [done|by apply Hm|auto]. Qed.

End safe_lemmas.

(** Bytes of a given number. *)
Definition bytes_of (n : Z) (b : list Z) : Prop := Forall byte b ∧ len b = n.

Section loaders.
Context (X : list Z → Prop).

Lemma try_read_safe n : 0 ≤ n → safe X (λ b, match b with Some b => bytes_of n b | None => True end) (try_read n).
Proof.
  intros Hn r pre rest Hr Hb. apply Forall_app in Hb as [_ Hb]. unfold safe_at, try_read.
  destruct (rioRead_any r pre rest n Hr Hb Hn) as (b & r' & m & rest' & -> & -> & R & U & Hm). bsimpl. exists m, rest'. split; [done|]. split; [done|]. split; [done|].
  destruct b; [|done]. destruct Hm as [-> Hl]. apply Forall_app in Hb as [Hb _]. by split.
Qed.

Lemma io_read_safe n : 0 ≤ n → safe X (bytes_of n) (io_read n).
Proof. intros Hn. eapply safe_bind; [by apply try_read_safe|]. intros [b|]; [apply safe_ret|intros _; apply safe_fail]. Qed.

Lemma mget_safe {B} (R : B → Prop) n b i (f : Z → io B) : bytes_of n b → 0 ≤ i < n → (∀ x, byte x → safe X R (f x)) → safe X R (io_lift (mget b i) ≫= f).
Proof.
  intros [Hb Hl] Hi Hf. destruct (mget_byte b i Hb) as (x & Ex & Hx); [lia|]. apply (safe_bind X byte); [by eapply safe_lift|exact Hf].
Qed.

Lemma rdbLoadType_safe : safe X byte rdbLoadType.
Proof.
  eapply safe_bind; [by apply io_read_safe|]. intros b [Hb Hl]. destruct (mget_byte b 0 Hb) as (x & Ex & Hx); [lia|]. by eapply safe_lift.
Qed.

Lemma rdbLoadLen_safe : safe X (λ '(_, n), 0 ≤ n) rdbLoadLen.
Proof.
  eapply safe_bind; [by apply try_read_safe|]. intros [b|] Hb; [|by apply safe_ret]. eapply mget_safe; [exact Hb|lia|]. intros x Hx. unfold byte in Hx. cbv zeta.
  assert (0 ≤ Z.land x 63) by (apply Z.land_nonneg; lia).
  destruct (_ =? _); [by apply safe_ret|]. destruct (_ =? _); [by apply safe_ret|]. destruct (_ =? _).
  - eapply safe_bind; [by apply try_read_safe|]. intros [b'|] Hb'; [|by apply safe_ret]. eapply mget_safe; [exact Hb'|lia|]. intros y Hy. apply safe_ret.
    unfold byte in Hy. apply Z.lor_nonneg. split; [apply Z.shiftl_nonneg|]; lia.
  - eapply safe_bind; [by apply try_read_safe|]. intros [b'|] Hb'; [|by apply safe_ret]. apply safe_ret. destruct Hb' as [Hb' _]. apply le_val_bound. by apply Forall_reverse.
Qed.

Lemma rdbLoadIntegerObject_safe n encode : safe X (λ _, True) (rdbLoadIntegerObject n encode).
Proof.
  unfold rdbLoadIntegerObject. apply safe_bind with (λ v, LLONG_MIN ≤ v ≤ LLONG_MAX).
  - unfold LLONG_MIN, LLONG_MAX. repeat case_match; [| | |apply safe_panic]; (eapply safe_bind; [by apply io_read_safe|]); intros b Hb;
      repeat (eapply mget_safe; [exact Hb|lia|]; intros ? _); apply safe_ret.
    + pose proof (swrap_bound 8 x). lia.
    + pose proof (swrap_bound 16 (Z.lor x (Z.shiftl x0 8))). lia.
    + pose proof (swrap_bound 32 (Z.lor (Z.lor (Z.lor x (Z.shiftl x0 8)) (Z.shiftl x1 16)) (Z.shiftl x2 24))). lia.
  - intros v Hv. destruct encode; [by apply safe_ret|]. destruct (digits_of_ok v Hv) as (t & Et & _). apply (safe_bind X (λ _, True)); [by eapply safe_lift|]. intros. by apply safe_ret.
Qed.

Lemma rdbLoadLzf_tail_safe clen n : 0 ≤ clen → 0 ≤ n → (clen = 0 → ∀ d, X d) → safe X (λ _, True)
  (c ← io_read clen; '(k, _, val) ← io_lift (lzf_decompress c (replicate (Z.to_nat n) 0)); if k =? 0 then io_fail else mret (SRaw val)).
Proof.
  intros Hc Hn HX. eapply safe_bind; [by apply io_read_safe|]. intros c [Hb Hl]. apply (safe_bind X (λ _, True)).
  - destruct (Z.eq_dec clen 0) as [E0|E0].
    + apply safe_none; [auto|]. destruct c; [reflexivity|cbn in Hl; lia].
    + destruct (decompress_loop_safe (length c + 1) c (replicate (Z.to_nat n) 0) 0 0) as (k & e & o & E & _); [done|lia..|]. by eapply safe_lift.
  - intros [[k e] val] _. destruct (k =? 0); [apply safe_fail|by apply safe_ret].
Qed.
End loaders.

(** The byte of a compressed string. *)
Lemma rdbLoadLen_lzf r pre rest r' : reading r pre rest → Forall byte rest → rdbLoadLen r = Some (Done (true, REDIS_RDB_ENC_LZF), r') →
  ∃ rest', rest = 195 :: rest' ∧ reading r' (pre ++ [195]) rest'.
Proof.
  intros Hr Hb. unfold rdbLoadLen, mbind, io_bind, try_read. destruct (rioRead_any r pre rest 1 Hr Hb) as (b & r1 & m & rest1 & -> & -> & R1 & _ & Hm); [lia|]. bsimpl.
  destruct b as [b|]; [|done]. destruct Hm as [-> Hl]. destruct m as [|x [|]]; [cbn in Hl; lia| |cbn in Hl; lia]. unfold io_lift at 1. rewrite mget_head. bsimpl.
  apply Forall_app in Hb as [Hx _]. apply Forall_inv in Hx. unfold byte in Hx.
  assert (x = x / 64 * 64 + x mod 64) as Ex by (pose proof (Z.div_mod x 64); lia). assert (0 ≤ x / 64 < 4) as Ht by (split; [apply Z.div_pos; lia|apply Z.div_lt_upper_bound; lia]).
  pose proof (Z.mod_pos_bound x 64 ltac:(lia)) as Hlo. rewrite Ex. destruct (tag_parts (x mod 64) (x / 64) Hlo Ht) as [-> ->].
  destruct (Z.eqb_spec (x / 64) REDIS_RDB_ENCVAL) as [E|E].
  - intros [= El <-]. exists rest1. assert (x = 195) as -> by (unfold REDIS_RDB_ENCVAL, REDIS_RDB_ENC_LZF in *; lia). done.
  - destruct (_ =? _); [done|]. destruct (_ =? _).
    + destruct (rioRead r1 1) as [[[b|] r2]|]; bsimpl; [|done|done]. unfold io_lift. destruct (mget b 0); bsimpl; done.
    + destruct (rioRead r1 4) as [[[b|] r2]|]; bsimpl; done.
Qed.

Lemma rdbLoadLzf_safe r pre rest : reading r (pre ++ [195]) rest → Forall byte (pre ++ 195 :: rest) →
  safe_at (λ _, compressed_empty (pre ++ 195 :: rest)) (λ _, True) rdbLoadLzfStringObject r (pre ++ [195]) rest.
Proof.
  intros Hr Hb. rewrite (app_assoc pre [195] rest : pre ++ 195 :: rest = _) in Hb. eapply safe_at_bind; [done|by apply rdbLoadLen_safe|].
  intros [e clen] r1 E1 Hc. destruct (_ =? _); [apply safe_fail|]. eapply safe_bind; [apply rdbLoadLen_safe|]. intros [e2 n] Hn. destruct (_ =? _); [apply safe_fail|].
  apply rdbLoadLzf_tail_safe; [done|done|]. intros -> _. by exists pre, rest, r, r1, e.
Qed.

Lemma rdbGenericLoadStringObject_safe encode : safe compressed_empty (λ _, True) (rdbGenericLoadStringObject encode).
Proof.
  intros r pre rest Hr Hb. pose proof (proj2 (proj1 (Forall_app _ _ _) Hb)) as Hbr.
  assert ((∃ r1, rdbLoadLen r = Some (Done (true, REDIS_RDB_ENC_LZF), r1)) ∨ ∀ r1, rdbLoadLen r ≠ Some (Done (true, REDIS_RDB_ENC_LZF), r1)) as [[r1 E1]|Hno].
  { destruct (rdbLoadLen r) as [[[[[] n]| |] r1]|]; try (right; congruence). destruct (Z.eq_dec n REDIS_RDB_ENC_LZF) as [->|]; [left; by exists r1|right; congruence]. }
  - destruct (rdbLoadLen_lzf r pre rest r1 Hr Hbr E1) as (rest1 & -> & R1). pose proof (rdbLoadLzf_safe r1 pre rest1 R1 Hb) as Hs.
    assert (rdbGenericLoadStringObject encode r = rdbLoadLzfStringObject r1) as E by (unfold rdbGenericLoadStringObject, mbind, io_bind; by rewrite E1).
    unfold safe_at in *. rewrite E. destruct (rdbLoadLzfStringObject r1) as [[o r2]|]; [|done]. destruct Hs as (got & rest2 & -> & R2 & U2 & _).
    pose proof (rdbLoadLen_safe compressed_empty r pre _ Hr Hb) as Hl. unfold safe_at in Hl. rewrite E1 in Hl. destruct Hl as (? & ? & _ & _ & U1 & _).
    exists (195 :: got), rest2. split; [done|]. split; [by rewrite <- app_assoc in R2|]. split; [congruence|by destruct o].
  - eapply safe_at_bind; [done|by apply rdbLoadLen_safe|]. intros [isencoded n] r1 E1 Hn. destruct isencoded.
    + destruct (_ || _); [apply rdbLoadIntegerObject_safe|]. destruct (Z.eqb_spec n REDIS_RDB_ENC_LZF) as [->|]; [by destruct (Hno r1)|apply safe_panic].
    + destruct (_ =? _); [apply safe_fail|]. destruct (_ =? _); [by apply safe_ret|]. eapply safe_bind; [by apply io_read_safe|]. intros. by apply safe_ret.
Qed.

Section load.
Context `{Host} (masterhost : bool) (now interval : Z) (rdb_checksum : bool).

Abbreviation any := (λ _, True).

Lemma rdbLoadObject_safe type : safe compressed_empty any (rdbLoadObject type).
Proof.
  unfold rdbLoadObject. destruct (_ =? _); [|destruct (rdbIsObjectType type); [|apply safe_panic]].
  - eapply safe_bind; [apply rdbGenericLoadStringObject_safe|]. intros. by apply safe_ret.
  - by apply safe_ret.
Qed.

Lemma rdbLoadTime_safe : safe compressed_empty any rdbLoadTime.
Proof. eapply safe_bind; [by apply io_read_safe|]. intros. by apply safe_ret. Qed.

Lemma rdbLoadMillisecondTime_safe : safe compressed_empty any rdbLoadMillisecondTime.
Proof. eapply safe_bind; [by apply io_read_safe|]. intros. by apply safe_ret. Qed.

Lemma rdbLoadType_any : safe compressed_empty any rdbLoadType.
Proof. intros r pre rest Hr Hb. pose proof (rdbLoadType_safe compressed_empty r pre rest Hr Hb) as Hs. unfold safe_at in *. destruct (rdbLoadType r) as [[o r1]|]; [|done]. destruct Hs as (g & r2 & ? & ? & ? & _). exists g, r2. by destruct o. Qed.
Definition in_range (t : turn) : Prop := match t with Next db dbs => (db < length dbs)%nat | _ => True end.

Lemma add_key_safe (dbs : list (database)) db k v t : (db < length dbs)%nat → safe compressed_empty (λ dbs', length dbs' = length dbs) (add_key dbs db k v t).
Proof.
  intros Hdb. unfold add_key. destruct (lookup_lt_is_Some_2 dbs db Hdb) as [d Ed]. apply (safe_bind _ any); [by eapply safe_lift|]. intros d' _.
  destruct (d_vals d' !! k); [apply safe_panic|]. apply safe_ret. by rewrite length_insert.
Qed.

(** What follows the first byte of a turn. *)
Lemma load_turn_safe db dbs : (db < length dbs)%nat → ∃ f, load_turn masterhost now db dbs = rdbLoadType ≫= f ∧ ∀ type, safe compressed_empty in_range (f type).
Proof.
  intros Hdb. eexists. split; [reflexivity|]. intros type. apply (safe_bind _ any).
  - repeat case_match; [| |by apply safe_ret].
    + eapply safe_bind; [apply rdbLoadTime_safe|]. intros t _. destruct (t =? -1); [apply safe_fail|]. eapply safe_bind; [apply rdbLoadType_any|]. intros. by apply safe_ret.
    + eapply safe_bind; [apply rdbLoadMillisecondTime_safe|]. intros t _. destruct (t =? -1); [apply safe_fail|]. eapply safe_bind; [apply rdbLoadType_any|]. intros. by apply safe_ret.
  - intros [type' t] _. destruct (_ =? _); [by apply safe_ret|]. destruct (_ =? _).
    + eapply safe_bind; [apply rdbLoadLen_safe|]. intros [e n] Hn. destruct (_ =? _); [apply safe_fail|]. destruct (Z.leb_spec (len dbs) n); apply safe_ret; cbn; [done|lia].
    + eapply safe_bind; [apply rdbGenericLoadStringObject_safe|]. intros key _. eapply safe_bind; [apply rdbLoadObject_safe|]. intros [val|] _; [|by apply safe_ret].
      destruct (negb masterhost && negb (t =? -1) && (t <? now)); [by apply safe_ret|]. destruct key; [apply safe_panic|]. eapply safe_bind; [by apply add_key_safe|]. intros dbs' Hl. apply safe_ret. cbn in *. lia.
Qed.

Lemma memrev64ifbe_val b : len b = 8 → ∃ m, memrev64ifbe b = Some m ∧ host_val m = le_val b.
Proof.
  intros Hl. unfold memrev64ifbe, host_val. destruct big_endian; [|by exists b]. exists (reverse b). split; [by apply memrev64_reverse|]. by rewrite reverse_involutive.
Qed.

Lemma rdbLoadType_step r pre rest : reading r pre rest → Forall byte rest →
  (∃ r', rdbLoadType r = Some (Failed, r')) ∨
  ∃ x rest' r', rest = x :: rest' ∧ rdbLoadType r = Some (Done x, r') ∧ reading r' (pre ++ [x]) rest' ∧ update_cksum r' = update_cksum r.
Proof.
  intros Hr Hb. unfold rdbLoadType, io_read, mbind, io_bind, try_read. destruct (rioRead_any r pre rest 1 Hr Hb) as (b & r1 & m & rest1 & -> & -> & R1 & U1 & Hm); [lia|]. bsimpl.
  destruct b as [b|]; [right|left; by exists r1]. destruct Hm as [-> Hl]. destruct m as [|x [|]]; [cbn in Hl; lia| |cbn in Hl; lia]. by exists x, rest1, r1.
Qed.

(** A turn that does not fail takes at least a byte. *)
Lemma load_turn_step db dbs r pre rest : reading r pre rest → Forall byte (pre ++ rest) → (db < length dbs)%nat →
  match load_turn masterhost now db dbs r with
  | None => compressed_empty (pre ++ rest)
  | Some (Done t, r') => ∃ got rest', rest = got ++ rest' ∧ got ≠ [] ∧ reading r' (pre ++ got) rest' ∧ update_cksum r' = update_cksum r ∧ in_range t
  | Some _ => True
  end.
Proof.
  intros Hr Hb Hdb. destruct (load_turn_safe db dbs Hdb) as (f & -> & Hs). pose proof (proj2 (proj1 (Forall_app _ _ _) Hb)) as Hbr. unfold mbind, io_bind.
  destruct (rdbLoadType_step r pre rest Hr Hbr) as [[r1 ->]|(x & rest1 & r1 & -> & -> & R1 & U1)]; [done|].
  change (pre ++ x :: rest1) with (pre ++ [x] ++ rest1) in *. rewrite app_assoc in *. specialize (Hs x r1 _ _ R1 Hb). unfold safe_at in Hs.
  destruct (f x r1) as [[[t| |] r2]|]; try done. destruct Hs as (got & rest2 & -> & R2 & U2 & Ht). exists (x :: got), rest2.
  split; [done|]. split; [done|]. split; [by rewrite <- app_assoc in R2|]. split; [congruence|done].
Qed.

Lemma bind_done {A B} (m : io A) (f : A → io B) b r r' : (m ≫= f) r = Some (Done b, r') → ∃ a r1, m r = Some (Done a, r1) ∧ f a r1 = Some (Done b, r').
Proof. unfold mbind, io_bind. destruct (m r) as [[[a| |] r1]|]; try done. intros E. by exists a, r1. Qed.

Lemma safe_done {A} X (Q : A → Prop) (m : io A) a r r' pre rest : safe X Q m → reading r pre rest → Forall byte (pre ++ rest) → m r = Some (Done a, r') →
  ∃ got rest', rest = got ++ rest' ∧ reading r' (pre ++ got) rest' ∧ update_cksum r' = update_cksum r.
Proof. intros Hm Hr Hb E. specialize (Hm r pre rest Hr Hb). unfold safe_at in Hm. rewrite E in Hm. destruct Hm as (got & rest' & ? & ? & ? & _). by exists got, rest'. Qed.

Lemma type_read r pre rest x r' : reading r pre rest → Forall byte (pre ++ rest) → rdbLoadType r = Some (Done x, r') →
  ∃ rest', rest = x :: rest' ∧ reading r' (pre ++ [x]) rest' ∧ update_cksum r' = update_cksum r.
Proof.
  intros Hr Hb E. pose proof (proj2 (proj1 (Forall_app _ _ _) Hb)) as Hbr. destruct (rdbLoadType_step r pre rest Hr Hbr) as [[r1 E1]|(y & rest1 & r1 & -> & E1 & R1 & U1)]; [congruence|].
  rewrite E1 in E. injection E as <- <-. by exists rest1.
Qed.

(** The type was read last. *)
Definition ends_with (r r' : rio) (pre rest : list Z) (x : Z) : Prop :=
  ∃ got rest', rest = got ++ x :: rest' ∧ reading r' ((pre ++ got) ++ [x]) rest' ∧ update_cksum r' = update_cksum r.

Lemma type_after (m : io Z) (g : Z → Z) a r r' pre rest : safe compressed_empty any m → reading r pre rest → Forall byte (pre ++ rest) →
  (t ← m; if t =? -1 then io_fail else type ← rdbLoadType; mret (type, g t)) r = Some (Done a, r') → ends_with r r' pre rest (fst a).
Proof.
  intros Hm Hr Hb (t & r1 & E1 & E2)%bind_done. destruct (safe_done _ _ _ _ _ _ _ _ Hm Hr Hb E1) as (got & rest1 & -> & R1 & U1). rewrite app_assoc in Hb.
  destruct (t =? -1); [done|]. apply bind_done in E2 as (x & r2 & E2 & [= <- <-]). destruct (type_read _ _ _ _ _ R1 Hb E2) as (rest2 & -> & R2 & U2).
  exists got, rest2. split; [done|]. split; [done|congruence].
Qed.

(** The type a turn reads last, behind the time if there is one. *)
Lemma load_turn_type db dbs r t r' pre rest : reading r pre rest → Forall byte (pre ++ rest) → load_turn masterhost now db dbs r = Some (Done t, r') →
  ∃ type r1, ends_with r r1 pre rest type ∧
    match t with Eof => type = REDIS_RDB_OPCODE_EOF ∧ r1 = r' | Other => rdbIsObjectType type = true ∧ type ≠ REDIS_RDB_TYPE_STRING | _ => True end.
Proof.
  intros Hr Hb (type & r1 & E1 & E2)%bind_done. destruct (type_read _ _ _ _ _ Hr Hb E1) as (rest1 & -> & R1 & U1).
  change (pre ++ type :: rest1) with (pre ++ [type] ++ rest1) in Hb. rewrite app_assoc in Hb. apply bind_done in E2 as ([type' t'] & r2 & E2 & E3). exists type', r2. split.
  - assert (ends_with r1 r2 (pre ++ [type]) rest1 type' ∨ r2 = r1 ∧ type' = type) as [(got & rest2 & -> & R2 & U2)|[-> ->]].
    { destruct (_ =? REDIS_RDB_OPCODE_EXPIRETIME); [left; by apply (type_after _ (λ t, t * 1000) _ _ _ _ _ rdbLoadTime_safe R1 Hb) in E2|].
      destruct (_ =? REDIS_RDB_OPCODE_EXPIRETIME_MS); [left; by apply (type_after _ id _ _ _ _ _ rdbLoadMillisecondTime_safe R1 Hb) in E2|right; by injection E2 as -> _ ->]. }
    + exists (type :: got), rest2. split; [done|]. split; [|congruence]. change (type :: got) with ([type] ++ got). by rewrite (app_assoc pre [type] got).
    + exists [], rest1. by rewrite app_nil_r.
  - destruct (Z.eqb_spec type' REDIS_RDB_OPCODE_EOF) as [->|_]; [by injection E3 as <- <-|]. destruct (type' =? REDIS_RDB_OPCODE_SELECTDB).
    + apply bind_done in E3 as ([e n] & r3 & _ & E3). repeat case_match; simplify_eq; done.
    + apply bind_done in E3 as (key & r3 & _ & E3). apply bind_done in E3 as ([val|] & r4 & E4 & E3).
      * destruct (_ && _); [by injection E3 as <- _|]. destruct key; [done|]. apply bind_done in E3 as (? & ? & _ & E3). by injection E3 as <- _.
      * injection E3 as <- _. unfold rdbLoadObject in E4. destruct (Z.eqb_spec type' REDIS_RDB_TYPE_STRING) as [->|Hne]; [by apply bind_done in E4 as (? & ? & _ & E4)|].
        by destruct (rdbIsObjectType type').
Qed.

Lemma load_turn_eof db dbs r r' pre rest : reading r pre rest → Forall byte (pre ++ rest) →
  load_turn masterhost now db dbs r = Some (Done Eof, r') → ends_with r r' pre rest REDIS_RDB_OPCODE_EOF.
Proof. intros Hr Hb E. by destruct (load_turn_type _ _ _ _ _ _ _ Hr Hb E) as (type & r1 & He & -> & ->). Qed.

(** The file has the number of a type that is not that of strings. *)
Definition has_other (data : list Z) : Prop := ∃ front type rest, data = front ++ type :: rest ∧ rdbIsObjectType type = true ∧ type ≠ REDIS_RDB_TYPE_STRING.

Lemma load_loop_unread fuel : ∀ ver db dbs r pre rest, reading r pre rest → Forall byte (pre ++ rest) → (db < length dbs)%nat →
  load_loop rdb_checksum masterhost now fuel ver db dbs r = Some Unread → has_other (pre ++ rest).
Proof.
  induction fuel as [|fuel IH]; intros ver db dbs r pre rest Hr Hb Hdb E; [done|]. cbn [load_loop] in E.
  pose proof (load_turn_step db dbs r pre rest Hr Hb Hdb) as Hs. destruct (load_turn _ _ db dbs r) as [[[t| |] r1]|] eqn:Et; bsimpl in E; [|done..].
  destruct (load_turn_type _ _ _ _ _ _ _ Hr Hb Et) as (type & r2 & (g & t2 & -> & _) & Ht). destruct t as [|db' dbs'| |]; [| |done|].
  - destruct (_ && _); [|done]. destruct (rioRead r1 8) as [[[b|] r3]|]; bsimpl in E; [|done..]. destruct (memrev64ifbe b); bsimpl in E; [|done]. repeat case_match; done.
  - destruct Hs as (got & rest1 & Eg & Hne & R1 & _ & Hd). rewrite Eg, app_assoc in *. by eapply IH.
  - exists (pre ++ g), type, t2. by rewrite <- app_assoc.
Qed.

(** The turns from the state [r] up to the end mark, and what they load. *)
Inductive parsed : nat → list database → rio → list database → rio → Prop :=
| parsed_end db dbs r r' : load_turn masterhost now db dbs r = Some (Done Eof, r') → parsed db dbs r dbs r'
| parsed_turn db dbs r db1 dbs1 r1 dbs' r' : load_turn masterhost now db dbs r = Some (Done (Next db1 dbs1), r1) → parsed db1 dbs1 r1 dbs' r' → parsed db dbs r dbs' r'.

Lemma parsed_once db dbs r d1 r1 d2 r2 : parsed db dbs r d1 r1 → parsed db dbs r d2 r2 → d1 = d2 ∧ r1 = r2.
Proof.
  induction 1 as [db dbs r r' E|db dbs r db1 dbs1 r1 dbs' r' E Hp IH]; inversion 1; subst; try congruence.
  - split; [done|congruence].
  - apply IH. congruence.
Qed.

(** The turns end right behind the end mark. *)
Lemma parsed_reading db dbs r dbs' r' : parsed db dbs r dbs' r' → ∀ pre rest, reading r pre rest → Forall byte (pre ++ rest) → (db < length dbs)%nat →
  ends_with r r' pre rest REDIS_RDB_OPCODE_EOF.
Proof.
  induction 1 as [db dbs r r' E|db dbs r db1 dbs1 r1 dbs' r' E Hp IH]; intros pre rest Hr Hb Hdb.
  - by eapply load_turn_eof.
  - pose proof (load_turn_step db dbs r pre rest Hr Hb Hdb) as Hs. rewrite E in Hs. destruct Hs as (got & rest1 & -> & _ & R1 & U1 & Ht). rewrite app_assoc in Hb.
    destruct (IH (pre ++ got) rest1 R1 Hb Ht) as (got2 & rest2 & -> & R2 & U2). exists (got ++ got2), rest2. rewrite <- !app_assoc in *. split; [done|]. split; [done|congruence].
Qed.

(** The check of the sum, behind the end mark. *)
Definition checked (rdbver : Z) (dbs : list database) (r : rio) : option load_result :=
  if (rdbver >=? 5) && rdb_checksum then
    '(b, _) ← rioRead r 8;
    match b with
    | None => Some Exited
    | Some b =>
        m ← memrev64ifbe b;
        Some (if host_val m =? 0 then Loaded dbs else if negb (host_val m =? cksum r) then Exited else Loaded dbs)
    end
  else Some (Loaded dbs).

(** Eight bytes are there, and are zero or the sum of what is in front. *)
Definition sum_ok (rdbver : Z) (front tail : list Z) : Prop :=
  rdb_checksum = true → 5 ≤ rdbver → 8 ≤ len tail ∧ (le_val (take 8 tail) = 0 ∨ le_val (take 8 tail) = crc_bits 0 front).

Lemma checked_ok ver dbs r front tail : reading r front tail → Forall byte (front ++ tail) → update_cksum r = rdb_checksum →
  ∃ res, checked ver dbs r = Some res ∧ (res = Loaded dbs ∨ res = Exited) ∧ (res = Loaded dbs ↔ sum_ok ver front tail).
Proof.
  intros Hr Hb Hu. unfold checked, sum_ok. rewrite Z.geb_leb. destruct (Z.leb_spec 5 ver) as [Hv|Hv], rdb_checksum; cbn [andb];
    try (eexists; split; [reflexivity|]; split; [by left|]; by split; [intros _; try done; intros; lia|]).
  destruct (rioRead_any r _ _ 8 Hr (proj2 (proj1 (Forall_app _ _ _) Hb))) as (b & r2 & m & rest & -> & Et & R2 & _ & Hm); [lia|]. bsimpl. destruct b as [b|].
  2:{ exists Exited. split; [done|]. split; [by right|]. split; [done|]. intros Hs. destruct (Hs eq_refl Hv) as [Hl _]. lia. }
  subst tail. destruct Hm as [-> Hl]. destruct (memrev64ifbe_val m Hl) as (m' & -> & Em). bsimpl. rewrite Em. pose proof (rd_sum _ _ _ Hr) as Hs. unfold summed in Hs. rewrite Hu in Hs.
  eexists. split; [reflexivity|]. rewrite take_app_length' by lia. rewrite <- Hs.
  destruct (Z.eqb_spec (le_val m) 0) as [E0|E0]; [split; [by left|]; split; [|done]; intros _ _ _; rewrite length_app; split; [lia|by left]|].
  destruct (Z.eqb_spec (le_val m) (cksum r)) as [E|E]; cbn [negb].
  - split; [by left|]. split; [|done]. intros _ _ _. rewrite length_app. split; [lia|by right].
  - split; [by right|]. split; [done|]. intros Hk. destruct (Hk eq_refl Hv) as [_ [?|?]]; congruence.
Qed.

(** What the loop comes to. *)
Lemma load_loop_parses fuel : ∀ ver db dbs r pre rest, reading r pre rest → Forall byte (pre ++ rest) → (db < length dbs)%nat → (length rest < fuel)%nat →
  match load_loop rdb_checksum masterhost now fuel ver db dbs r with
  | None => compressed_empty (pre ++ rest) ∨ ∃ dbs' r', parsed db dbs r dbs' r' ∧ checked ver dbs' r' = None
  | Some (Loaded dbs') => ∃ r' dbs1, parsed db dbs r dbs1 r' ∧ checked ver dbs1 r' = Some (Loaded dbs')
  | Some _ => ∀ dbs' r', parsed db dbs r dbs' r' → checked ver dbs' r' ≠ Some (Loaded dbs')
  end.
Proof.
  induction fuel as [|fuel IH]; intros ver db dbs r pre rest Hr Hb Hdb Hf; [lia|]. cbn [load_loop].
  pose proof (load_turn_step db dbs r pre rest Hr Hb Hdb) as Hs. destruct (load_turn _ _ db dbs r) as [[[t| |] r1]|] eqn:Et; bsimpl; [|by inversion 1; subst; congruence..|by left].
  destruct t as [|db' dbs'| |]; [| |by inversion 1; subst; congruence..].
  - fold (checked ver dbs r1). destruct (checked ver dbs r1) as [[dbs'| | | |]|] eqn:Ec; try (intros d' r'; inversion 1; subst; congruence).
    + exists r1, dbs. split; [by constructor|done].
    + right. exists dbs, r1. split; [by constructor|done].
  - destruct Hs as (got & rest1 & -> & Hne & R1 & _ & Ht). rewrite app_assoc in *. specialize (IH ver db' dbs' r1 (pre ++ got) rest1 R1 Hb Ht).
    assert (length rest1 < fuel)%nat as Hl by (destruct got; [done|]; cbn [length app] in Hf; rewrite length_app in Hf; lia). specialize (IH Hl).
    destruct (load_loop _ _ _ fuel ver db' dbs' r1) as [[d'| | | |]|]; try (intros d2 r2; inversion 1; subst; [congruence|]; apply IH; congruence).
    + destruct IH as (r' & dbs1 & Hp & E). exists r', dbs1. split; [by econstructor|done].
    + destruct IH as [?|(d2 & r2 & Hp & E)]; [by left|right]. exists d2, r2. split; [by econstructor|done].
Qed.

(** The state the file is read from. *)
Definition opened (data : list Z) : rio := mkRio data 0 None rdb_checksum 0 0 interval.

(** The first nine bytes are a name and a version that is supported. *)
Definition header (data : list Z) (rdbver : Z) : Prop :=
  take 5 data = str "REDIS" ∧ (∃ v n e, strtoll (drop 5 (take 9 data) ++ [0]) = Some (v, n, e) ∧ rdbver = s32 v) ∧ 1 ≤ rdbver ≤ REDIS_RDB_VERSION.

(** The file is of the version [rdbver] and holds, after its header, keys with
    strings that are loaded as [dbs'], up to the end mark; [front] is the file
    up to the end mark and with it, and [tail] what is behind. *)
Definition file_of (data : list Z) (dbs : list database) (rdbver : Z) (dbs' : list database) (front tail : list Z) : Prop :=
  header data rdbver ∧ data = front ++ tail ∧
  ∃ r r', rioRead (opened data) 9 = Some (Some (take 9 data), r) ∧ parsed 0 dbs r dbs' r' ∧ io_pos r' = len front.

Lemma rdbLoad_parses data dbs : Forall byte data → 0 ≤ interval → dbs ≠ [] →
  match rdbLoad rdb_checksum masterhost now interval data dbs with
  | None => compressed_empty data
  | Some res => ∀ dbs', res = Loaded dbs' ↔ ∃ rdbver front tail, file_of data dbs rdbver dbs' front tail ∧ sum_ok rdbver front tail
  end.
Proof.
  intros Hb Hi Hd. unfold rdbLoad. fold (opened data).
  assert (reading (opened data) [] data) as R0 by (split; [done|done|unfold summed; cbn; by destruct rdb_checksum|done]).
  destruct (rioRead_any (opened data) [] data 9 R0 Hb) as (b & r1 & m & rest & Er & Ed & R1 & U1 & Hm); [lia|]. rewrite Er. bsimpl. destruct b as [b|].
  2:{ intros dbs'. split; [done|]. intros (v & f & t & (_ & _ & r & r' & E & _) & _). congruence. }
  destruct Hm as [-> Hl]. assert (take 9 data = m) as E9 by (rewrite Ed; by rewrite take_app_length' by lia).
  assert (take 5 data = take 5 m) as E5 by (rewrite <- E9, take_take; done).
  destruct (bool_decide_reflect (take 5 m = str "REDIS")) as [Em|Em]; cbn [negb].
  2:{ intros dbs'. split; [done|]. intros (v & f & t & ((E & _) & _) & _). congruence. }
  destruct (strtoll_total (drop 5 m) []) as (v & n & e & y & Es & _). rewrite Es. bsimpl. cbv zeta.
  destruct (Z.ltb_spec (s32 v) 1) as [Hv|Hv], (Z.ltb_spec REDIS_RDB_VERSION (s32 v)) as [Hv'|Hv']; cbn [orb];
    try (intros dbs'; split; [done|]; intros (v' & f & t & ((_ & (v2 & n2 & e2 & E & ->) & Hr) & _) & _); rewrite E9, Es in E; injection E as <- <- <-; lia).
  assert (0 < length dbs)%nat as Hdb by (destruct dbs; [done|cbn; lia]). rewrite Ed in Hb. cbn [app] in R1.
  assert (length rest < length data)%nat as Hf by (rewrite Ed, length_app; lia).
  pose proof (load_loop_parses (length data) (s32 v) 0 dbs r1 m rest R1 Hb Hdb Hf) as Hp.
  assert (header data (s32 v)) as Hh by (split; [congruence|]; rewrite E9; split; [by exists v, n, e|lia]).
  assert (∀ dbs' r', parsed 0 dbs r1 dbs' r' → ∃ front tail, data = front ++ tail ∧ io_pos r' = len front ∧
    ∃ res, checked (s32 v) dbs' r' = Some res ∧ (res = Loaded dbs' ∨ res = Exited) ∧ (res = Loaded dbs' ↔ sum_ok (s32 v) front tail)) as Hend.
  { intros dbs' r' Hpar. destruct (parsed_reading _ _ _ _ _ Hpar m rest R1 Hb Hdb) as (got & tail & -> & R2 & U2).
    exists ((m ++ got) ++ [REDIS_RDB_OPCODE_EOF]), tail. split; [by rewrite Ed, <- !app_assoc|]. split; [exact (rd_pos _ _ _ R2)|]. apply checked_ok; [done| |by rewrite U2, U1].
    by rewrite <- !app_assoc. }
  destruct (load_loop _ _ _ _ _ _ _ _) as [res|].
  2:{ destruct Hp as [Hp|(dbs' & r' & Hpar & E)]; [by rewrite Ed|]. destruct (Hend dbs' r' Hpar) as (f & t & _ & _ & res & E' & _). congruence. }
  intros dbs'. split.
  - intros ->. destruct Hp as (r' & dbs1 & Hpar & E). destruct (Hend dbs1 r' Hpar) as (f & t & E1 & E2 & res & E3 & E4 & E5'). rewrite E in E3. injection E3 as <-.
    assert (dbs' = dbs1) as -> by (destruct E4 as [E4|E4]; congruence). exists (s32 v), f, t. split; [|by apply E5']. split; [done|]. split; [done|].
    exists r1, r'. by rewrite E9.
  - intros (v' & f & t & ((_ & (v2 & n2 & e2 & E & ->) & _) & E1 & r & r' & Er' & Hpar & E2) & Hsum). rewrite E9 in E, Er'. rewrite Es in E. injection E as <- <- <-. rewrite Er in Er'. injection Er' as <-.
    destruct (Hend dbs' r' Hpar) as (f' & t' & F1 & F2 & res' & F3 & F4 & F5). assert (f = f' ∧ t = t') as [<- <-] by (apply app_inj_1; [lia|congruence]).
    apply F5 in Hsum. subst res'. destruct res as [d'| | | |]; try (by destruct (Hp _ _ Hpar)). destruct Hp as (r2 & dbs1 & Hpar2 & E').
    destruct (parsed_once _ _ _ _ _ _ _ Hpar Hpar2) as [-> ->]. congruence.
Qed.
Lemma rdbLoad_unread data dbs : Forall byte data → 0 ≤ interval → dbs ≠ [] → rdbLoad rdb_checksum masterhost now interval data dbs = Some Unread → has_other data.
Proof.
  intros Hb Hi Hd. unfold rdbLoad. fold (opened data).
  assert (reading (opened data) [] data) as R0 by (split; [done|done|unfold summed; cbn; by destruct rdb_checksum|done]).
  destruct (rioRead_any (opened data) [] data 9 R0 Hb) as (b & r1 & m & rest & -> & -> & R1 & _ & Hm); [lia|]. bsimpl. destruct b as [b|]; [|done].
  destruct (negb _); [done|]. destruct (strtoll _) as [[[v n] e]|]; bsimpl; [|done]. cbv zeta. destruct (_ || _); [done|].
  apply load_loop_unread; [done|done|]. destruct dbs; [done|cbn; lia].
Qed.
End load.

(** C16. Loading ends on every file of bytes, however it was cut or damaged, and
    leaves no buffer and no database: with the databases, an error, an exit or a
    panic, or at the first value that is no string, where the model stops, and
    then the file has the number of another type.  The one exception is a file
    with a compressed string of no bytes: the byte that announces a compressed
    string, followed by the length 0. *)
Theorem load_ends `{Host} masterhost now interval rdb_checksum data dbs : Forall byte data → 0 ≤ interval → dbs ≠ [] →
  (∃ res, rdbLoad rdb_checksum masterhost now interval data dbs = Some res ∧ (res = Unread → has_other data)) ∨ compressed_empty data.
Proof.
  intros Hb Hi Hd. pose proof (rdbLoad_parses masterhost now interval rdb_checksum data dbs Hb Hi Hd) as Hs.
  pose proof (rdbLoad_unread masterhost now interval rdb_checksum data dbs Hb Hi Hd) as Hu.
  destruct (rdbLoad _ _ _ _ _ _) as [res|]; [left; exists res; split; [done|intros ->; auto]|by right].
Qed.

(** C17. Which files are loaded, and what of the checksum.  A file is loaded as
    [dbs'] exactly if it begins with the name and a version from 1 to 6, the
    turns that follow read [dbs'] from it up to the end mark, and then, with
    checksums on and from version 5, there are eight bytes more, which are zero
    (saved without a checksum) or the checksum of all that is in front of them,
    the end mark included.  So no file of version 5 or 6 with a wrong or a
    missing checksum is loaded; files of the versions 1 to 4 have none and are
    not checked. *)
Theorem load_checks_sum `{Host} masterhost now interval rdb_checksum data dbs dbs' : Forall byte data → 0 ≤ interval → dbs ≠ [] → ¬ compressed_empty data →
  rdbLoad rdb_checksum masterhost now interval data dbs = Some (Loaded dbs') ↔
  ∃ rdbver front tail, file_of masterhost now interval rdb_checksum data dbs rdbver dbs' front tail ∧
    (rdb_checksum = true → 5 ≤ rdbver → 8 ≤ len tail ∧ (le_val (take 8 tail) = 0 ∨ le_val (take 8 tail) = crc_bits 0 front)).
Proof.
  intros Hb Hi Hd Hc. pose proof (rdbLoad_parses masterhost now interval rdb_checksum data dbs Hb Hi Hd) as Hs. unfold sum_ok in Hs.
  destruct (rdbLoad _ _ _ _ _ _) as [res|]; [|done]. rewrite <- Hs. split; congruence.
Qed.

(** ** Examples *)

(** A key whose value announces a compressed string and then the length 0:
    the decompressor reads a byte of a buffer that has none. *)
Example empty_compressed_overreads :
  rdbLoad (H := little_host) true false 300 2 (str "REDIS0006" ++ [0; 1; 107; 195; 0; 1]) [mkDatabase ∅ ∅] = None.
Proof. vm_compute. reflexivity. Qed.

Definition demo_front : list Z := str "REDIS0006" ++ [254; 0; 0; 1; 110; 192; 12; 255].
Definition demo_sum : list Z := le_bytes 8 (crc_bits 0 demo_front).

Lemma demo_front_bytes : Forall byte demo_front.
Proof. repeat (apply Forall_cons; split; [done|]). constructor. Qed.

Lemma demo_file_bytes : Forall byte (demo_front ++ demo_sum).
Proof. apply Forall_app. split; [apply demo_front_bytes|by apply le_bytes_byte]. Qed.

(** A file cut in the middle of a key, and one that goes on with a list. *)
Lemma load_ends_witness :
  let load data := rdbLoad (H := little_host) true false 300 2 data [mkDatabase ∅ ∅] in
  (∃ res, load (take 15 demo_front) = Some res ∧ (res = Unread → has_other (take 15 demo_front))) ∨ compressed_empty (take 15 demo_front).
Proof. intros load. apply (load_ends (H := little_host)); [apply Forall_take, demo_front_bytes|lia|done]. Defined.

Example load_stops :
  let load data := rdbLoad (H := little_host) true false 300 2 data [mkDatabase ∅ ∅] in
  load (take 15 demo_front) = Some Exited ∧ load (str "REDIS0006" ++ [254; 0; 1; 1; 110; 1]) = Some Unread ∧ load (str "REDIS0006" ++ [254; 0; 7; 1; 110; 1]) = Some Aborted.
Proof. split_and!; vm_compute; reflexivity. Qed.

(** A damaged sum is not accepted, nor is a damaged key; but in version 4 it
    is. *)
Example damaged_exits :
  let load data := rdbLoad (H := little_host) true false 300 2 data [mkDatabase ∅ ∅] in
  load (demo_front ++ [1; 2; 3; 4; 5; 6; 7; 8]) = Some Exited ∧ load (demo_front ++ take 7 demo_sum) = Some Exited ∧
  load (<[13%nat := 111]> demo_front ++ demo_sum) = Some Exited ∧ load (<[8%nat := 52]> demo_front) = Some (Loaded [mkDatabase {[str "n" := SInt 12]} ∅]).
Proof. split_and!; vm_compute; reflexivity. Qed.

(** A compressed string of no bytes needs the byte 195. *)
Lemma not_compressed data : 195 ∉ data → ¬ compressed_empty data.
Proof. intros Hn (pre & rest & r & r' & e & -> & _). apply Hn. set_solver. Qed.

Lemma load_checks_sum_witness :
  rdbLoad (H := little_host) true false 300 2 (demo_front ++ demo_sum) [mkDatabase ∅ ∅] = Some (Loaded [mkDatabase {[str "n" := SInt 12]} ∅]) ∧
  ∃ rdbver front tail, file_of (H := little_host) false 300 2 true (demo_front ++ demo_sum) [mkDatabase ∅ ∅] rdbver [mkDatabase {[str "n" := SInt 12]} ∅] front tail ∧
    (true = true → 5 ≤ rdbver → 8 ≤ len tail ∧ (le_val (take 8 tail) = 0 ∨ le_val (take 8 tail) = crc_bits 0 front)).
Proof.
  assert (rdbLoad (H := little_host) true false 300 2 (demo_front ++ demo_sum) [mkDatabase ∅ ∅] = Some (Loaded [mkDatabase {[str "n" := SInt 12]} ∅])) as E by (vm_compute; reflexivity).
  split; [exact E|]. apply (load_checks_sum (H := little_host)); [apply demo_file_bytes|lia|done| |exact E].
  apply not_compressed. apply (bool_decide_unpack _). vm_compute. exact I.
Defined.

(** A time saved on a little-endian host and loaded on a big-endian one. *)
Example times_keep_host_order :
  let saved := rdbSaveRio (H := little_host) (λ _, 0) (λ _, 0) true true [[mkEntry (str "k") (SRaw (str "v")) 256]] 100 (rioInitWith [] None) in
  let times data := match rdbLoad (H := big_host) true false 200 2 data [mkDatabase ∅ ∅] with Some (Loaded [d]) => Some (d_exps d) | _ => None end in
  match saved with Some (_, r) => times (io_data r) = Some {[str "k" := 2 ^ 48]} | None => False end.
Proof. vm_compute. reflexivity. Qed.
