(* ===== verification/Skiplist.v ===== *)
(** * Sorted sets: the skip list of [t_zset.c]

    The nodes live in a heap of locations; a node has an element, a score, a
    back pointer and one forward pointer with its span per level.  The
    operations are those of the code, with the loops that follow pointers on
    fuel (the number of nodes bounds every walk).  Elements stand for their
    bytes: [compareStringObjects] decodes integer-encoded objects before it
    compares.  Scores are values of a type with the order of doubles other
    than NaN (class [Score]); [random()] is a stream of numbers. *)

From S2P Require Import Prelude Sds.
From stdpp Require Import gmap.
Local Open Scope Z_scope.

(** ** Data ([redis.h]) *)

Abbreviation loc := positive.
Abbreviation robj := (list Z).

(** [double] without NaN, as far as the code uses it: [<], and [==], [>=] and
    [<=] which are determined by it. *)
Class Score (D : Type) := {
  slt : D → D → bool;
  szero : D;
  slt_irrefl x : slt x x = false;
  slt_trans x y z : slt x y = true → slt y z = true → slt x z = true;
  slt_weak x y z : slt x z = true → slt x y = true ∨ slt y z = true
}.

Section data.
Context {D : Type} `{Score D}.

Definition seqs (x y : D) : bool := negb (slt x y) && negb (slt y x).

Record zskiplistLevel := mkLevel { forward : option loc; span : Z }.

Record zskiplistNode := mkNode {
  obj : option robj;
  score : D;
  backward : option loc;
  level : list zskiplistLevel
}.

Record zskiplist := mkZsl {
  header : loc;
  ztail : option loc;
  length_ : Z;
  zlevel : nat
}.

Record zrangespec := mkRange { rmin : D; rmax : D; minex : bool; maxex : bool }.

(** A bound of a lexicographic range: the shared objects [minstring] and
    [maxstring], told apart by their addresses, or a string. *)
Inductive lexbound := MinString | MaxString | LexString (s : robj).
Record zlexrangespec := mkLexRange { lmin : lexbound; lmax : lexbound; lminex : bool; lmaxex : bool }.
End data.
Arguments zskiplistNode : clear implicits.
Arguments zrangespec : clear implicits.

Abbreviation heap D := (gmap loc (zskiplistNode D)).

Definition ZSKIPLIST_MAXLEVEL : nat := 32.

(** ** Comparison of elements ([object.c]) *)

Definition compareStringObjects (a b : robj) : Z :=
  match memcmp a b (min (length a) (length b)) with
  | Some cmp => if cmp =? 0 then len a - len b else cmp
  | None => 0
  end.
Definition equalStringObjects (a b : robj) : bool := compareStringObjects a b =? 0.

(** [shared.minstring] and [shared.maxstring] are ordinary strings as objects. *)
Definition lexbound_obj (b : lexbound) : robj :=
  match b with MinString => str "minstring" | MaxString => str "maxstring" | LexString s => s end.

Definition compareStringObjectsForLexRange (a b : lexbound) : Z :=
  match a, b with
  | MinString, MinString => 0
  | MaxString, MaxString => 0
  | MinString, _ => -1
  | _, MaxString => -1
  | MaxString, _ => 1
  | _, MinString => 1
  | LexString a, LexString b => compareStringObjects a b
  end.

Definition zslLexValueGteMin (value : robj) (spec : zlexrangespec) : bool :=
  if lminex spec then compareStringObjectsForLexRange (LexString value) (lmin spec) >? 0
  else compareStringObjectsForLexRange (LexString value) (lmin spec) >=? 0.
Definition zslLexValueLteMax (value : robj) (spec : zlexrangespec) : bool :=
  if lmaxex spec then compareStringObjectsForLexRange (LexString value) (lmax spec) <? 0
  else compareStringObjectsForLexRange (LexString value) (lmax spec) <=? 0.

(** [item] is the argument's bytes; [None] is [REDIS_ERR].  A NUL right after
    the sign ends the C string. *)
Definition zslParseLexRangeItem (item : robj) : option (lexbound * bool) :=
  let c1 := match item with _ :: c :: _ => c | _ => 0 end in
  match item with
  | c :: rest =>
      if c =? 43 then if negb (c1 =? 0) then None else Some (MaxString, false)
      else if c =? 45 then if negb (c1 =? 0) then None else Some (MinString, false)
      else if c =? 40 then Some (LexString rest, true)
      else if c =? 91 then Some (LexString rest, false)
      else None
  | [] => None
  end.

Definition zslParseLexRange (min max : robj) (min_int max_int : bool) : option zlexrangespec :=
  if min_int || max_int then None
  else '(mn, mnex) ← zslParseLexRangeItem min;
       '(mx, mxex) ← zslParseLexRangeItem max;
       Some (mkLexRange mn mx mnex mxex).

(** [ZSKIPLIST_P * 0xFFFF] is 16383.75.  The random numbers not drawn are
    returned; [None] when they run out. *)
Fixpoint random_level (rs : list Z) (lv : nat) : option (nat * list Z) :=
  match rs with
  | [] => None
  | r :: rs => if Z.land r 0xFFFF * 4 <? 0xFFFF then random_level rs (lv + 1) else Some (lv, rs)
  end.
Definition zslRandomLevel (rs : list Z) : option (nat * list Z) :=
  '(lv, rs) ← random_level rs 1;
  Some (if bool_decide (lv < ZSKIPLIST_MAXLEVEL)%nat then lv else ZSKIPLIST_MAXLEVEL, rs).

Section ops.
Context {D : Type} `{Score D}.
Implicit Types (h : heap D) (z : zskiplist) (x : loc).

(** ** Memory *)

Definition get_level h x (i : nat) : option zskiplistLevel := n ← h !! x; level n !! i.
Definition set_level h x (i : nat) (lv : zskiplistLevel) : option (heap D) :=
  n ← h !! x;
  if bool_decide (i < length (level n))%nat
  then Some (<[x := mkNode (obj n) (score n) (backward n) (<[i := lv]> (level n))]> h) else None.
Definition set_backward h x (b : option loc) : option (heap D) :=
  n ← h !! x; Some (<[x := mkNode (obj n) (score n) b (level n)]> h).

(** ** Creation *)

(** [new] is the block [zmalloc] returns, [junk] what its levels hold. *)
Definition zslCreateNode h (new : loc) (lv : nat) (s : D) (o : option robj)
    (junk : nat → zskiplistLevel) (bjunk : option loc) : heap D :=
  <[new := mkNode o s bjunk (junk <$> seq 0 lv)]> h.

Fixpoint create_loop (n : nat) h x (j : nat) : option (heap D) :=
  match n with
  | O => Some h
  | S n => h ← set_level h x j (mkLevel None 0); create_loop n h x (j + 1)
  end.

Definition zslCreate h (new : loc) (junk : nat → zskiplistLevel) (bjunk : option loc)
    : option (heap D * zskiplist) :=
  let h := zslCreateNode h new ZSKIPLIST_MAXLEVEL szero None junk bjunk in
  h ← create_loop ZSKIPLIST_MAXLEVEL h new 0;
  h ← set_backward h new None;
  Some (h, mkZsl new None 0 1).

(** ** Searching *)

(** [while (x->level[i].forward && pred) { rank += span; x = forward; }]:
    [pred] sees the next node and the rank it would give. *)
Fixpoint walk (fuel : nat) h (i : nat) (pred : zskiplistNode D → Z → bool) x (rank : Z) : option (loc * Z) :=
  lv ← get_level h x i;
  match forward lv with
  | None => Some (x, rank)
  | Some f =>
      n ← h !! f;
      if pred n (rank + span lv) then
        match fuel with
        | O => None
        | S fuel => walk fuel h i pred f (rank + span lv)
        end
      else Some (x, rank)
  end.

(** [for (i = level-1; i >= 0; i--)] with a walk at each level; the list gives
    [update[i]] and [rank[i]] at index [i]. *)
Fixpoint descend (i : nat) h (pred : zskiplistNode D → Z → bool) x (rank : Z) (acc : list (loc * Z))
    : option (list (loc * Z)) :=
  match i with
  | O => Some acc
  | S i =>
      '(x, rank) ← walk (size h) h i pred x rank;
      descend i h pred x rank ((x, rank) :: acc)
  end.

Definition search h z (pred : zskiplistNode D → Z → bool) : option (list (loc * Z)) :=
  descend (zlevel z) h pred (header z) 0 [].

(** The node is before [(s, o)]; the header is never the next node. *)
Definition before (s : D) (o : robj) (n : zskiplistNode D) (_ : Z) : bool :=
  slt (score n) s ||
  (seqs (score n) s && match obj n with Some no => compareStringObjects no o <? 0 | None => false end).
Definition before_eq (s : D) (o : robj) (n : zskiplistNode D) (_ : Z) : bool :=
  slt (score n) s ||
  (seqs (score n) s && match obj n with Some no => compareStringObjects no o <=? 0 | None => false end).

(** ** Insertion *)

(** [for (i = zsl->level; i < level; i++)]: the new levels start at the header. *)
Fixpoint raise_loop (n : nat) h z (i : nat) (update : list (loc * Z)) : option (heap D * list (loc * Z)) :=
  match n with
  | O => Some (h, update)
  | S n =>
      lv ← get_level h (header z) i;
      h ← set_level h (header z) i (mkLevel (forward lv) (u32 (length_ z)));
      raise_loop n h z (i + 1) (update ++ [(header z, 0)])
  end.

Fixpoint link_loop (n : nat) h (i : nat) (new : loc) (update : list (loc * Z)) (rank0 : Z) : option (heap D) :=
  match n with
  | O => Some h
  | S n =>
      '(u, r) ← update !! i;
      lv ← get_level h u i;
      h ← set_level h new i (mkLevel (forward lv) (u32 (span lv - u32 (rank0 - r))));
      h ← set_level h u i (mkLevel (Some new) (u32 (u32 (rank0 - r) + 1)));
      link_loop n h (i + 1) new update rank0
  end.

(** [for (i = level; i < zsl->level; i++) update[i]->level[i].span++;] *)
Fixpoint untouched_loop (n : nat) h (i : nat) (update : list (loc * Z)) : option (heap D) :=
  match n with
  | O => Some h
  | S n =>
      '(u, _) ← update !! i;
      lv ← get_level h u i;
      h ← set_level h u i (mkLevel (forward lv) (u32 (span lv + 1)));
      untouched_loop n h (i + 1) update
  end.

(** The C code keeps [rank[]] in [unsigned int]; it is only used in the
    differences of the loops below, which are taken at that width.  [rs] are
    the numbers [random()] will return; those not drawn are given back. *)
Definition zslInsert h z (s : D) (o : robj) (rs : list Z) (new : loc)
    (junk : nat → zskiplistLevel) (bjunk : option loc) : option (heap D * zskiplist * list Z) :=
  update ← search h z (before s o);
  '(lv, rs) ← zslRandomLevel rs;
  '(h, update) ← (if bool_decide (zlevel z < lv)%nat
                  then raise_loop (lv - zlevel z) h z (zlevel z) update else Some (h, update));
  let zl := max (zlevel z) lv in
  let h := zslCreateNode h new lv s (Some o) junk bjunk in
  '(u0, rank0) ← update !! 0%nat;
  h ← link_loop lv h 0 new update rank0;
  h ← untouched_loop (zl - lv) h lv update;
  h ← set_backward h new (if bool_decide (u0 = header z) then None else Some u0);
  x0 ← get_level h new 0;
  '(h, tl) ← match forward x0 with
             | Some f => h ← set_backward h f (Some new); Some (h, ztail z)
             | None => Some (h, Some new)
             end;
  Some (h, mkZsl (header z) tl (u64 (length_ z + 1)) zl, rs).

(** ** Deletion *)

Fixpoint unlink_loop (n : nat) h (i : nat) x (update : list (loc * Z)) : option (heap D) :=
  match n with
  | O => Some h
  | S n =>
      '(u, _) ← update !! i;
      lv ← get_level h u i;
      h ← (if bool_decide (forward lv = Some x) then
             xl ← get_level h x i;
             set_level h u i (mkLevel (forward xl) (u32 (span lv + (span xl - 1))))
           else set_level h u i (mkLevel (forward lv) (u32 (span lv - 1))));
      unlink_loop n h (i + 1) x update
  end.

(** [while(zsl->level > 1 && header->level[zsl->level-1].forward == NULL)] *)
Fixpoint lower_loop h (hd : loc) (zl : nat) : option nat :=
  match zl with
  | S (S k as zl') =>
      lv ← get_level h hd zl';
      match forward lv with None => lower_loop h hd zl' | Some _ => Some zl end
  | _ => Some zl
  end.

Definition zslDeleteNode h z x (update : list (loc * Z)) : option (heap D * zskiplist) :=
  h ← unlink_loop (zlevel z) h 0 x update;
  x0 ← get_level h x 0;
  xn ← h !! x;
  '(h, tl) ← match forward x0 with
             | Some f => h ← set_backward h f (backward xn); Some (h, ztail z)
             | None => Some (h, backward xn)
             end;
  zl ← lower_loop h (header z) (zlevel z);
  Some (h, mkZsl (header z) tl (u64 (length_ z - 1)) zl).

Definition zslFreeNode h x : heap D := delete x h.

Definition zslDelete h z (s : D) (o : robj) : option (heap D * zskiplist * Z) :=
  update ← search h z (before s o);
  '(u0, _) ← update !! 0%nat;
  lv ← get_level h u0 0;
  match forward lv with
  | None => Some (h, z, 0)
  | Some x =>
      n ← h !! x;
      if seqs s (score n) && match obj n with Some no => equalStringObjects no o | None => false end then
        '(h, z) ← zslDeleteNode h z x update;
        Some (zslFreeNode h x, z, 1)
      else Some (h, z, 0)
  end.

(** ** Ranges of scores *)

Definition zslValueGteMin (value : D) (spec : zrangespec D) : bool :=
  if minex spec then slt (rmin spec) value else negb (slt value (rmin spec)).
Definition zslValueLteMax (value : D) (spec : zrangespec D) : bool :=
  if maxex spec then slt value (rmax spec) else negb (slt (rmax spec) value).

(** The last node satisfies [gte] and the first one [lte]. *)
Definition ends_in_range h z (gte lte : zskiplistNode D → bool) : option bool :=
  match ztail z with
  | None => Some false
  | Some t =>
      tn ← h !! t;
      if negb (gte tn) then Some false
      else
        lv ← get_level h (header z) 0;
        match forward lv with
        | None => Some false
        | Some f => fn ← h !! f; Some (lte fn)
        end
  end.

Definition zslIsInRange h z (range : zrangespec D) : option bool :=
  if slt (rmax range) (rmin range) ||
     (seqs (rmin range) (rmax range) && (minex range || maxex range)) then Some false
  else ends_in_range h z (λ n, zslValueGteMin (score n) range) (λ n, zslValueLteMax (score n) range).

(** "Go forward while out of range", and the node after that; a failed
    assertion is [None]. *)
Definition first_from h z (gte lte : zskiplistNode D → bool) : option (option loc) :=
  update ← search h z (λ n _, negb (gte n));
  '(u0, _) ← update !! 0%nat;
  lv ← get_level h u0 0;
  x ← forward lv;
  n ← h !! x;
  Some (if lte n then Some x else None).

(** "Go forward while in range", and the node reached. *)
Definition last_from h z (gte lte : zskiplistNode D → bool) : option (option loc) :=
  update ← search h z (λ n _, lte n);
  '(u0, _) ← update !! 0%nat;
  n ← h !! u0;
  Some (if gte n then Some u0 else None).

Definition zslFirstInRange h z (range : zrangespec D) : option (option loc) :=
  b ← zslIsInRange h z range;
  if negb b then Some None
  else first_from h z (λ n, zslValueGteMin (score n) range) (λ n, zslValueLteMax (score n) range).
Definition zslLastInRange h z (range : zrangespec D) : option (option loc) :=
  b ← zslIsInRange h z range;
  if negb b then Some None
  else last_from h z (λ n, zslValueGteMin (score n) range) (λ n, zslValueLteMax (score n) range).

(** ** Lexicographic ranges *)

Definition lex_gte (range : zlexrangespec) (n : zskiplistNode D) : bool :=
  match obj n with Some o => zslLexValueGteMin o range | None => false end.
Definition lex_lte (range : zlexrangespec) (n : zskiplistNode D) : bool :=
  match obj n with Some o => zslLexValueLteMax o range | None => false end.

Definition zslIsInLexRange h z (range : zlexrangespec) : option bool :=
  if (compareStringObjectsForLexRange (lmin range) (lmax range) >? 1) ||
     ((compareStringObjects (lexbound_obj (lmin range)) (lexbound_obj (lmax range)) =? 0) &&
      (lminex range || lmaxex range)) then Some false
  else ends_in_range h z (lex_gte range) (lex_lte range).

Definition zslFirstInLexRange h z (range : zlexrangespec) : option (option loc) :=
  b ← zslIsInLexRange h z range;
  if negb b then Some None else first_from h z (lex_gte range) (lex_lte range).
Definition zslLastInLexRange h z (range : zlexrangespec) : option (option loc) :=
  b ← zslIsInLexRange h z range;
  if negb b then Some None else last_from h z (lex_gte range) (lex_lte range).

(** ** Deleting ranges *)

(** [while (x && in range)]: delete the node, give its element to the
    dictionary's deletion, free it.  [stop] sees the node and its rank. *)
Fixpoint delete_loop (fuel : nat) h z (x : option loc) (rank : Z) (continue_ : zskiplistNode D → Z → bool)
    (update : list (loc * Z)) (removed : list robj) : option (heap D * zskiplist * list robj) :=
  match x with
  | None => Some (h, z, removed)
  | Some x =>
      n ← h !! x;
      if continue_ n rank then
        match fuel with
        | O => None
        | S fuel =>
            lv ← get_level h x 0;
            '(h, z) ← zslDeleteNode h z x update;
            o ← obj n;
            delete_loop fuel (zslFreeNode h x) z (forward lv) (rank + 1) continue_ update (removed ++ [o])
        end
      else Some (h, z, removed)
  end.

(** The range to delete starts after the nodes [skip] holds of.  The elements
    removed, in order; the code returns their number. *)
Definition delete_range h z (skip continue_ : zskiplistNode D → Z → bool)
    : option (heap D * zskiplist * list robj) :=
  update ← search h z skip;
  '(u0, traversed) ← update !! 0%nat;
  lv ← get_level h u0 0;
  delete_loop (size h) h z (forward lv) (traversed + 1) continue_ update [].

Definition zslDeleteRangeByScore h z (range : zrangespec D) :=
  delete_range h z
    (λ n _, if minex range then negb (slt (rmin range) (score n)) else slt (score n) (rmin range))
    (λ n _, if maxex range then slt (score n) (rmax range) else negb (slt (rmax range) (score n))).
Definition zslDeleteRangeByLex h z (range : zlexrangespec) :=
  delete_range h z (λ n _, negb (lex_gte range n)) (λ n _, lex_lte range n).
Definition zslDeleteRangeByRank h z (start end_ : Z) :=
  delete_range h z (λ _ r, r <? start) (λ _ r, r <=? end_).

(** ** Ranks *)

Fixpoint rank_loop (i : nat) h (s : D) (o : robj) x (rank : Z) : option Z :=
  match i with
  | O => Some 0
  | S i =>
      '(x, rank) ← walk (size h) h i (before_eq s o) x rank;
      n ← h !! x;
      if match obj n with Some no => equalStringObjects no o | None => false end then Some rank
      else rank_loop i h s o x rank
  end.
Definition zslGetRank h z (s : D) (o : robj) : option Z := rank_loop (zlevel z) h s o (header z) 0.

Fixpoint element_loop (i : nat) h (rank : Z) x (traversed : Z) : option (option loc) :=
  match i with
  | O => Some None
  | S i =>
      '(x, traversed) ← walk (size h) h i (λ _ r, r <=? rank) x traversed;
      if traversed =? rank then Some (Some x) else element_loop i h rank x traversed
  end.
Definition zslGetElementByRank h z (rank : Z) : option (option loc) :=
  element_loop (zlevel z) h rank (header z) 0.
End ops.
