(* ===== verification/SkiplistSpec.v ===== *)
(** * Correctness of the skip list

    The contract is [zsl_rep h z its]: in the heap [h] the list [z] holds the
    items [its] (element, score, and where and how tall the node is), in
    strictly increasing order; at every level the forward pointer of a node
    leads to the next node that is tall enough, and its span counts the steps
    to it.  Searching is specified once for all predicates that hold of a
    prefix of the items ([search_ok]), and the operations follow from it. *)

From S2P Require Import Prelude Sds Skiplist.
From stdpp Require Import gmap.
Local Open Scope Z_scope.

Section items.
Context {D : Type} `{Score D}.

Record item := mkItem { iloc : loc; iheight : nat; iscore : D; iobj : robj }.
Implicit Types (h : heap D) (its A B R : list item) (hd : loc).

(** The next node at level [j], and how far it is. *)
Fixpoint fwd (j : nat) its : option loc :=
  match its with
  | [] => None
  | it :: its => if bool_decide (j < iheight it)%nat then Some (iloc it) else fwd j its
  end.
Fixpoint span_of (j : nat) its : Z :=
  match its with
  | [] => 0
  | it :: its => if bool_decide (j < iheight it)%nat then 1 else 1 + span_of j its
  end.
Definition level_of its (j : nat) : zskiplistLevel := mkLevel (fwd j its) (span_of j its).

Definition low (j : nat) its : Prop := Forall (λ it, (iheight it ≤ j)%nat) its.

Lemma fwd_low j A B : low j A → fwd j (A ++ B) = fwd j B.
Proof. induction 1 as [|it A Hl _ IH]; [done|]. cbn. by rewrite bool_decide_eq_false_2 by lia. Qed.

Lemma span_low j A B : low j A → span_of j (A ++ B) = len A + span_of j B.
Proof.
  induction 1 as [|it A Hl _ IH]; [done|]. cbn [app span_of length].
  rewrite bool_decide_eq_false_2 by lia. lia.
Qed.

Lemma level_of_low j A B : low j A → level_of (A ++ B) j = mkLevel (fwd j B) (len A + span_of j B).
Proof. intros. unfold level_of. by rewrite fwd_low, span_low. Qed.

Lemma level_of_hit j A it B :
  low j A → (j < iheight it)%nat → level_of (A ++ it :: B) j = mkLevel (Some (iloc it)) (len A + 1).
Proof. intros Hl Hh. rewrite level_of_low by done. cbn [fwd span_of]. by rewrite bool_decide_eq_true_2. Qed.

Lemma low_split j A : low j A ∨ ∃ A1 it A2, A = A1 ++ it :: A2 ∧ low j A1 ∧ (j < iheight it)%nat.
Proof.
  induction A as [|it A IH]; [by left; constructor|]. destruct (decide (j < iheight it)%nat) as [Hlt|Hge].
  - right. exists [], it, A. split; [done|]. split; [constructor|done].
  - destruct IH as [IH|(A1 & it' & A2 & -> & Hl & Hh)].
    + left. constructor; [lia|done].
    + right. exists (it :: A1), it', A2. split; [done|]. split; [constructor; [lia|done]|done].
Qed.

(** The node after which the items [pre] have been passed, and its height. *)
Definition owner hd pre : loc := match last pre with Some it => iloc it | None => hd end.
Definition owner_height (zl : nat) pre : nat := match last pre with Some it => iheight it | None => zl end.

Lemma owner_snoc hd pre it : owner hd (pre ++ [it]) = iloc it.
Proof. unfold owner. by rewrite last_snoc. Qed.
Lemma owner_height_snoc zl pre it : owner_height zl (pre ++ [it]) = iheight it.
Proof. unfold owner_height. by rewrite last_snoc. Qed.

(** ** Representation *)

Definition node_of prev (it : item) R : zskiplistNode D :=
  mkNode (Some (iobj it)) (iscore it) prev (level_of R <$> seq 0 (iheight it)).

Fixpoint nodes_ok h (prev : option loc) its : Prop :=
  match its with
  | [] => True
  | it :: R => h !! iloc it = Some (node_of prev it R) ∧ nodes_ok h (Some (iloc it)) R
  end.

Record header_ok h hd (zl : nat) its (n : zskiplistNode D) : Prop := {
  hd_node : h !! hd = Some n;
  hd_obj : obj n = None;
  hd_back : backward n = None;
  hd_len : length (level n) = ZSKIPLIST_MAXLEVEL;
  hd_used : ∀ j, (j < zl)%nat → level n !! j = Some (level_of its j);
  hd_free : ∀ j, (zl ≤ j < ZSKIPLIST_MAXLEVEL)%nat → ∃ s, level n !! j = Some (mkLevel None s)
}.

(** The order: by score, then by element. *)
Definition item_lt (a b : item) : Prop :=
  slt (iscore a) (iscore b) = true ∨
  (seqs (iscore a) (iscore b) = true ∧ lex_lt (iobj a) (iobj b)).

Record zsl_rep h z its : Prop := {
  rep_header : ∃ n, header_ok h (header z) (zlevel z) its n;
  rep_nodes : nodes_ok h None its;
  rep_nodup : NoDup (header z :: (iloc <$> its));
  rep_heights : Forall (λ it, (1 ≤ iheight it ≤ zlevel z)%nat) its;
  rep_level : (1 ≤ zlevel z ≤ ZSKIPLIST_MAXLEVEL)%nat;
  rep_tail : ztail z = iloc <$> last its;
  rep_length : length_ z = len its;
  rep_small : len its < 2 ^ 32 - 1;
  rep_sorted : StronglySorted item_lt its
}.

Lemma nodes_ok_app h A : ∀ prev B,
  nodes_ok h prev (A ++ B) →
  nodes_ok h (match last A with Some it => Some (iloc it) | None => prev end) B.
Proof.
  induction A as [|it A IH]; intros prev B Hok; [done|]. destruct Hok as [_ Hok].
  specialize (IH _ _ Hok). rewrite last_cons. by destruct (last A).
Qed.

Lemma nodes_ok_lookup h prev A it B :
  nodes_ok h prev (A ++ it :: B) →
  h !! iloc it = Some (node_of (match last A with Some it => Some (iloc it) | None => prev end) it B).
Proof. intros Hok. apply nodes_ok_app in Hok. apply Hok. Qed.

Lemma level_lookup R n j : (j < n)%nat → (level_of R <$> seq 0 n) !! j = Some (level_of R j).
Proof. intros. rewrite list_lookup_fmap, lookup_seq_lt by done. done. Qed.

(** The forward pointers of every node passed. *)
Lemma get_level_owner h z its pre R j :
  zsl_rep h z its → its = pre ++ R → (j < owner_height (zlevel z) pre)%nat →
  get_level h (owner (header z) pre) j = Some (level_of R j).
Proof.
  intros Hr -> Hj. unfold get_level. destruct pre as [|it pre _] using rev_ind.
  - destruct (rep_header _ _ _ Hr) as [n Hn]. unfold owner. cbn [last]. rewrite (hd_node _ _ _ _ _ Hn).
    bsimpl. by apply (hd_used _ _ _ _ _ Hn).
  - rewrite owner_snoc, owner_height_snoc in *. pose proof (rep_nodes _ _ _ Hr) as Hn.
    rewrite <- app_assoc in Hn. cbn [app] in Hn. rewrite (nodes_ok_lookup _ _ _ _ _ Hn). bsimpl.
    by apply level_lookup.
Qed.

Lemma zsl_rep_size h z its : zsl_rep h z its → (length its < size h)%nat.
Proof.
  intros Hr. destruct (rep_header _ _ _ Hr) as [n Hn]. pose proof (rep_nodup _ _ _ Hr) as Hnd.
  assert ((list_to_set (header z :: (iloc <$> its)) : gset loc) ⊆ dom h) as Hsub.
  { intros x Hx%elem_of_list_to_set. apply elem_of_cons in Hx as [-> |Hx].
    - apply elem_of_dom. rewrite (hd_node _ _ _ _ _ Hn). by eexists.
    - apply list_elem_of_fmap in Hx as (it & -> & Hit). apply list_elem_of_split in Hit as (A & B & ->).
      apply elem_of_dom. rewrite (nodes_ok_lookup _ _ _ _ _ (rep_nodes _ _ _ Hr)). by eexists. }
  apply subseteq_size in Hsub. rewrite size_list_to_set in Hsub by done. rewrite size_dom in Hsub.
  cbn [length] in Hsub. rewrite length_fmap in Hsub. lia.
Qed.
End items.
Arguments item : clear implicits.

(** ** Searching *)

Section searching.
Context {D : Type} `{Score D}.
Implicit Types (h : heap D) (its A B R : list (item D)) (hd : loc).

(** A predicate of the code decides of a node by its item and its rank. *)
Definition decides (pred : zskiplistNode D → Z → bool) (P : item D → Z → bool) : Prop :=
  ∀ it prev R r, pred (node_of prev it R) r = P it r.

(** [P] holds of the items of [A], at their ranks, and not of those of [B]. *)
Definition divides (P : item D → Z → bool) A B : Prop :=
  (∀ A1 it A2, A = A1 ++ it :: A2 → P it (len A1 + 1) = true) ∧
  (∀ B1 it B2, B = B1 ++ it :: B2 → P it (len A + len B1 + 1) = false).

(** [update[k]] and [rank[k]] after the search. *)
Definition upd_at hd (zl : nat) A (k : nat) (ur : loc * Z) : Prop :=
  ∃ pre R, A = pre ++ R ∧ ur = (owner hd pre, len pre) ∧ low k R ∧ (k < owner_height zl pre)%nat.

Lemma walk_ok h z A B pred P j fuel : ∀ pre R,
  zsl_rep h z (A ++ B) → decides pred P → divides P A B →
  A = pre ++ R → (j < owner_height (zlevel z) pre)%nat → (length R ≤ fuel)%nat →
  ∃ pre' R', walk fuel h j pred (owner (header z) pre) (len pre) = Some (owner (header z) pre', len pre') ∧
    A = pre' ++ R' ∧ low j R' ∧ (j < owner_height (zlevel z) pre')%nat.
Proof.
  induction fuel as [fuel IH] using lt_wf_ind. intros pre R Hr Hdec Hdiv HA Hj Hf.
  assert (get_level h (owner (header z) pre) j = Some (level_of (R ++ B) j)) as Hg.
  { eapply get_level_owner; [done| |done]. by rewrite HA, app_assoc. }
  pose proof (rep_nodes _ _ _ Hr) as Hnodes.
  destruct (low_split j R) as [Hlow|(A1 & it & A2 & HR & Hlow & Hh)].
  - exists pre, R. split; [|done]. rewrite level_of_low in Hg by done.
    destruct (low_split j B) as [HlB|(B1 & it & B2 & HB & HlB & Hh)].
    + assert (fwd j B = None) as Hn by (rewrite <- (app_nil_r B); by rewrite fwd_low).
      destruct fuel; cbn [walk]; rewrite Hg; cbn [mbind option_bind forward span]; by rewrite Hn.
    + assert (fwd j B = Some (iloc it) ∧ span_of j B = len B1 + 1) as [Hfw Hsp].
      { rewrite HB, fwd_low, span_low by done. cbn [fwd span_of]. by rewrite bool_decide_eq_true_2. }
      assert (∃ prev R', h !! iloc it = Some (node_of prev it R')) as (prev & R' & Hnode).
      { rewrite HB, app_assoc in Hnodes. eexists _, _. by apply (nodes_ok_lookup _ _ _ _ _ Hnodes). }
      assert (pred (node_of prev it R') (len pre + (len R + (len B1 + 1))) = false) as Hp.
      { rewrite Hdec. replace (len pre + (len R + (len B1 + 1))) with (len A + len B1 + 1)
          by (rewrite HA, length_app; lia). by apply (proj2 Hdiv _ _ B2). }
      destruct fuel; cbn [walk]; rewrite Hg; cbn [mbind option_bind forward span];
        rewrite Hfw, Hnode, Hsp; bsimpl; by rewrite Hp.
  - rewrite HR, <- app_assoc in Hg. cbn [app] in Hg. rewrite level_of_hit in Hg by done.
    assert (∃ prev R', h !! iloc it = Some (node_of prev it R')) as (prev & R' & Hnode).
    { rewrite HA, HR, <- !app_assoc in Hnodes. cbn [app] in Hnodes. rewrite app_assoc in Hnodes.
      eexists _, _. by apply (nodes_ok_lookup _ _ _ _ _ Hnodes). }
    assert (pred (node_of prev it R') (len pre + (len A1 + 1)) = true) as Hp.
    { rewrite Hdec. replace (len pre + (len A1 + 1)) with (len (pre ++ A1) + 1) by (rewrite length_app; lia).
      apply (proj1 Hdiv _ _ A2). by rewrite HA, HR, app_assoc. }
    rewrite HR, length_app in Hf. cbn [length] in Hf. destruct fuel as [|fuel]; [lia|].
    cbn [walk]. rewrite Hg. cbn [mbind option_bind forward span]. rewrite Hnode. bsimpl. rewrite Hp.
    destruct (IH fuel ltac:(lia) ((pre ++ A1) ++ [it]) A2) as (pre' & R2 & E & HA' & Hl' & Hh');
      [done|done|done|by rewrite HA, HR, <- !app_assoc|by rewrite owner_height_snoc|lia|].
    rewrite owner_snoc in E. exists pre', R2. split; [|done]. rewrite <- E. f_equal.
    rewrite !length_app. cbn [length]. lia.
Qed.

Lemma descend_ok h z A B pred P i : ∀ pre R acc,
  zsl_rep h z (A ++ B) → decides pred P → divides P A B →
  A = pre ++ R → (i ≤ owner_height (zlevel z) pre)%nat →
  ∃ us, descend i h pred (owner (header z) pre) (len pre) acc = Some (us ++ acc) ∧ length us = i ∧
    ∀ k ur, us !! k = Some ur → upd_at (header z) (zlevel z) A k ur.
Proof.
  induction i as [|i IH]; intros pre R acc Hr Hdec Hdiv HA Hi; cbn [descend].
  { exists []. split; [done|]. split; [done|]. intros k ur E. by rewrite lookup_nil in E. }
  pose proof (zsl_rep_size _ _ _ Hr) as Hsz. rewrite HA, !length_app in Hsz.
  destruct (walk_ok h z A B pred P i (size h) pre R) as (pre' & R' & -> & HA' & Hl' & Hh');
    [done|done|done|done|lia|lia|].
  bsimpl.
  destruct (IH pre' R' ((owner (header z) pre', len pre') :: acc)) as (us & -> & Hlen & Hus); [done|done|done|done|lia|].
  exists (us ++ [(owner (header z) pre', len pre')]). rewrite <- app_assoc, length_app. split; [done|].
  split; [cbn; lia|]. intros k ur. rewrite lookup_snoc_Some. intros [[_ ?]|[-> <-]]; [by apply Hus|].
  rewrite Hlen. by exists pre', R'.
Qed.

(** The result of a search: at each level, the last node of the prefix that is
    tall enough. *)
Lemma search_ok h z A B pred P :
  zsl_rep h z (A ++ B) → decides pred P → divides P A B →
  ∃ us, search h z pred = Some us ∧ length us = zlevel z ∧
    ∀ k ur, us !! k = Some ur → upd_at (header z) (zlevel z) A k ur.
Proof.
  intros Hr Hdec Hdiv. unfold search.
  destruct (descend_ok h z A B pred P (zlevel z) [] A []) as (us & E & Hl & Hus); [done|done|done|done|done|].
  rewrite app_nil_r in E. by exists us.
Qed.

(** At the lowest level every node is tall enough. *)
Lemma upd_at_0 h z A B ur :
  zsl_rep h z (A ++ B) → upd_at (header z) (zlevel z) A 0 ur → ur = (owner (header z) A, len A).
Proof.
  intros Hr (pre & R & -> & -> & Hl & _). enough (R = []) as -> by (by rewrite app_nil_r).
  destruct R as [|it R]; [done|]. apply Forall_cons in Hl as [Hl _].
  pose proof (rep_heights _ _ _ Hr) as Hh. rewrite !Forall_app, Forall_cons in Hh. lia.
Qed.
End searching.

(** ** The order of the items *)

Lemma lex_lt_trans a : ∀ b c, lex_lt a b → lex_lt b c → lex_lt a c.
Proof.
  induction a as [|x a IH]; intros [|y b] [|z c]; cbn; try done.
  intros [?|[-> ?]] [?|[-> ?]]; [left; lia|by left|by left|right; eauto].
Qed.

Lemma lex_lt_total a : ∀ b, lex_lt a b ∨ a = b ∨ lex_lt b a.
Proof.
  induction a as [|x a IH]; intros [|y b]; cbn; [by right; left|by left|by right; right|].
  destruct (Z.lt_total x y) as [?|[-> |?]]; [by left; left| |by right; right; left].
  destruct (IH b) as [?|[-> |?]]; [by left; right|by right; left|by right; right; right].
Qed.

Lemma compareStringObjects_spec a b :
  (compareStringObjects a b = 0 ↔ a = b) ∧ (compareStringObjects a b < 0 ↔ lex_lt a b).
Proof.
  unfold compareStringObjects. destruct (memcmp_ok a b [] []) as (r & E & Hr). rewrite !app_nil_r in E. rewrite E.
  pose proof (lex_lt_irrefl a). pose proof (lex_lt_asym a b). pose proof (lex_lt_irrefl b).
  destruct (Z.eqb_spec r 0) as [-> |Hne].
  - destruct Hr as [[_ [[-> ?]|[[? ?]|[? ?]]]]|[?|?]]; [split; split; (done || lia)|..]; [| |lia|lia];
      (split; split; [intros; lia|intros ->; lia|intros; (done || lia)|intros; (done || lia || tauto)]).
  - destruct Hr as [[? _]|[(? & ? & ?)|(? & ? & ?)]]; [lia|..]; (split; split; intros; (done || lia || tauto)).
Qed.

Lemma equalStringObjects_spec a b : equalStringObjects a b = true ↔ a = b.
Proof. unfold equalStringObjects. rewrite Z.eqb_eq. apply compareStringObjects_spec. Qed.

Section order.
Context {D : Type} `{Score D}.
Implicit Types (a b c : item D) (its A B : list (item D)).

(** The key of an item, whatever its node. *)
Abbreviation at_key s o := (mkItem 1%positive 0 s o).

Lemma seqs_refl (x : D) : seqs x x = true.
Proof. unfold seqs. by rewrite slt_irrefl. Qed.

Lemma seqs_true (x y : D) : seqs x y = true ↔ slt x y = false ∧ slt y x = false.
Proof. unfold seqs. destruct (slt x y), (slt y x); cbn; naive_solver. Qed.

Lemma seqs_sym (x y : D) : seqs x y = seqs y x.
Proof. unfold seqs. apply andb_comm. Qed.

Lemma slt_seqs_l (x y z : D) : seqs x y = true → slt x z = slt y z.
Proof.
  intros [H1 H2]%seqs_true. destruct (slt x z) eqn:E1, (slt y z) eqn:E2; try done.
  - destruct (slt_weak x y z E1); congruence.
  - destruct (slt_weak y x z E2); congruence.
Qed.

Lemma slt_seqs_r (x y z : D) : seqs x y = true → slt z x = slt z y.
Proof.
  intros [H1 H2]%seqs_true. destruct (slt z x) eqn:E1, (slt z y) eqn:E2; try done.
  - destruct (slt_weak z y x E1); congruence.
  - destruct (slt_weak z x y E2); congruence.
Qed.

Lemma slt_asym (x y : D) : slt x y = true → slt y x = false.
Proof. intros E. destruct (slt y x) eqn:E2; [|done]. pose proof (slt_trans _ _ _ E E2). by rewrite slt_irrefl in *. Qed.

Lemma item_lt_trans a b c : item_lt a b → item_lt b c → item_lt a c.
Proof.
  intros [H1|[H1 L1]] [H2|[H2 L2]].
  - left. by apply slt_trans with (iscore b).
  - left. by rewrite <- (slt_seqs_r _ _ _ H2).
  - left. by rewrite (slt_seqs_l _ _ _ H1).
  - right. split; [|by eapply lex_lt_trans]. apply seqs_true.
    rewrite (slt_seqs_l _ _ _ H1), (slt_seqs_r _ _ _ H1). by apply seqs_true.
Qed.

Lemma item_lt_irrefl a : ¬ item_lt a a.
Proof. intros [E|[_ E]]; [by rewrite slt_irrefl in E|by apply lex_lt_irrefl in E]. Qed.

Definition same_key a b : Prop := seqs (iscore a) (iscore b) = true ∧ iobj a = iobj b.

Lemma item_lt_total a b : item_lt a b ∨ same_key a b ∨ item_lt b a.
Proof.
  unfold item_lt, same_key. destruct (slt (iscore a) (iscore b)) eqn:E1; [by left; left|].
  destruct (slt (iscore b) (iscore a)) eqn:E2; [by right; right; left|].
  assert (seqs (iscore a) (iscore b) = true) as Hs by (by apply seqs_true).
  assert (seqs (iscore b) (iscore a) = true) as Hs' by (by apply seqs_true).
  destruct (lex_lt_total (iobj a) (iobj b)) as [?|[?|?]]; [left|right; left|right; right]; (done || by right).
Qed.

(** A property of items that holds of those before an item that has it splits
    a sorted list. *)
Lemma sorted_split (P : item D → bool) its :
  StronglySorted item_lt its → (∀ a b, item_lt a b → P b = true → P a = true) →
  ∃ A B, its = A ++ B ∧ Forall (λ it, P it = true) A ∧ Forall (λ it, P it = false) B.
Proof.
  intros Hs Hm. induction Hs as [|it its Hs IH Hall]; [by exists [], []|].
  destruct (P it) eqn:E.
  - destruct IH as (A & B & -> & HA & HB). exists (it :: A), B. by repeat constructor.
  - exists [], (it :: its). split; [done|]. split; [constructor|]. constructor; [done|].
    eapply Forall_impl; [exact Hall|]. intros b Hb. cbn. destruct (P b) eqn:Eb; [|done].
    by rewrite (Hm _ _ Hb Eb) in E.
Qed.

(** Such a property is what the search needs. *)
Lemma divides_of (P : item D → bool) A B :
  Forall (λ it, P it = true) A → Forall (λ it, P it = false) B → divides (λ it _, P it) A B.
Proof.
  intros HA HB. split; intros X it Y ->.
  - apply Forall_app in HA as [_ HA]. by inversion HA.
  - apply Forall_app in HB as [_ HB]. by inversion HB.
Qed.

Definition item_before (s : D) (o : robj) (it : item D) : bool :=
  slt (iscore it) s || (seqs (iscore it) s && (compareStringObjects (iobj it) o <? 0)).

Lemma before_decides s o : decides (before s o) (λ it _, item_before s o it).
Proof. intros it prev R r. done. Qed.

Lemma item_before_lt s o it : item_before s o it = true ↔ item_lt it (at_key s o).
Proof.
  unfold item_before, item_lt. cbn [iscore iobj]. rewrite orb_true_iff, andb_true_iff, Z.ltb_lt.
  by rewrite (proj2 (compareStringObjects_spec _ _)).
Qed.

(** The place of a key in the list. *)
Lemma key_split s o its :
  StronglySorted item_lt its →
  ∃ A B, its = A ++ B ∧ divides (λ it _, item_before s o it) A B ∧
    Forall (λ it, item_lt it (at_key s o)) A ∧
    Forall (λ it, same_key (at_key s o) it ∨ item_lt (at_key s o) it) B.
Proof.
  intros Hs. destruct (sorted_split (item_before s o) its Hs) as (A & B & -> & HA & HB).
  { intros a b Hab Hb%item_before_lt. apply item_before_lt. by eapply item_lt_trans. }
  exists A, B. split; [done|]. split; [by apply divides_of|]. split.
  - eapply Forall_impl; [exact HA|]. intros it. apply item_before_lt.
  - eapply Forall_impl; [exact HB|]. intros it Hf. cbn in *. destruct (item_lt_total it (at_key s o)) as [Hl|[[? ?]|?]].
    + apply item_before_lt in Hl. congruence.
    + left. split; [by rewrite seqs_sym|done].
    + by right.
Qed.

Lemma sorted_app A B :
  StronglySorted item_lt (A ++ B) ↔
  StronglySorted item_lt A ∧ StronglySorted item_lt B ∧ ∀ a b, a ∈ A → b ∈ B → item_lt a b.
Proof.
  induction A as [|a A IH]; cbn.
  { split; [intros; split; [constructor|]; split; [done|]; set_solver|tauto]. }
  split.
  - intros Hs. inversion Hs as [|? ? Hs' Hall]; subst. apply Forall_app in Hall as [H1 H2].
    apply IH in Hs' as (? & ? & ?). split; [by constructor|]. split; [done|].
    intros x y [-> |?]%elem_of_cons ?; [|eauto]. by rewrite Forall_forall in H2; apply H2.
  - intros (Hs & HB & Hx). inversion Hs as [|? ? Hs' Hall]; subst. constructor.
    + apply IH. split; [done|]. split; [done|]. intros. apply Hx; [by right|done].
    + apply Forall_app. split; [done|]. apply Forall_forall. intros. apply Hx; [by left|done].
Qed.
End order.

(** ** Changing the levels of the nodes on the search path *)

Section patching.
Context {D : Type} `{Score D}.
Implicit Types (h : heap D) (us : list (loc * Z)) (e : nat → zskiplistLevel).

(** [level[j]] of [update[j]] set to [e j], for the levels below [i]. *)
Definition patch us e (i : nat) (x : loc) (l : list zskiplistLevel) : list zskiplistLevel :=
  imap (λ j lv, if bool_decide ((j < i)%nat ∧ fst <$> us !! j = Some x) then e j else lv) l.

Lemma patch_lookup us e i x l j :
  patch us e i x l !! j =
  (λ lv, if bool_decide ((j < i)%nat ∧ fst <$> us !! j = Some x) then e j else lv) <$> l !! j.
Proof. unfold patch. by rewrite list_lookup_imap. Qed.

Lemma patch_0 us e x l : patch us e 0 x l = l.
Proof.
  apply list_eq. intros j. rewrite patch_lookup. destruct (l !! j); [|done]. cbn.
  by rewrite bool_decide_eq_false_2 by lia.
Qed.

Lemma patch_same us e i x l :
  fst <$> us !! i = Some x → (i < length l)%nat → <[i := e i]> (patch us e i x l) = patch us e (S i) x l.
Proof.
  intros Hx Hi. apply list_eq. intros j. rewrite patch_lookup. destruct (decide (j = i)) as [-> |Hne].
  - rewrite list_lookup_insert_eq by (unfold patch; by rewrite length_imap).
    destruct (lookup_lt_is_Some_2 l i Hi) as [lv ->]. cbn. by rewrite bool_decide_eq_true_2 by (split; [lia|done]).
  - rewrite list_lookup_insert_ne, patch_lookup by done. destruct (l !! j); [|done]. cbn. f_equal.
    destruct (decide ((j < i)%nat ∧ fst <$> us !! j = Some x)) as [Hd|Hd].
    + rewrite !bool_decide_eq_true_2; [done|split; [lia|tauto]|done].
    + rewrite !bool_decide_eq_false_2; [done|intros [? ?]; apply Hd; split; [lia|done]|done].
Qed.

Lemma patch_other us e i x l : fst <$> us !! i ≠ Some x → patch us e (S i) x l = patch us e i x l.
Proof.
  intros Hx. apply list_eq. intros j. rewrite !patch_lookup. destruct (l !! j); [|done]. cbn. f_equal.
  destruct (decide ((j < i)%nat ∧ fst <$> us !! j = Some x)) as [Hd|Hd].
  - rewrite !bool_decide_eq_true_2; [done|done|split; [lia|tauto]].
  - rewrite !bool_decide_eq_false_2; [done|done|]. intros [Hj E]. apply Hd. split; [|done].
    destruct (decide (j = i)) as [-> |]; [done|lia].
Qed.

Definition set_levels (n : zskiplistNode D) l : zskiplistNode D := mkNode (obj n) (score n) (backward n) l.

(** [h'] is [h] with the path patched below level [i]. *)
Definition patched us e (i : nat) h h' : Prop :=
  ∀ x n, h !! x = Some n → h' !! x = Some (set_levels n (patch us e i x (level n))).

Lemma patched_0 us e h h' : h ⊆ h' → patched us e 0 h h'.
Proof.
  intros Hsub x n Hx. rewrite patch_0. destruct n. by apply (lookup_weaken h).
Qed.

Lemma patched_get us e i h h' u r n :
  patched us e i h h' → us !! i = Some (u, r) → h !! u = Some n → get_level h' u i = level n !! i.
Proof.
  intros Hp Hu Hn. unfold get_level. rewrite (Hp u n Hn). cbn [mbind option_bind set_levels level].
  rewrite patch_lookup. destruct (level n !! i); [|done]. cbn. by rewrite bool_decide_eq_false_2 by lia.
Qed.

Lemma patched_set us e i h h' u r n lv :
  patched us e i h h' → us !! i = Some (u, r) → h !! u = Some n → (i < length (level n))%nat → lv = e i →
  ∃ h2, set_level h' u i lv = Some h2 ∧ patched us e (S i) h h2 ∧ ∀ x, x ≠ u → h2 !! x = h' !! x.
Proof.
  intros Hp Hu Hn Hi ->. unfold set_level. rewrite (Hp u n Hn). cbn [mbind option_bind set_levels level obj score backward].
  rewrite bool_decide_eq_true_2 by (unfold patch; by rewrite length_imap). eexists. split; [done|]. split.
  - intros x m Hm. destruct (decide (x = u)) as [-> |Hne].
    + rewrite lookup_insert_eq. rewrite Hn in Hm. injection Hm as <-. unfold set_levels. do 2 f_equal.
      apply patch_same; [by rewrite Hu|done].
    + rewrite lookup_insert_ne by done. rewrite (Hp x m Hm). unfold set_levels. do 2 f_equal. symmetry.
      apply patch_other. rewrite Hu. cbn. congruence.
  - intros x Hx. by rewrite lookup_insert_ne.
Qed.
End patching.

(** ** Insertion *)

Section insertion.
Context {D : Type} `{Score D}.
Implicit Types (h : heap D) (its A B R : list (item D)) (hd : loc).

(** The back pointer of the node after [A]. *)
Definition prev_of A : option loc := iloc <$> last A.

Lemma nodes_ok_all h prev its :
  nodes_ok h prev its ↔
  ∀ A it R, its = A ++ it :: R →
    h !! iloc it = Some (node_of (match last A with Some it => Some (iloc it) | None => prev end) it R).
Proof.
  split; [intros Hok A it R ->; by apply (nodes_ok_lookup _ _ _ _ _ Hok)|].
  revert prev. induction its as [|it its IH]; intros prev Hall; [done|]. split; [by apply (Hall [])|].
  apply IH. intros A it' R ->. specialize (Hall (it :: A) it' R eq_refl). rewrite last_cons in Hall.
  by destruct (last A).
Qed.

Lemma span_of_le j its : 0 ≤ span_of j its ≤ len its.
Proof. induction its as [|it its IH]; cbn; [lia|]. case_bool_decide; lia. Qed.

(** The header can be given more levels: they are empty. *)
Lemma raise_loop_ok z0 n : ∀ h z A B us,
  header z0 = header z → length_ z0 = length_ z → zsl_rep h z (A ++ B) → (zlevel z + n ≤ ZSKIPLIST_MAXLEVEL)%nat → length us = zlevel z →
  (∀ k ur, us !! k = Some ur → upd_at (header z) (zlevel z) A k ur) →
  ∃ h' us', raise_loop n h z0 (zlevel z) us = Some (h', us') ∧
    let z' := mkZsl (header z) (ztail z) (length_ z) (zlevel z + n) in
    zsl_rep h' z' (A ++ B) ∧ length us' = zlevel z' ∧
    (∀ k ur, us' !! k = Some ur → upd_at (header z) (zlevel z') A k ur) ∧ (∀ x, x ≠ header z → h' !! x = h !! x).
Proof.
  induction n as [|n IH]; intros h z A B us Hz1 Hz2 Hr Hn Hl Hus; cbn [raise_loop].
  { exists h, us. split; [done|]. rewrite Nat.add_0_r. by destruct z. }
  destruct (rep_header _ _ _ Hr) as [hn [Hnode Hobj Hback Hlen Hused Hfree]].
  destruct (Hfree (zlevel z)) as [s Hs]; [lia|].
  unfold get_level, set_level. rewrite Hz1, Hz2, Hnode. bsimpl. rewrite Hs. cbn [mbind option_bind forward].
  rewrite bool_decide_eq_true_2 by lia. bsimpl.
  rewrite (rep_length _ _ _ Hr), uwrap_small by (pose proof (rep_small _ _ _ Hr); lia).
  set (h1 := <[header z := _]> h). set (z1 := mkZsl (header z) (ztail z) (length_ z) (S (zlevel z))).
  assert (zsl_rep h1 z1 (A ++ B)) as Hr1.
  { pose proof (rep_nodup _ _ _ Hr) as Hnd. pose proof (rep_heights _ _ _ Hr) as Hh.
    destruct Hr as [_ Hnodes _ _ Hlev Htail Hleng Hsm Hsort]. split; cbn [header zlevel ztail length_ z1]; try done.
    - eexists. split; [apply lookup_insert_eq|done|done|cbn [level]; by rewrite length_insert|..]; cbn [level].
      + intros j Hj. destruct (decide (j = zlevel z)) as [-> |Hne].
        * rewrite list_lookup_insert_eq by lia. f_equal. rewrite <- (app_nil_r (A ++ B)) at 2.
          rewrite level_of_low; [cbn; f_equal; lia|]. eapply Forall_impl; [exact Hh|]. cbn. lia.
        * rewrite list_lookup_insert_ne by done. apply Hused. lia.
      + intros j Hj. rewrite list_lookup_insert_ne by lia. apply Hfree. lia.
    - apply nodes_ok_all. intros A1 it R E. apply NoDup_cons in Hnd as [Hni _].
      unfold h1. rewrite lookup_insert_ne; [by apply (proj1 (nodes_ok_all _ _ _) Hnodes)|].
      intros E2. apply Hni. rewrite E2. apply list_elem_of_fmap. exists it. split; [done|]. rewrite E. set_solver.
    - eapply Forall_impl; [exact Hh|]. cbn. lia.
    - lia. }
  destruct (IH h1 z1 A B (us ++ [(header z, 0)]) Hz1 Hz2 Hr1) as (h' & us' & E & Hr' & Hl' & Hus' & Ho).
  { cbn [zlevel z1]. lia. }
  { rewrite length_app. cbn [length zlevel z1]. lia. }
  { intros k ur. rewrite lookup_snoc_Some. intros [[_ Hk]|[-> <-]].
    - destruct (Hus k ur Hk) as (pre & R & HA & Hur & Hlow & Hh). exists pre, R.
      split; [done|]. split; [done|]. split; [done|]. unfold owner_height in *. destruct (last pre); [done|].
      cbn [zlevel z1]. lia.
    - exists [], A. split; [done|]. split; [done|]. rewrite Hl. split; [|cbn [owner_height last zlevel z1]; lia].
      pose proof (rep_heights _ _ _ Hr) as Hh. apply Forall_app in Hh as [Hh _].
      eapply Forall_impl; [exact Hh|]. cbn. lia. }
  cbn [header zlevel ztail length_ z1] in *. replace (zlevel z + 1)%nat with (S (zlevel z)) by lia.
  exists h', us'. rewrite E. split; [done|]. cbv zeta in *. replace (zlevel z + S n)%nat with (S (zlevel z) + n)%nat by lia.
  split; [by rewrite <- (rep_length _ _ _ Hr)|]. split; [done|]. split; [done|].
  intros x Hx. rewrite Ho by done. unfold h1. by rewrite lookup_insert_ne.
Qed.

(** The path of the search, with what it says of the levels. *)
Definition path_ok h z A B (us : list (loc * Z)) : Prop :=
  zsl_rep h z (A ++ B) ∧ (zlevel z ≤ length us)%nat ∧
  ∀ k ur, (k < zlevel z)%nat → us !! k = Some ur → upd_at (header z) (zlevel z) A k ur.

Lemma path_node h z A B us i :
  path_ok h z A B us → (i < zlevel z)%nat →
  ∃ u r n, us !! i = Some (u, r) ∧ h !! u = Some n ∧ 0 ≤ r ≤ len A ∧ low i (drop (Z.to_nat r) A) ∧
    level n !! i = Some (level_of (drop (Z.to_nat r) A ++ B) i) ∧ u = owner (header z) (take (Z.to_nat r) A) ∧
    (i < owner_height (zlevel z) (take (Z.to_nat r) A))%nat.
Proof.
  intros (Hr & Hl & Hus) Hi. destruct (lookup_lt_is_Some_2 us i) as [[u r] Hu]; [lia|].
  destruct (Hus i _ Hi Hu) as (pre & R & HA & E & Hlow & Hh). injection E as -> ->.
  assert (get_level h (owner (header z) pre) i = Some (level_of (R ++ B) i)) as Hg.
  { eapply get_level_owner; [done| |done]. by rewrite HA, app_assoc. }
  unfold get_level in Hg. destruct (h !! owner (header z) pre) as [n|] eqn:En; [|done].
  exists (owner (header z) pre), (len pre), n. rewrite Nat2Z.id, HA, drop_app_length, take_app_length.
  split; [done|]. split; [done|]. split; [rewrite length_app; lia|done].
Qed.

(** What [update[j]->level[j]] becomes when the items after it are [R ++ C]. *)
Definition target (us : list (loc * Z)) A (C : list (item D)) (j : nat) : zskiplistLevel :=
  match us !! j with
  | Some (_, r) => level_of (drop (Z.to_nat r) A ++ C) j
  | None => mkLevel None 0
  end.

Definition new_node_ok h (it : item D) B (i : nat) : Prop :=
  ∃ b l, h !! iloc it = Some (mkNode (Some (iobj it)) (iscore it) b l) ∧ length l = iheight it ∧
    ∀ j, (j < i)%nat → l !! j = Some (level_of B j).

Lemma link_loop_ok h z A B us it n : ∀ i h',
  path_ok h z A B us → h !! iloc it = None → (i + n = iheight it)%nat → (iheight it ≤ zlevel z)%nat →
  patched us (target us A (it :: B)) i h h' → new_node_ok h' it B i →
  ∃ h2, link_loop n h' i (iloc it) us (len A) = Some h2 ∧
    patched us (target us A (it :: B)) (iheight it) h h2 ∧ new_node_ok h2 it B (iheight it).
Proof.
  induction n as [|n IH]; intros i h' Hp Hnew Hin Hlv Hpat Hnn; cbn [link_loop].
  { exists h'. replace i with (iheight it) in * by lia. done. }
  destruct (path_node h z A B us i Hp ltac:(lia)) as (u & r & nd & Hu & Hnd & Hr & Hlow & Hlvl & _).
  rewrite Hu. bsimpl. rewrite (patched_get _ _ _ _ _ _ _ _ Hpat Hu Hnd), Hlvl. bsimpl.
  rewrite level_of_low by done. cbn [forward span]. rewrite length_drop.
  destruct Hp as (Hrep & Hl & Hus). pose proof (rep_small _ _ _ Hrep) as Hsm. rewrite length_app in Hsm.
  pose proof (span_of_le i B) as Hsp.
  replace (u32 (Z.of_nat (length A - Z.to_nat r) + span_of i B - u32 (len A - r))) with (span_of i B)
    by (rewrite !uwrap_small; rewrite ?uwrap_small; lia).
  destruct Hnn as (b & l & Hnn & Hll & Hlj).
  assert (∃ h1, set_level h' (iloc it) i (mkLevel (fwd i B) (span_of i B)) = Some h1 ∧
    patched us (target us A (it :: B)) i h h1 ∧ new_node_ok h1 it B (S i)) as (h1 & -> & Hpat1 & Hnn1).
  { unfold set_level. rewrite Hnn. cbn [mbind option_bind level]. rewrite bool_decide_eq_true_2 by lia.
    eexists. split; [done|]. split.
    - intros x m Hm. rewrite lookup_insert_ne by congruence. by apply Hpat.
    - exists b, (<[i := level_of B i]> l). rewrite lookup_insert_eq, length_insert. split; [done|]. split; [done|].
      intros j Hj. destruct (decide (j = i)) as [-> |]; [by rewrite list_lookup_insert_eq by lia|].
      rewrite list_lookup_insert_ne by done. apply Hlj. lia. }
  bsimpl.
  destruct (patched_set us (target us A (it :: B)) i h h1 u r nd
    (mkLevel (Some (iloc it)) (u32 (u32 (len A - r) + 1)))) as (h2 & -> & Hpat2 & Hoth); [done|done|done| | |].
  { by eapply lookup_lt_Some. }
  { unfold target. rewrite Hu, level_of_hit by (done || lia). rewrite length_drop.
    rewrite !uwrap_small by (rewrite ?uwrap_small; lia). f_equal. lia. }
  bsimpl. replace (i + 1)%nat with (S i) by lia.
  apply IH; [done|done|lia|done|done|]. destruct Hnn1 as (b1 & l1 & Hb1 & ? & ?). exists b1, l1.
  rewrite Hoth by congruence. done.
Qed.

Lemma untouched_loop_ok h z A B us it n : ∀ i h',
  path_ok h z A B us → h !! iloc it = None → (i + n = zlevel z)%nat → (iheight it ≤ i)%nat →
  patched us (target us A (it :: B)) i h h' →
  ∃ h2, untouched_loop n h' i us = Some h2 ∧
    patched us (target us A (it :: B)) (zlevel z) h h2 ∧ h2 !! iloc it = h' !! iloc it.
Proof.
  induction n as [|n IH]; intros i h' Hp Hnew Hin Hlv Hpat; cbn [untouched_loop].
  { exists h'. by replace i with (zlevel z) in * by lia. }
  destruct (path_node h z A B us i Hp ltac:(lia)) as (u & r & nd & Hu & Hnd & Hr & Hlow & Hlvl & _).
  rewrite Hu. bsimpl. rewrite (patched_get _ _ _ _ _ _ _ _ Hpat Hu Hnd), Hlvl. bsimpl.
  rewrite level_of_low by done. cbn [forward span]. rewrite length_drop.
  pose proof (rep_small _ _ _ (proj1 Hp)) as Hsm. rewrite length_app in Hsm.
  pose proof (span_of_le i B) as Hsp.
  destruct (patched_set us (target us A (it :: B)) i h h' u r nd
    (mkLevel (fwd i B) (u32 (Z.of_nat (length A - Z.to_nat r) + span_of i B + 1)))) as (h2 & -> & Hpat2 & Hoth);
    [done|done|done|by eapply lookup_lt_Some| |].
  { unfold target. rewrite Hu, level_of_low by done. cbn [fwd span_of]. rewrite bool_decide_eq_false_2 by lia.
    rewrite length_drop, uwrap_small by lia. f_equal. lia. }
  bsimpl. replace (i + 1)%nat with (S i) by lia.
  destruct (IH (S i) h2) as (h3 & -> & ? & E); [done|done|lia|lia|done|]. exists h3. split; [done|]. split; [done|].
  rewrite E. apply Hoth. congruence.
Qed.
End insertion.

(** ** The list after a change behind the search path *)

Section rebuilding.
Context {D : Type} `{Score D}.
Implicit Types (h : heap D) (its A B C R : list (item D)) (us : list (loc * Z)).

Lemma owner_elem hd (pre : list (item D)) : owner hd pre ∈ hd :: (iloc <$> pre).
Proof.
  destruct pre as [|it pre _] using rev_ind; [by left|]. rewrite owner_snoc, fmap_app. set_solver.
Qed.

Lemma owner_ne hd p Y y R : NoDup (hd :: (iloc <$> p ++ Y ++ y :: R)) → owner hd p ≠ iloc y.
Proof.
  intros Hnd E. pose proof (owner_elem hd p) as Hin. rewrite E in Hin.
  rewrite !fmap_app, app_comm_cons in Hnd. apply NoDup_app in Hnd as (_ & Hnd & _).
  apply (Hnd (iloc y)); [done|]. rewrite fmap_cons. set_solver.
Qed.

(** Of two prefixes, one ends further on, at an item that follows the other. *)
Lemma prefix_cases (pre R pre' R' : list (item D)) :
  pre ++ R = pre' ++ R' →
  (pre = pre' ∧ R = R') ∨
  (∃ Y y, pre' = (pre ++ Y) ++ [y] ∧ R = Y ++ y :: R') ∨ (∃ Y y, pre = (pre' ++ Y) ++ [y] ∧ R' = Y ++ y :: R).
Proof.
  intros [(k & -> & ->)|(k & -> & ->)]%app_eq_inv; destruct k as [|y k _] using rev_ind.
  - left. by rewrite app_nil_r.
  - right; right. exists k, y. by rewrite <- !app_assoc.
  - left. by rewrite app_nil_r.
  - right; left. exists k, y. by rewrite <- !app_assoc.
Qed.

Lemma low_mid j (X Y : list (item D)) it : low j (X ++ it :: Y) → (iheight it ≤ j)%nat.
Proof. intros [_ Hl]%Forall_app. by inversion Hl. Qed.

(** The nodes passed by the search, with their levels patched. *)
Lemma patched_owner h z A B C us pre R n j :
  path_ok h z A B us →
  A = pre ++ R → h !! owner (header z) pre = Some n → (j < owner_height (zlevel z) pre)%nat →
  patch us (target us A C) (zlevel z) (owner (header z) pre) (level n) !! j = Some (level_of (R ++ C) j).
Proof.
  intros Hpath HA Hn Hj. destruct Hpath as (Hr & Hl & Hus).
  assert (level n !! j = Some (level_of (R ++ B) j)) as Hlv.
  { pose proof (get_level_owner h z (A ++ B) pre (R ++ B) j Hr) as Hg. unfold get_level in Hg. rewrite Hn in Hg.
    apply Hg; [by rewrite HA, app_assoc|done]. }
  rewrite patch_lookup, Hlv. cbn [fmap option_fmap option_map]. f_equal.
  assert (j < zlevel z)%nat as Hjz.
  { pose proof (rep_heights _ _ _ Hr) as Hh. destruct pre as [|it pre _] using rev_ind; [done|].
    rewrite owner_height_snoc in Hj. rewrite HA, !Forall_app, Forall_cons in Hh. lia. }
  destruct (lookup_lt_is_Some_2 us j ltac:(lia)) as [[u r] Hu].
  destruct (Hus j _ Hjz Hu) as (pre' & R' & HA' & E & Hlow & Hh). injection E as -> ->. rewrite Hu. cbn [fmap option_fmap option_map fst].
  pose proof (rep_nodup _ _ _ Hr) as Hnd. rewrite fmap_app, app_comm_cons in Hnd. apply NoDup_app in Hnd as (Hnd & _ & _).
  destruct (prefix_cases pre R pre' R') as [[-> ->]|[(Y & y & -> & ->)|(Y & y & -> & ->)]]; [congruence|..].
  - rewrite bool_decide_eq_true_2 by done. unfold target. rewrite Hu, HA', Nat2Z.id, drop_app_length. done.
  - rewrite owner_height_snoc in Hh. rewrite owner_snoc, bool_decide_eq_false_2.
    + rewrite <- !app_assoc. cbn [app].
      destruct (low_split j Y) as [Hy|(Y1 & it & Y2 & -> & Hy & Hit)].
      * by rewrite !level_of_hit.
      * rewrite <- !app_assoc. cbn [app]. by rewrite !level_of_hit.
    + intros [_ E]. injection E as E. symmetry in E. revert E. apply (owner_ne _ _ Y _ R'). by rewrite <- HA.
  - apply low_mid in Hlow. rewrite owner_height_snoc in Hj. lia.
Qed.

Lemma patched_item h z A B C us h2 A1 it A2 :
  path_ok h z A B us → patched us (target us A C) (zlevel z) h h2 → A = A1 ++ it :: A2 →
  h2 !! iloc it = Some (node_of (prev_of A1) it (A2 ++ C)).
Proof.
  intros Hpath Hpat HA.
  assert (h !! iloc it = Some (node_of (prev_of A1) it (A2 ++ B))) as Hn.
  { pose proof (rep_nodes _ _ _ (proj1 Hpath)) as Hn. rewrite HA, <- app_assoc in Hn. cbn [app] in Hn.
    rewrite (nodes_ok_lookup _ _ _ _ _ Hn). unfold prev_of. by destruct (last A1). }
  rewrite (Hpat _ _ Hn). unfold set_levels, node_of. cbn [obj score backward level]. do 2 f_equal.
  apply list_eq. intros j. destruct (decide (j < iheight it)%nat) as [Hj|Hj].
  - pose proof (patched_owner h z A B C us (A1 ++ [it]) A2 (node_of (prev_of A1) it (A2 ++ B)) j Hpath) as E.
    rewrite owner_snoc, owner_height_snoc in E. cbn [node_of level] in E.
    rewrite E; [by rewrite level_lookup|by rewrite <- app_assoc|done|done].
  - rewrite !lookup_ge_None_2; [done|rewrite length_fmap, length_seq; lia|].
    unfold patch. rewrite length_imap, length_fmap, length_seq. lia.
Qed.

Lemma patched_header h z A B C us h2 :
  path_ok h z A B us → patched us (target us A C) (zlevel z) h h2 →
  ∃ n, header_ok h2 (header z) (zlevel z) (A ++ C) n.
Proof.
  intros Hpath Hpat. destruct (rep_header _ _ _ (proj1 Hpath)) as [n [Hn Hobj Hb Hlen Hused Hfree]].
  eexists. split; [apply (Hpat _ _ Hn)|done|done|by unfold patch; cbn [set_levels level]; rewrite length_imap|..]; cbn [set_levels level].
  - intros j Hj. pose proof (patched_owner h z A B C us [] A n j Hpath) as E. by apply E.
  - intros j Hj. destruct (Hfree j Hj) as [s Hs]. exists s. rewrite patch_lookup, Hs. cbn.
    by rewrite bool_decide_eq_false_2 by lia.
Qed.

Lemma patched_other h z A B us e i h2 x n :
  path_ok h z A B us → (i ≤ zlevel z)%nat → patched us e i h h2 → x ∉ header z :: (iloc <$> A) → h !! x = Some n → h2 !! x = Some n.
Proof.
  intros (Hr & Hl & Hus) Hi Hpat Hx Hn. rewrite (Hpat _ _ Hn). destruct n as [o s b l]. unfold set_levels. cbn [obj score backward level].
  do 2 f_equal. apply list_eq. intros j. rewrite patch_lookup. destruct (l !! j); [|done]. cbn.
  rewrite bool_decide_eq_false_2; [done|]. intros [Hj E]. destruct (us !! j) as [ur|] eqn:Eu; [|done].
  destruct (Hus j ur ltac:(lia) Eu) as (pre & R & -> & -> & _). cbn in E. injection E as <-. apply Hx.
  pose proof (owner_elem (header z) pre). rewrite fmap_app. set_solver.
Qed.

Lemma nodes_ok_join h A C :
  (∀ A1 it A2, A = A1 ++ it :: A2 → h !! iloc it = Some (node_of (prev_of A1) it (A2 ++ C))) →
  nodes_ok h (prev_of A) C → nodes_ok h None (A ++ C).
Proof.
  intros HA HC. apply nodes_ok_all. intros X it Y E.
  apply app_eq_inv in E as [(k & -> & E)|(k & -> & ->)].
  - destruct k as [|it' k]; cbn [app] in E.
    + subst C. rewrite app_nil_r in HC. destruct HC as [HC _]. rewrite HC. unfold prev_of. by destruct (last X).
    + injection E as -> ->. rewrite (HA X it' k eq_refl). unfold prev_of. by destruct (last X).
  - apply (nodes_ok_lookup _ _ _ _ _) in HC. rewrite HC. unfold prev_of. rewrite last_app. by destruct (last k).
Qed.

Lemma nodes_ok_frame h h' prev its :
  nodes_ok h prev its → (∀ it n, it ∈ its → h !! iloc it = Some n → h' !! iloc it = Some n) → nodes_ok h' prev its.
Proof.
  revert prev. induction its as [|it its IH]; intros prev Hok Hf; [done|]. destruct Hok as [Hn Hok].
  split; [apply Hf; [by left|done]|]. apply IH; [done|]. intros. apply Hf; [by right|done].
Qed.

(** The back pointer of the first node of a suffix is set. *)
Lemma set_backward_ok h prev it its p :
  nodes_ok h prev (it :: its) → NoDup (iloc <$> it :: its) →
  ∃ h', set_backward h (iloc it) p = Some h' ∧ nodes_ok h' p (it :: its) ∧
    (∀ x, x ≠ iloc it → h' !! x = h !! x) ∧ dom h' = dom h.
Proof.
  intros [Hn Hok] Hnd. unfold set_backward. rewrite Hn. bsimpl. eexists. split; [done|].
  split; [|split].
  - split; [apply lookup_insert_eq|]. eapply nodes_ok_frame; [exact Hok|]. intros it' n Hin E.
    rewrite lookup_insert_ne; [done|]. rewrite fmap_cons in Hnd. apply NoDup_cons in Hnd as [Hni _].
    intros E2. apply Hni. rewrite E2. by apply list_elem_of_fmap_2.
  - intros x Hx. by rewrite lookup_insert_ne.
  - rewrite dom_insert_L. apply elem_of_dom_2 in Hn. set_solver.
Qed.
End rebuilding.

(** ** [zslInsert] *)

Section insert.
Context {D : Type} `{Score D}.
Implicit Types (h : heap D) (its A B C R : list (item D)) (us : list (loc * Z)).

Lemma raise_ok h z A B us lv :
  path_ok h z A B us → length us = zlevel z → (lv ≤ ZSKIPLIST_MAXLEVEL)%nat →
  ∃ h1 us1, (if bool_decide (zlevel z < lv)%nat
             then raise_loop (lv - zlevel z) h z (zlevel z) us else Some (h, us)) = Some (h1, us1) ∧
    path_ok h1 (mkZsl (header z) (ztail z) (length_ z) (max (zlevel z) lv)) A B us1 ∧
    (∀ x, x ≠ header z → h1 !! x = h !! x).
Proof.
  intros (Hr & _ & Hus) Hl Hlv. case_bool_decide as Hb.
  - destruct (raise_loop_ok z (lv - zlevel z) h z A B us) as (h1 & us1 & -> & Hr1 & Hl1 & Hus1 & Ho);
      [done|done|done|lia|done| |].
    { intros k ur Hk. apply Hus; [|done]. apply lookup_lt_Some in Hk. lia. }
    exists h1, us1. split; [done|]. cbn [zlevel] in *. replace (zlevel z + (lv - zlevel z))%nat with (max (zlevel z) lv) in * by lia.
    split; [|done]. split; [done|]. split; [cbn [zlevel]; lia|]. eauto.
  - exists h, us. split; [done|]. split; [|done]. rewrite Nat.max_l by lia. destruct z. cbn in *. split; [done|]. split; [cbn; lia|done].
Qed.

Lemma new_node_all h (it : item D) B : new_node_ok h it B (iheight it) → ∃ b, h !! iloc it = Some (node_of b it B).
Proof.
  intros (b & l & Hn & Hl & Hj). exists b. rewrite Hn. unfold node_of. do 2 f_equal. apply list_eq. intros j.
  destruct (decide (j < iheight it)%nat) as [Hlt|Hge].
  - by rewrite Hj, level_lookup.
  - rewrite !lookup_ge_None_2; [done|rewrite length_fmap, length_seq; lia|lia].
Qed.

Lemma prev_of_owner hd A :
  hd ∉ iloc <$> A → (if bool_decide (owner hd A = hd) then None else Some (owner hd A)) = prev_of A.
Proof.
  unfold prev_of. destruct A as [|it A _] using rev_ind; intros Hni.
  - by rewrite bool_decide_eq_true_2.
  - rewrite owner_snoc, last_snoc. rewrite bool_decide_eq_false_2; [done|]. intros <-. apply Hni.
    rewrite fmap_app. set_solver.
Qed.

(** The back pointers around the new node, and the tail. *)
Lemma set_backs_ok h h2 z A B us it b :
  path_ok h z A B us → h !! iloc it = None → (1 ≤ iheight it)%nat →
  patched us (target us A (it :: B)) (zlevel z) h h2 → h2 !! iloc it = Some (node_of b it B) →
  ∃ h3 x0 h4 tl, set_backward h2 (iloc it) (prev_of A) = Some h3 ∧ get_level h3 (iloc it) 0 = Some x0 ∧
    match forward x0 with
    | Some f => h ← set_backward h3 f (Some (iloc it)); Some (h, ztail z)
    | None => Some (h3, Some (iloc it))
    end = Some (h4, tl) ∧
    tl = prev_of (A ++ it :: B) ∧ nodes_ok h4 None (A ++ it :: B) ∧
    (∃ n, header_ok h4 (header z) (zlevel z) (A ++ it :: B) n) ∧
    (∀ x n, x ∉ header z :: (iloc <$> A ++ B) → h !! x = Some n → h4 !! x = Some n).
Proof.
  intros Hpath Hnew Hh1 Hpat Hnode. pose proof (proj1 Hpath) as Hr.
  pose proof (rep_nodup _ _ _ Hr) as Hnd. rewrite fmap_app, app_comm_cons in Hnd.
  apply NoDup_app in Hnd as (HndA & HndAB & HndB).
  assert (iloc it ∉ header z :: (iloc <$> A ++ B)) as Hni.
  { intros [E|E]%elem_of_cons.
    - destruct (rep_header _ _ _ Hr) as [n Hn]. pose proof (hd_node _ _ _ _ _ Hn). congruence.
    - apply list_elem_of_fmap in E as (it' & E & (X & Y & HXY)%list_elem_of_split).
      pose proof (rep_nodes _ _ _ Hr) as Hn. rewrite HXY in Hn. apply nodes_ok_lookup in Hn. congruence. }
  rewrite fmap_app in Hni.
  unfold set_backward at 1. rewrite Hnode. bsimpl. set (h3 := <[iloc it := _]> h2).
  assert (nodes_ok h3 (prev_of A) B) as HB.
  { pose proof (rep_nodes _ _ _ Hr) as Hn. apply nodes_ok_app in Hn.
    replace (prev_of A) with (match last A with Some it => Some (iloc it) | None => None end)
      by (unfold prev_of; by destruct (last A)).
    eapply nodes_ok_frame; [exact Hn|]. intros it' n Hin E. pose proof (list_elem_of_fmap_2 iloc _ _ Hin).
    unfold h3. rewrite lookup_insert_ne by (intros E2; rewrite E2 in *; set_solver).
    eapply patched_other; [done|done|done| |done]. set_solver. }
  assert (∃ n, header_ok h3 (header z) (zlevel z) (A ++ it :: B) n) as Hhd.
  { destruct (patched_header _ _ _ _ _ _ _ Hpath Hpat) as [n [? ? ? ? ? ?]]. exists n. split; try done.
    unfold h3. rewrite lookup_insert_ne; [done|]. set_solver. }
  assert (∀ A1 it' A2, A = A1 ++ it' :: A2 → h3 !! iloc it' = Some (node_of (prev_of A1) it' (A2 ++ it :: B))) as HA.
  { intros A1 it' A2 E. unfold h3. rewrite lookup_insert_ne.
    - by eapply patched_item.
    - intros E2. rewrite E2, E, fmap_app in Hni. cbn in Hni. set_solver. }
  assert (get_level h3 (iloc it) 0 = Some (level_of B 0)) as Hg.
  { unfold get_level, h3. rewrite lookup_insert_eq. cbn [mbind option_bind level node_of]. by rewrite level_lookup by lia. }
  exists h3, (level_of B 0). cbn [level_of forward].
  destruct B as [|b0 B].
  - exists h3, (Some (iloc it)). split; [done|]. split; [done|]. split; [done|].
    split; [unfold prev_of; by rewrite last_snoc|].
    split; [apply nodes_ok_join; [done|]; split; [unfold h3; apply lookup_insert_eq|done]|].
    split; [done|]. intros x n Hx E. rewrite app_nil_r in Hx. unfold h3. rewrite lookup_insert_ne by congruence.
    by eapply patched_other.
  - pose proof (rep_heights _ _ _ Hr) as Hh. apply Forall_app in Hh as [_ Hh]. apply Forall_cons in Hh as [Hb0 _].
    cbn [fwd]. rewrite bool_decide_eq_true_2 by lia. destruct (set_backward_ok h3 (prev_of A) b0 B (Some (iloc it)) HB) as (h4 & E4 & HB4 & Ho & _); [done|].
    exists h4, (ztail z). split; [done|]. split; [done|]. cbn [forward]. rewrite E4. bsimpl. split; [done|].
    rewrite fmap_cons in *. split.
    { rewrite (rep_tail _ _ _ Hr). unfold prev_of. rewrite !last_app, !last_cons_cons. done. }
    split; [|split].
    + apply nodes_ok_join.
      * intros A1 it' A2 E. rewrite Ho; [by apply HA|]. intros E2. apply (HndAB (iloc it')).
        -- rewrite E, fmap_app, fmap_cons. set_solver.
        -- rewrite E2. by left.
      * split; [|done]. rewrite Ho by (intros E2; rewrite E2 in *; set_solver). unfold h3. by rewrite lookup_insert_eq.
    + destruct Hhd as [n [? ? ? ? ? ?]]. exists n. split; try done. rewrite Ho; [done|]. intros E2. apply (HndAB (header z)); set_solver.
    + intros x n Hx E. rewrite fmap_app, fmap_cons in Hx. rewrite Ho by set_solver. unfold h3. rewrite lookup_insert_ne by congruence.
      eapply patched_other; [done|done|done| |done]. set_solver.
Qed.
End insert.
