(* ===== verification/SkiplistOps.v ===== *)
(** * The operations of the skip list implement a sorted list

    [zslInsert], [zslDelete] and the range deletions change the items of
    [zsl_rep] the way they would a sorted list; [zslGetRank],
    [zslGetElementByRank] and the range queries return what a scan of that list
    gives. *)

From S2P Require Import Prelude Sds Skiplist SkiplistSpec.
From stdpp Require Import gmap.
Local Open Scope Z_scope.

(** Scores for concrete examples. *)
#[export] Instance score_Z : Score Z.
Proof.
  refine {| slt := Z.ltb; szero := 0 |}.
  - intros. apply Z.ltb_irrefl.
  - intros x y z ?%Z.ltb_lt ?%Z.ltb_lt. apply Z.ltb_lt. lia.
  - intros x y z ?%Z.ltb_lt. destruct (Z.ltb_spec x y); [by left|right]. apply Z.ltb_lt. lia.
Defined.

Section insert.
Context {D : Type} `{Score D}.
Implicit Types (h : heap D) (z : zskiplist) (its A B : list (item D)).

Lemma insert_linked h z A B us it junk bjunk :
  path_ok h z A B us → h !! iloc it = None → (iheight it ≤ zlevel z)%nat →
  ∃ h2 h3 b, link_loop (iheight it) (zslCreateNode h (iloc it) (iheight it) (iscore it) (Some (iobj it)) junk bjunk) 0
               (iloc it) us (len A) = Some h2 ∧
    untouched_loop (zlevel z - iheight it) h2 (iheight it) us = Some h3 ∧
    patched us (target us A (it :: B)) (zlevel z) h h3 ∧ h3 !! iloc it = Some (node_of b it B).
Proof.
  intros Hpath Hnew Hlv. set (h1 := zslCreateNode _ _ _ _ _ _ _).
  destruct (link_loop_ok h z A B us it (iheight it) 0 h1) as (h2 & E2 & Hp2 & Hn2); [done|done|lia|done| | |].
  { apply patched_0. by apply insert_subseteq. }
  { exists bjunk, (junk <$> seq 0 (iheight it)). unfold h1, zslCreateNode. rewrite lookup_insert_eq.
    rewrite length_fmap, length_seq. split; [done|]. split; [done|]. intros. lia. }
  destruct (untouched_loop_ok h z A B us it (zlevel z - iheight it) (iheight it) h2) as (h3 & E3 & Hp3 & Hn3);
    [done|done|lia|done|done|].
  apply new_node_all in Hn2 as [b Hb]. exists h2, h3, b. by rewrite Hn3.
Qed.

Lemma random_level_ge rs : ∀ lv0 lv rs', random_level rs lv0 = Some (lv, rs') → (lv0 ≤ lv)%nat.
Proof.
  induction rs as [|r rs IH]; intros lv0 lv rs'; cbn; [done|]. case_match; [intros E%IH; lia|intros [= -> ->]; lia].
Qed.

(** A level drawn is within bounds. *)
Lemma zslRandomLevel_bound rs lv rs' : zslRandomLevel rs = Some (lv, rs') → (1 ≤ lv ≤ ZSKIPLIST_MAXLEVEL)%nat.
Proof.
  unfold zslRandomLevel. destruct (random_level rs 1) as [[lv1 rs1]|] eqn:E; [|done]. apply random_level_ge in E.
  bsimpl. intros [= <- <-]. unfold ZSKIPLIST_MAXLEVEL. case_bool_decide; lia.
Qed.

Lemma insert_at_ok h z A B s o rs lv rs' new junk bjunk :
  zsl_rep h z (A ++ B) → divides (λ it _, item_before s o it) A B →
  StronglySorted item_lt (A ++ mkItem new lv s o :: B) →
  zslRandomLevel rs = Some (lv, rs') → h !! new = None → len (A ++ B) < 2 ^ 32 - 2 →
  ∃ h' z', zslInsert h z s o rs new junk bjunk = Some (h', z', rs') ∧
    zsl_rep h' z' (A ++ mkItem new lv s o :: B) ∧ header z' = header z ∧
    (∀ x n, x ∉ header z :: (iloc <$> A ++ B) → h !! x = Some n → h' !! x = Some n).
Proof.
  intros Hr Hdiv Hsort Hrand Hnew Hsmall. pose proof (zslRandomLevel_bound _ _ _ Hrand) as Hlv. unfold zslInsert.
  destruct (search_ok h z A B _ _ Hr (before_decides s o) Hdiv) as (us & -> & Hl & Hus). bsimpl.
  rewrite Hrand. bsimpl. destruct (raise_ok h z A B us lv) as (h1 & us1 & -> & Hpath & Ho);
    [split; [done|]; split; [lia|eauto]|done|lia|]. bsimpl.
  destruct (rep_header _ _ _ Hr) as [hn Hhn]. pose proof (hd_node _ _ _ _ _ Hhn) as Hhd.
  assert (h1 !! new = None) as Hnew1 by (rewrite Ho by congruence; done).
  set (z1 := mkZsl _ _ _ _) in *. set (it := mkItem new lv s o) in *. set (zl := max (zlevel z) lv) in *.
  pose proof (proj1 Hpath) as Hr1. pose proof (rep_nodup _ _ _ Hr1) as Hnd1. pose proof (rep_level _ _ _ Hr1) as Hlev.
  cbn [z1 header zlevel] in Hnd1, Hlev.
  destruct (lookup_lt_is_Some_2 us1 0) as [ur0 Hu0]; [pose proof (proj1 (proj2 Hpath)); cbn [z1 zlevel] in *; lia|].
  pose proof (upd_at_0 _ _ _ _ _ Hr1 (proj2 (proj2 Hpath) 0%nat _ ltac:(cbn [z1 zlevel]; lia) Hu0)) as ->. rewrite Hu0. bsimpl.
  destruct (insert_linked h1 z1 A B us1 it junk bjunk Hpath Hnew1) as (h2 & h3 & b & E2 & E3 & Hp3 & Hb).
  { cbn [it z1 iheight zlevel]. unfold zl. lia. }
  cbn [it z1 iloc iheight iscore iobj zlevel header] in E2, E3. rewrite E2. bsimpl. rewrite E3. bsimpl.
  destruct (set_backs_ok h1 h3 z1 A B us1 it b Hpath Hnew1 (proj1 Hlv) Hp3 Hb)
    as (h4 & x0 & h5 & tl & E4 & E5 & E6 & Htl & Hnodes & Hhead & Hframe).
  cbn [it z1 iloc ztail header zlevel] in E4, E5, E6, Hframe, Hhead.
  cbn [z1 header]. rewrite prev_of_owner by (apply NoDup_cons in Hnd1 as [Hx _]; rewrite fmap_app in Hx; set_solver).
  rewrite E4. bsimpl. rewrite E5. bsimpl. rewrite E6. bsimpl.
  eexists _, _. split; [done|]. split; [|split; [done|]].
  - pose proof (rep_heights _ _ _ Hr) as Hh. rewrite length_app in Hsmall. split; cbn [header zlevel ztail length_]; try done.
    + rewrite fmap_app, fmap_cons. rewrite fmap_app in Hnd1. apply NoDup_cons in Hnd1 as [Hni Hnd1].
      assert (new ∉ iloc <$> A ++ B) as Hnn.
      { intros (x & -> & (X & Y & HXY)%list_elem_of_split)%list_elem_of_fmap.
        pose proof (rep_nodes _ _ _ Hr) as Hn. rewrite HXY in Hn. apply nodes_ok_lookup in Hn. congruence. }
      rewrite fmap_app in Hnn. apply NoDup_cons. split.
      * rewrite elem_of_app, elem_of_cons. cbn [it iloc]. intros [?|[?|?]]; [set_solver|congruence|set_solver].
      * rewrite (Permutation_app_comm (iloc <$> A)). cbn [app]. apply NoDup_cons. split; [set_solver|].
        by rewrite Permutation_app_comm.
    + rewrite Forall_app, Forall_cons in *. cbn [it iheight]. unfold zl. destruct Hh as [Hh1 Hh2].
      split; [eapply Forall_impl; [exact Hh1|cbn; lia]|]. split; [lia|eapply Forall_impl; [exact Hh2|cbn; lia]].
    + rewrite (rep_length _ _ _ Hr), !length_app in *. cbn [length]. rewrite uwrap_small; lia.
    + rewrite length_app. cbn [length]. lia.
  - intros x n Hx E. apply Hframe; [done|]. rewrite Ho; [done|]. set_solver.
Qed.
End insert.

(** ** Deleting the node behind the search path *)

Section delete.
Context {D : Type} `{Score D}.
Implicit Types (h : heap D) (z : zskiplist) (its A B : list (item D)).

Lemma fwd_in j its x : fwd j its = Some x → x ∈ iloc <$> its.
Proof.
  induction its as [|it its IH]; cbn; [done|]. case_bool_decide; [intros [= <-]; by left|intros E; right; by apply IH].
Qed.

Lemma path_tail h z A it B us x :
  path_ok h z A (it :: B) us → x ∈ header z :: (iloc <$> A) ∨ x ∈ iloc <$> B → x ≠ iloc it.
Proof.
  intros (Hr & _) Hx ->. pose proof (rep_nodup _ _ _ Hr) as Hnd. rewrite fmap_app, app_comm_cons in Hnd.
  apply NoDup_app in Hnd as (_ & Hnd & HndB). rewrite fmap_cons in *. apply NoDup_cons in HndB as [HndB _].
  destruct Hx as [Hx|Hx]; [|done]. apply (Hnd _ Hx). by left.
Qed.

Lemma path_lookup h z A it B us :
  path_ok h z A (it :: B) us → h !! iloc it = Some (node_of (prev_of A) it B).
Proof.
  intros (Hr & _). pose proof (rep_nodes _ _ _ Hr) as Hn. apply nodes_ok_lookup in Hn. rewrite Hn.
  unfold prev_of. by destruct (last A).
Qed.

Lemma unlink_loop_ok h z A it B us n : ∀ i h',
  path_ok h z A (it :: B) us → (i + n = zlevel z)%nat → patched us (target us A B) i h h' →
  ∃ h2, unlink_loop n h' i (iloc it) us = Some h2 ∧ patched us (target us A B) (zlevel z) h h2.
Proof.
  induction n as [|n IH]; intros i h' Hp Hin Hpat; cbn [unlink_loop].
  { exists h'. by replace i with (zlevel z) in * by lia. }
  destruct (path_node h z A (it :: B) us i Hp ltac:(lia)) as (u & r & nd & Hu & Hnd & Hr & Hlow & Hlvl & _).
  rewrite Hu. bsimpl. rewrite (patched_get _ _ _ _ _ _ _ _ Hpat Hu Hnd), Hlvl. bsimpl.
  rewrite level_of_low by done. cbn [forward span fwd span_of]. rewrite length_drop.
  pose proof (rep_small _ _ _ (proj1 Hp)) as Hsm. rewrite length_app in Hsm. cbn [length] in Hsm.
  pose proof (span_of_le i B) as Hsp.
  assert (h' !! iloc it = Some (node_of (prev_of A) it B)) as Hx.
  { eapply patched_other; [done| |done| |by eapply path_lookup]; [lia|].
    intros Hin2. apply (path_tail h z A it B us (iloc it) Hp); [by left|done]. }
  assert (∀ lv, lv = target us A B i → ∃ h2, set_level h' u i lv = Some h2 ∧ patched us (target us A B) (S i) h h2) as Hset.
  { intros lv ->. destruct (patched_set us (target us A B) i h h' u r nd _ Hpat Hu Hnd (lookup_lt_Some _ _ _ Hlvl) eq_refl)
      as (h2 & E & ? & _). by exists h2. }
  assert (target us A B i = mkLevel (fwd i B) (len A - r + span_of i B)) as Ht.
  { unfold target. rewrite Hu, level_of_low by done. rewrite length_drop. f_equal. lia. }
  replace (i + 1)%nat with (S i) by lia. destruct (decide (i < iheight it)%nat) as [Hh|Hh].
  - rewrite !bool_decide_eq_true_2 by (rewrite ?bool_decide_eq_true_2; done). unfold get_level. rewrite Hx. cbn [mbind option_bind node_of level].
    rewrite level_lookup by done. cbn [mbind option_bind level_of forward span].
    edestruct Hset as (h2 & -> & Hp2); [|bsimpl; apply IH; [done|lia|done]].
    rewrite Ht. f_equal. rewrite uwrap_small by lia. lia.
  - rewrite (bool_decide_eq_false_2 _ Hh), bool_decide_eq_false_2.
    + edestruct Hset as (h2 & -> & Hp2); [|bsimpl; apply IH; [done|lia|done]].
      rewrite Ht. f_equal. rewrite uwrap_small by lia. lia.
    + intros E. apply fwd_in in E. apply (path_tail h z A it B us (iloc it) Hp); [by right|done].
Qed.

(** The levels above every remaining node are given up. *)
Lemma lower_loop_ok h hd its : ∀ zl n,
  header_ok h hd zl its n → (1 ≤ zl ≤ ZSKIPLIST_MAXLEVEL)%nat → Forall (λ it, (1 ≤ iheight it ≤ zl)%nat) its →
  ∃ zl', lower_loop h hd zl = Some zl' ∧ header_ok h hd zl' its n ∧ (1 ≤ zl' ≤ zl)%nat ∧
    Forall (λ it, (1 ≤ iheight it ≤ zl')%nat) its.
Proof.
  induction zl as [|zl IH]; intros n Hok Hzl Hh; [lia|]. cbn [lower_loop]. destruct zl as [|k]; [by exists 1%nat|].
  unfold get_level. rewrite (hd_node _ _ _ _ _ Hok). bsimpl.
  rewrite (hd_used _ _ _ _ _ Hok) by lia. cbn [mbind option_bind level_of forward].
  destruct (fwd (S k) its) as [f|] eqn:Ef.
  { exists (S (S k)). split; [done|]. split; [done|]. split; [lia|done]. }
  assert (low (S k) its) as Hlow.
  { destruct (low_split (S k) its) as [?|(A1 & it & A2 & -> & Hl & Hi)]; [done|].
    rewrite fwd_low in Ef by done. cbn [fwd] in Ef. by rewrite bool_decide_eq_true_2 in Ef. }
  assert (header_ok h hd (S k) its n) as Hok'.
  { destruct Hok as [? ? ? ? Hused Hfree]. split; try done.
    - intros j Hj. apply Hused. lia.
    - intros j Hj. destruct (decide (j = S k)) as [-> |]; [|apply Hfree; lia].
      exists (span_of (S k) its). rewrite Hused by lia. unfold level_of. by rewrite Ef. }
  destruct (IH n Hok' ltac:(lia)) as (zl' & E & ? & ? & ?).
  { apply Forall_forall. intros it Hin. unfold low in Hlow. rewrite Forall_forall in Hlow, Hh.
    specialize (Hlow it Hin). specialize (Hh it Hin). lia. }
  exists zl'. split; [done|]. split; [done|]. split; [lia|done].
Qed.

(** The back pointer of the next node, or the tail. *)
Lemma unlink_backs_ok h h2 z A it B us :
  path_ok h z A (it :: B) us → patched us (target us A B) (zlevel z) h h2 →
  ∃ h3, match fwd 0 B with
        | Some f => h ← set_backward h2 f (prev_of A); Some (h, ztail z)
        | None => Some (h2, prev_of A)
        end = Some (h3, prev_of (A ++ B)) ∧ nodes_ok h3 None (A ++ B) ∧
    (∃ n, header_ok h3 (header z) (zlevel z) (A ++ B) n) ∧
    (∀ x n, x ∉ header z :: (iloc <$> A ++ it :: B) → h !! x = Some n → h3 !! x = Some n).
Proof.
  intros Hpath Hpat. pose proof (proj1 Hpath) as Hr.
  pose proof (rep_nodup _ _ _ Hr) as Hnd. rewrite fmap_app, fmap_cons, app_comm_cons in Hnd.
  apply NoDup_app in Hnd as (HndA & HndAB & HndB). apply NoDup_cons in HndB as [HniB HndB].
  assert (∀ A1 it' A2, A = A1 ++ it' :: A2 → h2 !! iloc it' = Some (node_of (prev_of A1) it' (A2 ++ B))) as HA
    by (intros; by eapply patched_item).
  pose proof (patched_header _ _ _ _ _ _ _ Hpath Hpat) as [hn Hhd].
  assert (nodes_ok h2 (Some (iloc it)) B) as HB.
  { pose proof (rep_nodes _ _ _ Hr) as Hn. apply nodes_ok_app in Hn as [_ Hn].
    eapply nodes_ok_frame; [exact Hn|]. intros it' n Hin E. pose proof (list_elem_of_fmap_2 iloc _ _ Hin).
    eapply patched_other; [done|done|done| |done]. set_solver. }
  assert (∀ x n, x ∉ header z :: (iloc <$> A ++ it :: B) → h !! x = Some n → h2 !! x = Some n) as Hfr.
  { intros x n Hx E. eapply patched_other; [done|done|done| |done]. rewrite fmap_app in Hx. set_solver. }
  destruct B as [|b B].
  - exists h2. cbn [fwd]. rewrite app_nil_r in *. split; [done|].
    split; [|by split; [exists hn|]]. rewrite <- (app_nil_r A). by apply nodes_ok_join.
  - pose proof (rep_heights _ _ _ Hr) as Hh. rewrite Forall_app, !Forall_cons in Hh.
    cbn [fwd]. rewrite bool_decide_eq_true_2 by lia.
    destruct (set_backward_ok h2 (Some (iloc it)) b B (prev_of A) HB) as (h3 & -> & HB3 & Ho & _); [done|].
    exists h3. bsimpl. rewrite fmap_cons in *.
    split; [rewrite (rep_tail _ _ _ Hr); unfold prev_of; by rewrite !last_app, last_cons_cons|].
    split; [|split].
    + apply nodes_ok_join; [|done]. intros A1 it' A2 E. rewrite Ho; [by apply HA|].
      intros E2. apply (HndAB (iloc it')); [rewrite E, fmap_app, fmap_cons; set_solver|rewrite E2; set_solver].
    + exists hn. destruct Hhd. split; try done. rewrite Ho; [done|]. intros E2. apply (HndAB (header z)); set_solver.
    + intros x n Hx E. rewrite fmap_app in Hx. rewrite Ho by set_solver. apply Hfr; [rewrite fmap_app; set_solver|done].
Qed.

Lemma zslDeleteNode_ok h z A it B us :
  path_ok h z A (it :: B) us →
  ∃ h' z', zslDeleteNode h z (iloc it) us = Some (h', z') ∧
    path_ok (zslFreeNode h' (iloc it)) z' A B us ∧ header z' = header z ∧
    (∀ x n, x ∉ header z :: (iloc <$> A ++ it :: B) → h !! x = Some n → zslFreeNode h' (iloc it) !! x = Some n).
Proof.
  intros Hpath. unfold zslDeleteNode. pose proof (proj1 Hpath) as Hr.
  destruct (unlink_loop_ok h z A it B us (zlevel z) 0 h Hpath eq_refl (patched_0 _ _ _ _ (reflexivity _))) as (h2 & -> & Hp2).
  bsimpl.
  assert (h2 !! iloc it = Some (node_of (prev_of A) it B)) as Hx.
  { eapply patched_other; [done|done|done| |by eapply path_lookup].
    intros Hin2. apply (path_tail h z A it B us (iloc it) Hpath); [by left|done]. }
  pose proof (rep_heights _ _ _ Hr) as Hh. rewrite Forall_app, Forall_cons in Hh. destruct Hh as (HhA & Hit & HhB).
  unfold get_level. rewrite Hx. cbn [mbind option_bind node_of level]. rewrite level_lookup by lia.
  cbn [mbind option_bind level_of forward]. change (backward (node_of (prev_of A) it B)) with (prev_of A).
  destruct (unlink_backs_ok h h2 z A it B us Hpath Hp2) as (h3 & -> & Hnodes & [hn Hhd] & Hfr). bsimpl.
  destruct (lower_loop_ok h3 (header z) (A ++ B) (zlevel z) hn Hhd (rep_level _ _ _ Hr)) as (zl & -> & Hhd' & Hzl & Hh').
  { by apply Forall_app. }
  bsimpl. eexists _, _. split; [done|]. unfold zslFreeNode.
  assert (∀ x, x ∈ header z :: (iloc <$> A ++ B) → delete (iloc it) h3 !! x = h3 !! x) as Hdel.
  { intros x Hin. apply lookup_delete_ne. intros E. eapply (path_tail h z A it B us x Hpath); [|done].
    rewrite fmap_app in Hin. set_solver. }
  split; [|split; [done|]].
  - pose proof (rep_nodup _ _ _ Hr) as Hnd. pose proof (rep_small _ _ _ Hr) as Hsm. pose proof (rep_length _ _ _ Hr) as Hlen.
    pose proof (rep_level _ _ _ Hr) as Hlev. rewrite length_app in Hsm, Hlen. cbn [length] in Hsm, Hlen.
    split; [|split; cbn [zlevel header]].
    + split; cbn [header zlevel ztail length_]; try done.
      * exists hn. destruct Hhd'. split; try done. rewrite Hdel; [done|by left].
      * eapply nodes_ok_frame; [exact Hnodes|]. intros it' n Hin E. rewrite Hdel; [done|]. right. by apply list_elem_of_fmap_2.
      * rewrite !fmap_app, fmap_cons in *. apply NoDup_cons in Hnd as [Hni Hnd]. apply NoDup_app in Hnd as (? & Hx1 & Hx2).
        apply NoDup_cons in Hx2 as [? ?]. apply NoDup_cons. split; [set_solver|]. apply NoDup_app.
        split; [done|]. split; [|done]. intros x Hin1 Hin2. apply (Hx1 x Hin1). by right.
      * lia.
      * rewrite Hlen, length_app, uwrap_small; lia.
      * rewrite length_app. lia.
      * pose proof (rep_sorted _ _ _ Hr) as Hs. apply sorted_app in Hs as (? & Hs2 & Hs3). apply sorted_app. inversion Hs2; subst.
        split; [done|]. split; [done|]. intros. apply Hs3; [done|by right].
    + pose proof (proj1 (proj2 Hpath)). lia.
    + intros k ur Hk Hu. destruct (proj2 (proj2 Hpath) k ur ltac:(lia) Hu) as (pre & R & ? & ? & ? & Ho).
      exists pre, R. split; [done|]. split; [done|]. split; [done|]. unfold owner_height in *. by destruct (last pre).
  - intros x n Hx2 E. rewrite lookup_delete_ne; [by apply Hfr|]. rewrite fmap_app in Hx2. set_solver.
Qed.
End delete.

(** ** Deleting an element, and ranges *)

Section delete_ops.
Context {D : Type} `{Score D}.
Implicit Types (h : heap D) (z : zskiplist) (its A B X : list (item D)).

Lemma search_path h z A B pred P :
  zsl_rep h z (A ++ B) → decides pred P → divides P A B →
  ∃ us, search h z pred = Some us ∧ path_ok h z A B us ∧
    us !! 0%nat = Some (owner (header z) A, len A) ∧ get_level h (owner (header z) A) 0 = Some (level_of B 0).
Proof.
  intros Hr Hdec Hdiv. destruct (search_ok h z A B pred P Hr Hdec Hdiv) as (us & E & Hl & Hus). exists us.
  split; [done|]. pose proof (rep_level _ _ _ Hr). split; [split; [done|]; split; [lia|eauto]|].
  destruct (lookup_lt_is_Some_2 us 0) as [ur Hu]; [lia|].
  destruct (Hus _ _ Hu) as (pre & R & HA & Hur & Hlow & Hh).
  pose proof (upd_at_0 _ _ _ _ _ Hr (Hus _ _ Hu)) as ->. split; [done|].
  eapply get_level_owner; [done|done|]. enough (pre = A) as -> by done.
  destruct R as [|it R]; [by rewrite app_nil_r in HA|]. apply Forall_cons in Hlow as [Hlow _].
  pose proof (rep_heights _ _ _ Hr) as Hhs. rewrite HA, !Forall_app, Forall_cons in Hhs. lia.
Qed.

Lemma fwd_0 h z A B : zsl_rep h z (A ++ B) → fwd 0 B = iloc <$> head B.
Proof.
  intros Hr. destruct B as [|b B]; [done|]. pose proof (rep_heights _ _ _ Hr) as Hh.
  rewrite Forall_app, Forall_cons in Hh. cbn. by rewrite bool_decide_eq_true_2 by lia.
Qed.

(** Deleting what is at the front of the rest, as long as [Q] holds. *)
Lemma delete_loop_ok fuel cont Q A B us X : ∀ h z rank removed,
  path_ok h z A (X ++ B) us → decides cont Q →
  (∀ X1 it X2, X = X1 ++ it :: X2 → Q it (rank + len X1) = true) →
  (∀ it B', B = it :: B' → Q it (rank + len X) = false) → (length X ≤ fuel)%nat →
  ∃ h' z', delete_loop fuel h z (iloc <$> head (X ++ B)) rank cont us removed = Some (h', z', removed ++ (iobj <$> X)) ∧
    path_ok h' z' A B us ∧ header z' = header z.
Proof.
  revert X. induction fuel as [|fuel IH]; intros X h z rank removed Hp Hdec HX HB Hf.
  all: destruct X as [|it X]; cbn [app head fmap option_fmap option_map length list_fmap] in *; try lia.
  1, 2: rewrite app_nil_r; exists h, z; split; [|done]; destruct B as [|b B]; [done|]; cbn [delete_loop head fmap option_fmap option_map];
    rewrite (path_lookup _ _ _ _ _ _ Hp); bsimpl;
    rewrite Hdec, <- (Z.add_0_r rank); change 0 with (Z.of_nat 0); by rewrite (HB b B eq_refl).
  cbn [delete_loop fmap option_fmap option_map]. pose proof (path_lookup _ _ _ _ _ _ Hp) as Hn. rewrite Hn. bsimpl.
  rewrite Hdec. rewrite (eq_trans (f_equal (Q it) (eq_sym (Z.add_0_r rank))) (HX [] it X eq_refl)). unfold get_level. rewrite Hn. bsimpl.
  cbn [node_of level obj]. pose proof (rep_heights _ _ _ (proj1 Hp)) as Hh. rewrite Forall_app, Forall_cons in Hh.
  rewrite level_lookup by lia. cbn [mbind option_bind level_of forward].
  destruct (zslDeleteNode_ok h z A it (X ++ B) us Hp) as (h1 & z1 & -> & Hp1 & Hhd & _). bsimpl.
  rewrite (fwd_0 _ _ _ _ (proj1 Hp1)). destruct (IH X (zslFreeNode h1 (iloc it)) z1 (rank + 1) (removed ++ [iobj it])) as (h2 & z2 & E & Hp2 & Hhd2);
    [done|done| | |lia|].
  - intros X1 it' X2 ->. replace (rank + 1 + len X1) with (rank + len (it :: X1)) by (cbn [length]; lia). by apply (HX (it :: X1) it' X2).
  - intros b B' ->. replace (rank + 1 + len X) with (rank + Z.of_nat (S (length X))) by lia. by apply (HB b B').
  - exists h2, z2. rewrite E, <- app_assoc. split; [done|]. split; [done|congruence].
Qed.

Lemma delete_range_ok h z A X B skip P cont Q :
  zsl_rep h z (A ++ X ++ B) → decides skip P → divides P A (X ++ B) → decides cont Q →
  (∀ X1 it X2, X = X1 ++ it :: X2 → Q it (len A + 1 + len X1) = true) →
  (∀ it B', B = it :: B' → Q it (len A + 1 + len X) = false) →
  ∃ h' z', delete_range h z skip cont = Some (h', z', iobj <$> X) ∧ zsl_rep h' z' (A ++ B) ∧ header z' = header z.
Proof.
  intros Hr Hdec Hdiv Hdec2 HX HB. unfold delete_range.
  destruct (search_path h z A (X ++ B) skip P Hr Hdec Hdiv) as (us & -> & Hpath & Hu & Hg). bsimpl.
  rewrite Hu. bsimpl. rewrite Hg. cbn [mbind option_bind level_of forward].
  rewrite (fwd_0 _ _ _ _ Hr). pose proof (zsl_rep_size _ _ _ Hr) as Hsz. rewrite !length_app in Hsz.
  destruct (delete_loop_ok (size h) cont Q A B us X h z (len A + 1) []) as (h' & z' & E & Hp & Hhd); [done|done|done|done|lia|].
  exists h', z'. rewrite E. split; [done|]. by split; [apply Hp|].
Qed.
End delete_ops.
