(* ===== verification/SkiplistThms.v ===== *)
(** * What the skip list promises: the theorems

    Ranks and range queries, and the refinement theorems for insertion and
    deletion, with examples on lists whose scores are integers. *)

From S2P Require Import Prelude Sds Skiplist SkiplistSpec SkiplistOps.
From stdpp Require Import gmap.
Local Open Scope Z_scope.

Abbreviation at_key s o := (mkItem 1%positive 0 s o).

(** ** Ranks *)

Section rank.
Context {D : Type} `{Score D}.
Implicit Types (h : heap D) (z : zskiplist) (its A B : list (item D)).

Definition item_before_eq (s : D) (o : robj) (it : item D) : bool :=
  slt (iscore it) s || (seqs (iscore it) s && (compareStringObjects (iobj it) o <=? 0)).

Lemma item_before_eq_iff s o it :
  item_before_eq s o it = true ↔ item_lt it (at_key s o) ∨ same_key it (at_key s o).
Proof.
  unfold item_before_eq, item_lt, same_key. cbn [iscore iobj].
  rewrite orb_true_iff, andb_true_iff, Z.leb_le. destruct (compareStringObjects_spec (iobj it) o) as [H0 H1].
  rewrite <- H0, <- H1. destruct (slt (iscore it) s), (seqs (iscore it) s); intuition (try discriminate; lia).
Qed.

Lemma same_key_lt_r a b c : same_key a b → item_lt c a → item_lt c b.
Proof.
  intros [Hs Ho] [Hl|[Hl Hx]]; [left|right].
  - by rewrite <- (slt_seqs_r _ _ _ Hs).
  - rewrite <- Ho. split; [|done]. apply seqs_true. rewrite <- (slt_seqs_r _ _ _ Hs), <- (slt_seqs_l _ _ _ Hs). by apply seqs_true.
Qed.

Lemma item_before_eq_mono s o a b : item_lt a b → item_before_eq s o b = true → item_before_eq s o a = true.
Proof.
  intros Hab [Hb|Hb]%item_before_eq_iff; apply item_before_eq_iff; left; [by eapply item_lt_trans|by eapply same_key_lt_r].
Qed.

Lemma owner_obj h z pre R :
  zsl_rep h z (pre ++ R) → ∃ n, h !! owner (header z) pre = Some n ∧ obj n = iobj <$> last pre.
Proof.
  intros Hr. destruct pre as [|it pre _] using rev_ind.
  - destruct (rep_header _ _ _ Hr) as [n Hn]. exists n. split; [by apply (hd_node _ _ _ _ _ Hn)|by apply (hd_obj _ _ _ _ _ Hn)].
  - rewrite owner_snoc, last_snoc. pose proof (rep_nodes _ _ _ Hr) as Hn. rewrite <- app_assoc in Hn.
    apply nodes_ok_lookup in Hn. by eexists.
Qed.

(** One round of the loop. *)
Lemma rank_round h z A B s o i pre R :
  zsl_rep h z (A ++ B) → divides (λ it _, item_before_eq s o it) A B →
  A = pre ++ R → (i < owner_height (zlevel z) pre)%nat →
  ∃ pre' R', A = pre' ++ R' ∧ low i R' ∧ (i < owner_height (zlevel z) pre')%nat ∧
    rank_loop (S i) h s o (owner (header z) pre) (len pre) =
    if match iobj <$> last pre' with Some no => equalStringObjects no o | None => false end then Some (len pre')
    else rank_loop i h s o (owner (header z) pre') (len pre').
Proof.
  intros Hr Hdiv HA Hi. pose proof (zsl_rep_size _ _ _ Hr) as Hsz. rewrite HA, !length_app in Hsz.
  assert (decides (before_eq s o) (λ it _, item_before_eq s o it)) as Hdec by done.
  destruct (walk_ok h z A B (before_eq s o) _ i (size h) pre R Hr Hdec Hdiv) as (pre' & R' & E & HA' & Hl' & Hh');
    [done|done|lia|].
  exists pre', R'. split; [done|]. split; [done|]. split; [done|]. cbn [rank_loop]. rewrite E. bsimpl.
  destruct (owner_obj h z pre' (R' ++ B)) as (n & -> & Hn); [by rewrite app_assoc, <- HA'|]. bsimpl. by rewrite Hn.
Qed.

Lemma rank_loop_found h z A it B s o i : ∀ pre R,
  zsl_rep h z ((A ++ [it]) ++ B) → divides (λ it _, item_before_eq s o it) (A ++ [it]) B →
  NoDup (iobj <$> A ++ [it]) → iobj it = o → A ++ [it] = pre ++ R → (i < owner_height (zlevel z) pre)%nat →
  rank_loop (S i) h s o (owner (header z) pre) (len pre) = Some (len A + 1).
Proof.
  induction i as [|i IH]; intros pre R Hr Hdiv Hnd Ho HA Hi;
    destruct (rank_round h z _ B s o _ pre R Hr Hdiv HA Hi) as (pre' & R' & HA' & Hl' & Hh' & ->);
    (destruct R' as [|it' R' _] using rev_ind;
     [rewrite app_nil_r in HA'; subst pre'; rewrite last_snoc; cbn [fmap option_fmap option_map];
      rewrite (proj2 (equalStringObjects_spec _ _)) by done; rewrite length_app; cbn [length]; f_equal; lia|]);
    rewrite app_assoc in HA'; apply app_inj_tail in HA' as [-> <-].
  - apply Forall_app in Hl' as [_ Hl']. apply Forall_cons in Hl' as [Hl' _].
    pose proof (rep_heights _ _ _ Hr) as Hh. rewrite !Forall_app, Forall_cons in Hh. lia.
  - replace (match iobj <$> last pre' with Some no => equalStringObjects no o | None => false end) with false; [|symmetry].
    + apply IH with (R' ++ [it]); [done|done|done|done|by rewrite app_assoc|lia].
    + destruct pre' as [|x pre' _] using rev_ind; [done|]. rewrite last_snoc. cbn [fmap option_fmap option_map].
      destruct (equalStringObjects (iobj x) o) eqn:E; [|done]. apply equalStringObjects_spec in E.
      rewrite <- !app_assoc, !fmap_app, fmap_cons in Hnd. apply NoDup_app in Hnd as (_ & _ & Hnd).
      cbn [app] in Hnd. apply NoDup_cons in Hnd as [Hnd _]. exfalso. apply Hnd. rewrite E, <- Ho. set_solver.
Qed.

Lemma rank_loop_absent h z A B s o i : ∀ pre R,
  zsl_rep h z (A ++ B) → divides (λ it _, item_before_eq s o it) A B →
  o ∉ iobj <$> A → A = pre ++ R → (i ≤ owner_height (zlevel z) pre)%nat →
  rank_loop i h s o (owner (header z) pre) (len pre) = Some 0.
Proof.
  induction i as [|i IH]; intros pre R Hr Hdiv Hno HA Hi; [done|].
  destruct (rank_round h z A B s o i pre R Hr Hdiv HA ltac:(lia)) as (pre' & R' & HA' & Hl' & Hh' & ->).
  replace (match iobj <$> last pre' with Some no => equalStringObjects no o | None => false end) with false; [|symmetry].
  - apply IH with R'; (done || lia).
  - destruct pre' as [|x pre' _] using rev_ind; [done|]. rewrite last_snoc. cbn [fmap option_fmap option_map].
    destruct (equalStringObjects (iobj x) o) eqn:E; [|done]. apply equalStringObjects_spec in E.
    exfalso. apply Hno. rewrite HA', <- E, !fmap_app. cbn. set_solver.
Qed.

Lemma element_loop_ok h z A B i : ∀ pre R,
  zsl_rep h z (A ++ B) → A ≠ [] → A = pre ++ R → (i < owner_height (zlevel z) pre)%nat →
  element_loop (S i) h (len A) (owner (header z) pre) (len pre) = Some (Some (owner (header z) A)).
Proof.
  intros pre R Hr Hne. revert pre R.
  assert (decides (λ (_ : zskiplistNode D) r, r <=? len A) (λ _ r, r <=? len A)) as Hdec by done.
  assert (divides (λ (_ : item D) r, r <=? len A) A B) as Hdiv.
  { split; intros X it Y E; [apply Z.leb_le|apply Z.leb_gt; lia]. rewrite E, length_app. cbn [length]. lia. }
  induction i as [|i IH]; intros pre R HA Hi; pose proof (zsl_rep_size _ _ _ Hr) as Hsz; rewrite HA, !length_app in Hsz;
    (destruct (walk_ok h z A B _ _ _ (size h) pre R Hr Hdec Hdiv HA Hi) as (pre' & R' & E & HA' & Hl' & Hh'); [lia|]);
    cbn [element_loop]; rewrite E; bsimpl;
    (destruct (Z.eqb_spec (len pre') (len A)) as [El|El];
      [rewrite HA', length_app in El; destruct R'; [by rewrite HA', app_nil_r|cbn [length] in El; lia]|]).
  - destruct R' as [|it R']; [rewrite HA', app_nil_r in El; lia|]. apply Forall_cons in Hl' as [Hl' _].
    pose proof (rep_heights _ _ _ Hr) as Hh. rewrite HA', !Forall_app, Forall_cons in Hh. lia.
  - apply (IH pre' R'); [done|lia].
Qed.

Lemma element_loop_beyond h z its rank i : ∀ pre R,
  zsl_rep h z its → len its < rank → its = pre ++ R → (i ≤ owner_height (zlevel z) pre)%nat →
  element_loop i h rank (owner (header z) pre) (len pre) = Some None.
Proof.
  intros pre R Hr Hrank. revert pre R. rewrite <- (app_nil_r its) in Hr.
  assert (decides (λ (_ : zskiplistNode D) r, r <=? rank) (λ _ r, r <=? rank)) as Hdec by done.
  assert (divides (λ (_ : item D) r, r <=? rank) its []) as Hdiv.
  { split; intros X it Y E; [apply Z.leb_le|by destruct X]. rewrite E, length_app in Hrank. cbn [length] in Hrank. lia. }
  induction i as [|i IH]; intros pre R HA Hi; [done|]. pose proof (zsl_rep_size _ _ _ Hr) as Hsz. rewrite app_nil_r, HA, !length_app in Hsz.
  destruct (walk_ok h z its [] _ _ i (size h) pre R Hr Hdec Hdiv HA ltac:(lia)) as (pre' & R' & E & HA' & Hl' & Hh'); [lia|].
  cbn [element_loop]. rewrite E. bsimpl. rewrite HA', length_app in Hrank.
  rewrite (proj2 (Z.eqb_neq _ _)) by lia. apply (IH pre' R'); [done|lia].
Qed.
End rank.

(** ** Range queries *)

Section ranges.
Context {D : Type} `{Score D}.
Implicit Types (h : heap D) (z : zskiplist) (its A B : list (item D)).

(** The bounds of a range, as the code tests them on a node and as they are of
    an item: above the minimum is upward closed in the list, below the maximum
    downward closed. *)
Record range_test its (gte lte : zskiplistNode D → bool) (G L : item D → bool) : Prop := {
  rt_gte : ∀ it prev R, gte (node_of prev it R) = G it;
  rt_lte : ∀ it prev R, lte (node_of prev it R) = L it;
  rt_up : ∀ A a M b B, its = A ++ a :: M ++ b :: B → G a = true → G b = true;
  rt_down : ∀ A a M b B, its = A ++ a :: M ++ b :: B → L b = true → L a = true
}.

Abbreviation inside G L := (λ it, G it && L it = true).

Lemma filter_none (G L : item D → bool) its :
  (∀ A a B, its = A ++ a :: B → G a && L a = false) → filter (inside G L) its = [].
Proof.
  intros Hn. induction its as [|a its IH]; [done|]. rewrite filter_cons_False.
  - apply IH. intros A b B ->. by apply (Hn (a :: A) b B).
  - rewrite (Hn [] a its eq_refl). done.
Qed.

Lemma upward_split its (G : item D → bool) :
  (∀ A a M b B, its = A ++ a :: M ++ b :: B → G a = true → G b = true) →
  ∃ A B, its = A ++ B ∧ Forall (λ it, G it = false) A ∧ Forall (λ it, G it = true) B.
Proof.
  induction its as [|a its IH]; intros Hup; [by exists [], []|]. destruct (G a) eqn:E.
  - exists [], (a :: its). split; [done|]. split; [constructor|]. constructor; [done|].
    apply Forall_forall. intros b (M & B & ->)%list_elem_of_split. by apply (Hup [] a M b B).
  - destruct IH as (A & B & -> & HA & HB); [|exists (a :: A), B; by repeat constructor].
    intros A x M y B E2. apply (Hup (a :: A) x M y B). by rewrite E2.
Qed.

Lemma ends_in_range_ok h z its gte lte G L :
  zsl_rep h z its → range_test its gte lte G L →
  ∃ b, ends_in_range h z gte lte = Some b ∧
    (b = true → ∃ f l, head its = Some f ∧ L f = true ∧ last its = Some l ∧ G l = true) ∧
    (b = false → filter (inside G L) its = []).
Proof.
  intros Hr [HG HL Hup Hdown]. unfold ends_in_range. rewrite (rep_tail _ _ _ Hr).
  destruct its as [|l its' _] using rev_ind; [by exists false|].
  rewrite last_snoc. cbn [fmap option_fmap option_map]. pose proof (rep_nodes _ _ _ Hr) as Hn.
  rewrite (nodes_ok_lookup _ _ _ _ _ Hn). bsimpl. rewrite HG. destruct (G l) eqn:El; cbn [negb].
  - pose proof (get_level_owner h z _ [] (its' ++ [l]) 0 Hr eq_refl) as Hg. unfold owner, owner_height in Hg. cbn [last] in Hg.
    rewrite Hg by apply (rep_level _ _ _ Hr). cbn [mbind option_bind level_of forward]. rewrite (fwd_0 h z [] _ Hr).
    destruct (its' ++ [l]) as [|f rest] eqn:Ef; [by destruct its'|]. cbn [head fmap option_fmap option_map].
    destruct Hn as [-> _]. bsimpl. rewrite HL. exists (L f). split; [done|]. split; [by exists f, l|].
    intros Hf. apply filter_none. intros A a B E. destruct A as [|a' A]; cbn [app] in E; injection E as -> ->.
    + by rewrite Hf, andb_false_r.
    + destruct (L a) eqn:Ea; [|by rewrite andb_false_r]. by rewrite (Hdown [] a' A a B eq_refl Ea) in Hf.
  - exists false. split; [done|]. split; [done|]. intros _. apply filter_none. intros A a B E.
    destruct B as [|b B _] using rev_ind; [apply app_inj_tail in E as [-> ->]; by rewrite El|].
    rewrite app_comm_cons, app_assoc in E. pose proof E as E2. apply app_inj_tail in E2 as [_ <-].
    rewrite <- app_assoc in E. destruct (G a) eqn:Ea; [|done]. by rewrite (Hup A a B l [] E Ea) in El.
Qed.

Lemma first_from_ok h z its gte lte G L :
  zsl_rep h z its → range_test its gte lte G L → (∃ l, last its = Some l ∧ G l = true) →
  first_from h z gte lte = Some (iloc <$> head (filter (inside G L) its)).
Proof.
  intros Hr [HG HL Hup Hdown] (l & Hl & HGl). destruct (upward_split its G Hup) as (A & B & -> & HA & HB).
  unfold first_from. destruct (search_path h z A B (λ n _, negb (gte n)) (λ it _, negb (G it)) Hr) as (us & -> & _ & Hu & Hg).
  { intros it prev R r. by rewrite HG. }
  { apply divides_of; (eapply Forall_impl; [done|]); intros it ->; done. }
  bsimpl. rewrite Hu. bsimpl. rewrite Hg. cbn [mbind option_bind level_of forward].
  rewrite (fwd_0 _ _ _ _ Hr). rewrite filter_app, filter_none.
  2: { intros X a Y ->. apply Forall_app in HA as [_ HA]. inversion HA as [|? ? Ha _]. by rewrite Ha. }
  destruct B as [|b B].
  { rewrite app_nil_r in Hl. apply last_Some in Hl as [A' ->]. apply Forall_app in HA as [_ HA]. inversion HA. congruence. }
  cbn [head fmap option_fmap option_map mbind option_bind app].
  rewrite (nodes_ok_lookup _ _ _ _ _ (rep_nodes _ _ _ Hr)). bsimpl. rewrite HL.
  apply Forall_cons in HB as [Hb HB]. destruct (L b) eqn:Eb.
  - rewrite filter_cons_True by (by rewrite Hb, Eb). done.
  - rewrite filter_none; [done|]. intros X a Y E. destruct X as [|a' X]; injection E as -> ->; [by rewrite Eb, andb_false_r|].
    destruct (L a) eqn:Ea; [|by rewrite andb_false_r]. by rewrite (Hdown A a' X a Y eq_refl Ea) in Eb.
Qed.

Lemma last_from_ok h z its gte lte G L :
  zsl_rep h z its → range_test its gte lte G L → (∃ f, head its = Some f ∧ L f = true) →
  last_from h z gte lte = Some (iloc <$> last (filter (inside G L) its)).
Proof.
  intros Hr [HG HL Hup Hdown] (f & Hf & HLf).
  destruct (upward_split its (λ it, negb (L it))) as (A & B & -> & HA & HB).
  { intros A a M b B E Ha. destruct (L b) eqn:Eb; [|done]. by rewrite (Hdown A a M b B E Eb) in Ha. }
  unfold last_from. destruct (search_path h z A B (λ n _, lte n) (λ it _, L it) Hr) as (us & -> & _ & Hu & Hg).
  { intros it prev R r. apply HL. }
  { apply divides_of; (eapply Forall_impl; [done|]); intros it; cbn; by destruct (L it). }
  bsimpl. rewrite Hu. bsimpl.
  destruct A as [|a A _] using rev_ind.
  { destruct B as [|b B]; [done|]. injection Hf as ->. inversion HB as [|? ? Hb _]. by rewrite HLf in Hb. }
  rewrite owner_snoc. pose proof (rep_nodes _ _ _ Hr) as Hn. rewrite <- app_assoc in Hn.
  rewrite (nodes_ok_lookup _ _ _ _ _ Hn). bsimpl. rewrite HG.
  rewrite filter_app, (filter_none _ _ B), app_nil_r.
  2: { intros X x Y ->. apply Forall_app in HB as [_ HB]. inversion HB as [|? ? Hx _]. destruct (L x); [done|apply andb_false_r]. }
  apply Forall_app in HA as [HA Ha]. inversion Ha as [|? ? HLa _]. subst. destruct (G a) eqn:Ea.
  - rewrite filter_app, filter_cons_True, filter_nil, last_snoc; [done|]. rewrite Ea. by destruct (L a).
  - rewrite filter_none; [done|]. intros X x Y E. destruct (G x) eqn:Ex; [|done]. exfalso.
    destruct Y as [|y Y _] using rev_ind; [apply app_inj_tail in E as [_ ->]; congruence|].
    rewrite app_comm_cons, app_assoc in E. apply app_inj_tail in E as [-> <-].
    rewrite (Hup X x Y a B) in Ea; [done| |done]. by rewrite <- !app_assoc.
Qed.
End ranges.

(** ** The bounds of [zrangespec] and [zlexrangespec] *)

Section bounds.
Context {D : Type} `{Score D}.
Implicit Types (h : heap D) (z : zskiplist) (its A B : list (item D)).

Lemma sorted_pair its A a M b B :
  StronglySorted item_lt its → its = A ++ a :: M ++ b :: B → item_lt a b.
Proof.
  intros Hs ->. apply sorted_app in Hs as (_ & Hs & _). inversion Hs as [|? ? _ Hall]. subst.
  rewrite Forall_forall in Hall. apply Hall. set_solver.
Qed.

Lemma item_lt_scores (a b : item D) : item_lt a b → slt (iscore b) (iscore a) = false.
Proof. intros [E|[E _]]; [by apply slt_asym|apply (proj2 (proj1 (seqs_true _ _) E))]. Qed.

Definition above (range : zrangespec D) (it : item D) : bool := zslValueGteMin (iscore it) range.
Definition below (range : zrangespec D) (it : item D) : bool := zslValueLteMax (iscore it) range.

Lemma above_up range (a b : item D) : item_lt a b → above range a = true → above range b = true.
Proof.
  intros Hab%item_lt_scores. unfold above, zslValueGteMin. destruct (minex range).
  - intros E. destruct (slt_weak _ (iscore b) _ E); [done|congruence].
  - rewrite !negb_true_iff. intros E. destruct (slt (iscore b) (rmin range)) eqn:E2; [|done].
    destruct (slt_weak _ (iscore a) _ E2); congruence.
Qed.

Lemma below_down range (a b : item D) : item_lt a b → below range b = true → below range a = true.
Proof.
  intros Hab%item_lt_scores. unfold below, zslValueLteMax. destruct (maxex range).
  - intros E. destruct (slt_weak _ (iscore a) _ E); [congruence|done].
  - rewrite !negb_true_iff. intros E. destruct (slt (rmax range) (iscore a)) eqn:E2; [|done].
    destruct (slt_weak _ (iscore b) _ E2); congruence.
Qed.

Lemma score_range_test its range :
  StronglySorted item_lt its →
  range_test its (λ n, zslValueGteMin (score n) range) (λ n, zslValueLteMax (score n) range) (above range) (below range).
Proof.
  intros Hs. split; [done|done|..]; intros A a M b B E;
    [apply above_up|apply below_down]; by eapply sorted_pair.
Qed.

(** A range that is empty by its bounds holds no item. *)
Lemma empty_range its range :
  slt (rmax range) (rmin range) || (seqs (rmin range) (rmax range) && (minex range || maxex range)) = true →
  filter (λ it, above range it && below range it = true) its = [].
Proof.
  intros He. apply filter_none. intros A a B _. destruct (above range a) eqn:Ea; [|done].
  destruct (below range a) eqn:Eb; [|done]. exfalso. unfold above, below, zslValueGteMin, zslValueLteMax in Ea, Eb.
  assert (slt (rmin range) (iscore a) = true ∨ slt (iscore a) (rmin range) = false ∧ minex range = false) as Ha
    by (destruct (minex range); [by left|right; by apply negb_true_iff in Ea]).
  assert (slt (iscore a) (rmax range) = true ∨ slt (rmax range) (iscore a) = false ∧ maxex range = false) as Hb
    by (destruct (maxex range); [by left|right; by apply negb_true_iff in Eb]).
  clear Ea Eb. apply orb_true_iff in He as [He|[Hs He]%andb_true_iff].
  - destruct (slt_weak _ (iscore a) _ He) as [Hx|Hx]; pose proof (slt_asym _ _ Hx); intuition congruence.
  - apply seqs_true in Hs as [Hs1 Hs2]. destruct Ha as [Ha|[Ha Ha']], Hb as [Hb|[Hb Hb']].
    + pose proof (slt_trans _ _ _ Ha Hb). congruence.
    + destruct (slt_weak _ (rmax range) _ Ha); congruence.
    + destruct (slt_weak _ (rmin range) _ Hb); congruence.
    + rewrite Ha', Hb' in He. done.
Qed.

Lemma zslIsInRange_ok h z its range :
  zsl_rep h z its →
  ∃ b, zslIsInRange h z range = Some b ∧
    (b = true → ∃ f l, head its = Some f ∧ below range f = true ∧ last its = Some l ∧ above range l = true) ∧
    (b = false → filter (λ it, above range it && below range it = true) its = []).
Proof.
  intros Hr. unfold zslIsInRange. destruct (_ || _) eqn:E.
  - exists false. split; [done|]. split; [done|]. intros _. by apply empty_range.
  - by apply ends_in_range_ok, score_range_test, (rep_sorted _ _ _ Hr).
Qed.

(** Lexicographic bounds. *)
Definition lex_above (range : zlexrangespec) (it : item D) : bool := zslLexValueGteMin (iobj it) range.
Definition lex_below (range : zlexrangespec) (it : item D) : bool := zslLexValueLteMax (iobj it) range.

Lemma compareStringObjects_gt a b : 0 < compareStringObjects a b ↔ lex_lt b a.
Proof.
  destruct (compareStringObjects_spec a b) as [H0 H1]. destruct (lex_lt_total a b) as [Hl|[-> |Hl]].
  - pose proof (lex_lt_asym a b Hl). pose proof (proj2 H1 Hl). split; [lia|done].
  - pose proof (lex_lt_irrefl b). rewrite (proj2 H0 eq_refl). split; [lia|done].
  - split; [done|]. intros _. pose proof (lex_lt_asym b a Hl). pose proof (lex_lt_irrefl a).
    destruct (Z.lt_total (compareStringObjects a b) 0) as [?|[?|?]]; [tauto| |done]. assert (a = b) as -> by tauto. done.
Qed.

Lemma lex_above_up range (a b : item D) :
  lex_lt (iobj a) (iobj b) → lex_above range a = true → lex_above range b = true.
Proof.
  unfold lex_above, zslLexValueGteMin. intros Hl. destruct (lmin range) as [| |s]; cbn [compareStringObjectsForLexRange]; [done|done|].
  pose proof (compareStringObjects_gt (iobj a) s). pose proof (compareStringObjects_gt (iobj b) s).
  pose proof (proj1 (compareStringObjects_spec (iobj a) s)) as Hz.
  assert (lex_lt s (iobj a) ∨ iobj a = s → lex_lt s (iobj b)) as Ht.
  { intros [?| <-]; [by eapply lex_lt_trans|done]. }
  destruct (lminex range); rewrite ?Z.gtb_ltb, ?Z.geb_leb, ?Z.ltb_lt, ?Z.leb_le; intros E.
  - tauto.
  - destruct (decide (compareStringObjects (iobj a) s = 0)); [|assert (0 < compareStringObjects (iobj a) s) by lia];
      assert (0 < compareStringObjects (iobj b) s) by tauto; lia.
Qed.

Lemma lex_below_down range (a b : item D) :
  lex_lt (iobj a) (iobj b) → lex_below range b = true → lex_below range a = true.
Proof.
  unfold lex_below, zslLexValueLteMax. intros Hl. destruct (lmax range) as [| |s]; cbn [compareStringObjectsForLexRange]; [done|done|].
  destruct (compareStringObjects_spec (iobj a) s) as [_ Ha]. destruct (compareStringObjects_spec (iobj b) s) as [Hb0 Hb].
  assert (lex_lt (iobj b) s ∨ iobj b = s → lex_lt (iobj a) s) as Ht.
  { intros [?| <-]; [by eapply lex_lt_trans|done]. }
  destruct (lmaxex range); rewrite ?Z.ltb_lt, ?Z.leb_le; intros E.
  - tauto.
  - destruct (decide (compareStringObjects (iobj b) s = 0)); [|assert (compareStringObjects (iobj b) s < 0) by lia];
      assert (compareStringObjects (iobj a) s < 0) by tauto; lia.
Qed.

(** All elements have the same score, as lexicographic ranges require. *)
Definition same_scores its : Prop := ∀ a b, a ∈ its → b ∈ its → seqs (iscore a) (iscore b) = true.

Lemma same_scores_lex its A a M b B :
  StronglySorted item_lt its → same_scores its → its = A ++ a :: M ++ b :: B → lex_lt (iobj a) (iobj b).
Proof.
  intros Hs Hsame E. destruct (sorted_pair its A a M b B Hs E) as [Hlt|[_ ?]]; [|done].
  assert (seqs (iscore a) (iscore b) = true) as Hq by (apply Hsame; rewrite E; set_solver).
  apply seqs_true in Hq as [Hq _]. congruence.
Qed.

Lemma lex_range_test its range :
  StronglySorted item_lt its → same_scores its →
  range_test its (lex_gte range) (lex_lte range) (lex_above range) (lex_below range).
Proof.
  intros Hs Hsame. split; [done|done|..]; intros A a M b B E;
    [apply lex_above_up|apply lex_below_down]; by eapply same_scores_lex.
Qed.

(** Deleting everything between two bounds. *)
Lemma delete_between_ok h z its skip gte lte G L :
  zsl_rep h z its → range_test its gte lte G L → decides skip (λ it _, negb (G it)) →
  ∃ h' z', delete_range h z skip (λ n _, lte n) = Some (h', z', iobj <$> filter (λ it, G it && L it = true) its) ∧
    zsl_rep h' z' (filter (λ it, ¬ G it && L it = true) its) ∧ header z' = header z.
Proof.
  intros Hr [HG HL Hup Hdown] Hdec. destruct (upward_split its G Hup) as (A & R & -> & HA & HR).
  destruct (upward_split R (λ it, negb (L it))) as (X & B & -> & HX & HB).
  { intros A' a M b B ->. specialize (Hdown (A ++ A') a M b B). rewrite <- app_assoc in Hdown. specialize (Hdown eq_refl).
    destruct (L b), (L a); intuition congruence. }
  assert (filter (λ it, G it && L it = true) A = []) as EA.
  { apply filter_none. intros Y a Z ->. apply Forall_app in HA as [_ HA]. inversion HA as [|? ? Ha _]. by rewrite Ha. }
  assert (filter (λ it, G it && L it = true) B = []) as EB.
  { apply filter_none. intros Y a Z ->. apply Forall_app in HB as [_ HB]. inversion HB as [|? ? Ha _].
    destruct (L a); [done|apply andb_false_r]. }
  apply Forall_app in HR as [HRX HRB].
  assert (∀ it, it ∈ X → G it && L it = true) as EX.
  { intros it Hin. rewrite Forall_forall in HX, HRX. rewrite HRX by done. specialize (HX it Hin). by destruct (L it). }
  assert (filter (λ it, ¬ G it && L it = true) A = A) as NA.
  { apply list_filter_all. intros it Hin. rewrite Forall_forall in HA. by rewrite HA. }
  assert (filter (λ it, ¬ G it && L it = true) B = B) as NB.
  { apply list_filter_all. intros it Hin. rewrite Forall_forall in HB. specialize (HB it Hin). destruct (L it); [done|by rewrite andb_false_r]. }
  rewrite !filter_app, EA, EB, NA, NB. rewrite (list_filter_all _ X), app_nil_r by done.
  rewrite (list_filter_none _ X) by (intros it Hin Hn; by apply Hn, EX). cbn [app].
  eapply (delete_range_ok h z A X B); [done|exact Hdec| |intros it prev R r; apply HL|..].
  - apply divides_of; [eapply Forall_impl; [exact HA|]|apply Forall_app; split; eapply Forall_impl; [exact HRX| |exact HRB|]];
      by intros it ->.
  - intros X1 it X2 ->. cbn. pose proof (EX it ltac:(set_solver)) as E. apply andb_true_iff in E. tauto.
  - intros it B' ->. inversion HB. cbn. by destruct (L it).
Qed.
(** A lexicographic range that is empty by its bounds holds no element,
    provided a bound spelled like the text of the shared [minstring] or
    [maxstring] object is not compared with that object. *)
Lemma empty_lex_range its range :
  (lexbound_obj (lmin range) = lexbound_obj (lmax range) → lmin range = lmax range) →
  (compareStringObjectsForLexRange (lmin range) (lmax range) >? 1) ||
  ((compareStringObjects (lexbound_obj (lmin range)) (lexbound_obj (lmax range)) =? 0) &&
   (lminex range || lmaxex range)) = true →
  filter (λ it : item D, lex_above range it && lex_below range it = true) its = [].
Proof.
  intros Hsane He. apply filter_none. intros A a B _. destruct (lex_above range a) eqn:Ea; [|done].
  destruct (lex_below range a) eqn:Eb; [|done]. exfalso. unfold lex_above, lex_below, zslLexValueGteMin, zslLexValueLteMax in Ea, Eb.
  destruct (compareStringObjects_spec (iobj a) (lexbound_obj (lmin range))) as [Ha0 _].
  destruct (compareStringObjects_spec (iobj a) (lexbound_obj (lmax range))) as [Hb0 Hb1].
  pose proof (compareStringObjects_gt (iobj a) (lexbound_obj (lmin range))) as Ha2.
  apply orb_true_iff in He as [He|[He Hx]%andb_true_iff].
  - rewrite Z.gtb_ltb, Z.ltb_lt in He. destruct (lmin range) as [| |m] eqn:Em, (lmax range) as [| |M] eqn:EM; try (cbn in He; lia).
    cbn [compareStringObjectsForLexRange lexbound_obj] in *. pose proof (compareStringObjects_gt m M) as HmM.
    assert (lex_lt M m) as HMm by (apply HmM; lia).
    assert (iobj a = m ∨ lex_lt m (iobj a)) as Hma.
    { destruct (lminex range); rewrite ?Z.gtb_ltb, ?Z.geb_leb, ?Z.ltb_lt, ?Z.leb_le in Ea; [right; apply Ha2; lia|].
      destruct (decide (compareStringObjects (iobj a) m = 0)); [left; by apply Ha0|right; apply Ha2; lia]. }
    assert (iobj a = M ∨ lex_lt (iobj a) M) as HaM.
    { destruct (lmaxex range); rewrite ?Z.ltb_lt, ?Z.leb_le in Eb; [right; by apply Hb1|].
      destruct (decide (compareStringObjects (iobj a) M = 0)); [left; by apply Hb0|right; apply Hb1; lia]. }
    assert (lex_lt M (iobj a)) as HMa by (destruct Hma as [-> |?]; [done|by eapply lex_lt_trans]).
    destruct HaM as [EaM|HaM]; [rewrite EaM in HMa; by apply lex_lt_irrefl in HMa|by apply (lex_lt_asym _ _ HaM)].
  - apply Z.eqb_eq, compareStringObjects_spec, Hsane in He. rewrite <- He in *.
    destruct (lmin range) as [| |m]; cbn [compareStringObjectsForLexRange lexbound_obj] in *.
    1: by destruct (lmaxex range). 1: by destruct (lminex range).
    destruct (lminex range), (lmaxex range); try done;
      rewrite ?Z.gtb_ltb, ?Z.geb_leb, ?Z.ltb_lt, ?Z.leb_le in *; lia.
Qed.

Lemma zslIsInLexRange_ok h z its range :
  zsl_rep h z its → same_scores its →
  (lexbound_obj (lmin range) = lexbound_obj (lmax range) → lmin range = lmax range) →
  ∃ b, zslIsInLexRange h z range = Some b ∧
    (b = true → ∃ f l, head its = Some f ∧ lex_below range f = true ∧ last its = Some l ∧ lex_above range l = true) ∧
    (b = false → filter (λ it, lex_above range it && lex_below range it = true) its = []).
Proof.
  intros Hr Hsame Hsane. unfold zslIsInLexRange. destruct (_ || _) eqn:E.
  - exists false. split; [done|]. split; [done|]. intros _. by apply empty_lex_range.
  - by apply ends_in_range_ok, lex_range_test; [|apply (rep_sorted _ _ _ Hr)|].
Qed.
End bounds.

(** ** Creation *)

Section creation.
Context {D : Type} `{Score D}.
Implicit Types (h : heap D).

Lemma create_loop_ok n : ∀ h x j o s b l,
  h !! x = Some (mkNode o s b l) → length l = (j + n)%nat → (∀ k, (k < j)%nat → l !! k = Some (mkLevel None 0)) →
  ∃ h' l', create_loop n h x j = Some h' ∧ h' !! x = Some (mkNode o s b l') ∧ length l' = (j + n)%nat ∧
    (∀ k, (k < j + n)%nat → l' !! k = Some (mkLevel None 0)) ∧ (∀ y, y ≠ x → h' !! y = h !! y).
Proof.
  induction n as [|n IH]; intros h x j o s b l Hx Hl Hj; cbn [create_loop].
  { exists h, l. split; [done|]. split; [done|]. split; [done|]. split; [intros; apply Hj; lia|done]. }
  unfold set_level. rewrite Hx. cbn [mbind option_bind level obj score backward]. rewrite bool_decide_eq_true_2 by lia.
  bsimpl.
  destruct (IH (<[x := mkNode o s b (<[j := mkLevel None 0]> l)]> h) x (j + 1)%nat o s b (<[j := mkLevel None 0]> l))
    as (h' & l' & -> & Hx' & Hl' & Hk & Ho).
  - apply lookup_insert_eq.
  - rewrite length_insert. lia.
  - intros k Hk. destruct (decide (k = j)) as [-> |]; [rewrite list_lookup_insert_eq by lia; done|].
    rewrite list_lookup_insert_ne by done. apply Hj. lia.
  - exists h', l'. split; [done|]. split; [done|]. split; [lia|]. split; [intros; apply Hk; lia|].
    intros y Hy. rewrite Ho by done. by rewrite lookup_insert_ne.
Qed.

(** A new list is empty. *)
Lemma zslCreate_ok h new junk bjunk :
  ∃ h' z, zslCreate h new junk bjunk = Some (h', z) ∧ zsl_rep h' z [] ∧ (∀ y, y ≠ new → h' !! y = h !! y).
Proof.
  unfold zslCreate.
  destruct (create_loop_ok ZSKIPLIST_MAXLEVEL (zslCreateNode h new ZSKIPLIST_MAXLEVEL szero None junk bjunk)
    new 0 None szero bjunk (junk <$> seq 0 ZSKIPLIST_MAXLEVEL)) as (h' & l' & -> & Hx & Hl & Hk & Ho).
  - apply lookup_insert_eq.
  - by rewrite length_fmap, length_seq.
  - lia.
  - bsimpl. unfold set_backward. rewrite Hx. cbn [mbind option_bind obj score level].
    eexists _, _. split; [done|]. split.
    + split; cbn [header zlevel ztail length_]; try done;
        try apply NoDup_singleton; try constructor; try (unfold ZSKIPLIST_MAXLEVEL; lia).
      eexists. split; [apply lookup_insert_eq|done|done|done|..]; cbn [level].
        -- intros j Hj. rewrite Hk by (unfold ZSKIPLIST_MAXLEVEL; lia). done.
        -- intros j Hj. exists 0. apply Hk. unfold ZSKIPLIST_MAXLEVEL in *. lia.
    + intros y Hy. rewrite lookup_insert_ne by done. rewrite Ho by done. unfold zslCreateNode. by rewrite lookup_insert_ne.
Qed.
End creation.

(** A list of four elements, as the code builds it; the blocks [zmalloc]
    returns hold garbage. *)
Definition ex_junk : nat → zskiplistLevel := λ _, mkLevel (Some 77%positive) 99.
Definition ex_list : heap Z * zskiplist :=
  default (∅, mkZsl 1 None 0 1) (
    '(h, z) ← zslCreate (D:=Z) ∅ 1%positive ex_junk None;
    '(h, z, _) ← zslInsert h z 5 (str "e") [0; 65535] 2%positive ex_junk None;
    '(h, z, _) ← zslInsert h z 1 (str "a") [65535] 3%positive ex_junk None;
    '(h, z, _) ← zslInsert h z 3 (str "c") [16383; 65536; 7; 16384] 4%positive ex_junk None;
    '(h, z, _) ← zslInsert h z 3 (str "d") [65535] 5%positive ex_junk None;
    Some (h, z)).
Definition ex_items : list (item Z) :=
  [mkItem 3%positive 1 1 (str "a"); mkItem 4%positive 4 3 (str "c"); mkItem 5%positive 1 3 (str "d"); mkItem 2%positive 2 5 (str "e")].

Lemma ex_rep : zsl_rep ex_list.1 ex_list.2 ex_items.
Proof.
  split.
  - eexists. split; [vm_compute; reflexivity|reflexivity|reflexivity|reflexivity|..]; intros j Hj;
      change (zlevel ex_list.2) with 4%nat in Hj; unfold ZSKIPLIST_MAXLEVEL in Hj.
    + do 4 (destruct j as [|j]; [reflexivity|]). lia.
    + do 32 (destruct j as [|j]; [lia || by eexists|]). lia.
  - repeat split.
  - apply (bool_decide_unpack _). vm_compute. done.
  - apply (bool_decide_unpack _). vm_compute. done.
  - vm_compute. lia.
  - reflexivity.
  - reflexivity.
  - vm_compute. done.
  - repeat first [apply SSorted_nil|apply SSorted_cons|apply Forall_nil_2|apply Forall_cons_2
                 |left; reflexivity|right; split; [reflexivity|cbn; lia]].
Qed.

(** ** The theorems *)

Section theorems.
Context {D : Type} `{Score D}.
Implicit Types (h : heap D) (z : zskiplist) (its A B : list (item D)).

(** C2. [zslInsert] of a score and element not yet in the list puts one node,
    of the height drawn, at the place the order (score, then element) demands;
    every forward pointer, span, back pointer, the tail, the level and the
    length are those of the longer list, and no other block of memory
    changes. *)
Theorem zslInsert_refines h z its s o rs lv rs' new junk bjunk :
  zsl_rep h z its → Forall (λ it, ¬ same_key (at_key s o) it) its →
  zslRandomLevel rs = Some (lv, rs') → h !! new = None → len its < 2 ^ 32 - 2 →
  ∃ h' z' A B, zslInsert h z s o rs new junk bjunk = Some (h', z', rs') ∧ its = A ++ B ∧
    zsl_rep h' z' (A ++ mkItem new lv s o :: B) ∧ header z' = header z ∧
    (∀ x n, x ∉ header z :: (iloc <$> its) → h !! x = Some n → h' !! x = Some n).
Proof.
  intros Hr Hfresh Hlv Hnew Hsm. pose proof (rep_sorted _ _ _ Hr) as Hs.
  destruct (key_split s o its Hs) as (A & B & -> & Hdiv & HA & HB).
  destruct (insert_at_ok h z A B s o rs lv rs' new junk bjunk) as (h' & z' & E & Hr' & Hhd & Hfr); [done|done| |done|done|done|].
  - apply sorted_insert; [done|done|]. apply Forall_app in Hfresh as [_ Hfresh]. apply Forall_forall. intros it Hin.
    rewrite Forall_forall in HB, Hfresh. by destruct (HB it Hin) as [Hk|Hk]; [destruct (Hfresh it Hin)|].
  - by exists h', z', A, B.
Qed.

(** C26. [zslDelete] removes the node with the score and the element, if there
    is one, and returns 1; otherwise it changes nothing and returns 0. *)
Theorem zslDelete_refines h z its s o :
  zsl_rep h z its →
  (∃ A it B h' z', its = A ++ it :: B ∧ same_key (at_key s o) it ∧
     zslDelete h z s o = Some (h', z', 1) ∧ zsl_rep h' z' (A ++ B) ∧ header z' = header z ∧
     (∀ x n, x ∉ header z :: (iloc <$> its) → h !! x = Some n → h' !! x = Some n)) ∨
  (Forall (λ it, ¬ same_key (at_key s o) it) its ∧ zslDelete h z s o = Some (h, z, 0)).
Proof.
  intros Hr. destruct (key_split s o its (rep_sorted _ _ _ Hr)) as (A & B & -> & Hdiv & HA & HB). unfold zslDelete.
  destruct (search_path h z A B _ _ Hr (before_decides s o) Hdiv) as (us & -> & Hpath & Hu & Hg).
  bsimpl. rewrite Hu. bsimpl. rewrite Hg. cbn [mbind option_bind level_of forward].
  rewrite (fwd_0 _ _ _ _ Hr).
  assert (∀ it, item_lt it (at_key s o) → ¬ same_key (at_key s o) it) as Hlt.
  { intros it Hl Hk. apply (item_lt_irrefl it). eapply same_key_lt_r; [exact Hk|done]. }
  assert (∀ it, item_lt (at_key s o) it → ¬ same_key (at_key s o) it) as Hgt.
  { intros it Hl Hk. apply (item_lt_irrefl (at_key s o)). eapply same_key_lt_r; [|exact Hl].
    destruct Hk as [Hk1 Hk2]. split; [by rewrite seqs_sym|done]. }
  destruct B as [|it B]; cbn [head fmap option_fmap option_map].
  { right. rewrite app_nil_r. split; [eapply Forall_impl; [exact HA|]; apply Hlt|done]. }
  rewrite (path_lookup _ _ _ _ _ _ Hpath). cbn [mbind option_bind node_of score obj].
  destruct (seqs s (iscore it) && equalStringObjects (iobj it) o) eqn:Ek.
  - left. apply andb_true_iff in Ek as [Ek1 Ek2%equalStringObjects_spec].
    destruct (zslDeleteNode_ok h z A it B us Hpath) as (h' & z' & -> & Hp' & Hhd & Hfr). bsimpl.
    exists A, it, B, (zslFreeNode h' (iloc it)), z'. split; [done|]. split; [done|]. split; [done|]. by split; [apply Hp'|].
  - right. split; [|done]. apply Forall_app. split; [eapply Forall_impl; [exact HA|]; apply Hlt|].
    apply Forall_cons in HB as [Hit HB].
    assert (item_lt (at_key s o) it) as Hl.
    { destruct Hit as [[Hk1 Hk2]|?]; [|done]. cbn in Hk1, Hk2. rewrite Hk1 in Ek. cbn in Ek.
      rewrite (proj2 (equalStringObjects_spec _ _)) in Ek; done. }
    pose proof (rep_sorted _ _ _ Hr) as Hs. apply sorted_app in Hs as (_ & Hs & _). inversion Hs as [|? ? _ Hall]; subst.
    constructor; [by apply Hgt|]. eapply Forall_impl; [exact Hall|]. intros b Hb. apply Hgt. by eapply item_lt_trans.
Qed.

(** C34. Ranks count from one: [zslGetRank] of an element at its score is its
    position, [zslGetElementByRank] of that position is its node, an element
    that is not there has rank 0, and beyond the end there is no node. *)
Theorem zslRank_spec h z its :
  zsl_rep h z its → NoDup (iobj <$> its) →
  (∀ A it B, its = A ++ it :: B →
     zslGetRank h z (iscore it) (iobj it) = Some (len A + 1) ∧
     zslGetElementByRank h z (len A + 1) = Some (Some (iloc it))) ∧
  (∀ s o, o ∉ iobj <$> its → zslGetRank h z s o = Some 0) ∧
  (∀ r, len its < r → zslGetElementByRank h z r = Some None).
Proof.
  intros Hr Hnd. pose proof (rep_level _ _ _ Hr) as Hlev. pose proof (rep_sorted _ _ _ Hr) as Hs. split; [|split].
  - intros A it B E. assert (its = (A ++ [it]) ++ B) as E' by (by rewrite <- app_assoc). rewrite E' in Hr, Hnd, Hs.
    destruct (zlevel z) as [|i] eqn:Ez; [lia|]. split.
    + unfold zslGetRank. rewrite Ez. apply (rank_loop_found h z A it B (iscore it) (iobj it) i [] (A ++ [it])); [done| |
        rewrite fmap_app in Hnd; apply NoDup_app in Hnd as [Hnd _]; done|done|done|cbn; lia].
      apply divides_of.
      * apply Forall_forall. intros a Ha. apply item_before_eq_iff. apply elem_of_app in Ha as [Ha| ->%list_elem_of_singleton];
          [left|right; by split; [apply seqs_refl|]].
        apply sorted_app in Hs as (Hs & _ & _). apply sorted_app in Hs as (_ & _ & Hs).
        specialize (Hs a it Ha ltac:(set_solver)). by destruct Hs as [?|?]; [left|right].
      * apply Forall_forall. intros b Hb. destruct (item_before_eq (iscore it) (iobj it) b) eqn:Eb; [|done].
        apply sorted_app in Hs as (_ & _ & Hs). specialize (Hs it b ltac:(set_solver) Hb). exfalso.
        apply (item_lt_irrefl it). change (item_lt it (at_key (iscore it) (iobj it))).
        apply item_before_eq_iff in Eb as [Eb|Eb]; [by eapply item_lt_trans|by eapply same_key_lt_r].
    + unfold zslGetElementByRank. rewrite Ez. replace (len A + 1) with (len (A ++ [it])) by (rewrite length_app; cbn [length]; lia).
      rewrite <- (owner_snoc (header z) A it). apply (element_loop_ok h z _ B i [] (A ++ [it])); [done|by destruct A|done|cbn; lia].
  - intros s o Ho. destruct (sorted_split (item_before_eq s o) its Hs (item_before_eq_mono s o)) as (A & B & -> & HA & HB).
    apply (rank_loop_absent h z A B s o (zlevel z) [] A); [done|by apply divides_of| |done|done]. rewrite fmap_app in Ho. set_solver.
  - intros r Hlen. by apply (element_loop_beyond h z its r (zlevel z) [] its).
Qed.

(** C33. [zslFirstInRange] and [zslLastInRange] return the first and the last
    node whose score is in the range, bounds excluded as it says, or none; the
    assertion in [zslFirstInRange] never fails. *)
Theorem zslRange_spec h z its range :
  zsl_rep h z its →
  let inside := filter (λ it, zslValueGteMin (iscore it) range && zslValueLteMax (iscore it) range = true) its in
  zslFirstInRange h z range = Some (iloc <$> head inside) ∧
  zslLastInRange h z range = Some (iloc <$> last inside).
Proof.
  intros Hr inside. pose proof (score_range_test its range (rep_sorted _ _ _ Hr)) as Ht.
  destruct (zslIsInRange_ok h z its range Hr) as (b & E & Htrue & Hfalse). unfold zslFirstInRange, zslLastInRange.
  rewrite E. bsimpl. destruct b; cbn [negb].
  - destruct (Htrue eq_refl) as (f & l & Hf & HLf & Hl & HGl).
    split; [apply (first_from_ok _ _ _ _ _ _ _ Hr Ht)|apply (last_from_ok _ _ _ _ _ _ _ Hr Ht)]; eauto.
  - specialize (Hfalse eq_refl). unfold above, below in Hfalse. unfold inside. by rewrite Hfalse.
Qed.

(** C32. The range deletions remove exactly the elements in the range, give
    them in order to the caller, and leave a list of the others: by score and by
    position in any list, and by element in a list whose scores are all equal,
    which the commands by element require and do not check. *)
Theorem zslDeleteRange_spec h z its :
  zsl_rep h z its →
  (∀ range, let inside it := zslValueGteMin (iscore it) range && zslValueLteMax (iscore it) range = true in
     ∃ h' z', zslDeleteRangeByScore h z range = Some (h', z', iobj <$> filter inside its) ∧
       zsl_rep h' z' (filter (λ it, ¬ inside it) its)) ∧
  (∀ start end_, 1 ≤ start ≤ end_ + 1 →
     ∃ h' z', zslDeleteRangeByRank h z start end_ =
         Some (h', z', iobj <$> take (Z.to_nat (end_ - start + 1)) (drop (Z.to_nat (start - 1)) its)) ∧
       zsl_rep h' z' (take (Z.to_nat (start - 1)) its ++ drop (Z.to_nat end_) its)) ∧
  (same_scores its → ∀ range,
     let inside it := zslLexValueGteMin (iobj it) range && zslLexValueLteMax (iobj it) range = true in
     ∃ h' z', zslDeleteRangeByLex h z range = Some (h', z', iobj <$> filter inside its) ∧
       zsl_rep h' z' (filter (λ it, ¬ inside it) its)).
Proof.
  intros Hr. pose proof (rep_sorted _ _ _ Hr) as Hs. split; [|split].
  - intros range inside. destruct (delete_between_ok h z its
      (λ n _, if minex range then negb (slt (rmin range) (score n)) else slt (score n) (rmin range)) _ _ _ _ Hr
      (score_range_test its range Hs)) as (h' & z' & E & Hr' & _); [|by exists h', z'].
    intros it prev R r. unfold above, zslValueGteMin. cbn. destruct (minex range); [done|by rewrite negb_involutive].
  - intros start end_ Hse. set (A := take (Z.to_nat (start - 1)) its).
    set (X := take (Z.to_nat (end_ - start + 1)) (drop (Z.to_nat (start - 1)) its)). set (B := drop (Z.to_nat end_) its).
    assert (its = A ++ X ++ B) as E.
    { unfold A, X, B. replace (Z.to_nat end_) with (Z.to_nat (start - 1) + Z.to_nat (end_ - start + 1))%nat by lia.
      by rewrite <- drop_drop, take_drop, take_drop. }
    assert (len A ≤ start - 1 ∧ (len A = start - 1 ∨ X ++ B = [])) as [HlA HlA'].
    { unfold A. rewrite length_take. split; [lia|]. destruct (decide (start - 1 ≤ len its)); [left; lia|right].
      apply (app_inv_head A). rewrite <- E, app_nil_r. unfold A. rewrite take_ge; [done|lia]. }
    assert (len X ≤ end_ - start + 1 ∧ (len X = end_ - start + 1 ∨ B = [])) as [HlX HlX'].
    { unfold X. rewrite length_take, length_drop. split; [lia|]. destruct (decide (end_ ≤ len its)); [left; lia|right].
      unfold B. apply drop_ge. lia. }
    destruct (delete_range_ok h z A X B (λ _ r, r <? start) (λ _ r, r <? start) (λ _ r, r <=? end_) (λ _ r, r <=? end_))
      as (h' & z' & E2 & Hr' & _); [by rewrite <- E|done| |done|..].
    + split; intros Y it W EY; [apply Z.ltb_lt; rewrite EY, length_app in HlA; cbn [length] in HlA; lia|].
      apply Z.ltb_ge. destruct HlA' as [?|HlA']; [lia|]. rewrite HlA' in EY. by destruct Y.
    + intros X1 it X2 EX. apply Z.leb_le. rewrite EX, length_app in HlX. cbn [length] in HlX. lia.
    + intros it B' EB. apply Z.leb_gt. rewrite EB in *. destruct HlX' as [?|?]; [|done].
      destruct HlA' as [?|HlA']; [lia|]. by destruct X.
    + by exists h', z'.
  - intros Hsame range inside. destruct (delete_between_ok h z its (λ n _, negb (lex_gte range n)) _ _ _ _ Hr
      (lex_range_test its range Hs Hsame)) as (h' & z' & E & Hr' & _); [|by exists h', z'].
    by intros it prev R r.
Qed.

(** With all scores equal, [zslFirstInLexRange] and [zslLastInLexRange]
    return the first and the last node whose element is in the range, unless
    one bound is spelled like the other one's shared object. *)
Theorem zslLexRange_spec h z its range :
  zsl_rep h z its → same_scores its →
  (lexbound_obj (lmin range) = lexbound_obj (lmax range) → lmin range = lmax range) →
  let inside := filter (λ it, zslLexValueGteMin (iobj it) range && zslLexValueLteMax (iobj it) range = true) its in
  zslFirstInLexRange h z range = Some (iloc <$> head inside) ∧
  zslLastInLexRange h z range = Some (iloc <$> last inside).
Proof.
  intros Hr Hsame Hsane inside. pose proof (lex_range_test its range (rep_sorted _ _ _ Hr) Hsame) as Ht.
  destruct (zslIsInLexRange_ok h z its range Hr Hsame Hsane) as (b & E & Htrue & Hfalse).
  unfold zslFirstInLexRange, zslLastInLexRange. rewrite E. bsimpl. destruct b; cbn [negb].
  - destruct (Htrue eq_refl) as (f & l & Hf & HLf & Hl & HGl).
    split; [apply (first_from_ok _ _ _ _ _ _ _ Hr Ht)|apply (last_from_ok _ _ _ _ _ _ _ Hr Ht)]; eauto.
  - specialize (Hfalse eq_refl). unfold lex_above, lex_below in Hfalse. unfold inside. by rewrite Hfalse.
Qed.
End theorems.

(** ** Examples *)

Lemma zslInsert_refines_witness :
  ∃ h' z' A B, zslInsert ex_list.1 ex_list.2 4 (str "cc") [1; 2; 65535; 9] 9%positive ex_junk None = Some (h', z', [9]) ∧ ex_items = A ++ B ∧
    zsl_rep h' z' (A ++ mkItem 9%positive 3 4 (str "cc") :: B) ∧ header z' = header ex_list.2 ∧
    (∀ x n, x ∉ header ex_list.2 :: (iloc <$> ex_items) → ex_list.1 !! x = Some n → h' !! x = Some n).
Proof.
  apply (zslInsert_refines _ _ ex_items); [apply ex_rep| |reflexivity|reflexivity|reflexivity].
  repeat first [apply Forall_nil_2|apply Forall_cons_2|intros [? ?]; discriminate].
Defined.

Lemma zslDelete_refines_witness :
  (∃ A it B h' z', ex_items = A ++ it :: B ∧ same_key (at_key 3 (str "c")) it ∧
     zslDelete ex_list.1 ex_list.2 3 (str "c") = Some (h', z', 1) ∧ zsl_rep h' z' (A ++ B) ∧ header z' = header ex_list.2 ∧
     (∀ x n, x ∉ header ex_list.2 :: (iloc <$> ex_items) → ex_list.1 !! x = Some n → h' !! x = Some n)) ∨
  (Forall (λ it, ¬ same_key (at_key 3 (str "c")) it) ex_items ∧
   zslDelete ex_list.1 ex_list.2 3 (str "c") = Some (ex_list.1, ex_list.2, 0)).
Proof. apply zslDelete_refines, ex_rep. Defined.

Lemma zslRank_spec_witness :
  (∀ A it B, ex_items = A ++ it :: B →
     zslGetRank ex_list.1 ex_list.2 (iscore it) (iobj it) = Some (len A + 1) ∧
     zslGetElementByRank ex_list.1 ex_list.2 (len A + 1) = Some (Some (iloc it))) ∧
  (∀ s o, o ∉ iobj <$> ex_items → zslGetRank ex_list.1 ex_list.2 s o = Some 0) ∧
  (∀ r, len ex_items < r → zslGetElementByRank ex_list.1 ex_list.2 r = Some None).
Proof. apply zslRank_spec; [apply ex_rep|]. apply (bool_decide_unpack _). vm_compute. exact I. Defined.

Lemma zslRange_spec_witness :
  zslFirstInRange ex_list.1 ex_list.2 (mkRange 1 4 true false) = Some (Some 4%positive) ∧
  zslLastInRange ex_list.1 ex_list.2 (mkRange 1 4 true false) = Some (Some 5%positive).
Proof. exact (zslRange_spec _ _ _ (mkRange 1 4 true false) ex_rep). Defined.

(** A list of two elements with the same score. *)
Definition ex_lex : heap Z * zskiplist :=
  default (∅, mkZsl 1 None 0 1) (
    '(h, z) ← zslCreate (D:=Z) ∅ 1%positive ex_junk None;
    '(h, z, _) ← zslInsert h z 0 (str "a") [0; 65535] 2%positive ex_junk None;
    '(h, z, _) ← zslInsert h z 0 (str "b") [65535] 3%positive ex_junk None;
    Some (h, z)).
Definition ex_lex_items : list (item Z) := [mkItem 2%positive 2 0 (str "a"); mkItem 3%positive 1 0 (str "b")].

Lemma ex_lex_rep : zsl_rep ex_lex.1 ex_lex.2 ex_lex_items.
Proof.
  split.
  - eexists. split; [vm_compute; reflexivity|reflexivity|reflexivity|reflexivity|..]; intros j Hj;
      change (zlevel ex_lex.2) with 2%nat in Hj; unfold ZSKIPLIST_MAXLEVEL in Hj.
    + do 2 (destruct j as [|j]; [reflexivity|]). lia.
    + do 32 (destruct j as [|j]; [lia || by eexists|]). lia.
  - repeat split.
  - apply (bool_decide_unpack _). vm_compute. done.
  - apply (bool_decide_unpack _). vm_compute. done.
  - vm_compute. lia.
  - reflexivity.
  - reflexivity.
  - vm_compute. done.
  - repeat first [apply SSorted_nil|apply SSorted_cons|apply Forall_nil_2|apply Forall_cons_2|right; split; [reflexivity|cbn; lia]].
Qed.

Lemma ex_lex_same : same_scores ex_lex_items.
Proof. intros a b [-> |[-> |[]%elem_of_nil]%elem_of_cons]%elem_of_cons [-> |[-> |[]%elem_of_nil]%elem_of_cons]%elem_of_cons; done. Qed.

(** By score and by position in one list, by element in the other. *)
Lemma zslDeleteRange_spec_witness :
  (∃ h' z', zslDeleteRangeByScore ex_list.1 ex_list.2 (mkRange 1 4 true false) = Some (h', z', [str "c"; str "d"]) ∧
     zsl_rep h' z' [mkItem 3%positive 1 1 (str "a"); mkItem 2%positive 2 5 (str "e")]) ∧
  (∃ h' z', zslDeleteRangeByRank ex_list.1 ex_list.2 2 3 = Some (h', z', [str "c"; str "d"]) ∧
     zsl_rep h' z' [mkItem 3%positive 1 1 (str "a"); mkItem 2%positive 2 5 (str "e")]) ∧
  (∃ h' z', zslDeleteRangeByLex ex_lex.1 ex_lex.2 (mkLexRange (LexString (str "a")) MaxString true false) = Some (h', z', [str "b"]) ∧
     zsl_rep h' z' [mkItem 2%positive 2 0 (str "a")]).
Proof.
  split; [|split].
  - exact (proj1 (zslDeleteRange_spec _ _ _ ex_rep) (mkRange 1 4 true false)).
  - apply (proj1 (proj2 (zslDeleteRange_spec _ _ _ ex_rep)) 2 3). lia.
  - exact (proj2 (proj2 (zslDeleteRange_spec _ _ _ ex_lex_rep)) ex_lex_same (mkLexRange (LexString (str "a")) MaxString true false)).
Defined.

Lemma zslLexRange_spec_witness :
  zslFirstInLexRange ex_lex.1 ex_lex.2 (mkLexRange (LexString (str "a")) MaxString true false) = Some (Some 3%positive) ∧
  zslLastInLexRange ex_lex.1 ex_lex.2 (mkLexRange (LexString (str "a")) MaxString true false) = Some (Some 3%positive).
Proof.
  exact (zslLexRange_spec _ _ _ (mkLexRange (LexString (str "a")) MaxString true false) ex_lex_rep ex_lex_same
    ltac:(vm_compute; discriminate)).
Defined.

(** [zslIsInLexRange] tests for an empty range with
    [compareStringObjects], which takes the shared [minstring] object for its
    text: the range from [-] to [(minstring] is taken to be empty, so no
    element of it is found although all of them are in it. *)
Theorem zslIsInLexRange_misses :
  let range := mkLexRange MinString (LexString (str "minstring")) false true in
  zsl_rep ex_lex.1 ex_lex.2 ex_lex_items ∧ same_scores ex_lex_items ∧
  Forall (λ it, zslLexValueGteMin (iobj it) range && zslLexValueLteMax (iobj it) range = true) ex_lex_items ∧
  zslIsInLexRange ex_lex.1 ex_lex.2 range = Some false ∧
  zslFirstInLexRange ex_lex.1 ex_lex.2 range = Some None ∧ zslLastInLexRange ex_lex.1 ex_lex.2 range = Some None.
Proof.
  split; [apply ex_lex_rep|]. split; [apply ex_lex_same|]. split; [repeat first [apply Forall_nil_2|apply Forall_cons_2]; reflexivity|].
  repeat split.
Qed.
