(* ===== verification/Ziplist.v ===== *)
(** * Compact lists: [ziplist.c]

    A ziplist is one block of bytes: a header (total bytes, offset of the last
    entry, number of entries), the entries, and an end byte.  An entry has the
    length of the entry before it, its encoding with its own length, and its
    bytes or integer.  The definitions are those of the code on the bytes; a
    pointer into the list is its offset.  Loops that follow entries run on the
    length of the block as fuel. *)

From S2P Require Import Prelude Endian Util.

Definition ZIP_END : Z := 255.
Definition ZIP_BIGLEN : Z := 254.
Definition ZIP_STR_MASK : Z := 0xc0.
Definition ZIP_STR_06B : Z := Z.shiftl 0 6.
Definition ZIP_STR_14B : Z := Z.shiftl 1 6.
Definition ZIP_STR_32B : Z := Z.shiftl 2 6.
Definition ZIP_INT_16B : Z := Z.lor 0xc0 (Z.shiftl 0 4).
Definition ZIP_INT_32B : Z := Z.lor 0xc0 (Z.shiftl 1 4).
Definition ZIP_INT_64B : Z := Z.lor 0xc0 (Z.shiftl 2 4).
Definition ZIP_INT_24B : Z := Z.lor 0xc0 (Z.shiftl 3 4).
Definition ZIP_INT_8B : Z := 0xfe.
Definition ZIP_INT_IMM_MASK : Z := 0x0f.
Definition ZIP_INT_IMM_MIN : Z := 0xf1.
Definition ZIP_INT_IMM_MAX : Z := 0xfd.
Definition INT24_MAX : Z := 0x7fffff.
Definition INT24_MIN : Z := - INT24_MAX - 1.
Definition UINT16_MAX : Z := 65535.
Definition UCHAR_MAX : Z := 255.

Definition ZIP_IS_STR (enc : Z) : bool := Z.land enc ZIP_STR_MASK <? ZIP_STR_MASK.

Definition ZIPLIST_HEADER_SIZE : Z := 10.
Definition ZIPLIST_HEAD : Z := 0.
Definition ZIPLIST_TAIL : Z := 1.

Record zlentry := mkZlentry {
  prevrawlensize : Z; prevrawlen : Z; lensize : Z; elen : Z; headersize : Z; eencoding : Z; ep : Z
}.

Definition zipIntSize (encoding : Z) : Z :=
  if encoding =? ZIP_INT_8B then 1
  else if encoding =? ZIP_INT_16B then 2
  else if encoding =? ZIP_INT_24B then 3
  else if encoding =? ZIP_INT_32B then 4
  else if encoding =? ZIP_INT_64B then 8
  else 0.

(** The encoding of a string that is a 64-bit integer. *)
Definition zipTryEncoding (entry : list Z) : option (Z * Z) :=
  if (len entry >=? 32) || (len entry =? 0) then None
  else
    value ← string2ll entry;
    Some (value,
      if (value >=? 0) && (value <=? 12) then ZIP_INT_IMM_MIN + value
      else if (value >=? - 2 ^ 7) && (value <=? 2 ^ 7 - 1) then ZIP_INT_8B
      else if (value >=? - 2 ^ 15) && (value <=? 2 ^ 15 - 1) then ZIP_INT_16B
      else if (value >=? INT24_MIN) && (value <=? INT24_MAX) then ZIP_INT_24B
      else if (value >=? - 2 ^ 31) && (value <=? 2 ^ 31 - 1) then ZIP_INT_32B
      else ZIP_INT_64B).

Section ziplist_ops.
Context `{Host} (junk : nat → Z).
Implicit Types zl : list Z.

(** ** The header *)

Definition ZIPLIST_BYTES zl : option Z := b ← mread zl 0 4; Some (host_val b).
Definition ZIPLIST_TAIL_OFFSET zl : option Z := b ← mread zl 4 4; Some (host_val b).
Definition ZIPLIST_LENGTH zl : option Z := b ← mread zl 8 2; Some (host_val b).
Definition set_ZIPLIST_BYTES zl (v : Z) : option (list Z) := mwrite zl 0 (host_bytes 4 v).
Definition set_ZIPLIST_TAIL_OFFSET zl (v : Z) : option (list Z) := mwrite zl 4 (host_bytes 4 v).
Definition set_ZIPLIST_LENGTH zl (v : Z) : option (list Z) := mwrite zl 8 (host_bytes 2 v).

Definition ZIPLIST_ENTRY_TAIL zl : option Z := t ← ZIPLIST_TAIL_OFFSET zl; Some (intrev32ifbe t).
Definition ZIPLIST_ENTRY_END zl : option Z := b ← ZIPLIST_BYTES zl; Some (intrev32ifbe b - 1).

Definition ZIPLIST_INCR_LENGTH zl (incr : Z) : option (list Z) :=
  l ← ZIPLIST_LENGTH zl;
  if l <? UINT16_MAX then set_ZIPLIST_LENGTH zl (intrev16ifbe (u16 (intrev16ifbe l + incr)))
  else Some zl.

(** ** Entries *)

Definition ZIP_ENTRY_ENCODING zl (ptr : Z) : option Z :=
  encoding ← mget zl ptr;
  Some (if encoding <? ZIP_STR_MASK then Z.land encoding ZIP_STR_MASK else encoding).

(** The bytes [zipEncodeLength] puts in [buf]. *)
Definition length_bytes (encoding rawlen : Z) : list Z :=
  if ZIP_IS_STR encoding then
    if rawlen <=? 0x3f then [u8 (Z.lor ZIP_STR_06B rawlen)]
    else if rawlen <=? 0x3fff then
      [u8 (Z.lor ZIP_STR_14B (Z.land (Z.shiftr rawlen 8) 0x3f)); Z.land rawlen 0xff]
    else
      [ZIP_STR_32B; Z.land (Z.shiftr rawlen 24) 0xff; Z.land (Z.shiftr rawlen 16) 0xff;
       Z.land (Z.shiftr rawlen 8) 0xff; Z.land rawlen 0xff]
  else [encoding].

(** With no [p] only the number of bytes needed is computed. *)
Definition zipEncodeLength zl (p : option Z) (encoding rawlen : Z) : option (list Z * Z) :=
  let buf := length_bytes encoding rawlen in
  match p with
  | None => Some (zl, len buf)
  | Some p => zl ← mwrite zl p buf; Some (zl, len buf)
  end.

(** The encoding, the size of the length field, and the length. *)
Definition ZIP_DECODE_LENGTH zl (ptr : Z) : option (Z * Z * Z) :=
  encoding ← ZIP_ENTRY_ENCODING zl ptr;
  if encoding <? ZIP_STR_MASK then
    if encoding =? ZIP_STR_06B then
      b0 ← mget zl ptr;
      Some (encoding, 1, Z.land b0 0x3f)
    else if encoding =? ZIP_STR_14B then
      b0 ← mget zl ptr; b1 ← mget zl (ptr + 1);
      Some (encoding, 2, Z.lor (Z.shiftl (Z.land b0 0x3f) 8) b1)
    else if encoding =? ZIP_STR_32B then
      b1 ← mget zl (ptr + 1); b2 ← mget zl (ptr + 2); b3 ← mget zl (ptr + 3); b4 ← mget zl (ptr + 4);
      Some (encoding, 5, u32 (Z.lor (Z.lor (Z.lor (Z.shiftl b1 24) (Z.shiftl b2 16)) (Z.shiftl b3 8)) b4))
    else None
  else Some (encoding, 1, zipIntSize encoding).

(** [memcpy(p,&v,n); memrevNifbe(p);] for an object [v] of [n] bytes. *)
Definition store_rev zl (p n : Z) (memrevifbe : list Z → option (list Z)) (v : Z) : option (list Z) :=
  zl ← mwrite zl p (host_bytes n v);
  cell ← mread zl p n;
  cell ← memrevifbe cell;
  mwrite zl p cell.

Definition zipPrevEncodeLength zl (p : option Z) (len : Z) : option (list Z * Z) :=
  let len := u32 len in
  match p with
  | None => Some (zl, if len <? ZIP_BIGLEN then 1 else 5)
  | Some p =>
      if len <? ZIP_BIGLEN then zl ← mset zl p len; Some (zl, 1)
      else zl ← mset zl p ZIP_BIGLEN; zl ← store_rev zl (p + 1) 4 memrev32ifbe len; Some (zl, 5)
  end.

Definition zipPrevEncodeLengthForceLarge zl (p len : Z) : option (list Z) :=
  let len := u32 len in
  zl ← mset zl p ZIP_BIGLEN;
  store_rev zl (p + 1) 4 memrev32ifbe len.

Definition ZIP_DECODE_PREVLENSIZE zl (ptr : Z) : option Z :=
  b ← mget zl ptr; Some (if b <? ZIP_BIGLEN then 1 else 5).

Definition ZIP_DECODE_PREVLEN zl (ptr : Z) : option (Z * Z) :=
  prevlensize ← ZIP_DECODE_PREVLENSIZE zl ptr;
  if prevlensize =? 1 then b ← mget zl ptr; Some (prevlensize, b)
  else
    cell ← mread zl (ptr + 1) 4;
    cell ← memrev32ifbe cell;
    Some (prevlensize, host_val cell).

Definition zipPrevLenByteDiff zl (p len : Z) : option Z :=
  prevlensize ← ZIP_DECODE_PREVLENSIZE zl p;
  '(_, n) ← zipPrevEncodeLength zl None len;
  Some (s32 (u32 (n - prevlensize))).

Definition zipRawEntryLength zl (p : Z) : option Z :=
  prevlensize ← ZIP_DECODE_PREVLENSIZE zl p;
  '(_, lensize, len) ← ZIP_DECODE_LENGTH zl (p + prevlensize);
  Some (u32 (prevlensize + lensize + len)).

Definition zipSaveInteger zl (p value encoding : Z) : option (list Z) :=
  if encoding =? ZIP_INT_8B then mset zl p (u8 value)
  else if encoding =? ZIP_INT_16B then store_rev zl p 2 memrev16ifbe value
  else if encoding =? ZIP_INT_24B then
    i32 ← memrev32ifbe (host_bytes 4 (Z.shiftl value 8));
    memcpy zl i32 p 1 3
  else if encoding =? ZIP_INT_32B then store_rev zl p 4 memrev32ifbe value
  else if encoding =? ZIP_INT_64B then store_rev zl p 8 memrev64ifbe value
  else if (encoding >=? ZIP_INT_IMM_MIN) && (encoding <=? ZIP_INT_IMM_MAX) then Some zl
  else None.

Definition zipLoadInteger zl (p encoding : Z) : option Z :=
  if encoding =? ZIP_INT_8B then b ← mget zl p; Some (swrap 8 b)
  else if encoding =? ZIP_INT_16B then
    c ← mread zl p 2; c ← memrev16ifbe c; Some (s16 (host_val c))
  else if encoding =? ZIP_INT_32B then
    c ← mread zl p 4; c ← memrev32ifbe c; Some (s32 (host_val c))
  else if encoding =? ZIP_INT_24B then
    i32 ← memcpy (host_bytes 4 0) zl 1 p 3;
    i32 ← memrev32ifbe i32;
    Some (Z.shiftr (s32 (host_val i32)) 8)
  else if encoding =? ZIP_INT_64B then
    c ← mread zl p 8; c ← memrev64ifbe c; Some (s64 (host_val c))
  else if (encoding >=? ZIP_INT_IMM_MIN) && (encoding <=? ZIP_INT_IMM_MAX) then
    Some (Z.land encoding ZIP_INT_IMM_MASK - 1)
  else None.

Definition zipEntry zl (p : Z) : option zlentry :=
  '(prevrawlensize, prevrawlen) ← ZIP_DECODE_PREVLEN zl p;
  '(encoding, lensize, len) ← ZIP_DECODE_LENGTH zl (p + prevrawlensize);
  Some (mkZlentry prevrawlensize prevrawlen lensize len (u32 (prevrawlensize + lensize)) (u8 encoding) p).

(** ** Creation and resizing *)

Definition ziplistNew : option (list Z) :=
  let bytes := ZIPLIST_HEADER_SIZE + 1 in
  let zl := zrealloc junk [] bytes in
  zl ← set_ZIPLIST_BYTES zl (intrev32ifbe bytes);
  zl ← set_ZIPLIST_TAIL_OFFSET zl (intrev32ifbe ZIPLIST_HEADER_SIZE);
  zl ← set_ZIPLIST_LENGTH zl 0;
  mset zl (bytes - 1) ZIP_END.

Definition ziplistResize zl (len : Z) : option (list Z) :=
  let len := u32 len in
  let zl := zrealloc junk zl len in
  zl ← set_ZIPLIST_BYTES zl (intrev32ifbe len);
  mset zl (len - 1) ZIP_END.

(** ** Cascading updates *)

Fixpoint cascade_loop (fuel : nat) zl (p curlen : Z) : option (list Z) :=
  b ← mget zl p;
  if b =? ZIP_END then Some zl
  else
    cur ← zipEntry zl p;
    let rawlen := u32 (headersize cur + elen cur) in
    '(_, rawlensize) ← zipPrevEncodeLength zl None rawlen;
    b ← mget zl (p + rawlen);
    if b =? ZIP_END then Some zl
    else
      next ← zipEntry zl (p + rawlen);
      if prevrawlen next =? rawlen then Some zl
      else if prevrawlensize next <? rawlensize then
        match fuel with
        | O => None
        | S fuel =>
            let extra := rawlensize - prevrawlensize next in
            zl ← ziplistResize zl (curlen + extra);
            let np := p + rawlen in
            tail ← ZIPLIST_TAIL_OFFSET zl;
            zl ← (if negb (intrev32ifbe tail =? np)
                  then set_ZIPLIST_TAIL_OFFSET zl (intrev32ifbe (u32 (intrev32ifbe tail + extra)))
                  else Some zl);
            zl ← memmove zl (np + rawlensize) (np + prevrawlensize next)
                   (u64 (curlen - np - prevrawlensize next - 1));
            '(zl, _) ← zipPrevEncodeLength zl (Some np) rawlen;
            cascade_loop fuel zl np (curlen + extra)
        end
      else if prevrawlensize next >? rawlensize
      then zipPrevEncodeLengthForceLarge zl (p + rawlen) rawlen
      else '(zl, _) ← zipPrevEncodeLength zl (Some (p + rawlen)) rawlen; Some zl.

Definition __ziplistCascadeUpdate zl (p : Z) : option (list Z) :=
  curlen ← ZIPLIST_BYTES zl;
  cascade_loop (length zl) zl p (intrev32ifbe curlen).

(** ** Deletion *)

(** [for (i = 0; p[0] != ZIP_END && i < num; i++) p += zipRawEntryLength(p);] *)
Fixpoint delete_skip (fuel : nat) zl (p i num : Z) : option (Z * Z) :=
  b ← mget zl p;
  if negb (b =? ZIP_END) && (i <? num) then
    match fuel with
    | O => None
    | S fuel => n ← zipRawEntryLength zl p; delete_skip fuel zl (p + n) (i + 1) num
    end
  else Some (p, i).

Definition __ziplistDelete zl (p num : Z) : option (list Z) :=
  first ← zipEntry zl p;
  '(p, deleted) ← delete_skip (length zl) zl p 0 num;
  let totlen := u32 (p - ep first) in
  if totlen >? 0 then
    b ← mget zl p;
    '(zl, nextdiff) ← (if negb (b =? ZIP_END) then
        nextdiff ← zipPrevLenByteDiff zl p (prevrawlen first);
        let p := p - nextdiff in
        '(zl, _) ← zipPrevEncodeLength zl (Some p) (prevrawlen first);
        t ← ZIPLIST_TAIL_OFFSET zl;
        zl ← set_ZIPLIST_TAIL_OFFSET zl (intrev32ifbe (u32 (intrev32ifbe t - totlen)));
        tail ← zipEntry zl p;
        b ← mget zl (p + u32 (headersize tail + elen tail));
        zl ← (if negb (b =? ZIP_END) then
                t ← ZIPLIST_TAIL_OFFSET zl;
                set_ZIPLIST_TAIL_OFFSET zl (intrev32ifbe (u32 (intrev32ifbe t + nextdiff)))
              else Some zl);
        n ← ZIPLIST_BYTES zl;
        zl ← memmove zl (ep first) p (u64 (intrev32ifbe n - p - 1));
        Some (zl, nextdiff)
      else
        zl ← set_ZIPLIST_TAIL_OFFSET zl (intrev32ifbe (u32 (ep first - prevrawlen first)));
        Some (zl, 0));
    n ← ZIPLIST_BYTES zl;
    zl ← ziplistResize zl (u32 (intrev32ifbe n - totlen + nextdiff));
    zl ← ZIPLIST_INCR_LENGTH zl (- deleted);
    if negb (nextdiff =? 0) then __ziplistCascadeUpdate zl (ep first) else Some zl
  else Some zl.

(** ** Insertion *)

(** The length of the entry before the place [p]. *)
Definition insert_prevlen zl (p : Z) : option Z :=
  b ← mget zl p;
  if negb (b =? ZIP_END) then '(_, prevlen) ← ZIP_DECODE_PREVLEN zl p; Some prevlen
  else
    ptail ← ZIPLIST_ENTRY_TAIL zl;
    b ← mget zl ptail;
    if negb (b =? ZIP_END) then zipRawEntryLength zl ptail else Some 0.

Definition __ziplistInsert zl (p : Z) (s : list Z) : option (list Z) :=
  curlen ← ZIPLIST_BYTES zl;
  let curlen := intrev32ifbe curlen in
  prevlen ← insert_prevlen zl p;
  let '(value, encoding, reqlen) :=
    match zipTryEncoding s with
    | Some (value, encoding) => (value, encoding, zipIntSize encoding)
    | None => (123456789, 0, u32 (len s))
    end in
  '(_, prevsize) ← zipPrevEncodeLength zl None prevlen;
  '(_, lensize) ← zipEncodeLength zl None encoding (u32 (len s));
  let reqlen := reqlen + prevsize + lensize in
  b ← mget zl p;
  nextdiff ← (if negb (b =? ZIP_END) then zipPrevLenByteDiff zl p reqlen else Some 0);
  zl ← ziplistResize zl (curlen + reqlen + nextdiff);
  b ← mget zl p;
  zl ← (if negb (b =? ZIP_END) then
      zl ← memmove zl (p + reqlen) (p - nextdiff) (u64 (curlen - p - 1 + nextdiff));
      '(zl, _) ← zipPrevEncodeLength zl (Some (p + reqlen)) reqlen;
      t ← ZIPLIST_TAIL_OFFSET zl;
      zl ← set_ZIPLIST_TAIL_OFFSET zl (intrev32ifbe (u32 (intrev32ifbe t + reqlen)));
      tail ← zipEntry zl (p + reqlen);
      b ← mget zl (p + (reqlen + headersize tail + elen tail));
      if negb (b =? ZIP_END) then
        t ← ZIPLIST_TAIL_OFFSET zl;
        set_ZIPLIST_TAIL_OFFSET zl (intrev32ifbe (u32 (intrev32ifbe t + nextdiff)))
      else Some zl
    else set_ZIPLIST_TAIL_OFFSET zl (intrev32ifbe (u32 p)));
  zl ← (if negb (nextdiff =? 0) then __ziplistCascadeUpdate zl (p + reqlen) else Some zl);
  '(zl, n) ← zipPrevEncodeLength zl (Some p) prevlen;
  let p := p + n in
  '(zl, n) ← zipEncodeLength zl (Some p) encoding (u32 (len s));
  let p := p + n in
  zl ← (if ZIP_IS_STR encoding then memcpy zl s p 0 (u32 (len s)) else zipSaveInteger zl p value encoding);
  ZIPLIST_INCR_LENGTH zl 1.

Definition ziplistPush zl (s : list Z) (where_ : Z) : option (list Z) :=
  p ← (if where_ =? ZIPLIST_HEAD then Some ZIPLIST_HEADER_SIZE else ZIPLIST_ENTRY_END zl);
  __ziplistInsert zl p s.

Definition ziplistInsert zl (p : Z) (s : list Z) : option (list Z) := __ziplistInsert zl p s.

(** ** Navigation *)

(** [while (prevlen > 0 && index--)], towards the head. *)
Fixpoint index_back (fuel : nat) zl (p prevlen index : Z) : option (Z * Z) :=
  if prevlen >? 0 then
    if negb (index =? 0) then
      match fuel with
      | O => None
      | S fuel =>
          let p := p - prevlen in
          '(_, prevlen) ← ZIP_DECODE_PREVLEN zl p;
          index_back fuel zl p prevlen (index - 1)
      end
    else Some (p, index - 1)
  else Some (p, index).

(** [while (p[0] != ZIP_END && index--)] *)
Fixpoint index_forward (fuel : nat) zl (p index : Z) : option (Z * Z) :=
  b ← mget zl p;
  if negb (b =? ZIP_END) then
    if negb (index =? 0) then
      match fuel with
      | O => None
      | S fuel => n ← zipRawEntryLength zl p; index_forward fuel zl (p + n) (index - 1)
      end
    else Some (p, index - 1)
  else Some (p, index).

(** [NULL] is the inner [None]. *)
Definition ziplistIndex zl (index : Z) : option (option Z) :=
  '(p, index) ← (if index <? 0 then
      let index := - index - 1 in
      p ← ZIPLIST_ENTRY_TAIL zl;
      b ← mget zl p;
      if negb (b =? ZIP_END) then
        '(_, prevlen) ← ZIP_DECODE_PREVLEN zl p;
        index_back (length zl) zl p prevlen index
      else Some (p, index)
    else index_forward (length zl) zl ZIPLIST_HEADER_SIZE index);
  b ← mget zl p;
  Some (if (b =? ZIP_END) || (index >? 0) then None else Some p).

Definition ziplistNext zl (p : Z) : option (option Z) :=
  b ← mget zl p;
  if b =? ZIP_END then Some None
  else
    n ← zipRawEntryLength zl p;
    let p := p + n in
    b ← mget zl p;
    Some (if b =? ZIP_END then None else Some p).

Definition ziplistPrev zl (p : Z) : option (option Z) :=
  b ← mget zl p;
  if b =? ZIP_END then
    p ← ZIPLIST_ENTRY_TAIL zl;
    b ← mget zl p;
    Some (if b =? ZIP_END then None else Some p)
  else if p =? ZIPLIST_HEADER_SIZE then Some None
  else
    '(_, prevlen) ← ZIP_DECODE_PREVLEN zl p;
    if prevlen >? 0 then Some (Some (p - prevlen)) else None.

(** What [ziplistGet] stores: [*sstr] and [*slen], or [*sval]. *)
Inductive zlvalue := ZStr (sstr : Z) (slen : Z) | ZInt (sval : Z).

Definition ziplistGet zl (p : Z) : option (option zlvalue) :=
  b ← mget zl p;
  if b =? ZIP_END then Some None
  else
    entry ← zipEntry zl p;
    if ZIP_IS_STR (eencoding entry) then Some (Some (ZStr (p + headersize entry) (elen entry)))
    else v ← zipLoadInteger zl (p + headersize entry) (eencoding entry); Some (Some (ZInt v)).

(** Returns the list and the value of [*p] afterwards. *)
Definition ziplistDelete zl (p : Z) : option (list Z * Z) :=
  zl ← __ziplistDelete zl p 1; Some (zl, p).

(** [index] is unsigned here, and converted to [int] by the call. *)
Definition ziplistDeleteRange zl (index num : Z) : option (list Z) :=
  p ← ziplistIndex zl (s32 index);
  match p with
  | None => Some zl
  | Some p => __ziplistDelete zl p num
  end.

Definition memequal (a b : list Z) : bool := bool_decide (a = b).

Definition ziplistCompare zl (p : Z) (sstr : list Z) : option bool :=
  b ← mget zl p;
  if b =? ZIP_END then Some false
  else
    entry ← zipEntry zl p;
    if ZIP_IS_STR (eencoding entry) then
      if elen entry =? len sstr then
        bs ← mread zl (p + headersize entry) (len sstr); Some (memequal bs sstr)
      else Some false
    else
      match zipTryEncoding sstr with
      | Some (sval, _) => zval ← zipLoadInteger zl (p + headersize entry) (eencoding entry); Some (zval =? sval)
      | None => Some false
      end.

(** [vencoding] and [vll] are computed at the first integer entry compared;
    [skip] is the unsigned argument as the [int] that [skipcnt] is set to. *)
Fixpoint find_loop (fuel : nat) zl (p : Z) (vstr : list Z) (skip skipcnt vencoding vll : Z) : option (option Z) :=
  b ← mget zl p;
  if negb (b =? ZIP_END) then
    prevlensize ← ZIP_DECODE_PREVLENSIZE zl p;
    '(encoding, lensize, elen) ← ZIP_DECODE_LENGTH zl (p + prevlensize);
    let q := p + prevlensize + lensize in
    '(found, skipcnt, vencoding, vll) ←
      (if skipcnt =? 0 then
         if ZIP_IS_STR encoding then
           if elen =? len vstr then
             bs ← mread zl q (len vstr); Some (memequal bs vstr, skip, vencoding, vll)
           else Some (false, skip, vencoding, vll)
         else
           let '(vencoding, vll) :=
             if vencoding =? 0 then
               match zipTryEncoding vstr with
               | Some (v, e) => (e, v)
               | None => (UCHAR_MAX, vll)
               end
             else (vencoding, vll) in
           if negb (vencoding =? UCHAR_MAX) then
             ll ← zipLoadInteger zl q encoding; Some (ll =? vll, skip, vencoding, vll)
           else Some (false, skip, vencoding, vll)
       else Some (false, skipcnt - 1, vencoding, vll));
    if (found : bool) then Some (Some p)
    else
      match fuel with
      | O => None
      | S fuel => find_loop fuel zl (q + elen) vstr skip skipcnt vencoding vll
      end
  else Some None.

Definition ziplistFind zl (p : Z) (vstr : list Z) (skip : Z) : option (option Z) :=
  find_loop (length zl) zl p vstr (s32 skip) 0 0 0.

Fixpoint count_loop (fuel : nat) zl (p n : Z) : option Z :=
  b ← mget zl p;
  if negb (b =? ZIP_END) then
    match fuel with
    | O => None
    | S fuel => l ← zipRawEntryLength zl p; count_loop fuel zl (p + l) (u32 (n + 1))
    end
  else Some n.

(** Returns the length, and the list with the length restored when it fits. *)
Definition ziplistLen zl : option (list Z * Z) :=
  l ← ZIPLIST_LENGTH zl;
  if intrev16ifbe l <? UINT16_MAX then Some (zl, intrev16ifbe l)
  else
    n ← count_loop (length zl) zl ZIPLIST_HEADER_SIZE 0;
    if n <? UINT16_MAX then zl ← set_ZIPLIST_LENGTH zl (intrev16ifbe n); Some (zl, n) else Some (zl, n).

Definition ziplistBlobLen zl : option Z := b ← ZIPLIST_BYTES zl; Some (intrev32ifbe b).
End ziplist_ops.
