(* ===== verification/ZiplistSpec.v ===== *)
(** * Correctness of ziplists: entries and their layout

    [zl_rep zl es] says that the bytes [zl] are the header, the entries [es]
    laid out one after the other, and the end byte.  An entry is a value (a
    string, or an integer with its encoding) and the width of the field that
    holds the length of the entry before it, one or five bytes. *)

From S2P Require Import Prelude Endian Util Ziplist.
From stdpp Require Import sets.
Local Open Scope Z_scope.

(** ** Words in memory *)

Section words.
Context `{Host}.

Lemma le_bytes_u32 v : le_bytes 4 (u32 v) = le_bytes 4 v.
Proof.
  rewrite <- (le_bytes_val (le_bytes 4 v)) by (apply le_bytes_range; lia).
  rewrite le_val_bytes, le_bytes_length by lia. done.
Qed.

Lemma le_bytes_u16 v : le_bytes 2 (u16 v) = le_bytes 2 v.
Proof.
  rewrite <- (le_bytes_val (le_bytes 2 v)) by (apply le_bytes_range; lia).
  rewrite le_val_bytes, le_bytes_length by lia. done.
Qed.

Lemma host_bytes_intrev32ifbe v : host_bytes 4 (intrev32ifbe (u32 v)) = le_bytes 4 v.
Proof.
  unfold host_bytes, intrev32ifbe. destruct big_endian; [|apply le_bytes_u32].
  rewrite intrev32_rev, le_bytes_u32. pose proof (le_bytes_length 4 v ltac:(lia)) as Hl.
  replace 4 with (len (reverse (le_bytes 4 v))) at 1 by (rewrite length_reverse; lia).
  rewrite le_bytes_val; [apply reverse_involutive|]. apply Forall_reverse. by apply le_bytes_range.
Qed.

Lemma intrev16_rev v : intrev16 v = le_val (reverse (le_bytes 2 v)).
Proof.
  unfold intrev16. rewrite memrev16_reverse by (rewrite host_bytes_length; lia). simpl.
  unfold host_val, host_bytes. by destruct big_endian; rewrite ?reverse_involutive.
Qed.

Lemma host_bytes_intrev16ifbe v : host_bytes 2 (intrev16ifbe (u16 v)) = le_bytes 2 v.
Proof.
  unfold host_bytes, intrev16ifbe. destruct big_endian; [|apply le_bytes_u16].
  rewrite intrev16_rev, le_bytes_u16. pose proof (le_bytes_length 2 v ltac:(lia)) as Hl.
  replace 2 with (len (reverse (le_bytes 2 v))) at 1 by (rewrite length_reverse; lia).
  rewrite le_bytes_val; [apply reverse_involutive|]. apply Forall_reverse. by apply le_bytes_range.
Qed.

Lemma intrev32ifbe_host_val v : intrev32ifbe (host_val (le_bytes 4 v)) = u32 v.
Proof.
  unfold host_val, intrev32ifbe. destruct big_endian; [|by rewrite le_val_bytes].
  pose proof (le_bytes_length 4 v ltac:(lia)) as Hl. rewrite intrev32_rev.
  replace 4 with (len (reverse (le_bytes 4 v))) at 1 by (rewrite length_reverse; lia).
  rewrite le_bytes_val; [by rewrite reverse_involutive, le_val_bytes|]. apply Forall_reverse. by apply le_bytes_range.
Qed.

Lemma intrev16ifbe_host_val v : intrev16ifbe (host_val (le_bytes 2 v)) = u16 v.
Proof.
  unfold host_val, intrev16ifbe. destruct big_endian; [|by rewrite le_val_bytes].
  pose proof (le_bytes_length 2 v ltac:(lia)) as Hl. rewrite intrev16_rev.
  replace 2 with (len (reverse (le_bytes 2 v))) at 1 by (rewrite length_reverse; lia).
  rewrite le_bytes_val; [by rewrite reverse_involutive, le_val_bytes|]. apply Forall_reverse. by apply le_bytes_range.
Qed.

(** [0xffff] reads the same in both byte orders. *)
Lemma host_val_max v : 0 ≤ v < 2 ^ 16 → (host_val (le_bytes 2 v) <? UINT16_MAX) = (v <? UINT16_MAX).
Proof.
  intros Hv. unfold host_val, UINT16_MAX.
  assert (le_bytes 2 v = [v mod 256; v / 256]) as E.
  { rewrite <- (le_bytes_val [v mod 256; v / 256]).
    - f_equal. unfold le_val. cbn. rewrite Z.shiftl_0_l, Z.lor_0_r. 
      rewrite Z.lor_comm, Z.shiftl_mul_pow2, lor_low by (try lia; apply Z.mod_pos_bound; lia).
      pose proof (Z.div_mod v 256). lia.
    - repeat constructor; Z.to_euclidean_division_equations; lia. }
  rewrite E. destruct big_endian; [|rewrite <- E, le_val_bytes, uwrap_small by lia; done].
  change (reverse [v mod 256; v / 256]) with [v / 256; v mod 256].
  unfold le_val. cbn. rewrite Z.shiftl_0_l, Z.lor_0_r, Z.lor_comm, Z.shiftl_mul_pow2, lor_low
    by (try lia; Z.to_euclidean_division_equations; lia).
  change (2 ^ 8) with 256. destruct (Z.ltb_spec v 65535), (Z.ltb_spec (v mod 256 * 256 + v / 256) 65535); try done;
    Z.to_euclidean_division_equations; lia.
Qed.

(** [memcpy] of an object followed by [memrevNifbe] stores it little endian. *)
Lemma store_rev_ok m1 old m3 p n rev v :
  (∀ v, rev (host_bytes n v) = Some (le_bytes n v)) → 0 ≤ n → p = len m1 → len old = n →
  store_rev (m1 ++ old ++ m3) p n rev v = Some (m1 ++ le_bytes n v ++ m3).
Proof.
  intros Hrev Hn -> Hold. unfold store_rev. pose proof (host_bytes_length n v Hn) as Hh. pose proof (le_bytes_length n v Hn) as Hl.
  rewrite mwrite_app by lia. bsimpl. rewrite mread_app by lia. bsimpl. rewrite Hrev. bsimpl. apply mwrite_app; lia.
Qed.
End words.

(** ** Values and entries *)

Inductive zval := VStr (bs : list Z) | VInt (e v : Z).

(** The integers an encoding can hold. *)
Definition int_ok (e v : Z) : Prop :=
  (e = ZIP_INT_8B ∧ - 2 ^ 7 ≤ v < 2 ^ 7) ∨ (e = ZIP_INT_16B ∧ - 2 ^ 15 ≤ v < 2 ^ 15) ∨
  (e = ZIP_INT_24B ∧ - 2 ^ 23 ≤ v < 2 ^ 23) ∨ (e = ZIP_INT_32B ∧ - 2 ^ 31 ≤ v < 2 ^ 31) ∨
  (e = ZIP_INT_64B ∧ - 2 ^ 63 ≤ v < 2 ^ 63) ∨ (ZIP_INT_IMM_MIN ≤ e ≤ ZIP_INT_IMM_MAX ∧ v = e - ZIP_INT_IMM_MIN).

Definition val_ok (v : zval) : Prop :=
  match v with VStr bs => len bs < 2 ^ 32 | VInt e v => int_ok e v end.

(** The encoding as [ZIP_DECODE_LENGTH] reports it. *)
Definition str_enc (n : Z) : Z :=
  if n <=? 0x3f then ZIP_STR_06B else if n <=? 0x3fff then ZIP_STR_14B else ZIP_STR_32B.
Definition venc (v : zval) : Z := match v with VStr bs => str_enc (len bs) | VInt e _ => e end.
Definition vhead (v : zval) : list Z :=
  match v with VStr bs => length_bytes 0 (len bs) | VInt e _ => length_bytes e 0 end.
Definition vbody (v : zval) : list Z :=
  match v with VStr bs => bs | VInt e v => le_bytes (zipIntSize e) v end.
Definition vbytes (v : zval) : list Z := vhead v ++ vbody v.

Lemma int_ok_cases e v : int_ok e v → e ∈ [0xfe; 0xc0; 0xf0; 0xd0; 0xe0] ++ seqZ 0xf1 13.
Proof.
  intros [[-> _]|[[-> _]|[[-> _]|[[-> _]|[[-> _]|[He _]]]]]]; [set_solver..|].
  apply elem_of_app. right. apply elem_of_seqZ. unfold ZIP_INT_IMM_MIN, ZIP_INT_IMM_MAX in He. lia.
Qed.

(** A decidable fact about the encodings of integers, by enumeration. *)
Lemma int_enc_facts e v :
  int_ok e v → ZIP_IS_STR e = false ∧ ZIP_STR_MASK ≤ e < 255 ∧ 0 ≤ zipIntSize e ≤ 8 ∧ u8 e = e.
Proof.
  intros He%int_ok_cases. revert e He. apply Forall_forall.
  repeat (apply Forall_cons; split; [vm_compute; intuition congruence|]). apply Forall_nil_2.
Qed.

Lemma vhead_int e v : int_ok e v → vhead (VInt e v) = [e].
Proof. intros Hi. destruct (int_enc_facts e v Hi) as (Hs & _). unfold vhead, length_bytes. by rewrite Hs. Qed.

Lemma vbody_int_len e v : int_ok e v → len (vbody (VInt e v)) = zipIntSize e.
Proof. intros Hi. destruct (int_enc_facts e v Hi) as (_ & _ & Hs & _). apply le_bytes_length. lia. Qed.

Section decoding.
Context `{Host}.
Implicit Types zl pre post : list Z.

Lemma land_3f z : Z.land z 0x3f = z mod 64.
Proof. change 0x3f with (2 ^ 6 - 1). by rewrite land_mask. Qed.
Lemma land_ff z : Z.land z 0xff = z mod 256.
Proof. change 0xff with (2 ^ 8 - 1). by rewrite land_mask. Qed.
Lemma lor_14b z : 0 ≤ z < 64 → Z.lor ZIP_STR_14B z = 64 + z.
Proof. intros. change ZIP_STR_14B with (1 * 2 ^ 6). rewrite lor_low; lia. Qed.
Lemma lor_06b z : Z.lor ZIP_STR_06B z = z.
Proof. apply Z.lor_0_l. Qed.

Lemma land_c0 b : 0 ≤ b < 256 → Z.land b 0xc0 = 64 * (b / 64).
Proof.
  intros Hb. assert (b ∈ seqZ 0 256) as Hin by (apply elem_of_seqZ; lia). revert b Hb Hin.
  enough (Forall (λ b, Z.land b 0xc0 = 64 * (b / 64)) (seqZ 0 256)) as Ha by (intros; by rewrite Forall_forall in Ha; apply Ha).
  apply (bool_decide_unpack _). vm_compute. done.
Qed.

(** The four bytes of a big-endian length. *)
Lemma be32_value n : 0 ≤ n < 2 ^ 32 →
  Z.lor (Z.lor (Z.lor (Z.shiftl (n / 2 ^ 24 mod 256) 24) (Z.shiftl (n / 2 ^ 16 mod 256) 16))
    (Z.shiftl (n / 2 ^ 8 mod 256) 8)) (n mod 256) = n.
Proof.
  intros Hn. rewrite !Z.shiftl_mul_pow2 by lia.
  pose proof (Z.mod_pos_bound (n / 2 ^ 16) 256). pose proof (Z.mod_pos_bound (n / 2 ^ 8) 256).
  pose proof (Z.mod_pos_bound n 256).
  rewrite lor_low by lia.
  replace (n / 2 ^ 24 mod 256 * 2 ^ 24 + n / 2 ^ 16 mod 256 * 2 ^ 16)
    with ((n / 2 ^ 24 mod 256 * 2 ^ 8 + n / 2 ^ 16 mod 256) * 2 ^ 16) by lia.
  rewrite lor_low by lia.
  replace ((n / 2 ^ 24 mod 256 * 2 ^ 8 + n / 2 ^ 16 mod 256) * 2 ^ 16 + n / 2 ^ 8 mod 256 * 2 ^ 8)
    with (((n / 2 ^ 24 mod 256 * 2 ^ 8 + n / 2 ^ 16 mod 256) * 2 ^ 8 + n / 2 ^ 8 mod 256) * 2 ^ 8) by lia.
  rewrite lor_low by lia. Z.to_euclidean_division_equations; lia.
Qed.

(** Reading back what [length_bytes] wrote. *)
Lemma decode_length_ok pre v post ptr :
  val_ok v → ptr = len pre →
  ZIP_DECODE_LENGTH (pre ++ vhead v ++ post) ptr = Some (venc v, len (vhead v), len (vbody v)).
Proof.
  intros Hv ->. unfold ZIP_DECODE_LENGTH, ZIP_ENTRY_ENCODING. destruct v as [bs|e v].
  - cbn [val_ok] in Hv. unfold vhead, venc, str_enc, length_bytes. change (ZIP_IS_STR 0) with true. cbv iota. cbn [vbody].
    set (n := len bs) in *. assert (0 ≤ n) by lia. destruct (Z.leb_spec n 0x3f) as [H1|H1]; [|destruct (Z.leb_spec n 0x3fff) as [H2|H2]].
    + rewrite lor_06b, uwrap_small by lia. cbn [app]. rewrite mget_app by done. bsimpl.
      unfold ZIP_STR_MASK. rewrite (proj2 (Z.ltb_lt n 192)) by lia. rewrite land_c0, Z.div_small by lia.
      change (64 * 0) with 0. cbn [Z.ltb Z.compare]. change (0 =? ZIP_STR_06B) with true. cbv iota.
      by rewrite land_3f, Z.mod_small by lia.
    + rewrite Z.shiftr_div_pow2, land_3f, Z.mod_small, lor_14b, uwrap_small by (Z.to_euclidean_division_equations; lia).
      rewrite land_ff. set (l := [_; _]). rewrite (mget_at pre l post 0 (len pre) (64 + n / 2 ^ 8)) by (reflexivity || lia). bsimpl. unfold ZIP_STR_MASK.
      assert (1 ≤ n / 2 ^ 8 + 1 ≤ 64) as Hd by (Z.to_euclidean_division_equations; lia).
      assert ((64 + n / 2 ^ 8) / 64 = 1) as Hq by (Z.to_euclidean_division_equations; lia).
      rewrite (proj2 (Z.ltb_lt (64 + _) 192)) by lia. rewrite land_c0, Hq by lia. change (64 * 1 <? 192) with true. cbv iota.
      change (64 * 1 =? ZIP_STR_06B) with false. change (64 * 1 =? ZIP_STR_14B) with true. cbv iota.
      rewrite (mget_at pre l post 1 (len pre + 1) (n mod 256)) by (reflexivity || lia). bsimpl. do 2 f_equal.
      rewrite land_3f, Z.shiftl_mul_pow2, lor_low by (try lia; apply Z.mod_pos_bound; lia).
      Z.to_euclidean_division_equations; lia.
    + set (l := [_; _; _; _; _]). rewrite (mget_at pre l post 0 (len pre) ZIP_STR_32B) by (reflexivity || lia). bsimpl.
      change (ZIP_STR_32B <? ZIP_STR_MASK) with true. cbv iota.
      change (Z.land ZIP_STR_32B ZIP_STR_MASK) with ZIP_STR_32B. change (ZIP_STR_32B <? ZIP_STR_MASK) with true. cbv iota.
      change (ZIP_STR_32B =? ZIP_STR_06B) with false. change (ZIP_STR_32B =? ZIP_STR_14B) with false.
      change (ZIP_STR_32B =? ZIP_STR_32B) with true. cbv iota.
      rewrite (mget_at pre l post 1 (len pre + 1) (Z.land (Z.shiftr n 24) 0xff)) by (reflexivity || lia). bsimpl.
      rewrite (mget_at pre l post 2 (len pre + 2) (Z.land (Z.shiftr n 16) 0xff)) by (reflexivity || lia). bsimpl.
      rewrite (mget_at pre l post 3 (len pre + 3) (Z.land (Z.shiftr n 8) 0xff)) by (reflexivity || lia). bsimpl.
      rewrite (mget_at pre l post 4 (len pre + 4) (Z.land n 0xff)) by (reflexivity || lia). bsimpl.
      rewrite !land_ff, !Z.shiftr_div_pow2, be32_value, uwrap_small by lia. done.
  - cbn [val_ok] in Hv. destruct (int_enc_facts e v Hv) as (Hs & He & Hz & _). rewrite vhead_int, vbody_int_len by done. cbn [app length venc].
    rewrite mget_app by done. bsimpl. by rewrite !(proj2 (Z.ltb_ge e ZIP_STR_MASK)) by lia.
Qed.

(** ** The length of the previous entry *)

Definition prev_bytes (ps l : Z) : list Z := if ps =? 1 then [l] else ZIP_BIGLEN :: le_bytes 4 l.
Definition prev_size (l : Z) : Z := if l <? ZIP_BIGLEN then 1 else 5.
Definition prev_ok (ps l : Z) : Prop := (ps = 1 ∧ 0 ≤ l < ZIP_BIGLEN) ∨ (ps = 5 ∧ 0 ≤ l < 2 ^ 32).

Lemma prev_bytes_length ps l : ps = 1 ∨ ps = 5 → len (prev_bytes ps l) = ps.
Proof.
  intros [-> | ->]; [done|]. unfold prev_bytes. change (5 =? 1) with false. cbv iota. cbn [length].
  pose proof (le_bytes_length 4 l). lia.
Qed.

Lemma prev_ok_size ps l : prev_ok ps l → ps = 1 ∨ ps = 5.
Proof. intros [[-> _]|[-> _]]; [by left|by right]. Qed.

Lemma prev_size_cases l : prev_size l = 1 ∨ prev_size l = 5.
Proof. unfold prev_size. destruct (l <? ZIP_BIGLEN); [by left|by right]. Qed.

Lemma prev_size_ok l : 0 ≤ l < 2 ^ 32 → prev_ok (prev_size l) l.
Proof. intros. unfold prev_size, prev_ok, ZIP_BIGLEN. destruct (Z.ltb_spec l 254); [left|right]; lia. Qed.

Lemma prev_bytes_head ps l : prev_ok ps l → ∃ b rest, prev_bytes ps l = b :: rest ∧ 0 ≤ b < 255 ∧ (b <? ZIP_BIGLEN) = (ps =? 1).
Proof.
  intros [[-> Hl]|[-> Hl]]; unfold prev_bytes, ZIP_BIGLEN in *.
  - exists l, []. split; [done|]. split; [lia|]. change (1 =? 1) with true. apply Z.ltb_lt. lia.
  - exists 254, (le_bytes 4 l). split; [done|]. split; [lia|done].
Qed.

Lemma decode_prevlensize_ok pre ps l post p :
  prev_ok ps l → p = len pre → ZIP_DECODE_PREVLENSIZE (pre ++ prev_bytes ps l ++ post) p = Some ps.
Proof.
  intros Hok ->. destruct (prev_bytes_head ps l Hok) as (b & rest & -> & Hb & Hlt). unfold ZIP_DECODE_PREVLENSIZE. cbn [app].
  rewrite mget_app by done. bsimpl. rewrite Hlt. destruct Hok as [[-> _]|[-> _]]; done.
Qed.

Lemma decode_prevlen_ok pre ps l post p :
  prev_ok ps l → p = len pre → ZIP_DECODE_PREVLEN (pre ++ prev_bytes ps l ++ post) p = Some (ps, l).
Proof.
  intros Hok Hp. unfold ZIP_DECODE_PREVLEN. rewrite (decode_prevlensize_ok _ _ _ _ _ Hok Hp). bsimpl.
  destruct Hok as [[-> Hl]|[-> Hl]]; unfold prev_bytes.
  - change (1 =? 1) with true. cbv iota. cbn [app]. by rewrite mget_app by done.
  - change (5 =? 1) with false. cbv iota.
    replace (pre ++ (ZIP_BIGLEN :: le_bytes 4 l) ++ post) with ((pre ++ [ZIP_BIGLEN]) ++ le_bytes 4 l ++ post)
      by (by rewrite <- !app_assoc).
    rewrite mread_app by (rewrite ?le_bytes_length, ?length_app; cbn [length]; lia). bsimpl.
    rewrite memrev32ifbe_le. bsimpl. by rewrite host_val_bytes, uwrap_small by lia.
Qed.

Lemma entry_byte pre ps l post p :
  prev_ok ps l → p = len pre → ∃ b, mget (pre ++ prev_bytes ps l ++ post) p = Some b ∧ (b =? ZIP_END) = false.
Proof.
  intros Hok ->. destruct (prev_bytes_head ps l Hok) as (b & rest & -> & Hb & _). exists b. cbn [app].
  rewrite mget_app by done. split; [done|]. apply Z.eqb_neq. unfold ZIP_END. lia.
Qed.

Lemma encode_prev_ok m1 old m3 p l :
  0 ≤ l < 2 ^ 32 → p = len m1 → len old = prev_size l →
  zipPrevEncodeLength (m1 ++ old ++ m3) (Some p) l = Some (m1 ++ prev_bytes (prev_size l) l ++ m3, prev_size l).
Proof.
  intros Hl -> Hold. unfold zipPrevEncodeLength, prev_bytes. cbv zeta. rewrite uwrap_small by lia. unfold prev_size in *.
  destruct (l <? ZIP_BIGLEN).
  - destruct old as [|o [|]]; cbn [length] in Hold; try lia. cbn [app]. by rewrite mset_app by done.
  - destruct old as [|o old]; cbn [length] in Hold; [lia|]. cbn [app]. rewrite mset_app by done. bsimpl.
    replace (m1 ++ ZIP_BIGLEN :: old ++ m3) with ((m1 ++ [ZIP_BIGLEN]) ++ old ++ m3) by (by rewrite <- app_assoc).
    rewrite (store_rev_ok _ _ _ _ _ _ _ memrev32ifbe_host) by (rewrite ?length_app; cbn [length]; lia). bsimpl.
    change (5 =? 1) with false. cbv iota. by rewrite <- app_assoc.
Qed.

Lemma encode_prev_large_ok m1 old m3 p l :
  0 ≤ l < 2 ^ 32 → p = len m1 → len old = 5 →
  zipPrevEncodeLengthForceLarge (m1 ++ old ++ m3) p l = Some (m1 ++ prev_bytes 5 l ++ m3).
Proof.
  intros Hl -> Hold. unfold zipPrevEncodeLengthForceLarge, prev_bytes. cbv zeta. rewrite uwrap_small by lia.
  destruct old as [|o old]; cbn [length] in Hold; [lia|]. cbn [app]. rewrite mset_app by done. bsimpl.
  replace (m1 ++ ZIP_BIGLEN :: old ++ m3) with ((m1 ++ [ZIP_BIGLEN]) ++ old ++ m3) by (by rewrite <- app_assoc).
  rewrite (store_rev_ok _ _ _ _ _ _ _ memrev32ifbe_host) by (rewrite ?length_app; cbn [length]; lia).
  change (5 =? 1) with false. cbv iota. by rewrite <- app_assoc.
Qed.

Lemma encode_prev_none zl l : 0 ≤ l < 2 ^ 32 → zipPrevEncodeLength zl None l = Some (zl, prev_size l).
Proof. intros. unfold zipPrevEncodeLength, prev_size. by rewrite uwrap_small by lia. Qed.

(** ** Integers *)

Lemma le_bytes_succ n v : 0 ≤ n → le_bytes (n + 1) (v * 256) = 0 :: le_bytes n v.
Proof.
  intros. unfold le_bytes. change (n + 1) with (Z.succ n). rewrite Z_to_little_endian_succ by lia.
  change (Z.ones 8) with (2 ^ 8 - 1). rewrite land_mask by lia. f_equal.
  - apply (Z.mod_mul v 256). lia.
  - f_equal. rewrite Z.shiftr_div_pow2 by lia. apply (Z.div_mul v 256). lia.
Qed.

Lemma imm_facts e :
  ZIP_INT_IMM_MIN ≤ e ≤ ZIP_INT_IMM_MAX →
  zipIntSize e = 0 ∧ (e =? ZIP_INT_8B) = false ∧ (e =? ZIP_INT_16B) = false ∧ (e =? ZIP_INT_24B) = false ∧
  (e =? ZIP_INT_32B) = false ∧ (e =? ZIP_INT_64B) = false ∧ (e >=? ZIP_INT_IMM_MIN) && (e <=? ZIP_INT_IMM_MAX) = true ∧
  Z.land e ZIP_INT_IMM_MASK - 1 = e - ZIP_INT_IMM_MIN.
Proof.
  intros He. assert (e ∈ seqZ 0xf1 13) as Hin by (apply elem_of_seqZ; unfold ZIP_INT_IMM_MIN, ZIP_INT_IMM_MAX in *; lia).
  clear He. revert e Hin. apply Forall_forall. repeat (apply Forall_cons; split; [vm_compute; repeat split|]). apply Forall_nil_2.
Qed.

Lemma save_integer_ok m1 old m3 p e v :
  int_ok e v → p = len m1 → len old = zipIntSize e →
  zipSaveInteger (m1 ++ old ++ m3) p v e = Some (m1 ++ vbody (VInt e v) ++ m3).
Proof.
  intros Hi Hp Hold. cbn [vbody]. unfold zipSaveInteger.
  destruct Hi as [[-> Hv]|[[-> Hv]|[[-> Hv]|[[-> Hv]|[[-> Hv]|[He ->]]]]]].
  - cbn [Z.eqb] in *. change (zipIntSize ZIP_INT_8B) with 1 in *. change (ZIP_INT_8B =? ZIP_INT_8B) with true. cbv iota.
    destruct old as [|o [|]]; cbn [length] in Hold; try lia. cbn [app]. rewrite mset_app by done. do 2 f_equal.
    change 1 with (Z.succ 0). unfold le_bytes. rewrite Z_to_little_endian_succ by lia. cbn [app]. f_equal.
    change (Z.ones 8) with (2 ^ 8 - 1). by rewrite land_mask by lia.
  - change (zipIntSize ZIP_INT_16B) with 2 in *. change (ZIP_INT_16B =? ZIP_INT_8B) with false.
    change (ZIP_INT_16B =? ZIP_INT_16B) with true. cbv iota.
    by rewrite (store_rev_ok _ _ _ _ _ _ _ memrev16ifbe_host) by lia.
  - change (zipIntSize ZIP_INT_24B) with 3 in *. change (ZIP_INT_24B =? ZIP_INT_8B) with false.
    change (ZIP_INT_24B =? ZIP_INT_16B) with false. change (ZIP_INT_24B =? ZIP_INT_24B) with true. cbv iota.
    rewrite memrev32ifbe_host. bsimpl. unfold memcpy. rewrite Z.shiftl_mul_pow2 by lia. change (2 ^ 8) with 256.
    change 4 with (3 + 1). rewrite le_bytes_succ by lia. pose proof (le_bytes_length 3 v ltac:(lia)) as Hl.
    pose proof (mread_app [0] (le_bytes 3 v) [] 1 3) as E. rewrite app_nil_r in E. cbn [app length] in E. rewrite E by lia. bsimpl.
    apply mwrite_app; lia.
  - change (zipIntSize ZIP_INT_32B) with 4 in *. change (ZIP_INT_32B =? ZIP_INT_8B) with false.
    change (ZIP_INT_32B =? ZIP_INT_16B) with false. change (ZIP_INT_32B =? ZIP_INT_24B) with false.
    change (ZIP_INT_32B =? ZIP_INT_32B) with true. cbv iota.
    by rewrite (store_rev_ok _ _ _ _ _ _ _ memrev32ifbe_host) by lia.
  - change (zipIntSize ZIP_INT_64B) with 8 in *. change (ZIP_INT_64B =? ZIP_INT_8B) with false.
    change (ZIP_INT_64B =? ZIP_INT_16B) with false. change (ZIP_INT_64B =? ZIP_INT_24B) with false.
    change (ZIP_INT_64B =? ZIP_INT_32B) with false. change (ZIP_INT_64B =? ZIP_INT_64B) with true. cbv iota.
    by rewrite (store_rev_ok _ _ _ _ _ _ _ memrev64ifbe_host) by lia.
  - destruct (imm_facts e He) as (Hz & -> & -> & -> & -> & -> & -> & _).
    rewrite Hz in *. destruct old; [done|]. cbn [length] in Hold. lia.
Qed.
End decoding.

(** ** Reading entries *)

Section entries.
Context `{Host}.
Implicit Types pre post : list Z.

Lemma host_bytes_zero : host_bytes 4 0 = [0; 0; 0; 0].
Proof. unfold host_bytes. destruct big_endian; reflexivity. Qed.

Lemma load_integer_ok m1 m3 p e v :
  int_ok e v → p = len m1 → zipLoadInteger (m1 ++ vbody (VInt e v) ++ m3) p e = Some v.
Proof.
  intros Hi ->. cbn [vbody]. unfold zipLoadInteger.
  destruct Hi as [[-> Hv]|[[-> Hv]|[[-> Hv]|[[-> Hv]|[[-> Hv]|[He ->]]]]]].
  - change (zipIntSize ZIP_INT_8B) with 1. change (ZIP_INT_8B =? ZIP_INT_8B) with true. cbv iota.
    change 1 with (Z.succ 0). unfold le_bytes. rewrite Z_to_little_endian_succ by lia. cbn [app]. rewrite mget_app by done. bsimpl.
    change (Z.ones 8) with (2 ^ 8 - 1). rewrite land_mask by lia. f_equal. by apply swrap_of_uwrap.
  - change (zipIntSize ZIP_INT_16B) with 2. change (ZIP_INT_16B =? ZIP_INT_8B) with false.
    change (ZIP_INT_16B =? ZIP_INT_16B) with true. cbv iota.
    rewrite mread_app by (rewrite ?le_bytes_length; lia). bsimpl. rewrite memrev16ifbe_le. bsimpl.
    rewrite host_val_bytes by lia. f_equal. by apply swrap_of_uwrap.
  - change (zipIntSize ZIP_INT_24B) with 3. change (ZIP_INT_24B =? ZIP_INT_8B) with false.
    change (ZIP_INT_24B =? ZIP_INT_16B) with false. change (ZIP_INT_24B =? ZIP_INT_32B) with false.
    change (ZIP_INT_24B =? ZIP_INT_24B) with true. cbv iota. unfold memcpy.
    pose proof (le_bytes_length 3 v ltac:(lia)) as Hl. rewrite mread_app by lia. bsimpl. rewrite host_bytes_zero.
    pose proof (mwrite_app [0] [0; 0; 0] [] (le_bytes 3 v) 1) as E. rewrite !app_nil_r in E. cbn [app length] in E. rewrite E by lia. bsimpl.
    rewrite <- le_bytes_succ by lia. change (3 + 1) with 4. rewrite memrev32ifbe_le. bsimpl. rewrite host_val_bytes by lia.
    rewrite swrap_of_uwrap by lia. rewrite Z.shiftr_div_pow2 by lia. f_equal. apply (Z.div_mul v 256). lia.
  - change (zipIntSize ZIP_INT_32B) with 4. change (ZIP_INT_32B =? ZIP_INT_8B) with false.
    change (ZIP_INT_32B =? ZIP_INT_16B) with false. change (ZIP_INT_32B =? ZIP_INT_32B) with true. cbv iota.
    rewrite mread_app by (rewrite ?le_bytes_length; lia). bsimpl. rewrite memrev32ifbe_le. bsimpl.
    rewrite host_val_bytes by lia. f_equal. by apply swrap_of_uwrap.
  - change (zipIntSize ZIP_INT_64B) with 8. change (ZIP_INT_64B =? ZIP_INT_8B) with false.
    change (ZIP_INT_64B =? ZIP_INT_16B) with false. change (ZIP_INT_64B =? ZIP_INT_24B) with false.
    change (ZIP_INT_64B =? ZIP_INT_32B) with false. change (ZIP_INT_64B =? ZIP_INT_64B) with true. cbv iota.
    rewrite mread_app by (rewrite ?le_bytes_length; lia). bsimpl. rewrite memrev64ifbe_le. bsimpl.
    rewrite host_val_bytes by lia. f_equal. by apply swrap_of_uwrap.
  - by destruct (imm_facts e He) as (_ & -> & -> & -> & -> & -> & -> & ->).
Qed.

(** The bytes of an entry. *)
Definition ebytes (ps l : Z) (v : zval) : list Z := prev_bytes ps l ++ vbytes v.

Lemma vhead_length v : val_ok v → 1 ≤ len (vhead v) ≤ 5.
Proof.
  intros Hv. destruct v as [bs|e v]; [|rewrite vhead_int by done; cbn; lia].
  unfold vhead, length_bytes. change (ZIP_IS_STR 0) with true. cbv iota.
  destruct (_ <=? _); [cbn; lia|]. destruct (_ <=? _); cbn; lia.
Qed.

Lemma venc_facts v : val_ok v → u8 (venc v) = venc v ∧ ZIP_IS_STR (venc v) = match v with VStr _ => true | VInt _ _ => false end.
Proof.
  destruct v as [bs|e v]; cbn [venc val_ok]; intros Hv.
  - unfold str_enc. destruct (_ <=? _); [done|]. by destruct (_ <=? _).
  - destruct (int_enc_facts e v Hv) as (? & _ & _ & ?). done.
Qed.

Lemma vbody_length v : val_ok v → 0 ≤ len (vbody v) < 2 ^ 32.
Proof.
  destruct v as [bs|e v]; cbn [val_ok]; intros Hv; [cbn; lia|].
  rewrite vbody_int_len by done. destruct (int_enc_facts e v Hv) as (_ & _ & ? & _). lia.
Qed.

Lemma ebytes_length ps l v : ps = 1 ∨ ps = 5 → len (ebytes ps l v) = ps + len (vbytes v).
Proof. intros Hps. unfold ebytes. rewrite length_app, Nat2Z.inj_add, prev_bytes_length by done. done. Qed.

Lemma decode_length_entry pre ps l v post p :
  prev_ok ps l → val_ok v → p = len pre →
  ZIP_DECODE_LENGTH (pre ++ ebytes ps l v ++ post) (p + ps) = Some (venc v, len (vhead v), len (vbody v)).
Proof.
  intros Hp Hv ->. unfold ebytes, vbytes.
  replace (pre ++ (prev_bytes ps l ++ vhead v ++ vbody v) ++ post)
    with ((pre ++ prev_bytes ps l) ++ vhead v ++ vbody v ++ post) by (by rewrite <- !app_assoc).
  apply decode_length_ok; [done|]. rewrite length_app, Nat2Z.inj_add, prev_bytes_length by (by eapply prev_ok_size). done.
Qed.

Lemma zipEntry_ok pre ps l v post p :
  prev_ok ps l → val_ok v → p = len pre →
  zipEntry (pre ++ ebytes ps l v ++ post) p =
  Some (mkZlentry ps l (len (vhead v)) (len (vbody v)) (ps + len (vhead v)) (venc v) p).
Proof.
  intros Hp Hv Hl. unfold zipEntry.
  replace (pre ++ ebytes ps l v ++ post) with (pre ++ prev_bytes ps l ++ vbytes v ++ post) by (unfold ebytes; by rewrite <- app_assoc).
  rewrite (decode_prevlen_ok _ _ _ _ _ Hp Hl). bsimpl.
  replace (pre ++ prev_bytes ps l ++ vbytes v ++ post) with (pre ++ ebytes ps l v ++ post) by (unfold ebytes; by rewrite <- app_assoc).
  rewrite decode_length_entry by done. bsimpl. pose proof (vhead_length v Hv). destruct (venc_facts v Hv) as [-> _].
  rewrite uwrap_small; [done|]. destruct (prev_ok_size _ _ Hp); lia.
Qed.

Lemma zipRawEntryLength_ok pre ps l v post p :
  prev_ok ps l → val_ok v → p = len pre → len (ebytes ps l v) < 2 ^ 32 →
  zipRawEntryLength (pre ++ ebytes ps l v ++ post) p = Some (len (ebytes ps l v)).
Proof.
  intros Hp Hv Hl Hs. unfold zipRawEntryLength.
  replace (pre ++ ebytes ps l v ++ post) with (pre ++ prev_bytes ps l ++ vbytes v ++ post) by (unfold ebytes; by rewrite <- app_assoc).
  rewrite (decode_prevlensize_ok _ _ _ _ _ Hp Hl). bsimpl.
  replace (pre ++ prev_bytes ps l ++ vbytes v ++ post) with (pre ++ ebytes ps l v ++ post) by (unfold ebytes; by rewrite <- app_assoc).
  rewrite decode_length_entry by done. bsimpl. rewrite ebytes_length in * by (by eapply prev_ok_size).
  unfold vbytes in *. rewrite length_app in *. f_equal. rewrite uwrap_small; [lia|]. destruct (prev_ok_size _ _ Hp); lia.
Qed.

Lemma ebytes_byte pre ps l v post p :
  prev_ok ps l → p = len pre → ∃ b, mget (pre ++ ebytes ps l v ++ post) p = Some b ∧ (b =? ZIP_END) = false.
Proof.
  intros Hp Hl. unfold ebytes. rewrite <- app_assoc. by apply entry_byte.
Qed.

Lemma diff_ok pre ps l v post p n :
  prev_ok ps l → p = len pre → 0 ≤ n < 2 ^ 32 →
  zipPrevLenByteDiff (pre ++ ebytes ps l v ++ post) p n = Some (prev_size n - ps).
Proof.
  intros Hp Hl Hn. unfold zipPrevLenByteDiff, ebytes. rewrite <- app_assoc.
  rewrite (decode_prevlensize_ok _ _ _ _ _ Hp Hl). bsimpl. rewrite encode_prev_none by done. bsimpl. f_equal.
  destruct (prev_ok_size _ _ Hp) as [-> | ->], (prev_size_cases n) as [-> | ->]; done.
Qed.
End entries.

(** ** The layout of a list *)

Record zent := mkEnt { psz : Z; val : zval }.
Definition esz (e : zent) : Z := psz e + len (vbytes (val e)).

(** The entries one after the other, the first after an entry of [prev] bytes. *)
Fixpoint ents (prev : Z) (es : list zent) : list Z :=
  match es with [] => [] | e :: es => ebytes (psz e) prev (val e) ++ ents (esz e) es end.
Fixpoint chain (prev : Z) (es : list zent) : Prop :=
  match es with [] => True | e :: es => prev_ok (psz e) prev ∧ val_ok (val e) ∧ chain (esz e) es end.
Fixpoint tot (es : list zent) : Z := match es with [] => 0 | e :: es => esz e + tot es end.

(** Where the last entry starts, and how long the entry before the end is. *)
Fixpoint tail_off (es : list zent) : Z :=
  match es with [] => 0 | e :: es => match es with [] => 0 | _ => esz e + tail_off es end end.
Definition lastsz (prev : Z) (es : list zent) : Z := match last es with Some e => esz e | None => prev end.

Definition hdr (n t lf : Z) : list Z := le_bytes 4 n ++ le_bytes 4 t ++ le_bytes 2 lf.

(** The length field counts the entries, or is full. *)
Definition lf_ok (lf : Z) (k : Z) : Prop := lf = UINT16_MAX ∨ (lf = k ∧ k < UINT16_MAX).

Definition zl_rep (zl : list Z) (es : list zent) : Prop :=
  ∃ lf, zl = hdr (11 + tot es) (10 + tail_off es) lf ++ ents 0 es ++ [ZIP_END] ∧
    chain 0 es ∧ 11 + tot es < 2 ^ 32 ∧ lf_ok lf (len es).

Lemma zl_rep_intro n t lf b es :
  n = 11 + tot es → t = 10 + tail_off es → b = ents 0 es ++ [ZIP_END] → chain 0 es → 11 + tot es < 2 ^ 32 →
  lf_ok lf (len es) → zl_rep (hdr n t lf ++ b) es.
Proof. intros -> -> -> Hc Hb Hlf. by exists lf. Qed.

Lemma hdr_length n t lf : len (hdr n t lf) = 10.
Proof. unfold hdr. rewrite !length_app, !Nat2Z.inj_add, !le_bytes_length by lia. lia. Qed.

Lemma ents_app prev es1 es2 : ents prev (es1 ++ es2) = ents prev es1 ++ ents (lastsz prev es1) es2.
Proof.
  revert prev. induction es1 as [|e es1 IH]; intros prev; [done|]. cbn [app ents]. rewrite IH, <- app_assoc.
  do 3 f_equal. unfold lastsz. rewrite last_cons. by destruct (last es1).
Qed.

Lemma chain_app prev es1 es2 : chain prev (es1 ++ es2) ↔ chain prev es1 ∧ chain (lastsz prev es1) es2.
Proof.
  revert prev. induction es1 as [|e es1 IH]; intros prev; [cbn; tauto|]. cbn [app chain]. rewrite IH.
  unfold lastsz. rewrite last_cons. destruct (last es1); tauto.
Qed.

Lemma tot_app es1 es2 : tot (es1 ++ es2) = tot es1 + tot es2.
Proof. induction es1 as [|e es1 IH]; cbn [app tot]; lia. Qed.

Lemma chain_esz prev e es : chain prev (e :: es) → 2 ≤ esz e ∧ (psz e = 1 ∨ psz e = 5).
Proof.
  intros (Hp & Hv & _). pose proof (vhead_length _ Hv). pose proof (prev_ok_size _ _ Hp). unfold esz, vbytes.
  rewrite length_app. split; [lia|done].
Qed.

Lemma chain_tot prev es : chain prev es → 0 ≤ tot es ∧ 2 * len es ≤ tot es.
Proof.
  revert prev. induction es as [|e es IH]; intros prev Hc; cbn [tot length]; [lia|].
  pose proof (chain_esz _ _ _ Hc). destruct Hc as (_ & _ & Hc). specialize (IH _ Hc). lia.
Qed.

Lemma ents_length prev es : chain prev es → len (ents prev es) = tot es.
Proof.
  revert prev. induction es as [|e es IH]; intros prev Hc; [done|]. cbn [ents tot].
  pose proof (chain_esz _ _ _ Hc) as [_ Hs]. destruct Hc as (_ & _ & Hc).
  rewrite length_app, Nat2Z.inj_add, IH, ebytes_length by done. done.
Qed.

Lemma ebytes_esz prev e : prev_ok (psz e) prev → len (ebytes (psz e) prev (val e)) = esz e.
Proof. intros. by rewrite ebytes_length by (by eapply prev_ok_size). Qed.

Lemma tail_off_app es1 e es2 : tail_off (es1 ++ e :: es2) = tot es1 + tail_off (e :: es2).
Proof.
  induction es1 as [|e1 es1 IH]; [done|]. cbn [app tot]. rewrite <- Z.add_assoc, <- IH.
  cbn [tail_off]. by destruct (es1 ++ e :: es2) eqn:E; [destruct es1|].
Qed.

Lemma tail_off_snoc es e : tail_off (es ++ [e]) = tot es.
Proof. rewrite tail_off_app. cbn. lia. Qed.

Lemma tail_off_bound prev es : chain prev es → 0 ≤ tail_off es ≤ tot es.
Proof.
  intros Hc. destruct es as [|e es _] using rev_ind; [cbn; lia|]. rewrite tail_off_snoc, tot_app.
  apply chain_app in Hc as [Hc1 Hc2]. pose proof (chain_tot _ _ Hc1). pose proof (chain_tot _ _ Hc2). lia.
Qed.

Section header.
Context `{Host} (junk : nat → Z).

Lemma read_bytes n t lf b : 0 ≤ n < 2 ^ 32 →
  ∃ x, ZIPLIST_BYTES (hdr n t lf ++ b) = Some x ∧ intrev32ifbe x = n.
Proof.
  intros Hn. exists (host_val (le_bytes 4 n)). rewrite intrev32ifbe_host_val, uwrap_small by lia. split; [|done].
  unfold ZIPLIST_BYTES, hdr. rewrite <- !app_assoc.
  pose proof (mread_app [] (le_bytes 4 n) (le_bytes 4 t ++ le_bytes 2 lf ++ b) 0 4) as E. cbn [app length] in E.
  rewrite E by (rewrite ?le_bytes_length; lia). done.
Qed.

Lemma read_tail n t lf b : 0 ≤ t < 2 ^ 32 →
  ∃ x, ZIPLIST_TAIL_OFFSET (hdr n t lf ++ b) = Some x ∧ intrev32ifbe x = t.
Proof.
  intros Ht. exists (host_val (le_bytes 4 t)). rewrite intrev32ifbe_host_val, uwrap_small by lia. split; [|done].
  unfold ZIPLIST_TAIL_OFFSET, hdr. rewrite <- !app_assoc. rewrite mread_app by (rewrite ?le_bytes_length; lia). done.
Qed.

Lemma read_length n t lf b :
  ZIPLIST_LENGTH (hdr n t lf ++ b) = Some (host_val (le_bytes 2 lf)).
Proof.
  unfold ZIPLIST_LENGTH, hdr. rewrite <- !app_assoc, (app_assoc (le_bytes 4 n)).
  rewrite mread_app by (rewrite ?length_app, ?Nat2Z.inj_add, ?le_bytes_length; lia). done.
Qed.

Lemma write_bytes n t lf b v :
  set_ZIPLIST_BYTES (hdr n t lf ++ b) (intrev32ifbe (u32 v)) = Some (hdr v t lf ++ b).
Proof.
  unfold set_ZIPLIST_BYTES, hdr. rewrite host_bytes_intrev32ifbe, <- !app_assoc.
  pose proof (le_bytes_length 4 n). pose proof (le_bytes_length 4 v).
  pose proof (mwrite_app [] (le_bytes 4 n) (le_bytes 4 t ++ le_bytes 2 lf ++ b) (le_bytes 4 v) 0) as E. cbn [app length] in E.
  by rewrite E by lia.
Qed.

Lemma write_tail n t lf b v :
  set_ZIPLIST_TAIL_OFFSET (hdr n t lf ++ b) (intrev32ifbe (u32 v)) = Some (hdr n v lf ++ b).
Proof.
  unfold set_ZIPLIST_TAIL_OFFSET, hdr. rewrite host_bytes_intrev32ifbe, <- !app_assoc.
  pose proof (le_bytes_length 4 n). pose proof (le_bytes_length 4 v). pose proof (le_bytes_length 4 t).
  by rewrite mwrite_app by lia.
Qed.

Lemma write_length n t lf b v :
  set_ZIPLIST_LENGTH (hdr n t lf ++ b) (intrev16ifbe (u16 v)) = Some (hdr n t v ++ b).
Proof.
  unfold set_ZIPLIST_LENGTH, hdr. rewrite host_bytes_intrev16ifbe, <- !app_assoc, !(app_assoc (le_bytes 4 n)).
  pose proof (le_bytes_length 4 n). pose proof (le_bytes_length 4 t). pose proof (le_bytes_length 2 v). pose proof (le_bytes_length 2 lf).
  by rewrite mwrite_app by (rewrite ?length_app; lia).
Qed.

(** The length field follows the number of entries. *)
Lemma incr_length_ok n t lf b k d :
  lf_ok lf k → 0 ≤ k → 0 ≤ k + d → d ≤ 1 → k < 2 ^ 32 →
  ∃ lf', ZIPLIST_INCR_LENGTH (hdr n t lf ++ b) d = Some (hdr n t lf' ++ b) ∧ lf_ok lf' (k + d).
Proof.
  intros Hlf Hk Hkd Hd Hb. unfold ZIPLIST_INCR_LENGTH. rewrite read_length. bsimpl. unfold lf_ok, UINT16_MAX in *.
  rewrite host_val_max by lia. unfold UINT16_MAX. destruct (Z.ltb_spec lf 65535) as [Hl|Hl].
  - destruct Hlf as [->|[-> _]]; [lia|]. rewrite intrev16ifbe_host_val, (uwrap_small _ k) by lia.
    exists (k + d). rewrite write_length. split; [done|]. destruct (decide (k + d = 65535)); [by left|right; lia].
  - exists lf. split; [done|]. left. lia.
Qed.

(** Growing the block, and cutting its end off. *)
Lemma zl_resize_grow n t lf b k :
  0 < k → 10 + len b + k < 2 ^ 32 →
  ∃ J, ziplistResize junk (hdr n t lf ++ b) (10 + len b + k) = Some (hdr (10 + len b + k) t lf ++ b ++ J ++ [ZIP_END]) ∧
    len J = k - 1.
Proof.
  intros Hk Hb. unfold ziplistResize. cbv zeta. rewrite (uwrap_small 32) by lia.
  destruct (zrealloc_grow junk (hdr n t lf ++ b) (10 + len b + k)) as (J & -> & HJ);
    rewrite length_app in *; pose proof (hdr_length n t lf); [lia|]. rewrite <- app_assoc.
  assert (len J = k) as HJk by lia. clear HJ. rename HJk into HJ.
  replace (intrev32ifbe (10 + len b + k)) with (intrev32ifbe (u32 (10 + len b + k))) by (by rewrite uwrap_small by lia).
  rewrite write_bytes. bsimpl. destruct J as [|j J _] using rev_ind; [cbn in HJ; lia|].
  rewrite length_app in HJ. cbn [length] in HJ. exists J. split; [|lia].
  rewrite !app_assoc. pose proof (hdr_length (10 + len b + k) t lf).
  rewrite mset_app by (rewrite !length_app; lia). by rewrite <- !app_assoc.
Qed.

Lemma resize_cut n t lf b1 b2 :
  b2 ≠ [] → 11 + len b1 < 2 ^ 32 →
  ziplistResize junk (hdr n t lf ++ b1 ++ b2) (11 + len b1) = Some (hdr (11 + len b1) t lf ++ b1 ++ [ZIP_END]).
Proof.
  intros Hb2 Hb. unfold ziplistResize. cbv zeta. rewrite (uwrap_small 32) by lia. destruct b2 as [|x b2]; [done|].
  replace (hdr n t lf ++ b1 ++ x :: b2) with ((hdr n t lf ++ b1 ++ [x]) ++ b2) by (by rewrite <- !app_assoc).
  rewrite zrealloc_shrink by (rewrite !length_app; pose proof (hdr_length n t lf); cbn [length]; lia).
  replace (intrev32ifbe (11 + len b1)) with (intrev32ifbe (u32 (11 + len b1))) by (by rewrite uwrap_small by lia).
  rewrite write_bytes. bsimpl. rewrite !app_assoc. pose proof (hdr_length (11 + len b1) t lf).
  rewrite mset_app by (rewrite !length_app; lia). done.
Qed.
End header.
