(* ===== verification/ZiplistOps.v ===== *)
(** * Ziplists: cascading updates, insertion and deletion

    [widen] is what a cascading update does to a list of entries: the fields
    that are too small for the length they now have to hold become five bytes
    long, as far as that makes the next length grow. *)

From S2P Require Import Prelude Endian Util Ziplist ZiplistSpec.
From stdpp Require Import sets.
Local Open Scope Z_scope.

Fixpoint widen (prev : Z) (es : list zent) : list zent :=
  match es with
  | [] => []
  | e :: es =>
      if (psz e =? 1) && (ZIP_BIGLEN <=? prev)
      then mkEnt 5 (val e) :: widen (esz (mkEnt 5 (val e))) es else e :: es
  end.

Lemma widen_id prev es : chain prev es → widen prev es = es.
Proof.
  destruct es as [|e es]; [done|]. intros (Hp & _ & _). cbn [widen].
  destruct Hp as [[-> Hl]|[-> _]]; [|done]. by rewrite (proj2 (Z.leb_gt _ _)) by lia.
Qed.

Lemma widen_vals prev es : val <$> widen prev es = val <$> es.
Proof.
  revert prev. induction es as [|e es IH]; intros prev; [done|]. cbn [widen]. destruct (_ && _); [|done].
  cbn. by rewrite IH.
Qed.

Lemma widen_length prev es : length (widen prev es) = length es.
Proof. pose proof (f_equal length (widen_vals prev es)) as E. by rewrite !length_fmap in E. Qed.

Lemma widen_nil prev es : widen prev es = [] ↔ es = [].
Proof. split; [|by intros ->]. intros E. apply nil_length_inv. rewrite <- (widen_length prev), E. done. Qed.

Lemma widen_tot prev old es : chain old es → tot es ≤ tot (widen prev es) ≤ tot es + 4 * len es.
Proof.
  revert prev old. induction es as [|e es IH]; intros prev old Hc; cbn [widen tot length]; [lia|].
  pose proof (chain_esz _ _ _ Hc) as [_ Hs]. destruct Hc as (_ & _ & Hc). destruct (_ && _) eqn:E; cbn [tot].
  - apply andb_true_iff in E as [E%Z.eqb_eq _]. unfold esz in *. cbn [psz val].
    specialize (IH (5 + len (vbytes (val e))) _ Hc). lia.
  - lia.
Qed.

Lemma widen_chain prev old es :
  chain old es → 0 ≤ prev < 2 ^ 32 → tot es + 4 * len es < 2 ^ 32 → chain prev (widen prev es).
Proof.
  revert prev old. induction es as [|e es IH]; intros prev old Hc Hp Hb; [done|].
  pose proof (chain_esz _ _ _ Hc) as [Hsz Hs]. pose proof (chain_tot _ _ Hc) as Ht. cbn [tot length] in *.
  destruct Hc as (Hpe & Hv & Hc). pose proof (chain_tot _ _ Hc). cbn [widen]. destruct (_ && _) eqn:E.
  - apply andb_true_iff in E as [E%Z.eqb_eq El%Z.leb_le]. cbn [chain psz val]. split; [right; lia|]. split; [done|].
    eapply IH; [done| |lia]. unfold esz in *. cbn [psz val]. lia.
  - cbn [chain]. split; [|done]. apply andb_false_iff in E. unfold prev_ok.
    destruct Hs as [Hs|Hs]; rewrite Hs in *; [|right; lia]. left. destruct E as [E|E]; [done|]. apply Z.leb_gt in E. lia.
Qed.

Lemma widen_tail prev e es : ∃ e' es', widen prev (e :: es) = e' :: es' ∧ (es' = [] ↔ es = []).
Proof. cbn [widen]. destruct (_ && _); [|by eauto]. eexists _, _. split; [done|apply widen_nil]. Qed.

Section cascade.
Context `{Host} (junk : nat → Z).

(** Making room for a wider field: the rest moves up by four bytes. *)
Lemma cascade_grow n t lf pre l v T :
  10 + len pre + 1 + len (vbytes v) + len T + 1 = n → n + 4 < 2 ^ 32 → 0 ≤ t → t + 4 < 2 ^ 32 →
  ∀ raw, ZIP_BIGLEN ≤ raw < 2 ^ 32 →
  let np := 10 + len pre in
  let zl := hdr n t lf ++ pre ++ ebytes 1 l v ++ T ++ [ZIP_END] in
  ∃ zl1 tl zl2 zl3,
    ziplistResize junk zl (n + 4) = Some zl1 ∧ ZIPLIST_TAIL_OFFSET zl1 = Some tl ∧ intrev32ifbe tl = t ∧
    (if negb (t =? np) then set_ZIPLIST_TAIL_OFFSET zl1 (intrev32ifbe (u32 (t + 4))) else Some zl1) = Some zl2 ∧
    memmove zl2 (np + 5) (np + 1) (u64 (n - np - 1 - 1)) = Some zl3 ∧
    zipPrevEncodeLength zl3 (Some np) raw =
    Some (hdr (n + 4) (if t =? np then t else t + 4) lf ++ pre ++ ebytes 5 raw v ++ T ++ [ZIP_END], 5).
Proof.
  intros Hn Hn4 Ht Ht4 raw Hraw np zl. unfold zl, np. unfold ZIP_BIGLEN in Hraw.
  destruct (zl_resize_grow junk n t lf (pre ++ ebytes 1 l v ++ T ++ [ZIP_END]) 4) as (J & E & HJ); [lia| |].
  { rewrite !length_app, !Nat2Z.inj_add, ebytes_length by (by left). cbn [length]. lia. }
  assert (10 + len (pre ++ ebytes 1 l v ++ T ++ [ZIP_END]) + 4 = n + 4) as EL.
  { rewrite !length_app, !Nat2Z.inj_add, ebytes_length by (by left). cbn [length]. lia. }
  rewrite EL in E. eexists. rewrite E. set (b := _ ++ J ++ _).
  destruct (read_tail (n + 4) t lf b) as (x & Ex & Hx); [lia|]. exists x.
  set (t' := if t =? 10 + len pre then t else t + 4).
  exists (hdr (n + 4) t' lf ++ b). unfold b. rewrite <- !app_assoc.
  set (m1 := hdr (n + 4) t' lf ++ pre). pose proof (hdr_length (n + 4) t' lf) as Hhd.
  assert (len m1 = 10 + len pre) as Hm1 by (unfold m1; rewrite length_app; lia).
  set (G := take 5 (l :: (vbytes v ++ T) ++ ZIP_END :: J)).
  assert (len G = 5) as HG by (unfold G; rewrite length_take; cbn [length]; rewrite !length_app; cbn [length]; lia).
  exists (m1 ++ G ++ vbytes v ++ T ++ [ZIP_END]).
  split; [done|]. split; [unfold b in Ex; by rewrite <- !app_assoc in Ex|]. split; [done|]. split.
  { unfold t'. destruct (Z.eqb_spec t (10 + len pre)); [done|]. cbn [negb]. by rewrite write_tail. }
  split.
  - unfold memmove. rewrite uwrap_small by lia.
    replace (hdr (n + 4) t' lf ++ pre ++ ebytes 1 l v ++ T ++ [ZIP_END] ++ J ++ [ZIP_END])
      with ((m1 ++ [l]) ++ (vbytes v ++ T) ++ ([ZIP_END] ++ J ++ [ZIP_END])) by (unfold m1; by rewrite <- !app_assoc).
    rewrite mread_app by (rewrite ?length_app; cbn [length]; lia). bsimpl.
    replace ((m1 ++ [l]) ++ (vbytes v ++ T) ++ ([ZIP_END] ++ J ++ [ZIP_END]))
      with ((m1 ++ l :: (vbytes v ++ T) ++ ZIP_END :: J) ++ [ZIP_END]) by (by rewrite <- !app_assoc; cbn [app]; rewrite <- !app_assoc).
    rewrite mwrite_end by (rewrite ?length_app; cbn [length]; rewrite ?length_app; cbn [length]; lia).
    replace (Z.to_nat (10 + len pre + 5)) with (length m1 + 5)%nat by lia.
    rewrite take_app_add. fold G. by rewrite <- !app_assoc.
  - rewrite encode_prev_ok; [|lia|lia|unfold prev_size, ZIP_BIGLEN; rewrite (proj2 (Z.ltb_ge _ _)) by lia; done].
    unfold prev_size, ZIP_BIGLEN. rewrite (proj2 (Z.ltb_ge _ _)) by lia. unfold m1, ebytes. by rewrite <- !app_assoc.
Qed.

(** The first steps of a round: the current entry and the byte after it. *)
Lemma cascade_head fuel n t lf pre cps cl cv rest p curlen :
  prev_ok cps cl → val_ok cv → cps + len (vbytes cv) < 2 ^ 32 → p = 10 + len pre → rest ≠ [] →
  let zl := hdr n t lf ++ pre ++ ebytes cps cl cv ++ rest in
  let raw := cps + len (vbytes cv) in
  cascade_loop junk fuel zl p curlen =
  (b ← head rest;
   if b =? ZIP_END then Some zl
   else
     next ← zipEntry zl (p + raw);
     if prevrawlen next =? raw then Some zl
     else if prevrawlensize next <? prev_size raw then
       match fuel with
       | O => None
       | S fuel =>
           let extra := prev_size raw - prevrawlensize next in
           zl ← ziplistResize junk zl (curlen + extra);
           let np := p + raw in
           tail ← ZIPLIST_TAIL_OFFSET zl;
           zl ← (if negb (intrev32ifbe tail =? np)
                 then set_ZIPLIST_TAIL_OFFSET zl (intrev32ifbe (u32 (intrev32ifbe tail + extra)))
                 else Some zl);
           zl ← memmove zl (np + prev_size raw) (np + prevrawlensize next)
                  (u64 (curlen - np - prevrawlensize next - 1));
           '(zl, _) ← zipPrevEncodeLength zl (Some np) raw;
           cascade_loop junk fuel zl np (curlen + extra)
       end
     else if prevrawlensize next >? prev_size raw
     then zipPrevEncodeLengthForceLarge zl (p + raw) raw
     else '(zl, _) ← zipPrevEncodeLength zl (Some (p + raw)) raw; Some zl).
Proof.
  intros Hp Hv Hraw -> Hrest zl raw. pose proof (hdr_length n t lf) as Hh.
  assert (zl = (hdr n t lf ++ pre) ++ ebytes cps cl cv ++ rest) as Ez by (unfold zl; by rewrite <- app_assoc).
  assert (10 + len pre = len (hdr n t lf ++ pre)) as Ep by (rewrite length_app; lia).
  destruct (ebytes_byte (hdr n t lf ++ pre) cps cl cv rest _ Hp Ep) as (b & Hb & Hne). rewrite <- Ez in Hb.
  pose proof (zipEntry_ok (hdr n t lf ++ pre) cps cl cv rest _ Hp Hv Ep) as He. rewrite <- Ez in He.
  assert (0 ≤ raw < 2 ^ 32) as Hr by (unfold raw; destruct (prev_ok_size _ _ Hp); lia).
  assert (len (vhead cv) + len (vbody cv) = len (vbytes cv)) as Hlen by (unfold vbytes; rewrite length_app; lia).
  assert (mget zl (10 + len pre + raw) = head rest) as Hnext.
  { rewrite Ez, app_assoc. destruct rest as [|x rest]; [done|]. cbn [head]. apply mget_app.
    rewrite length_app, Nat2Z.inj_add, ebytes_length by (by eapply prev_ok_size). unfold raw. lia. }
  destruct fuel; cbn [cascade_loop]; rewrite Hb; bsimpl; rewrite Hne, He; bsimpl; cbn [headersize elen];
    (replace (cps + len (vhead cv) + len (vbody cv)) with raw by (unfold raw; lia));
    rewrite (uwrap_small 32 raw) by lia; rewrite encode_prev_none by lia; bsimpl; by rewrite Hnext.
Qed.

Lemma esz_cut prev e es : chain prev (e :: es) → tot (e :: es) < 2 ^ 32 → 0 ≤ esz e < 2 ^ 32.
Proof.
  intros Hc Ht. pose proof (chain_esz _ _ _ Hc). destruct Hc as (_ & _ & Hc). pose proof (chain_tot _ _ Hc). cbn [tot] in Ht. lia.
Qed.

Lemma cascade_loop_ok lf es : ∀ fuel n t pre cps cl cv old,
  prev_ok cps cl → val_ok cv → chain old es →
  let raw := cps + len (vbytes cv) in
  n = 10 + len pre + raw + tot es + 1 → n + 4 * len es < 2 ^ 32 →
  0 ≤ t < n → (es ≠ [] → t = 10 + len pre + raw + tail_off es) → (length es ≤ fuel)%nat →
  ∃ t', cascade_loop junk fuel (hdr n t lf ++ pre ++ ebytes cps cl cv ++ ents old es ++ [ZIP_END]) (10 + len pre) n =
      Some (hdr (n + (tot (widen raw es) - tot es)) t' lf ++ pre ++ ebytes cps cl cv ++ ents raw (widen raw es) ++ [ZIP_END]) ∧
    (es = [] → t' = t) ∧ (es ≠ [] → t' = 10 + len pre + raw + tail_off (widen raw es)).
Proof.
  induction es as [|e es IH]; intros fuel n t pre cps cl cv old Hp Hv Hc raw Hn Hb Ht0 Ht Hf.
  all: assert (0 ≤ raw) as Hraw0 by (unfold raw; destruct (prev_ok_size _ _ Hp); lia).
  all: pose proof (chain_tot _ _ Hc) as Htot.
  all: rewrite (cascade_head fuel n t lf pre cps cl cv); [|done|done|fold raw; lia|done|by destruct (ents old _)]; fold raw.
  - exists t. cbn [ents app head]. bsimpl. change (ZIP_END =? ZIP_END) with true. cbv iota. cbn [widen tot ents].
    split; [do 2 f_equal; f_equal; lia|]. by split.
  - cbn [tot length] in *. pose proof Hc as Hc0. destruct Hc as (Hpe & Hve & Hc). pose proof (chain_tot _ _ Hc).
    pose proof (chain_esz _ _ _ Hc0) as [Hsz Hpsz]. cbn [ents]. rewrite <- !app_assoc.
    set (T := ents (esz e) es) in *. assert (len T = tot es) as HT by (by apply ents_length).
    assert (head (ebytes (psz e) old (val e) ++ T ++ [ZIP_END]) = head (prev_bytes (psz e) old)) as Hhead.
    { unfold ebytes. destruct (prev_bytes_head _ _ Hpe) as (b & rest & -> & _). done. }
    rewrite Hhead. destruct (prev_bytes_head _ _ Hpe) as (b & rest & Eb & Hbb & _). rewrite Eb. cbn [head]. bsimpl.
    rewrite (proj2 (Z.eqb_neq b ZIP_END)) by (unfold ZIP_END; lia).
    assert (hdr n t lf ++ pre ++ ebytes cps cl cv ++ ebytes (psz e) old (val e) ++ T ++ [ZIP_END] =
            (hdr n t lf ++ pre ++ ebytes cps cl cv) ++ ebytes (psz e) old (val e) ++ T ++ [ZIP_END]) as Ez by (by rewrite <- !app_assoc).
    assert (10 + len pre + raw = len (hdr n t lf ++ pre ++ ebytes cps cl cv)) as Ep.
    { rewrite !length_app, !Nat2Z.inj_add, hdr_length, ebytes_length by (by eapply prev_ok_size). unfold raw. lia. }
    pose proof (zipEntry_ok _ _ _ _ (T ++ [ZIP_END]) _ Hpe Hve Ep) as He. rewrite <- Ez in He. rewrite He. bsimpl. cbn [prevrawlen prevrawlensize].
    specialize (Ht ltac:(done)).
    destruct (Z.eqb_spec old raw) as [Heq|Hne]; [|destruct (Z.ltb_spec (psz e) (prev_size raw)) as [Hlt|Hge]].
    + exists t. rewrite widen_id by (by rewrite <- Heq). cbn [tot ents]. rewrite <- !app_assoc, Heq. fold T.
      split; [do 2 f_equal; f_equal; lia|]. split; [done|]. intros _. done.
    + (* the field grows *)
      assert (psz e = 1 ∧ ZIP_BIGLEN ≤ raw ∧ prev_size raw = 5) as (Hp1 & Hbig & Hs5).
      { unfold prev_size in *. destruct (Z.ltb_spec raw ZIP_BIGLEN); lia. }
      destruct fuel as [|fuel]; [cbn in Hf; lia|]. rewrite Hs5, Hp1. change (5 - 1) with 4. cbv zeta.
      assert (widen raw (e :: es) = mkEnt 5 (val e) :: widen (esz (mkEnt 5 (val e))) es) as Hw.
      { cbn [widen]. rewrite Hp1. change (1 =? 1) with true. by rewrite (proj2 (Z.leb_le _ _)) by lia. }
      destruct (cascade_grow n t lf (pre ++ ebytes cps cl cv) old (val e) T) with (raw := raw)
        as (zl1 & tl & zl2 & zl3 & E1 & E2 & Etl & E3 & E4 & E5).
      { rewrite length_app, Nat2Z.inj_add, ebytes_length by (by eapply prev_ok_size). fold raw. unfold esz in *. rewrite Hp1 in *. lia. }
      { lia. }
      { lia. }
      { pose proof (tail_off_bound _ _ Hc0). cbn [tot] in *. lia. }
      { unfold ZIP_BIGLEN in *. lia. }
      cbv zeta in E1, E3, E4, E5.
      assert (10 + len (pre ++ ebytes cps cl cv) = 10 + len pre + raw) as Enp.
      { rewrite length_app, Nat2Z.inj_add, ebytes_length by (by eapply prev_ok_size). unfold raw. lia. }
      rewrite Enp in E3, E4, E5. rewrite <- !app_assoc in E1. rewrite E1. bsimpl. rewrite E2. bsimpl. rewrite Etl.
      rewrite E3. bsimpl. rewrite E4. bsimpl. rewrite E5. bsimpl.
      set (t1 := if t =? 10 + len pre + raw then t else t + 4).
      assert (esz e = 1 + len (vbytes (val e))) as He1 by (unfold esz; by rewrite Hp1).
      assert (es = [] → t1 = 10 + len pre + raw) as Ht1n.
      { intros ->. unfold t1. cbn [tail_off] in Ht. rewrite (proj2 (Z.eqb_eq _ _)); lia. }
      assert (es ≠ [] → t1 = 10 + len pre + raw + (5 + len (vbytes (val e))) + tail_off es) as Ht1.
      { intros Hes. unfold t1. destruct es as [|e2 es]; [done|]. cbn [tail_off] in Ht |- *.
        assert (0 ≤ tail_off (e2 :: es)) by (eapply (proj1 (tail_off_bound _ _ Hc))). cbn [tail_off] in *.
        rewrite (proj2 (Z.eqb_neq _ _)) by lia. lia. }
      destruct (IH fuel (n + 4) t1 (pre ++ ebytes cps cl cv) 5 raw (val e) (esz e)) as (t' & E & Hn1 & Hn2); [right; lia|done|done|..].
      { rewrite Enp. unfold esz in *. rewrite Hp1 in *. lia. }
      { lia. }
      { unfold t1. destruct (_ =? _); lia. }
      { intros Hes. rewrite Enp. by apply Ht1. }
      { cbn in Hf. lia. }
      rewrite Enp in E. fold T in E. rewrite E, Hw. cbn [tot ents esz psz val] in *. unfold esz at 2 3. cbn [psz val]. exists t'.
      rewrite <- !app_assoc. split.
      { do 2 f_equal. f_equal. unfold esz. cbn [psz val]. unfold esz in *. rewrite Hp1. lia. }
      split; [done|]. intros _. rewrite Enp in Hn2. cbn [tail_off]. destruct es as [|e2 es].
      * cbn [widen]. rewrite Hn1 by done. rewrite Ht1n by done. lia.
      * destruct (widen_tail (5 + len (vbytes (val e))) e2 es) as (e' & es' & Ew & _). unfold esz. cbn [psz val].
        rewrite Hn2 by done. rewrite Ew. lia.
    + (* it is wide enough *)
      assert (widen raw (e :: es) = e :: es) as Hw.
      { cbn [widen]. unfold prev_size in Hge. destruct (Z.ltb_spec raw ZIP_BIGLEN).
        - rewrite (proj2 (Z.leb_gt _ _)) by lia. by rewrite andb_false_r.
        - rewrite (proj2 (Z.eqb_neq _ _)) by lia. done. }
      assert ((if psz e >? prev_size raw
               then zipPrevEncodeLengthForceLarge ((hdr n t lf ++ pre ++ ebytes cps cl cv) ++ ebytes (psz e) old (val e) ++ T ++ [ZIP_END])
                      (10 + len pre + raw) raw
               else '(zl, _) ← zipPrevEncodeLength ((hdr n t lf ++ pre ++ ebytes cps cl cv) ++ ebytes (psz e) old (val e) ++ T ++ [ZIP_END])
                      (Some (10 + len pre + raw)) raw; Some zl) =
              Some ((hdr n t lf ++ pre ++ ebytes cps cl cv) ++ ebytes (psz e) raw (val e) ++ T ++ [ZIP_END])) as E.
      { unfold ebytes at 2 4 6. rewrite <- !(app_assoc (prev_bytes _ _)). rewrite Z.gtb_ltb.
        destruct (Z.ltb_spec (prev_size raw) (psz e)) as [Hgt|Hle].
        - assert (psz e = 5) as Hp5 by (destruct Hpsz as [Hp1|Hp5]; [|done]; destruct (prev_size_cases raw); lia).
          rewrite Hp5 in *. apply encode_prev_large_ok; [lia|done|by apply prev_bytes_length].
        - assert (psz e = prev_size raw) as Hps by lia. rewrite Hps in *.
          rewrite encode_prev_ok; [done|lia|done|by apply prev_bytes_length]. }
      rewrite <- Ez in E. rewrite E, Hw. exists t. cbn [tot ents]. rewrite <- !app_assoc. fold T.
      split; [do 2 f_equal; f_equal; lia|]. split; [done|]. intros _. done.
Qed.
End cascade.

(** ** Insertion *)

Section insertion.
Context `{Host} (junk : nat → Z).

Lemma resize_keep n t lf b k :
  0 ≤ k → n = 11 + len b → n + k < 2 ^ 32 →
  ∃ Q, ziplistResize junk (hdr n t lf ++ b ++ [ZIP_END]) (n + k) = Some (hdr (n + k) t lf ++ b ++ Q ++ [ZIP_END]) ∧ len Q = k.
Proof.
  intros Hk Hn Hb. destruct (decide (k = 0)) as [-> |Hk0].
  - exists []. split; [|done]. replace (n + 0) with (11 + len b) by lia. by apply resize_cut; [|lia].
  - destruct (zl_resize_grow junk n t lf (b ++ [ZIP_END]) k) as (J & E & HJ); [lia|rewrite length_app; cbn [length]; lia|].
    assert (10 + len (b ++ [ZIP_END]) + k = n + k) as Hl by (rewrite length_app; cbn [length]; lia). rewrite Hl in E.
    exists ([ZIP_END] ++ J). rewrite E, <- !app_assoc. split; [done|]. rewrite length_app. cbn [length]. lia.
Qed.

Lemma split_end (m : list Z) k : 0 ≤ k ≤ len m → ∃ U W, m = U ++ W ∧ len W = k.
Proof.
  intros. exists (take (length m - Z.to_nat k) m), (drop (length m - Z.to_nat k) m).
  rewrite take_drop, length_drop. split; [done|lia].
Qed.

(** The bytes to move, cut so that the field in front of [X] is [ps'] wide. *)
Lemma field_window m ps l X Y ps' :
  prev_ok ps l → ps' = 1 ∨ ps' = 5 → 4 ≤ len m →
  ∃ U A, m ++ prev_bytes ps l ++ X ++ Y = U ++ (A ++ X) ++ Y ∧ len U = len m - (ps' - ps) ∧ len A = ps'.
Proof.
  intros Hp Hps' Hm. pose proof (prev_ok_size _ _ Hp) as Hps. pose proof (prev_bytes_length ps l Hps) as Hl.
  destruct Hps as [-> | ->], Hps' as [-> | ->].
  - exists m, (prev_bytes 1 l). rewrite <- !app_assoc. split; [done|]. split; [lia|done].
  - destruct (split_end m 4) as (U & W & -> & HW); [lia|]. exists U, (W ++ prev_bytes 1 l). rewrite <- !app_assoc.
    split; [done|]. rewrite !length_app in *. lia.
  - destruct (split_end (prev_bytes 5 l) 1) as (U & W & E & HW); [lia|]. exists (m ++ U), W. rewrite E, <- !app_assoc in *.
    split; [done|]. rewrite !length_app in *. lia.
  - exists m, (prev_bytes 5 l). rewrite <- !app_assoc. split; [done|]. split; [lia|done].
Qed.

(** Opening a gap of [reqlen] bytes before an entry, whose own field changes its width. *)
Lemma insert_shift n t lf E1 ps l v T reqlen :
  prev_ok ps l → 1 ≤ reqlen < 2 ^ 32 →
  let ps' := prev_size reqlen in
  n = 11 + len E1 + ps + len (vbytes v) + len T → 0 ≤ reqlen + (ps' - ps) → n + reqlen + (ps' - ps) < 2 ^ 32 →
  ∃ zl1 b zl2 G,
    ziplistResize junk (hdr n t lf ++ E1 ++ ebytes ps l v ++ T ++ [ZIP_END]) (n + reqlen + (ps' - ps)) = Some zl1 ∧
    mget zl1 (10 + len E1) = Some b ∧ (b =? ZIP_END) = false ∧
    memmove zl1 (10 + len E1 + reqlen) (10 + len E1 - (ps' - ps)) (u64 (n - (10 + len E1) - 1 + (ps' - ps))) = Some zl2 ∧
    zipPrevEncodeLength zl2 (Some (10 + len E1 + reqlen)) reqlen =
    Some (hdr (n + reqlen + (ps' - ps)) t lf ++ (E1 ++ G) ++ ebytes ps' reqlen v ++ T ++ [ZIP_END], ps') ∧ len G = reqlen.
Proof.
  intros Hp Hreq ps' Hn Hk Hb. pose proof (prev_ok_size _ _ Hp) as Hps. pose proof (prev_size_cases reqlen) as Hps'. fold ps' in Hps'.
  assert (len (ebytes ps l v) = ps + len (vbytes v)) as He by (by apply ebytes_length).
  destruct (resize_keep n t lf (E1 ++ ebytes ps l v ++ T) (reqlen + (ps' - ps))) as (Q & EQ & HQ);
    [lia|rewrite !length_app; lia|lia|].
  rewrite <- !app_assoc in EQ. replace (n + (reqlen + (ps' - ps))) with (n + reqlen + (ps' - ps)) in EQ by lia.
  set (n' := n + reqlen + (ps' - ps)) in *. pose proof (hdr_length n' t lf) as Hh.
  set (m := hdr n' t lf ++ E1). assert (len m = 10 + len E1) as Hm by (unfold m; rewrite length_app; lia).
  destruct (field_window m ps l (vbytes v ++ T) (Q ++ [ZIP_END]) ps' Hp Hps') as (U & A & EU & HU & HA); [lia|].
  destruct (ebytes_byte m ps l v (T ++ Q ++ [ZIP_END]) (10 + len E1) Hp ltac:(lia)) as (b & Hb1 & Hb2).
  set (G := take (Z.to_nat reqlen) (ebytes ps l v ++ T ++ Q)).
  assert (len G = reqlen) as HG by (unfold G; rewrite length_take, !length_app; lia).
  exists (m ++ ebytes ps l v ++ T ++ Q ++ [ZIP_END]), b, ((m ++ G) ++ A ++ vbytes v ++ T ++ [ZIP_END]), G.
  split; [unfold m; by rewrite <- app_assoc|]. split; [done|]. split; [done|]. split; [|split; [|done]].
  - rewrite uwrap_small by lia. unfold memmove.
    replace (m ++ ebytes ps l v ++ T ++ Q ++ [ZIP_END]) with (U ++ (A ++ vbytes v ++ T) ++ Q ++ [ZIP_END]).
    2: { rewrite <- EU. unfold ebytes. by rewrite <- !app_assoc. }
    rewrite mread_app by (rewrite ?length_app; lia). bsimpl.
    replace (U ++ (A ++ vbytes v ++ T) ++ Q ++ [ZIP_END]) with ((m ++ ebytes ps l v ++ T ++ Q) ++ [ZIP_END]).
    2: { rewrite <- EU. unfold ebytes. by rewrite <- !app_assoc. }
    rewrite mwrite_end by (rewrite ?length_app; lia).
    replace (Z.to_nat (10 + len E1 + reqlen)) with (length m + Z.to_nat reqlen)%nat by lia.
    rewrite take_app_add. fold G. by rewrite <- !app_assoc.
  - rewrite encode_prev_ok; [|lia|rewrite length_app; lia|done].
    fold ps'. unfold ebytes, m. by rewrite <- !app_assoc.
Qed.

Lemma insert_prevlen_ok n t lf es1 es2 :
  chain 0 (es1 ++ es2) → 11 + tot (es1 ++ es2) < 2 ^ 32 → t = 10 + tail_off (es1 ++ es2) →
  insert_prevlen (hdr n t lf ++ ents 0 es1 ++ ents (lastsz 0 es1) es2 ++ [ZIP_END]) (10 + tot es1) = Some (lastsz 0 es1).
Proof.
  intros Hc Hb Ht. apply chain_app in Hc as [Hc1 Hc2]. pose proof (ents_length _ _ Hc1) as Hl1. pose proof (hdr_length n t lf) as Hh.
  rewrite tot_app in Hb. pose proof (chain_tot _ _ Hc1). pose proof (chain_tot _ _ Hc2). unfold insert_prevlen. destruct es2 as [|e es2].
  - cbn [ents app]. rewrite (app_assoc _ _ [ZIP_END]). rewrite mget_app by (rewrite length_app; lia). bsimpl.
    change (negb (ZIP_END =? ZIP_END)) with false. cbv iota. unfold ZIPLIST_ENTRY_TAIL. rewrite <- app_assoc. rewrite app_nil_r in Ht.
    destruct (read_tail n t lf (ents 0 es1 ++ [ZIP_END])) as (x & -> & Hx).
    { pose proof (tail_off_bound _ _ Hc1). lia. }
    bsimpl. rewrite Hx, Ht. destruct es1 as [|e es1 _] using rev_ind.
    + cbn [ents app tail_off]. rewrite mget_app by (rewrite hdr_length; lia). done.
    + rewrite tail_off_snoc. apply chain_app in Hc1 as [Hc1 (Hpe & Hve & _)]. pose proof (ents_length _ _ Hc1) as Hl2.
      rewrite ents_app. cbn [ents]. rewrite app_nil_r.
      replace (hdr n (10 + tot es1) lf ++ (ents 0 es1 ++ ebytes (psz e) (lastsz 0 es1) (val e)) ++ [ZIP_END])
        with ((hdr n (10 + tot es1) lf ++ ents 0 es1) ++ ebytes (psz e) (lastsz 0 es1) (val e) ++ [ZIP_END])
        by (by rewrite <- !app_assoc).
      assert (10 + tot es1 = len (hdr n (10 + tot es1) lf ++ ents 0 es1)) as Ep
        by (rewrite length_app; pose proof (hdr_length n (10 + tot es1) lf); lia).
      destruct (ebytes_byte _ _ _ (val e) [ZIP_END] _ Hpe Ep) as (b & -> & Hne). bsimpl. rewrite Hne. cbn [negb].
      rewrite tot_app in Hb. cbn [tot] in Hb. pose proof (chain_tot _ _ Hc1). pose proof (ebytes_esz _ _ Hpe).
      rewrite zipRawEntryLength_ok by (done || lia). unfold lastsz. rewrite last_snoc. f_equal. done.
  - destruct Hc2 as (Hpe & Hve & _). cbn [ents].
    rewrite (app_assoc _ (ents 0 es1)), <- (app_assoc (ebytes _ _ _)).
    assert (10 + tot es1 = len (hdr n t lf ++ ents 0 es1)) as Ep by (rewrite length_app; lia).
    destruct (ebytes_byte _ _ _ (val e) (ents (esz e) es2 ++ [ZIP_END]) _ Hpe Ep) as (b & -> & Hne). bsimpl. rewrite Hne. cbn [negb].
    unfold ebytes. rewrite <- !app_assoc. rewrite (app_assoc _ (ents 0 es1)).
    by rewrite (decode_prevlen_ok _ _ _ _ _ Hpe Ep).
Qed.

(** What is stored for a string. *)
Definition enc_value (s : list Z) : zval :=
  match zipTryEncoding s with Some (v, e) => VInt e v | None => VStr s end.

Lemma zipTryEncoding_ok s v e : zipTryEncoding s = Some (v, e) → int_ok e v.
Proof.
  unfold zipTryEncoding. destruct (_ || _); [done|]. destruct (string2ll s) as [w|] eqn:Es; [|done]. bsimpl. intros [= -> <-].
  apply string2ll_repr in Es as [_ Hr]. unfold LLONG_MIN, LLONG_MAX in Hr.
  unfold int_ok, INT24_MIN, INT24_MAX, ZIP_INT_IMM_MIN, ZIP_INT_IMM_MAX. rewrite !Z.geb_leb.
  repeat (case_match; [rewrite andb_true_iff, !Z.leb_le in *; lia|rewrite andb_false_iff, !Z.leb_gt in *]). lia.
Qed.

Lemma enc_value_ok s : len s < 2 ^ 32 → val_ok (enc_value s).
Proof.
  intros Hs. unfold enc_value. destruct (zipTryEncoding s) as [[v e]|] eqn:E; [by apply zipTryEncoding_ok in E|done].
Qed.

(** The choice of an encoding, and writing the value with it. *)
Lemma encode_value s :
  len s < 2 ^ 32 →
  ∃ value encoding,
    match zipTryEncoding s with
    | Some (value, encoding) => (value, encoding, zipIntSize encoding)
    | None => (123456789, 0, u32 (len s))
    end = (value, encoding, len (vbody (enc_value s))) ∧
    length_bytes encoding (u32 (len s)) = vhead (enc_value s) ∧
    (∀ m1 old m3 p, p = len m1 → len old = len (vbody (enc_value s)) →
      (if ZIP_IS_STR encoding then memcpy (m1 ++ old ++ m3) s p 0 (u32 (len s))
       else zipSaveInteger (m1 ++ old ++ m3) p value encoding) = Some (m1 ++ vbody (enc_value s) ++ m3)).
Proof.
  intros Hs. unfold enc_value. rewrite uwrap_small by lia. destruct (zipTryEncoding s) as [[v e]|] eqn:E.
  - apply zipTryEncoding_ok in E. exists v, e. rewrite vbody_int_len, vhead_int by done.
    destruct (int_enc_facts e v E) as (Hstr & _). unfold length_bytes. rewrite Hstr. split; [done|]. split; [done|].
    intros m1 old m3 p Hp Hold. by apply save_integer_ok.
  - exists 123456789, 0. split; [done|]. split; [done|]. intros m1 old m3 p Hp Hold. change (ZIP_IS_STR 0) with true. cbv iota.
    unfold memcpy. pose proof (mread_app [] s [] 0 (len s)) as E2. rewrite app_nil_r in E2. cbn [app length] in E2. rewrite E2 by lia.
    bsimpl. cbn [vbody] in *. apply mwrite_app; lia.
Qed.

Lemma encode_length_none zl encoding k bs :
  length_bytes encoding k = bs → zipEncodeLength zl None encoding k = Some (zl, len bs).
Proof. by intros <-. Qed.

(** Writing the entry into the gap. *)
Lemma write_entry_ok n t lf E1 G R l s k value encoding :
  0 ≤ l < 2 ^ 32 → len s < 2 ^ 32 → len G = prev_size l + len (vbytes (enc_value s)) → lf_ok lf k → 0 ≤ k < 2 ^ 32 - 1 →
  length_bytes encoding (u32 (len s)) = vhead (enc_value s) →
  (∀ m1 old m3 p, p = len m1 → len old = len (vbody (enc_value s)) →
    (if ZIP_IS_STR encoding then memcpy (m1 ++ old ++ m3) s p 0 (u32 (len s))
     else zipSaveInteger (m1 ++ old ++ m3) p value encoding) = Some (m1 ++ vbody (enc_value s) ++ m3)) →
  ∃ lf', lf_ok lf' (k + 1) ∧
    ('(zl, c) ← zipPrevEncodeLength (hdr n t lf ++ (E1 ++ G) ++ R) (Some (10 + len E1)) l;
     let p := 10 + len E1 + c in
     '(zl, c) ← zipEncodeLength zl (Some p) encoding (u32 (len s));
     let p := p + c in
     zl ← (if ZIP_IS_STR encoding then memcpy zl s p 0 (u32 (len s)) else zipSaveInteger zl p value encoding);
     ZIPLIST_INCR_LENGTH zl 1) =
    Some (hdr n t lf' ++ E1 ++ ebytes (prev_size l) l (enc_value s) ++ R).
Proof.
  intros Hl Hs HG Hlf Hk Henc Hw. set (v := enc_value s) in *. pose proof (hdr_length n t lf) as Hh.
  assert (len (vbytes v) = len (vhead v) + len (vbody v)) as Hvb by (unfold vbytes; rewrite length_app; lia).
  assert (∃ G1 G2 G3, G = G1 ++ G2 ++ G3 ∧ len G1 = prev_size l ∧ len G2 = len (vhead v) ∧ len G3 = len (vbody v))
    as (G1 & G2 & G3 & -> & HG1 & HG2 & HG3).
  { destruct (buffer_split G (prev_size l) (len (vhead v))) as (G1 & G2 & G3 & -> & ? & ?); [destruct (prev_size_cases l); lia|lia..|].
    exists G1, G2, G3. rewrite !length_app in HG. split; [done|]. lia. }
  set (m := hdr n t lf ++ E1). assert (len m = 10 + len E1) as Hm by (unfold m; rewrite length_app; lia).
  replace (hdr n t lf ++ (E1 ++ G1 ++ G2 ++ G3) ++ R) with (m ++ G1 ++ G2 ++ G3 ++ R) by (unfold m; by rewrite <- !app_assoc).
  rewrite encode_prev_ok by lia. bsimpl. unfold zipEncodeLength. cbv zeta. rewrite Henc. pose proof (prev_bytes_length (prev_size l) l (prev_size_cases l)) as Hpl.
  rewrite (app_assoc m). rewrite mwrite_app by (rewrite ?length_app; lia). bsimpl.
  rewrite (app_assoc _ (vhead v)). rewrite Hw by (rewrite ?length_app; lia). bsimpl.
  destruct (incr_length_ok n t lf (E1 ++ ebytes (prev_size l) l v ++ R) k 1) as (lf' & E & Hlf'); [done|lia|lia|lia|lia|].
  exists lf'. split; [done|]. rewrite <- E. unfold m, ebytes, vbytes. by rewrite <- !app_assoc.
Qed.

(** Insertion at the end. *)
Lemma insert_end_ok zl es s :
  zl_rep zl es → len s < 2 ^ 32 → 48 + tot es + len s < 2 ^ 32 →
  let e := mkEnt (prev_size (lastsz 0 es)) (enc_value s) in
  ∃ zl', __ziplistInsert junk zl (10 + tot es) s = Some zl' ∧ zl_rep zl' (es ++ [e]).
Proof.
  intros (lf & -> & Hc & Hb & Hlf) Hs Hsz e. pose proof (ents_length _ _ Hc) as Hl. pose proof (chain_tot _ _ Hc) as Ht.
  unfold __ziplistInsert. set (n := 11 + tot es) in *. set (t := 10 + tail_off es) in *.
  destruct (read_bytes n t lf (ents 0 es ++ [ZIP_END])) as (x & -> & Hx); [lia|]. bsimpl. rewrite Hx.
  pose proof (insert_prevlen_ok n t lf es []) as Hprev. rewrite app_nil_r in Hprev. cbn [ents app] in Hprev.
  rewrite Hprev by done. clear Hprev. bsimpl.
  set (l := lastsz 0 es) in *. assert (0 ≤ l < 2 ^ 32) as Hlb.
  { unfold l, lastsz. destruct es as [|e' es' _] using rev_ind; [cbn; lia|]. rewrite last_snoc. apply chain_app in Hc as [Hc1 Hc2].
    rewrite tot_app in *. pose proof (chain_tot _ _ Hc1). pose proof (chain_esz _ _ _ Hc2). cbn [tot] in *. lia. }
  destruct (encode_value s Hs) as (value & encoding & -> & Henc & Hw). pose proof (enc_value_ok s Hs) as Hv.
  set (v := enc_value s) in *. rewrite encode_prev_none by done. bsimpl. rewrite (encode_length_none _ _ _ _ Henc). bsimpl.
  set (reqlen := len (vbody v) + prev_size l + len (vhead v)). pose proof (hdr_length n t lf) as Hh.
  assert (prev_size l + len (vbytes v) = reqlen) as Hreq by (unfold reqlen, vbytes; rewrite length_app; lia).
  pose proof (vhead_length v Hv). pose proof (prev_size_cases l) as Hpc.
  assert (len (vbody v) ≤ len s + 8) as Hbody.
  { unfold v, enc_value. destruct (zipTryEncoding s) as [[w ee]|] eqn:E; [|cbn; lia]. apply zipTryEncoding_ok in E.
    rewrite vbody_int_len by done. destruct (int_enc_facts ee w E) as (_ & _ & ? & _). lia. }
  rewrite (app_assoc (hdr n t lf)). rewrite mget_app by (rewrite length_app; lia). bsimpl.
  change (negb (ZIP_END =? ZIP_END)) with false. cbv iota. bsimpl. rewrite <- (app_assoc (hdr n t lf)).
  destruct (zl_resize_grow junk n t lf (ents 0 es ++ [ZIP_END]) reqlen) as (J & E & HJ); [lia|rewrite length_app; cbn [length]; lia|].
  assert (10 + len (ents 0 es ++ [ZIP_END]) + reqlen = n + reqlen) as EL by (rewrite length_app; cbn [length]; lia).
  rewrite EL in E. rewrite (Z.add_0_r (n + reqlen)), E. bsimpl. rewrite <- !app_assoc, (app_assoc (hdr _ _ _)).
  pose proof (hdr_length (n + reqlen) t lf) as Hh2. cbn [app]. rewrite mget_app by (rewrite length_app; lia). bsimpl.
  change (negb (ZIP_END =? ZIP_END)) with false. cbv iota. bsimpl. rewrite <- (app_assoc (hdr _ _ _)).
  rewrite write_tail. bsimpl. change (negb (0 =? 0)) with false. cbv iota. bsimpl.
  destruct (write_entry_ok (n + reqlen) (10 + tot es) lf (ents 0 es) (ZIP_END :: J) [ZIP_END] l s (len es) value encoding)
    as (lf' & Hlf' & Ew); [done|done|cbn [length]; fold v; lia|done|lia|done|done|].
  rewrite Hl, <- !app_assoc in Ew. cbn [app] in Ew. rewrite Ew. eexists. split; [done|].
  assert (esz e = reqlen) as Hesz by (unfold e, esz; cbn [psz val]; fold v; lia).
  apply zl_rep_intro; rewrite ?tot_app, ?tail_off_snoc; cbn [tot]; try lia.
  - rewrite ents_app, <- app_assoc. cbn [ents]. rewrite app_nil_r. done.
  - apply chain_app. split; [done|]. cbn [chain e psz val]. split; [by apply prev_size_ok|done].
  - rewrite length_app. cbn [length]. by replace (Z.of_nat (length es + 1)) with (len es + 1) by lia.
Qed.

(** The entries after a change: the first has its field written anew, in as
    many bytes as it needs, and the update cascades from there. *)
Definition refit (prev : Z) (es : list zent) : list zent :=
  match es with
  | [] => []
  | e :: es => mkEnt (prev_size prev) (val e) :: widen (prev_size prev + len (vbytes (val e))) es
  end.

Lemma refit_vals prev es : val <$> refit prev es = val <$> es.
Proof. destruct es as [|e es]; [done|]. cbn. by rewrite widen_vals. Qed.

Lemma refit_length prev es : length (refit prev es) = length es.
Proof. pose proof (f_equal length (refit_vals prev es)) as E. by rewrite !length_fmap in E. Qed.

Lemma refit_tot prev old es : chain old es → tot (refit prev es) ≤ tot es + 4 * len es.
Proof.
  destruct es as [|e es]; [done|]. intros Hc. pose proof (chain_esz _ _ _ Hc) as [_ Hs]. destruct Hc as (_ & _ & Hc).
  cbn [refit tot length]. pose proof (widen_tot (prev_size prev + len (vbytes (val e))) _ _ Hc).
  unfold esz. cbn [psz val]. pose proof (prev_size_cases prev). lia.
Qed.

Lemma refit_chain prev old es :
  chain old es → 0 ≤ prev < 2 ^ 32 → tot es + 4 * len es < 2 ^ 32 → chain prev (refit prev es).
Proof.
  destruct es as [|e es]; [done|]. intros Hc Hp Hb. pose proof (chain_esz _ _ _ Hc) as [_ Hs]. destruct Hc as (_ & Hv & Hc).
  cbn [refit chain psz val tot length] in *. split; [by apply prev_size_ok|]. split; [done|].
  pose proof (chain_tot _ _ Hc). pose proof (prev_size_cases prev). unfold esz in *. cbn [psz val].
  eapply widen_chain; [exact Hc|lia|lia].
Qed.

(** The tail offset and the cascade, once the first entry after the change is
    in its place, preceded by the bytes [pre]. *)
Lemma settle_ok n t lf pre l e es ps' base :
  chain (esz e) es → val_ok (val e) → prev_ok ps' l → psz e = 1 ∨ psz e = 5 →
  let d := ps' - psz e in
  let raw := ps' + len (vbytes (val e)) in
  n = 11 + len pre + raw + tot es → n + 4 * len es < 2 ^ 32 →
  t = base + tail_off (e :: es) → 0 ≤ base ≤ 10 + len pre → t < 2 ^ 32 →
  let zl := hdr n t lf ++ pre ++ ebytes ps' l (val e) ++ ents (esz e) es ++ [ZIP_END] in
  ∃ tail b zl1,
    zipEntry zl (10 + len pre) = Some tail ∧ u32 (headersize tail + elen tail) = raw ∧ headersize tail + elen tail = raw ∧
    mget zl (10 + len pre + raw) = Some b ∧
    (if negb (b =? ZIP_END) then t ← ZIPLIST_TAIL_OFFSET zl; set_ZIPLIST_TAIL_OFFSET zl (intrev32ifbe (u32 (intrev32ifbe t + d)))
     else Some zl) = Some zl1 ∧
    ∃ t1, zl1 = hdr n t1 lf ++ pre ++ ebytes ps' l (val e) ++ ents (esz e) es ++ [ZIP_END] ∧
      (es ≠ [] → t1 = base + raw + tail_off es) ∧ 0 ≤ t1 < n ∧ (es = [] → t1 = t).
Proof.
  intros Hc Hv Hp Hs d raw Hn Hb Ht Hbase Ht2 zl. pose proof (prev_ok_size _ _ Hp) as Hps. pose proof (hdr_length n t lf) as Hh.
  assert (len (vhead (val e)) + len (vbody (val e)) = len (vbytes (val e))) as Hvb by (unfold vbytes; rewrite length_app; lia).
  pose proof (chain_tot _ _ Hc) as Htot. pose proof (vhead_length _ Hv). pose proof (tail_off_bound _ _ Hc) as Hto.
  assert (zl = (hdr n t lf ++ pre) ++ ebytes ps' l (val e) ++ ents (esz e) es ++ [ZIP_END]) as Ez by (unfold zl; by rewrite <- !app_assoc).
  assert (10 + len pre = len (hdr n t lf ++ pre)) as Ep by (rewrite length_app; lia).
  pose proof (zipEntry_ok _ _ _ _ (ents (esz e) es ++ [ZIP_END]) _ Hp Hv Ep) as He. rewrite <- Ez in He.
  eexists. rewrite He. cbn [headersize elen].
  assert (len (ebytes ps' l (val e)) = raw) as Hlen by (by rewrite ebytes_length).
  assert (mget zl (10 + len pre + raw) = head (ents (esz e) es ++ [ZIP_END])) as Hget.
  { rewrite Ez, app_assoc. destruct (ents (esz e) es ++ [ZIP_END]) as [|x rest] eqn:Er; [by destruct (ents (esz e) es)|].
    cbn [head]. apply mget_app. rewrite !length_app in *. lia. }
  rewrite Hget. destruct es as [|e2 es].
  - exists ZIP_END, zl. change (negb (ZIP_END =? ZIP_END)) with false. split; [done|]. cbn [headersize elen]. rewrite uwrap_small by (unfold raw in *; lia).
    split; [unfold raw; lia|]. split; [unfold raw; lia|]. split; [done|]. split; [done|].
    exists t. split; [done|]. split; [done|]. cbn [tail_off] in Ht. split; [lia|done].
  - cbn [ents]. pose proof Hc as (Hpe & _). destruct (prev_bytes_head _ _ Hpe) as (b & rest & Eb & Hbb & _).
    unfold ebytes at 1. rewrite Eb. cbn [app head]. exists b, (hdr n (t + d) lf ++ pre ++ ebytes ps' l (val e) ++ ents (esz e) (e2 :: es) ++ [ZIP_END]).
    rewrite (proj2 (Z.eqb_neq b ZIP_END)) by (unfold ZIP_END; lia). cbn [negb].
    split; [done|]. cbn [headersize elen]. rewrite uwrap_small by (unfold raw in *; lia).
    split; [unfold raw; lia|]. split; [unfold raw; lia|]. split; [done|].
    assert (0 ≤ t) by (cbn [tail_off] in Ht, Hto; pose proof (chain_esz _ _ _ Hc); unfold esz in Ht at 1; lia).
    split.
    + unfold zl. destruct (read_tail n t lf (pre ++ ebytes ps' l (val e) ++ ents (esz e) (e2 :: es) ++ [ZIP_END])) as (x & -> & Hx); [lia|].
      bsimpl. rewrite Hx. apply write_tail.
    + exists (t + d). split; [done|].
      assert (t + d = base + raw + tail_off (e2 :: es)) as Htd.
      { rewrite Ht. change (tail_off (e :: e2 :: es)) with (esz e + tail_off (e2 :: es)). unfold esz at 1, raw, d. lia. }
      split; [done|]. split; [|done]. rewrite Htd. unfold raw in *. lia.
Qed.

Lemma tail_off_widen ps v raw es :
  raw = ps + len (vbytes v) →
  tail_off (mkEnt ps v :: widen raw es) = match es with [] => 0 | _ => raw + tail_off (widen raw es) end.
Proof.
  intros ->. destruct es as [|e es]; [done|]. destruct (widen_tail (ps + len (vbytes v)) e es) as (e' & es' & E & _).
  cbn [tail_off]. rewrite E. done.
Qed.

(** The update, when the width of a field has changed. *)
Lemma cascade_update_ok n t lf pre l e es ps' :
  chain (esz e) es → val_ok (val e) → prev_ok ps' l → psz e = 1 ∨ psz e = 5 →
  let d := ps' - psz e in
  let raw := ps' + len (vbytes (val e)) in
  n = 11 + len pre + raw + tot es → n + 4 * len es < 2 ^ 32 →
  (es ≠ [] → t = 10 + len pre + raw + tail_off es) → 0 ≤ t < n → (es = [] → t = 10 + len pre) →
  ∃ n' t',
    (if negb (d =? 0)
     then __ziplistCascadeUpdate junk (hdr n t lf ++ pre ++ ebytes ps' l (val e) ++ ents (esz e) es ++ [ZIP_END]) (10 + len pre)
     else Some (hdr n t lf ++ pre ++ ebytes ps' l (val e) ++ ents (esz e) es ++ [ZIP_END])) =
    Some (hdr n' t' lf ++ pre ++ ebytes ps' l (val e) ++ ents raw (widen raw es) ++ [ZIP_END]) ∧
    n' = 11 + len pre + raw + tot (widen raw es) ∧ t' = 10 + len pre + tail_off (mkEnt ps' (val e) :: widen raw es).
Proof.
  intros Hc Hv Hp Hs d raw Hn Hb Ht Ht0 Htn. rewrite (tail_off_widen ps' (val e) raw) by done.
  destruct (Z.eqb_spec d 0) as [Hd|Hd]; cbn [negb].
  - assert (raw = esz e) as Hr by (unfold raw, esz, d in *; lia). rewrite Hr, widen_id by done. exists n, t.
    split; [done|]. split; [lia|]. destruct es; [rewrite Htn by done; lia|rewrite Ht by done; lia].
  - unfold __ziplistCascadeUpdate. pose proof (chain_tot _ _ Hc). assert (0 ≤ raw) by (unfold raw; destruct (prev_ok_size _ _ Hp); lia).
    destruct (read_bytes n t lf (pre ++ ebytes ps' l (val e) ++ ents (esz e) es ++ [ZIP_END])) as (x & -> & Hx); [lia|].
    bsimpl. rewrite Hx. set (zl := hdr n t lf ++ _).
    assert (length es ≤ length zl)%nat as Hf.
    { unfold zl. rewrite !length_app. pose proof (ents_length _ _ Hc). lia. }
    destruct (cascade_loop_ok junk lf es (length zl) n t pre ps' l (val e) (esz e)) as (t' & E & Ht1 & Ht2);
      [done|done|done|fold raw; lia|done|done|done|done|].
    fold raw zl in E, Ht2. rewrite E. eexists _, t'. split; [done|]. split; [lia|].
    destruct es as [|e2 es]; [rewrite Ht1, Htn by done; lia|rewrite Ht2 by done; lia].
Qed.

(** Insertion before an entry.  When the field of that entry shrinks by more
    than the new entry takes, the block would be cut before its bytes are
    moved: the last hypothesis rules this out. *)
Lemma insert_mid_ok zl es1 e es2 s :
  zl_rep zl (es1 ++ e :: es2) → len s < 2 ^ 32 → 48 + tot (es1 ++ e :: es2) + len s + 4 * len es2 < 2 ^ 32 →
  let new := mkEnt (prev_size (lastsz 0 es1)) (enc_value s) in
  0 ≤ esz new + (prev_size (esz new) - psz e) →
  ∃ zl', __ziplistInsert junk zl (10 + tot es1) s = Some zl' ∧ zl_rep zl' (es1 ++ new :: refit (esz new) (e :: es2)).
Proof.
  intros (lf & -> & Hc & Hb & Hlf) Hs Hsz new Hfit. pose proof Hc as Hc0. apply chain_app in Hc as [Hc1 Hc2].
  pose proof Hc2 as (Hpe & Hve & Hc3). pose proof (ents_length _ _ Hc1) as Hl1. pose proof (ents_length _ _ Hc3) as Hl3.
  pose proof (chain_tot _ _ Hc1). pose proof (chain_tot _ _ Hc3). pose proof (chain_esz _ _ _ Hc2) as [Hesz Hps].
  unfold __ziplistInsert. rewrite ents_app, <- app_assoc. set (l := lastsz 0 es1) in *.
  set (n := 11 + tot (es1 ++ e :: es2)) in *. set (t := 10 + tail_off (es1 ++ e :: es2)) in *.
  pose proof (tail_off_bound _ _ Hc0) as Htb.
  destruct (read_bytes n t lf (ents 0 es1 ++ ents l (e :: es2) ++ [ZIP_END])) as (x & -> & Hx); [lia|]. bsimpl. rewrite Hx.
  unfold l at 1. rewrite insert_prevlen_ok by done. bsimpl. fold l.
  assert (n = 11 + (tot es1 + (esz e + tot es2))) as Hn by (unfold n; rewrite tot_app; cbn [tot]; lia). clearbody n.
  assert (t = 10 + (tot es1 + tail_off (e :: es2))) as Ht by (unfold t; by rewrite tail_off_app). clearbody t.
  rewrite tail_off_app in Htb.
  rewrite tot_app in *. cbn [tot] in *.
  assert (0 ≤ l < 2 ^ 32) as Hlb by (destruct Hpe as [[_ ?]|[_ ?]]; unfold ZIP_BIGLEN in *; lia).
  destruct (encode_value s Hs) as (value & encoding & -> & Henc & Hw). pose proof (enc_value_ok s Hs) as Hv.
  rewrite encode_prev_none by done. bsimpl. rewrite (encode_length_none _ _ _ _ Henc). bsimpl.
  pose proof (vhead_length _ Hv). pose proof (prev_size_cases l) as Hpc.
  assert (len (vhead (enc_value s)) + len (vbody (enc_value s)) = len (vbytes (enc_value s))) as Hvb by (unfold vbytes; rewrite length_app; lia).
  set (reqlen := len (vbody (enc_value s)) + prev_size l + len (vhead (enc_value s))).
  assert (esz new = reqlen) as Hnew by (unfold new, esz, reqlen; cbn [psz val]; lia). rewrite Hnew in *.
  assert (len (vbody (enc_value s)) ≤ len s + 8) as Hbody.
  { unfold enc_value. destruct (zipTryEncoding s) as [[w ee]|] eqn:E; [|cbn; lia]. apply zipTryEncoding_ok in E.
    rewrite vbody_int_len by done. destruct (int_enc_facts ee w E) as (_ & _ & ? & _). lia. }
  cbn [ents]. rewrite <- (app_assoc (ebytes _ _ _)). pose proof (hdr_length n t lf) as Hh.
  pose proof (prev_size_cases reqlen) as Hpr. set (ps' := prev_size reqlen) in *.
  assert (hdr n t lf ++ ents 0 es1 ++ ebytes (psz e) l (val e) ++ ents (esz e) es2 ++ [ZIP_END] =
    (hdr n t lf ++ ents 0 es1) ++ ebytes (psz e) l (val e) ++ ents (esz e) es2 ++ [ZIP_END]) as Ez by (by rewrite <- app_assoc).
  assert (10 + tot es1 = len (hdr n t lf ++ ents 0 es1)) as Ep by (rewrite length_app; lia).
  destruct (ebytes_byte _ _ _ (val e) (ents (esz e) es2 ++ [ZIP_END]) _ Hpe Ep) as (b & Hb1 & Hb2). rewrite <- Ez in Hb1.
  pose proof (diff_ok _ _ _ (val e) (ents (esz e) es2 ++ [ZIP_END]) _ reqlen Hpe Ep ltac:(lia)) as Hd. rewrite <- Ez in Hd. fold ps' in Hd.
  rewrite Hb1. bsimpl. rewrite Hb2. cbn [negb]. rewrite Hd. bsimpl. clear b Hb1 Hb2 Hd.
  destruct (insert_shift n t lf (ents 0 es1) (psz e) l (val e) (ents (esz e) es2) reqlen)
    as (zl1 & b & zl2 & G & E1 & Hb1 & Hb2 & E2 & E3 & HG); [done|lia|unfold esz in *; lia|done|fold ps'; lia|].
  fold ps' in E1, E2, E3. set (d := ps' - psz e) in *. set (n1 := n + reqlen + d) in *. rewrite Hl1 in Hb1, E2, E3.
  rewrite E1. bsimpl. rewrite Hb1. bsimpl. rewrite Hb2. cbn [negb]. rewrite E2. bsimpl. rewrite E3. bsimpl.
  set (rest := (ents 0 es1 ++ G) ++ _) in *.
  destruct (read_tail n1 t lf rest) as (y & -> & Hy); [lia|]. bsimpl. rewrite Hy, write_tail. bsimpl.
  assert (len (ents 0 es1 ++ G) = tot es1 + reqlen) as Hpre by (rewrite length_app; lia).
  destruct (settle_ok n1 (t + reqlen) lf (ents 0 es1 ++ G) reqlen e es2 ps' (10 + (tot es1 + reqlen)))
    as (tail & b2 & zl3 & E4 & _ & E5 & E6 & E7 & t1 & -> & Ht1 & Ht1b & Ht1n);
    [done|done|by apply prev_size_ok; lia|done|unfold n1, d, esz in *; lia|unfold n1, d in *; lia|lia|lia|lia|].
  rewrite Hpre in E4, E6. fold rest in E4, E6, E7. fold d in E7.
  rewrite Z.add_assoc in E4. rewrite E4. bsimpl.
  replace (10 + tot es1 + (reqlen + headersize tail + elen tail)) with (10 + (tot es1 + reqlen) + (ps' + len (vbytes (val e)))) by lia.
  rewrite E6. bsimpl. rewrite E7. bsimpl. unfold rest.
  destruct (cascade_update_ok n1 t1 lf (ents 0 es1 ++ G) reqlen e es2 ps') as (n2 & t2 & E8 & Hn2 & Ht2);
    [done|done|by apply prev_size_ok; lia|done|unfold n1, d, esz in *; lia|unfold n1, d in *; lia|by rewrite Hpre|done| |].
  { intros Hes. rewrite Ht1n, Ht, Hes by done. cbn [tail_off]. lia. }
  fold d in E8. rewrite Hpre, Z.add_assoc in E8. rewrite E8. bsimpl. set (raw := ps' + len (vbytes (val e))) in *.
  destruct (write_entry_ok n2 t2 lf (ents 0 es1) G (ebytes ps' reqlen (val e) ++ ents raw (widen raw es2) ++ [ZIP_END]) l s
    (len (es1 ++ e :: es2)) value encoding) as (lf' & Hlf' & Ew); [done|done|lia|done| |done|done|].
  { rewrite length_app. cbn [length]. lia. }
  cbv zeta in Ew. rewrite Hl1 in Ew. rewrite Ew. eexists. split; [done|].
  assert (new :: refit reqlen (e :: es2) = new :: mkEnt ps' (val e) :: widen raw es2) as Eref by done. rewrite Eref.
  pose proof (widen_tot raw _ _ Hc3) as Hwt.
  assert (esz (mkEnt ps' (val e)) = raw) as Hraw by (unfold esz; done).
  apply zl_rep_intro.
  - rewrite tot_app. cbn [tot]. rewrite Hnew, Hraw, Hn2, Hpre. lia.
  - rewrite tail_off_app, Ht2, Hpre. change (tail_off (new :: mkEnt ps' (val e) :: widen raw es2)) with (esz new + tail_off (mkEnt ps' (val e) :: widen raw es2)). lia.
  - rewrite ents_app. cbn [ents]. fold l. rewrite Hnew, Hraw. by rewrite <- !app_assoc.
  - apply chain_app. split; [done|]. fold l. cbn [chain]. rewrite Hnew, Hraw. unfold new. cbn [psz val].
    split; [by apply prev_size_ok|]. split; [done|]. split; [apply prev_size_ok; lia|]. split; [done|].
    eapply widen_chain; [exact Hc3|unfold raw, esz in *; lia|lia].
  - rewrite tot_app. cbn [tot]. rewrite Hnew, Hraw. unfold raw, esz in *. lia.
  - rewrite !length_app in *. cbn [length] in *. rewrite widen_length. by replace (Z.of_nat (length es1 + S (S (length es2)))) with (Z.of_nat (length es1 + S (length es2)) + 1) by lia.
Qed.
End insertion.
