(* ===== verification/ZiplistDelete.v ===== *)
(** * Ziplists: deletion

    [__ziplistDelete] takes a run of entries out: the entry after the run gets
    the length of the entry before it, the rest moves down, and the update
    cascades when a field changes its width. *)

From S2P Require Import Prelude Endian Util Ziplist ZiplistSpec ZiplistOps.
From stdpp Require Import sets.
Local Open Scope Z_scope.

Section deletion.
Context `{Host} (junk : nat → Z).

Lemma delete_skip_ok es2 : ∀ fuel m l Y p i num,
  chain l es2 → tot es2 < 2 ^ 32 → (length es2 ≤ fuel)%nat → p = len m → i + len es2 ≤ num →
  (∃ b Y', Y = b :: Y' ∧ ((b =? ZIP_END) = true ∨ i + len es2 = num)) →
  delete_skip fuel (m ++ ents l es2 ++ Y) p i num = Some (p + tot es2, i + len es2).
Proof.
  induction es2 as [|e es2 IH]; intros fuel m l Y p i num Hc Hb Hf Hp Hnum (b & Y' & -> & Hend).
  - cbn [ents app tot length] in *. rewrite !Z.add_0_r in *.
    destruct fuel; cbn [delete_skip]; rewrite mget_app by done; bsimpl;
      (destruct Hend as [-> |Hend]; [done|]); by rewrite (proj2 (Z.ltb_ge i num)), andb_false_r by lia.
  - pose proof (esz_cut _ _ _ Hc Hb) as He. destruct Hc as (Hpe & Hve & Hc). cbn [ents tot length] in *. rewrite <- app_assoc.
    pose proof (chain_tot _ _ Hc). destruct fuel as [|fuel]; [lia|].
    destruct (ebytes_byte m _ _ (val e) (ents (esz e) es2 ++ b :: Y') p Hpe Hp) as (b0 & Hb0 & Hne).
    cbn [delete_skip]. rewrite Hb0. bsimpl. rewrite Hne. rewrite (proj2 (Z.ltb_lt i num)) by lia. cbn [negb andb].
    pose proof (ebytes_esz _ _ Hpe) as Hlen.
    rewrite (zipRawEntryLength_ok _ _ _ _ _ _ Hpe Hve Hp) by lia. bsimpl. rewrite Hlen, app_assoc.
    rewrite IH; [f_equal; f_equal; lia|done|lia|lia|rewrite length_app; lia|lia|].
    exists b, Y'. split; [done|]. destruct Hend as [?|?]; [by left|right; lia].
Qed.

Lemma tail_off_lastsz es : tail_off es = tot es - lastsz 0 es.
Proof.
  destruct es as [|e es _] using rev_ind; [done|]. rewrite tail_off_snoc, tot_app. unfold lastsz. rewrite last_snoc. cbn [tot]. lia.
Qed.

Lemma chain_first_field l e es : chain l (e :: es) → prev_size l - 1 ≤ esz e.
Proof.
  intros Hc. pose proof (chain_esz _ _ _ Hc). destruct Hc as (Hp & Hv & _). pose proof (vhead_length _ Hv).
  unfold prev_size, prev_ok, esz, vbytes in *. rewrite length_app in *.
  destruct (Z.ltb_spec l ZIP_BIGLEN), Hp as [[-> ?]|[-> ?]]; lia.
Qed.

(** The field of the entry after the run, rewritten where it will be moved from. *)
Lemma delete_field m R l2 e Y l :
  prev_ok (psz e) l2 → 0 ≤ l < 2 ^ 32 → 4 ≤ len m → prev_size l - psz e ≤ len R →
  let d := prev_size l - psz e in
  ∃ U, zipPrevEncodeLength (m ++ R ++ ebytes (psz e) l2 (val e) ++ Y) (Some (len m + len R - d)) l =
    Some (m ++ U ++ ebytes (prev_size l) l (val e) ++ Y, prev_size l) ∧ len U = len R - d.
Proof.
  intros Hp Hl Hm HR d.
  destruct (field_window (m ++ R) (psz e) l2 (vbytes (val e)) Y (prev_size l) Hp (prev_size_cases l)) as (V & A & E & HV & HA).
  { rewrite length_app. lia. }
  rewrite length_app in HV. fold d in HV. rewrite <- !app_assoc in E.
  assert (∃ U, V = m ++ U) as [U ->].
  { apply app_eq_inv in E as [(k & Ek & _)|(k & -> & _)]; [|by exists k]. exists []. rewrite app_nil_r.
    apply (f_equal length) in Ek as El. rewrite length_app in El. assert (k = []) as -> by (apply length_zero_iff_nil; unfold d in *; lia).
    by rewrite app_nil_r in Ek. }
  exists U. unfold ebytes. rewrite <- !app_assoc. rewrite <- app_assoc in E. rewrite E. rewrite length_app in HV.
  rewrite (app_assoc m U). rewrite encode_prev_ok; [|done|rewrite length_app; lia|done].
  rewrite <- !app_assoc. split; [done|lia].
Qed.

(** The run reaches the end. *)
Lemma delete_tail_ok n t lf es1 es2 :
  chain 0 (es1 ++ es2) → es2 ≠ [] → n = 11 + tot (es1 ++ es2) → n < 2 ^ 32 → lf_ok lf (len (es1 ++ es2)) → 0 ≤ t < 2 ^ 32 →
  let zl := hdr n t lf ++ ents 0 (es1 ++ es2) ++ [ZIP_END] in
  ∃ zl', (zl ← set_ZIPLIST_TAIL_OFFSET zl (intrev32ifbe (u32 (10 + tot es1 - lastsz 0 es1)));
          n ← ZIPLIST_BYTES zl;
          zl ← ziplistResize junk zl (u32 (intrev32ifbe n - tot es2 + 0));
          ZIPLIST_INCR_LENGTH zl (- len es2)) = Some zl' ∧ zl_rep zl' es1.
Proof.
  intros Hc Hne Hn Hb Hlf Ht zl. apply chain_app in Hc as [Hc1 Hc2]. pose proof (ents_length _ _ Hc1) as Hl1.
  pose proof (chain_tot _ _ Hc1). pose proof (chain_tot _ _ Hc2). rewrite tot_app in Hn. unfold zl. rewrite write_tail. bsimpl.
  destruct (read_bytes n (10 + tot es1 - lastsz 0 es1) lf (ents 0 (es1 ++ es2) ++ [ZIP_END])) as (x & -> & Hx); [lia|].
  bsimpl. rewrite Hx. rewrite ents_app, <- app_assoc. replace (n - tot es2 + 0) with (11 + len (ents 0 es1)) by lia.
  rewrite uwrap_small by lia. rewrite resize_cut by (lia || by destruct (ents (lastsz 0 es1) es2)). bsimpl. rewrite length_app in Hlf.
  destruct (incr_length_ok (11 + len (ents 0 es1)) (10 + tot es1 - lastsz 0 es1) lf (ents 0 es1 ++ [ZIP_END]) (len es1 + len es2) (- len es2))
    as (lf' & -> & Hlf'); [by rewrite <- Nat2Z.inj_add|lia|lia|lia|lia|].
  eexists. split; [done|]. apply zl_rep_intro; [lia| |done|done|lia|].
  - rewrite tail_off_lastsz. lia.
  - by replace (len es1 + len es2 + - len es2) with (len es1) in Hlf' by lia.
Qed.

(** An entry follows the run. *)
Lemma delete_mid_ok n t lf es1 es2 e es3 :
  chain 0 (es1 ++ es2 ++ e :: es3) → es2 ≠ [] → n = 11 + tot (es1 ++ es2 ++ e :: es3) → n + 4 + 4 * len es3 < 2 ^ 32 →
  t = 10 + tail_off (es1 ++ es2 ++ e :: es3) → lf_ok lf (len (es1 ++ es2 ++ e :: es3)) →
  let l := lastsz 0 es1 in
  let zl := hdr n t lf ++ ents 0 (es1 ++ es2 ++ e :: es3) ++ [ZIP_END] in
  let p := 10 + tot es1 + tot es2 in
  ∃ zl', ('(zl, nextdiff) ← (
            nextdiff ← zipPrevLenByteDiff zl p l;
            let p := p - nextdiff in
            '(zl, _) ← zipPrevEncodeLength zl (Some p) l;
            t ← ZIPLIST_TAIL_OFFSET zl;
            zl ← set_ZIPLIST_TAIL_OFFSET zl (intrev32ifbe (u32 (intrev32ifbe t - tot es2)));
            tail ← zipEntry zl p;
            b ← mget zl (p + u32 (headersize tail + elen tail));
            zl ← (if negb (b =? ZIP_END) then
                    t ← ZIPLIST_TAIL_OFFSET zl;
                    set_ZIPLIST_TAIL_OFFSET zl (intrev32ifbe (u32 (intrev32ifbe t + nextdiff)))
                  else Some zl);
            n ← ZIPLIST_BYTES zl;
            zl ← memmove zl (10 + tot es1) p (u64 (intrev32ifbe n - p - 1));
            Some (zl, nextdiff));
          n ← ZIPLIST_BYTES zl;
          zl ← ziplistResize junk zl (u32 (intrev32ifbe n - tot es2 + nextdiff));
          zl ← ZIPLIST_INCR_LENGTH zl (- len es2);
          if negb (nextdiff =? 0) then __ziplistCascadeUpdate junk zl (10 + tot es1) else Some zl) = Some zl' ∧
    zl_rep zl' (es1 ++ refit l (e :: es3)).
Proof.
  intros Hc Hne Hn Hb Ht Hlf l zl p. apply chain_app in Hc as [Hc1 Hc2]. apply chain_app in Hc2 as [Hc2 Hc3].
  fold l in Hc2, Hc3. set (l2 := lastsz l es2) in *.
  pose proof (ents_length _ _ Hc1) as Hl1. pose proof (ents_length _ _ Hc2) as Hl2.
  pose proof (chain_tot _ _ Hc1). pose proof (chain_tot _ _ Hc2) as Ht2. pose proof (chain_esz _ _ _ Hc3) as [Hez Hps].
  pose proof (tail_off_bound _ _ Hc3) as Htb.
  rewrite !tot_app in Hn. rewrite app_assoc, tail_off_app, tot_app in Ht.
  assert (prev_size l - 1 ≤ tot es2 ∧ 0 ≤ l < 2 ^ 32) as [Hfit Hlb].
  { destruct es2 as [|e2 es2]; [done|]. pose proof (chain_first_field _ _ _ Hc2). destruct Hc2 as (Hp2 & _ & Hc2).
    pose proof (chain_tot _ _ Hc2). cbn [tot]. split; [lia|]. destruct Hp2 as [[_ ?]|[_ ?]]; unfold ZIP_BIGLEN in *; lia. }
  destruct Hc3 as (Hpe & Hve & Hc3). pose proof (chain_tot _ _ Hc3). pose proof (ents_length _ _ Hc3) as Hl3. cbn [tot] in Hn, Htb.
  set (ps' := prev_size l). pose proof (prev_size_cases l) as Hpc. fold ps' in Hpc, Hfit. pose proof (prev_size_ok l Hlb) as Hpok. fold ps' in Hpok.
  set (d := ps' - psz e). set (raw := ps' + len (vbytes (val e))). assert (raw = esz e + d) as Hraw by (unfold raw, d, esz; lia).
  set (T := ents (esz e) es3) in *. set (m := hdr n t lf ++ ents 0 es1). pose proof (hdr_length n t lf) as Hh.
  assert (len m = 10 + tot es1) as Hm by (unfold m; rewrite length_app; lia).
  assert (zl = m ++ ents l es2 ++ ebytes (psz e) l2 (val e) ++ T ++ [ZIP_END]) as ->.
  { unfold zl, m. rewrite !ents_app. cbn [ents]. fold l l2 T. by rewrite <- !app_assoc. }
  assert (zipPrevLenByteDiff (m ++ ents l es2 ++ ebytes (psz e) l2 (val e) ++ T ++ [ZIP_END]) p l = Some d) as ->.
  { rewrite app_assoc. apply diff_ok; [done|rewrite length_app; unfold p; lia|done]. }
  bsimpl. cbv zeta.
  destruct (delete_field m (ents l es2) l2 e (T ++ [ZIP_END]) l Hpe Hlb) as (U & E & HU); [lia|fold ps'; lia|].
  fold ps' d in E, HU. replace (len m + len (ents l es2) - d) with (p - d) in E by (unfold p; lia). rewrite E. bsimpl. clear E.
  assert (len (ents 0 es1 ++ U) = tot es1 + tot es2 - d) as HpreU by (rewrite length_app; lia).
  set (rest := (ents 0 es1 ++ U) ++ ebytes ps' l (val e) ++ T ++ [ZIP_END]).
  assert (m ++ U ++ ebytes ps' l (val e) ++ T ++ [ZIP_END] = hdr n t lf ++ rest) as -> by (unfold m, rest; by rewrite <- !app_assoc).
  destruct (read_tail n t lf rest) as (x & -> & Hx); [lia|]. bsimpl. rewrite Hx, write_tail. bsimpl.
  destruct (settle_ok n (t - tot es2) lf (ents 0 es1 ++ U) l e es3 ps' (10 + tot es1))
    as (tail & b & zl3 & E4 & E5 & _ & E6 & E7 & t1 & -> & Ht1 & Ht1b & Ht1n); [done|done|done|done|fold raw; lia|lia|lia|lia|lia|].
  fold T raw d in E4, E5, E6, E7, Ht1 |- *. fold rest in E4, E6, E7 |- *. replace (10 + len (ents 0 es1 ++ U)) with (p - d) in E4, E6 by (unfold p; lia).
  rewrite E4. bsimpl. rewrite E5, E6. bsimpl. rewrite E7. bsimpl.
  destruct (read_bytes n t1 lf rest) as (y & -> & Hy); [lia|]. bsimpl. rewrite Hy.
  set (S := ebytes ps' l (val e) ++ T). assert (len S = raw + tot es3) as HS.
  { unfold S. rewrite length_app, Nat2Z.inj_add, ebytes_length by (by eapply prev_ok_size). unfold raw. lia. }
  pose proof (hdr_length n t1 lf) as Hh1.
  assert (hdr n t1 lf ++ rest = (hdr n t1 lf ++ ents 0 es1) ++ U ++ S ++ [ZIP_END]) as -> by (unfold rest, S; by rewrite <- !app_assoc).
  destruct (memmove_left_keep (hdr n t1 lf ++ ents 0 es1) U S [ZIP_END] (10 + tot es1) (p - d) (u64 (n - (p - d) - 1)))
    as (L & -> & HL); [rewrite length_app; lia|rewrite length_app; unfold p; lia|rewrite uwrap_small by (unfold p; lia); unfold p; lia|].
  bsimpl. rewrite <- app_assoc.
  destruct (read_bytes n t1 lf (ents 0 es1 ++ S ++ L)) as (w & -> & Hw2); [lia|]. bsimpl. rewrite Hw2.
  assert (len (ents 0 es1 ++ S) = tot es1 + raw + tot es3) as HES by (rewrite length_app; lia).
  replace (n - tot es2 + d) with (11 + len (ents 0 es1 ++ S)) by lia. rewrite uwrap_small by lia. rewrite (app_assoc (ents 0 es1)).
  rewrite resize_cut; [|by destruct L; [cbn in HL; lia|]|lia]. bsimpl. set (n1 := 11 + len (ents 0 es1 ++ S)).
  rewrite !length_app in Hlf. cbn [length] in Hlf.
  destruct (incr_length_ok n1 t1 lf ((ents 0 es1 ++ S) ++ [ZIP_END]) (Z.of_nat (length es1 + (length es2 + Datatypes.S (length es3)))) (- len es2))
    as (lf' & -> & Hlf'); [done|lia|lia|lia|lia|]. bsimpl.
  assert (hdr n1 t1 lf' ++ (ents 0 es1 ++ S) ++ [ZIP_END] =
          hdr n1 t1 lf' ++ ents 0 es1 ++ ebytes ps' l (val e) ++ ents (esz e) es3 ++ [ZIP_END]) as ->
    by (unfold S; by rewrite <- !app_assoc).
  destruct (cascade_update_ok junk n1 t1 lf' (ents 0 es1) l e es3 ps') as (n2 & t2 & E8 & Hn2 & Ht2');
    [done|done|done|done|fold raw; unfold n1; lia|unfold n1; lia|rewrite Hl1; done|unfold n1 in *| |].
  { destruct es3 as [|e4 es3]; [rewrite Ht1n by done; cbn [tail_off] in *; lia|]. specialize (Ht1 ltac:(done)).
    pose proof (tail_off_bound _ _ Hc3). lia. }
  { intros Hes. rewrite Ht1n by done. rewrite Ht, Hes. cbn [tail_off]. lia. }
  fold d raw in E8, Hn2, Ht2'. rewrite Hl1 in E8. rewrite E8. eexists. split; [done|].
  change (refit l (e :: es3)) with (mkEnt ps' (val e) :: widen raw es3).
  pose proof (widen_tot raw _ _ Hc3) as Hwt. assert (esz (mkEnt ps' (val e)) = raw) as Hraw2 by done.
  apply zl_rep_intro.
  - rewrite tot_app. cbn [tot]. rewrite Hraw2. lia.
  - rewrite tail_off_app. lia.
  - rewrite ents_app. cbn [ents]. fold l. rewrite Hraw2. by rewrite <- !app_assoc.
  - apply chain_app. split; [done|]. fold l. cbn [chain]. rewrite Hraw2. cbn [psz val]. split; [done|]. split; [done|].
    eapply widen_chain; [exact Hc3|lia|lia].
  - rewrite tot_app. cbn [tot]. rewrite Hraw2. lia.
  - rewrite length_app. cbn [length]. rewrite widen_length.
    by replace (Z.of_nat (length es1 + (length es2 + Datatypes.S (length es3))) + - len es2) with (Z.of_nat (length es1 + Datatypes.S (length es3))) in Hlf' by lia.
Qed.

(** [__ziplistDelete] at an entry removes it and the entries after it, [num]
    in all or as many as there are. *)
Lemma delete_ok zl es1 e es2 num :
  zl_rep zl (es1 ++ e :: es2) → 15 + tot (es1 ++ e :: es2) + 4 * len es2 < 2 ^ 32 → 1 ≤ num →
  ∃ zl', __ziplistDelete junk zl (10 + tot es1) num = Some zl' ∧
    zl_rep zl' (es1 ++ refit (lastsz 0 es1) (drop (Z.to_nat num) (e :: es2))).
Proof.
  intros (lf & -> & Hc & Hb & Hlf) Hsz Hnum.
  set (R := take (Z.to_nat num) (e :: es2)). set (es3 := drop (Z.to_nat num) (e :: es2)).
  assert (e :: es2 = R ++ es3) as Esplit by (symmetry; apply take_drop).
  assert (R ≠ []) as HR by (unfold R; destruct (Z.to_nat num) eqn:En; [lia|done]).
  assert (len R = num ∨ es3 = [] ∧ len R ≤ num) as HlenR.
  { destruct (decide (num ≤ len (e :: es2))); [left|right]; unfold R, es3; rewrite length_take; [lia|].
    split; [apply drop_ge; lia|lia]. }
  pose proof Hc as Hc0. apply chain_app in Hc as [Hc1 Hc2]. pose proof (ents_length _ _ Hc1) as Hl1. pose proof (chain_tot _ _ Hc1).
  set (n := 11 + tot (es1 ++ e :: es2)) in *. set (t := 10 + tail_off (es1 ++ e :: es2)) in *. pose proof (hdr_length n t lf) as Hh.
  pose proof (tail_off_bound _ _ Hc0) as Htb.
  assert (10 + tot es1 = len (hdr n t lf ++ ents 0 es1)) as Ep by (rewrite length_app; lia).
  unfold __ziplistDelete. set (zl := hdr n t lf ++ _).
  assert (zl = (hdr n t lf ++ ents 0 es1) ++ ents (lastsz 0 es1) (e :: es2) ++ [ZIP_END]) as Ez
    by (unfold zl; rewrite ents_app; by rewrite <- !app_assoc).
  assert (zipEntry zl (10 + tot es1) = Some (mkZlentry (psz e) (lastsz 0 es1) (len (vhead (val e))) (len (vbody (val e)))
            (psz e + len (vhead (val e))) (venc (val e)) (10 + tot es1))) as ->.
  { rewrite Ez. cbn [ents]. rewrite <- (app_assoc (ebytes _ _ _)). destruct Hc2 as (? & ? & _). by apply zipEntry_ok. }
  bsimpl. cbn [ep prevrawlen]. rewrite Esplit in Hc2, Ez. pose proof Hc2 as Hc3. apply chain_app in Hc2 as [HcR Hc4].
  pose proof (ents_length _ _ HcR) as HlR. pose proof (chain_tot _ _ HcR). pose proof (chain_tot _ _ Hc4).
  assert (tot (es1 ++ e :: es2) = tot es1 + tot R + tot es3) as Htt by (rewrite Esplit, !tot_app; lia).
  assert (delete_skip (length zl) zl (10 + tot es1) 0 num = Some (10 + tot es1 + tot R, len R)) as ->.
  { rewrite Ez at 2. rewrite ents_app, <- (app_assoc (ents _ R)).
    rewrite (delete_skip_ok R); [f_equal; f_equal; lia|done|lia| |done|lia|].
    - rewrite Ez, !length_app, ents_app, length_app. lia.
    - destruct es3 as [|e3 es3']; [exists ZIP_END, []; split; [done|by left]|]. destruct HlenR as [HlenR|[? _]]; [|done].
      destruct Hc4 as (Hpe3 & _). destruct (prev_bytes_head _ _ Hpe3) as (b & rest & Eb & _).
      cbn [ents]. unfold ebytes. rewrite Eb. cbn [app]. eexists _, _. split; [done|right; lia]. }
  bsimpl. replace (10 + tot es1 + tot R - (10 + tot es1)) with (tot R) by lia. rewrite (uwrap_small 32 (tot R)) by lia.
  assert ((tot R >? 0) = true) as ->.
  { rewrite Z.gtb_ltb. apply Z.ltb_lt. destruct R; [done|]. cbn [length] in *. lia. }
  clearbody es3 R. unfold zl, n, t in *. clear zl n t. rewrite Esplit in *. set (n := 11 + tot (es1 ++ R ++ es3)) in *.
  set (t := 10 + tail_off (es1 ++ R ++ es3)) in *. set (zl := hdr n t lf ++ ents 0 (es1 ++ R ++ es3) ++ [ZIP_END]) in *. destruct es3 as [|e3 es3].
  - assert (mget zl (10 + tot es1 + tot R) = Some ZIP_END) as ->.
    { rewrite Ez, app_nil_r, app_assoc. apply mget_app. rewrite length_app. lia. }
    bsimpl. change (negb (ZIP_END =? ZIP_END)) with false. cbv iota. unfold zl, n, t in *. clear zl n t. rewrite app_nil_r in *.
    set (n := 11 + tot (es1 ++ R)) in *. set (t := 10 + tail_off (es1 ++ R)) in *. set (zl := hdr n t lf ++ ents 0 (es1 ++ R) ++ [ZIP_END]) in *.
    destruct (delete_tail_ok n t lf es1 R) as (zl' & E & Hr'); [done|done|done|done|done|unfold t; lia|].
    fold zl in E. exists zl'. split; [|cbn [refit]; by rewrite app_nil_r]. rewrite <- E.
    destruct (set_ZIPLIST_TAIL_OFFSET zl _) as [zl1|]; [|done]. bsimpl. destruct (ZIPLIST_BYTES zl1); [|done]. bsimpl.
    destruct (ziplistResize _ _ _); [|done]. bsimpl. by destruct (ZIPLIST_INCR_LENGTH _ _).
  - assert (∃ b, mget zl (10 + tot es1 + tot R) = Some b ∧ (b =? ZIP_END) = false) as (b & -> & Hne).
    { rewrite Ez, ents_app. cbn [ents]. rewrite <- !(app_assoc (ents _ R)), <- (app_assoc (ebytes _ _ _)), app_assoc.
      destruct Hc4 as (Hpe3 & _). apply ebytes_byte; [done|]. rewrite length_app. lia. }
    bsimpl. rewrite Hne. cbn [negb].
    destruct (delete_mid_ok n t lf es1 R e3 es3) as (zl' & E & Hr'); [done|done|done| |done|done|].
    { apply (f_equal length) in Esplit. rewrite length_app in Esplit. cbn [length] in Esplit. lia. }
    exists zl'. split; [|done]. rewrite <- E. fold zl. done.
Qed.
End deletion.
