(* ===== verification/ZiplistNav.v ===== *)
(** * Walking and reading a ziplist

    Indexing from both ends, stepping in both directions, reading, comparing,
    searching and counting, on the entries a ziplist holds. *)

From S2P Require Import Prelude Endian Util Ziplist ZiplistSpec ZiplistOps ZiplistDelete.
From stdpp Require Import sets.
Local Open Scope Z_scope.

Section navigation.
Context `{Host} (junk : nat → Z).
Implicit Types es A B : list zent.

(** The offset after the entries [A]. *)
Definition at_ (A : list zent) : Z := 10 + tot A.

(** What there is at the offset after [A]. *)
Lemma rep_at zl A B :
  zl_rep zl (A ++ B) →
  ∃ pre, zl = pre ++ ents (lastsz 0 A) B ++ [ZIP_END] ∧ len pre = at_ A ∧ chain (lastsz 0 A) B ∧
    at_ A + tot B + 1 < 2 ^ 32 ∧ 0 ≤ tot A.
Proof.
  intros (lf & -> & Hc & Hb & _). apply chain_app in Hc as [Hc1 Hc2]. rewrite ents_app, <- app_assoc, app_assoc.
  eexists. split; [done|]. pose proof (ents_length _ _ Hc1). pose proof (chain_tot _ _ Hc1). rewrite tot_app in *. unfold at_.
  split; [|split; [done|lia]]. rewrite length_app.
  match goal with |- context [hdr ?a ?b ?c] => pose proof (hdr_length a b c) end. lia.
Qed.

Lemma rep_end zl es : zl_rep zl es → mget zl (at_ es) = Some ZIP_END.
Proof.
  intros Hr. rewrite <- (app_nil_r es) in Hr. apply rep_at in Hr as (pre & -> & Hl & _). cbn [ents app]. by apply mget_app.
Qed.

Lemma rep_entry zl A e B :
  zl_rep zl (A ++ e :: B) →
  ∃ b, mget zl (at_ A) = Some b ∧ (b =? ZIP_END) = false ∧
    zipRawEntryLength zl (at_ A) = Some (esz e) ∧ ZIP_DECODE_PREVLEN zl (at_ A) = Some (psz e, lastsz 0 A) ∧
    zipEntry zl (at_ A) = Some (mkZlentry (psz e) (lastsz 0 A) (len (vhead (val e))) (len (vbody (val e)))
                                  (psz e + len (vhead (val e))) (venc (val e)) (at_ A)).
Proof.
  intros Hr. apply rep_at in Hr as (pre & -> & Hl & Hc & Hb & _). pose proof Hc as (Hp & Hv & Hc2). cbn [ents tot] in *.
  rewrite <- app_assoc. symmetry in Hl. pose proof (chain_tot _ _ Hc2).
  assert (0 ≤ at_ A) by (rewrite Hl; lia).
  destruct (ebytes_byte pre _ _ (val e) (ents (esz e) B ++ [ZIP_END]) _ Hp Hl) as (b & -> & Hne). exists b.
  split; [done|]. split; [done|]. pose proof (ebytes_esz _ _ Hp) as He. split; [rewrite zipRawEntryLength_ok by (done || lia); by rewrite He|].
  split; [|by apply zipEntry_ok]. unfold ebytes. rewrite <- app_assoc. by apply decode_prevlen_ok.
Qed.

Lemma at_snoc A e : at_ (A ++ [e]) = at_ A + esz e.
Proof. unfold at_. rewrite tot_app. cbn [tot]. lia. Qed.

Lemma index_forward_ok zl B : ∀ fuel A k,
  zl_rep zl (A ++ B) → 0 ≤ k → (length B ≤ fuel)%nat →
  ∃ k', index_forward fuel zl (at_ A) k = Some (at_ (A ++ take (Z.to_nat k) B), k') ∧
    (k < len B → k' = -1) ∧ (len B ≤ k → 0 ≤ k').
Proof.
  induction B as [|e B IH]; intros fuel A k Hr Hk Hf.
  - rewrite app_nil_r in Hr. rewrite take_nil, app_nil_r. exists k. cbn [length].
    destruct fuel; cbn [index_forward]; rewrite (rep_end _ _ Hr); bsimpl; (split; [done|lia]).
  - destruct (rep_entry _ _ _ _ Hr) as (b & Hb & Hne & Hraw & _). cbn [length] in *. destruct fuel as [|fuel]; [lia|].
    cbn [index_forward]. rewrite Hb. bsimpl. rewrite Hne. cbn [negb]. destruct (Z.eqb_spec k 0) as [-> |Hk0]; cbn [negb].
    + exists (0 - 1). cbn [Z.to_nat take]. rewrite app_nil_r. split; [done|lia].
    + rewrite Hraw. bsimpl. rewrite <- at_snoc. destruct (IH fuel (A ++ [e]) (k - 1)) as (k' & E & H1 & H2);
        [by rewrite <- app_assoc|lia|lia|]. exists k'. rewrite E, <- app_assoc.
      replace (Z.to_nat k) with (S (Z.to_nat (k - 1))) by lia. split; [done|lia].
Qed.

Lemma index_back_ok zl A : ∀ fuel e B k,
  zl_rep zl (A ++ e :: B) → 0 ≤ k → (length A ≤ fuel)%nat →
  ∃ k', index_back fuel zl (at_ A) (lastsz 0 A) k = Some (at_ (take (length A - Z.to_nat k) A), k') ∧
    (k ≤ len A → k' ≤ 0) ∧ (len A < k → 0 < k').
Proof.
  induction A as [|a A IH] using rev_ind; intros fuel e B k Hr Hk Hf.
  - exists k. cbn [length]. rewrite take_nil. destruct fuel; cbn; (split; [done|lia]).
  - unfold lastsz. rewrite last_snoc. rewrite length_app in *. cbn [length] in *.
    pose proof Hr as Hr2. rewrite <- app_assoc in Hr. cbn [app] in Hr.
    destruct (rep_entry _ _ _ _ Hr) as (b & _ & _ & _ & Hdec & _).
    assert (2 ≤ esz a) as Ha by (apply rep_at in Hr as (_ & _ & _ & Hc & _); apply (chain_esz _ _ _ Hc)).
    destruct fuel as [|fuel]; [lia|]. cbn [index_back]. rewrite Z.gtb_ltb, (proj2 (Z.ltb_lt _ _)) by lia.
    destruct (Z.eqb_spec k 0) as [-> |Hk0]; cbn [negb].
    + exists (0 - 1). rewrite take_ge by (rewrite length_app; cbn; lia). split; [done|lia].
    + replace (at_ (A ++ [a]) - esz a) with (at_ A) by (rewrite at_snoc; lia). rewrite Hdec. bsimpl.
      destruct (IH fuel a (e :: B) (k - 1)) as (k' & E & H1 & H2); [done|lia|lia|]. exists k'. rewrite E.
      rewrite take_app_le by lia. replace (length A + 1 - Z.to_nat k)%nat with (length A - Z.to_nat (k - 1))%nat by lia.
      split; [done|lia].
Qed.

Lemma rep_fuel zl es : zl_rep zl es → (length es ≤ length zl)%nat.
Proof.
  intros (lf & -> & Hc & _). pose proof (chain_tot _ _ Hc). pose proof (ents_length _ _ Hc). rewrite !length_app. lia.
Qed.

Lemma rep_esz zl A e B : zl_rep zl (A ++ e :: B) → 2 ≤ esz e ∧ 0 ≤ tot A.
Proof. intros (_ & _ & _ & Hc & _ & Ht)%rep_at. split; [apply (chain_esz _ _ _ Hc)|done]. Qed.

Lemma rep_tail zl es : zl_rep zl es → ZIPLIST_ENTRY_TAIL zl = Some (10 + tail_off es).
Proof.
  intros (lf & -> & Hc & Hb & _). unfold ZIPLIST_ENTRY_TAIL. pose proof (tail_off_bound _ _ Hc).
  destruct (read_tail (11 + tot es) (10 + tail_off es) lf (ents 0 es ++ [ZIP_END])) as (x & -> & Hx); [lia|]. bsimpl. by rewrite Hx.
Qed.

(** The position an index means: from the front, or from the back if negative. *)
Definition position (k : Z) (n : Z) : option nat :=
  if k <? 0 then if - k <=? n then Some (Z.to_nat (n + k)) else None
  else if k <? n then Some (Z.to_nat k) else None.

Lemma ziplistIndex_ok zl es k :
  zl_rep zl es → ziplistIndex zl k = Some ((λ i, at_ (take i es)) <$> position k (len es)).
Proof.
  intros Hr. pose proof (rep_fuel _ _ Hr) as Hf. unfold ziplistIndex, position. destruct (Z.ltb_spec k 0) as [Hk|Hk].
  - rewrite (rep_tail _ _ Hr). bsimpl. destruct es as [|e es _] using rev_ind.
    + cbn [tail_off length]. pose proof (rep_end _ _ Hr) as He. unfold at_ in He. cbn [tot] in He. rewrite He. bsimpl.
      change (negb (ZIP_END =? ZIP_END)) with false. cbv iota. bsimpl. rewrite He. bsimpl. by rewrite (proj2 (Z.leb_gt _ _)) by lia.
    + rewrite tail_off_snoc. change (10 + tot es) with (at_ es). rewrite length_app in *. cbn [length] in *.
      destruct (rep_entry _ _ _ _ Hr) as (b & -> & Hne & _ & Hdec & _). bsimpl. rewrite Hne. cbn [negb]. rewrite Hdec. bsimpl.
      destruct (index_back_ok zl es (length zl) e [] (- k - 1)) as (k' & -> & H1 & H2); [done|lia|lia|]. bsimpl.
      set (i := (length es - Z.to_nat (- k - 1))%nat).
      assert (∃ A e' B, es ++ [e] = A ++ e' :: B ∧ A = take i es) as (A & e' & B & HA & EA).
      { destruct (drop i (es ++ [e])) as [|e' B] eqn:Ed.
        - apply (f_equal length) in Ed. rewrite length_drop, length_app in Ed. cbn [length] in Ed. lia.
        - exists (take i es), e', B. rewrite <- Ed. split; [|done]. rewrite <- (take_app_le es [e]) by lia. by rewrite take_drop. }
      rewrite <- EA. rewrite HA in Hr. destruct (rep_entry _ _ _ _ Hr) as (b' & -> & Hne' & _). bsimpl. rewrite Hne'. cbn [orb].
      rewrite Z.gtb_ltb. destruct (Z.leb_spec (- k) (Z.of_nat (length es + 1))) as [Hle|Hgt].
      * rewrite (proj2 (Z.ltb_ge _ _)) by lia. cbn. rewrite EA. do 3 f_equal. rewrite take_app_le by lia. f_equal. lia.
      * by rewrite (proj2 (Z.ltb_lt _ _)) by lia.
  - change ZIPLIST_HEADER_SIZE with (at_ []). destruct (index_forward_ok zl es (length zl) [] k) as (k' & -> & H1 & H2); [done|lia|done|].
    bsimpl. cbn [app]. destruct (Z.ltb_spec k (len es)) as [Hlt|Hge].
    + destruct (lookup_lt_is_Some_2 es (Z.to_nat k)) as [e He]; [lia|]. rewrite <- (take_drop_middle _ _ _ He) in Hr.
      destruct (rep_entry _ _ _ _ Hr) as (b & -> & Hne & _). bsimpl. rewrite Hne. cbn [orb].
      rewrite Z.gtb_ltb, (proj2 (Z.ltb_ge _ _)) by lia. done.
    + rewrite take_ge by lia. by rewrite (rep_end _ _ Hr).
Qed.

Lemma ziplistNext_ok zl A e B :
  zl_rep zl (A ++ e :: B) → ziplistNext zl (at_ A) = Some (match B with [] => None | _ => Some (at_ (A ++ [e])) end).
Proof.
  intros Hr. destruct (rep_entry _ _ _ _ Hr) as (b & Hb & Hne & Hraw & _). unfold ziplistNext. rewrite Hb. bsimpl. rewrite Hne, Hraw. bsimpl.
  rewrite <- at_snoc. replace (A ++ e :: B) with ((A ++ [e]) ++ B) in Hr by (by rewrite <- app_assoc). destruct B as [|e2 B].
  - rewrite app_nil_r in Hr. by rewrite (rep_end _ _ Hr).
  - destruct (rep_entry _ _ _ _ Hr) as (b2 & -> & Hne2 & _). bsimpl. by rewrite Hne2.
Qed.

Lemma ziplistPrev_ok zl A B :
  zl_rep zl (A ++ B) → ziplistPrev zl (at_ A) = Some (match last A with None => None | Some e => Some (at_ A - esz e) end).
Proof.
  intros Hr. unfold ziplistPrev. destruct B as [|e B].
  - rewrite app_nil_r in Hr. rewrite (rep_end _ _ Hr). bsimpl. rewrite Z.eqb_refl, (rep_tail _ _ Hr). bsimpl.
    destruct A as [|a A _] using rev_ind.
    + cbn [tail_off]. pose proof (rep_end _ _ Hr) as He. unfold at_ in He. cbn [tot] in He. rewrite He. done.
    + rewrite tail_off_snoc, last_snoc, at_snoc. change (10 + tot A) with (at_ A).
      destruct (rep_entry _ _ _ _ Hr) as (b & -> & Hne & _). bsimpl. rewrite Hne. do 2 f_equal. lia.
  - destruct (rep_entry _ _ _ _ Hr) as (b & -> & Hne & _ & Hdec & _). bsimpl. rewrite Hne.
    destruct A as [|a A _] using rev_ind; [done|].
    rewrite <- app_assoc in Hr. destruct (rep_esz _ _ _ _ Hr) as [Ha Ht]. rewrite at_snoc.
    unfold at_ at 1, ZIPLIST_HEADER_SIZE. rewrite (proj2 (Z.eqb_neq _ _)) by lia. rewrite <- at_snoc, Hdec. bsimpl.
    unfold lastsz. rewrite last_snoc, Z.gtb_ltb, (proj2 (Z.ltb_lt _ _)) by lia. done.
Qed.

(** ** Reading *)

Lemma rep_val zl A e B : zl_rep zl (A ++ e :: B) → val_ok (val e).
Proof. intros (_ & _ & _ & (_ & Hv & _) & _)%rep_at. done. Qed.

(** The bytes of the value of an entry. *)
Lemma rep_body zl A e B :
  zl_rep zl (A ++ e :: B) →
  ∃ m1 m3, zl = m1 ++ vbody (val e) ++ m3 ∧ len m1 = at_ A + (psz e + len (vhead (val e))).
Proof.
  intros Hr. apply rep_at in Hr as (pre & -> & Hl & Hc & _). pose proof Hc as (Hp & _ & _). cbn [ents]. unfold ebytes, vbytes.
  exists (pre ++ prev_bytes (psz e) (lastsz 0 A) ++ vhead (val e)). eexists. split; [by rewrite <- !app_assoc|].
  rewrite !length_app, !Nat2Z.inj_add, prev_bytes_length by (by eapply prev_ok_size). lia.
Qed.

Lemma rep_load zl A e B ev v :
  zl_rep zl (A ++ e :: B) → val e = VInt ev v → zipLoadInteger zl (at_ A + (psz e + len (vhead (val e)))) ev = Some v.
Proof.
  intros Hr Hve. pose proof (rep_val _ _ _ _ Hr) as Hok. apply rep_body in Hr as (m1 & m3 & -> & <-). rewrite Hve in *. by apply load_integer_ok.
Qed.

Lemma rep_string zl A e B bs :
  zl_rep zl (A ++ e :: B) → val e = VStr bs → mread zl (at_ A + (psz e + len (vhead (val e)))) (len bs) = Some bs.
Proof. intros Hr Hve. apply rep_body in Hr as (m1 & m3 & -> & <-). rewrite Hve. cbn [vbody]. by apply mread_app. Qed.

(** What [ziplistGet] tells of the entry after [A]. *)
Definition got (A : list zent) (e : zent) : zlvalue :=
  match val e with VStr bs => ZStr (at_ A + (psz e + len (vhead (val e)))) (len bs) | VInt _ v => ZInt v end.

Lemma ziplistGet_ok zl A e B : zl_rep zl (A ++ e :: B) → ziplistGet zl (at_ A) = Some (Some (got A e)).
Proof.
  intros Hr. destruct (rep_entry _ _ _ _ Hr) as (b & Hb & Hne & _ & _ & He). unfold ziplistGet, got. rewrite Hb. bsimpl. rewrite Hne, He. bsimpl.
  cbn [eencoding headersize elen]. destruct (venc_facts _ (rep_val _ _ _ _ Hr)) as [_ ->]. destruct (val e) as [bs|ev v] eqn:Hve.
  - cbn [vbody]. done.
  - pose proof (rep_load _ _ _ _ _ _ Hr Hve) as Hload. rewrite Hve in Hload. cbn [venc]. by rewrite Hload.
Qed.

(** The test of [ziplistCompare] and [ziplistFind]. *)
Definition zmatch (v : zval) (s : list Z) : bool :=
  match v with
  | VStr bs => bool_decide (bs = s)
  | VInt _ n => match zipTryEncoding s with Some (n', _) => n =? n' | None => false end
  end.

Lemma str_match (bs s : list Z) :
  (if len bs =? len s then bool_decide (bs = s) else false) = bool_decide (bs = s).
Proof. destruct (Z.eqb_spec (len bs) (len s)); [done|]. symmetry. apply bool_decide_eq_false. by intros ->. Qed.

Lemma ziplistCompare_ok zl A e B s : zl_rep zl (A ++ e :: B) → ziplistCompare zl (at_ A) s = Some (zmatch (val e) s).
Proof.
  intros Hr. destruct (rep_entry _ _ _ _ Hr) as (b & Hb & Hne & _ & _ & He). unfold ziplistCompare. rewrite Hb. bsimpl. rewrite Hne, He. bsimpl.
  cbn [eencoding headersize elen]. destruct (venc_facts _ (rep_val _ _ _ _ Hr)) as [_ ->]. destruct (val e) as [bs|ev v] eqn:Hve; unfold zmatch.
  - cbn [vbody]. rewrite <- str_match. destruct (Z.eqb_spec (len bs) (len s)) as [El|]; [|done].
    pose proof (rep_string _ _ _ _ _ Hr Hve) as Hs. rewrite Hve, El in Hs. by rewrite Hs.
  - destruct (zipTryEncoding s) as [[n' ?]|]; [|done]. pose proof (rep_load _ _ _ _ _ _ Hr Hve) as Hload. rewrite Hve in Hload.
    cbn [venc]. by rewrite Hload.
Qed.

(** ** Counting *)

Lemma count_loop_ok zl B : ∀ fuel A n,
  zl_rep zl (A ++ B) → (length B ≤ fuel)%nat → 0 ≤ n → n + len B < 2 ^ 32 → count_loop fuel zl (at_ A) n = Some (n + len B).
Proof.
  induction B as [|e B IH]; intros fuel A n Hr Hf Hn Hb.
  - rewrite app_nil_r in Hr. destruct fuel; cbn [count_loop]; rewrite (rep_end _ _ Hr); bsimpl;
      change (negb (ZIP_END =? ZIP_END)) with false; cbv iota; cbn [length]; f_equal; lia.
  - destruct (rep_entry _ _ _ _ Hr) as (b & Hb' & Hne & Hraw & _). cbn [length] in *. destruct fuel as [|fuel]; [lia|].
    cbn [count_loop]. rewrite Hb'. bsimpl. rewrite Hne, Hraw. cbn [negb]. bsimpl. rewrite <- at_snoc, uwrap_small by lia.
    rewrite IH; [f_equal; lia|by rewrite <- app_assoc|lia|lia|lia].
Qed.

Lemma rep_len zl es : zl_rep zl es → len zl = 11 + tot es ∧ 2 * len es ≤ tot es ∧ 11 + tot es < 2 ^ 32.
Proof.
  intros (lf & -> & Hc & Hb & _). pose proof (ents_length _ _ Hc). pose proof (chain_tot _ _ Hc).
  rewrite !length_app. pose proof (hdr_length (11 + tot es) (10 + tail_off es) lf). cbn [length]. lia.
Qed.

Lemma ziplistLen_ok zl es : zl_rep zl es → ∃ zl', ziplistLen zl = Some (zl', len es) ∧ zl_rep zl' es.
Proof.
  intros Hr. pose proof (rep_len _ _ Hr) as (_ & Hn & Hb). pose proof (rep_fuel _ _ Hr) as Hf. pose proof Hr as (lf & Ez & Hc & _ & Hlf).
  assert (ZIPLIST_LENGTH zl = Some (host_val (le_bytes 2 lf))) as El by (rewrite Ez; apply read_length).
  unfold ziplistLen. rewrite El. bsimpl. rewrite intrev16ifbe_host_val.
  assert (0 ≤ lf ≤ UINT16_MAX) as Hlr by (destruct Hlf as [-> | [-> ?]]; unfold UINT16_MAX in *; lia).
  rewrite uwrap_small by (unfold UINT16_MAX in Hlr; lia). destruct (Z.ltb_spec lf UINT16_MAX) as [Hl|Hl].
  - destruct Hlf as [-> | [-> _]]; [lia|]. by exists zl.
  - change ZIPLIST_HEADER_SIZE with (at_ []). rewrite (count_loop_ok zl es) by (done || lia). bsimpl. rewrite Z.add_0_l.
    destruct (Z.ltb_spec (len es) UINT16_MAX) as [Hk|Hk]; [|by exists zl].
    assert (set_ZIPLIST_LENGTH zl (intrev16ifbe (u16 (len es))) = Some (hdr (11 + tot es) (10 + tail_off es) (len es) ++ ents 0 es ++ [ZIP_END]))
      as Ew by (rewrite Ez; apply write_length).
    rewrite uwrap_small in Ew by (unfold UINT16_MAX in Hk; lia). rewrite Ew. bsimpl. eexists. split; [done|]. apply zl_rep_intro; try done. by right.
Qed.

(** ** Searching *)

(** The first entry matching [s], looking at one and skipping [skip]. *)
Fixpoint first_match (skip : nat) (cnt : nat) (vs : list zval) (s : list Z) : option nat :=
  match vs with
  | [] => None
  | v :: vs =>
      match cnt with
      | O => if zmatch v s then Some O else S <$> first_match skip skip vs s
      | S cnt => S <$> first_match skip cnt vs s
      end
  end.

(** What the search remembers of the integer it looks for. *)
Definition enc_state (s : list Z) (vencoding vll : Z) : Prop :=
  vencoding = 0 ∨
  match zipTryEncoding s with Some (v, e) => vencoding = e ∧ vll = v | None => vencoding = UCHAR_MAX end.

Lemma find_loop_ok zl s (skip : nat) B : ∀ fuel A (cnt : nat) ve vll,
  zl_rep zl (A ++ B) → (length B ≤ fuel)%nat → enc_state s ve vll →
  find_loop fuel zl (at_ A) s (Z.of_nat skip) (Z.of_nat cnt) ve vll =
  Some ((λ j, at_ (A ++ take j B)) <$> first_match skip cnt (val <$> B) s).
Proof.
  induction B as [|e B IH]; intros fuel A cnt ve vll Hr Hf Hst.
  - rewrite app_nil_r in Hr. destruct fuel; cbn [find_loop]; rewrite (rep_end _ _ Hr); done.
  - destruct (rep_entry _ _ _ _ Hr) as (b & Hb' & Hne & Hraw & Hdec & He). cbn [length] in *. destruct fuel as [|fuel]; [lia|].
    pose proof (rep_val _ _ _ _ Hr) as Hok.
    assert (ZIP_DECODE_PREVLENSIZE zl (at_ A) = Some (psz e) ∧
      ZIP_DECODE_LENGTH zl (at_ A + psz e) = Some (venc (val e), len (vhead (val e)), len (vbody (val e)))) as [Hps Hdl].
    { clear - Hr Hok. apply rep_at in Hr as (pre & -> & Hl & (Hp & _ & _) & _). cbn [ents]. rewrite <- app_assoc.
      split; [unfold ebytes; rewrite <- app_assoc; by eapply decode_prevlensize_ok|]. by apply decode_length_entry. }
    cbn [find_loop fmap list_fmap first_match]. rewrite Hb'. bsimpl. rewrite Hne, Hps. cbn [negb]. bsimpl. rewrite Hdl. bsimpl. cbv zeta.
    replace (at_ A + psz e + len (vhead (val e)) + len (vbody (val e))) with (at_ (A ++ [e]))
      by (rewrite at_snoc; unfold esz, vbytes; rewrite length_app; lia).
    rewrite <- Z.add_assoc. destruct (venc_facts _ Hok) as [_ ->].
    assert (zl_rep zl ((A ++ [e]) ++ B)) as Hr' by (by rewrite <- app_assoc).
    assert (∀ c ve vll, enc_state s ve vll →
      find_loop fuel zl (at_ (A ++ [e])) s (Z.of_nat skip) (Z.of_nat c) ve vll =
      Some ((λ j, at_ (A ++ take j (e :: B))) <$> (S <$> first_match skip c (val <$> B) s))) as IH'.
    { intros c ve' vll' Hst'. rewrite IH by (done || lia). f_equal. destruct (first_match _ _ _ _); [|done].
      cbn. by rewrite <- app_assoc. }
    destruct cnt as [|cnt]; [|rewrite (proj2 (Z.eqb_neq _ _)) by lia; bsimpl; replace (Z.of_nat (S cnt) - 1) with (Z.of_nat cnt) by lia; by apply IH'].
    change (Z.of_nat 0 =? 0) with true. cbv iota. unfold zmatch at 1. destruct (val e) as [bs|ev v] eqn:Hve.
    + cbn [vbody]. pose proof (str_match bs s) as Hsm. destruct (Z.eqb_spec (len bs) (len s)) as [El|En].
      * pose proof (rep_string _ _ _ _ _ Hr Hve) as Hs. rewrite Hve, El in Hs. rewrite Hs. bsimpl. unfold memequal.
        destruct (bool_decide (bs = s)); [cbn; by rewrite app_nil_r|by apply IH'].
      * rewrite <- Hsm. bsimpl. by apply IH'.
    + set (p := if ve =? 0 then _ else _).
      assert (match zipTryEncoding s with Some (v, e) => p = (e, v) ∧ e ≠ 0 ∧ e ≠ UCHAR_MAX | None => p.1 = UCHAR_MAX end) as Hp.
      { unfold p. destruct (zipTryEncoding s) as [[v' e']|] eqn:Et.
        - pose proof (zipTryEncoding_ok _ _ _ Et) as (_ & He' & _)%int_enc_facts. unfold ZIP_STR_MASK, UCHAR_MAX in *.
          destruct Hst as [-> |Hst]; [by split; [|lia]|]. rewrite Et in Hst. destruct Hst as [-> ->].
          rewrite (proj2 (Z.eqb_neq _ _)) by lia. split; [done|lia].
        - destruct Hst as [-> |Hst]; [done|]. rewrite Et in Hst. by rewrite Hst. }
      destruct p as [ve' vll'] eqn:Ep. clear Ep p. cbn [venc].
      assert (enc_state s ve' vll') as Hst'.
      { right. destruct (zipTryEncoding s) as [[v' e']|]; [|done]. destruct Hp as [[= -> ->] _]. done. }
      destruct (zipTryEncoding s) as [[v' e']|] eqn:Et.
      * destruct Hp as ([= -> ->] & _ & Hu). rewrite (proj2 (Z.eqb_neq _ _)) by done. cbn [negb].
        pose proof (rep_load _ _ _ _ _ _ Hr Hve) as Hload. rewrite Hve in Hload. rewrite Hload. bsimpl.
        destruct (v =? v'); [cbn; by rewrite app_nil_r|by apply IH'].
      * cbn [fst] in Hp. rewrite Hp in *. change (negb (UCHAR_MAX =? UCHAR_MAX)) with false. cbv iota. bsimpl. by apply IH'.
Qed.

Lemma ziplistFind_ok zl A B s (skip : nat) :
  zl_rep zl (A ++ B) → Z.of_nat skip < 2 ^ 31 →
  ziplistFind zl (at_ A) s (Z.of_nat skip) = Some ((λ j, at_ (A ++ take j B)) <$> first_match skip 0 (val <$> B) s).
Proof.
  intros Hr Hskip. unfold ziplistFind. rewrite swrap_small by lia. apply (find_loop_ok zl s skip B (length zl) A 0%nat 0 0); [done| |by left].
  pose proof (rep_fuel _ _ Hr) as Hf. rewrite length_app in Hf. lia.
Qed.
End navigation.
