(* ===== verification/ZiplistThms.v ===== *)
(** * What ziplists promise: the theorems

    A ziplist is the list of the texts it shows: bytes as they are, integers in
    decimal.  Insertion, deletion, indexing from both ends, iteration in both
    directions, reading, searching and counting are those operations on the
    list of texts, whatever encodings the bytes use.  One insertion is not:
    [ziplistInsert_overrun] shows where the code leaves its block. *)

From S2P Require Import Prelude Endian Util Ziplist ZiplistSpec ZiplistOps ZiplistDelete ZiplistNav.
From stdpp Require Import sets.
Local Open Scope Z_scope.

(** The text a value shows. *)
Definition shows (v : zval) (t : list Z) : Prop :=
  match v with VStr bs => bs = t | VInt _ n => decimal_repr n t end.

Lemma int_ok_range e v : int_ok e v → LLONG_MIN ≤ v ≤ LLONG_MAX.
Proof. unfold int_ok, LLONG_MIN, LLONG_MAX, ZIP_INT_IMM_MIN, ZIP_INT_IMM_MAX. lia. Qed.

Lemma zipTryEncoding_repr s n e : zipTryEncoding s = Some (n, e) → decimal_repr n s.
Proof.
  unfold zipTryEncoding. destruct (_ || _); [done|]. destruct (string2ll s) as [w|] eqn:Es; [|done]. bsimpl. intros [= -> _].
  by apply string2ll_repr in Es as [? _].
Qed.

(** Every text of a 64-bit integer is short enough to be encoded. *)
Lemma repr_zipTryEncoding s n :
  decimal_repr n s → LLONG_MIN ≤ n ≤ LLONG_MAX → ∃ e, zipTryEncoding s = Some (n, e).
Proof.
  intros Hs Hn. pose proof (decimal_repr_len _ _ Hs Hn). unfold zipTryEncoding.
  rewrite Z.geb_leb, (proj2 (Z.leb_gt _ _)), (proj2 (Z.eqb_neq _ _)) by lia. cbn [orb].
  rewrite (proj2 (string2ll_repr s n)) by done. bsimpl. by eexists.
Qed.

Lemma enc_value_shows s : shows (enc_value s) s.
Proof. unfold enc_value. destruct (zipTryEncoding s) as [[n e]|] eqn:E; [by eapply zipTryEncoding_repr|done]. Qed.

(** Comparing with a value is comparing with its text. *)
Lemma zmatch_shows v t s : val_ok v → shows v t → zmatch v s = bool_decide (t = s).
Proof.
  intros Hv Ht. destruct v as [bs|e n]; cbn [zmatch shows] in *; [by rewrite Ht|]. apply int_ok_range in Hv.
  destruct (zipTryEncoding s) as [[n' e']|] eqn:E.
  - pose proof E as Hs%zipTryEncoding_repr. apply eq_bool_prop_intro. rewrite Is_true_true, Z.eqb_eq, bool_decide_spec. split.
    + intros ->. by eapply decimal_repr_unique.
    + intros ->. destruct (repr_zipTryEncoding s n) as [e2 E2]; [done..|]. rewrite E2 in E. by injection E.
  - symmetry. apply bool_decide_eq_false. intros ->. destruct (repr_zipTryEncoding s n) as [e2 E2]; [done..|]. by rewrite E2 in E.
Qed.

(** The ziplist [zl] holds the list of texts [ts]. *)
Definition texts (zl : list Z) (ts : list (list Z)) : Prop :=
  ∃ es, zl_rep zl es ∧ Forall2 shows (val <$> es) ts.

(** What is stored for a text beside its length fields. *)
Definition stored_bytes (s : list Z) : Z :=
  match zipTryEncoding s with Some (_, e) => zipIntSize e | None => len s end.

(** What [ziplistGet] returned for the text [t]. *)
Definition reads (zl : list Z) (v : zlvalue) (t : list Z) : Prop :=
  match v with ZStr p n => mread zl p n = Some t | ZInt n => decimal_repr n t end.

(** The positions a search looks at: one, then every [skip + 1]. *)
Definition due (skip cnt j : nat) : Prop := ∃ k, j = (cnt + k * S skip)%nat.

Lemma due_0 skip j : due skip 0 (S j) → due skip skip j.
Proof. intros [[|k] E]; [lia|]. exists k. lia. Qed.
Lemma due_0' skip j : due skip skip j → due skip 0 (S j).
Proof. intros [k ->]. exists (S k). lia. Qed.
Lemma due_S skip cnt j : due skip (S cnt) (S j) ↔ due skip cnt j.
Proof. split; intros [k E]; exists k; lia. Qed.

Lemma first_match_spec skip s ts : ∀ cnt vs,
  Forall2 shows vs ts → Forall val_ok vs →
  match first_match skip cnt vs s with
  | None => ∀ j, due skip cnt j → ts !! j ≠ Some s
  | Some j => due skip cnt j ∧ ts !! j = Some s ∧ ∀ j', (j' < j)%nat → due skip cnt j' → ts !! j' ≠ Some s
  end.
Proof.
  induction ts as [|t ts IH]; intros cnt vs Hvs Hok; [apply Forall2_nil_inv_r in Hvs as ->; done|].
  apply Forall2_cons_inv_r in Hvs as (v & vs' & Hv & Hvs & ->). apply Forall_cons in Hok as [Hok1 Hok]. cbn [first_match].
  destruct cnt as [|cnt].
  - rewrite (zmatch_shows _ _ s Hok1 Hv). case_bool_decide as Ht.
    + split; [by exists 0%nat|]. split; [by subst|lia].
    + specialize (IH skip _ Hvs Hok). destruct (first_match skip skip vs' s) as [j|]; cbn.
      * destruct IH as (Hd & Hj & Hmin). split; [by apply due_0'|]. split; [done|]. intros [|j'] Hj' Hd'; [naive_solver|].
        apply Hmin; [lia|by apply due_0].
      * intros [|j] Hd; [naive_solver|]. by apply IH, due_0.
  - specialize (IH cnt _ Hvs Hok). destruct (first_match skip cnt vs' s) as [j|]; cbn.
    + destruct IH as (Hd & Hj & Hmin). split; [by apply due_S|]. split; [done|]. intros [|j'] Hj' Hd'; [destruct Hd'; lia|].
      apply Hmin; [lia|by apply due_S].
    + intros [|j] Hd; [destruct Hd; lia|]. by apply IH, due_S.
Qed.

Section theorems.
Context `{Host} (junk : nat → Z).

Lemma texts_rep zl ts :
  texts zl ts → ∃ es, zl_rep zl es ∧ Forall2 shows (val <$> es) ts ∧ length ts = length es ∧
    len zl = 11 + tot es ∧ 2 * len ts ≤ tot es.
Proof.
  intros (es & Hr & Hs). exists es. pose proof (Forall2_length _ _ _ Hs) as Hl. rewrite length_fmap in Hl.
  pose proof (rep_len _ _ Hr) as (? & ? & _). rewrite Hl in *. done.
Qed.

(** The entry at a position. *)
Lemma texts_split es ts i :
  Forall2 shows (val <$> es) ts → (i < length ts)%nat →
  ∃ e es2 t, es = take i es ++ e :: es2 ∧ drop i es = e :: es2 ∧ ts !! i = Some t ∧ shows (val e) t.
Proof.
  intros Hs Hi. pose proof (Forall2_length _ _ _ Hs) as Hl. rewrite length_fmap in Hl.
  destruct (lookup_lt_is_Some_2 es i) as [e He]; [lia|]. destruct (lookup_lt_is_Some_2 ts i Hi) as [t Ht].
  exists e, (drop (S i) es), t. split; [by rewrite take_drop_middle|]. split; [by apply drop_S|]. split; [done|].
  eapply (Forall2_lookup_lr _ _ _ _ _ _ Hs); [|done]. by rewrite list_lookup_fmap, He.
Qed.

Lemma position_lt k n i : 0 ≤ n → position k n = Some i → (Z.of_nat i < n).
Proof. unfold position. repeat case_match; intros ? [= <-]; lia. Qed.

Lemma rep_wide zl A e B : zl_rep zl (A ++ e :: B) → psz e = 5 → mget zl (at_ A) = Some ZIP_BIGLEN.
Proof.
  intros (pre & -> & Hl & (Hp & _) & _)%rep_at He. cbn [ents]. unfold ebytes. rewrite He. cbn. by apply mget_app.
Qed.


Lemma stored_len s : stored_bytes s = len (vbody (enc_value s)).
Proof.
  unfold stored_bytes, enc_value. destruct (zipTryEncoding s) as [[n e]|] eqn:E; [|done]. symmetry. apply vbody_int_len.
  by eapply zipTryEncoding_ok.
Qed.

(** A value in two bytes or more leaves room to shrink the next length field. *)
Lemma insert_fits zl A e B l s :
  zl_rep zl (A ++ e :: B) → len s < 2 ^ 32 → (mget zl (at_ A) = Some ZIP_BIGLEN → 2 ≤ stored_bytes s) →
  let new := mkEnt (prev_size l) (enc_value s) in 0 ≤ esz new + (prev_size (esz new) - psz e).
Proof.
  intros Hr Hs Hw new. pose proof Hr as (_ & _ & _ & Hc & _)%rep_at. apply chain_esz in Hc as [_ Hps].
  pose proof (rep_wide _ _ _ _ Hr) as Hwide. rewrite stored_len in Hw. pose proof (enc_value_ok s Hs) as Hok.
  pose proof (vhead_length _ Hok). pose proof (vbody_length _ Hok). pose proof (prev_size_cases l). pose proof (prev_size_cases (esz new)).
  unfold esz, new, vbytes in *. cbn [psz val] in *. rewrite length_app in *. destruct Hps as [Hp|Hp]; rewrite Hp in *; [lia|].
  specialize (Hw (Hwide eq_refl)). lia.
Qed.

Lemma insert_texts zl ts es i s :
  zl_rep zl es → Forall2 shows (val <$> es) ts → (i ≤ length es)%nat →
  len zl + 4 * len es + len s + 48 < 2 ^ 32 →
  (mget zl (at_ (take i es)) = Some ZIP_BIGLEN → 2 ≤ stored_bytes s) →
  ∃ zl', __ziplistInsert junk zl (at_ (take i es)) s = Some zl' ∧ texts zl' (take i ts ++ s :: drop i ts).
Proof.
  intros Hr Hs Hi Hb Hw. pose proof (rep_len _ _ Hr) as (Hl & _ & _). pose proof (Forall2_length _ _ _ Hs) as Hlen. rewrite length_fmap in Hlen.
  assert (∀ f, (val <$> f) = (val <$> drop i es) → ∀ p, Forall2 shows (val <$> take i es ++ mkEnt p (enc_value s) :: f) (take i ts ++ s :: drop i ts)) as Hf.
  { intros f Hf p. rewrite fmap_app, fmap_cons, Hf, fmap_take, fmap_drop. apply Forall2_app; [by apply Forall2_take|].
    constructor; [apply enc_value_shows|by apply Forall2_drop]. }
  destruct (drop i es) as [|e es2] eqn:Ed.
  - assert (i = length es) as -> by (apply (f_equal length) in Ed; rewrite length_drop in Ed; cbn in Ed; lia).
    rewrite firstn_all in *. destruct (insert_end_ok junk zl es s Hr) as (zl' & Hz & Hr'); [lia|lia|]. exists zl'. split; [done|].
    eexists. split; [exact Hr'|]. by apply Hf.
  - assert (es = take i es ++ e :: es2) as Esplit by (rewrite <- Ed; symmetry; apply take_drop).
    assert (len es2 ≤ len es) by (rewrite Esplit, length_app; cbn; lia). rewrite Esplit in Hr.
    pose proof (insert_fits _ _ _ _ (lastsz 0 (take i es)) s Hr ltac:(lia) Hw) as Hfit. rewrite Esplit in Hl.
    destruct (insert_mid_ok junk zl (take i es) e es2 s Hr) as (zl' & Hz & Hr'); [lia|lia|done|]. exists zl'. split; [done|].
    eexists. split; [exact Hr'|]. apply Hf. apply refit_vals.
Qed.

(** The ten bytes of the header and the end byte of a new list. *)
Lemma ziplistNew_ok zl : ziplistNew junk = Some zl → zl_rep zl [].
Proof.
  unfold ziplistNew. change (zrealloc junk [] (ZIPLIST_HEADER_SIZE + 1)) with ((junk <$> seq 0 4) ++ (junk <$> seq 4 4) ++ (junk <$> seq 8 2) ++ [junk 10%nat]).
  unfold set_ZIPLIST_BYTES, set_ZIPLIST_TAIL_OFFSET, set_ZIPLIST_LENGTH. change (ZIPLIST_HEADER_SIZE + 1) with (u32 11).
  change ZIPLIST_HEADER_SIZE with (u32 10). rewrite !host_bytes_intrev32ifbe.
  assert (host_bytes 2 0 = le_bytes 2 0) as -> by (unfold host_bytes; by destruct big_endian).
  set (a := le_bytes 4 11). set (b := le_bytes 4 10). set (c := le_bytes 2 0).
  rewrite <- (app_nil_l ((junk <$> seq 0 4) ++ _)), mwrite_app by done. bsimpl. cbn [app].
  rewrite mwrite_app by done. bsimpl. rewrite (app_assoc a), mwrite_app by done. bsimpl.
  rewrite (app_assoc _ c). rewrite mset_app by done. intros [= <-]. exists 0. cbn [ents app tot tail_off]. split; [by vm_compute|].
  split; [done|]. split; [done|]. by right.
Qed.

Lemma ziplistNew_total : ∃ zl, ziplistNew junk = Some zl ∧ len zl = 11.
Proof.
  unfold ziplistNew, set_ZIPLIST_BYTES, set_ZIPLIST_TAIL_OFFSET, set_ZIPLIST_LENGTH, host_bytes.
  destruct big_endian; eexists; (split; [reflexivity|done]).
Qed.

Lemma push_tail_texts zl ts s :
  texts zl ts → len zl + 4 * len ts + len s + 48 < 2 ^ 32 →
  ∃ zl', ziplistPush junk zl s ZIPLIST_TAIL = Some zl' ∧ texts zl' (ts ++ [s]) ∧ len zl' ≤ len zl + len s + 18.
Proof.
  intros (es & Hr & Hs & Hlen & Hl & Ht)%texts_rep Hb. pose proof (rep_len _ _ Hr) as (_ & _ & Hlt). rewrite Hl in *.
  unfold ziplistPush, ZIPLIST_ENTRY_END. change (ZIPLIST_TAIL =? ZIPLIST_HEAD) with false. cbv iota.
  pose proof Hr as (lf & Ez & _). destruct (read_bytes (11 + tot es) (10 + tail_off es) lf (ents 0 es ++ [ZIP_END])) as (x & Hx & Hx'); [lia|].
  rewrite Ez, Hx, <- Ez. bsimpl. rewrite Hx'. replace (11 + tot es - 1) with (10 + tot es) by lia.
  destruct (insert_end_ok junk zl es s Hr) as (zl' & Hz & Hr'); [lia|lia|]. exists zl'. split; [done|]. split.
  - eexists. split; [exact Hr'|]. rewrite fmap_app. apply Forall2_app; [done|]. constructor; [apply enc_value_shows|done].
  - pose proof (rep_len _ _ Hr') as (-> & _). rewrite tot_app. cbn [tot]. unfold esz, vbytes. cbn [psz val]. rewrite length_app, Nat2Z.inj_add, <- stored_len.
    assert (len s < 2 ^ 32) as Hs32 by lia. pose proof (vhead_length _ (enc_value_ok s Hs32)). pose proof (prev_size_cases (lastsz 0 es)).
    assert (stored_bytes s ≤ len s + 8); [|lia]. unfold stored_bytes. destruct (zipTryEncoding s) as [[n e]|] eqn:Et; [|lia].
    apply zipTryEncoding_ok, int_enc_facts in Et as (_ & _ & ? & _). lia.
Qed.

(** C21. Insertion at the place of the [i]th text puts the new text before it,
    whatever the encodings and however far the length fields cascade, and stays
    in its block; but not always: a text that is stored in less than two bytes
    must not go before an entry whose field for the length of the entry in front
    of it is wide.  There the code shrinks the block before it moves the entries
    up, and reads past its end: [ziplistInsert_overrun]. *)
Theorem ziplistInsert_refines zl ts k i p s :
  texts zl ts → ziplistIndex zl k = Some (Some p) → position k (len ts) = Some i →
  len zl + 4 * len ts + len s + 48 < 2 ^ 32 →
  (mget zl p = Some ZIP_BIGLEN → 2 ≤ stored_bytes s) →
  ∃ zl', ziplistInsert junk zl p s = Some zl' ∧ texts zl' (take i ts ++ s :: drop i ts).
Proof.
  intros Ht Hp Hi Hb Hw. apply texts_rep in Ht as (es & Hr & Hs & Hlen & _). rewrite Hlen in *.
  rewrite (ziplistIndex_ok _ _ _ Hr), Hi in Hp. injection Hp as <-. apply position_lt in Hi; [|lia].
  apply insert_texts; [done|done|lia|done|done].
Qed.

(** Pushing puts the new text at the head or at the tail, starting from
    the empty list [ziplistNew] makes. *)
Theorem ziplistPush_refines zl ts s where_ :
  (ts = [] ∧ ziplistNew junk = Some zl) ∨ texts zl ts →
  len zl + 4 * len ts + len s + 48 < 2 ^ 32 →
  (where_ = ZIPLIST_HEAD → mget zl ZIPLIST_HEADER_SIZE = Some ZIP_BIGLEN → 2 ≤ stored_bytes s) →
  ∃ zl', ziplistPush junk zl s where_ = Some zl' ∧ texts zl' (if where_ =? ZIPLIST_HEAD then s :: ts else ts ++ [s]).
Proof.
  intros Ht Hb Hw. assert (texts zl ts) as Ht'.
  { destruct Ht as [[-> Hn]|]; [|done]. exists []. split; [by apply ziplistNew_ok|constructor]. }
  clear Ht. pose proof Ht' as (es & Hr & Hs & Hlen & _)%texts_rep. unfold ziplistPush.
  destruct (Z.eqb_spec where_ ZIPLIST_HEAD) as [Hh|Hh]; bsimpl.
  - apply (insert_texts zl ts es 0 s); [done|done|lia|lia|]. by apply Hw.
  - destruct (push_tail_texts zl ts s) as (zl' & Hz & Ht2 & _); [done|lia|]. exists zl'. split; [|done]. rewrite <- Hz.
    unfold ziplistPush. by rewrite (proj2 (Z.eqb_neq _ _)) by done.
Qed.

(** The text read from the entry after [A]. *)
Lemma got_reads zl A e B t : zl_rep zl (A ++ e :: B) → shows (val e) t → reads zl (got A e) t.
Proof.
  intros Hr Hsh. unfold got. destruct (val e) as [bs|ev n] eqn:Hve; cbn [shows reads] in *; [|done].
  subst t. rewrite <- Hve. by eapply rep_string.
Qed.

Lemma delete_texts zl ts es i num :
  zl_rep zl es → Forall2 shows (val <$> es) ts → (i < length es)%nat → 0 ≤ num →
  len zl + 4 * len es + 4 < 2 ^ 32 →
  ∃ zl', __ziplistDelete junk zl (at_ (take i es)) num = Some zl' ∧ texts zl' (take i ts ++ drop (i + Z.to_nat num) ts).
Proof.
  intros Hr Hs Hi Hn Hb. pose proof (rep_len _ _ Hr) as (Hl & Ht2 & _). pose proof (Forall2_length _ _ _ Hs) as Hlen. rewrite length_fmap in Hlen.
  destruct (texts_split es ts i Hs ltac:(lia)) as (e & es2 & t & Esplit & Ed & _ & _).
  pose proof Hr as Hr'. rewrite Esplit in Hr'. destruct (decide (num = 0)) as [-> |Hn0].
  - exists zl. destruct (rep_entry _ _ _ _ Hr') as (b & Hb' & Hne & _ & _ & He). unfold __ziplistDelete. rewrite He. bsimpl.
    destruct (length zl) eqn:El; [lia|].
    cbn [delete_skip]. rewrite Hb'. bsimpl. rewrite Hne. cbn [negb andb]. change (0 <? 0) with false. cbv iota. bsimpl. cbn [ep].
    rewrite Z.sub_diag. cbn [u32]. change (u32 0 >? 0) with false. cbv iota. split; [done|]. rewrite Nat.add_0_r, take_drop. by exists es.
  - assert (len es2 + 1 ≤ len es) by (apply (f_equal length) in Ed; rewrite length_drop in Ed; cbn in Ed; lia).
    destruct (delete_ok junk zl (take i es) e es2 num Hr') as (zl' & Hz & Hz'); [rewrite <- Esplit; lia|lia|].
    exists zl'. split; [done|]. eexists. split; [exact Hz'|]. rewrite <- Ed, fmap_app, refit_vals, drop_drop, fmap_take, fmap_drop.
    apply Forall2_app; [by apply Forall2_take|by apply Forall2_drop].
Qed.

(** C27. Deletion of one text at its place, and of a range by index: the other
    texts stay, in their order. *)
Theorem ziplistDelete_refines zl ts k num :
  texts zl ts → 0 ≤ num → len zl + 4 * len ts + 4 < 2 ^ 32 →
  (∃ zl', ziplistDeleteRange junk zl k num = Some zl' ∧
     texts zl' (match position (s32 k) (len ts) with
                | Some i => take i ts ++ drop (i + Z.to_nat num) ts
                | None => ts
                end)) ∧
  (∀ p i, ziplistIndex zl k = Some (Some p) → position k (len ts) = Some i →
     ∃ zl', ziplistDelete junk zl p = Some (zl', p) ∧ texts zl' (take i ts ++ drop (i + 1) ts)).
Proof.
  intros Ht Hn Hb. pose proof Ht as (es & Hr & Hs & Hlen & _)%texts_rep. rewrite Hlen in *. split.
  - unfold ziplistDeleteRange. rewrite (ziplistIndex_ok _ _ _ Hr). destruct (position _ _) as [i|] eqn:Hi; bsimpl; [|by exists zl].
    apply position_lt in Hi; [|lia]. by apply delete_texts; [| |lia| |].
  - intros p i Hp Hi. rewrite (ziplistIndex_ok _ _ _ Hr), Hi in Hp. injection Hp as <-. apply position_lt in Hi; [|lia].
    destruct (delete_texts zl ts es i 1) as (zl' & Hz & Ht'); [done|done|lia|lia|done|]. exists zl'. unfold ziplistDelete. by rewrite Hz.
Qed.

(** C28. Indices from either end find the texts and fail exactly outside the
    list; steps go to the neighbours and stop at the ends; reading gives the
    text, comparing compares with it, and the length is the number of texts. *)
Theorem ziplist_reads zl ts :
  texts zl ts →
  ∃ offs : nat → Z,
    (∀ k, ziplistIndex zl k = Some (offs <$> position k (len ts))) ∧
    (∀ i t, ts !! i = Some t →
       ziplistNext zl (offs i) = Some (if (S i <? length ts)%nat then Some (offs (S i)) else None) ∧
       ziplistPrev zl (offs i) = Some (match i with O => None | S i' => Some (offs i') end) ∧
       (∃ v, ziplistGet zl (offs i) = Some (Some v) ∧ reads zl v t) ∧
       (∀ s, ziplistCompare zl (offs i) s = Some (bool_decide (t = s)))) ∧
    ziplistPrev zl (offs (length ts)) = Some (match length ts with O => None | S i' => Some (offs i') end) ∧
    (∃ zl', ziplistLen zl = Some (zl', len ts) ∧ texts zl' ts).
Proof.
  intros Ht. pose proof Ht as (es & Hr & Hs & Hlen & _)%texts_rep. exists (λ i, at_ (take i es)).
  assert (∀ i e es2, es = take i es ++ e :: es2 → ziplistPrev zl (at_ (take i es)) =
    Some (match i with O => None | S i' => Some (at_ (take i' es)) end)) as Hprev.
  { intros i e es2 Es. pose proof Hr as Hr'. rewrite Es in Hr'. rewrite (ziplistPrev_ok _ _ _ Hr'). do 2 f_equal. destruct i as [|i]; [done|].
    pose proof (f_equal length Es) as El. rewrite length_app, length_take in El. cbn [length] in El.
    destruct (lookup_lt_is_Some_2 es i) as [x Hx]; [lia|]. rewrite (take_S_r _ _ _ Hx), last_snoc, at_snoc. f_equal. lia. }
  rewrite Hlen. split; [intros k; by apply ziplistIndex_ok|]. split; [|split].
  - intros i t Hi. pose proof (lookup_lt_Some _ _ _ Hi) as Hlt. destruct (texts_split es ts i Hs Hlt) as (e & es2 & t' & Es & Ed & Ht' & Hsh).
    rewrite Hi in Ht'. injection Ht' as <-. pose proof Hr as Hr'. rewrite Es in Hr'. pose proof (rep_val _ _ _ _ Hr') as Hok. split; [|split; [|split]].
    + rewrite (ziplistNext_ok _ _ _ _ Hr'). do 2 f_equal. pose proof (f_equal length Ed) as El. rewrite length_drop in El. cbn [length] in El.
      destruct es2 as [|e2 es2]; cbn [length] in El; [by rewrite (proj2 (Nat.ltb_ge _ _)) by lia|]. rewrite (proj2 (Nat.ltb_lt _ _)) by lia.
      destruct (lookup_lt_is_Some_2 es i) as [x Hx]; [lia|]. rewrite (take_S_r _ _ _ Hx). do 3 f_equal.
      rewrite (drop_S _ _ _ Hx) in Ed. by injection Ed as ->.
    + by eapply Hprev.
    + exists (got (take i es) e). split; [by eapply ziplistGet_ok|by eapply got_reads].
    + intros s. rewrite (ziplistCompare_ok _ _ _ _ s Hr'). by rewrite (zmatch_shows _ t).
  - rewrite firstn_all. pose proof Hr as Hr'. rewrite <- (app_nil_r es) in Hr'. rewrite (ziplistPrev_ok _ _ _ Hr'). do 2 f_equal.
    destruct es as [|e es' _] using rev_ind; [done|]. rewrite last_snoc, at_snoc, length_app, Nat.add_1_r, take_app_length. f_equal. lia.
  - destruct (ziplistLen_ok _ _ Hr) as (zl' & Hz & Hr'). exists zl'. split; [done|]. by exists es.
Qed.

(** Searching from the place of the [i]th text, with [skip] texts left out
    between those looked at, finds the first place that is looked at and holds
    the text wanted. *)
Theorem ziplistFind_spec zl ts k p i s (skip : nat) :
  texts zl ts → ziplistIndex zl k = Some (Some p) → position k (len ts) = Some i → Z.of_nat skip < 2 ^ 31 →
  ∃ r, ziplistFind zl p s (Z.of_nat skip) = Some r ∧
    match r with
    | None => ∀ j, due skip i j → ts !! j ≠ Some s
    | Some q => ∃ j : nat, ziplistIndex zl (Z.of_nat j) = Some (Some q) ∧ due skip i j ∧ ts !! j = Some s ∧
        ∀ j', (j' < j)%nat → due skip i j' → ts !! j' ≠ Some s
    end.
Proof.
  intros Ht Hp Hi Hskip. apply texts_rep in Ht as (es & Hr & Hs & Hlen & _). rewrite Hlen in *.
  rewrite (ziplistIndex_ok _ _ _ Hr), Hi in Hp. injection Hp as <-. apply position_lt in Hi; [|lia].
  pose proof Hr as Hr'. rewrite <- (take_drop i es) in Hr'. eexists. split; [apply (ziplistFind_ok _ _ _ s skip Hr' Hskip)|].
  assert (Forall val_ok (val <$> drop i es)) as Hok.
  { destruct (rep_at _ _ _ Hr') as (pre & _ & _ & Hc & _). clear - Hc. revert Hc. generalize (lastsz 0 (take i es)).
    induction (drop i es) as [|e B IH]; intros l Hc; [constructor|]. destruct Hc as (_ & Hv & Hc). constructor; [done|by eapply IH]. }
  assert (∀ j, due skip i j → ∃ j', j = (i + j')%nat ∧ due skip 0 j') as Hdue by (intros j [m ->]; exists (m * S skip)%nat; split; [done|by exists m]).
  rewrite fmap_drop in *. pose proof (first_match_spec skip s (drop i ts) 0 _ (Forall2_drop _ _ _ i Hs) Hok) as Hf.
  destruct (first_match _ _ _ _) as [j|]; cbn [fmap option_fmap option_map].
  - destruct Hf as ([m Hm] & Hj & Hmin). rewrite lookup_drop in Hj. exists (i + j)%nat.
    pose proof (lookup_lt_Some _ _ _ Hj) as Hlt. split; [|split; [|split; [done|]]].
    + rewrite (ziplistIndex_ok _ _ _ Hr). unfold position. rewrite (proj2 (Z.ltb_ge _ _)), (proj2 (Z.ltb_lt _ _)) by lia. cbn.
      rewrite Nat2Z.id. do 3 f_equal. symmetry. apply take_take_drop.
    + exists m. lia.
    + intros j' Hj' [j2 [-> Hd2]]%Hdue. rewrite <- lookup_drop. apply Hmin; [lia|done].
  - intros j [j2 [-> Hd2]]%Hdue. rewrite <- lookup_drop. by apply Hf.
Qed.

(** ** Building a list from texts *)

(** Pushing a list of texts at the tail, one after the other. *)
Definition push_all (zl : list Z) (ss : list (list Z)) : option (list Z) :=
  foldl (λ zl s, zl ← zl; ziplistPush junk zl s ZIPLIST_TAIL) (Some zl) ss.

(** Room for the texts and their length fields. *)
Definition budget (ss : list (list Z)) : Z := foldr (λ s n, len s + 22 + n) 0 ss.

Lemma push_all_ok ss : ∀ zl ts,
  texts zl ts → len zl + 4 * len ts + budget ss + 48 < 2 ^ 32 →
  ∃ zl', push_all zl ss = Some zl' ∧ texts zl' (ts ++ ss).
Proof.
  induction ss as [|s ss IH]; intros zl ts Ht Hb; [exists zl; by rewrite app_nil_r|]. unfold budget in *. cbn [foldr] in Hb.
  assert (∀ l, 0 ≤ budget l) as Hpos by (intros l; unfold budget; induction l; cbn [foldr]; lia). pose proof (Hpos ss). unfold budget in *.
  destruct (push_tail_texts zl ts s Ht) as (zl1 & Hz & Ht1 & Hl1); [lia|].
  destruct (IH zl1 (ts ++ [s]) Ht1) as (zl' & Hz' & Ht'); [rewrite length_app; cbn [length]; lia|].
  exists zl'. rewrite <- app_assoc in Ht'. split; [|done]. unfold push_all in *. cbn [foldl mbind option_bind]. by rewrite Hz.
Qed.

(** What is pushed on a new list is read back, text by text, and nothing
    else is there. *)
Theorem ziplist_push_roundtrip ss :
  59 + budget ss < 2 ^ 32 →
  ∃ zl, (zl ← ziplistNew junk; push_all zl ss) = Some zl ∧
    (∀ i s, ss !! i = Some s → ∃ p v, ziplistIndex zl (Z.of_nat i) = Some (Some p) ∧
       ziplistGet zl p = Some (Some v) ∧ reads zl v s) ∧
    ziplistIndex zl (len ss) = Some None.
Proof.
  intros Hb. destruct ziplistNew_total as (zl0 & Hz0 & Hl0). rewrite Hz0. bsimpl.
  destruct (push_all_ok ss zl0 []) as (zl & Hz & es & Hr & Hs).
  { exists []. split; [by apply ziplistNew_ok|constructor]. }
  { cbn [length]. lia. }
  exists zl. split; [done|]. cbn [app] in Hs. pose proof (Forall2_length _ _ _ Hs) as Hlen. rewrite length_fmap in Hlen. split.
  - intros i s Hi. pose proof (lookup_lt_Some _ _ _ Hi) as Hlt. destruct (texts_split es ss i Hs Hlt) as (e & es2 & t & Es & _ & Ht & Hsh).
    rewrite Hi in Ht. injection Ht as <-. exists (at_ (take i es)), (got (take i es) e). rewrite (ziplistIndex_ok _ _ _ Hr). unfold position.
    rewrite (proj2 (Z.ltb_ge _ _)), (proj2 (Z.ltb_lt _ _)), Nat2Z.id by lia. split; [done|]. rewrite Es in Hr. split; [by eapply ziplistGet_ok|].
    by eapply got_reads.
  - rewrite (ziplistIndex_ok _ _ _ Hr). unfold position. by rewrite (proj2 (Z.ltb_ge _ _)), (proj2 (Z.ltb_ge _ _)) by lia.
Qed.
End theorems.

(** An insertion the code gets wrong: a text stored in less than two bytes
    goes before an entry with a wide length field. The block is shrunk before
    the entries are moved up, and the move reads past its end. *)
Theorem ziplistInsert_overrun (junk := λ _ : nat, 170) (host := little_host) :
  (zl ← ziplistNew junk;
   zl ← ziplistPush junk zl (replicate 260 97) ZIPLIST_TAIL;
   zl ← ziplistPush junk zl (replicate 247 98) ZIPLIST_TAIL;
   zl ← ziplistPush junk zl (str "c") ZIPLIST_TAIL;
   '(zl, _) ← ziplistDelete junk zl ZIPLIST_HEADER_SIZE;
   p ← ziplistIndex zl 1; p ← p;
   Some (ziplistInsert junk zl p (str "1"))) = Some None.
Proof. vm_compute. reflexivity. Qed.

(** ** Witnesses *)

#[local] Existing Instance little_host.
Definition fill : nat → Z := λ _, 170.

(** A list of a string, an integer of two bytes and an immediate integer. *)
Definition demo_texts : list (list Z) := [str "hello"; str "-3000"; str "7"].
Definition demo : list Z := Eval vm_compute in default [] (zl ← ziplistNew fill; push_all fill zl demo_texts).

Lemma demo_holds : texts demo demo_texts.
Proof.
  exists [mkEnt 1 (VStr (str "hello")); mkEnt 1 (VInt ZIP_INT_16B (-3000)); mkEnt 1 (VInt 0xf8 7)]. split.
  - exists 3. split; [by vm_compute|]. unfold lf_ok, UINT16_MAX. split; [|split; [done|right; done]]. cbn [chain val psz].
    unfold prev_ok, val_ok, int_ok.
    split_and!; first [left; by vm_compute|by vm_compute|right; left; by vm_compute|do 5 right; by vm_compute].
  - repeat constructor; cbn [shows]; by apply string2ll_repr.
Qed.

Lemma ziplistInsert_refines_witness :
  ∃ zl', ziplistInsert fill demo 17 (str "12") = Some zl' ∧ texts zl' [str "hello"; str "12"; str "-3000"; str "7"].
Proof. apply (ziplistInsert_refines fill demo demo_texts (-2) 1 17 (str "12")); [apply demo_holds|by vm_compute..]. Defined.

Lemma ziplistPush_refines_witness :
  ∃ zl', ziplistPush fill demo (str "x") ZIPLIST_HEAD = Some zl' ∧ texts zl' (str "x" :: demo_texts).
Proof.
  apply (ziplistPush_refines fill demo demo_texts (str "x") ZIPLIST_HEAD); [right; apply demo_holds|by vm_compute..].
Defined.

Lemma ziplistDelete_refines_witness :
  ∃ zl', ziplistDeleteRange fill demo (2 ^ 32 - 2) 1 = Some zl' ∧ texts zl' [str "hello"; str "7"].
Proof. apply (ziplistDelete_refines fill demo demo_texts (2 ^ 32 - 2) 1); [apply demo_holds|by vm_compute..]. Defined.

Lemma ziplist_reads_witness : ∃ zl', ziplistLen demo = Some (zl', 3) ∧ texts zl' demo_texts.
Proof. destruct (ziplist_reads demo demo_texts demo_holds) as (offs & _ & _ & _ & Hl). exact Hl. Defined.

Lemma ziplistFind_spec_witness :
  ∃ r, ziplistFind demo 10 (str "7") (Z.of_nat 1) = Some r ∧
    match r with
    | None => ∀ j, due 1 0 j → demo_texts !! j ≠ Some (str "7")
    | Some q => ∃ j : nat, ziplistIndex demo (Z.of_nat j) = Some (Some q) ∧ due 1 0 j ∧ demo_texts !! j = Some (str "7") ∧
        ∀ j', (j' < j)%nat → due 1 0 j' → demo_texts !! j' ≠ Some (str "7")
    end.
Proof. apply (ziplistFind_spec demo demo_texts 0 10 0 (str "7") 1); [apply demo_holds|by vm_compute..]. Defined.

Lemma ziplist_push_roundtrip_witness :
  ∃ zl, (zl ← ziplistNew fill; push_all fill zl demo_texts) = Some zl ∧
    (∀ i s, demo_texts !! i = Some s → ∃ p v, ziplistIndex zl (Z.of_nat i) = Some (Some p) ∧
       ziplistGet zl p = Some (Some v) ∧ reads zl v s) ∧
    ziplistIndex zl (len demo_texts) = Some None.
Proof. apply (ziplist_push_roundtrip fill demo_texts). by vm_compute. Defined.
